(* ===== verification/_CoqProject ===== *)
-Q . S2P
Prelude.v
Utf8.v
Frames.v
Binds.v
IpNet.v
ClientIp.v
Orgs.v
VisitorAuth.v
Clients.v
Select.v
Route.v
Canary.v
Cache.v
RateLimit.v
Topics.v
PubSub.v
StreamFlow.v
Declare.v
AuditChain.v
SiteRules.v
Sites.v
Limits.v
Grants.v
Users.v
Sessions.v
UsersApi.v
Share.v
Gate.v
Totp.v
Login.v
Units.v
Rows.v
Tokens.v
TokensApi.v
AdminKeys.v
Relay.v
Pairing.v
Tunnel.v
Exchange.v
Dispatch.v
Forward.v
WsProxy.v
Names.v
Expose.v
Registry.v
ExposeManager.v
ExposesApi.v
ExposeRelay.v
OrgStore.v
OrgsApi.v
Scaling.v
Backend.v
Passkeys.v
SingleSignOn.v
Outbound.v
Jwt.v
ForwardAuth.v
Webhooks.v
Layers.v
Explain.v
