(* ===== verification/Prelude.v ===== *)
(** * A verification library for aperio

    aperio is a self-hosted reverse tunnel. A public server
    ([src/aperio-server]) accepts WebSocket tunnels from client processes
    ([src/aperio-client]); each tunnel declares services with hostname and path
    binds, and the server routes a visitor's request to one of them, after
    deciding who the visitor is, whether the service admits the visitor, whether
    a limit is exceeded and whether a cached answer will do. Both programs share
    the configuration crate [src/aperio-config]. Organizations share one server:
    each has its own tokens, users, public listeners and single sign-on.

    ** How the parts are modelled

    Paths below are under [src/aperio-server/src] unless another crate is named.

    The request path, in the order the server runs it:

    - [ClientIp] names the visitor ([routing/client_ip.rs]), with the address
      ranges of [IpNet] ([auth/ip.rs], [aperio-config/src/expose_policy.rs]);
    - [RateLimit] and [Limits] admit or refuse ([state/admission.rs],
      [state/limits.rs], [limits.rs], the slots and flags of [state.rs]);
    - [Binds] decides what a path and a host are matched against
      ([routing/binds.rs]);
    - [SiteRules] and [Sites] are what the server does for a hostname by itself:
      header edits, firewall rules, maintenance windows, gates, limits
      ([sites.rs], [sites/], [headers.rs], [aperio-config/src/sites.rs]);
    - [Clients] is the table of connections and their services
      ([state/client.rs]); [Select] builds the pool and picks a target
      ([routing/select.rs]), with the split of [Canary] ([sites/canary.rs]);
    - [VisitorAuth], [Route] and [Gate] are the visitor gate: what a written
      policy compiles to ([aperio-config/src/auth.rs], [visitor_auth.rs]), what
      the whole pool of a route declares ([routing/route.rs]) and the answer to a
      request ([proxy/gate.rs]), with the links of [Share] ([share.rs]); [Jwt] and
      [ForwardAuth] are its two methods that ask somebody else, the keys of an
      issuer ([jwt.rs]) and an endpoint, from the server or over the tunnel
      ([forward_auth.rs], [forward_auth_tunnel.rs]);
    - [Cache] is the response cache ([cache.rs], [proxy/cache.rs]);
    - [Exchange], [Dispatch], [Forward] and [WsProxy] carry the request: its
      headers and body, the dispatch loop with failover and retries, the handler
      that puts the gates before it, and WebSocket upgrades ([proxy.rs],
      [proxy/forward.rs], [proxy/forward/], [proxy/ws.rs]);
    - [Backend] is the client's end of it: the destination, the headers, the
      circuit breaker, the attempts and the relay of the body
      ([aperio-client/src/proxy/http.rs] and [proxy/http/], [adaptive.rs],
      [aperio-config/src/resilience.rs]).

    The tunnel:

    - [Frames] is its binary framing and compression, both directions
      ([protocol.rs] of both programs), over the UTF-8 decoder of [Utf8];
    - [Pairing] says which releases talk to each other
      ([aperio-config/src/pairing.rs]);
    - [Tunnel] is the life of a connection ([tunnel/ws.rs], [tunnel/ws/ping.rs],
      [tunnel/ws/upgrade.rs]), [Declare] what a heartbeat writes into the table
      ([tunnel/ws/declare.rs], [tunnel/ws/agree.rs]), [Relay] what a connection
      sends back ([tunnel/ws/response.rs], [tunnel/ws/relay.rs]);
    - [StreamFlow] relays a streamed body under flow control
      ([state/stream.rs], [aperio-client/src/flow.rs]);
    - [Topics] and [PubSub] are the messages between the clients of one
      organization ([aperio-config/src/lib.rs], [tunnel/pubsub.rs],
      [tunnel/ws/messaging.rs]).

    Raw tunnels and public listeners:

    - [Names] spells and reads tunnel names, [Expose] states the rules of a
      listener and of an allocation ([aperio-config/src/expose.rs],
      [expose_policy.rs]), [Registry] resolves a name to a connection
      ([tunnel/registry.rs], [expose_manager/resolve.rs]), [ExposeManager] runs
      the listeners ([expose_manager.rs], [store/exposes.rs]), [ExposesApi]
      manages them ([api/exposes.rs]) and [ExposeRelay] admits their visitors
      ([expose_manager/relay.rs], [deny_list.rs]).

    Identity and administration:

    - [Rows] is the table behind every store and its rule for a failed write
      ([store.rs]); [Grants] and [Users] are roles and accounts
      ([store/grants.rs], [store/users.rs]); [Sessions] is sessions and the
      caller a request resolves to ([store/sessions.rs], [auth/session.rs],
      [auth/caller.rs], [auth/scope.rs]);
    - [Totp], [Login], [Passkeys] and [SingleSignOn] are the ways to sign in
      ([totp.rs], [auth.rs], [webauthn.rs], [oidc.rs], [auth/oidc_flow.rs],
      [auth/sso_flow.rs]);
    - [Tokens] and [AdminKeys] are the credentials of tunnels and of scripts
      ([store/tokens.rs], [auth/token.rs], [store/admin_keys.rs], [cli.rs]);
    - [Orgs] is the fence between organizations, [OrgStore] their records and
      panels ([store/orgs.rs], [server/panel.rs]);
    - [UsersApi], [TokensApi] and [OrgsApi] are the handlers over them
      ([api/users.rs], [api/tokens.rs], [api/orgs.rs]);
    - [AuditChain] is the audit log ([store/audit.rs]); [Scaling] the autoscaler
      ([scaling.rs], [store/scaling.rs], [api/scaling.rs]); [Outbound] where the
      server itself may call and by which proxy ([outbound.rs],
      [aperio-config/src/egress.rs]); [Webhooks] the events of an organization
      that are delivered elsewhere ([store/webhooks.rs], [api/webhooks.rs]);
    - [Explain] is the dry run of a request, stage by stage ([api/explain.rs]);
    - [Units] is durations and sizes of the configuration
      ([aperio-config/src/units.rs]) and [Layers] how the client's files,
      environment and command line become one ([aperio-config/src/layers.rs]).

    Each record keeps the fields of its struct, each enum its variants, and each
    function its name, its guards and its early returns. Error texts are the
    cases that produce them, and a refused request is its HTTP status. A hash
    table is the association list of its entries in an unspecified order (where a
    result could depend on that order a theorem says it does not) or a finite
    map; a lock-protected field is a field of the state passed along; an instant
    is a count of nanoseconds. Whether a write to the database or a file
    succeeds, a fresh identifier, a socket's answer and the clock are arguments.
    Where the source works between two locks, on atomics or across awaits
    ([PubSub], [StreamFlow], [Limits], [Dispatch], [Forward], [Passkeys],
    [SingleSignOn], [Jwt], [ForwardAuth], [Scaling]) either the operations are the
    actions of a step relation, or
    an operation takes what the rest of the server did meanwhile, and the
    theorems are about every run.

    Third-party code is a parameter: SHA-256, HMAC and Argon2, zlib (its round
    trip and output bound are hypotheses, met by a concrete codec), Base64 and
    JSON, regular expressions and time zones, the URL parser and the header types
    of the HTTP library, UUIDs, WebAuthn (the class [WebauthnLib] of [Passkeys]),
    signed tokens (the class [JwtLib] of [Jwt]) and identity providers. Floating point is the class [Float] of [RateLimit]:
    its laws are the ones of rounding to nearest the proofs need, and exact
    rationals are an instance.

    ** What the theorems show

    - Routing and gates: a path bind cannot be escaped by traversal, decoded or
      not; the pool of a request for a claimed host is exactly the eligible
      services of that host and its longest bind; a target picked belongs to it,
      admits the visitor and is most primary; a route is public or gated exactly as
      the whole pool says; on a path without dot segments the gate admits only
      through the door in force (on one with them, before a gated host, never
      without a session); no service is asked, and none's cached page is shown
      while it can be chosen, before every gate was passed (the copy shown in an
      outage is asked for after the rate and the gate only).
    - The exchange: failover and retries are bounded and end; what is cached is a
      whole answer; an upload or a body is relayed whole or declared broken;
      reserved identity headers cannot be forged in what is dispatched over the
      tunnel; the client keeps to its target, its attempts and the concurrency it
      announced.
    - Identity: a visitor cannot forge its address behind trusted proxies that
      append to one line; a session exists only for a credential that was proved,
      one-time codes and challenges are used once and in time; a token or an
      endpoint's word counts only from the issuer, or the connection, that was
      asked; what a session reaches is inside its fence; a revoked credential
      stays revoked across failed writes and restarts, and across imports of dumps
      that do not hold it.
    - Tenancy: an organization acts on no host, listener, token, user or
      connection of another; a heartbeat declares only what its token permits;
      messages stay inside their organization under every interleaving; a
      tenant's directory hands out roles in the tenant only; the dry run of a
      request lists no connection of another tenant; the server calls no
      destination its outbound policy does not name.
    - State: stores, listeners and organizations are changed whole or not at all,
      where the writes of one change succeed or fail together; tables stay well
      formed; limiter budgets hold where a bucket refills before it is forgotten;
      the bodies cached stay within the total and the total within its budget, and
      it is exact unless an insert panicked; slots are neither lost nor held
      twice; no more than eight scaling calls are out, and one per record that was
      not removed meanwhile; the audit log refines the list of what was recorded
      and its chain survives every file error but a torn line and an active file
      that cannot be read at a start.
    - Codecs and parsers: the frame decoder accepts exactly what the encoder
      writes; what a decoder inflates is bounded; names, binds, units, versions
      and grants are read back as they were written; a setting has the value of
      the highest layer that writes it.

    Where the code does not do what its comments promise, an [Example] near the
    definitions shows it on a concrete input.

    ** Bounds and fuel

    Integers are [Z] at the width of the source, with saturating and wrapping
    operations written out. Recursions are structural, or on the list of what the
    environment answers (the turns of [Dispatch], the polls of [Backend], the
    samples of [Scaling]), except: decimal printing ([show_aux], fuel one more
    than the binary logarithm, which exceeds the number of digits), the walk over
    rotated log files ([generations_from] of [AuditChain], one more than the files
    there are) and the attempts of a request at its backend ([attempts] of
    [Backend], two more than the attempts allowed; a theorem says it returns). No
    theorem assumes that a computation ends.

    ** What is not modelled

    - Sockets, TLS and ACME, the HTTP and WebSocket libraries, files and the
      database engine: input and output, on third-party crates.
    - Statistics, inbox and uptime stores, telemetry, logs and alerts,
      and the handlers that only print state ([api/metrics.rs],
      [api/export.rs] and their like).
    - The client process around [Backend]: its command line, its configuration,
      its local listeners, its HTTP/2 and Unix-socket paths ([service.rs],
      [serve.rs], [tcp.rs], [udp.rs], [api/], [proxy/h2.rs], [proxy/unix.rs]),
      and its HTTP and MQTT faces of the messages.
    - Configuration files: the serde structures, their schema, their removed
      settings and their documentation. How the layers of a client merge is
      modelled ([Layers]), and the rules read out of a file where they apply.
    - Start, settings, backup and supervision of the server, and the dashboard.

    ** This file

    - [str]: a Rust [str] or byte slice as the list of its bytes, with the
      operations of the Rust standard library the sources use
      ([split], [split_once], [trim], [to_ascii_lowercase], [starts_with],
      [strip_prefix], [find], [parse] of unsigned integers, decimal printing).
    - [result]: Rust's [Result] with a bind notation.
    - machine-width arithmetic: saturating and wrapping operations on [Z].
    - lemmas on lists, options, association lists and runs of operations, the hint
      database [aperio] and the tactics the components use. *)

From Stdlib Require Export Ascii String ZArith Lia.
From Stdlib Require Import Sorting.Sorted.
From stdpp Require Export base list strings sets gmap.

#[export] Set Default Goal Selector "!".

Declare Scope rust_scope.
Delimit Scope rust_scope with rust.
Open Scope Z_scope.

Create HintDb aperio.

(** ** Tactics *)

(** Case analysis on the scrutinee of a [match] or [if] in the goal. *)
Ltac case_goal :=
  match goal with
  | |- context [match ?x with _ => _ end] =>
      lazymatch x with
      | context [match _ with _ => _ end] => fail
      | _ => let E := fresh "E" in destruct x eqn:E
      end
  end.

(** The same in a hypothesis. *)
Ltac case_in H :=
  match type of H with
  | context [match ?x with _ => _ end] =>
      lazymatch x with
      | context [match _ with _ => _ end] => fail
      | _ => let E := fresh "E" in destruct x eqn:E
      end
  end.

(** Turn boolean tests in the context into propositions. *)
Ltac to_prop :=
  repeat match goal with
  | H : _ && _ = true |- _ => apply andb_true_iff in H; destruct H
  | H : _ && _ = false |- _ => apply andb_false_iff in H
  | H : _ || _ = false |- _ => apply orb_false_iff in H; destruct H
  | H : _ || _ = true |- _ => apply orb_true_iff in H
  | H : negb _ = true |- _ => apply negb_true_iff in H
  | H : negb _ = false |- _ => apply negb_false_iff in H
  | H : (_ =? _)%Z = true |- _ => apply Z.eqb_eq in H
  | H : (_ =? _)%Z = false |- _ => apply Z.eqb_neq in H
  | H : (_ <? _)%Z = true |- _ => apply Z.ltb_lt in H
  | H : (_ <? _)%Z = false |- _ => apply Z.ltb_ge in H
  | H : (_ <=? _)%Z = true |- _ => apply Z.leb_le in H
  | H : (_ <=? _)%Z = false |- _ => apply Z.leb_gt in H
  | H : bool_decide _ = true |- _ => apply bool_decide_eq_true in H
  | H : bool_decide _ = false |- _ => apply bool_decide_eq_false in H
  end.

(** ** Results *)

Inductive result (A E : Type) : Type :=
| Ok (a : A)
| Err (e : E).
Arguments Ok {A E} a.
Arguments Err {A E} e.

Definition result_bind {A B E} (r : result A E) (k : A → result B E) : result B E :=
  match r with Ok a => k a | Err e => Err e end.

Notation "'let?' x := r 'in' k" := (result_bind r (fun x => k))
  (at level 10, x name, r at level 100, k at level 200) : rust_scope.

Definition is_ok {A E} (r : result A E) : bool :=
  match r with Ok _ => true | Err _ => false end.

(** ** Machine integers *)

Definition u8_max : Z := 2 ^ 8 - 1.
Definition u16_max : Z := 2 ^ 16 - 1.
Definition u32_max : Z := 2 ^ 32 - 1.
Definition u64_max : Z := 2 ^ 64 - 1.
(** [usize] on the 64-bit targets the project releases for. *)
Definition usize_max : Z := u64_max.

Definition wrap64 (z : Z) : Z := z mod 2 ^ 64.
Definition sat_sub (a b : Z) : Z := Z.max 0 (a - b).
Definition sat_add64 (a b : Z) : Z := Z.min u64_max (a + b).
Definition sat_mul64 (a b : Z) : Z := Z.min u64_max (a * b).
Definition checked_mul64 (a b : Z) : option Z :=
  if a * b <=? u64_max then Some (a * b) else None.

(** Instants and durations are counts of nanoseconds. *)
Definition second : Z := 1000000000.

Lemma wrap64_range z : 0 <= wrap64 z < 2 ^ 64.
Proof. apply Z.mod_pos_bound. lia. Qed.

Lemma wrap64_small z : 0 <= z < 2 ^ 64 → wrap64 z = z.
Proof. apply Z.mod_small. Qed.

(** ** Bytes and strings *)

(** A byte is an 8-bit [ascii]; a string or byte slice is the list of them.
    A Rust [str] is valid UTF-8, and every operation below acts on its bytes
    exactly as the Rust one acts on its characters. *)
Abbreviation str := (list ascii).

Definition bs (s : string) : str := list_ascii_of_string s.
Arguments bs : simpl never.

Definition code (a : ascii) : Z := Z.of_N (N_of_ascii a).
Definition chr (z : Z) : ascii := ascii_of_N (Z.to_N z).

Lemma code_range a : 0 <= code a < 256.
Proof.
  unfold code. pose proof (N_ascii_bounded a). lia.
Qed.

Lemma code_chr z : 0 <= z < 256 → code (chr z) = z.
Proof.
  intros H. unfold code, chr. rewrite N_ascii_embedding; lia.
Qed.

Lemma chr_code a : chr (code a) = a.
Proof. unfold code, chr. rewrite N2Z.id. apply ascii_N_embedding. Qed.

Lemma code_inj a b : code a = code b → a = b.
Proof. intros H. by rewrite <- (chr_code a), H, chr_code. Qed.

Definition len (s : str) : Z := Z.of_nat (length s).

Lemma len_nonneg s : 0 <= len s.
Proof. unfold len. lia. Qed.

Lemma len_nil : len [] = 0.
Proof. done. Qed.

Lemma len_app s t : len (s ++ t) = len s + len t.
Proof. unfold len. rewrite length_app. lia. Qed.

Definition str_eqb (s t : str) : bool := bool_decide (s = t).

Lemma str_eqb_eq s t : str_eqb s t = true ↔ s = t.
Proof. apply bool_decide_eq_true. Qed.

Lemma str_eqb_refl s : str_eqb s s = true.
Proof. by apply str_eqb_eq. Qed.

(** [char::is_ascii_digit], [is_ascii_alphanumeric], [to_ascii_lowercase]. *)
Definition is_digit (a : ascii) : bool := (48 <=? code a) && (code a <=? 57).
Definition is_upper (a : ascii) : bool := (65 <=? code a) && (code a <=? 90).
Definition is_lower (a : ascii) : bool := (97 <=? code a) && (code a <=? 122).
Definition is_alnum (a : ascii) : bool := is_digit a || is_upper a || is_lower a.
Definition lower1 (a : ascii) : ascii := if is_upper a then chr (code a + 32) else a.
Definition lower (s : str) : str := lower1 <$> s.
Definition upper1 (a : ascii) : ascii := if is_lower a then chr (code a - 32) else a.
Definition upper (s : str) : str := upper1 <$> s.

Definition eq_ignore_case (s t : str) : bool := str_eqb (lower s) (lower t).

Lemma code_lower1 a : code (lower1 a) = if is_upper a then code a + 32 else code a.
Proof.
  unfold lower1. destruct (is_upper a) eqn:E; [|done].
  unfold is_upper in E. to_prop. apply code_chr. lia.
Qed.

Lemma lower1_not_upper a : is_upper (lower1 a) = false.
Proof.
  unfold is_upper at 1. rewrite code_lower1.
  destruct (is_upper a) eqn:E; unfold is_upper in E; to_prop; lia.
Qed.

Lemma lower1_idem a : lower1 (lower1 a) = lower1 a.
Proof. unfold lower1 at 1. by rewrite lower1_not_upper. Qed.

Lemma lower_idem s : lower (lower s) = lower s.
Proof.
  unfold lower. rewrite <- list_fmap_compose. apply list_fmap_ext.
  intros. apply lower1_idem.
Qed.

Lemma lower_app s t : lower (s ++ t) = lower s ++ lower t.
Proof. apply fmap_app. Qed.

Lemma length_lower s : length (lower s) = length s.
Proof. apply length_fmap. Qed.

Lemma lower_id s : Forall (fun a => is_upper a = false) s → lower s = s.
Proof.
  induction 1 as [|a s Ha _ IH]; [done|]. simpl. rewrite IH. f_equal.
  unfold lower1. by rewrite Ha.
Qed.

Lemma lower_not_upper s : Forall (fun a => is_upper a = false) (lower s).
Proof. induction s; constructor; auto using lower1_not_upper. Qed.

(** Lowercasing neither creates nor removes a byte that is not a letter. *)
Lemma lower1_fixed a c :
  is_upper c = false → is_lower c = false → lower1 a = c ↔ a = c.
Proof.
  intros Hu Hl. split.
  - intros H. apply code_inj. apply (f_equal code) in H. rewrite code_lower1 in H.
    unfold is_upper, is_lower in *. destruct (_ && _) eqn:E in H; to_prop; lia.
  - intros ->. unfold lower1. by rewrite Hu.
Qed.

(** [contains(c)], [starts_with], [ends_with], [strip_prefix], [contains]. *)
Definition has (c : ascii) (s : str) : bool := existsb (fun a => bool_decide (a = c)) s.

Fixpoint strip_prefix (p s : str) : option str :=
  match p, s with
  | [], _ => Some s
  | a :: p', b :: s' => if decide (a = b) then strip_prefix p' s' else None
  | _ :: _, [] => None
  end.

Definition starts_with (p s : str) : bool :=
  match strip_prefix p s with Some _ => true | None => false end.

Definition ends_with (p s : str) : bool := starts_with (rev p) (rev s).

Fixpoint contains (p s : str) : bool :=
  starts_with p s || match s with [] => false | _ :: s' => contains p s' end.

Lemma strip_prefix_Some p s r : strip_prefix p s = Some r ↔ s = p ++ r.
Proof.
  revert s. induction p as [|a p IH]; intros s; simpl.
  - split; congruence.
  - destruct s as [|b s]; [split; discriminate|].
    destruct (decide (a = b)) as [->|Hn].
    + rewrite IH. split; [by intros ->|congruence].
    + split; [discriminate|congruence].
Qed.

Lemma strip_prefix_app p r : strip_prefix p (p ++ r) = Some r.
Proof. by apply strip_prefix_Some. Qed.

Lemma starts_with_spec p s : starts_with p s = true ↔ ∃ r, s = p ++ r.
Proof.
  unfold starts_with. destruct (strip_prefix p s) as [r|] eqn:E.
  - apply strip_prefix_Some in E. naive_solver.
  - split; [done|]. intros [r ->]. by rewrite strip_prefix_app in E.
Qed.

Lemma ends_with_spec p s : ends_with p s = true ↔ ∃ r, s = r ++ p.
Proof.
  unfold ends_with. rewrite starts_with_spec. split.
  - intros [r Hr]. exists (rev r). apply (f_equal (@rev ascii)) in Hr.
    by rewrite rev_involutive, rev_app_distr, rev_involutive in Hr.
  - intros [r ->]. exists (rev r). apply rev_app_distr.
Qed.

Lemma has_spec c s : has c s = true ↔ c ∈ s.
Proof.
  unfold has. rewrite existsb_exists, list_elem_of_In. split.
  - intros (a & Ha & Heq). to_prop. by subst.
  - intros H. exists c. split; [done|]. by apply bool_decide_eq_true.
Qed.

Lemma has_false c s : has c s = false ↔ c ∉ s.
Proof. rewrite <- has_spec. destruct (has c s); naive_solver. Qed.

Lemma elem_of_lower c s :
  is_upper c = false → is_lower c = false → c ∈ lower s ↔ c ∈ s.
Proof.
  intros Hu Hl. unfold lower. rewrite list_elem_of_fmap. split.
  - intros (a & Ha & Hin). symmetry in Ha. rewrite lower1_fixed in Ha by done. by subst.
  - intros Hin. exists c. split; [|done]. symmetry. by apply lower1_fixed.
Qed.

(** ** Splitting *)

(** [s.split(p)]: the pieces between the bytes satisfying [p]; never empty. *)
Fixpoint split_by (p : ascii → bool) (s : str) : list str :=
  match s with
  | [] => [[]]
  | a :: s' =>
      if p a then [] :: split_by p s'
      else match split_by p s' with
           | h :: t => (a :: h) :: t
           | [] => [[a]]
           end
  end.

Definition is_char (c : ascii) : ascii → bool := fun a => bool_decide (a = c).
Definition split_on (c : ascii) : str → list str := split_by (is_char c).

(** [s.split_once(c)]: around the first [c]. *)
Fixpoint split_once (c : ascii) (s : str) : option (str * str) :=
  match s with
  | [] => None
  | a :: s' =>
      if decide (a = c) then Some ([], s')
      else match split_once c s' with
           | Some (h, t) => Some (a :: h, t)
           | None => None
           end
  end.

(** [s.rsplit_once(c)]: around the last [c]. *)
Definition rsplit_once (c : ascii) (s : str) : option (str * str) :=
  match split_once c (rev s) with
  | Some (h, t) => Some (rev t, rev h)
  | None => None
  end.

Fixpoint join (sep : str) (l : list str) : str :=
  match l with
  | [] => []
  | [s] => s
  | s :: l' => s ++ sep ++ join sep l'
  end.

Lemma split_by_cons p s : ∃ h t, split_by p s = h :: t.
Proof.
  induction s as [|a s (h & t & IH)]; simpl; [eauto|].
  rewrite IH. destruct (p a); eauto.
Qed.

(** No piece holds a separator. *)
Lemma split_by_pieces p s : Forall (Forall (fun a => p a = false)) (split_by p s).
Proof.
  induction s as [|a s IH]; simpl; [by repeat constructor|].
  destruct (p a) eqn:Ha; [by repeat constructor|].
  destruct (split_by p s); inversion IH; repeat constructor; auto.
Qed.

(** Joining what [split_on] produced gives the string back. *)
Lemma join_split_on c s : join [c] (split_on c s) = s.
Proof.
  unfold split_on. induction s as [|a s IH]; simpl; [done|].
  destruct (split_by_cons (is_char c) s) as (h & t & E). rewrite E in *.
  unfold is_char at 1. case_bool_decide as Hc.
  - subst a. change (join [c] ([] :: h :: t)) with ([c] ++ join [c] (h :: t)).
    by rewrite IH.
  - destruct t; simpl in *; by rewrite IH.
Qed.

Lemma split_by_none p s : Forall (fun a => p a = false) s → split_by p s = [s].
Proof. induction 1 as [|a s Ha _ IH]; simpl; [done|]. by rewrite Ha, IH. Qed.

Lemma split_by_app p c s t :
  p c = true → split_by p (s ++ c :: t) = split_by p s ++ split_by p t.
Proof.
  intros Hc. induction s as [|a s IH]; simpl; [by rewrite Hc|].
  rewrite IH. destruct (p a); [done|].
  destruct (split_by_cons p s) as (h & r & ->). done.
Qed.

Lemma split_once_Some c s h t : split_once c s = Some (h, t) ↔ s = h ++ c :: t ∧ c ∉ h.
Proof.
  revert h t. induction s as [|a s IH]; intros h t; simpl.
  - split; [done|]. intros [H _]. destruct h; discriminate.
  - destruct (decide (a = c)) as [->|Hn].
    + split.
      * intros [= <- <-]. split; [done|]. apply not_elem_of_nil.
      * intros [H Hin]. destruct h as [|b h]; simplify_eq/=; [done|].
        exfalso. apply Hin. left.
    + destruct (split_once c s) as [[h' t']|] eqn:E.
      * split.
        -- intros [= <- <-]. destruct (proj1 (IH h' t') eq_refl) as [-> Hni].
           split; [done|]. set_solver.
        -- intros [H Hin]. destruct h as [|b h]; simplify_eq/=.
           destruct (proj1 (IH h' t') eq_refl) as [Hs Hni].
           assert (Some (h', t') = Some (h, t)) by (apply IH; set_solver). by simplify_eq.
      * split; [done|]. intros [H Hin]. destruct h as [|b h]; simplify_eq/=.
        assert (None = Some (h, t)) by (apply IH; set_solver). done.
Qed.

Lemma split_once_None c s : split_once c s = None ↔ c ∉ s.
Proof.
  induction s as [|a s IH]; simpl.
  - split; [intros _; apply not_elem_of_nil|done].
  - destruct (decide (a = c)) as [->|Hn]; [set_solver|].
    destruct (split_once c s) as [[h t]|] eqn:E; [|set_solver].
    split; [done|]. intros Hni. assert (c ∉ s) by set_solver. naive_solver.
Qed.

(** ** Trimming *)

(** [trim_start_matches(p)] and [trim_end_matches(p)] for a predicate on bytes. *)
Fixpoint trim_start_by (p : ascii → bool) (s : str) : str :=
  match s with
  | [] => []
  | a :: s' => if p a then trim_start_by p s' else s
  end.
Definition trim_end_by (p : ascii → bool) (s : str) : str := rev (trim_start_by p (rev s)).
Definition trim_end_char (c : ascii) : str → str := trim_end_by (is_char c).
Definition trim_matches_char (c : ascii) (s : str) : str :=
  trim_end_char c (trim_start_by (is_char c) s).

(** Unicode [White_Space], by the UTF-8 encoding of each code point:
    U+0009..000D, U+0020; U+0085, U+00A0 (C2 85, C2 A0); U+1680 (E1 9A 80),
    U+2000..200A, 2028, 2029, 202F (E2 80 xx), U+205F (E2 81 9F),
    U+3000 (E3 80 80). *)
Definition ws1 (a : ascii) : bool := ((9 <=? code a) && (code a <=? 13)) || (code a =? 32).
Definition ws2 (a b : ascii) : bool :=
  (code a =? 194) && ((code b =? 133) || (code b =? 160)).
Definition ws3 (a b c : ascii) : bool :=
  ((code a =? 225) && (code b =? 154) && (code c =? 128))
  || ((code a =? 226) && (code b =? 128)
      && (((128 <=? code c) && (code c <=? 138)) || (code c =? 168) || (code c =? 169)
          || (code c =? 175)))
  || ((code a =? 226) && (code b =? 129) && (code c =? 159))
  || ((code a =? 227) && (code b =? 128) && (code c =? 128)).

Section TrimWs.
Context (w1 : ascii → bool) (w2 : ascii → ascii → bool) (w3 : ascii → ascii → ascii → bool).
Fixpoint trim_ws (s : str) : str :=
  match s with
  | [] => []
  | a :: s1 =>
      if w1 a then trim_ws s1
      else match s1 with
           | [] => s
           | b :: s2 =>
               if w2 a b then trim_ws s2
               else match s2 with
                    | [] => s
                    | c :: s3 => if w3 a b c then trim_ws s3 else s
                    end
           end
  end.
End TrimWs.

Definition trim_start (s : str) : str := trim_ws ws1 ws2 ws3 s.
Definition trim_end (s : str) : str :=
  rev (trim_ws ws1 (fun a b => ws2 b a) (fun a b c => ws3 c b a) (rev s)).
Definition trim (s : str) : str := trim_end (trim_start s).

Lemma trim_start_by_suffix p s : ∃ h, s = h ++ trim_start_by p s ∧ Forall (fun a => p a = true) h.
Proof.
  induction s as [|a s (h & IH & Hh)]; simpl.
  - exists []. by split.
  - destruct (p a) eqn:Ha.
    + exists (a :: h). split; [by simpl; f_equal|by constructor].
    + exists []. by split.
Qed.

Lemma trim_start_by_head p s a r : trim_start_by p s = a :: r → p a = false.
Proof.
  induction s as [|b s IH]; simpl; [done|].
  destruct (p b) eqn:Hb; [done|]. by intros [= -> ->].
Qed.

Lemma trim_end_by_prefix p s : ∃ t, s = trim_end_by p s ++ t ∧ Forall (fun a => p a = true) t.
Proof.
  destruct (trim_start_by_suffix p (rev s)) as (h & Hs & Hh). exists (rev h).
  unfold trim_end_by. split; [|by apply Forall_rev].
  rewrite <- rev_app_distr, <- Hs. by rewrite rev_involutive.
Qed.

Lemma trim_end_by_last p s r a : trim_end_by p s = r ++ [a] → p a = false.
Proof.
  unfold trim_end_by. intros H. apply (f_equal (@rev ascii)) in H.
  rewrite rev_involutive, rev_app_distr in H. simpl in H. by eapply trim_start_by_head.
Qed.

Lemma trim_start_by_id p s :
  (∀ a r, s = a :: r → p a = false) → trim_start_by p s = s.
Proof. destruct s as [|a s]; [done|]. intros H. simpl. by rewrite (H a s). Qed.

Lemma trim_end_by_id p s :
  (∀ r a, s = r ++ [a] → p a = false) → trim_end_by p s = s.
Proof.
  intros H. unfold trim_end_by. rewrite trim_start_by_id; [apply rev_involutive|].
  intros a r Hr. apply (H (rev r)). apply (f_equal (@rev ascii)) in Hr.
  by rewrite rev_involutive in Hr.
Qed.

(** Printable ASCII has nothing for [trim] to remove. *)
Definition graphic (a : ascii) : bool := (33 <=? code a) && (code a <=? 126).

Lemma trim_ws_graphic w1 w2 w3 s :
  (∀ a, graphic a = true → w1 a = false) →
  (∀ a b, graphic a = true → w2 a b = false) →
  (∀ a b c, graphic a = true → w3 a b c = false) →
  (∀ a r, s = a :: r → graphic a = true) →
  trim_ws w1 w2 w3 s = s.
Proof.
  intros H1 H2 H3 Hs. destruct s as [|a s]; [done|]. simpl.
  specialize (Hs a s eq_refl). rewrite H1 by done.
  destruct s as [|b s]; [done|]. rewrite H2 by done.
  destruct s as [|c s]; [done|]. by rewrite H3.
Qed.

Lemma trim_graphic s : Forall (fun a => graphic a = true) s → trim s = s.
Proof.
  intros Hs.
  assert (Hhd : ∀ t a r, Forall (fun a => graphic a = true) t → t = a :: r → graphic a = true).
  { intros t a r Ht ->. by inversion Ht. }
  unfold trim, trim_end, trim_start.
  rewrite (trim_ws_graphic ws1 ws2 ws3).
  - rewrite trim_ws_graphic; [apply rev_involutive| | | |].
    + unfold graphic, ws1. intros. lia.
    + unfold graphic, ws2. intros. lia.
    + unfold graphic, ws3. intros. lia.
    + intros a r. apply Hhd. by apply Forall_rev.
  - unfold graphic, ws1. intros. lia.
  - unfold graphic, ws2. intros. lia.
  - unfold graphic, ws3. intros. lia.
  - intros a r. by apply Hhd.
Qed.

(** ** Integers in text *)

Definition digit_val (a : ascii) : Z := code a - 48.
Definition digit_chr (d : Z) : ascii := chr (d + 48).

Fixpoint digits_val (acc : Z) (s : str) : Z :=
  match s with
  | [] => acc
  | a :: s' => digits_val (acc * 10 + digit_val a) s'
  end.

(** [s.parse::<uN>()]: an optional [+], at least one digit, digits only, and
    the value within the type; anything else is an error. *)
Definition parse_uint (max : Z) (s : str) : option Z :=
  let ds := match s with a :: s' => if decide (a = "+"%char) then s' else s | [] => s end in
  match ds with
  | [] => None
  | _ => if forallb is_digit ds && (digits_val 0 ds <=? max)
         then Some (digits_val 0 ds) else None
  end.

(** [n.to_string()] for an unsigned integer. The fuel is one more than the
    number of binary digits, and each step drops a decimal one. *)
Fixpoint show_aux (fuel : nat) (n : Z) (acc : str) : str :=
  match fuel with
  | O => acc
  | S f => let acc' := digit_chr (n mod 10) :: acc in
           if n <? 10 then acc' else show_aux f (n / 10) acc'
  end.
Definition show_uint (n : Z) : str := show_aux (S (Z.to_nat (Z.log2 n))) n [].

Lemma digit_chr_spec d : 0 <= d < 10 → is_digit (digit_chr d) = true ∧ digit_val (digit_chr d) = d.
Proof.
  intros H. unfold is_digit, digit_val, digit_chr. rewrite !code_chr by lia. lia.
Qed.

Lemma digits_val_app acc s t : digits_val acc (s ++ t) = digits_val (digits_val acc s) t.
Proof. revert acc. induction s; intros; simpl; auto. Qed.

(** [show_aux] prepends the digits of [n]. *)
Lemma show_aux_spec f n acc :
  0 <= n < 2 ^ Z.of_nat f → (0 < f)%nat →
  ∃ ds, show_aux f n acc = ds ++ acc ∧ ds ≠ [] ∧ forallb is_digit ds = true
        ∧ ∀ b, digits_val b ds = b * 10 ^ len ds + n.
Proof.
  revert n acc. induction f as [|f IH]; intros n acc Hn Hf; [lia|].
  simpl. destruct (digit_chr_spec (n mod 10)) as [Hd Hv]; [apply Z.mod_pos_bound; lia|].
  destruct (n <? 10) eqn:E; to_prop.
  - exists [digit_chr (n mod 10)]. split_and!; [done|done|simpl; by rewrite Hd|].
    intros b. simpl. rewrite Hv, Z.mod_small by lia. change (len _) with 1. lia.
  - rewrite Nat2Z.inj_succ, Z.pow_succ_r in Hn by lia.
    assert (Hq : 0 <= n / 10 < 2 ^ Z.of_nat f).
    { split; [apply Z.div_pos; lia|]. apply Z.div_lt_upper_bound; lia. }
    assert (f ≠ 0%nat) by (intros ->; simpl in Hn; lia).
    destruct (IH (n / 10) (digit_chr (n mod 10) :: acc)) as (ds & Hs & Hne & Hds & Hval);
      [done|lia|].
    exists (ds ++ [digit_chr (n mod 10)]). split_and!.
    + by rewrite Hs, <- app_assoc.
    + by destruct ds.
    + rewrite forallb_app, Hds. simpl. by rewrite Hd.
    + intros b. rewrite digits_val_app, Hval. simpl. rewrite Hv, len_app.
      change (len [_]) with 1. rewrite Z.pow_add_r by (unfold len; lia).
      pose proof (Z.div_mod n 10). lia.
Qed.

Lemma show_uint_spec n :
  0 <= n → show_uint n ≠ [] ∧ forallb is_digit (show_uint n) = true
           ∧ digits_val 0 (show_uint n) = n.
Proof.
  intros Hn. unfold show_uint.
  destruct (show_aux_spec (S (Z.to_nat (Z.log2 n))) n []) as (ds & -> & Hne & Hd & Hv);
    [|lia|rewrite app_nil_r; split_and!; [done|done|by rewrite Hv]].
  rewrite Nat2Z.inj_succ, Z2Nat.id by apply Z.log2_nonneg.
  destruct (Z.eq_dec n 0) as [->|Hz]; [simpl; lia|].
  pose proof (Z.log2_spec n). lia.
Qed.

Lemma is_digit_not_plus a : is_digit a = true → a ≠ "+"%char.
Proof. intros H ->. discriminate H. Qed.

Lemma parse_digits max s :
  s ≠ [] → forallb is_digit s = true → digits_val 0 s <= max →
  parse_uint max s = Some (digits_val 0 s).
Proof.
  intros Hne Hd Hm. unfold parse_uint. destruct s as [|a s]; [done|].
  assert (Ha : is_digit a = true) by (simpl in Hd; by to_prop).
  rewrite decide_False by by apply is_digit_not_plus. rewrite Hd. simpl andb.
  by rewrite (proj2 (Z.leb_le _ _)).
Qed.

(** Printing and parsing an unsigned integer is the identity. *)
Lemma parse_show_uint max n : 0 <= n <= max → parse_uint max (show_uint n) = Some n.
Proof.
  intros Hn. destruct (show_uint_spec n) as (Hne & Hd & Hv); [lia|].
  rewrite parse_digits; [by rewrite Hv|done|done|lia].
Qed.

Lemma digits_val_nonneg acc s :
  0 <= acc → forallb is_digit s = true → acc <= digits_val acc s.
Proof.
  revert acc. induction s as [|a s IH]; intros acc Ha Hs; simpl in *; [lia|].
  to_prop. assert (0 <= digit_val a).
  { unfold is_digit, digit_val in *. to_prop. lia. }
  specialize (IH (acc * 10 + digit_val a) ltac:(lia) ltac:(done)). lia.
Qed.

Lemma parse_uint_range max s n : parse_uint max s = Some n → 0 <= n <= max.
Proof.
  unfold parse_uint. set (ds := match s with [] => s | _ => _ end).
  destruct ds as [|a ds'] eqn:E; [done|]. intros H. case_in H; [|done].
  simplify_eq. to_prop. split; [|done]. by apply digits_val_nonneg.
Qed.

(** The index of the first byte satisfying [p] ([find] / [position]). *)
Fixpoint find_index {A} (p : A → bool) (l : list A) : option nat :=
  match l with
  | [] => None
  | a :: l' => if p a then Some O else S <$> find_index p l'
  end.

Lemma find_index_Some {A} (p : A → bool) l i :
  find_index p l = Some i →
  (∃ a, l !! i = Some a ∧ p a = true) ∧ Forall (fun a => p a = false) (take i l).
Proof.
  revert i. induction l as [|a l IH]; intros i; simpl; [done|].
  destruct (p a) eqn:Ha.
  - intros [= <-]. split; [by exists a|constructor].
  - destruct (find_index p l) as [j|] eqn:E; [|done]. intros [= <-].
    destruct (IH j eq_refl) as [Hj Hf]. split; [done|by constructor].
Qed.

Lemma find_index_None {A} (p : A → bool) l :
  find_index p l = None → Forall (fun a => p a = false) l.
Proof.
  induction l as [|a l IH]; simpl; [constructor|].
  destruct (p a) eqn:Ha; [done|]. destruct (find_index p l); [done|].
  intros _. constructor; auto.
Qed.

(** ** Association lists

    A [HashMap] iterates in an order of its own; where the code depends on a
    pass over the map, the model carries the entries in the order the pass
    sees them, as a list of key/value pairs with distinct keys, and theorems
    quantify over every order. *)
Section Assoc.
Context {K V : Type} `{EqDecision K}.
Implicit Types (l : list (K * V)) (k : K).

Fixpoint aget k l : option V :=
  match l with
  | [] => None
  | (k', v) :: l' => if decide (k = k') then Some v else aget k l'
  end.
Fixpoint aremove k l : list (K * V) :=
  match l with
  | [] => []
  | (k', v) :: l' => if decide (k = k') then l' else (k', v) :: aremove k l'
  end.
(** Insert replaces the value in place, or adds an entry. *)
Fixpoint aset k v l : list (K * V) :=
  match l with
  | [] => [(k, v)]
  | (k', v') :: l' => if decide (k = k') then (k, v) :: l' else (k', v') :: aset k v l'
  end.
Definition keys l : list K := l.*1.

Lemma aget_Some_elem k v l : aget k l = Some v → (k, v) ∈ l.
Proof.
  induction l as [|[k' v'] l IH]; simpl; [done|].
  case_decide; [intros [= ->]; subst; left|right; auto].
Qed.

Lemma aget_elem k v l : NoDup (keys l) → (k, v) ∈ l → aget k l = Some v.
Proof.
  unfold keys. induction l as [|[k' v'] l IH]; simpl; [by intros _ ?%not_elem_of_nil|].
  intros [Hni Hnd]%NoDup_cons [Heq|Hin]%elem_of_cons.
  - simplify_eq. by rewrite decide_True.
  - rewrite decide_False; [auto|]. intros ->. apply Hni.
    apply list_elem_of_fmap. by exists (k', v).
Qed.

Lemma aget_perm k l l' : NoDup (keys l) → l ≡ₚ l' → aget k l = aget k l'.
Proof.
  intros Hnd Hp. destruct (aget k l') as [v|] eqn:E.
  - apply aget_elem; [done|]. rewrite Hp. by apply aget_Some_elem.
  - destruct (aget k l) as [v|] eqn:E'; [|done]. apply aget_Some_elem in E'. rewrite Hp in E'.
    rewrite (aget_elem k v l') in E; [done| |done]. unfold keys in *. by rewrite <- Hp.
Qed.

Lemma aget_aset_eq k v l : aget k (aset k v l) = Some v.
Proof.
  induction l as [|[k' v'] l IH]; simpl; [by rewrite decide_True|].
  destruct (decide (k = k')); simpl; [by rewrite decide_True|by rewrite decide_False].
Qed.

Lemma aget_aset_ne k k' v l : k ≠ k' → aget k' (aset k v l) = aget k' l.
Proof.
  intros Hne. induction l as [|[k2 v2] l IH]; simpl; [by rewrite decide_False|].
  destruct (decide (k = k2)); simplify_eq/=; [by rewrite !decide_False by done|].
  by rewrite IH.
Qed.

Lemma aget_aremove_ne k k' l : k ≠ k' → aget k' (aremove k l) = aget k' l.
Proof.
  intros Hne. induction l as [|[k2 v2] l IH]; simpl; [done|].
  destruct (decide (k = k2)); simplify_eq/=; [by rewrite decide_False by done|].
  by rewrite IH.
Qed.

Lemma elem_of_keys_aremove k k' l : k' ∈ keys (aremove k l) → k' ∈ keys l.
Proof.
  unfold keys. induction l as [|[k2 v2] l IH]; simpl; [done|].
  destruct (decide (k = k2)); simpl; rewrite !elem_of_cons; [by right|]. intros [->|?]; auto.
Qed.

Lemma NoDup_aremove k l : NoDup (keys l) → NoDup (keys (aremove k l)).
Proof.
  induction l as [|[k2 v2] l IH]; simpl; [done|].
  intros [Hni Hnd]%NoDup_cons. destruct (decide (k = k2)); [done|].
  apply NoDup_cons. split; [|by apply IH]. by intros ?%elem_of_keys_aremove.
Qed.

Lemma aget_aremove_eq k l : NoDup (keys l) → aget k (aremove k l) = None.
Proof.
  induction l as [|[k2 v2] l IH]; simpl; [done|].
  intros [Hni Hnd]%NoDup_cons. destruct (decide (k = k2)) as [->|]; simpl.
  - destruct (aget k2 l) eqn:E; [|done]. apply aget_Some_elem in E.
    exfalso. apply Hni. apply list_elem_of_fmap. by exists (k2, v).
  - rewrite decide_False by done. auto.
Qed.

Lemma aget_None k l : aget k l = None ↔ k ∉ keys l.
Proof.
  unfold keys. induction l as [|[k2 v2] l IH]; simpl.
  - split; [intros _; apply not_elem_of_nil|done].
  - rewrite not_elem_of_cons. destruct (decide (k = k2)); [|rewrite IH]; naive_solver.
Qed.

Lemma aget_filter (P : K * V → Prop) `{∀ x, Decision (P x)} k l :
  NoDup (keys l) →
  aget k (filter P l) = match aget k l with
                        | Some v => if decide (P (k, v)) then Some v else None
                        | None => None
                        end.
Proof.
  induction l as [|[k2 v2] l IH]; [done|]. simpl. intros [Hni Hnd]%NoDup_cons.
  rewrite filter_cons. destruct (decide (k = k2)) as [->|Hn].
  - destruct (decide (P (k2, v2))) as [Hp|Hp]; simpl; [by rewrite decide_True|].
    rewrite IH by done. by rewrite (proj2 (aget_None k2 l)).
  - destruct (decide (P (k2, v2))); simpl; rewrite ?decide_False by done; auto.
Qed.

Lemma aset_fresh k v l : aget k l = None → aset k v l = l ++ [(k, v)].
Proof. induction l as [|[k' v'] l IH]; simpl; [done|]. case_decide; [done|]. intros Hf. by rewrite IH. Qed.

Lemma aremove_sublist k l : sublist (aremove k l) l.
Proof. induction l as [|[k' v'] l IH]; simpl; [done|]. case_decide; [by apply sublist_cons|by apply sublist_skip]. Qed.

Lemma elem_of_keys_aset k k' v l : k' ∈ keys (aset k v l) → k' = k ∨ k' ∈ keys l.
Proof.
  unfold keys. induction l as [|[k2 v2] l IH]; simpl; [set_solver|].
  destruct (decide (k = k2)); simpl; rewrite !elem_of_cons; naive_solver.
Qed.

Lemma NoDup_aset k v l : NoDup (keys l) → NoDup (keys (aset k v l)).
Proof.
  induction l as [|[k2 v2] l IH]; simpl; [intros; apply NoDup_singleton|].
  intros [Hni Hnd]%NoDup_cons. destruct (decide (k = k2)) as [->|]; simpl.
  - by apply NoDup_cons.
  - apply NoDup_cons. split; [|by apply IH]. by intros [->|?]%elem_of_keys_aset.
Qed.

Lemma NoDup_keys_filter (P : K * V → Prop) `{∀ x, Decision (P x)} l :
  NoDup (keys l) → NoDup (keys (filter P l)).
Proof.
  unfold keys. induction l as [|[k v] l IH]; [done|]. rewrite fmap_cons. intros [Hk Hl]%NoDup_cons.
  rewrite filter_cons. case_decide; [|auto]. rewrite fmap_cons. constructor; [|auto].
  intros (kv & Hkv & [_ Hin]%list_elem_of_filter)%list_elem_of_fmap.
  apply Hk. rewrite Hkv. by apply (list_elem_of_fmap_2 fst).
Qed.

Lemma Forall_aset (P : K * V → Prop) k v l :
  Forall P l → P (k, v) → Forall P (aset k v l).
Proof.
  intros Hl Hv. induction Hl as [|[k' v'] l Hk Hl IH]; cbn; [by repeat constructor|].
  case_goal; by constructor.
Qed.

Lemma Forall_aremove (P : K * V → Prop) k l :
  Forall P l → Forall P (aremove k l).
Proof. induction 1 as [|[k' v'] l Hk Hl IH]; cbn; [done|]. case_goal; [done|]. by constructor. Qed.
End Assoc.

#[export] Hint Resolve NoDup_aremove NoDup_aset aget_Some_elem len_nonneg : aperio.

(** ** Sublists *)

Lemma sublist_map {A B} (f : A → B) l k : sublist l k → sublist (f <$> l) (f <$> k).
Proof. induction 1; simpl; by constructor. Qed.

Lemma sublist_filters {A} (P : A → Prop) `{∀ x, Decision (P x)} l k : sublist l k → sublist (filter P l) (filter P k).
Proof. induction 1; [done|..]; rewrite ?filter_cons; repeat case_decide; done || by constructor. Qed.

(** ** HTTP headers

    A [HeaderMap] keeps lower-cased names; [get] answers the first value, and
    [to_str] succeeds on visible ASCII and tab only. *)
Abbreviation headers := (list (str * str)).

Definition header_get (name : str) (h : headers) : option str :=
  snd <$> find (fun kv => eq_ignore_case kv.1 name) h.
Definition header_char_ok (a : ascii) : bool :=
  ((32 <=? code a) && (code a <? 127)) || (code a =? 9).
Definition to_str (v : str) : option str := if forallb header_char_ok v then Some v else None.
Definition header_str (name : str) (h : headers) : option str :=
  match header_get name h with Some v => to_str v | None => None end.

(** ** Boolean quantifiers *)

Lemma forallb_Forall {A} (p : A → bool) l : forallb p l = true ↔ Forall (fun a => p a = true) l.
Proof. rewrite forallb_forall, Forall_forall. by setoid_rewrite list_elem_of_In. Qed.

Lemma existsb_Exists {A} (p : A → bool) l : existsb p l = true ↔ ∃ a, a ∈ l ∧ p a = true.
Proof. rewrite existsb_exists. by setoid_rewrite list_elem_of_In. Qed.

Lemma existsb_false {A} (p : A → bool) l : existsb p l = false ↔ Forall (fun a => p a = false) l.
Proof.
  induction l as [|a l IH]; simpl; [by split|].
  rewrite orb_false_iff, IH, Forall_cons. done.
Qed.

Lemma NoDup_map_inj {A B} (f : A → B) l x y :
  NoDup (map f l) → x ∈ l → y ∈ l → f x = f y → x = y.
Proof.
  induction l as [|a l IH]; [by intros _ []%elem_of_nil|]. cbn. intros [Ha Hn]%NoDup_cons.
  assert (∀ z, z ∈ l → f z ≠ f a) as Hne.
  { intros z Hz Hfz. apply Ha. rewrite <- Hfz. by apply (list_elem_of_fmap_2 f). }
  intros [->|Hx]%elem_of_cons [->|Hy]%elem_of_cons Hf; [done| | |auto]; exfalso; by eapply Hne.
Qed.

(** A list without duplicates under one key has none under a finer one. *)
Lemma NoDup_map_via {A B C} (f : A → B) (g : A → C) l :
  NoDup (map f l) → (∀ x y, x ∈ l → y ∈ l → g x = g y → f x = f y) → NoDup (map g l).
Proof.
  induction l as [|a l IH]; [constructor|]. cbn. intros [Ha Hn]%NoDup_cons Hg. constructor.
  - intros (z & Hz & Hin)%list_elem_of_fmap. apply Ha.
    rewrite (Hg a z); [by apply (list_elem_of_fmap_2 f)|by left|by right|done].
  - apply IH; [done|]. intros x y Hx Hy. apply Hg; by right.
Qed.

Lemma filter_all {A} (P : A → Prop) `{∀ x, Decision (P x)} l : Forall P l → filter P l = l.
Proof. induction 1 as [|a l Ha _ IH]; [done|]. rewrite filter_cons_True by done. by rewrite IH. Qed.

Lemma Forall_filter {A} (P Q : A → Prop) `{∀ x, Decision (P x)} l : Forall Q l → Forall Q (filter P l).
Proof. rewrite !Forall_forall. intros Hl x [_ Hx]%list_elem_of_filter. by apply Hl. Qed.

(** Every byte of a string is a byte of one of its pieces or a separator. *)
Lemma split_by_Forall (P : ascii → Prop) p s :
  (∀ a, p a = true → P a) → Forall (Forall P) (split_by p s) → Forall P s.
Proof.
  intros Hsep. induction s as [|a s IH]; simpl; [done|].
  destruct (p a) eqn:Ha.
  - intros H. inversion H; subst. constructor; auto.
  - destruct (split_by_cons p s) as (h & t & E). rewrite E in *.
    intros H. inversion H as [|? ? H1 H2]; subst. inversion H1; subst.
    constructor; [done|]. apply IH. by constructor.
Qed.

(** Two separators that agree on the bytes of a string split it alike. *)
Lemma split_by_ext p q s : Forall (fun a => p a = q a) s → split_by p s = split_by q s.
Proof. induction 1 as [|a s Ha _ IH]; simpl; [done|]. by rewrite Ha, IH. Qed.

Lemma is_char_true c a : is_char c a = true ↔ a = c.
Proof. apply bool_decide_eq_true. Qed.

Lemma is_char_false c a : is_char c a = false ↔ a ≠ c.
Proof. apply bool_decide_eq_false. Qed.

Lemma split_on_head c s : hd [] (split_on c s) = match split_once c s with Some (h, _) => h | None => s end.
Proof.
  unfold split_on. induction s as [|a s IH]; simpl; [done|].
  unfold is_char at 1. destruct (decide (a = c)) as [->|Hn].
  - by rewrite bool_decide_eq_true_2.
  - rewrite bool_decide_eq_false_2 by done.
    destruct (split_by_cons (is_char c) s) as (h & t & E). rewrite E in *. simpl in *. subst h.
    by destruct (split_once c s) as [[]|].
Qed.

Lemma trim_ws_suffix w1 w2 w3 s : ∃ h, s = h ++ trim_ws w1 w2 w3 s.
Proof.
  induction s as [s IH] using (induction_ltof1 _ (@length ascii)). unfold ltof in IH.
  destruct s as [|a s]; [by exists []|]. simpl.
  destruct (w1 a); [destruct (IH s) as [h Hh]; [simpl; lia|]; exists (a :: h); by rewrite Hh at 1|].
  destruct s as [|b s]; [by exists []|].
  destruct (w2 a b).
  { destruct (IH s) as [h Hh]; [simpl; lia|]. exists (a :: b :: h). by rewrite Hh at 1. }
  destruct s as [|c s]; [by exists []|].
  destruct (w3 a b c); [|by exists []].
  destruct (IH s) as [h Hh]; [simpl; lia|]. exists (a :: b :: c :: h). by rewrite Hh at 1.
Qed.

Lemma elem_of_trim a s : a ∈ trim s → a ∈ s.
Proof.
  unfold trim, trim_end, trim_start.
  destruct (trim_ws_suffix ws1 ws2 ws3 s) as [h Hh]. rewrite Hh at 2.
  set (t := trim_ws ws1 ws2 ws3 s).
  destruct (trim_ws_suffix ws1 (fun a b => ws2 b a) (fun a b c => ws3 c b a) (rev t)) as [g Hg].
  set (u := trim_ws _ _ _ (rev t)) in *. clearbody u.
  rewrite !list_elem_of_In, <- in_rev, in_app_iff, (in_rev t), Hg, in_app_iff. tauto.
Qed.

Lemma elem_of_trim_start_by a p s : a ∈ trim_start_by p s → a ∈ s.
Proof. destruct (trim_start_by_suffix p s) as (h & Hs & _). rewrite Hs at 2. set_solver. Qed.

Lemma elem_of_trim_end_by a p s : a ∈ trim_end_by p s → a ∈ s.
Proof. destruct (trim_end_by_prefix p s) as (h & Hs & _). rewrite Hs at 2. set_solver. Qed.

(** Trimming leaves nothing to trim. *)
Section TrimIdem.
Context (w1 : ascii → bool) (w2 : ascii → ascii → bool) (w3 : ascii → ascii → ascii → bool).
#[local] Abbreviation tr := (trim_ws w1 w2 w3).

Lemma trim_ws_length s : (length (tr s) <= length s)%nat.
Proof. destruct (trim_ws_suffix w1 w2 w3 s) as [h E]. rewrite E at 2. rewrite length_app. lia. Qed.

Lemma trim_ws_idem s : tr (tr s) = tr s.
Proof.
  induction s as [s IH] using (induction_ltof1 _ (@length ascii)). unfold ltof in IH.
  destruct s as [|a s1]; [done|]. simpl. destruct (w1 a) eqn:E1; [apply IH; simpl; lia|].
  destruct s1 as [|b s2]; [by simpl; rewrite E1|]. destruct (w2 a b) eqn:E2; [apply IH; simpl; lia|].
  destruct s2 as [|c s3]; [by simpl; rewrite E1, E2|]. destruct (w3 a b c) eqn:E3; [apply IH; simpl; lia|].
  simpl. by rewrite E1, E2, E3.
Qed.

Lemma trim_ws_prefix t u : tr (t ++ u) = t ++ u → tr t = t.
Proof.
  intros H. apply (f_equal length) in H as Hl.
  destruct t as [|a t1]; [done|]. simpl in *. destruct (w1 a).
  { pose proof (trim_ws_length (t1 ++ u)). lia. }
  destruct t1 as [|b t2]; [done|]. simpl in *. destruct (w2 a b).
  { pose proof (trim_ws_length (t2 ++ u)). lia. }
  destruct t2 as [|c t3]; [done|]. simpl in *. destruct (w3 a b c); [|done].
  pose proof (trim_ws_length (t3 ++ u)). lia.
Qed.
End TrimIdem.

Lemma trim_end_prefix s : ∃ t, s = trim_end s ++ t.
Proof.
  unfold trim_end. destruct (trim_ws_suffix ws1 (fun a b => ws2 b a) (fun a b c => ws3 c b a) (rev s)) as [h E].
  exists (rev h). apply (f_equal (@rev ascii)) in E. rewrite rev_involutive, rev_app_distr in E. exact E.
Qed.

Lemma trim_idem s : trim (trim s) = trim s.
Proof.
  unfold trim at 1. assert (trim_start (trim s) = trim s) as ->.
  { unfold trim. destruct (trim_end_prefix (trim_start s)) as [t E]. unfold trim_start at 1.
    apply (trim_ws_prefix _ _ _ _ t). rewrite <- E. apply trim_ws_idem. }
  unfold trim at 1, trim_end at 1. unfold trim, trim_end. rewrite rev_involutive, trim_ws_idem. done.
Qed.

Lemma trim_space s : trim (bs " " ++ s) = trim s.
Proof. reflexivity. Qed.

(** [split(c)]: no piece holds the separator, and joining pieces splits back. *)
Lemma split_on_free c s : Forall (fun p => c ∉ p) (split_on c s).
Proof.
  unfold split_on. induction s as [|a s IH]; simpl; [by repeat constructor; apply not_elem_of_nil|].
  unfold is_char at 1. case_bool_decide as Ha; [constructor; [apply not_elem_of_nil|done]|].
  destruct (split_by (is_char c) s) as [|h t]; [by repeat constructor; apply not_elem_of_cons; split; [|apply not_elem_of_nil]|].
  inversion IH; subst. constructor; [|done]. apply not_elem_of_cons. by split.
Qed.

Lemma split_on_app_sep c s t : c ∉ s → split_on c (s ++ c :: t) = s :: split_on c t.
Proof.
  unfold split_on. induction s as [|a s IH]; simpl.
  - intros _. unfold is_char at 1. by rewrite bool_decide_eq_true_2.
  - intros [Hne Hn]%not_elem_of_cons. rewrite IH by done. unfold is_char at 1. by rewrite bool_decide_eq_false_2.
Qed.

Lemma split_on_single c s : c ∉ s → split_on c s = [s].
Proof.
  unfold split_on. induction s as [|a s IH]; [done|]. intros [Hne Hn]%not_elem_of_cons. simpl.
  rewrite IH by done. unfold is_char. by rewrite bool_decide_eq_false_2.
Qed.

Lemma split_on_app_free c s t :
  c ∉ s → split_on c (s ++ t) = match split_on c t with h :: r => (s ++ h) :: r | [] => [] end.
Proof.
  unfold split_on. destruct (split_by_cons (is_char c) t) as (h & r & Et). rewrite Et.
  induction s as [|a s IH]; [done|]. intros [Hne Hn]%not_elem_of_cons. simpl. rewrite IH by done.
  unfold is_char. by rewrite bool_decide_eq_false_2.
Qed.

Lemma split_join c sep p l :
  Forall (fun q => c ∉ q) (p :: l) → c ∉ sep → split_on c (join (c :: sep) (p :: l)) = p :: (app sep <$> l).
Proof.
  intros Hl Hs. revert p Hl. induction l as [|q rest IH]; intros p Hl; inversion Hl as [|? ? Hp Hr]; subst.
  - simpl. by apply split_on_single.
  - change (join (c :: sep) (p :: q :: rest)) with (p ++ c :: (sep ++ join (c :: sep) (q :: rest))).
    rewrite split_on_app_sep, split_on_app_free, IH by done. done.
Qed.

Lemma elem_of_concat_fmap {A B} (f : A → list B) l b :
  b ∈ concat (f <$> l) ↔ ∃ a, a ∈ l ∧ b ∈ f a.
Proof.
  induction l as [|a l IH]; simpl.
  - setoid_rewrite elem_of_nil. naive_solver.
  - rewrite elem_of_app, IH. setoid_rewrite elem_of_cons. naive_solver.
Qed.

(** ** Sorting *)

(** [slice::sort_by]: stable, by a total preorder. *)
Fixpoint insert_by {A} (leb : A → A → bool) (x : A) (l : list A) : list A :=
  match l with [] => [x] | y :: l' => if leb x y then x :: l else y :: insert_by leb x l' end.
Definition sort_by {A} (leb : A → A → bool) (l : list A) : list A := foldr (insert_by leb) [] l.

Section sort_by.
Context {A : Type} (leb : A → A → bool).

Lemma insert_by_perm x l : insert_by leb x l ≡ₚ x :: l.
Proof. induction l as [|y l IH]; simpl; [done|]. destruct (leb x y); [done|]. rewrite IH. constructor. Qed.

Lemma sort_by_perm l : sort_by leb l ≡ₚ l.
Proof. induction l as [|x l IH]; simpl; [done|]. by rewrite insert_by_perm, IH. Qed.

Hypothesis leb_total : ∀ a b, leb a b = false → leb b a = true.
Hypothesis leb_trans : ∀ a b c, leb a b = true → leb b c = true → leb a c = true.

Lemma insert_by_sorted x l :
  StronglySorted (λ a b, leb a b = true) l → StronglySorted (λ a b, leb a b = true) (insert_by leb x l).
Proof.
  induction l as [|y l IH]; simpl; intros Hs; [by repeat constructor|].
  apply StronglySorted_inv in Hs as [Hs Hy]. destruct (leb x y) eqn:E.
  - repeat constructor; [done..|]. eapply Forall_impl; eauto.
  - constructor; [by apply IH|]. rewrite insert_by_perm. constructor; auto.
Qed.

Lemma sort_by_sorted l : StronglySorted (λ a b, leb a b = true) (sort_by leb l).
Proof. induction l as [|x l IH]; simpl; [constructor|by apply insert_by_sorted]. Qed.

(** The first element of a sorted list that passes a test is a least one. *)
Lemma find_sorted_first p l x y :
  StronglySorted (λ a b, leb a b = true) l → find p l = Some x → y ∈ l → p y = true → leb x x = true → leb x y = true.
Proof.
  induction l as [|z l IH]; intros Hs Hf Hy Hp Hr; [done|]. apply StronglySorted_inv in Hs as [Hs Hz].
  simpl in Hf. destruct (p z) eqn:Ez.
  - injection Hf as ->. apply elem_of_cons in Hy as [->|Hy]; [done|]. rewrite Forall_forall in Hz. auto.
  - apply elem_of_cons in Hy as [->|Hy]; [congruence|]. auto.
Qed.

End sort_by.

(** ** Runs of operations *)

(** What holds after a run, and not before it, was begun by one of its operations, and no
    operation since has used it up. *)
Lemma run_traced {S O} (exec : O → S → S) (inv holds : S → Prop) (began : O → S → Prop) (uses : O → Prop) ops s0 :
  let run ops := fold_left (fun s o => exec o s) ops s0 in
  inv s0 → (∀ o s, inv s → inv (exec o s)) → ¬ holds s0 →
  (∀ o s, inv s → holds (exec o s) → (holds s ∧ ¬ uses o) ∨ began o s) →
  holds (run ops) → ∃ ops1 o ops2, ops = ops1 ++ o :: ops2 ∧ began o (run ops1) ∧ Forall (fun o => ¬ uses o) ops2.
Proof.
  intros run H0 Hinv Hnone Hstep. assert (Hrun : ∀ l, inv (run l)).
  { intros l. induction l as [|o l IH] using rev_ind; [done|]. unfold run in *. rewrite fold_left_app. by apply Hinv. }
  induction ops as [|o ops IH] using rev_ind; [done|]. unfold run at 1. rewrite fold_left_app. intros Hh.
  apply Hstep in Hh as [[Hh Hu]|Hb]; [| |apply Hrun].
  - destruct (IH Hh) as (ops1 & o1 & ops2 & -> & Hb & Hf). exists ops1, o1, (ops2 ++ [o]). rewrite <-app_assoc. split; [done|].
    split; [done|]. apply Forall_app. split; [done|]. by apply Forall_singleton.
  - exists ops, o, []. split; [done|]. split; [done|constructor].
Qed.
