(* ===== verification/Utf8.v ===== *)
(** UTF-8 as the Rust standard library reads it: [std::str::from_utf8]
    (a validity test on bytes) and [String::from_utf8_lossy] (invalid maximal
    subparts become U+FFFD). Used by the frame codec and by the path checks. *)

From S2P Require Import Prelude.

Definition cont (b : ascii) : bool := (128 <=? code b) && (code b <=? 191).

(** Second byte of a three-byte sequence: no overlong forms, no surrogates. *)
Definition second3 (a b : ascii) : bool :=
  if code a =? 224 then (160 <=? code b) && (code b <=? 191)
  else if code a =? 237 then (128 <=? code b) && (code b <=? 159)
  else cont b.

(** Second byte of a four-byte sequence: no overlong forms, nothing past
    U+10FFFF. *)
Definition second4 (a b : ascii) : bool :=
  if code a =? 240 then (144 <=? code b) && (code b <=? 191)
  else if code a =? 244 then (128 <=? code b) && (code b <=? 143)
  else cont b.

Definition lead2 (a : ascii) : bool := (194 <=? code a) && (code a <=? 223).
Definition lead3 (a : ascii) : bool := (224 <=? code a) && (code a <=? 239).
Definition lead4 (a : ascii) : bool := (240 <=? code a) && (code a <=? 244).
Definition is_ascii (a : ascii) : bool := code a <? 128.

Fixpoint utf8_valid (s : str) : bool :=
  match s with
  | [] => true
  | a :: s1 =>
      if is_ascii a then utf8_valid s1
      else match s1 with
           | [] => false
           | b :: s2 =>
               if lead2 a then cont b && utf8_valid s2
               else match s2 with
                    | [] => false
                    | c :: s3 =>
                        if lead3 a then second3 a b && cont c && utf8_valid s3
                        else match s3 with
                             | [] => false
                             | d :: s4 =>
                                 lead4 a && second4 a b && cont c && cont d && utf8_valid s4
                             end
                    end
           end
  end.

(** [std::str::from_utf8(s).ok()] *)
Definition from_utf8 (s : str) : option str := if utf8_valid s then Some s else None.

(** The bytes of U+FFFD. *)
Definition replacement : str := [chr 239; chr 191; chr 189].

(** [String::from_utf8_lossy] *)
Fixpoint from_utf8_lossy (s : str) : str :=
  match s with
  | [] => []
  | a :: s1 =>
      if is_ascii a then a :: from_utf8_lossy s1
      else if lead2 a then
        match s1 with
        | b :: s2 => if cont b then a :: b :: from_utf8_lossy s2 else replacement ++ from_utf8_lossy s1
        | [] => replacement
        end
      else if lead3 a then
        match s1 with
        | b :: s2 =>
            if second3 a b then
              match s2 with
              | c :: s3 => if cont c then a :: b :: c :: from_utf8_lossy s3
                           else replacement ++ from_utf8_lossy s2
              | [] => replacement
              end
            else replacement ++ from_utf8_lossy s1
        | [] => replacement
        end
      else if lead4 a then
        match s1 with
        | b :: s2 =>
            if second4 a b then
              match s2 with
              | c :: s3 =>
                  if cont c then
                    match s3 with
                    | d :: s4 => if cont d then a :: b :: c :: d :: from_utf8_lossy s4
                                 else replacement ++ from_utf8_lossy s3
                    | [] => replacement
                    end
                  else replacement ++ from_utf8_lossy s2
              | [] => replacement
              end
            else replacement ++ from_utf8_lossy s1
        | [] => replacement
        end
      else replacement ++ from_utf8_lossy s1
  end.

Lemma utf8_valid_ascii s : Forall (fun a => is_ascii a = true) s → utf8_valid s = true.
Proof. induction 1 as [|a s Ha _ IH]; simpl; [done|]. by rewrite Ha. Qed.

Lemma from_utf8_lossy_ascii s : Forall (fun a => is_ascii a = true) s → from_utf8_lossy s = s.
Proof. induction 1 as [|a s Ha _ IH]; simpl; [done|]. by rewrite Ha, IH. Qed.

Lemma utf8_valid_app s t : utf8_valid s = true → utf8_valid (s ++ t) = utf8_valid t.
Proof.
  remember (length s) as n eqn:Hn. revert s Hn.
  induction n as [n IH] using lt_wf_ind. intros s -> H.
  destruct s as [|a s]; [done|]. simpl in H |- *.
  destruct (is_ascii a); [by apply (IH (length s)); simpl; [lia|..]|].
  destruct s as [|b s]; [done|]. simpl in H |- *.
  destruct (lead2 a).
  { apply andb_prop in H as [-> H]. simpl. apply (IH (length s)); simpl; [lia|done|done]. }
  destruct s as [|c s]; [done|]. simpl in H |- *.
  destruct (lead3 a).
  { rewrite !andb_true_iff in H. destruct H as [[-> ->] H]. simpl. apply (IH (length s)); simpl; [lia|done|done]. }
  destruct s as [|d s]; [done|]. simpl in H |- *. rewrite !andb_true_iff in H.
  destruct H as [[[[-> ->] ->] ->] H]. simpl. apply (IH (length s)); simpl; [lia|done|done].
Qed.
