(* ===== verification/Frames.v ===== *)
(** The tunnel's binary frames, [aperio-server/src/protocol.rs] and the
    client's [protocol.rs]: [tag][id_len][id][payload], the full-message frame
    whose payload is [json_len: u32 LE][json][body], and what the two ends do
    with a WebSocket message (the server's [writer_transform] and
    [decode_incoming], the client's writer and read loop).

    zlib is a third-party library: its deflate and its bounded inflate are
    parameters, with the documented facts the code relies on as the laws of
    [ZlibLaws]. *)

From S2P Require Import Prelude Utf8.

(** ** Tags *)

Definition FRAME_REQUEST_CHUNK : Z := 1.
Definition FRAME_RESPONSE_CHUNK : Z := 2.
Definition FRAME_RESPONSE_FULL : Z := 3.
Definition FRAME_RESPONSE_FULL_ZLIB : Z := 4.
Definition FRAME_REQUEST_FULL : Z := 5.
Definition FRAME_REQUEST_FULL_ZLIB : Z := 6.
Definition FRAME_TCP_DATA : Z := 7.
Definition FRAME_UDP_DATAGRAM : Z := 8.
Definition FRAME_WS_DATA_BIN : Z := 9.

(** ** Little-endian [u32] *)

(** [n.to_le_bytes()] of a [u32]; [as u32] before it keeps the low 32 bits. *)
Definition to_le_bytes (n : Z) : str :=
  [chr (n mod 256); chr (n / 256 mod 256); chr (n / 65536 mod 256); chr (n / 16777216 mod 256)].

Definition from_le_bytes (s : str) : option Z :=
  match s with
  | [a; b; c; d] => Some (code a + 256 * code b + 65536 * code c + 16777216 * code d)
  | _ => None
  end.

Lemma from_to_le_bytes n : from_le_bytes (to_le_bytes n) = Some (n mod 2 ^ 32).
Proof.
  unfold from_le_bytes, to_le_bytes. f_equal.
  rewrite !code_chr by (apply Z.mod_pos_bound; lia).
  change (2 ^ 32) with 4294967296. Z.div_mod_to_equations. lia.
Qed.

(** ** Codec *)

(** [slice.split_at_checked(n)] *)
Definition split_at_checked (n : Z) (s : str) : option (str * str) :=
  if n <=? len s then Some (take (Z.to_nat n) s, drop (Z.to_nat n) s) else None.

Lemma split_at_checked_app s t : split_at_checked (len s) (s ++ t) = Some (s, t).
Proof.
  unfold split_at_checked. rewrite len_app. pose proof (len_nonneg t).
  rewrite (proj2 (Z.leb_le _ _)) by lia. unfold len. rewrite Nat2Z.id.
  by rewrite take_app_length, drop_app_length.
Qed.

Definition encode_binary_frame (tag : Z) (id payload : str) : option str :=
  if u8_max <? len id then None
  else Some (chr tag :: chr (len id) :: id ++ payload).

Definition decode_binary_frame (data : str) : option (Z * str * str) :=
  match data with
  | t :: l :: rest =>
      if len rest <? code l then None
      else match from_utf8 (take (Z.to_nat (code l)) rest) with
           | Some id => Some (code t, id, drop (Z.to_nat (code l)) rest)
           | None => None
           end
  | _ => None
  end.

Definition encode_full_request_frame (tag : Z) (id json body : str) : option str :=
  if u8_max <? len id then None
  else Some (chr tag :: chr (len id) :: id ++ to_le_bytes (len json) ++ json ++ body).

Definition encode_full_response_frame (id json body : str) : option str :=
  if u8_max <? len id then None
  else Some (chr FRAME_RESPONSE_FULL :: chr (len id) :: id ++ to_le_bytes (len json) ++ json ++ body).

Definition join_full_response (json body : str) : str :=
  to_le_bytes (len json) ++ json ++ body.

Definition split_full_response (payload : str) : option (str * str) :=
  match split_at_checked 4 payload with
  | None => None
  | Some (len_bytes, rest) =>
      match from_le_bytes len_bytes with
      | None => None
      | Some json_len =>
          match split_at_checked json_len rest with
          | None => None
          | Some (json, body) =>
              match from_utf8 json with Some j => Some (j, body) | None => None end
          end
      end
  end.

(** ** Round trips of the codec *)

Lemma encode_binary_frame_Some tag id p f :
  encode_binary_frame tag id p = Some f ↔
  len id <= u8_max ∧ f = chr tag :: chr (len id) :: id ++ p.
Proof.
  unfold encode_binary_frame. destruct (u8_max <? len id) eqn:E; to_prop; naive_solver lia.
Qed.

Lemma decode_frame_layout tag id p :
  0 <= tag < 256 → utf8_valid id = true → len id <= u8_max →
  decode_binary_frame (chr tag :: chr (len id) :: id ++ p) = Some (tag, id, p).
Proof.
  intros Ht Hu Hl. pose proof (len_nonneg id). unfold u8_max in Hl. simpl.
  rewrite !code_chr by lia. rewrite len_app. pose proof (len_nonneg p).
  rewrite (proj2 (Z.ltb_ge _ _)) by lia.
  unfold len at 1 2. rewrite Nat2Z.id, take_app_length, drop_app_length.
  unfold from_utf8. by rewrite Hu.
Qed.

Lemma decode_binary_frame_Some data tag id p :
  decode_binary_frame data = Some (tag, id, p) →
  data = chr tag :: chr (len id) :: id ++ p ∧ 0 <= tag < 256
  ∧ len id <= u8_max ∧ utf8_valid id = true.
Proof.
  destruct data as [|t [|l rest]]; simpl; [done..|].
  destruct (len rest <? code l) eqn:E; [done|]. to_prop.
  unfold from_utf8. case_goal; [|done]. intros [= <- <- <-].
  pose proof (code_range t). pose proof (code_range l).
  assert (Hl : len (take (Z.to_nat (code l)) rest) = code l).
  { unfold len in *. rewrite length_take. lia. }
  rewrite Hl, !chr_code, take_drop. unfold u8_max. naive_solver lia.
Qed.

Lemma split_join_full_response json body :
  utf8_valid json = true → len json < 2 ^ 32 →
  split_full_response (join_full_response json body) = Some (json, body).
Proof.
  intros Hu Hl. unfold split_full_response, join_full_response.
  pose proof (len_nonneg json).
  change 4 with (len (to_le_bytes (len json))). rewrite split_at_checked_app.
  rewrite from_to_le_bytes, Z.mod_small, split_at_checked_app by lia.
  unfold from_utf8. by rewrite Hu.
Qed.

(** The one-pass encoders build the bytes of the two-pass ones. *)
Lemma encode_full_request_frame_join tag id json body :
  encode_full_request_frame tag id json body
  = encode_binary_frame tag id (join_full_response json body).
Proof. done. Qed.

Lemma encode_full_response_frame_join id json body :
  encode_full_response_frame id json body
  = encode_binary_frame FRAME_RESPONSE_FULL id (join_full_response json body).
Proof. done. Qed.

(** ** zlib *)

(** [deflate]: all of the output of [ZlibEncoder] over the input.
    [inflate_take d n]: [ZlibDecoder::new(d).take(n).read_to_end]. *)
Class Zlib : Type := {
  deflate : str → str;
  inflate_take : str → Z → option str;
}.

Class ZlibLaws (Z0 : Zlib) : Prop := {
  (** Inflating what was deflated gives it back, up to the read limit. *)
  inflate_deflate s n : 0 <= n → inflate_take (deflate s) n = Some (take (Z.to_nat n) s);
  (** A zlib stream opens with the CMF byte 0x78. *)
  deflate_header s : ∃ r, deflate s = chr 120 :: r;
}.

Inductive message : Type :=
| MText (t : str)
| MBinary (b : str)
| MOther.

(** Payloads a read loop hands over on the spot. *)
Inductive delivery : Type :=
| DRequestChunk (id payload : str)
| DResponseChunk (id payload : str)
| DTcp (sid payload : str)
| DUdp (sid payload : str)
| DWs (sid payload : str).

(** What a read loop made of one message: the payload delivered, the envelope
    text to dispatch on, and the body that came beside it. *)
Record incoming : Type := Incoming {
  delivered : option delivery;
  text : option str;
  full_body : option str;
}.

Section Ends.
Context {ZL : Zlib}.

Definition deflate_payload (payload : str) : option str :=
  let out := deflate payload in
  if len out <? len payload then Some out else None.

Definition inflate_payload (data : str) (max_out : Z) : option str :=
  match inflate_take data (max_out + 1) with
  | None => None
  | Some out => if max_out <? len out then None else Some out
  end.

Definition compress_frame (t : str) : str := deflate t.

(** [read_to_string] also fails on output that is not UTF-8. *)
Definition decompress_frame (data : str) (max_out : Z) : option str :=
  match inflate_take data (max_out + 1) with
  | None => None
  | Some out =>
      match from_utf8 out with
      | None => None
      | Some s => if max_out <? len s then None else Some s
      end
  end.

(** Re-encodes a full-message frame under its zlib tag when that is smaller. *)
Definition deflate_full (zlib_tag : Z) (b : str) : message :=
  match decode_binary_frame b with
  | Some (_, id, payload) =>
      match deflate_payload payload with
      | Some deflated =>
          match encode_binary_frame zlib_tag id deflated with
          | Some frame => MBinary frame
          | None => MBinary b
          end
      | None => MBinary b
      end
  | None => MBinary b
  end.

Definition first_is (tag : Z) (b : str) : bool :=
  match b with a :: _ => code a =? tag | [] => false end.

(** Server: what the writer task does to an outgoing message. *)
Definition writer_transform (msg : message) (compress : bool) : message :=
  if negb compress then msg
  else match msg with
       | MText t => MBinary (compress_frame t)
       | MBinary b => if first_is FRAME_REQUEST_FULL b
                      then deflate_full FRAME_REQUEST_FULL_ZLIB b else msg
       | MOther => msg
       end.

(** Client: the same for its own full frame. *)
Definition client_transform (msg : message) (compress_out : bool) : message :=
  match msg with
  | MText t => if compress_out then MBinary (compress_frame t) else msg
  | MBinary b => if compress_out && first_is FRAME_RESPONSE_FULL b
                 then deflate_full FRAME_RESPONSE_FULL_ZLIB b else msg
  | MOther => msg
  end.

Definition of_split (r : option (str * str)) : incoming :=
  match r with
  | Some (json, body) => Incoming None (Some json) (Some body)
  | None => Incoming None None None
  end.

(** Server: [decode_incoming]. A deflated frame that will not inflate is
    read as an empty payload, which has no length prefix and is dropped. *)
Definition decode_incoming (max_inflated : Z) (msg : message) : incoming :=
  match msg with
  | MText t => Incoming None (Some t) None
  | MBinary b =>
      let fallback := Incoming None (decompress_frame b max_inflated) None in
      match decode_binary_frame b with
      | Some (tag, id, payload) =>
          if tag =? FRAME_RESPONSE_CHUNK then Incoming (Some (DResponseChunk id payload)) None None
          else if tag =? FRAME_TCP_DATA then Incoming (Some (DTcp id payload)) None None
          else if tag =? FRAME_UDP_DATAGRAM then Incoming (Some (DUdp id payload)) None None
          else if tag =? FRAME_WS_DATA_BIN then Incoming (Some (DWs id payload)) None None
          else if tag =? FRAME_RESPONSE_FULL then of_split (split_full_response payload)
          else if tag =? FRAME_RESPONSE_FULL_ZLIB then
            of_split (split_full_response (default [] (inflate_payload payload max_inflated)))
          else fallback
      | None => fallback
      end
  | MOther => Incoming None None None
  end.

(** Client: the decoding step of the read loop. A deflated frame that will
    not inflate is read as it arrived. *)
Definition client_decode (max : Z) (msg : message) : incoming :=
  match msg with
  | MText t => Incoming None (Some t) None
  | MBinary b =>
      let fallback := Incoming None (decompress_frame b max) None in
      match decode_binary_frame b with
      | Some (tag, id, payload) =>
          if tag =? FRAME_REQUEST_CHUNK then Incoming (Some (DRequestChunk id payload)) None None
          else if tag =? FRAME_TCP_DATA then Incoming (Some (DTcp id payload)) None None
          else if tag =? FRAME_UDP_DATAGRAM then Incoming (Some (DUdp id payload)) None None
          else if tag =? FRAME_WS_DATA_BIN then Incoming (Some (DWs id payload)) None None
          else if (tag =? FRAME_REQUEST_FULL) || (tag =? FRAME_REQUEST_FULL_ZLIB) then
            let inflated := if tag =? FRAME_REQUEST_FULL_ZLIB
                            then inflate_payload payload max else None in
            of_split (split_full_response (default payload inflated))
          else fallback
      | None => fallback
      end
  | MOther => Incoming None None None
  end.

Context `{!ZlibLaws ZL}.

Lemma inflate_deflate_payload p d max :
  deflate_payload p = Some d → len p <= max → inflate_payload d max = Some p.
Proof.
  unfold deflate_payload, inflate_payload. intros H Hm. case_in H; [|done].
  simplify_eq. pose proof (len_nonneg p).
  rewrite inflate_deflate by lia. rewrite take_ge by (unfold len in *; lia).
  by rewrite (proj2 (Z.ltb_ge _ _)).
Qed.

Lemma decompress_compress t max :
  utf8_valid t = true → len t <= max → decompress_frame (compress_frame t) max = Some t.
Proof.
  unfold decompress_frame, compress_frame. intros Hu Hm. pose proof (len_nonneg t).
  rewrite inflate_deflate by lia. rewrite take_ge by (unfold len in *; lia).
  unfold from_utf8. rewrite Hu. by rewrite (proj2 (Z.ltb_ge _ _)).
Qed.

(** A compressed text frame is never mistaken for a tagged one: its first
    byte is 0x78 and every tag is below it. *)
Lemma decode_compressed t r :
  decode_binary_frame (compress_frame t) = Some r → r.1.1 = 120.
Proof.
  unfold compress_frame. destruct (deflate_header t) as [tl ->].
  destruct tl as [|l tl]; simpl; [done|]. rewrite code_chr by lia.
  destruct (len tl <? code l); [done|]. destruct (from_utf8 _); [|done]. by intros [= <-].
Qed.

Lemma decode_encoded_frame tag id p f :
  encode_binary_frame tag id p = Some f → 0 <= tag < 256 → utf8_valid id = true →
  decode_binary_frame f = Some (tag, id, p).
Proof. intros [Hl ->]%encode_binary_frame_Some Ht Hu. by apply decode_frame_layout. Qed.

(** The zlib re-encoding of a full frame, seen by the decoder. *)
Lemma deflate_full_cases ztag tag id p f :
  encode_binary_frame tag id p = Some f → 0 <= tag < 256 → 0 <= ztag < 256 →
  utf8_valid id = true →
  deflate_full ztag f = MBinary f ∨
  ∃ d f', deflate_payload p = Some d ∧ deflate_full ztag f = MBinary f'
          ∧ decode_binary_frame f' = Some (ztag, id, d).
Proof.
  intros Hf Ht Hz Hu. unfold deflate_full.
  rewrite (decode_encoded_frame tag id p) by done.
  destruct (deflate_payload p) as [d|] eqn:E; [|by left].
  destruct (encode_binary_frame ztag id d) as [f'|] eqn:E'; [|by left].
  right. exists d, f'. split_and!; [done|done|]. by apply decode_encoded_frame.
Qed.

Lemma join_len json body : len (join_full_response json body) = 4 + len json + len body.
Proof. unfold join_full_response. rewrite !len_app. change (len (to_le_bytes _)) with 4. lia. Qed.
End Ends.

(** ** Properties *)

(** Evaluates the tag comparisons of a decoder. *)
Ltac eval_tags :=
  cbn -[split_full_response join_full_response inflate_payload decompress_frame].

Module FrameProps.
Section Props.
Context {ZL : Zlib} `{!ZlibLaws ZL}.

(** A response frame as the client builds it, through the client's writer
    with or without compression, is the envelope and the body the server
    dispatches on. *)
Lemma response_end_to_end id json body f compress max :
  encode_full_response_frame id json body = Some f →
  utf8_valid id = true → utf8_valid json = true →
  len json < 2 ^ 32 → 4 + len json + len body <= max →
  decode_incoming max (client_transform (MBinary f) compress)
  = Incoming None (Some json) (Some body).
Proof.
  rewrite encode_full_response_frame_join. intros Hf Hi Hj Hl Hm.
  assert (Hd := decode_encoded_frame _ _ _ _ Hf ltac:(done) Hi).
  assert (Hraw : decode_incoming max (MBinary f) = Incoming None (Some json) (Some body)).
  { simpl. rewrite Hd. eval_tags. by rewrite split_join_full_response. }
  unfold client_transform. destruct (compress && _); [|done].
  destruct (deflate_full_cases FRAME_RESPONSE_FULL_ZLIB _ _ _ _ Hf) as [->|(d & f' & Hp & -> & Hf')];
    [done..|].
  simpl. rewrite Hf'. eval_tags.
  rewrite (inflate_deflate_payload _ _ _ Hp); [|rewrite join_len; lia].
  eval_tags. by rewrite split_join_full_response.
Qed.

Lemma request_end_to_end id json body f compress max :
  encode_full_request_frame FRAME_REQUEST_FULL id json body = Some f →
  utf8_valid id = true → utf8_valid json = true →
  len json < 2 ^ 32 → 4 + len json + len body <= max →
  client_decode max (writer_transform (MBinary f) compress)
  = Incoming None (Some json) (Some body).
Proof.
  rewrite encode_full_request_frame_join. intros Hf Hi Hj Hl Hm.
  assert (Hd := decode_encoded_frame _ _ _ _ Hf ltac:(done) Hi).
  assert (Hraw : client_decode max (MBinary f) = Incoming None (Some json) (Some body)).
  { simpl. rewrite Hd. eval_tags. by rewrite split_join_full_response. }
  unfold writer_transform. destruct compress; [simpl negb|done].
  destruct (first_is _ _); [|done].
  destruct (deflate_full_cases FRAME_REQUEST_FULL_ZLIB _ _ _ _ Hf) as [->|(d & f' & Hp & -> & Hf')];
    [done..|].
  simpl. rewrite Hf'. eval_tags.
  rewrite (inflate_deflate_payload _ _ _ Hp); [|rewrite join_len; lia].
  eval_tags. by rewrite split_join_full_response.
Qed.

Lemma decode_text_frame t max :
  utf8_valid t = true → len t <= max →
  decode_incoming max (MBinary (compress_frame t)) = Incoming None (Some t) None
  ∧ client_decode max (MBinary (compress_frame t)) = Incoming None (Some t) None.
Proof.
  intros Hu Hm. simpl.
  pose proof (decode_compressed t) as Hd.
  destruct (decode_binary_frame (compress_frame t)) as [[[tag id] p]|];
    rewrite ?decompress_compress by done; [|done].
  specialize (Hd _ eq_refl). simpl in Hd. by subst.
Qed.

Lemma split_full_response_len payload json body :
  split_full_response payload = Some (json, body) → len json + len body <= len payload.
Proof.
  unfold split_full_response, split_at_checked, from_utf8. intros H.
  repeat (case_in H; try done). simplify_eq. to_prop.
  unfold len in *. rewrite ?length_take, ?length_drop in *. lia.
Qed.

Lemma of_split_len payload t :
  text (of_split (split_full_response payload)) = Some t →
  len t + len (default [] (full_body (of_split (split_full_response payload)))) <= len payload.
Proof.
  destruct (split_full_response payload) as [[json body]|] eqn:E; [|done].
  intros [= <-]. by apply split_full_response_len.
Qed.

Lemma inflate_payload_len d max p : inflate_payload d max = Some p → len p <= max.
Proof.
  unfold inflate_payload. intros H. case_in H; [|done]. case_in H; [done|].
  simplify_eq. to_prop. lia.
Qed.

(** ** Claims *)

(** C13: The frame decoder and encoder are exact inverses: a byte string
    decodes to (tag, id, payload) precisely when it is the encoding of a
    one-byte tag, an id that is UTF-8 and that payload. So no frame is
    misread, none is accepted that the encoder would not produce, and an id
    longer than 255 bytes is never put on the wire with a wrapped length. *)
Theorem frame_codec_exact f tag id p :
  decode_binary_frame f = Some (tag, id, p) ↔
  encode_binary_frame tag id p = Some f ∧ 0 <= tag < 256 ∧ utf8_valid id = true.
Proof.
  split.
  - intros (-> & Ht & Hl & Hu)%decode_binary_frame_Some.
    split; [by apply encode_binary_frame_Some|done].
  - intros (Hf & Ht & Hu). by eapply decode_encoded_frame.
Qed.

(** A buffered message survives the tunnel in both directions whatever
    the compression flag: a full-response frame built by the client and put
    through the client's writer gives the server its envelope and body, and
    a full-request frame put through the server's writer gives them to the
    client, when the message fits the receiver's inflation bound and the
    envelope's length fits its 32-bit prefix. *)
Theorem full_message_end_to_end id json body compress max :
  len id <= u8_max → utf8_valid id = true → utf8_valid json = true →
  len json < 2 ^ 32 → 4 + len json + len body <= max →
  (∃ f, encode_full_response_frame id json body = Some f ∧
        decode_incoming max (client_transform (MBinary f) compress)
        = Incoming None (Some json) (Some body)) ∧
  (∃ f, encode_full_request_frame FRAME_REQUEST_FULL id json body = Some f ∧
        client_decode max (writer_transform (MBinary f) compress)
        = Incoming None (Some json) (Some body)).
Proof.
  intros Hid Hi Hj Hl Hm. split.
  - destruct (encode_full_response_frame id json body) as [f|] eqn:E.
    + exists f. split; [done|]. by eapply response_end_to_end.
    + unfold encode_full_response_frame in E. case_in E; to_prop; [lia|done].
  - destruct (encode_full_request_frame FRAME_REQUEST_FULL id json body) as [f|] eqn:E.
    + exists f. split; [done|]. by eapply request_end_to_end.
    + unfold encode_full_request_frame in E. case_in E; to_prop; [lia|done].
Qed.

(** An envelope text survives the tunnel in both directions whatever the
    compression flag, within the inflation bound: a compressed text frame is
    never taken for one of the tagged binary frames. *)
Theorem text_end_to_end t compress max :
  utf8_valid t = true → len t <= max →
  decode_incoming max (client_transform (MText t) compress) = Incoming None (Some t) None
  ∧ client_decode max (writer_transform (MText t) compress) = Incoming None (Some t) None.
Proof.
  intros Hu Hm. destruct (decode_text_frame t max Hu Hm).
  by destruct compress.
Qed.

(** Decompression is bounded: the text and body the server extracts from
    one binary message never exceed the larger of the message itself and the
    inflation limit, whatever the bytes are, so a small frame cannot expand
    without bound. *)
Theorem decode_incoming_bounded max b t :
  text (decode_incoming max (MBinary b)) = Some t →
  len t + len (default [] (full_body (decode_incoming max (MBinary b)))) <= Z.max (len b) max.
Proof.
  assert (Hfb : ∀ t, decompress_frame b max = Some t → len t <= max).
  { intros u. unfold decompress_frame, from_utf8. intros H.
    repeat (case_in H; try done). simplify_eq. by to_prop. }
  simpl. destruct (decode_binary_frame b) as [[[tag id] p]|] eqn:E;
    [|simpl; rewrite len_nil; intros ?%Hfb; lia].
  assert (len p <= len b).
  { apply decode_binary_frame_Some in E as (-> & _). unfold len. simpl. rewrite length_app. lia. }
  repeat match goal with |- context [if ?c then _ else _] => destruct c eqn:? end;
    try (simpl; done); try (intros Ht%of_split_len; lia); [|simpl; rewrite len_nil; intros ?%Hfb; lia].
  intros Ht%of_split_len. destruct (inflate_payload p max) as [q|] eqn:Eq; simpl in *.
  - apply inflate_payload_len in Eq. lia.
  - rewrite !len_nil in *. pose proof (len_nonneg b). lia.
Qed.
End Props.

(** ** A concrete codec

    A toy zlib that shrinks a run of one byte, to run the theorems on. *)
Definition toy_deflate (s : str) : str :=
  match s with
  | a :: _ :: _ :: _ :: _ =>
      if bool_decide (s = replicate (length s) a) && (length s <? 256)%nat
      then [chr 120; chr 1; chr (len s); a] else chr 120 :: chr 0 :: s
  | _ => chr 120 :: chr 0 :: s
  end.

Definition toy_inflate_take (d : str) (n : Z) : option str :=
  match d with
  | _ :: k :: rest =>
      if code k =? 0 then Some (take (Z.to_nat n) rest)
      else match rest with
           | [l; a] => Some (take (Z.to_nat n) (replicate (Z.to_nat (code l)) a))
           | _ => None
           end
  | _ => None
  end.

#[export] Instance toy_zlib : Zlib := {| deflate := toy_deflate; inflate_take := toy_inflate_take |}.

#[export] Instance toy_zlib_laws : ZlibLaws toy_zlib.
Proof.
  split.
  - intros s n Hn. unfold deflate, inflate_take; simpl.
    destruct s as [|a [|b [|c [|d s]]]]; try done.
    unfold toy_deflate. case_match eqn:E; [|done]. apply andb_true_iff in E as [E1 E2].
    to_prop. apply Nat.ltb_lt in E2. unfold toy_inflate_take.
    rewrite (code_chr 1) by lia. change (1 =? 0) with false. cbv iota.
    rewrite code_chr by (unfold len; lia). unfold len. rewrite Nat2Z.id. by rewrite <- E1.
  - intros s. unfold deflate; simpl. unfold toy_deflate. repeat case_match; eauto.
Qed.

Lemma full_message_end_to_end_witness :
  client_transform (MBinary (bs "x")) true = MBinary (bs "x") ∧
  (∃ f, encode_full_response_frame (bs "7") [] (replicate 20 "z"%char) = Some f ∧
        decode_incoming 100 (client_transform (MBinary f) true)
        = Incoming None (Some []) (Some (replicate 20 "z"%char))) ∧
  (∃ f, encode_full_request_frame FRAME_REQUEST_FULL (bs "7") [] (replicate 20 "z"%char) = Some f ∧
        client_decode 100 (writer_transform (MBinary f) true)
        = Incoming None (Some []) (Some (replicate 20 "z"%char))).
Proof.
  split; [reflexivity|].
  apply (full_message_end_to_end (bs "7") [] (replicate 20 "z"%char) true 100); vm_compute; done.
Defined.

Lemma text_end_to_end_witness :
  decode_incoming 10 (client_transform (MText (bs "aaaaaaaa")) true)
    = Incoming None (Some (bs "aaaaaaaa")) None
  ∧ client_decode 10 (writer_transform (MText (bs "aaaaaaaa")) true)
    = Incoming None (Some (bs "aaaaaaaa")) None.
Proof. apply (text_end_to_end (bs "aaaaaaaa") true 10); vm_compute; done. Defined.

Lemma decode_incoming_bounded_witness :
  text (decode_incoming 10 (MBinary (compress_frame (bs "aaaaaaaa")))) = Some (bs "aaaaaaaa") ∧
  len (bs "aaaaaaaa") + len (default [] (full_body (decode_incoming 10 (MBinary (compress_frame (bs "aaaaaaaa"))))))
  <= Z.max (len (compress_frame (bs "aaaaaaaa"))) 10.
Proof.
  split; [vm_compute; reflexivity|].
  apply (decode_incoming_bounded 10 (compress_frame (bs "aaaaaaaa")) (bs "aaaaaaaa")).
  vm_compute; reflexivity.
Defined.
End FrameProps.
