(* ===== verification/Binds.v ===== *)
(** Path and hostname binds, [aperio-server/src/routing/binds.rs]: how a bind
    is normalized, when a request path matches one, which request paths cannot
    be trusted to stay where they point, and the random-subdomain pattern.

    The security contract proved here: a request path that is not flagged as
    traversal stays inside the bind it matched, both as written and after the
    one percent-decoding a backend performs. *)

From S2P Require Import Prelude Utf8.

Definition slash : ascii := "/"%char.
Definition dot : ascii := "."%char.
Definition star : ascii := "*"%char.
Definition colon : ascii := ":"%char.

(** ** Path binds *)

Definition MAX_PATH_BIND_LEN : Z := 256.

Definition path_char_ok (c : ascii) : bool :=
  is_alnum c || bool_decide (c ∈ [ "-"%char; "_"%char; dot; "~"%char ]).

Definition segment_ok (seg : str) : bool :=
  str_eqb seg []
  || (negb (str_eqb seg (bs "..") || str_eqb seg (bs ".")) && forallb path_char_ok seg).

Definition normalize_path_bind (bind : str) : option str :=
  let trimmed := trim_end_char slash (trim bind) in
  if str_eqb trimmed [] || str_eqb trimmed (bs "/") then None
  else if MAX_PATH_BIND_LEN <? len trimmed then None
  else if negb (forallb segment_ok (split_on slash trimmed)) then None
  else Some (if starts_with [slash] trimmed then trimmed else slash :: trimmed).

Definition path_matches_bind (uri_path bind : str) : bool :=
  str_eqb uri_path bind || starts_with (bind ++ [slash]) uri_path.

(** [char::to_digit(16)] *)
Definition hex_val (c : ascii) : option Z :=
  if is_digit c then Some (code c - 48)
  else if (97 <=? code c) && (code c <=? 102) then Some (code c - 87)
  else if (65 <=? code c) && (code c <=? 70) then Some (code c - 55)
  else None.

Fixpoint percent_decode_bytes (s : str) : str :=
  match s with
  | [] => []
  | a :: s1 =>
      if decide (a = "%"%char) then
        match s1 with
        | h :: l :: s3 =>
            match hex_val h, hex_val l with
            | Some hi, Some lo => chr (hi * 16 + lo) :: percent_decode_bytes s3
            | _, _ => a :: percent_decode_bytes s1
            end
        | _ => a :: percent_decode_bytes s1
        end
      else a :: percent_decode_bytes s1
  end.

Definition percent_decode_once (s : str) : str := from_utf8_lossy (percent_decode_bytes s).

Definition is_sep (c : ascii) : bool := bool_decide (c = slash ∨ c = "\"%char).
Definition dot_segment (seg : str) : bool := str_eqb seg (bs "..") || str_eqb seg (bs ".").

Definition request_path_has_traversal (path : str) : bool :=
  existsb (fun candidate => existsb dot_segment (split_by is_sep candidate))
          [path; percent_decode_once path].

(** ** Hostname binds *)

Definition MAX_HOSTNAME_LEN : Z := 253.

Definition host_char_ok (c : ascii) : bool := is_alnum c || bool_decide (c = "-"%char).
Definition label_ok (label : str) : bool := negb (str_eqb label []) && forallb host_char_ok label.

(** The bind without a [:port] suffix, when what follows the first colon is
    digits and what precedes it is not empty. *)
Definition without_port (trimmed : str) : str :=
  match split_once colon trimmed with
  | Some (h, port) => if negb (str_eqb h []) && forallb is_digit port then h else trimmed
  | None => trimmed
  end.

Definition normalize_hostname_bind (host : str) : option str :=
  let host' := without_port (lower (trim_end_char dot (trim host))) in
  if str_eqb host' [] || (MAX_HOSTNAME_LEN <? len host') then None
  else if negb (forallb label_ok (split_on dot host')) then None
  else Some host'.

Definition extract_request_host (h : headers) : option str :=
  match header_str (bs "host") h with
  | None => None
  | Some raw =>
      let trimmed := lower (trim raw) in
      let host := match strip_prefix (bs "[") trimmed with
                  | Some stripped => hd [] (split_on "]"%char stripped)
                  | None => hd [] (split_on colon trimmed)
                  end in
      if str_eqb host [] then None else Some host
  end.

(** ** Random subdomains *)

Definition count_char (c : ascii) (s : str) : nat := length (filter (fun a => a = c) s).

(** [s.replacen(c, by, 1)] *)
Definition replace_first (c : ascii) (by_ s : str) : str :=
  match split_once c s with Some (h, t) => h ++ by_ ++ t | None => s end.

Definition normalize_random_subdomain_pattern (raw : str) : option str :=
  let trimmed := lower (trim_matches_char dot (trim raw)) in
  if str_eqb trimmed [] then None
  else
    let pattern := if has star trimmed then trimmed else bs "*." ++ trimmed in
    if negb (count_char star pattern =? 1)%nat then None
    else match split_once dot pattern with
         | None => None
         | Some (head, tail) =>
             if negb (has star head) || has star tail then None
             else match normalize_hostname_bind (replace_first star (bs "abc123") pattern) with
                  | None => None
                  | Some _ => Some pattern
                  end
         end.

Definition host_matches_random_pattern (host pattern : str) : bool :=
  let host := lower (hd [] (split_on colon host)) in
  match split_once dot host, split_once dot pattern with
  | Some (host_label, host_rest), Some (pat_label, pat_rest) =>
      if negb (str_eqb host_rest pat_rest) then false
      else match split_once star pat_label with
           | None => false
           | Some (prefix, suffix) =>
               (len prefix + len suffix <? len host_label)
               && starts_with prefix host_label && ends_with suffix host_label
           end
  | _, _ => false
  end.

Definition hex_chr (d : Z) : ascii := if d <? 10 then chr (d + 48) else chr (d + 87).
(** [format!("{b:02x}")] *)
Definition hex_byte (b : ascii) : str := [hex_chr (code b / 16); hex_chr (code b mod 16)].

Section Random.
(** SHA-256, and the 32 hex digits of a fresh UUID. *)
Context (sha256 : str → str) (uuid_simple : str).

Definition random_subdomain_hostname (pattern : str) : str :=
  replace_first star (take 10 uuid_simple) pattern.

Definition random_subdomain_hostname_seeded (pattern seed : str) : str :=
  replace_first star (concat (hex_byte <$> take 5 (sha256 seed))) pattern.
End Random.

(** ** Lemmas *)

Lemma path_char_ok_spec c :
  path_char_ok c = true → c ≠ slash ∧ c ≠ "\"%char ∧ c ≠ "%"%char ∧ is_ascii c = true
                          ∧ graphic c = true.
Proof.
  unfold path_char_ok, is_alnum, is_digit, is_upper, is_lower. intros H.
  assert (Hc : code c ≠ 47 ∧ code c ≠ 92 ∧ code c ≠ 37 ∧ 33 <= code c <= 126).
  { apply orb_true_iff in H as [H|H]; [lia|]. to_prop.
    rewrite !elem_of_cons, elem_of_nil in H.
    destruct H as [->|[->|[->|[->|[]]]]]; repeat split; vm_compute; discriminate. }
  unfold is_ascii, graphic. split_and!; [| | |lia|lia].
  all: intros ->; vm_compute in Hc; naive_solver.
Qed.

(** What a normalized bind looks like. *)
Record wf_bind (b : str) : Prop := {
  wfb_slash : starts_with [slash] b = true;
  wfb_segments : Forall (fun seg => segment_ok seg = true) (split_on slash b);
  wfb_end : ∀ r, b ≠ r ++ [slash];
}.

Lemma segment_ok_Forall seg : segment_ok seg = true → Forall (fun c => path_char_ok c = true) seg.
Proof.
  unfold segment_ok. intros [H|H]%orb_true_iff.
  - apply str_eqb_eq in H. by subst.
  - to_prop. by apply forallb_Forall.
Qed.

(** The bytes of a string whose segments are all acceptable. *)
Lemma segments_chars s :
  Forall (fun seg => segment_ok seg = true) (split_on slash s) →
  Forall (fun c => path_char_ok c = true ∨ c = slash) s.
Proof.
  intros H. eapply split_by_Forall; [intros a Ha%is_char_true; by right|].
  eapply Forall_impl; [exact H|]. intros seg Hs%segment_ok_Forall.
  eapply Forall_impl; [exact Hs|]. by left.
Qed.

Lemma segments_safe s :
  Forall (fun seg => segment_ok seg = true) (split_on slash s) →
  Forall (fun c => c ≠ "\"%char ∧ c ≠ "%"%char ∧ is_ascii c = true ∧ graphic c = true) s.
Proof.
  intros H%segments_chars. eapply Forall_impl; [exact H|].
  intros c [Hc%path_char_ok_spec| ->]; [naive_solver|]. by vm_compute.
Qed.

Lemma split_on_cons_slash s : split_on slash (slash :: s) = [] :: split_on slash s.
Proof. done. Qed.

Lemma normalize_path_bind_wf bind p : normalize_path_bind bind = Some p → wf_bind p.
Proof.
  unfold normalize_path_bind. set (t := trim_end_char slash (trim bind)).
  destruct (_ || _) eqn:E1; [done|]. destruct (_ <? _); [done|].
  destruct (forallb _ _) eqn:E3; [|done]. simpl negb. cbv iota.
  apply forallb_Forall in E3. to_prop.
  assert (Ht : t ≠ []) by (intros ->; discriminate).
  assert (Hend : ∀ r, t ≠ r ++ [slash]).
  { intros r Hr. unfold t, trim_end_char in Hr. apply trim_end_by_last in Hr. done. }
  intros [= <-]. destruct (starts_with [slash] t) eqn:Es; [by split|].
  split.
  - apply starts_with_spec. by exists t.
  - rewrite split_on_cons_slash. by constructor.
  - intros r Hr. destruct r as [|a r]; injection Hr as; [by apply Ht|]. by eapply Hend.
Qed.

Lemma percent_decode_bytes_app s t :
  Forall (fun c => c ≠ "%"%char) s → percent_decode_bytes (s ++ t) = s ++ percent_decode_bytes t.
Proof. induction 1 as [|a s Ha _ IH]; simpl; [done|]. by rewrite decide_False, IH. Qed.

Lemma from_utf8_lossy_app s t :
  Forall (fun c => is_ascii c = true) s → from_utf8_lossy (s ++ t) = s ++ from_utf8_lossy t.
Proof. induction 1 as [|a s Ha _ IH]; simpl; [done|]. by rewrite Ha, IH. Qed.

Lemma percent_decode_once_app s t :
  Forall (fun c => c ≠ "\"%char ∧ c ≠ "%"%char ∧ is_ascii c = true ∧ graphic c = true) s →
  percent_decode_once (s ++ t) = s ++ percent_decode_once t.
Proof.
  intros H. unfold percent_decode_once.
  rewrite percent_decode_bytes_app, from_utf8_lossy_app; [done|..];
    (eapply Forall_impl; [exact H|naive_solver]).
Qed.

Lemma split_sep_safe s :
  Forall (fun c => c ≠ "\"%char ∧ c ≠ "%"%char ∧ is_ascii c = true ∧ graphic c = true) s →
  split_by is_sep s = split_on slash s.
Proof.
  intros H. apply split_by_ext. eapply Forall_impl; [exact H|].
  intros c [Hc _]. unfold is_sep, is_char. apply bool_decide_ext. naive_solver.
Qed.

(** ** Dot segments *)

(** How a server that resolves dot segments reads a list of segments
    (RFC 3986, section 5.2.4): [.] is dropped and [..] drops the segment
    before it. *)
Fixpoint resolve_from (stack : list str) (segs : list str) : list str :=
  match segs with
  | [] => rev stack
  | seg :: rest =>
      if str_eqb seg (bs ".") then resolve_from stack rest
      else if str_eqb seg (bs "..") then resolve_from (tl stack) rest
      else resolve_from (seg :: stack) rest
  end.
Definition resolve (segs : list str) : list str := resolve_from [] segs.

Lemma resolve_from_plain stack segs :
  Forall (fun seg => dot_segment seg = false) segs →
  resolve_from stack segs = rev stack ++ segs.
Proof.
  intros H. revert stack. induction H as [|seg segs Hs _ IH]; intros stack; simpl.
  - by rewrite app_nil_r.
  - unfold dot_segment in Hs. apply orb_false_iff in Hs as [-> ->].
    rewrite IH. simpl. by rewrite <- app_assoc.
Qed.

Lemma no_traversal_plain path w :
  request_path_has_traversal path = false → w ∈ [path; percent_decode_once path] →
  Forall (fun seg => dot_segment seg = false) (split_by is_sep w).
Proof.
  unfold request_path_has_traversal. rewrite existsb_false, Forall_forall. intros H Hw.
  apply existsb_false. auto.
Qed.

Lemma path_matches_bind_spec u b :
  path_matches_bind u b = true ↔ u = b ∨ ∃ r, u = b ++ slash :: r.
Proof.
  unfold path_matches_bind. rewrite orb_true_iff, str_eqb_eq, starts_with_spec.
  setoid_rewrite <- app_assoc. done.
Qed.

(** ** Hostnames *)

Record wf_host (r : str) : Prop := {
  wfh_ne : r ≠ [];
  wfh_len : len r <= MAX_HOSTNAME_LEN;
  wfh_labels : Forall (fun l => label_ok l = true) (split_on dot r);
  wfh_lower : lower r = r;
}.

Lemma without_port_prefix t : ∃ s, t = without_port t ++ s.
Proof.
  unfold without_port. destruct (split_once colon t) as [[h p]|] eqn:E.
  - apply split_once_Some in E as [-> _]. destruct (_ && _); [by exists (colon :: p)|].
    exists []. by rewrite app_nil_r.
  - exists []. by rewrite app_nil_r.
Qed.

Lemma normalize_hostname_bind_wf host r : normalize_hostname_bind host = Some r → wf_host r.
Proof.
  unfold normalize_hostname_bind. set (t := trim_end_char dot (trim host)).
  destruct (_ || _) eqn:E1; [done|]. destruct (forallb _ _) eqn:E2; [|done].
  intros [= <-]. to_prop. split.
  - intros Hn. rewrite Hn in H. discriminate.
  - done.
  - by apply forallb_Forall.
  - apply lower_id. destruct (without_port_prefix (lower t)) as [s Hs].
    pose proof (lower_not_upper t) as Hl. rewrite Hs in Hl. by apply Forall_app in Hl as [Hl _].
Qed.

Lemma host_char_ok_spec c : host_char_ok c = true → c ≠ dot ∧ c ≠ colon ∧ graphic c = true.
Proof.
  unfold host_char_ok, is_alnum, is_digit, is_upper, is_lower. intros H.
  assert (Hc : code c ≠ 46 ∧ code c ≠ 58 ∧ 33 <= code c <= 126).
  { apply orb_true_iff in H as [H|H]; [lia|]. to_prop. subst. repeat split; vm_compute; discriminate. }
  unfold graphic. split_and!; [| |lia]. all: intros ->; vm_compute in Hc; naive_solver.
Qed.

Lemma labels_chars r :
  Forall (fun l => label_ok l = true) (split_on dot r) →
  Forall (fun c => host_char_ok c = true ∨ c = dot) r.
Proof.
  intros H. eapply split_by_Forall; [intros a Ha%is_char_true; by right|].
  eapply Forall_impl; [exact H|]. unfold label_ok. intros l Hl. to_prop.
  apply forallb_Forall in H1. eapply Forall_impl; [exact H1|]. by left.
Qed.

Lemma wf_host_chars r : wf_host r → Forall (fun c => c ≠ colon ∧ graphic c = true) r.
Proof.
  intros H. eapply Forall_impl; [apply labels_chars, H|].
  intros c [Hc%host_char_ok_spec| ->]; [naive_solver|by vm_compute].
Qed.

Lemma wf_host_no_colon r : wf_host r → colon ∉ r.
Proof.
  intros H%wf_host_chars Hin. rewrite Forall_forall in H. by destruct (H _ Hin).
Qed.

Lemma wf_host_last r q : wf_host r → r ≠ q ++ [dot].
Proof.
  intros H ->. apply wfh_labels in H. unfold split_on in H.
  rewrite (split_by_app _ dot q []) in H by by apply is_char_true.
  apply Forall_app in H as [_ H]. inversion H; subst. discriminate.
Qed.

Lemma without_port_id r : colon ∉ r → without_port r = r.
Proof. intros H. unfold without_port. by rewrite (proj2 (split_once_None _ _) H). Qed.

Lemma wf_host_trim r : wf_host r → trim r = r.
Proof.
  intros H. apply trim_graphic. eapply Forall_impl; [apply wf_host_chars, H|]. naive_solver.
Qed.

Lemma wf_host_normalize r : wf_host r → normalize_hostname_bind r = Some r.
Proof.
  intros H. unfold normalize_hostname_bind, trim_end_char.
  rewrite (wf_host_trim r H), trim_end_by_id.
  2:{ intros q a Hq. apply is_char_false. intros ->. by apply (wf_host_last r q). }
  rewrite (wfh_lower r H), without_port_id by by apply wf_host_no_colon.
  destruct H as [Hne Hlen Hlab _].
  rewrite (proj2 (forallb_Forall _ _) Hlab). unfold str_eqb.
  rewrite bool_decide_eq_false_2 by done. simpl. by rewrite (proj2 (Z.ltb_ge _ _)).
Qed.

(** A request for a host, with any port, is a request for that host. *)
Lemma extract_request_host_port r rest :
  wf_host r → rest = [] ∨ (∃ port, rest = colon :: port ∧ forallb is_digit port = true) →
  extract_request_host [(bs "host", r ++ rest)] = Some r.
Proof.
  intros H Hrest.
  assert (Hg : Forall (fun c => graphic c = true) (r ++ rest)).
  { apply Forall_app. split.
    - eapply Forall_impl; [apply wf_host_chars, H|]. naive_solver.
    - destruct Hrest as [->|(p & -> & Hp)]; [done|]. constructor; [done|].
      apply forallb_Forall in Hp. eapply Forall_impl; [exact Hp|].
      unfold is_digit, graphic. intros. lia. }
  unfold extract_request_host, header_str, header_get. simpl find.
  change (eq_ignore_case (bs "host") (bs "host")) with true. cbv iota. simpl fmap.
  unfold to_str. rewrite (proj2 (forallb_Forall _ _)).
  2:{ eapply Forall_impl; [exact Hg|]. unfold graphic, header_char_ok. intros. lia. }
  rewrite trim_graphic, lower_app, (wfh_lower r H) by done.
  assert (Hs : hd [] (split_on colon (r ++ lower rest)) = r).
  { rewrite split_on_head. destruct Hrest as [->|(p & -> & _)].
    - simpl. rewrite app_nil_r. by rewrite (proj2 (split_once_None _ _) (wf_host_no_colon r H)).
    - change (lower (colon :: p)) with (colon :: lower p).
      rewrite (proj2 (split_once_Some colon _ r (lower p))); [done|].
      split; [done|]. by apply wf_host_no_colon. }
  pose proof (wf_host_chars r H) as Hc. pose proof (labels_chars r (wfh_labels r H)) as Hl.
  destruct r as [|a r]; [by destruct (wfh_ne _ H)|].
  assert (a ≠ "["%char).
  { apply Forall_cons in Hl as [[Ha| ->] _]; [|done]. by intros ->. }
  change ((a :: r) ++ lower rest) with (a :: (r ++ lower rest)) in *.
  change (bs "[") with ["["%char]. cbn [strip_prefix].
  rewrite decide_False by congruence. by rewrite Hs.
Qed.

(** ** Random subdomains *)

Definition lower_hex (c : ascii) : bool := is_digit c || ((97 <=? code c) && (code c <=? 102)).

Lemma lower_hex_spec c : lower_hex c = true → c ≠ dot ∧ c ≠ colon ∧ is_upper c = false.
Proof.
  unfold lower_hex, is_digit, is_upper. intros H. split_and!; [intros ->|intros ->|lia];
    vm_compute in H; discriminate.
Qed.

Lemma hex_chr_lower d : 0 <= d < 16 → lower_hex (hex_chr d) = true.
Proof.
  intros H. unfold lower_hex, hex_chr, is_digit.
  destruct (d <? 10) eqn:E; to_prop; rewrite code_chr by lia; lia.
Qed.

Lemma hex_bytes_lower l : Forall (fun c => lower_hex c = true) (concat (hex_byte <$> l)).
Proof.
  induction l as [|b l IH]; simpl; [done|]. pose proof (code_range b).
  repeat constructor; [apply hex_chr_lower..|done]; Z.div_mod_to_equations; lia.
Qed.

Lemma length_hex_bytes l : length (concat (hex_byte <$> l)) = (2 * length l)%nat.
Proof. induction l as [|b l IH]; [done|]. rewrite fmap_cons, concat_cons, length_app, IH. simpl. lia. Qed.

(** The shape of an accepted pattern written without a port. *)
Lemma random_pattern_shape raw p :
  normalize_random_subdomain_pattern raw = Some p → colon ∉ raw →
  ∃ pre suf rest, p = (pre ++ star :: suf) ++ dot :: rest ∧ (star ∉ pre) ∧ (dot ∉ pre)
                  ∧ (dot ∉ suf) ∧ lower p = p ∧ (colon ∉ p).
Proof.
  unfold normalize_random_subdomain_pattern. intros H Hc.
  set (t := lower (trim_matches_char dot (trim raw))) in *.
  assert (Htc : colon ∉ t).
  { unfold t. rewrite elem_of_lower by done. unfold trim_matches_char, trim_end_char.
    by intros ?%elem_of_trim_end_by%elem_of_trim_start_by%elem_of_trim. }
  assert (Htl : lower t = t) by apply lower_idem.
  destruct (str_eqb t []); [done|].
  set (q := if has star t then t else bs "*." ++ t) in *.
  assert (Hq : lower q = q ∧ colon ∉ q).
  { unfold q. destruct (has star t); [done|]. change (bs "*.") with [star; dot].
    rewrite lower_app, Htl. split; [done|]. clear -Htc. set_solver. }
  destruct (negb _); [done|].
  destruct (split_once dot q) as [[head tail]|] eqn:E; [|done].
  destruct (negb (has star head) || has star tail) eqn:E2; [done|].
  destruct (normalize_hostname_bind _); [|done]. simplify_eq. to_prop.
  apply split_once_Some in E as [Hp Hnd]. apply has_spec in H.
  destruct (split_once star head) as [[pre suf]|] eqn:E3;
    [|by apply split_once_None in E3].
  apply split_once_Some in E3 as [-> Hns]. exists pre, suf, tail. rewrite not_elem_of_app, not_elem_of_cons in Hnd. naive_solver.
Qed.

Lemma host_matches_filled pre suf rest label :
  let p := (pre ++ star :: suf) ++ dot :: rest in
  let h := (pre ++ label ++ suf) ++ dot :: rest in
  star ∉ pre → dot ∉ pre → dot ∉ suf → lower p = p → colon ∉ p →
  Forall (fun c => lower_hex c = true) label → label ≠ [] →
  host_matches_random_pattern h p = true.
Proof.
  intros p h Hsp Hdp Hds Hl Hc Hlab Hne.
  assert (Hlab' : (dot ∉ label) ∧ (colon ∉ label) ∧ lower label = label).
  { rewrite Forall_forall in Hlab. split_and!.
    - intros Hin. by destruct (lower_hex_spec _ (Hlab _ Hin)).
    - intros Hin. by destruct (lower_hex_spec _ (Hlab _ Hin)) as (_ & ? & _).
    - apply lower_id, Forall_forall. intros c Hin. by destruct (lower_hex_spec _ (Hlab _ Hin)) as (_ & _ & ?). }
  destruct Hlab' as (Hld & Hlc & Hll).
  assert (Hh : lower h = h ∧ colon ∉ h).
  { unfold p, h in *. clear -Hl Hc Hlc Hll. split.
    2:{ rewrite !not_elem_of_app, !not_elem_of_cons in *. naive_solver. }
    rewrite !lower_app in *. rewrite Hll. change (lower (star :: suf)) with (star :: lower suf) in Hl.
    apply app_inj_1 in Hl as [H1 H2]; [|by rewrite !length_app; simpl; rewrite !length_lower].
    apply app_inj_1 in H1 as [-> H1]; [|by rewrite length_lower].
    injection H1 as ->. by rewrite H2. }
  destruct Hh as [Hhl Hhc].
  unfold host_matches_random_pattern. rewrite split_on_head.
  rewrite (proj2 (split_once_None colon h) Hhc), Hhl.
  rewrite (proj2 (split_once_Some dot h (pre ++ label ++ suf) rest)).
  2:{ split; [done|]. by rewrite !not_elem_of_app. }
  rewrite (proj2 (split_once_Some dot p (pre ++ star :: suf) rest)).
  2:{ split; [done|]. by rewrite not_elem_of_app, not_elem_of_cons. }
  rewrite str_eqb_refl. simpl negb. cbv iota.
  rewrite (proj2 (split_once_Some star _ pre suf)) by done.
  apply andb_true_iff. split; [apply andb_true_iff; split|].
  - apply Z.ltb_lt. rewrite !len_app. destruct label; [done|]. unfold len. simpl. lia.
  - apply starts_with_spec. eauto.
  - apply ends_with_spec. exists (pre ++ label). by rewrite app_assoc.
Qed.

Lemma replace_first_star pre suf rest label :
  star ∉ pre →
  replace_first star label ((pre ++ star :: suf) ++ dot :: rest) = (pre ++ label ++ suf) ++ dot :: rest.
Proof.
  intros H. unfold replace_first. rewrite <- app_assoc. simpl.
  rewrite (proj2 (split_once_Some star _ pre (suf ++ dot :: rest))) by done.
  by rewrite <- !app_assoc.
Qed.

(** ** Claims *)

Lemma bind_prefix_segments b w r :
  wf_bind b → w = b ∨ w = b ++ slash :: r → split_on slash b `prefix_of` split_by is_sep w.
Proof.
  intros Hb Hw. pose proof (segments_safe b (wfb_segments b Hb)) as Hs.
  rewrite <- split_sep_safe by done. destruct Hw as [->| ->]; [done|].
  rewrite split_by_app by done. by apply prefix_app_r.
Qed.

(** C1: A request path that is not flagged as traversal stays inside the bind
    it matched. For a normalized bind and a path matching it, both the path as
    written and the path after the one percent-decoding a backend performs are
    unchanged by resolving dot segments (with slash and backslash as
    separators), and begin with the segments of the bind. *)
Theorem bind_containment raw b u w :
  normalize_path_bind raw = Some b →
  path_matches_bind u b = true →
  request_path_has_traversal u = false →
  w ∈ [u; percent_decode_once u] →
  resolve (split_by is_sep w) = split_by is_sep w
  ∧ split_on slash b `prefix_of` resolve (split_by is_sep w).
Proof.
  intros Hb%normalize_path_bind_wf Hm Ht Hw.
  assert (Hr : resolve (split_by is_sep w) = split_by is_sep w).
  { apply (resolve_from_plain []). by eapply no_traversal_plain. }
  rewrite Hr. split; [done|].
  pose proof (segments_safe b (wfb_segments b Hb)) as Hs.
  apply path_matches_bind_spec in Hm.
  rewrite !elem_of_cons, elem_of_nil in Hw. destruct Hw as [->|[->|[]]].
  - destruct Hm as [->|[r ->]];
      [apply (bind_prefix_segments b b [])|apply (bind_prefix_segments b _ r)]; auto.
  - destruct Hm as [->|[r ->]].
    + rewrite <- (app_nil_r b) at 2. rewrite percent_decode_once_app by done.
      apply (bind_prefix_segments b _ []); [done|]. left. apply app_nil_r.
    + rewrite percent_decode_once_app by done.
      apply (bind_prefix_segments b _ (percent_decode_once r)); [done|]. by right.
Qed.

Lemma bind_containment_witness :
  normalize_path_bind (bs "api/v1/") = Some (bs "/api/v1") ∧
  resolve (split_by is_sep (percent_decode_once (bs "/api/v1/a%20b")))
    = split_by is_sep (percent_decode_once (bs "/api/v1/a%20b")) ∧
  split_on slash (bs "/api/v1")
    `prefix_of` resolve (split_by is_sep (percent_decode_once (bs "/api/v1/a%20b"))).
Proof.
  split; [vm_compute; reflexivity|].
  apply (bind_containment (bs "api/v1/") (bs "/api/v1") (bs "/api/v1/a%20b"));
    [vm_compute; reflexivity..|].
  right. left.
Defined.

(** A normalized path bind is canonical: it starts with a slash and does
    not end with one, carries no traversal itself, and normalizing it again
    gives it back as long as it is within the length limit. *)
Theorem path_bind_canonical raw b :
  normalize_path_bind raw = Some b →
  starts_with [slash] b = true ∧ ends_with [slash] b = false
  ∧ request_path_has_traversal b = false
  ∧ (len b <= MAX_PATH_BIND_LEN → normalize_path_bind b = Some b).
Proof.
  intros Hb%normalize_path_bind_wf. pose proof (segments_safe b (wfb_segments b Hb)) as Hs.
  assert (Hend : ends_with [slash] b = false).
  { destruct (ends_with [slash] b) eqn:E; [|done]. apply ends_with_spec in E as [r ->].
    by destruct (wfb_end _ Hb r). }
  split_and!; [apply Hb|done| |].
  - unfold request_path_has_traversal. simpl. rewrite orb_false_r.
    rewrite <- (app_nil_r b) at 2. rewrite percent_decode_once_app by done. rewrite app_nil_r.
    rewrite orb_diag, split_sep_safe by done. apply existsb_false.
    eapply Forall_impl; [apply Hb|]. unfold segment_ok, dot_segment.
    intros seg [H|H]%orb_true_iff; [apply str_eqb_eq in H; by subst|]. to_prop. by apply orb_false_iff.
  - intros Hl. unfold normalize_path_bind.
    assert (trim_end_char slash (trim b) = b) as ->.
    { rewrite trim_graphic by (eapply Forall_impl; [exact Hs|naive_solver]).
      apply trim_end_by_id. intros r a Hr. apply is_char_false. intros ->. by destruct (wfb_end _ Hb r). }
    assert (str_eqb b [] || str_eqb b (bs "/") = false) as ->.
    { apply orb_false_iff. unfold str_eqb. rewrite !bool_decide_eq_false. split; intros ->.
      - pose proof (wfb_slash _ Hb). discriminate.
      - by destruct (wfb_end _ Hb []). }
    rewrite (proj2 (Z.ltb_ge _ _)) by done.
    rewrite (proj2 (forallb_Forall _ _) (wfb_segments _ Hb)). by rewrite (wfb_slash _ Hb).
Qed.

Lemma path_bind_canonical_witness :
  starts_with [slash] (bs "/a-b/c.d") = true ∧ ends_with [slash] (bs "/a-b/c.d") = false
  ∧ request_path_has_traversal (bs "/a-b/c.d") = false
  ∧ (len (bs "/a-b/c.d") <= MAX_PATH_BIND_LEN → normalize_path_bind (bs "/a-b/c.d") = Some (bs "/a-b/c.d")).
Proof. apply (path_bind_canonical (bs "  a-b/c.d// ")). vm_compute. reflexivity. Defined.

(** A bind of exactly the limit written without its slash normalizes to one
    byte more than the limit, which the normalizer itself refuses. *)
Example path_bind_over_limit :
  let raw := replicate 256 "a"%char in
  normalize_path_bind raw = Some (slash :: raw) ∧ normalize_path_bind (slash :: raw) = None.
Proof. vm_compute. done. Qed.

(** A normalized hostname bind is canonical and reachable: it is a
    non-empty lower-case name of at most 253 bytes, normalizing it again gives
    it back, and a request whose Host header is that name, alone or with a
    port, is routed by exactly that name. *)
Theorem hostname_bind_canonical raw r port :
  normalize_hostname_bind raw = Some r →
  forallb is_digit port = true →
  normalize_hostname_bind r = Some r ∧ r ≠ [] ∧ len r <= MAX_HOSTNAME_LEN ∧ lower r = r
  ∧ extract_request_host [(bs "host", r)] = Some r
  ∧ extract_request_host [(bs "host", r ++ colon :: port)] = Some r.
Proof.
  intros Hr%normalize_hostname_bind_wf Hp.
  split_and!; [by apply wf_host_normalize|apply Hr..| |].
  - rewrite <- (app_nil_r r) at 1. apply extract_request_host_port; [done|by left].
  - apply extract_request_host_port; [done|]. right. eauto.
Qed.

Lemma hostname_bind_canonical_witness :
  normalize_hostname_bind (bs "shop.example.com") = Some (bs "shop.example.com")
  ∧ bs "shop.example.com" ≠ [] ∧ len (bs "shop.example.com") <= MAX_HOSTNAME_LEN
  ∧ lower (bs "shop.example.com") = bs "shop.example.com"
  ∧ extract_request_host [(bs "host", bs "shop.example.com")] = Some (bs "shop.example.com")
  ∧ extract_request_host [(bs "host", bs "shop.example.com" ++ colon :: bs "8080")]
    = Some (bs "shop.example.com").
Proof.
  apply (hostname_bind_canonical (bs " Shop.Example.com:443 ") (bs "shop.example.com") (bs "8080"));
    vm_compute; reflexivity.
Defined.

(** A hostname made from an accepted random-subdomain pattern is
    recognized as one: for a pattern written without a port, the name minted
    from a UUID and the name derived from a seed both match the pattern. *)
Theorem random_hostname_recognized sha256 uuid raw p seed :
  normalize_random_subdomain_pattern raw = Some p →
  (colon ∉ raw) →
  (∀ s, length (sha256 s) = 32%nat) →
  length uuid = 32%nat → Forall (fun c => lower_hex c = true) uuid →
  host_matches_random_pattern (random_subdomain_hostname uuid p) p = true
  ∧ host_matches_random_pattern (random_subdomain_hostname_seeded sha256 p seed) p = true.
Proof.
  intros Hp Hc Hsha Hul Hu.
  destruct (random_pattern_shape raw p Hp Hc) as (pre & suf & rest & -> & H1 & H2 & H3 & H4 & H5).
  unfold random_subdomain_hostname, random_subdomain_hostname_seeded.
  rewrite !replace_first_star by done. split; apply host_matches_filled; try done.
  - by apply Forall_take.
  - intros Hn. apply (f_equal length) in Hn. rewrite length_take, Hul in Hn. discriminate.
  - apply hex_bytes_lower.
  - intros Hn. apply (f_equal length) in Hn. rewrite length_hex_bytes, length_take, Hsha in Hn.
    discriminate.
Qed.

Lemma random_hostname_recognized_witness :
  host_matches_random_pattern
    (random_subdomain_hostname (replicate 32 "a"%char) (bs "*-test.example.com"))
    (bs "*-test.example.com") = true
  ∧ host_matches_random_pattern
    (random_subdomain_hostname_seeded (fun _ => replicate 32 "x"%char) (bs "*-test.example.com") [])
    (bs "*-test.example.com") = true.
Proof.
  apply (random_hostname_recognized (fun _ => replicate 32 "x"%char) (replicate 32 "a"%char)
           (bs "*-Test.Example.com")).
  - vm_compute. reflexivity.
  - apply (bool_decide_unpack _). vm_compute. exact I.
  - intros. reflexivity.
  - reflexivity.
  - apply forallb_Forall. vm_compute. reflexivity.
Defined.

(** A pattern written with a port is accepted, and no name it produces is ever
    recognized. *)
Example random_pattern_with_port :
  normalize_random_subdomain_pattern (bs "example.com:8080") = Some (bs "*.example.com:8080")
  ∧ host_matches_random_pattern (bs "abcdef0123.example.com:8080") (bs "*.example.com:8080") = false.
Proof. vm_compute. done. Qed.
