(* ===== verification/IpNet.v ===== *)
(** IP addresses and ranges: [std::net::IpAddr] with its text parser,
    [aperio-server/src/auth/ip.rs] (allowlists and CIDR ranges) and the network
    functions of [aperio-config/src/expose_policy.rs].

    An address is its number: 32 bits for IPv4, 128 for IPv6. The two CIDR
    routines of the code, one masking and one shifting, are shown to decide the
    same predicate: equal leading bits. *)

From S2P Require Import Prelude Binds.

Inductive ipaddr : Type :=
| V4 (n : Z)
| V6 (n : Z).

#[export] Instance ipaddr_eq_dec : EqDecision ipaddr.
Proof. solve_decision. Defined.

Definition wf_ip (ip : ipaddr) : Prop :=
  match ip with V4 n => 0 <= n < 2 ^ 32 | V6 n => 0 <= n < 2 ^ 128 end.

(** [Ipv6Addr::to_ipv4_mapped]: the block [::ffff:0:0/96]. *)
Definition to_ipv4_mapped (n : Z) : option Z :=
  if n / 2 ^ 32 =? 65535 then Some (n mod 2 ^ 32) else None.

(** [IpAddr::to_canonical] *)
Definition to_canonical (ip : ipaddr) : ipaddr :=
  match ip with
  | V4 n => V4 n
  | V6 n => match to_ipv4_mapped n with Some v4 => V4 v4 | None => V6 n end
  end.

Definition is_ipv4 (ip : ipaddr) : bool := match ip with V4 _ => true | V6 _ => false end.

(** ** Text *)

(** A parser step consumes a prefix of the input. *)
Definition parser (A : Type) : Type := str → option (A * str).

Definition read_char (c : ascii) : parser unit := fun s =>
  match s with a :: s' => if decide (a = c) then Some (tt, s') else None | [] => None end.

(** [char::to_digit(radix)] for the two radixes used. *)
Definition radix_val (radix : Z) (c : ascii) : option Z :=
  match hex_val c with Some v => if v <? radix then Some v else None | None => None end.

Fixpoint span_digits (radix : Z) (s : str) : list Z * str :=
  match s with
  | [] => ([], [])
  | a :: s' =>
      match radix_val radix a with
      | Some v => let (ds, r) := span_digits radix s' in (v :: ds, r)
      | None => ([], s)
      end
  end.

Definition digits_num (radix : Z) (ds : list Z) : Z :=
  fold_left (fun acc d => acc * radix + d) ds 0.

(** [read_number(radix, max_digits, allow_zero_prefix)], the value within
    [max]. *)
Definition read_number (radix : Z) (max_digits : nat) (allow_zero_prefix : bool) (max : Z) : parser Z :=
  fun s =>
    let (ds, r) := span_digits radix s in
    if (length ds =? 0)%nat || (max_digits <? length ds)%nat || (max <? digits_num radix ds) then None
    else if negb allow_zero_prefix && (1 <? length ds)%nat && (default 1 (head ds) =? 0) then None
    else Some (digits_num radix ds, r).

Definition read_ipv4_addr : parser Z := fun s =>
  match read_number 10 3 false 255 s with
  | None => None
  | Some (a, s) =>
  match read_char dot s with None => None | Some (_, s) =>
  match read_number 10 3 false 255 s with None => None | Some (b, s) =>
  match read_char dot s with None => None | Some (_, s) =>
  match read_number 10 3 false 255 s with None => None | Some (c, s) =>
  match read_char dot s with None => None | Some (_, s) =>
  match read_number 10 3 false 255 s with None => None | Some (d, s) =>
    Some (((a * 256 + b) * 256 + c) * 256 + d, s)
  end end end end end end end.

(** Skips the group separator before every group but the first. *)
Definition read_separator {A} (first : bool) (p : parser A) : parser A := fun s =>
  if first then p s
  else match read_char colon s with Some (_, s') => p s' | None => None end.

(** Up to [left] 16-bit groups, the last two possibly written as IPv4; the
    groups read, whether IPv4 was, and the rest. *)
Fixpoint read_groups (left : nat) (first : bool) (s : str) : list Z * bool * str :=
  match left with
  | O => ([], false, s)
  | S left' =>
      match (match left' with O => None | S _ => read_separator first read_ipv4_addr s end) with
      | Some (v4, r) => ([v4 / 65536; v4 mod 65536], true, r)
      | None =>
          match read_separator first (read_number 16 4 true 65535) s with
          | Some (g, r) => let '(gs, b, r') := read_groups left' false r in (g :: gs, b, r')
          | None => ([], false, s)
          end
      end
  end.

Definition groups_num (gs : list Z) : Z := fold_left (fun acc g => acc * 65536 + g) gs 0.

Definition read_ipv6_addr : parser Z := fun s =>
  let '(head, head_ipv4, r) := read_groups 8 true s in
  if (length head =? 8)%nat then Some (groups_num head, r)
  else if head_ipv4 then None
  else match read_char colon r with
       | None => None
       | Some (_, r) =>
           match read_char colon r with
           | None => None
           | Some (_, r) =>
               let '(tail, _, r) := read_groups (8 - (length head + 1)) true r in
               Some (groups_num (head ++ replicate (8 - length head - length tail) 0 ++ tail), r)
           end
       end.

(** [s.parse::<IpAddr>().ok()]: the whole input must be consumed. *)
Definition parse_ip (s : str) : option ipaddr :=
  match read_ipv4_addr s with
  | Some (n, []) => Some (V4 n)
  | Some _ => None
  | None => match read_ipv6_addr s with Some (n, []) => Some (V6 n) | _ => None end
  end.

(** ** Ranges *)

Definition canonical_network (base : ipaddr) (bits : Z) : ipaddr * Z :=
  match base with
  | V6 v6 => match to_ipv4_mapped v6 with
             | Some v4 => if 96 <=? bits then (V4 v4, bits - 96) else (base, bits)
             | None => (base, bits)
             end
  | V4 _ => (base, bits)
  end.

(** [uW::MAX << (W - bits)], kept to [w] bits. *)
Definition mask (w bits : Z) : Z := Z.shiftl (2 ^ w - 1) (w - bits) mod 2 ^ w.

Definition masked_eq (w bits b i : Z) : bool :=
  if w <? bits then false
  else if bits =? 0 then true
  else Z.land b (mask w bits) =? Z.land i (mask w bits).

Definition cidr_contains (base : ipaddr) (bits : Z) (ip : ipaddr) : bool :=
  let (base, bits) := canonical_network base bits in
  let ip := match base with V4 _ => to_canonical ip | V6 _ => ip end in
  match base, ip with
  | V4 b, V4 i => masked_eq 32 bits b i
  | V6 b, V6 i => masked_eq 128 bits b i
  | _, _ => false
  end.

Definition ip_allowed (ip : ipaddr) (allowed : list str) : bool :=
  match allowed with
  | [] => true
  | _ =>
      existsb (fun entry =>
        let entry := trim entry in
        if str_eqb entry (bs "*") || str_eqb entry (bs "0.0.0.0/0")
           || str_eqb entry (bs "::/0") || str_eqb entry (bs "0.0.0.0") then true
        else match split_once slash entry with
             | Some (base, prefix) =>
                 match parse_ip base, parse_uint u32_max prefix with
                 | Some base_ip, Some bits => cidr_contains base_ip bits ip
                 | _, _ => false
                 end
             | None => match parse_ip entry with
                       | Some allowed_ip => bool_decide (to_canonical allowed_ip = to_canonical ip)
                       | None => false
                       end
             end) allowed
  end.

Definition valid_ip_entry (entry : str) : bool :=
  let entry := trim entry in
  if str_eqb entry (bs "*") then true
  else match split_once slash entry with
       | Some (base, prefix) =>
           match parse_ip base with
           | None => false
           | Some base_ip =>
               match parse_uint u32_max prefix with
               | Some bits => match base_ip with V4 _ => bits <=? 32 | V6 _ => bits <=? 128 end
               | None => false
               end
           end
       | None => match parse_ip entry with Some _ => true | None => false end
       end.

Definition parse_network (raw : str) : option (ipaddr * Z) :=
  let parsed := match split_once slash raw with
                | Some (ip, prefix) =>
                    match parse_ip ip with
                    | Some a => match parse_uint u8_max prefix with
                                | Some p => Some (a, Some p) | None => None end
                    | None => None
                    end
                | None => match parse_ip raw with Some a => Some (a, None) | None => None end
                end in
  match parsed with
  | None => None
  | Some (address, prefix) =>
      let width := if is_ipv4 address then 32 else 128 in
      let prefix := default width prefix in
      if prefix <=? width then Some (address, prefix) else None
  end.

Definition network_contains (raw : str) (peer : ipaddr) : bool :=
  match parse_network raw with
  | None => false
  | Some (network, prefix) =>
      let (network, prefix) :=
        match network with
        | V6 v6 => match to_ipv4_mapped v6 with
                   | Some v4 => if 96 <=? prefix then (V4 v4, prefix - 96) else (network, prefix)
                   | None => (network, prefix)
                   end
        | V4 _ => (network, prefix)
        end in
      let peer := match network with V4 _ => to_canonical peer | V6 _ => peer end in
      match network, peer with
      | V4 a, V4 b => (prefix =? 0) || (Z.shiftr a (32 - prefix) =? Z.shiftr b (32 - prefix))
      | V6 a, V6 b => (prefix =? 0) || (Z.shiftr a (128 - prefix) =? Z.shiftr b (128 - prefix))
      | _, _ => false
      end
  end.

Definition ip_in_ranges (ip : ipaddr) (ranges : list (ipaddr * Z)) : bool :=
  existsb (fun r => cidr_contains r.1 r.2 ip) ranges.

(** ** Ranges of parsed addresses *)

Lemma radix_val_range radix c v : radix_val radix c = Some v → 0 <= v < radix.
Proof.
  unfold radix_val, hex_val, is_digit. intros H.
  destruct ((48 <=? code c) && (code c <=? 57)) eqn:E1;
    [|destruct ((97 <=? code c) && (code c <=? 102)) eqn:E2;
      [|destruct ((65 <=? code c) && (code c <=? 70)) eqn:E3; [|done]]];
    case_in H; simplify_eq; to_prop; lia.
Qed.

Lemma fold_digits_nonneg radix ds acc :
  0 <= radix → 0 <= acc → Forall (fun d => 0 <= d) ds →
  0 <= fold_left (fun acc d => acc * radix + d) ds acc.
Proof.
  intros Hr. revert acc. induction ds as [|d ds IH]; intros acc Ha Hd; simpl; [done|].
  inversion Hd; subst. apply IH; [nia|done].
Qed.

Lemma span_digits_range radix s :
  Forall (fun d => 0 <= d < radix) (span_digits radix s).1.
Proof.
  induction s as [|a s IH]; simpl; [done|].
  destruct (radix_val radix a) as [v|] eqn:E; [|done].
  destruct (span_digits radix s) as [ds r]. simpl in *. constructor; [|done].
  by eapply radix_val_range.
Qed.

Lemma read_number_range radix k z max s n r :
  0 <= radix → read_number radix k z max s = Some (n, r) → 0 <= n <= max.
Proof.
  intros Hr. unfold read_number. pose proof (span_digits_range radix s) as Hd.
  destruct (span_digits radix s) as [ds r']. simpl in Hd.
  destruct (_ || (max <? _)) eqn:E; [done|]. destruct (_ && _); [done|].
  intros [= <- <-]. to_prop. split; [|done].
  apply fold_digits_nonneg; [done..|]. eapply Forall_impl; [exact Hd|]. simpl. lia.
Qed.

Lemma read_ipv4_addr_range s n r : read_ipv4_addr s = Some (n, r) → 0 <= n < 2 ^ 32.
Proof.
  unfold read_ipv4_addr. intros H.
  repeat match type of H with
  | context [read_number 10 3 false 255 ?s] =>
      let E := fresh "E" in destruct (read_number 10 3 false 255 s) as [[? ?]|] eqn:E; [|done];
      apply read_number_range in E; [|done]
  | context [read_char dot ?s] => destruct (read_char dot s) as [[? ?]|]; [|done]
  end.
  simplify_eq. lia.
Qed.

Lemma read_groups_range left first s gs b r :
  read_groups left first s = (gs, b, r) →
  Forall (fun g => 0 <= g < 65536) gs ∧ (length gs <= left)%nat.
Proof.
  revert first s gs b r. induction left as [|left IH]; intros first s gs b r; simpl.
  - intros [= <- <- <-]. split; [done|]. simpl. lia.
  - destruct (match left with O => None | _ => _ end) as [[v4 r4]|] eqn:E.
    + intros [= <- <- <-]. destruct left as [|left']; [done|].
      assert (0 <= v4 < 2 ^ 32).
      { unfold read_separator in E. destruct first; [by eapply read_ipv4_addr_range|].
        destruct (read_char colon s) as [[? ?]|]; [|done]. by eapply read_ipv4_addr_range. }
      split; [|simpl; lia]. repeat constructor; Z.div_mod_to_equations; lia.
    + destruct (read_separator first (read_number 16 4 true 65535) s) as [[g r1]|] eqn:E1.
      * destruct (read_groups left false r1) as [[gs' b'] r'] eqn:E2. intros ?; simplify_eq.
        apply IH in E2 as [Hf Hl]. split; [|simpl; lia]. constructor; [|done].
        unfold read_separator in E1. destruct first.
        -- apply read_number_range in E1; lia.
        -- destruct (read_char colon s) as [[? ?]|]; [|done]. apply read_number_range in E1; lia.
      * intros [= <- <- <-]. split; [done|simpl; lia].
Qed.

Lemma groups_num_range gs acc k :
  Forall (fun g => 0 <= g < 65536) gs → 0 <= acc < 65536 ^ k → 0 <= k →
  0 <= fold_left (fun acc g => acc * 65536 + g) gs acc < 65536 ^ (k + Z.of_nat (length gs)).
Proof.
  intros Hg. revert acc k. induction Hg as [|g gs Hg _ IH]; intros acc k Ha Hk; simpl.
  - rewrite Z.add_0_r. done.
  - replace (k + Z.of_nat (S (length gs))) with (k + 1 + Z.of_nat (length gs)) by lia.
    apply IH; [|lia]. rewrite Z.pow_add_r by lia. lia.
Qed.

Lemma groups_num_128 gs :
  Forall (fun g => 0 <= g < 65536) gs → length gs = 8%nat → 0 <= groups_num gs < 2 ^ 128.
Proof.
  intros Hg Hl. pose proof (groups_num_range gs 0 0 Hg) as H. rewrite Hl in H.
  change (65536 ^ (0 + Z.of_nat 8)) with (2 ^ 128) in H. apply H; lia.
Qed.

Lemma read_ipv6_addr_range s n r : read_ipv6_addr s = Some (n, r) → 0 <= n < 2 ^ 128.
Proof.
  unfold read_ipv6_addr. destruct (read_groups 8 true s) as [[hd hb] r0] eqn:E.
  apply read_groups_range in E as [Hh Hl].
  destruct (length hd =? 8)%nat eqn:E8.
  - intros [= <- <-]. apply Nat.eqb_eq in E8. by apply groups_num_128.
  - apply Nat.eqb_neq in E8. destruct hb; [done|].
    destruct (read_char colon r0) as [[? r1]|]; [|done].
    destruct (read_char colon r1) as [[? r2]|]; [|done].
    destruct (read_groups _ true r2) as [[tl tb] r3] eqn:E2.
    apply read_groups_range in E2 as [Ht Htl]. intros [= <- <-].
    apply groups_num_128.
    + rewrite !Forall_app. split_and!; [done| |done].
      apply Forall_replicate. lia.
    + rewrite !length_app, length_replicate. lia.
Qed.

Lemma parse_ip_wf s ip : parse_ip s = Some ip → wf_ip ip.
Proof.
  unfold parse_ip. destruct (read_ipv4_addr s) as [[n [|]]|] eqn:E; [|done|].
  - intros [= <-]. by eapply read_ipv4_addr_range.
  - destruct (read_ipv6_addr s) as [[n [|]]|] eqn:E6; [|done..].
    intros [= <-]. by eapply read_ipv6_addr_range.
Qed.

Lemma to_ipv4_mapped_range n v : to_ipv4_mapped n = Some v → 0 <= v < 2 ^ 32.
Proof.
  unfold to_ipv4_mapped. case_goal; [|done]. intros [= <-]. apply Z.mod_pos_bound. lia.
Qed.

Lemma to_canonical_wf ip : wf_ip ip → wf_ip (to_canonical ip).
Proof.
  destruct ip as [n|n]; simpl; [done|]. intros H.
  destruct (to_ipv4_mapped n) eqn:E; [|done]. by eapply to_ipv4_mapped_range.
Qed.

Lemma to_canonical_idem ip : to_canonical (to_canonical ip) = to_canonical ip.
Proof.
  destruct ip as [n|n]; simpl; [done|]. destruct (to_ipv4_mapped n) eqn:E; simpl; [done|].
  by rewrite E.
Qed.

(** The IPv4-mapped IPv6 spelling of an IPv4 address. *)
Definition mapped (n : Z) : ipaddr := V6 (65535 * 2 ^ 32 + n).

Lemma to_canonical_mapped n : 0 <= n < 2 ^ 32 → to_canonical (mapped n) = V4 n.
Proof.
  intros H. unfold mapped, to_canonical, to_ipv4_mapped.
  rewrite Z.div_add_l, Z.div_small by lia. simpl.
  by rewrite Z.add_comm, Z.mod_add, Z.mod_small by lia.
Qed.

(** ** Masking and shifting *)

Lemma mask_bits w bits i :
  0 <= bits <= w → 0 <= i < w → Z.testbit (mask w bits) i = (w - bits <=? i).
Proof.
  intros Hb Hi. unfold mask. rewrite Z.mod_pow2_bits_low, Z.shiftl_spec by lia.
  replace (2 ^ w - 1) with (Z.ones w) by (rewrite Z.ones_equiv; lia).
  destruct (w - bits <=? i) eqn:E; to_prop.
  - apply Z.ones_spec_low. lia.
  - apply Z.testbit_neg_r. lia.
Qed.

Lemma land_mask w bits b :
  0 <= bits <= w → 0 <= b < 2 ^ w →
  Z.land b (mask w bits) = Z.shiftl (Z.shiftr b (w - bits)) (w - bits).
Proof.
  intros Hb Hn. apply Z.bits_inj'. intros i Hi. rewrite Z.land_spec, Z.shiftl_spec by done.
  destruct (Z.lt_ge_cases i w) as [Hw|Hw].
  - rewrite mask_bits by lia. destruct (w - bits <=? i) eqn:E; to_prop.
    + rewrite Z.shiftr_spec by lia. rewrite andb_true_r. f_equal. lia.
    + rewrite andb_false_r. symmetry. apply Z.testbit_neg_r. lia.
  - assert (Hz : Z.testbit b i = false).
    { destruct (Z.eq_dec b 0) as [->|Hne]; [apply Z.testbit_0_l|].
      apply Z.bits_above_log2; [lia|]. pose proof (Z.log2_lt_pow2 b w). lia. }
    rewrite Hz. simpl. symmetry. rewrite Z.shiftr_spec by lia.
    replace (i - (w - bits) + (w - bits)) with i by lia. done.
Qed.

Lemma masked_eq_spec w bits b i :
  0 <= bits <= w → 0 <= b < 2 ^ w → 0 <= i < 2 ^ w →
  masked_eq w bits b i = (bits =? 0) || (Z.shiftr b (w - bits) =? Z.shiftr i (w - bits)).
Proof.
  intros Hb Hn Hi. unfold masked_eq. rewrite (proj2 (Z.ltb_ge _ _)) by lia.
  destruct (bits =? 0); [done|]. rewrite !land_mask by done. simpl.
  apply eq_true_iff_eq. rewrite !Z.eqb_eq. split; [|congruence].
  intros H. apply (f_equal (fun x => Z.shiftr x (w - bits))) in H.
  rewrite !Z.shiftr_shiftl_r, !Z.sub_diag, !Z.shiftr_0_r in H by lia. done.
Qed.

(** Equal leading [bits] of [w]-bit numbers, as numbers. *)
Definition same_prefix (w bits a b : Z) : Prop := a / 2 ^ (w - bits) = b / 2 ^ (w - bits).

Lemma masked_eq_prefix w bits b i :
  0 <= bits <= w → 0 <= b < 2 ^ w → 0 <= i < 2 ^ w →
  masked_eq w bits b i = true ↔ same_prefix w bits b i.
Proof.
  intros Hb Hn Hi. rewrite masked_eq_spec, orb_true_iff, !Z.eqb_eq by done.
  unfold same_prefix. rewrite !Z.shiftr_div_pow2 by lia. split; [|by right].
  intros [->|H]; [|done]. rewrite Z.sub_0_r, !Z.div_small by done. done.
Qed.

(** ** What a range means *)

(** The family a range is judged in, with the prefix counted there. *)
Definition range_covers (base : ipaddr) (bits : Z) (ip : ipaddr) : Prop :=
  match canonical_network base bits with
  | (V4 b, k) => ∃ i, to_canonical ip = V4 i ∧ 0 <= k <= 32 ∧ same_prefix 32 k b i
  | (V6 b, k) => ∃ i, ip = V6 i ∧ 0 <= k <= 128 ∧ same_prefix 128 k b i
  end.

Lemma canonical_network_wf base bits :
  wf_ip base → 0 <= bits →
  wf_ip (canonical_network base bits).1 ∧ 0 <= (canonical_network base bits).2.
Proof.
  intros Hw Hb. destruct base as [n|n]; simpl; [done|].
  destruct (to_ipv4_mapped n) as [v|] eqn:E; [|done].
  destruct (96 <=? bits) eqn:E96; simpl; [|done]. to_prop.
  split; [by eapply to_ipv4_mapped_range|lia].
Qed.

Lemma masked_eq_bits w bits b i : masked_eq w bits b i = true → bits <= w.
Proof. unfold masked_eq. case_goal; [done|]. by to_prop. Qed.

Lemma masked_eq_covers w bits b i :
  0 <= bits → 0 <= b < 2 ^ w → 0 <= i < 2 ^ w →
  masked_eq w bits b i = true ↔ 0 <= bits <= w ∧ same_prefix w bits b i.
Proof.
  intros Hb Hn Hi. split.
  - intros H. pose proof (masked_eq_bits _ _ _ _ H). split; [lia|].
    by apply masked_eq_prefix in H; [|lia..].
  - intros [Hk Hp]. by apply masked_eq_prefix.
Qed.

Lemma cidr_contains_spec base bits ip :
  wf_ip base → wf_ip ip → 0 <= bits →
  cidr_contains base bits ip = true ↔ range_covers base bits ip.
Proof.
  intros Hw Hi Hb. unfold cidr_contains, range_covers.
  destruct (canonical_network_wf base bits Hw Hb) as [Hcw Hcb].
  destruct (canonical_network base bits) as [[b|b] k]; simpl in *.
  - pose proof (to_canonical_wf ip Hi) as Hci.
    destruct (to_canonical ip) as [i|i]; [|naive_solver].
    rewrite masked_eq_covers by done. naive_solver.
  - destruct ip as [i|i]; [naive_solver|].
    rewrite masked_eq_covers by done. naive_solver.
Qed.

Lemma parse_network_wf raw a p :
  parse_network raw = Some (a, p) → wf_ip a ∧ 0 <= p <= (if is_ipv4 a then 32 else 128).
Proof.
  intros E. unfold parse_network in E. destruct (split_once slash raw) as [[h t]|].
  - destruct (parse_ip h) as [b|] eqn:Eb; [|done].
    destruct (parse_uint u8_max t) as [q|] eqn:Eq; [|done]. simpl in E.
    apply parse_uint_range in Eq.
    destruct (q <=? _) eqn:Eb' in E; [|done]. simplify_eq. to_prop.
    split; [by eapply parse_ip_wf|lia].
  - destruct (parse_ip raw) as [b|] eqn:Eb; [|done]. simpl in E.
    rewrite Z.leb_refl in E. simplify_eq. split; [by eapply parse_ip_wf|].
    destruct (is_ipv4 a); lia.
Qed.

Lemma network_contains_eq raw peer :
  wf_ip peer →
  network_contains raw peer =
  match parse_network raw with Some (a, p) => cidr_contains a p peer | None => false end.
Proof.
  intros Hp. unfold network_contains.
  destruct (parse_network raw) as [[a p]|] eqn:E; [|done].
  apply parse_network_wf in E as [Hwf Hr]. unfold cidr_contains.
  pose proof (canonical_network_wf a p Hwf ltac:(lia)) as Hcw.
  assert (Hk : (canonical_network a p).2 <= if is_ipv4 (canonical_network a p).1 then 32 else 128).
  { destruct a as [n|n]; simpl in *; [lia|].
    destruct (to_ipv4_mapped n); simpl; [|lia]. destruct (96 <=? p); simpl; lia. }
  change (match a with V4 _ => (a, p) | V6 v6 => _ end) with (canonical_network a p).
  destruct (canonical_network a p) as [[b|b] k]; simpl in *.
  - pose proof (to_canonical_wf peer Hp). destruct (to_canonical peer) as [i|i]; [|done].
    by rewrite masked_eq_spec by (simpl in *; lia).
  - destruct peer as [i|i]; [done|]. by rewrite masked_eq_spec by (simpl in *; lia).
Qed.

(** What one allowlist entry admits: everyone, a range, or one address in
    either spelling. *)
Definition entry_admits (entry : str) (ip : ipaddr) : Prop :=
  entry ∈ [bs "*"; bs "0.0.0.0/0"; bs "::/0"; bs "0.0.0.0"] ∨
  match split_once slash entry with
  | Some (base, prefix) =>
      ∃ b k, parse_ip base = Some b ∧ parse_uint u32_max prefix = Some k ∧ range_covers b k ip
  | None => ∃ a, parse_ip entry = Some a ∧ to_canonical a = to_canonical ip
  end.

Lemma covers_prefix_bound b k ip :
  wf_ip b → 0 <= k → range_covers b k ip → k <= if is_ipv4 b then 32 else 128.
Proof.
  intros Hw Hk. unfold range_covers. destruct b as [n|n]; simpl; [naive_solver|].
  destruct (to_ipv4_mapped n); [destruct (96 <=? k) eqn:E|]; naive_solver lia.
Qed.

Lemma entry_admits_valid e ip : entry_admits (trim e) ip → valid_ip_entry e = true.
Proof.
  unfold entry_admits, valid_ip_entry. generalize (trim e). clear e. intros e.
  destruct (str_eqb e (bs "*")) eqn:E; [done|]. intros [H|H].
  - rewrite !elem_of_cons in H. destruct H as [->|[->|[->|[->|H]]]]; [done|done|done|done|].
    by apply not_elem_of_nil in H.
  - destruct (split_once slash e) as [[h t]|].
    + destruct H as (b & k & Hb & Hk & Hc). rewrite Hb, Hk.
      apply covers_prefix_bound in Hc;
        [|by eapply parse_ip_wf|apply (parse_uint_range _ _ _ Hk)].
      destruct b; by apply Z.leb_le.
    + by destruct H as (a & -> & _).
Qed.

Lemma ip_allowed_entry e ip :
  wf_ip ip → ip_allowed ip [e] = true ↔ entry_admits (trim e) ip.
Proof.
  intros Hw. unfold ip_allowed, entry_admits. simpl existsb. rewrite orb_false_r.
  generalize (trim e). clear e. intros e.
  destruct (str_eqb e (bs "*") || _ || _ || _) eqn:E.
  - rewrite !orb_true_iff, !str_eqb_eq in E. split; [|done]. intros _. left.
    rewrite !elem_of_cons. tauto.
  - rewrite !orb_false_iff in E. rewrite !elem_of_cons, elem_of_nil.
    assert (Hn : ∀ t, str_eqb e t = false → e ≠ t)
      by (intros t Ht ->; by rewrite str_eqb_refl in Ht).
    destruct E as [[[?%Hn ?%Hn] ?%Hn] ?%Hn].
    assert (Hor : ∀ P, P ↔ (e = bs "*" ∨ e = bs "0.0.0.0/0" ∨ e = bs "::/0"
                            ∨ e = bs "0.0.0.0" ∨ False) ∨ P) by (intros P; tauto).
    rewrite <- Hor. destruct (split_once slash e) as [[h t]|].
    + destruct (parse_ip h) as [b|] eqn:Eb; [|naive_solver].
      destruct (parse_uint u32_max t) as [k|] eqn:Ek; [|naive_solver].
      rewrite cidr_contains_spec;
        [naive_solver|by eapply parse_ip_wf|done|apply (parse_uint_range _ _ _ Ek)].
    + destruct (parse_ip e) as [a|]; [|naive_solver]. rewrite bool_decide_eq_true. naive_solver.
Qed.

Lemma ip_allowed_cons ip e l : ip_allowed ip (e :: l) = ip_allowed ip [e] || existsb (fun e => ip_allowed ip [e]) l.
Proof.
  unfold ip_allowed. simpl. rewrite orb_false_r. f_equal. induction l as [|a l IH]; [done|].
  simpl. rewrite IH. by rewrite orb_false_r.
Qed.

(** An address passes an IP allowlist exactly when the list is empty or one
    of its entries admits it (a wildcard, a CIDR range whose leading bits it
    shares in the family the range denotes, or the same address in either
    spelling); and an entry that validation refuses never admits anyone. *)
Theorem ip_allowed_meaning ip allowed :
  wf_ip ip →
  (ip_allowed ip allowed = true ↔
   allowed = [] ∨ ∃ e, e ∈ allowed ∧ entry_admits (trim e) ip)
  ∧ (∀ e, valid_ip_entry e = false → ip_allowed ip [e] = false).
Proof.
  intros Hw. split.
  - destruct allowed as [|e l]; [naive_solver|]. rewrite ip_allowed_cons, orb_true_iff, existsb_Exists.
    setoid_rewrite ip_allowed_entry; [|done..]. setoid_rewrite elem_of_cons. naive_solver.
  - intros e He. apply not_true_iff_false. rewrite ip_allowed_entry by done.
    intros H%entry_admits_valid. congruence.
Qed.

Lemma ip_allowed_meaning_witness :
  wf_ip (V4 167772161) ∧ entry_admits (trim (bs " 10.0.0.0/8 ")) (V4 167772161).
Proof.
  assert (H : wf_ip (V4 167772161)) by (simpl; lia). split; [exact H|].
  destruct (proj1 (proj1 (ip_allowed_meaning (V4 167772161) [bs " 10.0.0.0/8 "] H)) eq_refl)
    as [He|(e & He & Ha)]; [discriminate|].
  apply list_elem_of_singleton in He. subst e. exact Ha.
Defined.

(** The network test of the port policy (shifts) and the CIDR test of the
    allowlists (masks) decide the same predicate on every parsed network:
    equal leading bits in the family the network denotes. An IPv4 peer and its
    IPv4-mapped spelling are judged alike by every IPv4 or mapped network. *)
Theorem network_contains_agrees raw peer :
  wf_ip peer →
  network_contains raw peer =
    match parse_network raw with Some (a, p) => cidr_contains a p peer | None => false end
  ∧ (network_contains raw peer = true ↔
     ∃ a p, parse_network raw = Some (a, p) ∧ range_covers a p peer)
  ∧ (∀ a p n, parse_network raw = Some (a, p) → is_ipv4 (canonical_network a p).1 = true →
     0 <= n < 2 ^ 32 → network_contains raw (mapped n) = network_contains raw (V4 n)).
Proof.
  intros Hw. split; [by apply network_contains_eq|]. split.
  - rewrite network_contains_eq by done.
    destruct (parse_network raw) as [[a p]|] eqn:E; [|naive_solver].
    rewrite cidr_contains_spec; [naive_solver|by eapply parse_network_wf|done|].
    by apply parse_network_wf in E as [_ [? _]].
  - intros a p n E Hf Hn. rewrite !network_contains_eq, E by (unfold mapped; simpl; lia).
    unfold cidr_contains. destruct (canonical_network a p) as [[b|b] k]; [|done].
    by rewrite to_canonical_mapped.
Qed.

Lemma network_contains_agrees_witness :
  network_contains (bs "::ffff:10.0.0.0/104") (mapped 167772161) = true.
Proof.
  pose proof (network_contains_agrees (bs "::ffff:10.0.0.0/104") (V4 167772161)) as H.
  destruct H as (He & _ & H); [simpl; lia|].
  rewrite (H (mapped 167772160) 104 167772161); [exact He|reflexivity|reflexivity|lia].
Defined.
