(* ===== verification/ClientIp.v ===== *)
(** The visitor's address behind trusted proxies:
    [aperio-server/src/routing/client_ip.rs].

    [real_ip_header_value] also writes a one-time log line when Cloudflare's
    header and [X-Forwarded-For] disagree; the test behind it is
    [cloudflare_xff_rewritten], the line itself has no effect on the answer. *)

From S2P Require Import Prelude Binds IpNet.

Definition comma : ascii := ","%char.

Definition xff_header (hs : headers) : option str := header_str (bs "x-forwarded-for") hs.

Definition real_ip_header_value (hs : headers) (real_ip_header : option str) : option ipaddr :=
  match real_ip_header with
  | None => None
  | Some name => match header_str name hs with Some v => parse_ip (trim v) | None => None end
  end.

Definition is_trusted_proxy (ip : ipaddr) (trusted : list (ipaddr * Z)) : bool :=
  ip_in_ranges ip trusted.

(** The parsable entries of one [X-Forwarded-For] value, in order. *)
Definition xff_chain (v : str) : list ipaddr :=
  omap (fun e => parse_ip (trim e)) (split_on comma v).

(** The loop over [chain.iter().rev()]. *)
Fixpoint first_untrusted (trusted : list (ipaddr * Z)) (rchain : list ipaddr) : option ipaddr :=
  match rchain with
  | [] => None
  | ip :: r => if is_trusted_proxy ip trusted then first_untrusted trusted r else Some ip
  end.

Definition extract_via_trusted_chain (hs : headers) (peer : ipaddr) (real_ip_header : option str)
    (trusted : list (ipaddr * Z)) : ipaddr :=
  if negb (is_trusted_proxy peer trusted) then peer
  else match real_ip_header_value hs real_ip_header with
       | Some parsed => parsed
       | None =>
           let chain := match xff_header hs with Some v => xff_chain v | None => [] end in
           match first_untrusted trusted (rev chain) with
           | Some ip => ip
           | None => default peer (head chain)
           end
       end.

Definition resolve_client_ip (hs : headers) (fallback : ipaddr) (trust_proxy : bool)
    (real_ip_header : option str) (trusted : list (ipaddr * Z)) : ipaddr :=
  if negb trust_proxy then fallback
  else match trusted with
  | _ :: _ => extract_via_trusted_chain hs fallback real_ip_header trusted
  | [] =>
      match real_ip_header_value hs real_ip_header with
      | Some parsed => parsed
      | None =>
          match (match xff_header hs with
                 | Some v => match split_on comma v with
                             | first :: _ => parse_ip (trim first) | [] => None end
                 | None => None end) with
          | Some parsed => parsed
          | None =>
              match (match header_str (bs "x-real-ip") hs with
                     | Some v => parse_ip (trim v) | None => None end) with
              | Some parsed => parsed
              | None => fallback
              end
          end
      end
  end.

Definition extract_client_ip (hs : headers) (fallback : ipaddr) (trust_proxy : bool)
    (real_ip_header : option str) (trusted : list (ipaddr * Z)) : ipaddr :=
  to_canonical (resolve_client_ip hs fallback trust_proxy real_ip_header trusted).

(** One entry of the trusted list; [None] where the code builds its error. *)
Definition parse_trusted_entry (entry : str) : option (ipaddr * Z) :=
  let parsed :=
    match split_once slash entry with
    | Some (base, prefix) =>
        match parse_ip base, parse_uint u32_max prefix with
        | Some ip, Some bits => Some (ip, bits)
        | _, _ => None
        end
    | None => match parse_ip entry with
              | Some ip => Some (ip, if is_ipv4 ip then 32 else 128)
              | None => None
              end
    end in
  match parsed with
  | Some (ip, bits) => if bits <=? (if is_ipv4 ip then 32 else 128) then Some (ip, bits) else None
  | None => None
  end.

(** The loop; the error names the entry. *)
Fixpoint parse_trusted_loop (entries : list str) (out : list (ipaddr * Z))
    : result (list (ipaddr * Z)) str :=
  match entries with
  | [] => Ok out
  | raw :: rest =>
      let entry := trim raw in
      match entry with
      | [] => parse_trusted_loop rest out
      | _ => match parse_trusted_entry entry with
             | Some r => parse_trusted_loop rest (out ++ [r])
             | None => Err entry
             end
      end
  end.

Definition parse_trusted_proxies (raw : str) : result (list (ipaddr * Z)) str :=
  parse_trusted_loop (split_on comma raw) [].

Definition cloudflare_xff_rewritten (hs : headers) (cf_ip : ipaddr) : bool :=
  match xff_header hs with
  | Some v => match split_on comma v with
              | first :: _ => match parse_ip (trim first) with
                              | Some ip => bool_decide (ip ≠ cf_ip)
                              | None => false
                              end
              | [] => false
              end
  | None => false
  end.

(** ** The walk *)

Lemma first_untrusted_skip trusted l r :
  Forall (fun ip => is_trusted_proxy ip trusted = true) l →
  first_untrusted trusted (l ++ r) = first_untrusted trusted r.
Proof. induction 1 as [|ip l Hip _ IH]; simpl; [done|]. by rewrite Hip. Qed.

(** The walk answers the last untrusted address of the chain. *)
Lemma first_untrusted_last trusted chain ip rest :
  is_trusted_proxy ip trusted = false →
  Forall (fun ip => is_trusted_proxy ip trusted = true) rest →
  first_untrusted trusted (rev (chain ++ ip :: rest)) = Some ip.
Proof.
  intros Hip Hr. rewrite rev_app_distr. simpl. rewrite <- app_assoc.
  rewrite first_untrusted_skip by by apply Forall_rev. simpl. by rewrite Hip.
Qed.

Lemma xff_chain_app s t : xff_chain (s ++ comma :: t) = xff_chain s ++ xff_chain t.
Proof.
  unfold xff_chain, split_on. rewrite split_by_app by by apply is_char_true.
  apply omap_app.
Qed.

Lemma xff_chain_wf v : Forall wf_ip (xff_chain v).
Proof.
  apply Forall_forall. intros ip. unfold xff_chain.
  rewrite list_elem_of_omap. intros (e & _ & He). by eapply parse_ip_wf.
Qed.

Lemma first_untrusted_elem trusted l ip :
  first_untrusted trusted l = Some ip → ip ∈ l ∧ is_trusted_proxy ip trusted = false.
Proof.
  induction l as [|a l IH]; simpl; [done|]. destruct (is_trusted_proxy a trusted) eqn:E.
  - intros H%IH. set_solver.
  - intros [= ->]. set_solver.
Qed.

(** Without proxy trust, or when the connecting peer is outside the trusted
    ranges, no header has any influence: the visitor is the peer, in canonical
    form. *)
Theorem client_ip_untrusted_peer hs peer trust_proxy hdr trusted :
  trust_proxy = false ∨ (trusted ≠ [] ∧ ip_in_ranges peer trusted = false) →
  extract_client_ip hs peer trust_proxy hdr trusted = to_canonical peer.
Proof.
  unfold extract_client_ip, resolve_client_ip. intros [->|[Hne Hp]]; [done|].
  destruct trust_proxy; [|done]. simpl. destruct trusted as [|t trusted]; [done|].
  unfold extract_via_trusted_chain, is_trusted_proxy. by rewrite Hp.
Qed.

Lemma client_ip_untrusted_peer_witness :
  extract_client_ip [(bs "x-forwarded-for", bs "1.2.3.4")] (mapped 3405803780) true None
    [(V4 167772160, 8)] = V4 3405803780.
Proof.
  rewrite (client_ip_untrusted_peer _ (mapped 3405803780)); [reflexivity|].
  right. split; [discriminate|reflexivity].
Defined.

(** C14: Behind trusted proxies that append to one [X-Forwarded-For] line, the first
    of the request and a readable one, and with no header of its own configured for
    the address, a visitor cannot choose the address it is seen under: whatever it
    wrote before them in that line ([spoof]), the answer is the address the first
    trusted proxy appended, in canonical form, and it is the same answer as
    without the spoofed part. Lines after the first are not read
    ([second_xff_line_ignored]), so a proxy that adds a line of its own instead of
    appending to the visitor's is outside the statement. *)
Theorem client_ip_spoof_resistant hs peer trusted spoof real rest honest :
  ip_in_ranges peer trusted = true →
  xff_chain honest = real :: rest →
  ip_in_ranges real trusted = false →
  Forall (fun ip => ip_in_ranges ip trusted = true) rest →
  xff_header hs = Some (spoof ++ comma :: honest) ∨ xff_header hs = Some honest →
  extract_client_ip hs peer true None trusted = to_canonical real.
Proof.
  intros Hp Hc Hreal Hrest Hx. unfold extract_client_ip, resolve_client_ip. simpl.
  destruct trusted as [|t trusted]; [discriminate Hp|].
  unfold extract_via_trusted_chain. change (is_trusted_proxy peer) with (ip_in_ranges peer).
  rewrite Hp. simpl.
  assert (∃ pre, match xff_header hs with Some v => xff_chain v | None => [] end
                 = pre ++ real :: rest) as [pre ->].
  { destruct Hx as [->| ->]; [rewrite xff_chain_app, Hc; eauto|exists []; by rewrite Hc]. }
  by rewrite first_untrusted_last.
Qed.

Lemma client_ip_spoof_resistant_witness :
  extract_client_ip [(bs "x-forwarded-for", bs "6.6.6.6, 10.9.9.9,9.9.9.9, 10.0.0.2")]
    (V4 167772161) true None [(V4 167772160, 8)] = V4 151587081.
Proof.
  rewrite (client_ip_spoof_resistant _ (V4 167772161) [(V4 167772160, 8)]
             (bs "6.6.6.6, 10.9.9.9") (V4 151587081) [V4 167772162] (bs "9.9.9.9, 10.0.0.2"));
    [reflexivity|reflexivity|reflexivity|reflexivity| |left; reflexivity].
  repeat constructor.
Defined.

(** ** The configured list *)

Lemma parse_trusted_entry_wf e ip bits :
  parse_trusted_entry e = Some (ip, bits) →
  wf_ip ip ∧ 0 <= bits <= (if is_ipv4 ip then 32 else 128).
Proof.
  unfold parse_trusted_entry. destruct (split_once slash e) as [[h t]|].
  - destruct (parse_ip h) as [a|] eqn:Ea; [|done].
    destruct (parse_uint u32_max t) as [k|] eqn:Ek; [|done].
    destruct (k <=? _) eqn:E; [|done]. intros [= -> ->]. to_prop.
    apply parse_uint_range in Ek. split; [by eapply parse_ip_wf|lia].
  - destruct (parse_ip e) as [a|] eqn:Ea; [|done]. rewrite Z.leb_refl. intros [= -> <-].
    split; [by eapply parse_ip_wf|]. destruct (is_ipv4 ip); lia.
Qed.

(** The entries that are not blank, trimmed. *)
Definition nonblank (entries : list str) : list str :=
  filter (fun e => e ≠ []) (trim <$> entries).

Lemma parse_trusted_loop_spec entries out :
  match parse_trusted_loop entries out with
  | Ok rs => ∃ new, rs = out ++ new ∧
               Forall2 (fun e r => parse_trusted_entry e = Some r) (nonblank entries) new
  | Err e => e ∈ nonblank entries ∧ parse_trusted_entry e = None
  end.
Proof.
  revert out. induction entries as [|raw entries IH]; intros out; simpl.
  - exists []. by rewrite app_nil_r.
  - unfold nonblank. simpl. destruct (trim raw) as [|a e] eqn:Et.
    + rewrite filter_cons_False by (intros H; by apply H). apply IH.
    + rewrite filter_cons_True by done.
      destruct (parse_trusted_entry (a :: e)) as [r|] eqn:Ep; [|set_solver].
      specialize (IH (out ++ [r])). destruct (parse_trusted_loop entries (out ++ [r])).
      * destruct IH as (new & -> & Hn). exists (r :: new).
        split; [by rewrite <- app_assoc|by constructor].
      * set_solver.
Qed.

(** The trusted-proxy list is all or nothing. When it parses, it holds one
    well-formed range per entry that is not blank, in order, and an address is
    trusted exactly when one of those entries' ranges covers it; when it does
    not, the error names an entry that is no address or range. *)
Theorem trusted_proxies_exact raw :
  match parse_trusted_proxies raw with
  | Ok rs =>
      Forall2 (fun e r => parse_trusted_entry e = Some r) (nonblank (split_on comma raw)) rs
      ∧ Forall (fun r => wf_ip r.1 ∧ 0 <= r.2 <= if is_ipv4 r.1 then 32 else 128) rs
      ∧ ∀ ip, wf_ip ip →
          ip_in_ranges ip rs = true ↔
          ∃ e b k, e ∈ nonblank (split_on comma raw) ∧ parse_trusted_entry e = Some (b, k)
                   ∧ range_covers b k ip
  | Err e => e ∈ nonblank (split_on comma raw) ∧ parse_trusted_entry e = None
  end.
Proof.
  unfold parse_trusted_proxies. pose proof (parse_trusted_loop_spec (split_on comma raw) []) as H.
  destruct (parse_trusted_loop _ []) as [rs|e]; [|done]. destruct H as (new & -> & H2). simpl.
  assert (Hwf : Forall (fun r => wf_ip r.1 ∧ 0 <= r.2 <= if is_ipv4 r.1 then 32 else 128) new).
  { apply Forall_forall. intros [b k] Hin. apply list_elem_of_lookup in Hin as [i Hi].
    destruct (Forall2_lookup_r _ _ _ _ _ H2 Hi) as (e & _ & He).
    by apply parse_trusted_entry_wf in He. }
  split_and!; [done..|]. intros ip Hip. unfold ip_in_ranges. rewrite existsb_Exists. split.
  - intros ([b k] & Hin & Hc). rewrite Forall_forall in Hwf. destruct (Hwf _ Hin) as [Hb Hk].
    rewrite cidr_contains_spec in Hc by (simpl in *; lia || done).
    apply list_elem_of_lookup in Hin as [i Hi].
    destruct (Forall2_lookup_r _ _ _ _ _ H2 Hi) as (e & He & Hpe).
    exists e, b, k. split; [by eapply list_elem_of_lookup_2|done].
  - intros (e & b & k & Hin & Hpe & Hc). apply list_elem_of_lookup in Hin as [i Hi].
    destruct (Forall2_lookup_l _ _ _ _ _ H2 Hi) as (r & Hr & Hpr). simplify_eq.
    exists (b, k). split; [by eapply list_elem_of_lookup_2|].
    destruct (parse_trusted_entry_wf _ _ _ Hpe) as [Hb Hk].
    rewrite cidr_contains_spec; [done|done|done|simpl; lia].
Qed.

(** Only the first [X-Forwarded-For] line is read: when a trusted proxy adds a
    line of its own instead of extending the visitor's, the visitor's line is
    the one believed. *)
Example second_xff_line_ignored :
  extract_client_ip [(bs "x-forwarded-for", bs "6.6.6.6"); (bs "x-forwarded-for", bs "9.9.9.9")]
    (V4 167772161) true None [(V4 167772160, 8)] = V4 101058054.
Proof. vm_compute. reflexivity. Qed.
