(* ===== verification/Orgs.v ===== *)
(** The organization fence: hostname patterns
    ([aperio-server/src/store/orgs.rs]) and who may claim or act on a hostname
    ([aperio-server/src/state/admission.rs]).

    A pattern denotes a set of names ([names]); matching, coverage and overlap
    are shown to be about those sets: coverage, which grants, is sound, and
    overlap, which refuses, is complete. *)

From S2P Require Import Prelude Utf8 Binds.

(** [host.rsplit_once(':')] kept only for a numeric port. *)
Definition strip_numeric_port (host : str) : str :=
  match rsplit_once colon host with
  | Some (name, port) => if negb (str_eqb port []) && forallb is_digit port then name else host
  | None => host
  end.

Definition panel_label_ok (label : str) : bool :=
  negb (str_eqb label []) && (len label <=? 63)
  && forallb (fun c => is_alnum c || bool_decide (c = "-"%char)) label
  && negb (starts_with (bs "-") label) && negb (ends_with (bs "-") label).

Definition normalize_panel_hostname (raw : str) : option str :=
  let host := strip_numeric_port (lower (trim_end_char dot (trim raw))) in
  if str_eqb host [] || (253 <? len host) || has star host then None
  else if forallb panel_label_ok (split_on dot host) then Some host else None.

Definition normalize_org_hostname_pattern (raw : str) : option str :=
  let trimmed := lower (trim_end_char dot (trim raw)) in
  if str_eqb trimmed [] then None
  else if str_eqb trimmed (bs "*") then Some (bs "*")
  else match strip_prefix (bs "*.") trimmed with
  | Some rest =>
      match normalize_hostname_bind rest with
      | None => None
      | Some normalized => if has dot normalized then Some (bs "*." ++ normalized) else None
      end
  | None =>
      if has star trimmed then
        if negb (count_char star trimmed =? 1)%nat then None
        else match split_once dot trimmed with
             | None => None
             | Some (head, tail) =>
                 if negb (has star head) || has star tail || negb (has dot tail) then None
                 else match normalize_hostname_bind (replace_first star (bs "abc123") trimmed) with
                      | None => None
                      | Some _ => Some trimmed
                      end
             end
      else normalize_hostname_bind trimmed
  end.

Definition pattern_matches_host (pattern host : str) : bool :=
  if str_eqb pattern (bs "*") then true
  else
    let host := trim_end_char dot host in
    match strip_prefix (bs "*.") pattern with
    | Some suffix =>
        let n := length host in
        let m := length suffix in
        (m + 1 <? n)%nat
        && bool_decide (host !! (n - m - 1)%nat = Some dot)
        && eq_ignore_case (drop (n - m) host) suffix
    | None =>
        match find_index (is_char star) pattern with
        | Some st =>
            let pat_head := take st pattern in
            let pat_tail := drop 1 (drop st pattern) in
            match find_index (is_char dot) host with
            | None => false
            | Some d =>
                let label := take d host in
                let rest := drop d host in
                match split_once dot pat_tail with
                | None => false
                | Some (pat_label_tail, pat_rest) =>
                    (length pat_head + length pat_label_tail <? length label)%nat
                    && eq_ignore_case (take (length pat_head) label) pat_head
                    && eq_ignore_case (drop (length label - length pat_label_tail) label)
                         pat_label_tail
                    && eq_ignore_case (drop 1 rest) pat_rest
                end
            end
        | None => eq_ignore_case host pattern
        end
    end.

Definition hostname_in_org_allowlist (host : str) (patterns : list str) : bool :=
  match patterns with
  | [] => true
  | _ => existsb (fun pattern => pattern_matches_host pattern host) patterns
  end.

Definition wildcard_suffix (pattern : str) : option str := strip_prefix (bs "*.") pattern.

(** The closure [partial] of both functions below. *)
Definition is_partial (p : str) : bool :=
  match wildcard_suffix p with Some _ => false | None => has star p end.

(** [rest == suffix || rest.ends_with(&format!(".{suffix}"))] *)
Definition under (suffix rest : str) : bool :=
  str_eqb rest suffix || ends_with (dot :: suffix) rest.

Definition pattern_covers_pattern (outer inner : str) : bool :=
  if str_eqb outer (bs "*") then true
  else if str_eqb inner (bs "*") then false
  else if is_partial outer then
    if is_partial inner then eq_ignore_case outer inner
    else match wildcard_suffix inner with
         | Some _ => false
         | None => pattern_matches_host outer inner
         end
  else if is_partial inner then
    match wildcard_suffix outer with
    | Some suffix => match split_once dot inner with
                     | Some (_, rest) => under suffix rest
                     | None => false
                     end
    | None => false
    end
  else match wildcard_suffix outer, wildcard_suffix inner with
       | Some o, Some i => under o i
       | Some _, None => hostname_in_org_allowlist inner [outer]
       | None, Some _ => false
       | None, None => eq_ignore_case outer inner
       end.

Definition patterns_overlap (a b : str) : bool :=
  if pattern_covers_pattern a b || pattern_covers_pattern b a then true
  else if is_partial a && is_partial b then
    bool_decide (snd <$> split_once dot a = snd <$> split_once dot b)
  else false.

(** ** Claiming and acting on a hostname

    The organization store as its [(id, hostnames)] pairs, and what the two
    functions read of a connected client: its organization and the hostnames
    it serves. *)
Record served_client : Type := {
  sc_org : option str;
  sc_hostnames : list str;
}.

Definition fences : Type := list (str * list str).

Definition served (org_matches : option str → bool) (clients : list served_client) : list str :=
  concat (sc_hostnames <$> filter (fun c => org_matches (sc_org c) = true) clients).

Definition org_may_claim_hostname (store : fences) (clients : list served_client)
    (org : option str) (target : str) : bool :=
  match org with
  | Some id =>
      let own := match find (fun o => str_eqb o.1 id) store with Some (_, l) => l | None => [] end in
      match own with
      | _ :: _ => existsb (fun entry => pattern_covers_pattern entry target) own
      | [] =>
          if starts_with (bs "*.") target then false
          else existsb (fun h => str_eqb h target)
                 (served (fun owner => bool_decide (owner = Some id)) clients)
      end
  | None =>
      if existsb (fun entry => patterns_overlap entry target) (concat (snd <$> store)) then false
      else negb (existsb (fun h => pattern_covers_pattern target h)
                   (served (fun owner => match owner with Some _ => true | None => false end) clients))
  end.

Definition org_may_act_on_hostname (store : fences) (clients : list served_client)
    (org : option str) (target : str) : bool :=
  if negb (org_may_claim_hostname store clients org target) then false
  else negb (existsb (fun c => bool_decide (sc_org c ≠ org)
                        && existsb (fun h => pattern_covers_pattern target h) (sc_hostnames c))
               clients).

(** ** What a pattern denotes *)

Inductive shape : Type :=
| PAny
| PWild (suffix : str)
| PPartial (head label_tail rest : str)
| PDead
| PExact.

Definition classify (p : str) : shape :=
  if str_eqb p (bs "*") then PAny
  else match strip_prefix (bs "*.") p with
       | Some suf => PWild suf
       | None => match split_once star p with
                 | Some (h, t) => match split_once dot t with
                                  | Some (lt, rest) => PPartial h lt rest
                                  | None => PDead
                                  end
                 | None => PExact
                 end
       end.

(** [x] is a lower-case name without trailing dots. *)
Definition names (p x : str) : Prop :=
  match classify p with
  | PAny => True
  | PWild suf => ∃ pre, pre ≠ [] ∧ x = pre ++ dot :: lower suf
  | PPartial h lt rest =>
      ∃ mid, mid ≠ [] ∧ (dot ∉ h) ∧ (dot ∉ mid)
             ∧ x = lower h ++ mid ++ lower lt ++ dot :: lower rest
  | PDead => False
  | PExact => x = lower p
  end.

(** The name a host header stands for. *)
Definition host_name (host : str) : str := lower (trim_end_char dot host).

Lemma eq_ignore_case_spec s t : eq_ignore_case s t = true ↔ lower s = lower t.
Proof. apply str_eqb_eq. Qed.

Lemma find_index_char c s :
  find_index (is_char c) s = match split_once c s with Some (h, _) => Some (length h) | None => None end.
Proof.
  induction s as [|a s IH]; simpl; [done|]. unfold is_char at 1.
  destruct (decide (a = c)) as [->|Hn]; [by rewrite bool_decide_eq_true_2|].
  rewrite bool_decide_eq_false_2 by done. rewrite IH.
  by destruct (split_once c s) as [[]|].
Qed.

Lemma split_once_lower c s :
  is_upper c = false → is_lower c = false →
  split_once c (lower s) =
  match split_once c s with Some (h, t) => Some (lower h, lower t) | None => None end.
Proof.
  intros Hu Hl. destruct (split_once c s) as [[h t]|] eqn:E.
  - apply split_once_Some in E as [-> Hni]. apply split_once_Some.
    rewrite lower_app. split; [|by rewrite elem_of_lower].
    f_equal. change (lower (c :: t)) with (lower1 c :: lower t). f_equal. by apply lower1_fixed.
  - apply split_once_None in E. apply split_once_None. by rewrite elem_of_lower.
Qed.

Lemma lower_drop k s : lower (drop k s) = drop k (lower s).
Proof. apply fmap_drop. Qed.

Lemma lower_take k s : lower (take k s) = take k (lower s).
Proof. apply fmap_take. Qed.

Lemma wild_match_spec host suf :
  (length suf + 1 <? length host)%nat
  && bool_decide (host !! (length host - length suf - 1)%nat = Some dot)
  && eq_ignore_case (drop (length host - length suf) host) suf = true
  ↔ ∃ pre, pre ≠ [] ∧ lower host = pre ++ dot :: lower suf.
Proof.
  rewrite !andb_true_iff, Nat.ltb_lt, bool_decide_eq_true, eq_ignore_case_spec, lower_drop. split.
  - intros [[Hlen Hd] Hs]. exists (take (length host - length suf - 1) (lower host)).
    split.
    + intros Hz. apply (f_equal length) in Hz. rewrite length_take, length_lower in Hz.
      simpl in Hz. lia.
    + rewrite <- Hs, <- (take_drop (length host - length suf - 1) (lower host)) at 1. f_equal.
      assert (Hk : lower host !! (length host - length suf - 1)%nat = Some dot).
      { unfold lower. by rewrite list_lookup_fmap, Hd. }
      rewrite (drop_S _ _ _ Hk). f_equal. f_equal. lia.
  - intros (pre & Hne & He).
    assert (Hlen : length host = (length pre + S (length suf))%nat).
    { rewrite <- (length_lower host), He, length_app. simpl. by rewrite length_lower. }
    assert (Hp : length pre ≠ 0%nat) by (by destruct pre).
    split_and!; [lia| |].
    + assert (Hk : lower host !! length pre = Some dot) by (rewrite He; by apply list_lookup_middle).
      unfold lower in Hk. rewrite list_lookup_fmap in Hk.
      replace (length host - length suf - 1)%nat with (length pre) by lia.
      destruct (host !! length pre) as [c|]; [|done]. simplify_eq/=.
      f_equal. by apply (lower1_fixed c dot).
    + replace (length host - length suf)%nat with (S (length pre)) by lia.
      rewrite He, drop_app_ge by lia.
      replace (S (length pre) - length pre)%nat with 1%nat by lia. done.
Qed.

Lemma label_split (h lt label : str) :
  (length h + length lt < length label)%nat →
  lower (take (length h) label) = lower h →
  lower (drop (length label - length lt) label) = lower lt →
  ∃ mid, mid ≠ [] ∧ (dot ∈ mid → dot ∈ label) ∧ lower label = lower h ++ mid ++ lower lt.
Proof.
  intros Hl Hh Ht. set (k := (length label - length lt - length h)%nat).
  exists (lower (take k (drop (length h) label))). split_and!.
  - intros Hz. apply (f_equal length) in Hz. rewrite length_lower, length_take, length_drop in Hz.
    simpl in Hz. lia.
  - rewrite elem_of_lower by done. intros Hin.
    rewrite <- (take_drop (length h) label). apply elem_of_app. right.
    rewrite <- (take_drop k (drop _ _)). apply elem_of_app. by left.
  - rewrite <- Hh, <- Ht, <- !lower_app. f_equal.
    rewrite <- (take_drop (length h) label) at 1. f_equal.
    rewrite <- (take_drop k (drop _ _)) at 1. f_equal. rewrite drop_drop. f_equal. lia.
Qed.

Lemma partial_match_spec host h lt rest :
  dot ∉ lt →
  (match find_index (is_char dot) host with
   | None => false
   | Some d =>
       let label := take d host in
       (length h + length lt <? length label)%nat
       && eq_ignore_case (take (length h) label) h
       && eq_ignore_case (drop (length label - length lt) label) lt
       && eq_ignore_case (drop 1 (drop d host)) rest
   end = true)
  ↔ ∃ mid, mid ≠ [] ∧ (dot ∉ h) ∧ (dot ∉ mid)
           ∧ lower host = lower h ++ mid ++ lower lt ++ dot :: lower rest.
Proof.
  intros Hlt. rewrite find_index_char. destruct (split_once dot host) as [[label r]|] eqn:E.
  - apply split_once_Some in E as [-> Hni]. cbv zeta. rewrite take_app_length, drop_app_length.
    change (drop 1 (dot :: r)) with r.
    rewrite !andb_true_iff, Nat.ltb_lt, !eq_ignore_case_spec. split.
    + intros [[[Hl Hh] Ht] Hr]. destruct (label_split h lt label Hl Hh Ht) as (mid & Hne & Hd & He).
      exists mid. split_and!; [done| |by auto|].
      * rewrite <- elem_of_lower, <- Hh, elem_of_lower by done. intros Hin. apply Hni.
        rewrite <- (take_drop (length h) label). apply elem_of_app. by left.
      * rewrite lower_app, He, <- !app_assoc. by rewrite <- Hr.
    + intros (mid & Hne & Hh & Hm & He).
      assert (Hs : split_once dot (lower (label ++ dot :: r)) = Some (lower h ++ mid ++ lower lt, lower rest)).
      { apply split_once_Some. rewrite He, <- !app_assoc. split; [done|].
        rewrite !not_elem_of_app, !elem_of_lower by done. done. }
      rewrite split_once_lower, (proj2 (split_once_Some dot _ label r)) in Hs by done.
      injection Hs as Hlab Hr.
      assert (Hlen : length label = (length h + length mid + length lt)%nat).
      { rewrite <- (length_lower label), Hlab, !length_app, !length_lower. lia. }
      assert (length mid ≠ 0%nat) by (by destruct mid).
      rewrite lower_take, lower_drop, Hlab. split_and!; [lia| | |done].
      * rewrite take_app_le, take_ge by (rewrite length_lower; lia). done.
      * rewrite app_assoc, drop_app_ge by (rewrite length_app, length_lower; lia).
        rewrite length_app, length_lower.
        replace (_ - _ - _)%nat with 0%nat by lia. done.
  - split; [done|]. intros (mid & _ & _ & _ & He). apply split_once_None in E.
    rewrite <- elem_of_lower, He in E by done.
    exfalso. apply E. rewrite !elem_of_app, elem_of_cons. tauto.
Qed.

Lemma matches_spec p host : pattern_matches_host p host = true ↔ names p (host_name host).
Proof.
  unfold pattern_matches_host, names, classify, host_name.
  destruct (str_eqb p (bs "*")); [done|].
  destruct (strip_prefix (bs "*.") p) as [suf|]; [apply wild_match_spec|].
  rewrite find_index_char. destruct (split_once star p) as [[h t]|] eqn:E.
  - apply split_once_Some in E as [-> Hni].
    rewrite take_app_length, drop_app_length. change (drop 1 (star :: t)) with t.
    destruct (split_once dot t) as [[lt rest]|] eqn:Et.
    + apply split_once_Some in Et as [-> Hlt]. by apply partial_match_spec.
    + cbv zeta. by destruct (find_index _ _).
  - apply eq_ignore_case_spec.
Qed.

(** ** Coverage and overlap *)

(** The four shapes a pattern can have, with what each function computes. *)
Inductive pview (p : str) : Prop :=
| VAny (Hp : p = bs "*")
| VWild s (Hp : p = bs "*." ++ s) (Ha : str_eqb p (bs "*") = false)
    (Hw : wildcard_suffix p = Some s) (Hi : is_partial p = false) (Hc : classify p = PWild s)
| VPart h t (Hp : p = h ++ star :: t) (Hh : star ∉ h) (Ha : str_eqb p (bs "*") = false)
    (Hw : wildcard_suffix p = None) (Hi : is_partial p = true)
    (Hc : classify p = match split_once dot t with
                       | Some (lt, rest) => PPartial h lt rest | None => PDead end)
| VExact (Hs : star ∉ p) (Ha : str_eqb p (bs "*") = false)
    (Hw : wildcard_suffix p = None) (Hi : is_partial p = false) (Hc : classify p = PExact).

Lemma pview_of p : pview p.
Proof.
  destruct (str_eqb p (bs "*")) eqn:E; [by apply VAny, str_eqb_eq|].
  destruct (strip_prefix (bs "*.") p) as [s|] eqn:Es.
  - apply (VWild p s); unfold is_partial, classify, wildcard_suffix;
      rewrite ?E, ?Es; try done. by apply strip_prefix_Some.
  - destruct (split_once star p) as [[h t]|] eqn:Eh.
    + pose proof (proj1 (split_once_Some _ _ _ _) Eh) as [Hp Hh].
      apply (VPart p h t); unfold is_partial, classify, wildcard_suffix;
        rewrite ?E, ?Es, ?Eh; try done.
      apply has_spec. rewrite Hp, elem_of_app, elem_of_cons. tauto.
    + pose proof (proj1 (split_once_None _ _) Eh) as Hs.
      apply VExact; unfold is_partial, classify, wildcard_suffix; rewrite ?E, ?Es, ?Eh; try done.
      by apply has_false.
Qed.

Definition no_end_dot (x : str) : Prop := ∀ r, x ≠ r ++ [dot].

Lemma host_name_no_end_dot host : no_end_dot (host_name host).
Proof.
  intros r Hr. unfold host_name in Hr.
  assert (He : ∃ q, trim_end_char dot host = q ++ [dot]).
  { destruct (trim_end_char dot host) as [|a s _] eqn:E using rev_ind; [by destruct r|].
    rewrite lower_app in Hr. apply app_inj_tail in Hr as [_ Ha].
    apply (lower1_fixed a dot) in Ha; [|done..]. subst. eauto. }
  destruct He as [q Hq]. unfold trim_end_char in Hq. apply trim_end_by_last in Hq.
  by apply is_char_false in Hq.
Qed.

Lemma host_name_exact p x : x = lower p → no_end_dot x → host_name p = x.
Proof.
  intros -> Hn. unfold host_name, trim_end_char. rewrite trim_end_by_id; [done|].
  intros q a ->. apply is_char_false. intros ->. apply (Hn (lower q)). by rewrite lower_app.
Qed.

Lemma strip_prefix_lower w p :
  Forall (fun c => is_upper c = false ∧ is_lower c = false) w →
  strip_prefix w (lower p) = lower <$> strip_prefix w p.
Proof.
  intros Hw. revert p. induction Hw as [|c w [Hu Hl] _ IH]; intros p; simpl; [done|].
  destruct p as [|a p]; [done|]. simpl.
  destruct (decide (c = a)) as [->|Hn].
  - rewrite decide_True; [apply IH|]. symmetry. by apply lower1_fixed.
  - rewrite decide_False; [done|]. intros He. symmetry in He. rewrite lower1_fixed in He by done.
    by subst.
Qed.

Lemma names_lower p x : names (lower p) x ↔ names p x.
Proof.
  unfold names, classify.
  assert (Hs : str_eqb (lower p) (bs "*") = str_eqb p (bs "*")).
  { apply eq_true_iff_eq. rewrite !str_eqb_eq. destruct p as [|a [|b p]]; [done| |done].
    change (lower [a] = bs "*" ↔ [a] = bs "*"). change (bs "*") with [star].
    assert (Hf : lower1 a = star ↔ a = star) by by apply lower1_fixed.
    split; [intros [= H]; f_equal; by apply Hf|intros [= ->]; done]. }
  rewrite Hs. destruct (str_eqb p (bs "*")); [done|].
  rewrite strip_prefix_lower by (repeat constructor).
  destruct (strip_prefix (bs "*.") p) as [s|]; simpl; [by rewrite lower_idem|].
  rewrite split_once_lower by done.
  destruct (split_once star p) as [[h t]|]; [|by rewrite lower_idem].
  rewrite split_once_lower by done.
  destruct (split_once dot t) as [[lt rest]|]; [|done].
  rewrite !lower_idem. assert (Hd : dot ∈ lower h ↔ dot ∈ h) by by apply elem_of_lower.
  by setoid_rewrite Hd.
Qed.

Lemma under_spec s r : under s r = true ↔ ∃ q, dot :: r = q ++ dot :: s.
Proof.
  unfold under. rewrite orb_true_iff, str_eqb_eq, ends_with_spec. split.
  - intros [->|[q ->]]; [by exists []|by exists (dot :: q)].
  - intros [[|c q] He]; simplify_eq/=; [by left|right; eauto].
Qed.

Lemma under_name s r pre x :
  under s r = true → pre ≠ [] → x = pre ++ dot :: lower r →
  ∃ pre', pre' ≠ [] ∧ x = pre' ++ dot :: lower s.
Proof.
  intros [q Hq]%under_spec Hne ->. exists (pre ++ lower q). split; [by destruct pre|].
  rewrite <- app_assoc. f_equal. change (dot :: lower r) with (lower (dot :: r)).
  rewrite Hq, lower_app. done.
Qed.

Lemma partial_names h t lt rest :
  split_once dot t = Some (lt, rest) → dot ∉ h →
  split_once dot (h ++ star :: t) = Some (h ++ star :: lt, rest).
Proof.
  intros [-> Hlt]%split_once_Some Hh. apply split_once_Some. split.
  - by rewrite <- app_assoc.
  - rewrite not_elem_of_app, not_elem_of_cons. by split_and!.
Qed.

Lemma covers_sound o i x :
  pattern_covers_pattern o i = true → no_end_dot x → names i x → names o x.
Proof.
  unfold pattern_covers_pattern. intros Hc Hx Hn.
  destruct (pview_of o) as [->|so Ho Ha1 Hw1 Hi1 Hc1|ho to Ho Hh1 Ha1 Hw1 Hi1 Hc1|Hs1 Ha1 Hw1 Hi1 Hc1];
    [done|..]; rewrite Ha1 in Hc;
    (destruct (pview_of i) as [->|si Hp Ha2 Hw2 Hi2 Hc2|hi ti Hp Hh2 Ha2 Hw2 Hi2 Hc2|Hs2 Ha2 Hw2 Hi2 Hc2];
      [done|..]); rewrite ?Ha2, ?Hi1, ?Hi2, ?Hw1, ?Hw2 in Hc; try done.
  - unfold names in *. rewrite Hc1, Hc2 in *. destruct Hn as (pre & Hne & ->).
    by eapply under_name.
  - unfold names in Hn. rewrite Hc2 in Hn.
    destruct (split_once dot ti) as [[lt rest]|] eqn:Et; [|done].
    destruct Hn as (mid & Hne & Hdh & Hdm & Hxe).
    rewrite Hp, (partial_names hi ti lt rest Et Hdh) in Hc.
    unfold names. rewrite Hc1. eapply (under_name _ _ (lower hi ++ mid ++ lower lt)); [done| |].
    + destruct mid; [done|]. by destruct (lower hi).
    + by rewrite Hxe, <- !app_assoc.
  - unfold names in Hn. rewrite Hc2 in Hn. unfold hostname_in_org_allowlist in Hc. simpl in Hc.
    rewrite orb_false_r, matches_spec, (host_name_exact i x) in Hc by done. done.
  - apply eq_ignore_case_spec in Hc. by rewrite <- names_lower, Hc, names_lower.
  - unfold names in Hn. rewrite Hc2 in Hn.
    rewrite matches_spec, (host_name_exact i x) in Hc by done. done.
  - apply eq_ignore_case_spec in Hc. by rewrite <- names_lower, Hc, names_lower.
Qed.

(** Two suffixes of one name, each behind a dot: one is under the other. *)
Lemma suffixes_under a b s t :
  a ++ dot :: s = b ++ dot :: t → under s t = true ∨ under t s = true.
Proof.
  intros H. rewrite !under_spec. apply app_eq_inv in H as [(k & Hb & Ht)|(k & Ha & Hs)]; eauto.
Qed.

(** The same when the first piece is a single label. *)
Lemma label_under label r pre s :
  dot ∉ label → label ++ dot :: r = pre ++ dot :: s → under s r = true.
Proof.
  intros Hl H. apply under_spec. apply app_eq_inv in H as [(k & Ha & Hs)|(k & Hb & Ht)]; [|by exists k].
  destruct k as [|c k]; simpl in Hs; [exists []; by rewrite <- Hs|]. injection Hs as <- _.
  exfalso. apply Hl. rewrite Ha, elem_of_app, elem_of_cons. tauto.
Qed.

Lemma covers_complete_exact p e x :
  star ∉ e → str_eqb e (bs "*") = false → wildcard_suffix e = None → is_partial e = false →
  x = lower e → no_end_dot x → names p x → pattern_covers_pattern p e = true.
Proof.
  intros Hs Ha Hw Hi He Hx Hn. unfold pattern_covers_pattern. rewrite Ha, Hw, Hi.
  destruct (pview_of p) as [->|so Ho Ha1 Hw1 Hi1 Hc1|ho to Ho Hh1 Ha1 Hw1 Hi1 Hc1|Hs1 Ha1 Hw1 Hi1 Hc1];
    [done|..]; rewrite Ha1, Hi1, ?Hw1.
  - unfold hostname_in_org_allowlist. simpl. rewrite orb_false_r.
    by rewrite matches_spec, (host_name_exact e x).
  - by rewrite matches_spec, (host_name_exact e x).
  - unfold names in Hn. rewrite Hc1 in Hn. apply eq_ignore_case_spec. congruence.
Qed.

Lemma covers_wild_partial a b s h t x :
  str_eqb a (bs "*") = false → wildcard_suffix a = Some s → is_partial a = false →
  lower s = s → lower b = b →
  b = h ++ star :: t → str_eqb b (bs "*") = false → is_partial b = true →
  classify b = match split_once dot t with
               | Some (lt, rest) => PPartial h lt rest | None => PDead end →
  classify a = PWild s →
  names a x → names b x → pattern_covers_pattern a b = true.
Proof.
  intros Ha Hw Hi Hls Hlb Hb Hab Hib Hcb Hca Hna Hnb.
  unfold names in *. rewrite Hca, Hcb in *.
  destruct (split_once dot t) as [[lt rest]|] eqn:Et; [|done].
  destruct Hna as (pre & _ & Hx1), Hnb as (mid & _ & Hdh & Hdm & Hx2).
  unfold pattern_covers_pattern. rewrite Ha, Hab, Hi, Hib, Hw, Hb.
  rewrite (partial_names h t lt rest Et Hdh).
  apply split_once_Some in Et as [-> Hlt].
  assert (Hlr : lower rest = rest).
  { rewrite Hb in Hlb. rewrite lower_app in Hlb. apply app_inj_1 in Hlb as [_ Hlb];
      [|by rewrite length_lower]. change (lower (star :: ?l)) with (star :: lower l) in Hlb.
    injection Hlb as Hlb. rewrite lower_app in Hlb.
    apply app_inj_1 in Hlb as [_ Hlb]; [|by rewrite length_lower]. by injection Hlb. }
  apply (label_under (lower h ++ mid ++ lower lt) rest pre s).
  - rewrite !not_elem_of_app, !elem_of_lower by done. by split_and!.
  - rewrite <- Hlr, <- Hls, <- Hx1, Hx2, <- !app_assoc. done.
Qed.

Lemma lower_suffix h s : lower (h ++ s) = h ++ s → lower s = s.
Proof.
  rewrite lower_app. intros H. by apply app_inj_1 in H as [_ H]; [|by rewrite length_lower].
Qed.

Lemma overlap_complete a b x :
  lower a = a → lower b = b → no_end_dot x → names a x → names b x →
  patterns_overlap a b = true.
Proof.
  intros Hla Hlb Hx Hna Hnb.
  assert (Hor : pattern_covers_pattern a b = true ∨ pattern_covers_pattern b a = true →
                patterns_overlap a b = true)
    by (unfold patterns_overlap; intros [->| ->]; [done|by rewrite orb_true_r]).
  destruct (pview_of a) as [->|sa Hpa Haa Hwa Hia Hca|ha ta Hpa Hha Haa Hwa Hia Hca|Hsa Haa Hwa Hia Hca];
    [by apply Hor; left| | |by apply Hor; right; eapply (covers_complete_exact _ _ x); first
       [done|unfold names in Hna; rewrite Hca in Hna; done]];
  (destruct (pview_of b) as [->|sb Hpb Hab Hwb Hib Hcb|hb tb Hpb Hhb Hab Hwb Hib Hcb|Hsb Hab Hwb Hib Hcb];
    [by apply Hor; right| | |by apply Hor; left; eapply (covers_complete_exact _ _ x); first
       [done|unfold names in Hnb; rewrite Hcb in Hnb; done]]).
  - apply Hor. unfold names in Hna, Hnb. rewrite Hca in Hna. rewrite Hcb in Hnb.
    destruct Hna as (p1 & _ & H1), Hnb as (p2 & _ & H2).
    assert (lower sa = sa) as Hsa by (apply (lower_suffix (bs "*.")); by rewrite <- Hpa).
    assert (lower sb = sb) as Hsb by (apply (lower_suffix (bs "*.")); by rewrite <- Hpb).
    rewrite Hsa in H1. rewrite Hsb in H2. rewrite H1 in H2.
    unfold pattern_covers_pattern. rewrite Haa, Hab, Hia, Hib, Hwa, Hwb.
    by apply suffixes_under in H2.
  - apply Hor. left. eapply covers_wild_partial; try done.
    apply (lower_suffix (bs "*.")). by rewrite <- Hpa.
  - apply Hor. right. eapply covers_wild_partial; try done.
    apply (lower_suffix (bs "*.")). by rewrite <- Hpb.
  - unfold patterns_overlap. destruct (_ || _); [done|]. rewrite Hia, Hib. simpl.
    unfold names in Hna, Hnb. rewrite Hca in Hna. rewrite Hcb in Hnb.
    destruct (split_once dot ta) as [[lta ra]|] eqn:Ea; [|done].
    destruct (split_once dot tb) as [[ltb rb]|] eqn:Eb; [|done].
    destruct Hna as (m1 & _ & Hd1 & Hm1 & H1), Hnb as (m2 & _ & Hd2 & Hm2 & H2).
    rewrite Hpa, Hpb, (partial_names _ _ _ _ Ea Hd1), (partial_names _ _ _ _ Eb Hd2).
    apply split_once_Some in Ea as [-> Ha], Eb as [-> Hb]. apply bool_decide_eq_true. simpl. f_equal.
    assert (Hr : lower ra = lower rb).
    { assert (E1 : split_once dot x = Some (lower ha ++ m1 ++ lower lta, lower ra)).
      { apply split_once_Some. rewrite H1, <- !app_assoc. split; [done|].
        rewrite !not_elem_of_app, !elem_of_lower by done. done. }
      assert (E2 : split_once dot x = Some (lower hb ++ m2 ++ lower ltb, lower rb)).
      { apply split_once_Some. rewrite H2, <- !app_assoc. split; [done|].
        rewrite !not_elem_of_app, !elem_of_lower by done. done. }
      congruence. }
    rewrite <- (lower_suffix (ha ++ star :: lta ++ [dot]) ra), Hr,
      (lower_suffix (hb ++ star :: ltb ++ [dot]) rb); [done| |].
    + rewrite Hpb in Hlb. by rewrite <- app_assoc; simpl; rewrite <- app_assoc.
    + rewrite Hpa in Hla. by rewrite <- app_assoc; simpl; rewrite <- app_assoc.
Qed.

Lemma normalize_pattern_lower raw p : normalize_org_hostname_pattern raw = Some p → lower p = p.
Proof.
  unfold normalize_org_hostname_pattern. set (t := lower _).
  assert (Ht : lower t = t) by apply lower_idem. clearbody t.
  destruct (str_eqb t []); [done|]. destruct (str_eqb t (bs "*")); [intros [= <-]; done|].
  destruct (strip_prefix (bs "*.") t) as [r|] eqn:Er.
  - destruct (normalize_hostname_bind r) as [n|] eqn:En; [|done].
    destruct (has dot n); [|done]. intros [= <-]. change (bs "*." ++ lower n = bs "*." ++ n).
    by rewrite (wfh_lower _ (normalize_hostname_bind_wf _ _ En)).
  - destruct (has star t).
    + destruct (negb _); [done|]. destruct (split_once dot t) as [[h tl]|]; [|done].
      destruct (_ || _); [done|]. destruct (normalize_hostname_bind _); [|done]. by intros [= <-].
    + intros H%normalize_hostname_bind_wf. by apply wfh_lower.
Qed.

Lemma wf_host_no_star r : wf_host r → star ∉ r.
Proof.
  intros H. pose proof (labels_chars r (wfh_labels r H)) as Hl. rewrite Forall_forall in Hl.
  intros Hin. by destruct (Hl _ Hin) as [Hc|Hc].
Qed.

Lemma no_star_view e :
  star ∉ e → str_eqb e (bs "*") = false ∧ wildcard_suffix e = None ∧ is_partial e = false.
Proof.
  intros Hs. destruct (pview_of e) as [->|s Hp|h t Hp|]; [| |subst|done].
  - exfalso. apply Hs. left.
  - exfalso. apply Hs. rewrite Hp. left.
  - exfalso. apply Hs. rewrite elem_of_app, elem_of_cons. tauto.
Qed.

(** A normalized hostname a pattern matches is one the pattern covers. *)
Lemma covers_served p h :
  wf_host h → pattern_matches_host p h = true → pattern_covers_pattern p h = true.
Proof.
  intros Hw Hm. destruct (no_star_view h (wf_host_no_star h Hw)) as (? & ? & ?).
  apply (covers_complete_exact p h (host_name h)); try done.
  - by apply wf_host_no_star.
  - unfold host_name, trim_end_char. rewrite trim_end_by_id; [done|].
    intros q a Hq. apply is_char_false. intros ->. by apply (wf_host_last h q).
  - apply host_name_no_end_dot.
  - by apply matches_spec.
Qed.

(** ** Properties *)

(** Coverage grants soundly: when one pattern covers another, every host
    the inner one matches is matched by the outer one, whatever the patterns
    and however the host is written. *)
Theorem pattern_coverage_sound outer inner host :
  pattern_covers_pattern outer inner = true →
  pattern_matches_host inner host = true →
  pattern_matches_host outer host = true.
Proof.
  rewrite !matches_spec. intros Hc Hi. eapply covers_sound; [done| |done].
  apply host_name_no_end_dot.
Qed.

Lemma pattern_coverage_sound_witness :
  pattern_matches_host (bs "*.acme.com") (bs "dev-pi.EU.acme.com.") = true.
Proof.
  apply (pattern_coverage_sound _ (bs "*-pi.eu.acme.com")); vm_compute; reflexivity.
Defined.

(** Overlap refuses completely: when two normalized patterns match a common
    host, [patterns_overlap] says so, so a name inside somebody else's pattern
    is never reported free. *)
Theorem pattern_overlap_complete raw_a raw_b a b host :
  normalize_org_hostname_pattern raw_a = Some a →
  normalize_org_hostname_pattern raw_b = Some b →
  pattern_matches_host a host = true →
  pattern_matches_host b host = true →
  patterns_overlap a b = true.
Proof.
  intros Ha%normalize_pattern_lower Hb%normalize_pattern_lower. rewrite !matches_spec.
  intros Hna Hnb. eapply overlap_complete; [done..| |done|done]. apply host_name_no_end_dot.
Qed.

Lemma pattern_overlap_complete_witness :
  patterns_overlap (bs "*-pi.acme.com") (bs "dev-*.acme.com") = true.
Proof.
  apply (pattern_overlap_complete (bs "*-PI.acme.com") (bs "dev-*.acme.com.") _ _
           (bs "dev-0-pi.acme.com")); vm_compute; reflexivity.
Defined.

(** C7: The tenant fence. An organization that may act on a target acts on no
    host a client of another organization serves; a fenced organization only on
    hosts its own allowlist covers; and master only on hosts outside every
    tenant's allowlist. *)
Theorem org_action_isolated store clients org raw target host :
  normalize_org_hostname_pattern raw = Some target →
  Forall (fun o => Forall (fun e => ∃ r, normalize_org_hostname_pattern r = Some e) o.2) store →
  Forall (fun c => Forall wf_host (sc_hostnames c)) clients →
  org_may_act_on_hostname store clients org target = true →
  pattern_matches_host target host = true →
  (∀ c, c ∈ clients → sc_org c ≠ org → host ∉ sc_hostnames c)
  ∧ match org with
    | Some id => ∀ l, find (fun o => str_eqb o.1 id) store = Some (id, l) →
                      hostname_in_org_allowlist host l = true
    | None => ∀ o, o ∈ store → o.2 ≠ [] → hostname_in_org_allowlist host o.2 = false
    end.
Proof.
  intros Ht Hst Hcl Hact Hm. unfold org_may_act_on_hostname in Hact.
  destruct (org_may_claim_hostname store clients org target) eqn:Hclaim; [|done]. simpl in Hact.
  apply negb_true_iff, existsb_false in Hact. rewrite !Forall_forall in *. split.
  - intros c Hc Hne Hin. specialize (Hact c Hc). simpl in Hact.
    rewrite bool_decide_eq_true_2 in Hact by done. apply existsb_false in Hact.
    rewrite Forall_forall in Hact. specialize (Hact host Hin).
    rewrite covers_served in Hact; [done| |done].
    specialize (Hcl c Hc). rewrite Forall_forall in Hcl. auto.
  - unfold org_may_claim_hostname in Hclaim. destruct org as [id|].
    + intros l Hl. rewrite Hl in Hclaim. destruct l as [|e l]; [done|].
      apply existsb_Exists in Hclaim as (p & Hp & Hcov). apply existsb_Exists.
      exists p. split; [done|]. rewrite matches_spec in *. eapply covers_sound; [done| |done].
      apply host_name_no_end_dot.
    + intros [id l] Ho Hne. destruct (existsb _ (concat _)) eqn:Hov; [done|].
      apply existsb_false in Hov. rewrite Forall_forall in Hov. simpl in *.
      unfold hostname_in_org_allowlist. destruct l as [|e0 l0]; [done|]. apply existsb_false, Forall_forall.
      intros e He. apply not_true_iff_false. intros Hem.
      destruct (proj1 (Forall_forall _ _) (Hst _ Ho) e He) as [r Hr].
      rewrite matches_spec in Hem, Hm.
      specialize (Hov e). rewrite (overlap_complete e target (host_name host)) in Hov.
      * discriminate Hov. apply list_elem_of_In, in_concat.
        exists (e0 :: l0). rewrite <- !list_elem_of_In. split; [|done].
        apply list_elem_of_fmap. by exists (id, e0 :: l0).
      * by eapply normalize_pattern_lower.
      * by eapply normalize_pattern_lower.
      * apply host_name_no_end_dot.
      * done.
      * done.
Qed.

Lemma org_action_isolated_witness :
  hostname_in_org_allowlist (bs "shop.acme.com") [bs "*.acme.com"] = true.
Proof.
  pose (store := [(bs "acme", [bs "*.acme.com"]); (bs "rival", [bs "rival.io"])] : fences).
  pose (clients := [{| sc_org := None; sc_hostnames := [bs "other.net"] |}]).
  refine (proj2 (org_action_isolated store clients (Some (bs "acme")) (bs "*.ACME.com")
            (bs "*.acme.com") (bs "shop.acme.com") _ _ _ _ _) [bs "*.acme.com"] _).
  - vm_compute. reflexivity.
  - repeat constructor; [exists (bs "*.acme.com")|exists (bs "rival.io")]; vm_compute; reflexivity.
  - repeat constructor; try (vm_compute; congruence).
  - vm_compute. reflexivity.
  - vm_compute. reflexivity.
  - vm_compute. reflexivity.
Defined.

(** A partial pattern keeps a port it was written with, and then matches no
    name a request is routed under. *)
Example partial_pattern_keeps_port :
  normalize_org_hostname_pattern (bs "*-pi.acme.com:8080") = Some (bs "*-pi.acme.com:8080")
  ∧ pattern_matches_host (bs "*-pi.acme.com:8080") (bs "x-pi.acme.com") = false.
Proof. split; vm_compute; reflexivity. Qed.
