(* ===== verification/VisitorAuth.v ===== *)
(** The visitor gate: how it is written and validated
    ([aperio-config/src/auth.rs]) and what it is compiled to and answers
    ([aperio-server/src/visitor_auth.rs], [auth/ip.rs]).

    Validation's error texts are the constructors of [auth_error], each with the
    entry it is about; SHA-256 is a parameter. The contract: a policy that
    passed validation is compiled without losing a method, so it gates unless
    it is the one open method, and it is opened by exactly the credentials
    written in it. *)

From S2P Require Import Prelude Binds.

(** ** The written policy *)

Inductive Credentials : Type :=
| CredOne (one : str)
| CredMany (many : list str).

Definition as_slice (c : Credentials) : list str :=
  match c with CredOne one => [one] | CredMany many => many end.

Record AuthMethodSpec : Type := {
  sp_method : str;
  sp_users : option Credentials;
  sp_secret : option Credentials;
  sp_query : option bool;
  sp_jwks_url : option str;
  sp_hmac_secret : option str;
  sp_issuer : option str;
  sp_client_id : option str;
  sp_client_secret : option str;
  sp_allowed_emails : option Credentials;
  sp_scopes : option str;
  sp_audience : option Credentials;
  sp_claims : option (list (str * str));
  sp_cookie : option str;
  sp_url : option str;
  sp_request_headers : option (list str);
  sp_response_headers : option (list str);
  sp_timeout : option Z;
  sp_cache : option Z;
  sp_via : option str;
}.

Inductive AuthSetting : Type :=
| SetCredentials (creds : str)
| SetOne (spec : AuthMethodSpec)
| SetAny (specs : list AuthMethodSpec).

(** [AuthMethodSpec { method: "basic", users: Some(One(creds)), ..Default }] *)
Definition basic_spec (creds : str) : AuthMethodSpec :=
  {| sp_method := bs "basic"; sp_users := Some (CredOne creds); sp_secret := None; sp_query := None;
     sp_jwks_url := None; sp_hmac_secret := None; sp_issuer := None; sp_client_id := None;
     sp_client_secret := None; sp_allowed_emails := None; sp_scopes := None; sp_audience := None;
     sp_claims := None; sp_cookie := None; sp_url := None; sp_request_headers := None;
     sp_response_headers := None; sp_timeout := None; sp_cache := None; sp_via := None |}.

Definition methods (s : AuthSetting) : list AuthMethodSpec :=
  match s with
  | SetCredentials creds => [basic_spec creds]
  | SetOne spec => [spec]
  | SetAny specs => specs
  end.

Definition single_credential (spec : AuthMethodSpec) : option str :=
  if negb (eq_ignore_case (trim (sp_method spec)) (bs "basic")) then None
  else match sp_users spec with
       | Some u => match as_slice u with [only] => Some only | _ => None end
       | None => None
       end.

Definition as_single_credential (s : AuthSetting) : option str :=
  match s with
  | SetCredentials creds => Some creds
  | SetOne spec => single_credential spec
  | SetAny specs => match specs with [only] => single_credential only | _ => None end
  end.

Definition forward_via_client (spec : AuthMethodSpec) : bool :=
  eq_ignore_case (trim (sp_method spec)) (bs "forward")
  && match sp_via spec with Some v => eq_ignore_case (trim v) (bs "client") | None => false end.

(** ** Validation *)

Definition AUTH_METHODS : list str :=
  [bs "none"; bs "basic"; bs "bearer"; bs "jwt"; bs "forward"; bs "aperio"; bs "sso"].
Definition FORWARD_VIA : list str := [bs "server"; bs "client"].
Definition MIN_BEARER_SECRET_LEN : Z := 16.

Inductive auth_error : Type :=
| EmptyList
| NoneBesideAnother
| UnknownMethod (i : nat)
| ViaNotForward (i : nat)
| ViaUnknown (i : nat)
| TakesNoCredentials (i : nat)
| BearerUsers (i : nat)
| BearerNoSecret (i : nat)
| SecretEmpty (i : nat)
| SecretBlank (i : nat)
| SecretShort (i : nat)
| ForwardCredentials (i : nat)
| ForwardNoUrl (i : nat)
| NotAUrl (i : nat)
| HeaderBlank (i : nat)
| HeaderPattern (i : nat)
| JwtCredentials (i : nat)
| JwtNoKey (i : nat)
| JwtTwoKeys (i : nat)
| IssuerBlank (i : nat)
| ClaimBlank (i : nat)
| SsoCredentials (i : nat)
| SsoNoIssuer (i : nat)
| SsoNoClient (i : nat)
| SsoNoEmails (i : nat)
| BasicSecret (i : nat)
| BasicNoUsers (i : nat)
| UsersEmpty (i : nat)
| BadCredential (i : nat)
| SsoFromClient (i : nat)
| ForwardNotViaClient (i : nat).

Definition credential_is_usable (raw : str) : bool :=
  match split_once colon raw with
  | Some (user, password) => negb (str_eqb user []) && negb (str_eqb password [])
  | None => false
  end.

Definition is_some {A} (o : option A) : bool := match o with Some _ => true | None => false end.
Definition is_url (u : str) : bool := starts_with (bs "https://") u || starts_with (bs "http://") u.
Definition blank (s : str) : bool := str_eqb (trim s) [].

(** [return Err(..)] when the test holds. *)
Definition refuse_if (b : bool) (e : auth_error) : result unit auth_error :=
  if b then Err e else Ok tt.
Definition and_then (a b : result unit auth_error) : result unit auth_error :=
  result_bind a (fun _ => b).
Local Infix ">>>" := and_then (at level 60, right associativity).

(** A loop whose body may return. *)
Fixpoint each {A} (f : A → result unit auth_error) (l : list A) : result unit auth_error :=
  match l with [] => Ok tt | a :: l' => f a >>> each f l' end.

Definition any_credential (spec : AuthMethodSpec) : bool :=
  is_some (sp_users spec) || is_some (sp_secret spec) || is_some (sp_jwks_url spec)
  || is_some (sp_hmac_secret spec) || is_some (sp_url spec).

Definition check_bearer (i : nat) (spec : AuthMethodSpec) : result unit auth_error :=
  refuse_if (is_some (sp_users spec)) (BearerUsers i) >>>
  match sp_secret spec with
  | None => Err (BearerNoSecret i)
  | Some secrets =>
      refuse_if (bool_decide (as_slice secrets = [])) (SecretEmpty i) >>>
      each (fun s => refuse_if (blank s) (SecretBlank i) >>>
                     refuse_if (len s <? MIN_BEARER_SECRET_LEN) (SecretShort i)) (as_slice secrets)
  end.

Definition check_forward (i : nat) (spec : AuthMethodSpec) : result unit auth_error :=
  refuse_if (is_some (sp_users spec) || is_some (sp_secret spec)) (ForwardCredentials i) >>>
  match sp_url spec with
  | None => Err (ForwardNoUrl i)
  | Some u =>
      refuse_if (negb (is_url u)) (NotAUrl i) >>>
      each (fun l => each (fun name => refuse_if (blank name) (HeaderBlank i) >>>
                                       refuse_if (has star name) (HeaderPattern i)) (default [] l))
        [sp_request_headers spec; sp_response_headers spec]
  end.

Definition check_jwt (i : nat) (spec : AuthMethodSpec) : result unit auth_error :=
  refuse_if (is_some (sp_users spec) || is_some (sp_secret spec)) (JwtCredentials i) >>>
  match sp_jwks_url spec, sp_hmac_secret spec with
  | None, None => Err (JwtNoKey i)
  | Some _, Some _ => Err (JwtTwoKeys i)
  | Some u, None => refuse_if (negb (is_url u)) (NotAUrl i)
  | None, Some s => refuse_if (len s <? MIN_BEARER_SECRET_LEN) (SecretShort i)
  end >>>
  refuse_if (match sp_issuer spec with Some iss => blank iss | None => false end) (IssuerBlank i) >>>
  each (fun kv => refuse_if (blank kv.1) (ClaimBlank i)) (default [] (sp_claims spec)).

Definition check_sso (i : nat) (spec : AuthMethodSpec) : result unit auth_error :=
  refuse_if (any_credential spec) (SsoCredentials i) >>>
  refuse_if (negb (is_url (default [] (trim <$> sp_issuer spec)))) (SsoNoIssuer i) >>>
  each (fun v => refuse_if (match v with Some s => blank s | None => true end) (SsoNoClient i))
    [sp_client_id spec; sp_client_secret spec] >>>
  refuse_if (match sp_allowed_emails spec with
             | Some e => forallb blank (as_slice e) | None => true end) (SsoNoEmails i).

Definition check_basic (i : nat) (spec : AuthMethodSpec) : result unit auth_error :=
  refuse_if (is_some (sp_secret spec)) (BasicSecret i) >>>
  match sp_users spec with
  | None => Err (BasicNoUsers i)
  | Some us =>
      refuse_if (bool_decide (as_slice us = [])) (UsersEmpty i) >>>
      each (fun c => refuse_if (negb (credential_is_usable c)) (BadCredential i)) (as_slice us)
  end.

(** The body of the loop over the entries; [i] counts from one. The name is one
    of [AUTH_METHODS] when the last match is reached. *)
Definition check_entry (i : nat) (spec : AuthMethodSpec) : result unit auth_error :=
  let name := lower (trim (sp_method spec)) in
  refuse_if (negb (bool_decide (name ∈ AUTH_METHODS))) (UnknownMethod i) >>>
  match sp_via spec with
  | Some v =>
      refuse_if (negb (str_eqb name (bs "forward"))) (ViaNotForward i) >>>
      refuse_if (negb (bool_decide (lower (trim v) ∈ FORWARD_VIA))) (ViaUnknown i)
  | None => Ok tt
  end >>>
  (if str_eqb name (bs "none") || str_eqb name (bs "aperio")
   then refuse_if (any_credential spec) (TakesNoCredentials i)
   else if str_eqb name (bs "bearer") then check_bearer i spec
   else if str_eqb name (bs "forward") then check_forward i spec
   else if str_eqb name (bs "jwt") then check_jwt i spec
   else if str_eqb name (bs "sso") then check_sso i spec
   else check_basic i spec).

Definition validate_auth_setting (s : AuthSetting) : result unit auth_error :=
  let ms := methods s in
  refuse_if (bool_decide (length ms = 0%nat)) EmptyList >>>
  refuse_if ((1 <? length ms)%nat
             && existsb (fun m => eq_ignore_case (trim (sp_method m)) (bs "none")) ms)
    NoneBesideAnother >>>
  each (fun im => check_entry im.1 im.2) (imap (fun i m => (S i, m)) ms).

Definition check_client_entry (i : nat) (spec : AuthMethodSpec) : result unit auth_error :=
  refuse_if (eq_ignore_case (trim (sp_method spec)) (bs "sso")) (SsoFromClient i) >>>
  refuse_if (eq_ignore_case (trim (sp_method spec)) (bs "forward") && negb (forward_via_client spec))
    (ForwardNotViaClient i).

Definition validate_client_declared_auth (s : AuthSetting) : result unit auth_error :=
  validate_auth_setting s >>>
  each (fun im => check_client_entry im.1 im.2) (imap (fun i m => (S i, m)) (methods s)).

(** ** The compiled policy *)

Record SsoConfig : Type := {
  sso_issuer : str;
  sso_client_id : str;
  sso_client_secret : str;
  sso_allowed_emails : list str;
  sso_scopes : str;
}.

(** Durations in seconds. *)
Record ForwardConfig : Type := {
  fw_url : str;
  fw_request_headers : list str;
  fw_response_headers : list str;
  fw_timeout : Z;
  fw_cache : Z;
  fw_via_client : bool;
}.

Record JwtConfig : Type := {
  jwt_jwks_url : option str;
  jwt_hmac_secret : option str;
  jwt_issuer : option str;
  jwt_audience : list str;
  jwt_claims : list (str * str);
  jwt_cookie : option str;
  jwt_declared_by_client : bool;
}.

Inductive Method : Type :=
| MOpen
| MBasic (users : list str)
| MBearer (secrets : list str) (query : bool)
| MJwt (cfg : JwtConfig)
| MForward (cfg : ForwardConfig)
| MAperio
| MSso (cfg : SsoConfig).

#[export] Instance SsoConfig_eq_dec : EqDecision SsoConfig.
Proof. solve_decision. Defined.
#[export] Instance ForwardConfig_eq_dec : EqDecision ForwardConfig.
Proof. solve_decision. Defined.
#[export] Instance JwtConfig_eq_dec : EqDecision JwtConfig.
Proof. solve_decision. Defined.
#[export] Instance Method_eq_dec : EqDecision Method.
Proof. solve_decision. Defined.

(** A policy is its methods in the order they were written. *)
Abbreviation Policy := (list Method).

Definition slice_or_empty (c : option Credentials) : list str :=
  match c with Some l => as_slice l | None => [] end.

(** [email_allowed] of [oidc.rs]. *)
Definition email_allowed (email : str) (patterns : list str) : bool :=
  let email := lower (trim email) in
  if str_eqb email [] then false
  else existsb (fun p =>
         if str_eqb p (bs "*") then true
         else match strip_prefix (bs "*@") p with
              | Some domain => match rsplit_once "@"%char email with
                               | Some (_, d) => str_eqb d domain
                               | None => false
                               end
              | None => str_eqb p email
              end) patterns.

Definition admits_email (cfg : SsoConfig) (email : str) : bool :=
  email_allowed email (sso_allowed_emails cfg).

Definition sso_key (cfg : SsoConfig) : str :=
  trim_end_char slash (sso_issuer cfg) ++ bs "|" ++ sso_client_id cfg.

Definition compile_method (declared_by_client : bool) (spec : AuthMethodSpec) : option Method :=
  let name := lower (trim (sp_method spec)) in
  if str_eqb name (bs "none") then Some MOpen
  else if str_eqb name (bs "aperio") then Some MAperio
  else if str_eqb name (bs "sso") && negb declared_by_client then
    Some (MSso {| sso_issuer := trim (default [] (sp_issuer spec));
                  sso_client_id := default [] (sp_client_id spec);
                  sso_client_secret := default [] (sp_client_secret spec);
                  sso_allowed_emails := slice_or_empty (sp_allowed_emails spec);
                  sso_scopes := match sp_scopes spec with
                                | Some s => if blank s then bs "openid email" else s
                                | None => bs "openid email"
                                end |})
  else if str_eqb name (bs "basic") then Some (MBasic (slice_or_empty (sp_users spec)))
  else if str_eqb name (bs "forward") then
    let via_client := declared_by_client || forward_via_client spec in
    Some (MForward {| fw_url := default [] (sp_url spec);
                      fw_request_headers := default [] (sp_request_headers spec);
                      fw_response_headers := default [] (sp_response_headers spec);
                      fw_timeout := Z.max (default 5 (sp_timeout spec)) 1;
                      fw_cache := default (if via_client then 30 else 0) (sp_cache spec);
                      fw_via_client := via_client |})
  else if str_eqb name (bs "jwt") then
    Some (MJwt {| jwt_jwks_url := sp_jwks_url spec; jwt_hmac_secret := sp_hmac_secret spec;
                  jwt_issuer := sp_issuer spec; jwt_audience := slice_or_empty (sp_audience spec);
                  jwt_claims := default [] (sp_claims spec); jwt_cookie := sp_cookie spec;
                  jwt_declared_by_client := declared_by_client |})
  else if str_eqb name (bs "bearer") then
    Some (MBearer (slice_or_empty (sp_secret spec)) (default false (sp_query spec)))
  else None.

Definition compile_from (setting : AuthSetting) (declared_by_client : bool) : Policy :=
  omap (compile_method declared_by_client) (methods setting).
Definition compile (setting : AuthSetting) : Policy := compile_from setting false.

Definition admits_everyone (p : Policy) : bool :=
  match p with [] => true | _ => existsb (fun m => bool_decide (m = MOpen)) p end.
Definition gates (p : Policy) : bool := negb (admits_everyone p).

Definition method_name (m : Method) : str :=
  match m with
  | MOpen => bs "none" | MBasic _ => bs "basic" | MBearer _ _ => bs "bearer"
  | MJwt _ => bs "jwt" | MForward _ => bs "forward" | MAperio => bs "aperio" | MSso _ => bs "sso"
  end.
Definition method_names (p : Policy) : list str := method_name <$> p.

Definition sso_methods (p : Policy) : list SsoConfig :=
  omap (fun m => match m with MSso cfg => Some cfg | _ => None end) p.
Definition has_sso (p : Policy) : bool := is_some (head (sso_methods p)).
Definition sso_only (p : Policy) : bool :=
  match p with [] => false | _ => forallb (fun m => match m with MSso _ => true | _ => false end) p end.
Definition has_aperio (p : Policy) : bool :=
  existsb (fun m => match m with MAperio => true | _ => false end) p.
Definition aperio_only (p : Policy) : bool :=
  match p with [] => false | _ => forallb (fun m => match m with MAperio => true | _ => false end) p end.
Definition accepts_query_token (p : Policy) : bool :=
  existsb (fun m => match m with MBearer _ q => q | _ => false end) p.
Definition has_direct_method (p : Policy) : bool :=
  existsb (fun m => match m with MBearer _ _ | MJwt _ => true | _ => false end) p.
Definition forward_methods (p : Policy) : list ForwardConfig :=
  omap (fun m => match m with MForward cfg => Some cfg | _ => None end) p.
Definition jwt_methods (p : Policy) : list JwtConfig :=
  omap (fun m => match m with MJwt cfg => Some cfg | _ => None end) p.
Definition challenge (p : Policy) : option str :=
  head (omap (fun m => match m with MBearer _ _ | MJwt _ => Some (bs "Bearer") | _ => None end) p).

Section Hashed.
(** SHA-256; the comparison is of the two digests. *)
Context (sha256 : str → str).

Definition constant_time_eq_str (a b : str) : bool := str_eqb (sha256 a) (sha256 b).

(** [ok |= ..] over every candidate, without an early exit. *)
Definition any_eq (presented : str) (candidates : list str) (ok : bool) : bool :=
  fold_left (fun ok c => ok || constant_time_eq_str presented c) candidates ok.

Definition admits_credential (p : Policy) (presented : str) : bool :=
  fold_left (fun ok m => match m with MBasic us => any_eq presented us ok | _ => ok end) p false.

Definition admits_bearer (p : Policy) (presented : str) (from_query : bool) : bool :=
  fold_left (fun ok m =>
    match m with
    | MBearer secrets query =>
        if from_query && negb query then ok else any_eq presented secrets ok
    | _ => ok
    end) p false.
End Hashed.

(** ** Lemmas *)

Lemma and_then_ok a b : a >>> b = Ok tt ↔ a = Ok tt ∧ b = Ok tt.
Proof. destruct a as [[]|]; simpl; naive_solver. Qed.

Lemma refuse_if_ok b e : refuse_if b e = Ok tt ↔ b = false.
Proof. destruct b; simpl; naive_solver. Qed.

Lemma each_ok {A} (f : A → result unit auth_error) l : each f l = Ok tt ↔ Forall (fun a => f a = Ok tt) l.
Proof.
  induction l as [|a l IH]; simpl; [by split|]. by rewrite and_then_ok, IH, Forall_cons.
Qed.

Definition spec_name (spec : AuthMethodSpec) : str := lower (trim (sp_method spec)).

Lemma each_entries (f : nat → AuthMethodSpec → result unit auth_error) l spec :
  each (fun im => f im.1 im.2) (imap (fun i m => (S i, m)) l) = Ok tt → spec ∈ l →
  ∃ i, f i spec = Ok tt.
Proof.
  rewrite each_ok, Forall_forall. intros H Hin. apply list_elem_of_lookup in Hin as [i Hi].
  exists (S i). apply (H (S i, spec)). apply (list_elem_of_lookup_2 _ i).
  rewrite list_lookup_imap, Hi. done.
Qed.

Lemma is_none_case s : eq_ignore_case s (bs "none") = str_eqb (lower s) (bs "none").
Proof. reflexivity. Qed.

Lemma validate_spec s :
  validate_auth_setting s = Ok tt →
  methods s ≠ []
  ∧ (∀ spec, spec ∈ methods s → spec_name spec = bs "none" → methods s = [spec])
  ∧ (∀ spec, spec ∈ methods s → ∃ i, check_entry i spec = Ok tt).
Proof.
  unfold validate_auth_setting. cbv zeta. rewrite !and_then_ok, !refuse_if_ok.
  intros (Hne & Hnone & Heach). split_and!.
  - intros He. by rewrite He in Hne.
  - intros spec Hin Hn. destruct (methods s) as [|m1 [|m2 l]]; [by apply not_elem_of_nil in Hin| |].
    + apply list_elem_of_singleton in Hin. by subst.
    + simpl length in Hnone. replace (1 <? S (S (length l)))%nat with true in Hnone by done.
      rewrite andb_true_l in Hnone. apply existsb_false in Hnone. rewrite Forall_forall in Hnone.
      specialize (Hnone spec Hin). rewrite is_none_case in Hnone.
      unfold spec_name in Hn. by rewrite Hn in Hnone.
  - intros spec Hin. by eapply each_entries.
Qed.

Lemma check_entry_name i spec : check_entry i spec = Ok tt → spec_name spec ∈ AUTH_METHODS.
Proof.
  unfold check_entry. cbv zeta. rewrite and_then_ok, refuse_if_ok. intros [H _]. by to_prop.
Qed.

(** Case analysis on a method name that is one of the known ones. *)
Ltac name_cases H :=
  unfold AUTH_METHODS in H; rewrite !elem_of_cons, elem_of_nil in H;
  destruct H as [H|[H|[H|[H|[H|[H|[H|[]]]]]]]].

Lemma compile_known dbc spec :
  spec_name spec ∈ AUTH_METHODS → dbc = false ∨ spec_name spec ≠ bs "sso" →
  ∃ m, compile_method dbc spec = Some m ∧ method_name m = spec_name spec
       ∧ (dbc = true → ∀ cfg, m = MForward cfg → fw_via_client cfg = true).
Proof.
  intros Hn Hd. unfold compile_method. fold (spec_name spec). cbv zeta.
  name_cases Hn; rewrite Hn in *; try (eexists; split_and!; [reflexivity|done|]; naive_solver).
  destruct Hd as [->|?]; [|done]. eexists. split_and!; [reflexivity|done|done].
Qed.

Lemma compile_all dbc l :
  Forall (fun spec => spec_name spec ∈ AUTH_METHODS ∧ (dbc = false ∨ spec_name spec ≠ bs "sso")) l →
  method_names (omap (compile_method dbc) l) = spec_name <$> l
  ∧ (dbc = true → Forall (fun cfg => fw_via_client cfg = true)
                     (forward_methods (omap (compile_method dbc) l))).
Proof.
  induction 1 as [|spec l [Hn Hd] _ [IH1 IH2]]; simpl; [done|].
  destruct (compile_known dbc spec Hn Hd) as (m & -> & Hm & Hf). simpl. split.
  - apply (f_equal2 cons); [exact Hm|exact IH1].
  - intros Ht. specialize (IH2 Ht). destruct m; try done. simpl. constructor; [|done].
    by apply (Hf Ht).
Qed.

Lemma open_name m : m = MOpen ↔ method_name m = bs "none".
Proof. destruct m; naive_solver. Qed.

Lemma gates_names p :
  gates p = true ↔ p ≠ [] ∧ bs "none" ∉ method_names p.
Proof.
  unfold gates, admits_everyone, method_names. destruct p as [|m p]; [naive_solver|].
  rewrite negb_true_iff, existsb_false, Forall_forall, list_elem_of_fmap. split.
  - intros H. split; [done|]. intros (m' & Hm & Hin). specialize (H m' Hin). to_prop.
    apply H. by apply open_name.
  - intros [_ H] m' Hin. apply bool_decide_eq_false. intros Hm. apply H.
    exists m'. split; [|done]. symmetry. by apply open_name.
Qed.

(** A visitor policy fails closed. When validation accepted it, compiling
    loses no method, so the route is gated unless the policy is the single
    method [none]; the same for a policy a client declares, which moreover is
    never asked of a URL the server dials and never carries an identity
    provider. *)
Theorem visitor_gate_fails_closed (s : AuthSetting) (dbc : bool) :
  (if dbc then validate_client_declared_auth s else validate_auth_setting s) = Ok tt →
  method_names (compile_from s dbc) = spec_name <$> methods s
  ∧ (gates (compile_from s dbc) = false ↔
     ∃ spec, methods s = [spec] ∧ spec_name spec = bs "none")
  ∧ (dbc = true → sso_methods (compile_from s dbc) = []
     ∧ Forall (fun cfg => fw_via_client cfg = true) (forward_methods (compile_from s dbc))).
Proof.
  intros H.
  assert (Hv : validate_auth_setting s = Ok tt ∧
               Forall (fun spec => dbc = false ∨ spec_name spec ≠ bs "sso") (methods s)).
  { destruct dbc; [|split; [done|]; apply Forall_forall; by left].
    unfold validate_client_declared_auth in H. apply and_then_ok in H as [H1 H2].
    split; [done|]. apply Forall_forall. intros spec Hin. right.
    destruct (each_entries _ _ _ H2 Hin) as [i Hi].
    apply and_then_ok in Hi as [Hi _]. apply refuse_if_ok in Hi. intros Hs.
    change (str_eqb (spec_name spec) (bs "sso") = false) in Hi. by rewrite Hs in Hi. }
  destruct Hv as [Hv Hsso]. apply validate_spec in Hv as (Hne & Hnone & Hent).
  assert (Hall : Forall (fun spec => spec_name spec ∈ AUTH_METHODS
                           ∧ (dbc = false ∨ spec_name spec ≠ bs "sso")) (methods s)).
  { apply Forall_forall. intros spec Hin. rewrite Forall_forall in Hsso. split; [|auto].
    destruct (Hent spec Hin) as [i Hi]. by eapply check_entry_name. }
  apply compile_all in Hall as [Hnames Hfw]. split_and!; [done| |].
  - rewrite <- not_true_iff_false, gates_names. unfold compile_from. rewrite Hnames, list_elem_of_fmap.
    split.
    + intros Hg. destruct (decide (bs "none" ∈ spec_name <$> methods s)) as [Hin|Hni].
      * apply list_elem_of_fmap in Hin as (spec & Hs & Hin). exists spec. split; [|done].
        by apply Hnone.
      * exfalso. apply Hg. split; [|by rewrite <- list_elem_of_fmap].
        intros He. apply (f_equal method_names) in He. rewrite Hnames in He.
        by destruct (methods s).
    + intros (spec & Hs & Hn) [_ Hg]. apply Hg. exists spec. rewrite Hs. split; [done|].
      by apply list_elem_of_singleton.
  - intros ->. split; [|by apply Hfw].
    destruct (sso_methods (compile_from s true)) as [|cfg l] eqn:E; [done|].
    assert (Hin : cfg ∈ sso_methods (compile_from s true)) by (rewrite E; left).
    unfold sso_methods in Hin. apply list_elem_of_omap in Hin as (m & Hm & Hc).
    destruct m; try done. simplify_eq.
    assert (Hs : bs "sso" ∈ spec_name <$> methods s).
    { rewrite <- Hnames. apply list_elem_of_fmap. by exists (MSso cfg). }
    apply list_elem_of_fmap in Hs as (spec & Hs & Hin). rewrite Forall_forall in Hsso.
    by destruct (Hsso spec Hin).
Qed.

Lemma visitor_gate_fails_closed_witness :
  gates (compile_from (SetCredentials (bs "ada:lovelace")) true) = true.
Proof.
  destruct (visitor_gate_fails_closed (SetCredentials (bs "ada:lovelace")) true) as (_ & H & _);
    [vm_compute; reflexivity|].
  destruct (gates _); [reflexivity|]. exfalso.
  destruct (proj1 H eq_refl) as (spec & [= <-] & Hn). vm_compute in Hn. discriminate.
Defined.

(** An unvalidated policy does not fail closed: an entry the compiler cannot
    read is dropped, and the policy that is left empty admits everyone. *)
Example dropped_method_opens :
  admits_everyone (compile (SetOne {| sp_method := bs "bassic"; sp_users := Some (CredOne (bs "a:b"));
     sp_secret := None; sp_query := None; sp_jwks_url := None; sp_hmac_secret := None;
     sp_issuer := None; sp_client_id := None; sp_client_secret := None;
     sp_allowed_emails := None; sp_scopes := None; sp_audience := None; sp_claims := None;
     sp_cookie := None; sp_url := None; sp_request_headers := None;
     sp_response_headers := None; sp_timeout := None; sp_cache := None; sp_via := None |})) = true.
Proof. reflexivity. Qed.

(** ** Opening the gate *)

Section Opening.
Context (sha256 : str → str).

Lemma any_eq_spec presented cs ok :
  (∀ c, c ∈ cs → sha256 presented = sha256 c → presented = c) →
  any_eq sha256 presented cs ok = true ↔ ok = true ∨ presented ∈ cs.
Proof.
  unfold any_eq. revert ok. induction cs as [|c cs IH]; intros ok Hc; simpl.
  - rewrite elem_of_nil. tauto.
  - rewrite IH by (intros; apply Hc; [by right|done]). rewrite elem_of_cons, orb_true_iff.
    unfold constant_time_eq_str. rewrite str_eqb_eq.
    assert (sha256 presented = sha256 c ↔ presented = c) as ->; [|tauto].
    split; [apply Hc; left|by intros ->].
Qed.

(** The candidates one method compares a presented value with. *)
Definition basic_candidates (m : Method) : list str := match m with MBasic us => us | _ => [] end.
Definition bearer_candidates (from_query : bool) (m : Method) : list str :=
  match m with MBearer ss q => if from_query && negb q then [] else ss | _ => [] end.

Lemma fold_candidates (cand : Method → list str) f presented p ok :
  (∀ ok m, f ok m = any_eq sha256 presented (cand m) ok) →
  (∀ m c, m ∈ p → c ∈ cand m → sha256 presented = sha256 c → presented = c) →
  fold_left f p ok = true ↔ ok = true ∨ ∃ m, m ∈ p ∧ presented ∈ cand m.
Proof.
  intros Hf. revert ok. induction p as [|m p IH]; intros ok Hc; simpl.
  - setoid_rewrite elem_of_nil. naive_solver.
  - rewrite IH by (intros m' c Hm; apply Hc; by right).
    rewrite Hf, any_eq_spec by (intros c Hin; apply (Hc m); [left|done]).
    setoid_rewrite elem_of_cons. naive_solver.
Qed.

Lemma admits_credential_spec p presented :
  (∀ m c, m ∈ p → c ∈ basic_candidates m → sha256 presented = sha256 c → presented = c) →
  admits_credential sha256 p presented = true ↔ ∃ us, MBasic us ∈ p ∧ presented ∈ us.
Proof.
  intros Hc. unfold admits_credential. rewrite (fold_candidates basic_candidates); [|by intros ? []|done].
  split; [intros [?|(m & Hm & Hin)]; [done|]|intros (us & Hm & Hin); right; by exists (MBasic us)].
  destruct m; simpl in Hin; try by apply not_elem_of_nil in Hin. eauto.
Qed.

Lemma admits_bearer_spec p presented fq :
  (∀ m c, m ∈ p → c ∈ bearer_candidates fq m → sha256 presented = sha256 c → presented = c) →
  admits_bearer sha256 p presented fq = true ↔
  ∃ ss q, MBearer ss q ∈ p ∧ presented ∈ ss ∧ (fq = true → q = true).
Proof.
  intros Hc. unfold admits_bearer. rewrite (fold_candidates (bearer_candidates fq)); [| |done].
  2:{ intros ok [| |ss q| | | |]; simpl; try done. by destruct (fq && negb q). }
  split.
  - intros [?|(m & Hm & Hin)]; [done|].
    destruct m as [| |ss q| | | |]; simpl in Hin; try by apply not_elem_of_nil in Hin.
    exists ss, q. destruct fq, q; simpl in Hin; try by apply not_elem_of_nil in Hin.
    all: naive_solver.
  - intros (ss & q & Hm & Hin & Hq). right. exists (MBearer ss q). split; [done|].
    simpl. destruct fq, q; try done. naive_solver.
Qed.
End Opening.

Lemma compile_basic dbc spec us :
  compile_method dbc spec = Some (MBasic us) ↔
  spec_name spec = bs "basic" ∧ us = slice_or_empty (sp_users spec).
Proof.
  unfold compile_method. fold (spec_name spec). cbv zeta. split.
  - intros H. repeat case_in H; simplify_eq; try done.
    split; [by apply str_eqb_eq|done].
  - intros [-> ->]. reflexivity.
Qed.

Lemma compile_bearer dbc spec ss q :
  compile_method dbc spec = Some (MBearer ss q) ↔
  spec_name spec = bs "bearer" ∧ ss = slice_or_empty (sp_secret spec)
  ∧ q = default false (sp_query spec).
Proof.
  unfold compile_method. fold (spec_name spec). cbv zeta. split.
  - intros H. repeat case_in H; simplify_eq; try done.
    split_and!; [by apply str_eqb_eq|done|done].
  - intros (-> & -> & ->). reflexivity.
Qed.

Lemma check_entry_basic i spec c :
  check_entry i spec = Ok tt → spec_name spec = bs "basic" →
  c ∈ slice_or_empty (sp_users spec) → credential_is_usable c = true.
Proof.
  unfold check_entry. fold (spec_name spec). cbv zeta. intros H Hn.
  rewrite Hn in H. rewrite !and_then_ok in H. destruct H as (_ & _ & H).
  change (check_basic i spec = Ok tt) in H. unfold check_basic in H.
  apply and_then_ok in H as [_ H]. unfold slice_or_empty. destruct (sp_users spec) as [us|]; [|done].
  apply and_then_ok in H as [_ H]. rewrite each_ok, Forall_forall in H. intros Hin.
  specialize (H c Hin). apply refuse_if_ok in H. by to_prop.
Qed.

Lemma check_entry_bearer i spec c :
  check_entry i spec = Ok tt → spec_name spec = bs "bearer" →
  c ∈ slice_or_empty (sp_secret spec) → blank c = false ∧ MIN_BEARER_SECRET_LEN <= len c.
Proof.
  unfold check_entry. fold (spec_name spec). cbv zeta. intros H Hn.
  rewrite Hn in H. rewrite !and_then_ok in H. destruct H as (_ & _ & H).
  change (check_bearer i spec = Ok tt) in H. unfold check_bearer in H.
  apply and_then_ok in H as [_ H]. unfold slice_or_empty. destruct (sp_secret spec) as [us|]; [|done].
  apply and_then_ok in H as [_ H]. rewrite each_ok, Forall_forall in H. intros Hin.
  specialize (H c Hin). apply and_then_ok in H as [H1 H2]. apply refuse_if_ok in H1, H2. by to_prop.
Qed.

Lemma single_credential_slice spec c :
  single_credential spec = Some c →
  spec_name spec = bs "basic" ∧ slice_or_empty (sp_users spec) = [c].
Proof.
  unfold single_credential.
  change (eq_ignore_case (trim (sp_method spec)) (bs "basic")) with (str_eqb (spec_name spec) (bs "basic")).
  destruct (str_eqb (spec_name spec) (bs "basic")) eqn:E; [|done]. simpl. apply str_eqb_eq in E.
  unfold slice_or_empty. destruct (sp_users spec) as [u|]; [|done].
  destruct (as_slice u) as [|a [|b l]]; [done| |done]. intros [= ->]. done.
Qed.

Lemma as_single_credential_methods s c :
  as_single_credential s = Some c →
  ∃ spec, methods s = [spec] ∧ spec_name spec = bs "basic" ∧ slice_or_empty (sp_users spec) = [c].
Proof.
  destruct s as [creds|spec|[|spec [|? ?]]]; simpl; intros H; [|..|done].
  - simplify_eq. exists (basic_spec c). done.
  - exists spec. split; [done|]. by apply single_credential_slice.
  - done.
  - exists spec. split; [done|]. by apply single_credential_slice.
Qed.

(** A validated gate is opened by exactly the credentials written in it: a
    login by a [user:password] of a [basic] entry, with both halves present; a
    bearer secret by one of a [bearer] entry, never blank or shorter than
    sixteen bytes, and from the URL only where the entry asked for that. The
    scalar form of a policy, when it has one, is opened by that one login. *)
Theorem visitor_gate_opened_exactly sha256 s presented fq :
  validate_auth_setting s = Ok tt →
  (∀ spec c, spec ∈ methods s →
     c ∈ slice_or_empty (sp_users spec) ++ slice_or_empty (sp_secret spec) →
     sha256 presented = sha256 c → presented = c) →
  (admits_credential sha256 (compile s) presented = true ↔
   ∃ spec, spec ∈ methods s ∧ spec_name spec = bs "basic"
           ∧ presented ∈ slice_or_empty (sp_users spec))
  ∧ (admits_credential sha256 (compile s) presented = true → credential_is_usable presented = true)
  ∧ (admits_bearer sha256 (compile s) presented fq = true ↔
     ∃ spec, spec ∈ methods s ∧ spec_name spec = bs "bearer"
             ∧ presented ∈ slice_or_empty (sp_secret spec)
             ∧ (fq = true → sp_query spec = Some true))
  ∧ (admits_bearer sha256 (compile s) presented fq = true →
     blank presented = false ∧ MIN_BEARER_SECRET_LEN <= len presented)
  ∧ (∀ c, as_single_credential s = Some c →
     admits_credential sha256 (compile s) presented = true ↔ presented = c).
Proof.
  intros Hv Hsha. apply validate_spec in Hv as (_ & _ & Hent).
  assert (Hb : admits_credential sha256 (compile s) presented = true ↔
               ∃ spec, spec ∈ methods s ∧ spec_name spec = bs "basic"
                       ∧ presented ∈ slice_or_empty (sp_users spec)).
  { rewrite admits_credential_spec.
    - unfold compile, compile_from. setoid_rewrite list_elem_of_omap.
      setoid_rewrite compile_basic. naive_solver.
    - intros m c Hm Hc. destruct m as [|us| | | | |]; try by apply not_elem_of_nil in Hc.
      apply list_elem_of_omap in Hm as (spec & Hin & Hm). apply compile_basic in Hm as [_ ->].
      apply (Hsha spec c Hin). apply elem_of_app. by left. }
  assert (Hr : admits_bearer sha256 (compile s) presented fq = true ↔
               ∃ spec, spec ∈ methods s ∧ spec_name spec = bs "bearer"
                       ∧ presented ∈ slice_or_empty (sp_secret spec)
                       ∧ (fq = true → sp_query spec = Some true)).
  { assert (Hq : ∀ spec, default false (sp_query spec) = true ↔ sp_query spec = Some true)
      by (intros spec; destruct (sp_query spec) as [[]|]; naive_solver).
    rewrite admits_bearer_spec.
    - unfold compile, compile_from. setoid_rewrite list_elem_of_omap.
      setoid_rewrite compile_bearer. setoid_rewrite <- Hq. naive_solver.
    - intros m c Hm Hc. destruct m as [| |ss q| | | |]; try by apply not_elem_of_nil in Hc.
      apply list_elem_of_omap in Hm as (spec & Hin & Hm). apply compile_bearer in Hm as (_ & -> & _).
      apply (Hsha spec c Hin). apply elem_of_app. right. simpl in Hc.
      destruct (fq && negb q); [by apply not_elem_of_nil in Hc|done]. }
  split_and!; [done| |done| |].
  - intros (spec & Hin & Hn & Hp)%Hb. destruct (Hent spec Hin) as [i Hi].
    by eapply check_entry_basic.
  - intros (spec & Hin & Hn & Hp & _)%Hr. destruct (Hent spec Hin) as [i Hi].
    by eapply check_entry_bearer.
  - intros c (spec & Hm & Hn & Hs)%as_single_credential_methods. rewrite Hb, Hm.
    setoid_rewrite list_elem_of_singleton. split.
    + intros (spec' & -> & _ & Hp). by rewrite Hs, list_elem_of_singleton in Hp.
    + intros ->. exists spec. rewrite Hs, list_elem_of_singleton. done.
Qed.

Lemma visitor_gate_opened_exactly_witness :
  admits_credential (fun s => s) (compile (SetCredentials (bs "ada:lovelace"))) (bs "ada:lovelace") = true.
Proof.
  destruct (visitor_gate_opened_exactly (fun s => s) (SetCredentials (bs "ada:lovelace"))
              (bs "ada:lovelace") false) as (_ & _ & _ & _ & H);
    [vm_compute; reflexivity|intros; assumption|].
  apply (H (bs "ada:lovelace")); reflexivity.
Defined.
