(* ===== verification/Clients.v ===== *)
(** Connections and the services they carry:
    [aperio-server/src/state/client.rs], with the declarations of
    [aperio-server/src/protocol.rs] they hold.

    Instants and durations are nanosecond counts on one monotonic clock; an
    [Arc] shared with another task is the value it holds at the moment of the
    pass, and a channel or a semaphore is named by a number. *)

From Stdlib Require Import Sorting.Sorted.
From S2P Require Import Prelude Binds VisitorAuth Orgs.

Record ConfigNote : Type := {
  cn_field : str;
  cn_declared : str;
  cn_effective : str;
  cn_reason : str;
}.

Record TunnelDecl : Type := {
  td_name : option str;
  td_custom_name : option str;
  td_target : str;
  td_protocol : str;
  td_encrypt : bool;
  td_idle_timeout : option Z;
}.

Record ServiceState : Type := {
  request_count : Z;
  declared_path : option str;
  assigned_path : option str;
  declared_hostname : option str;
  declared_hostnames : list str;
  assigned_hostnames : list str;
  random_hostname : option str;
  max_concurrent : option Z;
  max_concurrent_ceiling : option Z;
  inflight_limiter : option Z;
  admin_enabled : bool;
  server_side_target : option str;
  server_side_refused : option str;
  policy_conflict : option str;
  catch_all : bool;
  serves_http : bool;
  route_noticed : bool;
  capture : bool;
  connections : option Z;
  connections_min : option Z;
  connections_max : option Z;
  config_notes : list ConfigNote;
  metrics_labels : list (str * str);
  tcp_enabled : bool;
  backend_healthy : bool;
  backend_probed : bool;
  priority : Z;
  bandwidth_bps : Z;
  service_name : option str;
  service_custom_name : option str;
  public : bool;
  public_denied_warned : bool;
  visitor_auth : option str;
  visitor_auth_policy : option Policy;
  visitor_auth_denied_warned : bool;
  ungated_warned : bool;
  allowed_ips : list str;
  allowed_ips_invalid_warned : bool;
  scaling_invalid_warned : bool;
  tunnels : list TunnelDecl;
  cache : bool;
  cache_ignored_warned : bool;
  notices_sent : list str;
  resilience : bool;
  max_request_body : option Z;
  response_timeout : option Z;
  webhook_inbox : bool;
  denied : option str;
  recent_failures : list Z;
  ejected_until : option Z;
}.

Definition newly_declared (pacer : Z) : ServiceState :=
  {| request_count := 0; declared_path := None; assigned_path := None;
     declared_hostname := None; declared_hostnames := []; assigned_hostnames := [];
     random_hostname := None; max_concurrent := None; max_concurrent_ceiling := None;
     inflight_limiter := None; admin_enabled := true; server_side_target := None;
     server_side_refused := None; policy_conflict := None; catch_all := false;
     serves_http := false; route_noticed := false; capture := true; connections := None;
     connections_min := None; connections_max := None; config_notes := [];
     metrics_labels := []; tcp_enabled := false; backend_healthy := true;
     backend_probed := true; priority := 0; bandwidth_bps := pacer; service_name := None;
     service_custom_name := None; public := false; public_denied_warned := false;
     visitor_auth := None; visitor_auth_policy := None; visitor_auth_denied_warned := false;
     ungated_warned := false; allowed_ips := []; allowed_ips_invalid_warned := false;
     scaling_invalid_warned := false; tunnels := []; cache := false;
     cache_ignored_warned := false; notices_sent := []; resilience := false;
     max_request_body := None; response_timeout := None; webhook_inbox := false;
     denied := None; recent_failures := []; ejected_until := None |}.

(** The two fields [record_failure] writes. *)
Definition set_failures (s : ServiceState) (recent : list Z) (until : option Z) : ServiceState :=
  {| request_count := request_count s; declared_path := declared_path s;
     assigned_path := assigned_path s; declared_hostname := declared_hostname s;
     declared_hostnames := declared_hostnames s; assigned_hostnames := assigned_hostnames s;
     random_hostname := random_hostname s; max_concurrent := max_concurrent s;
     max_concurrent_ceiling := max_concurrent_ceiling s; inflight_limiter := inflight_limiter s;
     admin_enabled := admin_enabled s; server_side_target := server_side_target s;
     server_side_refused := server_side_refused s; policy_conflict := policy_conflict s;
     catch_all := catch_all s; serves_http := serves_http s; route_noticed := route_noticed s;
     capture := capture s; connections := connections s; connections_min := connections_min s;
     connections_max := connections_max s; config_notes := config_notes s;
     metrics_labels := metrics_labels s; tcp_enabled := tcp_enabled s;
     backend_healthy := backend_healthy s; backend_probed := backend_probed s;
     priority := priority s; bandwidth_bps := bandwidth_bps s; service_name := service_name s;
     service_custom_name := service_custom_name s; public := public s;
     public_denied_warned := public_denied_warned s; visitor_auth := visitor_auth s;
     visitor_auth_policy := visitor_auth_policy s;
     visitor_auth_denied_warned := visitor_auth_denied_warned s;
     ungated_warned := ungated_warned s; allowed_ips := allowed_ips s;
     allowed_ips_invalid_warned := allowed_ips_invalid_warned s;
     scaling_invalid_warned := scaling_invalid_warned s; tunnels := tunnels s; cache := cache s;
     cache_ignored_warned := cache_ignored_warned s; notices_sent := notices_sent s;
     resilience := resilience s; max_request_body := max_request_body s;
     response_timeout := response_timeout s; webhook_inbox := webhook_inbox s;
     denied := denied s; recent_failures := recent; ejected_until := until |}.

Definition is_ejected (s : ServiceState) (now : Z) : bool :=
  match ejected_until s with Some t => now <? t | None => false end.

(** [duration_since] saturates at zero. *)
Fixpoint prune_failures (now window : Z) (l : list Z) : list Z :=
  match l with
  | [] => []
  | t :: l' => if window <? sat_sub now t then prune_failures now window l' else l
  end.

Definition record_failure (s : ServiceState) (now window threshold eject_for : Z)
    : ServiceState * bool :=
  let recent := prune_failures now window (recent_failures s) ++ [now] in
  if negb (is_ejected s now) && (threshold <=? Z.of_nat (length recent) mod 2 ^ 32)
  then (set_failures s [] (Some (now + eject_for)), true)
  else (set_failures s recent (ejected_until s), false).

Definition effective_path_bind (s : ServiceState) : option str :=
  match declared_path s with Some p => Some p | None => assigned_path s end.

(** [if !set.contains(d) { set.push(d) }] *)
Definition push_new (set : list str) (d : str) : list str :=
  if bool_decide (d ∈ set) then set else set ++ [d].

Definition effective_hostnames (s : ServiceState) : list str :=
  let set := assigned_hostnames s in
  let set := match declared_hostname s with Some d => push_new set d | None => set end in
  fold_left push_new (declared_hostnames s) set.

Definition display_name (s : ServiceState) : option str :=
  match service_custom_name s with Some n => Some n | None => service_name s end.

Definition matches_host (s : ServiceState) (host : str) : bool :=
  existsb (fun h => str_eqb h host) (effective_hostnames s).

(** ** Permissions *)

Record ClientPerms : Type := {
  master : bool;
  hostnames : list str;
  paths : list str;
  token_name : option str;
  token_id : option str;
  allow_public : bool;
  allow_server_side : bool;
  allow_bind : bool;
  allow_otel : bool;
  topics : list str;
  org_id : option str;
  org_hostnames : list str;
  max_connections : option Z;
}.

Definition master_perms : ClientPerms :=
  {| master := true; hostnames := []; paths := []; token_name := None; token_id := None;
     allow_public := true; allow_server_side := true; allow_bind := true; allow_otel := true;
     topics := [bs "#"]; org_id := None; org_hostnames := []; max_connections := None |}.

Definition connection_ceiling (p : ClientPerms) (server_max : Z) : Z :=
  match max_connections p with
  | Some token_max => Z.max (Z.min token_max server_max) 1
  | None => Z.max server_max 1
  end.

Definition org_hostname_allowed (p : ClientPerms) (host : str) : bool :=
  master p || hostname_in_org_allowlist host (org_hostnames p).

Definition hostname_allowed (p : ClientPerms) (host : str) : bool :=
  org_hostname_allowed p host
  && (master p || bool_decide (hostnames p = [])
      || existsb (fun h => str_eqb h (bs "*") || str_eqb h host) (hostnames p)).

Definition path_allowed (p : ClientPerms) (path : str) : bool :=
  master p || bool_decide (paths p = [])
  || existsb (fun q => str_eqb q (bs "*") || str_eqb q path) (paths p).

Definition granted_hostnames (p : ClientPerms) : list str :=
  filter (fun h => negb (str_eqb h (bs "*")) && org_hostname_allowed p h = true) (hostnames p).

Definition granted_path (p : ClientPerms) : option str :=
  find (fun q => negb (str_eqb q (bs "*"))) (paths p).

(** ** Connections *)

Record ClientHandle : Type := {
  tx : Z;
  connected_at : Z;
  client_ip : str;
  last_ping_at : option Z;
  perms : ClientPerms;
  draining : bool;
  declared_client_id : option str;
  declared_name : option str;
  drain_secs : option Z;
  client_version : option str;
  client_protocol : option Z;
  rss_bytes : option Z;
  rtt_ms : option Z;
  jitter_ms : option Z;
  reconnects : option Z;
  reported_instance_id : option str;
  instance_group : option str;
  subscriptions : list str;
  services : list ServiceState;
}.

Definition awaiting_declaration (c : ClientHandle) : bool :=
  match last_ping_at c with None => true | Some _ => false end.

(** [reference.elapsed() < down_threshold] at [now]. *)
Definition is_healthy (c : ClientHandle) (now down_threshold : Z) : bool :=
  sat_sub now (default (connected_at c) (last_ping_at c)) <? down_threshold.

Definition conn_tunnels (c : ClientHandle) : list TunnelDecl :=
  match services c with s :: _ => tunnels s | [] => [] end.

Definition serves_process_scoped (c : ClientHandle) (now down_threshold : Z) : bool :=
  is_healthy c now down_threshold && negb (draining c) && existsb admin_enabled (services c).

Definition conn_hostnames (c : ClientHandle) : list str :=
  fold_left (fun out s => fold_left push_new (effective_hostnames s) out) (services c) [].

Definition process_name (c : ClientHandle) : option str :=
  match omap display_name (services c) with
  | [] => None
  | names => Some (join (bs ", ") names)
  end.

(** ** Matching a Ping's declarations with the services already here *)

(** The duplicate check: the first name seen before. *)
Fixpoint first_duplicate (seen : list str) (names : list (option str)) : option str :=
  match names with
  | [] => None
  | None :: l => first_duplicate seen l
  | Some n :: l => if bool_decide (n ∈ seen) then Some n else first_duplicate (seen ++ [n]) l
  end.

(** [(0..existing.len()).find(|i| !taken[i] && p(existing[i].service_name))] *)
Fixpoint find_free (p : option str → bool) (existing : list (option str)) (taken : list bool)
    : option nat :=
  match existing, taken with
  | n :: e, t :: ts => if negb t && p n then Some O else S <$> find_free p e ts
  | _, _ => None
  end.

Definition has_name (n : str) (o : option str) : bool := bool_decide (o = Some n).
Definition is_nameless (o : option str) : bool := bool_decide (o = None).

Fixpoint named_pass (existing : list (option str)) (names : list (option str)) (taken : list bool)
    : list (option nat) * list bool :=
  match names with
  | [] => ([], taken)
  | name :: rest =>
      let found := match name with Some n => find_free (has_name n) existing taken | None => None end in
      let taken' := match found with Some i => <[i := true]> taken | None => taken end in
      let (out, t) := named_pass existing rest taken' in (found :: out, t)
  end.

Fixpoint adopt_pass (existing : list (option str)) (slots : list (option nat)) (taken : list bool)
    : list (option nat) :=
  match slots with
  | [] => []
  | Some i :: rest => Some i :: adopt_pass existing rest taken
  | None :: rest =>
      match find_free is_nameless existing taken with
      | Some i => Some i :: adopt_pass existing rest (<[i := true]> taken)
      | None => None :: adopt_pass existing rest taken
      end
  end.

Definition match_declarations (existing : list ServiceState) (declared_names : list (option str))
    : result (list (option nat)) str :=
  match first_duplicate [] declared_names with
  | Some n => Err n
  | None =>
      let names := service_name <$> existing in
      let (out, taken) := named_pass names declared_names (replicate (length existing) false) in
      Ok (adopt_pass names out taken)
  end.

(** ** Hostnames *)

Lemma elem_of_push_new set d h : h ∈ push_new set d ↔ h ∈ set ∨ h = d.
Proof.
  unfold push_new. case_bool_decide; [|rewrite elem_of_app, list_elem_of_singleton; tauto].
  split; [tauto|]. intros [?| ->]; done.
Qed.

Lemma elem_of_push_all l set h : h ∈ fold_left push_new l set ↔ h ∈ set ∨ h ∈ l.
Proof.
  revert set. induction l as [|d l IH]; intros set; simpl.
  - rewrite elem_of_nil. tauto.
  - rewrite IH, elem_of_push_new, elem_of_cons. tauto.
Qed.

Lemma elem_of_effective_hostnames s h :
  h ∈ effective_hostnames s ↔
  h ∈ assigned_hostnames s ∨ declared_hostname s = Some h ∨ h ∈ declared_hostnames s.
Proof.
  unfold effective_hostnames. rewrite elem_of_push_all. destruct (declared_hostname s) as [d|].
  - rewrite elem_of_push_new. naive_solver.
  - naive_solver.
Qed.

Lemma matches_host_spec s h : matches_host s h = true ↔ h ∈ effective_hostnames s.
Proof.
  unfold matches_host. rewrite existsb_Exists. setoid_rewrite str_eqb_eq. naive_solver.
Qed.

Lemma elem_of_conn_hostnames c h :
  h ∈ conn_hostnames c ↔ ∃ s, s ∈ services c ∧ h ∈ effective_hostnames s.
Proof.
  unfold conn_hostnames.
  assert (H : ∀ l acc, h ∈ fold_left (fun out s => fold_left push_new (effective_hostnames s) out) l acc
                       ↔ h ∈ acc ∨ ∃ s, s ∈ l ∧ h ∈ effective_hostnames s).
  { induction l as [|s l IH]; intros acc; simpl.
    - setoid_rewrite elem_of_nil. naive_solver.
    - rewrite IH, elem_of_push_all. setoid_rewrite elem_of_cons. naive_solver. }
  rewrite H, elem_of_nil. naive_solver.
Qed.

(** What the organization fence reads of a connection. *)
Definition served_of (c : ClientHandle) : served_client :=
  {| sc_org := org_id (perms c); sc_hostnames := conn_hostnames c |}.

(** ** Declarations *)

Lemma find_free_Some p ex taken k :
  find_free p ex taken = Some k →
  taken !! k = Some false ∧ ∃ n, ex !! k = Some n ∧ p n = true.
Proof.
  revert taken k. induction ex as [|n ex IH]; intros [|t taken] k; simpl; try done.
  destruct (negb t && p n) eqn:E.
  - intros [= <-]. to_prop. subst. eauto.
  - destruct (find_free p ex taken) as [j|] eqn:Ef; [|done]. intros [= <-]. simpl. by apply IH.
Qed.

Lemma find_free_None p ex taken k n :
  find_free p ex taken = None → ex !! k = Some n → taken !! k = Some false → p n = false.
Proof.
  revert taken k. induction ex as [|m ex IH]; intros [|t taken] [|k]; simpl; try done.
  - intros H [= ->] [= ->]. simpl in H. by destruct (p n).
  - intros H. destruct (negb t && p m); [done|].
    destruct (find_free p ex taken) eqn:Ef; [done|]. by apply IH.
Qed.

(** No two declarations are given the same service. *)
Definition injective_slots (out : list (option nat)) : Prop :=
  ∀ i j k, out !! i = Some (Some k) → out !! j = Some (Some k) → i = j.

Lemma injective_slots_cons o out :
  injective_slots out → (∀ i k, o = Some k → out !! i ≠ Some (Some k)) → injective_slots (o :: out).
Proof.
  intros Hi Ho [|i] [|j] k; simpl; intros H1 H2; simplify_eq; try done.
  - by apply Ho in H2.
  - by apply Ho in H1.
  - f_equal. by eapply Hi.
Qed.

Lemma insert_true_mono (taken : list bool) i k :
  taken !! k = Some true → <[i := true]> taken !! k = Some true.
Proof.
  intros H. destruct (decide (i = k)) as [->|Hne].
  - by rewrite list_lookup_insert_eq by by eapply lookup_lt_Some.
  - by rewrite list_lookup_insert_ne.
Qed.

Lemma insert_false (taken : list bool) i k :
  <[i := true]> taken !! k = Some false → taken !! k = Some false ∧ i ≠ k.
Proof.
  intros H. destruct (decide (i = k)) as [->|Hne].
  - exfalso. assert (Hl : (k < length taken)%nat).
    { apply lookup_lt_Some in H. by rewrite length_insert in H. }
    by rewrite list_lookup_insert_eq in H.
  - by rewrite list_lookup_insert_ne in H.
Qed.

Lemma named_pass_spec ex names taken out t :
  named_pass ex names taken = (out, t) →
  length out = length names
  ∧ (∀ k, taken !! k = Some true → t !! k = Some true)
  ∧ (∀ i k, out !! i = Some (Some k) →
       taken !! k = Some false ∧ t !! k = Some true
       ∧ ∃ n, names !! i = Some (Some n) ∧ ex !! k = Some (Some n))
  ∧ injective_slots out.
Proof.
  revert taken out t. induction names as [|name names IH]; intros taken out t; simpl.
  { intros [= <- <-]. split_and!; [done|done|done|]. intros i j k H. done. }
  set (found := match name with Some n => _ | None => None end).
  destruct (named_pass ex names _) as [out' t'] eqn:E. intros [= <- <-].
  apply IH in E as (Hlen & Hmono & Hsl & Hinj). clear IH.
  assert (Hf : ∀ k, found = Some k → taken !! k = Some false ∧
                    ∃ n, name = Some n ∧ ex !! k = Some (Some n)).
  { intros k Hk. unfold found in Hk. destruct name as [n|]; [|done].
    apply find_free_Some in Hk as (Ht & o & Ho & Hn). unfold has_name in Hn. to_prop. subst. eauto. }
  split_and!.
  - simpl. by rewrite Hlen.
  - intros k Hk. apply Hmono. destruct found; [by apply insert_true_mono|done].
  - intros [|i] k; simpl; intros Hi.
    + injection Hi as Hi. destruct (Hf k Hi) as (Ht & n & -> & Hn). split_and!; [done| |eauto].
      apply Hmono. rewrite Hi. apply list_lookup_insert_eq. by eapply lookup_lt_Some.
    + destruct (Hsl i k Hi) as (Ht & Ht' & Hn). split_and!; [|done|done].
      destruct found; [by apply insert_false in Ht as [? _]|done].
  - apply injective_slots_cons; [done|]. intros i k Hk Hi. rewrite Hk in Hsl.
    destruct (Hsl i k Hi) as (Ht & _). by apply insert_false in Ht as [_ ?].
Qed.

Lemma named_pass_finds ex names taken out t i n k :
  named_pass ex names taken = (out, t) → NoDup (omap id names) →
  names !! i = Some (Some n) → ex !! k = Some (Some n) → taken !! k = Some false →
  ∃ k', out !! i = Some (Some k') ∧ ex !! k' = Some (Some n).
Proof.
  revert taken out t i. induction names as [|name names IH]; intros taken out t i; simpl; [done|].
  set (found := match name with Some n => _ | None => None end).
  destruct (named_pass ex names _) as [out' t'] eqn:E. intros [= <- <-] Hnd Hi Hk Ht.
  destruct i as [|i]; simpl in Hi.
  - injection Hi as ->. unfold found.
    destruct (find_free (has_name n) ex taken) as [k'|] eqn:Ef.
    + exists k'. split; [done|]. apply find_free_Some in Ef as (_ & o & Ho & Hn).
      unfold has_name in Hn. to_prop. by subst.
    + apply (find_free_None _ _ _ _ _ Ef Hk) in Ht. unfold has_name in Ht. by to_prop.
  - simpl. apply (IH _ _ _ i E); [|done|done|].
    + destruct name; simpl in Hnd; [by apply NoDup_cons in Hnd as [_ ?]|done].
    + unfold found. destruct name as [m|]; [|done].
      destruct (find_free (has_name m) ex taken) as [k'|] eqn:Ef; [|done].
      apply find_free_Some in Ef as (_ & o & Ho & Hm). unfold has_name in Hm. to_prop. subst.
      rewrite list_lookup_insert_ne; [done|]. intros ->. assert (m = n) as -> by congruence.
      simpl in Hnd. apply NoDup_cons in Hnd as [Hni _]. apply Hni.
      apply list_elem_of_omap. exists (Some n). split; [by eapply list_elem_of_lookup_2|done].
Qed.

Lemma adopt_pass_spec ex slots taken :
  (∀ i k, slots !! i = Some (Some k) → taken !! k = Some true) → injective_slots slots →
  let out := adopt_pass ex slots taken in
  length out = length slots
  ∧ (∀ i k, slots !! i = Some (Some k) → out !! i = Some (Some k))
  ∧ (∀ i k, out !! i = Some (Some k) →
       slots !! i = Some (Some k) ∨ (taken !! k = Some false ∧ ex !! k = Some None))
  ∧ injective_slots out.
Proof.
  revert taken. induction slots as [|o slots IH]; intros taken Ht Hinj; simpl; [done|].
  assert (Hinj' : injective_slots slots).
  { intros i j k Hi Hj. specialize (Hinj (S i) (S j) k Hi Hj). lia. }
  destruct o as [k0|].
  - destruct (IH taken) as (Hlen & Hkeep & Hnew & Hin); [intros i k; apply (Ht (S i))|done|].
    split_and!; [simpl; by rewrite Hlen|intros [|i] k; simpl; [done|apply Hkeep]
                |intros [|i] k; simpl; [by left|apply Hnew]|].
    apply injective_slots_cons; [done|]. intros i k [= <-] Hi. apply Hnew in Hi as [Hi|[Hf _]].
    + specialize (Hinj O (S i) k0 eq_refl Hi). done.
    + specialize (Ht O k0 eq_refl). congruence.
  - destruct (find_free is_nameless ex taken) as [k0|] eqn:Ef.
    + apply find_free_Some in Ef as (Hf & o & Ho & Hn). unfold is_nameless in Hn. to_prop. subst o.
      destruct (IH (<[k0 := true]> taken)) as (Hlen & Hkeep & Hnew & Hin);
        [intros i k Hi; apply insert_true_mono, (Ht (S i)), Hi|done|].
      split_and!; [simpl; by rewrite Hlen|intros [|i] k; simpl; [done|apply Hkeep]| |].
      * intros [|i] k; simpl; [intros [= <-]; by right|].
        intros [?|[Hk He]]%Hnew; [by left|right]. by apply insert_false in Hk as [? _].
      * apply injective_slots_cons; [done|]. intros i k [= <-] Hi. apply Hnew in Hi as [Hi|[Hk _]].
        -- specialize (Ht (S i) k0 Hi). congruence.
        -- by apply insert_false in Hk as [_ ?].
    + destruct (IH taken) as (Hlen & Hkeep & Hnew & Hin); [intros i k; apply (Ht (S i))|done|].
      split_and!; [simpl; by rewrite Hlen|intros [|i] k; simpl; [done|apply Hkeep]
                  |intros [|i] k; simpl; [done|apply Hnew]|].
      apply injective_slots_cons; [done|]. by intros i k [=].
Qed.

Lemma first_duplicate_None names :
  ∀ seen, first_duplicate seen names = None →
  NoDup (omap id names) ∧ ∀ n, n ∈ seen → n ∉ omap id names.
Proof.
  induction names as [|[n|] names IH]; intros seen; simpl.
  - intros _. split; [apply NoDup_nil_2|]. intros n _. apply not_elem_of_nil.
  - case_bool_decide as Hn; [done|]. intros H. apply IH in H as [Hnd Hs]. split.
    + apply NoDup_cons. split; [|done]. apply Hs. apply elem_of_app. right. by left.
    + intros m Hm Hin. apply elem_of_cons in Hin as [->|Hin]; [done|].
      apply (Hs m); [apply elem_of_app; by left|done].
  - apply IH.
Qed.

Lemma first_duplicate_Some names n :
  ∀ seen, first_duplicate seen names = Some n →
  ∃ j, names !! j = Some (Some n) ∧
       (n ∈ seen ∨ ∃ i, (i < j)%nat ∧ names !! i = Some (Some n)).
Proof.
  induction names as [|[m|] names IH]; intros seen; simpl; [done| |].
  - case_bool_decide as Hm; [intros [= ->]; exists O; split; [done|by left]|].
    intros (j & Hj & Hor)%IH. exists (S j). split; [done|].
    destruct Hor as [[Hs|Hs%list_elem_of_singleton]%elem_of_app|(i & Hi & Hni)]; [by left| |].
    + subst. right. exists O. split; [lia|done].
    + right. exists (S i). split; [lia|done].
  - intros (j & Hj & Hor)%IH. exists (S j). split; [done|].
    destruct Hor as [?|(i & Hi & Hni)]; [by left|right; exists (S i); split; [lia|done]].
Qed.

Lemma match_declarations_spec existing names :
  match match_declarations existing names with
  | Err n => ∃ i j, (i < j)%nat ∧ names !! i = Some (Some n) ∧ names !! j = Some (Some n)
  | Ok out =>
      length out = length names
      ∧ injective_slots out
      ∧ (∀ i k, out !! i = Some (Some k) → ∃ s, existing !! k = Some s ∧
           (names !! i = Some (service_name s) ∨ service_name s = None))
      ∧ (∀ i n, names !! i = Some (Some n) → Some n ∈ service_name <$> existing →
           ∃ k s, out !! i = Some (Some k) ∧ existing !! k = Some s ∧ service_name s = Some n)
  end.
Proof.
  unfold match_declarations. destruct (first_duplicate [] names) as [n|] eqn:Ed.
  { apply first_duplicate_Some in Ed as (j & Hj & [Hn|(i & Hi & Hni)]); [|eauto].
    by apply not_elem_of_nil in Hn. }
  apply first_duplicate_None in Ed as [Hnd _].
  set (ex := service_name <$> existing).
  destruct (named_pass ex names _) as [out t] eqn:En.
  pose proof (named_pass_spec _ _ _ _ _ En) as (Hlen & _ & Hsl & Hinj).
  destruct (adopt_pass_spec ex out t) as (Hlen' & Hkeep & Hnew & Hinj'); [|done|].
  { intros i k Hi. by apply Hsl in Hi as (_ & ? & _). }
  assert (Hex : ∀ k o, ex !! k = Some o → ∃ s, existing !! k = Some s ∧ service_name s = o).
  { intros k o Hk. unfold ex in Hk. rewrite list_lookup_fmap in Hk.
    destruct (existing !! k); [|done]. simplify_eq/=. eauto. }
  split_and!; [lia|done| |].
  - intros i k [Hi|[_ Hi]]%Hnew.
    + apply Hsl in Hi as (_ & _ & n & Hn & Hk). apply Hex in Hk as (s & Hs & Ho).
      exists s. split; [done|]. left. by rewrite Ho.
    + apply Hex in Hi as (s & Hs & Ho). eauto.
  - intros i n Hi Hin. apply list_elem_of_lookup in Hin as [k Hk].
    destruct (named_pass_finds _ _ _ _ _ i n k En Hnd Hi Hk) as (k' & Hk' & He).
    { apply lookup_replicate_2. apply lookup_lt_Some in Hk. unfold ex in Hk.
      by rewrite length_fmap in Hk. }
    apply Hex in He as (s & Hs & Hn). exists k', s. split; [by apply Hkeep|done].
Qed.

(** A Ping's declarations keep each service's identity. Two declarations of
    one name are refused; otherwise no two declarations update the same
    service, a declaration that names a service already here updates a service
    of that name wherever either of them stands in its list, and any other
    declaration is given a nameless service or none. *)
Theorem match_declarations_identity existing names :
  match match_declarations existing names with
  | Err n => ∃ i j, (i < j)%nat ∧ names !! i = Some (Some n) ∧ names !! j = Some (Some n)
  | Ok out =>
      length out = length names
      ∧ injective_slots out
      ∧ (∀ i k, out !! i = Some (Some k) → ∃ s, existing !! k = Some s ∧
           (names !! i = Some (service_name s) ∨ service_name s = None))
      ∧ (∀ i n, names !! i = Some (Some n) → Some n ∈ service_name <$> existing →
           ∃ k s, out !! i = Some (Some k) ∧ existing !! k = Some s ∧ service_name s = Some n)
  end.
Proof. apply match_declarations_spec. Qed.

(** ** Outlier ejection *)

Lemma prune_failures_filter now window l :
  Sorted Z.le l →
  prune_failures now window l = filter (fun t => sat_sub now t <= window) l.
Proof.
  intros Hs. apply Sorted_StronglySorted in Hs; [|intros ? ? ?; lia].
  induction Hs as [|t l _ IH Hall]; simpl; [done|].
  destruct (window <? sat_sub now t) eqn:E; to_prop.
  - rewrite filter_cons_False by lia. done.
  - rewrite filter_cons_True by lia. f_equal. symmetry. apply filter_all.
    eapply Forall_impl; [exact Hall|]. unfold sat_sub in *. simpl. lia.
Qed.

Lemma StronglySorted_filter_snoc (P : Z → Prop) `{∀ x, Decision (P x)} l now :
  StronglySorted Z.le l → Forall (fun t => t <= now) l → StronglySorted Z.le (filter P l ++ [now]).
Proof.
  induction 1 as [|t l _ IH Hall]; intros Hle; simpl; [by repeat constructor|].
  apply Forall_cons in Hle as [Ht Hle]. rewrite filter_cons. destruct (decide (P t)); [|auto].
  simpl. constructor; [auto|]. apply Forall_app. split; [|by repeat constructor].
  rewrite Forall_forall in *. intros x [_ Hx]%list_elem_of_filter. auto.
Qed.

(** Outlier ejection counts what it says. On a clock that does not run
    backwards, a failure ejects the service exactly when it is not ejected
    already and the failures of the last [window], this one included, reach the
    threshold; the ejection lasts [eject_for] and ends by itself, and a failure
    that does not eject leaves the ejection state alone and keeps exactly the
    failures still inside the window. *)
Theorem record_failure_exact s now window threshold eject_for :
  Sorted Z.le (recent_failures s) → Forall (fun t => t <= now) (recent_failures s) →
  Z.of_nat (length (recent_failures s)) + 1 < 2 ^ 32 →
  let inside := filter (fun t => sat_sub now t <= window) (recent_failures s) ++ [now] in
  let '(s', ejected) := record_failure s now window threshold eject_for in
  (ejected = true ↔ is_ejected s now = false ∧ threshold <= Z.of_nat (length inside))
  ∧ Sorted Z.le (recent_failures s')
  ∧ if ejected
    then recent_failures s' = [] ∧ ∀ t, is_ejected s' t = (t <? now + eject_for)
    else recent_failures s' = inside ∧ ∀ t, is_ejected s' t = is_ejected s t.
Proof.
  intros Hs Hle Hlen inside. unfold record_failure. rewrite prune_failures_filter by done.
  fold inside.
  assert (Hin : (length inside <= length (recent_failures s) + 1)%nat).
  { unfold inside. rewrite length_app. simpl.
    pose proof (length_filter (fun t => sat_sub now t <= window) (recent_failures s)). lia. }
  assert (Hsi : Sorted Z.le inside).
  { apply StronglySorted_Sorted, StronglySorted_filter_snoc; [|done].
    apply Sorted_StronglySorted; [intros ? ? ?; lia|done]. }
  rewrite Z.mod_small by lia.
  destruct (is_ejected s now) eqn:Ee; simpl; [naive_solver|].
  destruct (threshold <=? Z.of_nat (length inside)) eqn:Et; to_prop.
  - split_and!; [done|constructor|done|done].
  - split_and!; [naive_solver lia|done|done|done].
Qed.

Lemma record_failure_exact_witness :
  (record_failure (set_failures (newly_declared 0) [1; 40; 50] None) 60 30 3 100).2 = true.
Proof.
  pose proof (record_failure_exact (set_failures (newly_declared 0) [1; 40; 50] None) 60 30 3 100)
    as H. cbv zeta in H.
  destruct (record_failure _ _ _ _ _) as [s' e].
  destruct H as [H _];
    [repeat constructor; discriminate|repeat constructor; discriminate|reflexivity|].
  apply H. split; [reflexivity|vm_compute; discriminate].
Defined.
