(* ===== verification/Select.v ===== *)
(** Choosing which service serves a request:
    [aperio-server/src/routing/select.rs].

    The client table is the list of its entries in the order a pass over the
    map sees them; theorems hold for every order. One pass is taken at one
    instant [now]. *)

From S2P Require Import Prelude Binds IpNet VisitorAuth Orgs Clients.

Record ServiceRef : Type := {
  client : str;
  index : nat;
}.

#[export] Instance ServiceRef_eq_dec : EqDecision ServiceRef.
Proof. solve_decision. Defined.

Abbreviation client_map := (list (str * ClientHandle)).
Abbreviation RouteGroupKey := (option str * option str)%type.

Definition ref_connection (r : ServiceRef) (clients : client_map) : option ClientHandle :=
  aget (client r) clients.
Definition ref_get (r : ServiceRef) (clients : client_map) : option ServiceState :=
  match aget (client r) clients with Some c => services c !! index r | None => None end.

(** ** The pool *)

Definition connection_refs (idc : str * ClientHandle) : list (ServiceRef * ServiceState) :=
  imap (fun i s => ({| client := idc.1; index := i |}, s)) (services idc.2).

Definition service_eligible (s : ServiceState) : bool :=
  backend_healthy s && admin_enabled s && negb (is_some (server_side_refused s))
  && negb (is_some (policy_conflict s)).

Definition eligible (clients : client_map) (now down_threshold : Z) : list (ServiceRef * ServiceState) :=
  filter (fun rs => service_eligible rs.2 = true)
    (concat (connection_refs <$>
       filter (fun idc => is_healthy idc.2 now down_threshold && negb (draining idc.2) = true) clients)).

Definition host_stage (elig : list (ServiceRef * ServiceState)) (request_host : option str)
    : list (ServiceRef * ServiceState) * option str :=
  let host_matched := match request_host with
                      | Some host => filter (fun rs => matches_host rs.2 host = true) elig
                      | None => []
                      end in
  match host_matched with
  | _ :: _ => (host_matched, request_host)
  | [] => (filter (fun rs => catch_all rs.2 = true) elig, None)
  end.

(** [max_by_key(|b| b.len())]: the last of the longest. *)
Definition longest_of (binds : list str) : str :=
  fold_left (fun best b => if (length best <=? length b)%nat then b else best) binds [].

Definition path_matched (host_pool : list (ServiceRef * ServiceState)) (uri_path : str)
    : list (ServiceRef * str) :=
  omap (fun rs => match effective_path_bind rs.2 with
                  | Some bind => if path_matches_bind uri_path bind then Some (rs.1, bind) else None
                  | None => None
                  end) host_pool.

Definition path_stage (host_pool : list (ServiceRef * ServiceState)) (uri_path : str)
    : list ServiceRef * option str :=
  let matched := path_matched host_pool uri_path in
  match matched with
  | _ :: _ =>
      let longest := longest_of matched.*2 in
      ((filter (fun rb => rb.2 = longest) matched).*1, Some longest)
  | [] => ((filter (fun rs => effective_path_bind rs.2 = None) host_pool).*1, None)
  end.

Definition not_ejected (clients : client_map) (now : Z) (r : ServiceRef) : bool :=
  match ref_get r clients with Some s => negb (is_ejected s now) | None => true end.

Definition select_client_pool (clients : client_map) (uri_path : str) (request_host : option str)
    (now down_threshold : Z) : option (list ServiceRef * RouteGroupKey) :=
  let (host_pool, host_key) := host_stage (eligible clients now down_threshold) request_host in
  match host_pool with
  | [] => None
  | _ =>
      let (pool, path_key) := path_stage host_pool uri_path in
      let live := filter (fun r => not_ejected clients now r = true) pool in
      let pool := match live with [] => pool | _ => live end in
      match pool with
      | [] => None
      | _ => Some (pool, (host_key, path_key))
      end
  end.

(** ** Strategy, address filter, canary *)

Inductive LbStrategy : Type := RoundRobin | PrimaryStandby | Sticky.

#[export] Instance LbStrategy_eq_dec : EqDecision LbStrategy.
Proof. solve_decision. Defined.

(** [iter().min().unwrap_or(0)] *)
Definition min_priority (l : list Z) : Z :=
  match l with [] => 0 | p :: l' => fold_left Z.min l' p end.

Definition apply_lb_strategy (pool : list ServiceRef) (clients : client_map) (strategy : LbStrategy)
    : list ServiceRef :=
  match strategy with
  | RoundRobin | Sticky => pool
  | PrimaryStandby =>
      let m := min_priority (priority <$> omap (fun r => ref_get r clients) pool) in
      filter (fun r => match ref_get r clients with Some s => priority s =? m | None => false end = true)
        pool
  end.

Definition find_affinity_match (pool : list ServiceRef) (clients : client_map) (affinity : str)
    : option ServiceRef :=
  find (fun r => match ref_connection r clients with
                 | Some c => bool_decide (reported_instance_id c = Some affinity)
                             || str_eqb (client r) affinity
                 | None => false
                 end) pool.

Inductive SelectionRequirement : Type :=
| ReqClient (id : str)
| ReqInstance (id : str).

Inductive Side : Type := Stable | Canary.

Definition on_canary (clients : client_map) (service : str) (r : ServiceRef) : bool :=
  match ref_get r clients with
  | Some s => bool_decide (service_name s = Some service)
  | None => false
  end.

Definition narrow_to_side (pool : list ServiceRef) (clients : client_map) (split : str * Side)
    : list ServiceRef :=
  filter (fun r => match split.2 with
                   | Canary => on_canary clients split.1 r
                   | Stable => negb (on_canary clients split.1 r)
                   end = true) pool.

Inductive IpFilterOutcome : Type :=
| Allowed (pool : list ServiceRef)
| IpDenied (redirect : option str).

(** A candidate admits the visitor when it has no list, or its list does. *)
Definition admits_ip (clients : client_map) (ip : ipaddr) (r : ServiceRef) : bool :=
  match ref_get r clients with
  | Some s => bool_decide (allowed_ips s = []) || ip_allowed ip (allowed_ips s)
  | None => true
  end.

(** [min_by_key(priority)]: the first of the lowest. *)
Definition most_primary (l : list (Z * str)) : option str :=
  match l with
  | [] => None
  | pu :: l' => Some (fold_left (fun best pu => if pu.1 <? best.1 then pu else best) l' pu).2
  end.

Definition filter_pool_by_ip (pool : list ServiceRef) (clients : client_map) (ip : option ipaddr)
    : IpFilterOutcome :=
  match ip with
  | None => Allowed pool
  | Some ip =>
      let passing := filter (fun r => admits_ip clients ip r = true) pool in
      let rejecting := filter (fun r => admits_ip clients ip r = false) pool in
      match passing with
      | _ :: _ => Allowed passing
      | [] => IpDenied (most_primary
                (omap (fun r => match ref_get r clients with
                                | Some s => match denied s with
                                            | Some url => Some (priority s, url) | None => None end
                                | None => None
                                end) rejecting))
      end
  end.

(** ** Picking *)

Record SelectedClient : Type := {
  sel_id : str;
  sel_tx : Z;
  sel_request_count : Z;
  sel_inflight_limiter : option Z;
  sel_token_name : option str;
  sel_token_id : option str;
  sel_org_id : option str;
  sel_instance_id : option str;
  sel_cache : bool;
  sel_server_side_target : option str;
  sel_resilience : bool;
  sel_capture : bool;
  sel_max_request_body : option Z;
  sel_response_timeout : option Z;
  sel_webhook_inbox : bool;
  sel_service_name : option str;
  sel_service_custom_name : option str;
}.

Inductive PickOutcome : Type :=
| Selected (s : SelectedClient)
| NoRoute
| PickDenied (redirect : option str).

(** What routing reads and writes of the server: the connections, two settings
    and the rotation cursors. *)
Record route_state : Type := {
  clients : client_map;
  client_down_threshold : Z;
  lb_strategy : LbStrategy;
  path_rr : list (RouteGroupKey * Z);
}.

Definition selected_of (r : ServiceRef) (c : ClientHandle) (svc : ServiceState) : SelectedClient :=
  {| sel_id := client r; sel_tx := tx c; sel_request_count := request_count svc;
     sel_inflight_limiter := inflight_limiter svc; sel_token_name := token_name (perms c);
     sel_token_id := token_id (perms c); sel_org_id := org_id (perms c);
     sel_instance_id := reported_instance_id c; sel_cache := cache svc;
     sel_server_side_target := server_side_target svc; sel_resilience := resilience svc;
     sel_capture := capture svc; sel_max_request_body := max_request_body svc;
     sel_response_timeout := response_timeout svc; sel_webhook_inbox := webhook_inbox svc;
     sel_service_name := service_name svc; sel_service_custom_name := service_custom_name svc |}.

(** The pool after the requirement and the canary split have narrowed it. *)
Definition narrow_pool (clients : client_map) (pool : list ServiceRef)
    (requirement : option SelectionRequirement) (canary : option (str * Side)) : list ServiceRef :=
  let pool := match requirement with
              | Some (ReqClient id) => filter (fun r => client r = id) pool
              | _ => pool
              end in
  let pool := match canary with
              | Some side => match narrow_to_side pool clients side with
                             | [] => pool
                             | narrowed => narrowed
                             end
              | None => pool
              end in
  match requirement with
  | Some (ReqInstance instance) =>
      filter (fun r => match ref_connection r clients with
                       | Some c => bool_decide (reported_instance_id c = Some instance)
                       | None => false
                       end = true) pool
  | _ => pool
  end.

(** [pool[idx % pool.len()]], and the cursor moved one on. *)
Definition rotate (pool : list ServiceRef) (key : RouteGroupKey) (rr : list (RouteGroupKey * Z))
    : option ServiceRef * list (RouteGroupKey * Z) :=
  let n := Z.of_nat (length pool) in
  let idx := default 0 (aget key rr) in
  (pool !! Z.to_nat (idx mod n), aset key ((idx + 1) mod n) rr).

Definition sticky_match (st : route_state) (pool : list ServiceRef) (affinity : option str)
    : option ServiceRef :=
  if decide (lb_strategy st = Sticky)
  then match affinity with Some a => find_affinity_match pool (clients st) a | None => None end
  else None.

(** The member chosen from a pool that is not empty. *)
Definition choose (st : route_state) (pool : list ServiceRef) (key : RouteGroupKey)
    (requirement : option SelectionRequirement) (affinity : option str)
    : option ServiceRef * list (RouteGroupKey * Z) :=
  match requirement with
  | Some (ReqClient _) => (head pool, path_rr st)
  | _ => match sticky_match st pool affinity with
         | Some previous => (Some previous, path_rr st)
         | None => rotate pool key (path_rr st)
         end
  end.

(** The pool a request is dispatched from, with its group; [inl] is an early
    return. *)
Definition dispatch_pool (st : route_state) (now : Z) (uri_path : str) (request_host : option str)
    (requirement : option SelectionRequirement) (visitor_ip : option ipaddr)
    (canary : option (str * Side)) : PickOutcome + (list ServiceRef * RouteGroupKey) :=
  match select_client_pool (clients st) uri_path request_host now (client_down_threshold st) with
  | None => inl NoRoute
  | Some (pool, group_key) =>
      match filter_pool_by_ip pool (clients st) visitor_ip with
      | IpDenied redirect => inl (PickDenied redirect)
      | Allowed pool =>
          let pool := apply_lb_strategy pool (clients st) (lb_strategy st) in
          let pool := narrow_pool (clients st) pool requirement canary in
          match pool with
          | [] => inl NoRoute
          | _ => inr (pool, group_key)
          end
      end
  end.

(** [pick_proxy_client] up to the chosen member. *)
Definition pick_ref (st : route_state) (now : Z) (uri_path : str) (request_host : option str)
    (requirement : option SelectionRequirement) (affinity : option str) (visitor_ip : option ipaddr)
    (canary : option (str * Side))
    : PickOutcome + (option ServiceRef * list (RouteGroupKey * Z)) :=
  match dispatch_pool st now uri_path request_host requirement visitor_ip canary with
  | inl outcome => inl outcome
  | inr (pool, group_key) => inr (choose st pool group_key requirement affinity)
  end.

Definition with_rr (st : route_state) (rr : list (RouteGroupKey * Z)) : route_state :=
  {| clients := clients st; client_down_threshold := client_down_threshold st;
     lb_strategy := lb_strategy st; path_rr := rr |}.

Definition pick_proxy_client (st : route_state) (now : Z) (uri_path : str) (request_host : option str)
    (requirement : option SelectionRequirement) (affinity : option str) (visitor_ip : option ipaddr)
    (canary : option (str * Side)) : PickOutcome * route_state :=
  match pick_ref st now uri_path request_host requirement affinity visitor_ip canary with
  | inl outcome => (outcome, st)
  | inr (chosen, rr) =>
      let outcome :=
        match chosen with
        | Some r => match ref_connection r (clients st), ref_get r (clients st) with
                    | Some c, Some svc => Selected (selected_of r c svc)
                    | _, _ => NoRoute
                    end
        | None => NoRoute
        end in
      (outcome, with_rr st rr)
  end.

Definition route_exists (st : route_state) (now : Z) (uri_path : str) (request_host : option str)
    (visitor_ip : option ipaddr) : bool :=
  match select_client_pool (clients st) uri_path request_host now (client_down_threshold st) with
  | None => false
  | Some (pool, _) =>
      match filter_pool_by_ip pool (clients st) visitor_ip with
      | IpDenied _ => true
      | Allowed pool =>
          match apply_lb_strategy pool (clients st) (lb_strategy st) with [] => false | _ => true end
      end
  end.

Definition route_declaration_pending (st : route_state) (now : Z) : bool :=
  existsb (fun idc => awaiting_declaration idc.2 && is_healthy idc.2 now (client_down_threshold st))
    (clients st).

Definition route_is_public (st : route_state) (now : Z) (uri_path : str) (request_host : option str)
    : bool :=
  if request_path_has_traversal uri_path then false
  else match select_client_pool (clients st) uri_path request_host now (client_down_threshold st) with
       | None => false
       | Some (pool, _) =>
           match pool with
           | [] => false
           | _ => forallb (fun r => match ref_get r (clients st) with
                                    | Some s => public s | None => false end) pool
           end
       end.

(** ** What routing promises *)

Section Route.
Context (cs : client_map) (now thr : Z) (uri_path : str) (host : option str).

(** A service that may be routed to at all. *)
Definition candidate (r : ServiceRef) (s : ServiceState) : Prop :=
  ∃ c, aget (client r) cs = Some c ∧ services c !! index r = Some s
       ∧ is_healthy c now thr = true ∧ draining c = false ∧ service_eligible s = true.

(** Hostname stage: the services of the request's host, or, when nothing
    claims the host, the ones that asked for every such host. *)
Definition in_host_pool (hk : option str) (r : ServiceRef) (s : ServiceState) : Prop :=
  candidate r s ∧ match hk with Some h => matches_host s h = true | None => catch_all s = true end.

Definition host_key_ok (hk : option str) : Prop :=
  match hk with
  | Some h => host = Some h ∧ ∃ r s, candidate r s ∧ matches_host s h = true
  | None => ∀ h r s, host = Some h → candidate r s → matches_host s h = false
  end.

(** Path stage: the services bound to exactly the longest bind that matches,
    or, when none does, the ones without a bind. *)
Definition in_route (key : RouteGroupKey) (r : ServiceRef) (s : ServiceState) : Prop :=
  in_host_pool key.1 r s ∧ effective_path_bind s = key.2.

Definition path_key_ok (key : RouteGroupKey) : Prop :=
  match key.2 with
  | Some b => path_matches_bind uri_path b = true ∧ (∃ r s, in_route key r s)
              ∧ ∀ r s b', in_host_pool key.1 r s → effective_path_bind s = Some b' →
                  path_matches_bind uri_path b' = true → (length b' <= length b)%nat
  | None => ∀ r s b', in_host_pool key.1 r s → effective_path_bind s = Some b' →
              path_matches_bind uri_path b' = false
  end.

Definition route_key (key : RouteGroupKey) : Prop := host_key_ok key.1 ∧ path_key_ok key.

(** Ejected services are left out unless that would leave nobody. *)
Definition in_pool (key : RouteGroupKey) (r : ServiceRef) : Prop :=
  ∃ s, in_route key r s ∧
       (is_ejected s now = false ∨ ∀ r' s', in_route key r' s' → is_ejected s' now = true).

Lemma candidate_get r s : candidate r s → ref_get r cs = Some s.
Proof. intros (c & Hc & Hs & _). unfold ref_get. by rewrite Hc. Qed.

Lemma in_route_get key r s : in_route key r s → ref_get r cs = Some s.
Proof. intros [[H _] _]. by apply candidate_get. Qed.

Lemma elem_of_connection_refs idc r s :
  (r, s) ∈ connection_refs idc ↔ client r = idc.1 ∧ services idc.2 !! index r = Some s.
Proof.
  unfold connection_refs. rewrite elem_of_lookup_imap. split.
  - intros (i & s' & [= -> ->] & Hi). done.
  - intros [Hc Hs]. exists (index r), s. split; [|done]. destruct r. simpl in *. by subst.
Qed.

Hypothesis Hnd : NoDup (keys cs).

Lemma elem_of_eligible r s : (r, s) ∈ eligible cs now thr ↔ candidate r s.
Proof.
  unfold eligible, candidate. rewrite list_elem_of_filter, elem_of_concat_fmap. simpl. split.
  - intros (He & [id c] & Hin & Hr). apply list_elem_of_filter in Hin as [Hh Hin].
    apply elem_of_connection_refs in Hr as [Hc Hs]. simpl in *. to_prop.
    exists c. split_and!; try done. rewrite Hc. by apply aget_elem.
  - intros (c & Hc & Hs & Hh & Hd & He). split; [done|]. exists (client r, c).
    rewrite list_elem_of_filter, elem_of_connection_refs. simpl. rewrite Hh, Hd.
    split_and!; try done. by apply aget_Some_elem.
Qed.

Lemma NoDup_connection_refs l : NoDup (keys l) → NoDup ((concat (connection_refs <$> l)).*1).
Proof.
  induction l as [|[id c] l IH]; simpl; [constructor|]. intros [Hni Hl]%NoDup_cons.
  rewrite fmap_app. apply NoDup_app. split_and!; [| |by apply IH].
  - unfold connection_refs. simpl. rewrite fmap_imap. clear.
    assert (H : ∀ ss k, NoDup (imap (fun i (_ : ServiceState) => {| client := id; index := (k + i)%nat |}) ss)).
    { induction ss as [|s ss IHs]; intros k; simpl; [constructor|]. apply NoDup_cons. split.
      - rewrite elem_of_lookup_imap. intros (i & y & [= Hk] & _). lia.
      - specialize (IHs (S k)). erewrite imap_ext; [exact IHs|].
        intros i x _. simpl. f_equal. lia. }
    specialize (H (services c) O). erewrite imap_ext; [exact H|]. done.
  - intros r Hr Hr'. apply list_elem_of_fmap in Hr as ([r1 s1] & -> & H1).
    apply list_elem_of_fmap in Hr' as ([r2 s2] & Heq & H2). simpl in *. subst r2.
    apply elem_of_connection_refs in H1 as [H1 _].
    apply elem_of_concat_fmap in H2 as ([id2 c2] & H2 & H3).
    apply elem_of_connection_refs in H3 as [H3 _]. simpl in *. apply Hni.
    apply list_elem_of_fmap. exists (id2, c2). split; [simpl; congruence|done].
Qed.

Lemma NoDup_eligible : NoDup ((eligible cs now thr).*1).
Proof.
  unfold eligible. eapply sublist_NoDup; [|apply fmap_sublist, sublist_filter].
  apply NoDup_connection_refs. unfold keys. eapply sublist_NoDup; [exact Hnd|].
  apply fmap_sublist, sublist_filter.
Qed.

Lemma host_stage_spec hp hk :
  host_stage (eligible cs now thr) host = (hp, hk) →
  host_key_ok hk ∧ NoDup hp.*1 ∧ ∀ r s, (r, s) ∈ hp ↔ in_host_pool hk r s.
Proof.
  unfold host_stage.
  set (hm := match host with Some h => _ | None => [] end).
  assert (Hm : ∀ r s, (r, s) ∈ hm ↔ ∃ h, host = Some h ∧ candidate r s ∧ matches_host s h = true).
  { intros r s. unfold hm. destruct host as [h|].
    - rewrite list_elem_of_filter, elem_of_eligible. simpl. naive_solver.
    - rewrite elem_of_nil. naive_solver. }
  destruct hm as [|[r0 s0] l] eqn:Ehm.
  - intros [= <- <-]. split_and!.
    + intros h r s Hh Hc. apply not_true_iff_false. intros Hmh.
      apply (not_elem_of_nil (r, s)), Hm. eauto.
    + eapply sublist_NoDup; [apply NoDup_eligible|apply fmap_sublist, sublist_filter].
    + intros r s. rewrite list_elem_of_filter, elem_of_eligible. unfold in_host_pool. simpl. tauto.
  - intros [= <- <-].
    destruct (proj1 (Hm r0 s0)) as (h & Hh & Hc & Hmh); [left|]. rewrite Hh. split_and!.
    + simpl. split; [done|]. eauto.
    + rewrite <- Ehm. unfold hm. rewrite Hh.
      eapply sublist_NoDup; [apply NoDup_eligible|apply fmap_sublist, sublist_filter].
    + intros r s. rewrite Hm. unfold in_host_pool. naive_solver.
Qed.

Lemma longest_of_spec (l : list str) (acc : str) :
  let m := fold_left (fun best b => if (length best <=? length b)%nat then b else best) l acc in
  (m = acc ∨ m ∈ l) ∧ (length acc <= length m)%nat ∧ ∀ b, b ∈ l → (length b <= length m)%nat.
Proof.
  revert acc. induction l as [|b l IH]; intros acc; simpl.
  - split_and!; [by left|lia|]. by intros b Hb%not_elem_of_nil.
  - destruct (IH (if (length acc <=? length b)%nat then b else acc)) as (Hin & Hacc & Hall).
    set (m := fold_left _ l _) in *. destruct (Nat.leb_spec (length acc) (length b)); split_and!.
    + right. destruct Hin as [->|Hin]; [left|by right].
    + lia.
    + intros x [->|Hx]%elem_of_cons; [lia|auto].
    + destruct Hin as [->|Hin]; [by left|right; by right].
    + lia.
    + intros x [->|Hx]%elem_of_cons; [lia|auto].
Qed.

Lemma elem_of_path_matched hp r b :
  (r, b) ∈ path_matched hp uri_path ↔
  ∃ s, (r, s) ∈ hp ∧ effective_path_bind s = Some b ∧ path_matches_bind uri_path b = true.
Proof.
  unfold path_matched. rewrite list_elem_of_omap. split.
  - intros ([r' s] & Hin & H). simpl in H.
    destruct (effective_path_bind s) as [b'|] eqn:Eb; [|done].
    destruct (path_matches_bind uri_path b') eqn:Em; [|done]. simplify_eq. eauto.
  - intros (s & Hin & Hb & Hm). exists (r, s). simpl. rewrite Hb, Hm. done.
Qed.

Lemma path_matched_sublist hp : (path_matched hp uri_path).*1 `sublist_of` hp.*1.
Proof.
  unfold path_matched. induction hp as [|[r s] hp IH]; simpl; [constructor|].
  destruct (effective_path_bind s) as [b|]; [|by constructor].
  destruct (path_matches_bind uri_path b); simpl; by constructor.
Qed.

Lemma path_stage_spec hp hk pool pk :
  NoDup hp.*1 → (∀ r s, (r, s) ∈ hp ↔ in_host_pool hk r s) →
  path_stage hp uri_path = (pool, pk) →
  path_key_ok (hk, pk) ∧ NoDup pool ∧ ∀ r, r ∈ pool ↔ ∃ s, in_route (hk, pk) r s.
Proof.
  intros Hhp Hpool. unfold path_stage.
  destruct (path_matched hp uri_path) as [|[r0 b0] l] eqn:Epm.
  - intros [= <- <-]. split_and!.
    + intros r s b Hin Hb. simpl in Hin. apply not_true_iff_false. intros Hm.
      apply (not_elem_of_nil (r, b)). rewrite <- Epm, elem_of_path_matched.
      exists s. by rewrite Hpool.
    + eapply sublist_NoDup; [exact Hhp|apply fmap_sublist, sublist_filter].
    + intros r. rewrite list_elem_of_fmap. unfold in_route. simpl. split.
      * intros ([r' s] & -> & [Hb Hin]%list_elem_of_filter). exists s. by rewrite <- Hpool.
      * intros (s & Hin & Hb). exists (r, s). rewrite list_elem_of_filter, Hpool. done.
  - rewrite <- Epm. intros [= <- <-]. set (m := path_matched hp uri_path).
    destruct (longest_of_spec m.*2 []) as (Hin & _ & Hall). cbv zeta in *.
    fold (longest_of m.*2) in Hin, Hall. set (b := longest_of m.*2) in *.
    assert (Hb : b ∈ m.*2).
    { destruct Hin as [Hb|?]; [|done]. assert (Hb0 : b0 ∈ m.*2).
      { unfold m. rewrite Epm. left. }
      specialize (Hall b0 Hb0). rewrite Hb in Hall. simpl in Hall.
      destruct b0; [by rewrite Hb|simpl in Hall; lia]. }
    apply list_elem_of_fmap in Hb as ([rb b'] & Hbeq & Hb). simpl in Hbeq. subst b'.
    unfold m in Hb. apply elem_of_path_matched in Hb as (sb & Hsb & Hbb & Hbm).
    split_and!.
    + simpl. split_and!; [done| |].
      * exists rb, sb. split; [by apply Hpool|done].
      * intros r s b' Hr Hb' Hm'. apply Hall. apply list_elem_of_fmap. exists (r, b').
        split; [done|]. apply elem_of_path_matched. exists s. by rewrite Hpool.
    + eapply sublist_NoDup; [exact Hhp|]. etrans; [apply fmap_sublist, sublist_filter|].
      apply path_matched_sublist.
    + intros r. rewrite list_elem_of_fmap. unfold in_route. simpl. split.
      * intros ([r' b'] & -> & [Hbb' Hr]%list_elem_of_filter). simpl in Hbb'. subst b'.
        apply elem_of_path_matched in Hr as (s & Hr & Hs & _). exists s. by rewrite <- Hpool.
      * intros (s & Hr & Hs). exists (r, b). rewrite list_elem_of_filter. split_and!; [done|done|].
        apply elem_of_path_matched. exists s. by rewrite Hpool.
Qed.
End Route.

(** Two binds of one length that match one path are the same bind. *)
Lemma path_matches_same_length u b b' :
  path_matches_bind u b = true → path_matches_bind u b' = true → length b = length b' → b = b'.
Proof.
  intros Hb Hb' Hl.
  assert (Hp : ∀ b, path_matches_bind u b = true → ∃ t, u = b ++ t).
  { intros c [->|[r ->]]%path_matches_bind_spec; [exists []; by rewrite app_nil_r|eauto]. }
  destruct (Hp b Hb) as [t Ht], (Hp b' Hb') as [t' Ht'].
  rewrite Ht in Ht'. by apply app_inj_1 in Ht' as [? _].
Qed.

(** The group key of a request is determined. *)
Lemma route_key_unique cs now thr u host key key' :
  route_key cs now thr u host key → route_key cs now thr u host key' → key = key'.
Proof.
  destruct key as [hk pk], key' as [hk' pk']. intros [Hk Hpk] [Hk' Hpk']. simpl in *.
  assert (hk = hk') as <-.
  { destruct hk' as [h'|], hk as [h|]; simpl in Hk, Hk'.
    - destruct Hk, Hk'. congruence.
    - destruct Hk' as [Hh (r & s & Hc & Hm)]. by rewrite (Hk h' r s Hh Hc) in Hm.
    - destruct Hk as [Hh (r & s & Hc & Hm)]. by rewrite (Hk' h r s Hh Hc) in Hm.
    - done. }
  f_equal. unfold path_key_ok in Hpk, Hpk'. simpl in Hpk, Hpk'. destruct pk' as [b'|], pk as [b|].
  - destruct Hpk as (Hm & (r1 & s1 & [H1 H1b]) & Hmax), Hpk' as (Hm' & (r2 & s2 & [H2 H2b]) & Hmax').
    f_equal. apply (path_matches_same_length u); try done.
    pose proof (Hmax r2 s2 b' H2 H2b Hm'). pose proof (Hmax' r1 s1 b H1 H1b Hm). lia.
  - destruct Hpk' as (Hm & (r1 & s1 & [H1 H1b]) & _). by rewrite (Hpk r1 s1 b' H1 H1b) in Hm.
  - destruct Hpk as (Hm & (r1 & s1 & [H1 H1b]) & _). by rewrite (Hpk' r1 s1 b H1 H1b) in Hm.
  - done.
Qed.

Lemma pool_exact cs now thr u host pool key :
  NoDup (keys cs) →
  select_client_pool cs u host now thr = Some (pool, key) →
  route_key cs now thr u host key ∧ NoDup pool ∧ pool ≠ []
  ∧ ∀ r, r ∈ pool ↔ in_pool cs now thr key r.
Proof.
  intros Hnd. unfold select_client_pool.
  destruct (host_stage _ _) as [hp hk] eqn:Eh.
  destruct (host_stage_spec cs now thr host Hnd hp hk Eh) as (Hhk & Hhp & Hin).
  destruct hp as [|p0 hp']; [done|]. set (hp := p0 :: hp') in *.
  destruct (path_stage hp u) as [pool0 pk] eqn:Ep.
  destruct (path_stage_spec cs now thr u hp hk pool0 pk Hhp Hin Ep) as (Hpk & Hp0 & Hr).
  set (live := filter _ pool0).
  assert (Hlive : ∀ r, r ∈ live ↔ ∃ s, in_route cs now thr (hk, pk) r s ∧ is_ejected s now = false).
  { intros r. unfold live. rewrite list_elem_of_filter, Hr. unfold not_ejected. split.
    - intros [He (s & Hs)]. exists s. rewrite (in_route_get _ _ _ _ _ _ Hs) in He. to_prop. done.
    - intros (s & Hs & He). rewrite (in_route_get _ _ _ _ _ _ Hs), He. eauto. }
  destruct live as [|r0 live'] eqn:El.
  - destruct pool0 as [|r0 pool0']; [done|]. intros [= <- <-].
    split_and!; [by split|done|done|]. intros r. rewrite Hr. unfold in_pool.
    assert (Hall : ∀ r' s', in_route cs now thr (hk, pk) r' s' → is_ejected s' now = true).
    { intros r' s' Hs'. apply not_false_iff_true. intros He.
      apply (not_elem_of_nil r'), Hlive. eauto. }
    naive_solver.
  - intros [= <- <-]. split_and!; [by split| |done|].
    + rewrite <- El. unfold live. by apply NoDup_filter.
    + intros r. rewrite Hlive. unfold in_pool. split; [naive_solver|].
      intros (s & Hs & [He|Hall]); [eauto|].
      destruct (proj1 (Hlive r0)) as (s0 & Hs0 & He0); [left|].
      rewrite (Hall r0 s0 Hs0) in He0. done.
Qed.

Lemma pool_none cs now thr u host key :
  NoDup (keys cs) → select_client_pool cs u host now thr = None →
  route_key cs now thr u host key → ∀ r s, ¬ in_route cs now thr key r s.
Proof.
  intros Hnd. unfold select_client_pool.
  destruct (host_stage _ _) as [hp hk] eqn:Eh.
  destruct (host_stage_spec cs now thr host Hnd hp hk Eh) as (Hhk & Hhp & Hin).
  intros Hsel Hkey r s Hs. destruct (path_stage hp u) as [pool0 pk] eqn:Ep.
  destruct (path_stage_spec cs now thr u hp hk pool0 pk Hhp Hin Ep) as (Hpk & _ & Hr).
  assert (key = (hk, pk)) as -> by (eapply route_key_unique; [done|by split]).
  destruct hp as [|p0 hp']; [by apply (not_elem_of_nil (r, s)), Hin; destruct Hs|].
  assert (Hrin : r ∈ pool0) by (apply Hr; eauto).
  destruct (filter _ pool0); [destruct pool0; [by apply not_elem_of_nil in Hrin|done]|done].
Qed.

(** C4: Routing chooses the right pool for a hostname that is claimed. When some
    routable service (healthy connection, not draining, backend up, enabled, not refused)
    claims the request's host, the pool is of that host: it is not empty, holds each
    service once, and consists of exactly the routable services that claim the host and
    are bound to the longest path bind that matches, or of the unbound ones when none
    does; ejected services are in it only when every service of the route is ejected. No
    pool means that no routable service of the host covers the path. *)
Theorem select_client_pool_exact cs now thr u h :
  NoDup (keys cs) → (∃ r s, candidate cs now thr r s ∧ matches_host s h = true) →
  match select_client_pool cs u (Some h) now thr with
  | Some (pool, key) =>
      key.1 = Some h ∧ route_key cs now thr u (Some h) key ∧ NoDup pool ∧ pool ≠ []
      ∧ ∀ r, r ∈ pool ↔ in_pool cs now thr key r
  | None => ∀ key r s, route_key cs now thr u (Some h) key → ¬ in_route cs now thr key r s
  end.
Proof.
  intros Hnd (r0 & s0 & Hc0 & Hm0). destruct (select_client_pool cs u (Some h) now thr) as [[pool key]|] eqn:E.
  - destruct (pool_exact cs now thr u (Some h) pool key Hnd E) as (Hk & H). split; [|by split].
    destruct key as [[k|] pk], Hk as [Hk _]; cbn [fst host_key_ok] in *; [by destruct Hk as [[= ->] _]|].
    by rewrite (Hk h r0 s0 eq_refl Hc0) in Hm0.
  - intros key r s Hk. by eapply pool_none.
Qed.

(** A connection carrying two services on one host, one below [/api]. *)
Definition sample_service (path : option str) (name : str) : ServiceState :=
  {| request_count := 0; declared_path := path; assigned_path := None;
     declared_hostname := Some (bs "acme.com"); declared_hostnames := []; assigned_hostnames := [];
     random_hostname := None; max_concurrent := None; max_concurrent_ceiling := None;
     inflight_limiter := None; admin_enabled := true; server_side_target := None;
     server_side_refused := None; policy_conflict := None; catch_all := false;
     serves_http := true; route_noticed := false; capture := true; connections := None;
     connections_min := None; connections_max := None; config_notes := [];
     metrics_labels := []; tcp_enabled := false; backend_healthy := true;
     backend_probed := true; priority := 0; bandwidth_bps := 0; service_name := Some name;
     service_custom_name := None; public := true; public_denied_warned := false;
     visitor_auth := None; visitor_auth_policy := None; visitor_auth_denied_warned := false;
     ungated_warned := false; allowed_ips := []; allowed_ips_invalid_warned := false;
     scaling_invalid_warned := false; tunnels := []; cache := false;
     cache_ignored_warned := false; notices_sent := []; resilience := false;
     max_request_body := None; response_timeout := None; webhook_inbox := false;
     denied := None; recent_failures := []; ejected_until := None |}.

Definition sample_connection (svcs : list ServiceState) : ClientHandle :=
  {| tx := 1; connected_at := 0; client_ip := bs "192.0.2.1"; last_ping_at := Some 5;
     perms := master_perms; draining := false; declared_client_id := None; declared_name := None;
     drain_secs := None; client_version := None; client_protocol := None; rss_bytes := None;
     rtt_ms := None; jitter_ms := None; reconnects := None; reported_instance_id := None;
     instance_group := None; subscriptions := []; services := svcs |}.

Definition sample_clients : client_map :=
  [(bs "c1", sample_connection [sample_service None (bs "web"); sample_service (Some (bs "/api")) (bs "api")]);
   (bs "c2", sample_connection [sample_service (Some (bs "/api")) (bs "api")])].

Lemma select_client_pool_exact_witness :
  in_pool sample_clients 10 30 (Some (bs "acme.com"), Some (bs "/api")) {| client := bs "c2"; index := 0 |}.
Proof.
  pose proof (select_client_pool_exact sample_clients 10 30 (bs "/api/v1") (bs "acme.com")) as H.
  assert (E : select_client_pool sample_clients (bs "/api/v1") (Some (bs "acme.com")) 10 30
              = Some ([{| client := bs "c1"; index := 1 |}; {| client := bs "c2"; index := 0 |}],
                      (Some (bs "acme.com"), Some (bs "/api")))) by (vm_compute; reflexivity).
  rewrite E in H. destruct H as (_ & _ & _ & _ & H); [by apply (bool_decide_unpack _)| |].
  - exists {| client := bs "c2"; index := 0 |}, (sample_service (Some (bs "/api")) (bs "api")). split; [|vm_compute; reflexivity].
    exists (sample_connection [sample_service (Some (bs "/api")) (bs "api")]). split_and!; vm_compute; reflexivity.
  - apply H. right. left.
Defined.

Lemma route_key_ext cs cs' now thr u host key :
  (∀ r s, candidate cs now thr r s ↔ candidate cs' now thr r s) →
  route_key cs now thr u host key → route_key cs' now thr u host key.
Proof.
  intros Hc. destruct key as [[h|] [b|]];
    unfold route_key, host_key_ok, path_key_ok, in_route, in_host_pool; simpl;
    by setoid_rewrite Hc.
Qed.

(** The answer does not depend on the order the client table is read in:
    every order gives the same group key and the same members. *)
Theorem select_pool_order_independent cs cs' now thr u host :
  NoDup (keys cs) → cs ≡ₚ cs' →
  match select_client_pool cs u host now thr, select_client_pool cs' u host now thr with
  | Some (pool, key), Some (pool', key') => pool ≡ₚ pool' ∧ key = key'
  | None, None => True
  | _, _ => False
  end.
Proof.
  intros Hnd Hp. assert (Hnd' : NoDup (keys cs')) by (unfold keys in *; by rewrite <- Hp).
  assert (Hget : ∀ k, aget k cs = aget k cs') by (intros k; by apply aget_perm).
  assert (Hcand : ∀ r s, candidate cs now thr r s ↔ candidate cs' now thr r s)
    by (intros r s; unfold candidate; by rewrite Hget).
  assert (Hc : ∀ key r s, in_route cs now thr key r s ↔ in_route cs' now thr key r s)
    by (intros key r s; unfold in_route, in_host_pool; by rewrite Hcand).
  pose proof (fun key => route_key_ext cs cs' now thr u host key Hcand) as Hk.
  destruct (select_client_pool cs u host now thr) as [[pool key]|] eqn:E,
    (select_client_pool cs' u host now thr) as [[pool' key']|] eqn:E'.
  - apply pool_exact in E as (HK & HN & _ & Hin); [|done].
    apply pool_exact in E' as (HK' & HN' & _ & Hin'); [|done].
    assert (key = key') as <- by (eapply route_key_unique; [by apply Hk|done]).
    split; [|done]. apply NoDup_Permutation; [done..|]. intros r.
    rewrite Hin, Hin'. unfold in_pool. by setoid_rewrite Hc.
  - apply pool_exact in E as (HK & _ & Hne & Hin); [|done]. destruct pool as [|r pool]; [done|].
    destruct (proj1 (Hin r)) as (s & Hs & _); [left|].
    eapply pool_none; [| |by apply Hk|by apply Hc]; done.
  - apply pool_exact in E' as (HK & _ & Hne & Hin); [|done]. destruct pool' as [|r pool']; [done|].
    destruct (proj1 (Hin r)) as (s & Hs & _); [left|].
    eapply (pool_none cs); [done|done| |by apply Hc].
    eapply route_key_ext; [|exact HK]. intros. by rewrite Hcand.
  - done.
Qed.

Lemma select_pool_order_independent_witness :
  ∃ pool, select_client_pool (rev sample_clients) (bs "/api/v1") (Some (bs "acme.com")) 10 30
          = Some (pool, (Some (bs "acme.com"), Some (bs "/api"))) ∧ length pool = 2%nat.
Proof.
  pose proof (select_pool_order_independent sample_clients (rev sample_clients) 10 30
                (bs "/api/v1") (Some (bs "acme.com"))) as H.
  destruct (select_client_pool (rev sample_clients) (bs "/api/v1") (Some (bs "acme.com")) 10 30)
    as [[pool key]|].
  - exists pool. destruct H as [Hp Hk]; [by apply (bool_decide_unpack _)|apply Permutation_rev|].
    split; [by rewrite <- Hk|]. by rewrite <- Hp.
  - exfalso. apply H; [by apply (bool_decide_unpack _)|apply Permutation_rev].
Defined.

(** ** Picking one *)

Lemma min_priority_spec l :
  l ≠ [] → min_priority l ∈ l ∧ ∀ p, p ∈ l → min_priority l <= p.
Proof.
  destruct l as [|a l]; [done|]. intros _. simpl. revert a.
  induction l as [|b l IH]; intros a; simpl.
  - split; [by left|]. intros p Hp. apply list_elem_of_singleton in Hp. lia.
  - destruct (IH (Z.min a b)) as [Hin Hle]. split.
    + apply elem_of_cons in Hin as [Hin|Hin]; [|right; by right]. rewrite Hin.
      destruct (Z.min_spec a b) as [[_ ->]|[_ ->]]; [left|right; left].
    + pose proof (Hle (Z.min a b)) as Hm. intros p Hp.
      assert (fold_left Z.min l (Z.min a b) <= Z.min a b) by (apply Hm; left).
      apply elem_of_cons in Hp as [->|Hp]; [lia|]. apply elem_of_cons in Hp as [->|Hp]; [lia|].
      apply Hle. by right.
Qed.

Section Pick.
Context (cs : client_map).

(** Every member resolves to a service. *)
Definition resolvable (pool : list ServiceRef) : Prop := ∀ r, r ∈ pool → is_Some (ref_get r cs).

Lemma filter_pool_allowed pool ip pool' :
  filter_pool_by_ip pool cs ip = Allowed pool' → pool ≠ [] →
  pool' ≠ [] ∧ ∀ r, r ∈ pool' ↔ r ∈ pool ∧ ∀ a, ip = Some a → admits_ip cs a r = true.
Proof.
  unfold filter_pool_by_ip. destruct ip as [a|].
  - destruct (filter (fun r => admits_ip cs a r = true) pool) as [|r0 l] eqn:E; [done|].
    intros [= <-] _. split; [done|]. intros r. rewrite <- E, list_elem_of_filter. naive_solver.
  - intros [= <-] Hne. naive_solver.
Qed.

Lemma filter_pool_denied pool ip redirect :
  filter_pool_by_ip pool cs ip = IpDenied redirect →
  ∃ a, ip = Some a ∧ ∀ r, r ∈ pool → admits_ip cs a r = false.
Proof.
  unfold filter_pool_by_ip. destruct ip as [a|]; [|done].
  destruct (filter (fun r => admits_ip cs a r = true) pool) as [|r0 l] eqn:E; [|done].
  intros _. exists a. split; [done|]. intros r Hr. apply not_true_iff_false. intros Ha.
  by apply (filter_nil_not_elem_of (fun r => admits_ip cs a r = true) pool r E Ha).
Qed.

Lemma apply_lb_sub pool strategy r : r ∈ apply_lb_strategy pool cs strategy → r ∈ pool.
Proof. destruct strategy; simpl; [done| |done]. by intros [_ ?]%list_elem_of_filter. Qed.

Lemma apply_lb_spec pool strategy :
  resolvable pool → pool ≠ [] →
  let pool' := apply_lb_strategy pool cs strategy in
  pool' ≠ [] ∧ (∀ r, r ∈ pool' → r ∈ pool)
  ∧ (strategy = PrimaryStandby → ∀ r r' s s', r ∈ pool' → r' ∈ pool →
       ref_get r cs = Some s → ref_get r' cs = Some s' → priority s <= priority s').
Proof.
  intros Hres Hne. destruct strategy; simpl; [done| |done].
  set (ps := priority <$> omap (fun r => ref_get r cs) pool).
  assert (Hps : ∀ r s, r ∈ pool → ref_get r cs = Some s → priority s ∈ ps).
  { intros r s Hr Hs. apply list_elem_of_fmap. exists s. split; [done|].
    apply list_elem_of_omap. eauto. }
  assert (Hpne : ps ≠ []).
  { destruct pool as [|r pool]; [done|]. destruct (Hres r) as [s Hs]; [left|].
    intros He. specialize (Hps r s ltac:(left) Hs). rewrite He in Hps.
    by apply not_elem_of_nil in Hps. }
  destruct (min_priority_spec ps Hpne) as [Hmin Hle].
  split_and!.
  - apply list_elem_of_fmap in Hmin as (s & Hm & Hs). apply list_elem_of_omap in Hs as (r & Hr & Hs).
    intros He. refine (filter_nil_not_elem_of _ _ r He _ Hr). simpl.
    rewrite Hs, Hm. apply Z.eqb_refl.
  - intros r. apply (apply_lb_sub pool PrimaryStandby).
  - intros _ r r' s s' [Hp Hr]%list_elem_of_filter Hr' Hs Hs'. rewrite Hs in Hp. to_prop.
    rewrite Hp. apply Hle. by eapply Hps.
Qed.

Lemma narrow_to_side_sub pool split r : r ∈ narrow_to_side pool cs split → r ∈ pool.
Proof. by intros [_ ?]%list_elem_of_filter. Qed.

Lemma narrow_pool_spec pool req canary r :
  r ∈ narrow_pool cs pool req canary →
  r ∈ pool ∧ match req with
             | Some (ReqClient id) => client r = id
             | Some (ReqInstance i) => ∃ c, ref_connection r cs = Some c
                                            ∧ reported_instance_id c = Some i
             | None => True
             end.
Proof.
  assert (Hc : ∀ pool0, r ∈ match canary with
      | Some side => match narrow_to_side pool0 cs side with [] => pool0 | n => n end
      | None => pool0 end → r ∈ pool0).
  { intros pool0. destruct canary as [side|]; [|done].
    destruct (narrow_to_side pool0 cs side) eqn:E; [done|].
    rewrite <- E. apply narrow_to_side_sub. }
  unfold narrow_pool. destruct req as [[id|i]|].
  - intros H%Hc. by apply list_elem_of_filter in H as [? ?].
  - intros [Hi H%Hc]%list_elem_of_filter. split; [done|].
    destruct (ref_connection r cs) as [c|]; [|done]. to_prop. eauto.
  - intros H%Hc. done.
Qed.

Lemma narrow_pool_none pool canary : pool ≠ [] → narrow_pool cs pool None canary ≠ [].
Proof.
  intros Hne. unfold narrow_pool. destruct canary as [side|]; [|done].
  by destruct (narrow_to_side pool cs side).
Qed.

Lemma rotate_spec pool key rr :
  pool ≠ [] → ∃ r, (rotate pool key rr).1 = Some r ∧ r ∈ pool.
Proof.
  intros Hne. unfold rotate. simpl.
  destruct (lookup_lt_is_Some_2 pool (Z.to_nat (default 0 (aget key rr) mod Z.of_nat (length pool))))
    as [r Hr]; [|exists r; split; [done|by eapply list_elem_of_lookup_2]].
  assert (length pool ≠ 0%nat) by (by destruct pool).
  pose proof (Z.mod_pos_bound (default 0 (aget key rr)) (Z.of_nat (length pool))). lia.
Qed.
End Pick.

Lemma choose_spec st pool key req aff :
  pool ≠ [] → ∃ r, (choose st pool key req aff).1 = Some r ∧ r ∈ pool.
Proof.
  intros Hne. unfold choose.
  assert (Hrot : ∃ r, (rotate pool key (path_rr st)).1 = Some r ∧ r ∈ pool) by by apply rotate_spec.
  assert (Hst : ∀ r, sticky_match st pool aff = Some r → r ∈ pool).
  { intros r. unfold sticky_match. case_decide; [|done]. destruct aff as [a|]; [|done].
    unfold find_affinity_match. intros Hf. apply find_some in Hf as [Hf _].
    by apply list_elem_of_In. }
  destruct req as [[id|i]|].
  - destruct pool as [|r pool]; [done|]. exists r. split; [done|left].
  - destruct (sticky_match st pool aff) as [r|] eqn:E; [|done]. exists r. auto.
  - destruct (sticky_match st pool aff) as [r|] eqn:E; [|done]. exists r. auto.
Qed.

Lemma in_pool_get cs now thr key r : in_pool cs now thr key r → ∃ s, ref_get r cs = Some s.
Proof. intros (s & Hs & _). exists s. by eapply in_route_get. Qed.

Lemma ref_get_connection r cs s : ref_get r cs = Some s → ∃ c, ref_connection r cs = Some c.
Proof. unfold ref_get, ref_connection. destruct (aget (client r) cs); [eauto|done]. Qed.

(** C6: A pick is sound and never misses. A selected target is a service of the
    pool of the request, on a connection of its own, whose address list admits
    the visitor, of the most primary tier among those under primary/standby,
    and on the required connection or process; a denial means every service of
    the route refuses the visitor's address; and without a requirement the
    answer is "no route" only when no service serves the route. Only the
    rotation cursors change. *)
Theorem pick_proxy_client_sound st now u host req aff ip canary :
  NoDup (keys (clients st)) →
  let thr := client_down_threshold st in
  let '(outcome, st') := pick_proxy_client st now u host req aff ip canary in
  st' = with_rr st (path_rr st') ∧
  match outcome with
  | Selected sc =>
      ∃ key r c s, route_key (clients st) now thr u host key ∧ in_pool (clients st) now thr key r
        ∧ ref_connection r (clients st) = Some c ∧ ref_get r (clients st) = Some s
        ∧ sc = selected_of r c s
        ∧ (∀ a, ip = Some a → admits_ip (clients st) a r = true)
        ∧ (lb_strategy st = PrimaryStandby → ∀ r' s', in_pool (clients st) now thr key r' →
             ref_get r' (clients st) = Some s' →
             (∀ a, ip = Some a → admits_ip (clients st) a r' = true) → priority s <= priority s')
        ∧ match req with
          | Some (ReqClient id) => sel_id sc = id
          | Some (ReqInstance i) => sel_instance_id sc = Some i
          | None => True
          end
  | PickDenied _ =>
      ∃ a key, ip = Some a ∧ route_key (clients st) now thr u host key
        ∧ (∃ r, in_pool (clients st) now thr key r)
        ∧ ∀ r, in_pool (clients st) now thr key r → admits_ip (clients st) a r = false
  | NoRoute =>
      req = None → ∀ key r s, route_key (clients st) now thr u host key →
        ¬ in_route (clients st) now thr key r s
  end.
Proof.
  intros Hnd thr. unfold pick_proxy_client, pick_ref, dispatch_pool. fold thr.
  assert (Hst : st = with_rr st (path_rr st)) by by destruct st.
  destruct (select_client_pool (clients st) u host now thr) as [[pool key]|] eqn:Es.
  2:{ split; [done|]. intros _ key r s Hk. by eapply pool_none. }
  apply pool_exact in Es as (Hkey & _ & Hne & Hin); [|done].
  destruct (filter_pool_by_ip pool (clients st) ip) as [pool1|redirect] eqn:Ef.
  2:{ split; [done|]. apply filter_pool_denied in Ef as (a & -> & Ha). exists a, key.
      split_and!; [done|done| |].
      - destruct pool as [|r pool]; [done|]. exists r. apply Hin. left.
      - intros r Hr. by apply Ha, Hin. }
  apply filter_pool_allowed in Ef as [Hne1 Hin1]; [|done].
  assert (Hres : resolvable (clients st) pool1).
  { intros r [Hr _]%Hin1. apply Hin, in_pool_get in Hr as [s Hs]. eauto. }
  destruct (apply_lb_spec (clients st) pool1 (lb_strategy st) Hres Hne1) as (Hne2 & Hsub2 & Hprio).
  set (pool2 := apply_lb_strategy pool1 (clients st) (lb_strategy st)) in *.
  pose proof (narrow_pool_spec (clients st) pool2 req canary) as Hnar.
  pose proof (narrow_pool_none (clients st) pool2 canary Hne2) as Hnone.
  set (pool3 := narrow_pool (clients st) pool2 req canary) in *.
  destruct pool3 as [|r3 l3] eqn:E3; [split; [done|]; intros ->; by rewrite <- E3 in Hnone|].
  rewrite <- E3 in *.
  destruct (choose_spec st pool3 key req aff) as (r & Hch & Hr3); [by rewrite E3|].
  destruct (choose st pool3 key req aff) as [chosen rr]. simpl in Hch. subst chosen.
  destruct (Hnar r Hr3) as [Hr2 Hreq]. pose proof (Hsub2 r Hr2) as Hr1.
  destruct (proj1 (Hin1 r) Hr1) as [Hrp Hip]. apply Hin in Hrp.
  destruct (in_pool_get _ _ _ _ _ Hrp) as [s Hs]. destruct (ref_get_connection _ _ _ Hs) as [c Hc].
  rewrite Hc, Hs. split; [done|]. exists key, r, c, s. split_and!; try done.
  - intros Hlb r' s' Hr' Hs' Hip'. eapply (Hprio Hlb r r'); try done.
    apply Hin1. split; [by apply Hin|done].
  - destruct req as [[id|i]|]; [done| |done]. destruct Hreq as (c' & Hc' & Hi). simpl. congruence.
Qed.

Definition sample_state : route_state :=
  {| clients := sample_clients; client_down_threshold := 30; lb_strategy := RoundRobin; path_rr := [] |}.

Lemma pick_proxy_client_sound_witness :
  ∃ sc, (pick_proxy_client sample_state 10 (bs "/api/v1") (Some (bs "acme.com")) None None None None).1
        = Selected sc ∧ sel_service_name sc = Some (bs "api").
Proof.
  pose proof (pick_proxy_client_sound sample_state 10 (bs "/api/v1") (Some (bs "acme.com"))
                None None None None ltac:(by apply (bool_decide_unpack _))) as H. cbv zeta in H.
  destruct (pick_proxy_client _ _ _ _ _ _ _ _) as [o st'] eqn:E. destruct H as [_ H].
  vm_compute in E. injection E as <- _. eexists. split; reflexivity.
Defined.

(** ** Rotation *)

(** [k] requests for one route in a row. *)
Fixpoint picks (k : nat) (st : route_state) (now : Z) (u : str) (host : option str)
    (ip : option ipaddr) (canary : option (str * Side)) : list (option ServiceRef) :=
  match k with
  | O => []
  | S k' =>
      match pick_ref st now u host None None ip canary with
      | inl _ => []
      | inr (r, rr) => r :: picks k' (with_rr st rr) now u host ip canary
      end
  end.

Lemma picks_rotate k st now u host ip canary pool key :
  dispatch_pool st now u host None ip canary = inr (pool, key) → pool ≠ [] →
  picks k st now u host ip canary =
  (fun i => pool !! Z.to_nat ((default 0 (aget key (path_rr st)) + Z.of_nat i) mod Z.of_nat (length pool)))
    <$> seq 0 k.
Proof.
  intros Hd Hne. assert (Hn : length pool ≠ 0%nat) by (by destruct pool).
  revert st Hd. induction k as [|k IH]; intros st Hd; [done|]. cbn [picks seq].
  unfold pick_ref. rewrite Hd. unfold choose, sticky_match.
  replace (if decide _ then _ else _) with (@None ServiceRef) by (by case_decide).
  unfold rotate. cbv zeta. rewrite IH; [|exact Hd]. simpl path_rr.
  rewrite aget_aset_eq. simpl default. rewrite fmap_cons. f_equal.
  - by rewrite Z.add_0_r.
  - rewrite <- (fmap_S_seq 0 k), <- list_fmap_compose. apply list_fmap_ext. intros _ i _. simpl.
    rewrite Zplus_mod_idemp_l. do 3 f_equal. lia.
Qed.

Lemma mod_shift_perm (n : nat) (a : Z) :
  (fun i => Z.to_nat ((a + Z.of_nat i) mod Z.of_nat n)) <$> seq 0 n ≡ₚ seq 0 n.
Proof.
  destruct (decide (n = 0%nat)) as [->|Hn]; [done|].
  apply submseteq_length_Permutation; [|by rewrite length_fmap].
  apply NoDup_submseteq.
  - apply NoDup_fmap_2_strong; [|apply NoDup_seq]. intros i j Hi Hj He.
    apply elem_of_seq in Hi, Hj.
    pose proof (Z.mod_pos_bound (a + Z.of_nat i) (Z.of_nat n)).
    pose proof (Z.mod_pos_bound (a + Z.of_nat j) (Z.of_nat n)).
    assert (Hm : (a + Z.of_nat i) mod Z.of_nat n = (a + Z.of_nat j) mod Z.of_nat n) by lia.
    pose proof (Z.div_mod (a + Z.of_nat i) (Z.of_nat n)) as D1.
    pose proof (Z.div_mod (a + Z.of_nat j) (Z.of_nat n)) as D2.
    set (q1 := (a + Z.of_nat i) / Z.of_nat n) in *. set (q2 := (a + Z.of_nat j) / Z.of_nat n) in *.
    assert (Hd : Z.of_nat i - Z.of_nat j = Z.of_nat n * (q1 - q2)) by lia.
    clear - Hd Hi Hj. assert (q1 - q2 = 0) by nia. nia.
  - intros x Hx. apply list_elem_of_fmap in Hx as (i & -> & _). apply elem_of_seq.
    pose proof (Z.mod_pos_bound (a + Z.of_nat i) (Z.of_nat n)). lia.
Qed.

Lemma dispatch_pool_ne st now u host req ip canary pool key :
  dispatch_pool st now u host req ip canary = inr (pool, key) → pool ≠ [].
Proof.
  unfold dispatch_pool. destruct (select_client_pool _ _ _ _ _) as [[p k]|]; [|done].
  destruct (filter_pool_by_ip _ _ _); [|done]. by case_goal; intros [= <- <-].
Qed.

(** Rotation is fair. As many requests in a row as the dispatch pool has
    members reach every member exactly once, wherever the cursor stood. *)
Theorem round_robin_fair st now u host ip canary pool key :
  dispatch_pool st now u host None ip canary = inr (pool, key) →
  picks (length pool) st now u host ip canary ≡ₚ Some <$> pool.
Proof.
  intros Hd. rewrite (picks_rotate _ _ _ _ _ _ _ pool key Hd (dispatch_pool_ne _ _ _ _ _ _ _ _ _ Hd)).
  set (f := fun i => Z.to_nat ((default 0 (aget key (path_rr st)) + Z.of_nat i) mod Z.of_nat (length pool))).
  change (fun i : nat => pool !! _) with ((pool !!.) ∘ f). rewrite list_fmap_compose. unfold f.
  rewrite mod_shift_perm.
  replace ((pool !!.) <$> seq 0 (length pool)) with (Some <$> pool); [done|].
  apply list_eq. intros i.
  rewrite !list_lookup_fmap. destruct (decide (i < length pool)%nat) as [Hi|Hi].
  - rewrite lookup_seq_lt by done. simpl. destruct (lookup_lt_is_Some_2 pool i Hi) as [r ->]. done.
  - rewrite lookup_seq_ge, (lookup_ge_None_2 pool) by lia. done.
Qed.

Lemma round_robin_fair_witness :
  picks 2 sample_state 10 (bs "/api/v1") (Some (bs "acme.com")) None None
  ≡ₚ [Some {| client := bs "c1"; index := 1 |}; Some {| client := bs "c2"; index := 0 |}].
Proof.
  apply (round_robin_fair sample_state 10 (bs "/api/v1") (Some (bs "acme.com")) None None
           [{| client := bs "c1"; index := 1 |}; {| client := bs "c2"; index := 0 |}]
           (Some (bs "acme.com"), Some (bs "/api"))).
  vm_compute. reflexivity.
Defined.
