(* ===== verification/Route.v ===== *)
(** What a route says about itself before anything is dispatched:
    [aperio-server/src/routing/route.rs].

    The gate questions are asked of the same pool the dispatch is taken from,
    and the theorems connect the two: a gate answer holds for whichever service
    a pick at the same moment selects. *)

From S2P Require Import Prelude Binds IpNet VisitorAuth Orgs Clients Select.

Definition valid_visitor_creds (creds : str) : bool :=
  match split_once colon creds with
  | Some (user, pass) => negb (str_eqb user []) && negb (str_eqb pass [])
  | None => false
  end.

(** The loop over the pool: every member declares a value and all the same. *)
Fixpoint unanimous {A} `{EqDecision A} (acc : option A) (l : list (option A)) : option A :=
  match l with
  | [] => acc
  | Some c :: l' =>
      match acc with
      | None => unanimous (Some c) l'
      | Some existing => if decide (existing = c) then unanimous acc l' else None
      end
  | None :: _ => None
  end.

(** The value of [field] the whole pool of a route declares. *)
Definition route_declared {A} `{EqDecision A} (field : ServiceState → option A) (st : route_state)
    (now : Z) (uri_path : str) (request_host : option str) : option A :=
  if request_path_has_traversal uri_path then None
  else match select_client_pool (clients st) uri_path request_host now (client_down_threshold st) with
       | None => None
       | Some (pool, _) =>
           match pool with
           | [] => None
           | _ => unanimous None
                    ((fun r => match ref_get r (clients st) with
                               | Some s => field s | None => None end) <$> pool)
           end
       end.

Definition route_visitor_auth : route_state → Z → str → option str → option str :=
  route_declared visitor_auth.
Definition route_visitor_policy : route_state → Z → str → option str → option Policy :=
  route_declared visitor_auth_policy.

Definition route_path_bind (st : route_state) (now : Z) (uri_path : str) (request_host : option str)
    : option str :=
  if request_path_has_traversal uri_path then None
  else match select_client_pool (clients st) uri_path request_host now (client_down_threshold st) with
       | None => None
       | Some (pool, _) =>
           match head pool with
           | Some r => match ref_get r (clients st) with
                       | Some s => effective_path_bind s | None => None end
           | None => None
           end
       end.

Definition declares_gate (s : ServiceState) : bool :=
  is_some (visitor_auth s)
  || match visitor_auth_policy s with Some policy => gates policy | None => false end.

Definition host_has_visitor_auth (st : route_state) (request_host : option str) : bool :=
  existsb (fun idc =>
    existsb (fun s => declares_gate s &&
               match request_host with
               | Some h => matches_host s h || catch_all s
               | None => catch_all s
               end) (services idc.2)) (clients st).

(** One turn of the polling loop: the state and the routing clock the pick sees,
    and the clock the deadline is compared with. *)
Record poll : Type := {
  poll_state : route_state;
  poll_now : Z;
  poll_clock : Z;
}.

(** The loop over the turns the caller lives to see; [None] while it polls on. *)
Fixpoint wait_for_candidate (polls : list poll) (uri_path : str) (request_host : option str)
    (require_instance : option str) (deadline : Z) (visitor_ip : option ipaddr)
    : option (option SelectedClient) :=
  match polls with
  | [] => None
  | p :: rest =>
      match (pick_proxy_client (poll_state p) (poll_now p) uri_path request_host
               (ReqInstance <$> require_instance) None visitor_ip None).1 with
      | Selected client => Some (Some client)
      | PickDenied _ => Some None
      | NoRoute =>
          if deadline <=? poll_clock p then Some None
          else wait_for_candidate rest uri_path request_host require_instance deadline visitor_ip
      end
  end.

Definition method_retryable (method : str) (all_methods : bool) : bool :=
  all_methods || bool_decide (method ∈ [bs "GET"; bs "HEAD"; bs "OPTIONS"; bs "PUT"; bs "DELETE"; bs "TRACE"]).

(** ** Lemmas *)

Lemma unanimous_spec {A} `{EqDecision A} (l : list (option A)) acc c :
  unanimous acc l = Some c ↔
  (acc = None ∨ acc = Some c) ∧ (acc = None → l ≠ []) ∧ Forall (fun o => o = Some c) l.
Proof.
  revert acc. induction l as [|[a|] l IH]; intros acc; simpl.
  - split; [intros ->; split_and!; [by right|done|done]|]. intros ([->|?] & Hne & _); [|done].
    by destruct Hne.
  - destruct acc as [e|].
    + destruct (decide (e = a)) as [->|Hn].
      * rewrite IH, Forall_cons. naive_solver.
      * rewrite Forall_cons. naive_solver.
    + rewrite IH, Forall_cons. naive_solver.
  - rewrite Forall_cons. naive_solver.
Qed.

(** What "the pool of the route all satisfies [P]" means. *)
Definition pool_agrees (st : route_state) (now : Z) (u : str) (host : option str)
    (P : ServiceState → Prop) : Prop :=
  ∃ key, route_key (clients st) now (client_down_threshold st) u host key
         ∧ (∃ r, in_pool (clients st) now (client_down_threshold st) key r)
         ∧ ∀ r s, in_pool (clients st) now (client_down_threshold st) key r →
             ref_get r (clients st) = Some s → P s.

Lemma pool_agrees_select st now u host P :
  NoDup (keys (clients st)) →
  pool_agrees st now u host P ↔
  ∃ pool key, select_client_pool (clients st) u host now (client_down_threshold st) = Some (pool, key)
    ∧ pool ≠ [] ∧ ∀ r, r ∈ pool → ∃ s, ref_get r (clients st) = Some s ∧ P s.
Proof.
  intros Hnd. split.
  - intros (key & Hk & (r0 & Hr0) & Hall).
    destruct (select_client_pool _ _ _ _ _) as [[pool key']|] eqn:E.
    + apply pool_exact in E as (Hk' & _ & Hne & Hin); [|done].
      assert (key = key') as <- by by eapply route_key_unique.
      exists pool, key. split_and!; [done|done|]. intros r Hr%Hin.
      destruct (in_pool_get _ _ _ _ _ Hr) as [s Hs]. eauto.
    + destruct Hr0 as (s & Hs & _). by destruct (pool_none _ _ _ _ _ key Hnd E Hk r0 s).
  - intros (pool & key & E & Hne & Hall). apply pool_exact in E as (Hk & _ & _ & Hin); [|done].
    exists key. split_and!; [done| |].
    + destruct pool as [|r pool]; [done|]. exists r. apply Hin. left.
    + intros r s Hr Hs. apply Hin, Hall in Hr as (s' & Hs' & HP). by simplify_eq.
Qed.

Lemma route_declared_spec {A} `{EqDecision A} (field : ServiceState → option A) st now u host c :
  NoDup (keys (clients st)) →
  route_declared field st now u host = Some c ↔
  request_path_has_traversal u = false ∧ pool_agrees st now u host (fun s => field s = Some c).
Proof.
  intros Hnd. rewrite pool_agrees_select by done. unfold route_declared.
  destruct (request_path_has_traversal u); [naive_solver|].
  destruct (select_client_pool _ _ _ _ _) as [[pool key]|]; [|naive_solver].
  assert (Hf : Forall (fun o => o = Some c)
                 ((fun r => match ref_get r (clients st) with Some s => field s | None => None end) <$> pool)
               ↔ ∀ r, r ∈ pool → ∃ s, ref_get r (clients st) = Some s ∧ field s = Some c).
  { rewrite Forall_fmap, Forall_forall. simpl. split; intros H r Hr; specialize (H r Hr).
    - destruct (ref_get r (clients st)); [eauto|done].
    - destruct H as (s & -> & Hs). done. }
  destruct pool as [|r0 pool]; [naive_solver|]. rewrite unanimous_spec, Hf. split.
  - intros (_ & _ & Hall). split; [done|]. exists (r0 :: pool), key. done.
  - intros (_ & p & k & He & _ & Hall). simplify_eq. split_and!; [by left|done|exact Hall].
Qed.

Lemma route_is_public_spec st now u host :
  NoDup (keys (clients st)) →
  route_is_public st now u host = true ↔
  request_path_has_traversal u = false ∧ pool_agrees st now u host (fun s => public s = true).
Proof.
  intros Hnd. rewrite pool_agrees_select by done. unfold route_is_public.
  destruct (request_path_has_traversal u); [naive_solver|].
  destruct (select_client_pool _ _ _ _ _) as [[[|r0 pool] key]|]; [naive_solver| |naive_solver].
  rewrite forallb_Forall, Forall_forall.
  assert (Hf : (∀ r, r ∈ r0 :: pool →
                 match ref_get r (clients st) with Some s => public s | None => false end = true)
               ↔ ∀ r, r ∈ r0 :: pool → ∃ s, ref_get r (clients st) = Some s ∧ public s = true).
  { split; intros H r Hr; specialize (H r Hr).
    - destruct (ref_get r (clients st)); [eauto|done].
    - destruct H as (s & -> & Hs). done. }
  rewrite Hf. split.
  - intros Hall. split; [done|]. exists (r0 :: pool), key. done.
  - intros (_ & p & k & He & _ & Hall). simplify_eq. done.
Qed.

(** A selected target is a service of the pool of the route that admits the visitor. *)
Lemma pick_selected st now u host req aff ip canary sc :
  NoDup (keys (clients st)) →
  (pick_proxy_client st now u host req aff ip canary).1 = Selected sc →
  ∃ key r c s, route_key (clients st) now (client_down_threshold st) u host key
    ∧ in_pool (clients st) now (client_down_threshold st) key r
    ∧ ref_connection r (clients st) = Some c ∧ ref_get r (clients st) = Some s
    ∧ sc = selected_of r c s
    ∧ (∀ a, ip = Some a → admits_ip (clients st) a r = true).
Proof.
  intros Hnd. unfold pick_proxy_client, pick_ref, dispatch_pool.
  destruct (select_client_pool _ _ _ _ _) as [[pool key]|] eqn:Es; [|done].
  apply pool_exact in Es as (Hkey & _ & Hne & Hin); [|done].
  destruct (filter_pool_by_ip pool (clients st) ip) as [pool1|] eqn:Ef; [|done].
  apply filter_pool_allowed in Ef as [Hne1 Hin1]; [|done].
  destruct (narrow_pool _ _ _ _) as [|r3 l3] eqn:E3; [done|].
  destruct (choose_spec st (r3 :: l3) key req aff) as (r & Hch & Hr3); [done|].
  destruct (choose st (r3 :: l3) key req aff) as [chosen rr]. simpl in Hch. subst chosen.
  rewrite <- E3 in Hr3. apply narrow_pool_spec in Hr3 as [Hr2 _]. apply apply_lb_sub in Hr2.
  apply Hin1 in Hr2 as [Hr Hip]. apply Hin in Hr.
  destruct (ref_connection r (clients st)) as [c|] eqn:Ec; [|done].
  destruct (ref_get r (clients st)) as [s|] eqn:Eg; [|done]. intros [= <-].
  exists key, r, c, s. done.
Qed.

(** C38: A route's gate is unanimous, and it is the gate of whichever service is
    dispatched to. A route is public, gated by a login or by a policy, exactly
    when the path holds no dot segments and every service of its pool says so;
    and then the service a pick selects at that moment says so. *)
Theorem route_gate_unanimous st now u host c p :
  NoDup (keys (clients st)) →
  (route_is_public st now u host = true ↔
     request_path_has_traversal u = false ∧ pool_agrees st now u host (fun s => public s = true))
  ∧ (route_visitor_auth st now u host = Some c ↔
     request_path_has_traversal u = false ∧ pool_agrees st now u host (fun s => visitor_auth s = Some c))
  ∧ (route_visitor_policy st now u host = Some p ↔
     request_path_has_traversal u = false ∧ pool_agrees st now u host (fun s => visitor_auth_policy s = Some p))
  ∧ ∀ req aff ip canary sc,
      (pick_proxy_client st now u host req aff ip canary).1 = Selected sc →
      ∃ r conn s, sc = selected_of r conn s ∧ ref_get r (clients st) = Some s
        ∧ (route_is_public st now u host = true → public s = true)
        ∧ (route_visitor_auth st now u host = Some c → visitor_auth s = Some c)
        ∧ (route_visitor_policy st now u host = Some p → visitor_auth_policy s = Some p)
        ∧ (request_path_has_traversal u = false → route_path_bind st now u host = effective_path_bind s).
Proof.
  intros Hnd. unfold route_visitor_auth, route_visitor_policy.
  rewrite route_is_public_spec, !route_declared_spec by done.
  split_and!; [done..|]. intros req aff ip canary sc Hsel.
  apply pick_selected in Hsel as (key & r & conn & s & Hkey & Hin & Hconn & Hget & -> & _); [|done].
  assert (Hag : ∀ P, pool_agrees st now u host P → P s).
  { intros P (key' & Hk' & _ & Hall). assert (key' = key) as -> by by eapply route_key_unique.
    by apply (Hall r). }
  exists r, conn, s. split_and!; [done|done| | | |].
  1: rewrite route_is_public_spec by done; intros [_ H]; by apply (Hag _ H).
  1,2: rewrite route_declared_spec by done; intros [_ H]; by apply (Hag _ H).
  intros Ht. unfold route_path_bind. rewrite Ht.
  destruct (select_client_pool _ _ _ _ _) as [[pool key']|] eqn:E.
  - apply pool_exact in E as (Hk' & _ & Hne & Hin'); [|done].
    assert (key' = key) as -> by by eapply route_key_unique.
    destruct pool as [|r0 pool]; [done|]. simpl.
    destruct (proj1 (Hin' r0)) as (s0 & Hs0 & _); [left|].
    rewrite (in_route_get _ _ _ _ _ _ Hs0). destruct Hs0 as [_ ->].
    destruct Hin as (s1 & Hs1 & _). rewrite (in_route_get _ _ _ _ _ _ Hs1) in Hget. simplify_eq.
    by destruct Hs1 as [_ ->].
  - destruct Hin as (s1 & Hs1 & _). by destruct (pool_none _ _ _ _ _ key Hnd E Hkey r s1).
Qed.

Lemma route_gate_unanimous_witness :
  route_is_public sample_state 10 (bs "/api/v1") (Some (bs "acme.com")) = true
  ∧ pool_agrees sample_state 10 (bs "/api/v1") (Some (bs "acme.com")) (fun s => public s = true).
Proof.
  assert (H : NoDup (keys (clients sample_state))) by by apply (bool_decide_unpack _).
  assert (E : route_is_public sample_state 10 (bs "/api/v1") (Some (bs "acme.com")) = true)
    by (vm_compute; reflexivity).
  split; [exact E|].
  exact (proj2 (proj1 (proj1 (route_gate_unanimous sample_state 10 (bs "/api/v1")
           (Some (bs "acme.com")) [] [] H)) E)).
Defined.

(** On a path with dot segments the strictest gate of the host stands: if
    the service a pick would select declares any gate, a login or a policy that
    gates, the host is reported as gated. *)
Theorem traversal_gate_strictest st now u host req aff ip canary sc :
  NoDup (keys (clients st)) →
  (pick_proxy_client st now u host req aff ip canary).1 = Selected sc →
  host_has_visitor_auth st host = false →
  ∃ r c s, sc = selected_of r c s ∧ ref_get r (clients st) = Some s ∧ declares_gate s = false.
Proof.
  intros Hnd Hsel Hh.
  apply pick_selected in Hsel as (key & r & c & s & Hkey & Hin & Hc & Hg & -> & _); [|done].
  exists r, c, s. split_and!; [done|done|].
  unfold host_has_visitor_auth in Hh. apply existsb_false in Hh. rewrite Forall_forall in Hh.
  unfold ref_connection in Hc. specialize (Hh (client r, c) (aget_Some_elem _ _ _ Hc)). simpl in Hh.
  apply existsb_false in Hh. rewrite Forall_forall in Hh.
  assert (Hs : services c !! index r = Some s) by (unfold ref_get in Hg; by rewrite Hc in Hg).
  specialize (Hh s (list_elem_of_lookup_2 _ _ _ Hs)). apply andb_false_iff in Hh as [?|Hh]; [done|].
  exfalso. destruct Hin as (s' & Hr & _). pose proof (in_route_get _ _ _ _ _ _ Hr) as Hg'.
  rewrite Hg in Hg'. injection Hg' as <-. destruct Hr as [[_ Hm] _], Hkey as [Hk _].
  destruct key as [[h|] pk]; simpl in *.
  - destruct Hk as [-> _]. by rewrite Hm in Hh.
  - destruct host; rewrite Hm in Hh; [by rewrite orb_true_r in Hh|done].
Qed.

Lemma traversal_gate_strictest_witness :
  ∃ r c s, (pick_proxy_client sample_state 10 (bs "/api/../x") (Some (bs "acme.com")) None None None None).1
           = Selected (selected_of r c s) ∧ declares_gate s = false.
Proof.
  destruct (pick_proxy_client sample_state 10 (bs "/api/../x") (Some (bs "acme.com")) None None None None).1
    as [sc| |] eqn:E; [|vm_compute in E; discriminate|vm_compute in E; discriminate].
  destruct (traversal_gate_strictest sample_state 10 (bs "/api/../x") (Some (bs "acme.com"))
              None None None None sc) as (r & c & s & -> & _ & H);
    [by apply (bool_decide_unpack _)|exact E|vm_compute; reflexivity|].
  by exists r, c, s.
Defined.

(** The wait ends: it answers by the first turn at or past the deadline, with
    a target only if a pick selected one. *)
Lemma wait_for_candidate_ends polls u host inst deadline ip :
  (∃ p, p ∈ polls ∧ deadline <= poll_clock p) →
  is_Some (wait_for_candidate polls u host inst deadline ip).
Proof.
  intros (p & Hin & Hp). induction polls as [|q polls IH]; [by apply not_elem_of_nil in Hin|].
  simpl. destruct (pick_proxy_client _ _ _ _ _ _ _ _).1; [by eexists| |by eexists].
  destruct (deadline <=? poll_clock q) eqn:E; [by eexists|]. to_prop.
  apply elem_of_cons in Hin as [->|Hin]; [lia|auto].
Qed.
