(* ===== verification/Canary.v ===== *)
(** A site's canary split: which visitors see the new version of a service,
    [aperio-server/src/sites/canary.rs]. [Side] is declared with the routing
    that narrows the pool by it. *)

From S2P Require Import Prelude IpNet Clients Select.

Record CanaryRule : Type := {
  canary_service : str;
  canary_weight : Z;
  canary_header : option str;
  canary_value : option str;
}.

(** The bytes of an address, most significant first. *)
Definition octets (ip : ipaddr) : list Z :=
  let bytes n k := (fun i => n / 2 ^ (8 * (k - 1 - Z.of_nat i)) mod 256) <$> seq 0 (Z.to_nat k) in
  match ip with V4 n => bytes n 4 | V6 n => bytes n 16 end.

Definition fnv_step (hash byte : Z) : Z := wrap64 (Z.lxor hash byte * 1099511628211).

Definition bucket_of (ip : ipaddr) : Z :=
  fold_left fnv_step (octets ip) 14695981039346656037 mod 100.

(** The header asks for the canary. *)
Definition header_asks (rule : CanaryRule) (header_value : option str) : bool :=
  match canary_header rule, header_value with
  | Some name, Some sent =>
      negb (str_eqb name [])
      && match canary_value rule with
         | Some expected => eq_ignore_case sent expected
         | None => negb (str_eqb (trim sent) [])
         end
  | _, _ => false
  end.

Definition side_for (rule : CanaryRule) (header_value : option str) (visitor : option ipaddr) : Side :=
  if header_asks rule header_value then Canary
  else if canary_weight rule =? 0 then Stable
  else if 100 <=? canary_weight rule then Canary
  else match visitor with
       | None => Stable
       | Some ip => if bucket_of ip <? canary_weight rule then Canary else Stable
       end.

Lemma bucket_of_range ip : 0 <= bucket_of ip < 100.
Proof. apply Z.mod_pos_bound. lia. Qed.

(** The same rule with another weight. *)
Definition with_weight (rule : CanaryRule) (w : Z) : CanaryRule :=
  {| canary_service := canary_service rule; canary_weight := w;
     canary_header := canary_header rule; canary_value := canary_value rule |}.

(** A canary grows without reshuffling its visitors. The side is decided by
    the visitor alone, and raising the weight only ever moves visitors from the
    stable side to the canary, never back; at weight zero only those who ask by
    header are on it, and from one hundred on everyone is. A pool narrowed to
    the side holds exactly the members of the pool on that side. *)
Theorem canary_monotone rule w w' hv visitor :
  0 <= w <= w' →
  (side_for (with_weight rule w) hv visitor = Canary →
   side_for (with_weight rule w') hv visitor = Canary)
  ∧ (side_for (with_weight rule 0) hv visitor = Canary ↔ header_asks rule hv = true)
  ∧ (100 <= w' → side_for (with_weight rule w') hv visitor = Canary)
  ∧ (∀ pool cs r, r ∈ narrow_to_side pool cs (canary_service rule, side_for rule hv visitor) ↔
       r ∈ pool ∧ (on_canary cs (canary_service rule) r = true ↔ side_for rule hv visitor = Canary)).
Proof.
  intros Hw. unfold side_for at 1 2 3 4.
  change (header_asks (with_weight rule ?x) hv) with (header_asks rule hv). simpl canary_weight.
  split_and!.
  - destruct (header_asks rule hv); [done|]. destruct (w =? 0) eqn:E0; [done|].
    destruct (100 <=? w) eqn:E1; to_prop.
    + intros _. rewrite (proj2 (Z.eqb_neq _ _)), (proj2 (Z.leb_le _ _)) by lia. done.
    + destruct visitor as [ip|]; [|done]. destruct (bucket_of ip <? w) eqn:E2; [|done].
      intros _. to_prop. rewrite (proj2 (Z.eqb_neq _ _)) by lia.
      destruct (100 <=? w'); [done|]. rewrite (proj2 (Z.ltb_lt _ _)) by lia. done.
  - destruct (header_asks rule hv); naive_solver.
  - intros H. destruct (header_asks rule hv); [done|].
    rewrite (proj2 (Z.eqb_neq _ _)), (proj2 (Z.leb_le _ _)) by lia. done.
  - intros pool cs r. unfold narrow_to_side. rewrite list_elem_of_filter. simpl.
    destruct (side_for rule hv visitor), (on_canary cs (canary_service rule) r); naive_solver.
Qed.

Lemma canary_monotone_witness :
  side_for {| canary_service := bs "v2"; canary_weight := 100; canary_header := None; canary_value := None |}
    None (Some (V4 16909060)) = Canary.
Proof.
  destruct (canary_monotone {| canary_service := bs "v2"; canary_weight := 0; canary_header := None;
              canary_value := None |} 20 100 None (Some (V4 16909060))) as (_ & _ & H & _); [lia|].
  apply H. lia.
Defined.
