(* ===== verification/Cache.v ===== *)
(** The server-side response cache, [aperio-server/src/cache.rs].

    Instants and durations are nanosecond counts. Adding a duration to an
    [Instant] panics past the largest representable one; the panic is caught by
    the HTTP layer and the cache behind its lock lives on, so an operation
    answers [None] for a panic together with the state it left. The entries are
    an association list in the map's iteration order. SHA-256 is a parameter. *)

From S2P Require Import Prelude Binds ClientIp.

(** [Instant] holds its seconds in an [i64]. *)
Definition instant_max : Z := (2 ^ 63 - 1) * second + (second - 1).
Definition instant_add (t d : Z) : option Z := if t + d <=? instant_max then Some (t + d) else None.

Record CachedResponse : Type := {
  e_status : Z;
  e_headers : headers;
  e_body : str;
  e_stored_at : Z;
  e_expires_at : Z;
  e_surrogate_keys : list str;
  e_resilient : bool;
  e_swr : Z;
  e_revalidate_started : option Z;
}.

Definition REVALIDATE_RETRY : Z := 15 * second.

Record CacheHit : Type := {
  h_status : Z;
  h_headers : headers;
  h_body : str;
  h_age_secs : Z;
  h_stale : bool;
}.

Inductive SwrLookup : Type :=
| Fresh (hit : CacheHit)
| StaleRevalidate (hit : CacheHit) (lead : bool)
| Miss.

Record ResponseCache : Type := {
  entries : list (str * CachedResponse);
  total_bytes : Z;
  hits : Z;
  misses : Z;
}.

Definition empty_cache : ResponseCache :=
  {| entries := []; total_bytes := 0; hits := 0; misses := 0 |}.

(** ** Keys *)

Definition amp : ascii := "&"%char.
Definition bar : ascii := "|"%char.

Definition is_tracking_param (name : str) : bool :=
  let n := lower name in
  starts_with (bs "utm_") n
  || bool_decide (n ∈ [bs "gclid"; bs "fbclid"; bs "gbraid"; bs "wbraid"; bs "mc_cid"; bs "mc_eid";
                       bs "_ga"; bs "igshid"]).

Definition keep_param (p : str) : bool :=
  negb (str_eqb p []) && negb (is_tracking_param (hd [] (split_on "="%char p))).

Definition normalize_cache_uri (uri : str) : str :=
  match split_once "?"%char uri with
  | None => uri
  | Some (path, query) =>
      match filter (fun p => keep_param p = true) (split_on amp query) with
      | [] => path
      | kept => path ++ bs "?" ++ join [amp] kept
      end
  end.

Definition cache_key (host : option str) (uri : str) : str :=
  default [] host ++ [bar] ++ normalize_cache_uri uri.

(** ** Headers *)

(** The directives of one [Cache-Control] value. *)
Definition directives (value : str) : list str := (fun d => lower (trim d)) <$> split_on comma value.

Definition is_forbidding (d : str) : bool :=
  str_eqb d (bs "no-store") || str_eqb d (bs "no-cache") || str_eqb d (bs "private").

(** [d.strip_prefix(p)] followed by [v.trim().parse::<u64>()]. *)
Definition directive_secs (p d : str) : option Z :=
  match strip_prefix p d with Some v => parse_uint u64_max (trim v) | None => None end.

Fixpoint response_uncacheable (hs : headers) : bool :=
  match hs with
  | [] => false
  | (name, value) :: rest =>
      let n := lower name in
      if str_eqb n (bs "vary") || str_eqb n (bs "set-cookie") then true
      else if str_eqb n (bs "cache-control") && existsb is_forbidding (directives value) then true
      else response_uncacheable rest
  end.

(** The loop over one value's directives: an early return, or the [max-age]
    seen so far. *)
Fixpoint ttl_directives (ds : list str) (ttl : option Z) : option Z + option Z :=
  match ds with
  | [] => inr ttl
  | d :: rest =>
      if is_forbidding d then inl None
      else match directive_secs (bs "s-maxage=") d with
           | Some secs => inl (if 0 <? secs then Some secs else None)
           | None =>
               match directive_secs (bs "max-age=") d with
               | Some secs => ttl_directives rest (Some secs)
               | None => ttl_directives rest ttl
               end
           end
  end.

Fixpoint ttl_headers (hs : headers) (ttl : option Z) (has_cache_control : bool) : option Z :=
  match hs with
  | [] => if negb has_cache_control then None
          else match ttl with Some secs => if 0 <? secs then Some secs else None | None => None end
  | (name, value) :: rest =>
      let n := lower name in
      if str_eqb n (bs "vary") || str_eqb n (bs "set-cookie") then None
      else if str_eqb n (bs "cache-control") then
        match ttl_directives (directives value) ttl with
        | inl answer => answer
        | inr ttl' => ttl_headers rest ttl' true
        end
      else ttl_headers rest ttl has_cache_control
  end.

(** The lifetime in seconds. *)
Definition response_cache_ttl (hs : headers) : option Z := ttl_headers hs None false.

Definition response_swr_window (hs : headers) : Z :=
  default 0 (head (omap (directive_secs (bs "stale-while-revalidate="))
    (concat ((fun nv => directives nv.2) <$>
       filter (fun nv => eq_ignore_case nv.1 (bs "cache-control") = true) hs)))).

(** [split_whitespace]: the words between runs of white space; [cur] is the word
    being read. *)
Definition flush (cur : str) : list str := match cur with [] => [] | _ => [cur] end.
Fixpoint split_ws (s cur : str) : list str :=
  match s with
  | [] => flush cur
  | a :: s1 =>
      if ws1 a then flush cur ++ split_ws s1 []
      else match s1 with
           | b :: s2 =>
               if ws2 a b then flush cur ++ split_ws s2 []
               else match s2 with
                    | c :: s3 => if ws3 a b c then flush cur ++ split_ws s3 []
                                 else split_ws s1 (cur ++ [a])
                    | [] => split_ws s1 (cur ++ [a])
                    end
           | [] => split_ws s1 (cur ++ [a])
           end
  end.

Definition response_surrogate_keys (hs : headers) : list str :=
  concat ((fun nv => split_ws nv.2 []) <$>
    filter (fun nv => eq_ignore_case nv.1 (bs "surrogate-key") = true) hs).

Definition request_cacheable (method : str) (hs : headers) : bool :=
  if negb (str_eqb method (bs "GET")) then false
  else if match header_get (bs "authorization") hs with Some _ => true | None => false end
          || match header_get (bs "cookie") hs with Some _ => true | None => false end then false
  else match header_str (bs "cache-control") hs with
       | Some cc => negb (contains (bs "no-cache") (lower cc) || contains (bs "no-store") (lower cc))
       | None => true
       end.

(** ** Conditional and range requests *)

(** [trim_start_matches("W/")] *)
Fixpoint strip_weak (s : str) : str :=
  match s with
  | a :: ((b :: s') as t) =>
      if bool_decide (a = "W"%char) && bool_decide (b = slash) then strip_weak s' else s
  | _ => s
  end.

Definition if_none_match_matches (if_none_match etag : str) : bool :=
  let target := strip_weak (trim etag) in
  if str_eqb target [] then false
  else existsb (fun c => str_eqb (trim c) (bs "*") || str_eqb (strip_weak (trim c)) target)
         (split_on comma if_none_match).

Inductive RangeOutcome : Type :=
| Full
| Partial (start end_ : Z)
| Unsatisfiable.

Definition evaluate_range (range : str) (len : Z) : RangeOutcome :=
  match strip_prefix (bs "bytes=") (trim range) with
  | None => Full
  | Some spec =>
      if has comma spec || (len =? 0) then Full
      else match split_once "-"%char spec with
      | None => Full
      | Some (start_raw, end_raw) =>
          let start_raw := trim start_raw in
          let end_raw := trim end_raw in
          match start_raw with
          | [] =>
              match parse_uint usize_max end_raw with
              | None => Full
              | Some suffix =>
                  if suffix =? 0 then Unsatisfiable else Partial (sat_sub len suffix) (len - 1)
              end
          | _ =>
              match parse_uint usize_max start_raw with
              | None => Full
              | Some start =>
                  if len <=? start then Unsatisfiable
                  else match (match end_raw with
                              | [] => Some (len - 1)
                              | _ => match parse_uint usize_max end_raw with
                                     | Some e => Some (Z.min e (len - 1))
                                     | None => None
                                     end
                              end) with
                       | None => Full
                       | Some e => if e <? start then Full else Partial start e
                       end
              end
          end
      end
  end.

(** ** The store *)

Definition body_len (e : CachedResponse) : Z := len (e_body e).

(** [entries.remove(key)] with the accounting every caller does. *)
Definition drop_entry (c : ResponseCache) (key : str) : ResponseCache :=
  match aget key (entries c) with
  | Some e => {| entries := aremove key (entries c);
                 total_bytes := sat_sub (total_bytes c) (body_len e);
                 hits := hits c; misses := misses c |}
  | None => c
  end.

Definition drop_entries (c : ResponseCache) (ks : list str) : ResponseCache := fold_left drop_entry ks c.

Definition cache_clear (c : ResponseCache) : ResponseCache :=
  {| entries := []; total_bytes := 0; hits := hits c; misses := misses c |}.

Definition purge_keys (c : ResponseCache) (p : str → CachedResponse → bool) : ResponseCache * nat :=
  let ks := keys (filter (fun ke => p ke.1 ke.2 = true) (entries c)) in
  (drop_entries c ks, length ks).

Definition purge_host (c : ResponseCache) (host : str) : ResponseCache * nat :=
  purge_keys c (fun k _ => starts_with (host ++ [bar]) k).

Definition purge_by_surrogate (c : ResponseCache) (tag : str) : ResponseCache * nat :=
  purge_keys c (fun _ e => existsb (fun t => str_eqb t tag) (e_surrogate_keys e)).

Definition key_matches (host path_prefix : option str) (k : str) : bool :=
  let (key_host, key_uri) := default ([], k) (split_once bar k) in
  match host with Some h => eq_ignore_case key_host h | None => true end
  && match path_prefix with Some p => starts_with p key_uri | None => true end.

Definition purge_matching (c : ResponseCache) (host path_prefix : option str) : ResponseCache * nat :=
  match host, path_prefix with
  | None, None => (cache_clear c, length (entries c))
  | _, _ => purge_keys c (fun k _ => key_matches host path_prefix k)
  end.

Definition hit_of (e : CachedResponse) (now : Z) (stale : bool) : CacheHit :=
  {| h_status := e_status e; h_headers := e_headers e; h_body := e_body e;
     h_age_secs := sat_sub now (e_stored_at e) / second; h_stale := stale |}.

Definition count_hit (c : ResponseCache) : ResponseCache :=
  {| entries := entries c; total_bytes := total_bytes c; hits := hits c + 1; misses := misses c |}.
Definition count_miss (c : ResponseCache) : ResponseCache :=
  {| entries := entries c; total_bytes := total_bytes c; hits := hits c; misses := misses c + 1 |}.
Definition set_revalidate (e : CachedResponse) (t : Z) : CachedResponse :=
  {| e_status := e_status e; e_headers := e_headers e; e_body := e_body e;
     e_stored_at := e_stored_at e; e_expires_at := e_expires_at e;
     e_surrogate_keys := e_surrogate_keys e; e_resilient := e_resilient e; e_swr := e_swr e;
     e_revalidate_started := Some t |}.
Definition with_entries (c : ResponseCache) (es : list (str * CachedResponse)) : ResponseCache :=
  {| entries := es; total_bytes := total_bytes c; hits := hits c; misses := misses c |}.

(** [None] is a panic. [e.resilient && now < e.expires_at + max_stale] adds only
    for a resilient entry. *)
Definition cache_lookup (c : ResponseCache) (now : Z) (key : str) (max_stale : Z)
    : option SwrLookup * ResponseCache :=
  match aget key (entries c) with
  | None => (Some Miss, count_miss c)
  | Some e =>
      if now <? e_expires_at e then (Some (Fresh (hit_of e now false)), count_hit c)
      else match instant_add (e_expires_at e) (e_swr e) with
      | None => (None, c)
      | Some swr_end =>
          if now <? swr_end then
            let lead := match e_revalidate_started e with
                        | None => true
                        | Some started => REVALIDATE_RETRY <=? sat_sub now started
                        end in
            let c' := if lead then with_entries c (aset key (set_revalidate e now) (entries c)) else c in
            (Some (StaleRevalidate (hit_of e now true) lead), count_hit c')
          else if e_resilient e then
            match instant_add (e_expires_at e) max_stale with
            | None => (None, c)
            | Some stale_end =>
                (Some Miss, count_miss (if now <? stale_end then c else drop_entry c key))
            end
          else (Some Miss, count_miss (drop_entry c key))
      end
  end.

(** The inner option is the method's answer. *)
Definition get_for_outage (c : ResponseCache) (now : Z) (key : str) (max_stale : Z)
    : option (option CacheHit) * ResponseCache :=
  match aget key (entries c) with
  | None => (Some None, c)
  | Some e =>
      let expired := e_expires_at e <=? now in
      let gone := (Some None, if expired then drop_entry c key else c) in
      if negb (e_resilient e) then gone
      else match instant_add (e_expires_at e) max_stale with
      | None => (None, c)
      | Some stale_end =>
          if stale_end <=? now then gone else (Some (Some (hit_of e now expired)), c)
      end
  end.

(** [sort_by_key], a stable sort. *)
Fixpoint insert_by_expiry (x : str * Z) (l : list (str * Z)) : list (str * Z) :=
  match l with
  | [] => [x]
  | y :: l' => if x.2 <=? y.2 then x :: y :: l' else y :: insert_by_expiry x l'
  end.
Definition sort_by_expiry (l : list (str * Z)) : list (str * Z) := foldr insert_by_expiry [] l.

(** The eviction loop over the entries by expiry. *)
Fixpoint evict (c : ResponseCache) (size max_bytes now : Z) (by_expiry : list (str * Z)) : ResponseCache :=
  match by_expiry with
  | [] => c
  | (k, exp) :: rest =>
      if (total_bytes c + size <=? max_bytes) && (now <? exp) then c
      else evict (drop_entry c k) size max_bytes now rest
  end.

Section Insert.
Context (sha256 : str → str).

Definition quote : ascii := chr 34.
Definition synthesize_etag (body : str) : str :=
  [quote] ++ bs "ap-" ++ concat (hex_byte <$> take 16 (sha256 body)) ++ [quote].

Definition with_etag (hs : headers) (body : str) : headers :=
  if existsb (fun nv => eq_ignore_case nv.1 (bs "etag")) hs then hs
  else hs ++ [(bs "etag", synthesize_etag body)].

(** [Some true]: stored; [Some false]: refused; [None]: the panic of
    [now + ttl], reached with the size already added to the total. *)
Definition insert (c : ResponseCache) (now : Z) (key : str) (status : Z) (hs : headers) (body : str)
    (ttl max_bytes : Z) (resilient : bool) (swr : Z) (surrogate_keys : list str)
    : option bool * ResponseCache :=
  let size := len body in
  if max_bytes / 4 <? size then (Some false, c)
  else
    let c := drop_entry c key in
    let c := if max_bytes <? total_bytes c + size
             then evict c size max_bytes now
                    (sort_by_expiry ((fun ke => (ke.1, e_expires_at ke.2)) <$> entries c))
             else c in
    if max_bytes <? total_bytes c + size then (Some false, c)
    else
      let c := {| entries := entries c; total_bytes := total_bytes c + size;
                  hits := hits c; misses := misses c |} in
      match instant_add now ttl with
      | None => (None, c)
      | Some expires_at =>
          (Some true,
           with_entries c (aset key
             {| e_status := status; e_headers := with_etag hs body; e_body := body;
                e_stored_at := now; e_expires_at := expires_at;
                e_surrogate_keys := surrogate_keys; e_resilient := resilient; e_swr := swr;
                e_revalidate_started := None |} (entries c)))
      end.
End Insert.

(** ** Accounting *)

Definition sum_bodies (es : list (str * CachedResponse)) : Z :=
  foldr (fun ke acc => body_len ke.2 + acc) 0 es.

(** The total is the sum of the bodies held, and of [lost] bytes counted for bodies
    that are not held; each key is held once. *)
Record accounts (lost : Z) (c : ResponseCache) : Prop := {
  ok_keys : NoDup (keys (entries c));
  ok_total : total_bytes c = sum_bodies (entries c) + lost;
  ok_lost : 0 <= lost;
}.

(** Nothing is counted that is not held. *)
Abbreviation cache_ok := (accounts 0).

Lemma body_len_nonneg e : 0 <= body_len e.
Proof. apply len_nonneg. Qed.

Lemma sum_bodies_nonneg es : 0 <= sum_bodies es.
Proof. induction es as [|[k e] es IH]; simpl; [lia|]. pose proof (body_len_nonneg e). lia. Qed.

Lemma sum_bodies_aremove k e es :
  aget k es = Some e → sum_bodies (aremove k es) = sum_bodies es - body_len e.
Proof.
  induction es as [|[k' e'] es IH]; simpl; [done|]. case_decide.
  - intros [= ->]. lia.
  - intros Hk. simpl. rewrite IH by done. lia.
Qed.

Lemma sum_bodies_aset k e es :
  sum_bodies (aset k e es) =
  sum_bodies es + body_len e - match aget k es with Some old => body_len old | None => 0 end.
Proof.
  induction es as [|[k' e'] es IH]; simpl; [lia|]. case_decide; simpl; [lia|]. rewrite IH. lia.
Qed.

Lemma drop_entry_ok lost c k : accounts lost c → accounts lost (drop_entry c k).
Proof.
  intros [Hk Ht Hl]. unfold drop_entry. destruct (aget k (entries c)) as [e|] eqn:E; [|done].
  split; simpl; [by apply NoDup_aremove| |done]. rewrite (sum_bodies_aremove k e) by done.
  unfold sat_sub. pose proof (sum_bodies_nonneg (aremove k (entries c))) as Hn.
  rewrite (sum_bodies_aremove k e) in Hn by done. lia.
Qed.

Lemma drop_entry_le lost c k : accounts lost c → total_bytes (drop_entry c k) <= total_bytes c.
Proof.
  intros [Hk Ht Hl]. unfold drop_entry. destruct (aget k (entries c)) as [e|]; [|lia]. simpl.
  unfold sat_sub. pose proof (body_len_nonneg e). pose proof (sum_bodies_nonneg (entries c)). lia.
Qed.

Lemma drop_entry_sub lost c k j e :
  aget j (entries (drop_entry c k)) = Some e → accounts lost c → aget j (entries c) = Some e ∧ j ≠ k.
Proof.
  intros H [Hk _ _]. unfold drop_entry in H. destruct (aget k (entries c)) as [x|] eqn:E.
  - simpl in H. destruct (decide (k = j)) as [->|Hn]; [by rewrite aget_aremove_eq in H|].
    by rewrite aget_aremove_ne in H.
  - split; [done|]. intros ->. congruence.
Qed.

Lemma drop_entries_ok lost c ks :
  accounts lost c → accounts lost (drop_entries c ks) ∧ total_bytes (drop_entries c ks) <= total_bytes c.
Proof.
  unfold drop_entries. revert c. induction ks as [|k ks IH]; intros c Hc; simpl; [split; [done|lia]|].
  destruct (IH (drop_entry c k)) as [H1 H2]; [by apply drop_entry_ok|].
  split; [done|]. pose proof (drop_entry_le lost c k Hc). lia.
Qed.

Lemma evict_ok lost c size m now l :
  accounts lost c → accounts lost (evict c size m now l) ∧ total_bytes (evict c size m now l) <= total_bytes c.
Proof.
  revert c. induction l as [|[k exp] l IH]; intros c Hc; simpl; [split; [done|lia]|].
  case_goal; [split; [done|lia]|].
  destruct (IH (drop_entry c k)) as [H1 H2]; [by apply drop_entry_ok|].
  split; [done|]. pose proof (drop_entry_le lost c k Hc). lia.
Qed.

Lemma cache_ok_with lost c c' :
  accounts lost c → entries c' = entries c → total_bytes c' = total_bytes c → accounts lost c'.
Proof. intros [Hk Ht Hl] He Hb. split; [by rewrite He|by rewrite He, Hb|done]. Qed.

Lemma sorted_insert_perm x l : insert_by_expiry x l ≡ₚ x :: l.
Proof.
  induction l as [|y l IH]; simpl; [done|]. destruct (_ <=? _); [done|].
  rewrite IH. apply Permutation_swap.
Qed.

Lemma sort_by_expiry_perm l : sort_by_expiry l ≡ₚ l.
Proof. induction l as [|x l IH]; simpl; [done|]. by rewrite sorted_insert_perm, IH. Qed.

(** [sort_by_expiry] orders by expiry. *)
Fixpoint expiry_sorted (l : list (str * Z)) : Prop :=
  match l with [] => True | x :: l' => Forall (fun y => x.2 <= y.2) l' ∧ expiry_sorted l' end.

Lemma insert_sorted x l : expiry_sorted l → expiry_sorted (insert_by_expiry x l).
Proof.
  induction l as [|y l IH]; simpl; [by intros _; split|]. intros [Hy Hl].
  destruct (x.2 <=? y.2) eqn:E; to_prop; simpl.
  - split; [|done]. constructor; [lia|]. eapply Forall_impl; [exact Hy|]. simpl. lia.
  - split; [|by apply IH]. rewrite sorted_insert_perm. constructor; [lia|done].
Qed.

Lemma sort_by_expiry_sorted l : expiry_sorted (sort_by_expiry l).
Proof. induction l as [|x l IH]; simpl; [done|]. by apply insert_sorted. Qed.

Lemma expiry_sorted_split l1 l2 x y :
  expiry_sorted (l1 ++ l2) → x ∈ l1 → y ∈ l2 → x.2 <= y.2.
Proof.
  induction l1 as [|z l1 IH]; simpl; [by intros _ ?%not_elem_of_nil|].
  intros [Hz Hs] [->|Hx]%elem_of_cons Hy; [|by apply IH].
  apply Forall_app in Hz as [_ Hz]. rewrite Forall_forall in Hz. auto.
Qed.

(** Eviction drops a prefix of its list, and stops once the size fits. *)
Lemma evict_prefix c size m now l :
  ∃ l1 l2, l = l1 ++ l2 ∧ evict c size m now l = drop_entries c l1.*1
           ∧ (l2 = [] ∨ total_bytes (evict c size m now l) + size <= m).
Proof.
  revert c. induction l as [|[k exp] l IH]; intros c; simpl.
  - exists [], []. split_and!; [done|done|by left].
  - destruct (_ && _) eqn:E.
    + to_prop. exists [], ((k, exp) :: l). split_and!; [done|done|by right].
    + destruct (IH (drop_entry c k)) as (l1 & l2 & -> & He & Hor).
      exists ((k, exp) :: l1), l2. split_and!; [done|done|done].
Qed.

Lemma drop_entries_get lost c ks j :
  accounts lost c → aget j (entries (drop_entries c ks)) = if decide (j ∈ ks) then None else aget j (entries c).
Proof.
  unfold drop_entries. revert c. induction ks as [|k ks IH]; intros c Hc; cbn [fold_left].
  - rewrite decide_False by apply not_elem_of_nil. done.
  - rewrite IH by by apply drop_entry_ok. unfold drop_entry.
    destruct (decide (j ∈ ks)) as [Hj|Hj]; [by rewrite decide_True by (right; done)|].
    destruct (decide (j = k)) as [->|Hn].
    + rewrite decide_True by left. destruct (aget k (entries c)) eqn:E; [|done].
      simpl. apply aget_aremove_eq. apply Hc.
    + rewrite decide_False by (rewrite elem_of_cons; tauto).
      destruct (aget k (entries c)); [|done]. simpl. by apply aget_aremove_ne.
Qed.

Lemma aget_none_nil {V} (l : list (str * V)) : (∀ j, aget j l = None) → l = [].
Proof. destruct l as [|[k v] l]; [done|]. intros H. specialize (H k). simpl in H. by rewrite decide_True in H. Qed.

(** What the eviction stage of [insert] leaves. *)
Lemma insert_makes_room c key size m now :
  cache_ok c → 0 <= size <= m →
  let c1 := drop_entry c key in
  let l := sort_by_expiry ((fun ke => (ke.1, e_expires_at ke.2)) <$> entries c1) in
  let c2 := if m <? total_bytes c1 + size then evict c1 size m now l else c1 in
  cache_ok c2 ∧ total_bytes c2 + size <= m ∧ aget key (entries c2) = None
  ∧ (∀ j e, aget j (entries c2) = Some e → aget j (entries c) = Some e)
  ∧ (∀ i j ei ej, i ≠ key → aget i (entries c) = Some ei → aget i (entries c2) = None →
       aget j (entries c2) = Some ej → e_expires_at ei <= e_expires_at ej).
Proof.
  intros Hc Hs c1 l c2. assert (Hc1 : cache_ok c1) by by apply drop_entry_ok.
  assert (Hkey1 : aget key (entries c1) = None).
  { destruct (aget key (entries c1)) eqn:E; [|done]. by apply (drop_entry_sub 0) in E as [_ ?]. }
  assert (Hother : ∀ j, j ≠ key → aget j (entries c1) = aget j (entries c)).
  { intros j Hj. unfold c1, drop_entry. destruct (aget key (entries c)); [|done].
    simpl. by apply aget_aremove_ne. }
  assert (Hl : ∀ j e, aget j (entries c1) = Some e → (j, e_expires_at e) ∈ l).
  { intros j e Hj. unfold l. rewrite sort_by_expiry_perm. apply list_elem_of_fmap.
    exists (j, e). split; [done|by apply aget_Some_elem]. }
  destruct (m <? total_bytes c1 + size) eqn:E; to_prop.
  2:{ unfold c2. split_and!; [done|lia|done| |].
      - intros j e Hj. by apply (drop_entry_sub 0) in Hj as [? _].
      - intros i j ei ej Hi H1 H2. rewrite Hother in H2 by done. congruence. }
  destruct (evict_prefix c1 size m now l) as (l1 & l2 & Hll & He & Hor).
  destruct (evict_ok 0 c1 size m now l Hc1) as [Hok _].
  assert (Hget : ∀ j, aget j (entries c2) = if decide (j ∈ l1.*1) then None else aget j (entries c1)).
  { intros j. unfold c2. rewrite He. by apply (drop_entries_get 0). }
  split_and!.
  - done.
  - destruct Hor as [->|?]; [|done]. rewrite app_nil_r in Hll. subst l1.
    assert (Hnil : entries c2 = []).
    { apply aget_none_nil. intros j. rewrite Hget. case_decide as Hj; [done|].
      destruct (aget j (entries c1)) as [e|] eqn:Ej; [|done]. apply Hl in Ej.
      exfalso. apply Hj. apply list_elem_of_fmap. by exists (j, e_expires_at e). }
    unfold c2 in *. rewrite (ok_total _ _ Hok), Hnil. simpl. lia.
  - rewrite Hget, Hkey1. by case_decide.
  - intros j e Hj. rewrite Hget in Hj. case_decide; [done|].
    by apply (drop_entry_sub 0) in Hj as [? _].
  - intros i j ei ej Hi H1 H2 H3. rewrite Hget in H2, H3. rewrite <- Hother in H1 by done.
    case_decide as Hj; [done|].
    destruct (decide (i ∈ l1.*1)) as [Hii|]; [|congruence].
    apply list_elem_of_fmap in Hii as ([i' x] & -> & Hi1). simpl in *.
    assert (Hx : (i', x) ∈ l) by (rewrite Hll; apply elem_of_app; by left).
    unfold l in Hx. rewrite sort_by_expiry_perm in Hx. apply list_elem_of_fmap in Hx as ([i2 e2] & [= -> ->] & Hx).
    apply aget_elem in Hx; [|apply Hc1]. simplify_eq/=.
    assert (Hj2 : (j, e_expires_at ej) ∈ l2).
    { apply Hl in H3. rewrite Hll in H3. apply elem_of_app in H3 as [H3|H3]; [|done].
      exfalso. apply Hj. apply list_elem_of_fmap. by exists (j, e_expires_at ej). }
    assert (Hsorted : expiry_sorted (l1 ++ l2)) by (rewrite <- Hll; apply sort_by_expiry_sorted).
    exact (expiry_sorted_split l1 l2 _ _ Hsorted Hi1 Hj2).
Qed.

(** ** Operations *)

Section Steps.
Context (sha256 : str → str) (max_bytes : Z) (fits : bool).

(** Everything that writes the cache while its budget is [max_bytes]. An [insert]
    whose lifetime ends past the end of the clock panics on the way; where [fits]
    there is none. *)
Inductive cache_step (c : ResponseCache) : ResponseCache → Prop :=
| step_insert now key status hs body ttl resilient swr sk stored c' :
    (fits = true → instant_add now ttl ≠ None) →
    insert sha256 c now key status hs body ttl max_bytes resilient swr sk = (stored, c') →
    cache_step c c'
| step_lookup now key max_stale r c' : cache_lookup c now key max_stale = (r, c') → cache_step c c'
| step_outage now key max_stale r c' : get_for_outage c now key max_stale = (r, c') → cache_step c c'
| step_purge_host host n c' : purge_host c host = (c', n) → cache_step c c'
| step_purge_surrogate tag n c' : purge_by_surrogate c tag = (c', n) → cache_step c c'
| step_purge_matching host path n c' : purge_matching c host path = (c', n) → cache_step c c'
| step_clear : cache_step c (cache_clear c).

(** The invariant of a cache with this budget. *)
Record within_budget (lost : Z) (c : ResponseCache) : Prop := {
  wb_ok : accounts lost c;
  wb_total : total_bytes c <= max_bytes;
  wb_each : Forall (fun ke => body_len ke.2 <= max_bytes / 4) (entries c);
}.

Lemma within_budget_count lost c c' :
  within_budget lost c → entries c' = entries c → total_bytes c' = total_bytes c → within_budget lost c'.
Proof.
  intros [Hok Ht He] H1 H2. split; [by eapply cache_ok_with|lia|by rewrite H1].
Qed.

Lemma drop_entry_Forall (P : str * CachedResponse → Prop) c k :
  Forall P (entries c) → Forall P (entries (drop_entry c k)).
Proof.
  intros H. unfold drop_entry. destruct (aget k (entries c)); [|done]. simpl.
  induction H as [|[k' e'] es Hp Hes IH]; simpl; [done|]. case_decide; [done|by constructor].
Qed.

Lemma within_budget_drop lost c k : within_budget lost c → within_budget lost (drop_entry c k).
Proof.
  intros [Hok Ht He]. split; [by apply drop_entry_ok| |by apply drop_entry_Forall].
  pose proof (drop_entry_le lost c k Hok). lia.
Qed.

Lemma within_budget_drops lost c ks : within_budget lost c → within_budget lost (drop_entries c ks).
Proof.
  unfold drop_entries. revert c. induction ks as [|k ks IH]; intros c Hc; simpl; [done|].
  by apply IH, within_budget_drop.
Qed.

Lemma evict_Forall (P : str * CachedResponse → Prop) c size m now l :
  Forall P (entries c) → Forall P (entries (evict c size m now l)).
Proof.
  revert c. induction l as [|[k exp] l IH]; intros c Hc; simpl; [done|].
  case_goal; [done|]. by apply IH, drop_entry_Forall.
Qed.

Lemma aset_Forall (P : str * CachedResponse → Prop) k e es :
  P (k, e) → Forall P es → Forall P (aset k e es).
Proof.
  intros Hp. induction 1 as [|[k' e'] es He Hes IH]; simpl; [by constructor|].
  case_decide; by constructor.
Qed.

(** Eviction makes no entry. *)
Lemma evict_none lost c size m now l key :
  accounts lost c → aget key (entries c) = None → aget key (entries (evict c size m now l)) = None.
Proof.
  intros Hc Hn. destruct (evict_prefix c size m now l) as (l1 & l2 & _ & -> & _).
  rewrite (drop_entries_get lost) by done. rewrite Hn. by case_decide.
Qed.

Lemma drop_entry_none lost c key : accounts lost c → aget key (entries (drop_entry c key)) = None.
Proof.
  intros Hc. destruct (aget key (entries (drop_entry c key))) eqn:E; [|done].
  by apply (drop_entry_sub lost) in E as [_ ?].
Qed.

(** An insert keeps the budget; only a panic counts bytes that are not held. *)
Lemma within_budget_insert lost c now key status hs body ttl resilient swr sk stored c' :
  within_budget lost c →
  insert sha256 c now key status hs body ttl max_bytes resilient swr sk = (stored, c') →
  ∃ lost', within_budget lost' c' ∧ (instant_add now ttl ≠ None → lost' = lost).
Proof.
  intros Hwb. pose proof (within_budget_drop lost c key Hwb) as [Hok1 Ht1 He1]. unfold insert.
  destruct (max_bytes / 4 <? len body) eqn:E4; [intros [= <- <-]; by exists lost|]. to_prop.
  pose proof (drop_entry_none lost c key (wb_ok _ _ Hwb)) as Hnone1.
  set (c1 := drop_entry c key) in *. set (l := sort_by_expiry _).
  set (c2 := if max_bytes <? total_bytes c1 + len body then _ else c1).
  assert (H2 : accounts lost c2 ∧ total_bytes c2 <= total_bytes c1 ∧ aget key (entries c2) = None
               ∧ Forall (fun ke => body_len ke.2 <= max_bytes / 4) (entries c2)).
  { unfold c2. destruct (max_bytes <? _); [|split_and!; [done|lia|done|done]].
    destruct (evict_ok _ c1 (len body) max_bytes now l Hok1). split_and!; [done|done| |].
    - by apply (evict_none lost).
    - by apply evict_Forall. }
  destruct H2 as (Hok2 & Ht2 & Hnone & He2).
  destruct (max_bytes <? total_bytes c2 + len body) eqn:Efit; to_prop.
  { intros [= <- <-]. exists lost. split; [|done]. split; [done|lia|done]. }
  pose proof (len_nonneg body) as Hbody. pose proof (ok_lost _ _ Hok2).
  destruct (instant_add now ttl) as [exp|]; intros [= <- <-].
  - exists lost. split; [|done]. split; simpl; [|lia|].
    + split; simpl; [apply NoDup_aset, Hok2| |done].
      rewrite sum_bodies_aset, Hnone, (ok_total _ _ Hok2). unfold body_len. simpl. lia.
    + apply aset_Forall; [unfold body_len; simpl; lia|done].
  - exists (lost + len body). split; [|done]. split; simpl; [|lia|done].
    split; simpl; [apply Hok2| |lia]. rewrite (ok_total _ _ Hok2). lia.
Qed.

Lemma within_budget_lookup lost c now key max_stale :
  within_budget lost c → within_budget lost (cache_lookup c now key max_stale).2.
Proof.
  intros H. unfold cache_lookup. destruct (aget key (entries c)) as [e|] eqn:Ek;
    [|by eapply within_budget_count].
  destruct (now <? e_expires_at e); [by eapply within_budget_count|].
  destruct (instant_add _ _) as [t|]; [|done]. destruct (now <? t).
  - simpl. destruct (match e_revalidate_started e with None => _ | Some _ => _ end);
      [|by eapply within_budget_count].
    destruct H as [[Hk Ht Hl] Hb He]. split; simpl; [split; simpl; [| |done]|done|].
    + by apply NoDup_aset.
    + rewrite sum_bodies_aset, Ek, Ht. unfold body_len. simpl. lia.
    + apply aset_Forall; [|done]. simpl. rewrite Forall_forall in He.
      exact (He _ (aget_Some_elem _ _ _ Ek)).
  - destruct (e_resilient e).
    + destruct (instant_add _ _) as [t'|]; [|done]. simpl.
      destruct (now <? t'); [by eapply within_budget_count|].
      eapply within_budget_count; [by apply within_budget_drop|done|done].
    + simpl. eapply within_budget_count; [by apply within_budget_drop|done|done].
Qed.

Lemma within_budget_outage lost c now key max_stale :
  within_budget lost c → within_budget lost (get_for_outage c now key max_stale).2.
Proof.
  intros H. unfold get_for_outage. destruct (aget key (entries c)) as [e|]; [|done].
  assert (Hg : within_budget lost (if e_expires_at e <=? now then drop_entry c key else c))
    by (destruct (_ <=? _); [by apply within_budget_drop|done]).
  destruct (negb (e_resilient e)); [done|].
  destruct (instant_add _ _) as [t|]; [|done]. by destruct (t <=? now).
Qed.

(** What holds of a cache in use: a number of bytes lost to panics, none where
    every lifetime fits the clock. *)
Definition kept_budget (c : ResponseCache) : Prop :=
  ∃ lost, within_budget lost c ∧ (fits = true → lost = 0).

Lemma empty_within c : 0 <= max_bytes → entries c = [] → total_bytes c = 0 → within_budget 0 c.
Proof. intros Hm He Ht. split; rewrite ?He; [split; rewrite ?He; [constructor|done|done]|lia|constructor]. Qed.

Lemma cache_step_within c c' : 0 <= max_bytes → kept_budget c → cache_step c c' → kept_budget c'.
Proof.
  intros Hm (lost & Hwb & Hlost) Hs.
  assert (Hkeep : ∀ c2, within_budget lost c2 → kept_budget c2) by (intros c2 ?; by exists lost).
  assert (Hclear : kept_budget (cache_clear c)) by (exists 0; split; [by apply empty_within|done]).
  destruct Hs as [now key st hs body ttl re swr sk stored c' Hfit H
    |now key ms r c' H|now key ms r c' H|host n c' H|tag n c' H|host path n c' H|].
  - apply (within_budget_insert lost) in H as (lost' & ? & Hl); [|done]. exists lost'. split; [done|].
    intros Hf. rewrite Hl by by apply Hfit. by apply Hlost.
  - apply Hkeep. pose proof (within_budget_lookup lost c now key ms Hwb). by rewrite H in *.
  - apply Hkeep. pose proof (within_budget_outage lost c now key ms Hwb). by rewrite H in *.
  - apply Hkeep. unfold purge_host, purge_keys in H. simplify_eq. by apply within_budget_drops.
  - apply Hkeep. unfold purge_by_surrogate, purge_keys in H. simplify_eq. by apply within_budget_drops.
  - unfold purge_matching, purge_keys in H. destruct host, path; simplify_eq;
      try by apply Hkeep, within_budget_drops. done.
  - done.
Qed.
End Steps.

(** C34: The cache accounts for its memory. Whatever sequence of inserts,
    lookups, outage reads and purges is run on a cache with a budget, the bodies
    it holds stay within the total it keeps and that total within the budget, no
    body takes more than a quarter of it, and each key is held once. The total is
    exactly the sum of the bodies held as long as no lifetime ends past the end
    of the clock; an insert with one that does panics after counting the body, and
    the total stays too high ([overflowing_lifetime_leaks]). *)
Theorem cache_accounting sha256 max_bytes fits c :
  0 <= max_bytes → rtc (cache_step sha256 max_bytes fits) empty_cache c →
  sum_bodies (entries c) <= total_bytes c ∧ total_bytes c <= max_bytes
  ∧ NoDup (keys (entries c)) ∧ Forall (fun ke => body_len ke.2 <= max_bytes / 4) (entries c)
  ∧ (fits = true → total_bytes c = sum_bodies (entries c)).
Proof.
  intros Hm Hr.
  assert (Hwb : kept_budget max_bytes fits c).
  { assert (H0 : kept_budget max_bytes fits empty_cache) by (exists 0; split; [by apply empty_within|done]).
    revert H0. induction Hr as [|c1 c2 c3 Hs _ IH]; [done|]. intros H1. apply IH.
    by eapply cache_step_within. }
  destruct Hwb as (lost & [[Hk Ht Hl] Hb He] & Hf).
  split_and!; [lia|done|done|done|]. intros Hfits. rewrite Ht, Hf by done. lia.
Qed.

(** A concrete digest for the examples: the first sixteen bytes, padded. *)
Definition sample_digest (s : str) : str := take 32 (s ++ replicate 32 "0"%char).

Definition sample_cache : ResponseCache :=
  (insert sample_digest empty_cache 100 (bs "h|/a") 200 [] (bs "hello") (10 * second) 1000 true
     (5 * second) []).2.

Definition leaking_cache : ResponseCache :=
  (insert sample_digest sample_cache 100 (bs "h|/b") 200 [] (bs "hello") (u64_max * second) 1000 false 0 []).2.

Lemma cache_accounting_witness :
  total_bytes sample_cache = sum_bodies (entries sample_cache)
  ∧ sum_bodies (entries leaking_cache) <= total_bytes leaking_cache.
Proof.
  split.
  - apply (cache_accounting sample_digest 1000 true sample_cache); [lia| |reflexivity].
    apply rtc_once. eapply (step_insert _ _ _ _ 100 (bs "h|/a") 200 [] (bs "hello") (10 * second) true
      (5 * second) [] (Some true)); [intros _ H; vm_compute in H; discriminate H|vm_compute; reflexivity].
  - apply (cache_accounting sample_digest 1000 false leaking_cache); [lia|].
    apply (rtc_l _ _ sample_cache); [|apply rtc_once].
    + eapply (step_insert _ _ _ _ 100 (bs "h|/a") 200 [] (bs "hello") (10 * second) true
        (5 * second) [] (Some true)); [intros H; discriminate H|vm_compute; reflexivity].
    + eapply (step_insert _ _ _ _ 100 (bs "h|/b") 200 [] (bs "hello") (u64_max * second) false
        0 [] None); [intros H; discriminate H|vm_compute; reflexivity].
Defined.

(** A lifetime past the end of the clock panics after the size was counted: the
    total then stands for a body the cache does not hold. *)
Example overflowing_lifetime_leaks :
  let c := (insert sample_digest empty_cache 100 (bs "h|/a") 200 [] (bs "hello")
              (u64_max * second) 1000 false 0 []) in
  c.1 = None ∧ entries c.2 = [] ∧ total_bytes c.2 = 5.
Proof. vm_compute. done. Qed.

(** ** What a lookup returns *)

(** What was stored is what is served. A body of at most a quarter of the
    budget is always stored, evicting only entries that expire no later than
    every entry kept; until its lifetime ends a lookup of its key serves that
    very body and status, fresh, and every other entry that is still there is
    unchanged. *)
Theorem cache_insert_lookup sha256 c now key status hs body ttl m resilient swr sk :
  cache_ok c → len body <= m / 4 → instant_add now ttl = Some (now + ttl) →
  ∃ c', insert sha256 c now key status hs body ttl m resilient swr sk = (Some true, c')
  ∧ (∀ t ms, t < now + ttl → ∃ h,
       (cache_lookup c' t key ms).1 = Some (Fresh h) ∧ h_body h = body ∧ h_status h = status
       ∧ h_stale h = false ∧ h_age_secs h = sat_sub t now / second)
  ∧ (∀ j e, j ≠ key → aget j (entries c') = Some e → aget j (entries c) = Some e)
  ∧ (∀ i j ei ej, i ≠ key → j ≠ key → aget i (entries c) = Some ei → aget i (entries c') = None →
       aget j (entries c') = Some ej → e_expires_at ei <= e_expires_at ej).
Proof.
  intros Hok Hsize Hexp. pose proof (len_nonneg body) as Hl.
  destruct (insert_makes_room c key (len body) m now Hok) as (Hok2 & Hfit & _ & Hsub & Hord);
    [Z.div_mod_to_equations; lia|].
  unfold insert. rewrite (proj2 (Z.ltb_ge _ _)) by lia.
  set (c2 := if m <? _ then _ else _) in *.
  rewrite (proj2 (Z.ltb_ge _ _)) by lia. rewrite Hexp. eexists. split; [reflexivity|]. split_and!.
  - intros t ms Ht. unfold cache_lookup. simpl entries. rewrite aget_aset_eq. simpl e_expires_at.
    rewrite (proj2 (Z.ltb_lt _ _)) by done. eexists. split; [reflexivity|]. done.
  - intros j e Hj. simpl. rewrite aget_aset_ne by done. apply Hsub.
  - intros i j ei ej Hi Hj. simpl. rewrite !aget_aset_ne by done. by apply Hord.
Qed.

Lemma cache_insert_lookup_witness :
  ∃ h, (cache_lookup sample_cache (9 * second) (bs "h|/a") 0).1 = Some (Fresh h) ∧ h_body h = bs "hello".
Proof.
  destruct (cache_insert_lookup sample_digest empty_cache 100 (bs "h|/a") 200 [] (bs "hello")
              (10 * second) 1000 true (5 * second) []) as (c' & Hc & H & _);
    [split; [constructor|reflexivity|done]|vm_compute; discriminate|reflexivity|].
  assert (c' = sample_cache) as -> by (unfold sample_cache; by rewrite Hc).
  destruct (H (9 * second) 0) as (h & H1 & H2 & _); [reflexivity|]. by exists h.
Defined.

(** The leader flag of a lookup. *)
Definition leads (r : option SwrLookup) : bool :=
  match r with Some (StaleRevalidate _ lead) => lead | _ => false end.

(** A lookup never serves past what the response allowed. A fresh answer
    is the stored one before its expiry; a stale one is inside the
    stale-while-revalidate window the response advertised; and of the lookups of
    one key within one retry interval, with no insert between them, at most one
    is told to revalidate. An outage read answers only a resilient entry within
    the allowed staleness. *)
Theorem cache_lookup_windows c now key max_stale :
  let '(r, c') := cache_lookup c now key max_stale in
  match r with
  | Some (Fresh h) => ∃ e, aget key (entries c) = Some e ∧ h = hit_of e now false ∧ now < e_expires_at e
  | Some (StaleRevalidate h lead) =>
      ∃ e, aget key (entries c) = Some e ∧ h = hit_of e now true
           ∧ e_expires_at e <= now < e_expires_at e + e_swr e
  | Some Miss => ∀ e, aget key (entries c) = Some e → e_expires_at e + e_swr e <= now
  | None => ∃ e, aget key (entries c) = Some e ∧ e_expires_at e <= now
  end
  ∧ (leads r = true → ∀ now' ms', now <= now' < now + REVALIDATE_RETRY →
       leads (cache_lookup c' now' key ms').1 = false)
  ∧ (∀ h, (get_for_outage c now key max_stale).1 = Some (Some h) →
       ∃ e, aget key (entries c) = Some e ∧ e_resilient e = true
            ∧ now < e_expires_at e + max_stale ∧ h = hit_of e now (e_expires_at e <=? now)).
Proof.
  assert (Hout : ∀ h, (get_for_outage c now key max_stale).1 = Some (Some h) →
       ∃ e, aget key (entries c) = Some e ∧ e_resilient e = true
            ∧ now < e_expires_at e + max_stale ∧ h = hit_of e now (e_expires_at e <=? now)).
  { intros h. unfold get_for_outage. destruct (aget key (entries c)) as [e|]; [|done].
    destruct (e_resilient e) eqn:Er; [|done]. simpl. unfold instant_add.
    destruct (_ <=? instant_max); [|done]. destruct (_ <=? now) eqn:El at 1; [done|].
    intros [= <-]. to_prop. exists e. split_and!; try done. }
  unfold cache_lookup at 1. destruct (aget key (entries c)) as [e|] eqn:Ek; [|by split_and!].
  destruct (now <? e_expires_at e) eqn:E1; to_prop.
  { split_and!; [|done|done]. exists e. done. }
  unfold instant_add. destruct (e_expires_at e + e_swr e <=? instant_max) eqn:Eo;
    [|split_and!; [exists e; done|done|done]].
  destruct (now <? e_expires_at e + e_swr e) eqn:E2; to_prop.
  - set (lead := match e_revalidate_started e with None => _ | Some _ => _ end).
    split_and!; [exists e; split_and!; [done|done|lia|lia]| |done].
    simpl leads. intros Hl now' ms' Hn. rewrite Hl. unfold cache_lookup. simpl entries.
    rewrite aget_aset_eq. simpl. rewrite (proj2 (Z.ltb_ge _ _)) by lia.
    unfold instant_add. rewrite (proj2 (Z.leb_le _ _)) by lia.
    destruct (now' <? _); simpl.
    + apply Z.leb_gt. unfold sat_sub. lia.
    + destruct (e_resilient e); [|done]. by destruct (_ <=? instant_max).
  - destruct (e_resilient e).
    + destruct (e_expires_at e + max_stale <=? instant_max).
      * split_and!; [|done|done]. intros e' [= <-]. lia.
      * split_and!; [exists e; done|done|done].
    + split_and!; [|done|done]. intros e' [= <-]. lia.
Qed.

(** ** Ranges and lifetimes *)

(** A partial answer is a slice of the body: the first byte is not after
    the last and the last is inside, and it is the slice the header asked for,
    cut to the body; a range is refused only when it starts past the end or is
    an empty suffix. *)
Theorem evaluate_range_in_bounds range n :
  0 <= n →
  match evaluate_range range n with
  | Partial s e => 0 <= s <= e ∧ e < n ∧
      ∃ a b, strip_prefix (bs "bytes=") (trim range) = Some (a ++ "-"%char :: b) ∧
        ((trim a = [] ∧ e = n - 1 ∧ ∃ k, parse_uint usize_max (trim b) = Some k ∧ s = Z.max 0 (n - k))
         ∨ (parse_uint usize_max (trim a) = Some s
            ∧ (trim b = [] ∧ e = n - 1
               ∨ ∃ k, parse_uint usize_max (trim b) = Some k ∧ e = Z.min k (n - 1))))
  | Unsatisfiable => 0 < n ∧
      ∃ a b, strip_prefix (bs "bytes=") (trim range) = Some (a ++ "-"%char :: b) ∧
        (parse_uint usize_max (trim b) = Some 0 ∨ ∃ k, parse_uint usize_max (trim a) = Some k ∧ n <= k)
  | Full => True
  end.
Proof.
  intros Hn. unfold evaluate_range.
  destruct (strip_prefix (bs "bytes=") (trim range)) as [spec|]; [|done].
  destruct (has comma spec || (n =? 0)) eqn:E0; [done|]. to_prop.
  destruct (split_once "-"%char spec) as [[a b]|] eqn:Es; [|done].
  apply split_once_Some in Es as [-> _].
  destruct (trim a) as [|a0 a1] eqn:Ea.
  - destruct (parse_uint usize_max (trim b)) as [k|] eqn:Ek; [|done].
    pose proof (parse_uint_range _ _ _ Ek). destruct (k =? 0) eqn:Ez; to_prop.
    + subst k. split; [lia|]. exists a, b. auto.
    + unfold sat_sub. split_and!; [lia|lia|lia|]. exists a, b. split; [done|]. left.
      split_and!; [done|lia|]. exists k. split; [done|lia].
  - destruct (parse_uint usize_max (a0 :: a1)) as [s|] eqn:Ep; [|done].
    pose proof (parse_uint_range _ _ _ Ep). destruct (n <=? s) eqn:El; to_prop.
    { split; [lia|]. exists a, b. split; [done|]. right. exists s. by rewrite Ea. }
    destruct (trim b) as [|b0 b1] eqn:Eb.
    + rewrite (proj2 (Z.ltb_ge _ _)) by lia. split_and!; [lia|lia|lia|]. exists a, b.
      split; [done|]. right. rewrite Ea, Eb. auto.
    + destruct (parse_uint usize_max (b0 :: b1)) as [k|] eqn:Ek; [|done].
      destruct (Z.min k (n - 1) <? s) eqn:Em; [done|]. to_prop.
      split_and!; [lia|lia|lia|]. exists a, b. split; [done|]. right. rewrite Ea, Eb. eauto.
Qed.

Lemma evaluate_range_in_bounds_witness : evaluate_range (bs "bytes=-3") 10 = Partial 7 9.
Proof.
  pose proof (evaluate_range_in_bounds (bs "bytes=-3") 10 ltac:(lia)) as H.
  destruct (evaluate_range (bs "bytes=-3") 10) as [|s e|] eqn:E;
    [vm_compute in E; discriminate| |vm_compute in E; discriminate].
  vm_compute in E. injection E as <- <-. reflexivity.
Defined.

(** The answer of [s-maxage] is an early return: what follows it, here a cookie
    and a [private], no longer disqualifies the response. *)
Example smaxage_skips_the_rest :
  let hs := [(bs "cache-control", bs "s-maxage=60, private"); (bs "set-cookie", bs "sid=1")] in
  response_cache_ttl hs = Some 60 ∧ response_uncacheable hs = true.
Proof. split; vm_compute; reflexivity. Qed.

(** No [Cache-Control] header carries an [s-maxage] that parses. *)
Definition no_smaxage (hs : headers) : Prop :=
  Forall (fun nv => lower nv.1 = bs "cache-control" →
            Forall (fun d => directive_secs (bs "s-maxage=") d = None) (directives nv.2)) hs.

Lemma ttl_directives_plain ds ttl :
  Forall (fun d => directive_secs (bs "s-maxage=") d = None) ds →
  match ttl_directives ds ttl with
  | inl a => a = None ∧ existsb is_forbidding ds = true
  | inr _ => existsb is_forbidding ds = false
  end.
Proof.
  intros H. revert ttl. induction H as [|d ds Hd _ IH]; intros ttl; simpl; [done|].
  destruct (is_forbidding d); [done|]. rewrite Hd. simpl.
  destruct (directive_secs (bs "max-age=") d); apply IH.
Qed.

Lemma ttl_directives_positive ds ttl d : ttl_directives ds ttl = inl (Some d) → 0 < d.
Proof.
  revert ttl. induction ds as [|x ds IH]; intros ttl; simpl; [done|].
  destruct (is_forbidding x); [done|].
  destruct (directive_secs (bs "s-maxage=") x) as [secs|].
  - destruct (0 <? secs) eqn:E; [|done]. intros [= <-]. by to_prop.
  - destruct (directive_secs (bs "max-age=") x); apply IH.
Qed.

Lemma ttl_headers_spec hs ttl hc d :
  ttl_headers hs ttl hc = Some d →
  0 < d ∧ (no_smaxage hs → response_uncacheable hs = false).
Proof.
  revert ttl hc. induction hs as [|[n v] hs IH]; intros ttl hc; simpl.
  - destruct hc; [|done]. destruct ttl as [secs|]; [|done]. simpl.
    destruct (0 <? secs) eqn:E; [|done]. intros [= <-]. to_prop. done.
  - destruct (str_eqb (lower n) (bs "vary") || str_eqb (lower n) (bs "set-cookie")); [done|].
    destruct (str_eqb (lower n) (bs "cache-control")) eqn:Ec.
    + apply str_eqb_eq in Ec. destruct (ttl_directives (directives v) ttl) as [a|t] eqn:Et.
      * intros ->. split; [by eapply ttl_directives_positive|]. intros Hns.
        apply Forall_cons in Hns as [Hv _].
        pose proof (ttl_directives_plain (directives v) ttl (Hv Ec)) as Hp. rewrite Et in Hp.
        by destruct Hp.
      * intros [Hd Hu]%IH. split; [done|]. intros Hns. apply Forall_cons in Hns as [Hv Hns].
        pose proof (ttl_directives_plain (directives v) ttl (Hv Ec)) as Hp. rewrite Et in Hp.
        rewrite Hp. auto.
    + intros [Hd Hu]%IH. split; [done|]. intros Hns. apply Forall_cons in Hns as [_ Hns]. auto.
Qed.

(** A response is given a positive lifetime or none, and, as long as no
    [s-maxage] directive is present, never one that carries [Vary],
    [Set-Cookie], [no-store], [no-cache] or [private]. *)
Theorem cache_ttl_respects_refusals hs d :
  response_cache_ttl hs = Some d → 0 < d ∧ (no_smaxage hs → response_uncacheable hs = false).
Proof. apply ttl_headers_spec. Qed.

Lemma cache_ttl_respects_refusals_witness :
  response_uncacheable [(bs "Cache-Control", bs "public, max-age=60")] = false.
Proof.
  apply (cache_ttl_respects_refusals [(bs "Cache-Control", bs "public, max-age=60")] 60);
    [vm_compute; reflexivity|].
  assert (E : directives (bs "public, max-age=60") = [bs "public"; bs "max-age=60"])
    by (vm_compute; reflexivity).
  constructor; [intros _|constructor]. simpl snd. rewrite E. repeat constructor.
Defined.
