(* ===== verification/RateLimit.v ===== *)
(** Admission limits: the token buckets of [aperio-server/src/state/limits.rs]
    and the questions of [aperio-server/src/state/admission.rs] about rates,
    quotas and maintenance.

    The code keeps token balances in [f64]. The buckets are written over an
    interface of the operations they use ([Float]), whose laws ([FloatLaws]) hold
    of the non-NaN [f64] values with their rounding; the invariants are proved
    from the laws, and the bound on what a bucket admits over time for the exact
    rational instance. Instants are nanosecond counts; the current day or month
    and what the site configuration answers for a request are arguments. *)

From Stdlib Require Import QArith Lqa.
From S2P Require Import Prelude Binds IpNet Orgs.
Open Scope Z_scope.

(** ** Numbers *)

Class Float (F : Type) : Type := {
  fzero : F;
  fnum : Z → F;
  fadd : F → F → F;
  fsub : F → F → F;
  fmul : F → F → F;
  fleb : F → F → bool;
  (** [Duration::as_secs_f64] of a nanosecond count. *)
  fsecs : Z → F;
}.

Definition fmin {F} `{Float F} (x y : F) : F := if fleb x y then x else y.
Definition fmax {F} `{Float F} (x y : F) : F := if fleb y x then x else y.
Definition fltb {F} `{Float F} (x y : F) : bool := negb (fleb y x).

Class FloatLaws (F : Type) `{Float F} : Prop := {
  fle_refl x : fleb x x = true;
  fle_trans x y z : fleb x y = true → fleb y z = true → fleb x z = true;
  fle_total x y : fleb x y = true ∨ fleb y x = true;
  fnum_mono a b : a <= b → fleb (fnum a) (fnum b) = true;
  fzero_num : fzero = fnum 0;
  fsecs_nonneg d : 0 <= d → fleb fzero (fsecs d) = true;
  fmul_nonneg x y : fleb fzero x = true → fleb fzero y = true → fleb fzero (fmul x y) = true;
  fadd_ge x y : fleb fzero y = true → fleb x (fadd x y) = true;
  fsub_nonneg x y : fleb y x = true → fleb fzero (fsub x y) = true;
  fsub_le x y : fleb fzero y = true → fleb (fsub x y) x = true;
}.

(** Exact arithmetic. *)
#[export] Instance Q_float : Float Q := {
  fzero := 0%Q;
  fnum := inject_Z;
  fadd := Qplus;
  fsub := Qminus;
  fmul := Qmult;
  fleb := Qle_bool;
  fsecs d := (d # 1000000000)%Q;
}.

#[export] Instance Q_laws : FloatLaws Q.
Proof.
  split; simpl; intros; rewrite ?Qle_bool_iff in *.
  - apply Qle_refl.
  - by eapply Qle_trans.
  - destruct (Qlt_le_dec y x) as [Hl|Hl]; [right|left]; [by apply Qlt_le_weak|done].
  - by rewrite <- Zle_Qle.
  - done.
  - unfold Qle. simpl. lia.
  - by apply Qmult_le_0_compat.
  - lra.
  - lra.
  - lra.
Qed.

(** ** Buckets *)

Record RateLimitState (F : Type) : Type := {
  tokens : F;
  last_updated : Z;
}.
Arguments tokens {F}.
Arguments last_updated {F}.

Definition BUCKET_TTL : Z := 600 * second.
Definition TOKEN_MAP_GC_THRESHOLD : nat := 1000.

Definition bucket_is_live (now last : Z) : bool := sat_sub now last <? BUCKET_TTL.

Inductive RateCost : Type := Cheap | Guessable | Expensive.

Inductive Limit : Type :=
| LIp | LServerConcurrency | LRoute | LClientConcurrency | TokenRate | TokenQuota | LOrgQuota | LStreamsPerIp.

#[export] Instance Limit_eq_dec : EqDecision Limit.
Proof. solve_decision. Defined.

Section Buckets.
Context {F : Type} `{FloatLaws F}.

Definition cost_tokens (c : RateCost) : F :=
  match c with Cheap => fnum 1 | Guessable => fnum 2 | Expensive => fnum 5 end.

(** [retain(|_, v| bucket_is_live(now, v.last_updated))] *)
Definition sweep {K} (m : list (K * RateLimitState F)) (now : Z) : list (K * RateLimitState F) :=
  filter (fun kv => bucket_is_live now (last_updated kv.2) = true) m.

Definition gc_token_rate (m : list (str * RateLimitState F)) (now : Z) : list (str * RateLimitState F) :=
  if (TOKEN_MAP_GC_THRESHOLD <? length m)%nat
  then filter (fun kv => (sat_sub now (last_updated kv.2) <? 600 * second) = true) m else m.

Definition refill (rate burst : F) (b : RateLimitState F) (now : Z) : RateLimitState F :=
  {| tokens := fmin (fadd (tokens b) (fmul (fsecs (sat_sub now (last_updated b))) rate)) burst;
     last_updated := now |}.

(** Entry, refill and charge of one bucket of a map, as the three limiters do
    it: [entry(key).or_insert(full)], refill, then take [cost] if it is there. *)
Definition charge {K} `{EqDecision K} (m : list (K * RateLimitState F)) (key : K) (now : Z)
    (rate burst cost : F) : bool * list (K * RateLimitState F) :=
  let b := default {| tokens := burst; last_updated := now |} (aget key m) in
  let b := refill rate burst b now in
  if fleb cost (tokens b)
  then (true, aset key {| tokens := fsub (tokens b) cost; last_updated := now |} m)
  else (false, aset key b m).

Definition charge_rate_limit (m : list (ipaddr * RateLimitState F)) (ip : ipaddr) (now : Z)
    (ip_limit_max ip_limit_refill cost : F) : bool * list (ipaddr * RateLimitState F) :=
  let m := if (1000 <? length m)%nat then sweep m now else m in
  charge m ip now ip_limit_refill ip_limit_max cost.

Definition check_rate_limit_cost (m : list (ipaddr * RateLimitState F)) (ip : ipaddr) (now : Z)
    (ip_limit_max ip_limit_refill : F) (cost : RateCost) :=
  charge_rate_limit m ip now ip_limit_max ip_limit_refill (cost_tokens cost).

Definition check_rate_limit (m : list (ipaddr * RateLimitState F)) (ip : ipaddr) (now : Z)
    (ip_limit_max ip_limit_refill : F) :=
  check_rate_limit_cost m ip now ip_limit_max ip_limit_refill Cheap.

(** [limit] is what the site configuration answers for the request: the rate,
    the burst and the key of the shared bucket. *)
Definition check_route_rate_limit (m : list (str * RateLimitState F)) (limit : option (F * F * str))
    (now : Z) : bool * list (str * RateLimitState F) :=
  match limit with
  | None => (true, m)
  | Some (rps, burst, key) =>
      let m := if (TOKEN_MAP_GC_THRESHOLD <? length m)%nat then sweep m now else m in
      charge m key now rps burst (fnum 1)
  end.

(** What the token store says about a token. *)
Record token_record : Type := {
  t_id : str;
  t_max_rps : option F;
  t_daily_max_bytes : option Z;
}.

Definition positive_rps (r : option F) : option F :=
  match r with Some v => if fltb fzero v then Some v else None | None => None end.
Definition positive_quota (q : option Z) : option Z :=
  match q with Some v => if 0 <? v then Some v else None | None => None end.

Definition check_token_limits (store : list token_record) (rates : list (str * RateLimitState F))
    (daily : list (str * (str * Z))) (today : str) (now : Z) (token_id : option str)
    : result unit Limit * list (str * RateLimitState F) :=
  match token_id with
  | None => (Ok tt, rates)
  | Some id =>
      match find (fun t => str_eqb (t_id t) id) store with
      | None => (Ok tt, rates)
      | Some t =>
          let '(ok, rates) :=
            match positive_rps (t_max_rps t) with
            | None => (true, rates)
            | Some rps => charge (gc_token_rate rates now) id now rps (fmax rps (fnum 1)) (fnum 1)
            end in
          if negb ok then (Err TokenRate, rates)
          else match positive_quota (t_daily_max_bytes t), aget id daily with
               | Some quota, Some (day, used) =>
                   if str_eqb day today && (quota <=? used) then (Err TokenQuota, rates)
                   else (Ok tt, rates)
               | _, _ => (Ok tt, rates)
               end
      end
  end.

(** A session is its expiry, in Unix seconds. *)
Definition gc_tick_once (rate_limiter : list (ipaddr * RateLimitState F))
    (route_rate : list (str * RateLimitState F)) (sessions : list Z) (now now_secs : Z) :=
  (sweep rate_limiter now, sweep route_rate now, filter (fun exp => now_secs < exp) sessions).
End Buckets.
Arguments token_record F : clear implicits.

(** ** Daily bytes and organization quotas *)

Definition gc_token_daily_bytes (m : list (str * (str * Z))) (today : str) : list (str * (str * Z)) :=
  if (TOKEN_MAP_GC_THRESHOLD <? length m)%nat
  then filter (fun kv => str_eqb kv.2.1 today = true) m else m.

Definition add_token_bytes (m : list (str * (str * Z))) (today : str) (token_id : option str) (bytes : Z)
    : list (str * (str * Z)) :=
  match token_id with
  | None => m
  | Some id =>
      if bytes =? 0 then m
      else
        let m := gc_token_daily_bytes m today in
        let '(day, used) := default (today, 0) (aget id m) in
        aset id (if negb (str_eqb day today) then (today, bytes) else (day, sat_add64 used bytes)) m
  end.

Record org_record : Type := {
  o_id : str;
  o_max_clients : option Z;
  o_max_bytes_month : option Z;
}.

Definition org_quota (store : list org_record) (org : option str) : option org_record :=
  match org with Some id => find (fun o => str_eqb (o_id o) id) store | None => None end.

(** The error carries the quota it names. *)
Definition check_org_client_quota (store : list org_record) (client_orgs : list (option str))
    (org : option str) : result unit Z :=
  match org_quota store org with
  | Some o => match o_max_clients o with
              | Some max => if max <=? Z.of_nat (length (filter (fun c => c = org) client_orgs))
                            then Err max else Ok tt
              | None => Ok tt
              end
  | None => Ok tt
  end.

(** [month_bytes]: the bytes of the current month in the organization's stats. *)
Definition org_over_month_bytes (store : list org_record) (month_bytes : option Z) (org : option str)
    : bool :=
  match org_quota store org with
  | Some o => match o_max_bytes_month o with
              | Some max => max <=? default 0 month_bytes
              | None => false
              end
  | None => false
  end.

(** ** Maintenance *)

Record MaintenanceFlag : Type := {
  mf_org : option str;
  mf_reason : option str;
  mf_until : option Z;
  mf_since : Z;
  mf_actor : str;
}.

Definition expired (f : MaintenanceFlag) (now : Z) : bool :=
  match mf_until f with Some end_ => end_ <=? now | None => false end.
Definition retry_after (f : MaintenanceFlag) (now : Z) : option Z :=
  (fun end_ => Z.max (sat_sub end_ now) 1) <$> mf_until f.

Definition flag_matches (host : option str) (pattern : str) : bool :=
  str_eqb pattern (bs "*")
  || match host with
     | Some h => str_eqb pattern h || (has star pattern && pattern_matches_host pattern h)
     | None => false
     end.

(** [window]: the scheduled window the site configuration says is running for
    the host, as its reason and its end. *)
Definition maintenance_for (window : option (option str * Z)) (set : list (str * MaintenanceFlag))
    (now : Z) (host : option str) : option MaintenanceFlag :=
  match window with
  | Some (reason, until) =>
      Some {| mf_org := None; mf_reason := reason; mf_until := Some until; mf_since := now;
              mf_actor := bs "schedule" |}
  | None =>
      snd <$> find (fun pf => flag_matches host pf.1)
                (filter (fun pf => expired pf.2 now = false) set)
  end.

(** ** The balance stays between nothing and the burst *)

Section Invariant.
Context {F : Type} `{FloatLaws F} {K : Type} `{EqDecision K}.

Definition bucket_ok (burst : F) (b : RateLimitState F) : Prop :=
  fleb fzero (tokens b) = true ∧ fleb (tokens b) burst = true.

Lemma fmin_le_r (x y : F) : fleb (fmin x y) y = true.
Proof. unfold fmin. destruct (fleb x y) eqn:E; [done|apply fle_refl]. Qed.

Lemma fmin_glb (x y z : F) : fleb z x = true → fleb z y = true → fleb z (fmin x y) = true.
Proof. intros ? ?. unfold fmin. by destruct (fleb x y). Qed.

Lemma refill_ok rate burst b now :
  fleb fzero rate = true → fleb fzero burst = true → bucket_ok burst b →
  bucket_ok burst (refill rate burst b now).
Proof.
  intros Hr Hb [Hz _]. split; simpl; [|apply fmin_le_r]. apply fmin_glb; [|done].
  eapply fle_trans; [exact Hz|]. apply fadd_ge, fmul_nonneg; [|done].
  apply fsecs_nonneg. unfold sat_sub. lia.
Qed.

Lemma charge_ok (m : list (K * RateLimitState F)) key now rate burst cost :
  fleb fzero rate = true → fleb fzero burst = true → fleb fzero cost = true →
  Forall (fun kv => bucket_ok burst kv.2) m →
  Forall (fun kv => bucket_ok burst kv.2) (charge m key now rate burst cost).2.
Proof.
  intros Hr Hb Hc Hm. unfold charge.
  set (b := default _ (aget key m)).
  assert (Hok : bucket_ok burst b).
  { unfold b. destruct (aget key m) as [x|] eqn:E; simpl.
    - rewrite Forall_forall in Hm. exact (Hm _ (aget_Some_elem _ _ _ E)).
    - split; simpl; [done|apply fle_refl]. }
  pose proof (refill_ok rate burst b now Hr Hb Hok) as [Hz Hu].
  set (r := refill rate burst b now) in *.
  assert (Hset : ∀ x, bucket_ok burst x → Forall (fun kv => bucket_ok burst kv.2) (aset key x m)).
  { intros x Hx. clear -Hm Hx. induction Hm as [|[k v] l Hv Hl IH]; simpl; [by constructor|].
    destruct (decide (key = k)); by constructor. }
  destruct (fleb cost (tokens r)) eqn:E; simpl; apply Hset; [|done]. split; simpl.
  - by apply fsub_nonneg.
  - eapply fle_trans; [|exact Hu]. by apply fsub_le.
Qed.
End Invariant.

Lemma sweep_None {F K} `{EqDecision K} (m : list (K * RateLimitState F)) k now :
  aget k m = None → aget k (sweep m now) = None.
Proof.
  rewrite !aget_None. unfold keys, sweep. rewrite !list_elem_of_fmap.
  intros Hn (kv & -> & [_ Hin]%list_elem_of_filter). apply Hn. eauto.
Qed.

(** A token balance stays between zero and the burst, whatever is charged
    and whenever, for every arithmetic that satisfies the laws of [f64]; so a
    charge above the burst is never admitted, and an address not seen before
    starts with the full burst. *)
Theorem bucket_balance_bounded {F} `{FloatLaws F} (m : list (ipaddr * RateLimitState F)) ip now max rate cost :
  fleb fzero rate = true → fleb fzero max = true → fleb fzero cost = true →
  Forall (fun kv => bucket_ok max kv.2) m →
  let '(ok, m') := charge_rate_limit m ip now max rate cost in
  Forall (fun kv => bucket_ok max kv.2) m'
  ∧ (ok = true → fleb cost max = true)
  ∧ (aget ip m = None → fleb cost max = true → ok = true).
Proof.
  intros Hr Hmax Hc Hm. unfold charge_rate_limit.
  set (m1 := if (1000 <? length m)%nat then sweep m now else m).
  assert (Hm1 : Forall (fun kv => bucket_ok max kv.2) m1).
  { unfold m1. destruct (1000 <? length m)%nat; [|done]. unfold sweep.
    apply Forall_forall. intros kv [_ Hkv]%list_elem_of_filter. by rewrite Forall_forall in Hm; auto. }
  pose proof (charge_ok m1 ip now rate max cost Hr Hmax Hc Hm1) as Hok.
  unfold charge in *. set (b := default _ (aget ip m1)) in *.
  destruct (fleb cost (tokens (refill rate max b now))) eqn:E; simpl in *; split_and!; try done.
  - intros _. eapply fle_trans; [exact E|]. apply fmin_le_r.
  - intros Hn Hle. assert (Hn1 : aget ip m1 = None).
    { unfold m1. destruct (1000 <? length m)%nat; [|done]. by apply sweep_None. }
    unfold b in E. rewrite Hn1 in E. simpl in E. rewrite fmin_glb in E; [done| |done].
    eapply fle_trans; [exact Hle|]. apply fadd_ge, fmul_nonneg; [|done].
    apply fsecs_nonneg. unfold sat_sub. lia.
Qed.

Lemma bucket_balance_bounded_witness :
  (charge_rate_limit [] (V4 1) 5 (inject_Z 50) (inject_Z 10) (inject_Z 5)).1 = true.
Proof.
  pose proof (bucket_balance_bounded [] (V4 1) 5 (inject_Z 50) (inject_Z 10) (inject_Z 5)
                eq_refl eq_refl eq_refl (Forall_nil_2 _)) as H.
  destruct (charge_rate_limit _ _ _ _ _ _) as [ok m']. destruct H as (_ & _ & H).
  by apply H.
Defined.

(** ** What a bucket admits over time *)

(** One event of the per-address limiter: a charge, or a beat of the sweeper. *)
Inductive rl_op : Type :=
| RCharge (ip : ipaddr) (cost : Q)
| RSweep.

Section Budget.
Context (max rate : Q).
Implicit Types (m : list (ipaddr * RateLimitState Q)).

Definition rl_step m (t : Z) (op : rl_op) : bool * list (ipaddr * RateLimitState Q) :=
  match op with
  | RCharge ip cost => charge_rate_limit m ip t max rate cost
  | RSweep => (true, sweep m t)
  end.

(** What [ip] was admitted over a run of events. *)
Fixpoint admitted (ip : ipaddr) m (trace : list (Z * rl_op)) : Q :=
  match trace with
  | [] => 0
  | (t, op) :: rest =>
      let (ok, m') := rl_step m t op in
      ((match op with
        | RCharge j cost => if decide (j = ip) then if ok then cost else 0 else 0
        | RSweep => 0
        end) + admitted ip m' rest)%Q
  end.

(** The clock of a run: it does not run backwards from [t0], and ends at [t1]. *)
Fixpoint runs_until (t0 : Z) (trace : list (Z * rl_op)) (t1 : Z) : Prop :=
  match trace with
  | [] => t0 <= t1
  | (t, op) :: rest =>
      t0 <= t ∧ match op with RCharge _ cost => (0 <= cost)%Q | RSweep => True end
      ∧ runs_until t rest t1
  end.

(** What the bucket of [ip] could pay at [t]. *)
Definition avail m (ip : ipaddr) (t : Z) : Q :=
  match aget ip m with
  | Some b => tokens (refill rate max b t)
  | None => max
  end.

Definition map_ok m (t : Z) : Prop :=
  NoDup (keys m) ∧ ∀ k b, aget k m = Some b → (0 <= tokens b <= max)%Q ∧ last_updated b <= t.

Hypothesis Hmax : (0 <= max)%Q.
Hypothesis Hrate : (0 <= rate)%Q.

Lemma fmin_Q (x y : Q) : (fmin x y <= x ∧ fmin x y <= y)%Q ∧ (fmin x y = x ∨ fmin x y = y).
Proof.
  unfold fmin. simpl. destruct (Qle_bool x y) eqn:E.
  - apply Qle_bool_iff in E. split; [split; lra|by left].
  - assert (Hn : ¬ (x <= y)%Q) by (rewrite <- Qle_bool_iff; by rewrite E).
    apply Qnot_le_lt in Hn. split; [split; lra|by right].
Qed.

Lemma secs_add a b : (fsecs (a + b) == fsecs a + fsecs b)%Q.
Proof. simpl. unfold Qeq. simpl. lia. Qed.

Lemma secs_mono a b : a <= b → (fsecs a <= fsecs b)%Q.
Proof. intros Hab. simpl. unfold Qle. simpl. lia. Qed.

Lemma rate_secs_nonneg d : 0 <= d → (0 <= fsecs d * rate)%Q.
Proof. intros Hd. apply Qmult_le_0_compat; [|done]. simpl. unfold Qle. simpl. lia. Qed.

Lemma avail_range m ip t : map_ok m t → (0 <= avail m ip t <= max)%Q.
Proof.
  intros [_ Hm]. unfold avail. destruct (aget ip m) as [b|] eqn:E; [|split; [done|apply Qle_refl]].
  destruct (Hm ip b E) as [[H0 H1] Hl]. cbn [refill tokens].
  assert (0 <= sat_sub t (last_updated b)) as Hs by (unfold sat_sub; lia).
  pose proof (rate_secs_nonneg _ Hs) as Hp.
  change (@fadd Q _) with Qplus. change (@fmul Q _) with Qmult.
  destruct (fmin_Q (tokens b + fsecs (sat_sub t (last_updated b)) * rate) max) as [[Ha Hb] [He|He]];
    rewrite He in *; lra.
Qed.

Lemma avail_time m ip t t' :
  map_ok m t → t <= t' → (avail m ip t' <= avail m ip t + fsecs (t' - t) * rate)%Q.
Proof.
  intros [_ Hm] Ht. unfold avail. pose proof (rate_secs_nonneg (t' - t) ltac:(lia)) as Hp.
  destruct (aget ip m) as [b|] eqn:E; [|simpl in *; lra].
  destruct (Hm ip b E) as [_ Hl]. cbn [refill tokens].
  assert (Hs : (fsecs (sat_sub t' (last_updated b)) * rate
                == fsecs (sat_sub t (last_updated b)) * rate + fsecs (t' - t) * rate)%Q).
  { unfold sat_sub. rewrite !Z.max_r by lia.
    replace (t' - last_updated b) with (t - last_updated b + (t' - t)) by lia.
    rewrite secs_add. ring. }
  pose proof (fmin_Q (tokens b + fsecs (sat_sub t' (last_updated b)) * rate) max) as [[Ha Hb] _].
  pose proof (fmin_Q (tokens b + fsecs (sat_sub t (last_updated b)) * rate) max) as [_ Hc].
  change (@fadd Q _) with Qplus in *. change (@fmul Q _) with Qmult in *.
  destruct Hc as [-> | ->]; lra.
Qed.

Lemma sweep_ok m t : map_ok m t → map_ok (sweep m t) t.
Proof.
  intros [Hnd Hm]. split.
  - unfold sweep, keys. eapply sublist_NoDup; [exact Hnd|apply fmap_sublist, sublist_filter].
  - intros k b. unfold sweep. rewrite aget_filter by done. destruct (aget k m) as [b'|] eqn:E; [|done].
    case_decide; [|done]. intros [= <-]. by apply Hm in E.
Qed.

(** A bucket idle for the sweeper's lifetime is a full one. *)
Lemma sweep_avail m ip t :
  (max <= fsecs BUCKET_TTL * rate)%Q → map_ok m t → (avail (sweep m t) ip t <= avail m ip t)%Q.
Proof.
  intros Hgc [Hnd Hm]. unfold avail, sweep. rewrite aget_filter by done.
  destruct (aget ip m) as [b|] eqn:E; [|apply Qle_refl].
  destruct (Hm ip b E) as [[H0 _] Hl]. case_decide as Hlive; [apply Qle_refl|].
  simpl in Hlive. unfold bucket_is_live in Hlive. apply not_true_is_false, Z.ltb_ge in Hlive.
  cbn [refill tokens].
  assert (Hs : (fsecs BUCKET_TTL * rate <= fsecs (sat_sub t (last_updated b)) * rate)%Q).
  { apply Qmult_le_compat_r; [by apply secs_mono|done]. }
  change (@fadd Q _) with Qplus. change (@fmul Q _) with Qmult.
  destruct (fmin_Q (tokens b + fsecs (sat_sub t (last_updated b)) * rate) max) as [_ [-> | ->]]; lra.
Qed.

Lemma sat_sub_diag t : sat_sub t t = 0.
Proof. unfold sat_sub. lia. Qed.

Lemma charge_avail m ip cost t :
  map_ok m t → (0 <= cost)%Q →
  let '(ok, m') := charge m ip t rate max cost in
  map_ok m' t ∧ (∀ j, j ≠ ip → avail m' j t = avail m j t)
  ∧ (avail m' ip t + (if ok then cost else 0) <= avail m ip t)%Q.
Proof.
  intros Hok Hc. pose proof (avail_range m ip t Hok) as Hr. destruct Hok as [Hnd Hm].
  assert (Hz : (fsecs 0 * rate == 0)%Q) by (simpl; unfold Qeq; simpl; lia).
  unfold charge. set (b := default _ (aget ip m)).
  assert (Hav : (tokens (refill rate max b t) == avail m ip t)%Q).
  { unfold avail, b. destruct (aget ip m) as [x|]; [reflexivity|]. cbn [default refill tokens last_updated].
    rewrite sat_sub_diag. change (@fadd Q _) with Qplus. change (@fmul Q _) with Qmult.
    destruct (fmin_Q (max + fsecs 0 * rate) max) as [[Ha Hb] [He|He]]; rewrite He in *;
      [lra|reflexivity]. }
  assert (Hlast : last_updated (refill rate max b t) = t) by done.
  set (r := refill rate max b t) in *. clearbody r. clear b.
  assert (Hset : ∀ x, last_updated x = t → (0 <= tokens x <= avail m ip t)%Q →
            map_ok (aset ip x m) t ∧ (∀ j, j ≠ ip → avail (aset ip x m) j t = avail m j t)
            ∧ (avail (aset ip x m) ip t <= tokens x)%Q).
  { intros x Hx Htx. split_and!.
    - split; [by apply NoDup_aset|]. intros k y. destruct (decide (ip = k)) as [->|Hn].
      + rewrite aget_aset_eq. intros [= <-]. split; [lra|lia].
      + rewrite aget_aset_ne by done. apply Hm.
    - intros j Hj. unfold avail. by rewrite aget_aset_ne by done.
    - unfold avail. rewrite aget_aset_eq. cbn [refill tokens]. rewrite Hx, sat_sub_diag.
      change (@fadd Q _) with Qplus. change (@fmul Q _) with Qmult.
      destruct (fmin_Q (tokens x + fsecs 0 * rate) max) as [[Ha Hb] _]. lra. }
  destruct (fleb cost (tokens r)) eqn:E.
  - simpl in E. apply Qle_bool_iff in E.
    destruct (Hset {| tokens := fsub (tokens r) cost; last_updated := t |}) as (H1 & H2 & H3);
      [done|cbn [tokens]; change (@fsub Q _) with Qminus; lra|].
    cbn [tokens] in H3. change (@fsub Q _) with Qminus in *. split_and!; [done|done|lra].
  - destruct (Hset r) as (H1 & H2 & H3); [done|lra|]. split_and!; [done|done|]. lra.
Qed.

Lemma rl_step_avail m t op ip :
  (max <= fsecs BUCKET_TTL * rate)%Q → map_ok m t →
  match op with RCharge _ cost => (0 <= cost)%Q | RSweep => True end →
  let (ok, m') := rl_step m t op in
  map_ok m' t ∧
  ((match op with
    | RCharge j cost => if decide (j = ip) then if ok then cost else 0 else 0
    | RSweep => 0
    end) + avail m' ip t <= avail m ip t)%Q.
Proof.
  intros Hgc Hok Hc. destruct op as [j cost|]; simpl.
  - unfold charge_rate_limit.
    set (m1 := if (1000 <? length m)%nat then sweep m t else m).
    assert (H1 : map_ok m1 t ∧ ∀ k, (avail m1 k t <= avail m k t)%Q).
    { unfold m1. destruct (1000 <? length m)%nat.
      - split; [by apply sweep_ok|]. intros k. by apply sweep_avail.
      - split; [done|]. intros k. apply Qle_refl. }
    destruct H1 as [Hok1 Hle]. pose proof (charge_avail m1 j cost t Hok1 Hc) as H.
    destruct (charge m1 j t rate max cost) as [ok m']. destruct H as (Hok' & Hother & Hown).
    split; [done|]. destruct (decide (j = ip)) as [->|Hn].
    + specialize (Hle ip). lra.
    + rewrite Hother by done. specialize (Hle ip). lra.
  - split; [by apply sweep_ok|]. pose proof (sweep_avail m ip t Hgc Hok). lra.
Qed.

Lemma admitted_bound trace : ∀ m ip t0 t1,
  (max <= fsecs BUCKET_TTL * rate)%Q → map_ok m t0 → runs_until t0 trace t1 →
  (admitted ip m trace <= avail m ip t0 + fsecs (t1 - t0) * rate)%Q.
Proof.
  induction trace as [|[t op] trace IH]; intros m ip t0 t1 Hgc Hok Hrun; simpl in Hrun.
  - pose proof (avail_range m ip t0 Hok). pose proof (rate_secs_nonneg (t1 - t0) ltac:(lia)).
    cbn [admitted]. lra.
  - destruct Hrun as (Ht & Hc & Hrun). cbn [admitted].
    assert (Hok1 : map_ok m t).
    { destruct Hok as [Hnd Hm]. split; [done|]. intros k b Hk. apply Hm in Hk as [? ?]. split; [done|lia]. }
    pose proof (avail_time m ip t0 t Hok Ht) as Hat.
    pose proof (rl_step_avail m t op ip Hgc Hok1 Hc) as Hs.
    destruct (rl_step m t op) as [ok m']. destruct Hs as [Hok' Hle].
    specialize (IH m' ip t t1 Hgc Hok' Hrun).
    assert (Hs : (fsecs (t1 - t0) * rate == fsecs (t - t0) * rate + fsecs (t1 - t) * rate)%Q).
    { replace (t1 - t0) with ((t - t0) + (t1 - t)) by lia. rewrite secs_add. ring. }
    lra.
Qed.
End Budget.

(** C33: The per-address limiter keeps its promise where a bucket refills within the
    ten minutes after which the sweeper forgets it. Over any run of charges and
    sweeps on a clock that does not run backwards, with any number of other
    addresses in between, what one address is admitted never exceeds the bucket
    plus the refill of the elapsed time, the quantities being exact rationals. A
    slower bucket is made full by being forgotten ([slow_bucket_forgotten]). *)
Theorem rate_limit_budget max rate trace ip t0 t1 :
  (0 <= max)%Q → (0 <= rate)%Q → (max <= fsecs BUCKET_TTL * rate)%Q →
  runs_until t0 trace t1 →
  (admitted max rate ip [] trace <= max + fsecs (t1 - t0) * rate)%Q.
Proof.
  intros Hm Hr Hgc Hrun.
  assert (Hok : map_ok max [] t0) by (split; [constructor|done]).
  by apply (admitted_bound max rate Hm Hr trace [] ip t0 t1 Hgc Hok Hrun).
Qed.

Definition sample_trace : list (Z * rl_op) :=
  [(5, RCharge (V4 7) (2 # 1)); (6, RCharge (V4 9) (1 # 1)); (7, RSweep)].

Lemma rate_limit_budget_witness :
  (admitted (2 # 1) (1 # 1) (V4 7) [] sample_trace <= (2 # 1) + fsecs 4 * (1 # 1))%Q.
Proof.
  apply (rate_limit_budget (2 # 1) (1 # 1) _ (V4 7) 5 9); [discriminate..|].
  repeat (split; [discriminate||lia|]). simpl. lia.
Defined.

(** A bucket that refills more slowly than that is refilled by being forgotten:
    two full bursts eleven minutes apart, where the refill allows less than one
    token. *)
Definition slow_trace : list (Z * rl_op) :=
  [(0, RCharge (V4 7) (2 # 1)); (660 * second, RSweep); (660 * second, RCharge (V4 7) (2 # 1))].
Example slow_bucket_forgotten : (admitted (2 # 1) (1 # 1000) (V4 7) [] slow_trace == 4 # 1)%Q.
Proof. vm_compute. reflexivity. Qed.
