(* ===== verification/Topics.v ===== *)
(** Topics and topic filters: [aperio-config/src/lib.rs] ([topic_matches] and
    the validators both ends share) and the grant rule of
    [aperio-server/src/tunnel/pubsub.rs] ([covers]).

    A filter is split at [/] into levels; the source walks the two iterators
    in step, which is a recursion over the two lists of levels here. *)

From S2P Require Import Prelude.

Definition lvl_hash : str := bs "#".
Definition lvl_plus : str := bs "+".
Definition dollar (s : str) : bool := starts_with (bs "$") s.
Definition levels (s : str) : list str := split_on "/"%char s.

(** The loop of [topic_matches] over the levels left of both sides. *)
Fixpoint match_levels (f t : list str) : bool :=
  match f, t with
  | [], [] => true
  | fl :: f', [] => str_eqb fl lvl_hash
  | fl :: f', tl :: t' =>
      if str_eqb fl lvl_hash then true
      else if str_eqb fl lvl_plus then match_levels f' t'
      else if str_eqb fl tl then match_levels f' t'
      else false
  | [], _ :: _ => false
  end.

Definition topic_matches (filter topic : str) : bool :=
  if dollar topic && negb (dollar filter) then false
  else match_levels (levels filter) (levels topic).

Inductive topic_error : Type :=
| TopicEmpty
| TopicTooLong (length : Z)
| HashInLevel (level : str)
| PlusInLevel (level : str)
| HashNotLast
| TopicHasWildcard
| TopicReserved.

(** The loop over the levels; [rest = []] is [i + 1 == levels.len()]. *)
Fixpoint check_filter_levels (ls : list str) : result unit topic_error :=
  match ls with
  | [] => Ok tt
  | level :: rest =>
      if has "#"%char level && negb (str_eqb level lvl_hash) then Err (HashInLevel level)
      else if has "+"%char level && negb (str_eqb level lvl_plus) then Err (PlusInLevel level)
      else if str_eqb level lvl_hash && negb (bool_decide (rest = [])) then Err HashNotLast
      else check_filter_levels rest
  end.

Definition validate_topic_filter (filter : str) : result unit topic_error :=
  if bool_decide (filter = []) then Err TopicEmpty
  else if 512 <? len filter then Err (TopicTooLong (len filter))
  else check_filter_levels (levels filter).

Definition validate_topic (topic : str) : result unit topic_error :=
  if bool_decide (topic = []) then Err TopicEmpty
  else if 512 <? len topic then Err (TopicTooLong (len topic))
  else if has "#"%char topic || has "+"%char topic then Err TopicHasWildcard
  else Ok tt.

Definition RESERVED_TOPIC_PREFIX : str := bs "$aperio/".
Definition MAX_MESSAGE_BYTES : Z := 256 * 1024.

Definition validate_publish_topic (topic : str) : result unit topic_error :=
  (let? _ := validate_topic topic in
  if starts_with RESERVED_TOPIC_PREFIX topic then Err TopicReserved else Ok tt)%rust.

Definition PROTOCOL_BOTH : str := bs "tcp/udp".

Definition protocol_serves (protocol want : str) : bool :=
  let protocol := lower (trim protocol) in
  str_eqb protocol want || str_eqb protocol PROTOCOL_BOTH.

(** The loop of [covers]. *)
Fixpoint cover_levels (g a : list str) : bool :=
  match g, a with
  | [], [] => true
  | gl :: g', [] => str_eqb gl lvl_hash
  | gl :: g', al :: a' =>
      if str_eqb gl lvl_hash then true
      else if str_eqb gl lvl_plus && negb (str_eqb al lvl_hash) then cover_levels g' a'
      else if str_eqb gl al then cover_levels g' a'
      else false
  | [], _ :: _ => false
  end.

Definition covers (granted asked : str) : bool :=
  if dollar asked && negb (dollar granted) then false
  else cover_levels (levels granted) (levels asked).

(** ** What a filter denotes *)

(** A wildcard-free reading of a filter: [Matches f t] is MQTT's definition,
    one rule per shape of the leading level. *)
Inductive Matches : list str → list str → Prop :=
| m_nil : Matches [] []
| m_rest f t : Matches (lvl_hash :: f) t
| m_one f x t : Matches f t → Matches (lvl_plus :: f) (x :: t)
| m_same f x t : x ≠ lvl_hash → Matches f t → Matches (x :: f) (x :: t).

Lemma match_levels_spec f t : match_levels f t = true ↔ Matches f t.
Proof.
  split.
  - revert t. induction f as [|fl f IH]; intros [|tl t]; cbn; try done.
    + intros _. constructor.
    + rewrite str_eqb_eq. intros ->. constructor.
    + destruct (str_eqb fl lvl_hash) eqn:E1; [apply str_eqb_eq in E1 as ->; constructor|].
      destruct (str_eqb fl lvl_plus) eqn:E2; [apply str_eqb_eq in E2 as ->; intros; constructor; auto|].
      destruct (str_eqb fl tl) eqn:E3; [|done]. apply str_eqb_eq in E3 as ->.
      intros. constructor; [|auto]. intros ->. by rewrite str_eqb_refl in E1.
  - induction 1 as [|f t|f x t _ IH|f x t Hx _ IH]; try done.
    + by destruct t.
    + cbn. destruct (str_eqb x lvl_hash); [done|]. rewrite str_eqb_refl. by destruct (str_eqb x lvl_plus).
Qed.

(** A covering filter accepts whatever the covered one accepts. *)
Lemma cover_levels_sound g a t :
  cover_levels g a = true → match_levels a t = true → match_levels g t = true.
Proof.
  intros Hc Hm. apply match_levels_spec in Hm. apply match_levels_spec.
  revert a t Hc Hm. induction g as [|gl g IH]; intros [|al a] t; cbn; intros Hc Hm.
  - inversion Hm; constructor.
  - done.
  - apply str_eqb_eq in Hc as ->. constructor.
  - destruct (str_eqb gl lvl_hash) eqn:E1; [apply str_eqb_eq in E1 as ->; constructor|].
    destruct (str_eqb gl lvl_plus && negb (str_eqb al lvl_hash)) eqn:E2.
    { apply andb_true_iff in E2 as [->%str_eqb_eq E2]. apply negb_true_iff in E2.
      inversion Hm; subst; try (by rewrite str_eqb_refl in E2); constructor; eauto. }
    destruct (str_eqb gl al) eqn:E3; [|done]. apply str_eqb_eq in E3 as ->.
    inversion Hm; subst; try (by rewrite str_eqb_refl in E1); constructor; eauto.
Qed.

(** On levels without [#] covering is matching. *)
Lemma cover_levels_concrete g a :
  Forall (λ l, l ≠ lvl_hash) a → cover_levels g a = match_levels g a.
Proof.
  revert a. induction g as [|gl g IH]; intros [|al a] Ha; try done. cbn.
  apply Forall_cons in Ha as [Hal Ha]. rewrite (IH a Ha).
  assert (str_eqb al lvl_hash = false) as -> by (apply not_true_iff_false; by rewrite str_eqb_eq).
  cbn. by rewrite andb_true_r.
Qed.

(** A topic that validates has no wildcard level. *)
Lemma validate_topic_levels t :
  validate_topic t = Ok tt → Forall (λ l, l ≠ lvl_hash ∧ l ≠ lvl_plus) (levels t).
Proof.
  unfold validate_topic. do 2 (case_goal; [done|]). case_goal; [done|]. intros _.
  apply orb_false_iff in E1 as [Hh Hp]. apply has_false in Hh, Hp.
  apply Forall_forall. intros l Hl.
  assert (∀ c, c ∈ l → c ∈ t) as Hsub.
  { intros c Hc. rewrite <- (join_split_on "/"%char t). fold (levels t).
    clear -Hl Hc. induction (levels t) as [|x r IH]; [by apply elem_of_nil in Hl|].
    apply elem_of_cons in Hl as [->|Hl].
    - destruct r; cbn; [done|]. apply elem_of_app. by left.
    - destruct r; [by apply elem_of_nil in Hl|]. cbn [join].
      rewrite !elem_of_app. right; right. by apply IH. }
  split; intros ->; [apply Hh|apply Hp]; apply Hsub; by left.
Qed.

Lemma topic_covers_sound g a t : covers g a = true → topic_matches a t = true → topic_matches g t = true.
Proof.
  unfold covers, topic_matches. intros Hc Hm.
  destruct (dollar a && negb (dollar g)) eqn:Ea; [done|].
  destruct (dollar t && negb (dollar a)) eqn:Et; [done|].
  assert (dollar t && negb (dollar g) = false) as ->
    by (destruct (dollar t), (dollar a), (dollar g); done).
  by eapply cover_levels_sound.
Qed.

Lemma covers_concrete g t : validate_topic t = Ok tt → covers g t = topic_matches g t.
Proof.
  intros Ht. unfold covers, topic_matches. case_goal; [done|].
  apply cover_levels_concrete. eapply Forall_impl; [by apply validate_topic_levels|]. naive_solver.
Qed.
