(* ===== verification/PubSub.v ===== *)
(** Messages between the clients of one organization:
    [aperio-server/src/tunnel/pubsub.rs], the handlers of
    [aperio-server/src/tunnel/ws/messaging.rs] that drive it, and the grant
    change of [aperio-server/src/state.rs] ([apply_token_topics]).

    A bounded channel is the number of free slots it has and the frames it
    has taken so far; [try_send] fails on a full or closed channel. The text
    of a frame is represented by the frame; whether serde can encode it, and
    Base64, are parameters. The two locks of a publish and the three of a
    sweep are separate steps of [step], so everything else may run between
    them. *)

From S2P Require Import Prelude Binds VisitorAuth Orgs Clients Topics.

Definition MAX_FILTERS_PER_CLIENT : Z := 64.
Definition ACK_TIMEOUT : Z := 3 * second.
Definition MAX_ACK_WAIT : Z := 30 * second.
Definition MAX_PENDING_PER_PROCESS : Z := 256.
Definition MAX_PAYLOAD_BYTES : Z := MAX_MESSAGE_BYTES.

Abbreviation PendingKey := (option str * str)%type.

Inductive Publisher : Type :=
| PubClient (id : str)
| PubApi (actor : str)
| PubServer.

Definition may_use_reserved (p : Publisher) : bool :=
  match p with PubServer => true | _ => false end.

(** The texts of the refusals, as the cases that produce them. *)
Inductive refusal : Type :=
| BadTopic (e : topic_error)
| ReservedTopic
| NotGranted
| AtFilterLimit
| NoLongerCovered
| PayloadTooLarge (length : Z)
| CannotEncode (e : str)
| BadBase64 (e : str).

(** The frames of the tunnel protocol this component writes. *)
Inductive OutFrame : Type :=
| FPublish (topic payload : str) (id : option str) (qos : Z)
| FSubscribeRefused (topic : str) (reason : refusal)
| FPublishRefused (topic : str) (reason : refusal).

Record MessageMetrics : Type := {
  mm_published : Z;
  mm_delivered : Z;
  mm_dropped : Z;
  mm_resent : Z;
  mm_abandoned : Z;
}.

Record Pending : Type := {
  p_id : str;
  p_topic : str;
  p_frame : OutFrame;
  first_sent : Z;
  last_sent : Z;
  attempts : Z;
}.

Record Delivery : Type := { d_processes : Z; d_connections : Z }.

(** The part of [AppState] the component reads and writes. *)
Record World : Type := {
  w_clients : list (str * ClientHandle);
  w_pending : list (PendingKey * list Pending);
  w_metrics : MessageMetrics;
  w_chans : gmap Z (Z * list OutFrame);
}.

Definition set_clients (w : World) cs :=
  {| w_clients := cs; w_pending := w_pending w; w_metrics := w_metrics w; w_chans := w_chans w |}.
Definition set_pending (w : World) p :=
  {| w_clients := w_clients w; w_pending := p; w_metrics := w_metrics w; w_chans := w_chans w |}.
Definition set_metrics (w : World) m :=
  {| w_clients := w_clients w; w_pending := w_pending w; w_metrics := m; w_chans := w_chans w |}.
Definition set_chans (w : World) c :=
  {| w_clients := w_clients w; w_pending := w_pending w; w_metrics := w_metrics w; w_chans := c |}.

Definition count_published m := {| mm_published := wrap64 (mm_published m + 1);
  mm_delivered := mm_delivered m; mm_dropped := mm_dropped m; mm_resent := mm_resent m; mm_abandoned := mm_abandoned m |}.
Definition count_delivered m := {| mm_published := mm_published m;
  mm_delivered := wrap64 (mm_delivered m + 1); mm_dropped := mm_dropped m; mm_resent := mm_resent m; mm_abandoned := mm_abandoned m |}.
Definition count_dropped m := {| mm_published := mm_published m; mm_delivered := mm_delivered m;
  mm_dropped := wrap64 (mm_dropped m + 1); mm_resent := mm_resent m; mm_abandoned := mm_abandoned m |}.
Definition count_resent m := {| mm_published := mm_published m; mm_delivered := mm_delivered m;
  mm_dropped := mm_dropped m; mm_resent := wrap64 (mm_resent m + 1); mm_abandoned := mm_abandoned m |}.
Definition count_abandoned n m := {| mm_published := mm_published m; mm_delivered := mm_delivered m;
  mm_dropped := mm_dropped m; mm_resent := mm_resent m; mm_abandoned := wrap64 (mm_abandoned m + n) |}.

(** [tx.try_send(frame)]: the channels afterwards and whether it was taken. *)
Definition try_send (tx : Z) (f : OutFrame) (c : gmap Z (Z * list OutFrame)) :
    gmap Z (Z * list OutFrame) * bool :=
  match c !! tx with
  | Some (free, log) => if 0 <? free then (<[tx := (free - 1, log ++ [f])]> c, true) else (c, false)
  | None => (c, false)
  end.

Definition with_subscriptions (h : ClientHandle) (subs : list str) : ClientHandle :=
  {| tx := tx h; connected_at := connected_at h; client_ip := client_ip h; last_ping_at := last_ping_at h;
     perms := perms h; draining := draining h; declared_client_id := declared_client_id h;
     declared_name := declared_name h; drain_secs := drain_secs h; client_version := client_version h;
     client_protocol := client_protocol h; rss_bytes := rss_bytes h; rtt_ms := rtt_ms h;
     jitter_ms := jitter_ms h; reconnects := reconnects h; reported_instance_id := reported_instance_id h;
     instance_group := instance_group h; subscriptions := subs; services := services h |}.

Definition with_perms (h : ClientHandle) (p : ClientPerms) : ClientHandle :=
  {| tx := tx h; connected_at := connected_at h; client_ip := client_ip h; last_ping_at := last_ping_at h;
     perms := p; draining := draining h; declared_client_id := declared_client_id h;
     declared_name := declared_name h; drain_secs := drain_secs h; client_version := client_version h;
     client_protocol := client_protocol h; rss_bytes := rss_bytes h; rtt_ms := rtt_ms h;
     jitter_ms := jitter_ms h; reconnects := reconnects h; reported_instance_id := reported_instance_id h;
     instance_group := instance_group h; subscriptions := subscriptions h; services := services h |}.

Definition with_topics (p : ClientPerms) (topics : list str) : ClientPerms :=
  {| master := master p; hostnames := hostnames p; paths := paths p; token_name := token_name p;
     token_id := token_id p; allow_public := allow_public p; allow_server_side := allow_server_side p;
     allow_bind := allow_bind p; allow_otel := allow_otel p; Clients.topics := topics; org_id := org_id p;
     org_hostnames := org_hostnames p; max_connections := max_connections p |}.

Definition may_use_topic (p : ClientPerms) (filter : str) : bool :=
  if master p then true else existsb (λ granted, covers granted filter) (Clients.topics p).

(** One turn of the loop of [set_subscriptions], on the filters held. *)
Definition subscribe_one (p : ClientPerms) (add : bool) (st : list str * list (str * refusal)) (topic : str) :
    list str * list (str * refusal) :=
  let '(subs, refused) := st in
  if negb add then (filter (λ f, f ≠ topic) subs, refused)
  else match validate_topic_filter topic with
  | Err why => (subs, refused ++ [(topic, BadTopic why)])
  | Ok _ =>
      if negb (may_use_topic p topic) then
        (subs, refused ++ [(topic, if starts_with RESERVED_TOPIC_PREFIX topic then ReservedTopic else NotGranted)])
      else if bool_decide (topic ∈ subs) then (subs, refused)
      else if MAX_FILTERS_PER_CLIENT <=? Z.of_nat (length subs) then (subs, refused ++ [(topic, AtFilterLimit)])
      else (subs ++ [topic], refused)
  end.

Definition set_subscriptions (w : World) (connection_id : str) (topics : list str) (add : bool) :
    World * list (str * refusal) :=
  match aget connection_id (w_clients w) with
  | None => (w, [])
  | Some handle =>
      let '(subs, refused) := fold_left (subscribe_one (perms handle) add) topics (subscriptions handle, []) in
      (set_clients w (aset connection_id (with_subscriptions handle subs) (w_clients w)), refused)
  end.

(** The process a connection belongs to. *)
Definition process_of (connection_id : str) (h : ClientHandle) : str :=
  default connection_id (instance_group h).

Abbreviation Target := (str * str * Z)%type.

Definition wants (org : option str) (topic : str) (h : ClientHandle) : bool :=
  bool_decide (org_id (perms h) = org) && existsb (λ f, topic_matches f topic) (subscriptions h).

(** One turn of the loop that collects the targets; [seen] is the processes
    met so far. *)
Definition collect_target (org : option str) (topic : str) (st : list str * list Target) (kh : str * ClientHandle) :
    list str * list Target :=
  let '(seen, out) := st in
  let '(connection_id, h) := kh in
  if negb (wants org topic h) then (seen, out)
  else
    let process := process_of connection_id h in
    if bool_decide (process ∈ seen) then (seen, out)
    else (process :: seen, out ++ [(process, connection_id, tx h)]).

(** One connection per subscribing process, in the order of the table. *)
Definition targets_of (clients : list (str * ClientHandle)) (org : option str) (topic : str) : list Target :=
  (fold_left (collect_target org topic) clients ([], [])).2.

(** One turn of the fan-out: count, send, remember who was written to. *)
Definition fan_out_one (frame : OutFrame) (st : World * Z * list str) (t : Target) : World * Z * list str :=
  let '(w, connections, delivered_to) := st in
  let '(process, _, tx) := t in
  let '(c, ok) := try_send tx frame (w_chans w) in
  if ok then (set_metrics (set_chans w c) (count_delivered (w_metrics w)), connections + 1, delivered_to ++ [process])
  else (set_metrics w (count_dropped (w_metrics w)), connections, delivered_to).

Definition new_pending (now : Z) (id topic : str) (frame : OutFrame) : Pending :=
  {| p_id := id; p_topic := topic; p_frame := frame; first_sent := now; last_sent := now; attempts := 1 |}.

(** Queues one message for [process], the oldest one making room. *)
Definition remember_one (org : option str) (m : Pending) (pending : list (PendingKey * list Pending)) (process : str) :
    list (PendingKey * list Pending) :=
  let key := (org, process) in
  let queue := default [] (aget key pending) in
  let queue := if MAX_PENDING_PER_PROCESS <=? Z.of_nat (length queue) then tail queue else queue in
  aset key (queue ++ [m]) pending.

Definition acknowledge (w : World) (connection_id id : str) : World :=
  match aget connection_id (w_clients w) with
  | None => w
  | Some handle =>
      let key := (org_id (perms handle), process_of connection_id handle) in
      match aget key (w_pending w) with
      | None => w
      | Some queue =>
          let queue := filter (λ p, p_id p ≠ id) queue in
          if bool_decide (queue = []) then set_pending w (aremove key (w_pending w))
          else set_pending w (aset key queue (w_pending w))
      end
  end.

(** ** The sweep: what is due, the resends, what is given up on *)

Definition is_due (now : Z) (m : Pending) : bool := negb (sat_sub now (last_sent m) <? ACK_TIMEOUT).

Definition touch (now : Z) (m : Pending) : Pending :=
  if is_due now m then
    {| p_id := p_id m; p_topic := p_topic m; p_frame := p_frame m; first_sent := first_sent m;
       last_sent := now; attempts := attempts m + 1 |}
  else m.

Definition due_of (now : Z) (queue : list Pending) : list (str * OutFrame) :=
  map (λ m, (p_id m, p_frame m)) (filter (λ m, is_due now m = true) queue).

Definition sweep_due (now : Z) (pending : list (PendingKey * list Pending)) :
    list (PendingKey * list Pending) * list (PendingKey * list (str * OutFrame)) :=
  (map (λ kq : PendingKey * list Pending, (kq.1, map (touch now) kq.2)) pending,
   filter (λ kd : PendingKey * list (str * OutFrame), kd.2 ≠ [])
     (map (λ kq : PendingKey * list Pending, (kq.1, due_of now kq.2)) pending)).

(** A live connection of that process in that organization. *)
Definition resend_target (clients : list (str * ClientHandle)) (org : option str) (process : str) : option Z :=
  let in_org h := bool_decide (org_id (perms h) = org) in
  match list_find (λ kh : str * ClientHandle, in_org kh.2 && bool_decide (instance_group kh.2 = Some process) = true) clients with
  | Some (_, (_, h)) => Some (tx h)
  | None =>
      match aget process clients with
      | Some h => if in_org h then Some (tx h) else None
      | None => None
      end
  end.

Definition resend_one (tx : Z) (st : World * Z) (m : str * OutFrame) : World * Z :=
  let '(w, resent) := st in
  let '(c, ok) := try_send tx m.2 (w_chans w) in
  if ok then (set_metrics (set_chans w c) (count_resent (w_metrics w)), resent + 1) else (w, resent).

Definition sweep_resend (st : World * Z) (d : PendingKey * list (str * OutFrame)) : World * Z :=
  let '((org, process), messages) := d in
  match resend_target (w_clients st.1) org process with
  | None => st
  | Some tx => fold_left (resend_one tx) messages st
  end.

Definition past_window (now : Z) (m : Pending) : bool := MAX_ACK_WAIT <=? sat_sub now (first_sent m).

Definition sweep_abandon (now : Z) (w : World) : World * Z :=
  let abandoned := Z.of_nat (length (filter (λ m, past_window now m = true) (concat (map snd (w_pending w))))) in
  let kept := filter (λ kq : PendingKey * list Pending, kq.2 ≠ [])
    (map (λ kq : PendingKey * list Pending, (kq.1, filter (λ m, past_window now m = false) kq.2)) (w_pending w)) in
  (set_metrics (set_pending w kept) (count_abandoned abandoned (w_metrics w)), abandoned).

Definition sweep_pending (now : Z) (w : World) : World * (Z * Z) :=
  let '(pending, due) := sweep_due now (w_pending w) in
  let '(w, resent) := fold_left sweep_resend due (set_pending w pending, 0) in
  let '(w, abandoned) := sweep_abandon now w in
  (w, (resent, abandoned)).

(** ** Publishing and the handlers of a connection *)

Section Publish.
Context (json_error : OutFrame → option str).
Context (b64_encode : str → str) (b64_decode : str → result str str).

(** The guards of [publish], and the frame every subscriber gets. *)
Definition publish_frame (topic payload : str) (publisher : Publisher) (qos : Z) (id : str) :
    result OutFrame refusal :=
  match validate_topic topic with
  | Err e => Err (BadTopic e)
  | Ok _ =>
      if starts_with RESERVED_TOPIC_PREFIX topic && negb (may_use_reserved publisher) then Err ReservedTopic
      else if MAX_PAYLOAD_BYTES <? len payload then Err (PayloadTooLarge (len payload))
      else
        let frame := FPublish topic (b64_encode payload) (Some id) (Z.min qos 1) in
        match json_error frame with
        | Some e => Err (CannotEncode e)
        | None => Ok frame
        end
  end.

Definition publish (w : World) (now : Z) (id : str) (org : option str) (topic payload : str)
    (publisher : Publisher) (qos : Z) : World * result Delivery refusal :=
  match publish_frame topic payload publisher qos id with
  | Err e => (w, Err e)
  | Ok frame =>
      let targets := targets_of (w_clients w) org topic in
      let w := set_metrics w (count_published (w_metrics w)) in
      let '(w, connections, delivered_to) := fold_left (fan_out_one frame) targets (w, 0, []) in
      let w :=
        if 1 <=? Z.min qos 1 then
          set_pending w (fold_left (remember_one org (new_pending now id topic frame)) delivered_to (w_pending w))
        else w in
      (w, Ok {| d_processes := Z.of_nat (length targets); d_connections := connections |})
  end.

(** A frame to the connection itself, when it is still in the table. *)
Definition notify (w : World) (client_id : str) (notice : OutFrame) : World :=
  match json_error notice with
  | Some _ => w
  | None =>
      match aget client_id (w_clients w) with
      | None => w
      | Some handle => set_chans w (try_send (tx handle) notice (w_chans w)).1
      end
  end.

Definition on_subscribe (w : World) (client_id : str) (topics : list str) : World :=
  let '(w, refused) := set_subscriptions w client_id topics true in
  fold_left (λ w '(topic, why), notify w client_id (FSubscribeRefused topic why)) refused w.

Definition on_unsubscribe (w : World) (client_id : str) (topics : list str) : World :=
  (set_subscriptions w client_id topics false).1.

Definition on_publish_ack (w : World) (client_id id : str) : World := acknowledge w client_id id.

(** [p] is the permissions the connection's context was created with. *)
Definition on_publish (w : World) (now : Z) (fresh_id client_id : str) (p : ClientPerms)
    (topic payload : str) (qos : Z) : World :=
  let '(w, refused) :=
    if negb (may_use_topic p topic) then (w, Some NotGranted)
    else match b64_decode payload with
    | Err e => (w, Some (BadBase64 e))
    | Ok bytes =>
        match publish w now fresh_id (org_id p) topic bytes (PubClient client_id) qos with
        | (w, Ok _) => (w, None)
        | (w, Err why) => (w, Some why)
        end
    end in
  match refused with
  | None => w
  | Some why => notify w client_id (FPublishRefused topic why)
  end.

(** The grant of a token changed: refresh the copies, withdraw what it no
    longer covers, tell the clients. *)
Definition regrant (token : str) (topics : list str) (h : ClientHandle) : ClientHandle * list str :=
  if bool_decide (token_id (perms h) ≠ Some token) then (h, [])
  else
    let h := with_perms h (with_topics (perms h) topics) in
    (with_subscriptions h (filter (λ f, may_use_topic (perms h) f = true) (subscriptions h)),
     filter (λ f, may_use_topic (perms h) f = false) (subscriptions h)).

Definition apply_token_topics (w : World) (token : str) (topics : list str) : World * Z :=
  let withdrawn := filter (λ tg : Z * list str, tg.2 ≠ [])
    (map (λ kh : str * ClientHandle, (tx kh.2, (regrant token topics kh.2).2)) (w_clients w)) in
  let w := set_clients w (map (λ kh : str * ClientHandle, (kh.1, (regrant token topics kh.2).1)) (w_clients w)) in
  fold_left
    (λ st (tg : Z * list str),
      fold_left
        (λ '(w, count) f,
          let notice := FSubscribeRefused f NoLongerCovered in
          (match json_error notice with
           | Some _ => w
           | None => set_chans w (try_send tg.1 notice (w_chans w)).1
           end, count + 1))
        tg.2 st)
    withdrawn (w, 0).

(** ** The running system *)

(** A publish between its two locks: what is left to send, who was written to. *)
Record Fanout : Type := {
  fo_org : option str;
  fo_id : str;
  fo_topic : str;
  fo_qos : Z;
  fo_frame : OutFrame;
  fo_targets : list Target;
  fo_delivered : list str;
}.

(** [published] and [tx_org] are history: the organization each message was
    published in, and the one each connection's channel was opened for. *)
Record System : Type := {
  world : World;
  clock : Z;
  inflight : list Fanout;
  sweeping : option (Z * list (PendingKey * list (str * OutFrame)));
  published : list (str * option str);
  tx_org : gmap Z (option str);
}.

Definition with_world (s : System) (w : World) : System :=
  {| world := w; clock := clock s; inflight := inflight s; sweeping := sweeping s;
     published := published s; tx_org := tx_org s |}.
Definition with_inflight (s : System) (w : World) (fs : list Fanout) : System :=
  {| world := w; clock := clock s; inflight := fs; sweeping := sweeping s;
     published := published s; tx_org := tx_org s |}.
Definition with_sweep (s : System) (w : World) sw : System :=
  {| world := w; clock := clock s; inflight := inflight s; sweeping := sw;
     published := published s; tx_org := tx_org s |}.

Definition begin_publish (s : System) (org : option str) (id topic : str) (qos : Z) (frame : OutFrame) : System :=
  let w := set_metrics (world s) (count_published (w_metrics (world s))) in
  {| world := w; clock := clock s;
     inflight := inflight s ++ [{| fo_org := org; fo_id := id; fo_topic := topic; fo_qos := Z.min qos 1;
       fo_frame := frame; fo_targets := targets_of (w_clients w) org topic; fo_delivered := [] |}];
     sweeping := sweeping s; published := (id, org) :: published s; tx_org := tx_org s |}.

Definition remember (now : Z) (f : Fanout) (w : World) : World :=
  if 1 <=? fo_qos f then
    set_pending w (fold_left (remember_one (fo_org f) (new_pending now (fo_id f) (fo_topic f) (fo_frame f)))
      (fo_delivered f) (w_pending w))
  else w.

Inductive step : System → System → Prop :=
| st_tick s d : 0 <= d →
    step s {| world := world s; clock := clock s + d; inflight := inflight s; sweeping := sweeping s;
              published := published s; tx_org := tx_org s |}
| st_connect s id h free :
    id ∉ keys (w_clients (world s)) → tx_org s !! tx h = None → subscriptions h = [] →
    step s {| world := set_chans (set_clients (world s) (aset id h (w_clients (world s))))
                (<[tx h := (free, [])]> (w_chans (world s)));
              clock := clock s; inflight := inflight s; sweeping := sweeping s; published := published s;
              tx_org := <[tx h := org_id (perms h)]> (tx_org s) |}
| st_disconnect s id :
    step s (with_world s (set_clients (world s) (aremove id (w_clients (world s)))))
| st_read s t free log n : w_chans (world s) !! t = Some (free, log) → 0 <= n →
    step s (with_world s (set_chans (world s) (<[t := (free + n, log)]> (w_chans (world s)))))
| st_subscribe s id topics : step s (with_world s (on_subscribe (world s) id topics))
| st_unsubscribe s id topics : step s (with_world s (on_unsubscribe (world s) id topics))
| st_regrant s token topics : step s (with_world s (apply_token_topics (world s) token topics).1)
| st_notify s id topic why : step s (with_world s (notify (world s) id (FPublishRefused topic why)))
| st_publish s org id topic payload publisher qos frame :
    id ∉ keys (published s) → publish_frame topic payload publisher qos id = Ok frame →
    step s (begin_publish s org id topic qos frame)
| st_send s fs1 f t ts fs2 w n out :
    inflight s = fs1 ++ f :: fs2 → fo_targets f = t :: ts →
    fan_out_one (fo_frame f) (world s, 0, fo_delivered f) t = (w, n, out) →
    step s (with_inflight s w (fs1 ++ {| fo_org := fo_org f; fo_id := fo_id f; fo_topic := fo_topic f;
      fo_qos := fo_qos f; fo_frame := fo_frame f; fo_targets := ts; fo_delivered := out |} :: fs2))
| st_remember s fs1 f fs2 :
    inflight s = fs1 ++ f :: fs2 → fo_targets f = [] →
    step s (with_inflight s (remember (clock s) f (world s)) (fs1 ++ fs2))
| st_ack s id mid : step s (with_world s (on_publish_ack (world s) id mid))
| st_sweep_begin s : sweeping s = None →
    step s (with_sweep s (set_pending (world s) (sweep_due (clock s) (w_pending (world s))).1)
              (Some (clock s, (sweep_due (clock s) (w_pending (world s))).2)))
| st_sweep_resend s now d ds : sweeping s = Some (now, d :: ds) →
    step s (with_sweep s (sweep_resend (world s, 0) d).1 (Some (now, ds)))
| st_sweep_end s now : sweeping s = Some (now, []) →
    step s (with_sweep s (sweep_abandon now (world s)).1 None).

Definition no_metrics : MessageMetrics :=
  {| mm_published := 0; mm_delivered := 0; mm_dropped := 0; mm_resent := 0; mm_abandoned := 0 |}.

Definition system0 : System :=
  {| world := {| w_clients := []; w_pending := []; w_metrics := no_metrics; w_chans := ∅ |};
     clock := 0; inflight := []; sweeping := None; published := []; tx_org := ∅ |}.

Inductive reachable : System → Prop :=
| reach_init : reachable system0
| reach_step s s' : reachable s → step s s' → reachable s'.
End Publish.

(** ** The invariant *)

Definition subs_ok (h : ClientHandle) : Prop :=
  NoDup (subscriptions h) ∧ Z.of_nat (length (subscriptions h)) <= MAX_FILTERS_PER_CLIENT ∧
  Forall (λ f, validate_topic_filter f = Ok tt ∧ may_use_topic (perms h) f = true) (subscriptions h).

Definition carries (id : str) (f : OutFrame) : Prop := ∃ t p q, f = FPublish t p (Some id) q.

Section Inv.
Context (pub : list (str * option str)) (txo : gmap Z (option str)) (clk : Z).

(** What a channel may hold: notices, and messages published in the
    organization the channel was opened for. *)
Definition frame_ok (t : Z) (f : OutFrame) : Prop :=
  match f with
  | FPublish _ _ (Some id) _ => ∃ org, (id, org) ∈ pub ∧ txo !! t = Some org
  | FPublish _ _ None _ => False
  | _ => True
  end.

Definition chans_ok (c : gmap Z (Z * list OutFrame)) : Prop :=
  map_Forall (λ t fl, Forall (frame_ok t) fl.2) c.

Definition handle_ok (kh : str * ClientHandle) : Prop :=
  txo !! tx kh.2 = Some (org_id (perms kh.2)) ∧ subs_ok kh.2.

Definition message_ok (org : option str) (m : str * OutFrame) : Prop :=
  carries m.1 m.2 ∧ (m.1, org) ∈ pub.

Definition pending_ok (org : option str) (m : Pending) : Prop :=
  message_ok org (p_id m, p_frame m) ∧ first_sent m <= last_sent m <= clk ∧
  1 <= attempts m ∧ ACK_TIMEOUT * (attempts m - 1) <= last_sent m - first_sent m.

Definition queue_ok (kq : PendingKey * list Pending) : Prop :=
  kq.2 ≠ [] ∧ Z.of_nat (length kq.2) <= MAX_PENDING_PER_PROCESS ∧ Forall (pending_ok kq.1.1) kq.2.

Definition fanout_ok (f : Fanout) : Prop :=
  message_ok (fo_org f) (fo_id f, fo_frame f) ∧
  Forall (λ t : Target, txo !! t.2 = Some (fo_org f)) (fo_targets f).

Definition due_ok (d : PendingKey * list (str * OutFrame)) : Prop := Forall (message_ok d.1.1) d.2.

Record world_ok (w : World) : Prop := {
  wo_clients : NoDup (keys (w_clients w));
  wo_handles : Forall handle_ok (w_clients w);
  wo_pending : NoDup (keys (w_pending w));
  wo_queues : Forall queue_ok (w_pending w);
  wo_chans : chans_ok (w_chans w);
}.

Lemma try_send_ok t f c : chans_ok c → frame_ok t f → chans_ok (try_send t f c).1.
Proof.
  intros Hc Hf. unfold try_send. destruct (c !! t) as [[free log]|] eqn:E; [|done].
  case_goal; [|done]. apply map_Forall_insert_2; [|done]. cbn.
  apply Forall_app. split; [by apply (Hc t (free, log))|]. by constructor.
Qed.

Lemma message_frame_ok org m t : message_ok org m → txo !! t = Some org → frame_ok t m.2.
Proof. intros [(? & ? & ? & ->) Hp] Ht. cbn. eauto. Qed.

Lemma set_chans_ok w c : world_ok w → chans_ok c → world_ok (set_chans w c).
Proof. intros [] ?. by constructor. Qed.

Lemma set_metrics_ok w m : world_ok w → world_ok (set_metrics w m).
Proof. intros []. by constructor. Qed.

Lemma send_ok w t f : world_ok w → frame_ok t f → world_ok (set_chans w (try_send t f (w_chans w)).1).
Proof. intros Hw Hf. apply set_chans_ok; [done|]. apply try_send_ok; [apply Hw|done]. Qed.

Lemma set_clients_ok w cs :
  world_ok w → NoDup (keys cs) → Forall handle_ok cs → world_ok (set_clients w cs).
Proof. intros [] ??. by constructor. Qed.

Lemma set_pending_ok w p :
  world_ok w → NoDup (keys p) → Forall queue_ok p → world_ok (set_pending w p).
Proof. intros [] ??. by constructor. Qed.

Lemma handle_of w id h : world_ok w → aget id (w_clients w) = Some h → handle_ok (id, h).
Proof.
  intros Hw Ha. apply aget_Some_elem in Ha.
  eapply Forall_forall in Ha; [exact Ha|]. apply Hw.
Qed.

Lemma queue_of w k q : world_ok w → aget k (w_pending w) = Some q → queue_ok (k, q).
Proof.
  intros Hw Ha. apply aget_Some_elem in Ha.
  eapply Forall_forall in Ha; [exact Ha|]. apply Hw.
Qed.

Lemma notify_ok json_error w id f :
  world_ok w → (∀ t, frame_ok t f) → world_ok (notify json_error w id f).
Proof. intros Hw Hf. unfold notify. case_goal; [done|]. case_goal; [|done]. by apply send_ok. Qed.
End Inv.

(** ** Every operation preserves it *)

Section Preserve.
Context (json_error : OutFrame → option str) (b64_encode : str → str).
Context (pub : list (str * option str)) (txo : gmap Z (option str)) (clk : Z).
Local Abbreviation wok := (world_ok pub txo clk).

Lemma subscribe_one_ok h add st topic :
  subs_ok (with_subscriptions h st.1) →
  subs_ok (with_subscriptions h (subscribe_one (perms h) add st topic).1).
Proof.
  destruct st as [subs refused]. unfold subs_ok, subscribe_one. cbn. intros (Hn & Hl & Hf).
  destruct add; cbn.
  - destruct (validate_topic_filter topic) as [[]|] eqn:Ev; [|done].
    destruct (may_use_topic (perms h) topic) eqn:Em; [|done]. cbn.
    case_bool_decide as Hin; [done|]. case_goal; [done|]. cbn. apply Z.leb_gt in E.
    rewrite length_app. cbn. split; [|split; [lia|]].
    + apply NoDup_app. split; [done|]. split; [|apply NoDup_singleton].
      intros x Hx ->%list_elem_of_singleton. done.
    + apply Forall_app. split; [done|]. by repeat constructor.
  - split; [by apply NoDup_filter|]. split; [|by apply Forall_filter].
    pose proof (length_filter (λ f, f ≠ topic) subs). lia.
Qed.

Lemma subscribe_all_ok h add topics st :
  subs_ok (with_subscriptions h st.1) →
  subs_ok (with_subscriptions h (fold_left (subscribe_one (perms h) add) topics st).1).
Proof.
  revert st. induction topics as [|t ts IH]; intros st Hs; [done|]. cbn. apply IH.
  by apply subscribe_one_ok.
Qed.

Lemma set_subscriptions_ok w id topics add : wok w → wok (set_subscriptions w id topics add).1.
Proof.
  intros Hw. unfold set_subscriptions. destruct (aget id (w_clients w)) as [h|] eqn:Eh; [|done].
  destruct (handle_of _ _ _ _ _ _ Hw Eh) as [Ht Hs].
  pose proof (subscribe_all_ok h add topics (subscriptions h, [])) as Hall.
  destruct (fold_left _ _ _) as [subs refused]. cbn in *.
  apply set_clients_ok; [done|apply NoDup_aset, Hw|].
  apply Forall_aset; [apply Hw|]. split; [done|]. cbn. apply Hall. by destruct h.
Qed.

Lemma on_subscribe_ok w id topics : wok w → wok (on_subscribe json_error w id topics).
Proof.
  intros Hw. unfold on_subscribe. apply (set_subscriptions_ok _ id topics true) in Hw.
  destruct (set_subscriptions _ _ _ _) as [w' refused]. cbn in Hw.
  revert w' Hw. induction refused as [|[t why] r IH]; intros w' Hw; [done|].
  cbn. apply IH. by apply notify_ok.
Qed.

Lemma regrant_ok token topics kh :
  handle_ok txo kh → handle_ok txo (kh.1, (regrant token topics kh.2).1).
Proof.
  destruct kh as [id h]. intros [Ht (Hn & Hl & Hf)]. unfold handle_ok, regrant. cbn.
  case_bool_decide; [done|]. cbn. split; [done|]. unfold subs_ok. cbn.
  set (pm := with_topics (perms h) topics).
  split; [by apply NoDup_filter|]. split.
  - etrans; [|exact Hl]. apply inj_le, length_filter.
  - apply Forall_forall. intros f [Hm Hin]%list_elem_of_filter.
    rewrite Forall_forall in Hf. split; [by apply Hf|done].
Qed.

Lemma fold_world_ok {A B} (g : World * B → A → World * B) l st :
  (∀ st a, wok st.1 → wok (g st a).1) → wok st.1 → wok (fold_left g l st).1.
Proof. intros Hg. revert st. induction l as [|a l IH]; intros st Hw; [done|]. cbn. apply IH, Hg, Hw. Qed.

Lemma apply_token_topics_ok w token topics : wok w → wok (apply_token_topics json_error w token topics).1.
Proof.
  intros Hw. unfold apply_token_topics. apply fold_world_ok.
  - intros st tg Hst. apply fold_world_ok; [|done].
    intros [w' n] f Hw'. cbn in *. case_goal; [done|]. by apply send_ok.
  - cbn. apply set_clients_ok; [done| |].
    + unfold keys. rewrite <- list_fmap_compose. apply Hw.
    + apply Forall_map. eapply Forall_impl; [apply Hw|]. intros. by apply regrant_ok.
Qed.

Lemma acknowledge_ok w id mid : wok w → wok (acknowledge w id mid).
Proof.
  intros Hw. unfold acknowledge. case_goal; [|done].
  set (k := (org_id _, _)). clearbody k.
  destruct (aget k (w_pending w)) as [q|] eqn:Eq; [|done].
  destruct (queue_of _ _ _ _ _ _ Hw Eq) as (_ & Hlen & Hall). cbn in *.
  set (q' := filter _ q). case_bool_decide as Hq.
  - apply set_pending_ok; [done|apply NoDup_aremove, Hw|apply Forall_aremove, Hw].
  - apply set_pending_ok; [done|apply NoDup_aset, Hw|]. apply Forall_aset; [apply Hw|].
    split; [done|]. split; [|by apply Forall_filter].
    cbn. etrans; [|exact Hlen]. apply inj_le, length_filter.
Qed.

Lemma remember_one_ok org m w p :
  pending_ok pub clk org m → wok (set_pending w p) → ∀ process, wok (set_pending w (remember_one org m p process)).
Proof.
  intros Hm Hw process. unfold remember_one.
  set (k := (org, process)). set (q := default [] (aget k p)).
  assert (Z.of_nat (length q) <= MAX_PENDING_PER_PROCESS ∧ Forall (pending_ok pub clk org) q) as [Hlen Hall].
  { unfold q. destruct (aget k p) as [q0|] eqn:Eq; [|done].
    destruct (queue_of _ _ _ (set_pending w p) k q0 Hw Eq) as (_ & ? & ?). done. }
  clearbody q.
  destruct Hw as [? ? Hp Hq ?]. cbn in *. constructor; cbn; [done|done|by apply NoDup_aset| |done].
  apply Forall_aset; [done|]. unfold queue_ok. cbn [fst snd k].
  split; [by intros [_ ?]%app_eq_nil|]. rewrite length_app. cbn [length].
  unfold MAX_PENDING_PER_PROCESS in *. case_goal; split; rewrite ?Forall_app.
  - destruct q; cbn in *; lia.
  - split; [|by constructor]. destruct q; [done|]. by apply Forall_cons in Hall as [_ ?].
  - lia.
  - split; [done|]. by constructor.
Qed.

Lemma remember_ok now f w :
  now = clk → fanout_ok pub txo f → wok w → wok (remember now f w).
Proof.
  intros -> [Hm _] Hw. unfold remember. case_goal; [|done].
  assert (pending_ok pub clk (fo_org f) (new_pending clk (fo_id f) (fo_topic f) (fo_frame f))) as Hp.
  { split; [done|]. cbn. unfold ACK_TIMEOUT. lia. }
  assert (∀ p, wok (set_pending w p) →
    wok (set_pending w (fold_left (remember_one (fo_org f) (new_pending clk (fo_id f) (fo_topic f) (fo_frame f)))
      (fo_delivered f) p))) as Hfold.
  { induction (fo_delivered f) as [|x xs IH]; intros p Hp'; [done|]. cbn. apply IH. by apply remember_one_ok. }
  apply Hfold. by destruct Hw.
Qed.

Lemma fan_out_one_ok f t w w' n out st0 :
  fanout_ok pub txo f → t ∈ fo_targets f → wok w →
  fan_out_one (fo_frame f) (w, n, st0) t = (w', out.1, out.2) → wok w'.
Proof.
  intros [Hm Ht] Hin Hw. destruct t as [[p c] tx]. rewrite Forall_forall in Ht. specialize (Ht _ Hin). cbn in Ht.
  cbn. pose proof (try_send_ok pub txo tx (fo_frame f) (w_chans w)) as Hs.
  destruct (try_send _ _ _) as [ch ok]. destruct ok; intros [= <- _ _]; apply set_metrics_ok; [|done].
  apply set_chans_ok; [done|]. apply Hs; [apply Hw|]. by apply (message_frame_ok _ _ _ _ _ Hm).
Qed.
End Preserve.

Section PreserveSweep.
Context (pub : list (str * option str)) (txo : gmap Z (option str)) (clk : Z).
Local Abbreviation wok := (world_ok pub txo clk).

Lemma touch_ok org m : pending_ok pub clk org m → pending_ok pub clk org (touch clk m).
Proof.
  intros (Hm & Ht & Ha & Hb). unfold touch. destruct (is_due clk m) eqn:E; [|exact (conj Hm (conj Ht (conj Ha Hb)))].
  unfold is_due, sat_sub in E. apply negb_true_iff, Z.ltb_ge in E.
  split; [done|]. cbn. unfold ACK_TIMEOUT, second in *. lia.
Qed.

Lemma sweep_due_ok w : wok w → wok (set_pending w (sweep_due clk (w_pending w)).1).
Proof.
  intros Hw. apply set_pending_ok; [done| |]; cbn.
  - unfold keys. rewrite <- list_fmap_compose. apply Hw.
  - apply Forall_map. eapply Forall_impl; [apply Hw|]. intros [k q] (Hq & Hl & Hf). cbn in *.
    split; [by destruct q|]. cbn. rewrite length_map. split; [done|].
    apply Forall_map. eapply Forall_impl; [exact Hf|]. apply touch_ok.
Qed.

Lemma due_of_ok now w : wok w → Forall (due_ok pub) (sweep_due now (w_pending w)).2.
Proof.
  intros Hw. cbn. apply Forall_filter, Forall_map. eapply Forall_impl; [apply Hw|].
  intros [k q] (_ & _ & Hf). unfold due_ok, due_of. cbn in *. apply Forall_map, Forall_filter.
  eapply Forall_impl; [exact Hf|]. intros m Hm. apply Hm.
Qed.

Lemma resend_target_ok w org process t :
  wok w → resend_target (w_clients w) org process = Some t → txo !! t = Some org.
Proof.
  intros Hw. unfold resend_target. destruct (list_find _ _) as [[i [id h]]|] eqn:E.
  - intros [= <-]. apply list_find_Some in E as (Hi & Hc & _). cbn in Hc.
    apply andb_true_iff in Hc as [<-%bool_decide_eq_true _].
    apply list_elem_of_lookup_2 in Hi.
    pose proof (proj1 (Forall_forall _ _) (wo_handles _ _ _ _ Hw) _ Hi) as [Ht _]. exact Ht.
  - destruct (aget process (w_clients w)) as [h|] eqn:Eh; [|done].
    case_bool_decide as Ho; [|done]. intros [= <-]. subst org.
    by destruct (handle_of _ _ _ _ _ _ Hw Eh).
Qed.

Lemma sweep_resend_ok w d : wok w → due_ok pub d → wok (sweep_resend (w, 0) d).1.
Proof.
  destruct d as [[org process] ms]. unfold due_ok. cbn. intros Hw Hd.
  destruct (resend_target _ _ _) as [t|] eqn:Et; [|done].
  apply (resend_target_ok _ _ _ _ Hw) in Et. generalize 0. revert w Hw.
  induction Hd as [|m ms Hm Hd IH]; intros w Hw n; [done|]. cbn.
  pose proof (try_send_ok pub txo t m.2 (w_chans w) (wo_chans _ _ _ _ Hw) (message_frame_ok _ _ _ _ _ Hm Et)) as Hs.
  destruct (try_send _ _ _) as [c ok]. destruct ok; apply IH; [|done].
  apply set_metrics_ok, set_chans_ok; done.
Qed.

Lemma sweep_abandon_ok now w : wok w → wok (sweep_abandon now w).1.
Proof.
  intros Hw. unfold sweep_abandon. apply set_metrics_ok.
  apply set_pending_ok; [done| |].
  - apply NoDup_keys_filter. unfold keys. rewrite <- list_fmap_compose. apply Hw.
  - apply Forall_forall. intros kq [Hne Hin]%list_elem_of_filter.
    apply list_elem_of_fmap in Hin as ([k q] & -> & Hin). cbn in *.
    pose proof (proj1 (Forall_forall _ _) (wo_queues _ _ _ _ Hw) _ Hin) as (_ & Hl & Hf). cbn in *.
    split; [done|]. split; [|by apply Forall_filter]. cbn. etrans; [|exact Hl]. apply inj_le, length_filter.
Qed.
End PreserveSweep.

(** ** Who a message is handed to *)

Definition target_process (t : Target) : str := t.1.1.

Definition target_of (cs : list (str * ClientHandle)) (org : option str) (topic : str) (t : Target) : Prop :=
  ∃ h, (t.1.2, h) ∈ cs ∧ wants org topic h = true ∧ t.1.1 = process_of t.1.2 h ∧ t.2 = tx h.

Lemma targets_fold cs org topic seen out :
  ∃ new, (fold_left (collect_target org topic) cs (seen, out)).2 = out ++ new ∧
    Forall (λ t, target_of cs org topic t ∧ target_process t ∉ seen) new ∧
    NoDup (map target_process new) ∧
    (∀ c h, (c, h) ∈ cs → wants org topic h = true → process_of c h ∈ seen ++ map target_process new).
Proof.
  revert seen out. induction cs as [|[c h] cs IH]; intros seen out.
  { exists []. rewrite app_nil_r. split; [done|]. split; [constructor|]. split; [apply NoDup_nil_2|].
    intros ?? []%elem_of_nil. }
  assert (∀ t, target_of cs org topic t → target_of ((c, h) :: cs) org topic t) as Hmono.
  { intros t (h' & Hin & Hr). exists h'. split; [by right|done]. }
  cbn [fold_left]. unfold collect_target at 2. destruct (wants org topic h) eqn:Ew; cbn [negb].
  2:{ destruct (IH seen out) as (new & -> & Hf & Hn & Hc). exists new.
      split; [done|]. split; [eapply Forall_impl; [exact Hf|]; naive_solver|]. split; [done|].
      intros c' h' [[= -> ->]|Hin]%elem_of_cons Hw; [congruence|]. eauto. }
  cbv zeta. set (p := process_of c h). case_bool_decide as Hp.
  { destruct (IH seen out) as (new & -> & Hf & Hn & Hc). exists new.
    split; [done|]. split; [eapply Forall_impl; [exact Hf|]; naive_solver|]. split; [done|].
    intros c' h' [[= -> ->]|Hin]%elem_of_cons Hw; [|eauto]. apply elem_of_app. by left. }
  destruct (IH (p :: seen) (out ++ [(p, c, tx h)])) as (new & -> & Hf & Hn & Hc).
  exists ((p, c, tx h) :: new). rewrite <- app_assoc. cbn [app map]. split; [done|].
  change (target_process (p, c, tx h)) with p. split; [|split].
  - constructor.
    + split; [|done]. exists h. split; [by left|done].
    + eapply Forall_impl; [exact Hf|]. intros t [Ht Hs]. split; [by apply Hmono|]. set_solver.
  - constructor; [|done]. intros (t & -> & Ht)%list_elem_of_fmap.
    rewrite Forall_forall in Hf. destruct (Hf t Ht) as [_ Hs]. apply Hs. by left.
  - intros c' h' [[= -> ->]|Hin]%elem_of_cons Hw.
    + apply elem_of_app. right. by left.
    + specialize (Hc _ _ Hin Hw). set_solver.
Qed.

(** The targets are connections that want the message, one for each process
    with such a connection. *)
Lemma targets_of_spec cs org topic :
  Forall (target_of cs org topic) (targets_of cs org topic) ∧
  NoDup (map target_process (targets_of cs org topic)) ∧
  (∀ c h, (c, h) ∈ cs → wants org topic h = true →
    process_of c h ∈ map target_process (targets_of cs org topic)).
Proof.
  unfold targets_of. destruct (targets_fold cs org topic [] []) as (new & -> & Hf & Hn & Hc). cbn.
  repeat split; [|done|done]. eapply Forall_impl; [exact Hf|]. naive_solver.
Qed.

Lemma targets_in_org pub txo clk w org topic :
  world_ok pub txo clk w → Forall (λ t : Target, txo !! t.2 = Some org) (targets_of (w_clients w) org topic).
Proof.
  intros Hw. destruct (targets_of_spec (w_clients w) org topic) as [Hf _].
  eapply Forall_impl; [exact Hf|]. intros t (h & Hin & Hwants & _ & ->).
  pose proof (proj1 (Forall_forall _ _) (wo_handles _ _ _ _ Hw) _ Hin) as [Ht _].
  apply andb_true_iff in Hwants as [<-%bool_decide_eq_true _]. done.
Qed.

(** ** The invariant of the running system *)

Section Mono.
Context (pub pub' : list (str * option str)) (txo txo' : gmap Z (option str)) (clk clk' : Z).
Context (Hpub : pub ⊆ pub') (Htxo : txo ⊆ txo') (Hclk : clk <= clk').

Lemma frame_ok_mono t f : frame_ok pub txo t f → frame_ok pub' txo' t f.
Proof.
  destruct f as [?? [id|] ?| |]; try done. intros (org & Hin & Ht). exists org.
  split; [by apply Hpub|]. by eapply lookup_weaken.
Qed.

Lemma message_ok_mono org m : message_ok pub org m → message_ok pub' org m.
Proof. intros [? ?]. split; [done|]. by apply Hpub. Qed.

Lemma fanout_ok_mono f : fanout_ok pub txo f → fanout_ok pub' txo' f.
Proof.
  intros [Hm Ht]. split; [by apply message_ok_mono|]. eapply Forall_impl; [exact Ht|].
  intros t Hl. exact (lookup_weaken _ _ _ _ Hl Htxo).
Qed.

Lemma due_ok_mono d : due_ok pub d → due_ok pub' d.
Proof. intros Hd. eapply Forall_impl; [exact Hd|]. apply message_ok_mono. Qed.

Lemma queue_ok_mono kq : queue_ok pub clk kq → queue_ok pub' clk' kq.
Proof.
  intros (? & ? & Hf). split; [done|]. split; [done|]. eapply Forall_impl; [exact Hf|].
  intros m (Hm & ? & ?). split; [by apply message_ok_mono|]. lia.
Qed.

Lemma world_ok_mono w : world_ok pub txo clk w → world_ok pub' txo' clk' w.
Proof.
  intros [? Hh ? Hq Hc]. constructor; try done.
  - eapply Forall_impl; [exact Hh|]. intros kh [Ht ?]. split; [|done]. exact (lookup_weaken _ _ _ _ Ht Htxo).
  - eapply Forall_impl; [exact Hq|]. apply queue_ok_mono.
  - intros t fl Hfl. eapply Forall_impl; [by apply (Hc t)|]. apply frame_ok_mono.
Qed.
End Mono.

Record sys_ok (s : System) : Prop := {
  so_world : world_ok (published s) (tx_org s) (clock s) (world s);
  so_fanouts : Forall (fanout_ok (published s) (tx_org s)) (inflight s);
  so_due : ∀ now ds, sweeping s = Some (now, ds) → Forall (due_ok (published s)) ds;
  so_ids : NoDup (keys (published s));
}.

Section Steps.
Context (json_error : OutFrame → option str) (b64_encode : str → str).

Lemma with_world_ok s w :
  sys_ok s → world_ok (published s) (tx_org s) (clock s) w → sys_ok (with_world s w).
Proof. intros [] ?. by constructor. Qed.

Lemma connect_ok s id h free :
  id ∉ keys (w_clients (world s)) → tx_org s !! tx h = None → subscriptions h = [] → sys_ok s →
  sys_ok {| world := set_chans (set_clients (world s) (aset id h (w_clients (world s))))
              (<[tx h := (free, [])]> (w_chans (world s)));
            clock := clock s; inflight := inflight s; sweeping := sweeping s; published := published s;
            tx_org := <[tx h := org_id (perms h)]> (tx_org s) |}.
Proof.
  intros Hid Htx Hsub [Hw Hf Hd Hn].
  pose proof (insert_subseteq (tx_org s) (tx h) (org_id (perms h)) Htx) as Hsubs.
  apply (world_ok_mono _ (published s) _ _ _ (clock s) (reflexivity _) Hsubs (Z.le_refl _)) in Hw.
  constructor; cbn; [|by eapply Forall_impl; [exact Hf|]; intros; eapply fanout_ok_mono|done|done].
  apply set_chans_ok; [apply set_clients_ok|].
  - done.
  - apply NoDup_aset, Hw.
  - apply Forall_aset; [apply Hw|]. split; [cbn; by rewrite lookup_insert_eq|].
    unfold subs_ok. cbn. rewrite Hsub. repeat split; [apply NoDup_nil_2|done|done].
  - cbn. apply map_Forall_insert_2; [done|]. apply Hw.
Qed.

Lemma begin_publish_ok s org id topic payload publisher qos frame :
  id ∉ keys (published s) → publish_frame json_error b64_encode topic payload publisher qos id = Ok frame →
  sys_ok s → sys_ok (begin_publish s org id topic qos frame).
Proof.
  intros Hid Hfr [Hw Hf Hd Hn].
  assert (published s ⊆ (id, org) :: published s) as Hsub by set_solver.
  apply (world_ok_mono _ _ _ _ _ (clock s) Hsub (reflexivity (tx_org s)) (Z.le_refl _)) in Hw.
  constructor; cbn -[targets_of].
  - by apply set_metrics_ok.
  - apply Forall_app. split; [eapply Forall_impl; [exact Hf|]; intros; by eapply fanout_ok_mono|].
    constructor; [|done]. split; cbn -[targets_of].
    + split; [|by left]. unfold publish_frame in Hfr. repeat case_in Hfr; try done.
      injection Hfr as <-. by do 3 eexists.
    + by eapply targets_in_org.
  - intros now ds Hs. eapply Forall_impl; [by eapply Hd|]. intros. by eapply due_ok_mono.
  - by constructor.
Qed.

Lemma step_ok s s' : step json_error b64_encode s s' → sys_ok s → sys_ok s'.
Proof.
  intros Hst Hs. destruct Hst as
    [s d Hd|s id h free|s id|s t free log n Hc Hn|s id topics|s id topics|s token topics|s id topic why
    |s org id topic payload publisher qos frame|s fs1 f t ts fs2 w n out Hfl Hts Hone|s fs1 f fs2 Hfl Hts
    |s id mid|s Hsw|s now d ds Hsw|s now Hsw]; pose proof (so_world s Hs) as Hw.
  - destruct Hs as [_ Hf Hdue Hn]. constructor; cbn; [|done|done|done].
    eapply world_ok_mono; [..|exact Hw]; [done|done|lia].
  - by apply connect_ok.
  - apply with_world_ok; [done|]. apply set_clients_ok; [done|apply NoDup_aremove, Hw|apply Forall_aremove, Hw].
  - apply with_world_ok; [done|]. apply set_chans_ok; [done|]. apply map_Forall_insert_2; [|apply Hw].
    cbn. by apply (wo_chans _ _ _ _ Hw t (free, log)).
  - apply with_world_ok; [done|]. by apply on_subscribe_ok.
  - apply with_world_ok; [done|]. by apply set_subscriptions_ok.
  - apply with_world_ok; [done|]. by apply apply_token_topics_ok.
  - apply with_world_ok; [done|]. by apply notify_ok.
  - by eapply begin_publish_ok.
  - pose proof (so_fanouts s Hs) as Hf. rewrite Hfl in Hf.
    apply Forall_app in Hf as [Hf1 [Hff Hf2]%Forall_cons].
    destruct Hs as [_ _ Hdue Hids]. constructor; cbn; [|apply Forall_app; split; [done|]; constructor; [|done]|done|done].
    + eapply (fan_out_one_ok _ _ _ f t (world s) w 0 (n, out)); [done| |done|exact Hone]. rewrite Hts. by left.
    + destruct Hff as [Hm Ht]. split; [done|]. cbn. rewrite Hts in Ht. by apply Forall_cons in Ht as [_ ?].
  - pose proof (so_fanouts s Hs) as Hf. rewrite Hfl in Hf.
    apply Forall_app in Hf as [Hf1 [Hff Hf2]%Forall_cons].
    destruct Hs as [_ _ Hdue Hids]. constructor; cbn; [by apply remember_ok|by apply Forall_app|done|done].
  - apply with_world_ok; [done|]. by apply acknowledge_ok.
  - destruct Hs as [_ Hf _ Hids]. constructor; cbn -[sweep_due]; [by apply sweep_due_ok|done| |done].
    intros now ds [= <- <-]. by eapply due_of_ok.
  - destruct Hs as [_ Hf Hdue Hids]. specialize (Hdue _ _ Hsw) as [Hd Hds]%Forall_cons.
    constructor; cbn -[sweep_resend]; [by apply sweep_resend_ok|done| |done]. by intros ?? [= <- <-].
  - destruct Hs as [_ Hf _ Hids]. constructor; cbn -[sweep_abandon]; [by apply sweep_abandon_ok|done|done|done].
Qed.

Lemma reachable_ok s : reachable json_error b64_encode s → sys_ok s.
Proof.
  induction 1 as [|s s' _ IH Hst]; [|by eapply step_ok].
  constructor; cbn; try done; [|apply NoDup_nil_2].
  constructor; cbn; [apply NoDup_nil_2|done|apply NoDup_nil_2|done|apply map_Forall_empty].
Qed.
End Steps.

(** ** The functions are runs of the system *)

Section Runs.
Context (json_error : OutFrame → option str) (b64_encode : str → str).
Local Abbreviation reach := (reachable json_error b64_encode).

Definition left_to_send (f : Fanout) (ts : list Target) (out : list str) : Fanout :=
  {| fo_org := fo_org f; fo_id := fo_id f; fo_topic := fo_topic f; fo_qos := fo_qos f;
     fo_frame := fo_frame f; fo_targets := ts; fo_delivered := out |}.

Lemma fan_out_steps f fs ts s n out w n' out' :
  reach s → inflight s = fs ++ [left_to_send f ts out] →
  fold_left (fan_out_one (fo_frame f)) ts (world s, n, out) = (w, n', out') →
  reach (with_inflight s w (fs ++ [left_to_send f [] out'])).
Proof.
  revert s n out. induction ts as [|[[p c] t] ts IH]; intros s n out Hr Hfl Hf.
  { injection Hf as <- _ <-. rewrite <- Hfl. by destruct s. }
  cbn [fold_left] in Hf. destruct (fan_out_one _ _ _) as [[w1 n1] out1] eqn:E1.
  apply (IH (with_inflight s w1 (fs ++ [left_to_send f ts out1])) n1 out1); [|done|exact Hf].
  destruct (fan_out_one (fo_frame f) (world s, 0, out) (p, c, t)) as [[w2 n2] out2] eqn:E2.
  assert (w2 = w1 ∧ out2 = out1) as [-> ->].
  { revert E1 E2. cbn. destruct (try_send _ _ _) as [c1 [|]]; intros [= <- _ <-] [= <- _ <-]; done. }
  eapply reach_step; [exact Hr|].
  exact (st_send json_error b64_encode s fs (left_to_send f ((p, c, t) :: ts) out) (p, c, t) ts [] w1 n2 out1 Hfl eq_refl E2).
Qed.

(** A publish that runs without interruption is a run of [step]. *)
Lemma publish_runs s id org topic payload publisher qos w d :
  reach s → inflight s = [] → id ∉ keys (published s) →
  publish json_error b64_encode (world s) (clock s) id org topic payload publisher qos = (w, Ok d) →
  reach {| world := w; clock := clock s; inflight := []; sweeping := sweeping s;
           published := (id, org) :: published s; tx_org := tx_org s |}.
Proof.
  intros Hr Hfl Hid. unfold publish. destruct (publish_frame _ _ _ _ _ _ _) as [frame|e] eqn:Efr; [|done].
  destruct (fold_left _ _ _) as [[w1 n] out] eqn:Ef. intros [= <- _].
  pose proof (reach_step _ _ _ _ Hr (st_publish json_error b64_encode s org id topic payload publisher qos frame Hid Efr)) as Hr1.
  set (f := {| fo_org := org; fo_id := id; fo_topic := topic; fo_qos := Z.min qos 1; fo_frame := frame;
               fo_targets := targets_of (w_clients (world s)) org topic; fo_delivered := [] |}).
  eapply (fan_out_steps f [] _ _ 0 []) in Hr1; [|cbn; by rewrite Hfl|exact Ef].
  eapply reach_step in Hr1; [|eapply (st_remember _ _ _ [] (left_to_send f [] out) []); done].
  cbn in Hr1. exact Hr1.
Qed.

Lemma resend_steps s now ds n w m :
  reach s → sweeping s = Some (now, ds) →
  fold_left sweep_resend ds (world s, n) = (w, m) → reach (with_sweep s w (Some (now, []))).
Proof.
  revert s n. induction ds as [|d ds IH]; intros s n Hr Hsw Hf.
  { injection Hf as <- _. rewrite <- Hsw. by destruct s. }
  cbn [fold_left] in Hf. destruct (sweep_resend (world s, n) d) as [w1 n1] eqn:E1.
  apply (IH (with_sweep s w1 (Some (now, ds))) n1); [|done|exact Hf].
  replace w1 with (sweep_resend (world s, 0) d).1.
  { eapply reach_step; [exact Hr|]. by apply st_sweep_resend. }
  transitivity (sweep_resend (world s, n) d).1; [|by rewrite E1].
  clear. destruct d as [[org p] ms]. cbn. case_goal; [|done]. generalize (world s) 0 n.
  induction ms as [|m ms IH]; intros w a b; [done|]. cbn. destruct (try_send _ _ _) as [c [|]]; apply IH.
Qed.

(** So is a sweep. *)
Lemma sweep_runs s w r :
  reach s → sweeping s = None → sweep_pending (clock s) (world s) = (w, r) → reach (with_world s w).
Proof.
  intros Hr Hsw. unfold sweep_pending.
  pose proof (reach_step _ _ _ _ Hr (st_sweep_begin json_error b64_encode s Hsw)) as Hr1.
  destruct (sweep_due (clock s) (w_pending (world s))) as [pending due] eqn:Ed. cbn [fst snd] in Hr1.
  destruct (fold_left _ _ _) as [w1 n] eqn:Ef. destruct (sweep_abandon (clock s) w1) as [w2 k] eqn:Ea.
  intros [= <- _]. apply (resend_steps _ (clock s) due 0 w1 n) in Hr1; [|done|exact Ef].
  eapply reach_step in Hr1; [|by apply st_sweep_end].
  cbn [world with_sweep] in Hr1. rewrite Ea in Hr1.
  unfold with_sweep, with_world in *. cbn in *. by rewrite Hsw.
Qed.
End Runs.

(** ** What one publish does *)

Definition room (c : gmap Z (Z * list OutFrame)) (t : Target) : bool :=
  match c !! t.2 with Some (free, _) => 0 <? free | None => false end.

Definition delivered (frame : OutFrame) (fl : Z * list OutFrame) : Z * list OutFrame :=
  (fl.1 - 1, fl.2 ++ [frame]).

Definition enqueue (m : Pending) (q : list Pending) : list Pending :=
  (if MAX_PENDING_PER_PROCESS <=? Z.of_nat (length q) then tail q else q) ++ [m].

Definition accepted (c : gmap Z (Z * list OutFrame)) (ts : list Target) : list Target :=
  filter (λ t, room c t = true) ts.

Lemma accepted_cons c t ts : accepted c (t :: ts) = if room c t then t :: accepted c ts else accepted c ts.
Proof. unfold accepted. rewrite filter_cons. destruct (room c t); by case_decide. Qed.

Lemma accepted_ext c c' ts : (∀ x, x ∈ map snd ts → c !! x = c' !! x) → accepted c ts = accepted c' ts.
Proof.
  induction ts as [|t ts IH]; intros Hx; [done|]. rewrite !accepted_cons, IH by (intros; apply Hx; by right).
  assert (room c t = room c' t) as -> by (unfold room; rewrite Hx; [done|by left]). done.
Qed.

Lemma accepted_sub c ts t : t ∈ accepted c ts → t ∈ ts.
Proof. by intros [_ ?]%list_elem_of_filter. Qed.

Lemma NoDup_accepted {B} (g : Target → B) c ts : NoDup (map g ts) → NoDup (map g (accepted c ts)).
Proof.
  induction ts as [|t ts IH]; [done|]. cbn [map]. intros [Ht Hn]%NoDup_cons. rewrite accepted_cons.
  destruct (room c t); [|auto]. cbn [map]. constructor; [|auto].
  intros (y & Hy & Hin)%list_elem_of_fmap. apply Ht. rewrite Hy. by apply (list_elem_of_fmap_2 g), (accepted_sub c).
Qed.

Lemma try_send_room t f c :
  (room c t = true ∧ ∃ fl, c !! t.2 = Some fl ∧ try_send t.2 f c = (<[t.2 := delivered f fl]> c, true)) ∨
  (room c t = false ∧ try_send t.2 f c = (c, false)).
Proof.
  unfold room, try_send. destruct (c !! t.2) as [[free log]|]; [|by right].
  destruct (0 <? free); [left|by right]. split; [done|]. by eexists.
Qed.

Lemma fan_out_fold frame ts w n out w' n' out' :
  NoDup (map snd ts) → fold_left (fan_out_one frame) ts (w, n, out) = (w', n', out') →
  n' = n + Z.of_nat (length (accepted (w_chans w) ts)) ∧
  out' = out ++ map target_process (accepted (w_chans w) ts) ∧
  w_clients w' = w_clients w ∧ w_pending w' = w_pending w ∧
  (∀ x, w_chans w' !! x =
    if decide (x ∈ map snd (accepted (w_chans w) ts)) then delivered frame <$> w_chans w !! x else w_chans w !! x).
Proof.
  revert w n out. induction ts as [|t ts IH]; intros w n out Hn Hf.
  { injection Hf as <- <- <-. cbn. rewrite app_nil_r, Z.add_0_r. repeat split. }
  cbn [map] in Hn. apply NoDup_cons in Hn as [Hx Hn]. rewrite accepted_cons.
  destruct t as [[p c] x]. cbn [fold_left fan_out_one] in Hf.
  destruct (try_send_room (p, c, x) frame (w_chans w)) as [(Hr & fl & Hl & Hs)|[Hr Hs]];
    cbn [snd] in *; rewrite Hs in Hf; rewrite Hr; destruct (IH _ _ _ Hn Hf) as (-> & -> & -> & -> & Hc);
    cbn [w_chans set_metrics set_chans w_clients w_pending] in *; [|by repeat split].
  set (c1 := <[x:=_]> _) in *.
  assert (accepted c1 ts = accepted (w_chans w) ts) as Ha.
  { apply accepted_ext. intros y Hy. unfold c1. rewrite lookup_insert_ne; [done|]. by intros ->. }
  rewrite Ha in *. cbn [length map target_process fst]. rewrite <- app_assoc. split; [lia|].
  repeat split. intros y. rewrite Hc. unfold c1. destruct (decide (y = x)) as [->|Hy].
  - rewrite lookup_insert_eq, Hl. rewrite decide_False, decide_True; [done|by left|].
    intros (t & -> & Ht)%list_elem_of_fmap. apply Hx. by apply (list_elem_of_fmap_2 snd), (accepted_sub (w_chans w)).
  - rewrite lookup_insert_ne by done.
    repeat case_decide; try done; exfalso; set_solver.
Qed.

Lemma remember_fold org m ps p :
  NoDup ps → (∀ k, aget k (fold_left (remember_one org m) ps p) =
    if decide (k.1 = org ∧ k.2 ∈ ps) then Some (enqueue m (default [] (aget k p))) else aget k p).
Proof.
  revert p. induction ps as [|x ps IH]; intros p Hn k.
  { cbn. rewrite decide_False; [done|]. intros [_ []%elem_of_nil]. }
  apply NoDup_cons in Hn as [Hx Hn]. cbn [fold_left]. rewrite IH by done. unfold remember_one at 1 2.
  destruct (decide (k = (org, x))) as [->|Hk]; cbn [fst snd].
  - rewrite aget_aset_eq, decide_False, decide_True; [done|by split; [|left]|naive_solver].
  - rewrite aget_aset_ne by done. repeat case_decide; try done; exfalso; destruct k; set_solver.
Qed.

Lemma targets_tx_NoDup cs org topic :
  NoDup (map (λ kh : str * ClientHandle, tx kh.2) cs) → NoDup (map snd (targets_of cs org topic)).
Proof.
  intros Hn. destruct (targets_of_spec cs org topic) as (Hf & Hp & _). rewrite Forall_forall in Hf.
  apply (NoDup_map_via target_process); [done|]. intros t t' Ht Ht' Heq.
  destruct (Hf _ Ht) as (h & Hin & _ & Hpr & Htx), (Hf _ Ht') as (h' & Hin' & _ & Hpr' & Htx').
  assert ((t.1.2, h) = (t'.1.2, h')) as [= Hid ->].
  { apply (NoDup_map_inj (λ kh : str * ClientHandle, tx kh.2) cs); [done..|]. cbn. congruence. }
  unfold target_process. congruence.
Qed.

(** C37: a publish is refused without a trace, or reaches exactly the
    subscribers: it changes no connection's filters, hands the message to one
    connection of every process of the organization that has a connection
    subscribed to the topic and to nobody else, the channels with room for it
    gain exactly that frame and the others nothing, the answer counts both,
    and at quality one the processes written to, and only those, have it
    queued for acknowledgement. *)
Theorem publish_delivers_exactly json_error b64_encode w now id org topic payload publisher qos w' r :
  NoDup (map (λ kh : str * ClientHandle, tx kh.2) (w_clients w)) →
  publish json_error b64_encode w now id org topic payload publisher qos = (w', r) →
  match r with
  | Err e => w' = w ∧ publish_frame json_error b64_encode topic payload publisher qos id = Err e
  | Ok d =>
      ∃ frame ts, publish_frame json_error b64_encode topic payload publisher qos id = Ok frame ∧
        NoDup (map target_process ts) ∧
        (∀ p, p ∈ map target_process ts ↔
          ∃ c h, (c, h) ∈ w_clients w ∧ p = process_of c h ∧ org_id (perms h) = org ∧
            ∃ f, f ∈ subscriptions h ∧ topic_matches f topic = true) ∧
        (∀ t, t ∈ ts → ∃ h, (t.1.2, h) ∈ w_clients w ∧ tx h = t.2 ∧ org_id (perms h) = org) ∧
        w_clients w' = w_clients w ∧
        (∀ x, w_chans w' !! x = if decide (x ∈ map snd (accepted (w_chans w) ts))
          then delivered frame <$> w_chans w !! x else w_chans w !! x) ∧
        d_processes d = Z.of_nat (length ts) ∧
        d_connections d = Z.of_nat (length (accepted (w_chans w) ts)) ∧
        (∀ k, aget k (w_pending w') =
          if decide (1 <= qos ∧ k.1 = org ∧ k.2 ∈ map target_process (accepted (w_chans w) ts))
          then Some (enqueue (new_pending now id topic frame) (default [] (aget k (w_pending w))))
          else aget k (w_pending w))
  end.
Proof.
  intros Hn. unfold publish. destruct (publish_frame _ _ _ _ _ _ _) as [frame|e] eqn:Efr.
  2:{ by intros [= <- <-]. }
  pose proof (targets_tx_NoDup (w_clients w) org topic Hn) as Htx.
  destruct (targets_of_spec (w_clients w) org topic) as (Hf & Hp & Hc).
  set (ts := targets_of _ _ _) in *. clearbody ts.
  destruct (fold_left _ _ _) as [[w1 n] out] eqn:Ef. apply (fan_out_fold _ _ _ _ _ _ _ _ Htx) in Ef.
  cbn [w_chans w_clients w_pending set_metrics] in Ef. destruct Ef as (-> & -> & Hcl & Hpe & Hch).
  intros [= <- <-]. exists frame, ts. cbn [d_processes d_connections].
  rewrite Forall_forall in Hf. split; [done|]. split; [done|].
  assert (∀ h, wants org topic h = true ↔ org_id (perms h) = org ∧ ∃ f, f ∈ subscriptions h ∧ topic_matches f topic = true) as Hwants.
  { intros h. unfold wants. by rewrite andb_true_iff, bool_decide_eq_true, existsb_Exists. }
  split.
  { intros p. split.
    - intros (t & -> & Ht)%list_elem_of_fmap. destruct (Hf _ Ht) as (h & ? & Hw & ? & ?).
      exists t.1.2, h. apply Hwants in Hw. tauto.
    - intros (c & h & Hin & -> & Hw). apply Hc; [done|]. by apply Hwants. }
  split.
  { intros t Ht. destruct (Hf _ Ht) as (h & ? & Hw & ? & ?). exists h. apply Hwants in Hw. naive_solver. }
  split; [by case_goal|]. split; [intros x; case_goal; apply Hch|].
  split; [done|]. split; [done|]. intros k.
  destruct (1 <=? Z.min qos 1) eqn:Eq; cbn [w_pending set_pending].
  - rewrite remember_fold, Hpe by (cbn; by apply NoDup_accepted). cbn [app].
    apply Z.leb_le in Eq. repeat case_decide; try done; exfalso; naive_solver lia.
  - apply Z.leb_gt in Eq. rewrite Hpe, decide_False; [done|]. lia.
Qed.

(** A connection with nothing but what messaging reads. *)
Definition conn (t : Z) (p : ClientPerms) (process : option str) (subs : list str) : ClientHandle :=
  {| tx := t; connected_at := 0; client_ip := []; last_ping_at := None; perms := p; draining := false;
     declared_client_id := None; declared_name := None; drain_secs := None; client_version := None;
     client_protocol := None; rss_bytes := None; rtt_ms := None; jitter_ms := None; reconnects := None;
     reported_instance_id := None; instance_group := process; subscriptions := subs; services := [] |}.

Definition scoped (org : option str) (topics : list str) : ClientPerms :=
  {| master := false; hostnames := []; paths := []; token_name := None; token_id := Some (bs "tok");
     allow_public := false; allow_server_side := false; allow_bind := false; allow_otel := false;
     Clients.topics := topics; org_id := org; org_hostnames := []; max_connections := None |}.

(** Two connections of one process in one organization, one in another. *)
Definition three_conns : World :=
  {| w_clients := [(bs "c1", conn 1 (scoped (Some (bs "a")) [bs "deploy/#"]) (Some (bs "p")) [bs "deploy/+"]);
                   (bs "c2", conn 2 (scoped (Some (bs "a")) [bs "deploy/#"]) (Some (bs "p")) [bs "deploy/web"]);
                   (bs "c3", conn 3 (scoped (Some (bs "b")) [bs "#"]) (Some (bs "p")) [bs "#"])];
     w_pending := []; w_metrics := no_metrics;
     w_chans := <[1 := (8, [])]> (<[2 := (8, [])]> (<[3 := (8, [])]> ∅)) |}.

Lemma publish_delivers_exactly_witness :
  (publish (λ _, None) id three_conns 0 (bs "m") (Some (bs "a")) (bs "deploy/web") (bs "go") PubServer 1).2
    = Ok {| d_processes := 1; d_connections := 1 |} ∧
  w_clients (publish (λ _, None) id three_conns 0 (bs "m") (Some (bs "a")) (bs "deploy/web") (bs "go") PubServer 1).1
    = w_clients three_conns.
Proof.
  assert (NoDup (map (λ kh : str * ClientHandle, tx kh.2) (w_clients three_conns))) as Hn
    by (eapply bool_decide_unpack; vm_compute; exact I).
  destruct (publish (λ _, None) id three_conns 0 (bs "m") (Some (bs "a")) (bs "deploy/web") (bs "go") PubServer 1)
    as [w' r] eqn:E.
  assert (r = Ok {| d_processes := 1; d_connections := 1 |}) as ->.
  { change r with (w', r).2. rewrite <- E. reflexivity. }
  split; [done|].
  destruct (publish_delivers_exactly _ _ _ _ _ _ _ _ _ _ _ _ Hn E) as (? & ? & _ & _ & _ & _ & Hcl & _).
  exact Hcl.
Defined.

(** a token's topics bound what it can reach. Whatever a filter it may
    subscribe to receives, one of its granted filters names; on a concrete
    topic the grant is exactly the matching of one of them, so what may be
    heard may be said and nothing else; and no grant that starts with a
    wildcard reaches the server's own [$] namespace. *)
Theorem topic_grant_exact p filter topic :
  (may_use_topic p filter = true → topic_matches filter topic = true →
    master p = true ∨ ∃ g, g ∈ Clients.topics p ∧ topic_matches g topic = true) ∧
  (validate_topic topic = Ok tt →
    (may_use_topic p topic = true ↔
      master p = true ∨ ∃ g, g ∈ Clients.topics p ∧ topic_matches g topic = true)) ∧
  (master p = false → may_use_topic p filter = true → dollar filter = true →
    ∃ g, g ∈ Clients.topics p ∧ dollar g = true).
Proof.
  unfold may_use_topic. destruct (master p); [split_and!; [by left|by split; [left|]|done]|].
  rewrite !existsb_Exists. split; [|split].
  - intros (g & Hin & Hc) Ht. right. exists g. split; [done|]. by eapply topic_covers_sound.
  - intros Hv. split.
    + intros (g & Hin & Hc). right. exists g. by rewrite <- covers_concrete.
    + intros [?|(g & Hin & Ht)]; [done|]. exists g. by rewrite covers_concrete.
  - intros _ (g & Hin & Hc) Hd. exists g. split; [done|]. unfold covers in Hc. rewrite Hd in Hc.
    by destruct (dollar g).
Qed.

(** C12: messages stay inside their organization. In every state the running
    server can reach, with connections coming and going, grants changing, and
    publishes, acknowledgements and sweeps interleaved at every lock, a message
    in the channel of a connected client was published in the organization of
    that client's token, whatever process identity the client announced. *)
Theorem message_org_isolation json_error b64_encode s c h free log topic payload id qos org :
  reachable json_error b64_encode s →
  (c, h) ∈ w_clients (world s) → w_chans (world s) !! tx h = Some (free, log) →
  FPublish topic payload (Some id) qos ∈ log → (id, org) ∈ published s →
  org_id (perms h) = org.
Proof.
  intros [Hw _ _ Hids]%reachable_ok Hin Hch Hmsg Hpub.
  destruct (proj1 (Forall_forall _ _) (wo_handles _ _ _ _ Hw) _ Hin) as [Htx _]. cbn in Htx.
  pose proof (proj1 (Forall_forall _ _) (wo_chans _ _ _ _ Hw _ _ Hch) _ Hmsg) as (org' & Hpub' & Htx').
  rewrite Htx in Htx'. injection Htx' as ->.
  apply (aget_elem _ _ _ Hids) in Hpub, Hpub'. congruence.
Qed.

(** One client connects, subscribes, and is sent a message of its
    organization, which then waits for its acknowledgement. *)
Definition encodes : OutFrame → option str := λ _, None.
Definition demo_handle : ClientHandle := conn 1 (scoped (Some (bs "a")) [bs "deploy/#"]) (Some (bs "p")) [].
Definition demo_frame : OutFrame := FPublish (bs "deploy/web") (bs "go") (Some (bs "m")) 1.
Definition demo1 : System :=
  {| world := set_chans (set_clients (world system0) (aset (bs "c1") demo_handle []))
       (<[1 := (8, [])]> (w_chans (world system0)));
     clock := 0; inflight := []; sweeping := None; published := [];
     tx_org := <[1 := Some (bs "a")]> (tx_org system0) |}.
Definition demo2 : System := with_world demo1 (on_subscribe encodes (world demo1) (bs "c1") [bs "deploy/+"]).
Definition demo3 : System := begin_publish demo2 (Some (bs "a")) (bs "m") (bs "deploy/web") 1 demo_frame.
Definition demo_fanout (ts : list Target) (out : list str) : Fanout :=
  {| fo_org := Some (bs "a"); fo_id := bs "m"; fo_topic := bs "deploy/web"; fo_qos := 1;
     fo_frame := demo_frame; fo_targets := ts; fo_delivered := out |}.
Definition demo_sent : World * Z * list str :=
  fan_out_one demo_frame (world demo3, 0, []) (bs "p", bs "c1", 1).
Definition demo4 : System := with_inflight demo3 demo_sent.1.1 [demo_fanout [] [bs "p"]].
Definition demo5 : System := with_inflight demo4 (remember 0 (demo_fanout [] [bs "p"]) (world demo4)) [].

Lemma demo4_reachable : reachable encodes id demo4.
Proof.
  apply (reach_step _ _ demo3). 1: apply (reach_step _ _ demo2). 1: apply (reach_step _ _ demo1).
  1: apply (reach_step _ _ system0); [constructor|].
  - apply (st_connect encodes id system0 (bs "c1") demo_handle 8); [apply not_elem_of_nil|apply lookup_empty|done].
  - apply st_subscribe.
  - eapply (st_publish encodes id demo2 (Some (bs "a")) (bs "m") (bs "deploy/web") (bs "go") PubServer 1 demo_frame).
    + apply not_elem_of_nil.
    + reflexivity.
  - apply (st_send encodes id demo3 [] (demo_fanout [(bs "p", bs "c1", 1)] []) (bs "p", bs "c1", 1) [] []
      demo_sent.1.1 demo_sent.1.2 [bs "p"]); reflexivity.
Qed.

Lemma demo5_reachable : reachable encodes id demo5.
Proof.
  eapply reach_step; [apply demo4_reachable|].
  apply (st_remember encodes id demo4 [] (demo_fanout [] [bs "p"]) []); reflexivity.
Qed.

Lemma message_org_isolation_witness : org_id (perms demo_handle) = Some (bs "a").
Proof.
  apply (message_org_isolation encodes id demo4 (bs "c1") (with_subscriptions demo_handle [bs "deploy/+"])
    7 [demo_frame] (bs "deploy/web") (bs "go") (bs "m") 1).
  - apply demo4_reachable.
  - by left.
  - reflexivity.
  - by left.
  - by left.
Defined.

(** messaging state is bounded and current. In every reachable state a
    connection holds at most 64 distinct filters, each well formed and covered
    by the grant the server holds for it now; a queue of unacknowledged
    messages is never empty nor longer than 256; and a message has been
    written at most once per three seconds of its age. *)
Theorem messaging_bounded json_error b64_encode s :
  reachable json_error b64_encode s →
  (∀ c h, (c, h) ∈ w_clients (world s) →
    NoDup (subscriptions h) ∧ Z.of_nat (length (subscriptions h)) <= 64 ∧
    ∀ f, f ∈ subscriptions h → validate_topic_filter f = Ok tt ∧ may_use_topic (perms h) f = true) ∧
  (∀ k q, (k, q) ∈ w_pending (world s) →
    0 < Z.of_nat (length q) <= 256 ∧
    ∀ m, m ∈ q → (p_id m, k.1) ∈ published s ∧ (attempts m - 1) * (3 * second) <= clock s - first_sent m).
Proof.
  intros [Hw _ _ _]%reachable_ok. split.
  - intros c h Hin. destruct (proj1 (Forall_forall _ _) (wo_handles _ _ _ _ Hw) _ Hin) as [_ (Hn & Hl & Hf)].
    split; [done|]. split; [done|]. by apply Forall_forall.
  - intros k q Hin. destruct (proj1 (Forall_forall _ _) (wo_queues _ _ _ _ Hw) _ Hin) as (Hne & Hl & Hf).
    cbn in *. split; [destruct q; cbn in *; [done|unfold MAX_PENDING_PER_PROCESS in Hl; lia]|].
    intros m Hm. rewrite Forall_forall in Hf. destruct (Hf _ Hm) as ([_ Hp] & Ht & _ & Ha).
    split; [done|]. unfold ACK_TIMEOUT, second in *. lia.
Qed.

Lemma messaging_bounded_witness :
  ((Some (bs "a"), bs "p"), [new_pending 0 (bs "m") (bs "deploy/web") demo_frame]) ∈ w_pending (world demo5) ∧
  0 < Z.of_nat (length [new_pending 0 (bs "m") (bs "deploy/web") demo_frame]) <= 256.
Proof.
  assert (((Some (bs "a"), bs "p"), [new_pending 0 (bs "m") (bs "deploy/web") demo_frame]) ∈ w_pending (world demo5))
    as Hin by (by left).
  split; [exact Hin|].
  exact (proj1 (proj2 (messaging_bounded encodes id demo5 demo5_reachable) _ _ Hin)).
Defined.

(** The publish handler asks the permissions the connection was opened with,
    which a narrowed grant does not touch: after the token lost every topic
    the same connection still publishes. *)
Example narrowed_grant_still_publishes :
  let p := scoped (Some (bs "a")) [bs "deploy/#"] in
  let w := (apply_token_topics encodes three_conns (bs "tok") []).1 in
  Forall (λ kh : str * ClientHandle, may_use_topic (perms kh.2) (bs "deploy/web") = false) (w_clients w) ∧
  mm_published (w_metrics (on_publish encodes id Ok w 0 (bs "m") (bs "c1") p (bs "deploy/web") (bs "go") 0)) = 1.
Proof. vm_compute. by repeat constructor. Qed.
