(* ===== verification/StreamFlow.v ===== *)
(** Flow control of the streams relayed to a public consumer:
    [aperio-server/src/state/stream.rs] ([StreamLimits], [StreamFlow],
    [PumpedSender], [ThroughputGuard], the pump task) and the producer's pause
    switch of [aperio-client/src/flow.rs].

    A stream has two threads on the server: the tunnel read loop pushes, the
    pump forwards. The counters are atomics, so the functions are also given
    as the atomic actions of [step], in the order the code performs them, and
    the two threads interleave freely. The byte counter is a 64-bit word and
    wraps, as the release build does. *)

From S2P Require Import Prelude Utf8 Frames IpNet RateLimit.

Definition STREAM_PAUSE_BYTES : Z := 2 * 1024 * 1024.
Definition STREAM_RESUME_BYTES : Z := 512 * 1024.
Definition STREAM_BACKLOG_LIMIT : Z := 16 * 1024 * 1024.
Definition MIN_THROUGHPUT_WINDOW : Z := 30 * second.
Definition PAUSE_SAFETY_CAP : Z := 30 * second.

Record StreamLimits : Type := {
  pause_bytes : Z;
  resume_bytes : Z;
  backlog_limit : Z;
  min_throughput : Z;
}.

Definition default_limits : StreamLimits :=
  {| pause_bytes := STREAM_PAUSE_BYTES; resume_bytes := STREAM_RESUME_BYTES;
     backlog_limit := STREAM_BACKLOG_LIMIT; min_throughput := 0 |}.

Definition sanitized (pause resume limit floor : Z) : StreamLimits :=
  let pause := Z.max pause (64 * 1024) in
  let resume := if pause <=? resume then pause / 4 else resume in
  let limit := Z.max limit (sat_mul64 pause 2) in
  {| pause_bytes := pause; resume_bytes := resume; backlog_limit := limit; min_throughput := floor |}.

(** ** What an item costs *)

Inductive BodyFrame : Type :=
| BData (bytes : str)
| BTrailers (trailers : list (str * str)).

Inductive TcpConsumerMsg : Type :=
| TcpData (bytes : str)
| TcpClose.

Inductive WsStreamMessage : Type :=
| WsData (m : message)
| WsClose.

Class PumpCost (T : Type) : Type := cost : T → Z.

#[export] Instance body_cost : PumpCost (result BodyFrame str) := λ item,
  match item with Ok (BData bytes) => len bytes | _ => 0 end.
#[export] Instance tcp_cost : PumpCost TcpConsumerMsg := λ item,
  match item with TcpData bytes => len bytes | TcpClose => 0 end.
#[export] Instance ws_cost : PumpCost WsStreamMessage := λ item,
  match item with WsData (MText t) => len t | WsData (MBinary b) => len b | _ => 0 end.

(** ** The counters of one stream *)

Inductive Signal : Type := StreamPause | StreamResume.

Record StreamFlow : Type := {
  limits : StreamLimits;
  backlog : Z;
  paused : bool;
}.

Definition new_flow (l : StreamLimits) : StreamFlow := {| limits := l; backlog := 0; paused := false |}.

Definition set_backlog (f : StreamFlow) (b : Z) : StreamFlow :=
  {| limits := limits f; backlog := b; paused := paused f |}.
Definition set_paused (f : StreamFlow) (p : bool) : StreamFlow :=
  {| limits := limits f; backlog := backlog f; paused := p |}.

(** [accepts] says whether the client's writer channel takes one more message
    now; the list is what it took. *)
Definition try_notify (accepts : bool) (s : Signal) : bool * list Signal :=
  if accepts then (true, [s]) else (false, []).

Definition on_enqueued (f : StreamFlow) (c : Z) (accepts : bool) : StreamFlow * list Signal :=
  let b := wrap64 (backlog f + c) in
  let f := set_backlog f b in
  if (pause_bytes (limits f) <=? b) && negb (paused f) then
    let '(sent, wire) := try_notify accepts StreamPause in
    (set_paused f sent, wire)
  else (f, []).

Definition on_forwarded (f : StreamFlow) (c : Z) (accepts : bool) : StreamFlow * list Signal :=
  let b := wrap64 (backlog f - c) in
  let f := set_backlog f b in
  if (b <=? resume_bytes (limits f)) && paused f then
    let '(sent, wire) := try_notify accepts StreamResume in
    (if sent then set_paused f false else f, wire)
  else (f, []).

Definition over_limit (f : StreamFlow) (c : Z) : bool := backlog_limit (limits f) <? wrap64 (backlog f + c).

(** [impl Drop for StreamFlow] *)
Definition drop_flow (f : StreamFlow) (accepts : bool) : list Signal :=
  if paused f then (try_notify accepts StreamResume).2 else [].

Inductive PumpPushError : Type := ConsumerGone | BacklogFull.

(** [PumpedSender::push] run without a pump step in between: the flow, the
    feed and the messages to the producer afterwards. *)
Definition push {T} `{PumpCost T} (f : StreamFlow) (feed : list T) (open accepts : bool) (item : T) :
    result (StreamFlow * list T * list Signal) PumpPushError :=
  if over_limit f (cost item) then Err BacklogFull
  else if negb open then Err ConsumerGone
  else let '(f, wire) := on_enqueued f (cost item) accepts in Ok (f, feed ++ [item], wire).

(** ** The throughput floor *)

Record ThroughputGuard : Type := {
  floor : Z;
  window_started : Z;
  bytes_this_window : Z;
  waiting : Z;
}.

Definition new_guard (fl now : Z) : ThroughputGuard :=
  {| floor := fl; window_started := now; bytes_this_window := 0; waiting := 0 |}.

(** [fto_u64] is the [as u64] of a float. *)
Definition record {F} `{Float F} (fto_u64 : F → Z) (g : ThroughputGuard) (bytes waited now : Z) :
    bool * ThroughputGuard :=
  if floor g =? 0 then (false, g)
  else
    let bytes := bytes_this_window g + bytes in
    let waited := waiting g + waited in
    if sat_sub now (window_started g) <? MIN_THROUGHPUT_WINDOW then
      (false, {| floor := floor g; window_started := window_started g; bytes_this_window := bytes; waiting := waited |})
    else
      let owed := fto_u64 (fmul (fnum (floor g)) (fsecs waited)) in
      (bytes <? owed, new_guard (floor g) now).

(** ** The producer's switch *)

Record PauseSignal : Type := { ps_paused : bool }.

Definition ps_new : PauseSignal := {| ps_paused := false |}.
Definition ps_pause (p : PauseSignal) : PauseSignal := {| ps_paused := true |}.
Definition ps_resume (p : PauseSignal) : PauseSignal := {| ps_paused := false |}.
Definition ps_apply (p : PauseSignal) (s : Signal) : PauseSignal :=
  match s with StreamPause => ps_pause p | StreamResume => ps_resume p end.

(** [wait_while_paused]: each round waits for a resume, at most the safety
    cap, and reads the switch again. [rounds] gives, per round, when the
    resume comes and whether a new pause has arrived by the time the switch is
    read; past the list no resume comes. The answer is how long the producer
    waited and the switch it leaves. *)
Fixpoint wait_while_paused (p : PauseSignal) (rounds : list (Z * bool)) : Z * PauseSignal :=
  if negb (ps_paused p) then (0, p)
  else match rounds with
  | (d, again) :: rounds =>
      if d <? PAUSE_SAFETY_CAP then
        let '(w, p) := wait_while_paused (if again then ps_pause p else ps_resume p) rounds in (d + w, p)
      else (PAUSE_SAFETY_CAP, ps_resume p)
  | [] => (PAUSE_SAFETY_CAP, ps_resume p)
  end.

(** The switches of a connection, by stream id. *)
Definition PauseRegistry : Type := list (str * PauseSignal).
Definition register (r : PauseRegistry) (id : str) : PauseRegistry := aset id ps_new r.
Definition registry_apply (r : PauseRegistry) (id : str) (s : Signal) : PauseRegistry :=
  match aget id r with Some p => aset id (ps_apply p s) r | None => r end.
Definition unregister (r : PauseRegistry) (id : str) : PauseRegistry := aremove id r.

(** ** The two threads, one atomic action at a time *)

Section Threads.
Context {T : Type} `{PumpCost T}.

(** Where the read loop is inside [push] ([RDone]: the stream was refused and
    is being removed). *)
Inductive ReaderPc : Type :=
| RIdle
| RChecked (item : T)
| RQueued (item : T)
| RCounted (b : Z)
| RPausing
| RUndo
| RDone.

(** Where the pump is ([PDone]: the task ended and its queue is gone). *)
Inductive PumpPc : Type :=
| PIdle
| PHolds (item : T)
| PGave (item : T)
| PCounted (b : Z)
| PLow
| PResuming
| PClearing
| PDone.

Record Sys : Type := {
  flow : StreamFlow;
  feed : list T;
  reader : ReaderPc;
  pump : PumpPc;
  pushed : list T;
  consumed : list T;
  wire : list Signal;
}.

Definition upd (s : Sys) (f : StreamFlow) (r : ReaderPc) (p : PumpPc) (w : list Signal) : Sys :=
  {| flow := f; feed := feed s; reader := r; pump := p; pushed := pushed s; consumed := consumed s;
     wire := wire s ++ w |}.

Inductive step : Sys → Sys → Prop :=
(* push *)
| r_full s item : reader s = RIdle → cost item < 2 ^ 63 → over_limit (flow s) (cost item) = true →
    step s (upd s (flow s) RDone (pump s) [])
| r_check s item : reader s = RIdle → cost item < 2 ^ 63 → over_limit (flow s) (cost item) = false →
    step s (upd s (flow s) (RChecked item) (pump s) [])
| r_gone s item : reader s = RChecked item → pump s = PDone →
    step s (upd s (flow s) RDone (pump s) [])
| r_send s item : reader s = RChecked item → pump s ≠ PDone →
    step s {| flow := flow s; feed := feed s ++ [item]; reader := RQueued item; pump := pump s;
              pushed := pushed s ++ [item]; consumed := consumed s; wire := wire s |}
| r_count s item : reader s = RQueued item →
    step s (upd s (set_backlog (flow s) (wrap64 (backlog (flow s) + cost item)))
              (RCounted (wrap64 (backlog (flow s) + cost item))) (pump s) [])
| r_low s b : reader s = RCounted b → b < pause_bytes (limits (flow s)) →
    step s (upd s (flow s) RIdle (pump s) [])
| r_swap s b : reader s = RCounted b → pause_bytes (limits (flow s)) <= b →
    step s (upd s (set_paused (flow s) true) (if paused (flow s) then RIdle else RPausing) (pump s) [])
| r_pause s : reader s = RPausing →
    step s (upd s (flow s) RIdle (pump s) [StreamPause])
| r_refused s : reader s = RPausing →
    step s (upd s (flow s) RUndo (pump s) [])
| r_undo s : reader s = RUndo →
    step s (upd s (set_paused (flow s) false) RIdle (pump s) [])
(* the pump task *)
| p_recv s item rest : pump s = PIdle → feed s = item :: rest →
    step s {| flow := flow s; feed := rest; reader := reader s; pump := PHolds item;
              pushed := pushed s; consumed := consumed s; wire := wire s |}
| p_give s item : pump s = PHolds item →
    step s {| flow := flow s; feed := feed s; reader := reader s; pump := PGave item;
              pushed := pushed s; consumed := consumed s ++ [item]; wire := wire s |}
| p_stop s : match pump s with PHolds _ | PIdle => True | _ => False end →
    step s {| flow := flow s; feed := []; reader := reader s; pump := PDone;
              pushed := pushed s; consumed := consumed s; wire := wire s |}
| p_count s item : pump s = PGave item →
    step s (upd s (set_backlog (flow s) (wrap64 (backlog (flow s) - cost item))) (reader s)
              (PCounted (wrap64 (backlog (flow s) - cost item))) [])
| p_high s b : pump s = PCounted b → resume_bytes (limits (flow s)) < b →
    step s (upd s (flow s) (reader s) PIdle [])
| p_low s b : pump s = PCounted b → b <= resume_bytes (limits (flow s)) →
    step s (upd s (flow s) (reader s) PLow [])
| p_load s : pump s = PLow →
    step s (upd s (flow s) (reader s) (if paused (flow s) then PResuming else PIdle) [])
| p_resume s : pump s = PResuming →
    step s (upd s (flow s) (reader s) PClearing [StreamResume])
| p_refused s : pump s = PResuming →
    step s (upd s (flow s) (reader s) PIdle [])
| p_clear s : pump s = PClearing →
    step s (upd s (set_paused (flow s) false) (reader s) PIdle []).

Definition sys0 (l : StreamLimits) : Sys :=
  {| flow := new_flow l; feed := []; reader := RIdle; pump := PIdle; pushed := []; consumed := []; wire := [] |}.

Inductive reaches (l : StreamLimits) : Sys → Prop :=
| reach0 : reaches l (sys0 l)
| reach1 s s' : reaches l s → step s s' → reaches l s'.
End Threads.

(** The cost of an item is the length of a buffer. *)
Class PumpCostLaw (T : Type) `{PumpCost T} : Prop := cost_nonneg (i : T) : 0 <= cost i.

#[export] Instance body_cost_law : PumpCostLaw (result BodyFrame str).
Proof. intros [[b|t]|e]; try done. apply len_nonneg. Qed.
#[export] Instance tcp_cost_law : PumpCostLaw TcpConsumerMsg.
Proof. intros [b|]; [apply len_nonneg|done]. Qed.
#[export] Instance ws_cost_law : PumpCostLaw WsStreamMessage.
Proof. intros [[t|b|]|]; try done; apply len_nonneg. Qed.

(** ** The invariant *)

Section Invariant.
Context {T : Type} `{PumpCostLaw T}.
Implicit Type s : Sys (T:=T).

Definition total (l : list T) : Z := foldr (λ i n, cost i + n) 0 l.
Definition in_hand (p : PumpPc) : list T := match p with PHolds i => [i] | _ => [] end.
Definition uncounted_out (p : PumpPc) : Z := match p with PGave i => cost (T:=T) i | _ => 0 end.
Definition uncounted_in (r : ReaderPc) : Z := match r with RQueued i => cost (T:=T) i | _ => 0 end.
Definition granted (r : ReaderPc) : Z := match r with RChecked i => cost (T:=T) i | _ => 0 end.
Definition alive s : bool := match pump s with PDone => false | _ => true end.

(** The items the server holds for the stream. *)
Definition held s : list T := in_hand (pump s) ++ feed s.

(** The bytes held and the ones handed over whose count is still to come. *)
Definition accounted s : Z := total (held s) + uncounted_out (pump s).

Record inv (l : StreamLimits) s : Prop := {
  i_limits : limits (flow s) = l;
  i_fifo : alive s = true → pushed s = consumed s ++ held s;
  i_prefix : consumed s `prefix_of` pushed s;
  i_dead : alive s = false → feed s = [];
  i_count : alive s = true → backlog (flow s) = wrap64 (accounted s - uncounted_in (reader s));
  i_bound : alive s = true → accounted s + granted (reader s) <= backlog_limit l;
}.

Lemma total_app (l1 l2 : list T) : total (l1 ++ l2) = total l1 + total l2.
Proof. unfold total. induction l1 as [|i l1 IH]; [done|]. cbn. rewrite IH. lia. Qed.

Lemma total_nonneg (l : list T) : 0 <= total l.
Proof. unfold total. induction l as [|i l IH]; [done|]. cbn. pose proof (cost_nonneg i). lia. Qed.

Lemma wrap64_add a b : wrap64 (wrap64 a + b) = wrap64 (a + b).
Proof. unfold wrap64. by rewrite Zplus_mod_idemp_l. Qed.

Lemma wrap64_sub a b : wrap64 (wrap64 a - b) = wrap64 (a - b).
Proof. unfold wrap64. by rewrite Zminus_mod_idemp_l. Qed.

(** A passed check leaves room for the item under the cap. *)
Lemma check_leaves_room l s item :
  backlog_limit l < 2 ^ 63 → cost item < 2 ^ 63 → inv l s → reader s = RIdle → alive s = true →
  over_limit (flow s) (cost item) = false → accounted s + cost item <= backlog_limit l.
Proof.
  intros Hl Hc Hi Hr Ha Ho. pose proof (i_count _ _ Hi Ha) as Hb. pose proof (i_bound _ _ Hi Ha) as Hle.
  rewrite Hr in Hb, Hle. cbn in Hb, Hle. unfold over_limit in Ho. apply Z.ltb_ge in Ho.
  rewrite (i_limits _ _ Hi), Hb, wrap64_add in Ho. pose proof (cost_nonneg item).
  assert (0 <= accounted s).
  { unfold accounted. pose proof (total_nonneg (held s)).
    unfold uncounted_out. destruct (pump s) as [| |i| | | | |]; try lia. pose proof (cost_nonneg i). lia. }
  rewrite wrap64_small in Ho by lia. lia.
Qed.

(** An action that moves neither items nor counters keeps the invariant. *)
Lemma upd_inv l s f r p w :
  inv l s → limits f = limits (flow s) → backlog f = backlog (flow s) →
  uncounted_in r = uncounted_in (reader s) → (alive s = true → accounted s + granted r <= backlog_limit l) →
  in_hand p = in_hand (pump s) → uncounted_out p = uncounted_out (pump s) →
  alive (upd s f r p w) = alive s → inv l (upd s f r p w).
Proof.
  intros [Hl Hf Hp Hd Hc Hb] El Eb Er Hg Eh Eo Ea. constructor.
  - cbn. congruence.
  - rewrite Ea. unfold held. cbn. rewrite Eh. exact Hf.
  - exact Hp.
  - rewrite Ea. exact Hd.
  - rewrite Ea. unfold accounted, held. cbn. rewrite Eh, Eo, Er, Eb. exact Hc.
  - rewrite Ea. unfold accounted, held. cbn. rewrite Eh, Eo. exact Hg.
Qed.

Lemma queue_inv l s item :
  inv l s → reader s = RChecked item → pump s ≠ PDone →
  inv l {| flow := flow s; feed := feed s ++ [item]; reader := RQueued item; pump := pump s;
           pushed := pushed s ++ [item]; consumed := consumed s; wire := wire s |}.
Proof.
  intros [Hl Hf Hp Hd Hc Hb] Hr Hpd. set (s' := {| flow := _ |}).
  assert (alive s = true) as Ha by (unfold alive; by destruct (pump s)).
  assert (held s' = held s ++ [item]) as Eh by (unfold held, s'; cbn; by rewrite app_assoc).
  assert (accounted s' = accounted s + cost item) as Ea.
  { unfold accounted. rewrite Eh, total_app. unfold s'. cbn. lia. }
  specialize (Hf Ha). specialize (Hb Ha). specialize (Hc Ha). rewrite Hr in Hb, Hc. cbn in Hb, Hc.
  constructor; try done.
  - intros _. change (pushed s ++ [item] = consumed s ++ held s'). by rewrite Hf, Eh, app_assoc.
  - by apply prefix_app_r.
  - change (alive s = false → feed s' = []). congruence.
  - intros _. rewrite Ea. change (backlog (flow s) = wrap64 (accounted s + cost item - cost item)).
    rewrite Hc. f_equal. lia.
  - intros _. rewrite Ea. change (accounted s + cost item + 0 <= backlog_limit l). lia.
Qed.

Lemma recv_inv l s item rest :
  inv l s → pump s = PIdle → feed s = item :: rest →
  inv l {| flow := flow s; feed := rest; reader := reader s; pump := PHolds item;
           pushed := pushed s; consumed := consumed s; wire := wire s |}.
Proof.
  intros [Hl Hf Hp Hd Hc Hb] Hpi Hfd. set (s' := {| flow := _ |}).
  assert (alive s = true) as Ha by (unfold alive; by rewrite Hpi).
  assert (held s' = held s) as Eh by (unfold held, s'; cbn; by rewrite Hpi, Hfd).
  assert (accounted s' = accounted s) as Ea.
  { unfold accounted. rewrite Eh, Hpi. done. }
  by constructor; intros; rewrite ?Eh, ?Ea; auto.
Qed.

Lemma give_inv l s item :
  inv l s → pump s = PHolds item →
  inv l {| flow := flow s; feed := feed s; reader := reader s; pump := PGave item;
           pushed := pushed s; consumed := consumed s ++ [item]; wire := wire s |}.
Proof.
  intros [Hl Hf Hp Hd Hc Hb] Hpi. set (s' := {| flow := _ |}).
  assert (alive s = true) as Ha by (unfold alive; by rewrite Hpi).
  assert (held s = item :: held s') as Eh by (unfold held, s'; by rewrite Hpi).
  assert (accounted s' = accounted s) as Ea.
  { unfold accounted. rewrite Eh, Hpi. unfold s'. cbn. lia. }
  specialize (Hf Ha). rewrite Eh in Hf.
  assert (pushed s = (consumed s ++ [item]) ++ held s') as Hq by (by rewrite <- app_assoc).
  constructor; intros; rewrite ?Ea; auto.
  - exists (held s'). exact Hq.
  - done.
Qed.

Lemma stop_inv l s :
  inv l s → inv l {| flow := flow s; feed := []; reader := reader s; pump := PDone;
                     pushed := pushed s; consumed := consumed s; wire := wire s |}.
Proof. intros [Hl Hf Hp Hd Hc Hb]. by constructor. Qed.

Lemma count_in_inv l s item :
  inv l s → reader s = RQueued item →
  inv l (upd s (set_backlog (flow s) (wrap64 (backlog (flow s) + cost item)))
           (RCounted (wrap64 (backlog (flow s) + cost item))) (pump s) []).
Proof.
  intros [Hl Hf Hp Hd Hc Hb] Hr. constructor; try done.
  - intros Ha. specialize (Hc Ha). rewrite Hr in Hc. cbn in *. rewrite Hc, wrap64_add. f_equal.
    unfold accounted, held. cbn. lia.
  - intros Ha. specialize (Hb Ha). rewrite Hr in Hb. exact Hb.
Qed.

Lemma count_out_inv l s item :
  inv l s → pump s = PGave item →
  inv l (upd s (set_backlog (flow s) (wrap64 (backlog (flow s) - cost item))) (reader s)
           (PCounted (wrap64 (backlog (flow s) - cost item))) []).
Proof.
  intros [Hl Hf Hp Hd Hc Hb] Hpi.
  assert (alive s = true) as Ha by (unfold alive; by rewrite Hpi).
  specialize (Hf Ha). specialize (Hc Ha). specialize (Hb Ha).
  unfold accounted, held in *. rewrite Hpi in *. cbn [in_hand uncounted_out app] in *.
  constructor; unfold accounted, held;
    cbn [upd flow set_backlog backlog reader pump feed in_hand uncounted_out app]; try done; intros _.
  - rewrite Hc, wrap64_sub. f_equal. lia.
  - pose proof (cost_nonneg item). lia.
Qed.

Lemma step_inv l s s' : backlog_limit l < 2 ^ 63 → step s s' → inv l s → inv l s'.
Proof.
  intros Hl Hst Hi. pose proof (i_bound _ _ Hi) as Hb. destruct Hst as
    [s i Hr _ _|s i Hr Hc Ho|s i Hr Hp|s i Hr Hp|s i Hr|s b Hr _|s b Hr _|s Hr|s Hr|s Hr
    |s i rest Hp Hf|s i Hp|s Hp|s i Hp|s b Hp _|s b Hp _|s Hp|s Hp|s Hp|s Hp].
  4: by apply queue_inv.
  4: by apply count_in_inv.
  9: by apply recv_inv.
  9: by apply give_inv.
  9: by apply stop_inv.
  9: by apply count_out_inv.
  all: try rewrite Hr in Hb; apply upd_inv; rewrite ?Hr, ?Hp; try done;
    unfold alive in *; cbn; rewrite ?Hp; try done; try (by destruct (paused (flow s))).
  all: try (intros Ha; specialize (Hb Ha); cbn in Hb; try destruct (paused (flow s)); exact Hb).
  intros Ha. cbn. by apply check_leaves_room.
Qed.

Lemma reaches_inv l s : 0 <= backlog_limit l < 2 ^ 63 → reaches l s → inv l s.
Proof.
  intros Hl. induction 1 as [|s s' _ IH Hst]; [|by eapply step_inv; [lia|..]].
  constructor; try done. intros _. exact (proj1 Hl).
Qed.
End Invariant.

(** ** Theorems *)

(** the pump neither loses, reorders nor hoards. However the read loop and
    the pump interleave, the consumer has received a prefix of what was pushed;
    while the pump runs, the rest is exactly what the server holds; the bytes
    held never exceed the backlog limit; and whenever both threads rest, the
    wrapping counter is the number of bytes queued. *)
Theorem stream_pump_exact {T} `{PumpCostLaw T} l (s : Sys (T:=T)) :
  0 <= backlog_limit l < 2 ^ 63 → reaches l s →
  consumed s `prefix_of` pushed s ∧
  (alive s = true → pushed s = consumed s ++ held s) ∧
  0 <= total (held s) <= backlog_limit l ∧
  (alive s = true → reader s = RIdle → pump s = PIdle → backlog (flow s) = total (feed s)).
Proof.
  intros Hl Hr. destruct (reaches_inv l s Hl Hr) as [_ Hf Hp Hd Hc Hb].
  pose proof (total_nonneg (held s)) as Hn.
  assert (alive s = true → total (held s) <= backlog_limit l) as Hle.
  { intros Ha. specialize (Hb Ha). unfold accounted in Hb.
    assert (0 <= uncounted_out (pump s)) by (destruct (pump s); cbn; try done; apply cost_nonneg).
    assert (0 <= granted (reader s)) by (destruct (reader s); cbn; try done; apply cost_nonneg). lia. }
  split; [done|]. split; [done|]. split.
  - split; [done|]. destruct (alive s) eqn:Ea; [auto|]. unfold held. rewrite (Hd eq_refl).
    unfold alive in Ea. destruct (pump s); try done. cbn. lia.
  - intros Ha Hri Hpi. rewrite (Hc Ha), Hri. specialize (Hle Ha). revert Hle Hn.
    unfold accounted, held. rewrite Hpi. cbn [in_hand app uncounted_in uncounted_out].
    intros Hle Hn. rewrite wrap64_small; lia.
Qed.

(** One item of [n] bytes. *)
Definition blob (n : nat) : TcpConsumerMsg := TcpData (repeat "x"%char n).

Definition tiny_limits : StreamLimits :=
  {| pause_bytes := 2; resume_bytes := 1; backlog_limit := 8; min_throughput := 0 |}.

Definition queued_one : Sys (T:=TcpConsumerMsg) :=
  {| flow := new_flow tiny_limits; feed := [blob 2]; reader := RQueued (blob 2); pump := PIdle;
     pushed := [blob 2]; consumed := []; wire := [] |}.

Lemma queued_one_reached : reaches tiny_limits queued_one.
Proof.
  eapply reach1; [eapply reach1; [apply reach0|]|].
  - apply (r_check (sys0 tiny_limits) (blob 2)); [done|reflexivity|reflexivity].
  - by apply (r_send (upd (sys0 tiny_limits) (new_flow tiny_limits) (RChecked (blob 2)) PIdle []) (blob 2)).
Qed.

Lemma stream_pump_exact_witness : 0 <= total (held queued_one) <= 8.
Proof. apply (stream_pump_exact tiny_limits queued_one); [cbn; lia|apply queued_one_reached]. Defined.

(** The read loop and the pump one call at a time. *)
Inductive Op : Type :=
| OpEnqueue (c : Z) (accepts : bool)
| OpForward (c : Z) (accepts : bool).

Definition run_op (st : StreamFlow * list Signal) (o : Op) : StreamFlow * list Signal :=
  let '(f, w) := st in
  let '(f, more) := match o with
    | OpEnqueue c accepts => on_enqueued f c accepts
    | OpForward c accepts => on_forwarded f c accepts
    end in (f, w ++ more).

(** The producer's switch after the messages of [w]. *)
Definition switch (w : list Signal) : PauseSignal := fold_left ps_apply w ps_new.

Definition opposite (s : Signal) : Signal :=
  match s with StreamPause => StreamResume | StreamResume => StreamPause end.

(** [w] alternates, and [s] is what may come next. *)
Inductive alternates : list Signal → Signal → Prop :=
| alt_nil : alternates [] StreamPause
| alt_snoc w s : alternates w s → alternates (w ++ [s]) (opposite s).

Definition next_signal (f : StreamFlow) : Signal := if paused f then StreamResume else StreamPause.

Lemma switch_snoc w s : switch (w ++ [s]) = ps_apply (switch w) s.
Proof. unfold switch. by rewrite fold_left_app. Qed.

(** A call sends nothing and keeps the flag, or sends the message that flips
    it. *)
Definition quiet_or_flip (f : StreamFlow) (r : StreamFlow * list Signal) : Prop :=
  limits r.1 = limits f ∧
  (r.2 = [] ∧ paused r.1 = paused f ∨ r.2 = [next_signal f] ∧ paused r.1 = negb (paused f)).

Lemma on_enqueued_flip f c a : quiet_or_flip f (on_enqueued f c a).
Proof.
  unfold on_enqueued, quiet_or_flip, next_signal. destruct f as [l b p]. cbn.
  destruct (_ <=? _); [destruct p, a|]; cbn; auto.
Qed.

Lemma on_forwarded_flip f c a : quiet_or_flip f (on_forwarded f c a).
Proof.
  unfold on_forwarded, quiet_or_flip, next_signal. destruct f as [l b p]. cbn.
  destruct (_ <=? _); [destruct p, a|]; cbn; auto.
Qed.

Lemma run_op_ok st o :
  alternates st.2 (next_signal st.1) → ps_paused (switch st.2) = paused st.1 →
  alternates (run_op st o).2 (next_signal (run_op st o).1) ∧
  ps_paused (switch (run_op st o).2) = paused (run_op st o).1 ∧
  limits (run_op st o).1 = limits st.1.
Proof.
  destruct st as [f w]. cbn [fst snd]. intros Ha Hs.
  assert (∃ r, quiet_or_flip f r ∧ run_op (f, w) o = (r.1, w ++ r.2)) as ([f' w'] & [Hl Hq] & ->).
  { destruct o as [c a|c a]; cbn.
    - exists (on_enqueued f c a). split; [apply on_enqueued_flip|]. by destruct (on_enqueued f c a).
    - exists (on_forwarded f c a). split; [apply on_forwarded_flip|]. by destruct (on_forwarded f c a). }
  cbn [fst snd] in *. destruct Hq as [[-> Hp]|[-> Hp]].
  - rewrite app_nil_r. unfold next_signal. rewrite Hp. done.
  - rewrite switch_snoc. unfold next_signal in *. rewrite Hp.
    apply alt_snoc in Ha. by destruct (paused f).
Qed.

Lemma run_ok l ops :
  let st := fold_left run_op ops (new_flow l, []) in
  alternates st.2 (next_signal st.1) ∧ ps_paused (switch st.2) = paused st.1 ∧ limits st.1 = l.
Proof.
  cut (∀ st, alternates st.2 (next_signal st.1) → ps_paused (switch st.2) = paused st.1 → limits st.1 = l →
    let st' := fold_left run_op ops st in
    alternates st'.2 (next_signal st'.1) ∧ ps_paused (switch st'.2) = paused st'.1 ∧ limits st'.1 = l).
  { intros Hc. apply Hc; [constructor|done|done]. }
  induction ops as [|o ops IH]; intros st Ha Hs Hl; [done|]. cbn.
  destruct (run_op_ok st o Ha Hs) as (? & ? & ?). apply IH; [done|done|congruence].
Qed.

(** the watermarks drive the producer. For any sequence of enqueues and
    forwards, whatever the client's channel refused, the messages on the wire
    alternate and leave the producer's switch as the server believes it to be;
    from there an enqueue at or above the pause mark leaves the stream paused
    and a forward at or below the resume mark leaves it running, once the
    channel accepts; tearing the stream down releases a paused producer; and
    sanitized marks are ordered, with the hard cap at least twice the pause
    mark. *)
Theorem watermark_protocol pause resume limit throughput ops c :
  0 <= pause < 2 ^ 63 → 0 <= resume →
  let l := sanitized pause resume limit throughput in
  let '(f, w) := fold_left run_op ops (new_flow l, []) in
  alternates w (next_signal f) ∧
  ps_paused (switch w) = paused f ∧
  (pause_bytes l <= backlog (on_enqueued f c true).1 → paused (on_enqueued f c true).1 = true) ∧
  (backlog (on_forwarded f c true).1 <= resume_bytes l → paused (on_forwarded f c true).1 = false) ∧
  ps_paused (switch (w ++ drop_flow f true)) = false ∧
  0 <= resume_bytes l < pause_bytes l ∧ 2 * pause_bytes l <= backlog_limit l.
Proof.
  intros Hp Hr l.
  assert (0 <= resume_bytes l < pause_bytes l ∧ 2 * pause_bytes l <= backlog_limit l) as Hsan.
  { unfold l, sanitized, sat_mul64, u64_max. cbn.
    destruct (Z.max pause (64 * 1024) <=? resume) eqn:E.
    - pose proof (Z.div_lt (Z.max pause (64 * 1024)) 4). pose proof (Z.div_pos (Z.max pause (64 * 1024)) 4). lia.
    - apply Z.leb_gt in E. lia. }
  clearbody l. pose proof (run_ok l ops) as Hrun. cbv zeta in Hrun.
  destruct (fold_left run_op ops (new_flow l, [])) as [f w]. cbn [fst snd] in Hrun.
  destruct Hrun as (Ha & Hs & Hl). split; [done|]. split; [done|]. split; [|split; [|split]].
  - unfold on_enqueued. destruct f as [l' b p]. cbn in *. subst l'.
    destruct (pause_bytes l <=? wrap64 (b + c)) eqn:E; destruct p; cbn; try done.
    apply Z.leb_gt in E. intros ?. exfalso. lia.
  - unfold on_forwarded. destruct f as [l' b p]. cbn in *. subst l'.
    destruct (wrap64 (b - c) <=? resume_bytes l) eqn:E; destruct p; cbn; try done.
    apply Z.leb_gt in E. intros ?. exfalso. lia.
  - unfold drop_flow. destruct (paused f) eqn:Ep; cbn.
    + by rewrite switch_snoc.
    + by rewrite app_nil_r.
  - exact Hsan.
Qed.

Lemma watermark_protocol_witness :
  let l := sanitized 0 STREAM_RESUME_BYTES 0 0 in
  0 <= resume_bytes l < pause_bytes l ∧ 2 * pause_bytes l <= backlog_limit l.
Proof.
  refine (proj2 (proj2 (proj2 (proj2 (proj2
    (watermark_protocol 0 STREAM_RESUME_BYTES 0 0 [OpEnqueue 70000 true; OpForward 60000 false] 5 _ _)))))).
  - lia.
  - unfold STREAM_RESUME_BYTES. lia.
Defined.

(** ** What the marks do not cover *)

(** Once the flag is up nothing more is sent until the backlog drains to the
    resume mark. *)
Lemma paused_flow_silent f c a :
  paused f = true → on_enqueued f c a = (set_backlog f (wrap64 (backlog f + c)), []).
Proof. unfold on_enqueued. cbn. intros ->. by rewrite andb_false_r. Qed.

(** A producer that outwaited the safety cap starts again on its own, and the
    server, whose flag is still up, never pauses it a second time: with the
    default marks fourteen more one-megabyte chunks are taken in silence and
    the next one ends the stream. *)
Example self_resumed_producer_is_cut :
  let mb := 1024 * 1024 in
  let st := run_op (new_flow default_limits, []) (OpEnqueue (2 * mb) true) in
  let st' := fold_left run_op (repeat (OpEnqueue mb true) 14) st in
  wait_while_paused (switch st.2) [] = (30 * second, ps_new) ∧
  st'.2 = [StreamPause] ∧ over_limit st'.1 mb = true.
Proof. vm_compute. auto. Qed.

(** A state of the run below: one item of two bytes was pushed. *)
Definition racing (b : Z) (p : bool) (fd : list TcpConsumerMsg) (r : ReaderPc) (pc : PumpPc)
    (out : list TcpConsumerMsg) (w : list Signal) : Sys :=
  {| flow := {| limits := tiny_limits; backlog := b; paused := p |}; feed := fd; reader := r; pump := pc;
     pushed := [blob 2]; consumed := out; wire := w |}.

Lemma reaches_eq {T} `{PumpCost T} l (s s' s'' : Sys (T:=T)) : step s s'' → s'' = s' → reaches l s → reaches l s'.
Proof. intros Hst <- Hr. by eapply reach1. Qed.

(** The read loop may raise the flag, lose the processor to a pump that drains
    the queue and clears it, and only then send its pause: the producer is
    left paused with nothing queued and no resume to come. *)
Example late_pause_strands_producer :
  reaches tiny_limits (racing 0 false [] RIdle PIdle [blob 2] [StreamResume; StreamPause]) ∧
  ps_paused (switch [StreamResume; StreamPause]) = true.
Proof.
  split; [|done].
  eapply (reaches_eq _ (racing 0 false [] RPausing PIdle [blob 2] [StreamResume])); [by eapply r_pause|reflexivity|].
  eapply (reaches_eq _ (racing 0 true [] RPausing PClearing [blob 2] [StreamResume])); [by eapply p_clear|reflexivity|].
  eapply (reaches_eq _ (racing 0 true [] RPausing PResuming [blob 2] [])); [by eapply p_resume|reflexivity|].
  eapply (reaches_eq _ (racing 0 true [] RPausing PLow [blob 2] [])); [by eapply p_load|reflexivity|].
  eapply (reaches_eq _ (racing 0 true [] RPausing (PCounted 0) [blob 2] [])); [by eapply p_low|reflexivity|].
  eapply (reaches_eq _ (racing 2 true [] RPausing (PGave (blob 2)) [blob 2] [])); [by eapply p_count|reflexivity|].
  eapply (reaches_eq _ (racing 2 true [] RPausing (PHolds (blob 2)) [] [])); [by eapply p_give|reflexivity|].
  eapply (reaches_eq _ (racing 2 true [blob 2] RPausing PIdle [] [])); [by eapply p_recv|reflexivity|].
  eapply (reaches_eq _ (racing 2 false [blob 2] (RCounted 2) PIdle [] [])); [by eapply r_swap|reflexivity|].
  eapply (reaches_eq _ queued_one); [by eapply r_count|reflexivity|]. apply queued_one_reached.
Qed.
