(* ===== verification/Declare.v ===== *)
(** What a heartbeat declares: [aperio-server/src/tunnel/ws/declare.rs]
    ([apply_declaration]), [aperio-server/src/tunnel/ws/agree.rs] (one route,
    one policy) and the label rules of [aperio-server/src/metrics_labels.rs].

    A declaration is written onto one service field by field, as far as the
    token permits; log lines are left out, the notices to the client are kept
    with their texts, because the set of texts already sent decides whether a
    notice is repeated. The outbound allowlist ([outbound.rs]), the sites'
    access rules ([sites.rs]) and the URL parser are parameters. *)

From S2P Require Import Prelude Binds IpNet Orgs VisitorAuth Clients Select Route.

Record ScalingDecl : Type := {
  sc_url : str;
  sc_secret : option str;
  sc_min : Z;
  sc_max : Z;
  sc_cold_start : option str;
  sc_target_utilization : option Z;
  sc_window : option str;
  sc_cooldown : option str;
}.

Record ServiceDecl : Type := {
  d_service : option str;
  d_service_custom_name : option str;
  d_path_bind : option str;
  d_hostname_bind : option str;
  d_hostname_binds : list str;
  d_http : bool;
  d_max_concurrent : option Z;
  d_tcp : bool;
  d_backend_healthy : bool;
  d_backend_probed : bool;
  d_priority : Z;
  d_bandwidth_bps : option Z;
  d_server_side_target : option str;
  d_public : bool;
  d_visitor_auth : option str;
  d_visitor_auth_methods : option (list AuthMethodSpec);
  d_allowed_ips : list str;
  d_tunnels : list TunnelDecl;
  d_cache : bool;
  d_resilience : bool;
  d_no_capture : bool;
  d_max_request_body : option Z;
  d_response_timeout : option Z;
  d_webhook_inbox : bool;
  d_denied : option str;
  d_scaling : option ScalingDecl;
  d_connections : option Z;
  d_connections_min : option Z;
  d_connections_max : option Z;
  d_config_notes : list ConfigNote;
  d_metrics_labels : list (str * str);
}.

(** ** Labels *)

Definition MAX_LABELS : nat := 8.
Definition MAX_NAME : Z := 32.
Definition MAX_VALUE : Z := 64.
Definition RESERVED : list str :=
  [bs "client_id"; bs "job"; bs "instance"; bs "token"; bs "hostname"; bs "limit"; bs "service"].

Definition underscore : ascii := "_"%char.
Definition is_alpha (c : ascii) : bool := is_upper c || is_lower c.

Definition valid_name (name : str) : bool :=
  if bool_decide (name = []) || (MAX_NAME <? len name) || starts_with (bs "__") name then false
  else match name with
  | first :: rest =>
      (is_alpha first || bool_decide (first = underscore))
      && forallb (λ c, is_alnum c || bool_decide (c = underscore)) rest
  | [] => false
  end.

Fixpoint sanitize_from (out : list (str * str)) (raw : list (str * str)) : list (str * str) :=
  match raw with
  | [] => out
  | (name, value) :: raw =>
      if (MAX_LABELS <=? length out)%nat then out
      else
        let name := trim name in
        let value := trim value in
        if negb (valid_name name) || bool_decide (value = []) || (MAX_VALUE <? len value) then sanitize_from out raw
        else if bool_decide (name ∈ RESERVED) then sanitize_from out raw
        else sanitize_from (out ++ [(name, value)]) raw
  end.

Definition sanitize (raw : list (str * str)) : list (str * str) := sanitize_from [] raw.

(** ** Notices to the client *)

(** The texts already sent for a service, and the notices of this pass. *)
Record Notices : Type := { told : list str; out : list (option str * str) }.

Definition notice (service : option str) (message : str) (n : Notices) : Notices :=
  {| told := told n; out := out n ++ [(service, message)] |}.

Definition notice_once (service : option str) (message : str) (n : Notices) : Notices :=
  if bool_decide (message ∈ told n) then n
  else {| told := told n ++ [message]; out := out n ++ [(service, message)] |}.

Definition panel_refusal (host : str) : str :=
  bs "`hostname: " ++ host ++ bs "` is not served: it is a dashboard panel, which serves the dashboard and nothing else".
Definition hostname_refusal (host : str) : str :=
  bs "`hostname: " ++ host ++ bs "` was not applied: this client's token does not permit that hostname".
Definition path_refusal (p : str) : str :=
  bs "`path: " ++ p ++ bs "` was not applied: this client's token does not permit that path".

(** ** The concurrency limit *)

(** [Semaphore::MAX_PERMITS] on a 64-bit target. *)
Definition MAX_PERMITS : Z := 2 ^ 61 - 1.

(** The limit, its ceiling and the semaphore with the permits it has free. *)
Record Limiter : Type := {
  l_max : option Z;
  l_ceiling : option Z;
  l_sem : option (Z * Z);
}.

(** What an announced limit does; [fresh] names a new semaphore. *)
Definition announce (fresh : Z) (announced : option Z) (l : Limiter) : Limiter :=
  match announced with
  | Some n =>
      if negb (0 <? n) then l
      else match l_sem l, l_ceiling l with
      | None, _ =>
          let permits := Z.min n MAX_PERMITS in
          {| l_max := Some permits; l_ceiling := Some permits; l_sem := Some (fresh, permits) |}
      | Some (sem, free), Some ceiling =>
          let enforced := default ceiling (l_max l) in
          let want := Z.min n ceiling in
          if want =? enforced then l
          else if want <? enforced then
            let taken := Z.min free (enforced - want) in
            {| l_max := if taken =? 0 then l_max l else Some (enforced - taken);
               l_ceiling := l_ceiling l; l_sem := Some (sem, free - taken) |}
          else {| l_max := Some want; l_ceiling := l_ceiling l; l_sem := Some (sem, free + (want - enforced)) |}
      | Some _, None => l
      end
  | None => l
  end.

(** ** Visitor-facing declarations *)

Definition CLIENT_DECLARABLE_METHODS : list str :=
  [bs "none"; bs "basic"; bs "bearer"; bs "jwt"; bs "aperio"; bs "forward"].

Definition declarable (spec : AuthMethodSpec) : bool :=
  bool_decide (lower (trim (sp_method spec)) ∈ CLIENT_DECLARABLE_METHODS).

(** A flag raised with its notice, the first time. *)
Definition warn_once (warned : bool) (message : option (option str * str)) (n : Notices) : bool * Notices :=
  if warned then (true, n)
  else (true, match message with Some (service, text) => notice service text n | None => n end).

Definition gate_refusal : str :=
  bs "`access:` was not applied: this client's token does not permit controlling the visitor gate, so the server's own gate applies".

(** The scalar password: the value in force, the flag and the notices. *)
Definition declare_auth (allow_public : bool) (service requested : option str) (warned : bool) (n : Notices) :
    option str * bool * Notices :=
  let requested := match requested with
    | Some s => let s := trim s in if bool_decide (s = []) then None else Some s
    | None => None
    end in
  match requested with
  | None => (None, warned, n)
  | Some creds =>
      if negb allow_public then
        let '(warned, n) := warn_once warned (Some (service, gate_refusal)) n in (None, warned, n)
      else if negb (valid_visitor_creds creds) then
        let '(warned, n) := warn_once warned None n in (None, warned, n)
      else (Some creds, warned, n)
  end.

Definition dropped_methods (specs : list AuthMethodSpec) : list str :=
  (λ s, trim (sp_method s)) <$> filter (λ s, declarable s = false) specs.

Definition methods_refusal (specs : list AuthMethodSpec) : str :=
  bs "`access:` method(s) not applied: " ++ join (bs ", ") (dropped_methods specs)
    ++ bs " cannot be declared by a client on this server; the other methods stay in force".

(** The full policy. *)
Definition declare_policy (allow_public : bool) (service : option str) (specs : option (list AuthMethodSpec))
    (warned : bool) (n : Notices) : option Policy * bool * Notices :=
  match specs with
  | None => (None, warned, n)
  | Some specs =>
      if negb allow_public then
        let '(warned, n) := warn_once warned (Some (service, gate_refusal)) n in (None, warned, n)
      else
        let usable := filter (λ s, declarable s = true) specs in
        let '(warned, n) :=
          if bool_decide (length usable ≠ length specs) && negb warned
          then warn_once warned (Some (service, methods_refusal specs)) n else (warned, n) in
        let policy := match usable with
          | [] => None
          | _ => let p := compile_from (SetAny usable) true in if gates p || admits_everyone p then Some p else None
          end in
        (policy, warned, n)
  end.

(** The visitor allowlist: the entries kept and the ones dropped. *)
Definition trimmed_ips (entries : list str) : list str :=
  filter (λ s, s ≠ []) (trim <$> entries).
Definition kept_ips (entries : list str) : list str :=
  filter (λ e, valid_ip_entry e = true) (trimmed_ips entries).
Definition dropped_ips (entries : list str) : list str :=
  filter (λ e, valid_ip_entry e = false) (trimmed_ips entries).

(** ** One declaration *)

Inductive DefaultAccess : Type := Deny | Allow.

#[export] Instance DefaultAccess_eq_dec : EqDecision DefaultAccess.
Proof. solve_decision. Defined.

(** What the pass reads of the server's state. *)
Record DeclConfig : Type := {
  panel_hostnames : list str;
  cache_enabled : bool;
  cache_max_stale : Z;
  server_gates : bool;
  default_access : DefaultAccess;
}.

Definition is_panel_hostname (cfg : DeclConfig) (host : str) : bool := existsb (λ h, str_eqb h host) (panel_hostnames cfg).

Definition is_star (h : str) : bool := str_eqb (trim h) (bs "*").

Definition admit_path (p : ClientPerms) (service path_bind current : option str) (n : Notices) : option str * Notices :=
  match path_bind ≫= normalize_path_bind with
  | None => (current, n)
  | Some path =>
      if path_allowed p path then (Some path, n) else (current, notice_once service (path_refusal path) n)
  end.

(** Whether a normalized hostname may be bound, with the notice if not. *)
Definition admit_one (cfg : DeclConfig) (p : ClientPerms) (service : option str) (h : str) (n : Notices) : bool * Notices :=
  if is_panel_hostname cfg h then (false, notice_once service (panel_refusal h) n)
  else if hostname_allowed p h then (true, n)
  else (false, notice_once service (hostname_refusal h) n).

Definition admit_host (cfg : DeclConfig) (p : ClientPerms) (service hostname_bind current : option str) (n : Notices) :
    option str * Notices :=
  match hostname_bind ≫= normalize_hostname_bind with
  | None => (current, n)
  | Some h => let '(ok, n) := admit_one cfg p service h n in (if ok then Some h else current, n)
  end.

Fixpoint admit_each (cfg : DeclConfig) (p : ClientPerms) (service : option str) (raws admitted : list str) (n : Notices) :
    list str * Notices :=
  match raws with
  | [] => (admitted, n)
  | raw :: raws =>
      match normalize_hostname_bind raw with
      | None => admit_each cfg p service raws admitted n
      | Some h =>
          let '(ok, n) := admit_one cfg p service h n in
          admit_each cfg p service raws (if ok then push_new admitted h else admitted) n
      end
  end.

Definition admit_hosts (cfg : DeclConfig) (p : ClientPerms) (service : option str) (binds current : list str) (n : Notices) :
    list str * Notices :=
  match binds with
  | [] => (current, n)
  | _ => admit_each cfg p service binds [] n
  end.

Definition cache_refusal : str :=
  bs "`cache:` is not applied: this server's response cache is off (`cache.enabled`), so nothing of this service is cached".
Definition offline_refusal (enabled : bool) : str :=
  if enabled then bs "`cache.offline` is not applied: this server keeps no stale copy to serve (`cache.max_stale` is 0)"
  else bs "`cache.offline` is not applied: this server's response cache is off (`cache.enabled`), so there is no copy to serve while the backend is down".
Definition public_refusal : str :=
  bs "`access: public` was not applied: this client's token does not permit publishing public services, so the server's visitor gate stays on".
Definition token_refusal : str := bs "its token does not allow being served from the server (allow_server_side)".
Definition server_side_refusal (target why : str) : str :=
  bs "`server_side` is refused for " ++ target ++ bs ": " ++ why
    ++ bs ". The service is not routed until that changes or `server_side` is taken off it".
Definition quoted_star : str := chr 34 :: bs "*" ++ [chr 34].
Definition catch_all_refusal : str :=
  bs "`hostname: " ++ quoted_star ++ bs "` was not applied: this client's token is limited to particular hostnames, and every hostname is more than it may claim".
Definition unrouted_notice : str :=
  bs "nothing routes to this service: it names no hostname and none was granted. Write `hostname: " ++ quoted_star
    ++ bs "` to serve every hostname no other service claims, or a hostname of its own".
Definition site_notice (host : str) : str :=
  bs "`access:` is not what decides who reaches " ++ host
    ++ bs ": the server's site for it sets `access`, which wins over what a client declares".
Definition closed_notice : str :=
  bs "visitors are refused: this service declares no `access:` and the server is closed by default (its `access` is `deny`), so it answers as an unclaimed hostname does. Write `access: public` if it is meant to be reachable by anyone, or an `access:` method.".
Definition ips_notice (dropped : list str) : str :=
  bs "`allowed_ips` entries " ++ join (bs ", ") dropped
    ++ bs " are not addresses or CIDRs and were dropped; the others stay in force".

(** What cannot be carried out under the lock. *)
Record Deferred : Type := {
  pin : option (str * str * option str);
  scaling : option (ScalingDecl * list str * option str * option str * option str * nat);
}.

Section Apply.
Context (cfg : DeclConfig).
Context (url_ok : str → bool).
(** [server_side_allows(targets, target).err()] *)
Context (server_side_refuses : str → option str).
(** [cfg.sites.access_for(host, path).is_some()] *)
Context (site_access : option str → str → bool).

Definition denied_of (u : option str) : option str :=
  match u with
  | Some u => if (starts_with (bs "http://") u || starts_with (bs "https://") u) && url_ok u then Some u else None
  | None => None
  end.

(** Why the server will not reach [target] itself. *)
Definition server_side_verdict (p : ClientPerms) (target : str) : option str :=
  if negb (allow_server_side p) then Some token_refusal else server_side_refuses target.

(** The fields of [s] the declaration decides on its own; [lim] is the
    concurrency limit after the announcement. The bandwidth cell belongs to
    the connection; the field is what this pass stores in it. *)
Definition write_service (p : ClientPerms) (d : ServiceDecl) (lim : Limiter) (s : ServiceState) :
    ServiceState * Notices :=
  let svc := d_service d in
  let wants_catch_all := match d_hostname_bind d with Some h => is_star h | None => false end
                         || existsb is_star (d_hostname_binds d) in
  let hostname_bind := match d_hostname_bind d with Some h => if is_star h then None else Some h | None => None end in
  let hostname_binds := filter (λ h, is_star h = false) (d_hostname_binds d) in
  let n := {| told := notices_sent s; out := [] |} in
  let '(path, n) := admit_path p svc (d_path_bind d) (declared_path s) n in
  let '(host, n) := admit_host cfg p svc hostname_bind (declared_hostname s) n in
  let '(hosts, n) := admit_hosts cfg p svc hostname_binds (declared_hostnames s) n in
  let '(cache_warned, n) :=
    if d_cache d && negb (cache_enabled cfg) && negb (cache_ignored_warned s)
    then (true, notice_once svc cache_refusal n) else (cache_ignored_warned s, n) in
  let n := if d_resilience d && (negb (cache_enabled cfg) || (cache_max_stale cfg =? 0))
           then notice_once svc (offline_refusal (cache_enabled cfg)) n else n in
  let '(public_warned, n) :=
    if d_public d && negb (allow_public p) && negb (public_denied_warned s)
    then (true, notice svc public_refusal n) else (public_denied_warned s, n) in
  let '(target, refused, n) :=
    match d_server_side_target d with
    | None => (None, None, n)
    | Some t =>
        match server_side_verdict p t with
        | None => (Some t, None, n)
        | Some why => (None, Some why, notice_once svc (server_side_refusal t why) n)
        end
    end in
  let '(auth, auth_warned, n) :=
    declare_auth (allow_public p) svc (d_visitor_auth d) (visitor_auth_denied_warned s) n in
  let '(policy, auth_warned, n) :=
    declare_policy (allow_public p) svc (d_visitor_auth_methods d) auth_warned n in
  ({| request_count := request_count s; declared_path := path; assigned_path := assigned_path s;
     declared_hostname := host; declared_hostnames := hosts;
     assigned_hostnames := assigned_hostnames s; random_hostname := random_hostname s;
     max_concurrent := l_max lim; max_concurrent_ceiling := l_ceiling lim;
     inflight_limiter := fst <$> l_sem lim; admin_enabled := admin_enabled s;
     server_side_target := target; server_side_refused := refused;
     policy_conflict := policy_conflict s;
     catch_all := wants_catch_all && hostname_allowed p (bs "*"); serves_http := d_http d;
     route_noticed := route_noticed s; capture := negb (d_no_capture d);
     connections := d_connections d; connections_min := d_connections_min d;
     connections_max := d_connections_max d; config_notes := d_config_notes d;
     metrics_labels := sanitize (d_metrics_labels d); tcp_enabled := d_tcp d;
     backend_healthy := d_backend_healthy d; backend_probed := d_backend_probed d;
     priority := d_priority d; bandwidth_bps := default 0 (d_bandwidth_bps d);
     service_name := match svc with Some _ => svc | None => service_name s end;
     service_custom_name := match svc with Some _ => d_service_custom_name d | None => service_custom_name s end;
     public := d_public d && allow_public p; public_denied_warned := public_warned;
     visitor_auth := auth; visitor_auth_policy := policy; visitor_auth_denied_warned := auth_warned;
     ungated_warned := ungated_warned s; allowed_ips := allowed_ips s;
     allowed_ips_invalid_warned := allowed_ips_invalid_warned s;
     scaling_invalid_warned := scaling_invalid_warned s; tunnels := d_tunnels d; cache := d_cache d;
     cache_ignored_warned := cache_warned; notices_sent := told n; resilience := d_resilience d;
     max_request_body := d_max_request_body d; response_timeout := d_response_timeout d;
     webhook_inbox := d_webhook_inbox d; denied := denied_of (d_denied d);
     recent_failures := recent_failures s; ejected_until := ejected_until s |}, n).

(** Who decides the route: the notices said once per connection. *)
Definition route_message (d : ServiceDecl) (s : ServiceState) : option str :=
  let wants_catch_all := match d_hostname_bind d with Some h => is_star h | None => false end
                         || existsb is_star (d_hostname_binds d) in
  if wants_catch_all && negb (catch_all s) then Some catch_all_refusal
  else if serves_http s && negb (catch_all s) && bool_decide (effective_hostnames s = []) then Some unrouted_notice
  else None.

Definition declares_access (s : ServiceState) : bool :=
  match visitor_auth s with Some _ => true | None => false end
  || match visitor_auth_policy s with Some _ => true | None => false end || public s.

Definition site_host (s : ServiceState) : option str :=
  find (λ h, site_access (Some h) (default (bs "/") (declared_path s)))
    (match declared_hostname s with Some h => [h] | None => [] end ++ declared_hostnames s).

Definition tell_route (d : ServiceDecl) (s : ServiceState) (n : Notices) : bool * bool * Notices :=
  let svc := d_service d in
  let '(noticed, n) :=
    if route_noticed s then (true, n)
    else match route_message d s with
    | Some m => (true, notice svc m n)
    | None => (false, n)
    end in
  let '(ungated, n) :=
    match site_host s with
    | Some host =>
        if ungated_warned s then (true, n)
        else (true, if declares_access s then notice svc (site_notice host) n else n)
    | None => (ungated_warned s, n)
    end in
  let '(ungated, n) :=
    if negb ungated && negb (declares_access s) && negb (server_gates cfg)
    then (true, if decide (default_access cfg = Deny) then notice svc closed_notice n else n)
    else (ungated, n) in
  (noticed, ungated, n).

(** The visitor allowlist and the flags, after the route was told. *)
Definition finish_service (d : ServiceDecl) (s : ServiceState) (noticed ungated : bool) (n : Notices) :
    ServiceState * list (option str * str) :=
  let dropped := dropped_ips (d_allowed_ips d) in
  let '(ips_warned, n) :=
    if negb (bool_decide (dropped = [])) && negb (allowed_ips_invalid_warned s)
    then (true, notice_once (d_service d) (ips_notice dropped) n) else (allowed_ips_invalid_warned s, n) in
  ({| request_count := request_count s; declared_path := declared_path s;
     assigned_path := assigned_path s; declared_hostname := declared_hostname s;
     declared_hostnames := declared_hostnames s; assigned_hostnames := assigned_hostnames s;
     random_hostname := random_hostname s; max_concurrent := max_concurrent s;
     max_concurrent_ceiling := max_concurrent_ceiling s; inflight_limiter := inflight_limiter s;
     admin_enabled := admin_enabled s; server_side_target := server_side_target s;
     server_side_refused := server_side_refused s; policy_conflict := policy_conflict s;
     catch_all := catch_all s; serves_http := serves_http s; route_noticed := noticed;
     capture := capture s; connections := connections s; connections_min := connections_min s;
     connections_max := connections_max s; config_notes := config_notes s;
     metrics_labels := metrics_labels s; tcp_enabled := tcp_enabled s;
     backend_healthy := backend_healthy s; backend_probed := backend_probed s;
     priority := priority s; bandwidth_bps := bandwidth_bps s; service_name := service_name s;
     service_custom_name := service_custom_name s; public := public s;
     public_denied_warned := public_denied_warned s; visitor_auth := visitor_auth s;
     visitor_auth_policy := visitor_auth_policy s;
     visitor_auth_denied_warned := visitor_auth_denied_warned s; ungated_warned := ungated;
     allowed_ips := kept_ips (d_allowed_ips d); allowed_ips_invalid_warned := ips_warned;
     scaling_invalid_warned := scaling_invalid_warned s; tunnels := tunnels s; cache := cache s;
     cache_ignored_warned := cache_ignored_warned s; notices_sent := told n;
     resilience := resilience s; max_request_body := max_request_body s;
     response_timeout := response_timeout s; webhook_inbox := webhook_inbox s; denied := denied s;
     recent_failures := recent_failures s; ejected_until := ejected_until s |}, out n).

Definition declare_service (p : ClientPerms) (d : ServiceDecl) (lim : Limiter) (s : ServiceState) :
    ServiceState * list (option str * str) :=
  let '(s, n) := write_service p d lim s in
  let '(noticed, ungated, n) := tell_route d s n in
  finish_service d s noticed ungated n.

Definition with_service (h : ClientHandle) (i : nat) (s : ServiceState) (protocol : option Z) : ClientHandle :=
  {| tx := tx h; connected_at := connected_at h; client_ip := client_ip h; last_ping_at := last_ping_at h;
     perms := perms h; draining := draining h; declared_client_id := declared_client_id h;
     declared_name := declared_name h; drain_secs := drain_secs h; client_version := client_version h;
     client_protocol := match protocol with Some _ => protocol | None => client_protocol h end;
     rss_bytes := rss_bytes h; rtt_ms := rtt_ms h; jitter_ms := jitter_ms h; reconnects := reconnects h;
     reported_instance_id := reported_instance_id h; instance_group := instance_group h;
     subscriptions := subscriptions h; services := <[i := s]> (services h) |}.

(** [apply_declaration]; [sems] is the free permits of each semaphore, [fresh]
    the name of a new one. An index past the services panics. *)
Definition apply_declaration (h : ClientHandle) (d : ServiceDecl) (i : nat) (deferred : Deferred)
    (protocol : option Z) (sems : gmap Z Z) (fresh : Z) :
    option (ClientHandle * Deferred * gmap Z Z * list (option str * str)) :=
  match services h !! i with
  | None => None
  | Some s =>
      let lim := announce fresh (d_max_concurrent d)
        {| l_max := max_concurrent s; l_ceiling := max_concurrent_ceiling s;
           l_sem := (λ sem, (sem, default 0 (sems !! sem))) <$> inflight_limiter s |} in
      let '(s', notices) := declare_service (perms h) d lim s in
      let deferred :=
        {| pin := match token_id (perms h) with
                  | Some id => Some (id, default [] (token_name (perms h)), org_id (perms h))
                  | None => pin deferred
                  end;
           scaling := match d_scaling d with
                      | Some sc => Some (sc, effective_hostnames s', effective_path_bind s',
                                         org_id (perms h), token_id (perms h), i)
                      | None => scaling deferred
                      end |} in
      Some (with_service h i s' protocol, deferred,
            match l_sem lim with Some (sem, free) => <[sem := free]> sems | None => sems end, notices)
  end.
End Apply.

(** ** What a service may hold under a token *)

(** A method a client may be behind: never an identity provider of its own,
    never a URL the server dials. *)
Definition client_method (m : Method) : Prop :=
  match m with
  | MSso _ => False
  | MForward f => fw_via_client f = true
  | MJwt j => jwt_declared_by_client j = true
  | _ => True
  end.

Definition bindable (cfg : DeclConfig) (p : ClientPerms) (h : str) : Prop :=
  hostname_allowed p h = true ∧ is_panel_hostname cfg h = false.

Record within (cfg : DeclConfig) (refuses : str → option str) (p : ClientPerms) (s : ServiceState) : Prop := {
  w_path : ∀ q, declared_path s = Some q → path_allowed p q = true;
  w_host : ∀ h, declared_hostname s = Some h → bindable cfg p h;
  w_hosts : Forall (bindable cfg p) (declared_hostnames s);
  w_catch_all : catch_all s = true → hostname_allowed p (bs "*") = true;
  w_public : public s = true → allow_public p = true;
  w_auth : ∀ c, visitor_auth s = Some c → allow_public p = true ∧ valid_visitor_creds c = true;
  w_policy : ∀ g, visitor_auth_policy s = Some g → allow_public p = true ∧ g ≠ [] ∧ Forall client_method g;
  w_target : ∀ t, server_side_target s = Some t → allow_server_side p = true ∧ refuses t = None;
  w_ips : Forall (λ e, valid_ip_entry e = true) (allowed_ips s);
}.

Lemma newly_declared_within cfg refuses p pacer : within cfg refuses p (newly_declared pacer).
Proof. by constructor. Qed.

Lemma admit_path_within p svc b cur n r n' :
  admit_path p svc b cur n = (r, n') → (∀ q, cur = Some q → path_allowed p q = true) →
  ∀ q, r = Some q → path_allowed p q = true.
Proof.
  unfold admit_path. destruct (b ≫= normalize_path_bind) as [path|]; [|by intros [= <- _]].
  destruct (path_allowed p path) eqn:E; intros [= <- _] Hcur q; [|by apply Hcur]. by intros [= <-].
Qed.

Lemma admit_one_bindable cfg p svc h n n' : admit_one cfg p svc h n = (true, n') → bindable cfg p h.
Proof.
  unfold admit_one, bindable. destruct (is_panel_hostname cfg h); [done|].
  by destruct (hostname_allowed p h).
Qed.

Lemma admit_host_within cfg p svc b cur n r n' :
  admit_host cfg p svc b cur n = (r, n') → (∀ h, cur = Some h → bindable cfg p h) →
  ∀ h, r = Some h → bindable cfg p h.
Proof.
  unfold admit_host. destruct (b ≫= normalize_hostname_bind) as [h0|]; [|by intros [= <- _]].
  destruct (admit_one cfg p svc h0 n) as [ok n1] eqn:E. intros [= <- _] Hcur h.
  destruct ok; [|by apply Hcur]. intros [= <-]. by eapply admit_one_bindable.
Qed.

Lemma admit_each_within cfg p svc raws adm n :
  Forall (bindable cfg p) adm → Forall (bindable cfg p) (admit_each cfg p svc raws adm n).1.
Proof.
  revert adm n. induction raws as [|raw raws IH]; intros adm n Ha; [done|]. cbn.
  destruct (normalize_hostname_bind raw) as [h|]; [|auto].
  destruct (admit_one cfg p svc h n) as [ok n1] eqn:E. destruct ok; [|auto]. apply IH.
  unfold push_new. case_bool_decide; [done|]. apply Forall_app. split; [done|]. constructor; [|done].
  by eapply admit_one_bindable.
Qed.

Lemma admit_hosts_within cfg p svc binds cur n r n' :
  admit_hosts cfg p svc binds cur n = (r, n') → Forall (bindable cfg p) cur → Forall (bindable cfg p) r.
Proof.
  unfold admit_hosts. destruct binds as [|b binds]; [by intros [= <- _]|].
  intros E _. change r with (r, n').1. rewrite <- E. by apply admit_each_within.
Qed.

Lemma declare_auth_within ap svc req w n r w' n' :
  declare_auth ap svc req w n = (r, w', n') →
  ∀ c, r = Some c → ap = true ∧ valid_visitor_creds c = true.
Proof.
  unfold declare_auth. cbv zeta.
  destruct (match req with Some s => if bool_decide (trim s = []) then None else Some (trim s) | None => None end)
    as [c0|]; [|by intros [= <- _ _]].
  destruct ap; cbn; [|by destruct (warn_once _ _ _); intros [= <- _ _]].
  destruct (valid_visitor_creds c0) eqn:E; cbn; [|by destruct (warn_once _ _ _); intros [= <- _ _]].
  intros [= <- _ _] c [= <-]. done.
Qed.

(** Every method a client may declare compiles, to one of its own kind. *)
Lemma declarable_compiles spec :
  declarable spec = true → ∃ m, compile_method true spec = Some m ∧ client_method m.
Proof.
  unfold declarable. rewrite bool_decide_eq_true. intros Hin.
  unfold compile_method. set (name := lower (trim (sp_method spec))) in *. clearbody name.
  unfold CLIENT_DECLARABLE_METHODS in Hin. repeat setoid_rewrite elem_of_cons in Hin.
  rewrite elem_of_nil in Hin.
  destruct Hin as [->|[->|[->|[->|[->|[->|[]]]]]]]; cbn; by eexists.
Qed.

Lemma compile_client_methods specs :
  Forall (λ s, declarable s = true) specs →
  length (compile_from (SetAny specs) true) = length specs ∧ Forall client_method (compile_from (SetAny specs) true).
Proof.
  unfold compile_from. cbn [methods]. induction 1 as [|s specs Hs _ [IHl IHf]]; [done|].
  destruct (declarable_compiles s Hs) as (m & Hm & Hc). cbn. rewrite Hm. cbn. split; [by f_equal|by constructor].
Qed.

Lemma declare_policy_within ap svc specs w n r w' n' :
  declare_policy ap svc specs w n = (r, w', n') →
  ∀ g, r = Some g → ap = true ∧ g ≠ [] ∧ Forall client_method g.
Proof.
  unfold declare_policy. destruct specs as [specs|]; [|by intros [= <- _ _]].
  destruct ap; cbn [negb]; [|by destruct (warn_once _ _ _); intros [= <- _ _]].
  set (usable := filter _ specs).
  assert (Forall (λ s, declarable s = true) usable) as Hu.
  { apply Forall_forall. by intros s [? _]%list_elem_of_filter. }
  clearbody usable. destruct (if _ && _ then _ else _) as [w1 n1]. intros [= <- _ _] g.
  destruct usable as [|u us]; [done|]. destruct (compile_client_methods _ Hu) as [Hl Hf].
  set (g0 := compile_from _ true) in *. destruct (gates g0 || admits_everyone g0); [|done].
  intros [= <-]. split; [done|]. split; [|done]. by intros E; rewrite E in Hl.
Qed.

Lemma kept_ips_valid entries : Forall (λ e, valid_ip_entry e = true) (kept_ips entries).
Proof. apply Forall_forall. by intros e [? _]%list_elem_of_filter. Qed.

Section Within.
Context (cfg : DeclConfig) (url_ok : str → bool) (refuses : str → option str)
  (site_access : option str → str → bool).

Lemma write_service_within p d lim s :
  within cfg refuses p s → within cfg refuses p (write_service cfg url_ok refuses p d lim s).1.
Proof.
  intros Hw. unfold write_service. cbv zeta.
  destruct (admit_path _ _ _ _ _) as [path n1] eqn:E1.
  destruct (admit_host _ _ _ _ _ _) as [host n2] eqn:E2.
  destruct (admit_hosts _ _ _ _ _ _) as [hosts n3] eqn:E3.
  lazymatch goal with |- within _ _ _ (match ?x with _ => _ end).1 => destruct x as [cw n4] end.
  lazymatch goal with |- within _ _ _ (match ?x with _ => _ end).1 => destruct x as [pw n5] end.
  lazymatch goal with |- within _ _ _ (match ?x with _ => _ end).1 => destruct x as [[target refused] n6] eqn:E6 end.
  destruct (declare_auth _ _ _ _ _) as [[auth aw] n7] eqn:E7.
  destruct (declare_policy _ _ _ _ _) as [[policy aw2] n8] eqn:E8.
  constructor; cbn.
  - eapply admit_path_within; [exact E1|]. apply Hw.
  - eapply admit_host_within; [exact E2|]. apply Hw.
  - eapply admit_hosts_within; [exact E3|]. apply Hw.
  - by intros [_ ?]%andb_true_iff.
  - by intros [_ ?]%andb_true_iff.
  - by eapply declare_auth_within.
  - by eapply declare_policy_within.
  - destruct (d_server_side_target d) as [t|]; [|by injection E6 as <- _ _].
    unfold server_side_verdict in E6. destruct (allow_server_side p); cbn in E6; [|by injection E6 as <- _ _].
    destruct (refuses t) eqn:Er; injection E6 as <- _ _; [done|]. by intros ? [= <-].
  - apply Hw.
Qed.

Lemma finish_service_within p d s a b n :
  within cfg refuses p s → within cfg refuses p (finish_service d s a b n).1.
Proof.
  intros []. unfold finish_service. cbv zeta.
  lazymatch goal with |- within _ _ _ (match ?x with _ => _ end).1 => destruct x as [iw n1] end.
  constructor; cbn; try done. apply kept_ips_valid.
Qed.

Lemma declare_service_within p d lim s :
  within cfg refuses p s →
  within cfg refuses p (declare_service cfg url_ok refuses site_access p d lim s).1.
Proof.
  intros Hw. unfold declare_service. apply (write_service_within p d lim) in Hw.
  destruct (write_service _ _ _ _ _ _ _) as [s1 n1]. destruct (tell_route _ _ _ _ _) as [[a b] n2].
  by apply finish_service_within.
Qed.
End Within.

(** ** One route, one policy *)

Record RoutePolicy : Type := {
  rp_public : bool;
  rp_visitor_auth : option str;
  rp_gate : option Policy;
  rp_allowed_ips : list str;
  rp_denied : option str;
}.

Definition policy_of (s : ServiceState) : RoutePolicy :=
  {| rp_public := public s; rp_visitor_auth := visitor_auth s; rp_gate := visitor_auth_policy s;
     rp_allowed_ips := allowed_ips s; rp_denied := denied s |}.

(** The settings two services disagree on, by name. *)
Definition differences (a b : RoutePolicy) (site_decides : bool) : list str :=
  (if negb site_decides
      && (bool_decide (rp_public a ≠ rp_public b) || bool_decide (rp_visitor_auth a ≠ rp_visitor_auth b)
          || bool_decide (rp_gate a ≠ rp_gate b))
   then [bs "access"] else [])
  ++ (if bool_decide (rp_allowed_ips a ≠ rp_allowed_ips b) then [bs "allowed_ips"] else [])
  ++ (if bool_decide (rp_denied a ≠ rp_denied b) then [bs "denied"] else []).

(** The route two services both serve: the same path bind and the first
    hostname they have in common, or none on both sides. *)
Definition shared_route (a b : ServiceState) : option (option str * str) :=
  if bool_decide (effective_path_bind a ≠ effective_path_bind b) then None
  else
    let path := default [] (effective_path_bind a) in
    let ha := effective_hostnames a in
    let hb := effective_hostnames b in
    match ha, hb with
    | [], [] => Some (None, path)
    | _, _ => match find (λ h, bool_decide (h ∈ hb)) ha with
              | Some h => Some (Some h, path)
              | None => None
              end
    end.

Definition set_conflict (s : ServiceState) (c : option str) : ServiceState :=
  {| request_count := request_count s; declared_path := declared_path s;
     assigned_path := assigned_path s; declared_hostname := declared_hostname s;
     declared_hostnames := declared_hostnames s; assigned_hostnames := assigned_hostnames s;
     random_hostname := random_hostname s; max_concurrent := max_concurrent s;
     max_concurrent_ceiling := max_concurrent_ceiling s; inflight_limiter := inflight_limiter s;
     admin_enabled := admin_enabled s; server_side_target := server_side_target s;
     server_side_refused := server_side_refused s; policy_conflict := c; catch_all := catch_all s;
     serves_http := serves_http s; route_noticed := route_noticed s; capture := capture s;
     connections := connections s; connections_min := connections_min s;
     connections_max := connections_max s; config_notes := config_notes s;
     metrics_labels := metrics_labels s; tcp_enabled := tcp_enabled s;
     backend_healthy := backend_healthy s; backend_probed := backend_probed s;
     priority := priority s; bandwidth_bps := bandwidth_bps s; service_name := service_name s;
     service_custom_name := service_custom_name s; public := public s;
     public_denied_warned := public_denied_warned s; visitor_auth := visitor_auth s;
     visitor_auth_policy := visitor_auth_policy s;
     visitor_auth_denied_warned := visitor_auth_denied_warned s; ungated_warned := ungated_warned s;
     allowed_ips := allowed_ips s; allowed_ips_invalid_warned := allowed_ips_invalid_warned s;
     scaling_invalid_warned := scaling_invalid_warned s; tunnels := tunnels s; cache := cache s;
     cache_ignored_warned := cache_ignored_warned s; notices_sent := notices_sent s;
     resilience := resilience s; max_request_body := max_request_body s;
     response_timeout := response_timeout s; webhook_inbox := webhook_inbox s; denied := denied s;
     recent_failures := recent_failures s; ejected_until := ejected_until s |}.

Definition with_services (h : ClientHandle) (ss : list ServiceState) : ClientHandle :=
  {| tx := tx h; connected_at := connected_at h; client_ip := client_ip h; last_ping_at := last_ping_at h;
     perms := perms h; draining := draining h; declared_client_id := declared_client_id h;
     declared_name := declared_name h; drain_secs := drain_secs h; client_version := client_version h;
     client_protocol := client_protocol h; rss_bytes := rss_bytes h; rtt_ms := rtt_ms h;
     jitter_ms := jitter_ms h; reconnects := reconnects h; reported_instance_id := reported_instance_id h;
     instance_group := instance_group h; subscriptions := subscriptions h; services := ss |}.

Section Agree.
Context (site_access : option str → str → bool).

Definition site_decides (host : option str) (path : str) : bool :=
  site_access host (if bool_decide (path = []) then bs "/" else path).

(** Every service that speaks for its route, of the other connections. *)
Definition speakers (clients : list (str * ClientHandle)) (client_id : str) : list (str * ClientHandle * ServiceState) :=
  filter (λ ict : str * ClientHandle * ServiceState, policy_conflict ict.2 = None)
    (concat (map (λ kc : str * ClientHandle, map (λ t, (kc.1, kc.2, t)) (services kc.2))
      (filter (λ kc : str * ClientHandle, kc.1 ≠ client_id ∧ awaiting_declaration kc.2 = false) clients))).

(** What one of them has against [s]. *)
Definition objection (s : ServiceState) (ict : str * ClientHandle * ServiceState) : option str :=
  let '(id, c, t) := ict in
  match shared_route s t with
  | None => None
  | Some (host, path) =>
      match differences (policy_of s) (policy_of t) (site_decides host path) with
      | [] => None
      | differ =>
          let who := match display_name t with
                     | Some w => w
                     | None => default id (process_name c)
                     end in
          let route := default (bs "every hostname, ") host ++ path in
          let names := join (bs "`, `") differ in
          Some (bs "not serving " ++ route ++ bs ": its `" ++ names ++ bs "` differs from " ++ who
            ++ bs ", which already serves it, and one route has one policy. Write the same `" ++ names
            ++ bs "` on both, or give this service a hostname or path of its own")
      end
  end.

Definition verdict (clients : list (str * ClientHandle)) (client_id : str) (s : ServiceState) : option str :=
  head (omap (objection s) (speakers clients client_id)).

(** The service after its verdict, and the refusal when it is news. *)
Definition settle_one (s : ServiceState) (v : option str) : ServiceState * list (option str * str) :=
  match policy_conflict s, v with
  | None, Some why => (set_conflict s (Some why), [(service_name s, why)])
  | Some _, None => (set_conflict s None, [])
  | Some old, Some why =>
      if bool_decide (old ≠ why) then (set_conflict s (Some why), [(service_name s, why)]) else (s, [])
  | None, None => (s, [])
  end.

Definition settle (clients : list (str * ClientHandle)) (client_id : str) :
    list (str * ClientHandle) * list (option str * str) :=
  match aget client_id clients with
  | None => (clients, [])
  | Some this =>
      let settled := map (λ s, settle_one s (verdict clients client_id s)) (services this) in
      (aset client_id (with_services this (map fst settled)) clients, concat (map snd settled))
  end.

(** ** The table under heartbeats *)

(** A heartbeat leaves the connection with whatever services it declared and
    then settles them; connections come without a declaration and go. *)
Inductive table_step : list (str * ClientHandle) → list (str * ClientHandle) → Prop :=
| ts_ping cs id h h' :
    aget id cs = Some h → awaiting_declaration h' = false →
    table_step cs (settle (aset id h' cs) id).1
| ts_connect cs id h :
    id ∉ keys cs → awaiting_declaration h = true → table_step cs (aset id h cs)
| ts_disconnect cs id : table_step cs (aremove id cs).

Inductive tables : list (str * ClientHandle) → Prop :=
| tb_nil : tables []
| tb_step cs cs' : tables cs → table_step cs cs' → tables cs'.

Definition shares (a b : ServiceState) : Prop :=
  effective_path_bind a = effective_path_bind b ∧
  (effective_hostnames a = [] ∧ effective_hostnames b = [] ∨
   ∃ h, h ∈ effective_hostnames a ∧ h ∈ effective_hostnames b).

Definition same_access (a b : ServiceState) : Prop :=
  public a = public b ∧ visitor_auth a = visitor_auth b ∧ visitor_auth_policy a = visitor_auth_policy b.

(** A hostname both serve whose access a site decides. *)
Definition site_covers (a b : ServiceState) : Prop :=
  ∃ host, site_decides host (default [] (effective_path_bind a)) = true ∧
    match host with
    | Some h => h ∈ effective_hostnames a ∧ h ∈ effective_hostnames b
    | None => effective_hostnames a = [] ∧ effective_hostnames b = []
    end.

Definition one_policy (a b : ServiceState) : Prop :=
  allowed_ips a = allowed_ips b ∧ denied a = denied b ∧ (same_access a b ∨ site_covers a b).

Definition speaks (h : ClientHandle) (s : ServiceState) : Prop :=
  awaiting_declaration h = false ∧ s ∈ services h ∧ policy_conflict s = None.

Definition agreed (cs : list (str * ClientHandle)) : Prop :=
  ∀ c1 h1 s1 c2 h2 s2, (c1, h1) ∈ cs → (c2, h2) ∈ cs → c1 ≠ c2 →
    speaks h1 s1 → speaks h2 s2 → shares s1 s2 → one_policy s1 s2.

Lemma one_policy_sym a b : effective_path_bind a = effective_path_bind b → one_policy a b → one_policy b a.
Proof.
  intros Hp (Hi & Hd & [(? & ? & ?)|(host & Hs & Hh)]); split_and!; try done.
  - left. by split_and!.
  - right. exists host. rewrite <- Hp. split; [done|]. destruct host; tauto.
Qed.

Lemma shares_sym a b : shares a b → shares b a.
Proof. intros [Hp Hh]. split; [done|]. destruct Hh as [[? ?]|(h & ? & ?)]; [left|right]; eauto. Qed.

Lemma shared_route_spec a b :
  match shared_route a b with
  | Some (host, path) =>
      path = default [] (effective_path_bind a) ∧
      match host with
      | Some h => h ∈ effective_hostnames a ∧ h ∈ effective_hostnames b
      | None => effective_hostnames a = [] ∧ effective_hostnames b = []
      end
  | None => ¬ shares a b
  end.
Proof.
  unfold shared_route, shares. case_bool_decide as Hp; [by intros [? _]|].
  cbv zeta.
  assert (∀ x, find (λ h, bool_decide (h ∈ effective_hostnames b)) (effective_hostnames a) = Some x →
    x ∈ effective_hostnames a ∧ x ∈ effective_hostnames b) as Hsome.
  { intros x [Hin Hx]%find_some. apply bool_decide_eq_true in Hx. by rewrite list_elem_of_In. }
  assert (find (λ h, bool_decide (h ∈ effective_hostnames b)) (effective_hostnames a) = None →
    ∀ h, h ∈ effective_hostnames a → h ∉ effective_hostnames b) as Hnone.
  { intros Hf h Hin. pose proof (find_none _ _ Hf h) as Hn. cbn in Hn.
    rewrite <- list_elem_of_In in Hn. specialize (Hn Hin). by apply bool_decide_eq_false in Hn. }
  destruct (effective_hostnames a) as [|x ha] eqn:Ea, (effective_hostnames b) as [|y hb] eqn:Eb;
    try done; destruct (find _ _) as [h|] eqn:Ef; try (split; [done|by apply Hsome]);
    intros [_ [[? ?]|(h & H1 & H2)]]; try done; by apply (Hnone eq_refl h).
Qed.

(** Nothing to object to means one policy. *)
Lemma no_objection s id c t : objection s (id, c, t) = None → shares s t → one_policy s t.
Proof.
  unfold objection. intros Ho Hs. pose proof (shared_route_spec s t) as Hr.
  destruct (shared_route s t) as [[host path]|]; [|done]. destruct Hr as [-> Hh].
  destruct (differences _ _ _) as [|d ds] eqn:Ed; [|done]. clear Ho. unfold differences in Ed.
  apply app_eq_nil in Ed as [Ea Ed]. apply app_eq_nil in Ed as [Ei Ed]. cbn in *.
  destruct (bool_decide (allowed_ips s ≠ allowed_ips t)) eqn:E1; [done|].
  destruct (bool_decide (denied s ≠ denied t)) eqn:E2; [done|].
  apply bool_decide_eq_false, dec_stable in E1, E2. split; [done|]. split; [done|].
  destruct (site_decides host (default [] (effective_path_bind s))) eqn:Es.
  - right. by exists host.
  - left. cbn in Ea. destruct (_ || _) eqn:Eo in Ea; [done|].
    apply orb_false_iff in Eo as [[Ep Ev]%orb_false_iff Eg].
    apply bool_decide_eq_false, dec_stable in Ep, Ev, Eg. done.
Qed.
End Agree.

Section Settled.
Context (site_access : option str → str → bool).

Lemma settle_one_conflict s v : (settle_one s v).1 = set_conflict s v.
Proof.
  assert (set_conflict s (policy_conflict s) = s) as Hs by (by destruct s).
  unfold settle_one. destruct (policy_conflict s) as [old|] eqn:E, v as [why|]; try done.
  case_bool_decide as Ho; [done|]. cbn. by subst.
Qed.

Lemma elem_of_aset {V} (k k' : str) (v v' : V) l :
  NoDup (keys l) → (k', v') ∈ aset k v l → (k' = k ∧ v' = v) ∨ (k' ≠ k ∧ (k', v') ∈ l).
Proof.
  intros Hn Hin. apply (aget_elem _ _ _ (NoDup_aset k v l Hn)) in Hin.
  destruct (decide (k' = k)) as [->|Hne].
  - rewrite aget_aset_eq in Hin. by injection Hin as <-; left.
  - rewrite aget_aset_ne in Hin by done. right. split; [done|]. by apply aget_Some_elem.
Qed.

Lemma elem_of_speakers cs id c h s :
  (c, h) ∈ cs → c ≠ id → speaks h s → (c, h, s) ∈ speakers cs id.
Proof.
  intros Hin Hc (Hd & Hs & Hp). apply list_elem_of_filter. split; [done|].
  apply list_elem_of_In, in_concat. exists (map (λ t, (c, h, t)) (services h)).
  rewrite <- !list_elem_of_In. split; [|by apply (list_elem_of_fmap_2 (λ t, (c, h, t)))].
  apply (list_elem_of_fmap_2 (λ kc : str * ClientHandle, map (λ t, (kc.1, kc.2, t)) (services kc.2)) _ (c, h)).
  apply list_elem_of_filter. done.
Qed.

Lemma verdict_none cs id s c h t :
  verdict site_access cs id s = None → (c, h) ∈ cs → c ≠ id → speaks h t → shares s t → one_policy site_access s t.
Proof.
  unfold verdict. intros Hv Hin Hc Hsp. apply (no_objection _ s c h t).
  pose proof (elem_of_speakers cs id c h t Hin Hc Hsp) as Hel.
  destruct (objection site_access s (c, h, t)) as [why|] eqn:Eo; [|done]. exfalso.
  assert (why ∈ omap (objection site_access s) (speakers cs id)) as Hw
    by (apply list_elem_of_omap; eauto).
  destruct (omap _ _); [by apply elem_of_nil in Hw|done].
Qed.

Lemma settle_keys cs id : NoDup (keys cs) → NoDup (keys (settle site_access cs id).1).
Proof. intros Hn. unfold settle. destruct (aget id cs); [|done]. by apply NoDup_aset. Qed.

Lemma settle_agreed cs id h' :
  NoDup (keys cs) → agreed site_access cs → awaiting_declaration h' = false →
  agreed site_access (settle site_access (aset id h' cs) id).1.
Proof.
  intros Hn Ha Hd. unfold settle. rewrite aget_aset_eq. cbn [fst].
  set (cs1 := aset id h' cs). set (h2 := with_services h' _).
  assert (NoDup (keys cs1)) as Hn1 by (by apply NoDup_aset).
  assert (∀ c h, (c, h) ∈ aset id h2 cs1 → c ≠ id → (c, h) ∈ cs1 ∧ (c, h) ∈ cs) as Hold.
  { intros c h Hin Hc. apply (elem_of_aset _ _ _ _ _ Hn1) in Hin as [[-> _]|[_ Hin]]; [done|].
    split; [done|]. by apply (elem_of_aset _ _ _ _ _ Hn) in Hin as [[-> _]|[_ Hin]]. }
  assert (∀ s, speaks h2 s → ∃ s0, s = set_conflict s0 None ∧ verdict site_access cs1 id s0 = None) as Hmine.
  { intros s (_ & Hin & Hp). unfold h2 in Hin. cbn in Hin. rewrite map_map in Hin.
    apply list_elem_of_fmap in Hin as (s0 & -> & _). rewrite settle_one_conflict in Hp |- *. cbn in Hp.
    exists s0. by rewrite Hp. }
  assert (∀ s c h t, speaks h2 s → (c, h) ∈ aset id h2 cs1 → c ≠ id → speaks h t → shares s t →
    one_policy site_access s t) as Hcross.
  { intros s c h t (s0 & -> & Hv)%Hmine Hin Hc Ht Hsh. destruct (Hold c h Hin Hc) as [Hin1 _].
    exact (verdict_none cs1 id s0 c h t Hv Hin1 Hc Ht Hsh). }
  intros c1 h1 s1 c2 h3 s2 H1 H2 Hne Hs1 Hs2 Hsh.
  destruct (decide (c1 = id)) as [->|Hc1], (decide (c2 = id)) as [->|Hc2]; [done| | |].
  - apply (elem_of_aset _ _ _ _ _ Hn1) in H1 as [[_ ->]|[? _]]; [|done]. by eapply Hcross.
  - apply (elem_of_aset _ _ _ _ _ Hn1) in H2 as [[_ ->]|[? _]]; [|done].
    apply one_policy_sym; [symmetry; apply Hsh|]. eapply Hcross; [done|exact H1|done|done|by apply shares_sym].
  - eapply (Ha c1 h1 s1 c2 h3 s2); try done; by apply Hold.
Qed.

Lemma tables_agreed cs : tables site_access cs → NoDup (keys cs) ∧ agreed site_access cs.
Proof.
  induction 1 as [|cs cs' _ [Hn Ha] Hst]; [split; [apply NoDup_nil_2|by intros ?????? []%elem_of_nil]|].
  destruct Hst as [cs id h h' _ Hd|cs id h Hid Hd|cs id].
  - split; [by apply settle_keys, NoDup_aset|]. by apply settle_agreed.
  - split; [by apply NoDup_aset|]. intros c1 h1 s1 c2 h2 s2 H1 H2 Hne Hs1 Hs2.
    apply (elem_of_aset _ _ _ _ _ Hn) in H1 as [[_ ->]|[_ H1]]; [by destruct Hs1 as [? _]; congruence|].
    apply (elem_of_aset _ _ _ _ _ Hn) in H2 as [[_ ->]|[_ H2]]; [by destruct Hs2 as [? _]; congruence|].
    exact (Ha c1 h1 s1 c2 h2 s2 H1 H2 Hne Hs1 Hs2).
  - split; [by apply NoDup_aremove|]. intros c1 h1 s1 c2 h2 s2 H1 H2.
    assert (∀ c h, (c, h) ∈ aremove id cs → (c, h) ∈ cs) as Hsub.
    { clear. induction cs as [|[k v] cs IH]; [done|]. cbn. intros c h Hin. case_decide; [by right|].
      apply elem_of_cons in Hin as [[= -> ->]|Hin]; [by left|right; auto]. }
    exact (Ha c1 h1 s1 c2 h2 s2 (Hsub _ _ H1) (Hsub _ _ H2)).
Qed.
End Settled.

(** ** Theorems *)

(** C23: a declaration never reaches past its token. Whatever a client declares
    onto a connection whose services are within the token's permissions, they
    stay within them: every declared path is permitted, every declared hostname
    is permitted and no dashboard panel, every hostname is claimed only by a
    token free of hostname limits, a service is public or gates itself only
    with the permission to, its gate keeps at least one method and none that
    makes the server an identity provider's client or dial a URL the client
    chose, a server-side target is allowed twice, and every address entry kept
    is well formed. The connection's permissions and its other services are
    untouched. *)
Theorem declaration_within_token cfg url_ok refuses site_access h d i deferred protocol sems fresh
    h' deferred' sems' notices :
  Forall (within cfg refuses (perms h)) (services h) →
  apply_declaration cfg url_ok refuses site_access h d i deferred protocol sems fresh
    = Some (h', deferred', sems', notices) →
  perms h' = perms h ∧ length (services h') = length (services h) ∧
  Forall (within cfg refuses (perms h')) (services h') ∧
  (∀ j, j ≠ i → services h' !! j = services h !! j).
Proof.
  intros Hw. unfold apply_declaration. destruct (services h !! i) as [s|] eqn:Es; [|done].
  destruct (declare_service _ _ _ _ _ _ _ _) as [s' ns] eqn:Ed. intros [= <- _ _ _]. cbn.
  split; [done|]. split; [apply length_insert|]. split.
  - apply Forall_insert; [done|]. change s' with (s', ns).1. rewrite <- Ed.
    apply declare_service_within. by eapply Forall_lookup_1.
  - intros j Hj. by rewrite list_lookup_insert_ne.
Qed.

(** one route has one policy. In every table that heartbeats, connects and
    disconnects can produce, two services of different connections that both
    serve a route have the same address allowlist and the same refusal
    redirect, and the same access unless a site decides the access of a
    hostname they share. *)
Theorem one_route_one_policy site_access cs c1 h1 s1 c2 h2 s2 :
  tables site_access cs → (c1, h1) ∈ cs → (c2, h2) ∈ cs → c1 ≠ c2 →
  speaks h1 s1 → speaks h2 s2 → shares s1 s2 →
  allowed_ips s1 = allowed_ips s2 ∧ denied s1 = denied s2 ∧ (same_access s1 s2 ∨ site_covers site_access s1 s2).
Proof. intros [_ Ha]%tables_agreed. apply Ha. Qed.

(** The permits in use, of a limiter that has [used] of them out. *)
Definition limiter_ok (l : Limiter) (used : Z) : Prop :=
  match l_sem l with
  | None => l_max l = None ∧ l_ceiling l = None
  | Some (_, free) => ∃ m c, l_max l = Some m ∧ l_ceiling l = Some c ∧ 0 <= free ∧ free + used = m ∧ m <= c
  end.

(** the limit dispatch enforces is the one it shows. After any announcement
    the free and the used permits of the semaphore add up to the limit in
    force, which never exceeds the first one announced; a lower announcement
    takes what is free and no request's permit, a higher one is reached at
    once up to that ceiling. *)
Theorem concurrency_limit_enforced fresh announced l used :
  limiter_ok l used → 0 <= used →
  limiter_ok (announce fresh announced l) (if decide (l_sem l = None) then 0 else used) ∧
  (∀ n m c, announced = Some n → 0 < n → l_sem l ≠ None → l_max l = Some m → l_ceiling l = Some c →
    l_max (announce fresh announced l) = Some (Z.max (Z.min n c) used) ∧
    l_ceiling (announce fresh announced l) = Some c).
Proof.
  intros Hl Hu. unfold limiter_ok, announce in *. destruct l as [mx ce sem]. cbn in *.
  destruct sem as [[sem free]|].
  - destruct Hl as (m & c & -> & -> & Hf & Hm & Hc). cbn. rewrite decide_False by done.
    destruct announced as [n|]; [|split; [by exists m, c|done]].
    destruct (0 <? n) eqn:En; cbn.
    2:{ apply Z.ltb_ge in En. split; [by exists m, c|]. intros ??? [= <-]. lia. }
    apply Z.ltb_lt in En.
    destruct (Z.min n c =? m) eqn:E1; [apply Z.eqb_eq in E1|apply Z.eqb_neq in E1;
      destruct (Z.min n c <? m) eqn:E2; [apply Z.ltb_lt in E2|apply Z.ltb_ge in E2]]; cbn.
    + split; [by exists m, c|]. intros ? ? ? [= <-] _ _ [= <-] [= <-]. split; [f_equal; lia|done].
    + destruct (Z.min free (m - Z.min n c) =? 0) eqn:E3; [apply Z.eqb_eq in E3|apply Z.eqb_neq in E3].
      * split; [exists m, c; split_and!; try done; lia|].
        intros ? ? ? [= <-] _ _ [= <-] [= <-]. split; [f_equal; lia|done].
      * split; [eexists _, c; split_and!; try done; lia|].
        intros ? ? ? [= <-] _ _ [= <-] [= <-]. split; [f_equal; lia|done].
    + split; [eexists _, c; split_and!; try done; lia|].
      intros ? ? ? [= <-] _ _ [= <-] [= <-]. split; [f_equal; lia|done].
  - destruct Hl as [-> ->]. rewrite decide_True by done. split; [|by intros; congruence].
    destruct announced as [n|]; [|done]. destruct (0 <? n) eqn:En; cbn; [|done].
    apply Z.ltb_lt in En. unfold MAX_PERMITS. eexists _, _. split_and!; try done; lia.
Qed.

(** ** Concrete declarations *)

(** Public, on [a.test] and [b.test]. *)
Definition two_hosts_decl : ServiceDecl :=
  {| d_service := Some (bs "web"); d_service_custom_name := None; d_path_bind := None; d_hostname_bind := None;
     d_hostname_binds := [bs "a.test"; bs "B.test"]; d_http := true; d_max_concurrent := Some 4; d_tcp := false;
     d_backend_healthy := true; d_backend_probed := true; d_priority := 0; d_bandwidth_bps := None;
     d_server_side_target := None; d_public := true; d_visitor_auth := None; d_visitor_auth_methods := None;
     d_allowed_ips := [bs "10.0.0.0/33"]; d_tunnels := []; d_cache := false; d_resilience := false;
     d_no_capture := false; d_max_request_body := None; d_response_timeout := None; d_webhook_inbox := false;
     d_denied := None; d_scaling := None; d_connections := None; d_connections_min := None;
     d_connections_max := None; d_config_notes := []; d_metrics_labels := [] |}.

(** The same without [public]. *)
Definition closed_hosts_decl : ServiceDecl :=
  {| d_service := Some (bs "api"); d_service_custom_name := None; d_path_bind := None; d_hostname_bind := None;
     d_hostname_binds := [bs "a.test"; bs "b.test"]; d_http := true; d_max_concurrent := None; d_tcp := false;
     d_backend_healthy := true; d_backend_probed := true; d_priority := 0; d_bandwidth_bps := None;
     d_server_side_target := None; d_public := false; d_visitor_auth := None; d_visitor_auth_methods := None;
     d_allowed_ips := []; d_tunnels := []; d_cache := false; d_resilience := false;
     d_no_capture := false; d_max_request_body := None; d_response_timeout := None; d_webhook_inbox := false;
     d_denied := None; d_scaling := None; d_connections := None; d_connections_min := None;
     d_connections_max := None; d_config_notes := []; d_metrics_labels := [] |}.

Definition open_server : DeclConfig :=
  {| panel_hostnames := [bs "panel.test"]; cache_enabled := false; cache_max_stale := 0; server_gates := false;
     default_access := Allow |}.

Definition no_limit : Limiter := {| l_max := None; l_ceiling := None; l_sem := None |}.

(** A connection of the master token with these services. *)
Definition carrying (t : Z) (pinged : option Z) (ss : list ServiceState) : ClientHandle :=
  {| tx := t; connected_at := 0; client_ip := []; last_ping_at := pinged; perms := master_perms; draining := false;
     declared_client_id := None; declared_name := None; drain_secs := None; client_version := None;
     client_protocol := None; rss_bytes := None; rtt_ms := None; jitter_ms := None; reconnects := None;
     reported_instance_id := None; instance_group := None; subscriptions := []; services := ss |}.

Definition declared (d : ServiceDecl) : ServiceState :=
  (declare_service open_server (λ _, true) (λ _, None) (λ _ _, false) master_perms d no_limit (newly_declared 0)).1.

Lemma declaration_within_token_witness :
  match apply_declaration open_server (λ _, true) (λ _, None) (λ _ _, false)
    (carrying 1 None [newly_declared 0]) two_hosts_decl 0 {| pin := None; scaling := None |} (Some 9) ∅ 7 with
  | Some (h', _, _, _) => perms h' = master_perms
  | None => False
  end.
Proof.
  destruct (apply_declaration _ _ _ _ _ _ _ _ _ _ _) as [[[[h' df] sm] ns]|] eqn:E.
  - refine (proj1 (declaration_within_token _ _ _ _ _ _ _ _ _ _ _ _ _ _ _ _ E)).
    constructor; [apply newly_declared_within|constructor].
  - unfold apply_declaration in E. cbn [services carrying lookup list_lookup] in E.
    destruct (declare_service _ _ _ _ _ _ _ _). discriminate E.
Defined.

(** Two connections that declare the same. *)
Definition two_tables : list (str * ClientHandle) :=
  (settle (λ _ _, false) (aset (bs "y") (carrying 2 (Some 5) [declared two_hosts_decl])
    (aset (bs "y") (carrying 2 None [])
      (settle (λ _ _, false) (aset (bs "x") (carrying 1 (Some 4) [declared two_hosts_decl])
        (aset (bs "x") (carrying 1 None []) [])) (bs "x")).1)) (bs "y")).1.

Lemma two_tables_reached : tables (λ _ _, false) two_tables.
Proof.
  eapply tb_step; [|by eapply ts_ping; [apply aget_aset_eq|]].
  eapply tb_step; [|apply ts_connect; [|done]].
  - eapply tb_step; [|by eapply ts_ping; [apply aget_aset_eq|]].
    eapply tb_step; [apply tb_nil|]. apply ts_connect; [apply not_elem_of_nil|done].
  - eapply bool_decide_unpack. vm_compute. exact I.
Qed.

Lemma one_route_one_policy_witness :
  allowed_ips (declared two_hosts_decl) = allowed_ips (declared two_hosts_decl) ∧
  denied (declared two_hosts_decl) = denied (declared two_hosts_decl) ∧
  (same_access (declared two_hosts_decl) (declared two_hosts_decl)
   ∨ site_covers (λ _ _, false) (declared two_hosts_decl) (declared two_hosts_decl)).
Proof.
  apply (one_route_one_policy (λ _ _, false) two_tables (bs "x") (carrying 1 (Some 4) [declared two_hosts_decl])
    (declared two_hosts_decl) (bs "y") (carrying 2 (Some 5) [declared two_hosts_decl]) (declared two_hosts_decl)).
  - apply two_tables_reached.
  - vm_compute. left.
  - vm_compute. right. left.
  - discriminate.
  - split; [reflexivity|]. split; [left|vm_compute; reflexivity].
  - split; [reflexivity|]. split; [left|vm_compute; reflexivity].
  - split; [reflexivity|]. right. exists (bs "a.test"). vm_compute. split; left.
Defined.

Lemma concurrency_limit_enforced_witness :
  l_max (announce 7 (Some 2) {| l_max := Some 8; l_ceiling := Some 8; l_sem := Some (7, 3) |}) = Some 5.
Proof.
  refine (proj1 (proj2 (concurrency_limit_enforced 7 (Some 2)
    {| l_max := Some 8; l_ceiling := Some 8; l_sem := Some (7, 3) |} 5 _ _) 2 8 8 _ _ _ _ _)).
  - exists 8, 8. split_and!; try reflexivity; lia.
  - lia.
  - reflexivity.
  - lia.
  - discriminate.
  - reflexivity.
  - reflexivity.
Defined.

(** ** What the comments do not say *)

(** An allowlist whose every entry is mistyped is dropped entry by entry until
    it is empty, and an empty allowlist admits every address. *)
Example mistyped_allowlist_opens r ip :
  allowed_ips (declared two_hosts_decl) = [] ∧
  admits_ip [(bs "x", carrying 1 (Some 4) [declared two_hosts_decl])] ip r = true.
Proof.
  split; [vm_compute; reflexivity|]. unfold admits_ip.
  destruct (ref_get r _) as [s|] eqn:E; [|done].
  assert (s = declared two_hosts_decl) as ->; [|vm_compute; reflexivity].
  unfold ref_get, ref_connection in E. cbn in E. case_decide; [|done]. cbn in E.
  destruct (index r) as [|[|?]]; cbn in E; congruence.
Qed.

(** Only the first hostname two services share is asked about: where a site
    decides that one, they may disagree on every other. *)
Example second_shared_hostname_unsettled :
  let site host (_ : str) := bool_decide (host = Some (bs "a.test")) in
  objection site (declared closed_hosts_decl) (bs "x", carrying 1 (Some 4) [declared two_hosts_decl], declared two_hosts_decl) = None ∧
  site (Some (bs "b.test")) (bs "/") = false ∧
  public (declared closed_hosts_decl) ≠ public (declared two_hosts_decl) ∧
  bs "b.test" ∈ effective_hostnames (declared closed_hosts_decl) ∧
  bs "b.test" ∈ effective_hostnames (declared two_hosts_decl).
Proof.
  cbv zeta. split_and!; [vm_compute; reflexivity|vm_compute; reflexivity|vm_compute; discriminate| |];
    eapply bool_decide_unpack; vm_compute; exact I.
Qed.

(** Services of one connection are not compared with each other. *)
Example one_connection_two_policies :
  let h := carrying 1 (Some 4) [declared two_hosts_decl; declared closed_hosts_decl] in
  settle (λ _ _, false) [(bs "x", h)] (bs "x") = ([(bs "x", h)], []).
Proof. vm_compute. reflexivity. Qed.
