(* ===== verification/AuditChain.v ===== *)
(** The audit log, [aperio-server/src/store/audit.rs]: an append-only file of
    JSON lines, each holding the hash of the line before it, rotated into
    numbered generations and pruned by age.

    The directory is a finite map from generation number (0 is the active file)
    to contents. Each file operation takes what the file system answers as an
    argument, a torn append included. JSON and SHA-256 are parameters, and so
    are the Unicode tables behind [to_lowercase]. *)

From Stdlib Require Import Sorting.Sorted.
From S2P Require Import Prelude Utf8 Binds.

Definition AUDIT_RECENT_CAP : nat := 200.

Definition GENESIS_HASH : str := replicate 64 "0"%char.

Record AuditFilter : Type := {
  q_event : option str;
  q_actor : option str;
  q_contains : option str;
  q_from_ts : option Z;
  q_to_ts : option Z;
}.

Record AuditEvent : Type := {
  ev_ts : Z;
  ev_timestamp : str;
  ev_event : str;
  ev_actor : str;
  ev_actor_ip : str;
  ev_org_id : option str;
  ev_details : str;
  ev_prev : str;
}.

#[export] Instance AuditEvent_eq : EqDecision AuditEvent.
Proof. solve_decision. Defined.

(** [AuditLog], its [path] apart: the files it names are the directory below. *)
Record AuditLog : Type := {
  recent : list AuditEvent;
  max_size : Z;
  max_files : nat;
  current_size : Z;
  last_hash : str;
}.

(** Generation number to contents; 0 is [audit.jsonl], [n] is [audit.jsonl.n]. *)
Abbreviation dir := (gmap nat str).

(** What the file system answers: an append may fail to open the file, or
    after part of the line is written; the other operations happen or do not, the
    reading of a file and of its size included. *)
Inductive Append : Type :=
| Appended
| OpenFailed
| WriteFailed (written : nat).

Record Io : Type := {
  io_append : Append;
  io_remove : nat → bool;
  io_rename : nat → bool;
  io_write : bool;
  io_read : nat → bool;
  io_stat : bool;
}.

Definition io_fine : Io :=
  {| io_append := Appended; io_remove := fun _ => true; io_rename := fun _ => true; io_write := true; io_read := fun _ => true; io_stat := true |}.

(** ** Text and files *)

Definition nl : ascii := chr 10.
Definition cr : ascii := chr 13.

Definition strip_cr (l : str) : str :=
  match rev l with c :: r => if bool_decide (c = cr) then rev r else l | [] => l end.

(** [str::lines]: the pieces between newlines, a carriage return before the
    newline dropped, no piece after a final newline. *)
Fixpoint lines_of (pieces : list str) : list str :=
  match pieces with
  | [] => []
  | [last] => if bool_decide (last = []) then [] else [last]
  | p :: rest => strip_cr p :: lines_of rest
  end.
Definition lines (raw : str) : list str := lines_of (split_on nl raw).

(** [std::fs::read_to_string] *)
Definition read_to_string (d : dir) (n : nat) : option str :=
  match d !! n with Some raw => from_utf8 raw | None => None end.

(** The same, when the file system may fail. *)
Definition read_file (io : Io) (d : dir) (n : nat) : option str := if io_read io n then read_to_string d n else None.

(** [std::fs::remove_file]; whether it succeeded. *)
Definition remove_file (io : Io) (n : nat) (d : dir) : bool * dir :=
  match d !! n with
  | Some _ => if io_remove io n then (true, delete n d) else (false, d)
  | None => (false, d)
  end.

(** [std::fs::rename]; whether it succeeded. *)
Definition rename (io : Io) (a b : nat) (d : dir) : bool * dir :=
  match d !! a with
  | Some raw => if io_rename io a then (true, <[b := raw]> (delete a d)) else (false, d)
  | None => (false, d)
  end.

Definition not_blank (l : str) : bool := negb (bool_decide (trim l = [])).

(** [lines().filter(|l| !l.trim().is_empty())] *)
Definition solid_lines (raw : str) : list str := filter (fun l => not_blank l = true) (lines raw).

(** ** Searches *)

(** [if let Some(x) = o && bad(x) { return false; }] *)
Definition unless {A} (o : option A) (bad : A → bool) (k : bool) : bool :=
  match o with Some x => if bad x then false else k | None => k end.

Definition filter_is_empty (f : AuditFilter) : bool :=
  negb (bool_decide (is_Some (q_event f))) && negb (bool_decide (is_Some (q_actor f)))
  && negb (bool_decide (is_Some (q_contains f))) && negb (bool_decide (is_Some (q_from_ts f)))
  && negb (bool_decide (is_Some (q_to_ts f))).

Section Log.
Context (sha256 : str → str).
Context (to_string : AuditEvent → option str) (from_str : str → option AuditEvent).
Context (to_lowercase : str → str).

Definition filter_matches (f : AuditFilter) (ev : AuditEvent) : bool :=
  unless (q_event f) (fun kind => negb (str_eqb (ev_event ev) kind))
  (unless (q_actor f) (fun actor => negb (str_eqb (ev_actor ev) actor))
  (unless (q_contains f)
     (fun needle =>
        let needle := to_lowercase needle in
        negb (contains needle (to_lowercase (ev_details ev)))
        && negb (contains needle (to_lowercase (ev_event ev)))
        && negb (contains needle (to_lowercase (ev_actor ev))))
  (unless (q_from_ts f) (fun from => ev_ts ev <? from)
  (unless (q_to_ts f) (fun to => to <? ev_ts ev) true)))).

(** The hash of one line, in hexadecimal. *)
Definition line_hash (line : str) : str := concat (hex_byte <$> sha256 line).

(** The last line with text in it, [raw.lines().rfind(..)]. *)
Definition last_line (raw : str) : option str := last (solid_lines raw).

(** ** Verifying a file *)

(** The loop of [verify_chain], [idx] lines read and [prev_line] the last. *)
Fixpoint verify_loop (idx : nat) (prev_line : option str) (ls : list str) : option nat :=
  match ls with
  | [] => None
  | line :: rest =>
      match from_str line with
      | None => Some (S idx)
      | Some ev =>
          if bool_decide (ev_prev ev ≠ []) &&
             match prev_line with Some p => negb (str_eqb (ev_prev ev) (line_hash p)) | None => false end
          then Some (S idx)
          else verify_loop (S idx) (Some line) rest
      end
  end.

(** [Err] is a file that cannot be read. *)
Definition verify_chain (io : Io) (d : dir) (n : nat) : result (option nat) unit :=
  match read_file io d n with
  | None => Err tt
  | Some raw => Ok (verify_loop 0 None (solid_lines raw))
  end.

(** ** Opening *)

Definition load (io : Io) (d : dir) (size : Z) (files : nat) : AuditLog :=
  let '(recent, last_hash) :=
    match read_file io d 0 with
    | Some raw =>
        (rev (omap from_str (take AUDIT_RECENT_CAP (rev (lines raw)))),
         match last_line raw with Some l => line_hash l | None => GENESIS_HASH end)
    | None => ([], GENESIS_HASH)
    end in
  let last_hash :=
    if str_eqb last_hash GENESIS_HASH then
      match read_file io d 1 with
      | Some raw => match last_line raw with Some l => line_hash l | None => last_hash end
      | None => last_hash
      end
    else last_hash in
  {| recent := recent; max_size := size; max_files := files;
     current_size := match d !! 0%nat with Some raw => if io_stat io then len raw else 0 | None => 0 end;
     last_hash := last_hash |}.

Definition set_rotation (size : Z) (files : nat) (a : AuditLog) : AuditLog :=
  {| recent := recent a; max_size := size; max_files := files;
     current_size := current_size a; last_hash := last_hash a |}.

Definition with_size (a : AuditLog) (z : Z) : AuditLog :=
  {| recent := recent a; max_size := max_size a; max_files := max_files a;
     current_size := z; last_hash := last_hash a |}.

(** ** Recording *)

(** The shifting of generations [n], [n - 1], ..., 1, failures included. *)
Fixpoint shift_generations (io : Io) (n : nat) (d : dir) : dir :=
  match n with
  | O => d
  | S n' => shift_generations io n' (rename io n (S n) d).2
  end.

Definition rotate (io : Io) (s : AuditLog * dir) : AuditLog * dir :=
  let '(a, d) := s in
  match max_files a with
  | O => (with_size a 0, (remove_file io 0 d).2)
  | S k =>
      let d := (remove_file io (max_files a) d).2 in
      let d := shift_generations io k d in
      let '(renamed, d) := rename io 0 1 d in
      if renamed then (with_size a 0, d) else (a, d)
  end.

(** The open and [writeln!] of one line. *)
Definition append_line (io : Io) (line : str) (d : dir) : bool * dir :=
  let old := default [] (d !! 0%nat) in
  match io_append io with
  | Appended => (true, <[0%nat := old ++ line ++ [nl]]> d)
  | OpenFailed => (false, d)
  | WriteFailed k => (false, <[0%nat := old ++ take k (line ++ [nl])]> d)
  end.

Definition push_recent (ev : AuditEvent) (l : list AuditEvent) : list AuditEvent :=
  (if (AUDIT_RECENT_CAP <=? length l)%nat then tail l else l) ++ [ev].

Definition record (io : Io) (now : Z) (timestamp event actor actor_ip : str) (org : option str)
    (details : str) (s : AuditLog * dir) : AuditLog * dir :=
  let '(a, d) := s in
  let ev := {| ev_ts := now; ev_timestamp := timestamp; ev_event := event; ev_actor := actor;
               ev_actor_ip := actor_ip; ev_org_id := org; ev_details := details;
               ev_prev := last_hash a |} in
  let a := {| recent := push_recent ev (recent a); max_size := max_size a; max_files := max_files a;
              current_size := current_size a; last_hash := last_hash a |} in
  match to_string ev with
  | None => (a, d)
  | Some line =>
      let '(ok, d) := append_line io line d in
      if ok then
        let a := {| recent := recent a; max_size := max_size a; max_files := max_files a;
                    current_size := current_size a + len line + 1; last_hash := line_hash line |} in
        if (0 <? max_size a) && (max_size a <=? current_size a) then rotate io (a, d) else (a, d)
      else (a, d)
  end.

(** ** Reading *)

(** The generations found by counting up from [n] until one does not exist. *)
Fixpoint generations_from (fuel : nat) (d : dir) (n : nat) : list nat :=
  match fuel with
  | O => []
  | S f => if bool_decide (is_Some (d !! n)) then n :: generations_from f d (S n) else []
  end.

(** As many rounds as files are enough; see [generations_complete]. *)
Definition generations (d : dir) : list nat := generations_from (S (size d)) d 1.

(** The inner loop, over the lines of one file from the last one. *)
Fixpoint search_lines (f : AuditFilter) (limit : nat) (ls : list str) (out : list AuditEvent) : list AuditEvent :=
  match ls with
  | [] => out
  | l :: rest =>
      if (limit <=? length out)%nat then out
      else match from_str l with
           | Some ev => search_lines f limit rest (if filter_matches f ev then out ++ [ev] else out)
           | None => search_lines f limit rest out
           end
  end.

Fixpoint search_files (io : Io) (f : AuditFilter) (limit : nat) (d : dir) (paths : list nat) (out : list AuditEvent) :
    list AuditEvent :=
  match paths with
  | [] => out
  | n :: rest =>
      if (limit <=? length out)%nat then out
      else match read_file io d n with
           | None => search_files io f limit d rest out
           | Some raw => search_files io f limit d rest (search_lines f limit (rev (lines raw)) out)
           end
  end.

Definition search (io : Io) (d : dir) (f : AuditFilter) (limit : nat) : list AuditEvent :=
  search_files io f limit d (0%nat :: generations d) [].

Definition broken_line (io : Io) (d : dir) (n : nat) : list (nat * nat) :=
  match verify_chain io d n with Ok (Some line) => [(n, line)] | _ => [] end.

Definition verify (io : Io) (d : dir) : list (nat * nat) :=
  concat (broken_line io d <$> generations d) ++ broken_line io d 0.

(** ** Retention *)

(** The loop over the generations [ns], counting what is removed. *)
Fixpoint prune_generations (io : Io) (cutoff : Z) (ns : list nat) (d : dir) (removed : nat) : dir * nat :=
  match ns with
  | [] => (d, removed)
  | n :: rest =>
      match read_file io d n with
      | None => (d, removed)
      | Some raw =>
          match head (omap from_str (rev (lines raw))) with
          | Some ev =>
              if ev_ts ev <? cutoff then
                let '(ok, d) := remove_file io n d in
                prune_generations io cutoff rest d
                  (if ok then removed + length (solid_lines raw) else removed)%nat
              else prune_generations io cutoff rest d removed
          | None => prune_generations io cutoff rest d removed
          end
      end
  end.

(** [serde_json::from_str(l).is_ok_and(|ev| ev.ts >= cutoff_ts)] *)
Definition keeps (cutoff : Z) (l : str) : bool :=
  match from_str l with Some ev => cutoff <=? ev_ts ev | None => false end.

Definition kept_text (ls : list str) : str :=
  let kept := join [nl] ls in
  if bool_decide (kept = []) then kept else kept ++ [nl].

Definition prune_older_than (io : Io) (cutoff : Z) (s : AuditLog * dir) : (AuditLog * dir) * nat :=
  let '(a, d) := s in
  let '(d, removed) := prune_generations io cutoff (seq 1 (max_files a `max` 1)) d 0 in
  match read_file io d 0 with
  | None => ((a, d), removed)
  | Some raw =>
      let ls := solid_lines raw in
      let keep_from := default (length ls) (find_index (keeps cutoff) ls) in
      if (0 <? keep_from)%nat then
        let kept := kept_text (drop keep_from ls) in
        if io_write io then
          (({| recent := filter (fun ev => (cutoff <=? ev_ts ev) = true) (recent a);
               max_size := max_size a; max_files := max_files a;
               current_size := len kept; last_hash := last_hash a |},
            <[0%nat := kept]> d), (removed + keep_from)%nat)
        else ((a, d), removed)
      else ((a, d), removed)
  end.

(** ** Sequences of operations *)

Inductive Op : Type :=
| ORecord (io : Io) (now : Z) (timestamp event actor actor_ip : str) (org : option str) (details : str)
| OPrune (io : Io) (cutoff : Z)
| OSetRotation (size : Z) (files : nat)
| ORestart (io : Io) (size : Z) (files : nat).

Definition exec (o : Op) (s : AuditLog * dir) : AuditLog * dir :=
  match o with
  | ORecord io now ts e a ip org det => record io now ts e a ip org det s
  | OPrune io cutoff => (prune_older_than io cutoff s).1
  | OSetRotation size files => (set_rotation size files s.1, s.2)
  | ORestart io size files => (load io s.2 size files, s.2)
  end.

Definition exec_all (ops : list Op) (s : AuditLog * dir) : AuditLog * dir :=
  fold_left (fun s o => exec o s) ops s.

End Log.

(** ** Lines *)

(** The text of a file that holds the lines [ls]. *)
Definition render (ls : list str) : str := concat ((fun l => l ++ [nl]) <$> ls).

Lemma render_app a b : render (a ++ b) = render a ++ render b.
Proof. unfold render. by rewrite fmap_app, concat_app. Qed.

Lemma lines_cons l r : nl ∉ l → lines (l ++ nl :: r) = strip_cr l :: lines r.
Proof.
  intros H. unfold lines, split_on. rewrite split_by_app by by apply is_char_true.
  rewrite split_by_none.
  - destruct (split_by_cons (is_char nl) r) as (h & t & E). rewrite E. done.
  - apply Forall_forall. intros a Ha. apply is_char_false. set_solver.
Qed.

Lemma strip_cr_id l : cr ∉ l → strip_cr l = l.
Proof.
  intros H. unfold strip_cr. destruct (rev l) as [|c r] eqn:E; [done|].
  case_bool_decide as Hc; [|done]. subst. destruct H.
  rewrite <- (rev_involutive l), E. simpl. set_solver.
Qed.

Lemma lines_render ls : Forall (fun l => (nl ∉ l) ∧ (cr ∉ l)) ls → lines (render ls) = ls.
Proof.
  induction 1 as [|l ls [Hn Hc] _ IH]; [done|].
  change (render (l :: ls)) with ((l ++ [nl]) ++ render ls). rewrite <- app_assoc. simpl.
  by rewrite lines_cons, strip_cr_id, IH.
Qed.

Lemma kept_text_render ls : Forall (fun l => trim l ≠ []) ls → kept_text ls = render ls.
Proof.
  intros H. unfold kept_text. destruct ls as [|l ls]; [done|].
  assert (Hj : join [nl] (l :: ls) ++ [nl] = render (l :: ls)).
  { clear H. revert l. induction ls as [|m ls IH]; intros l; [by unfold render; simpl; rewrite app_nil_r|].
    change (render (l :: m :: ls)) with ((l ++ [nl]) ++ render (m :: ls)). rewrite <- IH.
    simpl. by rewrite <- !app_assoc. }
  case_bool_decide as Hb; [|done]. inversion_clear H as [|? ? Hl _]. destruct Hl.
  destruct ls as [|m ls]; simpl in Hb; [by subst|].
  apply app_eq_nil in Hb as [-> _]. done.
Qed.

(** ** What a codec of lines promises *)

Class LineCodec (to_string : AuditEvent → option str) (from_str : str → option AuditEvent) : Prop := {
  codec_parses : ∀ ev line, to_string ev = Some line → from_str line = Some ev;
  codec_one_line : ∀ ev line, to_string ev = Some line → (nl ∉ line) ∧ (cr ∉ line);
  codec_solid : ∀ ev line, to_string ev = Some line → trim line ≠ [];
  codec_utf8 : ∀ ev line, to_string ev = Some line → utf8_valid line = true;
}.

Lemma hex_byte_inj a b : hex_byte a = hex_byte b → a = b.
Proof.
  unfold hex_byte. intros H. inversion H as [[H1 H2]].
  assert (Hc : ∀ x y, 0 <= x < 16 → 0 <= y < 16 → hex_chr x = hex_chr y → x = y).
  { intros x y Hx Hy E. apply (f_equal code) in E. unfold hex_chr in E.
    destruct (Z.ltb_spec x 10), (Z.ltb_spec y 10); rewrite !code_chr in E; lia. }
  pose proof (code_range a). pose proof (code_range b). apply code_inj.
  apply Hc in H1; [|Z.div_mod_to_equations; lia..]. apply Hc in H2; [|Z.div_mod_to_equations; lia..].
  rewrite (Z.div_mod (code a) 16), (Z.div_mod (code b) 16) by lia. congruence.
Qed.

Lemma hex_bytes_inj s t : concat (hex_byte <$> s) = concat (hex_byte <$> t) → s = t.
Proof.
  revert t. induction s as [|a s IH]; intros [|b t] H; [done|done|done|].
  apply (app_inj_1 (hex_byte a) (hex_byte b)) in H as [Ha H]; [|done].
  apply hex_byte_inj in Ha as ->. f_equal. by apply IH.
Qed.

(** ** The chain of a file *)

Section Chain.
Context (sha256 : str → str) (from_str : str → option AuditEvent).

(** A line as [record] writes them. *)
Definition sealed (l : str) : Prop :=
  (∃ ev, from_str l = Some ev ∧ ev_prev ev ≠ []) ∧ (nl ∉ l) ∧ (cr ∉ l) ∧ trim l ≠ [] ∧ utf8_valid l = true.

(** [b] points at [a]. *)
Definition link (a b : str) : Prop := ∃ ev, from_str b = Some ev ∧ ev_prev ev = line_hash sha256 a.

Definition chained (ls : list str) : Prop := Forall sealed ls ∧ Sorted link ls.

Definition file_ok (raw : str) : Prop := ∃ ls, raw = render ls ∧ chained ls.

Lemma Sorted_snoc {A} (R : A → A → Prop) l x :
  Sorted R l → (∀ y, last l = Some y → R y x) → Sorted R (l ++ [x]).
Proof.
  intros H Hl. induction H as [|a l Hs IH Hd]; [by repeat constructor|].
  simpl. constructor.
  - apply IH. intros y Hy. apply Hl. destruct l; [done|exact Hy].
  - inversion Hd; subst; constructor; [by apply Hl|done].
Qed.

Lemma chained_drop k ls : chained ls → chained (drop k ls).
Proof.
  intros [Hf Hs]. split; [by apply Forall_drop|].
  revert k. induction Hs as [|a l Hs IH Hd]; intros [|k]; simpl; try by constructor.
  apply IH. by inversion Hf.
Qed.

Lemma Sorted_app_inv {A} (R : A → A → Prop) a b : Sorted R (a ++ b) → Sorted R a ∧ Sorted R b.
Proof.
  induction a as [|x a IH]; intros H; [by split; [constructor|]|].
  simpl in H. inversion_clear H as [|? ? Hs Hd]. destruct (IH Hs). split; [|done].
  constructor; [done|]. destruct a; constructor. by inversion Hd.
Qed.

Lemma chained_app a b : chained (a ++ b) → chained a ∧ chained b.
Proof.
  intros [Hf Hs]. apply Forall_app in Hf as [? ?]. apply Sorted_app_inv in Hs as [? ?]. by repeat split.
Qed.

Lemma chained_snoc ls l :
  chained ls → sealed l → (∀ p, last ls = Some p → link p l) → chained (ls ++ [l]).
Proof.
  intros [Hf Hs] Hl Hp. split; [by apply Forall_app; split; [|apply Forall_singleton]|by apply Sorted_snoc].
Qed.

Lemma lines_sealed ls : Forall sealed ls → lines (render ls) = ls.
Proof. intros H. apply lines_render. eapply Forall_impl; [exact H|]. intros l Hl; split; apply Hl. Qed.

Lemma solid_sealed ls : Forall sealed ls → solid_lines (render ls) = ls.
Proof.
  intros H. unfold solid_lines. rewrite lines_sealed by done. apply filter_all.
  eapply Forall_impl; [exact H|]. intros l (_ & _ & _ & Ht & _). unfold not_blank.
  by rewrite bool_decide_eq_false_2.
Qed.

Lemma read_sealed ls d n : Forall sealed ls → d !! n = Some (render ls) → read_to_string d n = Some (render ls).
Proof.
  intros H E. unfold read_to_string, from_utf8. rewrite E.
  assert (utf8_valid (render ls) = true) as ->; [|done]. clear E. induction H as [|l ls Hl _ IH]; [done|].
  change (render (l :: ls)) with ((l ++ [nl]) ++ render ls). rewrite <- app_assoc.
  rewrite utf8_valid_app by apply Hl. exact IH.
Qed.

(** A chained list passes the loop, after the line before it. *)
Lemma verify_loop_chained i p ls :
  chained ls → (∀ a, p = Some a → ∀ b, head ls = Some b → link a b) →
  verify_loop sha256 from_str i p ls = None.
Proof.
  intros [Hf Hs]. revert i p. induction Hs as [|b l Hs IH Hd]; intros i p Hp; [done|].
  inversion_clear Hf as [|? ? Hb Hf']. destruct Hb as ((ev & Hev & _) & _). simpl. rewrite Hev.
  destruct (_ && _) eqn:E.
  - exfalso. apply andb_prop in E as [_ E]. destruct p as [a|]; [|done].
    destruct (Hp a eq_refl b eq_refl) as (ev' & Hev' & Hh). simplify_eq. by rewrite Hh, str_eqb_refl in E.
  - apply IH; [done|]. intros a [= <-] c Hc. destruct l; simplify_eq/=. by inversion Hd.
Qed.

Lemma verify_chain_ok io d n raw : io_read io n = true → file_ok raw → d !! n = Some raw → verify_chain sha256 from_str io d n = Ok None.
Proof.
  intros Hio (ls & -> & Hc) Hd. unfold verify_chain, read_file. rewrite Hio.
  rewrite (read_sealed ls) by (done || apply Hc). rewrite solid_sealed by apply Hc.
  f_equal. apply verify_loop_chained; [done|by intros].
Qed.

(** What the loop establishes about lines that all carry a hash. *)
Lemma verify_loop_links i p ls :
  verify_loop sha256 from_str i p ls = None →
  Forall (fun l => ∀ ev, from_str l = Some ev → ev_prev ev ≠ []) ls →
  Sorted link ls ∧ (∀ a b, p = Some a → head ls = Some b → link a b).
Proof.
  revert i p. induction ls as [|b l IH]; intros i p H Hf; [split; [constructor|done]|].
  simpl in H. destruct (from_str b) as [ev|] eqn:Hev; [|done].
  inversion_clear Hf as [|? ? Hb Hl]. destruct (_ && _) eqn:E; [done|].
  destruct (IH _ _ H Hl) as [Hs Hh]. split.
  - constructor; [done|]. destruct l; constructor. by apply Hh.
  - intros a b' -> [= <-]. exists ev. split; [done|].
    rewrite bool_decide_eq_true_2 in E by by apply Hb. simpl in E.
    apply negb_false_iff, str_eqb_eq in E. done.
Qed.

Lemma verify_ok io d : map_Forall (fun _ raw => file_ok raw) d → verify sha256 from_str io d = [].
Proof.
  intros H. assert (Hn : ∀ n, broken_line sha256 from_str io d n = []).
  { intros n. unfold broken_line. destruct (io_read io n) eqn:Eio; [destruct (d !! n) as [raw|] eqn:E|].
    - by rewrite (verify_chain_ok io d n raw Eio (H n raw E) E).
    - unfold verify_chain, read_file, read_to_string. by rewrite Eio, E.
    - unfold verify_chain, read_file. by rewrite Eio. }
  unfold verify. rewrite Hn, app_nil_r.
  induction (generations d) as [|n l IH]; [done|]. simpl. by rewrite Hn.
Qed.

(** With no two lines of one hash, a chain is determined by its last line. *)
Lemma chain_determined a b :
  (∀ x y, sha256 x = sha256 y → x = y) →
  Sorted (flip link) a → Sorted (flip link) b → head a = head b → a `prefix_of` b ∨ b `prefix_of` a.
Proof.
  intros Hinj Ha. revert b. induction Ha as [|x a Ha IH Hd]; intros b Hb Hh; [left; apply prefix_nil|].
  destruct b as [|y b]; [right; apply prefix_nil|]. injection Hh as <-.
  inversion_clear Hb as [|? ? Hb' Hd'].
  assert (Hab : a `prefix_of` b ∨ b `prefix_of` a).
  { destruct a as [|a0 a]; [left; apply prefix_nil|]. destruct b as [|b0 b]; [right; apply prefix_nil|].
    apply IH; [done|]. inversion_clear Hd as [|? ? (e & E1 & E2)]. inversion_clear Hd' as [|? ? (e' & E1' & E2')].
    simplify_eq. simpl. f_equal. apply Hinj, hex_bytes_inj. unfold line_hash in *. congruence. }
  destruct Hab; [left|right]; by apply prefix_cons.
Qed.

Lemma Sorted_rev {A} (R : A → A → Prop) l : Sorted R l → Sorted (flip R) (rev l).
Proof.
  induction 1 as [|x l Hs IH Hd]; [constructor|]. simpl. apply Sorted_snoc; [done|].
  intros y Hy. destruct l as [|z l]; [done|]. simpl in Hy. rewrite last_snoc in Hy.
  inversion Hd; subst. by simplify_eq.
Qed.

End Chain.

(** ** The invariant of the log *)

Section Invariant.
Context (sha256 : str → str).
Context (to_string : AuditEvent → option str) (from_str : str → option AuditEvent).
Context {codec : LineCodec to_string from_str}.
Context (sha256_bytes : ∀ s, sha256 s ≠ []).
Context (sha256_genesis : ∀ s, line_hash sha256 s ≠ GENESIS_HASH).

#[local] Abbreviation file_ok := (file_ok sha256 from_str).
#[local] Abbreviation line_hash := (line_hash sha256).
#[local] Abbreviation sealed := (sealed from_str).

(** Every file is a chain; the next line will point at the last of the active
    file. *)
Record log_ok (s : AuditLog * dir) : Prop := {
  ok_files : map_Forall (fun _ raw => file_ok raw) s.2;
  ok_hash : last_hash s.1 ≠ [];
  ok_last : ∀ ls l, s.2 !! 0%nat = Some (render ls) → Forall sealed ls → last ls = Some l →
            last_hash s.1 = line_hash l;
  ok_recent : (length (recent s.1) <= AUDIT_RECENT_CAP)%nat;
}.

Lemma line_hash_nonempty l : line_hash l ≠ [].
Proof.
  unfold AuditChain.line_hash. destruct (sha256 l) eqn:E; [by destruct (sha256_bytes l)|done].
Qed.

Lemma render_inj a b : Forall sealed a → Forall sealed b → render a = render b → a = b.
Proof. intros Ha Hb E. by rewrite <- (lines_sealed _ a Ha), <- (lines_sealed _ b Hb), E. Qed.

Lemma remove_file_sub io n d : (remove_file io n d).2 ⊆ d.
Proof. unfold remove_file. repeat case_goal; simpl; [apply delete_subseteq|done..]. Qed.

Lemma remove_file_other io n m d : m ≠ n → (remove_file io n d).2 !! m = d !! m.
Proof. intros. unfold remove_file. repeat case_goal; simpl; [by rewrite lookup_delete_ne|done..]. Qed.

Lemma rename_files P io a b d :
  map_Forall (fun _ raw => P raw) d → map_Forall (fun _ raw => P raw) (rename io a b d).2.
Proof.
  intros H. unfold rename. destruct (d !! a) as [raw|] eqn:E; [|done].
  destruct (io_rename io a); [|done]. simpl. apply map_Forall_insert_2; [by apply (H a)|].
  by apply map_Forall_delete.
Qed.

Lemma shift_files P io n d :
  map_Forall (fun _ raw => P raw) d → map_Forall (fun _ raw => P raw) (shift_generations io n d).
Proof. revert d. induction n as [|n IH]; intros d H; [done|]. by apply IH, rename_files. Qed.

Lemma shift_active io n d : shift_generations io n d !! 0%nat = d !! 0%nat.
Proof.
  revert d. induction n as [|n IH]; intros d; [done|]. cbn [shift_generations]. rewrite IH.
  unfold rename. repeat case_goal; simpl; [|done..].
  by rewrite lookup_insert_ne, lookup_delete_ne by done.
Qed.

Lemma rotate_ok io s : log_ok s → log_ok (rotate io s).
Proof.
  destruct s as [a d]. intros [Hf Hh Hl Hr]. simpl in *. unfold rotate.
  destruct (max_files a) as [|k] eqn:Ek.
  - split; simpl; try done.
    + intros n raw E. apply (Hf n). eapply lookup_weaken; [exact E|apply remove_file_sub].
    + intros ls l E. apply Hl. eapply lookup_weaken; [exact E|apply remove_file_sub].
  - set (d1 := shift_generations io k _).
    assert (H1 : map_Forall (fun _ raw => file_ok raw) d1).
    { apply shift_files. intros n raw E. apply (Hf n). eapply lookup_weaken; [exact E|apply remove_file_sub]. }
    assert (H0 : d1 !! 0%nat = d !! 0%nat).
    { unfold d1. by rewrite shift_active, remove_file_other. }
    pose proof (rename_files file_ok io 0 1 d1 H1) as H2. unfold rename in *.
    destruct (d1 !! 0%nat) as [raw0|] eqn:E0; [destruct (io_rename io 0)|]; split; simpl in *; try done.
    + intros ls l E. by rewrite lookup_insert_ne, lookup_delete_eq in E.
    + intros ls l E. rewrite E0, H0 in E. by apply Hl.
    + intros ls l E. by rewrite E0 in E.
Qed.

(** An append that fails leaves no part of a line behind. *)
Definition whole (io : Io) : Prop :=
  match io_append io with WriteFailed (S _) => False | _ => True end.

Lemma append_ok io line d a :
  whole io → sealed line → (∃ ev, from_str line = Some ev ∧ ev_prev ev = last_hash a) → log_ok (a, d) →
  let '(ok, d') := append_line io line d in
  map_Forall (fun _ raw => file_ok raw) d'
  ∧ (if ok then ∃ ls, d' !! 0%nat = Some (render (ls ++ [line])) ∧ Forall sealed (ls ++ [line])
     else ∀ ls, d' !! 0%nat = Some (render ls) → d !! 0%nat = Some (render ls) ∨ render ls = []).
Proof.
  intros Hw Hs (ev & Hev & Hp) [Hf Hh Hl _]. simpl in *. unfold append_line.
  assert (Hold : ∃ ls, default [] (d !! 0%nat) = render ls ∧ chained sha256 from_str ls
                 ∧ (ls ≠ [] → d !! 0%nat = Some (render ls))).
  { destruct (d !! 0%nat) as [raw|] eqn:E; [|exists []; by repeat constructor].
    destruct (Hf _ _ E) as (ls & -> & Hc). exists ls. split_and!; done. }
  destruct Hold as (ls & -> & Hc & Hd). destruct (io_append io) as [| |[|k]] eqn:Ek; simpl.
  - assert (Hc' : chained sha256 from_str (ls ++ [line])).
    { apply chained_snoc; [done|done|]. intros p Hlast. exists ev. split; [done|]. rewrite Hp.
      apply (Hl ls); [|apply Hc|done]. apply Hd. by intros ->. }
    assert (E : render ls ++ line ++ [nl] = render (ls ++ [line])).
    { rewrite render_app. unfold render at 3. simpl. by rewrite app_nil_r. }
    rewrite E. split.
    + apply map_Forall_insert_2; [by exists (ls ++ [line])|done].
    + exists ls. by rewrite lookup_insert_eq; split; [|apply Hc'].
  - split; [done|]. intros. by left.
  - rewrite app_nil_r. split; [apply map_Forall_insert_2; [by exists ls|done]|].
    intros ls'. rewrite lookup_insert_eq. intros [= E]. rewrite <- E.
    destruct (decide (ls = [])) as [->|Hne]; [by right|left; by apply Hd].
  - unfold whole in Hw. by rewrite Ek in Hw.
Qed.

Lemma push_recent_bounded ev l :
  (length l <= AUDIT_RECENT_CAP)%nat → (length (push_recent ev l) <= AUDIT_RECENT_CAP)%nat.
Proof.
  unfold push_recent. intros H. destruct (Nat.leb_spec AUDIT_RECENT_CAP (length l)); rewrite length_app; simpl.
  - destruct l; simpl in *; unfold AUDIT_RECENT_CAP in *; lia.
  - lia.
Qed.

Lemma record_ok io now ts e ac ip org det s :
  whole io → log_ok s → log_ok (record sha256 to_string io now ts e ac ip org det s).
Proof.
  destruct s as [a d]. intros Hw Hok. pose proof Hok as [Hf Hh Hl Hr]. unfold record.
  set (ev := {| ev_ts := now |}). simpl in Hf, Hh, Hl, Hr. pose proof (push_recent_bounded ev _ Hr) as Hr'.
  destruct (to_string ev) as [line|] eqn:El; [|by split].
  assert (Hs : sealed line).
  { pose proof (codec_one_line ev line El). split_and!; [|tauto|tauto|by eapply codec_solid|by eapply codec_utf8].
    exists ev. by split; [apply codec_parses|]. }
  pose proof (append_ok io line d a Hw Hs) as Ha.
  destruct (append_line io line d) as [ok d'].
  destruct Ha as [Hf' Hrest]; [exists ev; by split; [apply codec_parses|]|done|].
  destruct ok.
  - cbv zeta. match goal with |- log_ok (if _ then rotate io (?x, _) else _) => set (a1 := x) end.
    assert (log_ok (a1, d')) as H1; [|destruct (_ && _); [by apply rotate_ok|done]].
    split; simpl; [done|apply line_hash_nonempty| |done].
    destruct Hrest as (ls & E & Hall). intros ls' l E' Hall' Hlast. rewrite E in E'. injection E' as E'.
    apply render_inj in E'; [|done..]. subst ls'. rewrite last_snoc in Hlast. congruence.
  - split; simpl; try done. intros ls l E Hall Hlast. destruct (Hrest ls E) as [E'|E']; [by apply (Hl ls)|].
    destruct ls as [|x ls]; [done|]. unfold render in E'. simpl in E'. by destruct x.
Qed.

Lemma prune_generations_sub io cutoff ns d removed :
  0%nat ∉ ns →
  (prune_generations from_str io cutoff ns d removed).1 ⊆ d
  ∧ (prune_generations from_str io cutoff ns d removed).1 !! 0%nat = d !! 0%nat.
Proof.
  revert d removed. induction ns as [|n ns IH]; intros d removed Hn; [done|].
  apply not_elem_of_cons in Hn as [Hn0 Hn]. simpl.
  destruct (read_file io d n); [|done].
  destruct (head _) as [ev|]; [destruct (_ <? _)|]; [|by apply IH..].
  pose proof (remove_file_sub io n d) as Hsub. pose proof (remove_file_other io n 0 d Hn0) as H0.
  destruct (remove_file io n d) as [ok d']. simpl in Hsub, H0.
  split; [etrans; [by apply IH|done]|]. by rewrite (proj2 (IH _ _ Hn)).
Qed.

Lemma last_drop {A} k (l : list A) x : last (drop k l) = Some x → last l = Some x.
Proof.
  revert l. induction k as [|k IH]; intros [|y l]; [done|done|done|]. simpl. intros H.
  apply IH in H. by destruct l.
Qed.

Lemma prune_ok io cutoff s : log_ok s → log_ok (prune_older_than from_str io cutoff s).1.
Proof.
  destruct s as [a d]. intros [Hf Hh Hl Hr]. simpl in Hf, Hh, Hl, Hr. unfold prune_older_than.
  destruct (prune_generations_sub io cutoff (seq 1 (max_files a `max` 1)) d 0) as [Hsub H0].
  { rewrite elem_of_seq. lia. }
  destruct (prune_generations _ _ _ _ _ _) as [d' removed]. simpl in Hsub, H0.
  assert (Hf' : map_Forall (fun _ raw => file_ok raw) d').
  { intros n raw E. apply (Hf n). by eapply lookup_weaken. }
  assert (Hok : log_ok (a, d')). { split; simpl; try done. intros ls l. rewrite H0. apply Hl. }
  destruct (read_file io d' 0) as [raw|] eqn:Er; [|done]. cbv zeta.
  destruct (0 <? _)%nat eqn:Ek; [|done]. destruct (io_write io); [|done].
  match goal with |- context [drop ?x _] => set (k := x) end.
  assert (Hraw : d' !! 0%nat = Some raw).
  { unfold read_file, read_to_string, from_utf8 in Er. destruct (io_read io 0); [|done]. destruct (d' !! 0%nat); [|done]. by case_in Er; simplify_eq. }
  destruct (Hf' _ _ Hraw) as (ls & -> & Hc). rewrite (solid_sealed from_str ls) by apply Hc.
  assert (Hd : chained sha256 from_str (drop k ls)) by by apply chained_drop.
  rewrite kept_text_render by (eapply Forall_impl; [apply Hd|intros l Hl'; apply Hl']).
  split; simpl; [|done| |].
  - apply map_Forall_insert_2; [by exists (drop k ls)|done].
  - intros ls' l. rewrite lookup_insert_eq. intros [= E] Hs' Hlast.
    apply render_inj in E; [|apply Hd|done]. subst ls'. apply last_drop in Hlast.
    apply (Hl ls); [by rewrite <- H0|apply Hc|done].
  - etrans; [apply length_filter|done].
Qed.

Lemma length_omap_le {A B} (f : A → option B) l : (length (omap f l) <= length l)%nat.
Proof. induction l as [|x l IH]; [done|]. cbn. destruct (f x); cbn; apply le_n_S + apply le_S; exact IH. Qed.

Lemma load_ok io d size files :
  io_read io 0 = true → map_Forall (fun _ raw => file_ok raw) d → log_ok (load sha256 from_str io d size files, d).
Proof.
  intros Hio Hf. unfold load. unfold read_file at 1. rewrite Hio.
  assert (Hlast : ∀ ls, d !! 0%nat = Some (render ls) → Forall sealed ls →
            read_to_string d 0 = Some (render ls) ∧ last_line (render ls) = last ls).
  { intros ls E Hs. split; [by eapply read_sealed|]. unfold last_line. by rewrite (solid_sealed from_str). }
  assert (Hg : GENESIS_HASH ≠ []) by done.
  destruct (read_to_string d 0) as [raw|] eqn:Er; split; simpl; try done.
  - destruct (last_line raw); [|]; repeat case_goal; try done; apply line_hash_nonempty.
  - intros ls l E Hs Hl. destruct (Hlast ls E Hs) as [[= ->] E2]. rewrite E2, Hl.
    destruct (str_eqb (line_hash l) GENESIS_HASH) eqn:Eg; [|done].
    by apply str_eqb_eq, sha256_genesis in Eg.
  - rewrite length_rev. etrans; [apply length_omap_le|]. rewrite length_take. lia.
  - repeat case_goal; try done; apply line_hash_nonempty.
  - intros ls l E Hs Hl. by destruct (Hlast ls E Hs).
  - lia.
Qed.

(** A line torn by a failing write, and a log opened while its file cannot be read, are
    the two things that can break a chain. *)
Definition op_whole (o : Op) : Prop :=
  match o with
  | ORecord io _ _ _ _ _ _ _ => whole io
  | ORestart io _ _ => io_read io 0 = true
  | _ => True
  end.

Lemma exec_ok o s : op_whole o → log_ok s → log_ok (exec sha256 to_string from_str o s).
Proof.
  destruct o as [io now ts e a ip org det|io cutoff|size files|io size files]; simpl; intros Hw Hs.
  - by apply record_ok.
  - by apply prune_ok.
  - by destruct s as [a d], Hs.
  - by apply load_ok, Hs.
Qed.

Lemma exec_all_ok ops s :
  Forall op_whole ops → log_ok s → log_ok (exec_all sha256 to_string from_str ops s).
Proof.
  intros H. revert s. unfold exec_all. induction H as [|o ops Ho _ IH]; intros s Hs; [done|].
  simpl. by apply IH, exec_ok.
Qed.

End Invariant.

(** ** The walk over the generations *)

Lemma generations_from_spec fuel d n :
  ∃ k, generations_from fuel d n = seq n k ∧ (k <= fuel)%nat
    ∧ (∀ i, (n <= i < n + k)%nat → is_Some (d !! i)) ∧ (k = fuel ∨ d !! (n + k)%nat = None).
Proof.
  revert n. induction fuel as [|f IH]; intros n; [exists 0%nat; split_and!; [done|done|lia|by left]|].
  simpl. case_bool_decide as Hn.
  - destruct (IH (S n)) as (k & -> & Hk & Hin & Hend). exists (S k). split_and!; [done|lia| |].
    + intros i Hi. destruct (decide (i = n)) as [->|]; [done|]. apply Hin. lia.
    + destruct Hend as [->|Hend]; [by left|right]. by rewrite Nat.add_succ_r.
  - exists 0%nat. split_and!; [done|lia|lia|]. right. rewrite Nat.add_0_r. by apply eq_None_not_Some.
Qed.

Lemma generations_fuel fuel (d : dir) : (size d < fuel)%nat →
  ∃ k, generations_from fuel d 1 = seq 1 k
    ∧ (∀ i, (1 <= i <= k)%nat → is_Some (d !! i)) ∧ d !! S k = None.
Proof.
  intros Hf. destruct (generations_from_spec fuel d 1) as (k & -> & Hk & Hin & Hend).
  exists k. split_and!; [done|intros i Hi; apply Hin; lia|]. destruct Hend as [->|Hend]; [|done].
  exfalso. assert (Hsz : (size (list_to_set (seq 1 fuel) : gset nat) <= size (dom d))%nat).
  { apply subseteq_size. intros i Hi. apply elem_of_list_to_set, elem_of_seq in Hi.
    apply elem_of_dom, Hin. lia. }
  rewrite size_list_to_set, length_seq, size_dom in Hsz by apply NoDup_seq. lia.
Qed.

Lemma generations_unique k k' (d : dir) :
  (∀ i, (1 <= i <= k)%nat → is_Some (d !! i)) → d !! S k = None →
  (∀ i, (1 <= i <= k')%nat → is_Some (d !! i)) → d !! S k' = None → k = k'.
Proof.
  intros H1 E1 H2 E2. destruct (Nat.lt_trichotomy k k') as [Hlt|[->|Hlt]]; [exfalso|done|exfalso].
  - destruct (H2 (S k)) as [? ?]; [lia|congruence].
  - destruct (H1 (S k')) as [? ?]; [lia|congruence].
Qed.

(** ** Searching *)

Section Search.
Context (from_str : str → option AuditEvent) (to_lowercase : str → str).
Context (f : AuditFilter) (limit : nat).

#[local] Abbreviation hits := (filter (fun ev => filter_matches to_lowercase f ev = true)).

Lemma search_lines_spec ls out :
  (length out <= limit)%nat →
  search_lines from_str to_lowercase f limit ls out = take limit (out ++ hits (omap from_str ls)).
Proof.
  revert out. induction ls as [|l ls IH]; intros out Ho.
  { simpl. rewrite app_nil_r, take_ge; done. }
  simpl. destruct (Nat.leb_spec limit (length out)) as [Hl|Hl].
  - by rewrite take_app_le, take_ge.
  - destruct (from_str l) as [ev|]; [|by apply IH].
    rewrite filter_cons. destruct (filter_matches _ f ev) eqn:E.
    + rewrite decide_True by done. rewrite IH by (rewrite length_app; simpl; lia).
      by rewrite <- app_assoc.
    + rewrite decide_False by done. by apply IH.
Qed.

(** The lines of a file, newest first; none when it cannot be read. *)
Definition file_lines (io : Io) (d : dir) (n : nat) : list str :=
  match read_file io d n with Some raw => rev (lines raw) | None => [] end.

Lemma search_files_spec io d paths out :
  (length out <= limit)%nat →
  search_files from_str to_lowercase io f limit d paths out
  = take limit (out ++ hits (omap from_str (concat (file_lines io d <$> paths)))).
Proof.
  revert out. induction paths as [|n ps IH]; intros out Ho.
  { simpl. rewrite app_nil_r, take_ge; done. }
  simpl. rewrite omap_app, filter_app. unfold file_lines at 1.
  destruct (Nat.leb_spec limit (length out)) as [Hl|Hl]; [by rewrite take_app_le, take_ge|].
  destruct (read_file io d n) as [raw|]; [|by apply IH].
  rewrite IH, search_lines_spec by (rewrite ?length_take; rewrite ?search_lines_spec, ?length_take; lia).
  rewrite app_assoc. set (x := out ++ _). set (y := hits _).
  rewrite !take_app, take_take, Nat.min_id, length_take. f_equal. f_equal. lia.
Qed.

End Search.

(** ** Recording, against the history of what was recorded *)

(** The last [n] elements. *)
Definition lastn {A} (n : nat) (l : list A) : list A := drop (length l - n) l.

Lemma tail_drop {A} n (l : list A) : tail (drop n l) = drop (S n) l.
Proof. revert l. induction n as [|n IH]; intros [|x l]; [done|done|done|apply IH]. Qed.

Lemma push_recent_lastn ev l :
  push_recent ev (lastn AUDIT_RECENT_CAP l) = lastn AUDIT_RECENT_CAP (l ++ [ev]).
Proof.
  unfold push_recent, lastn. rewrite length_drop, length_app.
  assert (Hc : (0 < AUDIT_RECENT_CAP)%nat) by (unfold AUDIT_RECENT_CAP; lia).
  revert Hc. generalize AUDIT_RECENT_CAP as c. simpl. intros c Hc.
  destruct (Nat.leb_spec c (length l - (length l - c))); rewrite drop_app_le by lia; f_equal.
  - rewrite tail_drop. f_equal. lia.
  - f_equal. lia.
Qed.

(** One rotation when nothing fails: every generation moves up by one, the one
    at the limit is gone. *)
Lemma shift_fine n d j :
  d !! S n = None →
  shift_generations io_fine n d !! j
  = if decide (j = 0%nat) then d !! 0%nat else if decide (j = 1%nat) then None
    else if decide (j <= S n)%nat then d !! pred j else d !! j.
Proof.
  revert d. induction n as [|n IH]; intros d Hd.
  { simpl. repeat case_decide; subst; try done. lia. }
  cbn [shift_generations]. unfold rename.
  assert (Hd1 : ∀ d1, d1 = (match d !! S n with
      | Some raw => if io_rename io_fine (S n) then (true, <[S (S n) := raw]> (delete (S n) d)) else (false, d)
      | None => (false, d) end).2 →
    d1 !! S n = None ∧ d1 !! S (S n) = d !! S n ∧ ∀ i, i ≠ S n → i ≠ S (S n) → d1 !! i = d !! i).
  { intros d1 ->. destruct (d !! S n) as [raw|] eqn:E; simpl; [|by rewrite Hd, E].
    split_and!; [by rewrite lookup_insert_ne, lookup_delete_eq by lia|by rewrite lookup_insert_eq|].
    intros i H1 H2. by rewrite lookup_insert_ne, lookup_delete_ne by done. }
  match goal with |- shift_generations _ _ ?x !! _ = _ => destruct (Hd1 x eq_refl) as (E1 & E2 & E3) end.
  rewrite IH by done. repeat case_decide; subst; try done; try lia.
  - apply E3; lia.
  - apply E3; lia.
  - assert (j = S (S n)) as -> by lia. done.
  - apply E3; lia.
Qed.

Section Record.
Context (sha256 : str → str).
Context (to_string : AuditEvent → option str) (from_str : str → option AuditEvent).
Context {codec : LineCodec to_string from_str}.
Context (sha256_bytes : ∀ s, sha256 s ≠ []).

(** [g] are the generations from the newest, [active] the active file, [hist]
    every line ever written. *)
Record holds (hist active : list str) (g : list (list str)) (s : AuditLog * dir) : Prop := {
  h_active : s.2 !! 0%nat = if decide (active = []) then None else Some (render active);
  h_gens : ∀ n, s.2 !! S n = render <$> g !! n;
  h_count : (length g <= max_files s.1)%nat;
  h_suffix : concat (rev g) ++ active `suffix_of` hist;
  h_full : concat (rev g) ++ active = hist ∨ (0 < max_size s.1 ∧ length g = max_files s.1);
  h_sizes : Forall (fun c => max_size s.1 <= len (render c)) g;
  h_written : Forall (fun l => ∃ ev, to_string ev = Some l) hist;
  h_chained : chained sha256 from_str hist;
  h_size : current_size s.1 = len (render active);
  h_hash : last_hash s.1 = match last hist with Some l => line_hash sha256 l | None => GENESIS_HASH end;
  h_recent : recent s.1 = lastn AUDIT_RECENT_CAP (omap from_str hist);
}.

Lemma concat_rev_cons (c : list str) g : concat (rev g ++ [c]) = concat (rev g) ++ c.
Proof. rewrite concat_app. simpl. by rewrite app_nil_r. Qed.

Lemma concat_rev_take k (g : list (list str)) c :
  concat (rev (take k g)) ++ c `suffix_of` concat (rev g) ++ c.
Proof.
  rewrite <- (take_drop k g) at 2. rewrite rev_app_distr, concat_app, <- app_assoc. by apply suffix_app_r.
Qed.

Lemma holds_rotate hist active g s :
  active ≠ [] → 0 < max_size s.1 <= len (render active) → holds hist active g s →
  ∃ g', holds hist [] g' (rotate io_fine s).
Proof.
  destruct s as [a d]. intros Hne Hbig [Ha Hg Hcnt Hsuf Hfull Hsz Hwr Hch _ Hh Hr].
  simpl in *. rewrite decide_False in Ha by done. destruct (max_files a) as [|k] eqn:Ek.
  - exists []. assert (g = []) as -> by (destruct g; simpl in *; [done|lia]).
    split; simpl; try done; rewrite ?Ek; try lia.
    + unfold remove_file. rewrite Ha. simpl. by rewrite lookup_delete_eq.
    + intros n. unfold remove_file. rewrite Ha. simpl. rewrite lookup_delete_ne by done. apply Hg.
    + apply suffix_nil.
  - exists (active :: take k g).
    assert (Hr1 : ∀ j, (remove_file io_fine (S k) d).2 !! j = if decide (j = S k) then None else d !! j).
    { intros j. unfold remove_file. destruct (d !! S k) eqn:E; simpl; case_decide; subst; try done.
      - by rewrite lookup_delete_eq.
      - by rewrite lookup_delete_ne. }
    set (d1 := shift_generations io_fine k (remove_file io_fine (S k) d).2).
    assert (Hd1 : ∀ j, d1 !! j = if decide (j = 0%nat) then d !! 0%nat else if decide (j = 1%nat) then None
        else if decide (j <= S k)%nat then d !! pred j else d !! j).
    { intros j. unfold d1. rewrite shift_fine by (rewrite Hr1; by rewrite decide_True).
      repeat case_decide; rewrite ?Hr1; rewrite ?decide_False by lia; done. }
    unfold rename. rewrite (Hd1 0%nat). simpl. rewrite Ha. simpl. split; simpl; try done; rewrite ?Ek.
    + by rewrite lookup_insert_ne, lookup_delete_eq by done.
    + intros [|n]; [by rewrite lookup_insert_eq|].
      rewrite lookup_insert_ne, lookup_delete_ne by lia. rewrite Hd1. simpl.
      destruct (decide (S n <= k)%nat) as [Hn|Hn].
      * rewrite decide_True by lia. rewrite Hg. f_equal. by rewrite lookup_take_lt by lia.
      * rewrite decide_False by lia. rewrite lookup_take_ge by lia. rewrite Hg.
        rewrite lookup_ge_None_2; [done|lia].
    + rewrite length_take. lia.
    + rewrite app_nil_r, concat_rev_cons. etrans; [apply concat_rev_take|done].
    + rewrite app_nil_r, concat_rev_cons, length_take.
      destruct (decide (length g <= k)%nat); [|right; split; simpl; lia]. rewrite take_ge by done.
      destruct Hfull; [by left|lia].
    + constructor; [apply Hbig|]. by apply Forall_take.
Qed.

Lemma len_render_nonneg ls : 0 <= len (render ls).
Proof. apply len_nonneg. Qed.

Lemma render_snoc ls l : render ls ++ l ++ [nl] = render (ls ++ [l]).
Proof. rewrite render_app. unfold render at 3. simpl. by rewrite app_nil_r. Qed.

Lemma holds_record hist active g s now ts e ac ip org det :
  (∀ ev, is_Some (to_string ev)) → holds hist active g s →
  ∃ line active' g' prev,
    from_str line = Some {| ev_ts := now; ev_timestamp := ts; ev_event := e; ev_actor := ac;
                            ev_actor_ip := ip; ev_org_id := org; ev_details := det; ev_prev := prev |}
    ∧ let s' := record sha256 to_string io_fine now ts e ac ip org det s in
      holds (hist ++ [line]) active' g' s' ∧ max_size s'.1 = max_size s.1 ∧ max_files s'.1 = max_files s.1.
Proof.
  destruct s as [a d]. intros Htot [Ha Hg Hcnt Hsuf Hfull Hsz Hwr Hch Hcs Hh Hr].
  cbn [fst snd] in Ha, Hg, Hcnt, Hsuf, Hfull, Hsz, Hcs, Hh, Hr.
  unfold record. set (ev := {| ev_ts := now; ev_prev := last_hash a |}). destruct (Htot ev) as [line El].
  pose proof (codec_parses ev line El) as Hp. rewrite El. cbn [append_line io_append io_fine].
  cbv zeta. match goal with |- context [rotate _ ?x] => set (s1 := x) end.
  assert (H1 : holds (hist ++ [line]) (active ++ [line]) g s1).
  { assert (Hold : default [] (d !! 0%nat) = render active) by (rewrite Ha; case_decide; by subst).
    assert (Hprev : last_hash a ≠ []).
    { rewrite Hh. destruct (last hist); [by apply line_hash_nonempty|done]. }
    pose proof (codec_one_line ev line El).
    split; unfold s1; cbn [fst snd recent max_size max_files current_size last_hash]; try done.
    - rewrite decide_False by by destruct active. by rewrite lookup_insert_eq, Hold, render_snoc.
    - intros n. by rewrite lookup_insert_ne.
    - rewrite app_assoc. by apply suffix_app.
    - destruct Hfull as [<-|]; [left; by rewrite app_assoc|by right].
    - apply Forall_app; split; [done|]. apply Forall_singleton. by exists ev.
    - apply chained_snoc; [done| |].
      + split_and!; [exists ev; by split|tauto|tauto|by eapply codec_solid|by eapply codec_utf8].
      + intros p Hl. exists ev. split; [done|]. simpl. by rewrite Hh, Hl.
    - rewrite <- render_snoc, !len_app, Hcs. change (len [nl]) with 1. lia.
    - by rewrite last_snoc.
    - rewrite Hr, push_recent_lastn, omap_app. simpl. by rewrite Hp. }
  destruct (_ && _) eqn:Erot.
  - apply andb_prop in Erot as [E1 E2]. apply Z.ltb_lt in E1. apply Z.leb_le in E2.
    destruct (holds_rotate (hist ++ [line]) (active ++ [line]) g s1) as (g' & H2);
      [by destruct active| |exact H1|].
    { split; [exact E1|]. rewrite <- (h_size _ _ _ _ H1). exact E2. }
    exists line, [], g', (last_hash a). split; [exact Hp|]. split; [exact H2|].
    unfold s1, rotate. cbn [max_files]. destruct (max_files a) eqn:Ef; [by split; [|rewrite <- Ef]|].
    by destruct (rename _ _ _ _) as [[] ?]; split; simpl; rewrite ?Ef.
  - exists line, (active ++ [line]), g, (last_hash a). by split.
Qed.

(** The events [evs], recorded one after the other; their [prev] is ignored. *)
Definition record_all (evs : list AuditEvent) (s : AuditLog * dir) : AuditLog * dir :=
  fold_left (fun s ev => record sha256 to_string io_fine (ev_ts ev) (ev_timestamp ev) (ev_event ev)
                           (ev_actor ev) (ev_actor_ip ev) (ev_org_id ev) (ev_details ev) s) evs s.

Definition without_prev (ev : AuditEvent) : AuditEvent :=
  {| ev_ts := ev_ts ev; ev_timestamp := ev_timestamp ev; ev_event := ev_event ev; ev_actor := ev_actor ev;
     ev_actor_ip := ev_actor_ip ev; ev_org_id := ev_org_id ev; ev_details := ev_details ev; ev_prev := [] |}.

Lemma holds_record_all evs hist active g s :
  (∀ ev, is_Some (to_string ev)) → holds hist active g s →
  ∃ hist' active' g', holds (hist ++ hist') active' g' (record_all evs s)
    ∧ without_prev <$> omap from_str hist' = without_prev <$> evs
    ∧ max_size (record_all evs s).1 = max_size s.1 ∧ max_files (record_all evs s).1 = max_files s.1.
Proof.
  intros Htot. revert hist active g s. induction evs as [|ev evs IH]; intros hist active g s H.
  { exists [], active, g. by rewrite app_nil_r. }
  unfold record_all. cbn [fold_left]. fold (record_all evs).
  destruct (holds_record hist active g s (ev_ts ev) (ev_timestamp ev) (ev_event ev) (ev_actor ev)
              (ev_actor_ip ev) (ev_org_id ev) (ev_details ev) Htot H)
    as (line & active1 & g1 & prev & Hp & H1 & Hs1 & Hf1). cbv zeta in H1.
  destruct (IH _ _ _ _ H1) as (hist' & active' & g' & H' & Hev & Hs & Hf).
  exists (line :: hist'), active', g'. rewrite <- app_assoc in H'. simpl in H'.
  split_and!; [exact H'| |etrans; eauto|etrans; eauto].
  simpl. rewrite Hp. simpl. by f_equal.
Qed.

Lemma holds_init size files : holds [] [] [] (load sha256 from_str io_fine ∅ size files, ∅).
Proof. split; simpl; try done; try lia; by constructor || (repeat constructor) || by left. Qed.

Lemma holds_generations hist active g s : holds hist active g s → generations s.2 = seq 1 (length g).
Proof.
  intros H. destruct (generations_fuel (S (size s.2)) s.2) as (k & Egen & Hin & Hend); [lia|].
  unfold generations. rewrite Egen. f_equal.
  eapply (generations_unique _ _ s.2); [exact Hin|exact Hend| |].
  - intros [|i] Hi; [lia|]. rewrite (h_gens _ _ _ _ H). destruct (g !! i) eqn:E; [done|].
    apply lookup_ge_None in E. lia.
  - by rewrite (h_gens _ _ _ _ H), lookup_ge_None_2.
Qed.

Lemma holds_files hist active g s : holds hist active g s → map_Forall (fun _ raw => file_ok sha256 from_str raw) s.2.
Proof.
  intros H. pose proof (h_chained _ _ _ _ H) as Hch. destruct (h_suffix _ _ _ _ H) as [x Hx].
  rewrite Hx in Hch. apply chained_app in Hch as [_ Hch]. apply chained_app in Hch as [Hg Ha].
  intros [|n] raw E.
  - rewrite (h_active _ _ _ _ H) in E. case_decide; simplify_eq. by exists active.
  - rewrite (h_gens _ _ _ _ H) in E. destruct (g !! n) as [c|] eqn:Ec; simplify_eq/=. exists c. split; [done|].
    rewrite <- (take_drop_middle g n c Ec), rev_app_distr, concat_app in Hg. simpl in Hg.
    rewrite concat_app in Hg. apply chained_app in Hg as [Hg _]. apply chained_app in Hg as [_ Hg].
    simpl in Hg. by rewrite app_nil_r in Hg.
Qed.

Lemma holds_bytes hist active g s :
  holds hist active g s → Z.of_nat (length g) * max_size s.1 <= len (render (concat (rev g) ++ active)).
Proof.
  intros H. pose proof (h_sizes _ _ _ _ H) as Hs. rewrite render_app, len_app.
  pose proof (len_nonneg (render active)).
  enough (Z.of_nat (length g) * max_size s.1 <= len (render (concat (rev g)))) by lia. clear H.
  induction Hs as [|c g Hc _ IH]; [by vm_compute|].
  cbn [rev]. rewrite concat_rev_cons, render_app, len_app. cbn [length]. lia.
Qed.

(** The lines the search walks over are the retained ones, newest first. *)
Lemma holds_walk hist active g s :
  holds hist active g s →
  concat (file_lines io_fine s.2 <$> 0%nat :: generations s.2) = rev (concat (rev g) ++ active).
Proof.
  intros H. destruct (h_chained _ _ _ _ H) as [Hall _].
  assert (Hkept : Forall (sealed from_str) (concat (rev g) ++ active)).
  { destruct (h_suffix _ _ _ _ H) as [x ->]. by apply Forall_app in Hall as [_ ?]. }
  apply Forall_app in Hkept as [Hg Hact].
  assert (Hfl : ∀ n c, Forall (sealed from_str) c → s.2 !! n = Some (render c) → file_lines io_fine s.2 n = rev c).
  { intros n c Hc E. unfold file_lines, read_file. cbn [io_read io_fine]. by rewrite (read_sealed from_str c), (lines_sealed from_str). }
  rewrite (holds_generations _ _ _ _ H). simpl. rewrite rev_app_distr. f_equal.
  - pose proof (h_active _ _ _ _ H) as Ha. case_decide; [|by apply Hfl].
    subst active. unfold file_lines, read_file, read_to_string. cbn [io_read io_fine]. by rewrite Ha.
  - assert (Hl : ∀ n c, g !! n = Some c → file_lines io_fine s.2 (S n) = rev c).
    { intros n c E. apply Hfl; [|by rewrite (h_gens _ _ _ _ H), E].
      apply Forall_forall. intros x Hx. eapply Forall_forall; [exact Hg|].
      apply list_elem_of_In, in_concat. exists c. split; [|by apply list_elem_of_In].
      apply -> in_rev. apply list_elem_of_In. by eapply list_elem_of_lookup_2. }
    assert (Hgen : ∀ m gs, (∀ n c, gs !! n = Some c → file_lines io_fine s.2 (m + n) = rev c) →
              concat (file_lines io_fine s.2 <$> seq m (length gs)) = rev (concat (rev gs))).
    { intros m gs. revert m. induction gs as [|c gs IH]; intros m Hgs; [done|]. simpl.
      rewrite concat_app, rev_app_distr. simpl. rewrite app_nil_r. f_equal.
      - rewrite <- (Hgs 0%nat c eq_refl). by rewrite Nat.add_0_r.
      - apply IH. intros n c' E. rewrite <- (Hgs (S n) c' E). f_equal. lia. }
    apply Hgen. intros n c E. by apply Hl.
Qed.

End Record.

(** ** What the log promises *)

Lemma rev_reverse {A} (l : list A) : rev l = reverse l.
Proof. apply rev_alt. Qed.

Lemma omap_rev {A B} (f : A → option B) l : omap f (rev l) = rev (omap f l).
Proof. induction l as [|x l IH]; [done|]. simpl. rewrite omap_app, IH. cbn. destruct (f x); cbn; [done|by rewrite app_nil_r]. Qed.

(** C5: Whatever is recorded, pruned, reconfigured or reopened, in any order and
    whatever file operations fail, short of tearing a line and of reading the active file
    when the log is opened, every file of the log verifies, no check reports a broken line
    and the memory of recent events is bounded. *)
Theorem audit_chain_invariant sha256 to_string from_str ops size files :
  LineCodec to_string from_str → (∀ s, sha256 s ≠ []) → (∀ s, line_hash sha256 s ≠ GENESIS_HASH) →
  Forall op_whole ops →
  let s := exec_all sha256 to_string from_str ops (load sha256 from_str io_fine ∅ size files, ∅) in
  (∀ io, verify sha256 from_str io s.2 = [])
  ∧ (∀ n raw, s.2 !! n = Some raw → verify_chain sha256 from_str io_fine s.2 n = Ok None)
  ∧ (length (recent s.1) <= AUDIT_RECENT_CAP)%nat.
Proof.
  intros Hc Hb Hg Hops s.
  assert (H : log_ok sha256 from_str s).
  { apply exec_all_ok; [done..|]. apply load_ok; [done..|]. apply map_Forall_empty. }
  split_and!; [intros io; apply verify_ok, H| |apply H].
  intros n raw E. eapply verify_chain_ok; [done| |exact E]. by apply (ok_files _ _ _ H n).
Qed.

(** Tampering shows. Where no two lines have the same digest, a file that
    verifies, carries a hash on every line and ends with the line the active
    file ends with can differ from it only by leading lines: nothing inside
    was altered, reordered, inserted or removed. *)
Theorem audit_tamper_evident sha256 to_string from_str ops size files d' raw raw' :
  LineCodec to_string from_str → (∀ s, sha256 s ≠ []) → (∀ s, line_hash sha256 s ≠ GENESIS_HASH) →
  (∀ x y, sha256 x = sha256 y → x = y) →
  Forall op_whole ops →
  let s := exec_all sha256 to_string from_str ops (load sha256 from_str io_fine ∅ size files, ∅) in
  s.2 !! 0%nat = Some raw →
  verify_chain sha256 from_str io_fine d' 0 = Ok None → read_to_string d' 0 = Some raw' →
  Forall (fun l => ∀ ev, from_str l = Some ev → ev_prev ev ≠ []) (solid_lines raw') →
  last_line raw' = last_line raw →
  solid_lines raw' `suffix_of` solid_lines raw ∨ solid_lines raw `suffix_of` solid_lines raw'.
Proof.
  intros Hc Hb Hg Hinj Hops s Hraw Hv Hread Hprev Hlast.
  assert (H : log_ok sha256 from_str s).
  { apply exec_all_ok; [done..|]. apply load_ok; [done..|]. apply map_Forall_empty. }
  destruct (ok_files _ _ _ H _ _ Hraw) as (ls & -> & Hall & Hs).
  unfold last_line in Hlast. rewrite (solid_sealed from_str ls) in * by done.
  unfold verify_chain, read_file in Hv. cbn [io_read io_fine] in Hv. rewrite Hread in Hv. injection Hv as Hv.
  destruct (verify_loop_links _ _ _ _ _ Hv Hprev) as [Hs' _].
  rewrite !suffix_prefix_reverse, <- !rev_reverse.
  apply (chain_determined sha256 from_str); [done|by apply Sorted_rev|by apply Sorted_rev|].
  by rewrite !rev_reverse, !head_reverse.
Qed.

(** C25: The log implements the list of everything recorded. When the file system
    works, a search answers the matching events of a suffix of that history,
    newest first and at most [limit]; the events in memory are the last 200;
    every chain verifies; at most [max_files] generations exist, and events are
    given up only once the generations hold [max_size] bytes each. *)
Theorem audit_log_refines sha256 to_string from_str evs bytes files :
  LineCodec to_string from_str → (∀ s, sha256 s ≠ []) → (∀ s, line_hash sha256 s ≠ GENESIS_HASH) →
  (∀ ev, is_Some (to_string ev)) →
  let s := record_all sha256 to_string evs (load sha256 from_str io_fine ∅ bytes files, ∅) in
  ∃ hist kept,
    without_prev <$> hist = without_prev <$> evs
    ∧ kept `suffix_of` hist
    ∧ (∀ lowercase f limit, search from_str lowercase io_fine s.2 f limit
         = take limit (filter (fun ev => filter_matches lowercase f ev = true) (rev kept)))
    ∧ recent s.1 = lastn AUDIT_RECENT_CAP hist
    ∧ verify sha256 from_str io_fine s.2 = []
    ∧ (length (generations s.2) <= files)%nat
    ∧ (kept = hist ∨ 0 < bytes ∧ Z.of_nat files * bytes <= len (render (omap to_string kept))).
Proof.
  intros Hc Hb Hg Htot s.
  destruct (holds_record_all sha256 to_string from_str Hb evs [] [] [] _ Htot
              (holds_init sha256 to_string from_str bytes files))
    as (hist & active & g & H & Hev & Hms & Hmf). fold s in H, Hms, Hmf. simpl in H.
  change (max_files s.1 = files) in Hmf. change (max_size s.1 = bytes) in Hms.
  set (keptl := concat (rev g) ++ active). pose proof (holds_walk _ _ _ _ _ _ _ H) as Hwalk. fold keptl in Hwalk.
  exists (omap from_str hist), (omap from_str keptl).
  assert (Hback : ∀ l, Forall (fun l => ∃ ev, to_string ev = Some l) l → omap to_string (omap from_str l) = l).
  { induction 1 as [|l ls (ev & El) _ IH]; [done|]. cbn. rewrite (codec_parses ev l El). cbn. rewrite El. by f_equal. }
  destruct (h_suffix _ _ _ _ _ _ _ H) as [x Hx]. fold keptl in Hx.
  split_and!.
  - exact Hev.
  - exists (omap from_str x). by rewrite Hx, omap_app.
  - intros lowercase f limit. unfold search. rewrite search_files_spec by (simpl; lia).
    by rewrite Hwalk, app_nil_l, omap_rev.
  - apply H.
  - eapply verify_ok, holds_files, H.
  - rewrite (holds_generations _ _ _ _ _ _ _ H), length_seq, <- Hmf. apply H.
  - destruct (h_full _ _ _ _ _ _ _ H) as [E|[E1 E2]]; [left; by unfold keptl; rewrite E|right].
    rewrite Hms in E1. split; [done|]. rewrite Hback.
    + rewrite <- Hmf, <- E2, <- Hms. apply (holds_bytes _ _ _ _ _ _ _ H).
    + pose proof (h_written _ _ _ _ _ _ _ H) as Hw. rewrite Hx in Hw. by apply Forall_app in Hw as [_ ?].
Qed.

(** The walks over the rotated generations end: with more rounds than there
    are files, the walk visits the generations from 1 up to the first missing
    one, and more rounds change nothing. *)
Theorem audit_walk_terminates (d : dir) fuel :
  (size d < fuel)%nat →
  generations_from fuel d 1 = generations d
  ∧ ∃ k, generations d = seq 1 k ∧ (∀ i, (1 <= i <= k)%nat → is_Some (d !! i)) ∧ d !! S k = None.
Proof.
  intros Hf. destruct (generations_fuel fuel d Hf) as (k & E & Hin & Hend).
  destruct (generations_fuel (S (size d)) d) as (k' & E' & Hin' & Hend'); [lia|].
  assert (k = k') as -> by by eapply generations_unique.
  unfold generations. rewrite E, E'. split; [done|]. by exists k'.
Qed.

(** Lines whose events are in order of time. *)
Definition in_order (from_str : str → option AuditEvent) (ls : list str) : Prop :=
  ∃ evs, Forall2 (fun l ev => from_str l = Some ev) ls evs ∧ StronglySorted (fun a b => ev_ts a <= ev_ts b) evs.

Lemma prune_prefix from_str cutoff ls :
  in_order from_str ls →
  drop (default (length ls) (find_index (keeps from_str cutoff) ls)) ls
  = filter (fun l => keeps from_str cutoff l = true) ls.
Proof.
  intros (evs & Hf & Hs). induction Hf as [|l ev ls evs Hl Hf IH]; [done|].
  apply StronglySorted_inv in Hs as [Hs Hall]. cbn [find_index].
  rewrite filter_cons. destruct (keeps from_str cutoff l) eqn:E.
  - rewrite decide_True by done. simpl. f_equal. symmetry. apply filter_all.
    unfold keeps in E. rewrite Hl in E. apply Z.leb_le in E. clear IH Hs Hl.
    induction Hf as [|m e ls evs Hm _ IH]; [done|]. inversion_clear Hall as [|? ? Hle Hall'].
    constructor; [unfold keeps; rewrite Hm; apply Z.leb_le; lia|by apply IH].
  - rewrite decide_False by done. rewrite <- IH by done.
    by destruct (find_index (keeps from_str cutoff) ls).
Qed.

(** Retention keeps exactly what is young enough: of an active file whose
    events are in order of time, the lines at or after the cutoff stay, in
    order, the others go and are counted, whatever happens to the rotated
    generations; when the rewrite fails nothing changes. *)
Theorem prune_keeps_exactly from_str io cutoff a d ls :
  io_read io 0 = true → d !! 0%nat = Some (render ls) → Forall (sealed from_str) ls → in_order from_str ls →
  let '((a', d'), removed) := prune_older_than from_str io cutoff (a, d) in
  let young := filter (fun l => keeps from_str cutoff l = true) ls in
  d' !! 0%nat = Some (render (if io_write io then young else ls))
  ∧ last_hash a' = last_hash a
  ∧ (io_write io = true → (length ls - length young <= removed)%nat)
  ∧ (∀ n, (0 < n)%nat → d' !! n = d !! n ∨ d' !! n = None).
Proof.
  intros Hio Hd Hs Ho. unfold prune_older_than.
  destruct (prune_generations_sub from_str io cutoff (seq 1 (max_files a `max` 1)) d 0) as [Hsub H0].
  { rewrite elem_of_seq. lia. }
  destruct (prune_generations _ _ _ _ _ _) as [d1 removed]. simpl in Hsub, H0. rewrite Hd in H0.
  unfold read_file. rewrite Hio, (read_sealed from_str ls) by done. cbv zeta. rewrite (solid_sealed from_str ls) by done.
  pose proof (prune_prefix from_str cutoff ls Ho) as Hpre.
  set (k := default _ _) in *. set (young := filter _ ls) in *.
  assert (Hgen : ∀ n, d1 !! n = d !! n ∨ d1 !! n = None).
  { intros n. destruct (d1 !! n) as [raw|] eqn:E; [left|by right]. symmetry. by eapply lookup_weaken. }
  assert (Hlen : length young = (length ls - k)%nat) by by rewrite <- Hpre, length_drop.
  destruct (Nat.ltb_spec 0 k) as [Hk|Hk].
  - destruct (io_write io); [|by split_and!; [rewrite H0| |by intros|auto]].
    split_and!; simpl; [|done|lia|].
    + rewrite lookup_insert_eq, Hpre, kept_text_render; [done|].
      apply Forall_filter. eapply Forall_impl; [exact Hs|]. intros l Hl. apply Hl.
    + intros n Hn. rewrite lookup_insert_ne by lia. auto.
  - assert (k = 0)%nat as E by lia. rewrite E in *. simpl in Hpre. split_and!; [|done|lia|auto].
    rewrite H0. by rewrite <- Hpre; destruct (io_write io).
Qed.

(** ** A concrete codec *)

Definition ev_tuple (e : AuditEvent) :=
  (ev_ts e, ev_timestamp e, ev_event e, ev_actor e, ev_actor_ip e, ev_org_id e, ev_details e, ev_prev e).
Definition tuple_ev (t : Z * str * str * str * str * option str * str * str) : AuditEvent :=
  let '(a, b, c, d, e, f, g, h) := t in
  {| ev_ts := a; ev_timestamp := b; ev_event := c; ev_actor := d; ev_actor_ip := e; ev_org_id := f;
     ev_details := g; ev_prev := h |}.

#[export] Instance AuditEvent_countable : Countable AuditEvent.
Proof. refine (inj_countable' ev_tuple tuple_ev _). by intros []. Defined.

Fixpoint bits (p : positive) : str :=
  match p with xH => ["1"%char] | xO p => "0"%char :: bits p | xI p => "1"%char :: bits p end.
Fixpoint unbits (s : str) : option positive :=
  match s with
  | [] => None
  | [c] => if bool_decide (c = "1"%char) then Some xH else None
  | c :: s => if bool_decide (c = "1"%char) then xI <$> unbits s else xO <$> unbits s
  end.

Definition bits_to_string (ev : AuditEvent) : option str := Some (bits (encode ev)).
Definition bits_from_str (s : str) : option AuditEvent := unbits s ≫= decode.

Lemma unbits_bits p : unbits (bits p) = Some p.
Proof.
  induction p as [p IH|p IH|]; [| |done]; simpl; destruct (bits p) as [|c r]; [done|by rewrite IH|done|by rewrite IH].
Qed.

Lemma bits_graphic p : Forall (fun a => a = "0"%char ∨ a = "1"%char) (bits p).
Proof. induction p; simpl; apply Forall_cons; split; auto. Qed.

#[export] Instance bits_codec : LineCodec bits_to_string bits_from_str.
Proof.
  assert (Hb : ∀ p (P : ascii → Prop), P "0"%char → P "1"%char → Forall P (bits p)).
  { intros p P H0 H1. eapply Forall_impl; [apply bits_graphic|]. by intros a [->| ->]. }
  split; intros ev line [= <-].
  - unfold bits_from_str. rewrite unbits_bits. exact (decode_encode ev).
  - assert (H : Forall (fun a => a ≠ nl ∧ a ≠ cr) (bits (encode ev))) by by apply Hb.
    rewrite Forall_forall in H. by split; intros Hin; apply H in Hin as [? ?].
  - rewrite trim_graphic by by apply Hb. by case (encode ev).
  - by apply utf8_valid_ascii, Hb.
Qed.

(** A digest that tells any two texts apart. *)
Definition id_digest (s : str) : str := chr 1 :: s.

Lemma id_digest_genesis s : line_hash id_digest s ≠ GENESIS_HASH.
Proof. done. Qed.

(** ** Witnesses and examples *)

Definition op_at (io : Io) (now : Z) (event : string) : Op :=
  ORecord io now (bs "t") (bs event) (bs "aperio") (bs "::1") None [].

Definition log_of (ops : list Op) : AuditLog * dir :=
  exec_all id_digest bits_to_string bits_from_str ops
    (load id_digest bits_from_str io_fine ∅ 1000 2, ∅).

Definition two_ops : list Op := [op_at io_fine 7 "login"; op_at io_fine 9 "logout"].

Lemma audit_chain_invariant_witness : verify id_digest bits_from_str io_fine (log_of two_ops).2 = [].
Proof.
  apply (audit_chain_invariant id_digest bits_to_string bits_from_str two_ops 1000 2).
  - exact bits_codec.
  - done.
  - exact id_digest_genesis.
  - by repeat constructor.
Defined.

(** One event and nothing rotated, so that the second file can be the first. *)
Definition one_op : list Op := [op_at io_fine 7 "login"].
Definition one_log : AuditLog * dir :=
  exec_all id_digest bits_to_string bits_from_str one_op (load id_digest bits_from_str io_fine ∅ 0 0, ∅).
Definition one_raw : str := default [] (one_log.2 !! 0%nat).

Lemma audit_tamper_evident_witness :
  solid_lines one_raw `suffix_of` solid_lines one_raw ∨ solid_lines one_raw `suffix_of` solid_lines one_raw.
Proof.
  apply (audit_tamper_evident id_digest bits_to_string bits_from_str one_op 0 0 one_log.2 one_raw one_raw).
  - exact bits_codec.
  - done.
  - exact id_digest_genesis.
  - intros x y [= ->]. done.
  - by repeat constructor.
  - vm_compute. reflexivity.
  - vm_compute. reflexivity.
  - vm_compute. reflexivity.
  - assert (E : solid_lines one_raw = [take (length one_raw - 1) one_raw]) by (vm_compute; reflexivity).
    rewrite E. apply Forall_singleton. vm_compute. intros ev [= <-]. done.
  - reflexivity.
Defined.

Lemma audit_log_refines_witness :
  let s := record_all id_digest bits_to_string
             [{| ev_ts := 1; ev_timestamp := []; ev_event := bs "login"; ev_actor := bs "a"; ev_actor_ip := [];
                 ev_org_id := None; ev_details := []; ev_prev := [] |}]
             (load id_digest bits_from_str io_fine ∅ 0 0, ∅) in
  ∃ hist, length hist = 1%nat ∧ recent s.1 = lastn AUDIT_RECENT_CAP hist.
Proof.
  intros s.
  destruct (audit_log_refines id_digest bits_to_string bits_from_str
              [{| ev_ts := 1; ev_timestamp := []; ev_event := bs "login"; ev_actor := bs "a"; ev_actor_ip := [];
                  ev_org_id := None; ev_details := []; ev_prev := [] |}] 0 0)
    as (hist & kept & H1 & _ & _ & H2 & _); [exact bits_codec|done|exact id_digest_genesis|intros ev; by eexists|].
  exists hist. split; [|exact H2]. apply (f_equal length) in H1. by rewrite !length_fmap in H1.
Defined.

Lemma audit_walk_terminates_witness :
  generations_from 5 {[0%nat := bs "x"; 1%nat := bs "y"; 3%nat := bs "z"]} 1 = [1%nat].
Proof.
  rewrite (proj1 (audit_walk_terminates {[0%nat := bs "x"; 1%nat := bs "y"; 3%nat := bs "z"]} 5
                    ltac:(vm_compute; repeat constructor))).
  vm_compute. reflexivity.
Defined.

Lemma prune_keeps_exactly_witness :
  ∃ ls, length ls = 1%nat ∧
    (prune_older_than bits_from_str io_fine 8 one_log).1.2 !! 0%nat
    = Some (render (filter (fun l => keeps bits_from_str 8 l = true) ls)).
Proof.
  exists [take (length one_raw - 1) one_raw]. split; [reflexivity|].
  pose proof (prune_keeps_exactly bits_from_str io_fine 8 one_log.1 one_log.2 [take (length one_raw - 1) one_raw]) as H.
  change one_log with (one_log.1, one_log.2).
  destruct (prune_older_than bits_from_str io_fine 8 (one_log.1, one_log.2)) as [[a d] n].
  apply H.
  - reflexivity.
  - vm_compute. reflexivity.
  - apply Forall_singleton. unfold sealed. split_and!; [|by apply (bool_decide_unpack _); vm_compute..|by vm_compute].
    eexists. split; [vm_compute; reflexivity|done].
  - eexists. split; [repeat constructor; vm_compute; reflexivity|]. repeat constructor.
Defined.

(** A short digest, to keep the examples small. *)
Definition tiny (s : str) : str := [chr (len s mod 255 + 1)].
Definition run (ops : list Op) : AuditLog * dir :=
  exec_all tiny bits_to_string bits_from_str ops (load tiny bits_from_str io_fine ∅ 1 3, ∅).
Definition torn : Io :=
  {| io_append := WriteFailed 3; io_remove := fun _ => true; io_rename := fun _ => true; io_write := true; io_read := fun _ => true; io_stat := true |}.

(** A write that fails half way leaves a fragment with no newline: the next
    event is glued to it, is lost to searches, and the file reads as tampered
    with. *)
Example torn_write_breaks_chain :
  verify tiny bits_from_str io_fine (run [OSetRotation 0 0; op_at torn 1 "a"; op_at io_fine 2 "b"]).2 = [(0%nat, 1%nat)]
  ∧ search bits_from_str lower io_fine (run [OSetRotation 0 0; op_at torn 1 "a"; op_at io_fine 2 "b"]).2
      {| q_event := None; q_actor := None; q_contains := None; q_from_ts := None; q_to_ts := None |} 10 = [].
Proof. vm_compute. done. Qed.

(** A log that is opened while its file cannot be read starts a chain of its own, and the
    next line breaks the one in the file. *)
Example unreadable_log_breaks_chain :
  let deaf := {| io_append := Appended; io_remove := fun _ => true; io_rename := fun _ => true; io_write := true;
                 io_read := fun _ => false; io_stat := true |} in
  verify tiny bits_from_str io_fine
    (run [OSetRotation 0 0; op_at io_fine 1 "a"; ORestart deaf 0 0; op_at io_fine 2 "b"]).2 = [(0%nat, 2%nat)].
Proof. vm_compute. done. Qed.

(** Lines with an empty [prev] are taken for lines older than the chain,
    wherever they stand: blanking it hides any edit. *)
Example blank_prev_hides evs :
  Forall (fun ev => ev_prev ev = []) evs →
  verify_loop tiny bits_from_str 0 None (omap bits_to_string evs) = None.
Proof.
  generalize 0%nat, (@None str). induction evs as [|ev evs IH]; intros n p H; [done|].
  inversion_clear H as [|? ? Hp H']. cbn. unfold bits_from_str at 1. rewrite unbits_bits. cbn -[decode encode].
  rewrite decode_encode, Hp. simpl. by apply IH.
Qed.

(** Lowering [max_files] strands the generations above it. *)
Example lowered_max_files :
  generations (run (op_at io_fine 1 "a" :: op_at io_fine 2 "b" :: op_at io_fine 3 "c" :: OSetRotation 1 1
                    :: (op_at io_fine 4 "d" :: op_at io_fine 5 "e" :: op_at io_fine 6 "f" :: []))).2 = [1; 2; 3]%nat.
Proof. vm_compute. done. Qed.

(** When every line has expired no newest line survives: reopened, the log
    starts over as a fresh one. *)
Example expired_log_restarts :
  let s := run [OSetRotation 0 0; op_at io_fine 1 "a"; OPrune io_fine 9] in
  last_hash s.1 ≠ GENESIS_HASH ∧ last_hash (exec tiny bits_to_string bits_from_str (ORestart io_fine 0 0) s).1 = GENESIS_HASH.
Proof. vm_compute. done. Qed.
