(* ===== verification/SiteRules.v ===== *)
(** What a site may say, one piece at a time: header edits
    ([aperio-server/src/headers.rs]), firewall rules ([sites/waf.rs]) and
    maintenance windows ([sites/maintenance.rs]), over the written forms of
    [aperio-config/src/sites.rs] and [client.rs].

    Regular expressions, the time zone database and the clock arithmetic of
    [chrono] are parameters. A date is a day number, a time of day a number that
    orders as the time does. Error texts are the cases that produce them. *)

From S2P Require Import Prelude.

(** ** Header edits *)

Module Headers.

(** [add] is a map: its pairs in the order of its iteration. *)
Record HeaderDirectives : Type := { d_add : list (str * str); d_remove : list str }.

Record HeaderRules : Type := { r_request : option HeaderDirectives; r_response : option HeaderDirectives }.

(** [t_remove] is the set of its elements. *)
Record HeaderTransform : Type := { t_add : list (str * str); t_remove : list str }.

Definition no_edits : HeaderTransform := {| t_add := []; t_remove := [] |}.

Definition compile_transform (directives : option HeaderDirectives) : HeaderTransform :=
  match directives with
  | None => no_edits
  | Some d => {| t_add := d_add d;
                 t_remove := (lower <$> d_remove d) ++ ((fun kv => lower kv.1) <$> d_add d) |}
  end.

Definition transform_is_empty (t : HeaderTransform) : bool :=
  bool_decide (t_add t = []) && bool_decide (t_remove t = []).

Definition apply_transform (t : HeaderTransform) (hs : headers) : headers :=
  if transform_is_empty t then hs
  else filter (fun kv => lower kv.1 ∉ t_remove t) hs ++ t_add t.

Record HeaderTransforms : Type := { ts_request : HeaderTransform; ts_response : HeaderTransform }.

Definition compile_transforms (rules : HeaderRules) : HeaderTransforms :=
  {| ts_request := compile_transform (r_request rules); ts_response := compile_transform (r_response rules) |}.

(** *** What an edit does to one name *)

(** The values a header list gives a name. *)
Definition values (name : str) (hs : headers) : list str :=
  (filter (fun kv => lower kv.1 = lower name) hs).*2.

(** An edit that says something about the name. *)
Definition mentions (name : str) (t : HeaderTransform) : bool := bool_decide (lower name ∈ t_remove t).

(** As the compiler makes them: whatever is added is removed first. *)
Definition transform_ok (t : HeaderTransform) : Prop := Forall (fun kv => lower kv.1 ∈ t_remove t) (t_add t).

Lemma compile_transform_ok d : transform_ok (compile_transform d).
Proof.
  destruct d as [d|]; [|constructor]. apply Forall_forall. intros kv Hkv. simpl.
  apply elem_of_app. right. apply list_elem_of_fmap. by exists kv.
Qed.

Lemma values_app name a b : values name (a ++ b) = values name a ++ values name b.
Proof. unfold values. by rewrite filter_app, fmap_app. Qed.

Lemma values_strip name (removed : list str) hs :
  values name (filter (fun kv => lower kv.1 ∉ removed) hs)
  = if bool_decide (lower name ∈ removed) then [] else values name hs.
Proof.
  unfold values. rewrite list_filter_filter. case_bool_decide as Hin.
  - induction hs as [|kv hs IH]; [done|]. rewrite filter_cons, decide_False; [done|].
    intros [E Hn]. by rewrite E in Hn.
  - f_equal. apply list_filter_iff. intros kv. split; [by intros [? ?]|]. intros E. split; [done|by rewrite E].
Qed.

Lemma values_added name t : transform_ok t → mentions name t = false → values name (t_add t) = [].
Proof.
  unfold transform_ok, mentions. intros Hok Hm. to_prop. unfold values.
  induction Hok as [|kv l Hkv _ IH]; [done|]. rewrite filter_cons, decide_False; [done|]. congruence.
Qed.

(** After an edit a name it mentions has the values it adds; the others keep
    theirs. *)
Lemma values_apply name t hs :
  transform_ok t →
  values name (apply_transform t hs) = if mentions name t then values name (t_add t) else values name hs.
Proof.
  intros Hok. unfold apply_transform. destruct (transform_is_empty t) eqn:Ee.
  - unfold transform_is_empty in Ee. apply andb_prop in Ee as [_ Er]. to_prop.
    unfold mentions. rewrite Er. by rewrite bool_decide_eq_false_2 by set_solver.
  - rewrite values_app, values_strip. change (bool_decide (lower name ∈ t_remove t)) with (mentions name t).
    destruct (mentions name t) eqn:Em; [done|]. by rewrite (values_added name t), app_nil_r.
Qed.

(** Editing twice is editing once. *)
Lemma apply_transform_idem t hs :
  transform_ok t → apply_transform t (apply_transform t hs) = apply_transform t hs.
Proof.
  intros Hok. unfold apply_transform. destruct (transform_is_empty t); [done|].
  rewrite filter_app, list_filter_filter. f_equal.
  assert (filter (fun kv => lower kv.1 ∉ t_remove t) (t_add t) = []) as ->.
  { unfold transform_ok in Hok. revert Hok. generalize (t_remove t). intros r.
    induction 1 as [|kv l Hkv _ IH]; [done|]. rewrite filter_cons, decide_False; [done|]. by intros []. }
  rewrite app_nil_r. f_equal. apply list_filter_iff. tauto.
Qed.

End Headers.

(** ** Firewall rules *)

Module Waf.

Record WafHeaderMatch : Type := { h_name : str; h_regex : str }.

#[export] Instance WafHeaderMatch_eq : EqDecision WafHeaderMatch.
Proof. solve_decision. Defined.

(** A rule as written. *)
Record RawRule : Type := {
  raw_path : option str;
  raw_methods : option (list str);
  raw_header : option WafHeaderMatch;
  raw_max_body : option Z;
}.

Section Rules.
Context {Regex : Type} (regex_new : str → option Regex) (is_match : Regex → str → bool).

(** [desc] keeps what the description is formatted from, [desc_at] the place
    the rule was written at. *)
Record WafRule : Type := {
  w_path : option Regex;
  w_methods : option (list str);
  w_header : option (str * Regex);
  w_max_body : option Z;
  w_desc_path : option str;
  w_desc_at : nat;
  w_desc_site : str;
}.

Inductive waf_error : Type :=
| NoCondition
| BadPathRegex
| BadHeaderRegex
| NoMethods.

Definition compile_regex (e : waf_error) (raw : str) : result Regex waf_error :=
  match regex_new raw with Some re => Ok re | None => Err e end.

Definition compile_rule (rule : RawRule) (at_ : nat) : result WafRule waf_error :=
  if bool_decide (raw_path rule = None) && bool_decide (raw_methods rule = None)
     && bool_decide (raw_header rule = None) && bool_decide (raw_max_body rule = None)
  then Err NoCondition
  else
    (let? path := match raw_path rule with
                  | None => Ok None
                  | Some p => let? re := compile_regex BadPathRegex p in Ok (Some re)
                  end in
     let? header := match raw_header rule with
                    | None => Ok None
                    | Some h => let? re := compile_regex BadHeaderRegex (h_regex h) in
                                Ok (Some (lower (trim (h_name h)), re))
                    end in
     let methods := (fun m : list str => (fun s => upper (trim s)) <$> m) <$> raw_methods rule in
     match methods with
     | Some [] => Err NoMethods
     | _ => Ok {| w_path := path; w_methods := methods; w_header := header; w_max_body := raw_max_body rule;
                  w_desc_path := raw_path rule; w_desc_at := at_; w_desc_site := [] |}
     end)%rust.

(** [compiled.desc = format!("{shown} {}", compiled.desc)] *)
Definition with_site (shown : str) (r : WafRule) : WafRule :=
  {| w_path := w_path r; w_methods := w_methods r; w_header := w_header r; w_max_body := w_max_body r;
     w_desc_path := w_desc_path r; w_desc_at := w_desc_at r; w_desc_site := shown |}.

(** [headers] are the request's; [header_str] is [get] and [to_str]. *)
Definition conditions_match (r : WafRule) (method path : str) (hs : headers) : bool :=
  match w_path r with
  | Some re => if negb (is_match re path) then false else true
  | None => true
  end
  && match w_methods r with
     | Some ms => if negb (existsb (fun m => str_eqb m method) ms) then false else true
     | None => true
     end
  && match w_header r with
     | Some (name, re) => match header_str name hs with Some v => is_match re v | None => false end
     | None => true
     end.

Definition denies (r : WafRule) (method path : str) (hs : headers) : bool :=
  bool_decide (w_max_body r = None) && conditions_match r method path hs.

Definition refuses_body (r : WafRule) (method path : str) (hs : headers) (body_len : Z) : bool :=
  match w_max_body r with
  | Some limit => (limit <? body_len) && conditions_match r method path hs
  | None => false
  end.

(** A compiled rule asks for something: no rule refuses every request. *)
Definition rule_ok (r : WafRule) : Prop :=
  (is_Some (w_path r) ∨ is_Some (w_methods r) ∨ is_Some (w_header r) ∨ is_Some (w_max_body r))
  ∧ w_methods r ≠ Some [].

Lemma compile_rule_ok rule at_ r : compile_rule rule at_ = Ok r → rule_ok r ∧ w_max_body r = raw_max_body rule.
Proof.
  unfold compile_rule. destruct (_ && _) eqn:E; [done|]. intros H.
  destruct (match raw_path rule with Some _ => _ | None => _ end) as [p|] eqn:Ep; [|done].
  cbn [result_bind] in H.
  destruct (match raw_header rule with Some _ => _ | None => _ end) as [h|] eqn:Eh; [|done].
  cbn [result_bind] in H.
  assert (Hr : w_methods r = (fun m : list str => (fun s => upper (trim s)) <$> m) <$> raw_methods rule
               ∧ w_path r = p ∧ w_header r = h ∧ w_max_body r = raw_max_body rule ∧ w_methods r ≠ Some []).
  { destruct (raw_methods rule) as [[|m ms]|]; simplify_eq/=; by split_and!. }
  destruct Hr as (Hm & Hp & Hh & Hb & Hne). split; [|done]. split; [|done].
  rewrite Hm, Hp, Hh, Hb.
  destruct (raw_path rule) as [rp|].
  { left. unfold compile_regex in Ep. destruct (regex_new rp); simplify_eq/=; by eexists. }
  destruct (raw_methods rule); [right; left; by eexists|].
  destruct (raw_header rule) as [rh|].
  { right; right; left. unfold compile_regex in Eh. destruct (regex_new (h_regex rh)); simplify_eq/=; by eexists. }
  destruct (raw_max_body rule); [right; right; right; by eexists|done].
Qed.

End Rules.

#[global] Arguments WafRule : clear implicits.

End Waf.

(** ** Maintenance windows *)

Module Windows.

Inductive Weekday : Type := Mon | Tue | Wed | Thu | Fri | Sat | Sun.

#[export] Instance Weekday_eq : EqDecision Weekday.
Proof. solve_decision. Defined.

Record MaintenanceSchedule : Type := {
  m_from : str;
  m_to : str;
  m_days : option (list str);
  m_tz : option str;
  m_reason : option str;
}.

Inductive window_error : Type :=
| BadFrom
| BadTo
| SameTime
| BadZone
| BadWeekday (day : str).

Definition parse_weekday (d : str) : result Weekday window_error :=
  let d := lower (trim d) in
  let any_of (names : list str) := existsb (str_eqb d) names in
  if any_of [bs "mon"; bs "monday"] then Ok Mon
  else if any_of [bs "tue"; bs "tues"; bs "tuesday"] then Ok Tue
  else if any_of [bs "wed"; bs "weds"; bs "wednesday"] then Ok Wed
  else if any_of [bs "thu"; bs "thur"; bs "thurs"; bs "thursday"] then Ok Thu
  else if any_of [bs "fri"; bs "friday"] then Ok Fri
  else if any_of [bs "sat"; bs "saturday"] then Ok Sat
  else if any_of [bs "sun"; bs "sunday"] then Ok Sun
  else Err (BadWeekday d).

(** The loop over the written days; [days] are the ones found so far. *)
Fixpoint parse_days (raw : list str) (days : list Weekday) : result (list Weekday) window_error :=
  match raw with
  | [] => Ok days
  | d :: rest =>
      (let? parsed := parse_weekday d in
       parse_days rest (if bool_decide (parsed ∈ days) then days else days ++ [parsed]))%rust
  end.

Section Zones.
Context {Tz : Type} (UTC : Tz) (parse_tz : str → option Tz).
(** [NaiveTime::parse_from_str] with [%H:%M], then with [%H:%M:%S]. *)
Context (parse_hm parse_hms : str → option Z).
(** The local date and time of a unix second; the unix second of the earliest
    reading of a local date and time, none when it is skipped. *)
Context (local : Tz → Z → option (Z * Z)) (earliest : Tz → Z → Z → option Z).
Context (weekday : Z → Weekday) (succ_opt pred_opt : Z → option Z).

Record Window : Type := {
  w_start : Z;
  w_end : Z;
  w_days : list Weekday;
  w_tz : Tz;
  w_reason : option str;
}.

Definition instant_of (w : Window) (date time : Z) : option Z :=
  match earliest (w_tz w) date time with Some t => Some (Z.max 0 t) | None => None end.

Definition listed (w : Window) (d : Weekday) : bool :=
  bool_decide (w_days w = []) || bool_decide (d ∈ w_days w).

Definition active_until (w : Window) (now_secs : Z) : option Z :=
  match local (w_tz w) now_secs with
  | None => None
  | Some (date, time) =>
      let today := weekday date in
      if w_start w <? w_end w then
        if listed w today && (w_start w <=? time) && (time <? w_end w) then instant_of w date (w_end w) else None
      else if listed w today && (w_start w <=? time) then
        match succ_opt date with Some tomorrow => instant_of w tomorrow (w_end w) | None => None end
      else
        match pred_opt date with
        | None => None
        | Some yesterday =>
            if listed w (weekday yesterday) && (time <? w_end w) then instant_of w date (w_end w) else None
        end
  end.

Definition parse_time (e : window_error) (v : str) : result Z window_error :=
  match parse_hm (trim v) with
  | Some t => Ok t
  | None => match parse_hms (trim v) with Some t => Ok t | None => Err e end
  end.

Definition compile_window (w : MaintenanceSchedule) : result Window window_error :=
  (let? start := parse_time BadFrom (m_from w) in
   let? end_ := parse_time BadTo (m_to w) in
   if start =? end_ then Err SameTime
   else
     let? tz := match m_tz w with
                | None => Ok UTC
                | Some name =>
                    let name := trim name in
                    if bool_decide (name = []) then Ok UTC
                    else match parse_tz name with Some tz => Ok tz | None => Err BadZone end
                end in
     let? days := parse_days (default [] (m_days w)) [] in
     Ok {| w_start := start; w_end := end_; w_days := days; w_tz := tz;
           w_reason := match m_reason w with
                       | Some r => if bool_decide (trim r = []) then None else Some r
                       | None => None
                       end |})%rust.

(** The occurrence of a window that starts on day [d] covers the local time
    [time] of [date] and ends on [d_end]. *)
Definition occurrence (w : Window) (d d_end date time : Z) : Prop :=
  listed w (weekday d) = true
  ∧ if w_start w <? w_end w then d = date ∧ d_end = date ∧ w_start w <= time < w_end w
    else (d = date ∧ w_start w <= time ∧ succ_opt date = Some d_end)
         ∨ (pred_opt date = Some d ∧ d_end = date ∧ time < w_end w).

Lemma active_until_spec w now until :
  active_until w now = Some until ↔
  ∃ date time d d_end, local (w_tz w) now = Some (date, time) ∧ occurrence w d d_end date time
    ∧ instant_of w d_end (w_end w) = Some until.
Proof.
  unfold active_until, occurrence. split.
  - intros H. destruct (local (w_tz w) now) as [[date time]|]; [|done].
    destruct (w_start w <? w_end w) eqn:El.
    + destruct (listed w (weekday date)) eqn:E1; [|done].
      destruct (w_start w <=? time) eqn:E2; [|done]. destruct (time <? w_end w) eqn:E3; [|done].
      exists date, time, date, date. split_and!; [done|done|done|done|lia|lia|done].
    + destruct (listed w (weekday date)) eqn:E1, (w_start w <=? time) eqn:E2; cbn [andb] in H.
      1: destruct (succ_opt date) as [d'|] eqn:Es; [|done]; exists date, time, date, d'; split_and!;
           [done|done|left; split_and!; [done|lia|done]|done].
      all: destruct (pred_opt date) as [d'|] eqn:Ep; [|done]; destruct (listed w (weekday d')) eqn:E4; [|done];
        destruct (time <? w_end w) eqn:E3; [|done]; exists date, time, d', date; split_and!;
          [done|done|right; split_and!; [done|done|lia]|done].
  - intros (date & time & d & d_end & -> & [Hl Ho] & Hi). destruct (w_start w <? w_end w) eqn:El.
    + destruct Ho as (-> & -> & Ht). rewrite Hl.
      assert ((w_start w <=? time) && (time <? w_end w) = true) as Hb by lia.
      rewrite <- andb_assoc, Hb. done.
    + apply Z.ltb_ge in El. destruct Ho as [(-> & Ht & Es)|(Ep & -> & Ht)].
      * rewrite Hl, Es. assert ((w_start w <=? time) = true) as -> by lia. done.
      * assert ((w_start w <=? time) = false) as -> by lia. rewrite andb_false_r, Ep, Hl.
        assert ((time <? w_end w) = true) as -> by lia. done.
Qed.

Definition window_ok (w : Window) : Prop := w_start w ≠ w_end w ∧ NoDup (w_days w).

Lemma parse_days_nodup raw days ds : NoDup days → parse_days raw days = Ok ds → NoDup ds.
Proof.
  revert days. induction raw as [|d raw IH]; intros days Hd H; simpl in H; [by simplify_eq|].
  destruct (parse_weekday d) as [p|]; [|done]. cbn [result_bind] in H. apply IH in H; [done|].
  case_bool_decide; [done|]. apply NoDup_app; split_and!; [done| |apply NoDup_singleton].
  intros x Hx. rewrite list_elem_of_singleton. by intros ->.
Qed.

Lemma compile_window_ok raw w : compile_window raw = Ok w → window_ok w.
Proof.
  unfold compile_window. intros H.
  destruct (parse_time BadFrom _) as [s|]; [|done]. destruct (parse_time BadTo _) as [e|]; [|done].
  cbn [result_bind] in H. destruct (Z.eqb_spec s e); [done|].
  destruct (match m_tz raw with Some _ => _ | None => _ end) as [tz|]; [|done]. cbn [result_bind] in H.
  destruct (parse_days _ _) as [ds|] eqn:Ed; [|done]. simplify_eq/=. split; [done|].
  eapply parse_days_nodup; [|exact Ed]. constructor.
Qed.

End Zones.

#[global] Arguments Window : clear implicits.

End Windows.
