(* ===== verification/Sites.v ===== *)
(** The server's sites: what it does for a hostname, or a path under one, by
    itself. [aperio-server/src/sites.rs] over [aperio-config/src/sites.rs], with
    the pieces of [SiteRules], the hostname patterns of [Orgs], the path binds
    of [Binds], the gates of [VisitorAuth] and the split of [Canary].

    The HTTP status and header types, regular expressions, the time zone
    database and floating point are parameters. *)

From Stdlib Require Import QArith Sorting.Sorted Sorting.Permutation.
From S2P Require Import Prelude Binds IpNet Orgs VisitorAuth Clients Select Canary RateLimit SiteRules.
Import Headers Waf Windows.
Open Scope Z_scope.

(** ** As written *)

Inductive Access : Type :=
| AccPublic
| AccOne (spec : AuthMethodSpec)
| AccAny (specs : list AuthMethodSpec).

(** [AuthMethodSpec { method: "none", ..Default }] *)
Definition none_spec : AuthMethodSpec :=
  {| sp_method := bs "none"; sp_users := None; sp_secret := None; sp_query := None;
     sp_jwks_url := None; sp_hmac_secret := None; sp_issuer := None; sp_client_id := None;
     sp_client_secret := None; sp_allowed_emails := None; sp_scopes := None; sp_audience := None;
     sp_claims := None; sp_cookie := None; sp_url := None; sp_request_headers := None;
     sp_response_headers := None; sp_timeout := None; sp_cache := None; sp_via := None |}.

Definition auth_setting (a : Access) : AuthSetting :=
  match a with
  | AccPublic => SetOne none_spec
  | AccOne spec => SetOne spec
  | AccAny specs => SetAny specs
  end.

Record RawRedirect : Type := { rr_url : str; rr_permanent : bool; rr_preserve_path : bool }.
Record RespondRule : Type := { rs_status : option Z; rs_content_type : option str; rs_body : option str }.
Record SiteRateLimit (F : Type) : Type :=
  { sr_rps : F; sr_burst : option F; sr_methods : option (list str) }.
Arguments sr_rps {F} _. Arguments sr_burst {F} _. Arguments sr_methods {F} _.
Record SiteCanary : Type :=
  { sc_service : str; sc_weight : option Z; sc_header : option str; sc_value : option str }.
Record Pages : Type := { pg_unavailable : option str; pg_maintenance : option str }.

(** [timeout] is in milliseconds. *)
Record RawSite (F : Type) : Type := {
  rw_hostname : str;
  rw_path : option str;
  rw_access : option Access;
  rw_redirect : option RawRedirect;
  rw_respond : option RespondRule;
  rw_timeout : option Z;
  rw_headers : option HeaderRules;
  rw_rate_limit : option (SiteRateLimit F);
  rw_canary : option SiteCanary;
  rw_waf : list RawRule;
  rw_fallback : option RawRedirect;
  rw_pages : option Pages;
  rw_maintenance : list MaintenanceSchedule;
}.
Arguments rw_hostname {F} _. Arguments rw_path {F} _. Arguments rw_access {F} _.
Arguments rw_redirect {F} _. Arguments rw_respond {F} _. Arguments rw_timeout {F} _.
Arguments rw_headers {F} _. Arguments rw_rate_limit {F} _. Arguments rw_canary {F} _.
Arguments rw_waf {F} _. Arguments rw_fallback {F} _. Arguments rw_pages {F} _.
Arguments rw_maintenance {F} _.

(** ** Compiled *)

Definition MAX_PAGE_BYTES : Z := 512 * 1024.

Record Redirect : Type := { rd_url : str; rd_permanent : bool; rd_preserve_path : bool }.
Record Respond : Type := { rp_status : Z; rp_content_type : str; rp_body : str }.

Inductive Answer : Type :=
| AnsRedirect (r : Redirect)
| AnsRespond (r : Respond).

Inductive SiteAccess : Type :=
| SitePublic
| SiteGate (p : Policy).

Record SiteLimit (F : Type) : Type :=
  { l_rps : F; l_burst : F; l_methods : option (list str); l_key : str }.
Arguments l_rps {F} _. Arguments l_burst {F} _. Arguments l_methods {F} _. Arguments l_key {F} _.

(** What a response carries, the default one being [200] and empty. *)
Record Response : Type := { rsp_status : Z; rsp_headers : headers; rsp_body : str }.

Inductive site_error : Type :=
| BadHostname
| BadPath
| BadAccess (e : auth_error)
| TwoAnswers
| NotAbsolute (fallback : bool)
| BadStatus
| AnswersByItself (settings : list str)
| AboutTheHostname (settings : list str)
| ZeroTimeout
| BadRps
| BadBurst
| NoRateMethods
| NoCanaryService
| CanaryWeight
| BadWaf (j : nat) (e : waf_error)
| PageTooLong (name : str)
| BadWindow (j : nat) (e : window_error)
| SetsNothing.

(** ** Redirects and answers *)

Definition compile_redirect (raw : RawRedirect) (fallback : bool) : result Redirect site_error :=
  let url := trim (rr_url raw) in
  if negb (starts_with (bs "http://") url || starts_with (bs "https://") url) then Err (NotAbsolute fallback)
  else Ok {| rd_url := url; rd_permanent := rr_permanent raw; rd_preserve_path := rr_preserve_path raw |}.

Definition redirect_status (r : Redirect) : Z := if rd_permanent r then 301 else 302.

Definition location (r : Redirect) (path : str) (query : option str) : str :=
  if negb (rd_preserve_path r) then rd_url r
  else trim_end_char slash (rd_url r) ++ path
       ++ match query with Some q => bs "?" ++ q | None => [] end.

Definition answer_status (a : Answer) : Z :=
  match a with AnsRedirect r => redirect_status r | AnsRespond r => rp_status r end.

Definition default_response : Response := {| rsp_status := 200; rsp_headers := []; rsp_body := [] |}.

Section Answers.
(** [StatusCode::from_u16(..).is_ok()] and what a header value may hold. *)
Context (status_ok : Z → bool) (header_value_ok : str → bool).

(** [Response::builder()]; a refused header value leaves the default response. *)
Definition build_response (status : Z) (name value body : str) : Response :=
  if header_value_ok value then {| rsp_status := status; rsp_headers := [(name, value)]; rsp_body := body |}
  else default_response.

Definition redirect_respond (r : Redirect) (path : str) (query : option str) : Response :=
  build_response (redirect_status r) (bs "location") (location r path query) [].

Definition answer_respond (a : Answer) (path : str) (query : option str) : Response :=
  match a with
  | AnsRedirect r => redirect_respond r path query
  | AnsRespond r => build_response (if status_ok (rp_status r) then rp_status r else 200)
                      (bs "content-type") (rp_content_type r) (rp_body r)
  end.

End Answers.

(** ** How specific a pattern is *)

(** The length is cast to 32 bits; a normalized pattern is far shorter. *)
Definition host_rank (pattern : str) : Z :=
  let n := len pattern mod 2 ^ 32 in
  if str_eqb pattern (bs "*") then 0
  else if starts_with (bs "*.") pattern then 1000 + n
  else if has star pattern then 2000 + n
  else 3000 + n.

Definition rank_le (a b : Z * Z) : bool := (a.1 <? b.1) || ((a.1 =? b.1) && (a.2 <=? b.2)).

(** The options of [headers], filtered as [filter(|v| !v.trim().is_empty())]. *)
Definition non_blank (o : option str) : option str :=
  match o with Some v => if bool_decide (trim v = []) then None else Some v | None => None end.

(** The names of the settings of a list that are written. *)
Definition written (settings : list (str * bool)) : list str :=
  omap (fun s : str * bool => if s.2 then Some s.1 else None) settings.

(** [l.iter().enumerate().map(f).collect::<Result<Vec<_>, _>>()] *)
Fixpoint collect_from {A B E} (f : nat → A → result B E) (j : nat) (l : list A) : result (list B) E :=
  match l with
  | [] => Ok []
  | x :: rest => (let? y := f j x in let? ys := collect_from f (S j) rest in Ok (y :: ys))%rust
  end.
Definition collect {A B E} (f : nat → A → result B E) (l : list A) : result (list B) E := collect_from f 0 l.

Section Sites.
Context {F Regex Tz : Type} `{HF : Float F} (is_finite : F → bool).
Context (regex_new : str → option Regex) (is_match : Regex → str → bool).
Context (status_ok : Z → bool) (header_value_ok : str → bool).
Context (UTC : Tz) (parse_tz : str → option Tz) (parse_hm parse_hms : str → option Z).
Context (local : Tz → Z → option (Z * Z)) (earliest : Tz → Z → Z → option Z).
Context (weekday : Z → Weekday) (succ_opt pred_opt : Z → option Z).

Record Site : Type := {
  s_hostname : str;
  s_path : option str;
  s_access : option SiteAccess;
  s_answer : option Answer;
  s_timeout : option Z;
  s_headers : option HeaderTransforms;
  s_rate_limit : option (SiteLimit F);
  s_canary : option CanaryRule;
  s_waf : list (WafRule Regex);
  s_fallback : option Redirect;
  s_page_504 : option str;
  s_page_503 : option str;
  s_maintenance : list (Window Tz);
  s_rank : Z * Z;
}.

(** ** Compiling one site *)

Definition compile_path (raw : option str) : result (option str) site_error :=
  match trim <$> raw with
  | None => Ok None
  | Some p => if str_eqb p [] || str_eqb p (bs "/") then Ok None
              else match normalize_path_bind p with Some n => Ok (Some n) | None => Err BadPath end
  end.

Definition compile_access (raw : option Access) : result (option SiteAccess) site_error :=
  match raw with
  | None => Ok None
  | Some AccPublic => Ok (Some SitePublic)
  | Some declared =>
      let setting := auth_setting declared in
      match validate_auth_setting setting with
      | Err e => Err (BadAccess e)
      | Ok _ => let policy := compile setting in
                Ok (Some (if admits_everyone policy then SitePublic else SiteGate policy))
      end
  end.

Definition compile_answer (redirect : option RawRedirect) (respond : option RespondRule) :
    result (option Answer) site_error :=
  match redirect, respond with
  | Some _, Some _ => Err TwoAnswers
  | Some r, None => (let? c := compile_redirect r false in Ok (Some (AnsRedirect c)))%rust
  | None, Some r =>
      let status := default 200 (rs_status r) in
      if status_ok status then
        Ok (Some (AnsRespond {| rp_status := status;
                                rp_content_type := default (bs "text/html; charset=utf-8") (non_blank (rs_content_type r));
                                rp_body := default [] (rs_body r) |}))
      else Err BadStatus
  | None, None => Ok None
  end.

Definition proxied_settings (raw : RawSite F) : list str :=
  written [(bs "access", is_some (rw_access raw)); (bs "timeout", is_some (rw_timeout raw));
           (bs "headers", is_some (rw_headers raw)); (bs "rate_limit", is_some (rw_rate_limit raw));
           (bs "canary", is_some (rw_canary raw)); (bs "waf", negb (bool_decide (length (rw_waf raw) = 0%nat)));
           (bs "fallback", is_some (rw_fallback raw))].

Definition hostwide_settings (raw : RawSite F) : list str :=
  written [(bs "fallback", is_some (rw_fallback raw)); (bs "pages", is_some (rw_pages raw));
           (bs "maintenance", negb (bool_decide (length (rw_maintenance raw) = 0%nat)))].

(** [if set { let names = ..; if !names.is_empty() { return Err(..) } }] *)
Definition refuse_settings (applies : bool) (names : list str) (e : list str → site_error) : result unit site_error :=
  if applies && negb (bool_decide (names = [])) then Err (e names) else Ok tt.

Definition compile_timeout (raw : option Z) : result (option Z) site_error :=
  match raw with
  | None => Ok None
  | Some ms => if ms / 1000 =? 0 then Err ZeroTimeout else Ok (Some (ms / 1000))
  end.

Definition positive (x : F) : bool := is_finite x && fltb fzero x.

Definition limit_key (i : nat) (hostname : str) (path : option str) (methods : option (list str)) : str :=
  bs "site#" ++ show_uint (Z.of_nat i) ++ bs ":" ++ hostname ++ bs ":" ++ default (bs "*") path ++ bs ":"
  ++ match methods with Some m => join (bs ",") m | None => bs "*" end.

Definition compile_rate_limit (i : nat) (hostname : str) (path : option str) (raw : option (SiteRateLimit F)) :
    result (option (SiteLimit F)) site_error :=
  match raw with
  | None => Ok None
  | Some rl =>
      if negb (positive (sr_rps rl)) then Err BadRps
      else if match sr_burst rl with Some b => negb (positive b) | None => false end then Err BadBurst
      else match sr_methods rl with
           | Some [] => Err NoRateMethods
           | raw_methods =>
               let methods := (fun l : list str => (fun m => upper (trim m)) <$> l) <$> raw_methods in
               Ok (Some {| l_rps := sr_rps rl; l_burst := fmax (default (sr_rps rl) (sr_burst rl)) (fnum 1);
                           l_methods := methods; l_key := limit_key i hostname path methods |})
           end
  end.

Definition compile_canary (raw : option SiteCanary) : result (option CanaryRule) site_error :=
  match raw with
  | None => Ok None
  | Some c =>
      if bool_decide (trim (sc_service c) = []) then Err NoCanaryService
      else let weight := default 0 (sc_weight c) in
           if 100 <? weight then Err CanaryWeight
           else Ok (Some {| canary_service := trim (sc_service c); canary_weight := weight;
                            canary_header := non_blank (sc_header c); canary_value := sc_value c |})
  end.

Definition compile_waf (shown : str) (j : nat) (rule : RawRule) : result (WafRule Regex) site_error :=
  match compile_rule regex_new rule j with
  | Ok r => Ok (with_site shown r)
  | Err e => Err (BadWaf j e)
  end.

Definition compile_page (name : str) (html : option str) : result (option str) site_error :=
  match html with
  | Some h => if MAX_PAGE_BYTES <? len h then Err (PageTooLong name)
              else Ok (non_blank (Some h))
  | None => Ok None
  end.

Definition compile_schedule (j : nat) (w : MaintenanceSchedule) : result (Window Tz) site_error :=
  match compile_window UTC parse_tz parse_hm parse_hms w with
  | Ok c => Ok c
  | Err e => Err (BadWindow j e)
  end.

Definition sets_something (s : Site) : bool :=
  is_some (s_access s) || is_some (s_answer s) || is_some (s_timeout s) || is_some (s_headers s)
  || is_some (s_rate_limit s) || is_some (s_canary s) || negb (bool_decide (length (s_waf s) = 0%nat))
  || is_some (s_fallback s) || is_some (s_page_504 s) || is_some (s_page_503 s)
  || negb (bool_decide (length (s_maintenance s) = 0%nat)).

(** [err] puts the site's index and name in front of what is wrong. *)
Definition at_site {A} (i : nat) (shown : str) (r : result A site_error) : result A (nat * str * site_error) :=
  match r with Ok a => Ok a | Err e => Err (i, shown, e) end.

Definition compile_site_inner (i : nat) (shown : str) (raw : RawSite F) : result Site site_error :=
  (let? hostname := match normalize_org_hostname_pattern (rw_hostname raw) with
                    | Some h => Ok h | None => Err BadHostname end in
   let? path := compile_path (rw_path raw) in
   let? access := compile_access (rw_access raw) in
   let? answer := compile_answer (rw_redirect raw) (rw_respond raw) in
   let? _ := refuse_settings (is_some answer) (proxied_settings raw) AnswersByItself in
   let? _ := refuse_settings (is_some path) (hostwide_settings raw) AboutTheHostname in
   let? timeout := compile_timeout (rw_timeout raw) in
   let? rate_limit := compile_rate_limit i hostname path (rw_rate_limit raw) in
   let? canary := compile_canary (rw_canary raw) in
   let? waf := collect (compile_waf shown) (rw_waf raw) in
   let? fallback := match rw_fallback raw with
                    | Some f => let? c := compile_redirect f true in Ok (Some c)
                    | None => Ok None
                    end in
   let? page_504 := match rw_pages raw with
                    | Some p => compile_page (bs "unavailable") (pg_unavailable p) | None => Ok None end in
   let? page_503 := match rw_pages raw with
                    | Some p => compile_page (bs "maintenance") (pg_maintenance p) | None => Ok None end in
   let? maintenance := collect compile_schedule (rw_maintenance raw) in
   let site := {| s_hostname := hostname; s_path := path; s_access := access; s_answer := answer;
                  s_timeout := timeout; s_headers := compile_transforms <$> rw_headers raw;
                  s_rate_limit := rate_limit; s_canary := canary; s_waf := waf; s_fallback := fallback;
                  s_page_504 := page_504; s_page_503 := page_503; s_maintenance := maintenance;
                  s_rank := (host_rank hostname, match path with Some p => len p | None => 0 end) |} in
   if sets_something site then Ok site else Err SetsNothing)%rust.

Definition compile_site (i : nat) (raw : RawSite F) : result Site (nat * str * site_error) :=
  let shown := trim (rw_hostname raw) ++ default [] (trim <$> rw_path raw) in
  at_site i shown (compile_site_inner i shown raw).

(** ** The compiled list *)

(** [sort_by_key(|s| Reverse(s.rank))], which is stable: a site goes in front
    of the first one of lower rank. *)
Fixpoint insert_site (s : Site) (l : list Site) : list Site :=
  match l with
  | [] => [s]
  | t :: rest => if rank_le (s_rank s) (s_rank t) then t :: insert_site s rest else s :: l
  end.

Definition sort_sites (l : list Site) : list Site := fold_left (fun acc s => insert_site s acc) l [].

Definition compile_sites (raw : list (RawSite F)) : result (list Site) (nat * str * site_error) :=
  (let? sites := collect compile_site raw in Ok (sort_sites sites))%rust.

(** ** Matching *)

Definition site_host_matches (s : Site) (host : option str) : bool :=
  str_eqb (s_hostname s) (bs "*")
  || match host with Some h => pattern_matches_host (s_hostname s) h | None => false end.

Definition site_matches (host : option str) (path : str) (s : Site) : bool :=
  site_host_matches s host
  && match s_path s with Some p => path_matches_bind path p | None => true end.

Definition matching (sites : list Site) (host : option str) (path : str) : list Site :=
  filter (fun s => site_matches host path s = true) sites.

Definition site_hostwide (host : option str) (s : Site) : bool :=
  negb (is_some (s_path s)) && site_host_matches s host.

Definition hostwide (sites : list Site) (host : option str) : list Site :=
  filter (fun s => site_hostwide host s = true) sites.

(** [find_map] *)
Fixpoint find_map {A B} (f : A → option B) (l : list A) : option B :=
  match l with
  | [] => None
  | x :: rest => match f x with Some y => Some y | None => find_map f rest end
  end.

(** ** Settings of the most specific site *)

Definition access_for (sites : list Site) (host : option str) (path : str) : option SiteAccess :=
  find_map s_access (matching sites host path).

Definition is_gate (a : option SiteAccess) : bool := match a with Some (SiteGate _) => true | _ => false end.

Definition gates_on_host (sites : list Site) (host : option str) : bool :=
  existsb (fun s => is_gate (s_access s) && site_host_matches s host) sites.

Definition public_on_host (sites : list Site) (host : option str) : bool :=
  match find_map s_access (hostwide sites host) with Some SitePublic => true | _ => false end.

Definition answering (sites : list Site) (host : option str) (path : str) : option Site :=
  find (fun s => is_some (s_answer s)) (matching sites host path).

Definition site_answer (sites : list Site) (host : option str) (path : str) (query : option str) : option Response :=
  match answering sites host path with
  | Some site => (fun a => answer_respond status_ok header_value_ok a path query) <$> s_answer site
  | None => None
  end.

Definition timeout_for (sites : list Site) (host : option str) (path : str) : option Z :=
  find_map s_timeout (matching sites host path).

Definition canary_for (sites : list Site) (host : option str) (path : str) : option CanaryRule :=
  find_map s_canary (matching sites host path).

Definition counts (rl : SiteLimit F) (method : option str) : bool :=
  match l_methods rl, method with
  | Some ms, Some m => existsb (fun allowed => eq_ignore_case allowed m) ms
  | _, _ => true
  end.

Definition rate_limit_for (sites : list Site) (host : option str) (path : str) (method : option str) :
    option (SiteLimit F) :=
  find (fun rl => counts rl method) (omap s_rate_limit (matching sites host path)).

Definition fallback_for (sites : list Site) (host : option str) : option Redirect :=
  find_map s_fallback (hostwide sites host).

Definition page_504 (sites : list Site) (host : option str) : option str :=
  find_map s_page_504 (hostwide sites host).

Definition page_503 (sites : list Site) (host : option str) : option str :=
  find_map s_page_503 (hostwide sites host).

(** ** Settings that add up *)

Definition layered (sites : list Site) (host : option str) (path : str) (hs : headers)
    (direction : HeaderTransforms → HeaderTransform) : headers :=
  match sites with
  | [] => hs
  | _ => fold_left (fun hs t => apply_transform (direction t) hs)
           (rev (omap s_headers (matching sites host path))) hs
  end.

Definition request_headers (sites : list Site) (host : option str) (path : str) (hs : headers) : headers :=
  layered sites host path hs ts_request.

Definition response_headers (sites : list Site) (host : option str) (path : str) (hs : headers) : headers :=
  layered sites host path hs ts_response.

Definition has_waf (sites : list Site) : bool :=
  existsb (fun s => negb (bool_decide (length (s_waf s) = 0%nat))) sites.

Definition waf_deny (sites : list Site) (host : option str) (method path : str) (hs : headers) :
    option (WafRule Regex) :=
  find (fun r => denies is_match r method path hs) (concat (s_waf <$> matching sites host path)).

Definition waf_body (sites : list Site) (host : option str) (method path : str) (hs : headers) (body_len : Z) :
    option (WafRule Regex) :=
  find (fun r => refuses_body is_match r method path hs body_len) (concat (s_waf <$> matching sites host path)).

Definition site_maintenance_for (sites : list Site) (host : option str) (now_secs : Z) : option (Window Tz * Z) :=
  find_map (fun w => (fun until => (w, until))
                       <$> active_until local earliest weekday succ_opt pred_opt w now_secs)
    (concat (s_maintenance <$> hostwide sites host)).

Definition has_maintenance (sites : list Site) : bool :=
  existsb (fun s => negb (bool_decide (length (s_maintenance s) = 0%nat))) sites.

End Sites.

#[global] Arguments Site : clear implicits.

(** ** The order of specificity *)

Lemma rank_le_refl a : rank_le a a = true.
Proof. unfold rank_le. lia. Qed.

Lemma rank_le_trans a b c : rank_le a b = true → rank_le b c = true → rank_le a c = true.
Proof. unfold rank_le. lia. Qed.

Lemma rank_le_total a b : rank_le a b = false → rank_le b a = true.
Proof. unfold rank_le. lia. Qed.

Lemma rank_le_antisym a b : rank_le a b = true → rank_le b a = true → a = b.
Proof. destruct a, b. unfold rank_le. simpl. intros. f_equal; lia. Qed.

Section Specific.
Context {F Regex Tz : Type}.
Implicit Types (s t : Site F Regex Tz) (l : list (Site F Regex Tz)).

Definition by_rank s t : Prop := rank_le (s_rank t) (s_rank s) = true.

Lemma insert_site_perm s l : insert_site s l ≡ₚ s :: l.
Proof.
  induction l as [|t l IH]; [done|]. simpl. destruct (rank_le _ _); [|done].
  rewrite IH. apply Permutation_swap.
Qed.

Lemma insert_site_sorted s l : StronglySorted by_rank l → StronglySorted by_rank (insert_site s l).
Proof.
  induction 1 as [|t l Hl IH Hall]; [by repeat constructor|]. simpl. destruct (rank_le _ _) eqn:E.
  - constructor; [done|]. rewrite insert_site_perm. by constructor.
  - apply rank_le_total in E. repeat constructor; [done|done|done|].
    eapply Forall_impl; [exact Hall|]. intros u Hu. by eapply rank_le_trans.
Qed.

Lemma sort_sites_snoc l s : sort_sites (l ++ [s]) = insert_site s (sort_sites l).
Proof. unfold sort_sites. by rewrite fold_left_app. Qed.

Lemma sort_sites_sorted l : StronglySorted by_rank (sort_sites l).
Proof.
  induction l as [|s l IH] using rev_ind; [constructor|]. rewrite sort_sites_snoc. by apply insert_site_sorted.
Qed.

Lemma sort_sites_perm l : sort_sites l ≡ₚ l.
Proof.
  induction l as [|s l IH] using rev_ind; [done|].
  rewrite sort_sites_snoc, insert_site_perm, IH. by rewrite Permutation_cons_append.
Qed.

(** The first good site of a sorted list, with one more site in it. *)
Lemma find_insert_site (good : Site F Regex Tz → bool) s l :
  StronglySorted by_rank l →
  find good (insert_site s l)
  = if good s then match find good l with
                   | Some b => if rank_le (s_rank s) (s_rank b) then Some b else Some s
                   | None => Some s
                   end
    else find good l.
Proof.
  induction 1 as [|t l Hl IH Hall]; [simpl; by destruct (good s)|].
  simpl. destruct (rank_le (s_rank s) (s_rank t)) eqn:E.
  - simpl. destruct (good t) eqn:Gt; [by destruct (good s); rewrite ?E|done].
  - simpl. destruct (good s) eqn:Gs; [|done].
    destruct (if good t then Some t else find good l) as [b|] eqn:Eb; [|done].
    assert (Hb : rank_le (s_rank b) (s_rank t) = true).
    { destruct (good t); simplify_eq; [apply rank_le_refl|]. apply find_some in Eb as [Hin _].
      rewrite Forall_forall in Hall. apply Hall. by apply list_elem_of_In. }
    destruct (rank_le (s_rank s) (s_rank b)) eqn:E2; [|done].
    by rewrite (rank_le_trans _ _ _ E2 Hb) in E.
Qed.

(** The first good site of the sorted list is, of the good sites as written, one
    of the highest rank, and the first of those. *)
Lemma find_sorted (good : Site F Regex Tz → bool) l :
  match find good (sort_sites l) with
  | Some s => ∃ i, l !! i = Some s ∧ good s = true
      ∧ ∀ j t, l !! j = Some t → good t = true →
          rank_le (s_rank t) (s_rank s) = true ∧ ((j < i)%nat → s_rank t ≠ s_rank s)
  | None => Forall (fun t => good t = false) l
  end.
Proof.
  induction l as [|s l IH] using rev_ind; [constructor|].
  rewrite sort_sites_snoc, find_insert_site by apply sort_sites_sorted.
  destruct (find good (sort_sites l)) as [b|].
  - destruct IH as (i & Hi & Gb & Hmax).
    assert (Hil : (i < length l)%nat) by by eapply lookup_lt_Some.
    assert (Hlast : ∀ j t, (l ++ [s]) !! j = Some t → l !! j = Some t ∨ (j = length l ∧ t = s)).
    { intros j t Hj. apply lookup_app_Some in Hj as [Hj|[Hlen Hj]]; [by left|right].
      apply list_lookup_singleton_Some in Hj as [Hj ->]. split; [lia|done]. }
    destruct (good s) eqn:Gs; [destruct (rank_le (s_rank s) (s_rank b)) eqn:E|].
    + exists i. split_and!; [by apply lookup_app_l_Some|done|]. intros j t Hj Gt.
      destruct (Hlast j t Hj) as [Hj'|[-> ->]]; [by apply (Hmax j)|split; [done|lia]].
    + exists (length l). split_and!; [by rewrite list_lookup_middle|done|]. intros j t Hj Gt.
      destruct (Hlast j t Hj) as [Hj'|[-> ->]]; [|split; [apply rank_le_refl|lia]].
      destruct (Hmax j t Hj' Gt) as [Hle _]. split.
      * eapply rank_le_trans; [exact Hle|by apply rank_le_total].
      * intros _ Heq. by rewrite Heq, E in Hle.
    + exists i. split_and!; [by apply lookup_app_l_Some|done|]. intros j t Hj Gt.
      destruct (Hlast j t Hj) as [Hj'|[-> ->]]; [by apply (Hmax j)|congruence].
  - destruct (good s) eqn:Gs.
    + exists (length l). split_and!; [by rewrite list_lookup_middle|done|]. intros j t Hj Gt.
      apply lookup_app_Some in Hj as [Hj|[Hlen Hj]].
      * rewrite Forall_forall in IH. apply list_elem_of_lookup_2 in Hj. rewrite IH in Gt; done.
      * apply list_lookup_singleton_Some in Hj as [Hj <-]. split; [apply rank_le_refl|lia].
    + apply Forall_app. split; [done|by constructor].
Qed.

Lemma find_map_find {B} (p : Site F Regex Tz → bool) (f : Site F Regex Tz → option B) l :
  find_map f (filter (fun s => p s = true) l)
  = match find (fun s => p s && is_some (f s)) l with Some s => f s | None => None end.
Proof.
  induction l as [|s l IH]; [done|]. rewrite filter_cons. simpl.
  destruct (p s); [rewrite decide_True by done|by rewrite decide_False by done].
  by simpl; destruct (f s) eqn:E; simpl; rewrite ?E.
Qed.

End Specific.

(** [v] is what the site that wins the setting [f] writes: of the sites as
    written that apply and write it, none is more specific, and none written
    earlier is as specific. *)
Definition wins {F Regex Tz B} (written : list (Site F Regex Tz)) (applies : Site F Regex Tz → bool)
    (f : Site F Regex Tz → option B) (v : option B) : Prop :=
  match v with
  | Some y => ∃ i s, written !! i = Some s ∧ applies s = true ∧ f s = Some y
      ∧ ∀ j t, written !! j = Some t → applies t = true → is_Some (f t) →
          rank_le (s_rank t) (s_rank s) = true ∧ ((j < i)%nat → s_rank t ≠ s_rank s)
  | None => ∀ t, t ∈ written → applies t = true → f t = None
  end.

Lemma find_map_wins {F Regex Tz B} (l : list (Site F Regex Tz)) p (f : Site F Regex Tz → option B) :
  wins l p f (find_map f (filter (fun s => p s = true) (sort_sites l))).
Proof.
  rewrite find_map_find. set (good := fun s => p s && is_some (f s)). pose proof (find_sorted good l) as H.
  destruct (find good (sort_sites l)) as [s|].
  - destruct H as (i & Hi & Hg & Hmax). unfold good in Hg. apply andb_prop in Hg as [Hp Hf].
    destruct (f s) as [y|] eqn:E; [|done]. exists i, s. split_and!; [done|done|done|].
    intros j t Hj Ht [z Hz]. apply Hmax; [done|]. unfold good. by rewrite Ht, Hz.
  - intros t Ht Hp. rewrite Forall_forall in H. specialize (H t Ht). unfold good in H.
    rewrite Hp in H. by destruct (f t).
Qed.

(** Any pattern beats [*], a partial label beats a subdomain wildcard, and an
    exact name beats every pattern, whatever their paths. *)
Lemma host_rank_order a b pa pb :
  len a < 1000 → len b < 1000 →
  let kind p := if str_eqb p (bs "*") then 0 else if starts_with (bs "*.") p then 1
                else if has star p then 2 else 3 in
  kind a < kind b → rank_le (host_rank b, pb) (host_rank a, pa) = false.
Proof.
  intros Ha Hb kind. unfold kind, rank_le, host_rank. simpl fst. simpl snd.
  pose proof (len_nonneg a). pose proof (len_nonneg b). rewrite !Z.mod_small by lia.
  repeat case_goal; lia.
Qed.

Section Compiled.
Context {F Regex Tz : Type} `{HF : Float F} (is_finite : F → bool).
Context (regex_new : str → option Regex) (is_match : Regex → str → bool).
Context (status_ok : Z → bool) (header_value_ok : str → bool).
Context (UTC : Tz) (parse_tz : str → option Tz) (parse_hm parse_hms : str → option Z).

#[local] Abbreviation compile_one := (compile_site is_finite regex_new status_ok UTC parse_tz parse_hm parse_hms).
#[local] Abbreviation compile_all := (compile_sites is_finite regex_new status_ok UTC parse_tz parse_hm parse_hms).

Lemma collect_from_Ok {A B E} (f : nat → A → result B E) j l ys :
  collect_from f j l = Ok ys ↔
  length ys = length l ∧ ∀ i x, l !! i = Some x → ∃ y, ys !! i = Some y ∧ f (j + i)%nat x = Ok y.
Proof.
  revert j ys. induction l as [|x l IH]; intros j ys; simpl.
  { split; [intros [= <-]; done|]. intros [Hl _]. by destruct ys. }
  split.
  - destruct (f j x) as [y|] eqn:Ey; [|done]. cbn [result_bind].
    destruct (collect_from f (S j) l) as [ys'|] eqn:Ec; [|done]. cbn [result_bind]. intros [= <-].
    destruct (proj1 (IH _ _) Ec) as [Hl Hi]. simpl. split; [by rewrite Hl|].
    intros [|i] x' Hx; simpl in Hx; [simplify_eq; exists y; by rewrite Nat.add_0_r|].
    destruct (Hi i x' Hx) as (y' & ? & ?). exists y'. by rewrite Nat.add_succ_r.
  - intros [Hl Hi]. destruct ys as [|y ys]; [done|]. simpl in Hl.
    destruct (Hi 0%nat x eq_refl) as (y' & [= ->] & Hy). rewrite Nat.add_0_r in Hy. rewrite Hy. cbn [result_bind].
    assert (collect_from f (S j) l = Ok ys) as ->; [|done]. apply IH. split; [lia|].
    intros i x' Hx. destruct (Hi (S i) x' Hx) as (y'' & ? & ?). exists y''. by rewrite Nat.add_succ_r in *.
Qed.

Lemma collect_from_Err {A B E} (f : nat → A → result B E) j l e :
  collect_from f j l = Err e ↔
  ∃ i x, l !! i = Some x ∧ f (j + i)%nat x = Err e
    ∧ ∀ k y, (k < i)%nat → l !! k = Some y → is_ok (f (j + k)%nat y) = true.
Proof.
  revert j. induction l as [|x l IH]; intros j; simpl.
  { split; [done|]. by intros (i & x & ? & _). }
  destruct (f j x) as [y|e'] eqn:Ex; cbn [result_bind].
  - assert (Hrest : (∃ i z, l !! i = Some z ∧ f (S j + i)%nat z = Err e
        ∧ ∀ k y, (k < i)%nat → l !! k = Some y → is_ok (f (S j + k)%nat y) = true)
      ↔ ∃ i z, (x :: l) !! i = Some z ∧ f (j + i)%nat z = Err e
        ∧ ∀ k y, (k < i)%nat → (x :: l) !! k = Some y → is_ok (f (j + k)%nat y) = true).
    { split.
      - intros (i & z & Hz & He & Hk). exists (S i), z. rewrite Nat.add_succ_r. split_and!; [done|done|].
        intros [|k] w Hlt Hw; simpl in Hw; [simplify_eq; by rewrite Nat.add_0_r, Ex|].
        rewrite Nat.add_succ_r. apply Hk; [lia|done].
      - intros (i & z & Hz & He & Hk). destruct i as [|i]; simpl in Hz.
        { simplify_eq. by rewrite Nat.add_0_r, Ex in He. }
        exists i, z. rewrite Nat.add_succ_r in He. split_and!; [done|done|].
        intros k w Hlt Hw. specialize (Hk (S k) w). rewrite Nat.add_succ_r in Hk. apply Hk; [lia|done]. }
    rewrite <- Hrest, <- IH. destruct (collect_from f (S j) l); cbn [result_bind]; [done|by split; intros [= ->]].
  - split.
    + intros [= ->]. exists 0%nat, x. rewrite Nat.add_0_r. split_and!; [done|done|lia].
    + intros (i & z & Hz & He & Hk). destruct i as [|i]; simpl in Hz; [simplify_eq; rewrite Nat.add_0_r, Ex in He; congruence|].
      specialize (Hk 0%nat x). rewrite Nat.add_0_r, Ex in Hk. by specialize (Hk ltac:(lia) eq_refl).
Qed.

(** ** What compiling establishes *)

Record site_ok (s : Site F Regex Tz) : Prop := {
  so_rank : s_rank s = (host_rank (s_hostname s), match s_path s with Some p => len p | None => 0 end);
  so_something : sets_something s = true;
  so_answer : is_Some (s_answer s) →
    s_access s = None ∧ s_timeout s = None ∧ s_headers s = None ∧ s_rate_limit s = None ∧ s_canary s = None
    ∧ s_waf s = [] ∧ s_fallback s = None;
  so_path : is_Some (s_path s) →
    s_fallback s = None ∧ s_page_504 s = None ∧ s_page_503 s = None ∧ s_maintenance s = [];
  so_gate : ∀ p, s_access s = Some (SiteGate p) → gates p = true;
  so_respond : ∀ r, s_answer s = Some (AnsRespond r) → status_ok (rp_status r) = true;
  so_redirect : ∀ r, s_answer s = Some (AnsRedirect r) ∨ s_fallback s = Some r → is_url (rd_url r) = true;
  so_limit : ∀ l, s_rate_limit s = Some l →
    positive is_finite (l_rps l) = true ∧ l_methods l ≠ Some [];
  so_canary : ∀ c, s_canary s = Some c → canary_service c ≠ [] ∧ canary_weight c <= 100;
  so_waf : Forall rule_ok (s_waf s);
  so_pages : ∀ h, s_page_504 s = Some h ∨ s_page_503 s = Some h → len h <= MAX_PAGE_BYTES ∧ trim h ≠ [];
  so_windows : Forall window_ok (s_maintenance s);
  so_headers : ∀ t, s_headers s = Some t → transform_ok (ts_request t) ∧ transform_ok (ts_response t);
}.

Lemma compile_redirect_ok raw fb r : compile_redirect raw fb = Ok r → is_url (rd_url r) = true.
Proof.
  unfold compile_redirect. destruct (_ || _) eqn:E; simpl; [|done]. intros [= <-]. simpl.
  unfold is_url. by rewrite orb_comm.
Qed.

Lemma compile_page_ok name html h : compile_page name html = Ok (Some h) → len h <= MAX_PAGE_BYTES ∧ trim h ≠ [].
Proof.
  unfold compile_page. destruct html as [x|]; [|done]. destruct (Z.ltb_spec MAX_PAGE_BYTES (len x)); [done|].
  unfold non_blank. case_bool_decide; intros [= <-]. done.
Qed.

Lemma collect_Forall {A B E} (f : nat → A → result B E) (P : B → Prop) l ys :
  (∀ j x y, f j x = Ok y → P y) → collect f l = Ok ys → Forall P ys.
Proof.
  intros HP Hc. apply collect_from_Ok in Hc as [Hl Hi]. apply Forall_lookup. intros i y Hy.
  destruct (l !! i) as [x|] eqn:Ex.
  - destruct (Hi i x Ex) as (y' & Hy' & Hf). simplify_eq. by eapply HP.
  - apply lookup_ge_None in Ex. apply lookup_lt_Some in Hy. lia.
Qed.

Lemma compile_rate_limit_ok i h p raw l :
  compile_rate_limit is_finite i h p raw = Ok (Some l) →
  (positive is_finite (l_rps l) = true ∧ l_methods l ≠ Some []) ∧ l_key l = limit_key i h p (l_methods l).
Proof.
  unfold compile_rate_limit. destruct raw as [rl|]; [|done].
  destruct (positive is_finite (sr_rps rl)) eqn:E; simpl; [|done].
  destruct (match sr_burst rl with Some _ => _ | None => _ end); [done|].
  destruct (sr_methods rl) as [[|m ms]|]; intros [= <-]; by split_and!.
Qed.

Lemma compile_canary_ok raw c : compile_canary raw = Ok (Some c) → canary_service c ≠ [] ∧ canary_weight c <= 100.
Proof.
  unfold compile_canary. destruct raw as [r|]; [|done]. case_bool_decide as Hs; [done|].
  destruct (Z.ltb_spec 100 (default 0 (sc_weight r))); [done|]. intros [= <-]. by split.
Qed.

Lemma compile_access_ok raw p : compile_access raw = Ok (Some (SiteGate p)) → gates p = true.
Proof.
  unfold compile_access, gates. destruct raw as [[|spec|specs]|]; try done;
    (destruct (validate_auth_setting _); [|done]); destruct (admits_everyone _) eqn:E; intros [= <-]; cbn in *; by rewrite E.
Qed.

Lemma refuse_settings_Ok b names e u : refuse_settings b names e = Ok u → b = true → names = [].
Proof. unfold refuse_settings. intros H ->. simpl in H. by case_bool_decide; simpl in H. Qed.

Lemma written_nil settings : written settings = [] → Forall (fun s : str * bool => s.2 = false) settings.
Proof.
  unfold written. induction settings as [|[n b] l IH]; [done|]. cbn. destruct b; [done|].
  intros Hn. constructor; [done|by apply IH].
Qed.

Lemma collect_nil {A B E} (f : nat → A → result B E) ys : collect f [] = Ok ys → ys = [].
Proof. by intros [= <-]. Qed.

Ltac step_ok H :=
  match type of H with
  | result_bind ?r _ = Ok _ =>
      let x := fresh "x" in let E := fresh "E" in destruct r as [x|] eqn:E; [|discriminate H]; cbn [result_bind] in H
  end.

(** The steps of [compile_site] that produced each field. *)
Record compiled_from (i : nat) (shown : str) (raw : RawSite F) (s : Site F Regex Tz) : Prop := {
  cf_path : compile_path (rw_path raw) = Ok (s_path s);
  cf_access : compile_access (rw_access raw) = Ok (s_access s);
  cf_answer : compile_answer status_ok (rw_redirect raw) (rw_respond raw) = Ok (s_answer s);
  cf_proxied : is_some (s_answer s) = true → proxied_settings raw = [];
  cf_hostwide : is_some (s_path s) = true → hostwide_settings raw = [];
  cf_timeout : compile_timeout (rw_timeout raw) = Ok (s_timeout s);
  cf_headers : s_headers s = compile_transforms <$> rw_headers raw;
  cf_limit : compile_rate_limit is_finite i (s_hostname s) (s_path s) (rw_rate_limit raw) = Ok (s_rate_limit s);
  cf_canary : compile_canary (rw_canary raw) = Ok (s_canary s);
  cf_waf : collect (compile_waf regex_new shown) (rw_waf raw) = Ok (s_waf s);
  cf_fallback : match rw_fallback raw with
                | Some f => ∃ c, compile_redirect f true = Ok c ∧ s_fallback s = Some c
                | None => s_fallback s = None
                end;
  cf_504 : match rw_pages raw with Some p => compile_page (bs "unavailable") (pg_unavailable p)
           | None => Ok None end = Ok (s_page_504 s);
  cf_503 : match rw_pages raw with Some p => compile_page (bs "maintenance") (pg_maintenance p)
           | None => Ok None end = Ok (s_page_503 s);
  cf_windows : collect (compile_schedule UTC parse_tz parse_hm parse_hms) (rw_maintenance raw) = Ok (s_maintenance s);
  cf_rank : s_rank s = (host_rank (s_hostname s), match s_path s with Some p => len p | None => 0 end);
  cf_something : sets_something s = true;
}.

Lemma compile_site_inv i raw s :
  compile_one i raw = Ok s → compiled_from i (trim (rw_hostname raw) ++ default [] (trim <$> rw_path raw)) raw s.
Proof.
  unfold compile_site, at_site. set (shown := _ ++ _).
  destruct (compile_site_inner _ _ _ _ _ _ _ _ _ _) as [s'|] eqn:H; [|done]. intros [= ->].
  unfold compile_site_inner in H. repeat step_ok H.
  match type of H with context [sets_something ?x] => set (site := x) in H end.
  destruct (sets_something site) eqn:Hset; [|done]. injection H as <-.
  split; unfold site in *; cbn [s_rank s_hostname s_path s_access s_answer s_timeout s_headers s_rate_limit
      s_canary s_waf s_fallback s_page_504 s_page_503 s_maintenance] in *; try done;
    try (by eapply refuse_settings_Ok).
  destruct (rw_fallback raw) as [f|]; [|by simplify_eq].
  destruct (compile_redirect f true) as [c|]; [|done]. simplify_eq/=. by exists c.
Qed.

Lemma is_some_false {A} (o : option A) : is_some o = false → o = None.
Proof. by destruct o. Qed.

Lemma length_zero {A} (l : list A) : negb (bool_decide (length l = 0%nat)) = false → l = [].
Proof. rewrite negb_false_iff, bool_decide_eq_true. apply nil_length_inv. Qed.

Lemma no_proxied (raw : RawSite F) :
  proxied_settings raw = [] →
  rw_access raw = None ∧ rw_timeout raw = None ∧ rw_headers raw = None ∧ rw_rate_limit raw = None
  ∧ rw_canary raw = None ∧ rw_waf raw = [] ∧ rw_fallback raw = None.
Proof.
  intros H. apply written_nil in H. rewrite !Forall_cons in H. simpl in H.
  destruct H as (? & ? & ? & ? & ? & ? & ? & _). split_and!; auto using is_some_false, length_zero.
Qed.

Lemma no_hostwide (raw : RawSite F) :
  hostwide_settings raw = [] → rw_fallback raw = None ∧ rw_pages raw = None ∧ rw_maintenance raw = [].
Proof.
  intros H. apply written_nil in H. rewrite !Forall_cons in H. simpl in H.
  destruct H as (? & ? & ? & _). split_and!; auto using is_some_false, length_zero.
Qed.

Lemma compiled_from_ok i shown raw s : compiled_from i shown raw s → site_ok s.
Proof.
  intros [Hp Ha Hans Hprox Hhost Ht Hh Hl Hc Hw Hf H504 H503 Hm Hr Hs]. split; try done.
  - intros [a Ea]. rewrite Ea in Hprox. destruct (no_proxied raw (Hprox eq_refl)) as (E1 & E2 & E3 & E4 & E5 & E6 & E7).
    rewrite E1 in Ha. rewrite E2 in Ht. rewrite E3 in Hh. rewrite E4 in Hl. rewrite E5 in Hc.
    rewrite E6 in Hw. rewrite E7 in Hf. apply collect_nil in Hw. simpl in *. by simplify_eq.
  - intros [p Ep]. rewrite Ep in Hhost. destruct (no_hostwide raw (Hhost eq_refl)) as (E1 & E2 & E3).
    rewrite E1 in Hf. rewrite E2 in H504, H503. rewrite E3 in Hm. apply collect_nil in Hm. by simplify_eq.
  - intros p E. rewrite E in Ha. by eapply compile_access_ok.
  - intros r E. rewrite E in Hans. unfold compile_answer in Hans.
    destruct (rw_redirect raw) as [rd|], (rw_respond raw) as [rs|]; try done.
    + by destruct (compile_redirect rd false).
    + destruct (status_ok _) eqn:Es; [|done]. by simplify_eq.
  - intros r [E|E].
    + rewrite E in Hans. unfold compile_answer in Hans.
      destruct (rw_redirect raw) as [rd|], (rw_respond raw) as [rs|]; try done; [|by destruct (status_ok _)].
      destruct (compile_redirect rd false) as [c|] eqn:Ec; [|done]. simplify_eq/=. by eapply compile_redirect_ok.
    + rewrite E in Hf. destruct (rw_fallback raw); [|done]. destruct Hf as (c & Hc' & [= ->]). by eapply compile_redirect_ok.
  - intros l E. rewrite E in Hl. by apply compile_rate_limit_ok in Hl as [? _].
  - intros c E. rewrite E in Hc. by eapply compile_canary_ok.
  - eapply collect_Forall; [|exact Hw]. intros j x y. unfold compile_waf.
    destruct (compile_rule regex_new x j) as [r|] eqn:Er; [|done]. intros [= <-]. by apply compile_rule_ok in Er as [? _].
  - intros h [E|E]; [rewrite E in H504|rewrite E in H503]; destruct (rw_pages raw); try done; by eapply compile_page_ok.
  - eapply collect_Forall; [|exact Hm]. intros j x y. unfold compile_schedule.
    destruct (compile_window _ _ _ _ x) as [w|] eqn:Ew; [|done]. intros [= <-]. by eapply compile_window_ok.
  - intros t E. rewrite E in Hh. destruct (rw_headers raw); simplify_eq/=. split; apply compile_transform_ok.
Qed.

Lemma limit_key_index i j h h' p p' m m' : limit_key i h p m = limit_key j h' p' m' → i = j.
Proof.
  unfold limit_key. intros E. apply app_inv_head in E.
  assert (Hs : ∀ n r, split_once colon (show_uint (Z.of_nat n) ++ bs ":" ++ r) = Some (show_uint (Z.of_nat n), r)).
  { intros n r. apply split_once_Some. split; [done|]. intros Hin.
    destruct (show_uint_spec (Z.of_nat n)) as (_ & Hd & _); [lia|].
    rewrite forallb_Forall, Forall_forall in Hd. by apply Hd in Hin. }
  pose proof (f_equal (split_once colon) E) as E'. rewrite !Hs in E'. injection E' as E' _.
  apply (f_equal (parse_uint (Z.of_nat i + Z.of_nat j))) in E'. rewrite !parse_show_uint in E' by lia.
  injection E'. lia.
Qed.

Lemma NoDup_omap_keys {A B} (f : A → option B) (l : list A) :
  (∀ i j a b x, l !! i = Some a → l !! j = Some b → f a = Some x → f b = Some x → i = j) → NoDup (omap f l).
Proof.
  induction l as [|a l IH]; intros Hinj; [constructor|].
  assert (IHl : NoDup (omap f l)).
  { apply IH. intros i j x y z Hi Hj Hx Hy. by specialize (Hinj (S i) (S j) x y z Hi Hj Hx Hy) as [= ->]. }
  cbn. destruct (f a) as [x|] eqn:Ea; [|done]. constructor; [|done]. intros Hin.
  apply list_elem_of_omap in Hin as (b & Hb & Hfb). apply list_elem_of_lookup in Hb as [j Hj].
  by specialize (Hinj 0%nat (S j) a b x eq_refl Hj Ea Hfb).
Qed.

Lemma compile_sites_Ok raw sites :
  compile_all raw = Ok sites ↔ ∃ written, collect compile_one raw = Ok written ∧ sites = sort_sites written.
Proof.
  unfold compile_sites. split.
  - intros H. destruct (collect _ raw) as [w|]; [|done]. injection H as <-. by exists w.
  - by intros (w & -> & ->).
Qed.

Lemma compiled_sites_ok raw sites : compile_all raw = Ok sites → Forall site_ok sites.
Proof.
  intros H. apply compile_sites_Ok in H as (w & Hw & ->). rewrite sort_sites_perm.
  eapply collect_Forall; [|exact Hw]. intros j x y Hy. by eapply compiled_from_ok, compile_site_inv.
Qed.

Lemma compiled_limit_keys raw sites :
  compile_all raw = Ok sites → NoDup (omap (fun s => l_key <$> s_rate_limit s) sites).
Proof.
  intros H. apply compile_sites_Ok in H as (w & Hw & ->). rewrite sort_sites_perm.
  apply collect_from_Ok in Hw as [Hlen Hi].
  assert (Hkey : ∀ i a x, w !! i = Some a → l_key <$> s_rate_limit a = Some x →
            ∃ h p m, x = limit_key i h p m).
  { intros i a x Ha Hx. destruct (raw !! i) as [r|] eqn:Er.
    - destruct (Hi i r Er) as (a' & Ha' & Hc). simplify_eq. apply compile_site_inv in Hc.
      destruct (s_rate_limit a) as [l|] eqn:El; [|done]. injection Hx as <-.
      pose proof (cf_limit _ _ _ _ Hc) as Hl. rewrite El in Hl. apply compile_rate_limit_ok in Hl as [_ ->]. by eauto.
    - apply lookup_ge_None in Er. apply lookup_lt_Some in Ha. lia. }
  apply NoDup_omap_keys. intros i j a b x Ha Hb Hx Hy.
  destruct (Hkey i a x Ha Hx) as (h & p & m & ->). destruct (Hkey j b _ Hb Hy) as (h' & p' & m' & E).
  by eapply limit_key_index.
Qed.

(** C39: A stored site always works. Whatever compiles gates with a policy that
    does not admit everyone, never both answers by itself and carries policy on
    proxied traffic, keeps what is about a hostname off a path, has a positive
    rate, a canary weight of at most a hundred, firewall rules that ask for
    something, windows that are not empty and edits that replace what they add;
    and no two sites share a rate bucket. *)
Theorem compiled_sites_well_formed raw sites :
  compile_all raw = Ok sites →
  Forall site_ok sites ∧ StronglySorted by_rank sites
  ∧ NoDup (omap (fun s => l_key <$> s_rate_limit s) sites).
Proof.
  intros H. split_and!; [by eapply compiled_sites_ok| |by eapply compiled_limit_keys].
  apply compile_sites_Ok in H as (w & _ & ->). apply sort_sites_sorted.
Qed.

(** A list of sites is refused exactly for its first site that cannot work,
    and the error names that site; otherwise every site is kept, in order of
    specificity. *)
Theorem compile_sites_exact raw :
  match compile_all raw with
  | Ok sites => ∃ written, sites ≡ₚ written ∧ length written = length raw
      ∧ (∀ i r, raw !! i = Some r → ∃ s, written !! i = Some s ∧ compile_one i r = Ok s)
  | Err (i, shown, e) => ∃ r, raw !! i = Some r ∧ compile_one i r = Err (i, shown, e)
      ∧ (∀ k r', (k < i)%nat → raw !! k = Some r' → is_ok (compile_one k r') = true)
  end.
Proof.
  unfold compile_sites. destruct (collect compile_one raw) as [w|e] eqn:E; cbn [result_bind].
  - exists w. apply collect_from_Ok in E as [Hl Hi]. split_and!; [apply sort_sites_perm|done|exact Hi].
  - apply collect_from_Err in E as (i & r & Hr & He & Hk). destruct e as [[i' shown] e].
    assert (i' = i) as ->.
    { simpl in He. unfold compile_site, at_site in He. destruct (compile_site_inner _ _ _ _ _ _ _ _ _ _); by simplify_eq. }
    exists r. by split_and!.
Qed.

(** The most specific site wins. Each setting a request takes comes from a
    matching site that writes it, no matching site that writes it is more
    specific, and of equally specific ones it is the first as written; when no
    matching site writes it there is none. *)
Theorem most_specific_site_wins raw sites written host path :
  collect compile_one raw = Ok written → compile_all raw = Ok sites →
  let here := site_matches host path in
  let all := site_hostwide host in
  wins written here s_access (access_for sites host path)
  ∧ wins written here s_timeout (timeout_for sites host path)
  ∧ wins written here s_canary (canary_for sites host path)
  ∧ wins written all s_fallback (fallback_for sites host)
  ∧ wins written all s_page_504 (page_504 sites host)
  ∧ wins written all s_page_503 (page_503 sites host).
Proof.
  intros Hw Hs here all. apply compile_sites_Ok in Hs as (w & Hw' & ->).
  assert (w = written) as -> by congruence. split_and!; apply find_map_wins.
Qed.

(** The edits of the layers, broadest first, leave a name the values of the
    narrowest layer that mentions it. *)
Lemma layers_last_word name (ts : list HeaderTransform) hs :
  Forall transform_ok ts →
  values name (fold_left (fun hs t => apply_transform t hs) (rev ts) hs)
  = match find (mentions name) ts with Some t => values name (t_add t) | None => values name hs end.
Proof.
  intros Hok. induction Hok as [|t ts Ht Hok IH]; [done|].
  cbn [rev]. rewrite fold_left_app. simpl. rewrite values_apply by done.
  destruct (mentions name t); [done|exact IH].
Qed.

(** In header edits the narrowest site has the last word: after all layers a
    name has the values of the most specific matching site whose edits mention
    it, and its own values when none does. *)
Theorem site_headers_last_word raw sites host path name hs (dir : HeaderTransforms → HeaderTransform) :
  compile_all raw = Ok sites → dir = ts_request ∨ dir = ts_response →
  values name (layered sites host path hs dir)
  = match find (mentions name) (dir <$> omap s_headers (matching sites host path)) with
    | Some t => values name (t_add t)
    | None => values name hs
    end.
Proof.
  intros Hs Hdir. apply compiled_sites_ok in Hs as Hok.
  assert (Hts : Forall transform_ok (dir <$> omap s_headers (matching sites host path))).
  { apply Forall_fmap, Forall_forall. intros t Ht. apply list_elem_of_omap in Ht as (s & Hin & Es).
    apply list_elem_of_filter in Hin as [_ Hin]. rewrite Forall_forall in Hok.
    destruct (so_headers _ (Hok s Hin) t Es). by destruct Hdir as [-> | ->]. }
  rewrite <- layers_last_word by done. unfold layered. destruct sites as [|s l]; [done|].
  rewrite <- map_rev. generalize (rev (omap s_headers (matching (s :: l) host path))). intros ts.
  f_equal. clear. revert hs. induction ts as [|t ts IH]; intros hs; [done|]. apply IH.
Qed.

End Compiled.

(** ** Settings that add up *)

Lemma find_is_Some {A} (p : A → bool) l : is_Some (find p l) ↔ ∃ x, x ∈ l ∧ p x = true.
Proof.
  split.
  - intros [x Hx]. apply find_some in Hx as [Hin Hp]. exists x. split; [|done]. by apply list_elem_of_In.
  - intros (x & Hin & Hp). destruct (find p l) eqn:E; [done|]. apply list_elem_of_In in Hin.
    by rewrite (find_none _ _ E x Hin) in Hp.
Qed.

Lemma find_map_is_Some {A B} (f : A → option B) l : is_Some (find_map f l) ↔ ∃ x, x ∈ l ∧ is_Some (f x).
Proof.
  induction l as [|a l IH]; simpl; [split; [by intros []|intros (x & Hx & _); set_solver]|].
  destruct (f a) as [b|] eqn:E.
  - split; [|done]. intros _. exists a. rewrite E. set_solver.
  - rewrite IH. split; intros (x & Hx & Hf); [exists x; set_solver|].
    apply elem_of_cons in Hx as [-> | Hx]; [by rewrite E in Hf; destruct Hf|by exists x].
Qed.

(** Firewall rules add up. A request is refused exactly when a deny rule of
    some matching site fires, whichever site wins its other settings, and a body
    exactly when a size rule of one does; so a site added beside others never
    lets through what they refuse, and the fast path never hides a rule. *)
Theorem site_waf_adds_up {F Regex Tz} (is_match : Regex → str → bool) (sites : list (Site F Regex Tz))
    host method path hs body_len :
  let fires (p : WafRule Regex → bool) l :=
    ∃ s r, s ∈ l ∧ site_matches host path s = true ∧ r ∈ s_waf s ∧ p r = true in
  (is_Some (waf_deny is_match sites host method path hs)
     ↔ fires (fun r => denies is_match r method path hs) sites)
  ∧ (is_Some (waf_body is_match sites host method path hs body_len)
     ↔ fires (fun r => refuses_body is_match r method path hs body_len) sites)
  ∧ (∀ more, sites ⊆ more → is_Some (waf_deny is_match sites host method path hs) →
       is_Some (waf_deny is_match more host method path hs))
  ∧ (has_waf sites = false → waf_deny is_match sites host method path hs = None
       ∧ waf_body is_match sites host method path hs body_len = None).
Proof.
  intros fires.
  assert (Hfires : ∀ p l, is_Some (find p (concat (s_waf <$> matching l host path))) ↔ fires p l).
  { intros p l. rewrite find_is_Some. split.
    - intros (r & Hr & Hp). apply elem_of_concat_fmap in Hr as (s & Hs & Hr).
      apply list_elem_of_filter in Hs as [Hm Hs]. by exists s, r.
    - intros (s & r & Hs & Hm & Hr & Hp). exists r. split; [|done]. apply elem_of_concat_fmap.
      exists s. split; [|done]. by apply list_elem_of_filter. }
  split_and!; [apply Hfires|apply Hfires| |].
  - intros more Hsub Hd. apply Hfires in Hd as (s & r & Hs & Hrest). apply Hfires. exists s, r. set_solver.
  - intros Hno. apply existsb_false in Hno. rewrite Forall_forall in Hno.
    assert (Hnone : ∀ p, find p (concat (s_waf <$> matching sites host path)) = None).
    { intros p. apply eq_None_not_Some. intros Hp. apply Hfires in Hp as (s & r & Hs & _ & Hr & _).
      apply Hno, length_zero in Hs. rewrite Hs in Hr. set_solver. }
    split; apply Hnone.
Qed.

(** A hostname is under maintenance exactly while an occurrence of some
    window of a site covering it runs whose end exists on the local clock: the
    day an occurrence starts is one the window lists, and a window that wraps
    midnight runs on into the day after, listed or not. *)
Theorem site_maintenance_exact {F Regex Tz} (local : Tz → Z → option (Z * Z)) earliest weekday succ_opt pred_opt
    (sites : list (Site F Regex Tz)) host now :
  is_Some (site_maintenance_for local earliest weekday succ_opt pred_opt sites host now) ↔
  ∃ s w date time d d_end,
    s ∈ sites ∧ site_hostwide host s = true ∧ w ∈ s_maintenance s
    ∧ local (w_tz w) now = Some (date, time)
    ∧ occurrence weekday succ_opt pred_opt w d d_end date time
    ∧ is_Some (earliest (w_tz w) d_end (w_end w)).
Proof.
  unfold site_maintenance_for. rewrite find_map_is_Some. split.
  - intros (w & Hw & Ha). apply elem_of_concat_fmap in Hw as (s & Hs & Hw).
    apply list_elem_of_filter in Hs as [Hh Hs]. apply fmap_is_Some in Ha as [u Hu].
    apply active_until_spec in Hu as (date & time & d & d_end & Hl & Ho & Hi).
    exists s, w, date, time, d, d_end. split_and!; try done. unfold instant_of in Hi.
    by destruct (earliest _ _ _).
  - intros (s & w & date & time & d & d_end & Hs & Hh & Hw & Hl & Ho & [u Hu]). exists w. split.
    + apply elem_of_concat_fmap. exists s. split; [by apply list_elem_of_filter|done].
    + apply fmap_is_Some. exists (Z.max 0 u). apply active_until_spec. exists date, time, d, d_end.
      split_and!; [done|done|]. unfold instant_of. by rewrite Hu.
Qed.

(** ** Witnesses and examples *)

Module Samples.

(** A raw site with only a hostname. *)
Definition bare (hostname : string) : RawSite Q :=
  {| rw_hostname := bs hostname; rw_path := None; rw_access := None; rw_redirect := None; rw_respond := None;
     rw_timeout := None; rw_headers := None; rw_rate_limit := None; rw_canary := None; rw_waf := [];
     rw_fallback := None; rw_pages := None; rw_maintenance := [] |}.

Definition edits (add : list (str * str)) (remove : list str) : HeaderRules :=
  {| r_request := None; r_response := Some {| d_add := add; d_remove := remove |} |}.

Definition timed (hostname : string) (path : option str) (ms : Z) (h : HeaderRules) : RawSite Q :=
  {| rw_hostname := bs hostname; rw_path := path; rw_access := None; rw_redirect := None; rw_respond := None;
     rw_timeout := Some ms; rw_headers := Some h;
     rw_rate_limit := Some {| sr_rps := 5%Q; sr_burst := None; sr_methods := Some [bs " post"] |};
     rw_canary := None; rw_waf := [];
     rw_fallback := None; rw_pages := None; rw_maintenance := [] |}.

(** Any text is a pattern, matched where it occurs; every zone is UTC. *)
Definition compile_with := compile_site (F := Q) (fun _ => true) (fun r => Some r) (fun _ => true)
  tt (fun _ => Some tt) (fun _ => None) (fun _ => None).
Definition compile_all_with := compile_sites (F := Q) (fun _ => true) (fun r => Some r) (fun _ => true)
  tt (fun _ => Some tt) (fun _ => None) (fun _ => None).

Definition two : list (RawSite Q) :=
  [timed "*" None 60000 (edits [(bs "X-Env", bs "prod"); (bs "Server", bs "aperio")] []);
   timed "app.example.com" (Some (bs "/api/")) 2000 (edits [(bs "x-env", bs "api")] [])].

Definition value {A E} (r : result (list A) E) : list A := match r with Ok l => l | Err _ => [] end.

Lemma most_specific_site_wins_witness :
  timeout_for (value (compile_all_with two)) (Some (bs "app.example.com")) (bs "/api/v1") = Some 2
  ∧ wins (value (collect compile_with two)) (site_matches (Some (bs "app.example.com")) (bs "/api/v1")) s_timeout
      (timeout_for (value (compile_all_with two)) (Some (bs "app.example.com")) (bs "/api/v1")).
Proof.
  split; [vm_compute; reflexivity|].
  apply (most_specific_site_wins (F := Q) (fun _ => true) (fun r => Some r) (fun _ => true)
           tt (fun _ => Some tt) (fun _ => None) (fun _ => None) two); vm_compute; reflexivity.
Defined.

Lemma compiled_sites_well_formed_witness :
  NoDup (omap (fun s => l_key <$> s_rate_limit s) (value (compile_all_with two))).
Proof.
  apply (compiled_sites_well_formed (F := Q) (fun _ => true) (fun r => Some r) (fun _ => true)
           tt (fun _ => Some tt) (fun _ => None) (fun _ => None) two).
  vm_compute. reflexivity.
Defined.

Lemma site_headers_last_word_witness :
  values (bs "X-ENV") (layered (value (compile_all_with two)) (Some (bs "app.example.com")) (bs "/api") [] ts_response)
  = [bs "api"].
Proof.
  rewrite (site_headers_last_word (F := Q) (fun _ => true) (fun r => Some r) (fun _ => true)
             tt (fun _ => Some tt) (fun _ => None) (fun _ => None) two); [|vm_compute; reflexivity|by right].
  vm_compute. reflexivity.
Defined.

(** Errors name the first site that cannot work. *)
Example first_bad_site :
  compile_all_with [timed "*" None 5000 (edits [] []); bare "app.example.com"; bare "not a host"]
  = Err (1%nat, bs "app.example.com", SetsNothing).
Proof. vm_compute. reflexivity. Qed.

(** A window whose end falls in the hour a daylight-saving change skips does not
    run at all that day, where the source means it to run without a known end. *)
Example skipped_end_never_runs :
  let w := {| w_start := 60; w_end := 150; w_days := []; w_tz := tt; w_reason := None |} in
  let skipped (_ : unit) (d t : Z) := if (120 <=? t) && (t <? 180) then None else Some (d * 1440 + t) in
  active_until (fun _ now => Some (now / 1440, now mod 1440)) skipped (fun _ => Sun) (fun d => Some (d + 1))
    (fun d => Some (d - 1)) w 90 = None.
Proof. vm_compute. reflexivity. Qed.

End Samples.
