(* ===== verification/Limits.v ===== *)
(** What refuses a request and how it says so, [aperio-server/src/limits.rs], and
    the slots a request or a stream holds while it runs, [state.rs] and
    [state/limits.rs]: the server-wide ceilings on requests and on WebSockets, two
    counters moved by compare-and-swap and released by a guard, and the open
    streams of one visitor address, a counter per address under a lock. *)

From S2P Require Import Prelude IpNet RateLimit Sites.

#[export] Instance ipaddr_countable : Countable ipaddr.
Proof.
  apply (inj_countable' (fun ip => match ip with V4 n => inl n | V6 n => inr n end)
           (fun x => match x with inl n => V4 n | inr n => V6 n end)).
  by intros [].
Defined.

(** ** Naming the limit *)

Definition LIMIT_HEADER : str := bs "x-aperio-limit".

Definition kind (l : Limit) : str :=
  match l with
  | LIp => bs "ip" | LServerConcurrency => bs "server-concurrency" | LRoute => bs "route"
  | LClientConcurrency => bs "client-concurrency" | TokenRate => bs "token-rate" | TokenQuota => bs "token-quota"
  | LOrgQuota => bs "org-quota" | LStreamsPerIp => bs "streams-per-ip"
  end.

Definition setting (l : Limit) : str :=
  match l with
  | LIp => bs "limits.ip_rate" | LServerConcurrency => bs "limits.concurrent_requests" | LRoute => bs "sites"
  | LClientConcurrency => bs "service.limits.concurrent_requests" | TokenRate => bs "token.max_rps"
  | TokenQuota => bs "token.daily_max_bytes" | LOrgQuota => bs "organization.monthly_max_bytes"
  | LStreamsPerIp => bs "limits.streams_per_ip"
  end.

Definition explain (l : Limit) : str :=
  match l with
  | LIp => bs "per-visitor IP rate limit (limits.ip_rate in the server settings)"
  | LServerConcurrency => bs "server-wide in-flight request limit (limits.concurrent_requests in the server settings)"
  | LRoute => bs "per-site rate limit (a site's rate_limit matched this hostname and path)"
  | LStreamsPerIp =>
      bs "the per-visitor limit on concurrently open streamed responses (limits.streams_per_ip in the server settings)"
  | LClientConcurrency =>
      bs "the serving client's own concurrency limit (limits.concurrent_requests in its aperio.yaml); no slot freed before the gateway timeout"
  | TokenRate => bs "the access token's requests-per-second limit (max_rps on the token)"
  | TokenQuota => bs "the access token's daily byte quota (daily_max_bytes on the token)"
  | LOrgQuota => bs "the organization's monthly byte quota"
  end.

Definition limit_retry_after (l : Limit) : option Z :=
  match l with
  | LIp | LServerConcurrency | LRoute | LClientConcurrency | TokenRate | LStreamsPerIp => Some 1
  | TokenQuota | LOrgQuota => None
  end.

Definition log_detail (l : Limit) : str := bs "429 " ++ kind l ++ bs ": " ++ explain l.

Definition ALL_LIMITS : list Limit :=
  [LIp; LServerConcurrency; LRoute; LClientConcurrency; TokenRate; TokenQuota; LOrgQuota; LStreamsPerIp].

(** The counters, one per kind in the order of [ALL_LIMITS]. *)
Definition limit_index (l : Limit) : nat := default 0%nat (find_index (fun m => bool_decide (m = l)) ALL_LIMITS).
Definition record_limit (l : Limit) (counts : list Z) : list Z := alter (fun n => wrap64 (n + 1)) (limit_index l) counts.
Definition get_limit (l : Limit) (counts : list Z) : option Z := counts !! limit_index l.

Definition newline : str := [chr 10].

Definition too_many_requests (l : Limit) : Response :=
  {| rsp_status := 429;
     rsp_headers := (LIMIT_HEADER, kind l ++ bs "; setting=" ++ setting l)
                    :: match limit_retry_after l with Some s => [(bs "retry-after", show_uint s)] | None => [] end;
     rsp_body := bs "429 Too Many Requests - " ++ explain l ++ newline |}.

Definition refuse (counts : list Z) (l : Limit) : Response * list Z := (too_many_requests l, record_limit l counts).

(** ** Slots *)

(** The loop of [try_acquire_request_slot] and [try_acquire_ws_slot]: [current] is
    what the load saw, [observed] what each failed exchange saw. [Some n]: the
    exchange from [n] to [n + 1] succeeded; the outer [None] while it loops. *)
Fixpoint try_acquire (limit current : Z) (observed : list (option Z)) : option (option Z) :=
  if limit <=? current then Some None
  else match observed with
       | [] => None
       | None :: _ => Some (Some current)
       | Some seen :: rest => try_acquire limit seen rest
       end.

Definition try_acquire_stream_slot (limit : Z) (ip : ipaddr) (counts : gmap ipaddr Z) : bool * gmap ipaddr Z :=
  if limit =? 0 then (false, counts)
  else
    let entry := default 0 (counts !! ip) in
    if limit <=? entry then (false, <[ip := entry]> counts) else (true, <[ip := entry + 1]> counts).

Definition drop_stream_slot (ip : ipaddr) (counts : gmap ipaddr Z) : gmap ipaddr Z :=
  match counts !! ip with
  | Some n => if sat_sub n 1 =? 0 then delete ip counts else <[ip := sat_sub n 1]> counts
  | None => counts
  end.

(** *** The holders of the slots *)

(** A server's slots: the two counters with the guards that stand for them, and
    the per-address counts with the streams that hold them. *)
Record Holds : Type := {
  active : Z;
  guards : gset Z;
  stream_counts : gmap ipaddr Z;
  streaming : gmap Z ipaddr;
}.

(** Handlers come and go; a ceiling is read anew by every attempt. A refused
    attempt may leave its address in the map as [or_insert] does. *)
Inductive hold_step : Holds → Holds → Prop :=
| hold_take s k limit observed :
    limit <= usize_max → k ∉ guards s → try_acquire limit (active s) observed = Some (Some (active s)) →
    hold_step s {| active := active s + 1; guards := {[k]} ∪ guards s; stream_counts := stream_counts s;
                   streaming := streaming s |}
| hold_release s k :
    k ∈ guards s →
    hold_step s {| active := wrap64 (active s - 1); guards := guards s ∖ {[k]}; stream_counts := stream_counts s;
                   streaming := streaming s |}
| hold_stream s k ip limit counts :
    0 <= limit → streaming s !! k = None → try_acquire_stream_slot limit ip (stream_counts s) = (true, counts) →
    hold_step s {| active := active s; guards := guards s; stream_counts := counts;
                   streaming := <[k := ip]> (streaming s) |}
| hold_refused s ip limit counts :
    0 <= limit → try_acquire_stream_slot limit ip (stream_counts s) = (false, counts) →
    hold_step s {| active := active s; guards := guards s; stream_counts := counts; streaming := streaming s |}
| hold_end s k ip :
    streaming s !! k = Some ip →
    hold_step s {| active := active s; guards := guards s; stream_counts := drop_stream_slot ip (stream_counts s);
                   streaming := delete k (streaming s) |}.

Definition no_holds : Holds := {| active := 0; guards := ∅; stream_counts := ∅; streaming := ∅ |}.

Definition of_ip (ip : ipaddr) (m : gmap Z ipaddr) : nat := size (filter (fun kv => kv.2 = ip) m).

Record holds_ok (s : Holds) : Prop := {
  ho_active : active s = Z.of_nat (size (guards s));
  ho_fits : active s <= usize_max;
  ho_counts : ∀ ip, default 0 (stream_counts s !! ip) = Z.of_nat (of_ip ip (streaming s));
  ho_positive : ∀ ip n, stream_counts s !! ip = Some n → 0 < n;
}.

Lemma try_acquire_Some limit current observed n : try_acquire limit current observed = Some (Some n) → n < limit.
Proof.
  revert current. induction observed as [|[seen|] rest IH]; intros current; simpl; destruct (Z.leb_spec limit current); intros E;
    simplify_eq; eauto.
Qed.

Lemma of_ip_insert ip jp k m :
  m !! k = None → of_ip ip (<[k := jp]> m) = ((if decide (jp = ip) then 1 else 0) + of_ip ip m)%nat.
Proof.
  intros Hk. unfold of_ip. destruct (decide (jp = ip)) as [->|Hn].
  - rewrite map_filter_insert_True by done. rewrite map_size_insert_None; [done|].
    apply map_lookup_filter_None. by left.
  - rewrite map_filter_insert_False by done. rewrite delete_id by done. done.
Qed.

Lemma of_ip_delete ip jp k m :
  m !! k = Some jp → of_ip ip m = ((if decide (jp = ip) then 1 else 0) + of_ip ip (delete k m))%nat.
Proof.
  intros Hk. rewrite <- (insert_delete_id m k jp Hk) at 1. apply of_ip_insert, lookup_delete_eq.
Qed.

Lemma stream_taken limit ip counts counts' :
  0 <= limit → (∀ jp n, counts !! jp = Some n → 0 < n) → try_acquire_stream_slot limit ip counts = (true, counts') →
  default 0 (counts !! ip) < limit ∧ counts' = <[ip := default 0 (counts !! ip) + 1]> counts.
Proof.
  intros Hl Hp. unfold try_acquire_stream_slot. destruct (limit =? 0); [done|].
  destruct (Z.leb_spec limit (default 0 (counts !! ip))); intros E; simplify_eq. split; [lia|done].
Qed.

(** A refusal leaves the counts as they were: it happens where there already is an entry. *)
Lemma stream_refused limit ip counts counts' :
  0 <= limit → (∀ jp n, counts !! jp = Some n → 0 < n) → try_acquire_stream_slot limit ip counts = (false, counts') →
  counts' = counts.
Proof.
  intros Hl Hp. unfold try_acquire_stream_slot. destruct (Z.eqb_spec limit 0); [by intros [= <-]|].
  destruct (Z.leb_spec limit (default 0 (counts !! ip))) as [H|H]; intros E; simplify_eq.
  destruct (counts !! ip) as [n0|] eqn:E; simpl in *; [by apply insert_id|lia].
Qed.

Lemma holds_ok_step s s' : holds_ok s → hold_step s s' → holds_ok s'.
Proof.
  intros [Ha Hf Hc Hp]. destruct 1 as [s k limit obs Hl Hk Ht|s k Hk|s k ip limit counts Hl Hk Ht|s ip limit counts Hl Ht|s k ip Hk].
  - apply try_acquire_Some in Ht. split; simpl; [|lia|done|done]. rewrite size_union, size_singleton by set_solver. lia.
  - assert (Hs : size (guards s) = S (size (guards s ∖ {[k]}))).
    { rewrite size_difference by set_solver. rewrite size_singleton. assert (size (guards s) ≠ 0%nat); [|lia].
      apply size_non_empty_iff. set_solver. }
    split; simpl; [|unfold wrap64|done|done].
    + rewrite wrap64_small; [lia|]. unfold usize_max, u64_max in *. lia.
    + rewrite Z.mod_small; unfold usize_max, u64_max in *; lia.
  - apply stream_taken in Ht as [Hlt ->]; [|done|done]. split; simpl; [done|done| |].
    + intros jp. rewrite of_ip_insert by done. destruct (decide (ip = jp)) as [<-|Hn].
      * rewrite lookup_insert_eq. simpl. rewrite Hc. lia.
      * rewrite lookup_insert_ne by done. by rewrite Hc.
    + intros jp n. destruct (decide (ip = jp)) as [<-|Hn].
      * rewrite lookup_insert_eq. intros [= <-]. rewrite Hc. lia.
      * rewrite lookup_insert_ne by done. apply Hp.
  - apply stream_refused in Ht as ->; [|done|done]. by split.
  - pose proof (fun jp => of_ip_delete jp ip k (streaming s) Hk) as Hd.
    assert (Hi : ∃ n, stream_counts s !! ip = Some n ∧ n = Z.of_nat (of_ip ip (streaming s))).
    { pose proof (Hd ip) as Hi. rewrite decide_True in Hi by done. pose proof (Hc ip) as H.
      destruct (stream_counts s !! ip) as [n|]; simpl in H; [by exists n|lia]. }
    destruct Hi as (n & Hn & En). unfold drop_stream_slot. simpl. rewrite Hn.
    pose proof (Hd ip) as Hip. rewrite decide_True in Hip by done. pose proof (Hp ip n Hn) as Hpos.
    assert (Hsat : sat_sub n 1 = n - 1) by (unfold sat_sub; lia). rewrite Hsat.
    split; simpl; [done|done| |]; intros jp; (destruct (decide (ip = jp)) as [<-|Hne]); destruct (Z.eqb_spec (n - 1) 0).
    + rewrite lookup_delete_eq. simpl. lia.
    + rewrite lookup_insert_eq. simpl. lia.
    + rewrite lookup_delete_ne by done. rewrite Hc, Hd, decide_False by done. done.
    + rewrite lookup_insert_ne by done. rewrite Hc, Hd, decide_False by done. done.
    + intros m. by rewrite lookup_delete_eq.
    + intros m. rewrite lookup_insert_eq. intros [= <-]. lia.
    + intros m. rewrite lookup_delete_ne by done. apply Hp.
    + intros m. rewrite lookup_insert_ne by done. apply Hp.
Qed.

Lemma no_holds_ok : holds_ok no_holds.
Proof.
  split; simpl; [done|unfold usize_max, u64_max; lia| |by intros ip n; rewrite lookup_empty].
  intros ip. rewrite lookup_empty. unfold of_ip. by rewrite map_filter_empty, map_size_empty.
Qed.

(** a slot is held exactly while its request or stream lives. In every run of
    handlers taking, being refused and releasing slots, under ceilings that may
    change between attempts, the server-wide counter is the number of guards alive
    and an address's count is the number of streams it has open, with no entry for
    an address that has none; an attempt that succeeds was below its ceiling. *)
Theorem slots_exact s s' :
  rtc hold_step no_holds s → hold_step s s' →
  active s' = Z.of_nat (size (guards s'))
  ∧ (∀ ip, default 0 (stream_counts s' !! ip) = Z.of_nat (of_ip ip (streaming s')))
  ∧ (∀ ip, of_ip ip (streaming s') = 0%nat → stream_counts s' !! ip = None)
  ∧ (∀ limit current observed n, try_acquire limit current observed = Some (Some n) → n + 1 <= limit)
  ∧ (∀ limit ip counts, 0 <= limit → try_acquire_stream_slot limit ip (stream_counts s) = (true, counts) →
       Z.of_nat (of_ip ip (streaming s)) + 1 <= limit).
Proof.
  intros Hr Hs. assert (Hok : holds_ok s).
  { revert Hr. generalize no_holds_ok. generalize no_holds. intros s0 H0 Hr. induction Hr; eauto using holds_ok_step. }
  pose proof (holds_ok_step _ _ Hok Hs) as Hok'. destruct Hok as [_ _ Hc Hp], Hok' as [Ha' _ Hc' Hp']. split_and!; try done.
  - intros ip E. pose proof (Hc' ip) as H. rewrite E in H. destruct (stream_counts s' !! ip) as [n|] eqn:En; [|done].
    apply Hp' in En. simpl in H. lia.
  - intros limit current observed n H%try_acquire_Some. lia.
  - intros limit ip counts Hl [H _]%stream_taken; [|done|done]. rewrite <- Hc. lia.
Qed.

Lemma slots_exact_witness :
  (let s := {| active := 1; guards := {[3]}; stream_counts := ∅; streaming := ∅ |} in
   active s = Z.of_nat (size (guards s))).
Proof.
  pose (s := {| active := 1; guards := {[3]}; stream_counts := ∅; streaming := ∅ |}).
  refine (proj1 (slots_exact no_holds s (rtc_refl _ _) _)).
  replace s with {| active := active no_holds + 1; guards := {[3]} ∪ guards no_holds;
                    stream_counts := stream_counts no_holds; streaming := streaming no_holds |} by reflexivity.
  apply (hold_take no_holds 3 2 [Some 0; None]); [unfold usize_max, u64_max; lia|set_solver|reflexivity].
Defined.

(** The refusal names the limit: the header alone tells which one it was. *)
Theorem refusal_names_limit l l' :
  header_get LIMIT_HEADER (rsp_headers (too_many_requests l)) = header_get LIMIT_HEADER (rsp_headers (too_many_requests l')) ↔ l = l'.
Proof. split; [|by intros ->]. destruct l, l'; vm_compute; by intros. Qed.

(** Every refusal is counted, under its own kind and no other. *)
Theorem refusal_counted counts l l' :
  get_limit l' (refuse counts l).2
  = (if decide (l = l') then (fun n => wrap64 (n + 1)) <$> get_limit l' counts else get_limit l' counts).
Proof.
  unfold refuse, record_limit, get_limit. simpl. destruct (decide (l = l')) as [->|Hn].
  - by rewrite list_lookup_alter_eq.
  - rewrite list_lookup_alter_ne; [done|]. destruct l, l'; try done; vm_compute; lia.
Qed.
