(* ===== verification/Grants.v ===== *)
(** What a dashboard identity may do, per organization:
    [aperio-server/src/store/grants.rs], the roles of [store/users.rs] and the
    resolved caller of [auth/caller.rs]. Error texts are the cases that produce
    them. *)

From Stdlib Require Import Sorting.Sorted Sorting.Permutation.
From S2P Require Import Prelude VisitorAuth.

(** ** Roles and organizations *)

Inductive Role : Type := Viewer | Operator | Admin.

#[export] Instance Role_eq : EqDecision Role.
Proof. solve_decision. Defined.

(** The derived order: by privilege. *)
Definition role_rank (r : Role) : Z := match r with Viewer => 0 | Operator => 1 | Admin => 2 end.

Definition role_parse (raw : str) : option Role :=
  let r := lower (trim raw) in
  if str_eqb r (bs "viewer") then Some Viewer
  else if str_eqb r (bs "operator") then Some Operator
  else if str_eqb r (bs "admin") then Some Admin
  else None.

Definition role_as_str (r : Role) : str :=
  match r with Viewer => bs "viewer" | Operator => bs "operator" | Admin => bs "admin" end.

Definition ALL_ORGS : str := bs "*".
Definition MASTER_ID : str := bs "master".

Inductive GrantOrg : Type :=
| Master
| All
| Child (id : str).

#[export] Instance GrantOrg_eq : EqDecision GrantOrg.
Proof. solve_decision. Defined.

Definition org_parse (raw : str) : GrantOrg :=
  let raw := trim raw in
  if str_eqb raw [] || eq_ignore_case raw MASTER_ID then Master
  else if str_eqb raw ALL_ORGS then All
  else Child raw.

Definition org_as_str (o : GrantOrg) : str :=
  match o with Master => MASTER_ID | All => ALL_ORGS | Child id => id end.

Definition from_org_id (org_id : option str) : GrantOrg :=
  match org_id with None => Master | Some id => Child id end.

Definition covers (o : GrantOrg) (org : option str) : bool :=
  match o with
  | All => true
  | Master => negb (is_some org)
  | Child id => bool_decide (org = Some id)
  end.

(** ** Grants *)

Record Grant : Type := {
  g_org : GrantOrg;
  g_role : Role;
  g_source : option str;
  g_source_org : option str;
}.

#[export] Instance Grant_eq : EqDecision Grant.
Proof. solve_decision. Defined.

Definition new_grant (org : GrantOrg) (role : Role) : Grant :=
  {| g_org := org; g_role := role; g_source := None; g_source_org := None |}.

Definition mapped_grant (org : GrantOrg) (role : Role) (group : str) : Grant :=
  {| g_org := org; g_role := role; g_source := Some group; g_source_org := None |}.

Definition grant_label (g : Grant) : str := org_as_str (g_org g) ++ bs ":" ++ role_as_str (g_role g).

Inductive grant_error : Type :=
| NotAPair
| ExposeInRole
| UnknownRole
| AnotherOrg
| NotAMapping
| NoGrants.

Definition parse_grant (raw : str) : result Grant grant_error :=
  match rsplit_once ":"%char (trim raw) with
  | None => Err NotAPair
  | Some (org, role) =>
      match split_once "+"%char role with
      | Some _ => Err ExposeInRole
      | None =>
          match role_parse role with
          | None => Err UnknownRole
          | Some r => if str_eqb (trim org) [] then Err NotAPair else Ok (new_grant (org_parse org) r)
          end
      end
  end.

Definition parse_in_org (org raw : str) : result Grant grant_error :=
  (let? grant := parse_grant (org ++ bs ":" ++ trim raw) in
   if negb (bool_decide (g_org grant = org_parse org)) then Err AnotherOrg else Ok grant)%rust.

(** [.map(f).collect::<Result<Vec<_>, _>>()] *)
Fixpoint try_all {A B E} (f : A → result B E) (l : list A) : result (list B) E :=
  match l with
  | [] => Ok []
  | x :: rest => (let? y := f x in let? ys := try_all f rest in Ok (y :: ys))%rust
  end.

(** The entries of a comma-separated list. *)
Definition entries (raw : str) : list str :=
  filter (fun s => s ≠ []) (trim <$> split_on ","%char raw).

Definition parse_list (raw : str) : result (list Grant) grant_error := try_all parse_grant (entries raw).

Definition parse_mapping (entry : str) : result (str * Grant) grant_error :=
  match split_once "="%char entry with
  | None => Err NotAMapping
  | Some (group, grant) =>
      let group := trim group in
      if str_eqb group [] then Err NotAMapping
      else (let? g := parse_grant grant in Ok (group, g))%rust
  end.

Definition parse_group_map (raw : str) : result (list (str * Grant)) grant_error :=
  try_all parse_mapping (entries raw).

(** ** What a list of grants gives *)

Definition all_admin : list Grant := [new_grant All Admin].

Definition role_in (grants : list Grant) (org : option str) : option Role :=
  match find (fun g => negb (bool_decide (g_org g = All)) && covers (g_org g) org) grants with
  | Some g => Some (g_role g)
  | None => g_role <$> find (fun g => bool_decide (g_org g = All)) grants
  end.

Definition is_server_admin (grants : list Grant) : bool :=
  existsb (fun g => bool_decide (g_org g = All) && bool_decide (g_role g = Admin)) grants.

Definition may_grant (granter : list Grant) (grant : Grant) : bool :=
  match g_org grant with
  | All => is_server_admin granter
  | Master => bool_decide (role_in granter None = Some Admin)
  | Child id => bool_decide (role_in granter (Some id) = Some Admin)
  end.

Inductive ExposeAction : Type := Read | Create | Update | Enable | Disable | Delete | Disconnect.

Definition EXPOSE_ALL : list ExposeAction := [Read; Create; Update; Enable; Disable; Delete; Disconnect].

Definition role_may_expose (role : Role) (action : ExposeAction) : bool :=
  match action with
  | Read => true
  | Enable | Disable | Disconnect => role_rank Operator <=? role_rank role
  | Create | Update | Delete => bool_decide (role = Admin)
  end.

Definition may_expose (grants : list Grant) (org : option str) (action : ExposeAction) : bool :=
  match role_in grants org with Some role => role_may_expose role action | None => false end.

Definition legacy_grants (role : Role) (org_id : option str) : list Grant * bool :=
  if bool_decide (role = Admin) && negb (is_some org_id) then (all_admin, true)
  else ([new_grant (from_org_id org_id) role], false).

(** ** Lists in canonical order *)

(** The order of [str]: by bytes. *)
Fixpoint str_leb (a b : str) : bool :=
  match a, b with
  | [], _ => true
  | _ :: _, [] => false
  | x :: a', y :: b' => (code x <? code y) || ((code x =? code y) && str_leb a' b')
  end.

Definition org_rank (o : GrantOrg) : Z := match o with All => 0 | Master => 1 | Child _ => 2 end.

Definition org_leb (a b : GrantOrg) : bool :=
  (org_rank a <? org_rank b) || ((org_rank a =? org_rank b) && str_leb (org_as_str a) (org_as_str b)).

(** [sort_by], which is stable. *)
Fixpoint insert_grant (g : Grant) (l : list Grant) : list Grant :=
  match l with
  | [] => [g]
  | h :: rest => if org_leb (g_org h) (g_org g) then h :: insert_grant g rest else g :: l
  end.
Definition sort_grants (l : list Grant) : list Grant := fold_left (fun acc g => insert_grant g acc) l [].

(** The loop: an earlier grant of the same organization is dropped. *)
Definition keep_last (grants : list Grant) : list Grant :=
  fold_left (fun out g => filter (fun h => g_org h ≠ g_org g) out ++ [g]) grants [].

Definition normalize (grants : list Grant) : result (list Grant) grant_error :=
  let out := keep_last grants in
  if bool_decide (out = []) then Err NoGrants else Ok (sort_grants out).

Definition diff (before after : list Grant) : list Grant * list Grant :=
  (filter (fun g => g ∉ before) after, filter (fun g => g ∉ after) before).

(** ** What a login's groups give *)

Definition owned (provider : option str) (g : Grant) : bool :=
  is_some (g_source g) && bool_decide (g_source_org g = provider).

Definition by_provider (provider : option str) (m : Grant) : Grant :=
  {| g_org := g_org m; g_role := g_role m; g_source := g_source m; g_source_org := provider |}.

(** One turn of the loop: the higher of two roles for one organization. *)
Fixpoint merge_mapped (next : list Grant) (m : Grant) : list Grant :=
  match next with
  | [] => [m]
  | g :: rest =>
      if bool_decide (g_org g = g_org m)
      then (if role_rank (g_role g) <? role_rank (g_role m) then m else g) :: rest
      else g :: merge_mapped rest m
  end.

Definition apply_group_map (current mapped : list Grant) (provider : option str) :
    list Grant * list Grant * list Grant :=
  let mapped := by_provider provider <$> mapped in
  let kept := filter (fun g => negb (owned provider g)
                        && negb (existsb (fun m => bool_decide (g_org m = g_org g)) mapped) = true) current in
  let next := fold_left merge_mapped mapped kept in
  let '(added, removed) := diff current next in
  (next, added, removed).

(** ** Callers *)

Inductive Identity : Type :=
| BuiltIn (role : Role)
| Named (username : str) (grants : list Grant)
| Oidc (email : str) (bound_org : option str) (role : Role)
| Key (name : str) (role : Role) (scope : GrantOrg).

Record Caller : Type := { c_identity : Identity; c_selected : option str }.

Definition caller_grants (c : Caller) : list Grant :=
  match c_identity c with
  | BuiltIn role => (legacy_grants role None).1
  | Named _ grants => grants
  | Oidc _ (Some org) role => [new_grant (Child org) role]
  | Oidc _ None role => (legacy_grants role None).1
  | Key _ role scope => [new_grant scope role]
  end.

Definition caller_role_in (c : Caller) (org : option str) : option Role := role_in (caller_grants c) org.
Definition caller_is_server_admin (c : Caller) : bool := is_server_admin (caller_grants c).
Definition caller_expose_actions (c : Caller) (org : option str) : list ExposeAction :=
  filter (fun a => may_expose (caller_grants c) org a = true) EXPOSE_ALL.
Definition caller_may_grant (c : Caller) (g : Grant) : bool := may_grant (caller_grants c) g.

(** [sort_unstable] of names, then the first. *)
Definition least (l : list str) : option str :=
  fold_left (fun acc x => match acc with
                          | None => Some x
                          | Some y => if str_leb y x then Some y else Some x
                          end) l None.

Definition default_org (c : Caller) : option str :=
  if is_some (caller_role_in c None) then None
  else least (omap (fun g => match g_org g with Child id => Some id | _ => None end) (caller_grants c)).

Definition effective_org (c : Caller) : option str :=
  match c_identity c with
  | Key _ _ scope => match scope with Child id => Some id | _ => None end
  | Oidc _ (Some org) _ => Some org
  | _ => match c_selected c with
         | Some sel => if is_some (caller_role_in c (Some sel)) then Some sel else default_org c
         | None => default_org c
         end
  end.

Definition may_select (c : Caller) (org : option str) : bool :=
  match c_identity c with
  | Key _ _ _ => false
  | Oidc _ (Some _) _ => false
  | _ => is_some (caller_role_in c org)
  end.

Definition actor (c : Caller) : str :=
  match c_identity c with
  | BuiltIn _ => bs "aperio"
  | Named username _ => username
  | Oidc email _ _ => email
  | Key name _ _ => bs "key:" ++ name
  end.

(** ** Lemmas *)

(** The grant that names an organization. *)
Definition naming (t : GrantOrg) : Grant → bool := fun g => bool_decide (g_org g = t).

Lemma covers_naming g org : negb (bool_decide (g_org g = All)) && covers (g_org g) org = naming (from_org_id org) g.
Proof.
  unfold naming, from_org_id. destruct (g_org g) as [| |id], org as [o|]; simpl; repeat case_bool_decide; try done;
    congruence.
Qed.

Lemma find_ext_in {A} (p q : A → bool) l : Forall (fun x => p x = q x) l → find p l = find q l.
Proof. induction 1 as [|x l Hx _ IH]; [done|]. simpl. by rewrite Hx, IH. Qed.

Lemma role_in_naming grants org :
  role_in grants org = match find (naming (from_org_id org)) grants with
                       | Some g => Some (g_role g)
                       | None => g_role <$> find (naming All) grants
                       end.
Proof.
  unfold role_in. rewrite (find_ext_in _ (naming (from_org_id org))); [done|].
  apply Forall_forall. intros g _. apply covers_naming.
Qed.

Lemma find_unique t l g : NoDup (g_org <$> l) → find (naming t) l = Some g ↔ g ∈ l ∧ g_org g = t.
Proof.
  induction l as [|h l IH]; simpl; intros Hnd; [split; [done|intros [Hin _]; set_solver]|].
  apply NoDup_cons in Hnd as [Hn Hnd]. unfold naming at 1. case_bool_decide as Ht.
  - split; [intros [= <-]; set_solver|]. intros [Hin Hg]. apply elem_of_cons in Hin as [->|Hin]; [done|].
    exfalso. apply Hn. rewrite Ht, <- Hg. by apply list_elem_of_fmap_2.
  - rewrite IH by done. set_solver.
Qed.

Lemma find_naming_ext t a b :
  NoDup (g_org <$> a) → NoDup (g_org <$> b) →
  (∀ g, g_org g = t → g ∈ a ↔ g ∈ b) → find (naming t) a = find (naming t) b.
Proof.
  intros Ha Hb Hab. destruct (find (naming t) b) as [g|] eqn:Eb.
  - apply find_unique in Eb as [Hin Hg]; [|done]. apply find_unique; [done|]. by rewrite Hab.
  - destruct (find (naming t) a) as [g|] eqn:Ea; [|done]. apply find_unique in Ea as [Hin Hg]; [|done].
    apply Hab in Hin; [|done]. by rewrite (proj2 (find_unique t b g Hb)) in Eb.
Qed.

Lemma is_server_admin_find l :
  NoDup (g_org <$> l) →
  is_server_admin l = match find (naming All) l with Some g => bool_decide (g_role g = Admin) | None => false end.
Proof.
  intros Hnd. unfold is_server_admin. induction l as [|h l IH]; [done|]. simpl in *.
  apply NoDup_cons in Hnd as [Hn Hnd]. unfold naming at 1. case_bool_decide as Hh; simpl; [|by apply IH].
  case_bool_decide; simpl; [done|]. rewrite IH by done.
  destruct (find (naming All) l) as [g|] eqn:E; [|done].
  apply find_unique in E as [Hin Hg]; [|done]. exfalso. apply Hn. rewrite Hh, <- Hg. by apply list_elem_of_fmap_2.
Qed.

(** No change that was checked touches what the granter does not administer. *)
Lemma unchanged_org granter before after t g :
  Forall (fun c => may_grant granter c = true) ((diff before after).1 ++ (diff before after).2) →
  may_grant granter (new_grant t Viewer) = false → g_org g = t → g ∈ before ↔ g ∈ after.
Proof.
  intros Hch Hno Hg. rewrite Forall_app, !Forall_forall in Hch. destruct Hch as [Ha Hr].
  assert (Hsame : may_grant granter g = false) by (rewrite <- Hno; unfold may_grant; by rewrite Hg).
  split; intros Hin; destruct (decide (g ∈ after)) as [Hi|Hi]; destruct (decide (g ∈ before)) as [Hb|Hb]; try done.
  - specialize (Hr g). simpl in Hr. rewrite Hr in Hsame; [done|]. by apply list_elem_of_filter.
  - specialize (Ha g). simpl in Ha. rewrite Ha in Hsame; [done|]. by apply list_elem_of_filter.
Qed.

(** *** The canonical order *)

Lemma str_leb_refl a : str_leb a a = true.
Proof. induction a as [|x a IH]; [done|]. simpl. rewrite IH. lia. Qed.

Lemma str_leb_total a b : str_leb a b = false → str_leb b a = true.
Proof.
  revert b. induction a as [|x a IH]; intros [|y b]; simpl; try done. intros H.
  destruct (Z.ltb_spec (code x) (code y)); [done|]. destruct (Z.eqb_spec (code x) (code y)) as [E|E]; simpl in H.
  - apply IH in H. rewrite E, H. lia.
  - assert ((code y <? code x) = true) as -> by lia. done.
Qed.

Lemma str_leb_trans a b c : str_leb a b = true → str_leb b c = true → str_leb a c = true.
Proof.
  revert b c. induction a as [|x a IH]; intros [|y b] [|z c]; simpl; try done.
  intros H1 H2. apply orb_prop in H1, H2. apply orb_true_iff.
  destruct H1 as [H1|H1], H2 as [H2|H2]; rewrite ?andb_true_iff in *; [left; lia|left; lia|left; lia|].
  right. destruct H1 as [? H1], H2 as [? H2]. split; [lia|by eapply IH].
Qed.

Lemma org_leb_total a b : org_leb a b = false → org_leb b a = true.
Proof.
  unfold org_leb. intros H. apply orb_false_iff in H as [H1 H2]. apply orb_true_iff.
  destruct (Z.eqb_spec (org_rank a) (org_rank b)) as [E|E]; simpl in H2; [right|left; lia].
  rewrite E, Z.eqb_refl. by apply str_leb_total.
Qed.

Lemma org_leb_trans a b c : org_leb a b = true → org_leb b c = true → org_leb a c = true.
Proof.
  unfold org_leb. rewrite !orb_true_iff, !andb_true_iff. intros [H1|[H1 H1']] [H2|[H2 H2']]; [left; lia|left; lia|left; lia|].
  right. split; [lia|by eapply str_leb_trans].
Qed.

Definition in_order (a b : Grant) : Prop := org_leb (g_org a) (g_org b) = true.

Lemma insert_grant_perm g l : insert_grant g l ≡ₚ g :: l.
Proof.
  induction l as [|h l IH]; [done|]. simpl. destruct (org_leb _ _); [|done]. rewrite IH. apply Permutation_swap.
Qed.

Lemma insert_grant_sorted g l : StronglySorted in_order l → StronglySorted in_order (insert_grant g l).
Proof.
  induction 1 as [|h l Hl IH Hall]; [by repeat constructor|]. simpl. destruct (org_leb _ _) eqn:E.
  - constructor; [done|]. rewrite insert_grant_perm. by constructor.
  - apply org_leb_total in E. repeat constructor; [done|done|done|].
    eapply Forall_impl; [exact Hall|]. intros u Hu. by eapply org_leb_trans.
Qed.

Lemma sort_grants_snoc l g : sort_grants (l ++ [g]) = insert_grant g (sort_grants l).
Proof. unfold sort_grants. by rewrite fold_left_app. Qed.

Lemma sort_grants_sorted l : StronglySorted in_order (sort_grants l).
Proof. induction l as [|g l IH] using rev_ind; [constructor|]. rewrite sort_grants_snoc. by apply insert_grant_sorted. Qed.

Lemma sort_grants_perm l : sort_grants l ≡ₚ l.
Proof.
  induction l as [|g l IH] using rev_ind; [done|].
  rewrite sort_grants_snoc, insert_grant_perm, IH. by rewrite Permutation_cons_append.
Qed.

Lemma insert_grant_last g l : Forall (fun h => in_order h g) l → insert_grant g l = l ++ [g].
Proof. induction 1 as [|h l Hh _ IH]; [done|]. simpl. unfold in_order in Hh. by rewrite Hh, IH. Qed.

Lemma StronglySorted_snoc {A} (R : A → A → Prop) l x :
  StronglySorted R (l ++ [x]) → StronglySorted R l ∧ Forall (fun y => R y x) l.
Proof.
  induction l as [|y l IH]; intros H; [by repeat constructor|]. simpl in H.
  apply StronglySorted_inv in H as [Hs Hall]. destruct (IH Hs) as [H1 H2]. apply Forall_app in Hall as [Ha Hx].
  rewrite Forall_singleton in Hx. by repeat constructor.
Qed.

Lemma sort_grants_id l : StronglySorted in_order l → sort_grants l = l.
Proof.
  induction l as [|g l IH] using rev_ind; intros H; [done|]. apply StronglySorted_snoc in H as [Hs Hall].
  by rewrite sort_grants_snoc, IH, insert_grant_last.
Qed.

Lemma keep_last_snoc l g : keep_last (l ++ [g]) = filter (fun h => g_org h ≠ g_org g) (keep_last l) ++ [g].
Proof. unfold keep_last. by rewrite fold_left_app. Qed.

Lemma NoDup_fmap_filter {A B} (f : A → B) (P : A → Prop) `{∀ x, Decision (P x)} l :
  NoDup (f <$> l) → NoDup (f <$> filter P l).
Proof.
  induction l as [|x l IH]; [done|]. simpl. intros Hnd. apply NoDup_cons in Hnd as [Hn Hl].
  rewrite filter_cons. case_decide; [|by apply IH]. simpl. constructor; [|by apply IH].
  intros Hin. apply Hn. apply list_elem_of_fmap in Hin as (y & Hy & Hin). rewrite Hy.
  apply list_elem_of_filter in Hin as [_ Hin]. by apply list_elem_of_fmap_2.
Qed.

Lemma keep_last_nodup l : NoDup (g_org <$> keep_last l).
Proof.
  induction l as [|g l IH] using rev_ind; [constructor|]. rewrite keep_last_snoc, fmap_app.
  apply NoDup_app. split_and!; [|intros o Ho|apply NoDup_singleton].
  - by apply NoDup_fmap_filter.
  - apply list_elem_of_fmap in Ho as (h & -> & Hh). apply list_elem_of_filter in Hh as [Hh _].
    simpl. rewrite list_elem_of_singleton. done.
Qed.

Lemma find_filter_other t o l : t ≠ o → find (naming t) (filter (fun h => g_org h ≠ o) l) = find (naming t) l.
Proof.
  intros Ht. induction l as [|h l IH]; [done|]. rewrite filter_cons. case_decide as Hd.
  - simpl. by rewrite IH.
  - simpl. rewrite IH. unfold naming at 2. rewrite bool_decide_eq_false_2; [done|]. congruence.
Qed.

Lemma find_app_l {A} (p : A → bool) a b : find p (a ++ b) = match find p a with Some x => Some x | None => find p b end.
Proof. induction a as [|x a IH]; [done|]. simpl. by destruct (p x). Qed.

(** The last grant written for an organization is the one kept. *)
Lemma keep_last_find t l : find (naming t) (keep_last l) = find (naming t) (rev l).
Proof.
  induction l as [|g l IH] using rev_ind; [done|]. rewrite keep_last_snoc, rev_unit, find_app_l. simpl.
  destruct (naming t g) eqn:Hg; unfold naming in Hg; to_prop.
  - assert (find (naming t) (filter (fun h => g_org h ≠ g_org g) (keep_last l)) = None) as ->; [|done].
    apply eq_None_not_Some. intros [x E]. apply find_some in E as [Hin Hx]. apply list_elem_of_In in Hin.
    apply list_elem_of_filter in Hin as [Hne _]. unfold naming in Hx. to_prop. congruence.
  - rewrite find_filter_other by done. rewrite IH. by destruct (find (naming t) (rev l)).
Qed.

Lemma keep_last_id l : NoDup (g_org <$> l) → keep_last l = l.
Proof.
  induction l as [|g l IH] using rev_ind; intros Hnd; [done|]. rewrite fmap_app in Hnd.
  apply NoDup_app in Hnd as (Hl & Hd & _). rewrite keep_last_snoc, IH by done. f_equal. apply filter_all.
  apply Forall_forall. intros h Hh Heq. apply (Hd (g_org h)); [by apply list_elem_of_fmap_2|].
  simpl. rewrite Heq. set_solver.
Qed.

Lemma NoDup_perm_find t a b : NoDup (g_org <$> a) → a ≡ₚ b → find (naming t) a = find (naming t) b.
Proof.
  intros Ha Hp. apply find_naming_ext; [done|by rewrite <- Hp|]. intros g _. by rewrite Hp.
Qed.

Lemma normalize_ok l out :
  normalize l = Ok out →
  NoDup (g_org <$> out) ∧ StronglySorted in_order out ∧ (∀ t, find (naming t) out = find (naming t) (rev l)).
Proof.
  unfold normalize. case_bool_decide; [done|]. intros [= <-].
  assert (Hnd : NoDup (g_org <$> sort_grants (keep_last l))) by (rewrite sort_grants_perm; apply keep_last_nodup).
  split_and!; [done|apply sort_grants_sorted|]. intros t.
  rewrite <- keep_last_find. apply NoDup_perm_find; [done|apply sort_grants_perm].
Qed.

(** *** The group map *)

Lemma merge_mapped_skip kept acc m :
  Forall (fun g => g_org g ≠ g_org m) kept → merge_mapped (kept ++ acc) m = kept ++ merge_mapped acc m.
Proof.
  induction 1 as [|g kept Hg _ IH]; [done|]. simpl. by rewrite bool_decide_eq_false_2, IH.
Qed.

Lemma merge_all_skip kept mapped acc :
  Forall (fun g => Forall (fun m => g_org g ≠ g_org m) mapped) kept →
  fold_left merge_mapped mapped (kept ++ acc) = kept ++ fold_left merge_mapped mapped acc.
Proof.
  intros H. revert acc. induction mapped as [|m mapped IH]; intros acc; [done|]. simpl.
  rewrite merge_mapped_skip.
  - apply IH. eapply Forall_impl; [exact H|]. intros g Hg. by inversion Hg.
  - eapply Forall_impl; [exact H|]. intros g Hg. by inversion Hg.
Qed.

Lemma merge_mapped_from acc m x : x ∈ merge_mapped acc m → x ∈ acc ∨ x = m.
Proof.
  induction acc as [|g acc IH]; simpl; [set_solver|]. case_bool_decide; [|set_solver].
  destruct (_ <? _); set_solver.
Qed.

Lemma merge_all_from mapped acc x : x ∈ fold_left merge_mapped mapped acc → x ∈ acc ∨ x ∈ mapped.
Proof.
  revert acc. induction mapped as [|m mapped IH]; intros acc; simpl; [by left|].
  intros H. apply IH in H as [H|H]; [|set_solver]. apply merge_mapped_from in H. set_solver.
Qed.

(** What a map leaves alone. *)
Definition left_alone (provider : option str) (mapped : list Grant) (g : Grant) : bool :=
  negb (owned provider g) && negb (existsb (fun m => bool_decide (g_org m = g_org g)) mapped).

Lemma left_alone_spec provider mapped g :
  left_alone provider (by_provider provider <$> mapped) g = true ↔
  owned provider g = false ∧ Forall (fun m => g_org g ≠ g_org m) mapped.
Proof.
  unfold left_alone. rewrite andb_true_iff, !negb_true_iff, existsb_false. rewrite Forall_fmap.
  apply and_iff_compat_l, Forall_iff. intros m. simpl. rewrite bool_decide_eq_false. naive_solver.
Qed.

Lemma group_map_shape current mapped provider :
  let own := by_provider provider <$> mapped in
  (apply_group_map current mapped provider).1.1
  = filter (fun g => left_alone provider own g = true) current ++ fold_left merge_mapped own [].
Proof.
  intros own. unfold apply_group_map. fold own. cbn [diff fst].
  rewrite <- (app_nil_r (filter _ current)) at 1. apply merge_all_skip.
  apply Forall_forall. intros g Hg. apply list_elem_of_filter in Hg as [Hg _].
  apply left_alone_spec in Hg as [_ Hg]. by apply Forall_fmap.
Qed.

Lemma filter_nothing {A} (P : A → Prop) `{∀ x, Decision (P x)} l : Forall (fun x => ¬ P x) l → filter P l = [].
Proof. induction 1 as [|x l Hx _ IH]; [done|]. by rewrite filter_cons, decide_False. Qed.

Lemma diff_same l : diff l l = ([], []).
Proof.
  unfold diff. assert (filter (fun g => g ∉ l) l = []) as ->; [|done].
  apply filter_nothing, Forall_forall. intros g Hg Hn. done.
Qed.

Lemma merged_owned provider mapped g :
  Forall (fun m => is_Some (g_source m)) mapped →
  g ∈ fold_left merge_mapped (by_provider provider <$> mapped) [] → owned provider g = true.
Proof.
  intros Hsrc Hin. apply merge_all_from in Hin as [Hin|Hin]; [set_solver|].
  apply list_elem_of_fmap in Hin as (m & -> & Hm). rewrite Forall_forall in Hsrc. destruct (Hsrc m Hm) as [s Hs].
  unfold owned. simpl. rewrite Hs. simpl. by rewrite bool_decide_eq_true_2.
Qed.

(** A directory owns exactly what it mapped. Signing in again with the same
    groups changes nothing; a grant written by hand, or mapped by another
    provider, stays unless this map names its organization; and every grant
    left afterwards is one of those or comes from the map itself. *)
Theorem group_map_settles current mapped provider :
  Forall (fun m => is_Some (g_source m)) mapped →
  let next := (apply_group_map current mapped provider).1.1 in
  apply_group_map next mapped provider = (next, [], [])
  ∧ (∀ g, g ∈ current → owned provider g = false → Forall (fun m => g_org g ≠ g_org m) mapped → g ∈ next)
  ∧ (∀ g, g ∈ next → g ∈ current ∧ owned provider g = false ∨ g ∈ by_provider provider <$> mapped).
Proof.
  intros Hsrc next. set (own := by_provider provider <$> mapped).
  assert (Hnext : next = filter (fun g => left_alone provider own g = true) current
                         ++ fold_left merge_mapped own []) by apply group_map_shape.
  assert (Hsame : (apply_group_map next mapped provider).1.1 = next).
  { rewrite group_map_shape. fold own. rewrite Hnext. f_equal. rewrite filter_app, list_filter_filter.
    rewrite (filter_nothing _ (fold_left _ _ _)).
    - rewrite app_nil_r. apply list_filter_iff. tauto.
    - apply Forall_forall. intros g Hg. apply merged_owned in Hg; [|done]. unfold left_alone. by rewrite Hg. }
  split_and!.
  - destruct (apply_group_map next mapped provider) as [[n a] r] eqn:E. simpl in Hsame. subst n.
    assert (H : (a, r) = diff next next).
    { unfold apply_group_map in E. destruct (diff next _) as [a' r'] eqn:Ed. injection E as E1 -> ->.
      rewrite <- Ed. f_equal. exact E1. }
    rewrite diff_same in H. by injection H as -> ->.
  - intros g Hg Ho Hm. rewrite Hnext. apply elem_of_app. left. apply list_elem_of_filter. split; [|done].
    by apply left_alone_spec.
  - intros g Hg. rewrite Hnext in Hg. apply elem_of_app in Hg as [Hg|Hg].
    + left. apply list_elem_of_filter in Hg as [Hl Hg]. by apply left_alone_spec in Hl as [? _].
    + right. apply merge_all_from in Hg as [Hg|Hg]; [set_solver|done].
Qed.

(** *** Callers *)

Lemma least_elem l x : least l = Some x → x ∈ l.
Proof.
  unfold least. induction l as [|y l IH] using rev_ind; [done|]. rewrite fold_left_app. simpl.
  destruct (fold_left _ l None) as [z|]; [destruct (str_leb z y)|]; intros [= <-]; set_solver.
Qed.

Lemma least_None l : least l = None → l = [].
Proof.
  unfold least. destruct l as [|y l _] using rev_ind; [done|]. rewrite fold_left_app. simpl.
  destruct (fold_left _ l None) as [z|]; [by destruct (str_leb z y)|done].
Qed.

Lemma role_in_elem grants g org :
  g ∈ grants → g_org g = from_org_id org ∨ g_org g = All → is_Some (role_in grants org).
Proof.
  intros Hin Hg. rewrite role_in_naming. destruct (find (naming (from_org_id org)) grants) as [h|] eqn:E; [done|].
  apply fmap_is_Some. destruct (find (naming All) grants) as [h|] eqn:E2; [done|]. exfalso.
  apply list_elem_of_In in Hin. pose proof (find_none _ _ E g Hin) as H1. pose proof (find_none _ _ E2 g Hin) as H2.
  unfold naming in *. to_prop. naive_solver.
Qed.

Lemma is_some_true {A} (o : option A) : is_some o = true ↔ is_Some o.
Proof. destruct o; simpl; split; try done; by intros []. Qed.

(** Nobody acts where nothing reaches. The organization a caller acts in is
    one a grant of theirs reaches, whatever is selected on the session, so it
    carries a role exactly when the caller holds any grant at all; and a caller
    may select only such an organization. *)
Theorem effective_org_reached c org :
  (is_Some (caller_role_in c (effective_org c)) ↔ caller_grants c ≠ [])
  ∧ (may_select c org = true → is_Some (caller_role_in c org)).
Proof.
  assert (Hdef : caller_grants c ≠ [] → is_Some (caller_role_in c (default_org c))).
  { intros Hne. unfold default_org. destruct (is_some (caller_role_in c None)) eqn:E; [by apply is_some_true|].
    destruct (least _) as [id|] eqn:El.
    - apply least_elem, list_elem_of_omap in El as (g & Hg & Ho). eapply role_in_elem; [exact Hg|]. left.
      by destruct (g_org g); simplify_eq/=.
    - apply least_None in El. exfalso. destruct (caller_grants c) as [|g l] eqn:Eg; [done|].
      assert (is_Some (caller_role_in c None)) as Hr.
      { unfold caller_role_in. eapply (role_in_elem _ g); [rewrite Eg; set_solver|]. cbn in El.
        destruct (g_org g) as [| |id]; [by left|by right|done]. }
      apply is_some_true in Hr. congruence. }
  assert (Hnil : caller_grants c = [] → ∀ o, caller_role_in c o = None).
  { intros Hn o. unfold caller_role_in. by rewrite Hn. }
  split.
  - split; [intros [r Hr] Hn; by rewrite (Hnil Hn) in Hr|]. intros Hne. unfold effective_org.
    destruct (c_identity c) as [r|u gs|e [b|] r|n r sc] eqn:Ec.
    1-2,4: destruct (c_selected c) as [sel|]; [|by apply Hdef];
      destruct (is_some (caller_role_in c (Some sel))) eqn:Es; [by apply is_some_true|by apply Hdef].
    + unfold caller_role_in, caller_grants. rewrite Ec. eapply role_in_elem; [by apply list_elem_of_singleton|by left].
    + unfold caller_role_in, caller_grants. rewrite Ec.
      destruct sc as [| |id]; (eapply role_in_elem; [by apply list_elem_of_singleton|simpl; auto]).
  - unfold may_select. intros H. destruct (c_identity c) as [r|u gs|e [b|] r|n r sc]; try done; by apply is_some_true.
Qed.

(** A change of grants is bounded by who makes it. When every grant added and
    every grant removed is one the granter may give, an organization the granter
    does not administer sees no change: the role held in it before is the role
    held after, for a granter who is not the server admin; and only a server
    admin makes or unmakes one. *)
Theorem grant_change_bounded granter before after org :
  NoDup (g_org <$> before) → NoDup (g_org <$> after) →
  Forall (fun g => may_grant granter g = true) ((diff before after).1 ++ (diff before after).2) →
  is_server_admin granter = false →
  is_server_admin after = is_server_admin before
  ∧ (role_in granter org ≠ Some Admin → role_in after org = role_in before org).
Proof.
  intros Hb Ha Hch Hadm.
  assert (Hall : find (naming All) after = find (naming All) before).
  { apply find_naming_ext; [done|done|]. intros g Hg. symmetry.
    by apply (unchanged_org granter before after All). }
  split; [by rewrite !is_server_admin_find, Hall|]. intros Hno. rewrite !role_in_naming, Hall.
  assert (find (naming (from_org_id org)) after = find (naming (from_org_id org)) before) as ->; [|done].
  apply find_naming_ext; [done|done|]. intros g Hg. symmetry. apply (unchanged_org granter before after (from_org_id org)); [done| |exact Hg].
  unfold may_grant. simpl. destruct org; simpl; by apply bool_decide_eq_false.
Qed.

(** Normalizing a grant list keeps, for each organization, the last grant
    written for it, once, in the order of the picker; it refuses only the empty
    list, and a normalized list is its own normal form. *)
Theorem normalize_canonical grants :
  match normalize grants with
  | Ok out => NoDup (g_org <$> out) ∧ StronglySorted in_order out
      ∧ (∀ t, find (naming t) out = find (naming t) (rev grants))
      ∧ normalize out = Ok out
  | Err _ => grants = []
  end.
Proof.
  destruct (normalize grants) as [out|e] eqn:E.
  - destruct (normalize_ok _ _ E) as (Hnd & Hs & Hf). split_and!; try done.
    unfold normalize. rewrite keep_last_id, sort_grants_id by done.
    unfold normalize in E. case_bool_decide as Hne; [done|]. injection E as <-.
    rewrite bool_decide_eq_false_2; [done|]. intros Hz. apply Hne.
    apply Permutation_nil_r. rewrite <- Hz. symmetry. apply sort_grants_perm.
  - unfold normalize in E. case_bool_decide as Hk; [|done].
    destruct grants as [|g l _] using rev_ind; [done|]. rewrite keep_last_snoc in Hk. by apply app_nil in Hk as [_ ?].
Qed.

(** ** Reading back what is written *)

Lemma trim_id_graphic s : Forall (fun a => graphic a = true) s → trim s = s.
Proof. apply trim_graphic. Qed.

Lemma role_parse_as_str r : role_parse (role_as_str r) = Some r.
Proof. by destruct r. Qed.

Lemma rsplit_once_last (c : ascii) a b : c ∉ b → rsplit_once c (a ++ c :: b) = Some (a, b).
Proof.
  intros Hb. unfold rsplit_once. rewrite rev_app_distr. simpl. rewrite <- app_assoc. simpl.
  assert (split_once c (rev b ++ c :: rev a) = Some (rev b, rev a)) as ->; [|by rewrite !rev_involutive].
  apply split_once_Some. split; [done|]. intros Hin. apply Hb. apply list_elem_of_In, in_rev, list_elem_of_In. done.
Qed.

(** An organization as the store names it. *)
Definition org_ok (o : GrantOrg) : Prop :=
  match o with
  | Child id => id ≠ [] ∧ Forall (fun a => graphic a = true) id ∧ eq_ignore_case id MASTER_ID = false ∧ id ≠ ALL_ORGS
  | _ => True
  end.

(** The label of a grant reads back as the grant: what the command line and
    the audit records print is what the parser accepts. *)
Theorem grant_label_roundtrip o r :
  org_ok o → parse_grant (grant_label (new_grant o r)) = Ok (new_grant o r).
Proof.
  intros Ho. unfold parse_grant, grant_label. simpl g_org. simpl g_role.
  assert (Hg : Forall (fun a => graphic a = true) (org_as_str o)).
  { destruct o as [| |id]; [by repeat constructor..|]. apply Ho. }
  rewrite trim_graphic.
  2:{ apply Forall_app. split; [done|]. destruct r; by repeat constructor. }
  change (bs ":" ++ role_as_str r) with (":"%char :: role_as_str r).
  rewrite rsplit_once_last by (destruct r; vm_compute; set_solver).
  assert (split_once "+"%char (role_as_str r) = None) as -> by by destruct r.
  rewrite role_parse_as_str, trim_graphic by done.
  assert (Hne : str_eqb (org_as_str o) [] = false).
  { destruct o as [| |id]; [done|done|]. apply not_true_is_false. rewrite str_eqb_eq. apply Ho. }
  rewrite Hne. f_equal. f_equal. destruct o as [| |id]; [done|done|].
  destruct Ho as (H1 & H2 & H3 & H4). unfold org_parse. simpl. rewrite trim_graphic by done.
  simpl in Hne. rewrite Hne, H3. simpl. assert (str_eqb id ALL_ORGS = false) as ->; [|done].
  apply not_true_is_false. by rewrite str_eqb_eq.
Qed.

(** ** Witnesses *)

Lemma group_map_settles_witness :
  let current := [new_grant (Child (bs "acme")) Viewer; by_provider None (mapped_grant All Admin (bs "staff"))] in
  apply_group_map (apply_group_map current [mapped_grant (Child (bs "beta")) Operator (bs "ops")] None).1.1
    [mapped_grant (Child (bs "beta")) Operator (bs "ops")] None
  = ((apply_group_map current [mapped_grant (Child (bs "beta")) Operator (bs "ops")] None).1.1, [], []).
Proof. intros current. apply group_map_settles. repeat constructor. by eexists. Defined.

Lemma grant_change_bounded_witness :
  let granter := [new_grant (Child (bs "acme")) Admin] in
  let before := [new_grant (Child (bs "acme")) Viewer; new_grant (Child (bs "beta")) Admin] in
  let after := [new_grant (Child (bs "acme")) Operator; new_grant (Child (bs "beta")) Admin] in
  role_in after (Some (bs "beta")) = role_in before (Some (bs "beta")).
Proof.
  intros granter before after.
  apply (grant_change_bounded granter before after (Some (bs "beta"))).
  - eapply bool_decide_unpack. vm_compute. exact I.
  - eapply bool_decide_unpack. vm_compute. exact I.
  - eapply bool_decide_unpack. vm_compute. exact I.
  - reflexivity.
  - vm_compute. congruence.
Defined.

Lemma grant_label_roundtrip_witness :
  parse_grant (bs "acme:operator") = Ok (new_grant (Child (bs "acme")) Operator).
Proof.
  change (bs "acme:operator") with (grant_label (new_grant (Child (bs "acme")) Operator)).
  apply grant_label_roundtrip. split_and!; [done|repeat constructor|reflexivity|done].
Defined.
