(* ===== verification/Users.v ===== *)
(** The store of dashboard users, [aperio-server/src/store/users.rs].

    The store is the list in memory and the rows on disk; each operation is told
    whether the write succeeds. Argon2, the TOTP and WebAuthn code and fresh
    identifiers are parameters or arguments. *)

From S2P Require Import Prelude VisitorAuth Grants.

Record StoredPasskey : Type := {
  pk_id : str;
  pk_name : str;
  pk_created_at : Z;
  pk_credential : str;
  pk_usernameless : bool;
}.

Record User : Type := {
  u_id : str;
  u_username : str;
  u_password_hash : str;
  u_role : Role;
  u_org_id : option str;
  u_grants : list Grant;
  u_created_at : Z;
  u_enabled : bool;
  u_totp_secret : option str;
  u_totp_pending : option str;
  u_recovery_hashes : list str;
  u_totp_last_step : option Z;
  u_passkeys : list StoredPasskey;
}.

Inductive UserError : Type :=
| Invalid
| NoSuchUser
| NotSaved.

#[export] Instance StoredPasskey_eq : EqDecision StoredPasskey.
Proof. solve_decision. Defined.
#[export] Instance User_eq : EqDecision User.
Proof. solve_decision. Defined.

(** The rows in memory and on disk. *)
Record UserStore : Type := { users : list User; disk : list User }.

(** ** Records *)

Definition user_role_in (u : User) (org : option str) : option Role := role_in (u_grants u) org.
Definition sso (u : User) : bool := bool_decide (u_password_hash u = []).
Definition home (u : User) : GrantOrg := from_org_id (u_org_id u).

Definition with_role (u : User) (r : Role) : User :=
  {| u_id := u_id u; u_username := u_username u; u_password_hash := u_password_hash u; u_role := r;
     u_org_id := u_org_id u; u_grants := u_grants u; u_created_at := u_created_at u; u_enabled := u_enabled u;
     u_totp_secret := u_totp_secret u; u_totp_pending := u_totp_pending u;
     u_recovery_hashes := u_recovery_hashes u; u_totp_last_step := u_totp_last_step u; u_passkeys := u_passkeys u |}.

Definition with_grants (u : User) (gs : list Grant) : User :=
  {| u_id := u_id u; u_username := u_username u; u_password_hash := u_password_hash u; u_role := u_role u;
     u_org_id := u_org_id u; u_grants := gs; u_created_at := u_created_at u; u_enabled := u_enabled u;
     u_totp_secret := u_totp_secret u; u_totp_pending := u_totp_pending u;
     u_recovery_hashes := u_recovery_hashes u; u_totp_last_step := u_totp_last_step u; u_passkeys := u_passkeys u |}.

Definition with_login (u : User) (enabled : bool) (hash : str) : User :=
  {| u_id := u_id u; u_username := u_username u; u_password_hash := hash; u_role := u_role u;
     u_org_id := u_org_id u; u_grants := u_grants u; u_created_at := u_created_at u; u_enabled := enabled;
     u_totp_secret := u_totp_secret u; u_totp_pending := u_totp_pending u;
     u_recovery_hashes := u_recovery_hashes u; u_totp_last_step := u_totp_last_step u; u_passkeys := u_passkeys u |}.

Definition with_totp (u : User) (secret pending : option str) (recovery : list str) (step : option Z) : User :=
  {| u_id := u_id u; u_username := u_username u; u_password_hash := u_password_hash u; u_role := u_role u;
     u_org_id := u_org_id u; u_grants := u_grants u; u_created_at := u_created_at u; u_enabled := u_enabled u;
     u_totp_secret := secret; u_totp_pending := pending; u_recovery_hashes := recovery; u_totp_last_step := step;
     u_passkeys := u_passkeys u |}.

Definition with_passkeys (u : User) (ps : list StoredPasskey) : User :=
  {| u_id := u_id u; u_username := u_username u; u_password_hash := u_password_hash u; u_role := u_role u;
     u_org_id := u_org_id u; u_grants := u_grants u; u_created_at := u_created_at u; u_enabled := u_enabled u;
     u_totp_secret := u_totp_secret u; u_totp_pending := u_totp_pending u;
     u_recovery_hashes := u_recovery_hashes u; u_totp_last_step := u_totp_last_step u; u_passkeys := ps |}.

Definition sync_home_role (u : User) : User := with_role u (default Viewer (user_role_in u (u_org_id u))).

Definition is_legacy_row (u : User) : bool := bool_decide (u_grants u = []) && negb (sso u).

Definition convert_legacy_row (u : User) : User :=
  if is_legacy_row u then with_grants u (legacy_grants (u_role u) (u_org_id u)).1 else u.

Definition convert_legacy_rows (l : list User) : list User * list str :=
  (convert_legacy_row <$> l,
   omap (fun u => if is_legacy_row u && (legacy_grants (u_role u) (u_org_id u)).2
                  then Some (u_username u) else None) l).

(** ** Saving *)

Definition persist (ok : bool) (s : UserStore) : bool * UserStore :=
  if ok then (true, {| users := users s; disk := users s |}) else (false, s).

Definition commit {R} (ok : bool) (change : list User → result (R * list User) UserError) (s : UserStore) :
    result R UserError * UserStore :=
  match change (users s) with
  | Ok (out, us) =>
      match persist ok {| users := us; disk := disk s |} with
      | (true, s') => (Ok out, s')
      | (false, s') => (Err NotSaved, {| users := users s; disk := disk s' |})
      end
  | Err e => (Err e, s)
  end.

(** [load], then the write when a row was converted. *)
Definition load_users (ok : bool) (rows : list User) : UserStore :=
  let s := {| users := (convert_legacy_rows rows).1; disk := rows |} in
  if existsb is_legacy_row rows then (persist ok s).2 else s.

Definition import_users (ok : bool) (imported : list User) (s : UserStore) : result nat UserError * UserStore :=
  let us := sync_home_role <$> (convert_legacy_rows imported).1 in
  match persist ok {| users := us; disk := disk s |} with
  | (true, s') => (Ok (length us), s')
  | (false, s') => (Err NotSaved, {| users := users s; disk := disk s' |})
  end.

(** [iter_mut().find(|u| u.id == id).ok_or(NoSuchUser)?], then [f]. *)
Fixpoint modify {R} (id : str) (f : User → result (R * User) UserError) (l : list User) :
    result (R * list User) UserError :=
  match l with
  | [] => Err NoSuchUser
  | u :: rest =>
      if str_eqb (u_id u) id then (let? x := f u in Ok (x.1, x.2 :: rest))%rust
      else (let? x := modify id f rest in Ok (x.1, u :: x.2))%rust
  end.

Definition get_user (s : UserStore) (id : str) : option User := find (fun u => str_eqb (u_id u) id) (users s).

Definition username_is (name : str) (u : User) : bool := eq_ignore_case (u_username u) (trim name).

Definition find_by_username (s : UserStore) (name : str) : option User :=
  find (fun u => u_enabled u && username_is name u) (users s).

Definition is_disabled_username (s : UserStore) (name : str) : bool :=
  existsb (fun u => negb (u_enabled u) && username_is name u) (users s).

Section Store.
(** A fresh Argon2 hash, the password check, the TOTP check, fresh recovery
    codes with their hashes, the hash of one, and the update of a credential
    after a sign-in. *)
Context (hash_password : str → result str UserError) (verify_password : str → str → bool).
Context (totp_verify : str → str → Z → bool) (hash_recovery_code : str → str).

Definition create_record (ok : bool) (id : str) (now : Z) (username : str) (password : option str)
    (org_id : option str) (grants : list Grant) (s : UserStore) : result User UserError * UserStore :=
  let name := trim username in
  if str_eqb name [] then (Err Invalid, s)
  else if eq_ignore_case name (bs "aperio") then (Err Invalid, s)
  else if existsb (fun u => eq_ignore_case (u_username u) name) (users s) then (Err Invalid, s)
  else
    let hashed := match password with
                  | Some p => if len p <? 8 then Err Invalid else hash_password p
                  | None => Ok []
                  end in
    match hashed with
    | Err e => (Err e, s)
    | Ok hash =>
        let user := sync_home_role
          {| u_id := id; u_username := name; u_password_hash := hash; u_role := Viewer; u_org_id := org_id;
             u_grants := grants; u_created_at := now; u_enabled := true; u_totp_secret := None;
             u_totp_pending := None; u_recovery_hashes := []; u_totp_last_step := None; u_passkeys := [] |} in
        commit ok (fun us => Ok (user, us ++ [user])) s
    end.

Definition normalized (allow_empty : bool) (grants : list Grant) : result (list Grant) UserError :=
  if allow_empty && bool_decide (grants = []) then Ok []
  else match normalize grants with Ok g => Ok g | Err _ => Err Invalid end.

Definition create_with_grants (ok : bool) (id : str) (now : Z) (username password : str) (org_id : option str)
    (grants : list Grant) (s : UserStore) : result User UserError * UserStore :=
  match normalized false grants with
  | Ok g => create_record ok id now username (Some password) org_id g s
  | Err e => (Err e, s)
  end.

Definition create_sso (ok : bool) (id : str) (now : Z) (username : str) (org_id : option str)
    (grants : list Grant) (s : UserStore) : result User UserError * UserStore :=
  match normalized true grants with
  | Ok g => create_record ok id now username None org_id g s
  | Err e => (Err e, s)
  end.

Definition set_grants_raw (ok : bool) (id : str) (grants : list Grant) (s : UserStore) :
    result User UserError * UserStore :=
  commit ok (modify id (fun u => let u := sync_home_role (with_grants u grants) in Ok (u, u))) s.

Definition set_grants (ok : bool) (id : str) (grants : list Grant) (s : UserStore) :
    result User UserError * UserStore :=
  match normalized false grants with Ok g => set_grants_raw ok id g s | Err e => (Err e, s) end.

Definition set_grants_from_login (ok : bool) (id : str) (grants : list Grant) (s : UserStore) :
    result User UserError * UserStore :=
  match normalized true grants with Ok g => set_grants_raw ok id g s | Err e => (Err e, s) end.

Definition strip_org (target : GrantOrg) (u : User) : User :=
  if existsb (fun g => bool_decide (g_org g = target)) (u_grants u)
  then sync_home_role (with_grants u (filter (fun g => g_org g ≠ target) (u_grants u)))
  else u.

Definition remove_org_grants (ok : bool) (org : str) (s : UserStore) : list str * UserStore :=
  let target := Child org in
  let touched := u_username <$> filter (fun u => existsb (fun g => bool_decide (g_org g = target)) (u_grants u) = true)
                                  (users s) in
  match touched with
  | [] => (touched, s)
  | _ => match commit ok (fun us => Ok (tt, strip_org target <$> us)) s with
         | (Ok _, s') => (touched, s')
         | (Err _, s') => ([], s')
         end
  end.

(** The role at home replaces the home grant. *)
Definition set_home_role (r : Role) (u : User) : result User UserError :=
  match normalized false (filter (fun g => g_org g ≠ home u) (u_grants u) ++ [new_grant (home u) r]) with
  | Ok g => Ok (sync_home_role (with_grants u g))
  | Err e => Err e
  end.

Definition update_user (ok : bool) (id : str) (role : option Role) (enabled : option bool) (password : option str)
    (s : UserStore) : result User UserError * UserStore :=
  commit ok (modify id (fun u =>
    (let? u1 := match role with Some r => set_home_role r u | None => Ok u end in
     let u2 := with_login u1 (default (u_enabled u1) enabled) (u_password_hash u1) in
     let? u3 := match password with
                | Some p => if len p <? 8 then Err Invalid
                            else let? h := hash_password p in Ok (with_login u2 (u_enabled u2) h)
                | None => Ok u2
                end in
     Ok (u3, u3))%rust)) s.

Definition delete_user (ok : bool) (id : str) (s : UserStore) : result unit UserError * UserStore :=
  if negb (existsb (fun u => str_eqb (u_id u) id) (users s)) then (Err NoSuchUser, s)
  else commit ok (fun us => Ok (tt, filter (fun u => u_id u ≠ id) us)) s.

Definition verify_user (s : UserStore) (username password : str) : option User :=
  match find_by_username s username with
  | Some u => if verify_password (u_password_hash u) password then Some u else None
  | None => None
  end.

(** ** Second factors *)

Definition totp_begin (ok : bool) (secret : str) (id : str) (s : UserStore) : result str UserError * UserStore :=
  commit ok (modify id (fun u =>
    Ok (secret, with_totp u (u_totp_secret u) (Some secret) (u_recovery_hashes u) (u_totp_last_step u)))) s.

Definition totp_enable (ok : bool) (codes hashes : list str) (id code : str) (now : Z) (s : UserStore) :
    result (list str) UserError * UserStore :=
  commit ok (modify id (fun u =>
    match u_totp_pending u with
    | None => Err Invalid
    | Some pending =>
        if totp_verify pending code now
        then Ok (codes, with_totp u (Some pending) None hashes (u_totp_last_step u))
        else Err Invalid
    end)) s.

Definition totp_try_advance_step (ok : bool) (id : str) (step : Z) (s : UserStore) : bool * UserStore :=
  match get_user s id with
  | None => (false, s)
  | Some u =>
      if match u_totp_last_step u with Some last => step <=? last | None => false end then (false, s)
      else
        let '(r, s') := commit ok (modify id (fun u =>
          Ok (tt, with_totp u (u_totp_secret u) (u_totp_pending u) (u_recovery_hashes u) (Some step)))) s in
        (is_ok r, s')
  end.

Definition totp_disable (ok : bool) (id : str) (s : UserStore) : result unit UserError * UserStore :=
  commit ok (modify id (fun u => Ok (tt, with_totp u None None [] (u_totp_last_step u)))) s.

Definition consume_recovery (ok : bool) (id code : str) (s : UserStore) : bool * UserStore :=
  let hash := hash_recovery_code code in
  match get_user s id with
  | None => (false, s)
  | Some u =>
      if negb (bool_decide (hash ∈ u_recovery_hashes u)) then (false, s)
      else
        let '(r, s') := commit ok (modify id (fun u =>
          Ok (tt, with_totp u (u_totp_secret u) (u_totp_pending u)
                    (filter (fun h => h ≠ hash) (u_recovery_hashes u)) (u_totp_last_step u)))) s in
        (is_ok r, s')
  end.

(** ** Passkeys *)

Definition add_passkey (ok : bool) (pid : str) (now : Z) (id name credential : str) (usernameless : bool)
    (s : UserStore) : result StoredPasskey UserError * UserStore :=
  commit ok (modify id (fun u =>
    if (10 <=? length (u_passkeys u))%nat then Err Invalid
    else let stored := {| pk_id := pid; pk_name := name; pk_created_at := now; pk_credential := credential;
                          pk_usernameless := usernameless |} in
         Ok (stored, with_passkeys u (u_passkeys u ++ [stored])))) s.

Definition remove_passkey (ok : bool) (user_id passkey_id : str) (s : UserStore) :
    result unit UserError * UserStore :=
  let present := match get_user s user_id with
                 | Some u => existsb (fun p => str_eqb (pk_id p) passkey_id) (u_passkeys u)
                 | None => false
                 end in
  if negb present then (Err NoSuchUser, s)
  else commit ok (modify user_id (fun u =>
         Ok (tt, with_passkeys u (filter (fun p => pk_id p ≠ passkey_id) (u_passkeys u))))) s.

(** [refreshed] is the credential after the sign-in, none when unchanged. *)
Definition update_passkey_after_auth (ok : bool) (refreshed : str → option str) (user_id : str) (s : UserStore) :
    UserStore :=
  let refresh p := match refreshed (pk_credential p) with
                   | Some c => {| pk_id := pk_id p; pk_name := pk_name p; pk_created_at := pk_created_at p;
                                  pk_credential := c; pk_usernameless := pk_usernameless p |}
                   | None => p
                   end in
  match modify user_id (fun u => Ok (existsb (fun p => is_some (refreshed (pk_credential p))) (u_passkeys u),
                                     with_passkeys u (refresh <$> u_passkeys u))) (users s) with
  | Err _ => s
  | Ok (changed, us) =>
      if changed then
        match persist ok {| users := us; disk := disk s |} with
        | (true, s') => s'
        | (false, s') => {| users := users s; disk := disk s' |}
        end
      else {| users := us; disk := disk s |}
  end.

End Store.

(** ** Sequences of operations *)

(** Every operation, with whether its write succeeds. *)
Inductive UserOp : Type :=
| OCreate (ok : bool) (id : str) (now : Z) (username password : str) (org_id : option str) (grants : list Grant)
| OCreateSso (ok : bool) (id : str) (now : Z) (username : str) (org_id : option str) (grants : list Grant)
| OSetGrants (ok : bool) (id : str) (grants : list Grant)
| OSetGrantsLogin (ok : bool) (id : str) (grants : list Grant)
| ORemoveOrg (ok : bool) (org : str)
| OUpdate (ok : bool) (id : str) (role : option Role) (enabled : option bool) (password : option str)
| ODelete (ok : bool) (id : str)
| OTotpBegin (ok : bool) (secret id : str)
| OTotpEnable (ok : bool) (codes hashes : list str) (id code : str) (now : Z)
| OTotpAdvance (ok : bool) (id : str) (step : Z)
| OTotpDisable (ok : bool) (id : str)
| ORecovery (ok : bool) (id code : str)
| OAddPasskey (ok : bool) (pid : str) (now : Z) (id name credential : str) (usernameless : bool)
| ORemovePasskey (ok : bool) (user_id passkey_id : str)
| OPasskeyUsed (ok : bool) (refreshed : str → option str) (user_id : str)
| OImport (ok : bool) (imported : list User)
| OReload (ok : bool).

Section Exec.
Context (hash_password : str → result str UserError).
Context (totp_verify : str → str → Z → bool) (hash_recovery_code : str → str).

(** Whether the operation reports that something was done, and the store. *)
Definition exec_user (o : UserOp) (s : UserStore) : bool * UserStore :=
  let report {R} (x : result R UserError * UserStore) := (is_ok x.1, x.2) in
  match o with
  | OCreate ok id now name pw org gs => report (create_with_grants hash_password ok id now name pw org gs s)
  | OCreateSso ok id now name org gs => report (create_sso hash_password ok id now name org gs s)
  | OSetGrants ok id gs => report (set_grants ok id gs s)
  | OSetGrantsLogin ok id gs => report (set_grants_from_login ok id gs s)
  | ORemoveOrg ok org => let x := remove_org_grants ok org s in (negb (bool_decide (x.1 = [])), x.2)
  | OUpdate ok id r e p => report (update_user hash_password ok id r e p s)
  | ODelete ok id => report (delete_user ok id s)
  | OTotpBegin ok secret id => report (totp_begin ok secret id s)
  | OTotpEnable ok codes hashes id code now => report (totp_enable totp_verify ok codes hashes id code now s)
  | OTotpAdvance ok id step => totp_try_advance_step ok id step s
  | OTotpDisable ok id => report (totp_disable ok id s)
  | ORecovery ok id code => consume_recovery hash_recovery_code ok id code s
  | OAddPasskey ok pid now id name cred un => report (add_passkey ok pid now id name cred un s)
  | ORemovePasskey ok uid pid => report (remove_passkey ok uid pid s)
  | OPasskeyUsed ok refreshed uid => (true, update_passkey_after_auth ok refreshed uid s)
  | OImport ok imported => report (import_users ok imported s)
  | OReload ok => (true, load_users ok (disk s))
  end.

Definition exec_users (ops : list UserOp) (s : UserStore) : UserStore :=
  fold_left (fun s o => (exec_user o s).2) ops s.

(** *** What saving does *)

Lemma commit_spec {R} ok (change : list User → result (R * list User) UserError) s :
  let '(r, s') := commit ok change s in
  (is_ok r = false ∧ s' = s)
  ∨ ∃ out us, change (users s) = Ok (out, us) ∧ r = Ok out ∧ s' = {| users := us; disk := us |}.
Proof.
  unfold commit, persist. destruct (change (users s)) as [[out us]|e] eqn:E; [|by left].
  destruct ok; [right; by exists out, us|left; by destruct s].
Qed.

(** A change to rows keeps what it keeps of each row. *)
Lemma commit_Forall {R} ok (change : list User → result (R * list User) UserError) (P : User → Prop) s :
  (∀ out us us', change us = Ok (out, us') → Forall P us → Forall P us') →
  Forall P (users s) → Forall P (disk s) →
  Forall P (users (commit ok change s).2) ∧ Forall P (disk (commit ok change s).2).
Proof.
  intros Hc Hu Hd. pose proof (commit_spec ok change s) as H. destruct (commit ok change s) as [r s'].
  destruct H as [[_ ->]|(out & us & Ec & _ & ->)]; [done|]. simpl. split; eapply Hc; eauto.
Qed.

Lemma modify_spec {R} id (f : User → result (R * User) UserError) l r l' :
  modify id f l = Ok (r, l') →
  ∃ i u u', l !! i = Some u ∧ u_id u = id ∧ f u = Ok (r, u') ∧ l' = <[i := u']> l
    ∧ find (fun v => str_eqb (u_id v) id) l = Some u.
Proof.
  revert l'. induction l as [|v l IH]; intros l' H; [done|]. simpl in H. simpl.
  destruct (str_eqb (u_id v) id) eqn:E.
  - destruct (f v) as [[r' u']|] eqn:Ef; [|done]. cbn [result_bind] in H. injection H as -> <-.
    exists 0%nat, v, u'. by apply str_eqb_eq in E.
  - destruct (modify id f l) as [[r' l'']|] eqn:Em; [|done]. cbn [result_bind] in H. injection H as -> <-.
    destruct (IH _ eq_refl) as (i & u & u' & ? & ? & ? & -> & ?). by exists (S i), u, u'.
Qed.

Lemma modify_Forall {R} id (f : User → result (R * User) UserError) (P : User → Prop) r l l' :
  (∀ u r u', u_id u = id → find (fun v => str_eqb (u_id v) id) l = Some u → f u = Ok (r, u') → P u → P u') →
  modify id f l = Ok (r, l') → Forall P l → Forall P l'.
Proof.
  intros Hf Hm Hl. apply modify_spec in Hm as (i & u & u' & Hu & Hid & Hfu & -> & Hfind).
  apply Forall_insert; [done|]. eapply Hf; [done|done|done|]. rewrite Forall_lookup in Hl. by eapply Hl.
Qed.

(** Every operation is a [commit], or leaves the store alone. *)
Lemma create_record_Forall (P : User → Prop) ok id now name pw org gs s :
  (∀ name hash, P (sync_home_role
          {| u_id := id; u_username := name; u_password_hash := hash; u_role := Viewer; u_org_id := org;
             u_grants := gs; u_created_at := now; u_enabled := true; u_totp_secret := None;
             u_totp_pending := None; u_recovery_hashes := []; u_totp_last_step := None; u_passkeys := [] |})) →
  Forall P (users s) → Forall P (disk s) →
  let s' := (create_record hash_password ok id now name pw org gs s).2 in
  Forall P (users s') ∧ Forall P (disk s').
Proof.
  intros Hnew Hu Hd. unfold create_record.
  destruct (str_eqb _ _); [done|]. destruct (eq_ignore_case _ _); [done|]. destruct (existsb _ _); [done|].
  destruct (match pw with Some _ => _ | None => _ end) as [h|]; [|done].
  apply commit_Forall; [|done|done]. intros out us us' [= _ <-] Hus. apply Forall_app. split; [done|].
  apply Forall_singleton, Hnew.
Qed.

(** The rows of a predicate that only looks at what no operation but the
    advance of a step changes. *)
Definition same_login (u u' : User) : Prop := u_id u' = u_id u ∧ u_totp_last_step u' = u_totp_last_step u.

Lemma sync_same u : same_login u (sync_home_role u).
Proof. done. Qed.

Lemma strip_same t u : same_login u (strip_org t u).
Proof. unfold strip_org. by destruct (existsb _ _). Qed.

Lemma convert_same u : same_login u (convert_legacy_row u).
Proof. unfold convert_legacy_row. by destruct (is_legacy_row u). Qed.

Lemma home_role_same r u u' : set_home_role r u = Ok u' → same_login u u'.
Proof. unfold set_home_role. destruct (normalized _ _); [|done]. by intros [= <-]. Qed.

Section Kept.
Context (P : User → Prop) (P_same : ∀ u u', same_login u u' → P u → P u').

Lemma modify_same {R} id (f : User → result (R * User) UserError) ok s :
  (∀ u r u', f u = Ok (r, u') → same_login u u') →
  Forall P (users s) → Forall P (disk s) →
  Forall P (users (commit ok (modify id f) s).2) ∧ Forall P (disk (commit ok (modify id f) s).2).
Proof.
  intros Hf. apply commit_Forall. intros out us us' Hm. eapply modify_Forall; [|exact Hm].
  intros u r u' _ _ Hu. by eapply P_same, Hf.
Qed.

(** Every operation but the two that decide about a row of the predicate's. *)
Lemma exec_kept o s :
  match o with
  | OCreate _ id now _ _ org _ | OCreateSso _ id now _ org _ =>
      ∀ gs name hash, P (sync_home_role
          {| u_id := id; u_username := name; u_password_hash := hash; u_role := Viewer; u_org_id := org;
             u_grants := gs; u_created_at := now; u_enabled := true; u_totp_secret := None;
             u_totp_pending := None; u_recovery_hashes := []; u_totp_last_step := None; u_passkeys := [] |})
  | OTotpAdvance _ _ _ => False
  | OImport _ imported => Forall P imported
  | _ => True
  end →
  Forall P (users s) → Forall P (disk s) →
  Forall P (users (exec_user o s).2) ∧ Forall P (disk (exec_user o s).2).
Proof.
  intros Ho Hu Hd. destruct o; cbn [exec_user fst snd]; try done.
  - unfold create_with_grants. destruct (normalized _ _); [|done]. by apply create_record_Forall.
  - unfold create_sso. destruct (normalized _ _); [|done]. by apply create_record_Forall.
  - unfold set_grants. destruct (normalized _ _); [|done]. apply modify_same; [|done|done]. by intros u r u' [= _ <-].
  - unfold set_grants_from_login. destruct (normalized _ _); [|done]. apply modify_same; [|done|done].
    by intros u r u' [= _ <-].
  - unfold remove_org_grants. destruct (u_username <$> _); [done|].
    pose proof (commit_Forall ok (fun us => Ok (tt, strip_org (Child org) <$> us)) P s) as H.
    destruct (commit ok _ s) as [[] s']; (apply H; [|done|done]); intros ? us us' [= _ <-] Hus;
      (apply Forall_fmap; eapply Forall_impl; [exact Hus|]; intros u; apply P_same, strip_same).
  - apply modify_same; [|done|done]. intros u r u' H.
    destruct role as [ro|]; [destruct (set_home_role ro u) as [u1|] eqn:E; [|done]; apply home_role_same in E|];
      cbn [result_bind] in H; (destruct password as [p|]; [destruct (len p <? 8); [done|];
        destruct (hash_password p); [|done]|]); cbn [result_bind] in H; injection H as _ <-; by unfold same_login in *.
  - unfold delete_user. destruct (negb _); [done|]. apply commit_Forall; [|done|done].
    intros out us us' [= _ <-]. apply Forall_filter.
  - apply modify_same; [|done|done]. by intros u r u' [= _ <-].
  - apply modify_same; [|done|done]. intros u r u' H. destruct (u_totp_pending u); [|done].
    destruct (totp_verify _ _ _); [|done]. by injection H as _ <-.
  - apply modify_same; [|done|done]. by intros u r u' [= _ <-].
  - unfold consume_recovery. destruct (get_user s id); [|done]. destruct (negb _); [done|].
    match goal with |- context [commit ?a ?b ?c] => pose proof (modify_same id (fun u => Ok (tt, with_totp u (u_totp_secret u) (u_totp_pending u)
                    (filter (fun h => h ≠ hash_recovery_code code) (u_recovery_hashes u)) (u_totp_last_step u))) ok s) as H;
      destruct (commit a b c) as [r s'] end.
    apply H; [|done|done]. by intros v r' v' [= _ <-].
  - apply modify_same; [|done|done]. intros u r u' H. destruct (_ <=? _)%nat; [done|]. by injection H as _ <-.
  - unfold remove_passkey. destruct (negb _); [done|]. apply modify_same; [|done|done]. by intros u r u' [= _ <-].
  - unfold update_passkey_after_auth, persist.
    destruct (modify _ _ _) as [[ch us]|] eqn:Em; [|done].
    assert (Hus : Forall P us).
    { eapply modify_Forall; [|exact Em|done]. intros u r u' _ _ [= _ <-]. by apply P_same. }
    destruct ch; [|done]. by destruct ok.
  - unfold import_users, persist. destruct ok; [|done]. simpl.
    assert (Hc : Forall P (sync_home_role <$> (convert_legacy_row <$> imported))); [|done].
    do 2 apply Forall_fmap. eapply Forall_impl; [exact Ho|]. intros u Hu'. simpl.
    eapply P_same; [apply sync_same|]. by eapply P_same; [apply convert_same|].
  - unfold load_users, persist. assert (Hc : Forall P (convert_legacy_row <$> disk s)).
    { apply Forall_fmap. eapply Forall_impl; [exact Hd|]. intros u. apply P_same, convert_same. }
    destruct (existsb _ _); [destruct ok|]; done.
Qed.

End Kept.
End Exec.

(** ** What the store promises *)

Section Promises.
Context (hash_password : str → result str UserError).
Context (totp_verify : str → str → Z → bool) (hash_recovery_code : str → str).

#[local] Abbreviation exec := (exec_user hash_password totp_verify hash_recovery_code).

(** A change is saved whole and reported, or did not happen. *)
Definition settled (s : UserStore) (r : bool * UserStore) : Prop :=
  r.2 = s ∨ (r.1 = true ∧ users r.2 = disk r.2).

Lemma commit_settles {R} ok (change : list User → result (R * list User) UserError) s :
  settled s (is_ok (commit ok change s).1, (commit ok change s).2).
Proof.
  pose proof (commit_spec ok change s) as H. destruct (commit ok change s) as [r s'].
  destruct H as [[_ ->]|(out & us & _ & -> & ->)]; [by left|by right].
Qed.

Lemma with_passkeys_id u : with_passkeys u (u_passkeys u) = u.
Proof. by destruct u. Qed.

Lemma stay_settled s b : settled s (b, s).
Proof. by left. Qed.

Lemma record_settles ok id now name pw org gs s :
  let x := create_record hash_password ok id now name pw org gs s in settled s (is_ok x.1, x.2).
Proof.
  unfold create_record.
  repeat (destruct (str_eqb _ _) || destruct (eq_ignore_case _ _) || destruct (existsb _ _); [apply stay_settled|]).
  destruct (match pw with Some _ => _ | None => _ end); [apply commit_settles|apply stay_settled].
Qed.

Lemma import_settles ok imported s :
  let x := import_users ok imported s in settled s (is_ok x.1, x.2).
Proof. unfold import_users, persist. destruct ok; [by right|left]. by destruct s. Qed.

Lemma passkey_use_settles ok refreshed uid s : settled s (true, update_passkey_after_auth ok refreshed uid s).
Proof.
  unfold update_passkey_after_auth, persist. destruct (modify _ _ _) as [[ch us]|] eqn:Em; [|apply stay_settled].
  destruct ch; [destruct ok; [by right|left; by destruct s]|]. left. simpl. destruct s as [us0 d0].
  f_equal. simpl in Em. apply modify_spec in Em as (i & u & u' & Hu & _ & [= Hch <-] & -> & _).
  apply list_insert_id. rewrite Hu. f_equal. rewrite <- (with_passkeys_id u) at 1. f_equal.
  apply existsb_false in Hch. symmetry. rewrite <- (list_fmap_id (u_passkeys u)) at 2.
  apply Forall_fmap_ext_1. eapply Forall_impl; [exact Hch|]. intros p Hp. simpl in Hp. simpl.
  by destruct (refreshed (pk_credential p)).
Qed.

Lemma exec_settles o s : (∀ ok, o ≠ OReload ok) → settled s (exec o s).
Proof.
  intros Ho. destruct o; cbn [exec_user];
    try (apply commit_settles || apply import_settles || apply passkey_use_settles).
  - unfold create_with_grants. destruct (normalized _ _); [apply record_settles|apply stay_settled].
  - unfold create_sso. destruct (normalized _ _); [apply record_settles|apply stay_settled].
  - unfold set_grants. destruct (normalized _ _); [apply commit_settles|apply stay_settled].
  - unfold set_grants_from_login. destruct (normalized _ _); [apply commit_settles|apply stay_settled].
  - unfold remove_org_grants. destruct (u_username <$> _) as [|n ns] eqn:Et; [apply stay_settled|].
    pose proof (commit_settles ok (fun us => Ok (tt, strip_org (Child org) <$> us)) s) as H.
    destruct (commit ok _ s) as [[] s']; destruct H as [H|[H1 H2]]; try (by left); try done.
    by right.
  - unfold delete_user. destruct (negb _); [apply stay_settled|apply commit_settles].
  - unfold totp_try_advance_step. destruct (get_user s id); [|apply stay_settled].
    destruct (match u_totp_last_step u with Some _ => _ | None => _ end); [apply stay_settled|].
    match goal with |- context [commit ?a ?b ?c] => pose proof (commit_settles a b c); by destruct (commit a b c) end.
  - unfold consume_recovery. destruct (get_user s id); [|apply stay_settled]. destruct (negb _); [apply stay_settled|].
    match goal with |- context [commit ?a ?b ?c] => pose proof (commit_settles a b c); by destruct (commit a b c) end.
  - unfold remove_passkey. destruct (negb _); [apply stay_settled|apply commit_settles].
  - by destruct (Ho ok).
Qed.

(** Memory holds the saved rows, or the saved rows with the rows written before
    grants existed converted. *)
Definition in_step (s : UserStore) : Prop := users s = disk s ∨ users s = (convert_legacy_rows (disk s)).1.

Lemma convert_once u : convert_legacy_row (convert_legacy_row u) = convert_legacy_row u.
Proof.
  unfold convert_legacy_row at 2. destruct (is_legacy_row u) eqn:E.
  - unfold convert_legacy_row, is_legacy_row at 1. rewrite E, bool_decide_eq_false_2; [done|].
    simpl. unfold legacy_grants. by repeat case_match.
  - done.
Qed.

Lemma in_step_restart s : in_step s → users (load_users true (disk s)) = (convert_legacy_rows (users s)).1.
Proof.
  intros H. assert (Hl : users (load_users true (disk s)) = convert_legacy_row <$> disk s).
  { unfold load_users, persist. by destruct (existsb _ _). }
  rewrite Hl. destruct H as [->| ->]; [done|]. simpl. rewrite <- list_fmap_compose.
  apply list_fmap_ext. intros _ u _. symmetry. apply convert_once.
Qed.

Lemma load_in_step ok rows : in_step (load_users ok rows).
Proof. unfold load_users, persist, in_step. destruct (existsb _ _); [destruct ok|]; simpl; auto. Qed.

Lemma load_saved ok rows :
  (ok = false → existsb is_legacy_row rows = false) → users (load_users ok rows) = disk (load_users ok rows).
Proof.
  intros H. unfold load_users, persist. destruct (existsb is_legacy_row rows) eqn:E.
  - destruct ok; [done|]. discriminate H. done.
  - simpl. apply existsb_false in E. rewrite <- (list_fmap_id rows) at 2.
    apply Forall_fmap_ext_1. eapply Forall_impl; [exact E|]. intros u Hu. unfold convert_legacy_row. by rewrite Hu.
Qed.

(** C27: Nothing is done by halves. For every operation of the store, the import of
    a dump and the restart included, and whether or not its write succeeds: an
    operation that reports a failure changed nothing; memory holds what is
    saved, or what is saved with the rows written before grants existed
    converted; it holds exactly what is saved if it did so before, unless the
    operation is a restart that had such rows to convert and whose write failed
    (a restart does not look at that write's outcome); and a restart that can
    write would bring back the rows in memory, converted. *)
Theorem user_store_transactional o s :
  in_step s →
  let r := exec_user hash_password totp_verify hash_recovery_code o s in
  (r.1 = false → r.2 = s)
  ∧ in_step r.2
  ∧ (users s = disk s → (o = OReload false → existsb is_legacy_row (disk s) = false) → users r.2 = disk r.2)
  ∧ users (load_users true (disk r.2)) = (convert_legacy_rows (users r.2)).1.
Proof.
  intros Hs. cbv zeta.
  assert (H : (∃ ok, o = OReload ok) ∨ settled s (exec o s)).
  { destruct o; try (right; by apply exec_settles). left. by exists ok. }
  destruct H as [[ok ->]|Hset].
  - cbn [exec_user fst snd]. pose proof (load_in_step ok (disk s)) as Hl.
    split_and!; [done|done| |by apply in_step_restart]. intros _ Hw. apply load_saved. intros ->. by apply Hw.
  - assert (Hi : in_step (exec o s).2) by (destruct Hset as [->|[_ ?]]; [done|by left]).
    split_and!; [|done| |by apply in_step_restart]; destruct Hset as [->|[Ht Hd]]; try done; congruence.
Qed.

(** A step of [id] at least [step] has been accepted. *)
Definition spent (id : str) (step : Z) (u : User) : Prop :=
  u_id u = id → ∃ last, u_totp_last_step u = Some last ∧ step <= last.

Lemma spent_same id step u u' : same_login u u' → spent id step u → spent id step u'.
Proof. unfold spent. intros [-> ->]. done. Qed.

(** The identifiers of new accounts are fresh, and an imported dump was taken after
    the step was accepted: it brings back the step of its time. *)
Definition fresh_for (id : str) (step : Z) (o : UserOp) : Prop :=
  match o with OCreate _ i _ _ _ _ _ | OCreateSso _ i _ _ _ _ => i ≠ id
  | OImport _ imported => Forall (spent id step) imported | _ => True end.

Lemma advance_spent ok id' step' id step s :
  Forall (spent id step) (users s) → Forall (spent id step) (disk s) →
  let s' := (totp_try_advance_step ok id' step' s).2 in
  Forall (spent id step) (users s') ∧ Forall (spent id step) (disk s').
Proof.
  intros Hu Hd. unfold totp_try_advance_step. destruct (get_user s id') as [v|] eqn:Eg; [|done].
  destruct (match u_totp_last_step v with Some _ => _ | None => _ end) eqn:El; [done|].
  set (f := fun u => Ok (tt, with_totp u (u_totp_secret u) (u_totp_pending u) (u_recovery_hashes u) (Some step'))).
  assert (H : Forall (spent id step) (users (commit ok (modify id' f) s).2)
            ∧ Forall (spent id step) (disk (commit ok (modify id' f) s).2)).
  { pose proof (commit_spec ok (modify id' f) s) as Hc. destruct (commit ok (modify id' f) s) as [r s'].
    destruct Hc as [[_ ->]|(out & us & Em & _ & ->)]; [done|]. simpl.
    assert (Hus : Forall (spent id step) us); [|done].
    eapply modify_Forall; [|exact Em|exact Hu]. intros u r' u' _ Hfind [= _ <-] Hsp Hid. simpl in *.
    unfold get_user in Eg. rewrite Hfind in Eg. injection Eg as ->. exists step'. split; [done|].
    destruct (Hsp Hid) as (last & Hlast & Hle). rewrite Hlast in El. lia. }
  by destruct (commit ok (modify id' f) s).
Qed.

Lemma exec_spent id step o s :
  fresh_for id step o → Forall (spent id step) (users s) → Forall (spent id step) (disk s) →
  Forall (spent id step) (users (exec o s).2) ∧ Forall (spent id step) (disk (exec o s).2).
Proof.
  intros Hf Hu Hd.
  destruct o as [| | | | | | | | |ok i st| | | | | | |]; try by apply advance_spent.
  all: apply exec_kept; [by apply spent_same| |done|done]; try done; intros ??? Hid; by destruct Hf.
Qed.

Lemma exec_all_spent id step ops s :
  Forall (fresh_for id step) ops → Forall (spent id step) (users s) → Forall (spent id step) (disk s) →
  let s' := exec_users hash_password totp_verify hash_recovery_code ops s in
  Forall (spent id step) (users s') ∧ Forall (spent id step) (disk s').
Proof.
  intros Hops. revert s. induction Hops as [|o ops Ho _ IH]; intros s Hu Hd; [done|].
  unfold exec_users. cbn [fold_left]. destruct (exec_spent id step o s Ho Hu Hd). by apply IH.
Qed.

(** What an accepted step leaves behind, where identifiers are unique. *)
Lemma advance_accepts ok id step s s' :
  NoDup (u_id <$> users s) → totp_try_advance_step ok id step s = (true, s') →
  Forall (spent id step) (users s') ∧ disk s' = users s'
  ∧ ∃ u, get_user s id = Some u ∧ (∀ last, u_totp_last_step u = Some last → last < step).
Proof.
  intros Hnd. unfold totp_try_advance_step. destruct (get_user s id) as [v|] eqn:Eg; [|done].
  destruct (match u_totp_last_step v with Some _ => _ | None => _ end) eqn:El; [done|].
  set (f := fun u => Ok (tt, with_totp u (u_totp_secret u) (u_totp_pending u) (u_recovery_hashes u) (Some step))).
  pose proof (commit_spec ok (modify id f) s) as Hc. destruct (commit ok (modify id f) s) as [r s1].
  intros H. injection H as Hok <-. destruct Hc as [[Hno _]|(out & us & Em & _ & ->)]; [congruence|]. simpl.
  apply modify_spec in Em as (i & u & u' & Hi & Hid & [= _ <-] & -> & Hfind).
  split_and!; [|done|].
  - apply Forall_lookup. intros j w Hw Hwid. destruct (decide (i = j)) as [<-|Hne].
    + rewrite list_lookup_insert_eq in Hw by by eapply lookup_lt_Some. injection Hw as <-. simpl.
      exists step. split; [done|lia].
    + rewrite list_lookup_insert_ne in Hw by done. exfalso. apply Hne.
      eapply NoDup_lookup; [exact Hnd| |]; rewrite list_lookup_fmap; [by rewrite Hi|by rewrite Hw; simpl; rewrite Hwid, Hid].
  - exists v. split; [done|]. intros last Hl. rewrite Hl in El. lia.
Qed.

(** C35: No code is used twice. Once a login's TOTP step is accepted for a user, no
    step that is not newer is accepted for that user again, whatever sequence of
    operations the store goes through in between: failing writes, restarts, a
    second factor turned off and enrolled again, deletions and imports included.
    Identifiers are assumed distinct and new ones fresh, and an imported dump to
    have been taken after the step was accepted. *)
Theorem totp_no_replay ok ok' id step step' ops s s1 s3 :
  NoDup (u_id <$> users s) → Forall (fresh_for id step) ops →
  totp_try_advance_step ok id step s = (true, s1) →
  totp_try_advance_step ok' id step' (exec_users hash_password totp_verify hash_recovery_code ops s1) = (true, s3) →
  step < step'.
Proof.
  intros Hnd Hops H1 H2. destruct (advance_accepts _ _ _ _ _ Hnd H1) as (Hu & Hd & _).
  destruct (exec_all_spent id step ops s1 Hops Hu) as [Hu2 _]; [by rewrite Hd|].
  set (s2 := exec_users _ _ _ _ _) in *. clear H1 Hnd Hu Hd.
  unfold totp_try_advance_step in H2. destruct (get_user s2 id) as [v|] eqn:Eg; [|done].
  unfold get_user in Eg. apply find_some in Eg as [Hin Hid]. apply str_eqb_eq in Hid.
  apply list_elem_of_In in Hin. rewrite Forall_forall in Hu2. destruct (Hu2 v Hin Hid) as (last & Hlast & Hle).
  rewrite Hlast in H2. destruct (Z.leb_spec step' last); [done|]. lia.
Qed.

End Promises.

(** ** Witnesses and examples *)

Definition bob : User :=
  {| u_id := bs "1"; u_username := bs "bob"; u_password_hash := bs "h"; u_role := Viewer; u_org_id := None;
     u_grants := [new_grant (Child (bs "acme")) Admin]; u_created_at := 0; u_enabled := true;
     u_totp_secret := Some (bs "s"); u_totp_pending := None; u_recovery_hashes := []; u_totp_last_step := None;
     u_passkeys := [] |}.
Definition bob_store : UserStore := {| users := [bob]; disk := [bob] |}.
Definition no_hash : str → result str UserError := fun p => Ok p.

(** [bob] as written before grants existed. *)
Definition old_bob : User := with_grants bob [].

Lemma user_store_transactional_witness :
  (exec_user no_hash (fun _ _ _ => true) id (OSetGrants false (bs "1") [new_grant All Admin]) bob_store).2 = bob_store
  ∧ in_step (load_users false [old_bob]).
Proof.
  split.
  - apply (user_store_transactional no_hash (fun _ _ _ => true) id (OSetGrants false (bs "1") [new_grant All Admin]) bob_store).
    + left. reflexivity.
    + reflexivity.
  - apply (user_store_transactional no_hash (fun _ _ _ => true) id (OReload false) {| users := [old_bob]; disk := [old_bob] |}).
    left. reflexivity.
Defined.

(** A start whose conversion cannot be written serves the converted rows and
    leaves the old ones on disk, so the conversion happens again at the next. *)
Example conversion_not_saved :
  u_grants <$> users (load_users false [old_bob]) = [[new_grant Master Viewer]]
  ∧ u_grants <$> disk (load_users false [old_bob]) = [[]].
Proof. vm_compute. done. Qed.

Lemma totp_no_replay_witness : 5 < 6.
Proof.
  apply (totp_no_replay no_hash (fun _ _ _ => true) id true true (bs "1") 5 6 [OTotpDisable true (bs "1"); OReload true]
           bob_store (totp_try_advance_step true (bs "1") 5 bob_store).2
           (totp_try_advance_step true (bs "1") 6
              (exec_users no_hash (fun _ _ _ => true) id [OTotpDisable true (bs "1"); OReload true]
                 (totp_try_advance_step true (bs "1") 5 bob_store).2)).2).
  - apply NoDup_singleton.
  - repeat constructor.
  - reflexivity.
  - vm_compute. reflexivity.
Defined.

(** When the only organization an account reaches is deleted the account is left
    with no grant. A row with a password and no grant reads as one written
    before grants existed, so the next start gives it a role in its home
    organization: here a viewer of master, where it never held anything. *)
Example emptied_account_returns :
  let s := (remove_org_grants true (bs "acme") bob_store).2 in
  (user_role_in <$> find_by_username bob_store (bs "bob")) ≫= (fun f => f None) = None
  ∧ u_grants <$> find_by_username s (bs "bob") = Some []
  ∧ u_grants <$> find_by_username (load_users true (disk s)) (bs "bob") = Some [new_grant Master Viewer].
Proof. vm_compute. done. Qed.
