(* ===== verification/Sessions.v ===== *)
(** Sessions and callers: the session store ([store/sessions.rs]), the session
    cookie ([auth/session.rs]), who a request's credential resolves to
    ([auth/caller.rs], with the keys of [store/admin_keys.rs] and the header
    readers of [auth/token.rs]) and what a session reaches ([auth/scope.rs]).

    SHA-256 and the UUID parser are parameters, the clock an argument, and each
    write to the database is told whether it succeeds. The checks of one request
    are made at one instant; the sweep of an expired session that a check makes
    on the way is [session_scope_sweep], which no check can see. *)

From S2P Require Import Prelude Binds Orgs VisitorAuth Grants Users.

(** ** The store *)

Inductive Plane : Type := PVisitor | PAdmin.

#[export] Instance Plane_eq : EqDecision Plane.
Proof. solve_decision. Defined.

Record SessionInfo : Type := {
  si_expires_at : Z;
  si_created_at : Z;
  si_ip : option str;
  si_user_agent : option str;
  si_plane : Plane;
  si_scope_host : option str;
  si_username : option str;
  si_role : Role;
  si_selected_org : option str;
  si_bound_org : option str;
  si_login_host : option str;
  si_sso_issuer : option str;
}.

Definition usable_on (i : SessionInfo) (fenced : bool) (host : option str) : bool :=
  negb fenced || negb (is_some (si_login_host i)) || bool_decide (si_login_host i = host).

(** The rows of the table are keyed as the map is. *)
Record SessionStore : Type := {
  sessions : list (str * SessionInfo);
  rows : list (str * SessionInfo);
}.

Section Store.
Context (sha256 : str → str).

Definition token_key (token : str) : str := concat (hex_byte <$> sha256 token).

Definition persist_one (ok : bool) (key : str) (info : SessionInfo) (s : SessionStore) : SessionStore :=
  if ok then {| sessions := sessions s; rows := aset key info (rows s) |} else s.

Definition persist_all (ok : bool) (s : SessionStore) : SessionStore :=
  if ok then {| sessions := sessions s; rows := sessions s |} else s.

Definition read_live_sessions (now : Z) (table : list (str * SessionInfo)) : list (str * SessionInfo) :=
  filter (fun kv => (now <? si_expires_at kv.2) = true) table.

Definition load_sessions (ok : bool) (now : Z) (table : list (str * SessionInfo)) : SessionStore :=
  persist_all ok {| sessions := read_live_sessions now table; rows := table |}.

Definition session_insert (ok : bool) (token : str) (info : SessionInfo) (s : SessionStore) : SessionStore :=
  let key := token_key token in
  let s := persist_one ok key info s in
  {| sessions := aset key info (sessions s); rows := rows s |}.

Definition session_get (s : SessionStore) (token : str) : option SessionInfo := aget (token_key token) (sessions s).

(** A row that could not be deleted puts the session back. *)
Definition remove_by_key (ok : bool) (key : str) (s : SessionStore) : option SessionInfo * SessionStore :=
  match aget key (sessions s) with
  | None => (None, s)
  | Some removed =>
      if ok then (Some removed, {| sessions := aremove key (sessions s); rows := aremove key (rows s) |})
      else (None, {| sessions := aset key removed (aremove key (sessions s)); rows := rows s |})
  end.

Definition session_remove (ok : bool) (token : str) (s : SessionStore) : option SessionInfo * SessionStore :=
  remove_by_key ok (token_key token) s.

Definition retain_entries (ok : bool) (keep : str * SessionInfo → bool) (s : SessionStore) : SessionStore :=
  let kept := filter (fun kv => keep kv = true) (sessions s) in
  let s' := {| sessions := kept; rows := rows s |} in
  if bool_decide (length kept ≠ length (sessions s)) then persist_all ok s' else s'.

Definition session_retain (ok : bool) (keep : SessionInfo → bool) (s : SessionStore) : SessionStore :=
  retain_entries ok (fun kv => keep kv.2) s.

Definition retain_keys (ok : bool) (keep : list str) (s : SessionStore) : SessionStore :=
  retain_entries ok (fun kv => existsb (fun k => str_eqb k kv.1) keep) s.

Definition with_selected (i : SessionInfo) (org : option str) : SessionInfo :=
  {| si_expires_at := si_expires_at i; si_created_at := si_created_at i; si_ip := si_ip i;
     si_user_agent := si_user_agent i; si_plane := si_plane i; si_scope_host := si_scope_host i;
     si_username := si_username i; si_role := si_role i; si_selected_org := org; si_bound_org := si_bound_org i;
     si_login_host := si_login_host i; si_sso_issuer := si_sso_issuer i |}.

Definition set_selected_key (ok : bool) (key : str) (org : option str) (s : SessionStore) : bool * SessionStore :=
  match aget key (sessions s) with
  | None => (false, s)
  | Some info =>
      let info := with_selected info org in
      (true, persist_one ok key info {| sessions := aset key info (sessions s); rows := rows s |})
  end.

Definition set_selected_org (ok : bool) (token : str) (org : option str) (s : SessionStore) : bool * SessionStore :=
  set_selected_key ok (token_key token) org s.

Definition clear_selected_org (ok : bool) (org : str) (s : SessionStore) : nat * SessionStore :=
  let stale := (filter (fun kv => si_selected_org kv.2 = Some org) (sessions s)).*1 in
  (length stale, fold_left (fun s key => (set_selected_key ok key None s).2) stale s).

Definition token_matches_key (token key : str) : bool := str_eqb (token_key token) key.

(** *** A session that ended stays ended *)

Inductive SessionOp : Type :=
| SInsert (ok : bool) (token : str) (info : SessionInfo)
| SRemove (ok : bool) (token : str)
| SRemoveKey (ok : bool) (key : str)
| SRetain (ok : bool) (keep : SessionInfo → bool)
| SRetainKeys (ok : bool) (keep : list str)
| SSelect (ok : bool) (token : str) (org : option str)
| SClear (ok : bool) (org : str)
| SReload (ok : bool) (now : Z).

Definition exec_session (o : SessionOp) (s : SessionStore) : SessionStore :=
  match o with
  | SInsert ok token info => session_insert ok token info s
  | SRemove ok token => (session_remove ok token s).2
  | SRemoveKey ok key => (remove_by_key ok key s).2
  | SRetain ok keep => session_retain ok keep s
  | SRetainKeys ok keep => retain_keys ok keep s
  | SSelect ok token org => (set_selected_org ok token org s).2
  | SClear ok org => (clear_selected_org ok org s).2
  | SReload ok now => load_sessions ok now (rows s)
  end.

Definition gone (key : str) (s : SessionStore) : Prop := (key ∉ keys (sessions s)) ∧ (key ∉ keys (rows s)).

Lemma keys_filter_notin (P : str * SessionInfo → Prop) `{∀ x, Decision (P x)} key l :
  key ∉ keys l → key ∉ keys (filter P l).
Proof.
  unfold keys. intros Hn Hin. apply Hn. apply list_elem_of_fmap in Hin as (x & -> & Hx).
  apply list_elem_of_filter in Hx as [_ Hx]. by apply list_elem_of_fmap_2.
Qed.

Lemma keys_aset_notin key k v (l : list (str * SessionInfo)) : key ≠ k → key ∉ keys l → key ∉ keys (aset k v l).
Proof. intros Hne Hn Hin. apply elem_of_keys_aset in Hin as [->|Hin]; done. Qed.

Lemma keys_aremove_notin key k (l : list (str * SessionInfo)) : key ∉ keys l → key ∉ keys (aremove k l).
Proof. intros Hn Hin. by apply elem_of_keys_aremove in Hin. Qed.

Lemma remove_gone ok key k s : gone key s → gone key (remove_by_key ok k s).2.
Proof.
  intros [H1 H2]. unfold remove_by_key. destruct (aget k (sessions s)) as [i|] eqn:E; [|done].
  assert (key ≠ k) as Hne.
  { intros ->. apply aget_Some_elem in E. apply H1. unfold keys. change k with (k, i).1. by apply list_elem_of_fmap_2. }
  destruct ok; split; simpl; auto using keys_aremove_notin, keys_aset_notin.
Qed.

Lemma select_gone ok key k org s : gone key s → gone key (set_selected_key ok k org s).2.
Proof.
  intros [H1 H2]. unfold set_selected_key, persist_one. destruct (aget k (sessions s)) as [i|] eqn:E; [|done].
  assert (key ≠ k) as Hne.
  { intros ->. apply aget_Some_elem in E. apply H1. unfold keys. change k with (k, i).1. by apply list_elem_of_fmap_2. }
  destruct ok; split; simpl; auto using keys_aset_notin.
Qed.

Lemma retain_gone ok key keep s : gone key s → gone key (retain_entries ok keep s).
Proof.
  intros [H1 H2]. unfold retain_entries, persist_all.
  destruct (bool_decide _); [destruct ok|]; split; simpl; auto using keys_filter_notin.
Qed.

Lemma exec_gone key o s :
  (∀ ok token info, o = SInsert ok token info → token_key token ≠ key) → gone key s → gone key (exec_session o s).
Proof.
  intros Ho Hg. destruct o as [ok token info|ok token|ok k|ok keep|ok keep|ok token org|ok org|ok now]; simpl.
  - specialize (Ho ok token info eq_refl). destruct Hg as [H1 H2]. unfold session_insert, persist_one.
    destruct ok; split; simpl; auto using keys_aset_notin.
  - by apply remove_gone.
  - by apply remove_gone.
  - by apply retain_gone.
  - by apply retain_gone.
  - by apply select_gone.
  - unfold clear_selected_org. simpl. generalize ((filter (fun kv => si_selected_org kv.2 = Some org) (sessions s)).*1).
    intros ks. revert s Hg. induction ks as [|k ks IH]; intros s Hg; [done|]. simpl. by apply IH, select_gone.
  - destruct Hg as [_ H2]. unfold load_sessions, persist_all, read_live_sessions.
    destruct ok; split; simpl; auto using keys_filter_notin.
Qed.

(** A sign-out is final. Once a session's removal is reported, no operation
    on the store brings it back, restarts and failing writes included, short of
    a new sign-in under the same key; a removal that could not be written is
    reported as nothing removed and leaves the session in place. *)
Theorem session_removal_durable ok key s ops :
  NoDup (keys (sessions s)) → NoDup (keys (rows s)) →
  Forall (fun o => ∀ ok token info, o = SInsert ok token info → token_key token ≠ key) ops →
  match remove_by_key ok key s with
  | (Some _, s') => aget key (sessions (fold_left (fun s o => exec_session o s) ops s')) = None
  | (None, s') => ∀ k, aget k (sessions s') = aget k (sessions s)
  end.
Proof.
  intros Hn Hr Hops. unfold remove_by_key. destruct (aget key (sessions s)) as [i|] eqn:E; [|done].
  destruct ok.
  - set (s' := {| sessions := _ |}). assert (Hg : gone key s').
    { split; apply aget_None; simpl; by apply aget_aremove_eq. }
    clearbody s'. clear -Hops Hg. revert s' Hg.
    induction Hops as [|o ops Ho _ IH]; intros s' Hg; simpl; [by apply aget_None, Hg|]. by apply IH, exec_gone.
  - intros k. simpl. destruct (decide (key = k)) as [<-|Hne]; [by rewrite aget_aset_eq|].
    by rewrite aget_aset_ne, aget_aremove_ne.
Qed.

End Store.

(** ** The session cookie *)

Definition SESSION_COOKIE_SECURE : str := bs "__Host-aperio_session".
Definition SESSION_COOKIE_PLAIN : str := bs "aperio_session".

Definition session_cookie_name (secure : bool) : str :=
  if secure then SESSION_COOKIE_SECURE else SESSION_COOKIE_PLAIN.

Definition session_set_cookie (secure : bool) (token : str) : str :=
  session_cookie_name secure ++ bs "=" ++ token ++ bs "; Path=/; HttpOnly; SameSite=Lax; Max-Age=86400"
  ++ (if secure then bs "; Secure" else []).

(** The value of the first cookie of a [Cookie] header with this name. *)
Fixpoint read_cookie (want : str) (parts : list str) : option str :=
  match parts with
  | [] => None
  | part :: rest =>
      match split_once "="%char (trim part) with
      | Some (k, v) => if str_eqb k want then Some v else read_cookie want rest
      | None => read_cookie want rest
      end
  end.

Definition session_cookie (hs : headers) (secure : bool) : option str :=
  match header_str (bs "cookie") hs with
  | None => None
  | Some cookie_str =>
      let read want := read_cookie want (split_on ";"%char cookie_str) in
      if secure then read SESSION_COOKIE_SECURE
      else match read SESSION_COOKIE_SECURE with Some v => Some v | None => read SESSION_COOKIE_PLAIN end
  end.

(** [server/panel.rs] *)
Definition request_host (hs : headers) : option str :=
  match header_str (bs "host") hs with
  | None => None
  | Some raw =>
      let name := match rsplit_once colon raw with
                  | Some (name, port) => if negb (str_eqb name []) && forallb is_digit port then name else raw
                  | None => raw
                  end in
      let host := lower (trim_end_char dot (trim name)) in
      if str_eqb host [] then None else Some host
  end.

(** ** Keys *)

Record AdminKey : Type := {
  k_id : str;
  k_name : str;
  k_key_hash : str;
  k_key_prefix : str;
  k_role : Role;
  k_org_id : option str;
  k_scope : option GrantOrg;
  k_created_at : Z;
  k_expires_at : option Z;
}.

Definition key_is_expired (now : Z) (k : AdminKey) : bool :=
  match k_expires_at k with Some exp => exp <=? now | None => false end.

Definition legacy_scope (role : Role) (org_id : option str) : GrantOrg :=
  match role, org_id with Admin, None => All | _, org => from_org_id org end.

Definition key_scope (k : AdminKey) : GrantOrg :=
  match k_scope k with Some scope => scope | None => legacy_scope (k_role k) (k_org_id k) end.

Definition credentials_for_scheme (value scheme : str) : option str :=
  if len value <? len scheme then None
  else if negb (eq_ignore_case (take (length scheme) value) scheme) then None
  else strip_prefix (bs " ") (drop (length scheme) value).

Definition extract_token (hs : headers) : option str :=
  match header_str (bs "authorization") hs with
  | Some auth =>
      match credentials_for_scheme auth (bs "Bearer") with
      | Some stripped => Some stripped
      | None => header_str (bs "x-auth-token") hs
      end
  | None => header_str (bs "x-auth-token") hs
  end.

(** ** Resolving *)

(** What the checks read of the server's state. *)
Record AuthState : Type := {
  a_sessions : SessionStore;
  a_users : UserStore;
  a_keys : list AdminKey;
  a_secure_cookies : bool;
  a_fenced_login : bool;
  a_fences : fences;
  a_clients : list served_client;
}.

Section Resolve.
Context (sha256 : str → str) (uuid_ok : str → bool).

Definition verify_key (now : Z) (keys : list AdminKey) (secret : str) : option AdminKey :=
  let hash := token_key sha256 secret in
  find (fun k => negb (key_is_expired now k) && constant_time_eq_str sha256 (k_key_hash k) hash) keys.

(** The live administrative session a request presents. *)
Definition admin_session (st : AuthState) (now : Z) (hs : headers) : option SessionInfo :=
  match session_cookie hs (a_secure_cookies st) with
  | None => None
  | Some token =>
      match session_get sha256 (a_sessions st) token with
      | None => None
      | Some info =>
          if (now <? si_expires_at info) && negb (is_some (si_scope_host info))
             && bool_decide (si_plane info = PAdmin) && usable_on info (a_fenced_login st) (request_host hs)
          then Some info else None
      end
  end.

(** Who a session is: the record of its user, or what its login recorded. *)
Definition session_holder (us : UserStore) (info : SessionInfo) : option Identity :=
  match si_bound_org info with
  | Some org =>
      match si_username info ≫= find_by_username us with
      | Some user =>
          Some (Named (u_username user)
                  (match user_role_in user (Some org) with
                   | Some role => [new_grant (Child org) role]
                   | None => []
                   end))
      | None =>
          if match si_username info with Some name => is_disabled_username us name | None => false end then None
          else Some (Oidc (default [] (si_username info)) (Some org) (si_role info))
      end
  | None =>
      match si_username info with
      | None => Some (BuiltIn (si_role info))
      | Some name =>
          match find_by_username us name with
          | Some user => Some (Named (u_username user) (u_grants user))
          | None => if is_disabled_username us name then None else Some (Oidc name None (si_role info))
          end
      end
  end.

Definition key_caller (st : AuthState) (now : Z) (hs : headers) : option Caller :=
  match extract_token hs with
  | None => None
  | Some presented =>
      match verify_key now (a_keys st) presented with
      | None => None
      | Some k => Some {| c_identity := Key (k_name k) (k_role k) (key_scope k); c_selected := None |}
      end
  end.

Definition resolve_caller (st : AuthState) (now : Z) (hs : headers) : option Caller :=
  match admin_session st now hs with
  | Some info =>
      match session_holder (a_users st) info with
      | Some who => Some {| c_identity := who; c_selected := si_selected_org info |}
      | None => key_caller st now hs
      end
  | None => key_caller st now hs
  end.

(** ** Scopes *)

Definition named_user_active (st : AuthState) (username : option str) : bool :=
  match username with None => true | Some name => negb (is_disabled_username (a_users st) name) end.

(** [Some None] is a global session, [Some (Some host)] one for [host] only. *)
Definition session_scope (st : AuthState) (now : Z) (hs : headers) : option (option str) :=
  match session_cookie hs (a_secure_cookies st) with
  | None => None
  | Some token =>
      if negb (uuid_ok token) then None
      else match session_get sha256 (a_sessions st) token with
           | None => None
           | Some info =>
               if negb (usable_on info (a_fenced_login st) (request_host hs)) then None
               else if is_some (si_sso_issuer info) && (now <? si_expires_at info) then None
               else if now <? si_expires_at info then
                 if named_user_active st (si_username info) then Some (si_scope_host info) else None
               else None
           end
  end.

(** The session the same check removes from the store, being expired. *)
Definition session_scope_sweep (ok : bool) (st : AuthState) (now : Z) (hs : headers) : SessionStore :=
  match session_cookie hs (a_secure_cookies st) with
  | None => a_sessions st
  | Some token =>
      if negb (uuid_ok token) then a_sessions st
      else match session_get sha256 (a_sessions st) token with
           | None => a_sessions st
           | Some info =>
               if negb (usable_on info (a_fenced_login st) (request_host hs)) then a_sessions st
               else if now <? si_expires_at info then a_sessions st
               else (session_remove sha256 ok token (a_sessions st)).2
           end
  end.

Definition validate_session (st : AuthState) (now : Z) (hs : headers) : bool :=
  bool_decide (session_scope st now hs = Some None).

Definition grant_reaches (st : AuthState) (host : str) (g : Grant) : bool :=
  match g_org g with
  | All => true
  | Master => org_may_act_on_hostname (a_fences st) (a_clients st) None host
  | Child id => org_may_act_on_hostname (a_fences st) (a_clients st) (Some id) host
  end.

Definition caller_reaches (st : AuthState) (c : Caller) (host : option str) : bool :=
  match host with
  | None => is_some (caller_role_in c None)
  | Some h => existsb (grant_reaches st h) (caller_grants c)
  end.

Definition validate_session_for_visitor (st : AuthState) (now : Z) (hs : headers) (host : option str) : bool :=
  if negb (validate_session st now hs) then false
  else match resolve_caller st now hs with
       | None => true
       | Some caller => caller_reaches st caller host
       end.

Definition admin_session_reaches (st : AuthState) (now : Z) (hs : headers) (host : option str) : bool :=
  if negb (validate_session st now hs) then false
  else match resolve_caller st now hs with
       | Some caller => caller_reaches st caller host
       | None => false
       end.

Definition validate_session_for_host (st : AuthState) (now : Z) (hs : headers) (host : option str) : bool :=
  match session_scope st now hs with
  | Some None => validate_session_for_visitor st now hs host
  | Some (Some scope) => bool_decide (host = Some scope)
  | None => false
  end.

Definition dashboard_role (st : AuthState) (now : Z) (hs : headers) : option Role :=
  match resolve_caller st now hs with
  | Some caller => caller_role_in caller (effective_org caller)
  | None => None
  end.

Inductive AdminRefusal : Type := AuthenticationRequired | ServerAdminOnly.

Definition require_server_admin (st : AuthState) (now : Z) (hs : headers) : result unit AdminRefusal :=
  match dashboard_role st now hs with
  | None => Err AuthenticationRequired
  | Some _ => match resolve_caller st now hs with
              | Some c => if caller_is_server_admin c then Ok tt else Err ServerAdminOnly
              | None => Err ServerAdminOnly
              end
  end.

Definition dashboard_username (st : AuthState) (now : Z) (hs : headers) : option str :=
  match session_cookie hs (a_secure_cookies st) with
  | None => None
  | Some token =>
      match session_get sha256 (a_sessions st) token with
      | None => None
      | Some info =>
          if (si_expires_at info <=? now) || is_some (si_scope_host info)
             || bool_decide (si_plane info ≠ PAdmin) then None
          else match si_username info with
               | None => None
               | Some name => if named_user_active st (Some name) then Some name else None
               end
      end
  end.

Definition session_username_any_scope (st : AuthState) (now : Z) (hs : headers) : option str :=
  match session_cookie hs (a_secure_cookies st) with
  | None => None
  | Some token =>
      match session_get sha256 (a_sessions st) token with
      | None => None
      | Some info => if si_expires_at info <=? now then None else si_username info
      end
  end.

Definition sso_identity (st : AuthState) (now : Z) (hs : headers) (host : option str) : option (str * str) :=
  match host with
  | None => None
  | Some h =>
      match session_cookie hs (a_secure_cookies st) with
      | None => None
      | Some token =>
          if negb (uuid_ok token) then None
          else match session_get sha256 (a_sessions st) token with
               | None => None
               | Some info =>
                   if (now <? si_expires_at info) && usable_on info (a_fenced_login st) (Some h)
                      && bool_decide (si_plane info = PVisitor) && bool_decide (si_scope_host info = Some h)
                   then match si_sso_issuer info, si_username info with
                        | Some issuer, Some name => Some (issuer, name)
                        | _, _ => None
                        end
                   else None
               end
      end
  end.

Definition session_age (st : AuthState) (now : Z) (hs : headers) : option Z :=
  match session_cookie hs (a_secure_cookies st) with
  | None => None
  | Some token => (fun i => sat_sub now (si_created_at i)) <$> session_get sha256 (a_sessions st) token
  end.

End Resolve.

(** ** What a session is worth *)

Section Worth.
Context (sha256 : str → str).

#[local] Abbreviation resolve := (resolve_caller sha256).

(** The session a request presents. *)
Definition presented (st : AuthState) (hs : headers) (token : str) (info : SessionInfo) : Prop :=
  session_cookie hs (a_secure_cookies st) = Some token ∧ session_get sha256 (a_sessions st) token = Some info.

Lemma admin_session_Some st now hs info :
  admin_session sha256 st now hs = Some info →
  ∃ token, presented st hs token info ∧ now < si_expires_at info ∧ si_scope_host info = None
    ∧ si_plane info = PAdmin ∧ usable_on info (a_fenced_login st) (request_host hs) = true.
Proof.
  unfold admin_session, presented. destruct (session_cookie _ _) as [token|]; [|done].
  destruct (session_get _ _ _) as [i|] eqn:E; [|done]. destruct (_ && _) eqn:Eb; [|done]. intros [= ->].
  rewrite !andb_true_iff in Eb. destruct Eb as [[[H1 H2] H3] H4]. to_prop. exists token.
  split_and!; try done. by destruct (si_scope_host info).
Qed.

(** What the record of a session's user, or its absence, makes of the session. *)
Lemma session_holder_Some us info who :
  session_holder us info = Some who →
  match who with
  | BuiltIn role => si_username info = None ∧ si_bound_org info = None ∧ role = si_role info
  | Named name gs => ∃ n u, si_username info = Some n ∧ find_by_username us n = Some u ∧ name = u_username u
      ∧ match si_bound_org info with
        | None => gs = u_grants u
        | Some org => Forall (fun g => g_org g = Child org ∧ Some (g_role g) = user_role_in u (Some org)) gs
        end
  | Oidc email bound role => bound = si_bound_org info ∧ role = si_role info
      ∧ (∀ n, si_username info = Some n → find_by_username us n = None ∧ is_disabled_username us n = false)
  | Key _ _ _ => False
  end.
Proof.
  unfold session_holder. destruct (si_bound_org info) as [org|] eqn:Eb.
  - destruct (si_username info) as [n|] eqn:En; simpl.
    + destruct (find_by_username us n) as [u|] eqn:Ef.
      * intros [= <-]. exists n, u. split_and!; try done.
        destruct (user_role_in u (Some org)) as [r|]; repeat constructor.
      * destruct (is_disabled_username us n) eqn:Ed; [done|]. intros [= <-]. split_and!; try done.
        intros m [= <-]. done.
    + intros [= <-]. by split_and!.
  - destruct (si_username info) as [n|] eqn:En; [|by intros [= <-]].
    destruct (find_by_username us n) as [u|] eqn:Ef; [intros [= <-]; by exists n, u|].
    destruct (is_disabled_username us n) eqn:Ed; [done|]. intros [= <-]. split_and!; try done.
    intros m [= <-]. done.
Qed.

Lemma key_caller_Some st now hs c :
  key_caller sha256 st now hs = Some c →
  ∃ k secret, k ∈ a_keys st ∧ extract_token hs = Some secret ∧ key_is_expired now k = false
    ∧ sha256 (k_key_hash k) = sha256 (token_key sha256 secret)
    ∧ c = {| c_identity := Key (k_name k) (k_role k) (key_scope k); c_selected := None |}.
Proof.
  unfold key_caller, verify_key. destruct (extract_token hs) as [secret|]; [|done].
  destruct (find _ _) as [k|] eqn:E; [|done]. intros [= <-]. apply find_some in E as [Hin Hk].
  apply andb_prop in Hk as [H1 H2]. unfold constant_time_eq_str in H2. apply str_eqb_eq in H2.
  exists k, secret. split_and!; [by apply list_elem_of_In|done|by apply negb_true_iff|done|done].
Qed.

(** C28: What it takes to administer. A request resolves to a caller only through
    a live session of the administrative plane, for the whole server and usable
    on this hostname, or through an unexpired key whose hash is that of the
    secret presented; a session of a named user holds what the user's enabled
    record holds now, narrowed to the organization the session is bound to, and
    a session whose user is disabled resolves to nobody. *)
Theorem caller_needs_credential st now hs c :
  resolve st now hs = Some c →
  (∃ token info, presented st hs token info ∧ now < si_expires_at info ∧ si_scope_host info = None
     ∧ si_plane info = PAdmin ∧ usable_on info (a_fenced_login st) (request_host hs) = true
     ∧ session_holder (a_users st) info = Some (c_identity c)
     ∧ (∀ n, si_username info = Some n → find_by_username (a_users st) n = None →
          is_disabled_username (a_users st) n = false)
     ∧ (∀ name gs, c_identity c = Named name gs →
          ∃ n u, si_username info = Some n ∧ find_by_username (a_users st) n = Some u
            ∧ ∀ g, g ∈ gs → match si_bound_org info with
                            | None => g ∈ u_grants u
                            | Some org => g_org g = Child org ∧ user_role_in u (Some org) = Some (g_role g)
                            end))
  ∨ (∃ k secret, k ∈ a_keys st ∧ extract_token hs = Some secret ∧ key_is_expired now k = false
       ∧ sha256 (k_key_hash k) = sha256 (token_key sha256 secret)
       ∧ c_identity c = Key (k_name k) (k_role k) (key_scope k)).
Proof.
  unfold resolve_caller. intros H.
  assert (Hkey : key_caller sha256 st now hs = Some c →
    ∃ k secret, k ∈ a_keys st ∧ extract_token hs = Some secret ∧ key_is_expired now k = false
       ∧ sha256 (k_key_hash k) = sha256 (token_key sha256 secret)
       ∧ c_identity c = Key (k_name k) (k_role k) (key_scope k)).
  { intros Hk. apply key_caller_Some in Hk as (k & secret & ? & ? & ? & ? & ->). by exists k, secret. }
  destruct (admin_session sha256 st now hs) as [info|] eqn:Ea; [|right; by apply Hkey].
  destruct (session_holder (a_users st) info) as [who|] eqn:Eh; [|right; by apply Hkey].
  injection H as <-. left. apply admin_session_Some in Ea as (token & Hp & Hexp & Hsc & Hpl & Hus).
  exists token, info. pose proof (session_holder_Some _ _ _ Eh) as Hw. split_and!; try done.
  - intros n Hn Hf. destruct who as [r|name gs|e b r|]; simpl in Hw; [|naive_solver|naive_solver|done].
    destruct Hw as (Hnone & _). congruence.
  - intros name gs [= ->]. destruct Hw as (n & u & Hn & Hu & _ & Hg). exists n, u. split_and!; try done.
    intros g Hin. destruct (si_bound_org info); [|by rewrite <- Hg].
    rewrite Forall_forall in Hg. destruct (Hg g Hin) as [? ?]. by split.
Qed.

Context (uuid_ok : str → bool).
#[local] Abbreviation scope_of := (session_scope sha256 uuid_ok).

(** A session an [sso] gate minted opens nothing else: it validates for no
    host and no visitor, it is nobody's administrative session, and while the
    store holds no key for the request the request resolves to nobody. *)
Theorem sso_session_confined st now hs host token info :
  presented st hs token info → is_Some (si_sso_issuer info) → si_plane info = PVisitor →
  now < si_expires_at info →
  scope_of st now hs = None
  ∧ validate_session sha256 uuid_ok st now hs = false
  ∧ validate_session_for_visitor sha256 uuid_ok st now hs host = false
  ∧ validate_session_for_host sha256 uuid_ok st now hs host = false
  ∧ admin_session_reaches sha256 uuid_ok st now hs host = false
  ∧ resolve st now hs = key_caller sha256 st now hs.
Proof.
  intros [Hc Hg] [iss Hi] Hp Hexp.
  assert (Hs : scope_of st now hs = None).
  { unfold session_scope. rewrite Hc. destruct (negb (uuid_ok token)); [done|]. rewrite Hg, Hi. simpl.
    destruct (negb _); [done|]. assert ((now <? si_expires_at info) = true) as -> by lia. done. }
  assert (Hv : validate_session sha256 uuid_ok st now hs = false).
  { unfold validate_session. by rewrite Hs, bool_decide_eq_false_2. }
  unfold validate_session_for_visitor, validate_session_for_host, admin_session_reaches.
  rewrite Hs, Hv. simpl. split_and!; try done.
  unfold resolve_caller, admin_session. rewrite Hc, Hg, Hp. simpl.
  by rewrite andb_false_r.
Qed.

(** A session reaches only its own. When a session that resolves to a caller
    is accepted for a hostname, by any of the checks a gate makes, the caller
    holds a grant that reaches the hostname: every organization, or one that may
    act on the name, so that no client of another organization serves it. *)
Theorem session_reach_fenced st now hs h c :
  resolve st now hs = Some c →
  (validate_session_for_visitor sha256 uuid_ok st now hs (Some h) = true
   ∨ admin_session_reaches sha256 uuid_ok st now hs (Some h) = true
   ∨ (validate_session_for_host sha256 uuid_ok st now hs (Some h) = true ∧ scope_of st now hs = Some None)) →
  ∃ g, g ∈ caller_grants c
    ∧ (g_org g = All
       ∨ ∃ org, g_org g = from_org_id org
           ∧ org_may_act_on_hostname (a_fences st) (a_clients st) org h = true
           ∧ ∀ cl n, cl ∈ a_clients st → sc_org cl ≠ org → n ∈ sc_hostnames cl → pattern_covers_pattern h n = false).
Proof.
  intros Hr Hany.
  assert (Hre : caller_reaches st c (Some h) = true).
  { assert (Hvis : validate_session_for_visitor sha256 uuid_ok st now hs (Some h) = true →
                   caller_reaches st c (Some h) = true).
    { unfold validate_session_for_visitor. destruct (negb _); [done|]. by rewrite Hr. }
    destruct Hany as [H|[H|[H Hs]]]; [by apply Hvis| |].
    - unfold admin_session_reaches in H. destruct (negb _); [done|]. by rewrite Hr in H.
    - unfold validate_session_for_host in H. rewrite Hs in H. by apply Hvis. }
  simpl in Hre. apply existsb_Exists in Hre as (g & Hg & Hgr). exists g. split; [done|].
  unfold grant_reaches in Hgr. destruct (g_org g) as [| |id] eqn:Eg; [|by left|]; right; [exists None|exists (Some id)];
    (split_and!; [done|done|]); intros cl n Hcl Hne Hn; apply not_true_is_false; intros Hcov;
    unfold org_may_act_on_hostname in Hgr; (destruct (negb (org_may_claim_hostname _ _ _ _)); [done|]);
    apply negb_true_iff in Hgr; rewrite existsb_false, Forall_forall in Hgr; specialize (Hgr cl Hcl);
    (rewrite bool_decide_eq_true_2 in Hgr by done); cbn [andb] in Hgr; rewrite existsb_false, Forall_forall in Hgr;
    by rewrite (Hgr n Hn) in Hcov.
Qed.

(** The sweep removes nothing but an expired session. *)
Lemma sweep_get ok st now hs key :
  NoDup (keys (sessions (a_sessions st))) →
  let s' := session_scope_sweep sha256 uuid_ok ok st now hs in
  aget key (sessions s') = aget key (sessions (a_sessions st))
  ∨ (aget key (sessions s') = None
     ∧ ∃ info, aget key (sessions (a_sessions st)) = Some info ∧ (now <? si_expires_at info) = false).
Proof.
  intros Hn. unfold session_scope_sweep. destruct (session_cookie _ _) as [token|]; [|by left].
  destruct (negb (uuid_ok token)); [by left|]. unfold session_get.
  destruct (aget (token_key sha256 token) _) as [info|] eqn:E; [|by left].
  destruct (negb _); [by left|]. destruct (now <? si_expires_at info) eqn:Ex; [by left|].
  unfold session_remove, remove_by_key. rewrite E.
  destruct (decide (token_key sha256 token = key)) as [<-|Hne].
  - destruct ok; simpl; [right|left; by rewrite aget_aset_eq, E].
    split; [by apply aget_aremove_eq|]. by exists info.
  - left. destruct ok; simpl; by rewrite ?aget_aset_ne, aget_aremove_ne.
Qed.

Definition with_sessions (st : AuthState) (s : SessionStore) : AuthState :=
  {| a_sessions := s; a_users := a_users st; a_keys := a_keys st; a_secure_cookies := a_secure_cookies st;
     a_fenced_login := a_fenced_login st; a_fences := a_fences st; a_clients := a_clients st |}.

(** The checks of a request answer the same before and after the sweep that one
    of them makes, so their order is of no account. *)
Lemma sweep_invisible ok st now hs hs' host :
  NoDup (keys (sessions (a_sessions st))) →
  let st' := with_sessions st (session_scope_sweep sha256 uuid_ok ok st now hs) in
  scope_of st' now hs' = scope_of st now hs'
  ∧ resolve st' now hs' = resolve st now hs'
  ∧ sso_identity sha256 uuid_ok st' now hs' host = sso_identity sha256 uuid_ok st now hs' host
  ∧ dashboard_username sha256 st' now hs' = dashboard_username sha256 st now hs'.
Proof.
  intros Hn st'. pose proof (fun key => sweep_get ok st now hs key Hn) as Hg. simpl in Hg.
  assert (Hs : scope_of st' now hs' = scope_of st now hs').
  { unfold session_scope, session_get, named_user_active. simpl. destruct (session_cookie _ _) as [t|]; [|done].
    destruct (negb _); [done|]. destruct (Hg (token_key sha256 t)) as [->|(-> & i & -> & ->)]; [done|].
    rewrite andb_false_r. by destruct (negb _). }
  assert (Ha : admin_session sha256 st' now hs' = admin_session sha256 st now hs').
  { unfold admin_session, session_get. simpl. destruct (session_cookie _ _) as [t|]; [|done].
    by destruct (Hg (token_key sha256 t)) as [->|(-> & i & -> & ->)]. }
  split_and!; [done| | |].
  - unfold resolve_caller. by rewrite Ha.
  - unfold sso_identity, session_get. simpl. destruct host as [h|]; [|done].
    destruct (session_cookie _ _) as [t|]; [|done]. destruct (negb _); [done|].
    by destruct (Hg (token_key sha256 t)) as [->|(-> & i & -> & ->)].
  - unfold dashboard_username, session_get, named_user_active. simpl. destruct (session_cookie _ _) as [t|]; [|done].
    destruct (Hg (token_key sha256 t)) as [->|(-> & i & -> & Hx)]; [done|].
    by assert ((si_expires_at i <=? now) = true) as -> by lia.
Qed.

End Worth.

(** ** Worked inputs *)

Definition id_hash : str → str := fun s => s.
Definition any_uuid : str → bool := fun _ => true.

Definition alice_session : SessionInfo :=
  {| si_expires_at := 100; si_created_at := 0; si_ip := None; si_user_agent := None; si_plane := PAdmin;
     si_scope_host := None; si_username := Some (bs "bob"); si_role := Admin; si_selected_org := None;
     si_bound_org := None; si_login_host := None; si_sso_issuer := None |}.

Definition sso_session : SessionInfo :=
  {| si_expires_at := 100; si_created_at := 0; si_ip := None; si_user_agent := None; si_plane := PVisitor;
     si_scope_host := Some (bs "app.example.com"); si_username := Some (bs "eve@example.com"); si_role := Viewer;
     si_selected_org := None; si_bound_org := None; si_login_host := None;
     si_sso_issuer := Some (bs "https://idp.example.com") |}.

Definition two_sessions : list (str * SessionInfo) :=
  [(token_key id_hash (bs "t1"), alice_session); (token_key id_hash (bs "t2"), sso_session)].

Definition sample_state : AuthState :=
  {| a_sessions := {| sessions := two_sessions; rows := two_sessions |}; a_users := bob_store; a_keys := [];
     a_secure_cookies := false; a_fenced_login := false; a_fences := []; a_clients := [] |}.

Definition with_cookie (token : str) : headers := [(bs "cookie", bs "aperio_session=" ++ token)].

Lemma session_removal_durable_witness :
  aget (token_key id_hash (bs "t1"))
    (sessions (fold_left (fun s o => exec_session id_hash o s) [SReload false 5; SRetain true (fun _ => true)]
                 (remove_by_key true (token_key id_hash (bs "t1")) (a_sessions sample_state)).2)) = None.
Proof.
  refine (session_removal_durable id_hash true (token_key id_hash (bs "t1")) (a_sessions sample_state)
            [SReload false 5; SRetain true (fun _ => true)] _ _ _).
  - by apply (bool_decide_unpack _); vm_compute.
  - by apply (bool_decide_unpack _); vm_compute.
  - by repeat constructor.
Defined.

Lemma caller_needs_credential_witness :
  ∃ c, resolve_caller id_hash sample_state 5 (with_cookie (bs "t1")) = Some c
    ∧ ∃ token info, presented id_hash sample_state (with_cookie (bs "t1")) token info ∧ 5 < si_expires_at info.
Proof.
  eexists. split; [vm_compute; reflexivity|].
  destruct (caller_needs_credential id_hash sample_state 5 (with_cookie (bs "t1"))
              {| c_identity := Named (bs "bob") [new_grant (Child (bs "acme")) Admin]; c_selected := None |} eq_refl)
    as [(token & info & Hp & Hx & _)|(k & secret & Hin & _)]; [by exists token, info|].
  exfalso. by apply not_elem_of_nil in Hin.
Defined.

Lemma sso_session_confined_witness :
  session_scope id_hash any_uuid sample_state 5 (with_cookie (bs "t2")) = None.
Proof.
  apply (sso_session_confined id_hash any_uuid sample_state 5 (with_cookie (bs "t2")) None (bs "t2") sso_session).
  - split; reflexivity.
  - by eexists.
  - reflexivity.
  - reflexivity.
Defined.

Lemma session_reach_fenced_witness :
  ∃ g, g ∈ [new_grant (Child (bs "acme")) Admin]
    ∧ (g_org g = All ∨ ∃ org, g_org g = from_org_id org
         ∧ org_may_act_on_hostname [(bs "acme", [bs "a.com"])] [] org (bs "a.com") = true).
Proof.
  pose (st := {| a_sessions := a_sessions sample_state; a_users := bob_store; a_keys := [];
     a_secure_cookies := false; a_fenced_login := false; a_fences := [(bs "acme", [bs "a.com"])]; a_clients := [] |}).
  destruct (session_reach_fenced id_hash any_uuid st 5 (with_cookie (bs "t1")) (bs "a.com")
              {| c_identity := Named (bs "bob") [new_grant (Child (bs "acme")) Admin]; c_selected := None |} eq_refl)
    as (g & Hin & Hg).
  - left. vm_compute. reflexivity.
  - exists g. split; [done|]. destruct Hg as [Hg|(org & Ho & Ha & _)]; [by left|right]. by exists org.
Defined.
