(* ===== verification/UsersApi.v ===== *)
(** The dashboard's user management: the layers every dashboard request passes
    ([server/router.rs], [server/shutdown.rs]) and the handlers that create,
    change and delete accounts and end sessions ([api/users.rs], and the sign-out
    of [auth/session.rs]).

    A refusal is its HTTP status. Writes of the two stores are told whether they
    succeed; audit lines and events are not part of the state. *)

From S2P Require Import Prelude Binds IpNet ClientIp Orgs VisitorAuth Grants Users Sessions.

(** What the handlers read and change; an organization is its id with its cap on
    users. *)
Record PanelState : Type := {
  p_auth : AuthState;
  p_orgs : list (str * option Z);
}.

Definition with_users (st : PanelState) (us : UserStore) : PanelState :=
  let a := p_auth st in
  {| p_auth := {| a_sessions := a_sessions a; a_users := us; a_keys := a_keys a;
                  a_secure_cookies := a_secure_cookies a; a_fenced_login := a_fenced_login a;
                  a_fences := a_fences a; a_clients := a_clients a |};
     p_orgs := p_orgs st |}.

Definition with_session_store (st : PanelState) (s : SessionStore) : PanelState :=
  {| p_auth := with_sessions (p_auth st) s; p_orgs := p_orgs st |}.

Definition user_rows (st : PanelState) : list User := users (a_users (p_auth st)).
Definition session_rows (st : PanelState) : list (str * SessionInfo) := sessions (a_sessions (p_auth st)).

(** ** The layers *)

Inductive HttpMethod : Type := GET | HEAD | OtherMethod (name : str).

Definition required_role (path : str) (method : HttpMethod) : Role :=
  if starts_with (bs "/api/me/") path || str_eqb path (bs "/api/orgs/select")
     || str_eqb path (bs "/api/exposes") || starts_with (bs "/api/exposes/") path then Viewer
  else if starts_with (bs "/api/users") path || str_eqb path (bs "/api/settings")
     || str_eqb path (bs "/api/export") || str_eqb path (bs "/api/import")
     || str_eqb path (bs "/api/sessions") || starts_with (bs "/api/sessions/") path
     || str_eqb path (bs "/api/orgs") || starts_with (bs "/api/orgs/") path
     || str_eqb path (bs "/api/admin-keys") || starts_with (bs "/api/admin-keys/") path then Admin
  else match method with GET | HEAD => Viewer | OtherMethod _ => Operator end.

Inductive LayerVerdict : Type := Next | RoleTooLow (required held : Role) | ToLogin | SourceRefused.

Section Panel.
Context (sha256 : str → str).

Definition session_layer (st : PanelState) (now : Z) (hs : headers) (path : str) (method : HttpMethod) : LayerVerdict :=
  match dashboard_role sha256 (p_auth st) now hs with
  | Some role =>
      let required := required_role path method in
      if role_rank required <=? role_rank role then Next else RoleTooLow required role
  | None => ToLogin
  end.

(** The fence on source addresses, outside the session layer. *)
Definition source_layer (allowed : list (ipaddr * Z)) (peer : option ipaddr) (hs : headers) (trust_proxy : bool)
    (real_ip_header : option str) (trusted : list (ipaddr * Z)) : LayerVerdict :=
  match allowed with
  | [] => Next
  | _ =>
      if match peer with
         | Some ip => ip_in_ranges (extract_client_ip hs ip trust_proxy real_ip_header trusted) allowed
         | None => false
         end
      then Next else SourceRefused
  end.

(** ** Grants in a request *)

Record GrantRequest : Type := { gr_org : str; gr_role : str }.

Definition status_of (e : UserError) : Z :=
  match e with NotSaved => 500 | NoSuchUser => 404 | Invalid => 400 end.

Definition parse_grant_request (st : PanelState) (effective : option str) (entry : GrantRequest) : result Grant Z :=
  match role_parse (gr_role entry) with
  | None => Err 400
  | Some role =>
      let org := org_parse (gr_org entry) in
      if match org with Child id => negb (existsb (fun o => str_eqb o.1 id) (p_orgs st)) | _ => false end then Err 400
      else if match effective with Some here => bool_decide (org ≠ Child here) | None => false end then Err 400
      else Ok (new_grant org role)
  end.

Definition parse_grants (st : PanelState) (effective : option str) (raw : list GrantRequest) :
    result (list Grant) Z :=
  match try_all (parse_grant_request st effective) raw with
  | Ok out => match normalize out with Ok g => Ok g | Err _ => Err 400 end
  | Err e => Err e
  end.

Definition check_granter (c : Caller) (changed : list Grant) : result unit Z :=
  if forallb (caller_may_grant c) changed then Ok tt else Err 403.

Definition manageable_user (st : PanelState) (now : Z) (hs : headers) (id : str) : result unit Z :=
  match resolve_caller sha256 (p_auth st) now hs with
  | None => Err 404
  | Some caller =>
      let org := effective_org caller in
      match find (fun u => str_eqb (u_id u) id && bool_decide (u_org_id u = org)) (user_rows st) with
      | None => Err 404
      | Some user =>
          match find (fun g => negb (caller_may_grant caller g)) (u_grants user) with
          | None => Ok tt
          | Some _ => Err 403
          end
      end
  end.

(** ** Users *)

Context (hash_password : str → result str UserError).

Definition users_list_handler (st : PanelState) (now : Z) (hs : headers) : list User :=
  let org := match resolve_caller sha256 (p_auth st) now hs with Some c => effective_org c | None => None end in
  filter (fun u => u_org_id u = org) (user_rows st).

Record UserCreateRequest : Type := {
  ucr_username : str;
  ucr_password : option str;
  ucr_role : option str;
  ucr_grants : option (list GrantRequest);
}.

Definition created_grants (st : PanelState) (org : option str) (p : UserCreateRequest) : result (list Grant) Z :=
  match ucr_grants p with
  | Some raw => parse_grants st org raw
  | None => match ucr_role p ≫= role_parse with
            | None => Err 400
            | Some role => Ok [new_grant (from_org_id org) role]
            end
  end.

Definition user_quota (st : PanelState) (org : option str) : option Z :=
  match org with
  | None => None
  | Some id => match find (fun o => str_eqb o.1 id) (p_orgs st) with Some o => o.2 | None => None end
  end.

Definition over_quota (st : PanelState) (org : option str) : bool :=
  match user_quota st org with
  | Some max => max <=? Z.of_nat (length (filter (fun u => u_org_id u = org) (user_rows st)))
  | None => false
  end.

Definition users_create_handler (ok : bool) (id : str) (st : PanelState) (now : Z) (hs : headers)
    (p : UserCreateRequest) : result User Z * PanelState :=
  match resolve_caller sha256 (p_auth st) now hs with
  | None => (Err 401, st)
  | Some caller =>
      let org := effective_org caller in
      match (let? grants := created_grants st org p in
             let? _ := check_granter caller grants in
             if over_quota st org then Err 403 else Ok grants)%rust with
      | Err e => (Err e, st)
      | Ok grants =>
          let '(r, us) := match ucr_password p with
                          | Some password =>
                              create_with_grants hash_password ok id now (ucr_username p) password org grants
                                (a_users (p_auth st))
                          | None => create_sso hash_password ok id now (ucr_username p) org grants (a_users (p_auth st))
                          end in
          (match r with Ok u => Ok u | Err e => Err (status_of e) end, with_users st us)
      end
  end.

Record UserUpdateRequest : Type := {
  uur_role : option str;
  uur_enabled : option bool;
  uur_password : option str;
  uur_grants : option (list GrantRequest);
}.

Definition parse_role (raw : option str) : result (option Role) Z :=
  match raw with
  | None => Ok None
  | Some r => match role_parse r with Some role => Ok (Some role) | None => Err 400 end
  end.

(** The grant list of the user after the call, none when it stays as it is. *)
Definition wanted_grants (st : PanelState) (effective : option str) (current : list Grant) (role : option Role)
    (p : UserUpdateRequest) : result (option (list Grant)) Z :=
  match uur_grants p, role with
  | Some raw, _ => (let? g := parse_grants st effective raw in Ok (Some g))%rust
  | None, Some r =>
      let here := from_org_id effective in
      let grant := match find (naming here) current with
                   | Some g => {| g_org := g_org g; g_role := r; g_source := g_source g; g_source_org := g_source_org g |}
                   | None => new_grant here r
                   end in
      Ok (Some (filter (fun g => g_org g ≠ here) current ++ [grant]))
  | None, None => Ok None
  end.

(** The checks, down to the grants to write and whether they differ. *)
Definition update_checks (st : PanelState) (now : Z) (hs : headers) (id : str) (p : UserUpdateRequest) :
    result (option (list Grant) * bool) Z :=
  match resolve_caller sha256 (p_auth st) now hs with
  | None => Err 401
  | Some caller =>
      (let? role := parse_role (uur_role p) in
       let? _ := manageable_user st now hs id in
       match get_user (a_users (p_auth st)) id with
       | None => Err 404
       | Some u =>
           let? wanted := wanted_grants st (effective_org caller) (u_grants u) role p in
           let d := match wanted with Some next => diff (u_grants u) next | None => ([], []) end in
           let? _ := check_granter caller d.1 in
           let? _ := check_granter caller d.2 in
           Ok (wanted, bool_decide (d.1 = []) && bool_decide (d.2 = []))
       end)%rust
  end.

(** Two writes, the account's and then the grants'. *)
Definition update_rows (ok ok' : bool) (id : str) (p : UserUpdateRequest) (wanted : option (list Grant)) (same : bool)
    (us : UserStore) : result User UserError * UserStore :=
  match update_user hash_password ok id None (uur_enabled p) (uur_password p) us with
  | (Err e, us') => (Err e, us')
  | (Ok u, us') =>
      match wanted with
      | Some next => if same then (Ok u, us') else set_grants ok' id next us'
      | None => (Ok u, us')
      end
  end.

Definition users_update_handler (ok ok' ok_s : bool) (st : PanelState) (now : Z) (hs : headers) (id : str)
    (p : UserUpdateRequest) : result User Z * PanelState :=
  match update_checks st now hs id p with
  | Err e => (Err e, st)
  | Ok (wanted, same) =>
      let '(r, us) := update_rows ok ok' id p wanted same (a_users (p_auth st)) in
      let st' := with_users st us in
      match r with
      | Err e => (Err (status_of e), st')
      | Ok user =>
          (Ok user,
           if bool_decide (uur_enabled p = Some false)
           then with_session_store st' (session_retain ok_s (fun info => bool_decide (si_username info ≠ Some (u_username user)))
                                          (a_sessions (p_auth st')))
           else st')
      end
  end.

Definition users_delete_handler (ok ok_s : bool) (st : PanelState) (now : Z) (hs : headers) (id : str) :
    result unit Z * PanelState :=
  match manageable_user st now hs id with
  | Err e => (Err e, st)
  | Ok _ =>
      let org := match resolve_caller sha256 (p_auth st) now hs with Some c => effective_org c | None => None end in
      match find (fun u => str_eqb (u_id u) id && bool_decide (u_org_id u = org)) (user_rows st) with
      | None => (Err 404, st)
      | Some u =>
          match delete_user ok id (a_users (p_auth st)) with
          | (Err e, us) => (Err (status_of e), with_users st us)
          | (Ok _, us) =>
              let st' := with_users st us in
              (Ok tt, with_session_store st'
                        (session_retain ok_s (fun info => bool_decide (si_username info ≠ Some (u_username u)))
                           (a_sessions (p_auth st'))))
          end
      end
  end.

Definition totp_admin_reset_handler (ok : bool) (st : PanelState) (now : Z) (hs : headers) (id : str) :
    result unit Z * PanelState :=
  match manageable_user st now hs id with
  | Err e => (Err e, st)
  | Ok _ =>
      let '(r, us) := totp_disable ok id (a_users (p_auth st)) in
      (match r with Ok _ => Ok tt | Err e => Err (status_of e) end, with_users st us)
  end.

(** ** Sessions *)

Definition username_org_map (st : PanelState) : list (str * option str) :=
  fold_left (fun m u => aset (u_username u) (u_org_id u) m) (user_rows st) [].

Definition session_org (info : SessionInfo) (user_orgs : list (str * option str)) : option str :=
  match si_username info with
  | Some name => default None (aget name user_orgs)
  | None => None
  end.

Definition caller_org (st : PanelState) (now : Z) (hs : headers) : option str :=
  match resolve_caller sha256 (p_auth st) now hs with Some c => effective_org c | None => None end.

Definition own_key (st : PanelState) (hs : headers) (key : str) : bool :=
  match session_cookie hs (a_secure_cookies (p_auth st)) with
  | Some token => token_matches_key sha256 token key
  | None => false
  end.

Definition session_revoke_handler (ok : bool) (st : PanelState) (now : Z) (hs : headers) (id : str) :
    result unit Z * PanelState :=
  let org := caller_org st now hs in
  let user_orgs := username_org_map st in
  if negb (existsb (fun kv => str_eqb kv.1 id && bool_decide (session_org kv.2 user_orgs = org)) (session_rows st))
  then (Err 404, st)
  else match remove_by_key ok id (a_sessions (p_auth st)) with
       | (None, s) => (Err 404, with_session_store st s)
       | (Some _, s) => (Ok tt, with_session_store st s)
       end.

Definition sessions_clear_handler (ok : bool) (st : PanelState) (now : Z) (hs : headers) : Z * PanelState :=
  let org := caller_org st now hs in
  let user_orgs := username_org_map st in
  let keep := (filter (fun kv => own_key st hs kv.1 = true ∨ session_org kv.2 user_orgs ≠ org) (session_rows st)).*1 in
  (Z.of_nat (length (session_rows st)) - Z.of_nat (length keep),
   with_session_store st (retain_keys ok keep (a_sessions (p_auth st)))).

Definition auth_logout_handler (ok : bool) (st : PanelState) (hs : headers) : PanelState :=
  match session_cookie hs (a_secure_cookies (p_auth st)) with
  | Some token => with_session_store st (session_remove sha256 ok token (a_sessions (p_auth st))).2
  | None => st
  end.

End Panel.

(** ** Who may change whom *)

(** Rows that are gone and rows that are new satisfy [P]. *)
Definition rows_changed (P : User → Prop) (l l' : list User) : Prop :=
  (∀ u, u ∈ l → u ∉ l' → P u) ∧ (∀ u, u ∈ l' → u ∉ l → P u).

#[export] Instance rows_changed_preorder P : PreOrder (rows_changed P).
Proof.
  split; [by split|]. intros a b c [H1 H2] [H3 H4]. split; intros u Hu Hn; destruct (decide (u ∈ b)); eauto.
Qed.

(** Every row with this id satisfies [P]. *)
Definition rows_with (id : str) (P : User → Prop) (l : list User) : Prop := Forall (fun u => u_id u = id → P u) l.

Lemma modify_rows {R} id (f : User → result (R * User) UserError) (P : User → Prop) l r l' :
  (∀ u r u', u_id u = id → P u → f u = Ok (r, u') → P u' ∧ u_id u' = id) →
  rows_with id P l → modify id f l = Ok (r, l') → rows_changed P l l' ∧ rows_with id P l'.
Proof.
  intros Hf Hw Hm. apply modify_spec in Hm as (i & u & u' & Hu & Hid & Hfu & -> & _).
  unfold rows_with in Hw. rewrite Forall_lookup in Hw. assert (HP : P u) by (by eapply Hw).
  destruct (Hf _ _ _ Hid HP Hfu) as [HP' Hid']. split; [split|].
  - intros v Hv Hn. apply list_elem_of_lookup in Hv as [j Hj]. destruct (decide (i = j)) as [<-|Hne].
    + rewrite Hu in Hj. by injection Hj as <-.
    + exfalso. apply Hn. apply list_elem_of_lookup. exists j. by rewrite list_lookup_insert_ne.
  - intros v Hv Hn. apply list_elem_of_lookup in Hv as [j Hj]. apply list_lookup_insert_Some in Hj as [(_ & <- & _)|[_ Hj]].
    + done.
    + exfalso. by apply Hn, (list_elem_of_lookup_2 _ j).
  - apply Forall_insert; [by apply Forall_lookup|done].
Qed.

Lemma commit_rows {R} ok id (change : list User → result (R * list User) UserError) (P : User → Prop) s :
  (∀ r l', change (users s) = Ok (r, l') → rows_changed P (users s) l' ∧ rows_with id P l') →
  rows_with id P (users s) →
  rows_changed P (users s) (users (commit ok change s).2) ∧ rows_with id P (users (commit ok change s).2).
Proof.
  intros Hc Hw. pose proof (commit_spec ok change s) as H. destruct (commit ok change s) as [r s']. simpl.
  destruct H as [[_ ->]|(out & us & E & _ & ->)]; [done|]. by apply Hc in E.
Qed.

Lemma normalize_elem l out g : normalize l = Ok out → g ∈ out → g ∈ l.
Proof.
  unfold normalize. case_bool_decide; [done|]. intros [= <-]. rewrite sort_grants_perm. clear H.
  induction l as [|h l IH] using rev_ind; [done|]. rewrite keep_last_snoc. intros [Hg|Hg]%elem_of_app.
  - apply list_elem_of_filter in Hg as [_ Hg]. apply elem_of_app. left. by apply IH.
  - apply elem_of_app. by right.
Qed.

Lemma normalized_elem e l out g : normalized e l = Ok out → g ∈ out → g ∈ l.
Proof.
  unfold normalized. destruct (e && _); [by intros [= <-] Hg%not_elem_of_nil|].
  destruct (normalize l) as [x|] eqn:E; [|done]. intros [= <-]. by apply normalize_elem.
Qed.

(** A call, with whether each of its writes succeeds. *)
Inductive UserCall : Type :=
| CallCreate (ok : bool) (id : str) (p : UserCreateRequest)
| CallUpdate (ok ok' ok_s : bool) (id : str) (p : UserUpdateRequest)
| CallDelete (ok ok_s : bool) (id : str)
| CallTotpReset (ok : bool) (id : str).

Section Bounded.
Context (sha256 : str → str) (hash_password : str → result str UserError).

Definition exec_call (st : PanelState) (now : Z) (hs : headers) (call : UserCall) : PanelState :=
  match call with
  | CallCreate ok id p => (users_create_handler sha256 hash_password ok id st now hs p).2
  | CallUpdate ok ok' ok_s id p => (users_update_handler sha256 hash_password ok ok' ok_s st now hs id p).2
  | CallDelete ok ok_s id => (users_delete_handler sha256 ok ok_s st now hs id).2
  | CallTotpReset ok id => (totp_admin_reset_handler sha256 ok st now hs id).2
  end.

(** An account in the caller's organization that holds only what the caller may give. *)
Definition manageable (c : Caller) (u : User) : Prop :=
  u_org_id u = effective_org c ∧ Forall (fun g => caller_may_grant c g = true) (u_grants u).

Lemma manageable_within st now hs id c :
  resolve_caller sha256 (p_auth st) now hs = Some c → NoDup (u_id <$> user_rows st) →
  manageable_user sha256 st now hs id = Ok tt → rows_with id (manageable c) (user_rows st).
Proof.
  unfold manageable_user. intros -> Hnd. destruct (find _ (user_rows st)) as [u|] eqn:E; [|done].
  destruct (find _ (u_grants u)) as [g|] eqn:Eg; [done|]. intros _.
  apply find_some in E as [Hin Hb]. apply andb_prop in Hb as [Hid Horg]. apply str_eqb_eq in Hid.
  apply bool_decide_eq_true in Horg. apply Forall_forall. intros v Hv Hvid.
  assert (v = u) as ->.
  { apply list_elem_of_In in Hin. apply list_elem_of_lookup in Hin as [i Hi], Hv as [j Hj].
    assert (j = i) as ->; [|congruence]. eapply NoDup_lookup; [exact Hnd|by rewrite list_lookup_fmap, Hj|].
    rewrite list_lookup_fmap, Hi. simpl. congruence. }
  split; [done|]. apply Forall_forall. intros g Hg. apply list_elem_of_In in Hg.
  pose proof (find_none _ _ Eg g Hg) as Hn. simpl in Hn. by apply negb_false_iff in Hn.
Qed.

Lemma check_granter_Ok c gs x : check_granter c gs = Ok x → Forall (fun g => caller_may_grant c g = true) gs.
Proof.
  unfold check_granter. destruct (forallb _ gs) eqn:E; [|done]. intros _. by apply forallb_Forall.
Qed.

Lemma set_grants_rows ok id gs c s :
  Forall (fun g => caller_may_grant c g = true) gs → rows_with id (manageable c) (users s) →
  rows_changed (manageable c) (users s) (users (set_grants ok id gs s).2).
Proof.
  intros Hg Hw. unfold set_grants. destruct (normalized false gs) as [out|] eqn:E; [|done].
  eapply commit_rows; [|exact Hw]. intros r l' Hm. eapply modify_rows; [|exact Hw|exact Hm].
  intros u r' u' Hid [Ho _] [= _ <-]. split; [split|]; [done| |done].
  simpl. rewrite Forall_forall in Hg |- *. intros g Hin. eapply Hg, normalized_elem; eauto.
Qed.

Lemma update_user_rows ok id enabled password c s :
  rows_with id (manageable c) (users s) →
  rows_changed (manageable c) (users s) (users (update_user hash_password ok id None enabled password s).2)
  ∧ rows_with id (manageable c) (users (update_user hash_password ok id None enabled password s).2).
Proof.
  intros Hw. apply commit_rows; [|done]. intros r l' Hm. eapply modify_rows; [|exact Hw|exact Hm].
  intros u r' u' Hid [Ho Hg]. simpl. destruct password as [p|]; simpl.
  - destruct (len p <? 8); [done|]. destruct (hash_password p); simpl; [|done]. by intros [= _ <-].
  - by intros [= _ <-].
Qed.

Lemma create_rows (P : User → Prop) ok id now name pw org gs s :
  (∀ u, u_org_id u = org → u_grants u = gs → P u) →
  rows_changed P (users s) (users (create_record hash_password ok id now name pw org gs s).2).
Proof.
  intros HP. unfold create_record.
  repeat (destruct (str_eqb _ _) || destruct (eq_ignore_case _ _) || destruct (existsb _ _); [done|]).
  destruct (match pw with Some _ => _ | None => _ end) as [h|]; [|done].
  match goal with |- context [commit ?a ?b ?c] => pose proof (commit_spec a b c) as H; destruct (commit a b c) as [r s'] end.
  simpl. destruct H as [[_ ->]|(out & us & [= _ <-] & _ & ->)]; [done|]. simpl. split; intros u Hu Hn.
  - exfalso. apply Hn, elem_of_app. by left.
  - apply elem_of_app in Hu as [Hu|Hu%list_elem_of_singleton]; [done|]. subst u. by apply HP.
Qed.

Lemma wanted_within c u wanted :
  Forall (fun g => caller_may_grant c g = true) (u_grants u) →
  Forall (fun g => caller_may_grant c g = true) (diff (u_grants u) wanted).1 →
  Forall (fun g => caller_may_grant c g = true) wanted.
Proof.
  rewrite !Forall_forall. intros Hc Ha g Hg. destruct (decide (g ∈ u_grants u)) as [Hi|Hi]; [by apply Hc|].
  apply Ha. simpl. by apply list_elem_of_filter.
Qed.

Lemma update_checks_Ok st now hs id p c wanted same :
  resolve_caller sha256 (p_auth st) now hs = Some c → NoDup (u_id <$> user_rows st) →
  update_checks sha256 st now hs id p = Ok (wanted, same) →
  rows_with id (manageable c) (user_rows st)
  ∧ ∀ next, wanted = Some next → Forall (fun g => caller_may_grant c g = true) next.
Proof.
  unfold update_checks. intros Hr Hnd. rewrite Hr.
  destruct (parse_role (uur_role p)) as [role|]; [|done]. cbn [result_bind].
  destruct (manageable_user sha256 st now hs id) as [[]|] eqn:Em; [|done]. cbn [result_bind].
  pose proof (manageable_within _ _ _ _ _ Hr Hnd Em) as Hw.
  destruct (get_user _ id) as [u|] eqn:Eu; [|done].
  destruct (wanted_grants _ _ _ _ _) as [w|]; [|done]. cbn [result_bind].
  destruct (check_granter c _) as [[]|] eqn:E1; [|done]. cbn [result_bind].
  destruct (check_granter c (_.2)) as [[]|]; [|done]. cbn [result_bind]. intros [= <- _].
  split; [done|]. intros next ->. apply check_granter_Ok in E1. eapply wanted_within; [|exact E1].
  apply find_some in Eu as [Hin Hid]. apply str_eqb_eq in Hid. apply list_elem_of_In in Hin.
  unfold rows_with in Hw. rewrite Forall_forall in Hw. by apply (Hw u).
Qed.

Section One_caller.
Context (st : PanelState) (now : Z) (hs : headers) (c : Caller).
Hypothesis (Hr : resolve_caller sha256 (p_auth st) now hs = Some c).
Hypothesis (Hnd : NoDup (u_id <$> user_rows st)).

Lemma create_bounded ok id p :
  rows_changed (manageable c) (user_rows st) (user_rows (users_create_handler sha256 hash_password ok id st now hs p).2).
Proof.
  unfold users_create_handler. rewrite Hr. destruct (created_grants _ _ _) as [gs|]; [|done]. cbn [result_bind].
  destruct (check_granter c gs) as [[]|] eqn:Ec; [|done]. cbn [result_bind]. apply check_granter_Ok in Ec.
  destruct (over_quota _ _); [done|].
  assert (Hn : ∀ e out u, normalized e gs = Ok out → u_org_id u = effective_org c → u_grants u = out → manageable c u).
  { intros e out u E Ho <-. split; [done|]. rewrite Forall_forall in Ec |- *. intros g Hg.
    eapply Ec, normalized_elem; eauto. }
  destruct (ucr_password p) as [pw|]; unfold create_with_grants, create_sso;
    (destruct (normalized _ gs) as [out|] eqn:E; [|done]);
    match goal with |- context [create_record ?h ?a ?b ?c ?d ?e ?f ?g ?s] =>
      pose proof (create_rows (manageable _) a b c d e f g s (fun u => Hn _ _ u E)) as H;
      destruct (create_record h a b c d e f g s) end; exact H.
Qed.

Lemma update_bounded ok ok' ok_s id p :
  rows_changed (manageable c) (user_rows st)
    (user_rows (users_update_handler sha256 hash_password ok ok' ok_s st now hs id p).2).
Proof.
  unfold users_update_handler. destruct (update_checks _ _ _ _ _ _) as [[wanted same]|] eqn:E; [|done].
  destruct (update_checks_Ok _ _ _ _ _ _ _ _ Hr Hnd E) as [Hw Hg]. unfold update_rows.
  pose proof (update_user_rows ok id (uur_enabled p) (uur_password p) c (a_users (p_auth st)) Hw) as [H1 H2].
  destruct (update_user _ _ _ _ _ _ _) as [[u|] us] eqn:Eu; [|done]. cbn [snd] in H1, H2.
  assert (H3 : ∀ next, wanted = Some next →
            rows_changed (manageable c) (user_rows st) (users (set_grants ok' id next us).2)).
  { intros next Hn. etransitivity; [exact H1|]. apply set_grants_rows; [by apply Hg|done]. }
  assert (Hif : ∀ (b : bool) st1 st2, user_rows st1 = user_rows st2 → user_rows (if b then st1 else st2) = user_rows st2)
    by (by intros []).
  destruct wanted as [next|]; [specialize (H3 next eq_refl)|]; [|cbn [snd]; by rewrite Hif].
  destruct same; [cbn [snd]; by rewrite Hif|].
  destruct (set_grants ok' id next us) as [[u'|] us']; [|done]. cbn [snd]. by rewrite Hif.
Qed.

Lemma delete_bounded ok ok_s id :
  rows_changed (manageable c) (user_rows st) (user_rows (users_delete_handler sha256 ok ok_s st now hs id).2).
Proof.
  unfold users_delete_handler. destruct (manageable_user _ _ _ _ _) as [[]|] eqn:Em; [|done].
  pose proof (manageable_within _ _ _ _ _ Hr Hnd Em) as Hw. destruct (find _ _) as [u|]; [|done].
  unfold delete_user. destruct (negb _); [done|].
  match goal with |- context [commit ?a ?b ?c] => pose proof (commit_spec a b c) as H; destruct (commit a b c) as [r s'] end.
  destruct H as [[Hf ->]|(out & us & [= _ <-] & -> & ->)]; [by destruct r|]. cbn [snd]. split; intros v Hv Hn.
  - unfold rows_with in Hw. rewrite Forall_forall in Hw. apply (Hw v Hv).
    destruct (decide (u_id v = id)) as [|Hne]; [done|]. exfalso. apply Hn. by apply list_elem_of_filter.
  - apply list_elem_of_filter in Hv as [_ Hv]. done.
Qed.

Lemma reset_bounded ok id :
  rows_changed (manageable c) (user_rows st) (user_rows (totp_admin_reset_handler sha256 ok st now hs id).2).
Proof.
  unfold totp_admin_reset_handler. destruct (manageable_user _ _ _ _ _) as [[]|] eqn:Em; [|done].
  pose proof (manageable_within _ _ _ _ _ Hr Hnd Em) as Hw.
  assert (H : rows_changed (manageable c) (user_rows st) (users (totp_disable ok id (a_users (p_auth st))).2)).
  { eapply commit_rows; [|exact Hw]. intros r l' Hm. eapply modify_rows; [|exact Hw|exact Hm].
    by intros u r' u' Hid [Ho Hg] [= _ <-]. }
  by destruct (totp_disable ok id _).
Qed.

End One_caller.

(** C11: Nobody manages above themselves. Whatever the call and whichever of its
    writes fail, an account that changed, disappeared or is new is one of the
    caller's own organization, holding, before and after, only grants the caller
    could give; without a caller no account changes. *)
Theorem user_management_bounded st now hs call :
  NoDup (u_id <$> user_rows st) →
  match resolve_caller sha256 (p_auth st) now hs with
  | None => user_rows (exec_call st now hs call) = user_rows st
  | Some c => rows_changed (manageable c) (user_rows st) (user_rows (exec_call st now hs call))
  end.
Proof.
  intros Hnd. destruct (resolve_caller sha256 (p_auth st) now hs) as [c|] eqn:Hr.
  - destruct call; cbn [exec_call]; auto using create_bounded, update_bounded, delete_bounded, reset_bounded.
  - destruct call as [ok id p|ok ok' ok_s id p|ok ok_s id|ok id]; cbn [exec_call];
      unfold users_create_handler, users_update_handler, users_delete_handler, totp_admin_reset_handler, update_checks,
        manageable_user; by rewrite Hr.
Qed.

(** *** A disabled account *)

Definition names_unique (l : list User) : Prop :=
  ∀ u v, u ∈ l → v ∈ l → eq_ignore_case (u_username u) (u_username v) = true → u_id u = u_id v.

Definition ident (u : User) : str * str := (u_id u, u_username u).

Lemma modify_ident {R} id (f : User → result (R * User) UserError) l r l' :
  (∀ u r u', f u = Ok (r, u') → ident u' = ident u) → modify id f l = Ok (r, l') → ident <$> l' = ident <$> l.
Proof.
  intros Hf Hm. apply modify_spec in Hm as (i & u & u' & Hu & _ & Hfu & -> & _).
  rewrite list_fmap_insert, (Hf _ _ _ Hfu). apply list_insert_id. by rewrite list_lookup_fmap, Hu.
Qed.

Lemma ident_NoDup l : NoDup (u_id <$> l) ↔ NoDup ((ident <$> l).*1).
Proof. by rewrite <- list_fmap_compose. Qed.

Lemma names_unique_ident l l' : ident <$> l = ident <$> l' → names_unique l → names_unique l'.
Proof.
  intros He Hn. assert (Hin : ∀ u, u ∈ l' → ∃ v, v ∈ l ∧ ident u = ident v).
  { intros u Hu. assert (ident u ∈ ident <$> l) as (v & Hv & ?)%list_elem_of_fmap by (rewrite He; by apply list_elem_of_fmap_2).
    by exists v. }
  intros u v (u' & Hu & Eu)%Hin (v' & Hv & Ev)%Hin. injection Eu as -> ->. injection Ev as -> ->. by apply Hn.
Qed.

Lemma modify_last {R} id (f : User → result (R * User) UserError) (Q : R → User → Prop) l r l' :
  NoDup (u_id <$> l) → (∀ u r u', f u = Ok (r, u') → Q r u') →
  modify id f l = Ok (r, l') → rows_with id (Q r) l'.
Proof.
  intros Hnd Hf Hm. apply modify_spec in Hm as (i & u & u' & Hu & Hid & Hfu & -> & _).
  apply Forall_lookup. intros j v Hj Hv. apply list_lookup_insert_Some in Hj as [(_ & <- & _)|[Hne Hj]]; [by eapply Hf|].
  exfalso. apply Hne. eapply NoDup_lookup; [exact Hnd|by rewrite list_lookup_fmap, Hu|].
  rewrite list_lookup_fmap, Hj. simpl. congruence.
Qed.

Lemma commit_modify_result ok id (f : User → result (User * User) UserError) s r s' :
  (∀ u r u', f u = Ok (r, u') → r = u' ∧ ident u' = ident u) →
  commit ok (modify id f) s = (Ok r, s') →
  r ∈ users s' ∧ ident <$> users s' = ident <$> users s ∧ modify id f (users s) = Ok (r, users s')
  ∧ ∃ u, u ∈ users s ∧ u_id u = id ∧ f u = Ok (r, r).
Proof.
  intros Hf Hc. pose proof (commit_spec ok (modify id f) s) as H. rewrite Hc in H.
  destruct H as [[? _]|(out & us & Hm & [= <-] & ->)]; [done|]. cbn [users].
  assert (Hi : ident <$> us = ident <$> users s) by (eapply modify_ident; [|exact Hm]; intros u r' u' Hu; by apply Hf in Hu as [_ ?]).
  pose proof Hm as (i & u & u' & Hu & Hid & Hfu & -> & _)%modify_spec.
  destruct (Hf _ _ _ Hfu) as [-> _]. split_and!; [|done|done|exists u; split_and!; [by eapply list_elem_of_lookup_2|done|done]].
  eapply list_elem_of_insert. by eapply lookup_lt_Some.
Qed.

Lemma update_disables ok ok' id p wanted same us user us' :
  NoDup (u_id <$> users us) → uur_enabled p = Some false →
  update_rows hash_password ok ok' id p wanted same us = (Ok user, us') →
  ident <$> users us' = ident <$> users us ∧ user ∈ users us' ∧ u_enabled user = false.
Proof.
  intros Hnd Hp. unfold update_rows. rewrite Hp.
  destruct (update_user _ _ _ _ _ _ _) as [[u|] us1] eqn:E1; [|done].
  assert (Hf : ∀ v r v', (let? u1 := Ok v in
     let u2 := with_login u1 (default (u_enabled u1) (Some false)) (u_password_hash u1) in
     let? u3 := match uur_password p with
                | Some p => if len p <? 8 then Err Invalid
                            else let? h := hash_password p in Ok (with_login u2 (u_enabled u2) h)
                | None => Ok u2
                end in
     Ok (u3, u3))%rust = Ok (r, v') → (r = v' ∧ ident v' = ident v) ∧ u_enabled v' = false).
  { intros v r v'. simpl. destruct (uur_password p) as [w|]; simpl; [destruct (len w <? 8); [done|]; destruct (hash_password w); [|done]; simpl|];
      by intros [= <- <-]. }
  unfold update_user in E1. destruct (commit_modify_result _ _ _ _ _ _ (fun v r v' H => proj1 (Hf v r v' H)) E1)
    as (Hin & Hid & Hm & w & _ & _ & Hfw).
  pose proof (modify_last id _ (fun _ v => u_enabled v = false) _ _ _ Hnd (fun v r v' H => proj2 (Hf v r v' H)) Hm) as Hd.
  apply Hf in Hfw as [_ Hen].
  destruct wanted as [next|]; [destruct same|]; [by intros [= <- <-]| |by intros [= <- <-]].
  unfold set_grants. destruct (normalized false next) as [g|]; [|done]. unfold set_grants_raw. intros E2.
  eapply commit_modify_result in E2; [|by intros v r v' [= <- <-]].
  destruct E2 as (Hin2 & Hid2 & _ & w2 & Hw2 & Hwid & [= Hw3]).
  split_and!; [congruence|done|]. rewrite <- Hw3. simpl. unfold rows_with in Hd. rewrite Forall_forall in Hd. by apply Hd.
Qed.

(** A disabled account is locked out at once. After the call that disables it
    succeeds, whether or not the sessions could be dropped from the disk, no
    session under the account's name, in any spelling the login accepts,
    resolves to anybody; such a request is worth only the key it presents. *)
Theorem disabled_account_locked_out ok ok' ok_s st now hs id p user st' now' hs' token info n :
  NoDup (u_id <$> user_rows st) → names_unique (user_rows st) → uur_enabled p = Some false →
  users_update_handler sha256 hash_password ok ok' ok_s st now hs id p = (Ok user, st') →
  presented sha256 (p_auth st') hs' token info → si_username info = Some n → username_is n user = true →
  resolve_caller sha256 (p_auth st') now' hs' = key_caller sha256 (p_auth st') now' hs'.
Proof.
  intros Hnd Hun Hp Hh [Hck Hget] Hn Hname. unfold users_update_handler in Hh.
  destruct (update_checks _ _ _ _ _ _) as [[wanted same]|]; [|done].
  destruct (update_rows _ _ _ _ _ _ _ _) as [[u|] us] eqn:E; [|done].
  injection Hh as -> Hst'.
  destruct (update_disables _ _ _ _ _ _ _ _ _ Hnd Hp E) as (Hi & Hin & Hen).
  assert (Hst : a_users (p_auth st') = us) by (rewrite <- Hst'; by destruct (bool_decide _)).
  assert (Hfind : find_by_username us n = None).
  { unfold find_by_username. destruct (find _ (users us)) as [v|] eqn:Ef; [|done]. exfalso.
    apply find_some in Ef as [Hv Hb]. apply list_elem_of_In in Hv. apply andb_prop in Hb as [Hev Hnv].
    assert (Hid : u_id v = u_id user).
    { apply (names_unique_ident _ _ (eq_sym Hi) Hun); [done|done|]. unfold username_is, eq_ignore_case in *.
      apply str_eqb_eq in Hname, Hnv. apply str_eqb_eq. congruence. }
    assert (v = user) as ->; [|congruence].
    assert (Hnd' : NoDup (u_id <$> users us)) by (rewrite ident_NoDup, Hi; by apply ident_NoDup).
    apply list_elem_of_lookup in Hv as [i Hvi], Hin as [j Huj].
    assert (i = j) as ->; [|congruence]. eapply NoDup_lookup; [exact Hnd'|by rewrite list_lookup_fmap, Hvi|].
    by rewrite list_lookup_fmap, Huj, Hid. }
  assert (Hdis : is_disabled_username us n = true).
  { unfold is_disabled_username. apply existsb_Exists. exists user. by rewrite Hen, Hname. }
  unfold resolve_caller. destruct (admin_session _ _ _ _) as [info'|] eqn:Ea; [|done].
  assert (info' = info) as ->.
  { unfold admin_session in Ea. rewrite Hck, Hget in Ea. destruct (_ && _); congruence. }
  unfold session_holder. rewrite Hst, Hn. simpl. rewrite Hfind, Hdis. by destruct (si_bound_org info).
Qed.

End Bounded.

(** Signing everyone out ends the sessions of the caller's organization, the
    caller's own apart, and no other. *)
Lemma sessions_clear_exact sha256 ok st now hs key :
  NoDup (keys (session_rows st)) →
  aget key (session_rows (sessions_clear_handler sha256 ok st now hs).2) =
    match aget key (session_rows st) with
    | Some info => if own_key sha256 st hs key
                      || bool_decide (session_org info (username_org_map st) ≠ caller_org sha256 st now hs)
                   then Some info else None
    | None => None
    end.
Proof.
  intros Hnd. unfold sessions_clear_handler. cbn [snd].
  set (P := fun kv : str * SessionInfo =>
    own_key sha256 st hs kv.1 = true ∨ session_org kv.2 (username_org_map st) ≠ caller_org sha256 st now hs).
  set (kept := filter (fun kv => existsb (fun k => str_eqb k kv.1) (filter P (session_rows st)).*1 = true) (session_rows st)).
  assert (Hrows : ∀ b, session_rows (with_session_store st (retain_keys b (filter P (session_rows st)).*1 (a_sessions (p_auth st)))) = kept).
  { intros b. unfold retain_keys, retain_entries, persist_all, session_rows. simpl. by destruct (bool_decide _), b. }
  rewrite Hrows. unfold kept. rewrite aget_filter by done.
  destruct (aget key (session_rows st)) as [info|] eqn:E; [|done].
  assert (Hex : existsb (fun k => str_eqb k key) (filter P (session_rows st)).*1 = true ↔ P (key, info)).
  { rewrite existsb_Exists. split.
    - intros (k & Hk & He). apply str_eqb_eq in He. subst k.
      apply list_elem_of_fmap in Hk as ([k i'] & Hk & Hf). simpl in Hk. subst k. apply list_elem_of_filter in Hf as [HP Hi'].
      apply aget_elem in Hi'; [|done]. congruence.
    - intros HP. exists key. split; [|by apply str_eqb_eq].
      change key with (key, info).1. by apply list_elem_of_fmap_2, list_elem_of_filter, conj, aget_Some_elem. }
  cbn [fst]. destruct (own_key sha256 st hs key || _) eqn:Eo; [rewrite decide_True|rewrite decide_False]; try done.
  - apply Hex. unfold P. simpl. apply orb_prop in Eo as [?|?%bool_decide_eq_true]; auto.
  - intros HP%Hex. apply orb_false_elim in Eo as [E1 E2%bool_decide_eq_false]. destruct HP as [HP|HP]; [simpl in HP; congruence|by apply E2].
Qed.

(** ** Worked inputs *)

Definition acme_admin : User :=
  {| u_id := bs "7"; u_username := bs "eve@acme.com"; u_password_hash := []; u_role := Admin;
     u_org_id := Some (bs "acme"); u_grants := [new_grant (Child (bs "acme")) Admin]; u_created_at := 0;
     u_enabled := true; u_totp_secret := None; u_totp_pending := None; u_recovery_hashes := [];
     u_totp_last_step := None; u_passkeys := [] |}.

Definition login_as (name : str) (role : Role) : SessionInfo :=
  {| si_expires_at := 100; si_created_at := 0; si_ip := None; si_user_agent := None; si_plane := PAdmin;
     si_scope_host := None; si_username := Some name; si_role := role; si_selected_org := None;
     si_bound_org := None; si_login_host := None; si_sso_issuer := None |}.

(** Another administrator of the organization, signed in as [t1], and the account
    above, signed in as [t2] under the spelling [name]. *)
Definition panel (name : str) : PanelState :=
  let boss := {| u_id := bs "1"; u_username := bs "boss"; u_password_hash := bs "h"; u_role := Admin;
                 u_org_id := Some (bs "acme"); u_grants := [new_grant (Child (bs "acme")) Admin]; u_created_at := 0;
                 u_enabled := true; u_totp_secret := None; u_totp_pending := None; u_recovery_hashes := [];
                 u_totp_last_step := None; u_passkeys := [] |} in
  let us := [boss; acme_admin] in
  let ss := [(token_key id_hash (bs "t1"), login_as (bs "boss") Admin);
             (token_key id_hash (bs "t2"), login_as name Admin)] in
  {| p_auth := {| a_sessions := {| sessions := ss; rows := ss |}; a_users := {| users := us; disk := us |};
                  a_keys := []; a_secure_cookies := false; a_fenced_login := false; a_fences := []; a_clients := [] |};
     p_orgs := [(bs "acme", None)] |}.

Definition disable : UserUpdateRequest :=
  {| uur_role := None; uur_enabled := Some false; uur_password := None; uur_grants := None |}.

Lemma user_management_bounded_witness :
  rows_changed (manageable {| c_identity := Named (bs "boss") [new_grant (Child (bs "acme")) Admin]; c_selected := None |})
    (user_rows (panel (bs "eve@acme.com")))
    (user_rows (exec_call id_hash no_hash (panel (bs "eve@acme.com")) 5 (with_cookie (bs "t1"))
                  (CallDelete true true (bs "7")))).
Proof.
  apply (user_management_bounded id_hash no_hash (panel (bs "eve@acme.com")) 5 (with_cookie (bs "t1"))
           (CallDelete true true (bs "7"))).
  by apply (bool_decide_unpack _); vm_compute.
Defined.

Lemma disabled_account_locked_out_witness :
  let st' := (users_update_handler id_hash no_hash true true false (panel (bs "EVE@acme.com")) 5 (with_cookie (bs "t1"))
                (bs "7") disable).2 in
  resolve_caller id_hash (p_auth st') 6 (with_cookie (bs "t2")) = None.
Proof.
  refine (disabled_account_locked_out id_hash no_hash true true false (panel (bs "EVE@acme.com")) 5 (with_cookie (bs "t1"))
           (bs "7") disable (with_login acme_admin false []) _ 6 (with_cookie (bs "t2")) (bs "t2")
           (login_as (bs "EVE@acme.com") Admin) (bs "EVE@acme.com") _ _ _ _ _ _ _).
  - by apply (bool_decide_unpack _); vm_compute.
  - intros u v Hu Hv. unfold user_rows in Hu, Hv. simpl in Hu, Hv. rewrite !elem_of_cons, elem_of_nil in Hu, Hv.
    by destruct Hu as [->|[->|[]]], Hv as [->|[->|[]]].
  - reflexivity.
  - vm_compute. reflexivity.
  - split; vm_compute; reflexivity.
  - reflexivity.
  - vm_compute. reflexivity.
Defined.

(** A deletion drops the sessions whose name is spelled as the record spells it,
    while records are found whatever the case. A session signed in under another
    spelling outlives its account, and without a record it is taken for a global
    identity: the administrator of one organization becomes the server's. *)
Example deleted_admin_promoted :
  let st := panel (bs "Eve@acme.com") in
  let call := users_delete_handler id_hash true true st 5 (with_cookie (bs "t1")) (bs "7") in
  (caller_is_server_admin <$> resolve_caller id_hash (p_auth st) 5 (with_cookie (bs "t2"))) = Some false
  ∧ call.1 = Ok tt
  ∧ (caller_is_server_admin <$> resolve_caller id_hash (p_auth call.2) 5 (with_cookie (bs "t2"))) = Some true.
Proof. vm_compute. auto. Qed.

(** A call that changes the password and the grants writes twice: when the second
    write fails the answer says the change was rolled back, and the new password
    stays. *)
Example update_half_applied :
  let p := {| uur_role := Some (bs "viewer"); uur_enabled := None; uur_password := Some (bs "new password");
              uur_grants := None |} in
  let call := users_update_handler id_hash no_hash true false true (panel (bs "eve@acme.com")) 5 (with_cookie (bs "t1"))
                (bs "7") p in
  call.1 = Err 500 ∧ (u_password_hash <$> get_user (a_users (p_auth call.2)) (bs "7")) = Some (bs "new password").
Proof. vm_compute. auto. Qed.
