(* ===== verification/Share.v ===== *)
(** Share links, [aperio-server/src/share.rs]: signed, expiring tokens that open
    a gated site without a login, and the redirect filter they pass through
    ([auth/oidc_flow.rs], [safe_redirect_path]).

    SHA-256, HMAC, base64url and the JSON of the claims are parameters; what the
    theorems use of them is stated as hypotheses where it is used. *)

From S2P Require Import Prelude Binds Orgs VisitorAuth Grants Users Sessions.

(** A request's address. The authority is the scheme and host as printed, empty in
    the form a browser sends. *)
Record Uri : Type := {
  u_authority : str;
  u_path : str;
  u_query : option str;
}.

Definition uri_string (u : Uri) : str :=
  u_authority u ++ u_path u ++ match u_query u with Some q => bs "?" ++ q | None => [] end.

(** Clean or not, an address with these parameters. *)
Definition with_params (path : str) (rest : list str) : str :=
  match rest with [] => path | _ => path ++ bs "?" ++ join (bs "&") rest end.

Definition safe_redirect_path (uri : str) : str :=
  if starts_with (bs "/") uri && negb (starts_with (bs "//") uri) && negb (starts_with (bs "/\") uri) then uri
  else bs "/".

Definition SHARE_COOKIE : str := bs "aperio_share".
Definition SHARE_DEFAULT_TTL_SECS : Z := 3 * 24 * 3600.
Definition SHARE_MAX_TTL_SECS : Z := 10 * 365 * 24 * 3600.
Definition QUERY_TOKEN_COOKIE_SECS : Z := 3600.

Record ShareClaims : Type := {
  sh_host : str;
  sh_path : option str;
  sh_exp : option Z;
  sh_id : str;
}.

(** A redirect that sets the share cookie. *)
Record ShareRedirect : Type := {
  sr_location : str;
  sr_token : str;
  sr_max_age : Z;
  sr_secure : bool;
}.

(** The [Set-Cookie] header of one. *)
Definition share_set_cookie (r : ShareRedirect) : str :=
  SHARE_COOKIE ++ bs "=" ++ sr_token r ++ bs "; Path=/; HttpOnly; SameSite=Lax; Max-Age=" ++ show_uint (sr_max_age r)
  ++ (if sr_secure r then bs "; Secure" else []).

Definition share_claims_cover (claims : ShareClaims) (host : option str) (uri_path : str) : bool :=
  if request_path_has_traversal uri_path then false
  else if negb (bool_decide (host = Some (sh_host claims))) then false
  else match sh_path claims with
       | None => true
       | Some p => path_matches_bind uri_path p
       end.

Definition cookie_value (hs : headers) (name : str) : option str :=
  match header_str (bs "cookie") hs with
  | Some cookies => read_cookie name (split_on ";"%char cookies)
  | None => None
  end.

Definition share_token_from_cookies (hs : headers) : option str := cookie_value hs SHARE_COOKIE.

(** The last [aperio_share=] of a query, and the other parameters. *)
Definition share_param (query : str) : option str * list str :=
  fold_left (fun acc pair =>
    match strip_prefix (bs "aperio_share=") pair with
    | Some v => (Some v, acc.2)
    | None => if str_eqb pair [] then acc else (acc.1, acc.2 ++ [pair])
    end) (split_on "&"%char query) (None, []).

Section Signed.
Context (sha256 : str → str) (hmac : str → str → str) (encode : str → str) (decode : str → option str).
Context (to_json : ShareClaims → str) (of_json : str → option ShareClaims).

Definition share_signing_key (server_token : str) : str := sha256 (bs "aperio-share-signing-key:" ++ server_token).

Definition sign_share_claims (claims : ShareClaims) (key : str) : str :=
  let payload := encode (to_json claims) in
  payload ++ bs "." ++ encode (hmac key payload).

Definition verify_share_token (now : Z) (token key : str) : option ShareClaims :=
  match split_once dot token with
  | None => None
  | Some (payload, sig) =>
      match decode sig with
      | None => None
      | Some sig_bytes =>
          if negb (str_eqb sig_bytes (hmac key payload)) then None
          else match decode payload ≫= of_json with
               | None => None
               | Some claims =>
                   match sh_exp claims with
                   | Some exp => if exp <=? now then None else Some claims
                   | None => Some claims
                   end
               end
      end
  end.

(** The claims of a token that opens a request. *)
Definition share_opens (now : Z) (key : str) (host : option str) (uri_path token : str) : option ShareClaims :=
  match verify_share_token now token key with
  | Some claims => if share_claims_cover claims host uri_path then Some claims else None
  | None => None
  end.

(** [Some None]: go on. [Some (Some r)]: answer with the redirect. *)
Definition check_share_access (secure : bool) (server_token : str) (now : Z) (hs : headers) (uri : Uri)
    (host : option str) : option (option ShareRedirect) :=
  let key := share_signing_key server_token in
  let first_click :=
    match u_query uri with
    | None => None
    | Some query =>
        match share_param query with
        | (Some raw, rest) =>
            match share_opens now key host (u_path uri) raw with
            | Some claims =>
                Some {| sr_location := safe_redirect_path (with_params (u_path uri) rest); sr_token := raw;
                        sr_max_age := match sh_exp claims with
                                      | Some exp => sat_sub exp now
                                      | None => SHARE_MAX_TTL_SECS
                                      end;
                        sr_secure := secure |}
            | None => None
            end
        | (None, _) => None
        end
    end in
  match first_click with
  | Some r => Some (Some r)
  | None =>
      match share_token_from_cookies hs with
      | Some token => match share_opens now key host (u_path uri) token with
                      | Some _ => Some None
                      | None => None
                      end
      | None => None
      end
  end.

Definition grant_cookie_and_redirect (secure : bool) (server_token : str) (now : Z) (id : str) (host : str)
    (scope : option str) (clean_url : str) : ShareRedirect :=
  let claims := {| sh_host := host; sh_path := scope; sh_exp := Some (now + QUERY_TOKEN_COOKIE_SECS); sh_id := id |} in
  {| sr_location := safe_redirect_path clean_url;
     sr_token := sign_share_claims claims (share_signing_key server_token);
     sr_max_age := QUERY_TOKEN_COOKIE_SECS; sr_secure := secure |}.

(** ** Minting *)

Inductive share_error : Type := InvalidHostname | NotYours | InvalidPath | TtlTooLong.

Definition share_path (path : option str) : result (option str) share_error :=
  match trim <$> path with
  | None => Ok None
  | Some raw =>
      if str_eqb raw [] || str_eqb raw (bs "/") then Ok None
      else match normalize_path_bind raw with Some p => Ok (Some p) | None => Err InvalidPath end
  end.

(** The claims of a new link, with its address. *)
Definition share_create_handler (st : AuthState) (server_token : str) (now : Z) (hs : headers) (id : str)
    (hostname : str) (path : option str) (ttl_seconds : option Z) : result (ShareClaims * str * str) share_error :=
  match normalize_hostname_bind (trim hostname) with
  | None => Err InvalidHostname
  | Some hostname =>
      let org := match resolve_caller sha256 st now hs with Some c => effective_org c | None => None end in
      if negb (org_may_act_on_hostname (a_fences st) (a_clients st) org hostname) then Err NotYours
      else match share_path path with
           | Err e => Err e
           | Ok path =>
               let ttl := default SHARE_DEFAULT_TTL_SECS ttl_seconds in
               if SHARE_MAX_TTL_SECS <? ttl then Err TtlTooLong
               else
                 let claims := {| sh_host := hostname; sh_path := path;
                                  sh_exp := if ttl =? 0 then None else Some (now + ttl); sh_id := take 8 id |} in
                 let token := sign_share_claims claims (share_signing_key server_token) in
                 Ok (claims, token,
                     bs "https://" ++ hostname ++ default (bs "/") path ++ bs "?aperio_share=" ++ token)
           end
  end.

End Signed.

(** ** What a share token opens *)

(** Same origin: one slash, then anything but a second one. *)
Definition same_origin (location : str) : Prop :=
  ∃ rest, location = slash :: rest ∧ ∀ c r, rest = c :: r → c ≠ slash ∧ c ≠ "\"%char.

Lemma safe_redirect_same_origin uri : same_origin (safe_redirect_path uri).
Proof.
  unfold safe_redirect_path. destruct (_ && _) eqn:E; [|by exists []].
  rewrite !andb_true_iff, !negb_true_iff in E. destruct E as [[H1 H2] H3].
  unfold starts_with in H1. destruct (strip_prefix (bs "/") uri) as [rest|] eqn:Es; [|done].
  apply strip_prefix_Some in Es. subst uri. exists rest. split; [done|]. intros c r ->. split; intros ->; vm_compute in H2, H3; done.
Qed.

Definition covers_request (claims : ShareClaims) (host : option str) (path : str) : Prop :=
  host = Some (sh_host claims) ∧ request_path_has_traversal path = false
  ∧ ∀ p, sh_path claims = Some p → path = p ∨ ∃ rest, path = p ++ slash :: rest.

Lemma share_claims_cover_spec claims host path :
  share_claims_cover claims host path = true ↔ covers_request claims host path.
Proof.
  unfold share_claims_cover, covers_request. destruct (request_path_has_traversal path); [naive_solver|].
  case_bool_decide as Hh; simpl; [|naive_solver]. destruct (sh_path claims) as [p|]; [|naive_solver].
  unfold path_matches_bind. rewrite orb_true_iff, str_eqb_eq. unfold starts_with.
  assert (Hs : match strip_prefix (p ++ [slash]) path with Some _ => true | None => false end = true
               ↔ ∃ rest, path = p ++ slash :: rest).
  { destruct (strip_prefix (p ++ [slash]) path) as [r|] eqn:E.
    - apply strip_prefix_Some in E. split; [|done]. exists r. by rewrite E, <- app_assoc.
    - split; [done|]. intros [rest ->]. rewrite (proj2 (strip_prefix_Some (p ++ [slash]) _ rest)) in E; [done|].
      by rewrite <- app_assoc. }
  rewrite Hs. naive_solver.
Qed.

Section Opened.
Context (sha256 : str → str) (hmac : str → str → str) (encode : str → str) (decode : str → option str).
Context (to_json : ShareClaims → str) (of_json : str → option ShareClaims).

#[local] Abbreviation sign := (sign_share_claims hmac encode to_json).
#[local] Abbreviation verify := (verify_share_token hmac decode of_json).
#[local] Abbreviation check := (check_share_access sha256 hmac decode of_json).
#[local] Abbreviation key_of := (share_signing_key sha256).

Definition unexpired (now : Z) (claims : ShareClaims) : bool :=
  match sh_exp claims with Some exp => now <? exp | None => true end.

(** The token carries the key's signature of its own payload. *)
Definition genuine (now : Z) (key token : str) (claims : ShareClaims) : Prop :=
  ∃ payload sig, token = payload ++ dot :: sig ∧ decode sig = Some (hmac key payload)
    ∧ decode payload ≫= of_json = Some claims ∧ unexpired now claims = true.

Lemma verify_share_token_spec now token key claims :
  verify now token key = Some claims → genuine now key token claims.
Proof.
  unfold verify_share_token. destruct (split_once dot token) as [[payload sig]|] eqn:E; [|done].
  apply split_once_Some in E as [-> _]. destruct (decode sig) as [b|] eqn:Ed; [|done].
  destruct (str_eqb b (hmac key payload)) eqn:Es; [|done]. apply str_eqb_eq in Es. subst b. simpl.
  destruct (decode payload ≫= of_json) as [c|] eqn:Ec; [|done]. intros H. exists payload, sig.
  assert (c = claims ∧ unexpired now claims = true) as [-> Hu]; [|done].
  unfold unexpired. destruct (sh_exp c) as [exp|] eqn:Ee; [destruct (exp <=? now) eqn:El; [done|]|];
    injection H as <-; rewrite Ee; (split; [done|]); [lia|done].
Qed.

Lemma share_opens_spec now key host path token claims :
  share_opens hmac decode of_json now key host path token = Some claims →
  genuine now key token claims ∧ covers_request claims host path.
Proof.
  unfold share_opens. destruct (verify now token key) as [c|] eqn:E; [|done].
  destruct (share_claims_cover c host path) eqn:Ec; [|done]. intros [= <-].
  split; [by apply verify_share_token_spec|by apply share_claims_cover_spec].
Qed.

(** A share opens only what it was signed for. A request is let through, or
    redirected with a cookie, only on a token that carries this server's
    signature of claims which have not expired and which name this host and a
    path at or above the requested one, dot segments never; and the redirect
    stays on the origin. *)
Theorem share_access_scoped secure token now hs uri host :
  match check secure token now hs uri host with
  | Some None => ∃ t claims, share_token_from_cookies hs = Some t ∧ genuine now (key_of token) t claims
                   ∧ covers_request claims host (u_path uri)
  | Some (Some r) => ∃ claims, genuine now (key_of token) (sr_token r) claims
                   ∧ covers_request claims host (u_path uri) ∧ same_origin (sr_location r)
                   ∧ (0 <= now → ∀ exp, sh_exp claims = Some exp → now + sr_max_age r = exp)
  | None => True
  end.
Proof.
  unfold check_share_access.
  assert (Hc : match match share_token_from_cookies hs with
                     | Some t => match share_opens hmac decode of_json now (key_of token) host (u_path uri) t with
                                 | Some _ => Some None | None => None end
                     | None => None end : option (option ShareRedirect) with
               | Some None => ∃ t claims, share_token_from_cookies hs = Some t ∧ genuine now (key_of token) t claims
                                ∧ covers_request claims host (u_path uri)
               | Some (Some r) => False
               | None => True
               end).
  { destruct (share_token_from_cookies hs) as [t|]; [|done].
    destruct (share_opens _ _ _ _ _ _ _ _) as [c|] eqn:E; [|done]. apply share_opens_spec in E as [? ?]. by exists t, c. }
  destruct (u_query uri) as [q|]; [destruct (share_param q) as [[raw|] rest];
    [destruct (share_opens _ _ _ _ _ _ _ _) as [c|] eqn:E|]|].
  - apply share_opens_spec in E as [Hg Hcov]. exists c. split_and!; [done|done|apply safe_redirect_same_origin|].
    intros Hn exp Hexp. simpl. rewrite Hexp. destruct Hg as (_ & _ & _ & _ & _ & Hu). unfold unexpired in Hu.
    rewrite Hexp in Hu. to_prop. unfold sat_sub. lia.
  - destruct (match share_token_from_cookies hs with Some _ => _ | None => _ end) as [[r|]|]; done.
  - destruct (match share_token_from_cookies hs with Some _ => _ | None => _ end) as [[r|]|]; done.
  - destruct (match share_token_from_cookies hs with Some _ => _ | None => _ end) as [[r|]|]; done.
Qed.

(** What base64url without padding and the JSON of the claims promise. *)
Definition b64url (a : ascii) : bool := is_alnum a || bool_decide (a = "-"%char) || bool_decide (a = "_"%char).

Hypothesis (encode_alphabet : ∀ x, Forall (fun a => b64url a = true) (encode x)).
Hypothesis (decode_encode : ∀ x, decode (encode x) = Some x).
Hypothesis (json_roundtrip : ∀ c, of_json (to_json c) = Some c).

Lemma b64url_graphic a : b64url a = true → graphic a = true.
Proof.
  unfold b64url, graphic, is_alnum, is_digit, is_upper, is_lower. intros H.
  repeat (apply orb_prop in H as [H|H]); to_prop; subst; try done; apply andb_true_intro; split; lia.
Qed.

Lemma encode_elem x a : a ∈ encode x → b64url a = true.
Proof. intros H. pose proof (encode_alphabet x) as Hf. rewrite Forall_forall in Hf. by apply Hf. Qed.

Lemma token_alphabet claims key a : a ∈ sign claims key → b64url a = true ∨ a = dot.
Proof.
  unfold sign_share_claims. rewrite !elem_of_app. intros [Ha|[Ha|Ha]]; [left; by eapply encode_elem| |left; by eapply encode_elem].
  right. by apply list_elem_of_singleton in Ha.
Qed.

Lemma token_graphic claims key : Forall (fun a => graphic a = true) (sign claims key).
Proof. apply Forall_forall. intros a [Ha| ->]%token_alphabet; [by apply b64url_graphic|done]. Qed.

Lemma token_free claims key c : b64url c = false → c ≠ dot → c ∉ sign claims key.
Proof. intros Hb Hd [Ha|Ha]%token_alphabet; congruence. Qed.

Lemma verify_sign now claims key :
  verify now (sign claims key) key = if unexpired now claims then Some claims else None.
Proof.
  unfold verify_share_token, sign_share_claims. set (payload := encode (to_json claims)).
  assert (Hs : split_once dot (payload ++ bs "." ++ encode (hmac key payload)) = Some (payload, encode (hmac key payload))).
  { apply split_once_Some. split; [done|]. by intros Hin%encode_elem. }
  rewrite Hs, decode_encode, (proj2 (str_eqb_eq _ _) eq_refl). simpl. unfold payload at 1. rewrite decode_encode. simpl.
  rewrite json_roundtrip. unfold unexpired. destruct (sh_exp claims) as [exp|]; [|done].
  destruct (exp <=? now) eqn:E1, (now <? exp) eqn:E2; try done; to_prop; lia.
Qed.

(** The pair a browser, or a link, carries the token in. *)
Definition share_pair (token : str) : str := SHARE_COOKIE ++ bs "=" ++ token.

Lemma cookie_alphabet a : a ∈ SHARE_COOKIE → b64url a = true.
Proof.
  assert (Hf : Forall (fun a => b64url a = true) SHARE_COOKIE) by (by repeat constructor).
  rewrite Forall_forall in Hf. apply Hf.
Qed.

Lemma share_pair_graphic claims key : Forall (fun a => graphic a = true) (share_pair (sign claims key)).
Proof. unfold share_pair. rewrite !Forall_app. split_and!; [by repeat constructor..|apply token_graphic]. Qed.

Lemma share_pair_free claims key c :
  b64url c = false → c ≠ dot → c ≠ "="%char → c ∉ share_pair (sign claims key).
Proof.
  intros Hb Hd He. unfold share_pair. rewrite !elem_of_app. intros [H|[H|H]].
  - apply cookie_alphabet in H. congruence.
  - by apply list_elem_of_singleton in H.
  - by eapply token_free.
Qed.

Lemma cookie_of_token claims key :
  share_token_from_cookies [(bs "cookie", share_pair (sign claims key))] = Some (sign claims key).
Proof.
  unfold share_token_from_cookies, cookie_value, header_str, header_get. simpl. unfold to_str.
  assert (forallb header_char_ok (share_pair (sign claims key)) = true) as ->.
  { apply forallb_Forall. eapply Forall_impl; [apply share_pair_graphic|]. intros a. unfold graphic, header_char_ok.
    intros Ha. to_prop. apply orb_true_intro. left. apply andb_true_intro. split; lia. }
  rewrite split_on_single by (by apply share_pair_free). simpl. rewrite trim_graphic by apply share_pair_graphic.
  assert (split_once "="%char (share_pair (sign claims key)) = Some (SHARE_COOKIE, sign claims key)) as ->; [|done].
  apply split_once_Some. split; [done|]. by intros H%cookie_alphabet.
Qed.

Lemma param_of_token claims key : share_param (share_pair (sign claims key)) = (Some (sign claims key), []).
Proof.
  unfold share_param. rewrite split_on_single by (by apply share_pair_free). cbn [fold_left snd].
  assert (strip_prefix (bs "aperio_share=") (share_pair (sign claims key)) = Some (sign claims key)) as ->; [|done].
  by apply strip_prefix_Some.
Qed.

(** A link that was minted works, where its maker may act and nowhere else.
    Until it expires, opening any path under its scope on its host redirects to
    that path without the token, setting a cookie; the cookie opens every path
    under the scope; after it expires, on another host, or outside the scope
    neither does. The host is one the maker's organization may act on. *)
Theorem share_link_roundtrip st server_token now hs id hostname path ttl claims token url :
  share_create_handler sha256 hmac encode to_json st server_token now hs id hostname path ttl = Ok (claims, token, url) →
  org_may_act_on_hostname (a_fences st) (a_clients st)
    (match resolve_caller sha256 st now hs with Some c => effective_org c | None => None end) (sh_host claims) = true
  ∧ (∀ exp, sh_exp claims = Some exp → exp <= now + SHARE_MAX_TTL_SECS)
  ∧ ∀ secure now' host p,
      let click := check secure server_token now' [] {| u_authority := []; u_path := p; u_query := Some (share_pair token) |} host in
      let visit := check secure server_token now' [(bs "cookie", share_pair token)]
                     {| u_authority := []; u_path := p; u_query := None |} host in
      if unexpired now' claims && share_claims_cover claims host p
      then (∃ r, click = Some (Some r) ∧ sr_token r = token ∧ sr_location r = safe_redirect_path p) ∧ visit = Some None
      else click = None ∧ visit = None.
Proof.
  unfold share_create_handler. destruct (normalize_hostname_bind (trim hostname)) as [h|]; [|done].
  set (org := match resolve_caller sha256 st now hs with Some c => _ | None => _ end).
  destruct (org_may_act_on_hostname (a_fences st) (a_clients st) org h) eqn:Ho; [|done]. cbn [negb].
  destruct (share_path path) as [sp|]; [|done]. destruct (SHARE_MAX_TTL_SECS <? _) eqn:Et; [done|].
  intros H. injection H as Hc Ht _. split_and!; [by rewrite <- Hc| |].
  { intros exp. rewrite <- Hc. simpl. destruct (_ =? 0); [done|]. intros [= <-]. to_prop. lia. }
  intros secure now' host p. rewrite Hc in Ht. simpl. unfold check_share_access. cbn [u_query u_path].
  rewrite <- Ht, param_of_token, cookie_of_token. unfold share_opens. rewrite verify_sign.
  destruct (unexpired now' claims); [|done]. cbn [andb]. destruct (share_claims_cover claims host p); [|done].
  split; [|done]. eexists. split_and!; reflexivity.
Qed.

End Opened.

(** ** A worked link *)

Module Samples.

(** An injective stand-in for the encodings, into the digits 0 and 1. *)
Fixpoint digits (p : positive) : str :=
  match p with xH => [] | xO q => "0"%char :: digits q | xI q => "1"%char :: digits q end.
Fixpoint undigits (s : str) : positive :=
  match s with [] => xH | a :: r => if decide (a = "0"%char) then xO (undigits r) else xI (undigits r) end.

Lemma undigits_digits p : undigits (digits p) = p.
Proof. induction p; simpl; by rewrite ?IHp. Qed.

#[local] Instance ShareClaims_eq : EqDecision ShareClaims.
Proof. solve_decision. Defined.
#[local] Instance ShareClaims_countable : Countable ShareClaims.
Proof.
  refine (inj_countable' (fun c => (sh_host c, sh_path c, sh_exp c, sh_id c))
            (fun t => {| sh_host := t.1.1.1; sh_path := t.1.1.2; sh_exp := t.1.2; sh_id := t.2 |}) _).
  by intros [].
Defined.

Definition enc {A} `{Countable A} (x : A) : str := digits (countable.encode x).
Definition dec {A} `{Countable A} (s : str) : option A := countable.decode (undigits s).

Lemma dec_enc {A} `{Countable A} (x : A) : dec (enc x) = Some x.
Proof. unfold dec, enc. by rewrite undigits_digits, countable.decode_encode. Qed.

Lemma digits_alphabet p : Forall (fun a => b64url a = true) (digits p).
Proof. induction p; simpl; by constructor. Qed.

Definition sample_hmac (key m : str) : str := key ++ m.

Lemma share_link_roundtrip_witness :
  ∃ claims token url,
    share_create_handler id_hash sample_hmac enc enc sample_state (bs "master") 5 [] (bs "0123456789")
      (bs "app.example.com") (Some (bs "docs/")) (Some 60) = Ok (claims, token, url)
    ∧ check_share_access id_hash sample_hmac dec dec false (bs "master") 64 [(bs "cookie", share_pair token)]
        {| u_authority := []; u_path := bs "/docs/a"; u_query := None |} (Some (bs "app.example.com")) = Some None.
Proof.
  set (claims := {| sh_host := bs "app.example.com"; sh_path := Some (bs "/docs"); sh_exp := Some 65;
                    sh_id := bs "01234567" |}).
  set (token := sign_share_claims sample_hmac enc enc claims (share_signing_key id_hash (bs "master"))).
  assert (Hc : share_create_handler id_hash sample_hmac enc enc sample_state (bs "master") 5 [] (bs "0123456789")
      (bs "app.example.com") (Some (bs "docs/")) (Some 60)
      = Ok (claims, token, bs "https://" ++ bs "app.example.com" ++ bs "/docs" ++ bs "?aperio_share=" ++ token)).
  { unfold share_create_handler.
    replace (normalize_hostname_bind (trim (bs "app.example.com"))) with (Some (bs "app.example.com")) by (vm_compute; reflexivity).
    replace (resolve_caller id_hash sample_state 5 []) with (@None Caller) by (vm_compute; reflexivity).
    replace (org_may_act_on_hostname (a_fences sample_state) (a_clients sample_state) None (bs "app.example.com")) with true
      by (vm_compute; reflexivity).
    replace (share_path (Some (bs "docs/"))) with (@Ok (option str) share_error (Some (bs "/docs"))) by (vm_compute; reflexivity).
    reflexivity. }
  eexists claims, token, _. split; [exact Hc|].
  refine (proj2 (proj2 (proj2 (share_link_roundtrip id_hash sample_hmac enc dec enc dec (fun x => digits_alphabet _) dec_enc dec_enc
    sample_state (bs "master") 5 [] (bs "0123456789") (bs "app.example.com") (Some (bs "docs/")) (Some 60) claims token _ Hc))
    false 64 (Some (bs "app.example.com")) (bs "/docs/a"))).
Defined.

End Samples.
