(* ===== verification/Gate.v ===== *)
(** The visitor gate, [aperio-server/src/proxy/gate.rs]: who may reach a route
    and how the others are told, composed from the site rules ([Sites]), the
    clients' declarations ([Route]), the sessions ([Sessions]) and the share links
    ([Share]); and what of a request is Aperio's own and never reaches a backend.

    The answers of a [forward] endpoint and of the verification of a JWT are
    parameters: the theorems hold whatever they answer. All checks of one request
    are made at one instant. *)

From S2P Require Import Prelude Binds Orgs VisitorAuth Clients Select Route Sites Grants Users Sessions Share.

Record GateState (F Regex Tz : Type) : Type := {
  g_auth : AuthState;
  g_route : route_state;
  g_sites : list (Site F Regex Tz);
  g_policy : Policy;
  g_deny : bool;
  g_token : str;
}.
Arguments g_auth {F Regex Tz} g.
Arguments g_route {F Regex Tz} g.
Arguments g_sites {F Regex Tz} g.
Arguments g_policy {F Regex Tz} g.
Arguments g_deny {F Regex Tz} g.
Arguments g_token {F Regex Tz} g.

(** ** Reading a request *)

Definition is_websocket_upgrade (method : str) (hs : headers) : bool :=
  if negb (str_eqb method (bs "GET")) then false
  else match header_str (bs "upgrade") hs with Some v => eq_ignore_case v (bs "websocket") | None => false end
       && match header_str (bs "connection") hs with Some v => contains (bs "upgrade") (lower v) | None => false end.

Definition is_navigation (method : str) (hs : headers) : bool :=
  str_eqb method (bs "GET")
  && match header_str (bs "accept") hs with Some v => contains (bs "text/html") v | None => false end.

Record PresentedSecret : Type := { ps_value : str; ps_from_query : bool }.

Definition query_token (uri : Uri) : option str :=
  match u_query uri with
  | None => None
  | Some q => find_map (fun pair => match strip_prefix (bs "aperio_token=") pair with
                                    | Some v => if str_eqb v [] then None else Some v
                                    | None => None
                                    end) (split_on "&"%char q)
  end.

(** [Authorization: Bearer], trimmed and not empty. *)
Definition bearer_header (hs : headers) : option str :=
  match header_str (bs "authorization") hs with
  | None => None
  | Some v => match trim <$> credentials_for_scheme v (bs "Bearer") with
              | Some s => if str_eqb s [] then None else Some s
              | None => None
              end
  end.

Definition presented_secret (hs : headers) (uri : Uri) (policy : Policy) : option PresentedSecret :=
  match bearer_header hs with
  | Some secret => Some {| ps_value := secret; ps_from_query := false |}
  | None =>
      if negb (accepts_query_token policy) then None
      else (fun v => {| ps_value := v; ps_from_query := true |}) <$> query_token uri
  end.

Definition uri_without_token (uri : Uri) : str :=
  match u_query uri with
  | None => u_path uri
  | Some q =>
      with_params (u_path uri)
        (filter (fun pair => starts_with (bs "aperio_token=") pair = false ∧ pair ≠ []) (split_on "&"%char q))
  end.

Definition jwt_token_from_request (hs : headers) (cfg : JwtConfig) : option str :=
  match jwt_cookie cfg with
  | Some name => cookie_value hs name
  | None => bearer_header hs
  end.

(** ** Aperio's own headers and cookies *)

Definition carried_identity_names (policy : Policy) : list str :=
  lower <$> (forward_methods policy ≫= fw_response_headers).

Definition header_is_aperios (name : str) (carried_names : list str) (consumed_authorization : bool) : bool :=
  ((9 <=? len name) && eq_ignore_case (take 9 name) (bs "x-aperio-"))
  || (consumed_authorization && eq_ignore_case name (bs "authorization"))
  || existsb (fun n => eq_ignore_case name n) carried_names.

Definition aperio_cookie (part : str) : bool :=
  let trimmed := trim part in
  starts_with (bs "aperio_session=") trimmed || starts_with (bs "__Host-aperio_session=") trimmed
  || starts_with (bs "aperio_share=") trimmed || starts_with (bs "aperio_affinity=") trimmed.

Definition cookies_without_aperios (value : str) : str :=
  join (bs "; ") (trim <$> filter (fun part => aperio_cookie part = false) (split_on ";"%char value)).

(** ** Answers *)

Inductive How : Type := BySession | ByBearer | ByJwt | ByForward | ByShare | BySso.

Record VisitorIdentity : Type := {
  vi_how : How;
  vi_who : option str;
  vi_extra_headers : list (str * str);
  vi_consumed_authorization : bool;
  vi_forward_client_id : option str;
}.

(** What an endpoint answered; a refusal is its own response. *)
Inductive Verdict : Type :=
| VAllow (carried : list (str * str))
| VDeny (response : str).

Inductive GateResponse : Type :=
| LoginRedirect (location : str)
| Challenge (scheme : option str)
| ShareRedirected (r : ShareRedirect)
| Delegated (response : str).

Inductive VisitorGate : Type :=
| Allow (who : option VisitorIdentity)
| Deny (response : GateResponse)
| Undeclared.

Definition login_redirect (login_path uri_str : str) : GateResponse :=
  LoginRedirect (login_path ++ bs "?redirect=" ++ safe_redirect_path uri_str).

Definition refuse_visitor (policy : Policy) (navigation : bool) (login_path uri_str : str) : GateResponse :=
  if has_sso policy && navigation then login_redirect (bs "/aperio/sso/login") uri_str
  else if has_sso policy && sso_only policy then Challenge None
  else match challenge policy with
       | Some scheme =>
           if negb navigation && has_direct_method policy then Challenge (Some scheme)
           else if negb navigation && has_aperio policy then Challenge None
           else login_redirect login_path uri_str
       | None => if negb navigation && has_aperio policy then Challenge None else login_redirect login_path uri_str
       end.

Definition identified (how : How) (who : option str) (consumed : bool) : VisitorIdentity :=
  {| vi_how := how; vi_who := who; vi_extra_headers := []; vi_consumed_authorization := consumed;
     vi_forward_client_id := None |}.

Definition by_forward (carried : list (str * str)) (asked : option str) : VisitorIdentity :=
  {| vi_how := ByForward; vi_who := snd <$> find (fun kv => eq_ignore_case kv.1 (bs "x-auth-user")) carried;
     vi_extra_headers := carried; vi_consumed_authorization := false; vi_forward_client_id := asked |}.

Section Gate.
Context (sha256 : str → str) (uuid_ok : str → bool).
Context (hmac : str → str → str) (encode : str → str) (decode : str → option str).
Context (to_json : ShareClaims → str) (of_json : str → option ShareClaims).
(** The subject of a JWT that verifies; an endpoint dialed from the server; one
    asked over the tunnel, with the connection it was asked on. *)
Context (jwt_verify : JwtConfig → str → option (option str)).
Context (ask : ForwardConfig → Verdict) (ask_over_tunnel : ForwardConfig → Verdict * option str).

(** One request, at one instant; [id] is fresh. *)
Context {F Regex Tz : Type} (st : GateState F Regex Tz) (now : Z) (id : str) (method : str) (hs : headers) (uri : Uri) (host : option str).

Definition session_identity : VisitorIdentity :=
  identified BySession (session_username_any_scope sha256 (g_auth st) now hs) false.

Definition share_access : option (option ShareRedirect) :=
  check_share_access sha256 hmac decode of_json (a_secure_cookies (g_auth st)) (g_token st) now hs uri host.

(** The first [jwt] method whose token verifies. *)
Fixpoint apply_jwt (cfgs : list JwtConfig) : option VisitorGate :=
  match cfgs with
  | [] => None
  | cfg :: rest =>
      match jwt_token_from_request hs cfg with
      | None => apply_jwt rest
      | Some token =>
          match jwt_verify cfg token with
          | Some who => Some (Allow (Some (identified ByJwt who (negb (is_some (jwt_cookie cfg))))))
          | None => apply_jwt rest
          end
      end
  end.

Definition apply_request_methods (policy : Policy) (navigation : bool) : option VisitorGate :=
  let jwt := apply_jwt (jwt_methods policy) in
  match presented_secret hs uri policy with
  | Some presented =>
      if admits_bearer sha256 policy (ps_value presented) (ps_from_query presented) then
        match host with
        | Some h =>
            if ps_from_query presented && navigation then
              let scope := route_path_bind (g_route st) now (u_path uri) (Some h) in
              Some (Deny (ShareRedirected
                (grant_cookie_and_redirect sha256 hmac encode to_json (a_secure_cookies (g_auth st)) (g_token st) now id
                   h scope (uri_without_token uri))))
            else Some (Allow (Some (identified ByBearer None (negb (ps_from_query presented)))))
        | None => Some (Allow (Some (identified ByBearer None (negb (ps_from_query presented)))))
        end
      else jwt
  | None => jwt
  end.

(** The loop over [forward] methods: the first that allows, or the last refusal. *)
Fixpoint ask_forward (asking : ForwardConfig → Verdict * option str) (cfgs : list ForwardConfig)
    (refusal : option str) : option VisitorIdentity * option str :=
  match cfgs with
  | [] => (None, refusal)
  | cfg :: rest =>
      match asking cfg with
      | (VAllow carried, asked) => (Some (by_forward carried asked), refusal)
      | (VDeny resp, _) => ask_forward asking rest (Some resp)
      end
  end.

Definition share_or (refusal : GateResponse) : VisitorGate :=
  match share_access with
  | Some (Some r) => Deny (ShareRedirected r)
  | Some None => Allow (Some (identified ByShare None false))
  | None => Deny refusal
  end.

(** The methods of a policy after the session: on the request, delegated, shared. *)
Definition after_session (policy : Policy) (asking : ForwardConfig → Verdict * option str) (navigation : bool) :
    VisitorGate :=
  match apply_request_methods policy navigation with
  | Some decided => decided
  | None =>
      match ask_forward asking (forward_methods policy) None with
      | (Some who, _) => Allow (Some who)
      | (None, Some resp) => share_or (Delegated resp)
      | (None, None) => share_or (refuse_visitor policy navigation (bs "/aperio/auth") (uri_string uri))
      end
  end.

Definition asking (cfg : ForwardConfig) : Verdict * option str :=
  if fw_via_client cfg then ask_over_tunnel cfg else (ask cfg, None).

Definition admit_by_policy (policy : Policy) (navigation site : bool) : VisitorGate :=
  let rest :=
    let session_ok :=
      if aperio_only policy || sso_only policy then admin_session_reaches sha256 uuid_ok (g_auth st) now hs host
      else if site then validate_session_for_host sha256 uuid_ok (g_auth st) now hs host
      else validate_session_for_visitor sha256 uuid_ok (g_auth st) now hs host in
    if session_ok then Allow (Some session_identity) else after_session policy asking navigation in
  if has_sso policy then
    match sso_identity sha256 uuid_ok (g_auth st) now hs host with
    | Some (issuer, email) =>
        if existsb (fun m => str_eqb (sso_issuer m) issuer && admits_email m email) (sso_methods policy)
        then Allow (Some (identified BySso (Some email) false)) else rest
    | None => rest
    end
  else rest.

(** Nothing gates the route for third parties. *)
Definition ungated : VisitorGate :=
  if g_deny st then
    if validate_session_for_visitor sha256 uuid_ok (g_auth st) now hs host then Allow (Some session_identity)
    else Undeclared
  else Allow None.

Definition host_gated : bool :=
  gates (g_policy st) || gates_on_host (g_sites st) host || host_has_visitor_auth (g_route st) host.

Definition check_visitor_gate : VisitorGate :=
  let path := u_path uri in
  let navigation := is_navigation method hs in
  if request_path_has_traversal path then
    if negb host_gated then
      if public_on_host (g_sites st) host then Allow None else ungated
    else if validate_session_for_visitor sha256 uuid_ok (g_auth st) now hs host then Allow (Some session_identity)
    else Deny (login_redirect (bs "/aperio/auth") (uri_string uri))
  else
    match access_for (g_sites st) host path with
    | Some SitePublic => Allow None
    | Some (SiteGate policy) => admit_by_policy policy navigation true
    | None =>
        match route_visitor_policy (g_route st) now path host with
        | Some declared =>
            if admits_everyone declared then Allow None
            else
              let session_ok :=
                if aperio_only declared then admin_session_reaches sha256 uuid_ok (g_auth st) now hs host
                else validate_session_for_host sha256 uuid_ok (g_auth st) now hs host in
              if session_ok then Allow (Some session_identity)
              else after_session declared ask_over_tunnel navigation
        | None =>
            if is_some (route_visitor_auth (g_route st) now path host) then
              if validate_session_for_host sha256 uuid_ok (g_auth st) now hs host then Allow (Some session_identity)
              else share_or (login_redirect (bs "/aperio/auth") (uri_string uri))
            else if route_is_public (g_route st) now path host then Allow None
            else if gates (g_policy st) then admit_by_policy (g_policy st) navigation false
            else ungated
        end
    end.

(** ** What the gate promises *)

(** Who wrote the gate of a route. *)
Inductive Author : Type := OfSite | OfClient | OfServer.

(** What stands at a route, whoever asks: nothing; nothing, on a server that is
    closed by default; a client's password; a policy. *)
Inductive Door : Type :=
| DOpen
| DUndeclared
| DPassword
| DPolicy (side : Author) (p : Policy).

Definition undeclared_door : Door := if g_deny st then DUndeclared else DOpen.

(** The door of a route, for a path without dot segments. *)
Definition door : Door :=
  let path := u_path uri in
  match access_for (g_sites st) host path with
  | Some SitePublic => DOpen
  | Some (SiteGate p) => DPolicy OfSite p
  | None =>
      match route_visitor_policy (g_route st) now path host with
      | Some p => if admits_everyone p then DOpen else DPolicy OfClient p
      | None =>
          if is_some (route_visitor_auth (g_route st) now path host) then DPassword
          else if route_is_public (g_route st) now path host then DOpen
          else if gates (g_policy st) then DPolicy OfServer (g_policy st)
          else undeclared_door
      end
  end.

(** The session a door takes. *)
Definition session_opens (d : Door) : bool :=
  let visitor := validate_session_for_visitor sha256 uuid_ok (g_auth st) now hs host in
  let for_host := validate_session_for_host sha256 uuid_ok (g_auth st) now hs host in
  let admin := admin_session_reaches sha256 uuid_ok (g_auth st) now hs host in
  match d with
  | DOpen => false
  | DUndeclared => visitor
  | DPassword => for_host
  | DPolicy OfClient p => if aperio_only p then admin else for_host
  | DPolicy OfSite p => if aperio_only p || sso_only p then admin else for_host
  | DPolicy OfServer p => if aperio_only p || sso_only p then admin else visitor
  end.

Definition asked_of (side : Author) : ForwardConfig → Verdict * option str :=
  match side with OfClient => ask_over_tunnel | _ => asking end.

(** What the identity of an admitted visitor vouches for. *)
Definition evidence (d : Door) (i : VisitorIdentity) : Prop :=
  match vi_how i with
  | BySession => session_opens d = true
  | ByShare => share_access = Some None ∧ (d = DPassword ∨ ∃ side p, d = DPolicy side p)
  | ByBearer => ∃ side p s, d = DPolicy side p ∧ presented_secret hs uri p = Some s
      ∧ admits_bearer sha256 p (ps_value s) (ps_from_query s) = true
      ∧ vi_consumed_authorization i = negb (ps_from_query s)
  | ByJwt => ∃ side p cfg token, d = DPolicy side p ∧ cfg ∈ jwt_methods p
      ∧ jwt_token_from_request hs cfg = Some token ∧ jwt_verify cfg token = Some (vi_who i)
  | ByForward => ∃ side p cfg, d = DPolicy side p ∧ cfg ∈ forward_methods p
      ∧ asked_of side cfg = (VAllow (vi_extra_headers i), vi_forward_client_id i)
  | BySso => ∃ side p m issuer email, d = DPolicy side p ∧ m ∈ sso_methods p
      ∧ sso_identity sha256 uuid_ok (g_auth st) now hs host = Some (issuer, email)
      ∧ sso_issuer m = issuer ∧ admits_email m email = true ∧ vi_who i = Some email
  end.

(** An outcome a door allows. *)
Definition answers (d : Door) (g : VisitorGate) : Prop :=
  match g with
  | Allow None => d = DOpen
  | Allow (Some i) => d ≠ DOpen ∧ evidence d i
  | Deny r => d ≠ DOpen ∧ d ≠ DUndeclared ∧ session_opens d = false
  | Undeclared => d = DUndeclared ∧ session_opens d = false
  end.

Lemma apply_jwt_answers cfgs g :
  apply_jwt cfgs = Some g →
  ∃ cfg token who, cfg ∈ cfgs ∧ jwt_token_from_request hs cfg = Some token ∧ jwt_verify cfg token = Some who
    ∧ g = Allow (Some (identified ByJwt who (negb (is_some (jwt_cookie cfg))))).
Proof.
  induction cfgs as [|cfg rest IH]; simpl; [done|].
  assert (Hrest : apply_jwt rest = Some g → ∃ cfg0 token who, cfg0 ∈ cfg :: rest ∧ jwt_token_from_request hs cfg0 = Some token
      ∧ jwt_verify cfg0 token = Some who ∧ g = Allow (Some (identified ByJwt who (negb (is_some (jwt_cookie cfg0)))))).
  { intros (c & t & w & Hc & H)%IH. exists c, t, w. split; [by right|done]. }
  destruct (jwt_token_from_request hs cfg) as [token|] eqn:Et; [|done].
  destruct (jwt_verify cfg token) as [who|] eqn:Ev; [|done]. intros [= <-].
  exists cfg, token, who. split_and!; [by left|done..].
Qed.

Lemma ask_forward_answers asking cfgs refusal :
  match ask_forward asking cfgs refusal with
  | (Some who, _) => ∃ cfg, cfg ∈ cfgs ∧ asking cfg = (VAllow (vi_extra_headers who), vi_forward_client_id who)
                       ∧ vi_how who = ByForward
  | (None, _) => True
  end.
Proof.
  revert refusal. induction cfgs as [|cfg rest IH]; intros refusal; simpl; [done|].
  destruct (asking cfg) as [[carried|resp] asked] eqn:E.
  - exists cfg. split_and!; [by left|done|done].
  - specialize (IH (Some resp)). destruct (ask_forward asking rest (Some resp)) as [[who|] r]; [|done].
    destruct IH as (c & Hc & H). exists c. split; [by right|done].
Qed.

Lemma share_or_answers d refusal :
  session_opens d = false → d = DPassword ∨ (∃ side p, d = DPolicy side p) → answers d (share_or refusal).
Proof.
  intros Hs Hd. assert (d ≠ DOpen ∧ d ≠ DUndeclared) as [H1 H2] by naive_solver.
  unfold share_or. destruct (share_access) as [[r|]|] eqn:E; simpl; [done| |done]. split; [done|]. by split.
Qed.

Lemma after_session_answers side p navigation :
  session_opens (DPolicy side p) = false →
  answers (DPolicy side p)
    (after_session p (asked_of side) navigation).
Proof.
  intros Hs. unfold after_session. destruct (apply_request_methods _ _) as [g|] eqn:Er.
  - assert (Hj : apply_jwt (jwt_methods p) = Some g → answers (DPolicy side p) g).
    { intros (cfg & token & who & Hin & Ht & Hv & ->)%apply_jwt_answers. split; [done|]. simpl.
      by exists side, p, cfg, token. }
    unfold apply_request_methods in Er. destruct (presented_secret hs uri p) as [s|] eqn:Ep; [|by apply Hj].
    destruct (admits_bearer _ _ _ _) eqn:Ea; [|by apply Hj].
    assert (Hb : answers (DPolicy side p) (Allow (Some (identified ByBearer None (negb (ps_from_query s)))))).
    { split; [done|]. simpl. by exists side, p, s. }
    destruct host as [h|]; [|by injection Er as <-]. destruct (_ && navigation); injection Er as <-; done.
  - pose proof (ask_forward_answers (asked_of side) (forward_methods p) None) as Hf.
    destruct (ask_forward (asked_of side) (forward_methods p) None) as [[who|] [resp|]].
    1,2: destruct Hf as (cfg & Hin & Ha & Hh); split; [done|]; unfold evidence; rewrite Hh; by exists side, p, cfg.
    1,2: apply share_or_answers; [done|]; right; by exists side, p.
Qed.

Lemma admit_by_policy_answers p navigation (site : bool) :
  answers (DPolicy (if site then OfSite else OfServer) p) (admit_by_policy p navigation site).
Proof.
  set (side := if site then OfSite else OfServer). unfold admit_by_policy.
  set (ok := if aperio_only p || sso_only p then _ else _).
  assert (Hok : ok = session_opens (DPolicy side p)) by (unfold side, ok; by destruct site).
  set (rest := if ok then _ else _).
  assert (Hr : answers (DPolicy side p) rest).
  { unfold rest. destruct ok.
    - split; [done|]. unfold evidence. simpl. by rewrite Hok.
    - assert (asking = asked_of side) as -> by (unfold side; by destruct site). by apply after_session_answers. }
  destruct (has_sso p); [|done]. destruct (sso_identity _ _ _ _ _ _) as [[issuer email]|] eqn:Es; [|done].
  destruct (existsb _ _) eqn:Ee; [|done]. apply existsb_Exists in Ee as (m & Hm & Hb).
  apply andb_prop in Hb as [Hi Ha]. apply str_eqb_eq in Hi. split; [done|]. simpl.
  by exists side, p, m, issuer, email.
Qed.

Lemma ungated_answers : answers undeclared_door ungated.
Proof.
  unfold undeclared_door, ungated. destruct (g_deny st); [|done].
  destruct (validate_session_for_visitor _ _ _ _ _ _) eqn:E; simpl; done.
Qed.

(** C2: On a path without dot segments the gate lets through only what the door of the
    route allows. The door is settled before anyone asks, by the operator's sites, then
    by what the clients of the route declare unanimously, then by the server. An open
    door asks nothing; any other admits only on the evidence the identity names: a
    session of the kind the door takes, a secret, a token or an endpoint of the door's
    own policy, a single sign-on it lists, or a share link that covers the request; and
    who holds the session the door takes is never refused. *)
Theorem gate_answers_door : request_path_has_traversal (u_path uri) = false → answers door check_visitor_gate.
Proof.
  intros Ht. unfold check_visitor_gate, door. rewrite Ht.
  destruct (access_for _ _ _) as [[|p]|]; [done|apply (admit_by_policy_answers p _ true)|].
  destruct (route_visitor_policy _ _ _ _) as [p|].
  - destruct (admits_everyone p); [done|].
    set (ok := if aperio_only p then _ else _). assert (Hok : ok = session_opens (DPolicy OfClient p)) by done.
    destruct ok; [|by apply (after_session_answers OfClient)]. split; [done|]. unfold evidence. simpl. done.
  - destruct (is_some _).
    + destruct (validate_session_for_host _ _ _ _ _ _) eqn:E; [simpl; done|]. apply share_or_answers; [done|by left].
    + destruct (route_is_public _ _ _ _); [done|]. destruct (gates (g_policy st)).
      * apply (admit_by_policy_answers _ _ false).
      * apply ungated_answers.
Qed.

(** Before a path with dot segments on a gated host, no secret, token, endpoint or share
    link is evidence: nobody passes without a session. *)
Lemma dotted_path_needs_session who :
  request_path_has_traversal (u_path uri) = true → host_gated = true → check_visitor_gate = Allow who →
  who = Some session_identity ∧ validate_session_for_visitor sha256 uuid_ok (g_auth st) now hs host = true.
Proof.
  intros Ht Hg. unfold check_visitor_gate. rewrite Ht, Hg. cbn [negb]. destruct (validate_session_for_visitor _ _ _ _ _ _); [|done]. by intros [= <-].
Qed.

End Gate.

(** ** Cookies *)

Definition APERIO_COOKIES : list str :=
  [SESSION_COOKIE_PLAIN; SESSION_COOKIE_SECURE; SHARE_COOKIE; bs "aperio_affinity"].

Lemma aperio_cookie_spec part :
  aperio_cookie part = true ↔ ∃ name v, name ∈ APERIO_COOKIES ∧ trim part = name ++ bs "=" ++ v.
Proof.
  unfold aperio_cookie. rewrite !orb_true_iff.
  assert (Hs : ∀ name, starts_with (name ++ bs "=") (trim part) = true ↔ ∃ v, trim part = name ++ bs "=" ++ v).
  { intros name. unfold starts_with. destruct (strip_prefix (name ++ bs "=") (trim part)) as [v|] eqn:E.
    - apply strip_prefix_Some in E. rewrite <- app_assoc in E. split; [by exists v|done].
    - split; [done|]. intros [v Hv]. rewrite Hv, app_assoc in E. by rewrite (proj2 (strip_prefix_Some _ _ v) eq_refl) in E. }
  rewrite (Hs SESSION_COOKIE_PLAIN), (Hs SESSION_COOKIE_SECURE), (Hs SHARE_COOKIE), (Hs (bs "aperio_affinity")).
  assert (Hin : ∀ name, name ∈ APERIO_COOKIES ↔ name = SESSION_COOKIE_PLAIN ∨ name = SESSION_COOKIE_SECURE
                          ∨ name = SHARE_COOKIE ∨ name = bs "aperio_affinity").
  { intros name. unfold APERIO_COOKIES. rewrite !elem_of_cons, elem_of_nil. naive_solver. }
  split.
  - intros [[[[v H]|[v H]]|[v H]]|[v H]]; eexists _, v; (split; [|exact H]); apply Hin; auto.
  - intros (name & v & [->|[->|[->| ->]]]%Hin & H); eauto.
Qed.

Lemma aperio_name_plain name : name ∈ APERIO_COOKIES → "="%char ∉ name.
Proof.
  intros H. assert (Hf : Forall (fun n => has "="%char n = false) APERIO_COOKIES) by (by repeat constructor).
  rewrite Forall_forall in Hf. apply Hf in H. intros Hin%has_spec. congruence.
Qed.

Lemma read_cookie_trim want (f : str → str) l :
  (∀ p, trim (f p) = trim p) → read_cookie want (f <$> l) = read_cookie want l.
Proof. intros Hf. induction l as [|p l IH]; [done|]. rewrite fmap_cons. cbn [read_cookie]. by rewrite Hf, IH. Qed.

(** Among the parts that are kept, a cookie of Aperio's is nowhere and any other
    is where it was. *)
Lemma read_kept want l :
  read_cookie want (filter (fun part => aperio_cookie part = false) l)
  = if bool_decide (want ∈ APERIO_COOKIES) then None else read_cookie want l.
Proof.
  induction l as [|p l IH]; [by destruct (bool_decide _)|]. rewrite filter_cons. destruct (decide _) as [Ha|Ha].
  - simpl. rewrite IH. destruct (split_once _ (trim p)) as [[k v]|] eqn:E; [|done].
    destruct (str_eqb k want) eqn:Ek; [|done]. apply str_eqb_eq in Ek. subst k. case_bool_decide as Hw; [|done].
    exfalso. apply not_true_iff_false in Ha. apply Ha, aperio_cookie_spec. exists want, v.
    by apply split_once_Some in E as [E _].
  - rewrite IH. apply not_false_iff_true, aperio_cookie_spec in Ha as (name & v & Hn & E). simpl. rewrite E.
    assert (split_once "="%char (name ++ bs "=" ++ v) = Some (name, v)) as ->.
    { apply split_once_Some. split; [done|by apply aperio_name_plain]. }
    destruct (str_eqb name want) eqn:Ek; [|done]. apply str_eqb_eq in Ek. subst. by rewrite bool_decide_eq_true_2.
Qed.

(** A backend reads every cookie but Aperio's. After the strip, each of the
    names Aperio sets reads as absent, whatever the visitor sent, and any other
    name reads as it did before. *)
Theorem cookies_strip_exact value want :
  read_cookie want (split_on ";"%char (cookies_without_aperios value))
  = if bool_decide (want ∈ APERIO_COOKIES) then None else read_cookie want (split_on ";"%char value).
Proof.
  unfold cookies_without_aperios. rewrite <- read_kept.
  pose proof (split_on_free ";"%char value) as Hfree.
  set (kept := filter _ (split_on ";"%char value)).
  assert (Hk : Forall (fun p => ";"%char ∉ p) (trim <$> kept)).
  { apply Forall_fmap. unfold kept. apply Forall_forall. intros p Hp. apply list_elem_of_filter in Hp as [_ Hp].
    rewrite Forall_forall in Hfree. specialize (Hfree p Hp). intros H%elem_of_trim. done. }
  rewrite <- (read_cookie_trim want trim kept) by apply trim_idem.
  destruct (trim <$> kept) as [|p rest] eqn:E; [done|]. change (bs "; ") with (";"%char :: bs " ").
  rewrite split_join; [|done|by intros H%list_elem_of_singleton].
  cbn [read_cookie]. by rewrite (read_cookie_trim want (app (bs " "))) by apply trim_space.
Qed.

(** ** The operator's word *)

Definition same_answer (g g' : VisitorGate) : Prop :=
  g = g' ∨ ∃ r r', g = Deny (ShareRedirected r) ∧ g' = Deny (ShareRedirected r').

Section Last_word.
Context (sha256 : str → str) (uuid_ok : str → bool).
Context (hmac : str → str → str) (encode : str → str) (decode : str → option str).
Context (to_json : ShareClaims → str) (of_json : str → option ShareClaims).
Context (jwt_verify : JwtConfig → str → option (option str)).
Context (ask : ForwardConfig → Verdict) (ask_over_tunnel : ForwardConfig → Verdict * option str).
Context {F Regex Tz : Type} (st st' : GateState F Regex Tz).
Context (now : Z) (id : str) (method : str) (hs : headers) (uri : Uri) (host : option str).

#[local] Abbreviation gate s :=
  (check_visitor_gate sha256 uuid_ok hmac encode decode to_json of_json jwt_verify ask ask_over_tunnel s now id method
     hs uri host).

Lemma request_methods_same p navigation :
  g_auth st' = g_auth st → g_token st' = g_token st →
  match apply_request_methods sha256 hmac encode to_json jwt_verify st now id hs uri host p navigation,
        apply_request_methods sha256 hmac encode to_json jwt_verify st' now id hs uri host p navigation with
  | Some g, Some g' => same_answer g g'
  | None, None => True
  | _, _ => False
  end.
Proof.
  intros Ha Ht. unfold apply_request_methods. rewrite Ha, Ht.
  assert (Hj : match apply_jwt jwt_verify hs (jwt_methods p), apply_jwt jwt_verify hs (jwt_methods p) with
               | Some g, Some g' => same_answer g g' | None, None => True | _, _ => False end)
    by (destruct (apply_jwt _ _ _); [by left|done]).
  destruct (presented_secret hs uri p) as [s|]; [|done]. destruct (admits_bearer _ _ _ _); [|done].
  destruct host as [h|]; [|by left]. destruct (_ && navigation); [right; eauto|by left].
Qed.

Lemma after_session_same p asking navigation :
  g_auth st' = g_auth st → g_token st' = g_token st →
  same_answer
    (after_session sha256 hmac encode decode to_json of_json jwt_verify st now id hs uri host p asking navigation)
    (after_session sha256 hmac encode decode to_json of_json jwt_verify st' now id hs uri host p asking navigation).
Proof.
  intros Ha Ht. pose proof (request_methods_same p navigation Ha Ht) as Hm.
  unfold after_session, share_or, share_access. rewrite Ha, Ht.
  destruct (apply_request_methods _ _ _ _ _ st _ _ _ _ _ _ _), (apply_request_methods _ _ _ _ _ st' _ _ _ _ _ _ _); try done.
  by left.
Qed.

(** A site's access is the last word. Where a site sets the access of a
    route, no client serving it, no gate of the server's own and no default
    posture changes the answer. *)
Theorem site_access_last_word :
  g_auth st' = g_auth st → g_token st' = g_token st → g_sites st' = g_sites st →
  request_path_has_traversal (u_path uri) = false → is_Some (access_for (g_sites st) host (u_path uri)) →
  same_answer (gate st) (gate st').
Proof.
  intros Ha Ht Hs Htr [a Hsite]. unfold check_visitor_gate. rewrite Htr, Hs, Hsite.
  destruct a as [|p]; [by left|]. unfold admit_by_policy, session_identity. rewrite Ha.
  pose proof (after_session_same p (asking ask ask_over_tunnel) (is_navigation method hs) Ha Ht) as Hr.
  destruct (has_sso p); [destruct (sso_identity _ _ _ _ _ _) as [[issuer email]|]; [destruct (existsb _ _); [by left|]|]|];
    destruct (if aperio_only p || sso_only p then _ else _); try done; by left.
Qed.

End Last_word.

(** ** Worked inputs *)

Module Samples.

Definition site_for (hostname : str) (access : SiteAccess) : Site unit str unit :=
  {| s_hostname := hostname; s_path := None; s_access := Some access; s_answer := None; s_timeout := None;
     s_headers := None; s_rate_limit := None; s_canary := None; s_waf := []; s_fallback := None; s_page_504 := None;
     s_page_503 := None; s_maintenance := []; s_rank := (0, 0) |}.

(** What the server's visitor password signs in: every host, and not the dashboard. *)
Definition visitor_session : SessionInfo :=
  {| si_expires_at := 100; si_created_at := 0; si_ip := None; si_user_agent := None; si_plane := PVisitor;
     si_scope_host := None; si_username := None; si_role := Admin; si_selected_org := None; si_bound_org := None;
     si_login_host := None; si_sso_issuer := None |}.

(** A server behind a password, with one hostname that asks for an Aperio sign-in. *)
Definition guarded (policy : Policy) (deny : bool) : GateState unit str unit :=
  let ss := [(token_key id_hash (bs "t1"), visitor_session)] in
  {| g_auth := {| a_sessions := {| sessions := ss; rows := ss |}; a_users := bob_store; a_keys := [];
                  a_secure_cookies := false; a_fenced_login := false; a_fences := []; a_clients := [] |};
     g_route := Select.sample_state; g_sites := [site_for (bs "ops.example.com") (SiteGate [MAperio])];
     g_policy := policy; g_deny := deny; g_token := bs "master" |}.

Definition ask_gate (st : GateState unit str unit) (token path : str) : VisitorGate :=
  check_visitor_gate id_hash any_uuid (fun k m => k ++ m) (fun s => s) (fun _ => None) sh_host (fun _ => None)
    (fun _ _ => None) (fun _ => VDeny []) (fun _ => (VDeny [], None)) st 5 [] (bs "GET") (with_cookie token)
    {| u_authority := []; u_path := path; u_query := None |} (Some (bs "ops.example.com")).

Lemma site_access_last_word_witness :
  same_answer (ask_gate (guarded [MBasic [bs "a:b"]] false) (bs "t1") (bs "/x"))
    (ask_gate (guarded [] true) (bs "t1") (bs "/x")).
Proof.
  apply (site_access_last_word id_hash any_uuid (fun k m => k ++ m) (fun s => s) (fun _ => None) sh_host (fun _ => None)
    (fun _ _ => None) (fun _ => VDeny []) (fun _ => (VDeny [], None)) (guarded [MBasic [bs "a:b"]] false) (guarded [] true)
    5 [] (bs "GET") (with_cookie (bs "t1")) {| u_authority := []; u_path := bs "/x"; u_query := None |}
    (Some (bs "ops.example.com"))); try reflexivity.
  by eexists.
Defined.

(** A visitor who holds nothing: the door of the
    hostname is its site's policy, which the gate answers with a refusal. *)
Lemma gate_answers_door_witness :
  ask_gate (guarded [MBasic [bs "a:b"]] false) (bs "none") (bs "/secret") = Deny (Challenge None)
  ∧ door (guarded [MBasic [bs "a:b"]] false) 5 {| u_authority := []; u_path := bs "/secret"; u_query := None |} (Some (bs "ops.example.com"))
    = DPolicy OfSite [MAperio]
  ∧ session_opens id_hash any_uuid (guarded [MBasic [bs "a:b"]] false) 5 (with_cookie (bs "none")) (Some (bs "ops.example.com"))
      (DPolicy OfSite [MAperio]) = false.
Proof.
  pose proof (gate_answers_door id_hash any_uuid (fun k m => k ++ m) (fun s => s) (fun _ => None) sh_host (fun _ => None)
    (fun _ _ => None) (fun _ => VDeny []) (fun _ => (VDeny [], None)) (guarded [MBasic [bs "a:b"]] false) 5 [] (bs "GET")
    (with_cookie (bs "none")) {| u_authority := []; u_path := bs "/secret"; u_query := None |} (Some (bs "ops.example.com")) eq_refl) as H.
  assert (E : ask_gate (guarded [MBasic [bs "a:b"]] false) (bs "none") (bs "/secret") = Deny (Challenge None)) by (vm_compute; reflexivity).
  unfold ask_gate in E. rewrite E in H. split_and!; [exact E|vm_compute; reflexivity|apply H].
Defined.

(** A gate that asks for an Aperio sign-in refuses the session of the visitor
    password, and before a path with dot segments it takes it. *)
Example traversal_weakens_aperio_gate :
  let st := guarded [MBasic [bs "a:b"]] false in
  ask_gate st (bs "t1") (bs "/secret") = Deny (Challenge None)
  ∧ ask_gate st (bs "t1") (bs "/x/../secret") = Allow (Some (identified BySession None false)).
Proof. vm_compute. auto. Qed.

End Samples.
