(* ===== verification/Totp.v ===== *)
(** One-time codes, [aperio-server/src/totp.rs]: base32, the codes of a secret and
    the check of one.

    HMAC-SHA1 is a parameter, a digest of twenty bytes. A [u64] that shifts left
    drops its high bits, written out as [mod 2^64]. *)

From S2P Require Import Prelude Binds VisitorAuth.

Definition STEP_SECS : Z := 30.
Definition DIGITS : Z := 6.
Definition SKEW_STEPS : Z := 1.

Definition BASE32_ALPHABET : str := bs "ABCDEFGHIJKLMNOPQRSTUVWXYZ234567".

(** ** base32 *)

(** [data.chunks(5)] *)
Fixpoint chunks5 (data : str) : list str :=
  match data with
  | a :: b :: c :: d :: e :: rest => [a; b; c; d; e] :: chunks5 rest
  | [] => []
  | _ => [data]
  end.

Definition div_ceil (a b : Z) : Z := (a + b - 1) / b.

Definition base32_char (v : Z) : ascii := nth (Z.to_nat v) BASE32_ALPHABET "A"%char.

Definition byte_at (chunk : str) (i : nat) : Z := match chunk !! i with Some a => code a | None => 0 end.

Definition encode_chunk (chunk : str) : str :=
  let bits := Z.lor (Z.lor (Z.lor (Z.lor (Z.shiftl (byte_at chunk 0) 32) (Z.shiftl (byte_at chunk 1) 24))
                                  (Z.shiftl (byte_at chunk 2) 16)) (Z.shiftl (byte_at chunk 3) 8)) (byte_at chunk 4) in
  let out_chars := div_ceil (len chunk * 8) 5 in
  (fun i => base32_char (Z.land (Z.shiftr bits (35 - 5 * Z.of_nat i)) 31)) <$> seq 0 (Z.to_nat out_chars).

Definition base32_encode (data : str) : str := concat (encode_chunk <$> chunks5 data).

(** [iter().position] *)
Fixpoint position (c : ascii) (l : str) : option Z :=
  match l with
  | [] => None
  | a :: rest => if decide (a = c) then Some 0 else Z.succ <$> position c rest
  end.

Fixpoint decode_loop (s : str) (bits nbits : Z) (out : str) : option str :=
  match s with
  | [] => Some out
  | c :: rest =>
      match position (upper1 c) BASE32_ALPHABET with
      | None => None
      | Some v =>
          let bits := Z.lor (Z.shiftl bits 5 mod 2 ^ 64) v in
          let nbits := nbits + 5 in
          if 8 <=? nbits then
            let nbits := nbits - 8 in
            decode_loop rest bits nbits (out ++ [chr (Z.land (Z.shiftr bits nbits) 255)])
          else decode_loop rest bits nbits out
      end
  end.

Definition base32_decode (s : str) : option str := decode_loop (trim_end_char "="%char s) 0 0 [].

(** ** Codes *)

Section Codes.
Context (hmac_sha1 : str → str → str).

(** [counter.to_be_bytes()] *)
Definition be_bytes (counter : Z) : str :=
  (fun i => chr (Z.land (Z.shiftr counter (56 - 8 * Z.of_nat i)) 255)) <$> seq 0 8.

Definition code_at (secret : str) (counter : Z) : Z :=
  let digest := hmac_sha1 secret (be_bytes counter) in
  let offset := Z.to_nat (Z.land (byte_at digest 19) 15) in
  let bin := Z.lor (Z.lor (Z.lor (Z.shiftl (Z.land (byte_at digest offset) 127) 24)
                                 (Z.shiftl (byte_at digest (offset + 1)) 16))
                          (Z.shiftl (byte_at digest (offset + 2)) 8)) (byte_at digest (offset + 3)) in
  bin mod 10 ^ DIGITS.

(** The window, oldest first; the last step that matches is the one reported. *)
Definition window (step : Z) : list Z := [step - SKEW_STEPS; step; step + SKEW_STEPS].

Definition verify_step (secret_b32 code : str) (now_secs : Z) : option Z :=
  let code := trim code in
  if negb (len code =? DIGITS) || negb (forallb is_digit code) then None
  else match base32_decode secret_b32 with
       | None => None
       | Some secret =>
           if str_eqb secret [] then None
           else match parse_uint (2 ^ 32 - 1) code with
                | None => None
                | Some entered =>
                    let step := now_secs / STEP_SECS in
                    let '(found, hit) := fold_left (fun acc counter =>
                      if counter <? 0 then acc
                      else if code_at secret counter =? entered then (true, counter) else acc)
                      (window step) (false, 0) in
                    if found : bool then Some hit else None
                end
       end.

Definition verify_totp (secret_b32 code : str) (now_secs : Z) : bool :=
  is_some (verify_step secret_b32 code now_secs).

End Codes.

Definition url_plain (b : ascii) : bool :=
  is_alnum b || bool_decide (b = "-"%char) || bool_decide (b = "_"%char) || bool_decide (b = "."%char).

Definition hex_digit_upper (d : Z) : ascii := if d <? 10 then chr (48 + d) else chr (55 + d).

Definition percent_byte (b : ascii) : str :=
  if url_plain b then [b] else ["%"%char; hex_digit_upper (code b / 16); hex_digit_upper (code b mod 16)].

Definition otpauth_url (username secret_b32 : str) : str :=
  bs "otpauth://totp/Aperio:" ++ concat (percent_byte <$> username) ++ bs "?secret=" ++ secret_b32
  ++ bs "&issuer=Aperio&algorithm=SHA1&digits=6&period=30".

Section Recovery.
Context (sha256 : str → str).

Definition hash_recovery_code (code : str) : str := concat (hex_byte <$> sha256 (trim code)).

(** The random bytes are an argument. *)
Definition generate_recovery_codes (random : list str) : list str * list str :=
  let codes := (fun bytes => take 10 (lower (base32_encode bytes))) <$> random in
  (codes, hash_recovery_code <$> codes).

End Recovery.

(** ** Decoding what was encoded *)

Lemma position_char v : 0 <= v < 32 → position (upper1 (base32_char v)) BASE32_ALPHABET = Some v.
Proof.
  intros H. assert (Hall : Forall (fun n => position (upper1 (base32_char (Z.of_nat n))) BASE32_ALPHABET = Some (Z.of_nat n)) (seq 0 32))
    by (apply (bool_decide_unpack _); vm_compute; done).
  rewrite Forall_forall in Hall. specialize (Hall (Z.to_nat v)). rewrite Z2Nat.id in Hall by lia. apply Hall.
  apply elem_of_seq. lia.
Qed.

Lemma base32_char_ne v : 0 <= v < 32 → base32_char v ≠ "="%char.
Proof. intros H E. apply position_char in H. rewrite E in H. vm_compute in H. done. Qed.

(** The decoder on values: what is left of the register is its last bits. *)
Fixpoint decode_values (vs : list Z) (r n : Z) (out : str) : str :=
  match vs with
  | [] => out
  | v :: rest =>
      let x := r * 32 + v in
      if 8 <=? n + 5 then decode_values rest (x mod 2 ^ (n - 3)) (n - 3) (out ++ [chr (x / 2 ^ (n - 3))])
      else decode_values rest x (n + 5) out
  end.

Lemma lor_high a k b : 0 <= k → 0 <= b < 2 ^ k → Z.lor (Z.shiftl a k) b = a * 2 ^ k + b.
Proof.
  intros Hk Hb. pose proof (Z.add_lor_land (Z.shiftl a k) b) as Hor.
  assert (Hz : Z.land (Z.shiftl a k) b = 0).
  { destruct (decide (b = 0)) as [->|]; [apply Z.land_0_r|].
    apply Z.bits_inj'. intros i Hi. rewrite Z.land_spec, Z.bits_0. destruct (Z.ltb_spec i k).
    - by rewrite Z.shiftl_spec_low.
    - rewrite (Z.bits_above_log2 b i), andb_false_r; [done|lia|]. apply Z.log2_lt_pow2; [lia|].
      apply Z.lt_le_trans with (2 ^ k); [lia|]. apply Z.pow_le_mono_r; lia. }
  rewrite Hz, Z.add_0_r in Hor. by rewrite Hor, Z.shiftl_mul_pow2 by lia.
Qed.

Lemma lor_shift5 y v : 0 <= v < 32 → Z.lor (Z.shiftl y 5 mod 2 ^ 64) v = 32 * (y mod 2 ^ 59) + v.
Proof.
  intros Hv. assert (Z.shiftl y 5 mod 2 ^ 64 = Z.shiftl (y mod 2 ^ 59) 5) as ->.
  { rewrite !Z.shiftl_mul_pow2 by lia. change (2 ^ 64) with (2 ^ 59 * 2 ^ 5). by rewrite Z.mul_mod_distr_r by lia. }
  rewrite lor_high; [lia|lia|simpl; lia].
Qed.

Lemma decode_loop_values vs bits n out :
  Forall (fun v => 0 <= v < 32) vs → 0 <= n < 8 →
  decode_loop (base32_char <$> vs) bits n out = Some (decode_values vs (bits mod 2 ^ n) n out).
Proof.
  intros Hvs. revert bits n out. induction Hvs as [|v vs Hv _ IH]; intros bits n out Hn; [done|].
  rewrite fmap_cons. cbn [decode_loop decode_values]. rewrite position_char, lor_shift5 by done.
  set (b := 32 * (bits mod 2 ^ 59) + v). set (r := bits mod 2 ^ n).
  assert (Hb : b mod 2 ^ (n + 5) = r * 32 + v).
  { unfold b, r. assert (n = 0 ∨ n = 1 ∨ n = 2 ∨ n = 3 ∨ n = 4 ∨ n = 5 ∨ n = 6 ∨ n = 7) as Hc by lia.
    destruct Hc as [->|[->|[->|[->|[->|[->|[->| ->]]]]]]]; simpl; Z.div_mod_to_equations; lia. }
  destruct (Z.leb_spec 8 (n + 5)) as [Hge|Hlt].
  - rewrite IH by lia. replace (n + 5 - 8) with (n - 3) by lia.
    assert (Hm : b mod 2 ^ (n - 3) = (r * 32 + v) mod 2 ^ (n - 3) ∧ Z.land (Z.shiftr b (n - 3)) 255 = (r * 32 + v) / 2 ^ (n - 3)).
    { rewrite <- Hb. change 255 with (Z.ones 8). rewrite Z.land_ones, Z.shiftr_div_pow2 by lia.
      assert (n = 3 ∨ n = 4 ∨ n = 5 ∨ n = 6 ∨ n = 7) as Hc by lia. clear Hb.
      destruct Hc as [->|[->|[->|[->| ->]]]]; simpl; split; Z.div_mod_to_equations; lia. }
    destruct Hm as [-> ->]. done.
  - rewrite IH by lia. by rewrite Hb.
Qed.

(** The forty bits of a chunk. *)
Lemma chunk_bits b0 b1 b2 b3 b4 :
  0 <= b1 < 256 → 0 <= b2 < 256 → 0 <= b3 < 256 → 0 <= b4 < 256 →
  Z.lor (Z.lor (Z.lor (Z.lor (Z.shiftl b0 32) (Z.shiftl b1 24)) (Z.shiftl b2 16)) (Z.shiftl b3 8)) b4
  = (((b0 * 256 + b1) * 256 + b2) * 256 + b3) * 256 + b4.
Proof.
  intros H1 H2 H3 H4.
  assert (Hs : ∀ x k b, 0 <= k → 0 <= b < 256 → Z.lor (Z.shiftl x (k + 8)) (Z.shiftl b k) = Z.shiftl (x * 256 + b) k).
  { intros x k b Hk Hb. pose proof (Z.pow_pos_nonneg 2 k ltac:(lia) Hk) as Hp.
    rewrite lor_high, !Z.shiftl_mul_pow2 by (rewrite ?Z.shiftl_mul_pow2, ?Z.pow_add_r by lia; nia).
    rewrite Z.pow_add_r by lia. lia. }
  change 32 with (24 + 8). rewrite (Hs b0 24 b1) by lia. change 24 with (16 + 8). rewrite (Hs _ 16 b2) by lia.
  change 16 with (8 + 8). rewrite (Hs _ 8 b3) by lia. by rewrite lor_high by (simpl; lia).
Qed.

Definition chunk_value (chunk : str) (i : nat) : Z :=
  let b := byte_at chunk in
  (((((b 0%nat * 256 + b 1%nat) * 256 + b 2%nat) * 256 + b 3%nat) * 256 + b 4%nat) / 2 ^ (35 - 5 * Z.of_nat i)) mod 32.

Lemma byte_at_range chunk i : 0 <= byte_at chunk i < 256.
Proof. unfold byte_at. destruct (chunk !! i); [apply code_range|lia]. Qed.

Lemma encode_chunk_values chunk :
  (length chunk <= 5)%nat →
  encode_chunk chunk = base32_char <$> (chunk_value chunk <$> seq 0 (Z.to_nat (div_ceil (len chunk * 8) 5))).
Proof.
  intros Hl. unfold encode_chunk. rewrite <- list_fmap_compose. apply Forall_fmap_ext_1, Forall_forall. intros i Hi.
  apply elem_of_seq in Hi. rewrite chunk_bits by apply byte_at_range. simpl. unfold chunk_value. f_equal.
  change 31 with (Z.ones 5). rewrite Z.land_ones by lia. f_equal. apply Z.shiftr_div_pow2.
  unfold len, div_ceil in Hi. Z.div_mod_to_equations. lia.
Qed.

(** The values of a chunk, by its bytes. *)
Definition five_bits (b0 b1 b2 b3 b4 : Z) : list Z :=
  [b0 / 8; (b0 mod 8) * 4 + b1 / 64; (b1 / 2) mod 32; (b1 mod 2) * 16 + b2 / 16;
   (b2 mod 16) * 2 + b3 / 128; (b3 / 4) mod 32; (b3 mod 4) * 8 + b4 / 32; b4 mod 32].

Lemma chunk_values chunk :
  chunk_value chunk <$> seq 0 8
  = five_bits (byte_at chunk 0) (byte_at chunk 1) (byte_at chunk 2) (byte_at chunk 3) (byte_at chunk 4).
Proof.
  unfold chunk_value. cbn [fmap list_fmap seq].
  pose proof (byte_at_range chunk 0) as H0. pose proof (byte_at_range chunk 1) as H1.
  pose proof (byte_at_range chunk 2) as H2. pose proof (byte_at_range chunk 3) as H3.
  pose proof (byte_at_range chunk 4) as H4.
  generalize dependent (byte_at chunk 4). generalize dependent (byte_at chunk 3). generalize dependent (byte_at chunk 2).
  generalize dependent (byte_at chunk 1). generalize dependent (byte_at chunk 0). intros b0 H0 b1 H1 b2 H2 b3 H3 b4 H4.
  unfold five_bits. repeat (apply (f_equal2 cons); [simpl; Z.div_mod_to_equations; lia|]). done.
Qed.

Ltac decode_pair rest out X d n :=
  transitivity (decode_values rest (X mod d) n (out ++ [chr (X / d)])); [reflexivity|];
  apply (f_equal2 (fun r o => decode_values rest r n o)); [Z.div_mod_to_equations; lia|];
  do 3 f_equal; Z.div_mod_to_equations; lia.

Lemma decode_b0 b0 b1 rest out :
  0 <= b0 < 256 → 0 <= b1 < 256 →
  decode_values (b0 / 8 :: (b0 mod 8) * 4 + b1 / 64 :: rest) 0 0 out = decode_values rest (b1 / 64) 2 (out ++ [chr b0]).
Proof. intros. decode_pair rest out ((0 * 32 + b0 / 8) * 32 + ((b0 mod 8) * 4 + b1 / 64)) 4 2. Qed.

Lemma decode_b1 b1 b2 rest out :
  0 <= b1 < 256 → 0 <= b2 < 256 →
  decode_values ((b1 / 2) mod 32 :: (b1 mod 2) * 16 + b2 / 16 :: rest) (b1 / 64) 2 out
  = decode_values rest (b2 / 16) 4 (out ++ [chr b1]).
Proof. intros. decode_pair rest out ((b1 / 64 * 32 + (b1 / 2) mod 32) * 32 + ((b1 mod 2) * 16 + b2 / 16)) 16 4. Qed.

Lemma decode_b2 b2 b3 rest out :
  0 <= b2 < 256 → 0 <= b3 < 256 →
  decode_values ((b2 mod 16) * 2 + b3 / 128 :: rest) (b2 / 16) 4 out = decode_values rest (b3 / 128) 1 (out ++ [chr b2]).
Proof. intros. decode_pair rest out (b2 / 16 * 32 + ((b2 mod 16) * 2 + b3 / 128)) 2 1. Qed.

Lemma decode_b3 b3 b4 rest out :
  0 <= b3 < 256 → 0 <= b4 < 256 →
  decode_values ((b3 / 4) mod 32 :: (b3 mod 4) * 8 + b4 / 32 :: rest) (b3 / 128) 1 out
  = decode_values rest (b4 / 32) 3 (out ++ [chr b3]).
Proof. intros. decode_pair rest out ((b3 / 128 * 32 + (b3 / 4) mod 32) * 32 + ((b3 mod 4) * 8 + b4 / 32)) 8 3. Qed.

Lemma decode_b4 b4 rest out :
  0 <= b4 < 256 →
  decode_values (b4 mod 32 :: rest) (b4 / 32) 3 out = decode_values rest 0 0 (out ++ [chr b4]).
Proof. intros. decode_pair rest out (b4 / 32 * 32 + b4 mod 32) 1 0. Qed.

(** A chunk decodes to itself; a short one ends the text. *)
Lemma decode_chunk chunk rest out :
  (0 < length chunk <= 5)%nat → (length chunk = 5%nat ∨ rest = []) →
  decode_values ((chunk_value chunk <$> seq 0 (Z.to_nat (div_ceil (len chunk * 8) 5))) ++ rest) 0 0 out
  = decode_values rest 0 0 (out ++ chunk).
Proof.
  intros Hl Hr. set (k := Z.to_nat (div_ceil (len chunk * 8) 5)).
  assert (Hk : chunk_value chunk <$> seq 0 k = take k (five_bits (byte_at chunk 0) (byte_at chunk 1) (byte_at chunk 2)
                 (byte_at chunk 3) (byte_at chunk 4))).
  { rewrite <- chunk_values, <- fmap_take. f_equal. rewrite take_seq. f_equal.
    unfold k, len, div_ceil. Z.div_mod_to_equations. lia. }
  rewrite Hk. clear Hk.
  assert (Hc : ∀ a, 0 <= code a < 256) by apply code_range. assert (Hz : 0 <= 0 < 256) by lia.
  assert (Hch : ∀ a, chr (code a) = a) by (intros a; apply code_inj; by rewrite code_chr).
  destruct chunk as [|a [|b [|c [|d [|e [|]]]]]]; cbn [length] in Hl, Hr; try lia;
    try (destruct Hr as [|Hr]; [lia|subst rest]);
    [change k with 2%nat|change k with 4%nat|change k with 5%nat|change k with 7%nat|change k with 8%nat];
    unfold five_bits, byte_at; cbn [lookup list_lookup take app];
    rewrite decode_b0, ?decode_b1, ?decode_b2, ?decode_b3, ?decode_b4 by done; rewrite ?Hch, <- ?app_assoc; done.
Qed.

Lemma chunk_value_range chunk i : 0 <= chunk_value chunk i < 32.
Proof. unfold chunk_value. apply Z.mod_pos_bound. lia. Qed.

Definition data_values (data : str) : list Z :=
  chunks5 data ≫= fun chunk => chunk_value chunk <$> seq 0 (Z.to_nat (div_ceil (len chunk * 8) 5)).

Lemma chunks5_ind (P : str → Prop) :
  P [] → (∀ chunk, (0 < length chunk < 5)%nat → P chunk) →
  (∀ a b c d e rest, P rest → P (a :: b :: c :: d :: e :: rest)) → ∀ data, P data.
Proof.
  intros H0 Hs H5 data. induction data as [data IH] using (induction_ltof1 _ (@length ascii)). unfold ltof in IH.
  destruct data as [|a [|b [|c [|d [|e rest]]]]]; [done|apply Hs; simpl; lia..|]. apply H5, IH. simpl. lia.
Qed.

Lemma encode_values data :
  base32_encode data = base32_char <$> data_values data ∧ Forall (fun v => 0 <= v < 32) (data_values data).
Proof.
  unfold base32_encode, data_values. assert (Hall : Forall (fun c => (length c <= 5)%nat) (chunks5 data)).
  { induction data as [|chunk Hc|a b c d e rest IH] using chunks5_ind; [constructor| |constructor; [simpl; lia|done]].
    destruct chunk as [|a [|b [|c [|d [|e rest]]]]]; simpl in *; try lia; by repeat constructor. }
  induction Hall as [|chunk cs Hc _ [IH1 IH2]]; [done|]. cbn. split.
  - rewrite fmap_app. f_equal; [by apply encode_chunk_values|done].
  - apply Forall_app. split; [|done]. apply Forall_fmap, Forall_forall. intros i _. apply chunk_value_range.
Qed.

Lemma decode_data data out : decode_values (data_values data) 0 0 out = out ++ data.
Proof.
  unfold data_values. revert out. induction data as [|chunk Hc|a b c d e rest IH] using chunks5_ind; intros out.
  - by rewrite app_nil_r.
  - assert (chunks5 chunk = [chunk]) as -> by (destruct chunk as [|a [|b [|c [|d [|e r]]]]]; simpl in *; try lia; done).
    cbn [mbind list_bind]. rewrite decode_chunk; [done|lia|by right].
  - change (chunks5 (a :: b :: c :: d :: e :: rest)) with ([a; b; c; d; e] :: chunks5 rest). cbn [mbind list_bind].
    rewrite decode_chunk, IH by (simpl; auto; lia). by rewrite <- app_assoc.
Qed.

Lemma upper1_lower1 a : upper1 (lower1 a) = upper1 a.
Proof. by destruct a as [[] [] [] [] [] [] [] []]. Qed.

(** base32 loses nothing. Every byte string decodes to itself after encoding,
    whatever the length of its last chunk, and in either case of letters and with
    any padding after it. *)
Theorem base32_roundtrip data pad :
  base32_decode (base32_encode data ++ repeat "="%char pad) = Some data
  ∧ base32_decode (lower (base32_encode data) ++ repeat "="%char pad) = Some data.
Proof.
  destruct (encode_values data) as [He Hv].
  assert (Hp : ∀ s, Forall (fun a => a ≠ "="%char) s → trim_end_char "="%char (s ++ repeat "="%char pad) = s).
  { intros s Hs. unfold trim_end_char, trim_end_by. rewrite rev_app_distr.
    assert (Hr : rev (repeat "="%char pad) = repeat "="%char pad) by apply rev_repeat. rewrite Hr.
    assert (Hd : trim_start_by (is_char "="%char) (repeat "="%char pad ++ rev s) = trim_start_by (is_char "="%char) (rev s)).
    { clear. induction pad as [|n IH]; [done|]. exact IH. }
    rewrite Hd, trim_start_by_id; [apply rev_involutive|]. intros a r Hr'. unfold is_char.
    apply bool_decide_eq_false. rewrite Forall_forall in Hs. apply Hs. apply list_elem_of_In, in_rev. rewrite Hr'. by left. }
  unfold base32_decode. rewrite He. split.
  - rewrite Hp; [|apply Forall_fmap; eapply Forall_impl; [exact Hv|]; intros v; apply base32_char_ne].
    rewrite decode_loop_values by (done || lia). by rewrite Z.mod_1_r, decode_data.
  - assert (Hl : ∀ s b n out, decode_loop (lower s) b n out = decode_loop s b n out).
    { induction s as [|a s IH]; intros b n out; [done|].
      unfold lower. rewrite fmap_cons. fold (lower s). cbn [decode_loop]. rewrite upper1_lower1.
      destruct (position (upper1 a) BASE32_ALPHABET); [|done]. destruct (8 <=? n + 5); apply IH. }
    rewrite Hp, Hl.
    + rewrite decode_loop_values by (done || lia). by rewrite Z.mod_1_r, decode_data.
    + apply Forall_fmap, Forall_fmap. eapply Forall_impl; [exact Hv|]. intros v Hv' E. simpl in E.
      rewrite lower1_fixed in E by done. by apply base32_char_ne in E.
Qed.

(** ** The window *)

Section Window.
Context (hmac_sha1 : str → str → str).

(** The six digits an authenticator shows for a step. *)
Fixpoint digits_of (k : nat) (n : Z) : str :=
  match k with O => [] | S k' => digits_of k' (n / 10) ++ [digit_chr (n mod 10)] end.

Definition shown_code (secret : str) (counter : Z) : str := digits_of 6 (code_at hmac_sha1 secret counter).

Lemma digits_of_spec k n :
  0 <= n < 10 ^ Z.of_nat k →
  length (digits_of k n) = k ∧ forallb is_digit (digits_of k n) = true ∧ digits_val 0 (digits_of k n) = n.
Proof.
  revert n. induction k as [|k IH]; intros n Hn; [simpl in *; split_and!; [done|done|lia]|].
  rewrite Nat2Z.inj_succ, Z.pow_succ_r in Hn by lia.
  destruct (IH (n / 10)) as (Hl & Hd & Hv); [split; [apply Z.div_pos; lia|apply Z.div_lt_upper_bound; lia]|].
  destruct (digit_chr_spec (n mod 10)) as [Hc Hcv]; [apply Z.mod_pos_bound; lia|]. cbn [digits_of]. split_and!.
  - rewrite length_app. simpl. lia.
  - rewrite forallb_app, Hd. simpl. by rewrite Hc.
  - rewrite digits_val_app, Hv. simpl. rewrite Hcv. Z.div_mod_to_equations. lia.
Qed.

Lemma code_at_range secret counter : 0 <= code_at hmac_sha1 secret counter < 10 ^ 6.
Proof. unfold code_at, DIGITS. apply Z.mod_pos_bound. lia. Qed.

Lemma digits_graphic s : forallb is_digit s = true → Forall (fun a => graphic a = true) s.
Proof.
  rewrite forallb_Forall. intros H. eapply Forall_impl; [exact H|]. intros a. unfold is_digit, graphic. intros. to_prop.
  apply andb_true_intro. split; lia.
Qed.

(** The loop keeps the last step of the window that matches. *)
Definition window_hit (secret : str) (entered : Z) (steps : list Z) : option Z :=
  last (filter (fun c => 0 <= c ∧ code_at hmac_sha1 secret c = entered) steps).

Lemma window_loop secret entered steps :
  let '(found, hit) := fold_left (fun acc counter =>
      if counter <? 0 then acc
      else if code_at hmac_sha1 secret counter =? entered then (true, counter) else acc) steps (false, 0) in
  (if found then Some hit else None) = window_hit secret entered steps.
Proof.
  unfold window_hit. induction steps as [|c steps IH] using rev_ind; [done|].
  rewrite fold_left_app, filter_app, filter_cons. cbn [fold_left]. destruct (fold_left _ steps (false, 0)) as [found hit].
  destruct (Z.ltb_spec c 0).
  - rewrite decide_False by lia. by rewrite filter_nil, app_nil_r.
  - destruct (Z.eqb_spec (code_at hmac_sha1 secret c) entered).
    + rewrite decide_True by done. by rewrite filter_nil, last_snoc.
    + rewrite decide_False by naive_solver. by rewrite filter_nil, app_nil_r.
Qed.

Lemma verify_step_shown secret_b32 secret entered now :
  base32_decode secret_b32 = Some secret → secret ≠ [] →
  0 <= entered < 10 ^ 6 →
  verify_step hmac_sha1 secret_b32 (digits_of 6 entered) now = window_hit secret entered (window (now / STEP_SECS)).
Proof.
  intros Hd Hne He. destruct (digits_of_spec 6 entered) as (Hl & Hdig & Hv); [done|].
  unfold verify_step. rewrite (trim_graphic (digits_of 6 entered)) by by apply digits_graphic.
  assert (len (digits_of 6 entered) = 6) as -> by (unfold len; by rewrite Hl). rewrite Hdig. cbn [negb orb Z.eqb DIGITS].
  rewrite Hd. assert (str_eqb secret [] = false) as -> by (apply not_true_is_false; by intros ?%str_eqb_eq).
  rewrite parse_digits; [|by destruct (digits_of 6 entered)|done|lia]. rewrite Hv.
  pose proof (window_loop secret entered (window (now / STEP_SECS))) as Hw.
  by destruct (fold_left _ _ _) as [found hit].
Qed.

(** A second factor is what the authenticator shows, within a step. A code
    accepted at a time is six digits, the code of the step it is reported under,
    which is the current step or a neighbour; and the code shown at any of the
    three is accepted, under that step or a later one of the window, so that a
    code never counts as older than it is. *)
Theorem totp_window secret_b32 secret now :
  base32_decode secret_b32 = Some secret → secret ≠ [] →
  (∀ code c, verify_step hmac_sha1 secret_b32 code now = Some c →
     0 <= c ∧ Z.abs (c - now / STEP_SECS) <= 1 ∧ len (trim code) = 6
     ∧ digits_val 0 (trim code) = code_at hmac_sha1 secret c)
  ∧ (∀ c, 0 <= c → Z.abs (c - now / STEP_SECS) <= 1 →
     ∃ c', verify_step hmac_sha1 secret_b32 (shown_code secret c) now = Some c' ∧ c <= c' <= now / STEP_SECS + 1).
Proof.
  intros Hd Hne. split.
  - intros code c. unfold verify_step. destruct (_ || _) eqn:E; [done|]. apply orb_false_elim in E as [E1 E2].
    apply negb_false_iff in E1, E2. unfold DIGITS in E1. to_prop.
    rewrite Hd. destruct (str_eqb secret []); [done|]. destruct (parse_uint _ _) as [entered|] eqn:Ep; [|done].
    pose proof (window_loop secret entered (window (now / STEP_SECS))) as Hw.
    destruct (fold_left _ _ _) as [found hit]. rewrite Hw. unfold window_hit. intros Hl.
    apply last_Some_elem_of, list_elem_of_filter in Hl as [[Hc Hcode] Hin].
    assert (Hv : entered = digits_val 0 (trim code)).
    { assert (trim code ≠ []) by (intros Hz; rewrite Hz in E1; done).
      pose proof (parse_uint_range _ _ _ Ep) as Hr. unfold parse_uint in Ep.
      destruct (trim code) as [|a s]; [done|]. rewrite decide_False in Ep by (apply is_digit_not_plus; simpl in E2; by to_prop).
      rewrite E2 in Ep. simpl in Ep. destruct (_ <=? _); [|done]. by injection Ep. }
    split_and!; [done| |done|congruence]. unfold window, SKEW_STEPS in Hin. rewrite !elem_of_cons, elem_of_nil in Hin. lia.
  - intros c Hc Hw. unfold shown_code. rewrite (verify_step_shown _ secret) by (done || apply code_at_range).
    unfold window_hit, window, SKEW_STEPS. set (n := now / STEP_SECS) in *.
    set (P := fun x => 0 <= x ∧ code_at hmac_sha1 secret x = code_at hmac_sha1 secret c).
    assert (HP : P c) by done. rewrite !filter_cons, filter_nil.
    assert (c = n - 1 ∨ c = n ∨ c = n + 1) as Hcase by lia.
    destruct (decide (P (n + 1))) as [H3|H3].
    + exists (n + 1). split; [by repeat case_decide|lia].
    + destruct (decide (P n)) as [H2|H2].
      * exists n. split; [by repeat case_decide|]. split; [|lia]. destruct Hcase as [->|[->| ->]]; [lia|lia|done].
      * exists (n - 1). destruct Hcase as [->|[->| ->]]; [|done|done]. rewrite decide_True by done. split; [done|lia].
Qed.

End Window.

(** RFC 4648, section 10. *)
Example base32_vectors :
  base32_encode (bs "foobar") = bs "MZXW6YTBOI" ∧ base32_encode (bs "fo") = bs "MZXQ"
  ∧ base32_decode (bs "mzxw6===") = Some (bs "foo") ∧ base32_decode (bs "MZ1") = None.
Proof. vm_compute. auto. Qed.

Definition echo_hmac (key message : str) : str := repeat "0"%char 12 ++ message.

Lemma totp_window_witness :
  ∃ c', verify_step echo_hmac (bs "MZXW6") (shown_code echo_hmac (bs "foo") 4) 150 = Some c' ∧ 4 <= c' <= 150 / STEP_SECS + 1.
Proof.
  apply (totp_window echo_hmac (bs "MZXW6") (bs "foo") 150); [vm_compute; reflexivity|done|lia|vm_compute; done].
Defined.
