(* ===== verification/Login.v ===== *)
(** Signing in with a password, [aperio-server/src/auth.rs]: the lockout of an
    address that keeps failing, which hostname admits whom ([state.rs],
    [login_admits]), and the login form, with the session each credential mints.

    Argon2 and base64 are parameters, the second factor is [Totp]'s, and the cost
    of an attempt in the rate limiter ([RateLimit]) is an argument. Times are in
    nanoseconds for the lockout and in seconds for sessions. *)

From S2P Require Import Prelude Binds IpNet Orgs VisitorAuth Clients Select Route Sites Grants Users Sessions Totp Share Gate.

(** ** Lockout *)

Record LoginFailures : Type := {
  lf_consecutive : Z;
  lf_lockouts : Z;
  lf_locked_until : option Z;
  lf_last_seen : Z;
}.

Record LockoutTracker : Type := {
  lt_threshold : Z;
  lt_base : Z;
  lt_map : list (ipaddr * LoginFailures);
}.

Definition SECOND : Z := 1000000000.
Definition LOCKOUT_MAX : Z := 3600 * SECOND.
Definition DAY : Z := 24 * 3600 * SECOND.

Definition new_tracker (threshold base : Z) : LockoutTracker :=
  {| lt_threshold := Z.max threshold 1; lt_base := Z.max base SECOND; lt_map := [] |}.

Definition set_policy (threshold base : Z) (t : LockoutTracker) : LockoutTracker :=
  {| lt_threshold := Z.max threshold 1; lt_base := Z.max base SECOND; lt_map := lt_map t |}.

Definition with_map (t : LockoutTracker) (m : list (ipaddr * LoginFailures)) : LockoutTracker :=
  {| lt_threshold := lt_threshold t; lt_base := lt_base t; lt_map := m |}.

Definition locked (ip : ipaddr) (now : Z) (t : LockoutTracker) : option Z * LockoutTracker :=
  match aget ip (lt_map t) with
  | None => (None, t)
  | Some e =>
      match lf_locked_until e with
      | Some until =>
          if now <? until then (Some (until - now), t)
          else (None, with_map t (aset ip {| lf_consecutive := 0; lf_lockouts := lf_lockouts e;
                                             lf_locked_until := None; lf_last_seen := lf_last_seen e |} (lt_map t)))
      | None => (None, t)
      end
  end.

(** [now.duration_since(e.last_seen)] saturates at zero. *)
Definition gc (now : Z) (t : LockoutTracker) : LockoutTracker :=
  if 1024 <? Z.of_nat (length (lt_map t))
  then with_map t (filter (fun kv => sat_sub now (lf_last_seen kv.2) < DAY) (lt_map t))
  else t.

Definition record_failure (ip : ipaddr) (now : Z) (t : LockoutTracker) : option Z * LockoutTracker :=
  let t := gc now t in
  let e := default {| lf_consecutive := 0; lf_lockouts := 0; lf_locked_until := None; lf_last_seen := now |}
             (aget ip (lt_map t)) in
  let consecutive := lf_consecutive e + 1 in
  if consecutive <? lt_threshold t then
    (None, with_map t (aset ip {| lf_consecutive := consecutive; lf_lockouts := lf_lockouts e;
                                  lf_locked_until := lf_locked_until e; lf_last_seen := now |} (lt_map t)))
  else
    let lockouts := Z.min (lf_lockouts e + 1) (2 ^ 32 - 1) in
    let factor := Z.shiftl 1 (Z.min (lockouts - 1) 16) in
    let window := Z.min (lt_base t * factor) LOCKOUT_MAX in
    (Some window, with_map t (aset ip {| lf_consecutive := 0; lf_lockouts := lockouts;
                                         lf_locked_until := Some (now + window); lf_last_seen := now |} (lt_map t))).

Definition clear (ip : ipaddr) (t : LockoutTracker) : LockoutTracker := with_map t (aremove ip (lt_map t)).

(** ** Which hostname admits whom *)

Record PanelHosts : Type := {
  ph_dashboard : option str;
  ph_orgs : list (str * option str);
}.

Definition panel_org (p : PanelHosts) (host : option str) : option (option str) :=
  match host with
  | None => None
  | Some h =>
      if bool_decide (ph_dashboard p = Some h) then Some None
      else (fun o => Some o.1) <$> find (fun o => bool_decide (o.2 = Some h)) (ph_orgs p)
  end.

Definition org_serves_hostname (clients : list served_client) (org host : str) : bool :=
  existsb (fun c => bool_decide (sc_org c = Some org) && existsb (fun h => str_eqb h host) (sc_hostnames c)) clients.

Definition login_admits (p : PanelHosts) (st : AuthState) (host : option str) (grants : list Grant) : bool :=
  match panel_org p host with
  | Some (Some org) => is_some (role_in grants (Some org))
  | _ =>
      if negb (a_fenced_login st) || existsb (fun g => bool_decide (g_org g = All)) grants then true
      else match host with
           | None => is_some (role_in grants None)
           | Some h =>
               (existsb (fun g => bool_decide (g_org g = Master)) grants
                && org_may_act_on_hostname (a_fences st) (a_clients st) None h)
               || existsb (fun g =>
                    match g_org g with
                    | Child id =>
                        match find (fun f => str_eqb f.1 id) (a_fences st) with
                        | Some (_, fence) => bool_decide (fence = [])
                            || org_may_act_on_hostname (a_fences st) (a_clients st) (Some id) h
                            || org_serves_hostname (a_clients st) id h
                        | None => false
                        end
                    | _ => false
                    end) grants
           end
  end.

(** ** The form *)

Record LoginState (F Regex Tz : Type) : Type := {
  l_gate : GateState F Regex Tz;
  l_lockout : LockoutTracker;
  l_panels : PanelHosts;
}.
Arguments l_gate {F Regex Tz} l.
Arguments l_lockout {F Regex Tz} l.
Arguments l_panels {F Regex Tz} l.

(** One attempt: when, from where, with what. *)
Record Attempt : Type := {
  at_now : Z;
  at_instant : Z;
  at_ip : ipaddr;
  at_headers : headers;
  at_redirect : option str;
}.

Inductive LoginOutcome : Type := TooMany | TotpRequired | Unauthorized | SignedIn (token : str).

(** Whom a credential signed in. *)
Record Credential : Type := {
  cr_scope : option str;
  cr_plane : Plane;
  cr_username : option str;
  cr_role : Role;
}.

Definition built_in_admin : Credential := {| cr_scope := None; cr_plane := PAdmin; cr_username := None; cr_role := Admin |}.
Definition visitor (scope : option str) : Credential :=
  {| cr_scope := scope; cr_plane := PVisitor; cr_username := None; cr_role := Admin |}.

Definition login_host (hs : headers) : option str :=
  match header_str (bs "host") hs with
  | None => None
  | Some h => let host := lower (trim (hd [] (split_on colon h))) in if str_eqb host [] then None else Some host
  end.

Definition redirect_path (a : Attempt) : str :=
  match at_redirect a with Some r => safe_redirect_path r | None => bs "/" end.

Section Form.
Context (sha256 : str → str) (hmac_sha1 : str → str → str) (verify_password : str → str → bool).
(** [BASE64_STANDARD.decode], then [String::from_utf8]. *)
Context (decode_basic : str → option str).
Context {F Regex Tz : Type}.

(** The credentials of the route the visitor was heading to: a site's policy, else
    a client's, else a client's password. *)
Definition route_override (st : GateState F Regex Tz) (a : Attempt) : option Policy * option str :=
  let path := redirect_path a in
  let host := login_host (at_headers a) in
  if starts_with (bs "/aperio") path then (None, None)
  else match access_for (g_sites st) host (hd [] (split_on "?"%char path)) with
       | Some (SiteGate policy) => (Some policy, None)
       | _ => (route_visitor_policy (g_route st) (at_instant a) path host,
               route_visitor_auth (g_route st) (at_instant a) path host)
       end.

Inductive UserLogin : Type :=
| NotAUser
| CodeMissing
| UserIs (name : str) (role : Role).

(** A dashboard user's password and, when the account has one, second factor. *)
Definition user_login (ok : bool) (p : PanelHosts) (st : AuthState) (a : Attempt) (credential : str) :
    UserLogin * UserStore :=
  let us := a_users st in
  match split_once colon credential with
  | None => (NotAUser, us)
  | Some (username, password) =>
      match verify_user verify_password us username password with
      | None => (NotAUser, us)
      | Some u =>
          if negb (login_admits p st (request_host (at_headers a)) (u_grants u)) then (NotAUser, us)
          else match u_totp_secret u with
               | None => (UserIs (u_username u) (u_role u), us)
               | Some secret =>
                   let code := match header_str (bs "x-aperio-totp") (at_headers a) with
                               | Some v => trim v
                               | None => []
                               end in
                   if str_eqb code [] then (CodeMissing, us)
                   else
                     let '(passed, us') :=
                       match verify_step hmac_sha1 secret code (at_now a) with
                       | Some step => totp_try_advance_step ok (u_id u) step us
                       | None => consume_recovery (hash_recovery_code sha256) ok (u_id u) code us
                       end in
                     (if passed : bool then UserIs (u_username u) (u_role u) else NotAUser, us')
               end
      end
  end.

(** The credentials of a site behind Aperio: the route's own for this host, or the
    server's where the route has none. *)
Definition visitor_login (st : GateState F Regex Tz) (a : Attempt) (credential : str) : option Credential :=
  let '(policy, creds) := route_override st a in
  let by_route := match login_host (at_headers a) with
                  | None => None
                  | Some h =>
                      if match policy, creds with
                         | Some p, _ => admits_credential sha256 p credential
                         | None, Some c => constant_time_eq_str sha256 credential c
                         | None, None => false
                         end
                      then Some (visitor (Some h)) else None
                  end in
  match by_route with
  | Some c => Some c
  | None =>
      if negb (is_some creds) && negb (is_some policy) && admits_credential sha256 (g_policy st) credential
      then Some (visitor None) else None
  end.

Definition presented_basic (hs : headers) : option str :=
  match header_str (bs "authorization") hs with
  | Some v => credentials_for_scheme v (bs "Basic") ≫= decode_basic
  | None => None
  end.

Definition with_login_users (l : LoginState F Regex Tz) (us : UserStore) : LoginState F Regex Tz :=
  let g := l_gate l in
  let a := g_auth g in
  {| l_gate := {| g_auth := {| a_sessions := a_sessions a; a_users := us; a_keys := a_keys a;
                               a_secure_cookies := a_secure_cookies a; a_fenced_login := a_fenced_login a;
                               a_fences := a_fences a; a_clients := a_clients a |};
                  g_route := g_route g; g_sites := g_sites g; g_policy := g_policy g; g_deny := g_deny g;
                  g_token := g_token g |};
     l_lockout := l_lockout l; l_panels := l_panels l |}.

Definition with_lockout (l : LoginState F Regex Tz) (t : LockoutTracker) : LoginState F Regex Tz :=
  {| l_gate := l_gate l; l_lockout := t; l_panels := l_panels l |}.

Definition with_new_session (l : LoginState F Regex Tz) (s : SessionStore) : LoginState F Regex Tz :=
  let g := l_gate l in
  {| l_gate := {| g_auth := with_sessions (g_auth g) s; g_route := g_route g; g_sites := g_sites g;
                  g_policy := g_policy g; g_deny := g_deny g; g_token := g_token g |};
     l_lockout := l_lockout l; l_panels := l_panels l |}.

(** [Err] is a missing second factor, which is not a failure. *)
Definition check_credential (ok : bool) (l : LoginState F Regex Tz) (a : Attempt) :
    result (option Credential) unit * LoginState F Regex Tz :=
  match presented_basic (at_headers a) with
  | None => (Ok None, l)
  | Some credential =>
      if constant_time_eq_str sha256 credential (bs "aperio:" ++ g_token (l_gate l)) then (Ok (Some built_in_admin), l)
      else
        match user_login ok (l_panels l) (g_auth (l_gate l)) a credential with
        | (CodeMissing, us) => (Err tt, with_login_users l us)
        | (UserIs name role, us) =>
            (Ok (Some {| cr_scope := None; cr_plane := PAdmin; cr_username := Some name; cr_role := role |}),
             with_login_users l us)
        | (NotAUser, us) => (Ok (visitor_login (l_gate l) a credential), with_login_users l us)
        end
  end.

Definition session_user_agent (hs : headers) : option str :=
  match (fun v => take 256 (trim v)) <$> header_str (bs "user-agent") hs with
  | Some ua => if str_eqb ua [] then None else Some ua
  | None => None
  end.

Definition new_session (a : Attempt) (show_ip : ipaddr → str) (c : Credential) : SessionInfo :=
  {| si_expires_at := at_now a + 86400; si_created_at := at_now a; si_ip := Some (show_ip (at_ip a));
     si_user_agent := session_user_agent (at_headers a); si_plane := cr_plane c; si_scope_host := cr_scope c;
     si_username := cr_username c; si_role := cr_role c; si_selected_org := None; si_bound_org := None;
     si_login_host := request_host (at_headers a); si_sso_issuer := None |}.

(** [ok] of the write to the users, [ok_s] of the write to the sessions; [token] is fresh. *)
Definition auth_login_handler (show_ip : ipaddr → str) (within_rate ok ok_s : bool) (token : str)
    (l : LoginState F Regex Tz) (a : Attempt) : LoginOutcome * LoginState F Regex Tz :=
  if negb within_rate then (TooMany, l)
  else
    let '(lock, t) := locked (at_ip a) (at_instant a) (l_lockout l) in
    let l := with_lockout l t in
    match lock with
    | Some _ => (TooMany, l)
    | None =>
        match check_credential ok l a with
        | (Err _, l) => (TotpRequired, l)
        | (Ok None, l) => (Unauthorized, with_lockout l (record_failure (at_ip a) (at_instant a) (l_lockout l)).2)
        | (Ok (Some c), l) =>
            let l := with_lockout l (clear (at_ip a) (l_lockout l)) in
            (SignedIn token,
             with_new_session l (session_insert sha256 ok_s token (new_session a show_ip c) (a_sessions (g_auth (l_gate l)))))
        end
    end.

End Form.

(** ** How fast an address can guess *)

(** What an attempt does to the tracker: a failure that was let through, one that
    asks for a second factor, a success. *)
Inductive LoginEvent : Type :=
| LFail (ip : ipaddr)
| LTouch (ip : ipaddr)
| LClear (ip : ipaddr).

Definition event_ip (e : LoginEvent) : ipaddr := match e with LFail ip | LTouch ip | LClear ip => ip end.

(** The tracker after an event, and whether a credential was looked at and failed. *)
Definition login_event (now : Z) (e : LoginEvent) (t : LockoutTracker) : bool * LockoutTracker :=
  let '(lock, t) := locked (event_ip e) now t in
  match lock, e with
  | Some _, _ => (false, t)
  | None, LFail ip => (true, (record_failure ip now t).2)
  | None, LTouch _ => (false, t)
  | None, LClear ip => (false, clear ip t)
  end.

(** The guesses of [ip] that were looked at. *)
Fixpoint guesses (ip : ipaddr) (events : list (Z * LoginEvent)) (t : LockoutTracker) : Z :=
  match events with
  | [] => 0
  | (now, e) :: rest =>
      let '(looked, t') := login_event now e t in
      (if looked && bool_decide (event_ip e = ip) then 1 else 0) + guesses ip rest t'
  end.

Fixpoint in_time (now : Z) (events : list (Z * LoginEvent)) : Prop :=
  match events with [] => True | (t, _) :: rest => now <= t ∧ in_time t rest end.

Section Guessing.
Context (ip : ipaddr) (t0 threshold base : Z).
Context (Hthr : 1 <= threshold) (Hbase : SECOND <= base).

#[local] Abbreviation W := (Z.min base LOCKOUT_MAX).

(** [n] guesses were paid for with [k] lockouts. *)
Definition paid (now n : Z) (o : option LoginFailures) : Prop :=
  ∃ k, 0 <= k ∧
  match o with
  | None => n <= k * threshold ∧ t0 + k * W <= now
  | Some e =>
      n <= k * threshold + lf_consecutive e ∧ 0 <= lf_consecutive e < threshold ∧ 0 <= lf_lockouts e
      ∧ lf_last_seen e <= now ∧ t0 + k * W <= lf_last_seen e + LOCKOUT_MAX
      ∧ match lf_locked_until e with
        | Some u => lf_consecutive e = 0 ∧ t0 + k * W <= u ∧ t0 + (k - 1) * W <= lf_last_seen e ∧ u <= lf_last_seen e + LOCKOUT_MAX
        | None => t0 + k * W <= now
        end
  end.

Definition tracks (now n : Z) (t : LockoutTracker) : Prop :=
  lt_threshold t = threshold ∧ lt_base t = base ∧ NoDup (keys (lt_map t)) ∧ paid now n (aget ip (lt_map t)).

Lemma window_pos : 0 < W.
Proof. unfold LOCKOUT_MAX, SECOND in *. lia. Qed.

Lemma paid_later now now' n o : now <= now' → paid now n o → paid now' n o.
Proof.
  intros Hle (k & Hk & H). exists k. split; [done|]. destruct o as [e|]; [|lia].
  destruct H as (? & ? & ? & ? & ? & ?). split_and!; try done; try lia. destruct (lf_locked_until e); [done|lia].
Qed.

Lemma paid_bound now n o : t0 <= now → paid now n o → n <= threshold * (1 + (now - t0) / W).
Proof.
  intros Ht (k & Hk & H). pose proof window_pos.
  assert (Hd : ∀ j, t0 + j * W <= now → j <= (now - t0) / W) by (intros j Hj; apply Z.div_le_lower_bound; nia).
  destruct o as [e|].
  - destruct H as (Hn & Hc & _ & Hls & _ & Hl). destruct (lf_locked_until e) as [u|].
    + destruct Hl as (Hz & _ & Hp & _). specialize (Hd (k - 1) ltac:(lia)). nia.
    + specialize (Hd k Hl). nia.
  - destruct H as [Hn Hp]. specialize (Hd k Hp). nia.
Qed.

Lemma gc_tracks now n t : tracks now n t → tracks now n (gc now t).
Proof.
  intros (Ht & Hb & Hnd & Hp). unfold gc. destruct (_ <? _); [|done]. split_and!; [done|done|by apply NoDup_keys_filter|].
  simpl. rewrite aget_filter by done. destruct (aget ip (lt_map t)) as [e|]; [|done].
  case_decide as Hd; [done|]. simpl in Hd. destruct Hp as (k & Hk & Hn & Hc & _ & Hls & Hm & Hl).
  assert (Hday : lf_last_seen e + LOCKOUT_MAX + W <= now).
  { unfold sat_sub, DAY, LOCKOUT_MAX, SECOND in *. lia. }
  pose proof window_pos. destruct (lf_locked_until e) as [u|].
  - exists k. destruct Hl as (Hz & Hu & _ & Hm'). rewrite Hz in Hn. split_and!; lia.
  - exists (k + 1). split_and!; [lia|nia|lia].
Qed.

Lemma window_ge l : 0 <= l → W <= Z.min (base * Z.shiftl 1 (Z.min (Z.min (l + 1) (2 ^ 32 - 1) - 1) 16)) LOCKOUT_MAX.
Proof.
  intros Hl. rewrite Z.shiftl_mul_pow2, Z.mul_1_l by lia.
  assert (0 < 2 ^ Z.min (Z.min (l + 1) (2 ^ 32 - 1) - 1) 16) by (apply Z.pow_pos_nonneg; lia).
  unfold SECOND in *. nia.
Qed.

Lemma tracks_aset_other now n t ip' e :
  ip' ≠ ip → tracks now n t → tracks now n (with_map t (aset ip' e (lt_map t))).
Proof. intros Hne (Ht & Hb & Hnd & Hp). split_and!; [done|done|by apply NoDup_aset|]. simpl. by rewrite aget_aset_ne. Qed.

Lemma locked_tracks ip' now n t :
  tracks now n t →
  tracks now n (locked ip' now t).2
  ∧ ((locked ip' now t).1 = None → ip' = ip →
     match aget ip (lt_map (locked ip' now t).2) with Some e => lf_locked_until e = None | None => True end).
Proof.
  intros H. pose proof H as (Ht & Hb & Hnd & Hp). unfold locked.
  destruct (aget ip' (lt_map t)) as [e|] eqn:E; [|split; [done|]; intros _ ->; simpl; by rewrite E].
  destruct (lf_locked_until e) as [u|] eqn:Eu; [|split; [done|]; intros _ ->; simpl; by rewrite E].
  destruct (Z.ltb_spec now u); [done|]. cbn [fst snd]. destruct (decide (ip' = ip)) as [->|Hne].
  - split; [|intros _ _; simpl; by rewrite aget_aset_eq]. split_and!; [done|done|by apply NoDup_aset|].
    simpl. rewrite aget_aset_eq. rewrite E in Hp. destruct Hp as (k & Hk & Hn & Hc & Hlo & Hls & Hm & Hl).
    rewrite Eu in Hl. destruct Hl as (Hz & Hu & _). exists k. simpl. split_and!; try done; lia.
  - split; [by apply tracks_aset_other|done].
Qed.

Lemma failure_tracks now n t :
  tracks now n t → match aget ip (lt_map t) with Some e => lf_locked_until e = None | None => True end →
  tracks now (n + 1) (record_failure ip now t).2.
Proof.
  intros Htr Hun. assert (Hun' : match aget ip (lt_map (gc now t)) with Some e => lf_locked_until e = None | None => True end).
  { unfold gc. destruct (_ <? _); [|done]. simpl. rewrite aget_filter by apply Htr.
    destruct (aget ip (lt_map t)); [|done]. by case_decide. }
  apply gc_tracks in Htr as (Ht & Hb & Hnd & Hp). unfold record_failure. rewrite Ht, Hb.
  set (t1 := gc now t) in *. set (e := default _ (aget ip (lt_map t1))). pose proof window_pos as HW.
  assert (He : ∃ k, 0 <= k ∧ n <= k * threshold + lf_consecutive e ∧ 0 <= lf_consecutive e < threshold
                 ∧ 0 <= lf_lockouts e ∧ t0 + k * W <= now ∧ lf_locked_until e = None).
  { unfold e. destruct (aget ip (lt_map t1)) as [e'|]; destruct Hp as (k & Hk & Hp); exists k; simpl.
    - rewrite Hun' in Hp. naive_solver.
    - split_and!; try done; lia. }
  destruct He as (k & Hk & Hn & Hc & Hlo & Hnow & Hu).
  destruct (Z.ltb_spec (lf_consecutive e + 1) threshold); cbn [snd];
    (split_and!; [done|done|by apply NoDup_aset|]); simpl; rewrite aget_aset_eq.
  - exists k. simpl. rewrite Hu. unfold LOCKOUT_MAX, SECOND in *. split_and!; try done; lia.
  - exists (k + 1). simpl. pose proof (window_ge (lf_lockouts e) Hlo) as Hw.
    set (w := Z.min (base * _) LOCKOUT_MAX) in *.
    assert (w <= LOCKOUT_MAX) by (unfold w; lia). split_and!; try done; try lia; nia.
Qed.

Lemma other_failure_tracks ip' now n t : ip' ≠ ip → tracks now n t → tracks now n (record_failure ip' now t).2.
Proof.
  intros Hne Htr%gc_tracks. unfold record_failure. destruct (_ <? _); cbn [snd]; by apply tracks_aset_other.
Qed.

Lemma event_tracks now n e t :
  tracks now n t → (∀ ip', e = LClear ip' → ip' ≠ ip) →
  let '(looked, t') := login_event now e t in
  tracks now (n + (if looked && bool_decide (event_ip e = ip) then 1 else 0)) t'.
Proof.
  intros Htr Hcl. unfold login_event. destruct (locked_tracks (event_ip e) now n t Htr) as [H1 H2].
  destruct (locked (event_ip e) now t) as [lock t1]. cbn [fst snd] in *.
  destruct lock as [w|]; [by rewrite Z.add_0_r|]. destruct e as [ip'|ip'|ip']; simpl in *; rewrite ?Z.add_0_r; [|done|].
  - case_bool_decide as He; [subst; by apply failure_tracks, H2|rewrite Z.add_0_r; by apply other_failure_tracks].
  - destruct H1 as (Ht & Hb & Hnd & Hp). split_and!; [done|done|by apply NoDup_aremove|].
    simpl. rewrite aget_aremove_ne by (by apply Hcl). done.
Qed.

Lemma guesses_tracked events now n t :
  tracks now n t → in_time now events → Forall (fun ev => ∀ ip', ev.2 = LClear ip' → ip' ≠ ip) events → t0 <= now →
  n + guesses ip events t <= threshold * (1 + (default now (fst <$> last events) - t0) / W).
Proof.
  revert now n t. induction events as [|[time e] events IH]; intros now n t Htr Htm Hcl Hle.
  - simpl. rewrite Z.add_0_r. eapply paid_bound; [done|apply Htr].
  - destruct Htm as [Hle' Htm]. inversion Hcl as [|? ? Hce Hcl']; subst. cbn [guesses].
    assert (Htr' : tracks time n t).
    { destruct Htr as (? & ? & ? & Hp). split_and!; [done..|by eapply paid_later]. }
    pose proof (event_tracks time n e t Htr' Hce) as Hev. destruct (login_event time e t) as [looked t'].
    specialize (IH time _ t' Hev Htm Hcl' ltac:(lia)). rewrite Z.add_assoc.
    replace (default now (fst <$> last ((time, e) :: events))) with (default time (fst <$> last events)); [done|].
    destruct events as [|ev events]; [done|]. rewrite last_cons_cons.
    destruct (last (ev :: events)) eqn:El; [done|]. by apply last_None in El.
Qed.

End Guessing.

(** An address cannot outguess the lockout. Whatever other addresses do, the
    guesses of one address that never signs in which the server looks at are, in
    any stretch of time, at most the threshold for each lockout window that fits
    in it and one threshold more; the clearing of old entries included. *)
Theorem guesses_bounded ip threshold base events t0 :
  in_time t0 events → Forall (fun ev => ∀ ip', ev.2 = LClear ip' → ip' ≠ ip) events →
  let W := Z.min (Z.max base SECOND) LOCKOUT_MAX in
  guesses ip events (new_tracker threshold base)
    <= Z.max threshold 1 * (1 + (default t0 (fst <$> last events) - t0) / W).
Proof.
  intros Htm Hcl W.
  apply (guesses_tracked ip t0 (Z.max threshold 1) (Z.max base SECOND) ltac:(lia) ltac:(lia) events t0 0); [|done|done|lia].
  split_and!; [done|done|constructor|]. exists 0. simpl. lia.
Qed.

(** ** What a login mints *)

Section Minted.
Context (sha256 : str → str) (hmac_sha1 : str → str → str) (verify_password : str → str → bool).
Context (decode_basic : str → option str) (show_ip : ipaddr → str).
Context {F Regex Tz : Type}.

(** The second factor of an account, none asked where it has none. *)
Definition second_factor (ok : bool) (u : User) (a : Attempt) (us : UserStore) : Prop :=
  ∀ secret, u_totp_secret u = Some secret →
  ∃ code, header_str (bs "x-aperio-totp") (at_headers a) = Some code ∧
    ((∃ step, verify_step hmac_sha1 secret (trim code) (at_now a) = Some step
        ∧ (totp_try_advance_step ok (u_id u) step us).1 = true)
     ∨ (consume_recovery (hash_recovery_code sha256) ok (u_id u) (trim code) us).1 = true).

Lemma user_login_is ok p st a credential name role us :
  user_login sha256 hmac_sha1 verify_password ok p st a credential = (UserIs name role, us) →
  ∃ u username password, credential = username ++ colon :: password
    ∧ verify_user verify_password (a_users st) username password = Some u
    ∧ login_admits p st (request_host (at_headers a)) (u_grants u) = true
    ∧ name = u_username u ∧ role = u_role u ∧ second_factor ok u a (a_users st).
Proof.
  unfold user_login. destruct (split_once colon credential) as [[username password]|] eqn:Es; [|done].
  apply split_once_Some in Es as [-> _]. destruct (verify_user _ _ _ _) as [u|] eqn:Ev; [|done].
  destruct (login_admits _ _ _ _) eqn:El; [|done]. cbn [negb].
  destruct (u_totp_secret u) as [secret|] eqn:Et.
  - destruct (header_str (bs "x-aperio-totp") (at_headers a)) as [code|] eqn:Eh; [|done].
    destruct (str_eqb (trim code) []); [done|].
    destruct (verify_step hmac_sha1 secret (trim code) (at_now a)) as [step|] eqn:Evs.
    + destruct (totp_try_advance_step ok (u_id u) step (a_users st)) as [[] us'] eqn:Ea; [|done].
      intros [= <- <- _]. exists u, username, password. split_and!; try done. intros s [= <-]%(eq_trans (eq_sym Et)).
      exists code. split; [done|]. left. exists step. by rewrite Ea.
    + destruct (consume_recovery _ ok (u_id u) (trim code) (a_users st)) as [[] us'] eqn:Ea; [|done].
      intros [= <- <- _]. exists u, username, password. split_and!; try done. intros s [= <-]%(eq_trans (eq_sym Et)).
      exists code. split; [done|]. right. by rewrite Ea.
  - intros [= <- <- _]. exists u, username, password. split_and!; try done. intros s Hs. congruence.
Qed.

(** The credentials of the route itself: its address is the part before the query. *)
Definition route_credentials (st : GateState F Regex Tz) (a : Attempt) : option Policy * option str :=
  let path := hd [] (split_on "?"%char (redirect_path a)) in
  let host := login_host (at_headers a) in
  if starts_with (bs "/aperio") path then (None, None)
  else match access_for (g_sites st) host path with
       | Some (SiteGate policy) => (Some policy, None)
       | _ => (route_visitor_policy (g_route st) (at_instant a) path host, route_visitor_auth (g_route st) (at_instant a) path host)
       end.

Lemma override_is_the_route st a : "?"%char ∉ redirect_path a → route_override st a = route_credentials st a.
Proof. intros Hq. unfold route_credentials, route_override. by rewrite split_on_single. Qed.

(** What the credential presented with an attempt proves. *)
Definition proves (ok : bool) (l : LoginState F Regex Tz) (a : Attempt) (credential : str) (c : Credential) : Prop :=
  match cr_plane c, cr_scope c with
  | PAdmin, None =>
      (sha256 credential = sha256 (bs "aperio:" ++ g_token (l_gate l)) ∧ cr_username c = None)
      ∨ ∃ u username password, credential = username ++ colon :: password
          ∧ verify_user verify_password (a_users (g_auth (l_gate l))) username password = Some u
          ∧ login_admits (l_panels l) (g_auth (l_gate l)) (request_host (at_headers a)) (u_grants u) = true
          ∧ cr_username c = Some (u_username u) ∧ cr_role c = u_role u
          ∧ second_factor ok u a (a_users (g_auth (l_gate l)))
  | PVisitor, Some h =>
      login_host (at_headers a) = Some h
      ∧ ("?"%char ∉ redirect_path a →
         match route_credentials (l_gate l) a with
        | (Some p, _) => admits_credential sha256 p credential = true
        | (None, Some creds) => sha256 credential = sha256 creds
        | (None, None) => False
        end)
  | PVisitor, None =>
      ("?"%char ∉ redirect_path a → route_credentials (l_gate l) a = (None, None)) ∧ admits_credential sha256 (g_policy (l_gate l)) credential = true
  | PAdmin, Some _ => False
  end.

Lemma check_credential_proves ok l a c l' :
  check_credential sha256 hmac_sha1 verify_password decode_basic ok l a = (Ok (Some c), l') →
  (∃ credential, presented_basic decode_basic (at_headers a) = Some credential ∧ proves ok l a credential c)
  ∧ l_lockout l' = l_lockout l ∧ a_sessions (g_auth (l_gate l')) = a_sessions (g_auth (l_gate l))
  ∧ a_secure_cookies (g_auth (l_gate l')) = a_secure_cookies (g_auth (l_gate l)).
Proof.
  unfold check_credential. destruct (presented_basic _ _) as [credential|]; [|done].
  destruct (constant_time_eq_str _ _ _) eqn:Em.
  - intros [= <- <-]. split; [|done]. exists credential. split; [done|]. left. by apply str_eqb_eq in Em.
  - destruct (user_login _ _ _ _ _ _ _ _) as [[| |name role] us] eqn:Eu; [|done|].
    + intros [= Hv <-]. split; [|done]. exists credential. split; [done|]. unfold visitor_login in Hv. unfold proves.
      assert (Ho : "?"%char ∉ redirect_path a → route_credentials (l_gate l) a = route_override (l_gate l) a)
        by (intros Hq; by rewrite override_is_the_route).
      destruct (route_override (l_gate l) a) as [policy creds].
      destruct (login_host (at_headers a)) as [h|];
        [destruct (match policy with Some _ => _ | None => _ end) eqn:Ec|].
      * injection Hv as <-. simpl. split; [done|]. intros Hq. rewrite (Ho Hq). destruct policy as [p|], creds as [cs|]; try done.
        by apply str_eqb_eq in Ec.
      * destruct policy, creds; simpl in Hv; try done. destruct (admits_credential _ _ _) eqn:Ea; [|done].
        by injection Hv as <-.
      * destruct policy, creds; simpl in Hv; try done. destruct (admits_credential _ _ _) eqn:Ea; [|done].
        by injection Hv as <-.
    + intros [= <- <-]. split; [|done]. exists credential. split; [done|]. right.
      apply user_login_is in Eu as (u & un & pw & -> & Hv & Hl & -> & -> & H2). by exists u, un, pw.
Qed.

(** C16: A login mints what was proved. A session is made only for an address that
    is not locked out, from a credential that was presented: one for the whole
    server on the administrative plane only for the master token or for an
    enabled user's password, with the account's second factor, on a hostname
    that admits the account; and for a visitor who was heading to an address without a
    query, one for a single host only for the credentials of that route, and one for
    the server's own visitor password only where the route has none. A session of the
    last two kinds resolves to nobody on the dashboard. *)
Theorem login_mints_proved within_rate ok ok_s token l a l' :
  auth_login_handler sha256 hmac_sha1 verify_password decode_basic show_ip within_rate ok ok_s token l a = (SignedIn token, l') →
  within_rate = true ∧ (locked (at_ip a) (at_instant a) (l_lockout l)).1 = None
  ∧ aget (at_ip a) (lt_map (l_lockout l')) = aget (at_ip a) (lt_map (clear (at_ip a) (locked (at_ip a) (at_instant a) (l_lockout l)).2))
  ∧ ∃ credential c, presented_basic decode_basic (at_headers a) = Some credential ∧ proves ok l a credential c
    ∧ session_get sha256 (a_sessions (g_auth (l_gate l'))) token = Some (new_session a show_ip c)
    ∧ (cr_plane c = PVisitor → ∀ now hs, session_cookie hs (a_secure_cookies (g_auth (l_gate l))) = Some token →
         resolve_caller sha256 (g_auth (l_gate l')) now hs = key_caller sha256 (g_auth (l_gate l')) now hs).
Proof.
  unfold auth_login_handler. destruct within_rate; [|done]. cbn [negb].
  destruct (locked (at_ip a) (at_instant a) (l_lockout l)) as [[w|] t] eqn:El; [done|].
  destruct (check_credential _ _ _ _ _ _ _) as [[[c|]|e] l1] eqn:Ec; [|done|done].
  apply check_credential_proves in Ec as ((credential & Hp & Hpr) & Hlk & Hs & Hsec). intros [= <-].
  split_and!; [done|done|cbn; by rewrite Hlk|].
  assert (Hget : session_get sha256 (session_insert sha256 ok_s token (new_session a show_ip c) (a_sessions (g_auth (l_gate l1))))
                   token = Some (new_session a show_ip c)).
  { unfold session_get, session_insert. simpl. apply aget_aset_eq. }
  exists credential, c. split_and!; [done|exact Hpr|exact Hget|].
  intros Hv now hs Hck. unfold resolve_caller. destruct (admin_session _ _ _ _) as [info|] eqn:Ea; [|done].
  exfalso. unfold admin_session in Ea. cbn in Ea. rewrite Hsec in Ea. cbn in Ea. rewrite Hck in Ea.
  unfold session_get in Hget, Ea. cbn in Hget, Ea. rewrite Hget in Ea. cbn in Ea. rewrite Hv in Ea.
  rewrite bool_decide_eq_false_2, andb_false_r in Ea by done. done.
Qed.

End Minted.

(** ** Worked inputs *)

Module Samples.

Definition home_ip : ipaddr := V4 2130706433.

(** Four tries a second apart, of which two are looked at, then one after the window. *)
Definition tries : list (Z * LoginEvent) :=
  [(0, LFail home_ip); (SECOND, LFail home_ip); (2 * SECOND, LFail home_ip); (3 * SECOND, LFail home_ip);
   (12 * SECOND, LFail home_ip)].

Lemma guesses_bounded_witness :
  guesses home_ip tries (new_tracker 2 (10 * SECOND)) = 3
  ∧ guesses home_ip tries (new_tracker 2 (10 * SECOND)) <= 2 * (1 + 12 * SECOND / (10 * SECOND)).
Proof.
  split; [vm_compute; reflexivity|]. apply (guesses_bounded home_ip 2 (10 * SECOND) tries 0).
  - simpl. unfold SECOND. lia.
  - repeat constructor; done.
Defined.

(** A service behind its own password, at a path of [acme.com]. *)
Definition locked_service : ServiceState :=
  {| request_count := 0; declared_path := Some (bs "/app"); assigned_path := None;
     declared_hostname := Some (bs "acme.com"); declared_hostnames := []; assigned_hostnames := [];
     random_hostname := None; max_concurrent := None; max_concurrent_ceiling := None;
     inflight_limiter := None; admin_enabled := true; server_side_target := None;
     server_side_refused := None; policy_conflict := None; catch_all := false;
     serves_http := true; route_noticed := false; capture := true; connections := None;
     connections_min := None; connections_max := None; config_notes := [];
     metrics_labels := []; tcp_enabled := false; backend_healthy := true;
     backend_probed := true; priority := 0; bandwidth_bps := 0; service_name := None;
     service_custom_name := None; public := false; public_denied_warned := false;
     visitor_auth := Some (bs "guest:pass"); visitor_auth_policy := None; visitor_auth_denied_warned := false;
     ungated_warned := false; allowed_ips := []; allowed_ips_invalid_warned := false;
     scaling_invalid_warned := false; tunnels := []; cache := false;
     cache_ignored_warned := false; notices_sent := []; resilience := false;
     max_request_body := None; response_timeout := None; webhook_inbox := false;
     denied := None; recent_failures := []; ejected_until := None |}.

Definition login_state : LoginState unit str unit :=
  {| l_gate := {| g_auth := Sessions.sample_state; g_route := {| clients := [(bs "c1", sample_connection [locked_service])];
                    client_down_threshold := 30; lb_strategy := RoundRobin; path_rr := [] |};
                  g_sites := []; g_policy := []; g_deny := false; g_token := bs "master" |};
     l_lockout := new_tracker 5 SECOND; l_panels := {| ph_dashboard := None; ph_orgs := [] |} |}.

Definition attempt_at (host redirect : str) : Attempt :=
  {| at_now := 10; at_instant := 10; at_ip := home_ip;
     at_headers := [(bs "host", host); (bs "authorization", bs "Basic Z3Vlc3Q6cGFzcw==")]; at_redirect := Some redirect |}.

(** [BASE64_STANDARD], on the one value the samples send. *)
Definition sample_base64 (s : str) : option str :=
  if str_eqb s (bs "Z3Vlc3Q6cGFzcw==") then Some (bs "guest:pass") else None.

Definition sign_in (host redirect : str) : LoginOutcome * LoginState unit str unit :=
  auth_login_handler id_hash (fun _ _ => []) (fun _ _ => false) sample_base64 (fun _ => []) true true true (bs "t9")
    login_state (attempt_at host redirect).

Lemma login_mints_proved_witness :
  ∃ credential c, presented_basic sample_base64 (at_headers (attempt_at (bs "acme.com") (bs "/app/x"))) = Some credential
    ∧ proves id_hash (fun _ _ => []) (fun _ _ => false) true login_state (attempt_at (bs "acme.com") (bs "/app/x")) credential c
    ∧ session_get id_hash (a_sessions (g_auth (l_gate (sign_in (bs "acme.com") (bs "/app/x")).2))) (bs "t9")
      = Some (new_session (attempt_at (bs "acme.com") (bs "/app/x")) (fun _ => []) c).
Proof.
  destruct (login_mints_proved id_hash (fun _ _ => []) (fun _ _ => false) sample_base64 (fun _ => []) true true true (bs "t9")
              login_state (attempt_at (bs "acme.com") (bs "/app/x")) (sign_in (bs "acme.com") (bs "/app/x")).2)
    as (_ & _ & _ & credential & c & H1 & H2 & H3 & _); [vm_compute; reflexivity|].
  by exists credential, c.
Defined.

(** The gate sends a visitor of [/app?x=1] to the form with that address; the form
    looks the whole of it up as a path, finds no route, and refuses the password
    the route asks for. *)
Example login_with_query_refused :
  (sign_in (bs "acme.com") (bs "/app")).1 = SignedIn (bs "t9")
  ∧ (sign_in (bs "acme.com") (bs "/app?x=1")).1 = Unauthorized.
Proof. vm_compute. auto. Qed.

(** The form cuts a host at its first colon, the gate reads an IPv6 literal whole:
    a login for one host is for a name no request has. *)
Example login_ipv6_host :
  let hs := [(bs "host", bs "[::1]:8080")] in
  login_host hs = Some (bs "[") ∧ extract_request_host hs = Some (bs "::1").
Proof. vm_compute. auto. Qed.

End Samples.
