(* ===== verification/Units.v ===== *)
(** Durations and sizes as a configuration writes them,
    [aperio-config/src/units.rs]: [30s], [5m], [10MB]. *)

From S2P Require Import Prelude.

(** [std::time::Duration] as its nanoseconds. *)
Definition Span : Type := Z.
Definition ByteSize : Type := Z.

Definition span_secs (n : Z) : Span := n * 1000000000.
Definition span_millis (n : Z) : Span := n * 1000000.
Definition span_as_secs (s : Span) : Z := s / 1000000000.
Definition span_is_zero (s : Span) : bool := s =? 0.

Inductive UnitError : Type :=
| EmptyValue
| NotANumber
| UnknownUnit (unit_ : str)
| TooLong.

(** [value.split_at(value.find(|c| !c.is_ascii_digit()).unwrap_or(value.len()))] *)
Definition split_number (value : str) : str * str :=
  let split := default (length value) (find_index (fun c => negb (is_digit c)) value) in
  (take split value, drop split value).

Definition one_of (words : list string) (s : str) : bool := existsb (fun w => str_eqb s (bs w)) words.

(** Milliseconds in one of a unit. *)
Definition millis_per (unit_ : str) : option Z :=
  if one_of [EmptyString; "s"; "sec"; "secs"]%string unit_ then Some 1000
  else if one_of ["ms"]%string unit_ then Some 1
  else if one_of ["m"; "min"]%string unit_ then Some 60000
  else if one_of ["h"]%string unit_ then Some 3600000
  else if one_of ["d"]%string unit_ then Some 86400000
  else if one_of ["w"]%string unit_ then Some 604800000
  else None.

(** Bytes in one of a unit. *)
Definition bytes_per (unit_ : str) : option Z :=
  if one_of [EmptyString; "b"]%string unit_ then Some 1
  else if one_of ["k"; "kb"; "kib"]%string unit_ then Some 1024
  else if one_of ["m"; "mb"; "mib"]%string unit_ then Some (1024 * 1024)
  else if one_of ["g"; "gb"; "gib"]%string unit_ then Some (1024 * 1024 * 1024)
  else None.

(** A number, its unit, and the product where it fits. *)
Definition scaled (number unit_ : str) (per : str → option Z) : result Z UnitError :=
  match parse_uint u64_max number with
  | None => Err NotANumber
  | Some n =>
      match per unit_ with
      | None => Err (UnknownUnit unit_)
      | Some k => match checked_mul64 n k with Some z => Ok z | None => Err TooLong end
      end
  end.

Definition span_parse (raw : str) : result Span UnitError :=
  let value := lower (trim raw) in
  if str_eqb value [] then Err EmptyValue
  else
    let '(number, unit_) := split_number value in
    match scaled number (trim unit_) millis_per with Ok ms => Ok (span_millis ms) | Err e => Err e end.

Definition size_parse (raw : str) : result ByteSize UnitError :=
  let value := filter (fun c => c ≠ " "%char) (lower (trim raw)) in
  if str_eqb value [] then Err EmptyValue
  else let '(number, unit_) := split_number value in scaled number unit_ bytes_per.

(** The first unit that divides the amount, the amount itself otherwise. *)
Fixpoint in_units (n : Z) (units : list (string * Z)) (rest : str) : str :=
  match units with
  | [] => show_uint n ++ rest
  | (u, per) :: units' => if n mod per =? 0 then show_uint (n / per) ++ bs u else in_units n units' rest
  end.

Definition span_display (s : Span) : str :=
  let ms := wrap64 (s / 1000000) in
  if ms =? 0 then bs "0s"
  else in_units ms [("w", 604800000); ("d", 86400000); ("h", 3600000); ("m", 60000); ("s", 1000)]%string (bs "ms").

Definition size_display (n : ByteSize) : str :=
  if n =? 0 then bs "0"
  else in_units n [("GB", Z.shiftl 1 30); ("MB", Z.shiftl 1 20); ("KB", Z.shiftl 1 10)]%string [].

(** A value in a file: a number, or text. *)
Inductive RawValue : Type :=
| Number (n : Z)
| Text (t : str).

Definition span_deserialize (r : RawValue) : result Span UnitError :=
  match r with Number n => Ok (span_secs n) | Text t => span_parse t end.

Definition size_deserialize (r : RawValue) : result ByteSize UnitError :=
  match r with Number n => Ok n | Text t => size_parse t end.

(** ** Reading what was printed *)

(** A unit as it is printed, behind a number. *)
Definition plain_unit (u : str) : bool :=
  forallb (fun c => graphic c && negb (is_digit c) && negb (is_digit (lower1 c))) u.

Lemma digit_graphic a : is_digit a = true → graphic a = true ∧ is_upper a = false.
Proof. unfold is_digit, graphic, is_upper. intros H. to_prop. lia. Qed.

Lemma split_number_app ds u :
  forallb is_digit ds = true → forallb (fun c => negb (is_digit c)) u = true → split_number (ds ++ u) = (ds, u).
Proof.
  intros Hd Hu. unfold split_number.
  assert (H : default (length (ds ++ u)) (find_index (fun c => negb (is_digit c)) (ds ++ u)) = length ds).
  { induction ds as [|d ds IH]; simpl in *.
    - destruct u as [|c u]; [done|]. simpl in *. to_prop. by rewrite H.
    - to_prop. rewrite H. simpl. specialize (IH H0). by destruct (find_index _ (ds ++ u)); simpl in *; f_equal. }
  by rewrite H, take_app_length, drop_app_length.
Qed.

(** What a printed amount is before it is split. *)
Lemma printed_value n u :
  0 <= n → plain_unit u = true →
  trim (show_uint n ++ u) = show_uint n ++ u ∧ lower (show_uint n ++ u) = show_uint n ++ lower u
  ∧ show_uint n ++ lower u ≠ [] ∧ split_number (show_uint n ++ lower u) = (show_uint n, lower u)
  ∧ filter (fun c => c ≠ " "%char) (show_uint n ++ lower u) = show_uint n ++ lower u.
Proof.
  intros Hn Hu. destruct (show_uint_spec n Hn) as (Hne & Hd & _).
  apply forallb_Forall in Hu. pose proof (proj1 (forallb_Forall _ _) Hd) as Hdf.
  assert (Hg : Forall (fun a => graphic a = true) (show_uint n ++ u)).
  { apply Forall_app. split; [eapply Forall_impl; [exact Hdf|]; intros a Ha; by apply digit_graphic|].
    eapply Forall_impl; [exact Hu|]. intros c Hc. simpl in Hc. by to_prop. }
  assert (Hl : lower (show_uint n) = show_uint n).
  { apply lower_id. eapply Forall_impl; [exact Hdf|]. intros a Ha. by apply digit_graphic. }
  split_and!.
  - by apply trim_graphic.
  - by rewrite lower_app, Hl.
  - by destruct (show_uint n).
  - apply split_number_app; [done|]. apply forallb_Forall. unfold lower. rewrite Forall_fmap.
    eapply Forall_impl; [exact Hu|]. intros c Hc. simpl in *. to_prop. by rewrite H0.
  - apply filter_all, Forall_app. split.
    + eapply Forall_impl; [exact Hdf|]. by intros a Ha ->.
    + unfold lower. rewrite Forall_fmap. eapply Forall_impl; [exact Hu|]. intros c Hc E. simpl in *. to_prop.
      apply (f_equal code) in E. rewrite code_lower1 in E. unfold graphic in H. to_prop.
      change (code " "%char) with 32 in E. destruct (is_upper c) eqn:Ec; lia.
Qed.

Lemma scaled_printed n per u k :
  0 <= n → per u = Some k → n * k <= u64_max → 0 < k → scaled (show_uint n) u per = Ok (n * k).
Proof.
  intros Hn Hp Hm Hk. unfold scaled. rewrite parse_show_uint by nia. rewrite Hp. unfold checked_mul64.
  by rewrite (proj2 (Z.leb_le _ _)).
Qed.

(** A printed unit reads as [k] of them, each [c] of the value. *)
Definition reads_as {E} (parse : str → result Z E) (c : Z) (u : string) (k : Z) : Prop :=
  ∀ n, 0 <= n → n * k <= u64_max → parse (show_uint n ++ bs u) = Ok (n * k * c).

Lemma span_reads u k :
  plain_unit (bs u) = true → millis_per (trim (lower (bs u))) = Some k → 0 < k → reads_as span_parse 1000000 u k.
Proof.
  intros Hu Hp Hk n Hn Hm. destruct (printed_value n (bs u) Hn Hu) as (Ht & Hl & Hne & Hs & _).
  unfold span_parse. rewrite Ht, Hl, Hs. unfold str_eqb. rewrite bool_decide_eq_false_2 by done.
  by rewrite (scaled_printed n _ _ k).
Qed.

Lemma size_reads u k :
  plain_unit (bs u) = true → bytes_per (lower (bs u)) = Some k → 0 < k → reads_as size_parse 1 u k.
Proof.
  intros Hu Hp Hk n Hn Hm. destruct (printed_value n (bs u) Hn Hu) as (Ht & Hl & Hne & Hs & Hf).
  unfold size_parse. rewrite Ht, Hl, Hf, Hs. unfold str_eqb. rewrite bool_decide_eq_false_2 by done.
  rewrite (scaled_printed n _ _ k) by done. f_equal. lia.
Qed.

Lemma in_units_reads {E} (parse : str → result Z E) c n units rest :
  0 <= n <= u64_max → Forall (fun uk => 0 < uk.2 ∧ reads_as parse c uk.1 uk.2) units →
  parse (show_uint n ++ rest) = Ok (n * c) →
  parse (in_units n units rest) = Ok (n * c).
Proof.
  intros Hn Hall Hrest. induction Hall as [|[u k] units [Hk Hr] _ IH]; [done|]. simpl in *.
  destruct (n mod k =? 0) eqn:Em; [|done]. to_prop.
  assert (n / k * k = n) as Hq by (pose proof (Z.div_mod n k); lia).
  rewrite Hr; [by rewrite Hq|apply Z.div_pos; lia|lia].
Qed.

(** What [parse] returns is a number of milliseconds that [u64] holds. *)
Lemma scaled_range number u per z : scaled number u per = Ok z → (∀ w k, per w = Some k → 0 < k) → 0 <= z <= u64_max.
Proof.
  unfold scaled. intros H Hk. destruct (parse_uint u64_max number) as [n|] eqn:En; [|done].
  destruct (per u) as [k|] eqn:Ep; [|done]. unfold checked_mul64 in H.
  destruct (n * k <=? u64_max) eqn:El; [|done]. to_prop. injection H as <-.
  apply parse_uint_range in En. specialize (Hk u k Ep). nia.
Qed.

Lemma per_positive u k : (millis_per u = Some k → 0 < k) ∧ (bytes_per u = Some k → 0 < k).
Proof. unfold millis_per, bytes_per. split; intros H; repeat case_match; simplify_eq; lia. Qed.

Lemma span_parse_millis raw s : span_parse raw = Ok s → ∃ ms, 0 <= ms <= u64_max ∧ s = span_millis ms.
Proof.
  unfold span_parse. case_match; [done|]. destruct (split_number _) as [number u]. case_match eqn:E; [|done].
  intros [= <-]. exists a. split; [|done]. eapply scaled_range; [exact E|]. intros w k. apply per_positive.
Qed.

Lemma span_prints ms : 0 <= ms <= u64_max → span_parse (span_display (span_millis ms)) = Ok (span_millis ms).
Proof.
  intros H. unfold span_display, span_millis. rewrite Z.div_mul, wrap64_small by (unfold u64_max in H; lia).
  destruct (Z.eqb_spec ms 0) as [->|Hz]; [reflexivity|].
  apply (in_units_reads span_parse); [done| |].
  - repeat (apply Forall_cons; split; [split; [done|by apply span_reads]|]). apply Forall_nil_2.
  - rewrite (span_reads "ms" 1); [f_equal; lia|reflexivity|reflexivity|lia|lia|lia].
Qed.

Lemma size_prints n : 0 <= n <= u64_max → size_parse (size_display n) = Ok n.
Proof.
  intros H. unfold size_display. destruct (Z.eqb_spec n 0) as [->|Hz]; [reflexivity|].
  rewrite <- (Z.mul_1_r n) at 2. apply (in_units_reads size_parse); [done| |].
  - repeat (apply Forall_cons; split; [split; [done|by apply size_reads]|]). apply Forall_nil_2.
  - pose proof (size_reads EmptyString 1 eq_refl eq_refl ltac:(lia) n ltac:(lia) ltac:(lia)) as Hr.
    change (bs EmptyString) with (@nil ascii) in Hr. by rewrite Hr, !Z.mul_1_r.
Qed.

(** Printing is faithful: whatever a person wrote for a duration or a size, and
    every whole number of milliseconds or bytes of 64 bits, is printed as a text
    that reads back as the same value. *)
Theorem units_roundtrip :
  (∀ raw s, span_parse raw = Ok s → span_parse (span_display s) = Ok s)
  ∧ (∀ raw n, size_parse raw = Ok n → size_parse (size_display n) = Ok n)
  ∧ (∀ ms, 0 <= ms <= u64_max → span_parse (span_display (span_millis ms)) = Ok (span_millis ms))
  ∧ (∀ n, 0 <= n <= u64_max → size_parse (size_display n) = Ok n).
Proof.
  split_and!; [| |apply span_prints|apply size_prints].
  - intros raw s (ms & Hms & ->)%span_parse_millis. by apply span_prints.
  - intros raw n. unfold size_parse at 1. case_match; [done|]. destruct (split_number _) as [number u].
    intros Hs. apply size_prints. eapply scaled_range; [exact Hs|]. intros w k. apply per_positive.
Qed.

Lemma units_roundtrip_witness : span_parse (span_display (span_secs 90)) = Ok (span_secs 90).
Proof. apply (proj1 units_roundtrip (bs "90s")). reflexivity. Defined.

(** A number of seconds in a file is not held to what the text form may say: from
    2^64 milliseconds on, it is written back as another duration. *)
Example long_number_rewritten :
  span_deserialize (Number 18446744073709552) = Ok (span_secs 18446744073709552)
  ∧ span_display (span_secs 18446744073709552) = bs "384ms"
  ∧ span_deserialize (Text (bs "18446744073709552")) = Err TooLong.
Proof. by vm_compute. Qed.

Example units_samples :
  span_parse (bs " 10 S ") = Ok (span_secs 10) ∧ span_parse (bs "1.5h") = Err (UnknownUnit (bs ".5h"))
  ∧ span_display (span_secs 120) = bs "2m" ∧ size_parse (bs "64 MB") = Ok (64 * 1024 * 1024)
  ∧ span_parse (bs "-5s") = Err NotANumber.
Proof. by vm_compute. Qed.
