(* ===== verification/Rows.v ===== *)
(** The tables behind the stores, [aperio-server/src/store.rs]: records held in
    memory and rewritten as a whole in one transaction, and the rule every store
    follows for a change somebody asked for ([commit]): saved, or undone and
    reported.

    A record is its row: the JSON in between is not modelled. Whether a write
    succeeds is an argument. *)

From S2P Require Import Prelude.

Inductive NotWritten : Type := NoSuchRecord | NotPersisted.

#[export] Instance NotWritten_eq : EqDecision NotWritten.
Proof. solve_decision. Defined.

(** Records in memory, and the rows of the table. *)
Record Rows (T : Type) : Type := { mem : list T; table : list T }.
Arguments mem {T} r.
Arguments table {T} r.

Section Rows.
Context {T : Type} (rid : T → str).

(** [replace_all] of what is in memory; whether it was written. *)
Definition replace_all (ok : bool) (s : Rows T) : bool * Rows T :=
  (ok, if ok then {| mem := mem s; table := mem s |} else s).

(** [load_all]: a restart reads the rows back. *)
Definition load_all (rows : list T) : Rows T := {| mem := rows; table := rows |}.

Definition with_mem (s : Rows T) (l : list T) : Rows T := {| mem := l; table := table s |}.

(** The change, the write, and the snapshot put back when the write failed. *)
Definition commit_rows {R} (ok : bool) (change : list T → R * list T) (s : Rows T) : result R NotWritten * Rows T :=
  let '(out, l) := change (mem s) in
  let '(written, s') := replace_all ok (with_mem s l) in
  if written then (Ok out, s') else (Err NotPersisted, with_mem s' (mem s)).

(** The same, for a change that can refuse. *)
Definition commit_try {R E} (ok : bool) (unsaved : E) (change : list T → result (R * list T) E) (s : Rows T) :
    result R E * Rows T :=
  match change (mem s) with
  | Err e => (Err e, s)
  | Ok (out, l) =>
      let '(written, s') := replace_all ok (with_mem s l) in
      if written then (Ok out, s') else (Err unsaved, with_mem s' (mem s))
  end.

Definition import_rows (ok : bool) (imported : list T) (s : Rows T) : result nat NotWritten * Rows T :=
  commit_rows ok (fun _ => (length imported, imported)) s.

Definition has_id (id : str) (t : T) : bool := str_eqb (rid t) id.

Definition find_row (id : str) (l : list T) : option T := find (has_id id) l.

(** [iter_mut().find(|t| t.id == id)] and an assignment through it. *)
Fixpoint modify_row (id : str) (f : T → T) (l : list T) : list T :=
  match l with
  | [] => []
  | t :: l' => if has_id id t then f t :: l' else t :: modify_row id f l'
  end.

(** [remove(position(|t| t.id == id))] *)
Fixpoint remove_row (id : str) (l : list T) : list T :=
  match l with
  | [] => []
  | t :: l' => if has_id id t then l' else t :: remove_row id l'
  end.

(** ** Lemmas *)

Lemma has_id_spec id t : has_id id t = true ↔ rid t = id.
Proof. apply str_eqb_eq. Qed.

(** A change is saved whole or did not happen. *)
Lemma commit_rows_spec {R} ok (change : list T → R * list T) s :
  commit_rows ok change s
  = if ok then (Ok (change (mem s)).1, {| mem := (change (mem s)).2; table := (change (mem s)).2 |})
    else (Err NotPersisted, s).
Proof. unfold commit_rows. destruct (change (mem s)), ok; simpl; [done|]. by destruct s. Qed.

Lemma commit_try_spec {R E} ok (unsaved : E) (change : list T → result (R * list T) E) s :
  commit_try ok unsaved change s
  = match change (mem s) with
    | Err e => (Err e, s)
    | Ok (out, l) => if ok then (Ok out, {| mem := l; table := l |}) else (Err unsaved, s)
    end.
Proof. unfold commit_try. destruct (change (mem s)) as [[out l]|]; [|done]. destruct ok; simpl; [done|]. by destruct s. Qed.

Lemma elem_of_modify id f l t :
  t ∈ modify_row id f l → t ∈ l ∨ ∃ t0, find_row id l = Some t0 ∧ t = f t0.
Proof.
  unfold find_row. induction l as [|a l IH]; simpl; [set_solver|]. destruct (has_id id a) eqn:E.
  - intros [->|Ht]%elem_of_cons; [right; by exists a|left; set_solver].
  - intros [->|Ht]%elem_of_cons; [left; set_solver|]. destruct (IH Ht) as [H|H]; [left; set_solver|by right].
Qed.

Lemma elem_of_remove id l t : t ∈ remove_row id l → t ∈ l.
Proof. induction l as [|a l IH]; simpl; [done|]. destruct (has_id id a); set_solver. Qed.

Lemma modify_ids id f l : (∀ t, rid (f t) = rid t) → rid <$> modify_row id f l = rid <$> l.
Proof.
  intros Hf. induction l as [|a l IH]; csimpl; [done|]. destruct (has_id id a); csimpl; [by rewrite Hf|by rewrite IH].
Qed.

Lemma modify_fmap {B} (g : T → B) id f l : (∀ t, g (f t) = g t) → g <$> modify_row id f l = g <$> l.
Proof.
  intros Hf. induction l as [|a l IH]; csimpl; [done|]. destruct (has_id id a); csimpl; [by rewrite Hf|by rewrite IH].
Qed.

Lemma modify_omap {B} (g : T → option B) id f l : (∀ t, g (f t) = g t) → omap g (modify_row id f l) = omap g l.
Proof.
  intros Hf. induction l as [|a l IH]; csimpl; [done|]. destruct (has_id id a); csimpl; [by rewrite Hf|by rewrite IH].
Qed.

(** A field emptied: the values of the other rows are left. *)
Lemma modify_omap_none {B} (g : T → option B) id f l :
  (∀ t, g (f t) = None) → sublist (omap g (modify_row id f l)) (omap g l).
Proof.
  intros Hf. induction l as [|a l IH]; csimpl; [done|]. destruct (has_id id a); csimpl.
  - rewrite Hf. destruct (g a); [by apply sublist_cons|done].
  - destruct (g a); [by apply sublist_skip|done].
Qed.

(** A value no other row has. *)
Lemma modify_omap_fresh {B} (g : T → option B) id f v l :
  NoDup (omap g l) → NoDup (rid <$> l) → (∀ t, g (f t) = Some v) → (∀ t, t ∈ l → rid t ≠ id → g t ≠ Some v) →
  NoDup (omap g (modify_row id f l)).
Proof.
  intros Hn Hi Hf Hv. induction l as [|a l IH]; csimpl in *; [done|]. apply NoDup_cons in Hi as [Ha Hi].
  destruct (has_id id a) eqn:E; csimpl.
  - rewrite Hf. apply has_id_spec in E. apply NoDup_cons. split.
    + intros (t & Ht & Hg)%list_elem_of_omap. apply (Hv t); [set_solver| |done].
      intros Hid. destruct Ha. rewrite E, <- Hid. by apply list_elem_of_fmap_2.
    + destruct (g a); [by apply NoDup_cons in Hn as [_ Hn]|done].
  - assert (Hn' : NoDup (omap g l)) by (destruct (g a); [by apply NoDup_cons in Hn as [_ Hn]|done]).
    assert (Hv' : ∀ t, t ∈ l → rid t ≠ id → g t ≠ Some v) by (intros t Ht; apply Hv; set_solver).
    specialize (IH Hn' Hi Hv'). destruct (g a) as [b|] eqn:Eg; [|done]. apply NoDup_cons. split; [|done].
    apply NoDup_cons in Hn as [Hb _]. intros (t & Ht & Hg)%list_elem_of_omap.
    apply elem_of_modify in Ht as [Ht|(t0 & Ht & ->)].
    + apply Hb, list_elem_of_omap. eauto.
    + rewrite Hf in Hg. apply (inj Some) in Hg as ->. apply (Hv a); [set_solver| |done].
      intros H. apply has_id_spec in H. congruence.
Qed.

Lemma find_row_Some id l t : find_row id l = Some t → t ∈ l ∧ rid t = id.
Proof. intros [Ht Hi]%find_some. split; [by apply list_elem_of_In|by apply has_id_spec]. Qed.

Lemma find_row_modify id f l t :
  (∀ t, rid (f t) = rid t) → find_row id l = Some t → find_row id (modify_row id f l) = Some (f t).
Proof.
  unfold find_row. intros Hf. induction l as [|a l IH]; csimpl; [done|]. destruct (has_id id a) eqn:E; csimpl.
  - intros [= ->]. unfold has_id in *. by rewrite Hf, E.
  - rewrite E. exact IH.
Qed.

Lemma find_row_modify_other id id' f l :
  (∀ t, rid (f t) = rid t) → id' ≠ id → find_row id' (modify_row id f l) = find_row id' l.
Proof.
  unfold find_row. intros Hf Hne. induction l as [|a l IH]; csimpl; [done|]. destruct (has_id id a) eqn:E; csimpl.
  - unfold has_id at 1. rewrite Hf. fold (has_id id' a). destruct (has_id id' a) eqn:E'; [|done].
    apply has_id_spec in E, E'. congruence.
  - destruct (has_id id' a); [done|exact IH].
Qed.

Lemma modify_modify id f g l :
  (∀ t, rid (f t) = rid t) → modify_row id g (modify_row id f l) = modify_row id (fun t => g (f t)) l.
Proof.
  intros Hf. induction l as [|a l IH]; csimpl; [done|]. destruct (has_id id a) eqn:E; csimpl.
  - unfold has_id in *. by rewrite Hf, E.
  - by rewrite E, IH.
Qed.

Lemma find_row_None id l : find_row id l = None ↔ id ∉ rid <$> l.
Proof.
  unfold find_row. induction l as [|a l IH]; csimpl; [split; [set_solver|done]|].
  destruct (has_id id a) eqn:E.
  - apply has_id_spec in E. split; [done|]. intros H. destruct H. rewrite E. set_solver.
  - rewrite IH. assert (rid a ≠ id) by (intros H; apply has_id_spec in H; congruence). set_solver.
Qed.

Lemma remove_row_notin id l : NoDup (rid <$> l) → id ∉ rid <$> remove_row id l.
Proof.
  induction l as [|a l IH]; csimpl; [set_solver|]. intros [Ha Hn]%NoDup_cons. destruct (has_id id a) eqn:E.
  - apply has_id_spec in E. by subst.
  - assert (rid a ≠ id) by (intros H; apply has_id_spec in H; congruence). set_solver.
Qed.

Lemma NoDup_remove id l : NoDup (rid <$> l) → NoDup (rid <$> remove_row id l).
Proof.
  induction l as [|a l IH]; csimpl; [done|]. intros [Ha Hn]%NoDup_cons. destruct (has_id id a); [done|].
  csimpl. apply NoDup_cons. split; [|by apply IH]. intros (t & E & Ht)%list_elem_of_fmap.
  apply Ha, list_elem_of_fmap. exists t. split; [done|]. by apply elem_of_remove in Ht.
Qed.

Lemma find_row_unique l t : NoDup (rid <$> l) → t ∈ l → find_row (rid t) l = Some t.
Proof.
  unfold find_row. induction l as [|a l IH]; csimpl; [set_solver|]. intros [Ha Hn]%NoDup_cons Ht.
  destruct (has_id (rid t) a) eqn:E.
  - apply elem_of_cons in Ht as [->|Ht]; [done|]. apply has_id_spec in E. destruct Ha. rewrite E. by apply list_elem_of_fmap_2.
  - apply elem_of_cons in Ht as [->|Ht]; [|by apply IH]. unfold has_id in E. by rewrite str_eqb_refl in E.
Qed.

(** The records of other ids are left alone. *)
Lemma elem_of_modify_other id f l t : t ∈ l → rid t ≠ id → t ∈ modify_row id f l.
Proof.
  intros Ht Hid. induction l as [|a l IH]; csimpl; [done|]. apply elem_of_cons in Ht as [->|Ht].
  - destruct (has_id id a) eqn:E; [by apply has_id_spec in E|set_solver].
  - destruct (has_id id a); set_solver.
Qed.

Lemma elem_of_remove_other id l t : t ∈ l → rid t ≠ id → t ∈ remove_row id l.
Proof.
  intros Ht Hid. induction l as [|a l IH]; csimpl; [done|]. apply elem_of_cons in Ht as [->|Ht].
  - destruct (has_id id a) eqn:E; [by apply has_id_spec in E|set_solver].
  - destruct (has_id id a); set_solver.
Qed.

Lemma Forall_modify (P : T → Prop) id f l :
  Forall P l → (∀ t, find_row id l = Some t → P t → P (f t)) → Forall P (modify_row id f l).
Proof.
  intros Hl Hf. apply Forall_forall. intros t [Ht|(t0 & E & ->)]%elem_of_modify.
  - by eapply Forall_forall.
  - apply Hf; [done|]. apply find_row_Some in E as [E _]. by eapply Forall_forall.
Qed.

Lemma Forall_remove (P : T → Prop) id l : Forall P l → Forall P (remove_row id l).
Proof. intros Hl. apply Forall_forall. intros t Ht%elem_of_remove. by eapply Forall_forall. Qed.

End Rows.
