(* ===== verification/Tokens.v ===== *)
(** Dynamic tunnel tokens: their store ([store/tokens.rs]) and what a presented
    secret is worth ([authorize_tunnel_token] of [auth/token.rs]).

    SHA-256 is a parameter. The clock, fresh identifiers, fresh secrets and
    whether a write succeeds are arguments; the rate of a token is a number of
    the class [Float]. *)

From S2P Require Import Prelude Binds IpNet Orgs VisitorAuth Clients RateLimit Sessions Rows.

Record ApiToken (F : Type) : Type := {
  t_id : str;
  t_name : str;
  t_token_hash : str;
  t_token_prefix : str;
  t_hostnames : list str;
  t_paths : list str;
  t_allowed_ips : list str;
  t_created_at : Z;
  t_expires_at : option Z;
  t_ttl_seconds : option Z;
  t_max_rps : option F;
  t_daily_max_bytes : option Z;
  t_max_connections : option Z;
  t_allow_public : bool;
  t_allow_server_side : bool;
  t_allow_bind : bool;
  t_allow_otel : bool;
  t_topics : list str;
  t_canary : bool;
  t_org_id : option str;
  t_prev_token_hash : option str;
  t_prev_expires_at : option Z;
  t_pinned_key : option str;
}.
Arguments t_id {F} a.
Arguments t_name {F} a.
Arguments t_token_hash {F} a.
Arguments t_token_prefix {F} a.
Arguments t_hostnames {F} a.
Arguments t_paths {F} a.
Arguments t_allowed_ips {F} a.
Arguments t_created_at {F} a.
Arguments t_expires_at {F} a.
Arguments t_ttl_seconds {F} a.
Arguments t_max_rps {F} a.
Arguments t_daily_max_bytes {F} a.
Arguments t_max_connections {F} a.
Arguments t_allow_public {F} a.
Arguments t_allow_server_side {F} a.
Arguments t_allow_bind {F} a.
Arguments t_allow_otel {F} a.
Arguments t_topics {F} a.
Arguments t_canary {F} a.
Arguments t_org_id {F} a.
Arguments t_prev_token_hash {F} a.
Arguments t_prev_expires_at {F} a.
Arguments t_pinned_key {F} a.

Inductive PinOutcome : Type := Pinned | Match | Mismatch.

#[export] Instance PinOutcome_eq : EqDecision PinOutcome.
Proof. solve_decision. Defined.

Record TokenSpec (F : Type) : Type := {
  ts_name : str;
  ts_hostnames : list str;
  ts_paths : list str;
  ts_topics : list str;
  ts_allowed_ips : list str;
  ts_org_id : option str;
  ts_ttl_seconds : option Z;
  ts_max_rps : option F;
  ts_daily_max_bytes : option Z;
  ts_max_connections : option Z;
  ts_allow_public : bool;
  ts_allow_server_side : bool;
  ts_allow_bind : bool;
  ts_allow_otel : bool;
  ts_canary : bool;
}.
Arguments ts_name {F} t.
Arguments ts_hostnames {F} t.
Arguments ts_paths {F} t.
Arguments ts_topics {F} t.
Arguments ts_allowed_ips {F} t.
Arguments ts_org_id {F} t.
Arguments ts_ttl_seconds {F} t.
Arguments ts_max_rps {F} t.
Arguments ts_daily_max_bytes {F} t.
Arguments ts_max_connections {F} t.
Arguments ts_allow_public {F} t.
Arguments ts_allow_server_side {F} t.
Arguments ts_allow_bind {F} t.
Arguments ts_allow_otel {F} t.
Arguments ts_canary {F} t.

(** [None] leaves a field alone; for a limit, [Some None] clears it. *)
Record TokenPatch (F : Type) : Type := {
  tp_name : option str;
  tp_hostnames : option (list str);
  tp_paths : option (list str);
  tp_topics : option (list str);
  tp_allowed_ips : option (list str);
  tp_ttl_seconds : option (option Z);
  tp_max_rps : option (option F);
  tp_daily_max_bytes : option (option Z);
  tp_max_connections : option (option Z);
  tp_allow_public : option bool;
  tp_allow_server_side : option bool;
  tp_allow_bind : option bool;
  tp_allow_otel : option bool;
  tp_canary : option bool;
}.
Arguments tp_name {F} t.
Arguments tp_hostnames {F} t.
Arguments tp_paths {F} t.
Arguments tp_topics {F} t.
Arguments tp_allowed_ips {F} t.
Arguments tp_ttl_seconds {F} t.
Arguments tp_max_rps {F} t.
Arguments tp_daily_max_bytes {F} t.
Arguments tp_max_connections {F} t.
Arguments tp_allow_public {F} t.
Arguments tp_allow_server_side {F} t.
Arguments tp_allow_bind {F} t.
Arguments tp_allow_otel {F} t.
Arguments tp_canary {F} t.

(** [Option::filter] *)
Definition opt_filter {A} (p : A → bool) (o : option A) : option A :=
  match o with Some a => if p a then Some a else None | None => None end.

Definition is_expired {F} (now : Z) (t : ApiToken F) : bool :=
  match t_expires_at t with Some exp => exp <=? now | None => false end.

Definition prev_secret_valid {F} (now : Z) (t : ApiToken F) : bool :=
  match t_prev_token_hash t with
  | Some _ => match t_prev_expires_at t with Some exp => now <? exp | None => false end
  | None => false
  end.

(** A secret of two random identifiers. *)
Definition new_secret (u1 u2 : str) : str := bs "apr_" ++ u1 ++ u2.

Definition SECRET_PREFIX : nat := 12.

Section Store.
Context {F : Type} `{HF : Float F} (sha256 : str → str).

Definition hash_token (secret : str) : str := concat (hex_byte <$> sha256 secret).

Definition new_token (id secret : str) (now : Z) (spec : TokenSpec F) : ApiToken F :=
  {| t_id := id; t_name := ts_name spec; t_token_hash := hash_token secret;
     t_token_prefix := take SECRET_PREFIX secret; t_hostnames := ts_hostnames spec; t_paths := ts_paths spec;
     t_allowed_ips := ts_allowed_ips spec; t_created_at := now;
     t_expires_at := sat_add64 now <$> ts_ttl_seconds spec; t_ttl_seconds := ts_ttl_seconds spec;
     t_max_rps := ts_max_rps spec; t_daily_max_bytes := ts_daily_max_bytes spec;
     t_max_connections := opt_filter (fun v => 0 <? v) (ts_max_connections spec);
     t_allow_public := ts_allow_public spec; t_allow_server_side := ts_allow_server_side spec;
     t_allow_bind := ts_allow_bind spec; t_allow_otel := ts_allow_otel spec; t_topics := ts_topics spec;
     t_canary := ts_canary spec; t_org_id := ts_org_id spec; t_prev_token_hash := None;
     t_prev_expires_at := None; t_pinned_key := None |}.

Definition create_token (ok : bool) (id u1 u2 : str) (now : Z) (spec : TokenSpec F) (s : Rows (ApiToken F)) :
    result (ApiToken F * str) NotWritten * Rows (ApiToken F) :=
  let secret := new_secret u1 u2 in
  let record := new_token id secret now spec in
  commit_rows ok (fun l => ((record, secret), l ++ [record])) s.

Definition import_tokens (ok : bool) (tokens : list (ApiToken F)) (s : Rows (ApiToken F)) :
    result nat NotWritten * Rows (ApiToken F) := import_rows ok tokens s.

(** The fields a patch names, set. *)
Definition patched (now : Z) (p : TokenPatch F) (t : ApiToken F) : ApiToken F :=
  {| t_id := t_id t;
     t_name := default (t_name t) (tp_name p);
     t_token_hash := t_token_hash t; t_token_prefix := t_token_prefix t;
     t_hostnames := default (t_hostnames t) (tp_hostnames p);
     t_paths := default (t_paths t) (tp_paths p);
     t_allowed_ips := default (t_allowed_ips t) (tp_allowed_ips p);
     t_created_at := t_created_at t;
     t_expires_at := match tp_ttl_seconds p with Some ttl => sat_add64 now <$> ttl | None => t_expires_at t end;
     t_ttl_seconds := default (t_ttl_seconds t) (tp_ttl_seconds p);
     t_max_rps := match tp_max_rps p with Some rps => opt_filter (fltb fzero) rps | None => t_max_rps t end;
     t_daily_max_bytes :=
       match tp_daily_max_bytes p with Some q => opt_filter (fun v => 0 <? v) q | None => t_daily_max_bytes t end;
     t_max_connections :=
       match tp_max_connections p with Some c => opt_filter (fun v => 0 <? v) c | None => t_max_connections t end;
     t_allow_public := default (t_allow_public t) (tp_allow_public p);
     t_allow_server_side := default (t_allow_server_side t) (tp_allow_server_side p);
     t_allow_bind := default (t_allow_bind t) (tp_allow_bind p);
     t_allow_otel := default (t_allow_otel t) (tp_allow_otel p);
     t_topics := default (t_topics t) (tp_topics p);
     t_canary := default (t_canary t) (tp_canary p);
     t_org_id := t_org_id t; t_prev_token_hash := t_prev_token_hash t;
     t_prev_expires_at := t_prev_expires_at t; t_pinned_key := t_pinned_key t |}.

(** A record found, changed and written; the changed record is the answer. *)
Definition change_token (ok : bool) (id : str) (f : ApiToken F → ApiToken F) (s : Rows (ApiToken F)) :
    result (ApiToken F) NotWritten * Rows (ApiToken F) :=
  match find_row t_id id (mem s) with
  | None => (Err NoSuchRecord, s)
  | Some t => commit_rows ok (fun l => (f t, modify_row t_id id f l)) s
  end.

Definition update_token (ok : bool) (now : Z) (id : str) (p : TokenPatch F) (s : Rows (ApiToken F)) :=
  change_token ok id (patched now p) s.

Definition revoke_token (ok : bool) (id : str) (s : Rows (ApiToken F)) : result unit NotWritten * Rows (ApiToken F) :=
  match find_row t_id id (mem s) with
  | None => (Err NoSuchRecord, s)
  | Some _ => commit_rows ok (fun l => (tt, remove_row t_id id l)) s
  end.

(** A record the hash of a secret opens: the current secret, or the one before
    while its grace lasts. *)
Definition opens (now : Z) (hash : str) (t : ApiToken F) : bool :=
  if is_expired now t then false
  else constant_time_eq_str sha256 (t_token_hash t) hash
       || (prev_secret_valid now t
           && match t_prev_token_hash t with Some prev => constant_time_eq_str sha256 prev hash | None => false end).

Definition verify_token (now : Z) (secret : str) (s : Rows (ApiToken F)) : option (ApiToken F) :=
  find (opens now (hash_token secret)) (mem s).

Definition with_pin (key : option str) (t : ApiToken F) : ApiToken F :=
  {| t_id := t_id t; t_name := t_name t; t_token_hash := t_token_hash t; t_token_prefix := t_token_prefix t;
     t_hostnames := t_hostnames t; t_paths := t_paths t; t_allowed_ips := t_allowed_ips t;
     t_created_at := t_created_at t; t_expires_at := t_expires_at t; t_ttl_seconds := t_ttl_seconds t;
     t_max_rps := t_max_rps t; t_daily_max_bytes := t_daily_max_bytes t; t_max_connections := t_max_connections t;
     t_allow_public := t_allow_public t; t_allow_server_side := t_allow_server_side t;
     t_allow_bind := t_allow_bind t; t_allow_otel := t_allow_otel t; t_topics := t_topics t; t_canary := t_canary t;
     t_org_id := t_org_id t; t_prev_token_hash := t_prev_token_hash t; t_prev_expires_at := t_prev_expires_at t;
     t_pinned_key := key |}.

Definition pin_key (ok : bool) (id key : str) (s : Rows (ApiToken F)) :
    result PinOutcome NotWritten * Rows (ApiToken F) :=
  match find_row t_id id (mem s) with
  | None => (Err NoSuchRecord, s)
  | Some t =>
      match t_pinned_key t with
      | Some existing => (Ok (if str_eqb existing key then Match else Mismatch), s)
      | None => commit_rows ok (fun l => (Pinned, modify_row t_id id (with_pin (Some key)) l)) s
      end
  end.

(** The secret replaced; the old one kept for the grace, the pin dropped. *)
Definition rotated (now grace : Z) (secret : str) (t : ApiToken F) : ApiToken F :=
  {| t_id := t_id t; t_name := t_name t; t_token_hash := hash_token secret;
     t_token_prefix := take SECRET_PREFIX secret;
     t_hostnames := t_hostnames t; t_paths := t_paths t; t_allowed_ips := t_allowed_ips t;
     t_created_at := t_created_at t; t_expires_at := t_expires_at t; t_ttl_seconds := t_ttl_seconds t;
     t_max_rps := t_max_rps t; t_daily_max_bytes := t_daily_max_bytes t; t_max_connections := t_max_connections t;
     t_allow_public := t_allow_public t; t_allow_server_side := t_allow_server_side t;
     t_allow_bind := t_allow_bind t; t_allow_otel := t_allow_otel t; t_topics := t_topics t; t_canary := t_canary t;
     t_org_id := t_org_id t;
     t_prev_token_hash := if 0 <? grace then Some (t_token_hash t) else None;
     t_prev_expires_at := if 0 <? grace then Some (sat_add64 now grace) else None;
     t_pinned_key := None |}.

Definition rotate_token (ok : bool) (now : Z) (id u1 u2 : str) (grace : Z) (s : Rows (ApiToken F)) :
    result (ApiToken F * str) NotWritten * Rows (ApiToken F) :=
  let secret := new_secret u1 u2 in
  match change_token ok id (rotated now grace secret) s with
  | (Ok t, s') => (Ok (t, secret), s')
  | (Err e, s') => (Err e, s')
  end.

Definition with_expiry (e : option Z) (t : ApiToken F) : ApiToken F :=
  {| t_id := t_id t; t_name := t_name t; t_token_hash := t_token_hash t; t_token_prefix := t_token_prefix t;
     t_hostnames := t_hostnames t; t_paths := t_paths t; t_allowed_ips := t_allowed_ips t;
     t_created_at := t_created_at t; t_expires_at := e; t_ttl_seconds := t_ttl_seconds t;
     t_max_rps := t_max_rps t; t_daily_max_bytes := t_daily_max_bytes t; t_max_connections := t_max_connections t;
     t_allow_public := t_allow_public t; t_allow_server_side := t_allow_server_side t;
     t_allow_bind := t_allow_bind t; t_allow_otel := t_allow_otel t; t_topics := t_topics t; t_canary := t_canary t;
     t_org_id := t_org_id t; t_prev_token_hash := t_prev_token_hash t; t_prev_expires_at := t_prev_expires_at t;
     t_pinned_key := t_pinned_key t |}.

(** The expiry of the token a secret is the current one of, moved on by its own
    lifetime. *)
Definition refresh_token (ok : bool) (now : Z) (secret : str) (s : Rows (ApiToken F)) :
    result (ApiToken F) NotWritten * Rows (ApiToken F) :=
  let hash := hash_token secret in
  match find_index (fun t => constant_time_eq_str sha256 (t_token_hash t) hash && negb (is_expired now t)) (mem s) with
  | None => (Err NoSuchRecord, s)
  | Some pos =>
      match mem s !! pos with
      | None => (Err NoSuchRecord, s)
      | Some t =>
          match t_ttl_seconds t with
          | None => (Err NoSuchRecord, s)
          | Some ttl =>
              let t' := with_expiry (Some (sat_add64 now ttl)) t in
              commit_rows ok (fun l => (t', <[pos := t']> l)) s
          end
      end
  end.

(** ** What a presented secret is worth *)

Definition TOKEN_SEEN_IPS_CAP : nat := 256.

Inductive TokenEvent : Type :=
| CanaryTripped (name id : str) (ip : ipaddr)
| TokenNewIp (name id : str) (ip : ipaddr).

(** The allowlist of an organization; master's is empty. *)
Definition hostnames_of (orgs : fences) (org : option str) : list str :=
  match org with
  | None => []
  | Some id => match find (fun o => str_eqb o.1 id) orgs with Some o => o.2 | None => [] end
  end.

Definition perms_of (orgs : fences) (t : ApiToken F) : ClientPerms :=
  {| master := false; hostnames := t_hostnames t; paths := t_paths t; token_name := Some (t_name t);
     token_id := Some (t_id t); allow_public := t_allow_public t; allow_server_side := t_allow_server_side t;
     allow_bind := t_allow_bind t; allow_otel := t_allow_otel t; topics := t_topics t; org_id := t_org_id t;
     org_hostnames := hostnames_of orgs (t_org_id t); max_connections := t_max_connections t |}.

(** The addresses a token was seen from; whether this one is news. *)
Definition note_ip (ip : ipaddr) (ips : list ipaddr) : bool * list ipaddr :=
  match ips with
  | [] => (false, [ip])
  | _ =>
      if (TOKEN_SEEN_IPS_CAP <=? length ips)%nat then (false, ips)
      else if bool_decide (ip ∈ ips) then (false, ips)
      else (true, ip :: ips)
  end.

Definition authorize_tunnel_token (master_token : str) (store : Rows (ApiToken F)) (orgs : fences)
    (seen : list (str * list ipaddr)) (now : Z) (hs : headers) (ip : ipaddr) :
    option ClientPerms * list TokenEvent * list (str * list ipaddr) :=
  match extract_token hs with
  | None => (None, [], seen)
  | Some presented =>
      if constant_time_eq_str sha256 presented master_token then (Some master_perms, [], seen)
      else
        match verify_token now presented store with
        | None => (None, [], seen)
        | Some t =>
            if negb (ip_allowed ip (t_allowed_ips t)) then (None, [], seen)
            else
              let '(is_new, ips) := note_ip ip (default [] (aget (t_id t) seen)) in
              (Some (perms_of orgs t),
               (if t_canary t then [CanaryTripped (t_name t) (t_id t) ip] else [])
                 ++ (if is_new then [TokenNewIp (t_name t) (t_id t) ip] else []),
               aset (t_id t) ips seen)
        end
  end.

(** ** Sequences of operations *)

Inductive TokenOp : Type :=
| TCreate (ok : bool) (id u1 u2 : str) (now : Z) (spec : TokenSpec F)
| TUpdate (ok : bool) (now : Z) (id : str) (p : TokenPatch F)
| TRevoke (ok : bool) (id : str)
| TPin (ok : bool) (id key : str)
| TRotate (ok : bool) (now : Z) (id u1 u2 : str) (grace : Z)
| TRefresh (ok : bool) (now : Z) (secret : str)
| TImport (ok : bool) (tokens : list (ApiToken F))
| TRestart.

Definition exec_token (o : TokenOp) (s : Rows (ApiToken F)) : Rows (ApiToken F) :=
  match o with
  | TCreate ok id u1 u2 now spec => (create_token ok id u1 u2 now spec s).2
  | TUpdate ok now id p => (update_token ok now id p s).2
  | TRevoke ok id => (revoke_token ok id s).2
  | TPin ok id key => (pin_key ok id key s).2
  | TRotate ok now id u1 u2 grace => (rotate_token ok now id u1 u2 grace s).2
  | TRefresh ok now secret => (refresh_token ok now secret s).2
  | TImport ok tokens => (import_tokens ok tokens s).2
  | TRestart => load_all (table s)
  end.

Definition exec_tokens (ops : list TokenOp) (s : Rows (ApiToken F)) : Rows (ApiToken F) :=
  fold_left (fun s o => exec_token o s) ops s.

End Store.
Arguments TokenOp F : clear implicits.

(** ** What the operations do to a record *)

Section Life.
Context {F : Type} `{HF : Float F} (sha256 : str → str).

#[local] Abbreviation hash := (hash_token sha256).
#[local] Abbreviation exec := (exec_token sha256).
#[local] Abbreviation same_hash := (constant_time_eq_str sha256).

(** A record an operation adds, and what it turns a record into. *)
Definition created (o : TokenOp F) (t' : ApiToken F) : Prop :=
  match o with
  | TCreate _ id u1 u2 now spec => t' = new_token sha256 id (new_secret u1 u2) now spec
  | TImport _ tokens => t' ∈ tokens
  | _ => False
  end.

Definition becomes (o : TokenOp F) (t t' : ApiToken F) : Prop :=
  match o with
  | TUpdate _ now id p => t_id t = id ∧ t' = patched now p t
  | TPin _ id key => t_id t = id ∧ t_pinned_key t = None ∧ t' = with_pin (Some key) t
  | TRotate _ now id u1 u2 grace => t_id t = id ∧ t' = rotated sha256 now grace (new_secret u1 u2) t
  | TRefresh _ now _ => ∃ ttl, t_ttl_seconds t = Some ttl ∧ t' = with_expiry (Some (sat_add64 now ttl)) t
  | _ => False
  end.

Lemma commit_elem {T R} ok (change : list T → R * list T) (s : Rows T) t :
  t ∈ mem (commit_rows ok change s).2 ++ table (commit_rows ok change s).2 →
  t ∈ mem s ++ table s ∨ t ∈ (change (mem s)).2.
Proof. rewrite commit_rows_spec. destruct ok; simpl; [|by left]. intros [|]%elem_of_app; by right. Qed.

(** Every record after an operation was there, was added by it, or is what it made
    of one in memory. *)
Lemma exec_elem o s t :
  t ∈ mem (exec o s) ++ table (exec o s) →
  t ∈ mem s ++ table s ∨ created o t ∨ ∃ t0, t0 ∈ mem s ∧ becomes o t0 t.
Proof.
  assert (Hmod : ∀ id f, t ∈ modify_row t_id id f (mem s) →
    t ∈ mem s ++ table s ∨ ∃ t0, t0 ∈ mem s ∧ t_id t0 = id ∧ find_row t_id id (mem s) = Some t0 ∧ t = f t0).
  { intros id f [Ht|(t0 & E & ->)]%elem_of_modify; [left; set_solver|]. right. exists t0.
    by destruct (find_row_Some _ _ _ _ E). }
  assert (Hch : ∀ ok id f, t ∈ mem (change_token ok id f s).2 ++ table (change_token ok id f s).2 →
    t ∈ mem s ++ table s ∨ ∃ t0, t0 ∈ mem s ∧ t_id t0 = id ∧ t = f t0).
  { intros ok id f. unfold change_token. destruct (find_row t_id id (mem s)); [|by left].
    intros [Ht|Ht]%commit_elem; [by left|]. destruct (Hmod _ _ Ht) as [|(t0 & ? & ? & _ & ?)]; [by left|right; by exists t0]. }
  destruct o; simpl.
  - unfold create_token. intros [Ht|Ht]%commit_elem; [by left|]. simpl in Ht. set_solver.
  - intros [Ht|(t0 & ? & ? & ?)]%Hch; [by left|]. right. right. by exists t0.
  - unfold revoke_token. destruct (find_row t_id id (mem s)); [|by left].
    intros [Ht|Ht]%commit_elem; [by left|]. simpl in Ht. apply elem_of_remove in Ht. left. set_solver.
  - unfold pin_key. destruct (find_row t_id id (mem s)) as [t0|] eqn:E; [|by left].
    destruct (t_pinned_key t0) eqn:Ep; [by left|]. intros [Ht|Ht]%commit_elem; [by left|]. simpl in Ht.
    destruct (Hmod _ _ Ht) as [|(t1 & ? & ? & E' & ?)]; [by left|]. right. right. exists t1. by simplify_eq.
  - unfold rotate_token. intros Ht.
    assert (Ht' : t ∈ mem (change_token ok id (rotated sha256 now grace (new_secret u1 u2)) s).2
                      ++ table (change_token ok id (rotated sha256 now grace (new_secret u1 u2)) s).2)
      by (by destruct (change_token _ _ _ _) as [[] ?]).
    apply Hch in Ht' as [|(t0 & ? & ? & ?)]; [by left|]. right. right. by exists t0.
  - unfold refresh_token. destruct (find_index _ _) as [pos|]; [|by left].
    destruct (mem s !! pos) as [t0|] eqn:E; [|by left]. destruct (t_ttl_seconds t0) as [ttl|] eqn:Ettl; [|by left].
    intros [Ht|Ht]%commit_elem; [by left|]. simpl in Ht.
    apply list_elem_of_lookup in Ht as [j Hj]. destruct (decide (j = pos)) as [->|Hne].
    + rewrite list_lookup_insert_eq in Hj by (by eapply lookup_lt_Some). simplify_eq.
      right. right. exists t0. split; [by eapply list_elem_of_lookup_2|]. by exists ttl.
    + rewrite list_lookup_insert_ne in Hj by done. left. apply elem_of_app. left. by eapply list_elem_of_lookup_2.
  - unfold import_tokens, import_rows. intros [Ht|Ht]%commit_elem; [by left|]. by right; left.
  - intros Ht. left. set_solver.
Qed.

Lemma exec_keeps (P : ApiToken F → Prop) o s :
  (∀ t, created o t → P t) → (∀ t t', becomes o t t' → P t → P t') →
  Forall P (mem s ++ table s) → Forall P (mem (exec o s) ++ table (exec o s)).
Proof.
  intros Hc Hb Hs. rewrite Forall_forall in *. intros t [Ht|[Ht|(t0 & Hi & Ht)]]%exec_elem; [by apply Hs|by apply Hc|].
  eapply Hb; [exact Ht|]. apply Hs. set_solver.
Qed.

Lemma exec_all_keeps (P : ApiToken F → Prop) ops s :
  Forall (fun o => (∀ t, created o t → P t) ∧ (∀ t t', becomes o t t' → P t → P t')) ops →
  Forall P (mem s ++ table s) → Forall P (mem (exec_tokens sha256 ops s) ++ table (exec_tokens sha256 ops s)).
Proof.
  intros Ho. revert s. induction Ho as [|o ops [Hc Hb] _ IH]; intros s Hs; [done|].
  unfold exec_tokens. simpl. by apply IH, exec_keeps.
Qed.

(** The hash [h] opens the record [id] at no instant from [deadline] on. *)
Definition retired (id h : str) (deadline : Z) (t : ApiToken F) : Prop :=
  t_id t = id → same_hash (t_token_hash t) h = false ∧
  ∀ p, t_prev_token_hash t = Some p → same_hash p h = true → ∃ e, t_prev_expires_at t = Some e ∧ e <= deadline.

(** Identifiers and secrets are drawn fresh: no operation creates the record [id]
    again, and none draws a secret with the digest of [h]. A dump that is imported
    does not bring the old secret back. *)
Definition fresh_op (id h : str) (deadline : Z) (o : TokenOp F) : Prop :=
  match o with
  | TCreate _ id' _ _ _ _ => id' ≠ id
  | TRotate _ _ _ u1 u2 _ => same_hash (hash (new_secret u1 u2)) h = false
  | TImport _ tokens => Forall (retired id h deadline) tokens
  | _ => True
  end.

Lemma retired_keeps id h deadline o :
  fresh_op id h deadline o →
  (∀ t, created o t → retired id h deadline t) ∧
  (∀ t t', becomes o t t' → retired id h deadline t → retired id h deadline t').
Proof.
  intros Hf. split.
  - intros t Hc. destruct o as [| | | | | |ok tokens|]; try done; simpl in *.
    + intros Ht. by subst.
    + rewrite Forall_forall in Hf. by apply Hf.
  - intros t t' Hb Hr Ht'. destruct o; try done; simpl in Hb.
    + destruct Hb as [? ->]. by apply Hr.
    + destruct Hb as (? & ? & ->). by apply Hr.
    + destruct Hb as [? ->]. simpl in *. split; [done|]. intros p Hp Hh.
      destruct (Hr Ht') as [Hcur _]. destruct (0 <? grace); simplify_eq. congruence.
    + destruct Hb as (ttl & ? & ->). by apply Hr.
Qed.

Lemma retired_closed id h deadline now s t :
  Forall (retired id h deadline) (mem s ++ table s) → deadline <= now →
  t ∈ mem s → t_id t = id → opens sha256 now h t = false.
Proof.
  intros Hr Hd Hin Hid. rewrite Forall_forall in Hr. destruct (Hr t ltac:(set_solver) Hid) as [Hcur Hprev].
  unfold opens. destruct (is_expired now t); [done|]. rewrite Hcur. simpl. unfold prev_secret_valid.
  destruct (t_prev_token_hash t) as [p|] eqn:Ep; [|done]. destruct (same_hash p h) eqn:Eh; [|by rewrite andb_false_r].
  destruct (Hprev p eq_refl Eh) as (e & -> & He). rewrite andb_true_r. apply Z.ltb_ge. lia.
Qed.

(** A store whose write succeeded last: memory and table agree, ids are distinct. *)
Definition settled (s : Rows (ApiToken F)) : Prop := mem s = table s ∧ NoDup (t_id <$> mem s).

(** The record [id] of a list where it was changed is the changed one. *)
Lemma modify_row_id id (f : ApiToken F → ApiToken F) l t :
  NoDup (t_id <$> l) → (∀ t, t_id (f t) = t_id t) → t ∈ modify_row t_id id f l → t_id t = id →
  ∃ t0, find_row t_id id l = Some t0 ∧ t = f t0.
Proof.
  unfold find_row. intros Hn Hf. induction l as [|a l IH]; simpl; [set_solver|].
  csimpl in Hn. apply NoDup_cons in Hn as [Ha Hn]. destruct (has_id t_id id a) eqn:E.
  - apply has_id_spec in E. intros [->|Ht]%elem_of_cons Hid; [by exists a|].
    destruct Ha. rewrite E, <- Hid. by apply list_elem_of_fmap_2.
  - intros [->|Ht]%elem_of_cons Hid; [|by apply IH]. apply has_id_spec in Hid. congruence.
Qed.

(** A secret loses a record: the record is revoked, or its secret is replaced by
    another and the grace passes. *)
Inductive ends (id secret : str) (s s1 : Rows (ApiToken F)) : Z → Prop :=
| EndsRevoked ok deadline : revoke_token ok id s = (Ok tt, s1) → ends id secret s s1 deadline
| EndsRotated ok now u1 u2 grace t' new :
    rotate_token sha256 ok now id u1 u2 grace s = (Ok (t', new), s1) →
    same_hash (hash new) (hash secret) = false → ends id secret s s1 (now + grace).

Lemma change_token_Ok ok id (f : ApiToken F → ApiToken F) s t s1 :
  change_token ok id f s = (Ok t, s1) →
  find_row t_id id (mem s) ≠ None ∧ s1 = load_all (modify_row t_id id f (mem s)).
Proof.
  unfold change_token. destruct (find_row t_id id (mem s)); [|done]. rewrite commit_rows_spec. simpl.
  destruct ok; [|done]. by intros [= _ <-].
Qed.

Lemma ends_retires id secret s s1 deadline :
  settled s → ends id secret s s1 deadline → Forall (retired id (hash secret) deadline) (mem s1 ++ table s1).
Proof.
  intros [Hs Hn] He. apply Forall_forall. intros t Ht Hid. destruct He as [ok d Hr|ok now u1 u2 grace t' new Hr Hne].
  - unfold revoke_token in Hr. destruct (find_row t_id id (mem s)); [|done]. rewrite commit_rows_spec in Hr. simpl in Hr.
    destruct ok; [|done]. injection Hr as <-. simpl in Ht.
    destruct (remove_row_notin t_id id (mem s) Hn). rewrite <- Hid. apply list_elem_of_fmap_2. set_solver.
  - unfold rotate_token in Hr. destruct (change_token _ _ _ _) as [[t1|] s2] eqn:Ec; [|done].
    injection Hr as <- <- <-. apply change_token_Ok in Ec as [_ ->]. simpl in Ht.
    assert (Ht' : t ∈ modify_row t_id id (rotated sha256 now grace (new_secret u1 u2)) (mem s)) by set_solver.
    apply modify_row_id in Ht' as (t0 & _ & ->); [|done|done|done]. simpl. split; [done|].
    destruct (0 <? grace); [|done]. intros p _ _. exists (sat_add64 now grace). split; [done|]. unfold sat_add64. lia.
Qed.

(** C32: A retired secret stays retired. Once a token is revoked, or its secret is
    replaced and the grace has passed, no sequence of later operations of the
    store, failed writes, restarts and imports included, makes the old secret
    open that token again. New identifiers and secrets are assumed to be new, and
    an imported dump to be none that still holds the old secret: such a dump does
    bring it back ([old_dump_revives]). *)
Theorem token_secret_retired id secret s s1 deadline ops now t :
  settled s → ends id secret s s1 deadline → Forall (fresh_op id (hash secret) deadline) ops → deadline <= now →
  t ∈ mem (exec_tokens sha256 ops s1) → t_id t = id → opens sha256 now (hash secret) t = false.
Proof.
  intros Hs He Hf Hd. apply (retired_closed id (hash secret) deadline); [|done].
  apply exec_all_keeps; [|by eapply ends_retires]. eapply Forall_impl; [exact Hf|]. intros o. apply retired_keeps.
Qed.

(** An operation that leaves the pin of [id] alone; an imported dump has it. *)
Definition keeps_pin (id key : str) (o : TokenOp F) : Prop :=
  match o with
  | TCreate _ id' _ _ _ _ => id' ≠ id
  | TRotate _ _ id' _ _ _ => id' ≠ id
  | TImport _ tokens => Forall (fun t => t_id t = id → t_pinned_key t = Some key) tokens
  | _ => True
  end.

(** The device that is pinned first stays the only one: until the secret is
    rotated, another key is a mismatch, whatever else happens to the store. *)
Theorem token_pin_binds ok ok' id key key' s s1 ops :
  settled s → pin_key ok id key s = (Ok Pinned, s1) → Forall (keeps_pin id key) ops → key ≠ key' →
  (pin_key ok' id key' (exec_tokens sha256 ops s1)).1 = Ok Mismatch
  ∨ (pin_key ok' id key' (exec_tokens sha256 ops s1)).1 = Err NoSuchRecord.
Proof.
  intros [Hs Hn] Hp Ho Hk.
  assert (H1 : Forall (fun t => t_id t = id → t_pinned_key t = Some key) (mem s1 ++ table s1)).
  { unfold pin_key in Hp. destruct (find_row t_id id (mem s)) as [t0|] eqn:E; [|done].
    destruct (t_pinned_key t0); [case_match; done|]. rewrite commit_rows_spec in Hp. destruct ok; [|done].
    injection Hp as <-. simpl. apply Forall_forall. intros t Ht Hid.
    assert (Ht' : t ∈ modify_row t_id id (with_pin (Some key)) (mem s)) by set_solver.
    by apply modify_row_id in Ht' as (t1 & _ & ->). }
  assert (H2 : Forall (fun t => t_id t = id → t_pinned_key t = Some key)
                 (mem (exec_tokens sha256 ops s1) ++ table (exec_tokens sha256 ops s1))).
  { apply exec_all_keeps; [|done]. eapply Forall_impl; [exact Ho|]. intros o Hk'. split.
    - intros t Hc Ht. destruct o as [| | | | | |? tokens|]; try done; simpl in *; [by subst|].
      rewrite Forall_forall in Hk'. by apply Hk'.
    - intros t t' Hb Hr Ht'. destruct o; try done; simpl in Hb.
      + destruct Hb as [? ->]. by apply Hr.
      + destruct Hb as (? & Hnone & ->). simpl in Ht'. rewrite (Hr Ht') in Hnone. done.
      + destruct Hb as [? ->]. simpl in *. congruence.
      + destruct Hb as (ttl & ? & ->). by apply Hr. }
  unfold pin_key. destruct (find_row t_id id _) as [t|] eqn:E; [|by right]. left.
  apply find_row_Some in E as [Ht Hid]. rewrite Forall_forall in H2. rewrite (H2 t ltac:(set_solver) Hid). simpl.
  unfold str_eqb. by rewrite bool_decide_eq_false_2.
Qed.

(** What a tunnel connects with. The server admits a connection only for its own
    token, with every permission, or for a token of the store that is not
    expired, whose current secret, or previous one within its grace, was
    presented, from an address the token allows; the connection then has exactly
    the permissions of that record and the fence of its organization, and a decoy
    never passes without its alarm. *)
Theorem token_authorization_sound master_token (store : Rows (ApiToken F)) orgs seen now hs ip p evs seen' :
  authorize_tunnel_token sha256 master_token store orgs seen now hs ip = (Some p, evs, seen') →
  ∃ secret, extract_token hs = Some secret ∧
    ((sha256 secret = sha256 master_token ∧ p = master_perms)
     ∨ ∃ t : ApiToken F, t ∈ mem store ∧ p = perms_of orgs t ∧ ip_allowed ip (t_allowed_ips t) = true
         ∧ (∀ e, t_expires_at t = Some e → now < e)
         ∧ (t_canary t = true → CanaryTripped (t_name t) (t_id t) ip ∈ evs)
         ∧ (sha256 (t_token_hash t) = sha256 (hash secret)
            ∨ ∃ prev e, t_prev_token_hash t = Some prev ∧ t_prev_expires_at t = Some e ∧ now < e
                ∧ sha256 prev = sha256 (hash secret))).
Proof.
  unfold authorize_tunnel_token. destruct (extract_token hs) as [secret|]; [|done]. intros H.
  exists secret. split; [done|]. destruct (same_hash secret master_token) eqn:Em.
  { left. apply str_eqb_eq in Em. by injection H as <- _ _. }
  right. destruct (verify_token sha256 now secret store) as [t|] eqn:Ev; [|done].
  destruct (ip_allowed ip (t_allowed_ips t)) eqn:Ei; [|done]. simpl in H.
  destruct (note_ip ip _) as [is_new ips]. injection H as <- <- _.
  apply find_some in Ev as [Hin%list_elem_of_In Ho]. exists t. unfold opens in Ho.
  destruct (is_expired now t) eqn:Ee; [done|]. split_and!; [done|done|done| | |].
  - unfold is_expired in Ee. destruct (t_expires_at t); [|done]. to_prop. intros e [= <-]. lia.
  - intros ->. apply elem_of_app. left. set_solver.
  - apply orb_true_iff in Ho as [Ho|[Hv Ho]%andb_true_iff]; [left; by apply str_eqb_eq|]. right. unfold prev_secret_valid in Hv.
    destruct (t_prev_token_hash t) as [prev|]; [|done]. destruct (t_prev_expires_at t) as [e|]; [|done]. to_prop.
    exists prev, e. split_and!; [done|done|lia|by apply str_eqb_eq].
Qed.

End Life.

(** ** Samples *)

Module Samples.
Definition spec : TokenSpec QArith_base.Q :=
  {| ts_name := bs "ci"; ts_hostnames := [bs "ci.example"]; ts_paths := []; ts_topics := []; ts_allowed_ips := [bs "0.0.0.0/0"];
     ts_org_id := Some (bs "acme"); ts_ttl_seconds := Some 3600; ts_max_rps := None; ts_daily_max_bytes := None;
     ts_max_connections := None; ts_allow_public := false; ts_allow_server_side := false; ts_allow_bind := true;
     ts_allow_otel := false; ts_canary := true |}.
Definition store0 : Rows (ApiToken QArith_base.Q) := (create_token id true (bs "1") (bs "a") (bs "b") 100 spec (load_all [])).2.
Definition rotated_store := rotate_token id true 200 (bs "1") (bs "c") (bs "d") 60 store0.
Definition later : list (TokenOp QArith_base.Q) :=
  [TRotate false 220 (bs "1") (bs "e") (bs "f") 60; TRestart; TImport true (mem rotated_store.2); TRefresh true 230 (bs "apr_cd"); TPin true (bs "1") (bs "k")].
Definition bearer : headers := [(bs "authorization", bs "Bearer apr_cd")].

(** Within the grace both secrets open the token, after it only the new one. *)
Example grace_window :
  verify_token id 259 (bs "apr_ab") rotated_store.2 ≠ None ∧ verify_token id 260 (bs "apr_ab") rotated_store.2 = None
  ∧ verify_token id 260 (bs "apr_cd") rotated_store.2 ≠ None.
Proof. vm_compute. split_and!; [discriminate|reflexivity|discriminate]. Qed.

(** A dump taken before a revocation brings the token back. *)
Example old_dump_revives :
  let revoked := (revoke_token true (bs "1") store0).2 in
  verify_token id 150 (bs "apr_ab") revoked = None
  ∧ verify_token id 150 (bs "apr_ab") (import_tokens true (mem store0) revoked).2 ≠ None.
Proof. vm_compute. by split. Qed.

Lemma token_secret_retired_witness :
  match mem (exec_tokens id later rotated_store.2) with
  | t :: _ => t_id t = bs "1" ∧ opens id 300 (hash_token id (bs "apr_ab")) t = false
  | [] => False
  end.
Proof.
  destruct (mem (exec_tokens id later rotated_store.2)) as [|t l] eqn:E; [vm_compute in E; discriminate E|].
  assert (t_id t = bs "1") as Hid by (vm_compute in E; by injection E as <- _). split; [exact Hid|].
  apply (token_secret_retired id (bs "1") (bs "apr_ab") store0 rotated_store.2 (200 + 60) later 300 t).
  - split; [reflexivity|]. apply NoDup_singleton.
  - eapply (EndsRotated id (bs "1") (bs "apr_ab") store0 rotated_store.2 true 200 (bs "c") (bs "d") 60).
    + vm_compute. reflexivity.
    + vm_compute. reflexivity.
  - repeat (apply Forall_cons_2 || apply Forall_nil_2); try exact I; try reflexivity.
    intros _. split; [reflexivity|]. intros p Hp _. exists 260. split; [reflexivity|lia].
  - lia.
  - rewrite E. left.
  - exact Hid.
Defined.

Lemma token_authorization_sound_witness :
  ∃ secret, extract_token bearer = Some secret ∧ secret = bs "apr_cd".
Proof.
  destruct (token_authorization_sound id (bs "master") rotated_store.2 [(bs "acme", [bs "*.example"])] [] 300 bearer (V4 0)
              (perms_of [(bs "acme", [bs "*.example"])] (rotated id 200 60 (new_secret (bs "c") (bs "d")) (new_token id (bs "1") (new_secret (bs "a") (bs "b")) 100 spec)))
              [CanaryTripped (bs "ci") (bs "1") (V4 0)] [(bs "1", [V4 0])]) as (secret & Hs & _).
  - vm_compute. reflexivity.
  - exists secret. split; [exact Hs|]. injection Hs as <-. reflexivity.
Defined.
End Samples.
