(* ===== verification/TokensApi.v ===== *)
(** The dashboard's token endpoints, [aperio-server/src/api/tokens.rs]: minting,
    editing, refreshing, rotating and revoking dynamic tokens, inside the caller's
    organization.

    A refusal is its HTTP status. Audit lines, events and the autoscaling records
    of a revoked token are not part of the state. *)

From S2P Require Import Prelude Binds IpNet Orgs VisitorAuth Clients RateLimit Topics PubSub Grants Users Sessions Rows Tokens.

(** What the handlers read and change: the accounts, the tokens, the panel
    hostnames, the cap on tokens of each organization, and the connections. *)
Record TokenPanel (F : Type) : Type := {
  k_auth : AuthState;
  k_store : Rows (ApiToken F);
  k_panels : list str;
  k_caps : list (str * option Z);
  k_world : World;
}.
Arguments k_auth {F} t.
Arguments k_store {F} t.
Arguments k_panels {F} t.
Arguments k_caps {F} t.
Arguments k_world {F} t.

Record TokenCreateRequest (F : Type) : Type := {
  tc_name : str;
  tc_hostnames : list str;
  tc_paths : list str;
  tc_allowed_ips : list str;
  tc_ttl_seconds : option Z;
  tc_max_rps : option F;
  tc_daily_max_bytes : option Z;
  tc_max_connections : option Z;
  tc_allow_public : bool;
  tc_allow_server_side : bool;
  tc_allow_bind : bool;
  tc_allow_otel : bool;
  tc_topics : list str;
  tc_canary : bool;
}.
Arguments tc_name {F} t.
Arguments tc_hostnames {F} t.
Arguments tc_paths {F} t.
Arguments tc_allowed_ips {F} t.
Arguments tc_ttl_seconds {F} t.
Arguments tc_max_rps {F} t.
Arguments tc_daily_max_bytes {F} t.
Arguments tc_max_connections {F} t.
Arguments tc_allow_public {F} t.
Arguments tc_allow_server_side {F} t.
Arguments tc_allow_bind {F} t.
Arguments tc_allow_otel {F} t.
Arguments tc_topics {F} t.
Arguments tc_canary {F} t.

Record TokenUpdateRequest (F : Type) : Type := {
  tu_name : option str;
  tu_hostnames : option (list str);
  tu_paths : option (list str);
  tu_allowed_ips : option (list str);
  tu_ttl_seconds : option Z;
  tu_max_rps : option F;
  tu_daily_max_bytes : option Z;
  tu_max_connections : option Z;
  tu_allow_public : option bool;
  tu_allow_server_side : option bool;
  tu_allow_bind : option bool;
  tu_allow_otel : option bool;
  tu_topics : option (list str);
  tu_canary : option bool;
}.
Arguments tu_name {F} t.
Arguments tu_hostnames {F} t.
Arguments tu_paths {F} t.
Arguments tu_allowed_ips {F} t.
Arguments tu_ttl_seconds {F} t.
Arguments tu_max_rps {F} t.
Arguments tu_daily_max_bytes {F} t.
Arguments tu_max_connections {F} t.
Arguments tu_allow_public {F} t.
Arguments tu_allow_server_side {F} t.
Arguments tu_allow_bind {F} t.
Arguments tu_allow_otel {F} t.
Arguments tu_topics {F} t.
Arguments tu_canary {F} t.

(** ** Permission lists *)

(** Trimmed, blank ones skipped; [*] kept, anything else normalized or refused. *)
Fixpoint admit_list (normalize : str → option str) (l : list str) : result (list str) Z :=
  match l with
  | [] => Ok []
  | h :: l' =>
      let trimmed := trim h in
      if str_eqb trimmed [] then admit_list normalize l'
      else
        match (if str_eqb trimmed (bs "*") then Some (bs "*") else normalize trimmed) with
        | None => Err 400
        | Some v => match admit_list normalize l' with Ok out => Ok (v :: out) | Err e => Err e end
        end
  end.

Fixpoint admit_ips (l : list str) : result (list str) Z :=
  match l with
  | [] => Ok []
  | e :: l' =>
      let trimmed := trim e in
      if str_eqb trimmed [] then admit_ips l'
      else if negb (valid_ip_entry trimmed) then Err 400
      else match admit_ips l' with Ok out => Ok (trimmed :: out) | Err e => Err e end
  end.

Definition validate_token_perms (hostnames paths allowed_ips : list str) : result (list str * list str * list str) Z :=
  (let? hosts := admit_list normalize_hostname_bind hostnames in
   let? out_paths := admit_list normalize_path_bind paths in
   let? ips := admit_ips allowed_ips in
   Ok (hosts, out_paths, match ips with [] => [bs "0.0.0.0/0"] | _ => ips end))%rust.

Fixpoint validate_topics_from (out : list str) (l : list str) : result (list str) Z :=
  match l with
  | [] => Ok out
  | raw :: l' =>
      let filter := trim raw in
      if str_eqb filter [] then validate_topics_from out l'
      else
        let filter := if str_eqb filter (bs "*") then bs "#" else filter in
        match validate_topic_filter filter with
        | Err _ => Err 400
        | Ok _ => validate_topics_from (if bool_decide (filter ∈ out) then out else out ++ [filter]) l'
        end
  end.
Definition validate_topics (topics : list str) : result (list str) Z := validate_topics_from [] topics.

Section Handlers.
Context {F : Type} `{HF : Float F} (is_finite : F → bool) (sha256 : str → str).
(** Whether a frame fails to encode. *)
Context (json_error : OutFrame → option str).

Definition with_store (st : TokenPanel F) (s : Rows (ApiToken F)) : TokenPanel F :=
  {| k_auth := k_auth st; k_store := s; k_panels := k_panels st; k_caps := k_caps st; k_world := k_world st |}.

Definition with_k_world (st : TokenPanel F) (w : World) : TokenPanel F :=
  {| k_auth := k_auth st; k_store := k_store st; k_panels := k_panels st; k_caps := k_caps st; k_world := w |}.

Definition request_org (st : TokenPanel F) (now : Z) (hs : headers) : option str :=
  match resolve_caller sha256 (k_auth st) now hs with Some c => effective_org c | None => None end.

Definition bad_name (name : str) : bool := str_eqb (trim name) [] || (64 <? len (trim name)).

Definition bad_rate (r : option F) : bool :=
  match r with Some v => negb (is_finite v) || fltb v fzero | None => false end.

Definition tokens_list_handler (st : TokenPanel F) (now : Z) (hs : headers) : list (ApiToken F) :=
  filter (fun t => t_org_id t = request_org st now hs) (mem (k_store st)).

Definition check_org_hostname_fence (st : TokenPanel F) (org : option str) (hostnames : list str) : result unit Z :=
  if existsb (fun host => bool_decide (host ∈ k_panels st)) hostnames then Err 403
  else
    match hostnames_of (a_fences (k_auth st)) org with
    | [] => Ok tt
    | allowlist =>
        if forallb (fun host => str_eqb host (bs "*") || hostname_in_org_allowlist host allowlist) hostnames
        then Ok tt else Err 403
    end.

Definition token_cap (st : TokenPanel F) (org : option str) : option Z :=
  match org with
  | None => None
  | Some id => match find (fun o => str_eqb o.1 id) (k_caps st) with Some o => o.2 | None => None end
  end.

Definition org_tokens (org : option str) (l : list (ApiToken F)) : Z :=
  Z.of_nat (length (filter (fun t => t_org_id t = org) l)).

Definition org_token_quota_reached (store : Rows (ApiToken F)) (org : option str) (quota_max : option Z) : bool :=
  match quota_max with Some max => max <=? org_tokens org (mem store) | None => false end.

Definition tokens_create_handler (ok : bool) (id u1 u2 : str) (st : TokenPanel F) (now : Z) (hs : headers)
    (p : TokenCreateRequest F) : result (ApiToken F * str) Z * TokenPanel F :=
  if bad_name (tc_name p) then (Err 400, st)
  else
    match validate_token_perms (tc_hostnames p) (tc_paths p) (tc_allowed_ips p) with
    | Err e => (Err e, st)
    | Ok (hostnames, paths, ips) =>
        if bad_rate (tc_max_rps p) then (Err 400, st)
        else
          match validate_topics (tc_topics p) with
          | Err e => (Err e, st)
          | Ok topics =>
              let org := request_org st now hs in
              match check_org_hostname_fence st org hostnames with
              | Err e => (Err e, st)
              | Ok _ =>
                  if org_token_quota_reached (k_store st) org (token_cap st org) then (Err 403, st)
                  else
                    let spec :=
                      {| ts_name := trim (tc_name p); ts_hostnames := hostnames; ts_paths := paths; ts_topics := topics;
                         ts_allowed_ips := ips; ts_org_id := org; ts_ttl_seconds := tc_ttl_seconds p;
                         ts_max_rps := opt_filter (fltb fzero) (tc_max_rps p);
                         ts_daily_max_bytes := opt_filter (fun v => 0 <? v) (tc_daily_max_bytes p);
                         ts_max_connections := opt_filter (fun v => 0 <? v) (tc_max_connections p);
                         ts_allow_public := tc_allow_public p; ts_allow_server_side := tc_allow_server_side p;
                         ts_allow_bind := tc_allow_bind p; ts_allow_otel := tc_allow_otel p;
                         ts_canary := tc_canary p |} in
                    match create_token sha256 ok id u1 u2 now spec (k_store st) with
                    | (Ok r, s) => (Ok r, with_store st s)
                    | (Err _, s) => (Err 500, with_store st s)
                    end
              end
          end
    end.

Definition token_in_effective_org (st : TokenPanel F) (now : Z) (hs : headers) (id : str) : bool :=
  existsb (fun t => str_eqb (t_id t) id && bool_decide (t_org_id t = request_org st now hs)) (mem (k_store st)).

Definition status_of_write (e : NotWritten) : Z := match e with NoSuchRecord => 404 | NotPersisted => 500 end.

(** The checks of an edit: the patch it comes to. *)
Definition update_patch (st : TokenPanel F) (now : Z) (hs : headers) (id : str) (p : TokenUpdateRequest F) :
    result (TokenPatch F) Z :=
  if match tu_name p with Some n => bad_name n | None => false end then Err 400
  else
    match validate_token_perms (default [] (tu_hostnames p)) (default [] (tu_paths p)) (default [] (tu_allowed_ips p)) with
    | Err e => Err e
    | Ok (hostnames, paths, ips) =>
        if bad_rate (tu_max_rps p) then Err 400
        else
          match match tu_topics p with
                | None => Ok None
                | Some l => match validate_topics l with Ok v => Ok (Some v) | Err e => Err e end
                end with
          | Err e => Err e
          | Ok topics =>
              match if is_some (tu_hostnames p)
                    then check_org_hostname_fence st (request_org st now hs) hostnames else Ok tt with
              | Err e => Err e
              | Ok _ =>
                  if negb (token_in_effective_org st now hs id) then Err 404
                  else
                    Ok {| tp_name := trim <$> tu_name p; tp_hostnames := (fun _ => hostnames) <$> tu_hostnames p;
                          tp_paths := (fun _ => paths) <$> tu_paths p; tp_topics := topics;
                          tp_allowed_ips := (fun _ => ips) <$> tu_allowed_ips p;
                          tp_ttl_seconds := (fun n => if n =? 0 then None else Some n) <$> tu_ttl_seconds p;
                          tp_max_rps := Some <$> tu_max_rps p; tp_daily_max_bytes := Some <$> tu_daily_max_bytes p;
                          tp_max_connections := Some <$> tu_max_connections p; tp_allow_public := tu_allow_public p;
                          tp_allow_server_side := tu_allow_server_side p; tp_allow_bind := tu_allow_bind p;
                          tp_allow_otel := tu_allow_otel p; tp_canary := tu_canary p |}
              end
          end
    end.

Definition tokens_update_handler (ok : bool) (st : TokenPanel F) (now : Z) (hs : headers) (id : str)
    (p : TokenUpdateRequest F) : result (ApiToken F) Z * TokenPanel F :=
  match update_patch st now hs id p with
  | Err e => (Err e, st)
  | Ok patch =>
      match update_token ok now id patch (k_store st) with
      | (Err e, s) => (Err (status_of_write e), with_store st s)
      | (Ok record, s) =>
          let st := with_store st s in
          (Ok record,
           if is_some (tu_topics p)
           then with_k_world st (apply_token_topics json_error (k_world st) (t_id record) (t_topics record)).1
           else st)
      end
  end.

(** [admitted] is what the rate limit answers for the caller's address. *)
Definition tokens_refresh_handler (ok admitted : bool) (st : TokenPanel F) (now : Z) (hs : headers) :
    result (ApiToken F) Z * TokenPanel F :=
  if negb admitted then (Err 429, st)
  else
    match extract_token hs with
    | None => (Err 401, st)
    | Some secret =>
        match refresh_token sha256 ok now secret (k_store st) with
        | (Ok record, s) => (Ok record, with_store st s)
        | (Err NoSuchRecord, s) => (Err 401, with_store st s)
        | (Err NotPersisted, s) => (Err 500, with_store st s)
        end
    end.

Definition MAX_GRACE : Z := 365 * 24 * 3600.

Definition tokens_rotate_handler (ok : bool) (u1 u2 : str) (st : TokenPanel F) (now : Z) (hs : headers) (id : str)
    (grace : Z) : result (ApiToken F * str) Z * TokenPanel F :=
  if MAX_GRACE <? grace then (Err 400, st)
  else if negb (token_in_effective_org st now hs id) then (Err 404, st)
  else
    match rotate_token sha256 ok now id u1 u2 grace (k_store st) with
    | (Ok r, s) => (Ok r, with_store st s)
    | (Err e, s) => (Err (status_of_write e), with_store st s)
    end.

(** The connections told to end when their token is revoked. *)
Definition disconnect_token_clients (w : World) (id : str) : list str :=
  (filter (fun kh => token_id (perms kh.2) = Some id) (w_clients w)).*1.

Definition tokens_revoke_handler (ok : bool) (st : TokenPanel F) (now : Z) (hs : headers) (id : str) :
    result (list str) Z * TokenPanel F :=
  if negb (token_in_effective_org st now hs id) then (Err 404, st)
  else
    match revoke_token ok id (k_store st) with
    | (Ok _, s) => (Ok (disconnect_token_clients (k_world st) id), with_store st s)
    | (Err e, s) => (Err (status_of_write e), with_store st s)
    end.

End Handlers.

(** ** Isolation *)

Section Isolation.
Context {F : Type} `{HF : Float F} (is_finite : F → bool) (sha256 : str → str) (json_error : OutFrame → option str).

Inductive TokenCall : Type :=
| CallCreate (ok : bool) (id u1 u2 : str) (p : TokenCreateRequest F)
| CallUpdate (ok : bool) (id : str) (p : TokenUpdateRequest F)
| CallRotate (ok : bool) (u1 u2 id : str) (grace : Z)
| CallRevoke (ok : bool) (id : str).

Definition call (c : TokenCall) (st : TokenPanel F) (now : Z) (hs : headers) : TokenPanel F :=
  match c with
  | CallCreate ok id u1 u2 p => (tokens_create_handler is_finite sha256 ok id u1 u2 st now hs p).2
  | CallUpdate ok id p => (tokens_update_handler is_finite sha256 json_error ok st now hs id p).2
  | CallRotate ok u1 u2 id grace => (tokens_rotate_handler sha256 ok u1 u2 st now hs id grace).2
  | CallRevoke ok id => (tokens_revoke_handler sha256 ok st now hs id).2
  end.

(** Hostnames an organization may be given: no panel, and inside its fence. *)
Definition fenced (st : TokenPanel F) (org : option str) (hosts : list str) : Prop :=
  Forall (fun h => (h ∉ k_panels st) ∧
    (hostnames_of (a_fences (k_auth st)) org = [] ∨ h = bs "*"
     ∨ hostname_in_org_allowlist h (hostnames_of (a_fences (k_auth st)) org) = true)) hosts.

Lemma check_fence_Ok (st : TokenPanel F) org hosts : check_org_hostname_fence st org hosts = Ok tt → fenced st org hosts.
Proof.
  unfold check_org_hostname_fence, fenced. destruct (existsb _ hosts) eqn:Ep; [done|]. apply existsb_false in Ep.
  set (fence := hostnames_of (a_fences (k_auth st)) org). intros H.
  assert (Hf : fence = [] ∨ Forall (fun h => (str_eqb h (bs "*") || hostname_in_org_allowlist h fence) = true) hosts).
  { destruct fence as [|e l]; [by left|]. right. destruct (forallb _ hosts) eqn:E; [|done]. by apply forallb_Forall. }
  rewrite Forall_forall in *. intros h Hh. split; [specialize (Ep h Hh); by apply bool_decide_eq_false in Ep|].
  destruct Hf as [|Hf]; [by left|]. specialize (Hf h Hh). right.
  apply orb_true_iff in Hf as [Hf|Hf]; [left; by apply str_eqb_eq|by right].
Qed.

Lemma in_org_found (st : TokenPanel F) now hs id :
  NoDup (t_id <$> mem (k_store st)) → token_in_effective_org sha256 st now hs id = true →
  ∀ t, t ∈ mem (k_store st) → t_id t = id → t_org_id t = request_org sha256 st now hs.
Proof.
  intros Hn H t Ht Hid. apply existsb_Exists in H as (t0 & Ht0 & [Hi%str_eqb_eq Ho%bool_decide_eq_true]%andb_true_iff).
  assert (t = t0) as ->; [|done]. assert (t_id t = t_id t0) as E by congruence.
  pose proof (find_row_unique t_id _ t Hn Ht) as E1. rewrite E, (find_row_unique t_id _ t0 Hn Ht0) in E1. congruence.
Qed.

(** What a call may do to the records of a list. *)
Definition within_org (st : TokenPanel F) (org : option str) (l l' : list (ApiToken F)) : Prop :=
  (∀ t', t' ∈ l' → t' ∈ l ∨ t_org_id t' = org ∧
     (fenced st org (t_hostnames t') ∨ ∃ t, t ∈ l ∧ t_id t = t_id t' ∧ t_hostnames t = t_hostnames t'))
  ∧ (∀ t, t ∈ l → t_org_id t ≠ org → t ∈ l').

Lemma within_org_refl st org l : within_org st org l l.
Proof. split; [by left|done]. Qed.

Lemma within_org_modify st org id f l :
  NoDup (t_id <$> l) → (∀ t, t ∈ l → t_id t = id → t_org_id t = org) →
  (∀ t, t_id (f t) = t_id t ∧ t_org_id (f t) = t_org_id t) →
  (∀ t, t_hostnames (f t) = t_hostnames t ∨ fenced st org (t_hostnames (f t))) →
  within_org st org l (modify_row t_id id f l).
Proof.
  intros Hn Ho Hf Hh. split.
  - intros t' [Ht|(t0 & E & ->)]%elem_of_modify; [by left|]. apply find_row_Some in E as [Hin Hid]. right.
    destruct (Hf t0) as [Hi ->]. split; [by apply Ho|]. destruct (Hh t0) as [E|E]; [right|by left].
    exists t0. by rewrite Hi, E.
  - intros t Ht Hne. apply elem_of_modify_other; [done|]. intros Hid. by apply Hne, Ho.
Qed.

Lemma commit_within {R} st org ok (change : list (ApiToken F) → R * list (ApiToken F)) s :
  within_org st org (mem s) (change (mem s)).2 → within_org st org (mem s) (mem (commit_rows ok change s).2).
Proof. rewrite commit_rows_spec. destruct ok; [done|]. intros _. apply within_org_refl. Qed.

Lemma change_within st org ok id f s :
  NoDup (t_id <$> mem s) → (∀ t, t ∈ mem s → t_id t = id → t_org_id t = org) →
  (∀ t, t_id (f t) = t_id t ∧ t_org_id (f t) = t_org_id t) →
  (∀ t, t_hostnames (f t) = t_hostnames t ∨ fenced st org (t_hostnames (f t))) →
  within_org st org (mem s) (mem (change_token ok id f s).2).
Proof.
  intros Hn Ho Hf Hh. unfold change_token. destruct (find_row t_id id (mem s)); [|apply within_org_refl].
  by apply commit_within, within_org_modify.
Qed.

Lemma update_patch_Ok (st : TokenPanel F) now hs id p patch :
  update_patch is_finite sha256 st now hs id p = Ok patch →
  token_in_effective_org sha256 st now hs id = true
  ∧ (∀ h, tp_hostnames patch = Some h → fenced st (request_org sha256 st now hs) h).
Proof.
  unfold update_patch. destruct (match tu_name p with Some n => _ | None => _ end); [done|].
  destruct (validate_token_perms _ _ _) as [[[hosts paths] ips]|]; [|done]. destruct (bad_rate _ _); [done|].
  destruct (match tu_topics p with Some l => _ | None => _ end); [|done].
  destruct (if is_some (tu_hostnames p) then _ else _) as [[]|] eqn:Ef; [|done].
  destruct (token_in_effective_org _ _ _ _ _); [|done]. intros [= <-]. split; [done|]. simpl.
  intros h Hh. destruct (tu_hostnames p); [|done]. simpl in Hh. injection Hh as <-. by apply check_fence_Ok.
Qed.

Lemma create_within ok id u1 u2 (st : TokenPanel F) now hs p :
  within_org st (request_org sha256 st now hs) (mem (k_store st))
    (mem (k_store (tokens_create_handler is_finite sha256 ok id u1 u2 st now hs p).2)).
Proof.
  unfold tokens_create_handler. destruct (bad_name _); [apply within_org_refl|].
  destruct (validate_token_perms _ _ _) as [[[hosts paths] ips]|]; [|apply within_org_refl].
  destruct (bad_rate _ _); [apply within_org_refl|]. destruct (validate_topics _) as [topics|]; [|apply within_org_refl].
  destruct (check_org_hostname_fence _ _ _) as [[]|] eqn:Ef; [|apply within_org_refl]. apply check_fence_Ok in Ef.
  destruct (org_token_quota_reached _ _ _); [apply within_org_refl|].
  match goal with |- context [create_token ?a ?b ?c ?d ?e ?f ?g ?h] =>
    assert (Hw : within_org st (request_org sha256 st now hs) (mem (k_store st)) (mem (create_token a b c d e f g h).2));
      [|by destruct (create_token a b c d e f g h) as [[] ?]] end.
  apply commit_within. simpl. split; [|set_solver].
  intros t' [Ht| ->%list_elem_of_singleton]%elem_of_app; [by left|]. right. split; [done|]. by left.
Qed.

Lemma update_within ok (st : TokenPanel F) now hs id p :
  NoDup (t_id <$> mem (k_store st)) →
  within_org st (request_org sha256 st now hs) (mem (k_store st))
    (mem (k_store (tokens_update_handler is_finite sha256 json_error ok st now hs id p).2)).
Proof.
  intros Hn. unfold tokens_update_handler. destruct (update_patch _ _ _ _ _ _ _) as [patch|] eqn:Ep; [|apply within_org_refl].
  apply update_patch_Ok in Ep as [Hin Hf].
  assert (Hw : within_org st (request_org sha256 st now hs) (mem (k_store st)) (mem (update_token ok now id patch (k_store st)).2)).
  { apply change_within; [done|by apply in_org_found|done|]. intros t. simpl.
    destruct (tp_hostnames patch) as [h|] eqn:Eh; [right; by apply Hf|by left]. }
  destruct (update_token ok now id patch (k_store st)) as [[record|] s]; [|done]. by destruct (is_some (tu_topics p)).
Qed.

Lemma rotate_within ok u1 u2 (st : TokenPanel F) now hs id grace :
  NoDup (t_id <$> mem (k_store st)) →
  within_org st (request_org sha256 st now hs) (mem (k_store st))
    (mem (k_store (tokens_rotate_handler sha256 ok u1 u2 st now hs id grace).2)).
Proof.
  intros Hn. unfold tokens_rotate_handler. destruct (MAX_GRACE <? grace); [apply within_org_refl|].
  destruct (token_in_effective_org _ _ _ _ _) eqn:Hin; [|apply within_org_refl]. simpl. unfold rotate_token.
  pose proof (change_within st _ ok id (rotated sha256 now grace (new_secret u1 u2)) (k_store st) Hn
                (in_org_found _ _ _ _ Hn Hin) ltac:(done) ltac:(by left)) as H.
  by destruct (change_token _ _ _ _) as [[] ?].
Qed.

Lemma revoke_within ok (st : TokenPanel F) now hs id :
  NoDup (t_id <$> mem (k_store st)) →
  within_org st (request_org sha256 st now hs) (mem (k_store st))
    (mem (k_store (tokens_revoke_handler sha256 ok st now hs id).2)).
Proof.
  intros Hn. unfold tokens_revoke_handler. destruct (token_in_effective_org _ _ _ _ _) eqn:Hin; [|apply within_org_refl].
  simpl. assert (Hw : within_org st (request_org sha256 st now hs) (mem (k_store st)) (mem (revoke_token ok id (k_store st)).2)).
  { unfold revoke_token. destruct (find_row _ _ _); [|apply within_org_refl]. apply commit_within. simpl. split.
    - intros t' Ht%elem_of_remove. by left.
    - intros t Ht Hne. apply elem_of_remove_other; [done|]. intros Hid. apply Hne. by apply (in_org_found _ _ _ _ Hn Hin). }
  by destruct (revoke_token _ _ _) as [[] ?].
Qed.

Lemma create_within_cap ok id u1 u2 (st : TokenPanel F) now hs p r max :
  (tokens_create_handler is_finite sha256 ok id u1 u2 st now hs p).1 = Ok r →
  token_cap st (request_org sha256 st now hs) = Some max →
  org_tokens (request_org sha256 st now hs) (mem (k_store (tokens_create_handler is_finite sha256 ok id u1 u2 st now hs p).2))
  <= max.
Proof.
  intros Hr Hcap. unfold tokens_create_handler in *. set (org := request_org sha256 st now hs) in *.
  destruct (bad_name _); [done|]. destruct (validate_token_perms _ _ _) as [[[hosts paths] ips]|]; [|done].
  destruct (bad_rate _ _); [done|]. destruct (validate_topics _) as [topics|]; [|done].
  destruct (check_org_hostname_fence _ _ _) as [[]|]; [|done]. rewrite Hcap in *.
  simpl in Hr |- *. destruct (max <=? org_tokens org (mem (k_store st))) eqn:Eq; [done|]. apply Z.leb_gt in Eq.
  unfold create_token in *. rewrite commit_rows_spec in *. destruct ok; [|done]. simpl. unfold org_tokens in *.
  rewrite filter_app, length_app, filter_cons_True by done. simpl. lia.
Qed.

(** Tokens stay with their organization. Whatever a dashboard caller asks of the
    token endpoints, a record that is new or changed is one of the caller's
    organization, with hostnames that are no panel and inside that
    organization's fence, or the hostnames it had; every token of another
    organization is there, unchanged, afterwards; and a mint that succeeds leaves
    the organization within its cap. *)
Theorem token_api_isolated c (st : TokenPanel F) now hs :
  NoDup (t_id <$> mem (k_store st)) →
  within_org st (request_org sha256 st now hs) (mem (k_store st)) (mem (k_store (call c st now hs)))
  ∧ (∀ ok id u1 u2 p r max, c = CallCreate ok id u1 u2 p →
       (tokens_create_handler is_finite sha256 ok id u1 u2 st now hs p).1 = Ok r →
       token_cap st (request_org sha256 st now hs) = Some max →
       org_tokens (request_org sha256 st now hs) (mem (k_store (call c st now hs))) <= max).
Proof.
  intros Hn. split.
  - destruct c; [apply create_within|by apply update_within|by apply rotate_within|by apply revoke_within].
  - intros ok id u1 u2 p r max -> Hr Hcap. by eapply create_within_cap.
Qed.

End Isolation.

(** ** Samples *)

Module ApiSamples.
Definition root_key : AdminKey :=
  {| k_id := bs "k"; k_name := bs "root"; k_key_hash := token_key id (bs "apk"); k_key_prefix := bs "apk"; k_role := Admin;
     k_org_id := Some (bs "acme"); k_scope := Some (Child (bs "acme")); k_created_at := 0; k_expires_at := None |}.
Definition auth0 : AuthState :=
  {| a_sessions := {| sessions := []; rows := [] |}; a_users := {| users := []; disk := [] |}; a_keys := [root_key];
     a_secure_cookies := true; a_fenced_login := false; a_fences := [(bs "acme", [bs "*.acme.example"])]; a_clients := [] |}.
Definition world0 : World := {| w_clients := []; w_pending := []; w_metrics := no_metrics; w_chans := ∅ |}.
Definition panel0 : TokenPanel QArith_base.Q :=
  {| k_auth := auth0; k_store := load_all []; k_panels := [bs "panel.acme.example"]; k_caps := [(bs "acme", Some 1)];
     k_world := world0 |}.
Definition root : headers := [(bs "authorization", bs "Bearer apk")].
Definition asks (hosts : list str) : TokenCreateRequest QArith_base.Q :=
  {| tc_name := bs "ci"; tc_hostnames := hosts; tc_paths := []; tc_allowed_ips := []; tc_ttl_seconds := None; tc_max_rps := None;
     tc_daily_max_bytes := None; tc_max_connections := None; tc_allow_public := false; tc_allow_server_side := false;
     tc_allow_bind := false; tc_allow_otel := false; tc_topics := [bs "*"]; tc_canary := false |}.
Definition mint (hosts : list str) (st : TokenPanel QArith_base.Q) :=
  tokens_create_handler (fun _ => true) id true (bs "1") (bs "a") (bs "b") st 5 root (asks hosts).

(** Outside the fence, on a panel, and past the cap: each its refusal. *)
Example mint_refused :
  (mint [bs "web.other.example"] panel0).1 = Err 403 ∧ (mint [bs "panel.acme.example"] panel0).1 = Err 403
  ∧ (mint [bs "web.acme.example"] (mint [bs "web.acme.example"] panel0).2).1 = Err 403
  ∧ (mint [bs "bad_host!"] panel0).1 = Err 400.
Proof. by vm_compute. Qed.

(** Blank entries are skipped before the list is read, and a list of nothing else is
    the empty list, which permits every hostname and every path. *)
Example blank_hostname_opens :
  match (mint [bs "  "] panel0).1 with Ok (t, _) => t_hostnames t = [] | Err _ => False end
  ∧ hostname_allowed (perms_of [] (new_token id (bs "1") (bs "s") 0 Samples.spec)) (bs "any.example") = false
  ∧ match (mint [bs "  "] panel0).1 with
    | Ok (t, _) => hostname_allowed (perms_of [] t) (bs "any.example") = true
    | Err _ => False
    end.
Proof. by vm_compute. Qed.

Lemma token_api_isolated_witness :
  within_org panel0 (Some (bs "acme")) [] (mem (k_store (mint [bs "web.acme.example"] panel0).2))
  ∧ org_tokens (Some (bs "acme")) (mem (k_store (mint [bs "web.acme.example"] panel0).2)) <= 1.
Proof.
  pose proof (token_api_isolated (fun _ => true) id (fun _ => None)
    (CallCreate true (bs "1") (bs "a") (bs "b") (asks [bs "web.acme.example"])) panel0 5 root) as H.
  destruct H as [H1 H2]; [apply NoDup_nil_2|].
  split; [exact H1|]. eapply (H2 true (bs "1") (bs "a") (bs "b") _ _ 1 eq_refl).
  - vm_compute. reflexivity.
  - vm_compute. reflexivity.
Defined.
End ApiSamples.
