(* ===== verification/AdminKeys.v ===== *)
(** Administrative keys: their store ([store/admin_keys.rs]), which shares its
    table with the command line ([aperio-server admin create-key] and
    [revoke-key], [cli.rs]) while the server runs, and the endpoints that mint and
    revoke them ([api/admin_keys.rs]).

    The record, its expiry and its scope are in [Sessions], where a request's
    credential is resolved. Instants are nanoseconds; whether a read or a write of
    the table succeeds is an argument. *)

From S2P Require Import Prelude Binds Orgs VisitorAuth Units Grants Users Sessions Rows Tokens.

Definition REREAD_EVERY : Z := second.

(** The server's copy; the table is passed along. *)
Record AdminKeyStore : Type := {
  ks_keys : list AdminKey;
  ks_widened : list str;
  ks_read_at : Z;
  ks_adopted : list AdminKey;
}.

Definition with_keys (s : AdminKeyStore) (l : list AdminKey) : AdminKeyStore :=
  {| ks_keys := l; ks_widened := ks_widened s; ks_read_at := ks_read_at s; ks_adopted := ks_adopted s |}.

Definition with_key_scope (k : AdminKey) (sc : GrantOrg) : AdminKey :=
  {| k_id := k_id k; k_name := k_name k; k_key_hash := k_key_hash k; k_key_prefix := k_key_prefix k; k_role := k_role k;
     k_org_id := k_org_id k; k_scope := Some sc; k_created_at := k_created_at k; k_expires_at := k_expires_at k |}.

Definition convert_legacy_key (k : AdminKey) : AdminKey :=
  match k_scope k with Some _ => k | None => with_key_scope k (legacy_scope (k_role k) (k_org_id k)) end.

Definition widened_name (k : AdminKey) : option str :=
  match k_scope k with
  | Some _ => None
  | None => if bool_decide (legacy_scope (k_role k) (k_org_id k) = All) then Some (k_name k) else None
  end.

Definition convert_legacy_keys (l : list AdminKey) : list AdminKey * list str := (convert_legacy_key <$> l, omap widened_name l).

(** The table rewritten with what is in memory; whether it was. *)
Definition persist_keys (ok : bool) (s : AdminKeyStore) (tbl : list AdminKey) : bool * list AdminKey :=
  (ok, if ok then ks_keys s else tbl).

Definition load_keys (ok : bool) (inst : Z) (tbl : list AdminKey) : AdminKeyStore * list AdminKey :=
  let '(keys, widened) := convert_legacy_keys tbl in
  let s := {| ks_keys := keys; ks_widened := widened; ks_read_at := inst; ks_adopted := [] |} in
  if existsb (fun k => negb (is_some (k_scope k))) tbl then (s, (persist_keys ok s tbl).2) else (s, tbl).

(** A read that fails keeps what is in memory. *)
Definition reread (read : bool) (inst : Z) (tbl : list AdminKey) (s : AdminKeyStore) : AdminKeyStore :=
  if read then
    let keys := (convert_legacy_keys tbl).1 in
    {| ks_keys := keys; ks_widened := ks_widened s; ks_read_at := inst;
       ks_adopted := ks_adopted s ++ filter (fun k => bool_decide (k_id k ∈ k_id <$> ks_keys s) = false) keys |}
  else {| ks_keys := ks_keys s; ks_widened := ks_widened s; ks_read_at := inst; ks_adopted := ks_adopted s |}.

Definition take_adopted (s : AdminKeyStore) : list AdminKey * AdminKeyStore :=
  (ks_adopted s, {| ks_keys := ks_keys s; ks_widened := ks_widened s; ks_read_at := ks_read_at s; ks_adopted := [] |}).

Definition import_keys (ok : bool) (keys : list AdminKey) (s : AdminKeyStore) (tbl : list AdminKey) :
    result nat NotWritten * AdminKeyStore * list AdminKey :=
  let s' := with_keys s (convert_legacy_keys keys).1 in
  let '(written, tbl) := persist_keys ok s' tbl in
  if written then (Ok (length (ks_keys s')), s', tbl) else (Err NotPersisted, with_keys s' (ks_keys s), tbl).

Section Store.
Context (sha256 : str → str).

Definition new_key_secret (u1 u2 : str) : str := bs "apk_" ++ u1 ++ u2.

Definition new_key (id secret name : str) (now : Z) (role : Role) (scope : GrantOrg) (ttl : option Z) : AdminKey :=
  {| k_id := id; k_name := name; k_key_hash := token_key sha256 secret; k_key_prefix := take SECRET_PREFIX secret;
     k_role := role; k_org_id := match scope with Child o => Some o | Master | All => None end; k_scope := Some scope;
     k_created_at := now; k_expires_at := sat_add64 now <$> ttl |}.

Definition create_key (read ok : bool) (inst : Z) (id u1 u2 name : str) (now : Z) (role : Role) (scope : GrantOrg)
    (ttl : option Z) (s : AdminKeyStore) (tbl : list AdminKey) : option (AdminKey * str) * AdminKeyStore * list AdminKey :=
  let secret := new_key_secret u1 u2 in
  let record := new_key id secret name now role scope ttl in
  let s := reread read inst tbl s in
  let s' := with_keys s (ks_keys s ++ [record]) in
  let '(written, tbl) := persist_keys ok s' tbl in
  if written then (Some (record, secret), s', tbl) else (None, s, tbl).

Definition revoke_key (read ok : bool) (inst : Z) (id : str) (s : AdminKeyStore) (tbl : list AdminKey) :
    result unit NotWritten * AdminKeyStore * list AdminKey :=
  let s := reread read inst tbl s in
  match find_row k_id id (ks_keys s) with
  | None => (Err NoSuchRecord, s, tbl)
  | Some _ =>
      let s' := with_keys s (remove_row k_id id (ks_keys s)) in
      let '(written, tbl) := persist_keys ok s' tbl in
      if written then (Ok tt, s', tbl) else (Err NotPersisted, s, tbl)
  end.

(** The check of a presented secret, with the read it may make on the way. *)
Definition verify_admin_key (read : bool) (inst now : Z) (secret : str) (s : AdminKeyStore) (tbl : list AdminKey) :
    option AdminKey * AdminKeyStore :=
  let s := if REREAD_EVERY <=? sat_sub inst (ks_read_at s) then reread read inst tbl s else s in
  (verify_key sha256 now (ks_keys s) secret, s).

(** ** The command line: another process, its own copy, the same table *)

Definition cli_key_scope (orgs : list (str * str)) (org : str) : option GrantOrg :=
  match org_parse org with
  | Child raw => (fun o => Child o.1) <$> find (fun o => str_eqb o.1 raw || str_eqb o.2 raw) orgs
  | scope => Some scope
  end.

Definition cli_ttl (expire : option str) : result (option Z) UnitError :=
  match expire with
  | None => Ok None
  | Some raw =>
      match span_parse raw with
      | Ok span => if span_is_zero span then Ok None else Ok (Some (Z.max (span_as_secs span) 1))
      | Err e => Err e
      end
  end.

Definition admin_create_key (loaded read ok : bool) (inst : Z) (orgs : list (str * str)) (id u1 u2 : str) (now : Z)
    (name role org : str) (expire : option str) (tbl : list AdminKey) : option str * list AdminKey :=
  if str_eqb (trim name) [] || (64 <? len (trim name)) then (None, tbl)
  else
    match role_parse role, cli_ttl expire, cli_key_scope orgs org with
    | Some role, Ok ttl, Some scope =>
        let '(s, tbl) := load_keys loaded inst tbl in
        match create_key read ok inst id u1 u2 (trim name) now role scope ttl s tbl with
        | (Some (_, secret), _, tbl) => (Some secret, tbl)
        | (None, _, tbl) => (None, tbl)
        end
    | _, _, _ => (None, tbl)
    end.

Definition admin_revoke_key (loaded read ok : bool) (inst : Z) (id : str) (tbl : list AdminKey) :
    result unit NotWritten * list AdminKey :=
  let '(s, tbl) := load_keys loaded inst tbl in
  let '(r, _, tbl) := revoke_key read ok inst id s tbl in (r, tbl).

(** ** The endpoints *)

Record AdminKeyCreateRequest : Type := { akc_name : str; akc_role : str; akc_org_id : option str; akc_ttl_seconds : option Z }.

(** The answer of [require_server_admin] as a status. *)
Definition refusal_status (r : AdminRefusal) : Z := match r with AuthenticationRequired => 401 | ServerAdminOnly => 403 end.

(** The keys the caller is resolved against are the server's copy. *)
Definition with_a_keys (a : AuthState) (l : list AdminKey) : AuthState :=
  {| a_sessions := a_sessions a; a_users := a_users a; a_keys := l; a_secure_cookies := a_secure_cookies a;
     a_fenced_login := a_fenced_login a; a_fences := a_fences a; a_clients := a_clients a |}.

Definition admin_keys_create_handler (read ok : bool) (inst : Z) (id u1 u2 : str) (a : AuthState) (now : Z) (hs : headers)
    (p : AdminKeyCreateRequest) (s : AdminKeyStore) (tbl : list AdminKey) :
    result (AdminKey * str) Z * AdminKeyStore * list AdminKey :=
  match require_server_admin sha256 a now hs with
  | Err r => (Err (refusal_status r), s, tbl)
  | Ok _ =>
      let name := trim (akc_name p) in
      if str_eqb name [] || (64 <? len name) then (Err 400, s, tbl)
      else
        match role_parse (akc_role p) with
        | None => (Err 400, s, tbl)
        | Some role =>
            let scope := org_parse (default [] (akc_org_id p)) in
            if match scope with Child oid => negb (existsb (fun o => str_eqb o.1 oid) (a_fences a)) | _ => false end
            then (Err 400, s, tbl)
            else
              let may_grant := match resolve_caller sha256 a now hs with
                               | Some c => caller_may_grant c (new_grant scope role)
                               | None => false
                               end in
              if negb may_grant then (Err 403, s, tbl)
              else
                match create_key read ok inst id u1 u2 name now role scope (akc_ttl_seconds p) s tbl with
                | (Some r, s, tbl) => (Ok r, (take_adopted s).2, tbl)
                | (None, s, tbl) => (Err 500, (take_adopted s).2, tbl)
                end
        end
  end.

Definition admin_keys_revoke_handler (read ok : bool) (inst : Z) (a : AuthState) (now : Z) (hs : headers) (id : str)
    (s : AdminKeyStore) (tbl : list AdminKey) : result unit Z * AdminKeyStore * list AdminKey :=
  match require_server_admin sha256 a now hs with
  | Err r => (Err (refusal_status r), s, tbl)
  | Ok _ =>
      match revoke_key read ok inst id s tbl with
      | (Ok _, s, tbl) => (Ok tt, s, tbl)
      | (Err NoSuchRecord, s, tbl) => (Err 404, s, tbl)
      | (Err NotPersisted, s, tbl) => (Err 500, s, tbl)
      end
  end.

Definition admin_keys_list_handler (read : bool) (inst : Z) (a : AuthState) (now : Z) (hs : headers)
    (s : AdminKeyStore) (tbl : list AdminKey) : result (list AdminKey) Z * AdminKeyStore :=
  match require_server_admin sha256 a now hs with
  | Err r => (Err (refusal_status r), s)
  | Ok _ => let s := reread read inst tbl s in (Ok (ks_keys s), (take_adopted s).2)
  end.

(** ** The two processes *)

Record KeySystem : Type := { sys_server : AdminKeyStore; sys_table : list AdminKey }.

Inductive KeyOp : Type :=
| KCreate (ok : bool) (inst : Z) (id u1 u2 name : str) (now : Z) (role : Role) (scope : GrantOrg) (ttl : option Z)
| KRevoke (ok : bool) (inst : Z) (id : str)
| KVerify (inst now : Z) (secret : str)
| KList (inst : Z)
| KRestart (ok : bool) (inst : Z)
| KCliCreate (loaded ok : bool) (inst : Z) (orgs : list (str * str)) (id u1 u2 : str) (now : Z) (name role org : str)
    (expire : option str)
| KCliRevoke (loaded ok : bool) (inst : Z) (id : str).

(** An operation of either process, every read of the table succeeding. *)
Definition exec_key (o : KeyOp) (y : KeySystem) : KeySystem :=
  let '{| sys_server := s; sys_table := tbl |} := y in
  match o with
  | KCreate ok inst id u1 u2 name now role scope ttl =>
      let '(_, s, tbl) := create_key true ok inst id u1 u2 name now role scope ttl s tbl in
      {| sys_server := s; sys_table := tbl |}
  | KRevoke ok inst id =>
      let '(_, s, tbl) := revoke_key true ok inst id s tbl in {| sys_server := s; sys_table := tbl |}
  | KVerify inst now secret => {| sys_server := (verify_admin_key true inst now secret s tbl).2; sys_table := tbl |}
  | KList inst => {| sys_server := reread true inst tbl s; sys_table := tbl |}
  | KRestart ok inst => let '(s, tbl) := load_keys ok inst tbl in {| sys_server := s; sys_table := tbl |}
  | KCliCreate loaded ok inst orgs id u1 u2 now name role org expire =>
      {| sys_server := s; sys_table := (admin_create_key loaded true ok inst orgs id u1 u2 now name role org expire tbl).2 |}
  | KCliRevoke loaded ok inst id =>
      {| sys_server := s; sys_table := (admin_revoke_key loaded true ok inst id tbl).2 |}
  end.

Definition exec_keys (ops : list KeyOp) (y : KeySystem) : KeySystem := fold_left (fun y o => exec_key o y) ops y.

End Store.

(** ** Revocation *)

Section Revocation.
Context (sha256 : str → str).

#[local] Abbreviation ids := (fmap k_id).

Lemma convert_ids l : ids (convert_legacy_keys l).1 = ids l.
Proof.
  simpl. rewrite <- list_fmap_compose. apply list_fmap_ext. intros _ k _. simpl. unfold convert_legacy_key.
  by destruct (k_scope k).
Qed.

(** The key [id] is out of the table, and the server's copy holds it only if it was
    read no later than [since]. *)
Definition gone (id : str) (since : Z) (y : KeySystem) : Prop :=
  (id ∉ ids (sys_table y)) ∧ (id ∈ ids (ks_keys (sys_server y)) → ks_read_at (sys_server y) <= since).

Lemma reread_ids inst tbl s : ids (ks_keys (reread true inst tbl s)) = ids tbl.
Proof. unfold reread. cbn [ks_keys]. apply convert_ids. Qed.

Lemma ids_remove id id' l : id ∉ ids l → id ∉ ids (remove_row k_id id' l).
Proof.
  intros Hn (k & -> & Hk)%list_elem_of_fmap. apply elem_of_remove in Hk. by apply Hn, list_elem_of_fmap_2.
Qed.

(** After its read, a create or a revoke of another key brings [id] back nowhere. *)
Lemma create_gone ok inst id' u1 u2 name now role scope ttl s tbl id :
  id' ≠ id → id ∉ ids tbl →
  let '(_, s', tbl') := create_key sha256 true ok inst id' u1 u2 name now role scope ttl s tbl in
  (id ∉ ids (ks_keys s')) ∧ (id ∉ ids tbl').
Proof.
  intros Hne Hn. unfold create_key. pose proof (reread_ids inst tbl s) as Hr. set (s1 := reread true inst tbl s) in *.
  assert (id ∉ ids (ks_keys s1)) by (by rewrite Hr).
  destruct ok; simpl; [|by split]. rewrite fmap_app. set_solver.
Qed.

Lemma revoke_gone ok inst id' s tbl id :
  id ∉ ids tbl →
  let '(_, s', tbl') := revoke_key true ok inst id' s tbl in (id ∉ ids (ks_keys s')) ∧ (id ∉ ids tbl').
Proof.
  intros Hn. unfold revoke_key. pose proof (reread_ids inst tbl s) as Hr. set (s1 := reread true inst tbl s) in *.
  assert (id ∉ ids (ks_keys s1)) by (by rewrite Hr). destruct (find_row _ _ _); [|done].
  destruct ok; simpl; [|by split]. split; by apply ids_remove.
Qed.

Lemma load_gone ok inst tbl id :
  id ∉ ids tbl → (id ∉ ids (ks_keys (load_keys ok inst tbl).1)) ∧ (id ∉ ids (load_keys ok inst tbl).2).
Proof.
  intros Hn. unfold load_keys, persist_keys. pose proof (convert_ids tbl) as Hc.
  destruct (convert_legacy_keys tbl) as [keys w]. cbn [fst] in Hc.
  assert (id ∉ ids keys) by (by rewrite Hc). destruct (existsb _ tbl), ok; by split.
Qed.

Definition fresh_key_op (id : str) (o : KeyOp) : Prop :=
  match o with
  | KCreate _ _ id' _ _ _ _ _ _ _ => id' ≠ id
  | KCliCreate _ _ _ _ id' _ _ _ _ _ _ _ => id' ≠ id
  | _ => True
  end.

Lemma gone_of_both id since y : id ∉ ids (ks_keys (sys_server y)) → id ∉ ids (sys_table y) → gone id since y.
Proof. by split. Qed.

Lemma exec_key_gone id since o y : fresh_key_op id o → gone id since y → gone id since (exec_key sha256 o y).
Proof.
  destruct y as [s tbl]. intros Hf [Ht Hm]. simpl in Ht, Hm.
  assert (Hcli : ∀ tbl', id ∉ ids tbl' → gone id since {| sys_server := s; sys_table := tbl' |}) by done.
  assert (Hre : ∀ inst, gone id since {| sys_server := reread true inst tbl s; sys_table := tbl |}).
  { intros inst. apply gone_of_both; [|done]. cbn [sys_server]. by rewrite reread_ids. }
  destruct o; simpl in Hf |- *.
  - pose proof (create_gone ok inst id0 u1 u2 name now role scope ttl s tbl id Hf Ht) as H.
    destruct (create_key _ _ _ _ _ _ _ _ _ _ _ _ _ _) as [[? s'] tbl']. apply gone_of_both; apply H.
  - pose proof (revoke_gone ok inst id0 s tbl id Ht) as H.
    destruct (revoke_key _ _ _ _ _ _) as [[? s'] tbl']. apply gone_of_both; apply H.
  - unfold verify_admin_key. simpl. destruct (REREAD_EVERY <=? _); [apply Hre|done].
  - apply Hre.
  - pose proof (load_gone ok inst tbl id Ht) as H. destruct (load_keys ok inst tbl) as [s' tbl']. apply gone_of_both; apply H.
  - apply Hcli. unfold admin_create_key. destruct (_ || _); [done|]. destruct (role_parse role); [|done].
    destruct (cli_ttl expire); [|done]. destruct (cli_key_scope orgs org); [|done].
    pose proof (load_gone loaded inst tbl id Ht) as H. destruct (load_keys loaded inst tbl) as [s' tbl'].
    pose proof (create_gone ok inst id0 u1 u2 (trim name) now r g a s' tbl' id Hf (proj2 H)) as H'.
    destruct (create_key _ _ _ _ _ _ _ _ _ _ _ _ _ _) as [[[[? ?]|] ?] ?]; apply H'.
  - apply Hcli. unfold admin_revoke_key. pose proof (load_gone loaded inst tbl id Ht) as H.
    destruct (load_keys loaded inst tbl) as [s' tbl']. pose proof (revoke_gone ok inst id0 s' tbl' id (proj2 H)) as H'.
    destruct (revoke_key _ _ _ _ _ _) as [[? ?] ?]. apply H'.
Qed.

(** A revocation that was reported, by the server or by the command line, at [inst]. *)
Inductive revoked (id : str) (inst : Z) (y : KeySystem) : KeySystem → Prop :=
| RevokedByServer ok s tbl :
    revoke_key true ok inst id (sys_server y) (sys_table y) = (Ok tt, s, tbl) →
    revoked id inst y {| sys_server := s; sys_table := tbl |}
| RevokedByCli loaded ok tbl :
    admin_revoke_key loaded true ok inst id (sys_table y) = (Ok tt, tbl) →
    revoked id inst y {| sys_server := sys_server y; sys_table := tbl |}.

Lemma revoke_key_Ok ok inst id s tbl s' tbl' :
  NoDup (ids tbl) → revoke_key true ok inst id s tbl = (Ok tt, s', tbl') →
  (id ∉ ids (ks_keys s')) ∧ (id ∉ ids tbl').
Proof.
  intros Hn. unfold revoke_key. pose proof (reread_ids inst tbl s) as Hr. set (s1 := reread true inst tbl s) in *.
  destruct (find_row _ _ _); [|done]. destruct ok; [|done]. intros [= <- <-]. simpl.
  assert (id ∉ ids (remove_row k_id id (ks_keys s1))) by (apply remove_row_notin; by rewrite Hr). done.
Qed.

Lemma revoked_gone id inst y y' :
  NoDup (ids (sys_table y)) → ks_read_at (sys_server y) <= inst → revoked id inst y y' → gone id inst y'.
Proof.
  intros Hn Hr [ok s tbl E|loaded ok tbl E].
  - apply revoke_key_Ok in E as [? ?]; [|done]. by split.
  - unfold admin_revoke_key in E. destruct (load_keys loaded inst (sys_table y)) as [s1 tbl1] eqn:El.
    destruct (revoke_key _ _ _ _ _ _) as [[r s2] tbl2] eqn:Er. injection E as -> ->.
    assert (Hn1 : NoDup (ids tbl1)).
    { unfold load_keys, persist_keys in El. pose proof (convert_ids (sys_table y)) as Hc.
      destruct (convert_legacy_keys (sys_table y)) as [keys w]. cbn [fst] in Hc.
      destruct (existsb _ _), loaded; injection El as <- <-; simpl; [by rewrite Hc|done..]. }
    apply revoke_key_Ok in Er as [_ Ht]; [|done]. by split.
Qed.

(** A revoked key stops within a second. Whichever process revoked it, once the
    revocation was reported no later operation of the server or the command line,
    restarts and failed writes included, puts the key back into the table, and
    from one second on no check of the server accepts it, as long as the server
    can read the table. *)
Theorem key_revocation_in_force id inst y y' ops inst' now secret k :
  NoDup (ids (sys_table y)) → ks_read_at (sys_server y) <= inst → revoked id inst y y' →
  Forall (fresh_key_op id) ops → inst + REREAD_EVERY <= inst' →
  let z := exec_keys sha256 ops y' in
  (verify_admin_key sha256 true inst' now secret (sys_server z) (sys_table z)).1 = Some k →
  k_id k ≠ id ∧ id ∉ ids (sys_table z).
Proof.
  intros Hn Hr Hrev Hf Hi. cbv zeta.
  assert (Hg : gone id inst (exec_keys sha256 ops y')).
  { pose proof (revoked_gone _ _ _ _ Hn Hr Hrev) as Hg. clear Hrev. revert y' Hg.
    induction Hf as [|o ops Ho _ IH]; intros y' Hg; [done|]. simpl. by apply IH, exec_key_gone. }
  destruct (exec_keys sha256 ops y') as [s tbl]. destruct Hg as [Ht Hm]. cbn [sys_server sys_table] in *.
  intros Hv. split; [|done]. intros Hid. unfold verify_admin_key in Hv. cbn [fst] in Hv.
  assert (Hk : ∀ l, verify_key sha256 now l secret = Some k → id ∈ ids l).
  { intros l [Hin _]%find_some. rewrite <- Hid. by apply list_elem_of_fmap_2, list_elem_of_In. }
  apply Hk in Hv. destruct (REREAD_EVERY <=? sat_sub inst' (ks_read_at s)) eqn:E; [by rewrite reread_ids in Hv|].
  apply Z.leb_gt in E. specialize (Hm Hv). unfold sat_sub in E. lia.
Qed.

(** A key is minted only by a server administrator, for a grant that caller could
    give: role and scope as asked, written down before it is handed out. *)
Theorem admin_key_mint_bounded read ok inst id u1 u2 a now hs p s tbl k secret s' tbl' :
  admin_keys_create_handler sha256 read ok inst id u1 u2 a now hs p s tbl = (Ok (k, secret), s', tbl') →
  ∃ c, resolve_caller sha256 a now hs = Some c ∧ caller_is_server_admin c = true
    ∧ caller_may_grant c (new_grant (key_scope k) (k_role k)) = true
    ∧ role_parse (akc_role p) = Some (k_role k) ∧ key_scope k = org_parse (default [] (akc_org_id p))
    ∧ k ∈ tbl' ∧ k_key_hash k = token_key sha256 secret.
Proof.
  unfold admin_keys_create_handler, require_server_admin. intros H.
  destruct (dashboard_role _ _ _ _); [|done]. destruct (resolve_caller sha256 a now hs) as [c|] eqn:Ec; [|done].
  destruct (caller_is_server_admin c) eqn:Ea; [|done]. destruct (_ || _); [done|].
  destruct (role_parse _) as [role|]; [|done].
  destruct (match org_parse _ with Child _ => _ | _ => _ end); [done|].
  destruct (caller_may_grant c _) eqn:Eg; [|done]. simpl in H. unfold create_key in H. destruct ok; [|done].
  simpl in H. injection H as <- <- <- <-. exists c. split_and!; try done. simpl. set_solver.
Qed.

End Revocation.

(** ** Samples *)

Module KeySamples.
Definition lost : AdminKey := new_key id (bs "1") (bs "apk_ab") (bs "lost") 0 Admin All None.
Definition fresh_server : AdminKeyStore := {| ks_keys := [lost]; ks_widened := []; ks_read_at := 0; ks_adopted := [] |}.
Definition system0 : KeySystem := {| sys_server := fresh_server; sys_table := [lost] |}.
Definition system1 : KeySystem := {| sys_server := fresh_server; sys_table := (admin_revoke_key true true true 5 (bs "1") [lost]).2 |}.
Definition later : list KeyOp := [KVerify 6 0 (bs "apk_ab"); KCreate true 7 (bs "2") (bs "c") (bs "d") (bs "new") 0 Admin All None].
Definition final : KeySystem := exec_keys id later system1.

Lemma key_revocation_in_force_witness :
  ∃ k, (verify_admin_key id true (5 + REREAD_EVERY) 1 (bs "apk_cd") (sys_server final) (sys_table final)).1 = Some k
    ∧ k_id k ≠ bs "1".
Proof.
  eexists. split; [vm_compute; reflexivity|].
  apply (key_revocation_in_force id (bs "1") 5 system0 system1 later (5 + REREAD_EVERY) 1 (bs "apk_cd")).
  - apply NoDup_singleton.
  - vm_compute. discriminate.
  - apply (RevokedByCli (bs "1") 5 system0 true true). vm_compute. reflexivity.
  - repeat constructor. discriminate.
  - lia.
  - vm_compute. reflexivity.
Defined.

(** A read that fails is not told apart from an unchanged table by the write that
    follows it: the server mints a key, and the key the command line had revoked
    and reported as gone is back in the table. *)
Example failed_read_revives :
  admin_revoke_key true true true 5 (bs "1") [lost] = (Ok tt, [])
  ∧ let '(r, s, tbl) := create_key id false true 6 (bs "2") (bs "c") (bs "d") (bs "new") 0 Viewer Master None fresh_server [] in
    (k_id <$> tbl) = [bs "1"; bs "2"]
    ∧ (k_id <$> (verify_admin_key id true (10 * REREAD_EVERY) 1 (bs "apk_ab") s tbl).1) = Some (bs "1").
Proof. by vm_compute. Qed.
End KeySamples.
