(* ===== verification/Relay.v ===== *)
(** What a tunnel connection sends back: answers, streamed bodies, TCP, UDP and
    WebSocket relays ([tunnel/ws/response.rs], [tunnel/ws/relay.rs],
    [tunnel/ws/upgrade.rs], and [take_owned_stream] of [tunnel/ws.rs]), over the
    tables every connection shares, and the clearing of the tables when a
    connection ends.

    A channel to a consumer is a number; what a push on it answers, and whether
    somebody still waits for an answer, are arguments. What was pushed, and by
    which connection, is kept in a log. Base64 is a parameter. *)

From S2P Require Import Prelude.

(** One consumer's channel in a table: [s_limit] is the datagram limit of a public
    UDP port. *)
Record Stream : Type := { s_tx : Z; s_client : str; s_limit : option Z }.

Inductive Item : Type :=
| IBody (bytes : str)
| ITrailers (t : headers)
| IAborted
| ITcp (bytes : str)
| ITcpClose
| IUdp (bytes : str)
| IUdpClose
| IWs (is_text : bool) (data : str)
| IWsClose.

Inductive Push : Type := Pushed | Gone | Full.

(** The shared tables, the delivery cache of each connection (stream to channel and
    bytes not reported yet), the bytes charged to each connection, and the log. *)
Record Hub : Type := {
  pending_requests : gmap str str;
  pending_upgrades : gmap str str;
  response_streams : gmap str Stream;
  tcp_streams : gmap str Stream;
  udp_streams : gmap str Stream;
  ws_streams : gmap str Stream;
  stream_caches : gmap str (list (str * (Z * Z)));
  charged : gmap str Z;
  pushed : list (str * Z * Item);
}.

Definition set_requests (h : Hub) m : Hub :=
  {| pending_requests := m; pending_upgrades := pending_upgrades h; response_streams := response_streams h;
     tcp_streams := tcp_streams h; udp_streams := udp_streams h; ws_streams := ws_streams h;
     stream_caches := stream_caches h; charged := charged h; pushed := pushed h |}.
Definition set_upgrades (h : Hub) m : Hub :=
  {| pending_requests := pending_requests h; pending_upgrades := m; response_streams := response_streams h;
     tcp_streams := tcp_streams h; udp_streams := udp_streams h; ws_streams := ws_streams h;
     stream_caches := stream_caches h; charged := charged h; pushed := pushed h |}.
Definition set_responses (h : Hub) m : Hub :=
  {| pending_requests := pending_requests h; pending_upgrades := pending_upgrades h; response_streams := m;
     tcp_streams := tcp_streams h; udp_streams := udp_streams h; ws_streams := ws_streams h;
     stream_caches := stream_caches h; charged := charged h; pushed := pushed h |}.
Definition set_tcp (h : Hub) m : Hub :=
  {| pending_requests := pending_requests h; pending_upgrades := pending_upgrades h; response_streams := response_streams h;
     tcp_streams := m; udp_streams := udp_streams h; ws_streams := ws_streams h;
     stream_caches := stream_caches h; charged := charged h; pushed := pushed h |}.
Definition set_udp (h : Hub) m : Hub :=
  {| pending_requests := pending_requests h; pending_upgrades := pending_upgrades h; response_streams := response_streams h;
     tcp_streams := tcp_streams h; udp_streams := m; ws_streams := ws_streams h;
     stream_caches := stream_caches h; charged := charged h; pushed := pushed h |}.
Definition set_ws (h : Hub) m : Hub :=
  {| pending_requests := pending_requests h; pending_upgrades := pending_upgrades h; response_streams := response_streams h;
     tcp_streams := tcp_streams h; udp_streams := udp_streams h; ws_streams := m;
     stream_caches := stream_caches h; charged := charged h; pushed := pushed h |}.
Definition set_cache (h : Hub) (c : str) l : Hub :=
  {| pending_requests := pending_requests h; pending_upgrades := pending_upgrades h; response_streams := response_streams h;
     tcp_streams := tcp_streams h; udp_streams := udp_streams h; ws_streams := ws_streams h;
     stream_caches := <[c := l]> (stream_caches h); charged := charged h; pushed := pushed h |}.
Definition log_push (h : Hub) (c : str) (tx : Z) (i : Item) : Hub :=
  {| pending_requests := pending_requests h; pending_upgrades := pending_upgrades h; response_streams := response_streams h;
     tcp_streams := tcp_streams h; udp_streams := udp_streams h; ws_streams := ws_streams h;
     stream_caches := stream_caches h; charged := charged h; pushed := (c, tx, i) :: pushed h |}.

(** [flush_stream_bytes]: [n] more bytes on the counters of the connection. *)
Definition flush_stream_bytes (h : Hub) (c : str) (n : Z) : Hub :=
  {| pending_requests := pending_requests h; pending_upgrades := pending_upgrades h; response_streams := response_streams h;
     tcp_streams := tcp_streams h; udp_streams := udp_streams h; ws_streams := ws_streams h;
     stream_caches := stream_caches h; charged := <[c := default 0 (charged h !! c) + n]> (charged h); pushed := pushed h |}.

Definition STREAM_ACCOUNT_FLUSH_BYTES : Z := 1024 * 1024.

Definition cache_of (h : Hub) (c : str) : list (str * (Z * Z)) := default [] (stream_caches h !! c).

Definition charge_if (h : Hub) (c : str) (n : Z) : Hub := if 0 <? n then flush_stream_bytes h c n else h.

Definition finish_stream_accounting (c id : str) (h : Hub) : Hub :=
  let n := match aget id (cache_of h c) with Some e => e.2 | None => 0 end in
  charge_if (set_cache h c (aremove id (cache_of h c))) c n.

(** The stream of a table, if [c] owns it. *)
Definition owned_stream (m : gmap str Stream) (c id : str) : option Stream :=
  match m !! id with Some s => if str_eqb (s_client s) c then Some s else None | None => None end.

Definition take_owned_stream (m : gmap str Stream) (c id : str) : option Stream * gmap str Stream :=
  match owned_stream m c id with Some s => (Some s, delete id m) | None => (None, m) end.

(** The sender of a stream: from the cache, or from the table once ownership is
    checked, and cached from then on. *)
Definition stream_sender (c id : str) (h : Hub) : option (Z * Hub) :=
  match aget id (cache_of h c) with
  | Some e => Some (e.1, h)
  | None =>
      match owned_stream (response_streams h) c id with
      | Some s => Some (s_tx s, set_cache h c (aset id (s_tx s, 0) (cache_of h c)))
      | None => None
      end
  end.

(** The delivered bytes on the stream's count, and what is flushed of them. *)
Definition count_delivered (c id : str) (n : Z) (h : Hub) : Hub :=
  match aget id (cache_of h c) with
  | Some (tx, unreported) =>
      if STREAM_ACCOUNT_FLUSH_BYTES <=? unreported + n
      then charge_if (set_cache h c (aset id (tx, 0) (cache_of h c))) c (unreported + n)
      else set_cache h c (aset id (tx, unreported + n) (cache_of h c))
  | None => charge_if h c n
  end.

Definition deliver_response_chunk (c id bytes : str) (p : Push) (h : Hub) : Hub :=
  match stream_sender c id h with
  | None => h
  | Some (tx, h) =>
      match p with
      | Pushed => count_delivered c id (len bytes) (log_push h c tx (IBody bytes))
      | Gone | Full => finish_stream_accounting c id (set_responses h (delete id (response_streams h)))
      end
  end.

(** A push whose answer is not looked at. *)
Definition push_or_not (c : str) (tx : Z) (i : Item) (p : Push) (h : Hub) : Hub :=
  match p with Pushed => log_push h c tx i | Gone | Full => h end.

Definition deliver_tcp_bytes (c id bytes : str) (p : Push) (h : Hub) : Hub :=
  match owned_stream (tcp_streams h) c id with
  | None => h
  | Some s => match p with
              | Pushed => log_push h c (s_tx s) (ITcp bytes)
              | Gone | Full => set_tcp h (delete id (tcp_streams h))
              end
  end.

Definition deliver_udp_bytes (c id bytes : str) (p : Push) (h : Hub) : Hub :=
  match owned_stream (udp_streams h) c id with
  | None => h
  | Some s =>
      if match s_limit s with Some limit => limit <? len bytes | None => false end then h
      else match p with
           | Pushed => log_push h c (s_tx s) (IUdp bytes)
           | Gone => set_udp h (delete id (udp_streams h))
           | Full => h
           end
  end.

Definition deliver_ws_frame (c id : str) (is_text : bool) (data : str) (p : Push) (h : Hub) : Hub :=
  match owned_stream (ws_streams h) c id with
  | None => h
  | Some s => match p with
              | Pushed => log_push h c (s_tx s) (IWs is_text data)
              | Gone | Full => set_ws h (delete id (ws_streams h))
              end
  end.

(** ** The messages *)

Inductive Incoming : Type :=
| InResponse (id : str)
| InResponseStart (id : str)
| InResponseChunk (id data : str)
| InResponseChunkBin (id bytes : str)
| InResponseEnd (id : str) (trailers : option headers)
| InResponseAbort (id : str)
| InTcpData (id data : str)
| InTcpBin (id bytes : str)
| InTcpClose (id : str)
| InUdpDatagram (id data : str)
| InUdpBin (id bytes : str)
| InUdpClose (id : str)
| InUpgradeResponse (id : str)
| InWsData (id data : str) (is_text : bool)
| InWsBin (id bytes : str)
| InWsClose (id : str).

Section Handlers.
Context (b64_decode : str → option str).

Definition is_owner (m : gmap str str) (c id : str) : bool :=
  match m !! id with Some owner => str_eqb owner c | None => false end.

Definition on_response (c id : str) (h : Hub) : Hub :=
  if is_owner (pending_requests h) c id then set_requests h (delete id (pending_requests h)) else h.

(** [tx] is the channel opened for the body; [waited] says whether the visitor is
    still there. *)
Definition on_response_start (c id : str) (tx : Z) (waited : bool) (h : Hub) : Hub :=
  if is_owner (pending_requests h) c id then
    let h := set_requests h (delete id (pending_requests h)) in
    let h := set_responses h (<[id := {| s_tx := tx; s_client := c; s_limit := None |}]> (response_streams h)) in
    if waited then h else set_responses h (delete id (response_streams h))
  else h.

Definition on_response_chunk (c id data : str) (p : Push) (h : Hub) : Hub :=
  match b64_decode data with
  | Some bytes => deliver_response_chunk c id bytes p h
  | None => finish_stream_accounting c id (set_responses h (delete id (response_streams h)))
  end.

Definition on_response_end (c id : str) (trailers : option headers) (p : Push) (h : Hub) : Hub :=
  let '(owned, m) := take_owned_stream (response_streams h) c id in
  let h := set_responses h m in
  let h := match owned, trailers with
           | Some s, Some t => push_or_not c (s_tx s) (ITrailers t) p h
           | _, _ => h
           end in
  finish_stream_accounting c id h.

Definition on_response_abort (c id : str) (p : Push) (h : Hub) : Hub :=
  let '(owned, m) := take_owned_stream (response_streams h) c id in
  let h := set_responses h m in
  let h := match owned with Some s => push_or_not c (s_tx s) IAborted p h | None => h end in
  finish_stream_accounting c id h.

Definition on_tcp_data (c id data : str) (p : Push) (h : Hub) : Hub :=
  match b64_decode data with Some bytes => deliver_tcp_bytes c id bytes p h | None => h end.

Definition on_tcp_close (c id : str) (p : Push) (h : Hub) : Hub :=
  let '(owned, m) := take_owned_stream (tcp_streams h) c id in
  let h := set_tcp h m in
  match owned with Some s => push_or_not c (s_tx s) ITcpClose p h | None => h end.

Definition on_udp_datagram (c id data : str) (p : Push) (h : Hub) : Hub :=
  match b64_decode data with Some bytes => deliver_udp_bytes c id bytes p h | None => h end.

Definition on_udp_close (c id : str) (p : Push) (h : Hub) : Hub :=
  let '(owned, m) := take_owned_stream (udp_streams h) c id in
  let h := set_udp h m in
  match owned with Some s => push_or_not c (s_tx s) IUdpClose p h | None => h end.

Definition on_upgrade_response (c id : str) (h : Hub) : Hub :=
  if is_owner (pending_upgrades h) c id then set_upgrades h (delete id (pending_upgrades h)) else h.

Definition on_ws_data (c id data : str) (is_text : bool) (p : Push) (h : Hub) : Hub :=
  if is_text then deliver_ws_frame c id true data p h
  else match b64_decode data with Some bytes => deliver_ws_frame c id false bytes p h | None => h end.

Definition on_ws_close (c id : str) (p : Push) (h : Hub) : Hub :=
  match owned_stream (ws_streams h) c id with Some s => push_or_not c (s_tx s) IWsClose p h | None => h end.

Definition handle (c : str) (m : Incoming) (tx : Z) (waited : bool) (p : Push) (h : Hub) : Hub :=
  match m with
  | InResponse id => on_response c id h
  | InResponseStart id => on_response_start c id tx waited h
  | InResponseChunk id data => on_response_chunk c id data p h
  | InResponseChunkBin id bytes => deliver_response_chunk c id bytes p h
  | InResponseEnd id trailers => on_response_end c id trailers p h
  | InResponseAbort id => on_response_abort c id p h
  | InTcpData id data => on_tcp_data c id data p h
  | InTcpBin id bytes => deliver_tcp_bytes c id bytes p h
  | InTcpClose id => on_tcp_close c id p h
  | InUdpDatagram id data => on_udp_datagram c id data p h
  | InUdpBin id bytes => deliver_udp_bytes c id bytes p h
  | InUdpClose id => on_udp_close c id p h
  | InUpgradeResponse id => on_upgrade_response c id h
  | InWsData id data is_text => on_ws_data c id data is_text p h
  | InWsBin id bytes => deliver_ws_frame c id false bytes p h
  | InWsClose id => on_ws_close c id p h
  end.

(** What [cleanup] does to the tables: the batched bytes settled, every request and
    stream of the connection gone, its relays told to close ([told] says which
    pushes are accepted). *)
Definition sum_unreported (l : list (str * (Z * Z))) : Z := fold_right (fun e n => e.2.2 + n) 0 l.

Definition not_of (c : str) (m : gmap str Stream) : gmap str Stream := filter (fun ks => s_client ks.2 ≠ c) m.
Definition streams_of (c : str) (m : gmap str Stream) : list Stream :=
  (map_to_list (filter (fun ks => s_client ks.2 = c) m)).*2.

Definition close_all (c : str) (i : Item) (told : Z → bool) (l : list Stream) (h : Hub) : Hub :=
  fold_left (fun h s => if told (s_tx s) then log_push h c (s_tx s) i else h) l h.

(** The streams of [c] out of a table, their consumers told. *)
Definition close_tcp (c : str) (told : Z → bool) (h : Hub) : Hub :=
  close_all c ITcpClose told (streams_of c (tcp_streams h)) (set_tcp h (not_of c (tcp_streams h))).
Definition close_udp (c : str) (told : Z → bool) (h : Hub) : Hub :=
  close_all c IUdpClose told (streams_of c (udp_streams h)) (set_udp h (not_of c (udp_streams h))).
Definition close_ws (c : str) (told : Z → bool) (h : Hub) : Hub :=
  close_all c IWsClose told (streams_of c (ws_streams h)) (set_ws h (not_of c (ws_streams h))).

Definition cleanup (c : str) (told : Z → bool) (h : Hub) : Hub :=
  let pending := sum_unreported (cache_of h c) in
  let h := charge_if (set_cache h c []) c pending in
  let h := set_requests h (filter (fun ko => ko.2 ≠ c) (pending_requests h)) in
  let h := set_upgrades h (filter (fun ko => ko.2 ≠ c) (pending_upgrades h)) in
  let h := set_responses h (not_of c (response_streams h)) in
  close_ws c told (close_udp c told (close_tcp c told h)).

End Handlers.

(** ** The running system *)

(** The connection each channel was opened for and the connection each request
    was sent to: what the random identifiers of the code stand for. *)
Record Owners : Type := { chans : gmap Z str; reqs : gmap str str }.
Record System : Type := { hub : Hub; owners : Owners }.

Definition own_chan (o : Owners) (tx : Z) (c : str) : Owners := {| chans := <[tx := c]> (chans o); reqs := reqs o |}.
Definition own_req (o : Owners) (id c : str) : Owners := {| chans := chans o; reqs := <[id := c]> (reqs o) |}.

Definition empty_hub : Hub :=
  {| pending_requests := ∅; pending_upgrades := ∅; response_streams := ∅; tcp_streams := ∅; udp_streams := ∅;
     ws_streams := ∅; stream_caches := ∅; charged := ∅; pushed := [] |}.

Definition stream (c : str) (tx : Z) (limit : option Z) : Stream := {| s_tx := tx; s_client := c; s_limit := limit |}.

(** Everything that happens to the tables, in any order: the server dispatches a
    request (its identifier new) or opens a relay through a connection, forgets
    one whose visitor left, a connection sends a message, a connection ends. *)
Inductive step (b64_decode : str → option str) : System → System → Prop :=
| SDispatch c id h o : reqs o !! id = None → step b64_decode {| hub := h; owners := o |}
    {| hub := set_requests h (<[id := c]> (pending_requests h)); owners := own_req o id c |}
| SUpgrade c id h o : step b64_decode {| hub := h; owners := o |}
    {| hub := set_upgrades h (<[id := c]> (pending_upgrades h)); owners := o |}
| SOpenTcp c id tx h o : chans o !! tx = None → step b64_decode {| hub := h; owners := o |}
    {| hub := set_tcp h (<[id := stream c tx None]> (tcp_streams h)); owners := own_chan o tx c |}
| SOpenUdp c id tx limit h o : chans o !! tx = None → step b64_decode {| hub := h; owners := o |}
    {| hub := set_udp h (<[id := stream c tx limit]> (udp_streams h)); owners := own_chan o tx c |}
| SOpenWs c id tx h o : chans o !! tx = None → step b64_decode {| hub := h; owners := o |}
    {| hub := set_ws h (<[id := stream c tx None]> (ws_streams h)); owners := own_chan o tx c |}
| SForget id h o : step b64_decode {| hub := h; owners := o |}
    {| hub := set_requests (set_upgrades (set_responses (set_tcp (set_udp (set_ws h
         (delete id (ws_streams h))) (delete id (udp_streams h))) (delete id (tcp_streams h)))
         (delete id (response_streams h))) (delete id (pending_upgrades h))) (delete id (pending_requests h));
       owners := o |}
| SHandle c m tx waited p h o : chans o !! tx = None → step b64_decode {| hub := h; owners := o |}
    {| hub := handle b64_decode c m tx waited p h; owners := own_chan o tx c |}
| SCleanup c told h o : step b64_decode {| hub := h; owners := o |} {| hub := cleanup c told h; owners := o |}.

Inductive reachable (b64_decode : str → option str) : System → Prop :=
| reach_start : reachable b64_decode {| hub := empty_hub; owners := {| chans := ∅; reqs := ∅ |} |}
| reach_step s s' : reachable b64_decode s → step b64_decode s s' → reachable b64_decode s'.

(** ** The invariant *)

(** The body bytes a connection got accepted. *)
Fixpoint delivered (c : str) (l : list (str * Z * Item)) : Z :=
  match l with
  | [] => 0
  | (c', _, IBody bytes) :: l' => (if bool_decide (c' = c) then len bytes else 0) + delivered c l'
  | _ :: l' => delivered c l'
  end.

Definition is_body (i : Item) : bool := match i with IBody _ => true | _ => false end.

Definition streams_ok (o : Owners) (m : gmap str Stream) : Prop :=
  map_Forall (fun _ s => chans o !! s_tx s = Some (s_client s)) m.

Definition entry_ok (o : Owners) (c : str) (e : str * (Z * Z)) : Prop :=
  chans o !! e.2.1 = Some c ∧ reqs o !! e.1 = Some c ∧ 0 <= e.2.2 < STREAM_ACCOUNT_FLUSH_BYTES.

Record hub_ok (o : Owners) (h : Hub) : Prop := {
  ok_requests : map_Forall (fun id c => reqs o !! id = Some c) (pending_requests h);
  ok_asked : map_Forall (fun id s => reqs o !! id = Some (s_client s)) (response_streams h);
  ok_responses : streams_ok o (response_streams h);
  ok_tcp : streams_ok o (tcp_streams h);
  ok_udp : streams_ok o (udp_streams h);
  ok_ws : streams_ok o (ws_streams h);
  ok_caches : ∀ c, Forall (entry_ok o c) (cache_of h c) ∧ NoDup (keys (cache_of h c));
  ok_log : Forall (fun e => chans o !! e.1.2 = Some e.1.1) (pushed h);
  ok_count : ∀ c, default 0 (charged h !! c) + sum_unreported (cache_of h c) = delivered c (pushed h);
}.

Lemma ok_set_requests o h m :
  map_Forall (fun id c => reqs o !! id = Some c) m → hub_ok o h → hub_ok o (set_requests h m).
Proof. by intros ? []. Qed.
Lemma ok_set_upgrades o h m : hub_ok o h → hub_ok o (set_upgrades h m).
Proof. by intros []. Qed.
Lemma ok_set_responses o h m :
  map_Forall (fun id s => reqs o !! id = Some (s_client s)) m → streams_ok o m → hub_ok o h → hub_ok o (set_responses h m).
Proof. by intros ?? []. Qed.
Lemma ok_set_tcp o h m : streams_ok o m → hub_ok o h → hub_ok o (set_tcp h m).
Proof. by intros ? []. Qed.
Lemma ok_set_udp o h m : streams_ok o m → hub_ok o h → hub_ok o (set_udp h m).
Proof. by intros ? []. Qed.
Lemma ok_set_ws o h m : streams_ok o m → hub_ok o h → hub_ok o (set_ws h m).
Proof. by intros ? []. Qed.

Lemma Forall_map_insert {A} (P : str → A → Prop) (m : gmap str A) id s : P id s → map_Forall P m → map_Forall P (<[id := s]> m).
Proof. intros Hs H k s' [[<- <-]|[_ Hk]]%lookup_insert_Some; [done|by apply (H k)]. Qed.
Lemma Forall_map_delete {A} (P : str → A → Prop) (m : gmap str A) id : map_Forall P m → map_Forall P (delete id m).
Proof. apply map_Forall_delete. Qed.
Lemma Forall_map_filter {A} (P : str → A → Prop) (Q : str * A → Prop) {dec : ∀ x, Decision (Q x)} (m : gmap str A) :
  map_Forall P m → map_Forall P (filter Q m).
Proof. intros H id s [Hs _]%map_lookup_filter_Some. by apply (H id s). Qed.

Lemma owned_stream_Some m c id s : owned_stream m c id = Some s → m !! id = Some s ∧ s_client s = c.
Proof.
  unfold owned_stream. destruct (m !! id) as [s'|] eqn:E; [|done].
  destruct (str_eqb _ c) eqn:Ec; [|done]. intros [= ->]. by apply str_eqb_eq in Ec.
Qed.

Lemma owned_chan o m c id s : streams_ok o m → owned_stream m c id = Some s → chans o !! s_tx s = Some c.
Proof. intros H [E <-]%owned_stream_Some. by apply (H id). Qed.

Lemma take_owned_Forall (P : str → Stream → Prop) m c id : map_Forall P m → map_Forall P (take_owned_stream m c id).2.
Proof. unfold take_owned_stream. intros H. destruct (owned_stream m c id); [by apply Forall_map_delete|done]. Qed.

Lemma ok_drop_response o h id : hub_ok o h → hub_ok o (set_responses h (delete id (response_streams h))).
Proof. intros []. by apply ok_set_responses; [apply Forall_map_delete..|]. Qed.
Lemma ok_drop_tcp o h id : hub_ok o h → hub_ok o (set_tcp h (delete id (tcp_streams h))).
Proof. intros []. by apply ok_set_tcp; [apply Forall_map_delete|]. Qed.
Lemma ok_drop_udp o h id : hub_ok o h → hub_ok o (set_udp h (delete id (udp_streams h))).
Proof. intros []. by apply ok_set_udp; [apply Forall_map_delete|]. Qed.
Lemma ok_drop_ws o h id : hub_ok o h → hub_ok o (set_ws h (delete id (ws_streams h))).
Proof. intros []. by apply ok_set_ws; [apply Forall_map_delete|]. Qed.
Lemma ok_drop_request o h id : hub_ok o h → hub_ok o (set_requests h (delete id (pending_requests h))).
Proof. intros []. by apply ok_set_requests; [apply Forall_map_delete|]. Qed.

Create HintDb relay.
#[local] Hint Resolve ok_requests ok_asked ok_responses ok_tcp ok_udp ok_ws take_owned_Forall
  ok_set_upgrades ok_drop_response ok_drop_tcp ok_drop_udp ok_drop_ws ok_drop_request : relay.

(** Channels and requests only gain owners. *)
Lemma ok_mono o o' h : chans o ⊆ chans o' → reqs o ⊆ reqs o' → hub_ok o h → hub_ok o' h.
Proof.
  intros Hc Hr [Hq Ha H1 H2 H3 H4 ok_caches0 ok_log0 ?].
  split; try done.
  1: apply (map_Forall_impl _ _ _ Hq).
  2: apply (map_Forall_impl _ _ _ Ha).
  3: apply (map_Forall_impl _ _ _ H1).
  4: apply (map_Forall_impl _ _ _ H2).
  5: apply (map_Forall_impl _ _ _ H3).
  6: apply (map_Forall_impl _ _ _ H4).
  1-6: by simpl; intros id s Hs; eapply lookup_weaken.
  - intros c. destruct (ok_caches0 c) as [Hf Hn]. split; [|done]. eapply Forall_impl; [exact Hf|].
    intros e (Hx & Hy & ?). split; [exact (lookup_weaken _ _ _ _ Hx Hc)|split; [exact (lookup_weaken _ _ _ _ Hy Hr)|done]].
  - eapply Forall_impl; [exact ok_log0|]. intros e He. exact (lookup_weaken _ _ _ _ He Hc).
Qed.

Lemma delivered_plain c c' tx i l : is_body i = false → delivered c ((c', tx, i) :: l) = delivered c l.
Proof. by destruct i. Qed.

Lemma ok_log_push o h c tx i : chans o !! tx = Some c → is_body i = false → hub_ok o h → hub_ok o (log_push h c tx i).
Proof.
  intros Hc Hi []. split; try done; [by constructor|]. intros c'. simpl pushed. rewrite delivered_plain by done. apply ok_count0.
Qed.

Lemma ok_push_or_not o h c tx i p : chans o !! tx = Some c → is_body i = false → hub_ok o h → hub_ok o (push_or_not c tx i p h).
Proof. destruct p; [apply ok_log_push|done..]. Qed.

(** ** The accounting *)

Lemma cache_of_set h c l c' : cache_of (set_cache h c l) c' = if bool_decide (c = c') then l else cache_of h c'.
Proof. unfold cache_of, set_cache. simpl. case_bool_decide; [subst; by rewrite lookup_insert_eq|by rewrite lookup_insert_ne]. Qed.

Lemma sum_aset_old id e e' l :
  NoDup (keys l) → aget id l = Some e → sum_unreported (aset id e' l) = sum_unreported l - e.2 + e'.2.
Proof.
  induction l as [|[k v] l IH]; simpl; [done|]. intros [Hk Hn]%NoDup_cons. case_decide; simpl.
  - intros [= ->]. lia.
  - intros E. rewrite IH by done. lia.
Qed.

Lemma sum_aset_new id e l : aget id l = None → sum_unreported (aset id e l) = sum_unreported l + e.2.
Proof. induction l as [|[k v] l IH]; simpl; [intros _; lia|]. case_decide; simpl; [done|]. intros E. rewrite IH by done. lia. Qed.

Lemma sum_aremove id l :
  sum_unreported (aremove id l) = sum_unreported l - match aget id l with Some e => e.2 | None => 0 end.
Proof. induction l as [|[k v] l IH]; simpl; [done|]. case_decide; simpl; [lia|rewrite IH; lia]. Qed.

(** Replacing the cache of [c] and charging [n] to it, after [k] more delivered
    bytes, keeps the books when they balance. *)
Lemma count_recache o h c l n c' :
  hub_ok o h → 0 <= n →
  default 0 (charged (charge_if (set_cache h c l) c n) !! c') + sum_unreported (cache_of (charge_if (set_cache h c l) c n) c')
  = delivered c' (pushed h) + (if bool_decide (c = c') then sum_unreported l + n - sum_unreported (cache_of h c) else 0).
Proof.
  intros [] H0. specialize (ok_count0 c').
  assert (cache_of (charge_if (set_cache h c l) c n) c' = cache_of (set_cache h c l) c') as -> by
    (unfold charge_if; by destruct (0 <? n)).
  rewrite cache_of_set. unfold charge_if. destruct (0 <? n) eqn:E; to_prop.
  - cbn [flush_stream_bytes charged set_cache]. case_bool_decide; [subst; rewrite lookup_insert_eq; simpl; lia|].
    rewrite lookup_insert_ne by done. lia.
  - cbn [charged set_cache]. case_bool_decide; [subst; lia|lia].
Qed.

Lemma caches_recache o h c l n c' :
  hub_ok o h → Forall (entry_ok o c) l → NoDup (keys l) →
  Forall (entry_ok o c') (cache_of (charge_if (set_cache h c l) c n) c') ∧
  NoDup (keys (cache_of (charge_if (set_cache h c l) c n) c')).
Proof.
  intros [] Hl Hn.
  assert (cache_of (charge_if (set_cache h c l) c n) c' = cache_of (set_cache h c l) c') as -> by
    (unfold charge_if; by destruct (0 <? n)).
  rewrite cache_of_set. case_bool_decide; [by subst|apply ok_caches0].
Qed.

Lemma ok_recache o h c l n :
  hub_ok o h → Forall (entry_ok o c) l → NoDup (keys l) → 0 <= n → sum_unreported l + n = sum_unreported (cache_of h c) →
  hub_ok o (charge_if (set_cache h c l) c n).
Proof.
  intros Hok Hl Hn H0 Hs. pose proof Hok as [].
  split; try (unfold charge_if; by destruct (0 <? n)); intros c'; [by apply caches_recache|].
  rewrite (count_recache o) by done. replace (pushed (charge_if (set_cache h c l) c n)) with (pushed h)
    by (unfold charge_if; by destruct (0 <? n)). case_bool_decide; lia.
Qed.

Lemma ok_recache_body o h c tx bytes l n :
  hub_ok o h → chans o !! tx = Some c → Forall (entry_ok o c) l → NoDup (keys l) → 0 <= n →
  sum_unreported l + n = sum_unreported (cache_of h c) + len bytes →
  hub_ok o (charge_if (set_cache (log_push h c tx (IBody bytes)) c l) c n).
Proof.
  intros Hok Htx Hl Hn H0 Hs. pose proof Hok as [].
  assert (charge_if (set_cache (log_push h c tx (IBody bytes)) c l) c n =
          log_push (charge_if (set_cache h c l) c n) c tx (IBody bytes)) as ->
    by (unfold charge_if; by destruct (0 <? n)).
  split; try (unfold charge_if; by destruct (0 <? n)).
  - intros c'. by apply caches_recache.
  - simpl. constructor; [done|]. unfold charge_if; by destruct (0 <? n).
  - intros c'. change (cache_of (log_push (charge_if (set_cache h c l) c n) c tx (IBody bytes)) c') with
      (cache_of (charge_if (set_cache h c l) c n) c').
    cbn [log_push charged pushed]. rewrite (count_recache o) by done. simpl delivered.
    replace (pushed (charge_if (set_cache h c l) c n)) with (pushed h) by (unfold charge_if; by destruct (0 <? n)).
    case_bool_decide; lia.
Qed.

Lemma unreported_nonneg o c l : Forall (entry_ok o c) l → 0 <= sum_unreported l.
Proof. induction 1 as [|e l (_ & _ & ?) _ IH]; simpl; lia. Qed.

Lemma ok_finish o h c id : hub_ok o h → hub_ok o (finish_stream_accounting c id h).
Proof.
  intros Hok. destruct (ok_caches o h Hok c) as [Hf Hn]. apply ok_recache; [done|by apply Forall_aremove|by apply NoDup_aremove|..].
  - destruct (aget id _) as [e|] eqn:E; [|done]. apply aget_Some_elem in E. rewrite Forall_forall in Hf.
    destruct (Hf _ E) as (_ & _ & H). simpl in H. lia.
  - rewrite sum_aremove. lia.
Qed.

(** The first chunk of a stream caches its sender. *)
Lemma ok_sender o h c id tx h' :
  hub_ok o h → stream_sender c id h = Some (tx, h') →
  hub_ok o h' ∧ chans o !! tx = Some c ∧ reqs o !! id = Some c ∧ (∃ u, aget id (cache_of h' c) = Some (tx, u)) ∧
  response_streams h' = response_streams h ∧ pushed h' = pushed h.
Proof.
  intros Hok. destruct (ok_caches o h Hok c) as [Hf Hn]. unfold stream_sender.
  destruct (aget id (cache_of h c)) as [[tx' u]|] eqn:E.
  - intros [= <- <-]. simpl. pose proof (aget_Some_elem _ _ _ E) as He. rewrite Forall_forall in Hf.
    destruct (Hf _ He) as (H1 & H2 & _). eauto 10.
  - destruct (owned_stream _ c id) as [s|] eqn:Es; [|done]. intros [= <- <-].
    pose proof (owned_chan o _ _ _ _ (ok_responses o h Hok) Es) as Hc. apply owned_stream_Some in Es as [Es Ecl].
    pose proof (ok_asked o h Hok id s Es) as Hr. cbv beta in Hr. rewrite Ecl in Hr. split; [|repeat split; try done].
    + apply (ok_recache o h c (aset id (s_tx s, 0) (cache_of h c)) 0); [done| |by apply NoDup_aset|lia|].
      * apply Forall_aset; [done|]. repeat split; simpl; try done; unfold STREAM_ACCOUNT_FLUSH_BYTES; lia.
      * rewrite sum_aset_new by done. simpl. lia.
    + exists 0. rewrite cache_of_set, bool_decide_eq_true_2 by done. apply aget_aset_eq.
Qed.

Lemma ok_count_delivered o h c id tx u bytes :
  hub_ok o h → aget id (cache_of h c) = Some (tx, u) →
  hub_ok o (count_delivered c id (len bytes) (log_push h c tx (IBody bytes))).
Proof.
  intros Hok E. destruct (ok_caches o h Hok c) as [Hf Hn]. pose proof (aget_Some_elem _ _ _ E) as He.
  pose proof Hf as Hf'. rewrite Forall_forall in Hf'. destruct (Hf' _ He) as (H1 & H2 & H3). simpl in H1, H2, H3.
  pose proof (len_nonneg bytes). unfold count_delivered.
  change (cache_of (log_push h c tx (IBody bytes)) c) with (cache_of h c). rewrite E.
  destruct (_ <=? u + len bytes) eqn:Ef; to_prop.
  - apply ok_recache_body; [done|done| |by apply NoDup_aset|lia|].
    + apply Forall_aset; [done|]. repeat split; simpl; try done; unfold STREAM_ACCOUNT_FLUSH_BYTES; lia.
    + rewrite (sum_aset_old id (tx, u)) by done. simpl. lia.
  - apply (ok_recache_body o h c tx bytes (aset id (tx, u + len bytes) (cache_of h c)) 0); [done|done| |by apply NoDup_aset|lia|].
    + apply Forall_aset; [done|]. repeat split; simpl; try done; lia.
    + rewrite (sum_aset_old id (tx, u)) by done. simpl. lia.
Qed.

Lemma ok_deliver_response o h c id bytes p : hub_ok o h → hub_ok o (deliver_response_chunk c id bytes p h).
Proof.
  intros Hok. unfold deliver_response_chunk. destruct (stream_sender c id h) as [[tx h']|] eqn:E; [|done].
  destruct (ok_sender o h c id tx h' Hok E) as (Hok' & _ & _ & (u & Hu) & _).
  destruct p; [by eapply ok_count_delivered|by apply ok_finish, ok_drop_response..].
Qed.

Lemma ok_deliver_tcp o h c id bytes p : hub_ok o h → hub_ok o (deliver_tcp_bytes c id bytes p h).
Proof.
  intros Hok. unfold deliver_tcp_bytes. destruct (owned_stream _ c id) as [s|] eqn:E; [|done].
  apply (owned_chan o) in E; [|eauto with relay]. destruct p; [by apply ok_log_push|eauto with relay..].
Qed.

Lemma ok_deliver_udp o h c id bytes p : hub_ok o h → hub_ok o (deliver_udp_bytes c id bytes p h).
Proof.
  intros Hok. unfold deliver_udp_bytes. destruct (owned_stream _ c id) as [s|] eqn:E; [|done].
  apply (owned_chan o) in E; [|eauto with relay]. destruct (match s_limit s with Some _ => _ | None => _ end); [done|].
  destruct p; [by apply ok_log_push|eauto with relay..].
Qed.

Lemma ok_deliver_ws o h c id t data p : hub_ok o h → hub_ok o (deliver_ws_frame c id t data p h).
Proof.
  intros Hok. unfold deliver_ws_frame. destruct (owned_stream _ c id) as [s|] eqn:E; [|done].
  apply (owned_chan o) in E; [|eauto with relay]. destruct p; [by apply ok_log_push|eauto with relay..].
Qed.

Lemma is_owner_Some m c id : is_owner m c id = true → m !! id = Some c.
Proof. unfold is_owner. destruct (m !! id); [|done]. by intros ->%str_eqb_eq. Qed.

Lemma ok_response_start o h c id tx waited :
  hub_ok o h → chans o !! tx = Some c → hub_ok o (on_response_start c id tx waited h).
Proof.
  intros Hok Htx. unfold on_response_start. destruct (is_owner _ c id) eqn:E; [|done]. apply is_owner_Some in E.
  pose proof (ok_requests o h Hok id c E) as Hr. simpl in Hr.
  assert (hub_ok o (set_requests h (delete id (pending_requests h)))) as H1 by eauto with relay.
  assert (hub_ok o (set_responses (set_requests h (delete id (pending_requests h)))
                      (<[id := {| s_tx := tx; s_client := c; s_limit := None |}]> (response_streams h)))).
  { apply ok_set_responses; [apply Forall_map_insert; [done|eauto with relay]|apply Forall_map_insert; [done|]|done].
    exact (ok_responses o h Hok). }
  destruct waited; [done|]. by apply ok_drop_response.
Qed.

(** Closes the case where the table has a stream of the connection, taken out of it
    and told. *)
Ltac take_owned o :=
  unfold take_owned_stream;
  match goal with |- context [owned_stream ?m ?c ?id] =>
    let s := fresh "s" in let E := fresh "E" in
    destruct (owned_stream m c id) as [s|] eqn:E; [apply (owned_chan o) in E; [|by eauto with relay]|] end.

Lemma set_responses_same h : set_responses h (response_streams h) = h.
Proof. by destruct h. Qed.
Lemma set_tcp_same h : set_tcp h (tcp_streams h) = h.
Proof. by destruct h. Qed.
Lemma set_udp_same h : set_udp h (udp_streams h) = h.
Proof. by destruct h. Qed.

Lemma ok_handle b64_decode o h c m tx waited p :
  hub_ok o h → chans o !! tx = Some c → hub_ok o (handle b64_decode c m tx waited p h).
Proof.
  intros Hok Htx. destruct m; simpl;
    unfold on_response, on_response_chunk, on_response_end, on_response_abort, on_tcp_data, on_tcp_close, on_udp_datagram,
      on_udp_close, on_upgrade_response, on_ws_data, on_ws_close;
    try (destruct (b64_decode data)); try (destruct (is_owner _ _ _)); try (destruct is_text);
    eauto using ok_deliver_response, ok_deliver_tcp, ok_deliver_udp, ok_deliver_ws, ok_response_start, ok_finish with relay.
  - take_owned o; apply ok_finish; [destruct trailers; [apply ok_push_or_not|]|]; rewrite ?set_responses_same; eauto with relay.
  - take_owned o; apply ok_finish; [apply ok_push_or_not|]; rewrite ?set_responses_same; eauto with relay.
  - take_owned o; [apply ok_push_or_not|]; rewrite ?set_tcp_same; eauto with relay.
  - take_owned o; [apply ok_push_or_not|]; rewrite ?set_udp_same; eauto with relay.
  - take_owned o; [apply ok_push_or_not|]; eauto with relay.
Qed.

(** ** The end of a connection *)

Lemma ok_close_all o c i told l h :
  is_body i = false → Forall (fun s => chans o !! s_tx s = Some c) l → hub_ok o h → hub_ok o (close_all c i told l h).
Proof.
  intros Hi Hl. unfold close_all. revert h. induction Hl as [|s l Hs _ IH]; intros h Hok; [done|]. simpl. apply IH.
  destruct (told _); [by apply ok_log_push|done].
Qed.

Lemma streams_of_ok o c m : streams_ok o m → Forall (fun s => chans o !! s_tx s = Some c) (streams_of c m).
Proof.
  intros H. apply Forall_fmap, Forall_forall. intros [id s] [Hs Hc]%elem_of_map_to_list%map_lookup_filter_Some. simpl in *.
  rewrite <- Hc. by apply (H id).
Qed.

Lemma not_of_ok o c m : streams_ok o m → streams_ok o (not_of c m).
Proof. apply Forall_map_filter. Qed.

Lemma ok_close_tcp o h c told : hub_ok o h → hub_ok o (close_tcp c told h).
Proof. intros Hok. pose proof Hok as []. apply ok_close_all; [done|by apply streams_of_ok|]. apply ok_set_tcp; [by apply not_of_ok|done]. Qed.
Lemma ok_close_udp o h c told : hub_ok o h → hub_ok o (close_udp c told h).
Proof. intros Hok. pose proof Hok as []. apply ok_close_all; [done|by apply streams_of_ok|]. apply ok_set_udp; [by apply not_of_ok|done]. Qed.
Lemma ok_close_ws o h c told : hub_ok o h → hub_ok o (close_ws c told h).
Proof. intros Hok. pose proof Hok as []. apply ok_close_all; [done|by apply streams_of_ok|]. apply ok_set_ws; [by apply not_of_ok|done]. Qed.

Lemma ok_cleanup o h c told : hub_ok o h → hub_ok o (cleanup c told h).
Proof.
  intros Hok. destruct (ok_caches o h Hok c) as [Hf Hn]. unfold cleanup.
  assert (hub_ok o (charge_if (set_cache h c []) c (sum_unreported (cache_of h c)))) as H.
  { apply ok_recache; [done|constructor..|by eapply unreported_nonneg|simpl; lia]. }
  pose proof H as [].
  apply ok_close_ws, ok_close_udp, ok_close_tcp, ok_set_responses; [by apply Forall_map_filter|by apply not_of_ok|].
  apply ok_set_upgrades, ok_set_requests; [by apply Forall_map_filter|done].
Qed.

Lemma hub_reachable_ok b64_decode s : reachable b64_decode s → hub_ok (owners s) (hub s).
Proof.
  induction 1 as [|s s' _ IH Hs].
  { split; simpl; try done; try apply map_Forall_empty; intros c; split; constructor. }
  destruct Hs as [c id h o Hid|c id h o|c id tx h o Htx|c id tx limit h o Htx|c id tx h o Htx|id h o|c m tx waited p h o Htx|c told h o];
    simpl in *.
  - apply (ok_mono _ (own_req o id c)) in IH; [|done|by apply insert_subseteq].
    apply ok_set_requests; [apply Forall_map_insert; [apply lookup_insert_eq|by apply ok_requests]|done].
  - by apply ok_set_upgrades.
  - apply (ok_mono _ (own_chan o tx c)) in IH; [|by apply insert_subseteq|done].
    apply ok_set_tcp; [apply Forall_map_insert; [apply lookup_insert_eq|by apply ok_tcp]|done].
  - apply (ok_mono _ (own_chan o tx c)) in IH; [|by apply insert_subseteq|done].
    apply ok_set_udp; [apply Forall_map_insert; [apply lookup_insert_eq|by apply ok_udp]|done].
  - apply (ok_mono _ (own_chan o tx c)) in IH; [|by apply insert_subseteq|done].
    apply ok_set_ws; [apply Forall_map_insert; [apply lookup_insert_eq|by apply ok_ws]|done].
  - exact (ok_drop_request _ _ id (ok_set_upgrades _ _ (delete id (pending_upgrades h))
      (ok_drop_response _ _ id (ok_drop_tcp _ _ id (ok_drop_udp _ _ id (ok_drop_ws _ _ id IH)))))).
  - apply (ok_mono _ (own_chan o tx c)) in IH; [|by apply insert_subseteq|done].
    apply ok_handle; [done|apply lookup_insert_eq].
  - by apply ok_cleanup.
Qed.

(** ** What a connection can touch *)

(** Everything of the other connections is as it was, and whatever was pushed was
    pushed by [c]. *)
Record same_others (c : str) (h h' : Hub) : Prop := {
  so_requests : filter (fun ko => ko.2 ≠ c) (pending_requests h') = filter (fun ko => ko.2 ≠ c) (pending_requests h);
  so_upgrades : filter (fun ko => ko.2 ≠ c) (pending_upgrades h') = filter (fun ko => ko.2 ≠ c) (pending_upgrades h);
  so_responses : not_of c (response_streams h') = not_of c (response_streams h);
  so_tcp : not_of c (tcp_streams h') = not_of c (tcp_streams h);
  so_udp : not_of c (udp_streams h') = not_of c (udp_streams h);
  so_ws : not_of c (ws_streams h') = not_of c (ws_streams h);
  so_caches : ∀ c', c' ≠ c → cache_of h' c' = cache_of h c';
  so_charged : ∀ c', c' ≠ c → charged h' !! c' = charged h !! c';
  so_pushed : ∃ l, pushed h' = l ++ pushed h ∧ Forall (fun e => e.1.1 = c) l;
}.

Lemma same_refl c h : same_others c h h.
Proof. split; try done. exists []. split; [done|constructor]. Qed.

Lemma same_trans c h1 h2 h3 : same_others c h1 h2 → same_others c h2 h3 → same_others c h1 h3.
Proof.
  intros [A1 A2 A3 A4 A5 A6 A7 A8 (l1 & A9 & A10)] [B1 B2 B3 B4 B5 B6 B7 B8 (l2 & B9 & B10)].
  split; try congruence; [intros c' Hc; by rewrite B7, A7|intros c' Hc; by rewrite B8, A8|].
  exists (l2 ++ l1). split; [by rewrite B9, A9, app_assoc|by apply Forall_app_2].
Qed.

Lemma not_of_delete c m id : (∀ s, m !! id = Some s → s_client s = c) → not_of c (delete id m) = not_of c m.
Proof. intros H. apply map_filter_delete_not. intros s Hs Hn. by apply Hn, H. Qed.

Lemma not_of_insert c m id s : s_client s = c → (∀ s, m !! id = Some s → s_client s = c) → not_of c (<[id := s]> m) = not_of c m.
Proof.
  intros Hc H. apply map_filter_insert_not'; [intros Hn; by apply Hn|]. intros s' Hs Hn. by apply Hn, H.
Qed.

Lemma so_set_requests c h m :
  filter (fun ko => ko.2 ≠ c) m = filter (fun ko => ko.2 ≠ c) (pending_requests h) → same_others c h (set_requests h m).
Proof. intros H. pose proof (same_refl c h) as []. by split. Qed.
Lemma so_set_upgrades c h m :
  filter (fun ko => ko.2 ≠ c) m = filter (fun ko => ko.2 ≠ c) (pending_upgrades h) → same_others c h (set_upgrades h m).
Proof. intros H. pose proof (same_refl c h) as []. by split. Qed.
Lemma so_set_responses c h m : not_of c m = not_of c (response_streams h) → same_others c h (set_responses h m).
Proof. intros H. pose proof (same_refl c h) as []. by split. Qed.
Lemma so_set_tcp c h m : not_of c m = not_of c (tcp_streams h) → same_others c h (set_tcp h m).
Proof. intros H. pose proof (same_refl c h) as []. by split. Qed.
Lemma so_set_udp c h m : not_of c m = not_of c (udp_streams h) → same_others c h (set_udp h m).
Proof. intros H. pose proof (same_refl c h) as []. by split. Qed.
Lemma so_set_ws c h m : not_of c m = not_of c (ws_streams h) → same_others c h (set_ws h m).
Proof. intros H. pose proof (same_refl c h) as []. by split. Qed.
Lemma so_set_cache c h l : same_others c h (set_cache h c l).
Proof.
  pose proof (same_refl c h) as []. split; try done. intros c' Hc. rewrite cache_of_set, bool_decide_eq_false_2 by done. done.
Qed.
Lemma so_charge c h n : same_others c h (charge_if h c n).
Proof.
  pose proof (same_refl c h) as []. unfold charge_if. destruct (0 <? n); [|done]. split; try done. intros c' Hc. simpl.
  by rewrite lookup_insert_ne.
Qed.
Lemma so_log c h tx i : same_others c h (log_push h c tx i).
Proof. pose proof (same_refl c h) as []. split; try done. exists [(c, tx, i)]. split; [done|by repeat constructor]. Qed.

#[local] Hint Resolve same_refl so_log : relay.

Lemma so_push c h tx i p : same_others c h (push_or_not c tx i p h).
Proof. destruct p; simpl; eauto with relay. Qed.

Lemma so_finish c id h : same_others c h (finish_stream_accounting c id h).
Proof. unfold finish_stream_accounting. eapply same_trans; [apply so_set_cache|apply so_charge]. Qed.

Lemma so_sender c id h tx h' : stream_sender c id h = Some (tx, h') → same_others c h h'.
Proof.
  unfold stream_sender. destruct (aget id (cache_of h c)); [intros [= _ <-]; apply same_refl|].
  destruct (owned_stream _ c id); [|done]. intros [= _ <-]. apply so_set_cache.
Qed.

Lemma so_count c id n h : same_others c h (count_delivered c id n h).
Proof.
  unfold count_delivered. destruct (aget id (cache_of h c)) as [[tx u]|]; [|apply so_charge].
  destruct (_ <=? _); [|apply so_set_cache]. eapply same_trans; [apply so_set_cache|apply so_charge].
Qed.

Lemma owned_own m c id s : owned_stream m c id = Some s → ∀ s', m !! id = Some s' → s_client s' = c.
Proof. intros [E Hc]%owned_stream_Some s' E'. congruence. Qed.

Lemma take_owned_others m c id : not_of c (take_owned_stream m c id).2 = not_of c m.
Proof. unfold take_owned_stream. destruct (owned_stream m c id) eqn:E; [|done]. eapply not_of_delete, owned_own, E. Qed.

Lemma so_deliver_response o c id bytes p h : hub_ok o h → same_others c h (deliver_response_chunk c id bytes p h).
Proof.
  intros Hok. unfold deliver_response_chunk. destruct (stream_sender c id h) as [[tx h']|] eqn:E; [|apply same_refl].
  destruct (ok_sender o h c id tx h' Hok E) as (Hok' & _ & Hr & _ & Hrs & _). apply so_sender in E.
  assert (same_others c h' (finish_stream_accounting c id (set_responses h' (delete id (response_streams h'))))).
  { eapply same_trans; [|apply so_finish]. apply so_set_responses, not_of_delete. intros s Hs.
    pose proof (ok_asked o h' Hok' id s Hs) as Ha. simpl in Ha. congruence. }
  destruct p; [|by eapply same_trans..]. eapply same_trans; [exact E|]. eapply same_trans; [apply so_log|apply so_count].
Qed.

Lemma so_deliver_tcp c id bytes p h : same_others c h (deliver_tcp_bytes c id bytes p h).
Proof.
  unfold deliver_tcp_bytes. destruct (owned_stream _ c id) eqn:E; [|apply same_refl].
  destruct p; [apply so_log|..]; by eapply so_set_tcp, not_of_delete, owned_own.
Qed.

Lemma so_deliver_udp c id bytes p h : same_others c h (deliver_udp_bytes c id bytes p h).
Proof.
  unfold deliver_udp_bytes. destruct (owned_stream _ c id) as [s|] eqn:E; [|apply same_refl].
  destruct (match s_limit s with Some _ => _ | None => _ end); [apply same_refl|].
  destruct p; [apply so_log|by eapply so_set_udp, not_of_delete, owned_own|apply same_refl].
Qed.

Lemma so_deliver_ws c id t data p h : same_others c h (deliver_ws_frame c id t data p h).
Proof.
  unfold deliver_ws_frame. destruct (owned_stream _ c id) eqn:E; [|apply same_refl].
  destruct p; [apply so_log|..]; by eapply so_set_ws, not_of_delete, owned_own.
Qed.

Lemma own_pending_delete (m : gmap str str) c id :
  m !! id = Some c → filter (fun ko => ko.2 ≠ c) (delete id m) = filter (fun ko => ko.2 ≠ c) m.
Proof. intros H. apply map_filter_delete_not. intros c' Hc Hn. apply Hn. simpl. congruence. Qed.

Lemma so_response_start o c id tx waited h : hub_ok o h → same_others c h (on_response_start c id tx waited h).
Proof.
  intros Hok. unfold on_response_start. destruct (is_owner _ c id) eqn:E; [|apply same_refl]. apply is_owner_Some in E.
  pose proof (ok_requests o h Hok id c E) as Hr. simpl in Hr.
  assert (∀ s, response_streams h !! id = Some s → s_client s = c) as Hs.
  { intros s Hs. pose proof (ok_asked o h Hok id s Hs) as Ha. simpl in Ha. congruence. }
  eapply same_trans; [by apply so_set_requests, own_pending_delete|].
  destruct waited; [by apply so_set_responses, not_of_insert|].
  eapply same_trans; [by apply (so_set_responses c _ (<[id := stream c tx None]> (response_streams h))), not_of_insert|].
  apply so_set_responses. simpl. apply not_of_delete. intros s. rewrite lookup_insert_eq. by intros [= <-].
Qed.

(** A base64 chunk that does not decode is the exception. *)
Definition sound_chunk (b64_decode : str → option str) (m : Incoming) : bool :=
  match m with InResponseChunk _ data => bool_decide (is_Some (b64_decode data)) | _ => true end.

Lemma so_handle b64_decode o c m tx waited p h :
  hub_ok o h → sound_chunk b64_decode m = true → same_others c h (handle b64_decode c m tx waited p h).
Proof.
  intros Hok. destruct m; simpl; intros Hm;
    unfold on_response, on_response_chunk, on_response_end, on_response_abort, on_tcp_data, on_tcp_close, on_udp_datagram,
      on_udp_close, on_upgrade_response, on_ws_data, on_ws_close;
    try (destruct (b64_decode data)); try (by apply bool_decide_eq_true in Hm as [? ?]);
    try (destruct (is_owner _ _ _) eqn:E; [apply is_owner_Some in E|]); try (destruct is_text);
    eauto using so_deliver_response, so_deliver_tcp, so_deliver_udp, so_deliver_ws, so_response_start, so_set_requests,
      so_set_upgrades, own_pending_delete with relay.
  - pose proof (take_owned_others (response_streams h) c id) as H. destruct (take_owned_stream _ c id) as [s m].
    eapply same_trans; [by apply (so_set_responses c h m)|]. eapply same_trans; [|apply so_finish].
    destruct s; [destruct trailers; [apply so_push|]|]; apply same_refl.
  - pose proof (take_owned_others (response_streams h) c id) as H. destruct (take_owned_stream _ c id) as [s m].
    eapply same_trans; [by apply (so_set_responses c h m)|]. eapply same_trans; [|apply so_finish].
    destruct s; [apply so_push|apply same_refl].
  - pose proof (take_owned_others (tcp_streams h) c id) as H. destruct (take_owned_stream _ c id) as [s m].
    eapply same_trans; [by apply (so_set_tcp c h m)|]. destruct s; [apply so_push|apply same_refl].
  - pose proof (take_owned_others (udp_streams h) c id) as H. destruct (take_owned_stream _ c id) as [s m].
    eapply same_trans; [by apply (so_set_udp c h m)|]. destruct s; [apply so_push|apply same_refl].
  - destruct (owned_stream _ c id); [apply so_push|apply same_refl].
Qed.

Lemma not_of_twice c m : not_of c (not_of c m) = not_of c m.
Proof. unfold not_of. apply map_filter_filter_l. auto. Qed.

Lemma so_close_all c i told l h : same_others c h (close_all c i told l h).
Proof.
  unfold close_all. revert h. induction l as [|s l IH]; intros h; [apply same_refl|]. simpl.
  eapply same_trans; [|apply IH]. destruct (told _); [apply so_log|apply same_refl].
Qed.

Lemma so_cleanup c told h : same_others c h (cleanup c told h).
Proof.
  unfold cleanup. eapply same_trans; [apply (so_set_cache c h [])|].
  eapply same_trans; [apply (so_charge c _ (sum_unreported (cache_of h c)))|].
  eapply same_trans; [|apply so_close_all]. eapply same_trans; [|apply so_set_ws, not_of_twice].
  eapply same_trans; [|apply so_close_all]. eapply same_trans; [|apply so_set_udp, not_of_twice].
  eapply same_trans; [|apply so_close_all]. eapply same_trans; [|apply so_set_tcp, not_of_twice].
  eapply same_trans; [|apply so_set_responses, not_of_twice].
  eapply same_trans; [|apply so_set_upgrades; apply map_filter_filter_l; auto].
  apply so_set_requests. apply map_filter_filter_l; auto.
Qed.

(** whatever the order of dispatches, messages, forgotten visitors and ended
    connections, everything a connection pushed went into a channel opened for that
    connection, and every body byte a consumer took is on the connection's bill:
    charged already, or in a batch that is below the flush threshold. *)
Theorem relay_books_balance b64_decode s c :
  reachable b64_decode s →
  (∀ tx i, (c, tx, i) ∈ pushed (hub s) → chans (owners s) !! tx = Some c) ∧
  default 0 (charged (hub s) !! c) + sum_unreported (cache_of (hub s) c) = delivered c (pushed (hub s)) ∧
  Forall (fun e => 0 <= e.2.2 < STREAM_ACCOUNT_FLUSH_BYTES) (cache_of (hub s) c).
Proof.
  intros Hok%hub_reachable_ok. split; [|split].
  - intros tx i Hi. pose proof (ok_log _ _ Hok) as Hl. rewrite Forall_forall in Hl. apply (Hl _ Hi).
  - apply (ok_count _ _ Hok).
  - eapply Forall_impl; [apply (ok_caches _ _ Hok)|]. intros e (_ & _ & H). done.
Qed.

(** C30: A message of a connection, and the end of a connection, leave every request,
    upgrade, stream, delivery batch and bill of every other connection as it was,
    and push only in its own name; the message is any but a base64 body chunk that
    does not decode ([sound_chunk]). That one is not confined: it cuts the answer
    under its id, whichever connection is giving it ([poisoned_chunk_cuts_other]). *)
Theorem connection_confined b64_decode s c m tx waited told p :
  reachable b64_decode s → sound_chunk b64_decode m = true →
  same_others c (hub s) (handle b64_decode c m tx waited p (hub s)) ∧ same_others c (hub s) (cleanup c told (hub s)).
Proof. intros Hok%hub_reachable_ok Hm. split; [by eapply so_handle|apply so_cleanup]. Qed.

Lemma not_of_none c m id s : not_of c m !! id = Some s → s_client s ≠ c.
Proof. intros H%map_lookup_filter_Some. apply H. Qed.

Lemma close_all_pushes c i told l h : ∃ l', pushed (close_all c i told l h) = l' ++ pushed h ∧
  ∀ s, s ∈ l → told (s_tx s) = true → (c, s_tx s, i) ∈ l'.
Proof.
  unfold close_all. revert h. induction l as [|s l IH]; intros h; simpl; [exists []; set_solver|].
  destruct (IH (if told (s_tx s) then log_push h c (s_tx s) i else h)) as (l' & -> & Hl).
  exists (l' ++ if told (s_tx s) then [(c, s_tx s, i)] else []). split.
  - rewrite <- app_assoc. by destruct (told (s_tx s)).
  - intros s' [->|Hs]%elem_of_cons Ht; apply elem_of_app; [|left; by apply Hl]. rewrite Ht. set_solver.
Qed.

(** Closing relays touches the log alone, and only to add to it. *)
Record only_more (h h' : Hub) : Prop := {
  om_requests : pending_requests h' = pending_requests h;
  om_upgrades : pending_upgrades h' = pending_upgrades h;
  om_responses : response_streams h' = response_streams h;
  om_tcp : tcp_streams h' = tcp_streams h;
  om_udp : udp_streams h' = udp_streams h;
  om_ws : ws_streams h' = ws_streams h;
  om_caches : stream_caches h' = stream_caches h;
  om_pushed : pushed h ⊆ pushed h';
}.

Lemma close_all_tables c i told l h : only_more h (close_all c i told l h).
Proof.
  unfold close_all. revert h. induction l as [|s l IH]; intros h; [by split|]. simpl.
  destruct (IH (if told (s_tx s) then log_push h c (s_tx s) i else h)). destruct (told (s_tx s)); [|by split].
  split; try done. intros e He. apply om_pushed0. simpl. set_solver.
Qed.

Lemma elem_of_streams_of c m id s : m !! id = Some s → s_client s = c → s ∈ streams_of c m.
Proof.
  intros H Hc. apply list_elem_of_fmap. exists (id, s). split; [done|]. by apply elem_of_map_to_list, map_lookup_filter_Some.
Qed.

(** What is left of a connection [c]: nothing in any table, and the relays whose
    consumers take one more message told. *)
Record left_nothing (c : str) (told : Z → bool) (h h' : Hub) : Prop := {
  ln_requests : ∀ id, pending_requests h' !! id ≠ Some c;
  ln_upgrades : ∀ id, pending_upgrades h' !! id ≠ Some c;
  ln_responses : ∀ id s, response_streams h' !! id = Some s → s_client s ≠ c;
  ln_tcp : ∀ id s, tcp_streams h' !! id = Some s → s_client s ≠ c;
  ln_udp : ∀ id s, udp_streams h' !! id = Some s → s_client s ≠ c;
  ln_ws : ∀ id s, ws_streams h' !! id = Some s → s_client s ≠ c;
  ln_cache : cache_of h' c = [];
  ln_tcp_told : ∀ id s, tcp_streams h !! id = Some s → s_client s = c → told (s_tx s) = true → (c, s_tx s, ITcpClose) ∈ pushed h';
  ln_udp_told : ∀ id s, udp_streams h !! id = Some s → s_client s = c → told (s_tx s) = true → (c, s_tx s, IUdpClose) ∈ pushed h';
  ln_ws_told : ∀ id s, ws_streams h !! id = Some s → s_client s = c → told (s_tx s) = true → (c, s_tx s, IWsClose) ∈ pushed h';
}.

Lemma pending_none (m : gmap str str) c id : filter (fun ko => ko.2 ≠ c) m !! id ≠ Some c.
Proof. intros [_ H]%map_lookup_filter_Some. by apply H. Qed.

Lemma charge_if_tables h c n :
  charge_if h c n = h ∨ charge_if h c n = flush_stream_bytes h c n.
Proof. unfold charge_if. destruct (0 <? n); auto. Qed.

(** The consumers of the streams of [c] in a table were told. *)
Definition told_of (c : str) (i : Item) (told : Z → bool) (m : gmap str Stream) (h' : Hub) : Prop :=
  ∀ id s, m !! id = Some s → s_client s = c → told (s_tx s) = true → (c, s_tx s, i) ∈ pushed h'.

Lemma told_of_more c i told m h h' : pushed h ⊆ pushed h' → told_of c i told m h → told_of c i told m h'.
Proof. intros E H id s Hs Hc Ht. apply E. by apply (H id). Qed.

Lemma close_all_told c i told m h : told_of c i told m (close_all c i told (streams_of c m) h).
Proof.
  intros id s Hs Hc Ht. destruct (close_all_pushes c i told (streams_of c m) h) as (l & -> & Hl). apply elem_of_app. left.
  apply Hl; [by eapply elem_of_streams_of|done].
Qed.

Lemma close_tcp_spec c told h :
  only_more (set_tcp h (not_of c (tcp_streams h))) (close_tcp c told h) ∧ told_of c ITcpClose told (tcp_streams h) (close_tcp c told h).
Proof. split; [apply close_all_tables|apply close_all_told]. Qed.
Lemma close_udp_spec c told h :
  only_more (set_udp h (not_of c (udp_streams h))) (close_udp c told h) ∧ told_of c IUdpClose told (udp_streams h) (close_udp c told h).
Proof. split; [apply close_all_tables|apply close_all_told]. Qed.
Lemma close_ws_spec c told h :
  only_more (set_ws h (not_of c (ws_streams h))) (close_ws c told h) ∧ told_of c IWsClose told (ws_streams h) (close_ws c told h).
Proof. split; [apply close_all_tables|apply close_all_told]. Qed.

Lemma cleanup_leaves_nothing c told h : left_nothing c told h (cleanup c told h).
Proof.
  unfold cleanup. set (h0 := charge_if _ _ _).
  assert (tcp_streams h0 = tcp_streams h ∧ udp_streams h0 = udp_streams h ∧ ws_streams h0 = ws_streams h ∧ cache_of h0 c = []) as (T1 & T2 & T3 & T4).
  { unfold h0. destruct (charge_if_tables (set_cache h c []) c (sum_unreported (cache_of h c))) as [->| ->];
    repeat split; try done; unfold cache_of; simpl; by rewrite lookup_insert_eq. }
  clearbody h0. set (h1 := set_responses _ _).
  destruct (close_tcp_spec c told h1) as [[A1 A2 A3 A4 A5 A6 A7 _] Q1]. set (h2 := close_tcp c told h1) in *. clearbody h2.
  destruct (close_udp_spec c told h2) as [[B1 B2 B3 B4 B5 B6 B7 P2] Q2]. set (h3 := close_udp c told h2) in *. clearbody h3.
  destruct (close_ws_spec c told h3) as [[C1 C2 C3 C4 C5 C6 C7 P3] Q3]. set (h4 := close_ws c told h3) in *. clearbody h4.
  split.
  - rewrite C1. simpl. rewrite B1. simpl. rewrite A1. intros id. apply pending_none.
  - rewrite C2. simpl. rewrite B2. simpl. rewrite A2. intros id. apply pending_none.
  - rewrite C3. simpl. rewrite B3. simpl. rewrite A3. apply not_of_none.
  - rewrite C4. simpl. rewrite B4. simpl. rewrite A4. apply not_of_none.
  - rewrite C5. simpl. rewrite B5. apply not_of_none.
  - rewrite C6. apply not_of_none.
  - unfold cache_of. rewrite C7. simpl. rewrite B7. simpl. rewrite A7. exact T4.
  - rewrite <- T1. eapply told_of_more; [exact P3|]. eapply told_of_more; [exact P2|]. exact Q1.
  - rewrite <- T2. eapply told_of_more; [exact P3|]. rewrite A5 in Q2. exact Q2.
  - rewrite <- T3. rewrite B6 in Q3. simpl in Q3. rewrite A6 in Q3. exact Q3.
Qed.

(** when a connection ends nothing of it is left in any table, every TCP, UDP and
    WebSocket relay it fed is told to close, and the whole of what it delivered has
    been charged. *)
Theorem ended_connection_settled b64_decode s c told :
  reachable b64_decode s →
  left_nothing c told (hub s) (cleanup c told (hub s)) ∧
  default 0 (charged (cleanup c told (hub s)) !! c) = delivered c (pushed (cleanup c told (hub s))).
Proof.
  intros Hok%hub_reachable_ok. pose proof (cleanup_leaves_nothing c told (hub s)) as Hn. split; [done|].
  rewrite <- (ok_count _ _ (ok_cleanup _ _ c told Hok) c), (ln_cache _ _ _ _ Hn). change (sum_unreported []) with 0. by rewrite Z.add_0_r.
Qed.

(** ** Samples *)

Module RelaySamples.
(** A decoder that knows one bad text. *)
Definition decode (d : str) : option str := if str_eqb d (bs "!") then None else Some d.
Definition start : System := {| hub := empty_hub; owners := {| chans := ∅; reqs := ∅ |} |}.
Definition dispatched : System :=
  {| hub := set_requests empty_hub (<[bs "r1" := bs "A"]> ∅); owners := own_req {| chans := ∅; reqs := ∅ |} (bs "r1") (bs "A") |}.
Definition streaming : System :=
  {| hub := handle decode (bs "A") (InResponseStart (bs "r1")) 1 true Pushed (hub dispatched); owners := own_chan (owners dispatched) 1 (bs "A") |}.
Definition sent : System :=
  {| hub := handle decode (bs "A") (InResponseChunk (bs "r1") (bs "hello")) 2 true Pushed (hub streaming);
     owners := own_chan (owners streaming) 2 (bs "A") |}.

Lemma sent_reachable : reachable decode sent.
Proof.
  apply (reach_step decode streaming); [apply (reach_step decode dispatched); [apply (reach_step decode start)|]|].
  - apply reach_start.
  - exact (SDispatch decode (bs "A") (bs "r1") empty_hub (owners start) eq_refl).
  - exact (SHandle decode (bs "A") (InResponseStart (bs "r1")) 1 true Pushed (hub dispatched) (owners dispatched) eq_refl).
  - exact (SHandle decode (bs "A") (InResponseChunk (bs "r1") (bs "hello")) 2 true Pushed (hub streaming) (owners streaming) eq_refl).
Defined.

Lemma relay_books_balance_witness :
  pushed (hub sent) = [(bs "A", 1, IBody (bs "hello"))] ∧ chans (owners sent) !! 1 = Some (bs "A") ∧
  default 0 (charged (hub sent) !! bs "A") + sum_unreported (cache_of (hub sent) (bs "A")) = 5.
Proof.
  destruct (relay_books_balance decode sent (bs "A") sent_reachable) as (H1 & H2 & _). split; [vm_compute; reflexivity|].
  split; [apply (H1 1 (IBody (bs "hello"))); left|rewrite H2; vm_compute; reflexivity].
Defined.

(** Another connection closes the stream of [A] by name, and it stays. *)
Lemma connection_confined_witness :
  same_others (bs "B") (hub sent) (handle decode (bs "B") (InResponseEnd (bs "r1") None) 3 true Pushed (hub sent)) ∧
  response_streams (handle decode (bs "B") (InResponseEnd (bs "r1") None) 3 true Pushed (hub sent)) !! bs "r1" = Some (stream (bs "A") 1 None).
Proof.
  split; [|vm_compute; reflexivity].
  exact (proj1 (connection_confined decode sent (bs "B") (InResponseEnd (bs "r1") None) 3 true (fun _ => true) Pushed sent_reachable eq_refl)).
Defined.

Lemma ended_connection_settled_witness :
  default 0 (charged (cleanup (bs "A") (fun _ => true) (hub sent)) !! bs "A") = 5 ∧
  response_streams (cleanup (bs "A") (fun _ => true) (hub sent)) !! bs "r1" = None.
Proof.
  destruct (ended_connection_settled decode sent (bs "A") (fun _ => true) sent_reachable) as [_ H].
  split; [rewrite H|]; vm_compute; reflexivity.
Defined.

(** A chunk that does not decode removes the stream it names, whoever owns it: after
    such a message of [B], the abort [A] sends no longer reaches the visitor, who
    sees a body that ended. *)
Definition poisoned : Hub := handle decode (bs "B") (InResponseChunk (bs "r1") (bs "!")) 3 true Pushed (hub sent).
Example poisoned_chunk_cuts_other :
  response_streams (hub sent) !! bs "r1" = Some (stream (bs "A") 1 None) ∧ response_streams poisoned !! bs "r1" = None ∧
  pushed (handle decode (bs "A") (InResponseAbort (bs "r1")) 4 true Pushed (hub sent)) =
    [(bs "A", 1, IAborted); (bs "A", 1, IBody (bs "hello"))] ∧
  pushed (handle decode (bs "A") (InResponseAbort (bs "r1")) 4 true Pushed poisoned) = [(bs "A", 1, IBody (bs "hello"))].
Proof. repeat split; vm_compute; reflexivity. Qed.
End RelaySamples.
