(* ===== verification/Pairing.v ===== *)
(** Which releases of client and server talk to each other:
    [aperio-config/src/pairing.rs] and [refuse_unpaired_client] of
    [aperio-server/src/tunnel/ws.rs]. *)

From S2P Require Import Prelude.
Local Open Scope rust_scope.

Definition RELEASE_HEADER : str := bs "x-aperio-release".

Record Version : Type := { v_major : Z; v_minor : Z; v_patch : Z }.

Definition quoted (s : str) : str := bs "'" ++ s ++ bs "'".

(** The loop over the components: [i] of them are in [parts] already. *)
Fixpoint parse_parts (raw : str) (i : nat) (parts : list Z) (l : list str) : result (list Z) str :=
  match l with
  | [] => Ok parts
  | part :: l' =>
      if (3 <=? i)%nat then Err (quoted raw ++ bs " has more than three components")
      else match parse_uint u64_max part with
           | None => Err (quoted raw ++ bs " is not a version: " ++ quoted part ++ bs " is not a number")
           | Some n => parse_parts raw (S i) (<[i := n]> parts) l'
           end
  end.

Definition is_v (a : ascii) : bool := bool_decide (a = "v"%char) || bool_decide (a = "V"%char).
Definition is_suffix_mark (a : ascii) : bool := bool_decide (a = "-"%char) || bool_decide (a = "+"%char).

Definition version_core (raw : str) : str :=
  let cleaned := trim_start_by is_v (trim raw) in
  trim_end_char "."%char (default [] (head (split_by is_suffix_mark cleaned))).

Definition version_parse (raw : str) : result Version str :=
  let core := version_core raw in
  if bool_decide (core = []) then Err (quoted raw ++ bs " is not a version")
  else let? parts := parse_parts raw 0 [0; 0; 0] (split_on "."%char core) in
       Ok {| v_major := nth 0 parts 0; v_minor := nth 1 parts 0; v_patch := nth 2 parts 0 |}.

Definition dotted (l : list str) : str := join (bs ".") l.
Definition version_line (v : Version) : str := dotted [show_uint (v_major v); show_uint (v_minor v); bs "x"].
Definition version_display (v : Version) : str :=
  dotted [show_uint (v_major v); show_uint (v_minor v); show_uint (v_patch v)].

Definition pairs_with (a b : Version) : bool := (v_major a =? v_major b) && (v_minor a =? v_minor b).

(** The lexicographic order of the components. *)
Definition version_lt (a b : Version) : bool :=
  (v_major a <? v_major b) ||
  (v_major a =? v_major b) && ((v_minor a <? v_minor b) || (v_minor a =? v_minor b) && (v_patch a <? v_patch b)).

Inductive PeerSide : Type := ClientSide | ServerSide.
Definition other_side (s : PeerSide) : PeerSide := match s with ClientSide => ServerSide | ServerSide => ClientSide end.
Definition side_word (s : PeerSide) : str := match s with ClientSide => bs "client" | ServerSide => bs "server" end.

Record Unsupported : Type := { u_local : str; u_local_side : PeerSide; u_peer : option str; u_upgrade : PeerSide }.

Definition unsupported_message (u : Unsupported) : str :=
  let peer_side := other_side (u_local_side u) in
  let line := match version_parse (u_local u) with Ok v => version_line v | Err _ => u_local u end in
  let peer := match u_peer u with
              | Some v => bs "this " ++ side_word peer_side ++ bs " is " ++ v
              | None => bs "this " ++ side_word peer_side ++ bs " announced no release, so it predates 0.13.0"
              end in
  peer ++ bs ", and this " ++ side_word (u_local_side u) ++ bs " is " ++ u_local u
    ++ bs ": a client and a server must share a minor release (" ++ line ++ bs "). Upgrade the "
    ++ side_word (u_upgrade u) ++ bs ".".

Definition nonblank (v : str) : option str := if bool_decide (trim v = []) then None else Some (trim v).

Definition check_pairing (local : str) (local_side : PeerSide) (announced : option str) : option Unsupported :=
  match version_parse local with
  | Err _ => None
  | Ok own =>
      let announced := announced ≫= nonblank in
      let refused up := Some {| u_local := local; u_local_side := local_side; u_peer := announced; u_upgrade := up |} in
      match announced ≫= (fun v => match version_parse v with Ok p => Some p | Err _ => None end) with
      | None => refused (other_side local_side)
      | Some peer =>
          if pairs_with own peer then None
          else refused (if version_lt peer own then other_side local_side else local_side)
      end
  end.

(** The answer of every tunnel endpoint to a client of another release: the status
    and the text, the release announced with it. *)
Definition refuse_unpaired_client (release : str) (h : headers) : option (Z * str) :=
  (fun u => (426, unsupported_message u)) <$> check_pairing release ServerSide (header_str RELEASE_HEADER h).

(** ** What the check decides *)

(** The release of a version text. *)
Definition same_line (a b : Version) : Prop := v_major a = v_major b ∧ v_minor a = v_minor b.

Lemma pairs_with_spec a b : pairs_with a b = true ↔ same_line a b.
Proof. unfold pairs_with, same_line. rewrite andb_true_iff, !Z.eqb_eq. done. Qed.

Lemma pairs_with_sym a b : pairs_with a b = pairs_with b a.
Proof. unfold pairs_with. by rewrite (Z.eqb_sym (v_major a)), (Z.eqb_sym (v_minor a)). Qed.

(** Two releases of different lines are ordered one way. *)
Lemma version_lt_total a b : pairs_with a b = false → version_lt a b = negb (version_lt b a).
Proof. unfold pairs_with, version_lt. lia. Qed.

Lemma version_core_trim raw : version_core (trim raw) = version_core raw.
Proof. unfold version_core. by rewrite trim_idem. Qed.

Lemma parse_parts_raw raw raw' i parts l v :
  parse_parts raw i parts l = Ok v → parse_parts raw' i parts l = Ok v.
Proof.
  revert i parts. induction l as [|part l IH]; intros i parts; cbn [parse_parts]; [done|].
  destruct (3 <=? i)%nat; [discriminate|]. destruct (parse_uint u64_max part); [apply IH|discriminate].
Qed.

Lemma version_parse_trim raw v : version_parse raw = Ok v → nonblank raw = Some (trim raw) ∧ version_parse (trim raw) = Ok v.
Proof.
  unfold version_parse, nonblank. rewrite version_core_trim. case_bool_decide as Hc; [done|]. intros H. split.
  - case_bool_decide as Ht; [|done]. unfold version_core in Hc. rewrite Ht in Hc. done.
  - destruct (parse_parts raw 0 [0; 0; 0] (split_on _ _)) eqn:E; [|done]. simpl in H.
    by rewrite (parse_parts_raw _ (trim raw) _ _ _ _ E).
Qed.

Lemma check_pairing_known a side b va vb :
  version_parse a = Ok va → version_parse b = Ok vb →
  check_pairing a side (Some b) =
    if pairs_with va vb then None
    else Some {| u_local := a; u_local_side := side; u_peer := Some (trim b);
                 u_upgrade := if version_lt vb va then other_side side else side |}.
Proof.
  intros Ha Hb. apply version_parse_trim in Hb as [Hn Hb]. unfold check_pairing. rewrite Ha. simpl. rewrite Hn. simpl. by rewrite Hb.
Qed.

(** for any two releases, a server admits a client exactly when the client would
    admit the server, which is when they share a minor release; and when they do not
    both ends name the same side to upgrade, the one on the lower release. *)
Theorem pairing_agrees server client vs vc :
  version_parse server = Ok vs → version_parse client = Ok vc →
  (check_pairing server ServerSide (Some client) = None ↔ same_line vs vc) ∧
  (check_pairing client ClientSide (Some server) = None ↔ same_line vs vc) ∧
  (¬ same_line vs vc →
   u_upgrade <$> check_pairing server ServerSide (Some client) = Some (if version_lt vc vs then ClientSide else ServerSide) ∧
   u_upgrade <$> check_pairing client ClientSide (Some server) = Some (if version_lt vc vs then ClientSide else ServerSide)).
Proof.
  intros Hs Hc. rewrite (check_pairing_known server _ client vs vc), (check_pairing_known client _ server vc vs) by done.
  rewrite (pairs_with_sym vc vs), <- pairs_with_spec. destruct (pairs_with vs vc) eqn:E; [naive_solver|].
  split; [naive_solver|]. split; [naive_solver|]. intros _. simpl. rewrite (version_lt_total vs vc E).
  by destruct (version_lt vc vs).
Qed.

Lemma pairing_agrees_witness :
  check_pairing (bs "0.13.4") ServerSide (Some (bs " v0.13.0-rc1 ")) = None ∧
  u_upgrade <$> check_pairing (bs "0.13.4") ServerSide (Some (bs "0.12.9")) = Some ClientSide.
Proof.
  split.
  - apply (pairing_agrees (bs "0.13.4") (bs " v0.13.0-rc1 ") {| v_major := 0; v_minor := 13; v_patch := 4 |}
      {| v_major := 0; v_minor := 13; v_patch := 0 |}); [vm_compute; reflexivity..|]. split; reflexivity.
  - apply (pairing_agrees (bs "0.13.4") (bs "0.12.9") {| v_major := 0; v_minor := 13; v_patch := 4 |}
      {| v_major := 0; v_minor := 12; v_patch := 9 |}); [vm_compute; reflexivity..|]. intros [_ H]. discriminate H.
Defined.

(** A peer that announces no release, or nothing that reads as one, is refused and
    told to upgrade. *)
Theorem silence_refused a side announced va :
  version_parse a = Ok va →
  (∀ b, announced = Some b → ∃ e, version_parse (trim b) = Err e) →
  u_upgrade <$> check_pairing a side announced = Some (other_side side).
Proof.
  intros Ha Hb. unfold check_pairing. rewrite Ha. destruct announced as [b|]; [|done]. simpl.
  unfold nonblank. case_bool_decide; [done|]. simpl. destruct (Hb b eq_refl) as [e ->]. done.
Qed.

(** ** A printed release reads back *)

Definition digit_or_dot (a : ascii) : bool := is_digit a || bool_decide (a = "."%char).

Lemma digit_or_dot_plain a : digit_or_dot a = true → graphic a = true ∧ is_v a = false ∧ is_suffix_mark a = false.
Proof.
  unfold digit_or_dot, is_v, is_suffix_mark. intros [H|H]%orb_true_iff.
  - split; [unfold is_digit in H; unfold graphic; lia|].
    split; apply orb_false_iff; split; apply bool_decide_eq_false; intros ->; discriminate H.
  - apply bool_decide_eq_true in H as ->. done.
Qed.

Lemma display_chars v :
  0 <= v_major v → 0 <= v_minor v → 0 <= v_patch v → Forall (fun a => digit_or_dot a = true) (version_display v).
Proof.
  intros H1 H2 H3. unfold version_display, dotted. cbn [join].
  assert (∀ n, 0 <= n → Forall (fun a => digit_or_dot a = true) (show_uint n)) as Hd.
  { intros n (_ & Hn & _)%show_uint_spec. apply forallb_Forall in Hn. eapply Forall_impl; [exact Hn|]. intros a Ha.
    unfold digit_or_dot. by rewrite Ha. }
  assert (Forall (fun a => digit_or_dot a = true) (bs ".")) by by repeat constructor.
  repeat (apply Forall_app_2); auto.
Qed.

Lemma no_dot n : 0 <= n → "."%char ∉ show_uint n.
Proof.
  intros (_ & Hd & _)%show_uint_spec Hin. apply forallb_Forall in Hd. rewrite Forall_forall in Hd. by apply Hd in Hin.
Qed.

Lemma display_ends v : 0 <= v_patch v → ∃ r a, version_display v = r ++ [a] ∧ is_digit a = true.
Proof.
  intros (Hne & Hd & _)%show_uint_spec. destruct (exists_last Hne) as (l & x & E).
  exists (show_uint (v_major v) ++ bs "." ++ show_uint (v_minor v) ++ bs "." ++ l), x. split.
  - unfold version_display, dotted. cbn [join]. rewrite E. by rewrite <- !app_assoc.
  - rewrite E, forallb_app in Hd. simpl in Hd. by apply andb_true_iff in Hd as [_ [? _]%andb_true_iff].
Qed.

(** the release a side prints is read back by the other side as the same
    version, for all 64-bit components. *)
Theorem version_roundtrip v :
  0 <= v_major v <= u64_max → 0 <= v_minor v <= u64_max → 0 <= v_patch v <= u64_max →
  version_parse (version_display v) = Ok v.
Proof.
  intros H1 H2 H3. pose proof (display_chars v (proj1 H1) (proj1 H2) (proj1 H3)) as Hc.
  destruct (display_ends v (proj1 H3)) as (r & a & Hr & Ha).
  assert (version_core (version_display v) = version_display v) as Hcore.
  { unfold version_core. rewrite trim_graphic by (eapply Forall_impl; [exact Hc|]; intros x Hx; by apply digit_or_dot_plain).
    rewrite trim_start_by_id by (intros x s Hs; rewrite Hs in Hc; inversion Hc; by apply digit_or_dot_plain).
    rewrite split_by_none by (eapply Forall_impl; [exact Hc|]; intros x Hx; by apply digit_or_dot_plain).
    simpl. apply trim_end_by_id. intros r' a' Hr'. rewrite Hr in Hr'. apply app_inj_tail in Hr' as [_ <-].
    apply is_char_false. intros ->. discriminate Ha. }
  unfold version_parse. rewrite Hcore, bool_decide_eq_false_2 by (rewrite Hr; by destruct r).
  unfold version_display, dotted. rewrite (split_join "."%char []) by
    (try apply not_elem_of_nil; repeat constructor; apply no_dot; lia).
  simpl. rewrite !parse_show_uint by done. by destruct v.
Qed.

Lemma version_roundtrip_witness :
  version_parse (version_display {| v_major := 0; v_minor := 13; v_patch := 4 |}) = Ok {| v_major := 0; v_minor := 13; v_patch := 4 |}.
Proof. apply version_roundtrip; simpl; unfold u64_max; lia. Defined.
