(* ===== verification/Tunnel.v ===== *)
(** The life of a tunnel connection: the slot it reserves, its registration, its
    heartbeats and its end ([aperio-server/src/tunnel/ws.rs], [on_ping] of
    [tunnel/ws/ping.rs], [on_draining] and the registry half of [cleanup] of
    [tunnel/ws/upgrade.rs]), the fences of [state.rs] that disconnect live
    connections, and the reaping of silent ones.

    The half of [cleanup] that settles requests and streams is in [Relay], the
    declaration of one service in [Declare]. What a heartbeat asks the autoscaler
    for is its answer, and is not carried further here. *)

From S2P Require Import Prelude Binds IpNet ClientIp RateLimit VisitorAuth Orgs Clients Select Declare Rows Tokens Pairing.
Local Open Scope rust_scope.

(** ** The slot counter *)

(** Where an upgrade is: it read the counter, it holds a slot through its guard,
    or [handle_socket] holds it. *)
Inductive Phase : Type := Loaded (n : Z) | Armed | Live.

Record Slots : Type := { active_tunnel_count : Z; max_tunnels : Z; upgrades : gmap Z Phase }.

(** One pass of the loop, to the comparison: [None] is the refusal. *)
Definition load_count (s : Slots) : option Z :=
  if max_tunnels s <=? active_tunnel_count s then None else Some (active_tunnel_count s).

Definition compare_exchange (s : Slots) (current : Z) : option Z :=
  if active_tunnel_count s =? current then Some (current + 1) else None.

Definition set_count (s : Slots) (n : Z) (u : gmap Z Phase) : Slots :=
  {| active_tunnel_count := n; max_tunnels := max_tunnels s; upgrades := u |}.

(** [fetch_sub(1)] *)
Definition release (s : Slots) (k : Z) : Slots := set_count s (wrap64 (active_tunnel_count s - 1)) (delete k (upgrades s)).

(** What the upgrades and the settings do to the counter, one atomic access at a
    time. A dropped guard that was handed off releases nothing. *)
Inductive slot_step : Slots → Slots → Prop :=
| SlLoad s k n : upgrades s !! k = None → load_count s = Some n →
    slot_step s (set_count s (active_tunnel_count s) (<[k := Loaded n]> (upgrades s)))
| SlReserve s k n m : upgrades s !! k = Some (Loaded n) → compare_exchange s n = Some m →
    slot_step s (set_count s m (<[k := Armed]> (upgrades s)))
| SlRetry s k n : upgrades s !! k = Some (Loaded n) → compare_exchange s n = None →
    slot_step s (set_count s (active_tunnel_count s) (delete k (upgrades s)))
| SlDropped s k : upgrades s !! k = Some Armed → slot_step s (release s k)
| SlHandedOff s k : upgrades s !! k = Some Armed →
    slot_step s (set_count s (active_tunnel_count s) (<[k := Live]> (upgrades s)))
| SlEnded s k : upgrades s !! k = Some Live → slot_step s (release s k)
| SlLimit s n : slot_step s {| active_tunnel_count := active_tunnel_count s; max_tunnels := n; upgrades := upgrades s |}.

(** The states with the largest limit so far. *)
Inductive slots_run : Slots → Z → Prop :=
| run_start n : 0 <= n < 2 ^ 64 → slots_run {| active_tunnel_count := 0; max_tunnels := n; upgrades := ∅ |} n
| run_step s s' top : slots_run s top → slot_step s s' → max_tunnels s' < 2 ^ 64 → slots_run s' (Z.max top (max_tunnels s')).

Definition holds_slot (p : Phase) : bool := match p with Loaded _ => false | Armed | Live => true end.
Definition holders (u : gmap Z Phase) : nat := size (filter (fun kp => holds_slot kp.2 = true) u).

Lemma holders_insert u k p :
  holders (<[k := p]> u) = (holders (delete k u) + if holds_slot p then 1 else 0)%nat.
Proof.
  unfold holders. rewrite <- insert_delete_eq. destruct (holds_slot p) eqn:E.
  - rewrite map_filter_insert_True by done. rewrite map_size_insert_None; [lia|].
    apply map_lookup_filter_None. left. apply lookup_delete_eq.
  - rewrite map_filter_insert_False by (simpl; by rewrite E). rewrite delete_delete_eq. lia.
Qed.

Lemma holders_lookup u k p :
  u !! k = Some p → holders u = (holders (delete k u) + if holds_slot p then 1 else 0)%nat.
Proof. intros H. rewrite <- (holders_insert u k p). f_equal. symmetry. by apply insert_id. Qed.

Lemma holders_delete u k : u !! k = None → holders (delete k u) = holders u.
Proof. intros H. by rewrite delete_id. Qed.

Definition slots_ok (s : Slots) (top : Z) : Prop :=
  active_tunnel_count s = Z.of_nat (holders (upgrades s)) ∧ active_tunnel_count s <= top < 2 ^ 64 ∧ max_tunnels s <= top ∧
  ∀ k n, upgrades s !! k = Some (Loaded n) → n < top.

Lemma slots_run_ok s top : slots_run s top → slots_ok s top.
Proof.
  induction 1 as [n Hn|s s' top _ (Hc & Ht & Hm & Hl) Hs Hb].
  { split; [done|]. split; [simpl; lia|]. split; [done|]. intros k m Hk. simpl in Hk. by rewrite lookup_empty in Hk. }
  assert (∀ s u, max_tunnels (set_count s (active_tunnel_count s) u) = max_tunnels s) as Hmax by done.
  destruct Hs as [s k n Hk Hld|s k n m Hk Hcas|s k n Hk Hcas|s k Hk|s k Hk|s k Hk|s n];
    unfold slots_ok, release, set_count in *; simpl in *; rewrite ?Z.max_l by lia.
  - rewrite holders_insert, holders_delete by done. simpl. rewrite Nat.add_0_r. split_and!; try done; try lia.
    intros k' n' [[-> [= ->]]|[_ Hk']]%lookup_insert_Some; [|by eapply Hl].
    unfold load_count in Hld. case_match; [done|]. injection Hld as <-. to_prop. lia.
  - unfold compare_exchange in Hcas. case_match; [|done]. injection Hcas as <-. to_prop.
    rewrite holders_insert. rewrite (holders_lookup _ _ _ Hk) in Hc. simpl in *. pose proof (Hl _ _ Hk).
    split_and!; try lia. intros k' n' [[? ?]|[_ Hk']]%lookup_insert_Some; [done|by eapply Hl].
  - rewrite (holders_lookup _ _ _ Hk) in Hc. simpl in Hc. split_and!; try lia.
    intros k' n' [_ Hk']%lookup_delete_Some. by eapply Hl.
  - rewrite (holders_lookup _ _ _ Hk) in Hc. simpl in Hc. rewrite wrap64_small by lia. split_and!; try lia.
    intros k' n' [_ Hk']%lookup_delete_Some. by eapply Hl.
  - rewrite holders_insert. rewrite (holders_lookup _ _ _ Hk) in Hc. simpl in *. split_and!; try lia.
    intros k' n' [[? ?]|[_ Hk']]%lookup_insert_Some; [done|by eapply Hl].
  - rewrite (holders_lookup _ _ _ Hk) in Hc. simpl in Hc. rewrite wrap64_small by lia. split_and!; try lia.
    intros k' n' [_ Hk']%lookup_delete_Some. by eapply Hl.
  - split_and!; try lia. intros k' n' Hk'. specialize (Hl _ _ Hk'). lia.
Qed.

(** however concurrent upgrades, failed handshakes, ending connections and
    changes of the setting interleave, the counter is exactly the number of
    upgrades and connections holding a slot: none is leaked and none is counted
    twice, and it never passes the largest limit that was in force. *)
Theorem tunnel_slots_exact s top :
  slots_run s top → active_tunnel_count s = Z.of_nat (holders (upgrades s)) ∧ active_tunnel_count s <= top.
Proof. intros (H1 & H2 & _)%slots_run_ok. split; [done|lia]. Qed.

Definition one_live : Slots := {| active_tunnel_count := 1; max_tunnels := 1; upgrades := {[7 := Live]} |}.
Lemma one_live_run : slots_run one_live 1.
Proof.
  pose (s0 := {| active_tunnel_count := 0; max_tunnels := 1; upgrades := ∅ |}).
  pose (s1 := set_count s0 0 (<[7 := Loaded 0]> ∅)). pose (s2 := set_count s1 1 (<[7 := Armed]> (upgrades s1))).
  assert (slots_run s0 1) as H0 by (apply run_start; lia).
  assert (slots_run s1 1) as H1 by exact (run_step s0 s1 1 H0 (SlLoad s0 7 0 eq_refl eq_refl) ltac:(simpl; lia)).
  assert (slots_run s2 1) as H2 by exact (run_step s1 s2 1 H1 (SlReserve s1 7 0 1 eq_refl eq_refl) ltac:(simpl; lia)).
  exact (run_step s2 one_live 1 H2 (SlHandedOff s2 7 eq_refl) ltac:(simpl; lia)).
Defined.

Lemma tunnel_slots_exact_witness : active_tunnel_count one_live = Z.of_nat (holders (upgrades one_live)) ∧ load_count one_live = None.
Proof. split; [apply (tunnel_slots_exact one_live 1 one_live_run)|reflexivity]. Defined.

(** ** The handshake *)

Definition MAX_DECLARED_SERVICES : nat := 256.
Definition MAX_ALTERNATES : nat := 8.
Definition MAX_CONNECTIONS_HEADER : str := bs "x-aperio-max-connections".
Definition VISITOR_AUTH_METHODS_HEADER : str := bs "x-aperio-visitor-auth-methods".
Definition ALTERNATE_SERVERS_HEADER : str := bs "x-aperio-alternate-servers".

Definition parse_alternates (raw : str) : list str :=
  take MAX_ALTERNATES (filter (fun v => starts_with (bs "ws://") v || starts_with (bs "wss://") v = true) (trim <$> split_on ","%char raw)).

(** The loop of the handshake as one upgrade runs it alone. *)
Definition reserve (s : Slots) (k : Z) : option Slots :=
  match load_count s with
  | None => None
  | Some current => (fun n => set_count s n (<[k := Armed]> (upgrades s))) <$> compare_exchange s current
  end.

Record DoorConfig (F : Type) : Type := {
  dc_trust_proxy : bool;
  dc_real_ip_header : option str;
  dc_trusted_proxies : list (ipaddr * Z);
  dc_ip_limit_max : F;
  dc_ip_limit_refill : F;
  dc_master_token : str;
  dc_max_connections : Z;
  dc_alternates : list str;
  dc_release : str;
}.
Arguments dc_trust_proxy {F}. Arguments dc_real_ip_header {F}. Arguments dc_trusted_proxies {F}.
Arguments dc_ip_limit_max {F}. Arguments dc_ip_limit_refill {F}. Arguments dc_master_token {F}.
Arguments dc_max_connections {F}. Arguments dc_alternates {F}. Arguments dc_release {F}.

Record Door (F : Type) : Type := {
  dr_buckets : list (ipaddr * RateLimitState F);
  dr_tokens : Rows (ApiToken F);
  dr_fences : fences;
  dr_seen : list (str * list ipaddr);
  dr_orgs : list org_record;
  dr_client_orgs : list (option str);
  dr_slots : Slots;
}.
Arguments dr_buckets {F}. Arguments dr_tokens {F}. Arguments dr_fences {F}. Arguments dr_seen {F}.
Arguments dr_orgs {F}. Arguments dr_client_orgs {F}. Arguments dr_slots {F}.

(** What an admitted upgrade hands to [handle_socket], with the headers announced. *)
Record Upgraded : Type := {
  up_perms : ClientPerms;
  up_ip : ipaddr;
  up_instance_group : option str;
  up_headers : headers;
}.

Section Handshake.
Context {F : Type} `{HF : Float F} (sha256 : str → str).

Definition with_buckets (d : Door F) b : Door F :=
  {| dr_buckets := b; dr_tokens := dr_tokens d; dr_fences := dr_fences d; dr_seen := dr_seen d; dr_orgs := dr_orgs d;
     dr_client_orgs := dr_client_orgs d; dr_slots := dr_slots d |}.
Definition with_seen (d : Door F) s : Door F :=
  {| dr_buckets := dr_buckets d; dr_tokens := dr_tokens d; dr_fences := dr_fences d; dr_seen := s; dr_orgs := dr_orgs d;
     dr_client_orgs := dr_client_orgs d; dr_slots := dr_slots d |}.
Definition with_slots (d : Door F) s : Door F :=
  {| dr_buckets := dr_buckets d; dr_tokens := dr_tokens d; dr_fences := dr_fences d; dr_seen := dr_seen d; dr_orgs := dr_orgs d;
     dr_client_orgs := dr_client_orgs d; dr_slots := s |}.

Definition instance_of (hs : headers) : option str := header_str (bs "x-aperio-instance") hs ≫= nonblank.

Definition handshake_headers (cfg : DoorConfig F) (p : ClientPerms) : headers :=
  [(MAX_CONNECTIONS_HEADER, show_uint (connection_ceiling p (dc_max_connections cfg)));
   (RELEASE_HEADER, dc_release cfg);
   (VISITOR_AUTH_METHODS_HEADER, if allow_public p then join (bs ",") CLIENT_DECLARABLE_METHODS else [])]
  ++ match join (bs ",") (dc_alternates cfg) with [] => [] | a => [(ALTERNATE_SERVERS_HEADER, a)] end.

(** [ws_handler], up to the upgrade: the refusal's status, or what goes on. [k] names
    the upgrade. *)
Definition ws_handler (cfg : DoorConfig F) (now : Z) (hs : headers) (peer : ipaddr) (k : Z) (d : Door F) :
    result Upgraded Z * Door F * list TokenEvent :=
  let ip := extract_client_ip hs peer (dc_trust_proxy cfg) (dc_real_ip_header cfg) (dc_trusted_proxies cfg) in
  let '(allowed, buckets) := check_rate_limit (dr_buckets d) ip now (dc_ip_limit_max cfg) (dc_ip_limit_refill cfg) in
  let d := with_buckets d buckets in
  if negb allowed then (Err 429, d, [])
  else
    let '(perms, events, seen) := authorize_tunnel_token sha256 (dc_master_token cfg) (dr_tokens d) (dr_fences d) (dr_seen d) now hs ip in
    let d := with_seen d seen in
    match perms with
    | None => (Err 401, d, events)
    | Some p =>
        match check_org_client_quota (dr_orgs d) (dr_client_orgs d) (org_id p) with
        | Err _ => (Err 503, d, events)
        | Ok _ =>
            match refuse_unpaired_client (dc_release cfg) hs with
            | Some (status, _) => (Err status, d, events)
            | None =>
                match reserve (dr_slots d) k with
                | None => (Err 503, d, events)
                | Some slots =>
                    (Ok {| up_perms := p; up_ip := ip; up_instance_group := instance_of hs; up_headers := handshake_headers cfg p |},
                     with_slots d slots, events)
                end
            end
        end
    end.

(** A quota in force leaves room for one more. *)
Definition under_quota (orgs : list org_record) (client_orgs : list (option str)) (org : option str) : Prop :=
  ∀ o max, org_quota orgs org = Some o → o_max_clients o = Some max →
    Z.of_nat (length (filter (fun c => c = org) client_orgs)) < max.

Lemma check_org_client_quota_Ok orgs cs org : check_org_client_quota orgs cs org = Ok tt → under_quota orgs cs org.
Proof.
  unfold check_org_client_quota, under_quota. intros H o max Ho Hm. rewrite Ho, Hm in H. case_match; [done|]. to_prop. lia.
Qed.

Lemma reserve_Some s k s' : reserve s k = Some s' →
  active_tunnel_count s < max_tunnels s ∧ active_tunnel_count s' = active_tunnel_count s + 1.
Proof.
  unfold reserve, load_count, compare_exchange. destruct (_ <=? _) eqn:E; [discriminate|]. rewrite Z.eqb_refl. intros [= <-]. to_prop. simpl. lia.
Qed.

(** an upgrade gets a socket only within the address's rate, with a credential
    that authorizes it for its address, under its organization's quota, from a
    client of the same minor release and with a free slot, which it then takes; it
    is told the connection ceiling of its own token, and no gate method unless its
    token may declare one. A refused upgrade takes no slot. *)
Theorem upgrade_admission cfg now hs peer k d res d' events :
  ws_handler cfg now hs peer k d = (res, d', events) →
  match res with
  | Ok up =>
      (check_rate_limit (dr_buckets d) (up_ip up) now (dc_ip_limit_max cfg) (dc_ip_limit_refill cfg)).1 = true ∧
      (authorize_tunnel_token sha256 (dc_master_token cfg) (dr_tokens d) (dr_fences d) (dr_seen d) now hs (up_ip up)).1.1 = Some (up_perms up) ∧
      under_quota (dr_orgs d) (dr_client_orgs d) (org_id (up_perms up)) ∧
      check_pairing (dc_release cfg) ServerSide (header_str RELEASE_HEADER hs) = None ∧
      active_tunnel_count (dr_slots d) < max_tunnels (dr_slots d) ∧
      active_tunnel_count (dr_slots d') = active_tunnel_count (dr_slots d) + 1 ∧
      header_get MAX_CONNECTIONS_HEADER (up_headers up) = Some (show_uint (connection_ceiling (up_perms up) (dc_max_connections cfg))) ∧
      (allow_public (up_perms up) = false → header_get VISITOR_AUTH_METHODS_HEADER (up_headers up) = Some [])
  | Err status => status ∈ [429; 401; 503; 426] ∧ dr_slots d' = dr_slots d
  end.
Proof.
  unfold ws_handler. set (ip := extract_client_ip _ _ _ _ _).
  destruct (check_rate_limit _ ip now _ _) as [allowed buckets] eqn:Er.
  destruct allowed; simpl; [|intros [= <- <- <-]; split; [set_solver|done]].
  destruct (authorize_tunnel_token _ _ _ _ _ _ _ _) as [[perms ev] seen] eqn:Ea.
  destruct perms as [p|]; [|intros [= <- <- <-]; split; [set_solver|done]].
  destruct (check_org_client_quota _ _ _) as [[]|] eqn:Eq; [|intros [= <- <- <-]; split; [set_solver|done]].
  destruct (refuse_unpaired_client _ hs) as [[status msg]|] eqn:Ep.
  { unfold refuse_unpaired_client in Ep. apply fmap_Some in Ep as (u & _ & [= -> ->]).
    intros [= <- <- <-]. split; [set_solver|done]. }
  destruct (reserve _ k) as [slots|] eqn:Es; [|intros [= <- <- <-]; split; [set_solver|done]].
  intros [= <- <- <-]. apply reserve_Some in Es.
  cbn [up_ip up_perms up_headers dr_slots with_slots with_seen with_buckets dr_orgs dr_client_orgs dr_tokens dr_fences dr_seen fst snd] in *.
  rewrite Er, Ea.
  split_and!; try done; try apply Es.
  - by apply check_org_client_quota_Ok.
  - unfold refuse_unpaired_client in Ep. by destruct (check_pairing _ _ _).
  - unfold handshake_headers. intros ->. reflexivity.
Qed.
End Handshake.

(** ** Registration *)

Section Register.
Context (sha256 : str → str).

Definition nul : ascii := chr 0.

(** The hostname of the random subdomain: the same for every connection of one
    process that was granted the same names. [uuid] is fresh. *)
Definition random_hostname_of (suffix : option str) (uuid : str) (group : option str) (assigned : list str) : option str :=
  match suffix with
  | None => None
  | Some pattern =>
      Some match group, assigned with
           | Some g, _ :: _ => random_subdomain_hostname_seeded sha256 pattern (g ++ [nul] ++ join (bs ",") assigned)
           | _, _ => random_subdomain_hostname uuid pattern
           end
  end.

Definition first_service (pacer : Z) (p : ClientPerms) (assigned : list str) (random : option str) : ServiceState :=
  {| request_count := 0; declared_path := None; assigned_path := granted_path p;
     declared_hostname := None; declared_hostnames := []; assigned_hostnames := assigned;
     random_hostname := random; max_concurrent := None; max_concurrent_ceiling := None;
     inflight_limiter := None; admin_enabled := true; server_side_target := None;
     server_side_refused := None; policy_conflict := None; catch_all := false;
     serves_http := false; route_noticed := false; capture := true; connections := None;
     connections_min := None; connections_max := None; config_notes := [];
     metrics_labels := []; tcp_enabled := false; backend_healthy := true;
     backend_probed := true; priority := 0; bandwidth_bps := pacer; service_name := None;
     service_custom_name := None; public := false; public_denied_warned := false;
     visitor_auth := None; visitor_auth_policy := None; visitor_auth_denied_warned := false;
     ungated_warned := false; allowed_ips := []; allowed_ips_invalid_warned := false;
     scaling_invalid_warned := false; tunnels := []; cache := false;
     cache_ignored_warned := false; notices_sent := []; resilience := false;
     max_request_body := None; response_timeout := None; webhook_inbox := false;
     denied := None; recent_failures := []; ejected_until := None |}.

(** The handle [handle_socket] inserts. *)
Definition new_handle (now chan pacer : Z) (ip : str) (p : ClientPerms) (group suffix : option str) (uuid : str) : ClientHandle :=
  let granted := granted_hostnames p in
  let random := random_hostname_of suffix uuid group granted in
  let assigned := granted ++ match random with Some h => [h] | None => [] end in
  {| tx := chan; connected_at := now; client_ip := ip; last_ping_at := None; perms := p; draining := false;
     declared_client_id := None; declared_name := None; drain_secs := None; client_version := None;
     client_protocol := None; rss_bytes := None; rtt_ms := None; jitter_ms := None; reconnects := None;
     reported_instance_id := None; instance_group := group; subscriptions := [];
     services := [first_service pacer p assigned random] |}.
End Register.

(** ** The heartbeat *)

(** The last occurrence of a separator. *)
Fixpoint rsplit_str (p s : str) : option (str * str) :=
  match s with
  | [] => None
  | a :: s' =>
      match rsplit_str p s' with
      | Some (h, t) => Some (a :: h, t)
      | None => (fun t => ([], t)) <$> strip_prefix p s
      end
  end.

Definition service_of (declared_id : str) : str :=
  match rsplit_str (bs "-c") declared_id with
  | Some (base, tail) => if negb (bool_decide (tail = [])) && forallb is_digit tail then base else declared_id
  | None => declared_id
  end.

(** Another connection of the same process that declared the same service. *)
Definition is_sibling (own : str) (group : option str) (service : str) (ic : str * ClientHandle) : bool :=
  negb (str_eqb ic.1 own) && bool_decide (instance_group ic.2 = group)
  && match declared_client_id ic.2 with Some other => str_eqb (service_of other) service | None => false end.

Definition service_connection_over_ceiling (clients : client_map) (own : str) (group : option str) (declared_id : str)
    (ceiling : Z) : bool :=
  ceiling <=? Z.of_nat (length (filter (fun ic => is_sibling own group (service_of declared_id) ic = true) clients)) mod 2 ^ 32.

Record Ping : Type := {
  p_services : list ServiceDecl;
  p_client_id : str;
  p_name : option str;
  p_timestamp : Z;
  p_version : option str;
  p_protocol : option Z;
  p_client_key : option str;
  p_drain_secs : option Z;
  p_rss_bytes : option Z;
  p_rtt_ms : option Z;
  p_jitter_ms : option Z;
  p_reconnects : option Z;
}.

(** [carried]: the service a declaration matched, taken out of the old list, or one
    with the connection's own assigned names. *)
Fixpoint carry (fresh : ServiceState) (old : list (option ServiceState)) (matched : list (option nat)) : list ServiceState :=
  match matched with
  | [] => []
  | m :: rest =>
      default fresh (m ≫= fun i => mjoin (old !! i)) ::
      carry fresh (match m with Some i => <[i := None]> old | None => old end) rest
  end.

Definition with_assigned (s : ServiceState) (assigned : list str) (random : option str) : ServiceState :=
  {| request_count := request_count s; declared_path := declared_path s; assigned_path := assigned_path s;
     declared_hostname := declared_hostname s; declared_hostnames := declared_hostnames s; assigned_hostnames := assigned;
     random_hostname := random; max_concurrent := max_concurrent s; max_concurrent_ceiling := max_concurrent_ceiling s;
     inflight_limiter := inflight_limiter s; admin_enabled := admin_enabled s; server_side_target := server_side_target s;
     server_side_refused := server_side_refused s; policy_conflict := policy_conflict s; catch_all := catch_all s;
     serves_http := serves_http s; route_noticed := route_noticed s; capture := capture s; connections := connections s;
     connections_min := connections_min s; connections_max := connections_max s; config_notes := config_notes s;
     metrics_labels := metrics_labels s; tcp_enabled := tcp_enabled s; backend_healthy := backend_healthy s;
     backend_probed := backend_probed s; priority := priority s; bandwidth_bps := bandwidth_bps s; service_name := service_name s;
     service_custom_name := service_custom_name s; public := public s; public_denied_warned := public_denied_warned s;
     visitor_auth := visitor_auth s; visitor_auth_policy := visitor_auth_policy s;
     visitor_auth_denied_warned := visitor_auth_denied_warned s; ungated_warned := ungated_warned s; allowed_ips := allowed_ips s;
     allowed_ips_invalid_warned := allowed_ips_invalid_warned s; scaling_invalid_warned := scaling_invalid_warned s;
     tunnels := tunnels s; cache := cache s; cache_ignored_warned := cache_ignored_warned s; notices_sent := notices_sent s;
     resilience := resilience s; max_request_body := max_request_body s; response_timeout := response_timeout s;
     webhook_inbox := webhook_inbox s; denied := denied s; recent_failures := recent_failures s; ejected_until := ejected_until s |}.

Definition reconcile (ss : list ServiceState) (matched : list (option nat)) : list ServiceState :=
  let pacer := match ss with s :: _ => bandwidth_bps s | [] => 0 end in
  let '(granted, random) := match ss with s :: _ => (assigned_hostnames s, random_hostname s) | [] => ([], None) end in
  carry (with_assigned (newly_declared pacer) granted random) (Some <$> ss) matched.

Definition MAX_NAME_LEN : Z := 64.
(** Whether [validate_name] accepts. It counts characters, which are bytes in every
    name that passes the last test. *)
Definition name_char (a : ascii) : bool := is_lower a || is_digit a || bool_decide (a = "_"%char).
Definition validate_name (name : str) : bool :=
  let trimmed := trim name in
  negb (bool_decide (trimmed = [])) && (len trimmed <=? MAX_NAME_LEN) && forallb name_char trimmed.

Definition declared_name_of (name : option str) : option str :=
  name ≫= fun n => if validate_name (trim n) then Some (trim n) else None.

(** The connection's own fields, and the services it goes on with. *)
Definition heartbeat (h : ClientHandle) (now : Z) (p : Ping) (ss : list ServiceState) : ClientHandle :=
  {| tx := tx h; connected_at := connected_at h; client_ip := client_ip h; last_ping_at := Some now; perms := perms h;
     draining := draining h; declared_client_id := Some (p_client_id p); declared_name := declared_name_of (p_name p);
     drain_secs := p_drain_secs p; client_version := match p_version p with Some v => Some v | None => client_version h end;
     client_protocol := client_protocol h; rss_bytes := p_rss_bytes p; rtt_ms := p_rtt_ms p; jitter_ms := p_jitter_ms p;
     reconnects := p_reconnects p;
     reported_instance_id := match reported_instance_id h with
                             | None => if bool_decide (p_client_id p = []) then None else Some (p_client_id p)
                             | Some i => Some i
                             end;
     instance_group := instance_group h; subscriptions := subscriptions h; services := ss |}.

Definition no_scaling_notice : str :=
  bs "`scaling:` is not applied: this server does not honour client scaling blocks (`scaling.enabled`), so nothing is started or retired for this service".

Record Server (F : Type) : Type := { sv_clients : client_map; sv_sems : gmap Z Z; sv_tokens : Rows (ApiToken F) }.
Arguments sv_clients {F}. Arguments sv_sems {F}. Arguments sv_tokens {F}.

(** What a heartbeat answers: whether the connection goes on, the notices, whether
    waiting requests are woken, what the autoscaler is asked to arm. *)
Record PingOut : Type := {
  po_keep : bool;
  po_notices : list (option str * str);
  po_woken : bool;
  po_arm : option (ScalingDecl * list str * option str * option str * option str * nat);
}.

Definition closed (notices : list (option str * str)) (woken : bool) : PingOut :=
  {| po_keep := false; po_notices := notices; po_woken := woken; po_arm := None |}.

Section Heartbeat.
Context {F : Type} `{HF : Float F}.
Context (cfg : DeclConfig) (url_ok : str → bool) (refuses : str → option str) (site_access : option str → str → bool).
Context (token_pinning scaling_enabled : bool) (server_max_connections : Z).

(** Each declaration onto the service of its place; [fresh] and up name new
    semaphores. *)
Fixpoint apply_all (h : ClientHandle) (ds : list ServiceDecl) (i : nat) (deferred : Deferred) (protocol : option Z)
    (sems : gmap Z Z) (fresh : Z) : option (ClientHandle * Deferred * gmap Z Z * list (option str * str)) :=
  match ds with
  | [] => Some (h, deferred, sems, [])
  | d :: ds' =>
      match apply_declaration cfg url_ok refuses site_access h d i deferred protocol sems fresh with
      | None => None
      | Some (h', deferred', sems', notices) =>
          match apply_all h' ds' (S i) deferred' protocol sems' (fresh + 1) with
          | None => None
          | Some (h2, deferred2, sems2, notices2) => Some (h2, deferred2, sems2, notices ++ notices2)
          end
      end
  end.

(** The pin of the connection's token. *)
Definition check_pin (ok : bool) (key : option str) (p : option (str * str * option str)) (store : Rows (ApiToken F)) :
    bool * Rows (ApiToken F) :=
  match p with
  | Some (token_id, _, _) =>
      if token_pinning then
        let '(verdict, store) := match key with
                                 | Some k => pin_key ok token_id k store
                                 | None => (Ok Mismatch, store)
                                 end in
        (match verdict with
         | Ok Mismatch | Err NotPersisted => false
         | Ok Pinned | Ok Match | Err NoSuchRecord => true
         end, store)
      else (true, store)
  | None => (true, store)
  end.

(** The notice of a server that does not scale, kept among the texts of the service. *)
Definition set_told (s : ServiceState) (told : list str) : ServiceState :=
  {| request_count := request_count s; declared_path := declared_path s; assigned_path := assigned_path s;
     declared_hostname := declared_hostname s; declared_hostnames := declared_hostnames s; assigned_hostnames := assigned_hostnames s;
     random_hostname := random_hostname s; max_concurrent := max_concurrent s; max_concurrent_ceiling := max_concurrent_ceiling s;
     inflight_limiter := inflight_limiter s; admin_enabled := admin_enabled s; server_side_target := server_side_target s;
     server_side_refused := server_side_refused s; policy_conflict := policy_conflict s; catch_all := catch_all s;
     serves_http := serves_http s; route_noticed := route_noticed s; capture := capture s; connections := connections s;
     connections_min := connections_min s; connections_max := connections_max s; config_notes := config_notes s;
     metrics_labels := metrics_labels s; tcp_enabled := tcp_enabled s; backend_healthy := backend_healthy s;
     backend_probed := backend_probed s; priority := priority s; bandwidth_bps := bandwidth_bps s; service_name := service_name s;
     service_custom_name := service_custom_name s; public := public s; public_denied_warned := public_denied_warned s;
     visitor_auth := visitor_auth s; visitor_auth_policy := visitor_auth_policy s;
     visitor_auth_denied_warned := visitor_auth_denied_warned s; ungated_warned := ungated_warned s; allowed_ips := allowed_ips s;
     allowed_ips_invalid_warned := allowed_ips_invalid_warned s; scaling_invalid_warned := scaling_invalid_warned s;
     tunnels := tunnels s; cache := cache s; cache_ignored_warned := cache_ignored_warned s; notices_sent := told;
     resilience := resilience s; max_request_body := max_request_body s; response_timeout := response_timeout s;
     webhook_inbox := webhook_inbox s; denied := denied s; recent_failures := recent_failures s; ejected_until := ejected_until s |}.

Definition tell_no_scaling (id : str) (d : Deferred) (clients : client_map) : client_map * list (option str * str) :=
  match scaling d with
  | Some (_, _, _, _, _, i) =>
      if scaling_enabled then (clients, [])
      else match aget id clients with
           | Some h =>
               match services h !! i with
               | Some s =>
                   let n := notice_once (service_name s) no_scaling_notice {| told := notices_sent s; out := [] |} in
                   (aset id (with_services h (<[i := set_told s (told n)]> (services h))) clients, out n)
               | None => (clients, [])
               end
           | None => (clients, [])
           end
  | None => (clients, [])
  end.

(** [on_ping]. [None] is a panic of the handler. *)
Definition on_ping (now fresh : Z) (ok : bool) (id : str) (p : Ping) (sv : Server F) : option (PingOut * Server F) :=
  let n := length (p_services p) in
  if (n =? 0)%nat || (MAX_DECLARED_SERVICES <? n)%nat then Some (closed [] false, sv)
  else
    match aget id (sv_clients sv) with
    | None =>
        (* the handle is gone: nothing is declared and the answer is sent *)
        Some ({| po_keep := true; po_notices := []; po_woken := false; po_arm := None |}, sv)
    | Some h =>
        match match_declarations (services h) (d_service <$> p_services p) with
        | Err _ => Some (closed [] false, sv)
        | Ok matched =>
            let h1 := heartbeat h now p (reconcile (services h) matched) in
            match apply_all h1 (p_services p) 0 {| pin := None; scaling := None |} (p_protocol p) (sv_sems sv) fresh with
            | None => None
            | Some (h2, deferred, sems, notices) =>
                let clients := aset id h2 (sv_clients sv) in
                let over := service_connection_over_ceiling clients id (instance_group h2) (p_client_id p)
                              (connection_ceiling (perms h2) server_max_connections) in
                let '(clients, refusals) := settle site_access clients id in
                let woken := awaiting_declaration h in
                let notices := notices ++ refusals in
                if over then Some (closed notices woken, {| sv_clients := clients; sv_sems := sems; sv_tokens := sv_tokens sv |})
                else
                  let '(admitted, store) := check_pin ok (p_client_key p) (pin deferred) (sv_tokens sv) in
                  if negb admitted
                  then Some (closed notices woken, {| sv_clients := clients; sv_sems := sems; sv_tokens := store |})
                  else
                    let '(clients, told) := tell_no_scaling id deferred clients in
                    Some ({| po_keep := true; po_notices := notices ++ told; po_woken := woken;
                             po_arm := if scaling_enabled then scaling deferred else None |},
                          {| sv_clients := clients; sv_sems := sems; sv_tokens := store |})
            end
        end
    end.

(** ** The end of a connection *)

(** The rotation cursors of the routes that still have a service. *)
Definition group_lives (clients : client_map) (key : RouteGroupKey) : bool :=
  existsb (fun ic => existsb (fun s =>
    match key.1 with Some h => matches_host s h | None => catch_all s end && bool_decide (effective_path_bind s = key.2))
    (services ic.2)) clients.


(** The registry half of [cleanup]: the table, the cursors, and whether anyone is
    left. *)
Definition unregister_connection (id : str) (clients : client_map) (rr : list (RouteGroupKey * Z)) :
    client_map * list (RouteGroupKey * Z) * bool :=
  let rest := aremove id clients in
  (rest,
   match aget id clients with Some _ => filter (fun kv => group_lives rest kv.1 = true) rr | None => rr end,
   bool_decide (rest = [])).

Definition SILENT_CLIENT_REAP_MULTIPLIER : Z := 4.

(** The connections told to end for their silence. *)
Definition reap_silent_clients (now down_threshold : Z) (clients : client_map) : list str :=
  (filter (fun ic => (down_threshold * SILENT_CLIENT_REAP_MULTIPLIER <? sat_sub now (default (connected_at ic.2) (last_ping_at ic.2))) = true)
     clients).*1.
End Heartbeat.

(** ** What a heartbeat leaves *)

Section Facts.
Context {F : Type} `{HF : Float F}.
Context (cfg : DeclConfig) (url_ok : str → bool) (refuses : str → option str) (site_access : option str → str → bool).
Context (token_pinning scaling_enabled : bool) (server_max_connections : Z).

#[local] Abbreviation apply_all := (apply_all cfg url_ok refuses site_access).
#[local] Abbreviation on_ping := (on_ping (F := F) cfg url_ok refuses site_access token_pinning scaling_enabled server_max_connections).

(** What one declaration keeps of the service it is about. *)
Definition same_history (a b : ServiceState) : Prop :=
  request_count a = request_count b ∧ recent_failures a = recent_failures b ∧ ejected_until a = ejected_until b ∧
  assigned_hostnames a = assigned_hostnames b ∧ admin_enabled a = admin_enabled b.

Lemma write_service_keeps p d lim s :
  let s' := (write_service cfg url_ok refuses p d lim s).1 in
  same_history s' s ∧ service_name s' = match d_service d with Some _ => d_service d | None => service_name s end.
Proof. unfold write_service. repeat case_match; simplify_eq; done. Qed.

Lemma declare_service_keeps p d lim s :
  let s' := (declare_service cfg url_ok refuses site_access p d lim s).1 in
  same_history s' s ∧ service_name s' = match d_service d with Some _ => d_service d | None => service_name s end.
Proof.
  unfold declare_service. pose proof (write_service_keeps p d lim s) as H.
  destruct (write_service _ _ _ _ _ _ _) as [s1 n1]. destruct (tell_route _ _ _ _ _) as [[a b] n2].
  unfold finish_service. destruct (negb _ && negb _); exact H.
Qed.

Lemma apply_declaration_spec h d i deferred protocol sems fresh s :
  services h !! i = Some s →
  ∃ h' deferred' sems' notices s', apply_declaration cfg url_ok refuses site_access h d i deferred protocol sems fresh = Some (h', deferred', sems', notices) ∧
    services h' = <[i := s']> (services h) ∧ perms h' = perms h ∧ last_ping_at h' = last_ping_at h ∧
    instance_group h' = instance_group h ∧ declared_client_id h' = declared_client_id h ∧
    same_history s' s ∧ service_name s' = match d_service d with Some _ => d_service d | None => service_name s end ∧
    (within cfg refuses (perms h) s → within cfg refuses (perms h) s').
Proof.
  intros Hs. unfold apply_declaration. rewrite Hs.
  set (lim := announce _ _ _). pose proof (declare_service_keeps (perms h) d lim s) as [H1 H2].
  pose proof (declare_service_within cfg url_ok refuses site_access (perms h) d lim s) as H3.
  destruct (declare_service _ _ _ _ _ _ _ _) as [s' ns]. simpl in *. by do 5 eexists.
Qed.

(** The services from [i] on, after their declarations. *)
Lemma apply_all_spec ds h i deferred protocol sems fresh :
  (length (services h) = i + length ds)%nat →
  ∃ h' deferred' sems' notices, apply_all h ds i deferred protocol sems fresh = Some (h', deferred', sems', notices) ∧
    perms h' = perms h ∧ last_ping_at h' = last_ping_at h ∧ instance_group h' = instance_group h ∧
    declared_client_id h' = declared_client_id h ∧ length (services h') = length (services h) ∧
    (∀ j, (j < i)%nat → services h' !! j = services h !! j) ∧
    (∀ j d s, ds !! j = Some d → services h !! (i + j)%nat = Some s → ∃ s', services h' !! (i + j)%nat = Some s' ∧ same_history s' s ∧
       service_name s' = match d_service d with Some _ => d_service d | None => service_name s end) ∧
    (Forall (within cfg refuses (perms h)) (services h) → Forall (within cfg refuses (perms h)) (services h')).
Proof.
  revert h i deferred sems fresh. induction ds as [|d ds IH]; intros h i deferred sems fresh Hl; simpl in *.
  { do 4 eexists. split; [done|]. split_and!; try done. }
  destruct (lookup_lt_is_Some_2 (services h) i) as [s Hs]; [lia|].
  destruct (apply_declaration_spec h d i deferred protocol sems fresh s Hs)
    as (h1 & def1 & sems1 & n1 & s1 & -> & Hserv & Hp & Ha & Hg & Hc & Hh & Hn & Hw).
  destruct (IH h1 (S i) def1 sems1 (fresh + 1)) as (h2 & def2 & sems2 & n2 & -> & Hp2 & Ha2 & Hg2 & Hc2 & Hl2 & Hb & Hj & Hw2).
  { rewrite Hserv, length_insert. lia. }
  rewrite Hserv, length_insert in Hl2.
  do 4 eexists. split; [done|]. split_and!; try congruence.
  - intros j Hlt. rewrite Hb by lia. rewrite Hserv. by rewrite list_lookup_insert_ne by lia.
  - intros [|j] d' s' Hd Hs'; simpl in Hd.
    + injection Hd as <-. rewrite Nat.add_0_r in *. rewrite Hs in Hs'. injection Hs' as <-. exists s1.
      rewrite Hb, Hserv, list_lookup_insert_eq by lia. done.
    + replace (i + S j)%nat with (S i + j)%nat in * by lia. eapply Hj; [done|]. rewrite Hserv, list_lookup_insert_ne by lia. done.
  - intros Hf. rewrite <- Hp. apply Hw2. rewrite Hserv, Hp. apply Forall_insert; [done|]. apply Hw. by eapply Forall_lookup_1.
Qed.

Lemma carry_length fresh old matched : length (carry fresh old matched) = length matched.
Proof. revert old. induction matched as [|m l IH]; intros old; simpl; [done|]. by rewrite IH. Qed.

(** Each place of the new list has the service it matched, or a fresh one. *)
Lemma carry_lookup fresh old matched i m :
  injective_slots matched → matched !! i = Some m →
  carry fresh old matched !! i = Some (default fresh (m ≫= fun k => mjoin (old !! k))).
Proof.
  revert old i. induction matched as [|m0 l IH]; intros old i Hinj Hi; [done|]. destruct i as [|i]; simpl in *.
  { by injection Hi as ->. }
  rewrite (IH _ i); [|by intros a b k Ha Hb; specialize (Hinj (S a) (S b) k Ha Hb); lia|done].
  destruct m as [k|]; [|done]. simpl. do 2 f_equal. destruct m0 as [k0|]; [|done].
  rewrite list_lookup_insert_ne; [done|]. intros ->. by specialize (Hinj 0%nat (S i) k eq_refl Hi).
Qed.

Lemma reconcile_spec ss names matched :
  match_declarations ss names = Ok matched →
  length (reconcile ss matched) = length names ∧
  (∀ i n, names !! i = Some n → ∃ s, reconcile ss matched !! i = Some s ∧
     (n = None → service_name s = None) ∧
     (∀ name, n = Some name → Some name ∈ service_name <$> ss → s ∈ ss ∧ service_name s = Some name)) ∧
  (∀ s, s ∈ reconcile ss matched → s ∈ ss ∨ ∃ pacer granted random, s = with_assigned (newly_declared pacer) granted random).
Proof.
  intros Hm. pose proof (match_declarations_spec ss names) as Hid. rewrite Hm in Hid. destruct Hid as (Hl & Hinj & Hown & Hnamed).
  unfold reconcile. destruct (match ss with s :: _ => (assigned_hostnames s, random_hostname s) | [] => ([], None) end) as [granted random].
  set (pacer := match ss with s :: _ => _ | [] => _ end). set (fresh := with_assigned _ _ _).
  assert (∀ i m, matched !! i = Some m → carry fresh (Some <$> ss) matched !! i = Some (default fresh (m ≫= fun k => ss !! k))) as Hlk.
  { intros i m Hi. rewrite (carry_lookup fresh _ matched i m Hinj Hi). destruct m as [k|]; [|done]. simpl.
    rewrite list_lookup_fmap. by destruct (ss !! k). }
  split; [by rewrite carry_length|]. split.
  - intros i n Hn. destruct (lookup_lt_is_Some_2 matched i) as [m Hi]; [rewrite Hl; by eapply lookup_lt_Some|].
    eexists. split; [by apply Hlk|]. split.
    + intros ->. destruct m as [k|]; [|done]. destruct (Hown i k Hi) as (s & Hs & Hor). simpl. rewrite Hs. simpl.
      destruct Hor as [Hor|?]; [|done]. congruence.
    + intros name -> Hin. destruct (Hnamed i name Hn Hin) as (k & s & Hk & Hs & Hname). rewrite Hi in Hk. injection Hk as ->.
      simpl. rewrite Hs. simpl. split; [by eapply list_elem_of_lookup_2|done].
  - intros s [i Hi]%list_elem_of_lookup. destruct (matched !! i) as [m|] eqn:Em.
    + rewrite (Hlk i m Em) in Hi. injection Hi as <-. destruct (m ≫= _) as [s|] eqn:Es; simpl; [left|right; by do 3 eexists].
      destruct m as [k|]; [|done]. by eapply list_elem_of_lookup_2.
    + apply lookup_lt_Some in Hi. rewrite carry_length in Hi. apply lookup_lt_is_Some_2 in Hi. rewrite Em in Hi. by destruct Hi.
Qed.

Lemma with_assigned_within p pacer granted random : within cfg refuses p (with_assigned (newly_declared pacer) granted random).
Proof. by constructor. Qed.

(** Settling changes the conflict of a service and nothing else. *)
Lemma settle_spec cs id h :
  aget id cs = Some h →
  ∃ vs, (settle site_access cs id).1 = aset id (with_services h (zip_with set_conflict (services h) vs)) cs ∧
    length vs = length (services h).
Proof.
  intros Hh. unfold settle. rewrite Hh. cbn [fst].
  exists (map (verdict site_access cs id) (services h)). split; [|by rewrite length_map].
  do 2 f_equal. rewrite map_map. generalize (verdict site_access cs id). intros v.
  induction (services h) as [|s l IH]; [done|]. simpl. rewrite settle_one_conflict. by f_equal.
Qed.

(** The connection of [id] in [cs'] stands to [h] as after a heartbeat of [p], and
    the rest of the table is as it was. *)
Record declared_as (id : str) (h : ClientHandle) (p : Ping) (cs cs' : client_map) : Prop := {
  da_handle : ∃ h', cs' = aset id h' cs ∧ perms h' = perms h ∧ instance_group h' = instance_group h ∧
    awaiting_declaration h' = false ∧ declared_client_id h' = Some (p_client_id p) ∧
    service_name <$> services h' = d_service <$> p_services p ∧
    (∀ i name, d_service <$> p_services p !! i = Some (Some name) → Some name ∈ service_name <$> services h →
       ∃ old s', old ∈ services h ∧ service_name old = Some name ∧ services h' !! i = Some s' ∧ same_history s' old) ∧
    (Forall (within cfg refuses (perms h)) (services h) → Forall (within cfg refuses (perms h)) (services h'));
}.

Lemma set_conflict_within p s c : within cfg refuses p s → within cfg refuses p (set_conflict s c).
Proof. by intros []. Qed.
Lemma set_told_within p s c : within cfg refuses p s → within cfg refuses p (set_told s c).
Proof. by intros []. Qed.

Lemma aset_aset {V} (k : str) (a b : V) l : aset k a (aset k b l) = aset k a l.
Proof. induction l as [|[k' v] l IH]; simpl; case_decide; simpl; rewrite ?decide_True, ?decide_False by done; congruence. Qed.

(** Replacing services by ones with the same names and histories. *)
Lemma declared_as_services id h p cs cs' h1 ss :
  declared_as id h p cs cs' → aget id cs' = Some h1 → length ss = length (services h1) →
  (∀ i s s', services h1 !! i = Some s → ss !! i = Some s' →
     service_name s' = service_name s ∧ same_history s' s ∧ (within cfg refuses (perms h) s → within cfg refuses (perms h) s')) →
  declared_as id h p cs (aset id (with_services h1 ss) cs').
Proof.
  intros [(h' & -> & Hp & Hg & Ha & Hc & Hn & Hold & Hw)] Hh1 Hl Hs. rewrite aget_aset_eq in Hh1. injection Hh1 as ->. split.
  - exists (with_services h1 ss). rewrite aset_aset. split; [done|]. split; [done|]. split; [done|]. split; [done|]. split; [done|].
    split; [|split].
    + rewrite <- Hn. simpl. apply list_eq. intros i. rewrite !list_lookup_fmap.
      destruct (ss !! i) as [s'|] eqn:E.
      * destruct (lookup_lt_is_Some_2 (services h1) i) as [s Es]; [rewrite <- Hl; by eapply lookup_lt_Some|].
        rewrite Es. simpl. f_equal. by eapply Hs.
      * apply lookup_ge_None in E. rewrite Hl in E. by rewrite (proj2 (lookup_ge_None (services h1) i)).
    + intros i name Hi Hin. destruct (Hold i name Hi Hin) as (old & s1 & ? & ? & Hs1 & Hsame). simpl.
      destruct (lookup_lt_is_Some_2 ss i) as [s' Es']; [rewrite Hl; by eapply lookup_lt_Some|].
      exists old, s'. split_and!; try done. destruct (Hs i s1 s' Hs1 Es') as (_ & Hh' & _).
      destruct Hh' as (? & ? & ? & ? & ?), Hsame as (? & ? & ? & ? & ?). unfold same_history. split_and!; congruence.
    + intros Hf. simpl. apply Forall_lookup. intros i s' Es'.
      destruct (lookup_lt_is_Some_2 (services h1) i) as [s Es]; [rewrite <- Hl; by eapply lookup_lt_Some|].
      eapply Hs; [done..|]. eapply Forall_lookup_1; [by apply Hw|done].
Qed.

(** The declarations of a heartbeat never index past the services, and leave what
    was declared. *)
Lemma ping_core id h now p cs matched sems fresh :
  aget id cs = Some h → match_declarations (services h) (d_service <$> p_services p) = Ok matched →
  ∃ h2 deferred sems' notices,
    apply_all (heartbeat h now p (reconcile (services h) matched)) (p_services p) 0 {| pin := None; scaling := None |}
      (p_protocol p) sems fresh = Some (h2, deferred, sems', notices) ∧
    perms h2 = perms h ∧ instance_group h2 = instance_group h ∧ declared_as id h p cs (aset id h2 cs).
Proof.
  intros Hh Hm. destruct (reconcile_spec _ _ _ Hm) as (Hl & Hat & Hfrom). rewrite length_fmap in Hl.
  destruct (apply_all_spec (p_services p) (heartbeat h now p (reconcile (services h) matched)) 0 {| pin := None; scaling := None |}
    (p_protocol p) sems fresh) as (h2 & def & sems' & n & E & Hp & Ha & Hg & Hc & Hl2 & _ & Hj & Hw); [done|].
  exists h2, def, sems', n. split; [done|]. split; [done|]. split; [done|].
  assert (∀ i d, p_services p !! i = Some d → ∃ s s', reconcile (services h) matched !! i = Some s ∧ services h2 !! i = Some s' ∧
    same_history s' s ∧ service_name s' = d_service d) as Hone.
  { intros i d Hd. destruct (Hat i (d_service d)) as (s & Hs & Hnone & _); [by rewrite list_lookup_fmap, Hd|].
    destruct (Hj i d s Hd Hs) as (s' & Hs' & Hhist & Hn). exists s, s'. split_and!; try done.
    rewrite Hn. destruct (d_service d) eqn:Ed; [done|by apply Hnone]. }
  split.
  - exists h2. split; [done|]. split; [done|]. split; [done|].
    split; [unfold awaiting_declaration; by rewrite Ha|]. split; [done|]. split; [|split].
    + apply list_eq. intros i. rewrite !list_lookup_fmap. destruct (p_services p !! i) as [d|] eqn:Ed.
      * destruct (Hone i d Ed) as (s & s' & _ & -> & _ & Hn). simpl. by rewrite Hn.
      * simpl. rewrite (proj2 (lookup_ge_None (services h2) i)); [done|]. rewrite Hl2. simpl. rewrite Hl.
        by apply lookup_ge_None in Ed.
    + intros i name Hi Hin. apply fmap_Some in Hi as (d & Hd & Hname).
      destruct (Hone i d Hd) as (s & s' & Hs & Hs' & Hhist & _).
      destruct (Hat i (Some name)) as (s0 & Hs0 & _ & Hold); [by rewrite list_lookup_fmap, Hd, Hname|].
      rewrite Hs in Hs0. injection Hs0 as <-. destruct (Hold name eq_refl Hin) as [Hel Hnm]. by exists s, s'.
    + intros Hf. apply Hw. simpl. apply Forall_forall. intros s [Hs|(pacer & gr & rn & ->)]%Hfrom; [|apply with_assigned_within].
      rewrite Forall_forall in Hf. by apply Hf.
Qed.

Lemma settle_declared_as id h p cs cs' : declared_as id h p cs cs' → declared_as id h p cs (settle site_access cs' id).1.
Proof.
  intros Hd. pose proof Hd as [(h' & E & _)].
  assert (aget id cs' = Some h') as Hh by (rewrite E; apply aget_aset_eq). destruct (settle_spec cs' id h' Hh) as (vs & -> & Hl).
  apply (declared_as_services id h p cs cs' h'); [done|done|by rewrite length_zip_with, Hl, Nat.min_id|].
  intros i s s' Hs Hs'. rewrite lookup_zip_with, Hs in Hs'. simpl in Hs'. destruct (vs !! i) as [v|]; [|done].
  injection Hs' as <-. split; [done|]. split; [done|apply set_conflict_within].
Qed.

Lemma tell_declared_as id h p def cs cs' :
  declared_as id h p cs cs' → declared_as id h p cs (tell_no_scaling scaling_enabled id def cs').1.
Proof.
  intros Hd. unfold tell_no_scaling. destruct (scaling def) as [[[[[[dc hs] pt] og] tk] i]|]; [|done].
  destruct scaling_enabled; [done|]. destruct (aget id cs') as [h1|] eqn:Eh; [|done].
  destruct (services h1 !! i) as [s|] eqn:Es; [|done]. simpl.
  apply (declared_as_services id h p cs cs' h1); [done|done|by rewrite length_insert|].
  intros j s1 s2 Hs1 Hs2. destruct (decide (i = j)) as [->|Hne].
  - rewrite list_lookup_insert_eq in Hs2 by (by eapply lookup_lt_Some). injection Hs2 as <-. rewrite Es in Hs1. injection Hs1 as <-.
    split; [done|]. split; [done|apply set_told_within].
  - rewrite list_lookup_insert_ne in Hs2 by done. rewrite Hs1 in Hs2. by injection Hs2 as <-.
Qed.

Definition siblings (id : str) (group : option str) (service : str) (cs : client_map) : nat :=
  length (filter (fun ic => is_sibling id group service ic = true) cs).

(** A connection is not its own sibling. *)
Lemma siblings_aset id g sv h cs : siblings id g sv (aset id h cs) = siblings id g sv cs.
Proof.
  unfold siblings. induction cs as [|[k v] cs IH]; simpl.
  - rewrite filter_cons_False; [done|]. unfold is_sibling. simpl. by rewrite str_eqb_refl.
  - case_decide as Hk.
    + subst. rewrite !filter_cons_False; [done|..]; unfold is_sibling; simpl; by rewrite str_eqb_refl.
    + rewrite !filter_cons. destruct (decide _); simpl; by rewrite IH.
Qed.

(** What one heartbeat of [id] does, on every path: the connection is gone, or the
    declaration is refused and nothing changes, or it is applied. *)
Lemma on_ping_spec now fresh ok id p sv :
  ∃ out sv', on_ping now fresh ok id p sv = Some (out, sv') ∧
    (sv' = sv ∧ (po_keep out = true → aget id (sv_clients sv) = None) ∨
     ∃ h, aget id (sv_clients sv) = Some h ∧ declared_as id h p (sv_clients sv) (sv_clients sv') ∧
       (∃ h2 cs1, cs1 = (settle site_access (aset id h2 (sv_clients sv)) id).1 ∧ awaiting_declaration h2 = false ∧
          (sv_clients sv' = cs1 ∨ ∃ def, sv_clients sv' = (tell_no_scaling scaling_enabled id def cs1).1)) ∧
       (po_keep out = true →
          Z.of_nat (siblings id (instance_group h) (service_of (p_client_id p)) (sv_clients sv)) mod 2 ^ 32
            < connection_ceiling (perms h) server_max_connections)).
Proof.
  unfold on_ping, Tunnel.on_ping. destruct (_ || _) eqn:E0; [do 2 eexists; split; [done|]; left; by split|].
  destruct (aget id (sv_clients sv)) as [h|] eqn:Eh; [|do 2 eexists; split; [done|]; left; by split].
  destruct (match_declarations _ _) as [matched|e] eqn:Em; [|do 2 eexists; split; [done|]; left; by split].
  destruct (ping_core id h now p (sv_clients sv) matched (sv_sems sv) fresh Eh Em) as (h2 & def & sems' & n & -> & Hp & Hg & Hd).
  assert (awaiting_declaration h2 = false) as Haw.
  { destruct (da_handle _ _ _ _ _ Hd) as (h' & Hh' & _ & _ & Ha & _). apply (f_equal (aget id)) in Hh'.
    rewrite !aget_aset_eq in Hh'. by injection Hh' as <-. }
  pose proof (settle_declared_as _ _ _ _ _ Hd) as Hd2.
  pose proof (tell_declared_as _ _ _ def _ _ Hd2) as Hd3.
  destruct (settle site_access (aset id h2 (sv_clients sv)) id) as [cs1 refusals] eqn:Es.
  assert (cs1 = (settle site_access (aset id h2 (sv_clients sv)) id).1) as Hcs by by rewrite Es.
  unfold service_connection_over_ceiling. fold (siblings id (instance_group h2) (service_of (p_client_id p)) (aset id h2 (sv_clients sv))).
  rewrite siblings_aset, Hp, Hg. destruct (_ <=? _) eqn:Eo.
  { do 2 eexists. split; [done|]. right. exists h. split_and!; [done|done|exists h2, cs1; split_and!; [done|done|by left]|done]. }
  destruct (check_pin _ ok (p_client_key p) (pin def) (sv_tokens sv)) as [admitted store].
  destruct admitted; simpl negb; cbn match.
  2: { do 2 eexists. split; [done|]. right. exists h. split_and!; [done|done|exists h2, cs1; split_and!; [done|done|by left]|done]. }
  destruct (tell_no_scaling scaling_enabled id def cs1) as [cs2 told] eqn:Et.
  do 2 eexists. split; [done|]. right. exists h. split_and!; [done|..].
  - simpl in Hd3. rewrite Et in Hd3. exact Hd3.
  - exists h2, cs1. split_and!; [done|done|]. right. exists def. by rewrite Et.
  - intros _. to_prop. lia.
Qed.

(** ** The table of a running server *)


Definition with_clients (sv : Server F) (cs : client_map) : Server F :=
  {| sv_clients := cs; sv_sems := sv_sems sv; sv_tokens := sv_tokens sv |}.








Lemma elem_of_aremove {V} (k k' : str) (v : V) l : (k', v) ∈ aremove k l → (k', v) ∈ l.
Proof.
  induction l as [|[k2 v2] l IH]; [done|]. simpl. case_decide; [by right|]. intros [->|Hin]%elem_of_cons; [by left|right; auto].
Qed.





















End Facts.

(** a heartbeat is always answered without a panic. When it is accepted the
    connection carries exactly the services it declared, in their order, each named
    one with the failures, ejection and counters of the service of that name the
    connection had; its permissions and process stay, and no other connection is
    touched. A refused list changes nothing. *)
Theorem heartbeat_declares {F : Type} cfg url_ok refuses site_access pinning scaling server_max now fresh ok id p (sv : Server F) :
  ∃ out sv', on_ping cfg url_ok refuses site_access pinning scaling server_max now fresh ok id p sv = Some (out, sv') ∧
    (sv_clients sv' ≠ sv_clients sv ∨ po_keep out = true → ∀ h, aget id (sv_clients sv) = Some h →
      ∃ h', sv_clients sv' = aset id h' (sv_clients sv) ∧ perms h' = perms h ∧ instance_group h' = instance_group h ∧
        service_name <$> services h' = d_service <$> p_services p ∧
        (∀ i name, d_service <$> p_services p !! i = Some (Some name) → Some name ∈ service_name <$> services h →
           ∃ old s', old ∈ services h ∧ service_name old = Some name ∧ services h' !! i = Some s' ∧ same_history s' old)).
Proof.
  destruct (on_ping_spec cfg url_ok refuses site_access pinning scaling server_max now fresh ok id p sv) as (out & sv' & E & Hcase).
  exists out, sv'. split; [done|]. intros Hor h Hh.
  destruct Hcase as [[-> Hgone]|(h0 & Hh0 & [(h' & ? & ? & ? & ? & ? & ? & ? & _)] & _)].
  - destruct Hor as [?|?%Hgone]; [done|congruence].
  - rewrite Hh in Hh0. injection Hh0 as <-. exists h'. by split_and!.
Qed.


(** ** Fences that move under live connections *)

Definition with_perms (h : ClientHandle) (p : ClientPerms) : ClientHandle :=
  {| tx := tx h; connected_at := connected_at h; client_ip := client_ip h; last_ping_at := last_ping_at h;
     perms := p; draining := draining h; declared_client_id := declared_client_id h; declared_name := declared_name h;
     drain_secs := drain_secs h; client_version := client_version h; client_protocol := client_protocol h;
     rss_bytes := rss_bytes h; rtt_ms := rtt_ms h; jitter_ms := jitter_ms h; reconnects := reconnects h;
     reported_instance_id := reported_instance_id h; instance_group := instance_group h; subscriptions := subscriptions h;
     services := services h |}.

Definition refenced (p : ClientPerms) (fence : list str) : ClientPerms :=
  {| master := master p; hostnames := hostnames p; paths := paths p; token_name := token_name p; token_id := token_id p;
     allow_public := allow_public p; allow_server_side := allow_server_side p; allow_bind := allow_bind p;
     allow_otel := allow_otel p; topics := topics p; org_id := org_id p; org_hostnames := fence; max_connections := max_connections p |}.

(** The names the two passes below look at. *)
Definition fenced_names (h : ClientHandle) : list str :=
  concat (map (fun s => assigned_hostnames s ++ declared_hostnames s) (services h)).

(** The table with the new fence, and the connections told to end. *)
Definition apply_org_hostnames (org : str) (fence : list str) (clients : client_map) : client_map * list str :=
  (map (fun ic => if bool_decide (org_id (perms ic.2) = Some org) then (ic.1, with_perms ic.2 (refenced (perms ic.2) fence)) else ic) clients,
   (filter (fun ic => bool_decide (org_id (perms ic.2) = Some org)
                      && existsb (fun h => negb (hostname_in_org_allowlist h fence)) (fenced_names ic.2) = true) clients).*1).

Definition apply_panel_hostnames (cfg : DeclConfig) (clients : client_map) : list str :=
  (filter (fun ic => existsb (is_panel_hostname cfg) (fenced_names ic.2) = true) clients).*1.

Definition clients_serving_outside (org host : str) (clients : client_map) : nat :=
  length (filter (fun ic => org_id (perms ic.2) ≠ Some org ∧ host ∈ conn_hostnames ic.2) clients).

(** Every connection of the organization left with an assigned or listed name
    outside the new fence is told to end. *)
Theorem fence_reaches_lists org fence cs id h s host :
  (id, h) ∈ cs → org_id (perms h) = Some org → s ∈ services h → host ∈ assigned_hostnames s ++ declared_hostnames s →
  hostname_in_org_allowlist host fence = false → id ∈ (apply_org_hostnames org fence cs).2.
Proof.
  intros Hin Ho Hs Hh Hf. simpl. apply list_elem_of_fmap. exists (id, h). split; [done|]. apply list_elem_of_filter. split; [|done].
  simpl. rewrite bool_decide_eq_true_2 by done. simpl. apply existsb_Exists. exists host. split; [|by rewrite Hf].
  apply list_elem_of_In, in_concat. eexists. rewrite <- !list_elem_of_In. split; [|exact Hh].
  by apply (list_elem_of_fmap_2 (fun s => assigned_hostnames s ++ declared_hostnames s)).
Qed.

(** ** The end of a connection *)

(** a connection that ends is out of the table and every other one stays, and the
    rotation cursors kept are exactly those of the routes a service of another
    connection still serves. *)
Theorem unregister_exact id cs rr cs' rr' empty :
  NoDup (keys cs) → unregister_connection id cs rr = (cs', rr', empty) →
  aget id cs' = None ∧ (∀ k, k ≠ id → aget k cs' = aget k cs) ∧ (empty = true ↔ cs' = []) ∧
  (is_Some (aget id cs) → ∀ key n, (key, n) ∈ rr' ↔ (key, n) ∈ rr ∧
     ∃ k h s, (k, h) ∈ cs ∧ k ≠ id ∧ s ∈ services h ∧ effective_path_bind s = key.2 ∧
       match key.1 with Some host => host ∈ effective_hostnames s | None => catch_all s = true end).
Proof.
  intros Hn [= <- <- <-]. split; [by apply aget_aremove_eq|]. split; [intros k Hk; by apply aget_aremove_ne|].
  split; [apply bool_decide_eq_true|]. intros [h0 Hh0] key n. rewrite Hh0, list_elem_of_filter. simpl.
  enough (group_lives (aremove id cs) key = true ↔ ∃ k h s, (k, h) ∈ cs ∧ k ≠ id ∧ s ∈ services h ∧ effective_path_bind s = key.2 ∧
       match key.1 with Some host => host ∈ effective_hostnames s | None => catch_all s = true end) by tauto.
  unfold group_lives. rewrite existsb_Exists. split.
  - intros ([k h] & Hin & Hs). apply existsb_Exists in Hs as (s & Hs & Hm). apply andb_true_iff in Hm as [Hm Hp].
    apply bool_decide_eq_true in Hp. exists k, h, s. split; [by eapply elem_of_aremove|]. split_and!; try done.
    + intros ->. apply (aget_elem id h) in Hin; [|by apply NoDup_aremove]. rewrite aget_aremove_eq in Hin; done.
    + destruct key.1 as [host|]; [|done]. unfold matches_host in Hm. by apply existsb_Exists in Hm as (x & Hx & ->%str_eqb_eq).
  - intros (k & h & s & Hin & Hk & Hs & Hp & Hm). exists (k, h). split.
    + apply aget_Some_elem. rewrite aget_aremove_ne by done. by apply aget_elem.
    + apply existsb_Exists. exists s. split; [done|]. rewrite (bool_decide_eq_true_2 _ Hp), andb_true_r.
      destruct key.1 as [host|]; [|done]. apply existsb_Exists. exists host. by rewrite str_eqb_refl.
Qed.

(** ** Samples *)

Module TunnelSamples.
Definition ping : Ping :=
  {| p_services := [two_hosts_decl]; p_client_id := bs "dev-web-c2"; p_name := Some (bs "box"); p_timestamp := 5; p_version := None;
     p_protocol := Some 10; p_client_key := None; p_drain_secs := None; p_rss_bytes := None; p_rtt_ms := None; p_jitter_ms := None;
     p_reconnects := None |}.
Definition no_tokens : Rows (ApiToken QArith_base.Q) := {| mem := []; table := [] |}.
Definition empty_server : Server QArith_base.Q := {| sv_clients := []; sv_sems := ∅; sv_tokens := no_tokens |}.
Definition joined : Server QArith_base.Q :=
  with_clients empty_server (aset (bs "x") (new_handle id 0 1 0 (bs "10.0.0.1") master_perms (Some (bs "dev")) None []) []).
#[local] Abbreviation beat p sv := (on_ping open_server (fun _ => true) (fun _ => None) (fun _ _ => false) false false 1 5 7 true (bs "x") p sv).
Definition served_server : Server QArith_base.Q := match beat ping joined with Some (_, sv) => sv | None => joined end.

Example service_of_fan : service_of (bs "dev-web-c2") = bs "dev-web" ∧ service_of (bs "dev-web") = bs "dev-web" ∧ service_of (bs "dev-cx") = bs "dev-cx".
Proof. vm_compute. done. Qed.




Lemma unregister_exact_witness :
  (unregister_connection (bs "x") (sv_clients served_server) [((Some (bs "a.test"), None), 3)]).1.2 = [] ∧
  aget (bs "x") (unregister_connection (bs "x") (sv_clients served_server) []).1.1 = None.
Proof.
  split; [vm_compute; reflexivity|].
  refine (proj1 (unregister_exact (bs "x") (sv_clients served_server) [] _ _ _ _ eq_refl)). apply (bool_decide_unpack _). vm_compute. exact I.
Defined.

(** A connection that declared its hostname alone, not in a list, keeps it when the
    fence of its organization is closed, and when the name becomes a panel. *)
Definition acme : ClientPerms :=
  {| master := false; hostnames := []; paths := []; token_name := Some (bs "t"); token_id := Some (bs "1"); allow_public := false;
     allow_server_side := false; allow_bind := false; allow_otel := false; topics := []; org_id := Some (bs "acme");
     org_hostnames := [bs "shop.test"]; max_connections := None |}.
Definition single_decl : ServiceDecl :=
  {| d_service := Some (bs "web"); d_service_custom_name := None; d_path_bind := None; d_hostname_bind := Some (bs "shop.test");
     d_hostname_binds := []; d_http := true; d_max_concurrent := None; d_tcp := false; d_backend_healthy := true; d_backend_probed := true;
     d_priority := 0; d_bandwidth_bps := None; d_server_side_target := None; d_public := false; d_visitor_auth := None;
     d_visitor_auth_methods := None; d_allowed_ips := []; d_tunnels := []; d_cache := false; d_resilience := false; d_no_capture := false;
     d_max_request_body := None; d_response_timeout := None; d_webhook_inbox := false; d_denied := None; d_scaling := None;
     d_connections := None; d_connections_min := None; d_connections_max := None; d_config_notes := []; d_metrics_labels := [] |}.
Definition shop_ping : Ping :=
  {| p_services := [single_decl]; p_client_id := bs "s-web"; p_name := None; p_timestamp := 5; p_version := None; p_protocol := Some 10;
     p_client_key := None; p_drain_secs := None; p_rss_bytes := None; p_rtt_ms := None; p_jitter_ms := None; p_reconnects := None |}.
Definition shop : client_map :=
  match beat shop_ping (with_clients empty_server [(bs "x", new_handle id 0 1 0 (bs "10.0.0.1") acme None None [])]) with
  | Some (_, sv) => sv_clients sv | None => [] end.
Definition shop_again : client_map :=
  match beat shop_ping (with_clients empty_server (apply_org_hostnames (bs "acme") [bs "other.test"] shop).1) with
  | Some (_, sv) => sv_clients sv | None => [] end.
Example single_hostname_escapes :
  conn_hostnames <$> shop.*2 = [[bs "shop.test"]] ∧
  hostname_in_org_allowlist (bs "shop.test") [bs "other.test"] = false ∧
  (apply_org_hostnames (bs "acme") [bs "other.test"] shop).2 = [] ∧
  conn_hostnames <$> shop_again.*2 = [[bs "shop.test"]] ∧
  apply_panel_hostnames {| panel_hostnames := [bs "shop.test"]; cache_enabled := false; cache_max_stale := 0; server_gates := false;
                           default_access := Allow |} shop = [].
Proof. vm_compute. done. Qed.

Definition door_cfg : DoorConfig QArith_base.Q :=
  {| dc_trust_proxy := false; dc_real_ip_header := None; dc_trusted_proxies := []; dc_ip_limit_max := fnum 10; dc_ip_limit_refill := fnum 1;
     dc_master_token := bs "secret"; dc_max_connections := 16; dc_alternates := parse_alternates (bs "wss://b.test, http://c.test");
     dc_release := bs "0.13.4" |}.
Definition door : Door QArith_base.Q :=
  {| dr_buckets := []; dr_tokens := no_tokens; dr_fences := []; dr_seen := []; dr_orgs := []; dr_client_orgs := [];
     dr_slots := {| active_tunnel_count := 0; max_tunnels := 1; upgrades := ∅ |} |}.
Definition visit (release : string) : headers := [(bs "authorization", bs "Bearer secret"); (RELEASE_HEADER, bs release)].

Lemma upgrade_admission_witness :
  match ws_handler id door_cfg 0 (visit "0.13.0") (V4 1) 7 door with
  | (Ok up, d', _) => active_tunnel_count (dr_slots d') = 1 ∧ header_get MAX_CONNECTIONS_HEADER (up_headers up) = Some (bs "16")
  | _ => False
  end ∧ (ws_handler id door_cfg 0 (visit "0.12.0") (V4 1) 7 door).1.1 = Err 426.
Proof.
  split; [|vm_compute; reflexivity].
  destruct (ws_handler id door_cfg 0 (visit "0.13.0") (V4 1) 7 door) as [[res d'] ev] eqn:E.
  pose proof (upgrade_admission id door_cfg 0 (visit "0.13.0") (V4 1) 7 door res d' ev E) as H.
  destruct res as [up|st]; [|vm_compute in E; discriminate E]. destruct H as (_ & _ & _ & _ & _ & Hc & Hh & _).
  split; [exact Hc|]. rewrite Hh. assert (up_perms up = master_perms) as -> by (vm_compute in E; by injection E as <- _ _). reflexivity.
Defined.
End TunnelSamples.
