(* ===== verification/Exchange.v ===== *)
(** The pieces of one visitor request's trip: [aperio-server/src/proxy.rs], the
    header mapping and the body rules of [proxy/forward.rs], the dispatched
    message, the upload pump and the answer of [proxy/forward/attempt.rs], the
    headers a server-side target gets ([proxy/forward/server_side.rs]) and the
    cached answers of [proxy/cache.rs]. [Dispatch] loops over them and [Forward]
    puts the gates before them.

    The base64 coder, the check of a header name and the formatting of an instant
    are parameters. A request's header names are in lower case, as [HeaderMap]
    keeps them. *)

From S2P Require Import Prelude Utf8 Binds Frames IpNet ClientIp VisitorAuth Clients Select Route Canary Cache RateLimit StreamFlow Declare SiteRules Sites Limits Grants Users Sessions Share Gate.

Import SiteRules.Headers.

Inductive FailoverMode : Type := Fail | Retry | Wait | RetryWait.

#[export] Instance FailoverMode_eq_dec : EqDecision FailoverMode.
Proof. solve_decision. Defined.

(** The settings the request path reads. *)
Record ProxyConfig : Type := {
  failover_mode : FailoverMode;
  failover_all_methods : bool;
  failover_max_jumps : Z;
  failover_window : Z;
  retry_on_5xx : bool;
  retry_statuses : list Z;
  identity_headers : bool;
  visitor_identity_headers : bool;
  preview_noindex : bool;
  random_subdomain_suffix : option str;
  cfg_secure_cookies : bool;
  request_id_enabled : bool;
  request_id_header : str;
  request_id_trust_inbound : bool;
  max_body_size : Z;
  cache_enabled : bool;
  cache_max_stale : Z;
  cache_max_bytes : Z;
  cache_negative_ttl : Z;
  gateway_timeout : Z;
  gateway_response_timeout : Z;
  outlier_ejection : bool;
  outlier_window : Z;
  outlier_max_failures : Z;
  outlier_eject : Z;
  inspector : bool;
  max_streams_per_ip : Z;
  scaling_enabled : bool;
}.

(** ** Answers *)

Inductive VisitorBody : Type :=
| Whole (bytes : str)
| Trailed (bytes : str) (trailers : headers)
| Streamed (frames : list (result BodyFrame str)).

Record VisitorResponse : Type := { vr_status : Z; vr_headers : headers; vr_body : VisitorBody }.

Definition text_response (status : Z) (body : str) : VisitorResponse :=
  {| vr_status := status; vr_headers := []; vr_body := Whole body |}.

(** The answers of [Sites] and [Limits], whole. *)
Definition whole_response (r : Sites.Response) : VisitorResponse :=
  {| vr_status := rsp_status r; vr_headers := rsp_headers r; vr_body := Whole (rsp_body r) |}.

(** What a client, or a target asked from here, answered. *)
Record TunnelResponse : Type := {
  tr_status : Z;
  tr_headers : headers;
  tr_body : option str;
  tr_body_raw : option str;
  tr_trailers : option headers;
  tr_stream : option (list (result BodyFrame str));
}.

(** ** Small rules *)

Definition retry_covers (on : bool) (statuses : list Z) (status : Z) : bool :=
  if negb on then false
  else match statuses with
       | [] => (500 <=? status) && (status <? 600)
       | _ => existsb (Z.eqb status) statuses
       end.

Definition worth_waiting_for_route (last_disconnect : option Z) (now recent : Z) (scaling declaration_pending : bool) : bool :=
  if scaling || declaration_pending then true
  else match last_disconnect with Some t => sat_sub now t <=? recent | None => false end.

Definition NOT_PUBLISHED : str := bs "504 Gateway Timeout - Nothing is published at this address".

Definition html_type : headers := [(bs "content-type", bs "text/html; charset=utf-8")].

Definition gateway_timeout_response {F Regex Tz} (sites : list (Site F Regex Tz)) (host : option str) (fallback : str) :
    VisitorResponse :=
  match page_504 sites host with
  | Some html => {| vr_status := 504; vr_headers := html_type; vr_body := Whole html |}
  | None => text_response 504 fallback
  end.

Definition effective_body_limit (global : Z) (declared : option Z) : Z :=
  match declared with Some limit => Z.min limit global | None => global end.

Definition id_char (a : ascii) : bool :=
  is_alnum a || bool_decide (a ∈ ["-"; "_"; "."; ":"; "/"; "+"]%char).

Definition is_safe_request_id (v : str) : bool :=
  negb (str_eqb v []) && (len v <=? 128) && forallb id_char v.

(** [str::replace] of a pattern that is not empty; [skip] bytes of a match are left to drop. *)
Fixpoint replace_from (p r : str) (skip : nat) (s : str) : str :=
  match s with
  | [] => []
  | a :: s' =>
      match skip with
      | S k => replace_from p r k s'
      | O => if starts_with p s then r ++ replace_from p r (pred (length p)) s' else a :: replace_from p r 0 s'
      end
  end.
Definition replace (p r s : str) : str := replace_from p r 0 s.

(** [HeaderMap::insert] of a name the response does not have yet. *)
Definition maintenance_response {F Regex Tz} (rfc3339 : Z → str) (sites : list (Site F Regex Tz)) (now : Z)
    (host : option str) (flag : MaintenanceFlag) : VisitorResponse :=
  let reason := default [] (mf_reason flag) in
  let until := default [] (rfc3339 <$> mf_until flag) in
  let retry := (bs "retry-after", show_uint (default 300 (retry_after flag now))) in
  match page_503 sites host with
  | Some html =>
      {| vr_status := 503; vr_headers := html_type ++ [retry];
         vr_body := Whole (replace (bs "{until}") until (replace (bs "{reason}") reason html)) |}
  | None =>
      {| vr_status := 503; vr_headers := [retry];
         vr_body := Whole (bs "503 Service Unavailable - This site is temporarily down for maintenance"
                           ++ (if str_eqb reason [] then [] else newline ++ newline ++ reason)
                           ++ (if str_eqb until [] then [] else newline ++ newline ++ bs "Expected back at " ++ until)
                           ++ newline) |}
  end.

(** A failure is charged to the service by its name, or to the first of a
    connection that carries one service. *)
Fixpoint fail_first (p : ServiceState → bool) (f : ServiceState → ServiceState) (l : list ServiceState) : list ServiceState :=
  match l with
  | [] => []
  | s :: l' => if p s then f s :: l' else s :: fail_first p f l'
  end.

Definition record_outlier_failure (cfg : ProxyConfig) (now : Z) (client_id : str) (service : option str) (clients : client_map) :
    client_map :=
  if negb (outlier_ejection cfg) then clients
  else match aget client_id clients with
       | None => clients
       | Some c =>
           let charged s := (record_failure s now (outlier_window cfg) (outlier_max_failures cfg) (outlier_eject cfg)).1 in
           let ours s := match service with Some n => bool_decide (service_name s = Some n) | None => true end in
           aset client_id (with_services c (fail_first ours charged (services c))) clients
       end.

(** ** What of a request travels on *)

(** One header of the visitor's, as the loop of [proxy_http_request] maps it. *)
Definition map_header (carried : list str) (consumed inject_trace : bool) (managed_id : option str) (kv : str * str) :
    option (str * str) :=
  match to_str kv.2 with
  | None => None
  | Some v =>
      if header_is_aperios kv.1 carried consumed then None
      else if inject_trace && bool_decide (lower kv.1 ∈ [bs "traceparent"; bs "tracestate"]) then None
      else if match managed_id with Some h => eq_ignore_case kv.1 h | None => false end then None
      else if str_eqb kv.1 (bs "cookie") then
        let filtered := cookies_without_aperios v in
        if str_eqb filtered [] then None else Some (kv.1, filtered)
      else Some (kv.1, v)
  end.

Definition managed_id (cfg : ProxyConfig) : option str := if request_id_enabled cfg then Some (request_id_header cfg) else None.

Definition serialized_headers {F Regex Tz} (cfg : ProxyConfig) (sites : list (Site F Regex Tz)) (host : option str) (path : str)
    (carried : list str) (consumed : bool) (trace hs : headers) : headers :=
  request_headers sites host path
    (omap (map_header carried consumed (negb (bool_decide (length trace = 0%nat))) (managed_id cfg)) hs ++ trace).

Definition adopted_request_id (cfg : ProxyConfig) (hs : headers) : option str :=
  if request_id_enabled cfg && request_id_trust_inbound cfg then
    match header_str (request_id_header cfg) hs with
    | Some v => if is_safe_request_id (trim v) then Some (trim v) else None
    | None => None
    end
  else None.

Definition correlation_id (cfg : ProxyConfig) (adopted : option str) (request_id : str) : option str :=
  if request_id_enabled cfg then Some (default request_id adopted) else None.

Definition how_word (h : How) : str :=
  match h with
  | BySession => bs "session" | ByBearer => bs "bearer" | ByJwt => bs "jwt" | ByForward => bs "forward"
  | ByShare => bs "share" | BySso => bs "sso"
  end.

Definition client_headers (cfg : ProxyConfig) (sel : SelectedClient) : headers :=
  if identity_headers cfg then
    [(bs "x-aperio-client-id", sel_id sel)]
    ++ match sel_org_id sel with Some org => [(bs "x-aperio-org", org)] | None => [] end
    ++ [(bs "x-aperio-token", default (bs "master") (sel_token_name sel))]
  else [].

Definition visitor_headers (cfg : ProxyConfig) (visitor : option VisitorIdentity) : headers :=
  match visitor with
  | Some v =>
      (if visitor_identity_headers cfg then
         [(bs "x-aperio-visitor-how", how_word (vi_how v))]
         ++ match vi_who v with Some who => [(bs "x-aperio-visitor-id", who)] | None => [] end
       else [])
      ++ vi_extra_headers v
  | None => []
  end.

Definition dispatch_headers (cfg : ProxyConfig) (sel : SelectedClient) (visitor : option VisitorIdentity) (correlation : option str)
    (serialized : headers) : headers :=
  serialized
  ++ match correlation with Some id => [(request_id_header cfg, id)] | None => [] end
  ++ client_headers cfg sel ++ visitor_headers cfg visitor.

(** ** The request body *)

Definition REQUEST_STREAM_THRESHOLD : Z := 256 * 1024.
Definition CAPTURE_BODY_LIMIT : Z := 64 * 1024.

Definition content_length (hs : headers) : option Z :=
  match header_str (bs "content-length") hs with Some v => parse_uint u64_max v | None => None end.

Definition chunked_upload (hs : headers) : bool :=
  match header_str (bs "transfer-encoding") hs with Some v => contains (bs "chunked") (lower v) | None => false end.

Definition stream_request (hs : headers) : bool :=
  chunked_upload hs || match content_length hs with Some l => REQUEST_STREAM_THRESHOLD <? l | None => false end.

(** [axum::body::to_bytes(body, limit)]: the whole body, an error past the limit or on a failed read. *)
Fixpoint to_bytes (limit : Z) (chunks : list (result str str)) (acc : str) : option str :=
  match chunks with
  | [] => Some acc
  | Err _ :: _ => None
  | Ok bytes :: rest => if limit <? len (acc ++ bytes) then None else to_bytes limit rest (acc ++ bytes)
  end.

(** The pump of a streamed body. [sends] says which frames the tunnel took. The
    answer: the frames it took in order, the bytes counted, and whether the body
    was relayed whole, which is when [RequestEnd] follows; otherwise the pending
    request is dropped. *)
Fixpoint pump (id : str) (max_body total : Z) (chunks : list (result str str)) (sends : list bool) : list str * Z * bool :=
  match chunks with
  | [] => ([], 0, true)
  | Err _ :: _ => ([], 0, false)
  | Ok bytes :: rest =>
      let total := total + len bytes in
      if max_body <? total then ([], 0, false)
      else match encode_binary_frame FRAME_REQUEST_CHUNK id bytes, sends with
           | Some frame, true :: sends =>
               let '(frames, counted, complete) := pump id max_body total rest sends in
               (frame :: frames, len bytes + counted, complete)
           | _, _ => ([], len bytes, false)
           end
  end.

(** The same upload to a target asked from here: what its client is fed. *)
Fixpoint counted_stream (limit seen : Z) (chunks : list (result str str)) : list (result str str) :=
  match chunks with
  | [] => []
  | Ok bytes :: rest =>
      let seen := seen + len bytes in
      (if limit <? seen then Err (bs "request body exceeded the configured limit") else Ok bytes)
      :: counted_stream limit seen rest
  | Err e :: rest => Err e :: counted_stream limit seen rest
  end.

Definition HOP_BY_HOP_CORE : list str :=
  [bs "connection"; bs "keep-alive"; bs "upgrade"; bs "proxy-connection"; bs "accept-encoding"; bs "transfer-encoding"].
Definition WEBSOCKET_PREFIX : str := bs "sec-websocket-".

Definition is_hop_by_hop (name : str) : bool :=
  let n := lower name in
  bool_decide (n ∈ HOP_BY_HOP_CORE) || str_eqb n (bs "trailer") || str_eqb n (bs "host") || starts_with WEBSOCKET_PREFIX n.

(** ** The answer *)

(** [Duration::from_secs] of the first that is set. *)
Definition response_timeout_of {F Regex Tz} (cfg : ProxyConfig) (sites : list (Site F Regex Tz)) (host : option str) (path : str)
    (sel : SelectedClient) : Z :=
  match timeout_for sites host path with
  | Some s => s * second
  | None => match sel_response_timeout sel with
            | Some s => if 0 <? s then s * second else gateway_response_timeout cfg
            | None => gateway_response_timeout cfg
            end
  end.

Definition is_preview (cfg : ProxyConfig) (host : option str) : bool :=
  preview_noindex cfg
  && match random_subdomain_suffix cfg, host with
     | Some pattern, Some h => host_matches_random_pattern h pattern
     | _, _ => false
     end.

Definition edited_headers {F Regex Tz} (cfg : ProxyConfig) (sites : list (Site F Regex Tz)) (host : option str) (path : str)
    (hs : headers) : headers :=
  let hs := response_headers sites host path hs in
  if is_preview cfg host
  then filter (fun kv => eq_ignore_case kv.1 (bs "x-robots-tag") = false) hs ++ [(bs "x-robots-tag", bs "noindex, nofollow")]
  else hs.

(** [StatusCode::from_u16(status)], 500 for what is not one. *)
Definition status_code (status : Z) : Z := if (100 <=? status) && (status <=? 999) then status else 500.
Definition is_server_error (status : Z) : bool := (500 <=? status) && (status <? 600).

Definition forward_asked (visitor : option VisitorIdentity) : bool :=
  match visitor with Some v => is_some (vi_forward_client_id v) | None => false end.

(** A header pair a response can carry; [HeaderName] keeps lower case. *)
Definition response_header (name_ok : str → bool) (kv : str * str) : headers :=
  if name_ok kv.1 && forallb header_char_ok kv.2 then [(lower kv.1, kv.2)] else [].

Definition trailer_header_map (name_ok : str → bool) (trailers : headers) : headers := trailers ≫= response_header name_ok.

Definition frame_from_body_item (name_ok : str → bool) (item : result BodyFrame str) : result BodyFrame str :=
  match item with
  | Ok (BData bytes) => Ok (BData bytes)
  | Ok (BTrailers trailers) => Ok (BTrailers (trailer_header_map name_ok trailers))
  | Err e => Err e
  end.

Definition affinity_cookie (cfg : ProxyConfig) (sel : SelectedClient) : str :=
  bs "aperio_affinity=" ++ default (sel_id sel) (sel_instance_id sel)
  ++ bs "; Path=/; HttpOnly; SameSite=Lax; Max-Age=86400" ++ (if cfg_secure_cookies cfg then bs "; Secure" else []).

(** What the backend's headers become on the way to the visitor. *)
Definition passes_back (cfg : ProxyConfig) (correlation : option str) (kv : str * str) : bool :=
  let k := lower kv.1 in
  negb (bool_decide (k ∈ [bs "connection"; bs "keep-alive"; bs "transfer-encoding"]))
  && negb (is_some correlation && str_eqb k (request_id_header cfg)).

(** [None]: the builder refused the affinity cookie, which carries what the client said its instance is. *)
Definition built_headers (name_ok : str → bool) (cfg : ProxyConfig) (strategy : LbStrategy) (sel : SelectedClient)
    (correlation : option str) (hs : headers) : option headers :=
  let echoed := match correlation with Some id => response_header name_ok (request_id_header cfg, id) | None => [] end in
  let kept := filter (fun kv => passes_back cfg correlation kv = true) hs ≫= response_header name_ok in
  if decide (strategy = Sticky) then
    if forallb header_char_ok (affinity_cookie cfg sel)
    then Some (echoed ++ [(bs "set-cookie", affinity_cookie cfg sel)] ++ kept) else None
  else Some (echoed ++ kept).

Definition response_bytes (b64_decode : str → option str) (r : TunnelResponse) : str :=
  match tr_body_raw r with
  | Some raw => raw
  | None => match tr_body r with Some encoded => default [] (b64_decode encoded) | None => [] end
  end.

(** ** The cache on the way *)

(** How long an answer is kept, [None] for not at all. *)
Definition store_ttl (cfg : ProxyConfig) (r : TunnelResponse) : option Z :=
  if status_code (tr_status r) =? 200 then response_cache_ttl (tr_headers r)
  else if ((tr_status r =? 404) || (tr_status r =? 410)) && negb (response_uncacheable (tr_headers r)) then
    if cache_negative_ttl cfg =? 0 then None else Some (cache_negative_ttl cfg)
  else None.

Definition metadata_header (k : str) : bool :=
  bool_decide (k ∈ [bs "etag"; bs "cache-control"; bs "expires"; bs "last-modified"; bs "vary"]).

Definition hit_not_modified (hit : CacheHit) (hs : headers) : bool :=
  match header_str (bs "if-none-match") hs, snd <$> find (fun kv => eq_ignore_case kv.1 (bs "etag")) (h_headers hit) with
  | Some inm, Some tag => if_none_match_matches inm tag
  | _, _ => false
  end.

Definition hit_range (hit : CacheHit) (hs : headers) : RangeOutcome :=
  let etag := snd <$> find (fun kv => eq_ignore_case kv.1 (bs "etag")) (h_headers hit) in
  if hit_not_modified hit hs || negb (h_status hit =? 200) then Full
  else
    let if_range_ok := match header_str (bs "if-range") hs with
                       | Some validator => bool_decide (etag = Some (trim validator))
                       | None => true
                       end in
    match header_str (bs "range") hs with
    | Some range => if if_range_ok then evaluate_range range (len (h_body hit)) else Full
    | None => Full
    end.

(** The headers an answer from the cache gets of its own. *)
Definition hit_own_headers (hit : CacheHit) (not_modified : bool) (outcome : RangeOutcome) : headers :=
  [(bs "x-aperio-cache", bs "hit"); (bs "age", show_uint (h_age_secs hit))]
  ++ (if h_stale hit then [(bs "x-aperio-stale", bs "true")] else [])
  ++ (if (h_status hit =? 200) && negb not_modified then [(bs "accept-ranges", bs "bytes")] else [])
  ++ match outcome with
     | Partial a b => [(bs "content-range", bs "bytes " ++ show_uint a ++ bs "-" ++ show_uint b ++ bs "/" ++ show_uint (len (h_body hit)))]
     | Unsatisfiable => [(bs "content-range", bs "bytes */" ++ show_uint (len (h_body hit)))]
     | Full => []
     end.

(** The status sent, the bytes of the body, the response. *)
Definition cache_hit_response (name_ok : str → bool) (hit : CacheHit) (hs : headers) : Z * Z * VisitorResponse :=
  let not_modified := hit_not_modified hit hs in
  let outcome := hit_range hit hs in
  let status := if not_modified then 304
                else match outcome with Partial _ _ => 206 | Unsatisfiable => 416 | Full => h_status hit end in
  let kept := filter (fun kv => (negb not_modified || metadata_header (lower kv.1))
                                && negb (str_eqb (lower kv.1) (bs "content-length")) = true) (h_headers hit) in
  let body := if not_modified then []
              else match outcome with
                   | Partial a b => take (Z.to_nat (b + 1 - a)) (drop (Z.to_nat a) (h_body hit))
                   | Unsatisfiable => []
                   | Full => h_body hit
                   end in
  (status, len body,
   {| vr_status := if (100 <=? status) && (status <=? 999) then status else 200;
      vr_headers := hit_own_headers hit not_modified outcome ++ (kept ≫= response_header name_ok); vr_body := Whole body |}).

(** The lookup of [stale_cache_response]; the cache panics past the end of the clock, [None]. *)
Definition stale_cache_response (name_ok : str → bool) (cfg : ProxyConfig) (now : Z) (method uri : str) (hs : headers)
    (host : option str) (c : ResponseCache) : option (option VisitorResponse) * ResponseCache :=
  if negb (cache_enabled cfg) || negb (request_cacheable method hs) then (Some None, c)
  else
    let '(found, c) := get_for_outage c now (cache_key host uri) (cache_max_stale cfg * second) in
    (match found with
     | Some (Some hit) => Some (Some (cache_hit_response name_ok hit hs).2)
     | Some None => Some None
     | None => None
     end, c).

(** The headers of a background refresh. *)
Definition reval_headers (hs : headers) : headers :=
  omap (fun kv => if bool_decide (lower kv.1 ∈ [bs "if-none-match"; bs "if-modified-since"; bs "connection"; bs "keep-alive";
                                                bs "upgrade"; bs "accept-encoding"])
                  then None else (fun v => (kv.1, v)) <$> to_str kv.2) hs.

(** What a refresh's answer does to the cache, at [now]. *)
Definition revalidated (sha256 : str → str) (b64_decode : str → option str) (cfg : ProxyConfig) (now : Z) (key : str)
    (resilient : bool) (r : TunnelResponse) (c : ResponseCache) : option bool * ResponseCache :=
  match tr_stream r with
  | Some _ => (Some false, c)
  | None =>
      if tr_status r =? 200 then
        match response_cache_ttl (tr_headers r) with
        | Some ttl =>
            Cache.insert sha256 c now key (tr_status r) (tr_headers r) (response_bytes b64_decode r) ttl (cache_max_bytes cfg)
              resilient (response_swr_window (tr_headers r)) (response_surrogate_keys (tr_headers r))
        | None => (Some false, c)
        end
      else (Some false, c)
  end.

(** ** What a backend sees *)

(** The edits of the sites a request matches. *)
Definition edits_for {F Regex Tz} (sites : list (Site F Regex Tz)) (host : option str) (path : str)
    (dir : HeaderTransforms → HeaderTransform) : list HeaderTransform := dir <$> omap s_headers (matching sites host path).

Definition silent_on (name : str) (ts : list HeaderTransform) : Prop :=
  Forall (fun t => transform_ok t ∧ mentions name t = false) ts.

Lemma layered_fold {F Regex Tz} (sites : list (Site F Regex Tz)) host path hs dir :
  layered sites host path hs dir = fold_left (fun hs t => apply_transform t hs) (rev (edits_for sites host path dir)) hs.
Proof.
  unfold layered, edits_for. destruct sites as [|s l]; [done|]. rewrite <- map_rev.
  generalize (rev (omap s_headers (matching (s :: l) host path))). intros ts.
  revert hs. induction ts as [|t ts IH]; intros hs; [done|]. apply IH.
Qed.

Lemma elem_of_apply_transform t hs kv : kv ∈ apply_transform t hs → kv ∈ hs ∨ kv ∈ t_add t.
Proof.
  unfold apply_transform. destruct (transform_is_empty t); [by left|]. rewrite elem_of_app, list_elem_of_filter. tauto.
Qed.

Lemma elem_of_layers ts hs kv :
  kv ∈ fold_left (fun hs t => apply_transform t hs) ts hs → kv ∈ hs ∨ ∃ t, t ∈ ts ∧ kv ∈ t_add t.
Proof.
  revert hs. induction ts as [|t ts IH]; intros hs; simpl; [by left|]. intros [H|(u & Hu & H)]%IH.
  - apply elem_of_apply_transform in H as [H|H]; [by left|]. right. exists t. split; [left|done].
  - right. exists u. split; [by right|done].
Qed.

Lemma silent_layers name ts hs :
  silent_on name ts → values name (fold_left (fun hs t => apply_transform t hs) (rev ts) hs) = values name hs.
Proof.
  intros Hs. rewrite layers_last_word; [|eapply Forall_impl; [exact Hs|]; naive_solver].
  destruct (find (mentions name) ts) as [t|] eqn:E; [|done]. apply find_some in E as [Hin Hm].
  apply list_elem_of_In in Hin. unfold silent_on in Hs. rewrite Forall_forall in Hs. apply Hs in Hin as [_ Hin]. congruence.
Qed.

(** What the mapping leaves of one of the visitor's headers. *)
Lemma map_header_Some carried consumed inject mid kv kv' :
  map_header carried consumed inject mid kv = Some kv' →
  kv'.1 = kv.1 ∧ header_is_aperios kv.1 carried consumed = false
  ∧ (∀ h, mid = Some h → eq_ignore_case kv.1 h = false)
  ∧ kv'.2 = (if str_eqb kv.1 (bs "cookie") then cookies_without_aperios kv.2 else kv.2).
Proof.
  unfold map_header, to_str. destruct (forallb header_char_ok kv.2); [|done].
  destruct (header_is_aperios kv.1 carried consumed) eqn:Ea; [done|].
  destruct (inject && _); [done|]. destruct (match mid with Some h => _ | None => _ end) eqn:Em; [done|].
  assert (∀ h, mid = Some h → eq_ignore_case kv.1 h = false) by (intros h ->; done).
  destruct (str_eqb kv.1 (bs "cookie")) eqn:Ec; [|by intros [= <-]].
  destruct (str_eqb (cookies_without_aperios kv.2) []); [done|]. by intros [= <-].
Qed.

(** The headers Aperio writes itself onto a dispatched request. *)
Definition own_headers (cfg : ProxyConfig) (sel : SelectedClient) (visitor : option VisitorIdentity) (correlation : option str) :
    headers :=
  match correlation with Some id => [(request_id_header cfg, id)] | None => [] end
  ++ client_headers cfg sel ++ visitor_headers cfg visitor.

(** what reaches a backend is the visitor's own, cleaned, or the server's.
    Every header of a dispatched request is one the visitor sent under that name,
    outside the x-aperio- namespace, not the consumed Authorization, not a name an
    endpoint delivers identity under and not the managed request id, with Aperio's
    cookies taken out and otherwise as sent; or it is trace context, a site's
    edit, or one of the headers the server writes. *)
Theorem backend_headers_clean {F Regex Tz} cfg (sites : list (Site F Regex Tz)) host path carried consumed trace hs sel visitor
    correlation k v :
  (k, v) ∈ dispatch_headers cfg sel visitor correlation
             (serialized_headers cfg sites host path carried consumed trace hs) →
  (∃ v0, (k, v0) ∈ hs ∧ header_is_aperios k carried consumed = false
     ∧ (∀ h, managed_id cfg = Some h → eq_ignore_case k h = false)
     ∧ v = (if str_eqb k (bs "cookie") then cookies_without_aperios v0 else v0))
  ∨ (k, v) ∈ trace
  ∨ (∃ t, t ∈ edits_for sites host path ts_request ∧ (k, v) ∈ t_add t)
  ∨ (k, v) ∈ own_headers cfg sel visitor correlation.
Proof.
  unfold dispatch_headers, own_headers. rewrite elem_of_app. intros [H|H]; [|by right; right; right].
  unfold serialized_headers, request_headers in H. rewrite layered_fold in H.
  apply elem_of_layers in H as [H|(t & Ht & H)].
  - apply elem_of_app in H as [H|H]; [|by right; left]. left.
    apply list_elem_of_omap in H as ([k0 v0] & Hin & H). apply map_header_Some in H as (E & Ha & Hm & Ev).
    simpl in *. subst k0. by exists v0.
  - right. right. left. exists t. split; [|done]. apply list_elem_of_In in Ht. apply in_rev in Ht. by apply list_elem_of_In.
Qed.

Lemma values_None name hs : (∀ kv, kv ∈ hs → lower kv.1 ≠ lower name) → values name hs = [].
Proof.
  intros H. unfold values. induction hs as [|kv hs IH]; [done|]. rewrite filter_cons, decide_False.
  - apply IH. intros kv' Hin. apply H. by right.
  - apply H. left.
Qed.

Lemma aperio_prefix name : starts_with (bs "x-aperio-") (lower name) = true → ∀ k carried consumed,
  lower k = lower name → header_is_aperios k carried consumed = true.
Proof.
  intros Hs k carried consumed E. unfold header_is_aperios. rewrite <- E in Hs. unfold starts_with in Hs.
  destruct (strip_prefix (bs "x-aperio-") (lower k)) as [r|] eqn:Er; [|done]. apply strip_prefix_Some in Er.
  assert (Hl : length (lower k) = (9 + length r)%nat) by (rewrite Er, length_app; done).
  unfold lower in Hl. rewrite length_fmap in Hl.
  rewrite (proj2 (Z.leb_le _ _)) by (unfold len; lia). simpl andb. apply orb_true_iff. left. apply orb_true_iff. left.
  unfold eq_ignore_case. apply str_eqb_eq. unfold lower at 1. rewrite fmap_take.
  change (lower1 <$> k) with (lower k). rewrite Er. rewrite take_app_le by done. done.
Qed.

(** C15: A visitor cannot speak in Aperio's name in a request sent to a client over
    the tunnel. Whatever headers the visitor's request carries, the dispatched
    message has under any name of the x-aperio- namespace that no edit of the site
    and no trace context uses exactly the values the server wrote there for the
    client that serves it and the visitor the gate let in. The statement is about
    the dispatched message: the background refresh of a cached answer and the
    server-side fetch build their headers on other paths. *)
Theorem identity_headers_unspoofable {F Regex Tz} cfg (sites : list (Site F Regex Tz)) host path carried consumed trace hs sel
    visitor correlation name :
  starts_with (bs "x-aperio-") (lower name) = true → silent_on name (edits_for sites host path ts_request) →
  values name trace = [] →
  values name (dispatch_headers cfg sel visitor correlation
                 (serialized_headers cfg sites host path carried consumed trace hs))
  = values name (own_headers cfg sel visitor correlation).
Proof.
  intros Hn Hs Ht. unfold dispatch_headers, own_headers. rewrite values_app. unfold serialized_headers, request_headers.
  rewrite layered_fold, silent_layers by done. rewrite values_app, Ht, app_nil_r. rewrite values_None; [done|].
  intros kv H. apply list_elem_of_omap in H as (kv0 & _ & H). apply map_header_Some in H as (-> & Ha & _).
  intros E. by rewrite (aperio_prefix name Hn _ _ _ E) in Ha.
Qed.

(** an edited answer is what everyone sees, and the visitor reads one request
    id. The answer a visitor gets has no connection-management header of the
    backend's, and under the managed name exactly the id the server chose, when it
    is one a header can carry. *)
Theorem answer_headers_clean name_ok cfg strategy sel id hs built :
  built_headers name_ok cfg strategy sel (Some id) hs = Some built →
  lower (request_id_header cfg) = request_id_header cfg → request_id_header cfg ≠ bs "set-cookie" →
  name_ok (request_id_header cfg) = true → forallb header_char_ok id = true →
  values (request_id_header cfg) built = [id]
  ∧ values (bs "connection") built = values (bs "connection") [(request_id_header cfg, id)]
  ∧ values (bs "keep-alive") built = values (bs "keep-alive") [(request_id_header cfg, id)]
  ∧ values (bs "transfer-encoding") built = values (bs "transfer-encoding") [(request_id_header cfg, id)].
Proof.
  intros Hb Hl Hsc Hn Hv. set (rid := request_id_header cfg) in *.
  set (kept := filter (fun kv => passes_back cfg (Some id) kv = true) hs ≫= response_header name_ok) in Hb.
  assert (Hecho : response_header name_ok (rid, id) = [(rid, id)]).
  { unfold response_header. simpl. by rewrite Hn, Hv, Hl. }
  assert (Hkept : ∀ kv, kv ∈ kept → lower kv.1 ≠ rid ∧ lower kv.1 ∉ [bs "connection"; bs "keep-alive"; bs "transfer-encoding"]).
  { intros kv H. apply list_elem_of_bind in H as (kv0 & H & Hin). apply list_elem_of_filter in Hin as [Hp _].
    unfold response_header in H. case_match; [|by apply elem_of_nil in H]. apply list_elem_of_singleton in H. subst kv.
    simpl. rewrite lower_idem. unfold passes_back in Hp. apply andb_prop in Hp as [Hp1 Hp2]. apply negb_true_iff, bool_decide_eq_false in Hp1.
    fold rid in Hp2. split; [|done]. intros E. by rewrite E, str_eqb_refl in Hp2. }
  assert (Hb' : built = (rid, id) :: (if decide (strategy = Sticky) then [(bs "set-cookie", affinity_cookie cfg sel)] else []) ++ kept).
  { unfold built_headers in Hb. fold rid kept in Hb. rewrite Hecho in Hb.
    destruct (decide (strategy = Sticky)); [destruct (forallb _ (affinity_cookie _ _)); [|done]|]; by injection Hb as <-. }
  assert (Hcookie : ∀ name, lower name ≠ bs "set-cookie" →
    values name (if decide (strategy = Sticky) then [(bs "set-cookie", affinity_cookie cfg sel)] else []) = []).
  { intros name H. apply values_None. intros kv Hin. destruct (decide _); [|by apply elem_of_nil in Hin].
    apply list_elem_of_singleton in Hin. subst kv. cbn [fst]. intros E. apply H. by rewrite <- E. }
  assert (Hfree : ∀ name, (∀ kv, kv ∈ kept → lower kv.1 ≠ lower name) → lower name ≠ bs "set-cookie" →
    values name built = values name [(rid, id)]).
  { intros name Hk Hc. rewrite Hb'. change ((rid, id) :: ?x) with ([(rid, id)] ++ x).
    by rewrite !values_app, Hcookie, (values_None name kept), !app_nil_r. }
  split_and!.
  - rewrite Hfree; [|intros kv Hin; rewrite Hl; by apply Hkept|by rewrite Hl].
    unfold values. rewrite filter_cons, decide_True by done. done.
  - apply Hfree; [|done]. intros kv Hin E. apply Hkept in Hin as [_ Hin]. apply Hin. rewrite E. left.
  - apply Hfree; [|done]. intros kv Hin E. apply Hkept in Hin as [_ Hin]. apply Hin. rewrite E. right. left.
  - apply Hfree; [|done]. intros kv Hin E. apply Hkept in Hin as [_ Hin]. apply Hin. rewrite E. do 2 right. left.
Qed.

(** ** A streamed upload *)

Lemma pump_spec id max total chunks sends frames counted complete :
  utf8_valid id = true → pump id max total chunks sends = (frames, counted, complete) →
  ∃ sent rest, chunks = (Ok <$> sent) ++ rest
  ∧ Forall2 (fun f bytes => decode_binary_frame f = Some (FRAME_REQUEST_CHUNK, id, bytes)) frames sent
  ∧ (sent ≠ [] → total + len (concat sent) <= max)
  ∧ (complete = true ↔ rest = [])
  ∧ (rest = [] → counted = len (concat sent))
  ∧ take (length sent) sends = replicate (length sent) true
  ∧ ∀ next later, rest = Ok next :: later → len id <= u8_max → total + len (concat sent ++ next) <= max →
      sends !! length sent ≠ Some true.
Proof.
  intros Hu. revert total sends frames counted complete.
  induction chunks as [|[bytes|e] chunks IH]; intros total sends frames counted complete; simpl.
  - intros [= <- <- <-]. exists [], []. split_and!; try done; constructor.
  - destruct (Z.ltb_spec max (total + len bytes)) as [Hm|Hm].
    { intros [= <- <- <-]. exists [], (Ok bytes :: chunks). split_and!; try done.
      intros next later [= <- <-] _ H. simpl in H. lia. }
    destruct (encode_binary_frame FRAME_REQUEST_CHUNK id bytes) as [f|] eqn:Ef.
    + destruct sends as [|[] sends].
      * intros [= <- <- <-]. exists [], (Ok bytes :: chunks). split_and!; try done; constructor.
      * destruct (pump id max (total + len bytes) chunks sends) as [[fs n] c] eqn:Ep. intros [= <- <- <-].
        destruct (IH _ _ _ _ _ Ep) as (sent & rest & -> & Hf & Ht & Hc & Hn & Hs & Hr).
        exists (bytes :: sent), rest. simpl. rewrite len_app. split_and!; try done.
        -- constructor; [|done]. by eapply decode_encoded_frame.
        -- intros _. destruct sent as [|b sent]; [cbn [concat]; rewrite len_nil; lia|]. specialize (Ht ltac:(done)). lia.
        -- intros H. rewrite Hn; [done|done].
        -- by rewrite Hs.
        -- intros next later E Hid H. apply (Hr next later E Hid). rewrite <- app_assoc, len_app in H. lia.
      * intros [= <- <- <-]. exists [], (Ok bytes :: chunks). split_and!; try done; constructor.
    + intros [= <- <- <-]. exists [], (Ok bytes :: chunks). split_and!; try done.
      intros next later _ Hid. exfalso. unfold encode_binary_frame in Ef. rewrite (proj2 (Z.ltb_ge _ _)) in Ef by done. done.
  - intros [= <- <- <-]. exists [], (Err e :: chunks). split_and!; try done; constructor.
Qed.

(** a backend never takes part of an upload for the whole. The frames the
    tunnel took decode to the chunks read so far, in order and within the limit;
    the body is declared complete exactly when every chunk of it was read and
    sent, and then its bytes are the upload's and all were counted; otherwise what
    stopped it is a failed read, a chunk past the limit, or a tunnel that no longer
    takes frames. *)
Theorem upload_never_truncated id max chunks sends frames counted complete :
  utf8_valid id = true → len id <= u8_max → pump id max 0 chunks sends = (frames, counted, complete) →
  ∃ sent rest, chunks = (Ok <$> sent) ++ rest
  ∧ Forall2 (fun f bytes => decode_binary_frame f = Some (FRAME_REQUEST_CHUNK, id, bytes)) frames sent
  ∧ (sent ≠ [] → len (concat sent) <= max)
  ∧ (if complete then chunks = Ok <$> sent ∧ counted = len (concat sent)
     else match rest with
          | [] => False
          | Err _ :: _ => True
          | Ok next :: _ => max < len (concat sent ++ next) ∨ sends !! length sent ≠ Some true
          end).
Proof.
  intros Hu Hid Hp. destruct (pump_spec _ _ _ _ _ _ _ _ Hu Hp) as (sent & rest & -> & Hf & Ht & Hc & Hn & _ & Hr).
  exists sent, rest. split_and!; try done. destruct complete.
  - destruct Hc as [Hc _]. specialize (Hc eq_refl). subst rest. rewrite app_nil_r. split; [done|by apply Hn].
  - destruct rest as [|[next|e] later]; [|..|done].
    + destruct Hc as [_ Hc]. by specialize (Hc eq_refl).
    + destruct (Z.le_gt_cases (len (concat sent ++ next)) max) as [H|H]; [right|left; lia]. by apply (Hr next later).
Qed.

(** ** A cached answer *)

Lemma partial_inside range n s e : 0 <= n → evaluate_range range n = Partial s e → 0 <= s <= e ∧ e < n.
Proof.
  intros Hn. unfold evaluate_range. destruct (strip_prefix _ _) as [spec|]; [|done].
  destruct (has comma spec || (n =? 0)) eqn:E0; [done|]. to_prop.
  destruct (split_once _ spec) as [[a b]|]; [|done]. destruct (trim a) as [|a0 a1].
  - destruct (parse_uint _ (trim b)) as [k|] eqn:Ek; [|done]. pose proof (parse_uint_range _ _ _ Ek).
    destruct (k =? 0) eqn:Ez; to_prop; [done|]. unfold sat_sub. intros [= <- <-]. lia.
  - destruct (parse_uint _ (a0 :: a1)) as [k|] eqn:Ek; [|done]. pose proof (parse_uint_range _ _ _ Ek).
    destruct (Z.leb_spec n k); [done|].
    destruct (match trim b with [] => _ | _ :: _ => _ end) as [e'|] eqn:Ee; [|done]. destruct (Z.ltb_spec e' k); [done|].
    intros [= <- <-]. destruct (trim b) as [|b0 b1]; [injection Ee as <-; lia|]. destruct (parse_uint usize_max (b0 :: b1)); [|done]. injection Ee as <-. lia.
Qed.

Lemma own_no_length hit not_modified outcome : values (bs "content-length") (hit_own_headers hit not_modified outcome) = [].
Proof.
  unfold hit_own_headers. rewrite !values_app. destruct (h_stale hit), ((h_status hit =? 200) && negb not_modified), outcome; done.
Qed.

(** a cached answer is honest about what it sends. The byte count reported is
    the body's; a validator that matches gets a 304 with no body; a satisfiable
    range gets a 206 whose body is that slice of the stored one and lies inside it;
    everything else gets the stored status and body; and a stored content-length
    never travels. *)
Theorem cache_hit_exact name_ok hit hs status n resp :
  cache_hit_response name_ok hit hs = (status, n, resp) →
  values (bs "content-length") (vr_headers resp) = []
  ∧ ∃ body, vr_body resp = Whole body ∧ n = len body
  ∧ (if hit_not_modified hit hs then status = 304 ∧ body = []
     else match hit_range hit hs with
          | Full => status = h_status hit ∧ body = h_body hit
          | Unsatisfiable => status = 416 ∧ body = []
          | Partial a b => status = 206 ∧ 0 <= a <= b ∧ b < len (h_body hit) ∧ len body = b + 1 - a
              ∧ ∃ before after, h_body hit = before ++ body ++ after ∧ len before = a
          end).
Proof.
  unfold cache_hit_response. intros E. apply pair_eq in E as [E <-]. apply pair_eq in E as [<- <-]. split.
  - cbn [vr_headers]. rewrite values_app, own_no_length. simpl app. apply values_None. intros kv Hin. apply list_elem_of_bind in Hin as (kv0 & H & Hin).
    apply list_elem_of_filter in Hin as [Hp _]. apply andb_prop in Hp as [_ Hp].
    unfold response_header in H. case_match; [|by apply elem_of_nil in H]. apply list_elem_of_singleton in H. subst kv.
    cbn [fst]. rewrite lower_idem. intros E. rewrite E in Hp. by vm_compute in Hp.
  - eexists. split; [reflexivity|]. split; [reflexivity|]. destruct (hit_not_modified hit hs) eqn:En; [done|].
    destruct (hit_range hit hs) as [|a b|] eqn:Er; [done| |done].
    assert (Hb : 0 <= a <= b ∧ b < len (h_body hit)).
    { unfold hit_range in Er. rewrite En, orb_false_l in Er. destruct (negb (h_status hit =? 200)); [done|].
      destruct (header_str (bs "range") hs) as [r|]; [|done].
      destruct (match header_str (bs "if-range") hs with Some v => _ | None => _ end); [|done].
      eapply partial_inside; [apply len_nonneg|exact Er]. }
    destruct Hb as [Hab Hlt]. unfold len in *. split_and!; [done|lia|lia|lia| |].
    + rewrite length_take, length_drop. lia.
    + exists (take (Z.to_nat a) (h_body hit)), (drop (Z.to_nat (b + 1 - a)) (drop (Z.to_nat a) (h_body hit))).
      rewrite take_drop, take_drop. split; [done|]. rewrite length_take. lia.
Qed.

(** ** Worked inputs *)

Module ExchangeSamples.

Definition cfg : ProxyConfig :=
  {| failover_mode := Retry; failover_all_methods := false; failover_max_jumps := 2; failover_window := 10 * second;
     retry_on_5xx := true; retry_statuses := []; identity_headers := true; visitor_identity_headers := true;
     preview_noindex := false; random_subdomain_suffix := None; cfg_secure_cookies := true; request_id_enabled := true;
     request_id_header := bs "x-request-id"; request_id_trust_inbound := false; max_body_size := 100; cache_enabled := true;
     cache_max_stale := 60; cache_max_bytes := 1000; cache_negative_ttl := 0; gateway_timeout := 30 * second;
     gateway_response_timeout := 30 * second; outlier_ejection := true; outlier_window := 60 * second;
     outlier_max_failures := 3; outlier_eject := 30 * second; inspector := true; max_streams_per_ip := 0;
     scaling_enabled := false |}.

Definition serving (id : str) : SelectedClient :=
  {| sel_id := id; sel_tx := 1; sel_request_count := 0; sel_inflight_limiter := None; sel_token_name := None;
     sel_token_id := None; sel_org_id := Some (bs "acme"); sel_instance_id := None; sel_cache := true;
     sel_server_side_target := None; sel_resilience := true; sel_capture := true; sel_max_request_body := None;
     sel_response_timeout := None; sel_webhook_inbox := false; sel_service_name := None; sel_service_custom_name := None |}.

(** A visitor who claims to be another client, with a cookie of Aperio's beside its own. *)
Definition spoofed : headers :=
  [(bs "x-aperio-client-id", bs "evil"); (bs "cookie", bs "a=1; aperio_session=t"); (bs "x-request-id", bs "mine")].

Definition no_sites : list (Site unit str unit) := [].

(** An operator that marks every answer of the site private. *)
Definition private_edit : HeaderTransforms :=
  {| ts_request := no_edits; ts_response := {| t_add := [(bs "cache-control", bs "no-store")]; t_remove := [bs "cache-control"] |} |}.
Definition private_site : Site unit str unit :=
  {| s_hostname := bs "h"; s_path := None; s_access := None; s_answer := None; s_timeout := None;
     s_headers := Some private_edit; s_rate_limit := None; s_canary := None; s_waf := []; s_fallback := None;
     s_page_504 := None; s_page_503 := None; s_maintenance := []; s_rank := (0, 0) |}.

Lemma identity_headers_unspoofable_witness :
  values (bs "x-aperio-client-id")
    (dispatch_headers cfg (serving (bs "c1")) None (Some (bs "r1"))
       (serialized_headers cfg no_sites None (bs "/") [] false [] spoofed)) = [bs "c1"].
Proof.
  rewrite (identity_headers_unspoofable cfg no_sites None (bs "/") [] false [] spoofed (serving (bs "c1")) None (Some (bs "r1"))
             (bs "x-aperio-client-id")); [reflexivity|reflexivity|constructor|reflexivity].
Defined.

Lemma backend_headers_clean_witness :
  ∃ v0, (bs "cookie", v0) ∈ spoofed ∧ bs "a=1" = cookies_without_aperios v0.
Proof.
  destruct (backend_headers_clean cfg no_sites None (bs "/") [] false [] spoofed (serving (bs "c1")) None (Some (bs "r1"))
              (bs "cookie") (bs "a=1")) as [(v0 & Hin & _ & _ & E)|[H|[(t & H & _)|H]]].
  - vm_compute. left.
  - exists v0. split; [exact Hin|exact E].
  - by apply elem_of_nil in H.
  - by apply elem_of_nil in H.
  - exfalso. apply list_elem_of_In in H. vm_compute in H. repeat destruct H as [H|H]; done.
Defined.

Lemma answer_headers_clean_witness :
  values (bs "x-request-id")
    (default [] (built_headers (fun _ => true) cfg RoundRobin (serving (bs "c1")) (Some (bs "r1"))
                   [(bs "X-Request-Id", bs "old"); (bs "Connection", bs "close")])) = [bs "r1"].
Proof.
  exact (proj1 (answer_headers_clean (fun _ => true) cfg RoundRobin (serving (bs "c1")) (bs "r1")
    [(bs "X-Request-Id", bs "old"); (bs "Connection", bs "close")] [(bs "x-request-id", bs "r1")]
    eq_refl eq_refl ltac:(done) eq_refl eq_refl)).
Defined.

Lemma upload_never_truncated_witness :
  (pump (bs "r1") 5 0 [Ok (bs "abc"); Ok (bs "def")] [true; true]).2 = false.
Proof.
  destruct (pump (bs "r1") 5 0 [Ok (bs "abc"); Ok (bs "def")] [true; true]) as [[frames counted] complete] eqn:E.
  destruct (upload_never_truncated (bs "r1") 5 [Ok (bs "abc"); Ok (bs "def")] [true; true] frames counted complete
              eq_refl ltac:(vm_compute; discriminate) E) as (sent & rest & Hc & _ & Hl & H).
  destruct complete; [|reflexivity]. destruct H as [H _]. exfalso.
  destruct sent as [|b1 [|b2 [|b3 sent]]]; simplify_eq; by specialize (Hl ltac:(done)).
Defined.

Definition stored : CacheHit :=
  {| h_status := 200; h_headers := [(bs "Content-Length", bs "10"); (bs "ETag", bs "v1")]; h_body := bs "0123456789";
     h_age_secs := 3; h_stale := false |}.

Lemma cache_hit_exact_witness :
  vr_body (cache_hit_response (fun _ => true) stored [(bs "range", bs "bytes=2-4")]).2 = Whole (bs "234").
Proof.
  destruct (cache_hit_response (fun _ => true) stored [(bs "range", bs "bytes=2-4")]) as [[status n] resp] eqn:E.
  destruct (cache_hit_exact (fun _ => true) stored [(bs "range", bs "bytes=2-4")] status n resp E)
    as (_ & body & Hb & _ & H).
  replace (hit_not_modified stored [(bs "range", bs "bytes=2-4")]) with false in H by reflexivity.
  replace (hit_range stored [(bs "range", bs "bytes=2-4")]) with (Partial 2 4) in H by reflexivity.
  clear E. destruct H as (_ & _ & _ & Hn & before & after & Hs & Hl). simpl. rewrite Hb. f_equal.
  cbv [stored h_body bs list_ascii_of_string] in Hs.
  destruct before as [|x [|y [|z before]]]; unfold len in *; simpl in Hl, Hs; try lia.
  destruct body as [|b0 [|b1 [|b2 [|b3 body]]]]; simpl in Hn; try lia. injection Hs as <- <- <- <- <- <-. reflexivity.
Defined.

(** A background refresh is not cleaned as a request is: the visitor's header in
    the server's namespace travels to the backend. *)
Example refresh_forwards_spoofed :
  values (bs "x-aperio-client-id") (serialized_headers cfg no_sites None (bs "/") [] false [] spoofed) = []
  ∧ values (bs "x-aperio-client-id") (reval_headers spoofed) = [bs "evil"].
Proof. done. Qed.

(** An answer the operator's edit keeps out of the cache goes into it when a
    background refresh fetched it: the refresh stores what the backend sent. *)
Example refresh_ignores_edits :
  let answer := {| tr_status := 200; tr_headers := [(bs "cache-control", bs "public, max-age=60")]; tr_body := None;
                   tr_body_raw := Some (bs "secret"); tr_trailers := None; tr_stream := None |} in
  response_cache_ttl (edited_headers cfg [private_site] (Some (bs "h")) (bs "/a") (tr_headers answer)) = None
  ∧ (revalidated sample_digest (fun _ => None) cfg 0 (bs "h|/a") true answer empty_cache).1 = Some true.
Proof. vm_compute. done. Qed.

End ExchangeSamples.
