(* ===== verification/Dispatch.v ===== *)
(** The dispatch loop, [Attempt::run] of
    [aperio-server/src/proxy/forward/attempt.rs]: one visitor request sent to the
    selected client, its answer mapped back, and every re-dispatch failover and
    the retry of server errors make on the way.

    The loop runs over a script of turns, one per pass: what the rest of the world
    answered it there, the permit, the fresh id, whether the tunnel took the
    message, the outcome, the connection table each pick saw. Its effects on
    shared state are listed in order; [perform] says what the ones on the cache,
    the byte quotas and the connections do. *)

From S2P Require Import Prelude Utf8 Binds Frames IpNet ClientIp VisitorAuth Clients Select Route Canary Cache RateLimit StreamFlow Declare SiteRules Sites Limits Grants Users Sessions Share Gate Exchange.

(** ** What the loop is given *)

Record Capture : Type := { cp_headers : headers; cp_body : option str; cp_truncated : bool }.

Record Attempt : Type := {
  at_method : str;
  at_uri : str;
  at_path : str;
  at_ip : ipaddr;
  at_host : option str;
  at_canary : option (str * Side);
  at_visitor : option VisitorIdentity;
  at_body : str;
  at_body_limit : Z;
  at_stream : option (list (result str str));
  at_headers : headers;
  at_cache_eligible : bool;
  at_cache_key : str;
  at_capture : Capture;
  at_adopted : option str;
}.

Definition is_streamed (a : Attempt) : bool := is_some (at_stream a).

Inductive Outcome : Type :=
| TimedOut
| Lost
| Answered (r : TunnelResponse).

Record Turn : Type := {
  tn_permit : bool;
  tn_id : str;
  tn_sent : bool;
  tn_pump : list bool;
  tn_outcome : Outcome;
  tn_stream_slot : bool;
  tn_now : Z;
  tn_route : route_state;
  tn_polls : list poll;
}.

(** ** What it does to shared state *)

(** The message of a dispatch: [Request] with its body in the envelope's frame, or [RequestStart]. *)
Record Envelope : Type := {
  ev_start : bool;
  ev_id : str;
  ev_service : option str;
  ev_method : str;
  ev_uri : str;
  ev_headers : headers;
}.

Record CapturedRequest : Type := {
  cr_id : str;
  cr_method : str;
  cr_uri : str;
  cr_request : Capture;
  cr_status : Z;
  cr_resp_headers : headers;
  cr_resp_body : option str;
  cr_resp_truncated : bool;
  cr_resp_streamed : bool;
  cr_client : str;
  cr_client_name : option str;
  cr_org : option str;
}.

Record InboxEntry : Type := {
  ib_id : str;
  ib_method : str;
  ib_uri : str;
  ib_host : option str;
  ib_headers : headers;
  ib_body : option str;
  ib_truncated : bool;
  ib_status : Z;
  ib_service : option str;
  ib_org : option str;
}.

Inductive Effect : Type :=
| Counted (client : str) (service : option str)
| Registered (id client : str)
| Unregistered (id : str)
| Sent (client : str) (e : Envelope) (body : str)
| Fetched (target method uri : str) (hs : headers) (body : str + list (result str str))
| Pumped (client id : str) (frames : list str) (complete : bool)
| Charged (client : str) (service : option str) (now : Z)
| Picked (rr : list (RouteGroupKey * Z))
| Refused (l : Limit)
| LogFailure (status : Z) (org : option str)
| LogSuccess (id : str) (status : Z) (client : str) (token org : option str)
| Stats (failed : bool) (bytes : Z)
| Persisted (ok : bool) (sent received : Z) (token host : option str) (org : option str)
| Stored (key : str) (status : Z) (hs : headers) (body : str) (ttl : Z) (resilient : bool) (now : Z)
| TokenBytes (token : option str) (bytes : Z)
| Inspected (c : CapturedRequest)
| Inboxed (e : InboxEntry).

(** ** One pass *)

Section Run.
Context (name_ok : str → bool) (b64_encode : str → str) (b64_decode : str → option str).
Context {F Regex Tz : Type} (cfg : ProxyConfig) (sites : list (Site F Regex Tz)) (a : Attempt).

Definition envelope (sel : SelectedClient) (t : Turn) : Envelope :=
  {| ev_start := is_streamed a; ev_id := tn_id t; ev_service := sel_service_name sel; ev_method := at_method a;
     ev_uri := at_uri a;
     ev_headers := dispatch_headers cfg sel (at_visitor a) (correlation_id cfg (at_adopted a) (tn_id t)) (at_headers a) |}.

(** What a target asked from this server is sent. *)
Definition fetch_headers : headers := filter (fun kv => is_hop_by_hop kv.1 = false) (at_headers a) ≫= response_header name_ok.

(** The effects of sending, and whether the request is under way. *)
Definition send (sel : SelectedClient) (t : Turn) : list Effect * bool :=
  match sel_server_side_target sel with
  | Some target =>
      ([Fetched target (at_method a) (at_uri a) fetch_headers
          (match at_stream a with Some chunks => inr (counted_stream (at_body_limit a) 0 chunks) | None => inl (at_body a) end)], true)
  | None =>
      let registered := Registered (tn_id t) (sel_id sel) in
      if tn_sent t then
        (registered :: Sent (sel_id sel) (envelope sel t) (at_body a)
         :: match at_stream a with
            | Some chunks =>
                let '(frames, _, complete) := pump (tn_id t) (at_body_limit a) 0 chunks (tn_pump t) in
                Pumped (sel_id sel) (tn_id t) frames complete :: (if complete then [] else [Unregistered (tn_id t)])
            | None => []
            end, true)
      else ([registered; Unregistered (tn_id t)], false)
  end.

(** The bytes of the upload the pump counted. *)
Definition streamed_bytes (sel : SelectedClient) (t : Turn) : Z :=
  match sel_server_side_target sel, at_stream a with
  | None, Some chunks => let '(_, counted, _) := pump (tn_id t) (at_body_limit a) 0 chunks (tn_pump t) in counted
  | _, _ => 0
  end.

Inductive Next : Type :=
| Done (r : VisitorResponse)
| Again (sel : SelectedClient) (jumps : Z) (deadline : option Z)
| Polling.

Definition repick (t : Turn) : option SelectedClient * list Effect :=
  let '(outcome, st) := pick_proxy_client (tn_route t) (tn_now t) (at_path a) (at_host a) None None (Some (at_ip a)) (at_canary a) in
  (match outcome with Selected c => Some c | _ => None end, [Picked (path_rr st)]).

Definition may_redispatch (jumps : Z) : bool :=
  negb (is_streamed a) && negb (forward_asked (at_visitor a)) && method_retryable (at_method a) (failover_all_methods cfg)
  && (jumps <? failover_max_jumps cfg).

(** Where a lost client's request goes next; [None] while the wait polls on. *)
Definition failover_target (sel : SelectedClient) (t : Turn) (deadline : Z) : option (option SelectedClient * list Effect) :=
  match failover_mode cfg with
  | Fail => Some (None, [])
  | Retry => Some (repick t)
  | Wait => (fun o => (o, [])) <$> wait_for_candidate (tn_polls t) (at_path a) (at_host a) (sel_instance_id sel) deadline (Some (at_ip a))
  | RetryWait => (fun o => (o, [])) <$> wait_for_candidate (tn_polls t) (at_path a) (at_host a) None deadline (Some (at_ip a))
  end.

Definition lost_response : VisitorResponse := text_response 502 (bs "502 Bad Gateway - Client connection lost in flight").

Definition on_lost (sel : SelectedClient) (t : Turn) (jumps : Z) (deadline : option Z) : Next * list Effect :=
  let charged := Charged (sel_id sel) (sel_service_name sel) (tn_now t) in
  let ended := [LogFailure 502 (sel_org_id sel); Persisted false (len (at_body a)) 0 None None (sel_org_id sel)] in
  if bool_decide (failover_mode cfg ≠ Fail) && may_redispatch jumps then
    let due := default (tn_now t + failover_window cfg) deadline in
    match failover_target sel t due with
    | None => (Polling, [charged])
    | Some (Some next, effs) => (Again next (jumps + 1) (Some due), charged :: effs)
    | Some (None, effs) => (Done lost_response, charged :: effs ++ ended)
    end
  else (Done lost_response, charged :: ended).

Definition on_timeout (sel : SelectedClient) (t : Turn) : Next * list Effect :=
  (Done (gateway_timeout_response sites (at_host a) (bs "504 Gateway Timeout - Gateway response timeout expired")),
   [Unregistered (tn_id t); LogFailure 504 (sel_org_id sel); Persisted false (len (at_body a)) 0 None None (sel_org_id sel);
    Charged (sel_id sel) (sel_service_name sel) (tn_now t)]).

Definition with_headers (r : TunnelResponse) (hs : headers) : TunnelResponse :=
  {| tr_status := tr_status r; tr_headers := hs; tr_body := tr_body r; tr_body_raw := tr_body_raw r;
     tr_trailers := tr_trailers r; tr_stream := tr_stream r |}.

Definition retry_5xx (jumps : Z) (r : TunnelResponse) : bool :=
  negb (is_some (tr_stream r)) && retry_covers (retry_on_5xx cfg) (retry_statuses cfg) (tr_status r) && may_redispatch jumps.

Definition captured_body (r : TunnelResponse) (bytes : str) : option str * bool :=
  if is_some (tr_stream r) || str_eqb bytes [] then (None, false)
  else if CAPTURE_BODY_LIMIT <? len bytes then (Some (b64_encode (take (Z.to_nat CAPTURE_BODY_LIMIT) bytes)), true)
  else match tr_body r with
       | Some encoded => (Some encoded, false)
       | None => (Some (b64_encode bytes), false)
       end.

Definition capture_effect (sel : SelectedClient) (id : str) (r : TunnelResponse) (bytes : str) : list Effect :=
  if inspector cfg && sel_capture sel then
    let '(body, truncated) := captured_body r bytes in
    [Inspected {| cr_id := id; cr_method := at_method a; cr_uri := at_uri a; cr_request := at_capture a; cr_status := tr_status r;
                  cr_resp_headers := tr_headers r; cr_resp_body := body; cr_resp_truncated := truncated;
                  cr_resp_streamed := is_some (tr_stream r); cr_client := sel_id sel;
                  cr_client_name := match sel_service_custom_name sel with Some n => Some n | None => sel_service_name sel end;
                  cr_org := sel_org_id sel |}]
  else [].

Definition inbox_effect (sel : SelectedClient) (id : str) (r : TunnelResponse) : list Effect :=
  if sel_webhook_inbox sel && eq_ignore_case (at_method a) (bs "POST") then
    [Inboxed {| ib_id := id; ib_method := at_method a; ib_uri := at_uri a; ib_host := at_host a;
                ib_headers := cp_headers (at_capture a); ib_body := cp_body (at_capture a);
                ib_truncated := cp_truncated (at_capture a) || is_streamed a; ib_status := tr_status r;
                ib_service := sel_service_name sel; ib_org := sel_org_id sel |}]
  else [].

Definition store_effect (sel : SelectedClient) (t : Turn) (r : TunnelResponse) (bytes : str) : list Effect :=
  if at_cache_eligible a && negb (is_some (tr_stream r)) then
    match store_ttl cfg r with
    | Some ttl => [Stored (at_cache_key a) (tr_status r) (tr_headers r) bytes ttl (sel_resilience sel) (tn_now t)]
    | None => []
    end
  else [].

Definition token_label (sel : SelectedClient) : option str := Some (default (bs "master") (sel_token_name sel)).

(** The books of an answer: statistics, cache, quota, log, inspector, inbox. *)
Definition account (sel : SelectedClient) (t : Turn) (r : TunnelResponse) (bytes : str) : list Effect :=
  let failed := is_server_error (status_code (tr_status r)) in
  let received := len (at_body a) + streamed_bytes sel t in
  [Stats failed (len bytes);
   Persisted (negb failed) received (len bytes) (token_label sel) (at_host a) (sel_org_id sel)]
  ++ store_effect sel t r bytes
  ++ [TokenBytes (sel_token_id sel) (received + len bytes);
      LogSuccess (tn_id t) (tr_status r) (sel_id sel) (sel_token_name sel) (sel_org_id sel)]
  ++ capture_effect sel (tn_id t) r bytes
  ++ inbox_effect sel (tn_id t) r.

Definition internal_error : VisitorResponse := text_response 500 (bs "Internal Server Error").

Definition body_of (r : TunnelResponse) (bytes : str) : VisitorBody :=
  match tr_stream r with
  | Some items => Streamed (frame_from_body_item name_ok <$> items)
  | None => match tr_trailers r with
            | Some trailers => Trailed bytes (trailer_header_map name_ok trailers)
            | None => Whole bytes
            end
  end.

(** The answer given to the visitor. *)
Definition finish (sel : SelectedClient) (t : Turn) (r : TunnelResponse) : Next * list Effect :=
  let bytes := response_bytes b64_decode r in
  let books := account sel t r bytes in
  let correlation := correlation_id cfg (at_adopted a) (tn_id t) in
  if is_some (tr_stream r) && negb (max_streams_per_ip cfg =? 0) && negb (tn_stream_slot t) then
    (Done (whole_response (too_many_requests LStreamsPerIp)), books ++ [LogFailure 429 (sel_org_id sel); Refused LStreamsPerIp])
  else
    (Done match built_headers name_ok cfg (lb_strategy (tn_route t)) sel correlation (tr_headers r) with
          | Some hs => {| vr_status := status_code (tr_status r); vr_headers := hs; vr_body := body_of r bytes |}
          | None => internal_error
          end, books).

Definition on_answer (sel : SelectedClient) (t : Turn) (jumps : Z) (deadline : option Z) (r : TunnelResponse) : Next * list Effect :=
  let r := with_headers r (edited_headers cfg sites (at_host a) (at_path a) (tr_headers r)) in
  let failed := if is_server_error (status_code (tr_status r))
                then [Charged (sel_id sel) (sel_service_name sel) (tn_now t)] else [] in
  if retry_5xx jumps r then
    match repick t with
    | (Some next, effs) => (Again next (jumps + 1) deadline, failed ++ effs)
    | (None, effs) => let '(n, books) := finish sel t r in (n, failed ++ effs ++ books)
    end
  else let '(n, books) := finish sel t r in (n, failed ++ books).

(** The pending guard takes the entry out on every way out of a pass. *)
Definition guard_drop (t : Turn) (n : Next) : list Effect := match n with Polling => [] | _ => [Unregistered (tn_id t)] end.

(** One pass of the loop. *)
Definition attempt_once (sel : SelectedClient) (jumps : Z) (deadline : option Z) (t : Turn) : Next * list Effect :=
  if is_some (sel_inflight_limiter sel) && negb (tn_permit t) then
    (Done (whole_response (too_many_requests LClientConcurrency)), [LogFailure 429 (sel_org_id sel); Refused LClientConcurrency])
  else
    let '(effs, dispatched) := send sel t in
    let '(next, rest) :=
      match (if dispatched then tn_outcome t else Lost) with
      | TimedOut => on_timeout sel t
      | Lost => on_lost sel t jumps deadline
      | Answered r => on_answer sel t jumps deadline r
      end in
    (next, Counted (sel_id sel) (sel_service_name sel) :: effs ++ rest ++ guard_drop t next).

(** The loop; [None] when the script ends before it does. *)
Fixpoint run (sel : SelectedClient) (jumps : Z) (deadline : option Z) (turns : list Turn) : option VisitorResponse * list Effect :=
  match turns with
  | [] => (None, [])
  | t :: rest =>
      let '(next, effs) := attempt_once sel jumps deadline t in
      match next with
      | Done r => (Some r, effs)
      | Polling => (None, effs)
      | Again sel' jumps' deadline' =>
          let '(r, more) := run sel' jumps' deadline' rest in (r, effs ++ more)
      end
  end.

(** [Attempt::run] *)
Definition attempt_run (sel : SelectedClient) (turns : list Turn) : option VisitorResponse * list Effect := run sel 0 None turns.
End Run.

(** ** What the effects do *)

Record Books : Type := {
  bk_pending : gmap str str;
  bk_clients : client_map;
  bk_cache : ResponseCache;
  bk_daily : list (str * (str * Z));
  bk_limits : list Z;
}.

Definition set_pending (s : Books) p : Books :=
  {| bk_pending := p; bk_clients := bk_clients s; bk_cache := bk_cache s; bk_daily := bk_daily s; bk_limits := bk_limits s |}.
Definition set_clients (s : Books) c : Books :=
  {| bk_pending := bk_pending s; bk_clients := c; bk_cache := bk_cache s; bk_daily := bk_daily s; bk_limits := bk_limits s |}.
Definition set_cached (s : Books) c : Books :=
  {| bk_pending := bk_pending s; bk_clients := bk_clients s; bk_cache := c; bk_daily := bk_daily s; bk_limits := bk_limits s |}.
Definition set_daily (s : Books) d : Books :=
  {| bk_pending := bk_pending s; bk_clients := bk_clients s; bk_cache := bk_cache s; bk_daily := d; bk_limits := bk_limits s |}.
Definition set_limits (s : Books) l : Books :=
  {| bk_pending := bk_pending s; bk_clients := bk_clients s; bk_cache := bk_cache s; bk_daily := bk_daily s; bk_limits := l |}.

(** The effects on the tables other components own. *)
Definition perform (sha256 : str → str) (cfg : ProxyConfig) (today : str) (s : Books) (e : Effect) : Books :=
  match e with
  | Registered id client => set_pending s (<[id := client]> (bk_pending s))
  | Unregistered id => set_pending s (delete id (bk_pending s))
  | Charged client service now => set_clients s (record_outlier_failure cfg now client service (bk_clients s))
  | Refused l => set_limits s (record_limit l (bk_limits s))
  | TokenBytes token bytes => set_daily s (add_token_bytes (bk_daily s) today token bytes)
  | Stored key status hs body ttl resilient now =>
      set_cached s (Cache.insert sha256 (bk_cache s) now key status hs body ttl (cache_max_bytes cfg) resilient
                      (response_swr_window hs) (response_surrogate_keys hs)).2
  | _ => s
  end.

(** ** How often a request is sent *)

Definition is_dispatch (e : Effect) : bool := match e with Sent _ _ _ | Fetched _ _ _ _ _ => true | _ => false end.
Definition dispatches (effs : list Effect) : list Effect := filter (fun e => is_dispatch e = true) effs.

Section Facts.
Context (name_ok : str → bool) (b64_encode : str → str) (b64_decode : str → option str).
Context {F Regex Tz : Type} (cfg : ProxyConfig) (sites : list (Site F Regex Tz)) (a : Attempt).

#[local] Abbreviation once := (attempt_once name_ok b64_encode b64_decode cfg sites a).
#[local] Abbreviation go := (run name_ok b64_encode b64_decode cfg sites a).

Lemma dispatches_app l l' : dispatches (l ++ l') = dispatches l ++ dispatches l'.
Proof. apply filter_app. Qed.

Lemma dispatches_account sel t r bytes : dispatches (account b64_encode cfg a sel t r bytes) = [].
Proof.
  unfold account. rewrite !dispatches_app. unfold store_effect, capture_effect, inbox_effect.
  destruct (at_cache_eligible a && _), (store_ttl cfg r), (inspector cfg && _), (captured_body b64_encode r bytes), (sel_webhook_inbox sel && _); done.
Qed.

Lemma finish_done sel t r : ∃ resp effs, finish name_ok b64_encode b64_decode cfg a sel t r = (Done resp, effs)
  ∧ dispatches effs = [].
Proof.
  unfold finish. case_match.
  - eexists _, _. split; [done|]. by rewrite dispatches_app, dispatches_account.
  - eexists _, _. split; [done|]. apply dispatches_account.
Qed.

Lemma repick_quiet t : dispatches (repick a t).2 = [].
Proof. unfold repick. by destruct (pick_proxy_client _ _ _ _ _ _ _ _). Qed.

(** A target another pass may take was admitted by a pick at some moment of the pass. *)
Definition picked_in (t : Turn) (sel : SelectedClient) : Prop :=
  ∃ st now req canary, (pick_proxy_client st now (at_path a) (at_host a) req None (Some (at_ip a)) canary).1 = Selected sel
  ∧ (st = tn_route t ∨ ∃ p, p ∈ tn_polls t ∧ st = poll_state p).

Lemma repick_picked t sel effs : repick a t = (Some sel, effs) → picked_in t sel.
Proof.
  unfold repick. destruct (pick_proxy_client _ _ _ _ _ _ _ _) as [o st] eqn:E. destruct o; intros H; simplify_eq.
  eexists _, _, _, _. rewrite E. split; [done|by left].
Qed.

Lemma wait_picked t inst deadline sel :
  wait_for_candidate (tn_polls t) (at_path a) (at_host a) inst deadline (Some (at_ip a)) = Some (Some sel) → picked_in t sel.
Proof.
  unfold picked_in. induction (tn_polls t) as [|p ps IH]; simpl; [done|].
  destruct (pick_proxy_client _ _ _ _ _ _ _ _) as [o st'] eqn:E. destruct o; simpl.
  - intros [= ->]. eexists _, _, _, _. rewrite E. split; [done|]. right. exists p. split; [left|done].
  - destruct (_ <=? _); [done|]. intros H. destruct (IH H) as (st & now & req & canary & Hp & [Hr|(q & Hq & ->)]).
    + eexists _, _, _, _. split; [exact Hp|by left].
    + eexists _, _, _, _. split; [exact Hp|]. right. exists q. split; [by right|done].
  - done.
Qed.

(** What a pass hands to the next one. *)
Record handed (sel : SelectedClient) (jumps : Z) (deadline : option Z) (t : Turn) (sel' : SelectedClient) (jumps' : Z) (deadline' : option Z) :
    Prop := {
  hd_allowed : may_redispatch cfg a jumps = true;
  hd_jumps : jumps' = jumps + 1;
  hd_deadline : deadline' = deadline ∨ deadline' = Some (default (tn_now t + failover_window cfg) deadline);
  hd_picked : picked_in t sel';
}.

Lemma on_lost_spec sel t jumps deadline :
  match on_lost cfg a sel t jumps deadline with
  | (Again sel' jumps' deadline', effs) => handed sel jumps deadline t sel' jumps' deadline' ∧ dispatches effs = []
  | (Polling, effs) => (∃ inst, wait_for_candidate (tn_polls t) (at_path a) (at_host a) inst
                          (default (tn_now t + failover_window cfg) deadline) (Some (at_ip a)) = None) ∧ dispatches effs = []
  | (Done _, effs) => dispatches effs = []
  end.
Proof.
  unfold on_lost. destruct (bool_decide _ && _) eqn:E; [|done]. apply andb_prop in E as [_ Hm].
  unfold failover_target. destruct (failover_mode cfg).
  - done.
  - destruct (repick a t) as [[next|] effs] eqn:Er; pose proof (repick_quiet t) as Hq; rewrite Er in Hq; simpl in Hq.
    + split; [|done]. split; [done|done|by right|]. by eapply repick_picked.
    + change (?x :: ?l ++ ?r) with ([x] ++ l ++ r). by rewrite !dispatches_app, Hq.
  - destruct (wait_for_candidate _ _ _ _ _ _) as [[next|]|] eqn:Ew; simpl; [|done|split; [by eexists|done]].
    split; [|done]. split; [done|done|by right|]. by eapply wait_picked.
  - destruct (wait_for_candidate _ _ _ _ _ _) as [[next|]|] eqn:Ew; simpl; [|done|split; [by eexists|done]].
    split; [|done]. split; [done|done|by right|]. by eapply wait_picked.
Qed.

Lemma on_answer_spec sel t jumps deadline r :
  match on_answer name_ok b64_encode b64_decode cfg sites a sel t jumps deadline r with
  | (Again sel' jumps' deadline', effs) => handed sel jumps deadline t sel' jumps' deadline' ∧ dispatches effs = []
  | (Polling, effs) => False
  | (Done _, effs) => dispatches effs = []
  end.
Proof.
  unfold on_answer. set (r' := with_headers r _). set (failed := if is_server_error _ then _ else _).
  assert (Hf : dispatches failed = []) by (unfold failed; by destruct (is_server_error _)).
  destruct (finish_done sel t r') as (resp & books & Ef & Hb). rewrite Ef.
  destruct (retry_5xx cfg a jumps r') eqn:Er; [|by rewrite dispatches_app, Hf, Hb].
  apply andb_prop in Er as [_ Hm]. pose proof (repick_quiet t) as Hq.
  destruct (repick a t) as [[next|] effs] eqn:Ep; simpl in Hq; rewrite !dispatches_app, Hf, Hq; [|done].
  split; [|done]. split; [done|done|by left|]. by eapply repick_picked.
Qed.

Lemma send_dispatches sel t : (length (dispatches (send name_ok cfg a sel t).1) <= 1)%nat.
Proof.
  unfold send. destruct (sel_server_side_target sel); [done|]. destruct (tn_sent t); [|simpl; lia].
  destruct (at_stream a); [|done]. destruct (pump _ _ _ _ _) as [[frames n] []]; done.
Qed.

Lemma once_spec sel jumps deadline t :
  (length (dispatches (once sel jumps deadline t).2) <= 1)%nat
  ∧ match (once sel jumps deadline t).1 with
    | Again sel' jumps' deadline' => handed sel jumps deadline t sel' jumps' deadline'
    | Polling => ∃ inst, wait_for_candidate (tn_polls t) (at_path a) (at_host a) inst
                   (default (tn_now t + failover_window cfg) deadline) (Some (at_ip a)) = None
    | Done _ => True
    end.
Proof.
  unfold attempt_once. destruct (is_some _ && _); [simpl; split; [lia|done]|].
  pose proof (send_dispatches sel t) as Hs. destruct (send name_ok cfg a sel t) as [effs dispatched]. simpl in Hs.
  assert (Hall : ∀ next rest, dispatches rest = [] →
    (length (dispatches (Counted (sel_id sel) (sel_service_name sel) :: effs ++ rest ++ guard_drop t next)) <= 1)%nat).
  { intros next rest Hr. change (Counted ?x ?y :: ?l) with ([Counted x y] ++ l).
    assert (dispatches (guard_drop t next) = []) as Hg by by destruct next. by rewrite !dispatches_app, Hr, Hg, app_nil_r. }
  destruct (if dispatched then tn_outcome t else Lost) as [| |r].
  - split; [|done]. by apply Hall.
  - pose proof (on_lost_spec sel t jumps deadline) as H.
    destruct (on_lost cfg a sel t jumps deadline) as [next rest]. simpl in *.
    destruct next; [|destruct H|destruct H]; (split; [by apply Hall|done]).
  - pose proof (on_answer_spec sel t jumps deadline r) as H.
    destruct (on_answer _ _ _ _ _ _ _ _ _ _ _) as [next rest]. simpl in *.
    destruct next; [|destruct H|done]; (split; [by apply Hall|done]).
Qed.

Lemma may_redispatch_lt jumps : may_redispatch cfg a jumps = true → jumps < failover_max_jumps cfg.
Proof. unfold may_redispatch. intros H. apply andb_prop in H as [_ H]. by apply Z.ltb_lt in H. Qed.

Lemma run_dispatches sel jumps deadline turns :
  (length (dispatches (go sel jumps deadline turns).2)
   <= if may_redispatch cfg a jumps then 1 + Z.to_nat (failover_max_jumps cfg - jumps) else 1)%nat.
Proof.
  revert sel jumps deadline. induction turns as [|t turns IH]; intros sel jumps deadline; [simpl; case_match; lia|].
  simpl. pose proof (once_spec sel jumps deadline t) as [H1 H2].
  destruct (once sel jumps deadline t) as [next effs]. simpl in H1, H2. destruct next as [r|sel' jumps' deadline'|].
  - simpl. case_match; lia.
  - destruct H2 as [Ha -> _ _]. rewrite Ha. apply may_redispatch_lt in Ha. specialize (IH sel' (jumps + 1) deadline').
    destruct (go sel' (jumps + 1) deadline' turns) as [r more]. simpl in *. rewrite dispatches_app, length_app.
    destruct (may_redispatch cfg a (jumps + 1)); lia.
  - simpl. case_match; lia.
Qed.

(** The waits of the passes end: each polls until past every window that could be running. *)
Definition waits_end (deadline : option Z) (turns : list Turn) : Prop :=
  ∀ t, t ∈ turns → ∃ p, p ∈ tn_polls t ∧ (∀ d, deadline = Some d → d <= poll_clock p)
    ∧ ∀ t', t' ∈ turns → tn_now t' + failover_window cfg <= poll_clock p.

Lemma run_ends sel jumps deadline turns :
  waits_end deadline turns → (0 < length turns)%nat →
  failover_max_jumps cfg - jumps < Z.of_nat (length turns) → is_Some (go sel jumps deadline turns).1.
Proof.
  revert sel jumps deadline. induction turns as [|t turns IH]; intros sel jumps deadline Hw Hne Hlen; [simpl in Hne; lia|].
  simpl. pose proof (once_spec sel jumps deadline t) as [_ H]. destruct (once sel jumps deadline t) as [next effs]. simpl in H.
  destruct next as [r|sel' jumps' deadline'|]; [by eexists| |].
  - destruct H as [Ha -> Hd _]. apply may_redispatch_lt in Ha. simpl in Hlen.
    assert (IH' : is_Some (go sel' (jumps + 1) deadline' turns).1).
    { apply IH; [|lia|lia]. intros u Hu. destruct (Hw u (list_elem_of_further _ _ _ Hu)) as (p & Hp & Hpd & Hpn).
      exists p. split_and!; [done| |]; [|intros t' Ht'; apply Hpn; by right].
      intros d Ed. destruct Hd as [-> | ->]; [by apply Hpd|]. injection Ed as <-. destruct deadline as [d|]; simpl; [by apply Hpd|].
      apply Hpn. left. }
    by destruct (go sel' (jumps + 1) deadline' turns).
  - exfalso. destruct H as [inst H]. destruct (Hw t (list_elem_of_here _ _)) as (p & Hp & Hpd & Hpn).
    destruct (wait_for_candidate_ends (tn_polls t) (at_path a) (at_host a) inst
                (default (tn_now t + failover_window cfg) deadline) (Some (at_ip a))) as [o Ho]; [|by rewrite Ho in H].
    exists p. split; [done|]. destruct deadline as [d|]; simpl; [by apply Hpd|]. apply Hpn. left.
Qed.

(** C20: failover is bounded and ends. One visitor request is sent at most once
    more than the configured jumps, whatever the clients do; exactly once, at most,
    when its body is streamed, its gate asked the serving client, its method may
    not be repeated or no jump is configured; and after at most that many passes,
    each ending its wait once the window is over, the visitor has an answer. *)
Theorem failover_bounded sel turns :
  (length (dispatches (attempt_run name_ok b64_encode b64_decode cfg sites a sel turns).2) <= 1 + Z.to_nat (failover_max_jumps cfg))%nat
  ∧ (may_redispatch cfg a 0 = false →
     (length (dispatches (attempt_run name_ok b64_encode b64_decode cfg sites a sel turns).2) <= 1)%nat)
  ∧ (waits_end None turns → (0 < length turns)%nat → failover_max_jumps cfg < Z.of_nat (length turns) →
     is_Some (attempt_run name_ok b64_encode b64_decode cfg sites a sel turns).1).
Proof.
  unfold attempt_run. pose proof (run_dispatches sel 0 None turns) as H. split_and!.
  - destruct (may_redispatch cfg a 0); lia.
  - intros E. by rewrite E in H.
  - intros Hw Hne Hl. apply run_ends; [done|done|lia].
Qed.

(** ** Who is sent the request, and what *)

Lemma quiet_sent effs client e body : dispatches effs = [] → Sent client e body ∉ effs.
Proof.
  intros Hq H. assert (Hd : Sent client e body ∈ dispatches effs) by (apply list_elem_of_filter; by split).
  rewrite Hq in Hd. by apply elem_of_nil in Hd.
Qed.

Lemma once_sent sel jumps deadline t client e body :
  Sent client e body ∈ (once sel jumps deadline t).2 →
  client = sel_id sel ∧ e = envelope cfg a sel t ∧ body = at_body a ∧ sel_server_side_target sel = None.
Proof.
  unfold attempt_once. destruct (is_some _ && _); [simpl; intros H; exfalso; revert H; rewrite !elem_of_cons, elem_of_nil; naive_solver|].
  assert (Hs : Sent client e body ∈ (send name_ok cfg a sel t).1 →
    client = sel_id sel ∧ e = envelope cfg a sel t ∧ body = at_body a ∧ sel_server_side_target sel = None).
  { unfold send. destruct (sel_server_side_target sel); [simpl; rewrite list_elem_of_singleton; done|].
    destruct (tn_sent t); [|simpl; rewrite !elem_of_cons, elem_of_nil; naive_solver].
    destruct (at_stream a); [|simpl; rewrite !elem_of_cons, elem_of_nil; naive_solver].
    destruct (pump _ _ _ _ _) as [[frames n] []]; simpl; rewrite !elem_of_cons, elem_of_nil; naive_solver. }
  destruct (send name_ok cfg a sel t) as [effs dispatched]. simpl in Hs.
  assert (Hall : ∀ next rest, dispatches rest = [] →
    Sent client e body ∈ Counted (sel_id sel) (sel_service_name sel) :: effs ++ rest ++ guard_drop t next →
    client = sel_id sel ∧ e = envelope cfg a sel t ∧ body = at_body a ∧ sel_server_side_target sel = None).
  { intros next rest Hr. rewrite elem_of_cons, !elem_of_app. intros [?|[?|[H|H]]]; [done|auto| |]; apply quiet_sent in H; try done.
    by destruct next. }
  destruct (if dispatched then tn_outcome t else Lost) as [| |r].
  - by apply Hall.
  - pose proof (on_lost_spec sel t jumps deadline) as H. destruct (on_lost cfg a sel t jumps deadline) as [next rest].
    apply Hall. destruct next; [done|by destruct H|by destruct H].
  - pose proof (on_answer_spec sel t jumps deadline r) as H. destruct (on_answer _ _ _ _ _ _ _ _ _ _ _) as [next rest].
    apply Hall. destruct next; [done|by destruct H|done].
Qed.

(** A table seen by a pass. *)
Definition seen_by (turns : list Turn) (st : route_state) : Prop :=
  ∃ t, t ∈ turns ∧ (st = tn_route t ∨ ∃ p, p ∈ tn_polls t ∧ st = poll_state p).

Lemma run_sent sel jumps deadline turns client e body :
  Sent client e body ∈ (go sel jumps deadline turns).2 →
  ∃ sel' t, t ∈ turns ∧ client = sel_id sel' ∧ e = envelope cfg a sel' t ∧ body = at_body a
  ∧ (sel' = sel ∨ ∃ u, u ∈ turns ∧ picked_in u sel').
Proof.
  revert sel jumps deadline. induction turns as [|t turns IH]; intros sel jumps deadline; [by intros H%elem_of_nil|].
  simpl. pose proof (once_spec sel jumps deadline t) as [_ H2]. pose proof (once_sent sel jumps deadline t client e body) as Hs.
  destruct (once sel jumps deadline t) as [next effs]. simpl in H2, Hs.
  assert (Hhere : Sent client e body ∈ effs → ∃ sel' u, u ∈ t :: turns ∧ client = sel_id sel' ∧ e = envelope cfg a sel' u
     ∧ body = at_body a ∧ (sel' = sel ∨ ∃ u, u ∈ t :: turns ∧ picked_in u sel')).
  { intros H. destruct (Hs H) as (-> & -> & -> & _). exists sel, t. split_and!; try done; [left|by left]. }
  destruct next as [r|sel' jumps' deadline'|]; [exact Hhere| |exact Hhere].
  specialize (IH sel' jumps' deadline'). destruct (go sel' jumps' deadline' turns) as [r more]. simpl in *.
  rewrite elem_of_app. intros [H|H]; [by apply Hhere|].
  destruct (IH H) as (sel'' & u & Hu & -> & -> & -> & Hor). exists sel'', u. split_and!; try done; [by right|]. right.
  destruct Hor as [->|(v & Hv & Hp)]; [exists t; split; [left|by apply H2]|exists v; split; [by right|done]].
Qed.

(** a re-dispatch keeps to the route and to the visitor's rights. Every
    message the loop sends carries the request's own method, target, body and
    cleaned headers under the id the policy chose, and goes to the client routing
    selected first or to a service of the request's route, on a table the loop saw,
    whose address list admits the visitor. *)
Theorem redispatch_admitted sel turns client e body :
  (∀ st, seen_by turns st → NoDup (keys (clients st))) →
  Sent client e body ∈ (attempt_run name_ok b64_encode b64_decode cfg sites a sel turns).2 →
  ev_method e = at_method a ∧ ev_uri e = at_uri a ∧ body = at_body a
  ∧ ∃ sel', client = sel_id sel'
  ∧ ev_headers e = dispatch_headers cfg sel' (at_visitor a) (correlation_id cfg (at_adopted a) (ev_id e)) (at_headers a)
  ∧ (sel' = sel ∨ ∃ st now key r c s, seen_by turns st
       ∧ route_key (clients st) now (client_down_threshold st) (at_path a) (at_host a) key
       ∧ in_pool (clients st) now (client_down_threshold st) key r
       ∧ ref_get r (clients st) = Some s ∧ sel' = selected_of r c s
       ∧ admits_ip (clients st) (at_ip a) r = true).
Proof.
  intros Hnd H. apply run_sent in H as (sel' & t & Ht & -> & -> & -> & Hor). split_and!; [done..|].
  exists sel'. split_and!; [done|done|]. destruct Hor as [->|(u & Hu & st & now & req & canary & Hp & Hst)]; [by left|right].
  assert (Hseen : seen_by turns st) by (exists u; done).
  apply pick_selected in Hp as (key & r & c & s & Hk & Hin & _ & Hg & -> & Hip); [|by apply Hnd].
  exists st, now, key, r, c, s. split_and!; try done. by apply Hip.
Qed.

(** ** What is cached is what was answered *)

Definition is_stored (e : Effect) : bool := match e with Stored _ _ _ _ _ _ _ => true | _ => false end.
Definition stores (effs : list Effect) : list Effect := filter (fun e => is_stored e = true) effs.

Lemma stores_app l l' : stores (l ++ l') = stores l ++ stores l'.
Proof. apply filter_app. Qed.

Lemma stores_finish sel t r resp effs :
  finish name_ok b64_encode b64_decode cfg a sel t r = (Done resp, effs) →
  stores effs = store_effect cfg a sel t r (response_bytes b64_decode r).
Proof.
  assert (Hb : ∀ bytes, stores (account b64_encode cfg a sel t r bytes) = store_effect cfg a sel t r bytes).
  { intros bytes. unfold account. rewrite !stores_app. unfold store_effect, capture_effect, inbox_effect.
    destruct (at_cache_eligible a && _), (store_ttl cfg r), (inspector cfg && _), (captured_body b64_encode r bytes), (sel_webhook_inbox sel && _); done. }
  unfold finish. case_match; intros E; apply pair_eq in E as [_ <-]; [by rewrite stores_app, Hb, app_nil_r|apply Hb].
Qed.

Lemma finish_response sel t r resp effs e :
  finish name_ok b64_encode b64_decode cfg a sel t r = (Done resp, effs) → tr_stream r = None → e ∈ store_effect cfg a sel t r (response_bytes b64_decode r) →
  resp = internal_error ∨ (vr_status resp = status_code (tr_status r)
    ∧ (vr_body resp = Whole (response_bytes b64_decode r) ∨ ∃ tr, vr_body resp = Trailed (response_bytes b64_decode r) tr)).
Proof.
  unfold finish, body_of. intros H Hs _. rewrite Hs in H. simpl in H. injection H as <- _.
  case_match; [right|by left]. simpl. split; [done|]. case_match; [right; by eexists|by left].
Qed.

Lemma stores_repick t : stores (repick a t).2 = [].
Proof. unfold repick. by destruct (pick_proxy_client _ _ _ _ _ _ _ _). Qed.

Lemma stores_on_lost sel t jumps deadline : stores (on_lost cfg a sel t jumps deadline).2 = [].
Proof.
  assert (Hf : ∀ due o effs, failover_target cfg a sel t due = Some (o, effs) → stores effs = []).
  { intros due o effs. unfold failover_target. pose proof (stores_repick t) as Hr. destruct (failover_mode cfg).
    - by intros [= _ <-].
    - intros [= E]. by rewrite E in Hr.
    - destruct (wait_for_candidate _ _ _ _ _ _); [|done]. by intros [= _ <-].
    - destruct (wait_for_candidate _ _ _ _ _ _); [|done]. by intros [= _ <-]. }
  unfold on_lost. destruct (bool_decide _ && _); [|done].
  destruct (failover_target _ _ _ _ _) as [[[next|] effs]|] eqn:E; [| |done]; apply Hf in E; simpl;
    change (stores (Charged ?x ?y ?z :: ?l)) with (stores l); [done|]. by rewrite stores_app, E.
Qed.

(** What an entry of the cache was made of. *)
Definition stored_from (sel : SelectedClient) (t : Turn) (r0 : TunnelResponse) (e : Effect) : Prop :=
  let r := with_headers r0 (edited_headers cfg sites (at_host a) (at_path a) (tr_headers r0)) in
  at_cache_eligible a = true ∧ tr_stream r0 = None
  ∧ ∃ ttl, store_ttl cfg r = Some ttl
  ∧ e = Stored (at_cache_key a) (tr_status r0) (tr_headers r) (response_bytes b64_decode r0) ttl (sel_resilience sel) (tn_now t).

Lemma once_stored sel jumps deadline t e :
  is_stored e = true → e ∈ (once sel jumps deadline t).2 →
  ∃ r0 resp, (once sel jumps deadline t).1 = Done resp ∧ tn_outcome t = Answered r0 ∧ stored_from sel t r0 e
  ∧ (resp = internal_error ∨ (vr_status resp = status_code (tr_status r0)
       ∧ (vr_body resp = Whole (response_bytes b64_decode r0) ∨ ∃ tr, vr_body resp = Trailed (response_bytes b64_decode r0) tr))).
Proof.
  intros He Hin. assert (Hst : e ∈ stores (once sel jumps deadline t).2) by (apply list_elem_of_filter; by split). clear Hin.
  revert Hst. unfold attempt_once. destruct (is_some _ && _); [by intros H%elem_of_nil|].
  assert (Hs : stores (send name_ok cfg a sel t).1 = []).
  { unfold send. destruct (sel_server_side_target sel); [done|]. destruct (tn_sent t); [|done].
    destruct (at_stream a); [|done]. by destruct (pump _ _ _ _ _) as [[frames n] []]. }
  destruct (send name_ok cfg a sel t) as [effs dispatched]. simpl in Hs.
  assert (Hall : ∀ next rest, stores (Counted (sel_id sel) (sel_service_name sel) :: effs ++ rest ++ guard_drop t next) = stores rest).
  { intros next rest. change (Counted ?x ?y :: ?l) with ([Counted x y] ++ l). rewrite !stores_app, Hs.
    assert (stores (guard_drop t next) = []) as -> by by destruct next. by rewrite app_nil_r. }
  destruct dispatched; [destruct (tn_outcome t) as [| |r0]|].
  - unfold on_timeout. cbn [snd]. rewrite Hall. by intros H%elem_of_nil.
  - pose proof (stores_on_lost sel t jumps deadline) as Hl. destruct (on_lost _ _ _ _ _ _) as [next rest]. cbn [snd] in *.
    rewrite Hall, Hl. by intros H%elem_of_nil.
  - unfold on_answer. set (r := with_headers r0 _). set (failed := if is_server_error _ then _ else _).
    assert (Hf : stores failed = []) by (unfold failed; by destruct (is_server_error _)).
    destruct (finish_done sel t r) as (resp & books & Ef & _). rewrite Ef.
    assert (Hend : e ∈ stores books → ∃ r1 resp', Done resp = Done resp' ∧ Answered r0 = Answered r1 ∧ stored_from sel t r1 e
       ∧ (resp' = internal_error ∨ (vr_status resp' = status_code (tr_status r1)
            ∧ (vr_body resp' = Whole (response_bytes b64_decode r1) ∨ ∃ tr, vr_body resp' = Trailed (response_bytes b64_decode r1) tr)))).
    { rewrite (stores_finish _ _ _ _ _ Ef). intros H. exists r0, resp. split_and!; [done|done| |].
      - unfold store_effect in H. destruct (at_cache_eligible a && _) eqn:E; [|by apply elem_of_nil in H].
        apply andb_prop in E as [E1 E2]. destruct (store_ttl cfg r) as [ttl|] eqn:Et; [|by apply elem_of_nil in H].
        apply list_elem_of_singleton in H. split_and!; [done| |by exists ttl].
        change (tr_stream r) with (tr_stream r0) in E2. by destruct (tr_stream r0).
      - refine (finish_response sel t r resp books e Ef _ H). unfold store_effect in H.
        destruct (at_cache_eligible a && _) eqn:E; [|by apply elem_of_nil in H]. apply andb_prop in E as [_ E].
        by destruct (tr_stream r). }
    pose proof (stores_repick t) as Hr.
    destruct (retry_5xx cfg a jumps r); [destruct (repick a t) as [[next|] l]|]; cbn [fst snd] in *; rewrite Hall, !stores_app, Hf, ?Hr.
    + by intros H%elem_of_nil.
    + exact Hend.
    + exact Hend.
  - pose proof (stores_on_lost sel t jumps deadline) as Hl. destruct (on_lost _ _ _ _ _ _) as [next rest]. cbn [snd] in *.
    rewrite Hall, Hl. by intros H%elem_of_nil.
Qed.

(** the cache holds what visitors were given. An entry the loop stores is for
    a request the cache may answer, under its key, from an answer that was not
    streamed, with the site's edits already in its headers and a lifetime those
    headers or the negative-cache setting grant; and the visitor of that request
    was answered with that status and those bytes. *)
Theorem stored_is_answered sel turns e :
  is_stored e = true → e ∈ (attempt_run name_ok b64_encode b64_decode cfg sites a sel turns).2 →
  ∃ sel' t r0 resp, t ∈ turns ∧ tn_outcome t = Answered r0 ∧ stored_from sel' t r0 e
  ∧ (attempt_run name_ok b64_encode b64_decode cfg sites a sel turns).1 = Some resp
  ∧ (resp = internal_error ∨ (vr_status resp = status_code (tr_status r0)
       ∧ (vr_body resp = Whole (response_bytes b64_decode r0) ∨ ∃ tr, vr_body resp = Trailed (response_bytes b64_decode r0) tr))).
Proof.
  intros He. unfold attempt_run. generalize 0 (@None Z). intros jumps deadline. revert sel jumps deadline.
  induction turns as [|t turns IH]; intros sel jumps deadline; [by intros H%elem_of_nil|]. simpl.
  pose proof (once_stored sel jumps deadline t e He) as Ho. destruct (once sel jumps deadline t) as [next effs]. simpl in Ho.
  destruct next as [r|sel' jumps' deadline'|].
  - intros H. destruct (Ho H) as (r0 & resp & [= ->] & Ht & Hf & Hr). exists sel, t, r0, resp. split_and!; try done. left.
  - specialize (IH sel' jumps' deadline'). destruct (go sel' jumps' deadline' turns) as [r more]. simpl in *.
    rewrite elem_of_app. intros [H|H]; [by destruct (Ho H) as (r0 & resp & ? & _)|].
    destruct (IH H) as (sel'' & u & r0 & resp & Hu & Ht & Hf & Hr & Hor). exists sel'', u, r0, resp. split_and!; try done. by right.
  - intros H. by destruct (Ho H) as (r0 & resp & ? & _).
Qed.

(** ** The pending table *)

(** The entry of the pending table an effect is about. *)
Definition touches (e : Effect) : option str :=
  match e with Registered id _ | Unregistered id => Some id | _ => None end.

Definition only_touches (id : str) (effs : list Effect) : Prop := Forall (fun e => touches e = None ∨ touches e = Some id) effs.

Lemma perform_pending sha256 today s e j :
  touches e ≠ Some j → bk_pending (perform sha256 cfg today s e) !! j = bk_pending s !! j.
Proof.
  destruct e; simpl; intros H; try done; [by rewrite lookup_insert_ne by congruence|by rewrite lookup_delete_ne by congruence].
Qed.

Lemma performed_elsewhere sha256 today id effs s j :
  only_touches id effs → j ≠ id → bk_pending (fold_left (perform sha256 cfg today) effs s) !! j = bk_pending s !! j.
Proof.
  intros Ho Hj. revert s. induction Ho as [|e effs He _ IH]; intros s; [done|]. simpl. rewrite IH.
  apply perform_pending. destruct He as [-> | ->]; congruence.
Qed.

Lemma finish_touches sel t r id : only_touches id (finish name_ok b64_encode b64_decode cfg a sel t r).2.
Proof.
  assert (Hb : ∀ bytes, only_touches id (account b64_encode cfg a sel t r bytes)).
  { intros bytes. unfold only_touches, account, store_effect, capture_effect, inbox_effect. rewrite !Forall_app.
    destruct (at_cache_eligible a && _), (store_ttl cfg r), (inspector cfg && _), (captured_body b64_encode r bytes), (sel_webhook_inbox sel && _);
      split_and!; repeat constructor. }
  unfold finish. case_match; [|apply Hb]. apply Forall_app. split; [apply Hb|]. repeat constructor.
Qed.

Lemma repick_touches t id : only_touches id (repick a t).2.
Proof. unfold repick. destruct (pick_proxy_client _ _ _ _ _ _ _ _). repeat constructor. Qed.

Lemma on_lost_touches sel t jumps deadline id : only_touches id (on_lost cfg a sel t jumps deadline).2.
Proof.
  assert (Hf : ∀ due o effs, failover_target cfg a sel t due = Some (o, effs) → only_touches id effs).
  { intros due o effs. unfold failover_target. pose proof (repick_touches t id) as Hr. destruct (failover_mode cfg).
    - intros [= _ <-]. constructor.
    - intros [= E]. by rewrite E in Hr.
    - destruct (wait_for_candidate _ _ _ _ _ _); [|done]. intros [= _ <-]. constructor.
    - destruct (wait_for_candidate _ _ _ _ _ _); [|done]. intros [= _ <-]. constructor. }
  unfold on_lost. destruct (bool_decide _ && _); [|repeat constructor].
  destruct (failover_target _ _ _ _ _) as [[[next|] effs]|] eqn:E; [| |repeat constructor]; apply Hf in E;
    (constructor; [by left|]); [done|]. apply Forall_app. split; [done|]. repeat constructor.
Qed.

Lemma once_touches sel jumps deadline t : only_touches (tn_id t) (once sel jumps deadline t).2.
Proof.
  unfold attempt_once. destruct (is_some _ && _); [repeat constructor|].
  assert (Hs : only_touches (tn_id t) (send name_ok cfg a sel t).1).
  { unfold send. destruct (sel_server_side_target sel); [repeat constructor|]. destruct (tn_sent t); [|repeat (constructor; [by right|]); constructor].
    destruct (at_stream a); [destruct (pump _ _ _ _ _) as [[frames n] []]|]; repeat (constructor; [first [by left|by right]|]); constructor. }
  destruct (send name_ok cfg a sel t) as [effs dispatched]. simpl in Hs.
  assert (Hall : ∀ next rest, only_touches (tn_id t) rest →
    only_touches (tn_id t) (Counted (sel_id sel) (sel_service_name sel) :: effs ++ rest ++ guard_drop t next)).
  { intros next rest Hr. constructor; [by left|]. apply Forall_app. split; [done|]. apply Forall_app. split; [done|].
    destruct next; repeat constructor; by right. }
  destruct (if dispatched then tn_outcome t else Lost) as [| |r].
  - apply Hall. repeat (constructor; [first [by left|by right]|]). constructor.
  - pose proof (on_lost_touches sel t jumps deadline (tn_id t)) as H. destruct (on_lost _ _ _ _ _ _). by apply Hall.
  - unfold on_answer. set (r' := with_headers r _). set (failed := if is_server_error _ then _ else _).
    assert (Hf : only_touches (tn_id t) failed) by (unfold failed; destruct (is_server_error _); repeat constructor).
    pose proof (finish_touches sel t r' (tn_id t)) as Hb. destruct (finish _ _ _ _ _ _ _ _) as [n books]. simpl in Hb.
    pose proof (repick_touches t (tn_id t)) as Hr.
    destruct (retry_5xx cfg a jumps r'); [destruct (repick a t) as [[next|] l]|]; simpl in Hr; apply Hall;
      rewrite ?Forall_app; unfold only_touches; rewrite ?Forall_app; done.
Qed.

(** A pass that is over has taken its entry out of the table. *)
Lemma once_settled sha256 today sel jumps deadline t s :
  bk_pending s !! tn_id t = None → (once sel jumps deadline t).1 ≠ Polling →
  bk_pending (fold_left (perform sha256 cfg today) (once sel jumps deadline t).2 s) = bk_pending s.
Proof.
  intros Hn Hp. apply map_eq. intros j. destruct (decide (j = tn_id t)) as [->|Hj];
    [|apply (performed_elsewhere _ _ (tn_id t)); [apply once_touches|done]].
  rewrite Hn. revert Hp. unfold attempt_once. destruct (is_some _ && _); [done|].
  destruct (send name_ok cfg a sel t) as [effs dispatched]. destruct (match _ with TimedOut => _ | _ => _ end) as [next rest].
  simpl. intros Hp. rewrite !fold_left_app. destruct next; [| |done]; simpl; apply lookup_delete_eq.
Qed.

(** an exchange leaves nothing behind. Whatever the clients do and however
    many passes it takes, once the visitor has an answer the table of requests in
    flight is as it was before: every id the loop registered is gone, and no other
    request's entry was touched. *)
Theorem pending_restored sha256 today sel turns s resp :
  (∀ t, t ∈ turns → bk_pending s !! tn_id t = None) →
  (attempt_run name_ok b64_encode b64_decode cfg sites a sel turns).1 = Some resp →
  bk_pending (fold_left (perform sha256 cfg today)
                (attempt_run name_ok b64_encode b64_decode cfg sites a sel turns).2 s) = bk_pending s.
Proof.
  unfold attempt_run. generalize 0 (@None Z). intros jumps deadline Hn. revert sel jumps deadline s Hn.
  induction turns as [|t turns IH]; intros sel jumps deadline s Hn; [done|]. simpl.
  pose proof (fun Hp => once_settled sha256 today sel jumps deadline t s (Hn t (list_elem_of_here _ _)) Hp) as Ho.
  destruct (once sel jumps deadline t) as [next effs]. simpl in Ho. destruct next as [r|sel' jumps' deadline'|]; [|..|done].
  - intros _. by apply Ho.
  - specialize (IH sel' jumps' deadline' (fold_left (perform sha256 cfg today) effs s)).
    destruct (go sel' jumps' deadline' turns) as [r more]. simpl in *. intros Hr. rewrite fold_left_app, IH; [by apply Ho| |done].
    intros u Hu. rewrite Ho by done. apply Hn. by right.
Qed.
End Facts.

(** ** Worked inputs *)

Module DispatchSamples.
Import ExchangeSamples.

Definition request (canary : option (str * Side)) : Attempt :=
  {| at_method := bs "GET"; at_uri := bs "/api/v1"; at_path := bs "/api/v1"; at_ip := V4 16909060; at_host := Some (bs "acme.com");
     at_canary := canary; at_visitor := None; at_body := []; at_body_limit := 100; at_stream := None;
     at_headers := [(bs "accept", bs "text/html"); (bs "connection", bs "close")]; at_cache_eligible := true; at_cache_key := bs "acme.com|/api/v1";
     at_capture := {| cp_headers := []; cp_body := None; cp_truncated := false |}; at_adopted := None |}.

Definition page : TunnelResponse :=
  {| tr_status := 200; tr_headers := [(bs "cache-control", bs "public, max-age=60")]; tr_body := None;
     tr_body_raw := Some (bs "hi"); tr_trailers := None; tr_stream := None |}.

Definition poll_at (st : route_state) : poll := {| poll_state := st; poll_now := 10; poll_clock := 100 * second |}.

Definition turn (id : string) (o : Outcome) (st : route_state) : Turn :=
  {| tn_permit := true; tn_id := bs id; tn_sent := true; tn_pump := []; tn_outcome := o; tn_stream_slot := true; tn_now := 10;
     tn_route := st; tn_polls := [poll_at st] |}.

(** The first client goes away, the second answers. *)
Definition two_turns : list Turn := [turn "r1" Lost Select.sample_state; turn "r2" (Answered page) Select.sample_state; turn "r3" TimedOut Select.sample_state].

Definition exchange : option VisitorResponse * list Effect :=
  attempt_run (fun _ => true) (fun s => s) Some cfg no_sites (request None) (serving (bs "c1")) two_turns.

Lemma failover_bounded_witness : is_Some exchange.1 ∧ (length (dispatches exchange.2) <= 3)%nat.
Proof.
  destruct (failover_bounded (fun _ => true) (fun s => s) Some cfg no_sites (request None) (serving (bs "c1")) two_turns)
    as (H1 & _ & H3).
  split; [|exact H1]. apply H3; [|vm_compute; lia|vm_compute; reflexivity].
  intros t Ht. exists (poll_at Select.sample_state).
  assert (Hall : ∀ u, u ∈ two_turns → tn_polls u = [poll_at Select.sample_state] ∧ tn_now u = 10).
  { intros u Hu. unfold two_turns in Hu. rewrite !elem_of_cons, elem_of_nil in Hu. naive_solver. }
  split_and!; [destruct (Hall t Ht) as [-> _]; left|done|]. intros u Hu. destruct (Hall u Hu) as [_ ->]. vm_compute. discriminate.
Defined.

Definition is_sent (e : Effect) : bool := match e with Sent _ _ _ => true | _ => false end.

Lemma redispatch_admitted_witness :
  ∃ client e body, Sent client e body ∈ exchange.2 ∧ ev_id e = bs "r2" ∧ ev_uri e = bs "/api/v1".
Proof.
  assert (Hin : ∃ client e body, Sent client e body ∈ exchange.2 ∧ ev_id e = bs "r2").
  { destruct (exchange.2 !! 8%nat) as [x|] eqn:E; [|vm_compute in E; discriminate]. pose proof (list_elem_of_lookup_2 _ _ _ E) as H.
    vm_compute in E. injection E as <-. eexists _, _, _. split; [exact H|reflexivity]. }
  destruct Hin as (client & e & body & Hin & Hid). exists client, e, body. split_and!; [exact Hin|exact Hid|].
  refine (proj1 (proj2 (redispatch_admitted (fun _ => true) (fun s => s) Some cfg no_sites (request None) (serving (bs "c1"))
           two_turns client e body _ Hin))).
  intros st (t & Ht & Hst). assert (st = Select.sample_state) as ->; [|by apply (bool_decide_unpack _)].
  unfold two_turns in Ht. rewrite !elem_of_cons, elem_of_nil in Ht.
  destruct Hst as [->|(p & Hp & ->)]; [naive_solver|].
  destruct Ht as [->|[->|[->|[]]]]; by apply list_elem_of_singleton in Hp as ->.
Defined.

Lemma stored_is_answered_witness :
  ∃ resp, exchange.1 = Some resp ∧ vr_status resp = 200 ∧ existsb is_stored exchange.2 = true.
Proof.
  assert (Hin : ∃ e, e ∈ exchange.2 ∧ is_stored e = true) by (by apply existsb_Exists).
  destruct Hin as (e & Hin & He).
  destruct (stored_is_answered (fun _ => true) (fun s => s) Some cfg no_sites (request None) (serving (bs "c1")) two_turns e He Hin)
    as (sel & t & r0 & resp & _ & _ & _ & Hr & _).
  exists resp. split; [exact Hr|]. vm_compute in Hr. injection Hr as <-. split; reflexivity.
Defined.

Lemma pending_restored_witness :
  let s := {| bk_pending := {[ bs "other" := bs "c9" ]}; bk_clients := []; bk_cache := empty_cache; bk_daily := []; bk_limits := [] |} in
  bk_pending (fold_left (perform sample_digest cfg (bs "today")) exchange.2 s) = {[ bs "other" := bs "c9" ]}.
Proof.
  intros s. destruct exchange.1 as [resp|] eqn:E; [|vm_compute in E; discriminate].
  refine (pending_restored (fun _ => true) (fun s => s) Some cfg no_sites (request None) sample_digest (bs "today")
           (serving (bs "c1")) two_turns s resp _ E).
  intros t Ht. unfold two_turns in Ht. rewrite !elem_of_cons, elem_of_nil in Ht. destruct Ht as [->|[->|[->|[]]]]; reflexivity.
Defined.

(** *** The side of a split is forgotten by the waiting modes *)

Definition versions : route_state :=
  {| clients := [(bs "c2", sample_connection [sample_service None (bs "next")]); (bs "c3", sample_connection [sample_service None (bs "now")])];
     client_down_threshold := 30; lb_strategy := RoundRobin; path_rr := [] |}.

Definition with_mode (m : FailoverMode) : ProxyConfig :=
  {| failover_mode := m; failover_all_methods := false; failover_max_jumps := 2; failover_window := 10 * second;
     retry_on_5xx := false; retry_statuses := []; identity_headers := false; visitor_identity_headers := false;
     preview_noindex := false; random_subdomain_suffix := None; cfg_secure_cookies := true; request_id_enabled := true;
     request_id_header := bs "x-request-id"; request_id_trust_inbound := false; max_body_size := 100; cache_enabled := true;
     cache_max_stale := 60; cache_max_bytes := 1000; cache_negative_ttl := 0; gateway_timeout := 30 * second;
     gateway_response_timeout := 30 * second; outlier_ejection := true; outlier_window := 60 * second;
     outlier_max_failures := 3; outlier_eject := 30 * second; inspector := true; max_streams_per_ip := 0;
     scaling_enabled := false |}.

Definition sent_to (e : Effect) : option str := match e with Sent c _ _ => Some c | _ => None end.

(** A visitor on the stable side, whose client is lost: a retry stays on the
    stable service, a wait may land the same visitor on the canary. *)
Example wait_forgets_the_split :
  let effects m := (attempt_run (fun _ => true) (fun s => s) Some (with_mode m) no_sites (request (Some (bs "next", Stable)))
                      (serving (bs "c1")) [turn "r1" Lost versions; turn "r2" (Answered page) versions]).2 in
  omap sent_to (effects Retry) = [bs "c1"; bs "c3"] ∧ omap sent_to (effects RetryWait) = [bs "c1"; bs "c2"].
Proof. vm_compute. done. Qed.

(** A backend asked from this server gets neither the request id the access log
    has, nor the name of the client or of the visitor, which the tunnel carries. *)
Example server_side_unnamed :
  let sel := serving (bs "c1") in
  let t := turn "r1" Lost Select.sample_state in
  header_get (bs "x-request-id") (ev_headers (envelope cfg (request None) sel t)) = Some (bs "r1")
  ∧ header_get (bs "x-aperio-client-id") (ev_headers (envelope cfg (request None) sel t)) = Some (bs "c1")
  ∧ fetch_headers (fun _ => true) (request None) = [(bs "accept", bs "text/html")].
Proof. vm_compute. done. Qed.

End DispatchSamples.
