(* ===== verification/Forward.v ===== *)
(** The request path, [aperio-server/src/proxy/forward.rs] and the handler of
    [proxy.rs]: the gates a visitor's request passes before anything is sent, in
    the order the code asks them, then the body, then the dispatch loop
    ([Dispatch]). It composes the rate limiter ([RateLimit]), the visitor gate
    ([Gate]), routing ([Select], [Route]), the site rules ([Sites]), the slots
    ([Limits]), the response cache ([Cache]) and the header rules ([Exchange]).

    Between two awaits other requests run; [World] gives what each stage finds
    when it looks. A stage answers early with the reply that ends the request, or
    goes on, and lists what it did to shared state. *)

From S2P Require Import Prelude Utf8 Binds Frames IpNet ClientIp VisitorAuth Clients Select Route Canary Cache RateLimit StreamFlow Declare SiteRules Sites Limits Grants Users Sessions Share Gate Exchange Dispatch.

(** ** Stages *)

Inductive Reply : Type :=
| FromGate (r : GateResponse)
| Plain (r : VisitorResponse)
| Panicked.

Inductive Deed : Type :=
| InLoop (e : Effect)
| LookedUp (key : str)
| LookedForOutage (key : str)
| Revalidating (client : str) (service : option str) (uri : str) (hs : headers)
| ServedHit (bytes : Z)
| Began (bytes : Z).

(** A stage that may end the request. *)
Definition Stage (A : Type) : Type := result A Reply * list Deed.

#[export] Instance stage_ret : MRet Stage := fun A x => (Ok x, []).
#[export] Instance stage_bind : MBind Stage := fun A B k m =>
  match m with
  | (Ok x, deeds) => let '(r, more) := k x in (r, deeds ++ more)
  | (Err reply, deeds) => (Err reply, deeds)
  end.

Definition reply {A} (r : Reply) (deeds : list Deed) : Stage A := (Err r, deeds).

(** A refusal by a limit, logged and counted. *)
Definition refused {A} (l : Limit) (org : option str) : Stage A :=
  reply (Plain (whole_response (too_many_requests l))) [InLoop (LogFailure 429 org); InLoop (Refused l)].

(** A refusal with a text. *)
Definition turned_away {A} (status : Z) (body : string) (org : option str) : Stage A :=
  reply (Plain (text_response status (bs body))) [InLoop (LogFailure status org)].

(** ** The request and what it finds *)

Record Visit : Type := {
  vq_method : str;
  vq_headers : headers;
  vq_uri : Uri;
  vq_ip : ipaddr;
  vq_trace : headers;
  vq_body : list (result str str);
  vq_id : str;
}.

Definition vq_host (v : Visit) : option str := extract_request_host (vq_headers v).
Definition vq_uri_str (v : Visit) : str := uri_without_token (vq_uri v).
Definition vq_path (v : Visit) : str := default [] (head (split_on "?"%char (vq_uri_str v))).

Record World (F Regex Tz : Type) : Type := {
  w_gate : GateState F Regex Tz;
  w_now : Z;
  w_buckets : list (ipaddr * RateLimitState F);
  w_ip_max : F;
  w_ip_refill : F;
  w_last_disconnect : option Z;
  w_waits : list (route_state * Z);
  w_woken : route_state * Z;
  w_gate_again : GateState F Regex Tz;
  w_now_again : Z;
  w_outage : ResponseCache;
  w_slot : bool;
  w_slot_again : bool;
  w_route_buckets : list (str * RateLimitState F);
  w_table : route_state;
  w_table_woken : route_state;
  w_picked_at : Z;
  w_tokens : list (token_record F);
  w_token_rates : list (str * RateLimitState F);
  w_daily : list (str * (str * Z));
  w_today : str;
  w_orgs : list org_record;
  w_month : option Z;
  w_cache : ResponseCache;
  w_following : option ResponseCache;
  w_turns : list Turn;
}.
Arguments w_gate {F Regex Tz} w.
Arguments w_now {F Regex Tz} w.
Arguments w_buckets {F Regex Tz} w.
Arguments w_ip_max {F Regex Tz} w.
Arguments w_ip_refill {F Regex Tz} w.
Arguments w_last_disconnect {F Regex Tz} w.
Arguments w_waits {F Regex Tz} w.
Arguments w_woken {F Regex Tz} w.
Arguments w_gate_again {F Regex Tz} w.
Arguments w_now_again {F Regex Tz} w.
Arguments w_outage {F Regex Tz} w.
Arguments w_slot {F Regex Tz} w.
Arguments w_slot_again {F Regex Tz} w.
Arguments w_route_buckets {F Regex Tz} w.
Arguments w_table {F Regex Tz} w.
Arguments w_table_woken {F Regex Tz} w.
Arguments w_picked_at {F Regex Tz} w.
Arguments w_tokens {F Regex Tz} w.
Arguments w_token_rates {F Regex Tz} w.
Arguments w_daily {F Regex Tz} w.
Arguments w_today {F Regex Tz} w.
Arguments w_orgs {F Regex Tz} w.
Arguments w_month {F Regex Tz} w.
Arguments w_cache {F Regex Tz} w.
Arguments w_following {F Regex Tz} w.
Arguments w_turns {F Regex Tz} w.

Section Forward.
Context (sha256 : str → str) (uuid_ok : str → bool).
Context (hmac : str → str → str) (encode : str → str) (decode : str → option str).
Context (to_json : ShareClaims → str) (of_json : str → option ShareClaims).
Context (jwt_verify : JwtConfig → str → option (option str)).
Context (ask : ForwardConfig → Verdict) (ask_over_tunnel : ForwardConfig → Verdict * option str).
Context (name_ok : str → bool) (b64_encode : str → str) (b64_decode : str → option str).
Context {F Regex Tz : Type} `{Float F} (is_match : Regex → str → bool).
Context (cfg : ProxyConfig) (down_threshold : Z) (v : Visit) (w : World F Regex Tz).

Definition sites_now : list (Site F Regex Tz) := g_sites (w_gate w).

(** *** 1. The rate of the address *)

Definition admit_ip : Stage unit :=
  if (check_rate_limit (w_buckets w) (vq_ip v) (w_now w) (w_ip_max w) (w_ip_refill w)).1 then mret tt else refused LIp None.

(** *** 2. The visitor gate *)

Definition gate_of (st : GateState F Regex Tz) (now : Z) (method : str) : VisitorGate :=
  check_visitor_gate sha256 uuid_ok hmac encode decode to_json of_json jwt_verify ask ask_over_tunnel st now (vq_id v) method
    (vq_headers v) (vq_uri v) (vq_host v).

Definition not_published : VisitorResponse := gateway_timeout_response sites_now (vq_host v) NOT_PUBLISHED.

(** The identity let in, or a verdict held back because nothing declares the route yet. *)
Definition first_asking : Stage (option (option VisitorIdentity)) :=
  match gate_of (w_gate w) (w_now w) (vq_method v) with
  | Deny r => reply (FromGate r) []
  | Allow who => mret (Some who)
  | Undeclared => mret None
  end.

(** *** 3. Waiting for the route *)

Definition route_up (st : route_state) (now : Z) : bool := route_exists st now (u_path (vq_uri v)) (vq_host v) (Some (vq_ip v)).

(** The turns of the wait; the list ends when the budget does. *)
Fixpoint wait_loop (pending_at_entry : bool) (obs : list (route_state * Z)) : bool :=
  match obs with
  | [] => false
  | (st, now) :: rest =>
      if route_up st now && negb (route_declaration_pending st now) then true
      else if pending_at_entry && negb (route_declaration_pending st now) then false
      else wait_loop pending_at_entry rest
  end.

Definition wait_budget (pending_at_entry : bool) : Z :=
  if pending_at_entry then Z.min down_threshold (gateway_timeout cfg) else gateway_timeout cfg.

(** The cached answer for an outage, or going on. *)
Definition or_stale (go_on : Stage unit) : Stage unit :=
  let key := cache_key (vq_host v) (vq_uri_str v) in
  match (stale_cache_response name_ok cfg (w_now w) (vq_method v) (vq_uri_str v) (vq_headers v) (vq_host v) (w_outage w)).1 with
  | None => reply Panicked [LookedForOutage key]
  | Some (Some resp) => reply (Plain resp) [LookedForOutage key]
  | Some None => let '(r, deeds) := go_on in (r, LookedForOutage key :: deeds)
  end.

Definition should_wait (undeclared : bool) : bool :=
  let st := g_route (w_gate w) in
  let pending := route_declaration_pending st (w_now w) in
  (negb (route_up st (w_now w))
   && worth_waiting_for_route (w_last_disconnect w) (w_now w) (gateway_timeout cfg) (scaling_enabled cfg) pending)
  || (undeclared && pending).

Definition await_route (undeclared : bool) : Stage unit :=
  if should_wait undeclared then
    let reconnected := wait_loop (route_declaration_pending (g_route (w_gate w)) (w_now w)) (w_waits w) in
    let recovered := if negb reconnected && scaling_enabled cfg then route_up (w_woken w).1 (w_woken w).2 else reconnected in
    if recovered then mret tt else or_stale (reply (Plain not_published) [InLoop (LogFailure 504 None)])
  else mret tt.

(** The second asking, only of a verdict held back. *)
Definition second_asking (held : option (option VisitorIdentity)) : Stage (option VisitorIdentity) :=
  match held with
  | Some who => mret who
  | None =>
      match gate_of (w_gate_again w) (w_now_again w) (vq_method v) with
      | Allow who => mret who
      | Deny r => reply (FromGate r) []
      | Undeclared => _ ← or_stale (reply (Plain not_published) []); mret None
      end
  end.

(** *** 4. Slot, firewall, route rate, cold start *)

Definition take_slot (granted : bool) : Stage unit := if granted then mret tt else refused LServerConcurrency None.

Definition firewall : Stage unit :=
  if has_waf sites_now && is_some (waf_deny is_match sites_now (vq_host v) (vq_method v) (vq_path v) (vq_headers v))
  then turned_away 403 "403 Forbidden - Blocked by WAF" None else mret tt.

Definition route_limit : option (F * F * str) :=
  (fun l => (l_rps l, l_burst l, l_key l)) <$> rate_limit_for sites_now (vq_host v) (vq_path v) (Some (vq_method v)).

Definition admit_route : Stage unit :=
  if (check_route_rate_limit (w_route_buckets w) route_limit (w_now w)).1 then mret tt else refused LRoute None.

Definition table_route_up : bool := route_exists (w_table w) (w_picked_at w) (vq_path v) (vq_host v) (Some (vq_ip v)).

(** The table the pick sees: a cold start holds the request without its slot, then takes one again. *)
Definition cold_start : Stage route_state :=
  if scaling_enabled cfg && negb table_route_up then _ ← take_slot (w_slot_again w); mret (w_table_woken w)
  else mret (w_table w).

(** *** 5. Who serves it *)

Definition canary_side : option (str * Side) :=
  (fun rule => (canary_service rule,
                side_for rule (canary_header rule ≫= fun name => header_str name (vq_headers v)) (Some (vq_ip v))))
  <$> canary_for sites_now (vq_host v) (vq_path v).

Definition affinity_of (st : route_state) : option str :=
  if decide (lb_strategy st = Sticky) then cookie_value (vq_headers v) (bs "aperio_affinity") else None.

Definition found (location : str) : VisitorResponse :=
  if forallb header_char_ok location
  then {| vr_status := 302; vr_headers := [(bs "location", location)]; vr_body := Whole [] |}
  else text_response 302 [].

Definition unclaimed (visitor : option VisitorIdentity) : Stage unit :=
  let after := match fallback_for sites_now (vq_host v) with
               | Some rule =>
                   let query := snd <$> split_once "?"%char (vq_uri_str v) in
                   let target := location rule (vq_path v) query in
                   reply (Plain (if forallb header_char_ok target
                                 then {| vr_status := redirect_status rule; vr_headers := [(bs "location", target)]; vr_body := Whole [] |}
                                 else text_response (redirect_status rule) [])) []
               | None => reply (Plain not_published) [InLoop (LogFailure 504 None)]
               end in
  if forward_asked visitor then after else or_stale after.

Definition choose_client (st : route_state) (visitor : option VisitorIdentity) : Stage SelectedClient :=
  let '(outcome, st') := pick_proxy_client st (w_picked_at w) (vq_path v) (vq_host v)
                           (ReqClient <$> (visitor ≫= vi_forward_client_id)) (affinity_of st) (Some (vq_ip v)) canary_side in
  let rotated := InLoop (Picked (path_rr st')) in
  match outcome with
  | Selected sel => (Ok sel, [rotated])
  | PickDenied (Some redirect) => reply (Plain (found redirect)) [rotated; InLoop (LogFailure 302 None)]
  | PickDenied None => reply (Plain not_published) [rotated; InLoop (LogFailure 504 None)]
  | NoRoute => let '(r, deeds) := unclaimed visitor in
               (match r with Ok _ => Err Panicked | Err e => Err e end, rotated :: deeds)
  end.

(** The serving token's rate and quota, the organization's month. *)
Definition admit_tenant (sel : SelectedClient) : Stage unit :=
  match (check_token_limits (w_tokens w) (w_token_rates w) (w_daily w) (w_today w) (w_picked_at w) (sel_token_id sel)).1 with
  | Err l => refused l (sel_org_id sel)
  | Ok _ => if org_over_month_bytes (w_orgs w) (w_month w) (sel_org_id sel) then refused LOrgQuota (sel_org_id sel) else mret tt
  end.

(** *** The cache *)

Definition cache_eligible (sel : SelectedClient) (visitor : option VisitorIdentity) : bool :=
  cache_enabled cfg && sel_cache sel && negb (forward_asked visitor) && request_cacheable (vq_method v) (vq_headers v).

(** One turn of the lookup: [Ok] is a miss. *)
Definition consult (sel : SelectedClient) (c : ResponseCache) : Stage unit :=
  let key := cache_key (vq_host v) (vq_uri_str v) in
  let served hit deeds :=
    let '(_, bytes, resp) := cache_hit_response name_ok hit (vq_headers v) in
    reply (Plain resp) (LookedUp key :: deeds ++ [ServedHit bytes]) in
  match (cache_lookup c (w_picked_at w) key (cache_max_stale cfg * second)).1 with
  | None => reply Panicked [LookedUp key]
  | Some (Fresh hit) => served hit []
  | Some (StaleRevalidate hit lead) =>
      served hit (if lead then [Revalidating (sel_id sel) (sel_service_name sel) (vq_uri_str v) (reval_headers (vq_headers v))] else [])
  | Some Miss => (Ok tt, [LookedUp key])
  end.

(** A follower waits once for the request that leads, and looks again. *)
Definition from_cache (sel : SelectedClient) (visitor : option VisitorIdentity) : Stage unit :=
  if cache_eligible sel visitor then
    _ ← consult sel (w_cache w);
    match w_following w with
    | None => mret tt
    | Some c => consult sel c
    end
  else mret tt.

(** *** The body *)

Definition too_large : string := "413 Payload Too Large - Request body size exceeds limit".

Definition body_limit (sel : SelectedClient) : Z := effective_body_limit (max_body_size cfg) (sel_max_request_body sel).

(** The bytes read, or the stream kept for the pump. *)
Definition read_body (sel : SelectedClient) : Stage (str * option (list (result str str))) :=
  if match content_length (vq_headers v) with Some l => body_limit sel <? l | None => false end
  then turned_away 413 too_large (sel_org_id sel)
  else if stream_request (vq_headers v) then mret ([], Some (vq_body v))
  else match to_bytes (body_limit sel) (vq_body v) [] with
       | None => turned_away 413 too_large (sel_org_id sel)
       | Some bytes =>
           if has_waf sites_now
              && is_some (waf_body is_match sites_now (vq_host v) (vq_method v) (vq_path v) (vq_headers v) (len bytes))
           then turned_away 413 "413 Payload Too Large - Blocked by WAF" (sel_org_id sel)
           else mret (bytes, None)
       end.

Definition capture_of (hs : headers) (bytes : str) (stream : option (list (result str str))) : Capture :=
  match stream with
  | Some _ => {| cp_headers := hs; cp_body := None; cp_truncated := true |}
  | None =>
      if str_eqb bytes [] then {| cp_headers := hs; cp_body := None; cp_truncated := false |}
      else if CAPTURE_BODY_LIMIT <? len bytes
      then {| cp_headers := hs; cp_body := Some (b64_encode (take (Z.to_nat CAPTURE_BODY_LIMIT) bytes)); cp_truncated := true |}
      else {| cp_headers := hs; cp_body := Some (b64_encode bytes); cp_truncated := false |}
  end.

Definition attempt_of (sel : SelectedClient) (visitor : option VisitorIdentity) (bytes : str) (stream : option (list (result str str))) :
    Attempt :=
  let consumed := match visitor with Some i => vi_consumed_authorization i | None => false end in
  let hs := serialized_headers cfg sites_now (vq_host v) (vq_path v) (carried_identity_names (g_policy (w_gate w))) consumed
              (vq_trace v) (vq_headers v) in
  {| at_method := vq_method v; at_uri := vq_uri_str v; at_path := vq_path v; at_ip := vq_ip v; at_host := vq_host v;
     at_canary := canary_side; at_visitor := visitor; at_body := bytes; at_body_limit := body_limit sel; at_stream := stream;
     at_headers := hs; at_cache_eligible := cache_eligible sel visitor; at_cache_key := cache_key (vq_host v) (vq_uri_str v);
     at_capture := capture_of hs bytes stream; at_adopted := adopted_request_id cfg (vq_headers v) |}.

(** *** The whole path *)

(** The gates, in the code's order. *)
Definition gates_passed : Stage (SelectedClient * option VisitorIdentity) :=
  _ ← admit_ip;
  held ← first_asking;
  _ ← await_route (bool_decide (held = None));
  visitor ← second_asking held;
  _ ← take_slot (w_slot w);
  _ ← firewall;
  _ ← admit_route;
  st ← cold_start;
  sel ← choose_client st visitor;
  _ ← admit_tenant sel;
  _ ← from_cache sel visitor;
  mret (sel, visitor).

Definition prepared : Stage (SelectedClient * Attempt) :=
  sv ← gates_passed;
  body ← read_body sv.1;
  mret (sv.1, attempt_of sv.1 sv.2 body.1 body.2).

(** [None]: the dispatch loop is still running. *)
Definition proxy_http_request : option Reply * list Deed :=
  match prepared with
  | (Err r, deeds) => (Some r, deeds)
  | (Ok (sel, a), deeds) =>
      let '(r, effs) := attempt_run name_ok b64_encode b64_decode cfg sites_now a sel (w_turns w) in
      (Plain <$> r, deeds ++ Began (len (at_body a)) :: (InLoop <$> effs))
  end.

(** ** Nothing of a tenant's without every gate *)

(** A deed that shows or asks something of the service behind the route. *)
Definition reaches_tenant (d : Deed) : bool :=
  match d with InLoop e => is_dispatch e | Revalidating _ _ _ _ | ServedHit _ => true | _ => false end.

Definition quiet {A} (m : Stage A) : Prop := Forall (fun d => reaches_tenant d = false) m.2.

Lemma bind_Ok {A B} (k : A → Stage B) m y deeds :
  mbind k m = (Ok y, deeds) → ∃ x d1 d2, m = (Ok x, d1) ∧ k x = (Ok y, d2) ∧ deeds = d1 ++ d2.
Proof.
  destruct m as [[x|r] d1]; unfold mbind, stage_bind; [|done]. destruct (k x) as [r d2] eqn:E. intros [= -> <-].
  exists x, d1, d2. done.
Qed.

Lemma quiet_bind {A B} (k : A → Stage B) m : quiet m → (∀ x, quiet (k x)) → quiet (mbind k m).
Proof.
  unfold quiet, mbind, stage_bind. destruct m as [[x|r] d1]; simpl; [|done]. intros H1 H2. specialize (H2 x).
  destruct (k x) as [r d2]. simpl in *. by apply Forall_app.
Qed.

Lemma quiet_ret {A} (x : A) : quiet (mret x).
Proof. constructor. Qed.

(** A deed of a bind is of its first half, or of the second after the first passed. *)
Lemma bind_deed {A B} (k : A → Stage B) m d :
  d ∈ (mbind k m).2 → d ∈ m.2 ∨ ∃ x d1, m = (Ok x, d1) ∧ d ∈ (k x).2.
Proof.
  unfold mbind, stage_bind. destruct m as [[x|r] d1]; simpl; [|by left]. destruct (k x) as [r d2] eqn:E. simpl.
  rewrite elem_of_app. intros [H1|H2]; [by left|]. right. exists x, d1. split; [done|by rewrite E].
Qed.

Lemma quiet_deed {A} (m : Stage A) d : quiet m → d ∈ m.2 → reaches_tenant d = true → False.
Proof. intros Hq Hin Hd. unfold quiet in Hq. rewrite Forall_forall in Hq. by rewrite (Hq d Hin) in Hd. Qed.

Lemma quiet_refused {A} l org : quiet (refused (A := A) l org).
Proof. repeat constructor. Qed.

Lemma quiet_or_stale m : quiet m → quiet (or_stale m).
Proof.
  unfold or_stale. intros Hm. destruct (stale_cache_response _ _ _ _ _ _ _ _).1 as [[resp|]|]; [repeat constructor| |repeat constructor].
  destruct m as [r deeds]. by constructor.
Qed.

Lemma quiet_await b : quiet (await_route b).
Proof.
  unfold await_route. destruct (should_wait b); [|apply quiet_ret]. case_match; [apply quiet_ret|].
  apply quiet_or_stale. repeat constructor.
Qed.

Lemma quiet_second held : quiet (second_asking held).
Proof.
  unfold second_asking. destruct held; [apply quiet_ret|]. destruct (gate_of _ _ _); [apply quiet_ret|constructor|].
  apply quiet_bind; [|intros; apply quiet_ret]. apply quiet_or_stale. constructor.
Qed.

Lemma quiet_choose st visitor : quiet (choose_client st visitor).
Proof.
  unfold choose_client. destruct (pick_proxy_client _ _ _ _ _ _ _ _) as [[sel| |[redirect|]] st']; [repeat constructor| |repeat constructor..].
  assert (Hu : quiet (unclaimed visitor)).
  { unfold unclaimed. assert (∀ r d, Forall (fun d => reaches_tenant d = false) d → quiet (A := unit) (reply r d)) as Hr by done.
    destruct (forward_asked visitor); [|apply quiet_or_stale]; destruct (fallback_for _ _); apply Hr; repeat constructor. }
  destruct (unclaimed visitor) as [r deeds]. by constructor.
Qed.

(** What a request has passed when its client is chosen. *)
Record passed (visitor : option VisitorIdentity) (sel : SelectedClient) : Prop := {
  ps_rate : (check_rate_limit (w_buckets w) (vq_ip v) (w_now w) (w_ip_max w) (w_ip_refill w)).1 = true;
  ps_gate : gate_of (w_gate w) (w_now w) (vq_method v) = Allow visitor
            ∨ gate_of (w_gate w) (w_now w) (vq_method v) = Undeclared
              ∧ gate_of (w_gate_again w) (w_now_again w) (vq_method v) = Allow visitor;
  ps_slot : w_slot w = true;
  ps_waf : waf_deny is_match sites_now (vq_host v) (vq_method v) (vq_path v) (vq_headers v) = None;
  ps_route : (check_route_rate_limit (w_route_buckets w) route_limit (w_now w)).1 = true;
  ps_pick : ∃ st, (st = w_table w ∨ st = w_table_woken w)
            ∧ (pick_proxy_client st (w_picked_at w) (vq_path v) (vq_host v) (ReqClient <$> (visitor ≫= vi_forward_client_id))
                 (affinity_of st) (Some (vq_ip v)) canary_side).1 = Selected sel;
  ps_token : (check_token_limits (w_tokens w) (w_token_rates w) (w_daily w) (w_today w) (w_picked_at w) (sel_token_id sel)).1 = Ok tt;
  ps_org : org_over_month_bytes (w_orgs w) (w_month w) (sel_org_id sel) = false;
}.

Lemma no_waf_no_rule : has_waf sites_now = false → waf_deny is_match sites_now (vq_host v) (vq_method v) (vq_path v) (vq_headers v) = None.
Proof.
  intros Hn. unfold waf_deny, matching. assert (Hc : concat (s_waf <$> filter (fun s => site_matches (vq_host v) (vq_path v) s = true) sites_now) = []).
  { revert Hn. unfold has_waf. induction sites_now as [|s l IH]; [done|]. simpl. intros Hn. apply orb_false_iff in Hn as [H1 H2].
    rewrite filter_cons. apply negb_false_iff, bool_decide_eq_true in H1.
    destruct (decide _); [rewrite fmap_cons; simpl; rewrite (nil_length_inv _ H1)|]; by apply IH. }
  by rewrite Hc.
Qed.

(** The gates before the cache, in one stage. *)
Definition before_cache : Stage (SelectedClient * option VisitorIdentity) :=
  _ ← admit_ip;
  held ← first_asking;
  _ ← await_route (bool_decide (held = None));
  visitor ← second_asking held;
  _ ← take_slot (w_slot w);
  _ ← firewall;
  _ ← admit_route;
  st ← cold_start;
  sel ← choose_client st visitor;
  _ ← admit_tenant sel;
  mret (sel, visitor).

Lemma stage_assoc {A B C} (m : Stage A) (f : A → Stage B) (g : B → Stage C) :
  mbind g (mbind f m) = mbind (fun x => mbind g (f x)) m.
Proof.
  unfold mbind, stage_bind. destruct m as [[x|r] d1]; [|done]. destruct (f x) as [[y|r] d2]; [|done].
  destruct (g y) as [r d3]. by rewrite app_assoc.
Qed.

Lemma stage_ret_l {A B} (x : A) (k : A → Stage B) : mbind k (mret x) = k x.
Proof. unfold mbind, stage_bind, mret, stage_ret. by destruct (k x). Qed.

Lemma stage_ext {A B} (m : Stage A) (f g : A → Stage B) : (∀ x, f x = g x) → mbind f m = mbind g m.
Proof. intros Hf. unfold mbind, stage_bind. destruct m as [[x|r] d]; [|done]. by rewrite Hf. Qed.

Lemma gates_split : gates_passed = (sv ← before_cache; _ ← from_cache sv.1 sv.2; mret sv).
Proof.
  unfold gates_passed, before_cache.
  repeat (rewrite stage_assoc; apply stage_ext; intros ?). by rewrite stage_ret_l.
Qed.

Lemma quiet_before_cache : quiet before_cache.
Proof.
  unfold before_cache. apply quiet_bind; [unfold admit_ip; case_match; [apply quiet_ret|apply quiet_refused]|intros _].
  apply quiet_bind; [unfold first_asking; destruct (gate_of _ _ _); [apply quiet_ret|constructor|apply quiet_ret]|intros held].
  apply quiet_bind; [apply quiet_await|intros _]. apply quiet_bind; [apply quiet_second|intros visitor].
  assert (Hslot : ∀ b, quiet (take_slot b)) by (intros []; [apply quiet_ret|apply quiet_refused]).
  apply quiet_bind; [apply Hslot|intros _].
  apply quiet_bind; [unfold firewall; case_match; [repeat constructor|apply quiet_ret]|intros _].
  apply quiet_bind; [unfold admit_route; case_match; [apply quiet_ret|apply quiet_refused]|intros _].
  apply quiet_bind; [unfold cold_start; case_match; [apply quiet_bind; [apply Hslot|intros; apply quiet_ret]|apply quiet_ret]|intros st].
  apply quiet_bind; [apply quiet_choose|intros sel].
  apply quiet_bind; [|intros; apply quiet_ret]. unfold admit_tenant. destruct (check_token_limits _ _ _ _ _ _).1; [case_match|];
    try apply quiet_refused; apply quiet_ret.
Qed.

Lemma before_cache_passed sel visitor deeds : before_cache = (Ok (sel, visitor), deeds) → passed visitor sel.
Proof.
  unfold before_cache. intros E.
  apply bind_Ok in E as ([] & ? & ? & Eip & E & _). apply bind_Ok in E as (held & ? & ? & Egate & E & _).
  apply bind_Ok in E as ([] & ? & ? & _ & E & _). apply bind_Ok in E as (vis & ? & ? & Esec & E & _).
  apply bind_Ok in E as ([] & ? & ? & Eslot & E & _). apply bind_Ok in E as ([] & ? & ? & Ewaf & E & _).
  apply bind_Ok in E as ([] & ? & ? & Erate & E & _). apply bind_Ok in E as (st & ? & ? & Ecold & E & _).
  apply bind_Ok in E as (sel0 & ? & ? & Epick & E & _). apply bind_Ok in E as ([] & ? & ? & Eten & E & _).
  injection E as -> -> _. split.
  - unfold admit_ip in Eip. by destruct (check_rate_limit _ _ _ _ _).1.
  - unfold first_asking in Egate. destruct (gate_of (w_gate w) _ _) as [who|r|]; [|done|].
    + left. injection Egate as <- _. by injection Esec as <- _.
    + right. split; [done|]. injection Egate as <- _. unfold second_asking in Esec.
      destruct (gate_of (w_gate_again w) _ _) as [who|r|]; [by injection Esec as <- _|done|].
      apply bind_Ok in Esec as (? & ? & ? & Es & _). unfold or_stale in Es.
      by destruct (stale_cache_response _ _ _ _ _ _ _ _).1 as [[resp|]|].
  - by destruct (w_slot w).
  - unfold firewall in Ewaf. destruct (has_waf sites_now) eqn:Ew; [|by apply no_waf_no_rule]. simpl in Ewaf.
    by destruct (waf_deny _ _ _ _ _ _).
  - unfold admit_route in Erate. by destruct (check_route_rate_limit _ _ _).1.
  - exists st. split.
    + unfold cold_start in Ecold. destruct (scaling_enabled cfg && _); [|left; by injection Ecold as <- _]. right.
      apply bind_Ok in Ecold as (? & ? & ? & _ & Ec & _). by injection Ec as <- _.
    + unfold choose_client in Epick. destruct (pick_proxy_client _ _ _ _ _ _ _ _) as [[sel1| |[redirect|]] st']; [|..|done|done].
      * injection Epick as -> _. done.
      * destruct (unclaimed _) as [[u|e] d]; done.
  - unfold admit_tenant in Eten. by destruct (check_token_limits _ _ _ _ _ _).1 as [[]|].
  - unfold admit_tenant in Eten. destruct (check_token_limits _ _ _ _ _ _).1; [|done]. by destruct (org_over_month_bytes _ _ _).
Qed.

Lemma quiet_read sel : quiet (read_body sel).
Proof.
  unfold read_body. destruct (match content_length _ with Some l => _ | None => _ end); [repeat constructor|].
  destruct (stream_request _); [apply quiet_ret|]. destruct (to_bytes _ _ _); [|repeat constructor].
  destruct (has_waf _ && _); [repeat constructor|apply quiet_ret].
Qed.

Lemma to_bytes_len limit chunks acc bytes :
  to_bytes limit chunks acc = Some bytes → len acc <= Z.max 0 limit → len bytes <= Z.max 0 limit.
Proof.
  revert acc. induction chunks as [|[b|e] chunks IH]; intros acc; simpl; [by intros [= ->]| |done].
  destruct (Z.ltb_spec limit (len (acc ++ b))); [done|]. intros Hb _. apply (IH _ Hb). lia.
Qed.

Lemma read_body_spec sel bytes stream d :
  read_body sel = (Ok (bytes, stream), d) →
  len bytes <= Z.max 0 (body_limit sel) ∧ (stream = None →
    waf_body is_match sites_now (vq_host v) (vq_method v) (vq_path v) (vq_headers v) (len bytes) = None ∨ has_waf sites_now = false).
Proof.
  unfold read_body. destruct (match content_length _ with Some l => _ | None => _ end); [done|]. destruct (stream_request _).
  - intros E. injection E as <- <- _. split; [|done]. change (len []) with 0. lia.
  - destruct (to_bytes _ _ _) as [b|] eqn:Eb; [|done]. destruct (has_waf sites_now) eqn:Ew; simpl.
    + destruct (waf_body _ _ _ _ _ _ _) eqn:Ewb; [done|]. intros E. injection E as <- <- _. split; [|by left].
      apply (to_bytes_len _ _ _ _ Eb). change (len []) with 0. lia.
    + intros E. injection E as <- <- _. split; [|by right]. apply (to_bytes_len _ _ _ _ Eb). change (len []) with 0. lia.
Qed.

(** The copy kept for an outage is the one answer that may come before a service is
    chosen: it is looked for only once the rate and the first asking of the gate are
    past. *)
Lemma outage_needs_rate_and_gate key :
  LookedForOutage key ∈ proxy_http_request.2 →
  (check_rate_limit (w_buckets w) (vq_ip v) (w_now w) (w_ip_max w) (w_ip_refill w)).1 = true
  ∧ ∀ r, gate_of (w_gate w) (w_now w) (vq_method v) ≠ Deny r.
Proof.
  intros Hin. destruct (check_rate_limit (w_buckets w) (vq_ip v) (w_now w) (w_ip_max w) (w_ip_refill w)).1 eqn:Er.
  - split; [done|]. intros r Hg. revert Hin. unfold proxy_http_request, prepared, gates_passed, admit_ip, first_asking. rewrite Er, Hg.
    cbn. intros []%elem_of_nil.
  - revert Hin. unfold proxy_http_request, prepared, gates_passed, admit_ip. rewrite Er. cbn. rewrite !elem_of_cons, elem_of_nil. naive_solver.
Qed.

(** C3: no service is asked, and none's cached page is shown while it can be chosen,
    without every gate. A message to a client, a fetch from a target, the cached answer
    of the service a request was given to and the refresh of one all happen only for a
    request whose address was within its rate, whom the visitor gate let in, that held a
    slot, that no firewall rule denies, within the route's rate, for which routing
    selected that service, and within the limits of its token and its organization; what
    is sent is a body within the limit of the service and of the server, for the visitor
    the gate named. The copy kept for an outage, which a request may get when no service
    can be chosen, is not one of these: it is looked for only within the rate and after a
    gate that did not refuse. *)
Theorem service_needs_every_gate d :
  d ∈ (proxy_http_request).2 →
  (reaches_tenant d = true →
   ∃ visitor sel, passed visitor sel
   ∧ ∀ client e body, d = InLoop (Sent client e body) →
      len body <= Z.max 0 (body_limit sel)
      ∧ ∃ sel', ev_headers e = dispatch_headers cfg sel' visitor (correlation_id cfg (adopted_request_id cfg (vq_headers v)) (ev_id e))
                  (at_headers (attempt_of sel visitor body None)))
  ∧ (∀ key, d = LookedForOutage key →
     (check_rate_limit (w_buckets w) (vq_ip v) (w_now w) (w_ip_max w) (w_ip_refill w)).1 = true
     ∧ ∀ r, gate_of (w_gate w) (w_now w) (vq_method v) ≠ Deny r).
Proof.
  intros Hin. split; [|intros key ->; by apply (outage_needs_rate_and_gate key)]. revert Hin. unfold proxy_http_request. intros Hin Hd.
  assert (Hgate : d ∈ prepared.2 → ∃ visitor sel, passed visitor sel ∧ ∀ client e body, d ≠ InLoop (Sent client e body)).
  { intros H1. unfold prepared in H1. apply bind_deed in H1 as [H1|(sv & d1 & Eg & H1)].
    - rewrite gates_split in H1. apply bind_deed in H1 as [H1|([sel vis] & d1 & Eb & H1)].
      + by destruct (quiet_deed _ _ quiet_before_cache H1).
      + exists vis, sel. split; [by eapply before_cache_passed|]. intros client e body ->.
        assert (Hc : ∀ c, InLoop (Sent client e body) ∉ (consult sel c).2).
        { intros c. unfold consult. destruct (cache_lookup _ _ _ _).1 as [[hit|hit lead|]|]; [| | |];
            try destruct (cache_hit_response _ _ _) as [[? ?] ?]; try destruct lead; simpl; rewrite ?elem_of_cons, ?elem_of_nil; naive_solver. }
        apply bind_deed in H1 as [H1|(? & ? & _ & H1)]; [|by apply elem_of_nil in H1]. unfold from_cache in H1.
        destruct (cache_eligible _ _); [|by apply elem_of_nil in H1]. apply bind_deed in H1 as [H1|(? & ? & _ & H1)]; [by apply Hc in H1|].
        destruct (w_following w); [by apply Hc in H1|by apply elem_of_nil in H1].
    - apply bind_deed in H1 as [H1|(? & ? & _ & H1)]; [by destruct (quiet_deed _ _ (quiet_read _) H1)|by apply elem_of_nil in H1]. }
  destruct prepared as [[[sel a]|r] deeds] eqn:Ep.
  - destruct (attempt_run _ _ _ _ _ _ _ _) as [r effs] eqn:Er. simpl in Hin. rewrite elem_of_app, elem_of_cons in Hin.
    destruct Hin as [Hin|[->|Hin]]; [|done|].
    { destruct (Hgate Hin) as (vis & s & Hp & Hn). exists vis, s. split; [done|]. intros client e body E. by destruct (Hn _ _ _ E). }
    unfold prepared in Ep. apply bind_Ok in Ep as ([sel0 vis] & ? & ? & Eg & Ep & _).
    apply bind_Ok in Ep as ([bytes stream] & ? & ? & Erb & Ep & _). injection Ep as -> Ea _. simpl in Ea.
    rewrite gates_split in Eg. apply bind_Ok in Eg as (sv & ? & ? & Eb & Eg & _). apply bind_Ok in Eg as (? & ? & ? & _ & Eg & _).
    injection Eg as -> _. exists vis, sel. split; [by eapply before_cache_passed|]. intros client e body ->.
    apply list_elem_of_fmap in Hin as (e0 & [= <-] & Hin). pose proof (run_sent name_ok b64_encode b64_decode cfg sites_now a sel 0 None (w_turns w)
      client e body) as Hs. unfold attempt_run in Er. rewrite Er in Hs. destruct (Hs Hin) as (sel' & t & _ & _ & -> & -> & _).
    subst a. apply read_body_spec in Erb as [Hl _]. split; [exact Hl|]. exists sel'. done.
  - destruct (Hgate Hin) as (vis & s & Hp & Hn). exists vis, s. split; [done|]. intros client e body E. by destruct (Hn _ _ _ E).
Qed.

(** ** A fenced route and an unclaimed one *)

(** The stages before the pick: the table it sees and the visitor. *)
Definition before_pick : Stage (route_state * option VisitorIdentity) :=
  _ ← admit_ip;
  held ← first_asking;
  _ ← await_route (bool_decide (held = None));
  visitor ← second_asking held;
  _ ← take_slot (w_slot w);
  _ ← firewall;
  _ ← admit_route;
  st ← cold_start;
  mret (st, visitor).

Lemma gates_from_pick :
  gates_passed = (sv ← before_pick;
                  sel ← choose_client sv.1 sv.2; _ ← admit_tenant sel; _ ← from_cache sel sv.2; mret (sel, sv.2)).
Proof.
  unfold gates_passed, before_pick.
  do 8 (rewrite stage_assoc; apply stage_ext; intros ?). by rewrite stage_ret_l.
Qed.

Lemma ends_at_pick st visitor d r more :
  before_pick = (Ok (st, visitor), d) → choose_client st visitor = (Err r, more) → proxy_http_request = (Some r, d ++ more).
Proof.
  intros Hb Hc. unfold proxy_http_request, prepared. rewrite gates_from_pick, Hb.
  unfold mbind, stage_bind. cbn [fst snd]. by rewrite Hc.
Qed.

(** The pick a request makes on a table. *)
Definition pick_of (st : route_state) (visitor : option VisitorIdentity) : PickOutcome :=
  (pick_proxy_client st (w_picked_at w) (vq_path v) (vq_host v) (ReqClient <$> (visitor ≫= vi_forward_client_id))
     (affinity_of st) (Some (vq_ip v)) canary_side).1.

(** A visitor every service turns away learns nothing. Past the gates, where every
    service of the route refuses the visitor's address and none redirects it, the
    answer is the one of an address at which nothing is published, whatever the
    cache holds and wherever the site falls back to; an address that nothing
    serves, holds a cached copy of or falls back for has the same answer. (A
    service that redirects its refusals answers with that redirect, and an
    unserved address with a fallback or a copy in the cache with those.) *)
Theorem fenced_looks_unpublished st visitor d :
  before_pick = (Ok (st, visitor), d) →
  (pick_of st visitor = PickDenied None → proxy_http_request.1 = Some (Plain not_published)
     ∧ Forall (fun x => reaches_tenant x = false ∧ x ≠ LookedForOutage (cache_key (vq_host v) (vq_uri_str v)))
         (drop (length d) proxy_http_request.2))
  ∧ (pick_of st visitor = NoRoute → fallback_for sites_now (vq_host v) = None →
     (stale_cache_response name_ok cfg (w_now w) (vq_method v) (vq_uri_str v) (vq_headers v) (vq_host v) (w_outage w)).1 = Some None →
     proxy_http_request.1 = Some (Plain not_published)).
Proof.
  intros Hb. unfold pick_of. split.
  - intros Hp. assert (Hc : ∃ rr, choose_client st visitor = (Err (Plain not_published), [InLoop (Picked rr); InLoop (LogFailure 504 None)])).
    { unfold choose_client. destruct (pick_proxy_client _ _ _ _ _ _ _ _) as [o st']. simpl in Hp. subst o. by eexists. }
    destruct Hc as [rr Hc]. rewrite (ends_at_pick _ _ _ _ _ Hb Hc). split; [done|]. simpl. rewrite drop_app_length. by repeat constructor.
  - intros Hp Hf Hs. assert (Hc : ∃ more, choose_client st visitor = (Err (Plain not_published), more)).
    { unfold choose_client. destruct (pick_proxy_client _ _ _ _ _ _ _ _) as [o st']. simpl in Hp. subst o.
      unfold unclaimed. rewrite Hf. destruct (forward_asked visitor); [by eexists|]. unfold or_stale. rewrite Hs. by eexists. }
    destruct Hc as [more Hc]. by rewrite (ends_at_pick _ _ _ _ _ Hb Hc).
Qed.
End Forward.

(** ** The handler *)

(** What the handler of every proxied address does with a request. *)
Inductive Entry : Type :=
| AnswerNow (r : VisitorResponse)
| ToUpgrade (hs : headers) (ip : ipaddr)
| ToForward (hs : headers) (ip : ipaddr).

Record EntryConfig : Type := {
  en_trust_proxy : bool;
  en_real_ip_header : option str;
  en_trusted : list (ipaddr * Z);
  en_dashboard : bool;
}.

(** An HTTP/2 request names its host in the authority alone. *)
Definition mirrored (hs : headers) (uri : Uri) : headers :=
  if is_some (header_get (bs "host") hs) || str_eqb (u_authority uri) [] || negb (forallb header_char_ok (u_authority uri)) then hs
  else hs ++ [(bs "host", u_authority uri)].

Definition robots_response : VisitorResponse :=
  {| vr_status := 200; vr_headers := [(bs "content-type", bs "text/plain"); (bs "x-robots-tag", bs "noindex, nofollow")];
     vr_body := Whole (bs "User-agent: *" ++ newline ++ bs "Disallow: /" ++ newline) |}.

Definition welcome_response : VisitorResponse :=
  {| vr_status := 307; vr_headers := [(bs "location", bs "/aperio")]; vr_body := Whole [] |}.

(** [window] is the scheduled maintenance the sites have for the host, [flags] the
    raised ones, [first_run] that no client is connected and nothing was ever proxied. *)
Definition proxy_handler {F Regex Tz} (rfc3339 : Z → str) (status_ok : Z → bool) (cfg : ProxyConfig) (en : EntryConfig)
    (sites : list (Site F Regex Tz)) (window : option (option str * Z)) (flags : list (str * MaintenanceFlag)) (first_run : bool)
    (now : Z) (method : str) (uri : Uri) (hs : headers) (peer : ipaddr) : Entry :=
  let hs := mirrored hs uri in
  let ip := extract_client_ip hs peer (en_trust_proxy en) (en_real_ip_header en) (en_trusted en) in
  let host := extract_request_host hs in
  match maintenance_for window flags now host with
  | Some flag => AnswerNow (maintenance_response rfc3339 sites now host flag)
  | None =>
      match site_answer status_ok (forallb header_char_ok) sites host (u_path uri) (u_query uri) with
      | Some answer => AnswerNow (whole_response answer)
      | None =>
          if is_preview cfg host && str_eqb (u_path uri) (bs "/robots.txt") then AnswerNow robots_response
          else if en_dashboard en && str_eqb method (bs "GET") && str_eqb (u_path uri) (bs "/") && first_run
          then AnswerNow welcome_response
          else if is_websocket_upgrade method hs then ToUpgrade hs ip
          else ToForward hs ip
      end
  end.

(** maintenance wins over everything. While a window or a flag covers the host
    of a request, every request for it, a WebSocket upgrade included, is answered
    503 with a Retry-After, before any site, client or gate is asked. *)
Theorem maintenance_wins {F Regex Tz} rfc3339 status_ok cfg en (sites : list (Site F Regex Tz)) window flags first_run now method uri hs peer flag :
  maintenance_for window flags now (extract_request_host (mirrored hs uri)) = Some flag →
  ∃ r, proxy_handler rfc3339 status_ok cfg en sites window flags first_run now method uri hs peer = AnswerNow r
  ∧ vr_status r = 503
  ∧ Headers.values (bs "retry-after") (vr_headers r) = [show_uint (default 300 (retry_after flag now))].
Proof.
  intros Hm. unfold proxy_handler. rewrite Hm. eexists. split; [done|]. unfold maintenance_response.
  by destruct (page_503 _ _).
Qed.

(** ** Worked inputs *)

Module ForwardSamples.
Import ExchangeSamples DispatchSamples.

(** A service for one address, on a table and off it. *)
Definition fenced_service : ServiceState :=
  let s := sample_service None (bs "web") in
  {| request_count := request_count s; declared_path := declared_path s; assigned_path := assigned_path s;
     declared_hostname := declared_hostname s; declared_hostnames := declared_hostnames s; assigned_hostnames := assigned_hostnames s;
     random_hostname := random_hostname s; max_concurrent := max_concurrent s; max_concurrent_ceiling := max_concurrent_ceiling s;
     inflight_limiter := inflight_limiter s; admin_enabled := admin_enabled s; server_side_target := server_side_target s;
     server_side_refused := server_side_refused s; policy_conflict := policy_conflict s; catch_all := catch_all s;
     serves_http := serves_http s; route_noticed := route_noticed s; capture := capture s; connections := connections s;
     connections_min := connections_min s; connections_max := connections_max s; config_notes := config_notes s;
     metrics_labels := metrics_labels s; tcp_enabled := tcp_enabled s; backend_healthy := backend_healthy s;
     backend_probed := backend_probed s; priority := priority s; bandwidth_bps := bandwidth_bps s; service_name := service_name s;
     service_custom_name := service_custom_name s; public := public s; public_denied_warned := public_denied_warned s;
     visitor_auth := visitor_auth s; visitor_auth_policy := visitor_auth_policy s;
     visitor_auth_denied_warned := visitor_auth_denied_warned s; ungated_warned := ungated_warned s;
     allowed_ips := [bs "10.0.0.1"]; allowed_ips_invalid_warned := allowed_ips_invalid_warned s;
     scaling_invalid_warned := scaling_invalid_warned s; tunnels := tunnels s; cache := true;
     cache_ignored_warned := cache_ignored_warned s; notices_sent := notices_sent s; resilience := true;
     max_request_body := max_request_body s; response_timeout := response_timeout s; webhook_inbox := webhook_inbox s;
     denied := denied s; recent_failures := recent_failures s; ejected_until := ejected_until s |}.

Definition table (cs : client_map) : route_state :=
  {| clients := cs; client_down_threshold := 30; lb_strategy := RoundRobin; path_rr := [] |}.
Definition fenced : route_state := table [(bs "c1", sample_connection [fenced_service])].
Definition empty : route_state := table [].

Definition gate_state (policy : Policy) (sites : list (Site QArith_base.Q str unit)) (st : route_state) : GateState QArith_base.Q str unit :=
  {| g_auth := {| a_sessions := {| sessions := []; rows := [] |}; a_users := bob_store; a_keys := []; a_secure_cookies := false;
                  a_fenced_login := false; a_fences := []; a_clients := [] |};
     g_route := st; g_sites := sites; g_policy := policy; g_deny := false; g_token := bs "master" |}.

(** The copy of a page of the fenced service. *)
Definition kept_page : ResponseCache :=
  (Cache.insert sample_digest empty_cache 5 (bs "acme.com|/secret") 200 [] (bs "for 10.0.0.1 only") (10 * second) 1000 true 0 []).2.

Definition world (policy : Policy) (sites : list (Site QArith_base.Q str unit)) (st : route_state) (turns : list Turn) : World QArith_base.Q str unit :=
  {| w_gate := gate_state policy sites st; w_now := 10; w_buckets := []; w_ip_max := QArith_base.inject_Z 5; w_ip_refill := QArith_base.inject_Z 1;
     w_last_disconnect := Some 9; w_waits := [(st, 10)]; w_woken := (st, 10); w_gate_again := gate_state policy sites st; w_now_again := 10;
     w_outage := kept_page; w_slot := true; w_slot_again := true; w_route_buckets := []; w_table := st; w_table_woken := st;
     w_picked_at := 10; w_tokens := []; w_token_rates := []; w_daily := []; w_today := []; w_orgs := []; w_month := None;
     w_cache := empty_cache; w_following := None; w_turns := turns |}.

Definition visit (path : str) (hs : headers) : Visit :=
  {| vq_method := bs "GET"; vq_headers := (bs "host", bs "acme.com") :: hs; vq_uri := {| u_authority := []; u_path := path; u_query := None |};
     vq_ip := V4 16909060; vq_trace := []; vq_body := []; vq_id := bs "v1" |}.

Definition serve (ask : ForwardConfig → Verdict) (v : Visit) (w : World QArith_base.Q str unit) : option Reply * list Deed :=
  proxy_http_request id_hash any_uuid (fun k m => k ++ m) (fun s => s) (fun _ => None) sh_host (fun _ => None) (fun _ _ => None) ask
    (fun _ => (VDeny [], None)) (fun _ => true) (fun s => s) Some (fun _ _ => false) cfg v w.

Definition closed_door : ForwardConfig → Verdict := fun _ => VDeny [].

Definition plain_world : World QArith_base.Q str unit := world [] [] Select.sample_state two_turns.

Lemma service_needs_every_gate_witness :
  ∃ d, d ∈ (serve closed_door (visit (bs "/api/v1") []) plain_world).2 ∧ reaches_tenant d = true ∧ w_slot plain_world = true.
Proof.
  assert (Hin : ∃ d, d ∈ (serve closed_door (visit (bs "/api/v1") []) plain_world).2 ∧ reaches_tenant d = true)
    by (apply existsb_Exists; vm_compute; reflexivity).
  destruct Hin as (d & Hin & Hd). exists d. split_and!; [exact Hin|exact Hd|].
  destruct (service_needs_every_gate id_hash any_uuid (fun k m => k ++ m) (fun s => s) (fun _ => None) sh_host (fun _ => None)
              (fun _ _ => None) closed_door (fun _ => (VDeny [], None)) (fun _ => true) (fun s => s) Some (fun _ _ => false) cfg
              (visit (bs "/api/v1") []) plain_world d Hin) as [Hpass _]; destruct (Hpass Hd) as (visitor & sel & Hp & _).
  by destruct Hp.
Defined.

Lemma fenced_looks_unpublished_witness :
  (serve closed_door (visit (bs "/secret") []) (world [] [] fenced [])).1 = Some (Plain (text_response 504 NOT_PUBLISHED)).
Proof.
  pose (v := visit (bs "/secret") []). pose (w := world [] [] fenced []).
  destruct (before_pick id_hash any_uuid (fun k m => k ++ m) (fun s => s) (fun _ => None) sh_host (fun _ => None)
              (fun _ _ => None) closed_door (fun _ => (VDeny [], None)) (fun _ => true) (fun _ _ => false) cfg v w)
    as [[[st visitor]|r] d] eqn:E; [|vm_compute in E; discriminate].
  refine (proj1 (proj1 (fenced_looks_unpublished id_hash any_uuid (fun k m => k ++ m) (fun s => s) (fun _ => None) sh_host (fun _ => None)
    (fun _ _ => None) closed_door (fun _ => (VDeny [], None)) (fun _ => true) (fun s => s) Some (fun _ _ => false) cfg v w st visitor d E) _)).
  vm_compute in E. injection E as <- <- _. vm_compute. reflexivity.
Defined.

(** A visitor outside the service's address list: while its client is connected
    the route looks unpublished, and once the client is gone the same visitor is
    served the page from the outage cache. *)
Example outage_serves_the_fenced_page :
  (serve closed_door (visit (bs "/secret") []) (world [] [] fenced [])).1 = Some (Plain (text_response 504 NOT_PUBLISHED))
  ∧ match (serve closed_door (visit (bs "/secret") []) (world [] [] empty [])).1 with
    | Some (Plain r) => (vr_status r, vr_body r) = (200, Whole (bs "for 10.0.0.1 only"))
    | _ => False
    end.
Proof. vm_compute. done. Qed.

(** An endpoint that names its visitors, behind the server and behind a site. *)
Definition endpoint : ForwardConfig :=
  {| fw_url := bs "http://auth"; fw_request_headers := []; fw_response_headers := [bs "X-Auth-User"]; fw_timeout := 5; fw_cache := 0;
     fw_via_client := false |}.
Definition says_bob : ForwardConfig → Verdict := fun _ => VAllow [(bs "x-auth-user", bs "bob")].
Definition gated_site : Site QArith_base.Q str unit :=
  {| s_hostname := bs "acme.com"; s_path := None; s_access := Some (SiteGate [MForward endpoint]); s_answer := None; s_timeout := None;
     s_headers := None; s_rate_limit := None; s_canary := None; s_waf := []; s_fallback := None; s_page_504 := None;
     s_page_503 := None; s_maintenance := []; s_rank := (0, 0) |}.

Definition named_to_backend (w : World QArith_base.Q str unit) : list (list str) :=
  omap (fun d => match d with InLoop (Sent _ e _) => Some (Headers.values (bs "x-auth-user") (ev_headers e)) | _ => None end)
    (serve says_bob (visit (bs "/api/v1") [(bs "x-auth-user", bs "admin")]) w).2.

(** The visitor's own copy of the name an endpoint answers under is dropped when
    the server's gate asks the endpoint, and reaches the backend first when a
    site's gate asks the very same one. *)
Example site_endpoint_spoofed :
  carried_identity_names [MForward endpoint] = [bs "x-auth-user"] ∧
  named_to_backend (world [] [gated_site] Select.sample_state [turn "r1" (Answered page) Select.sample_state]) = [[bs "admin"; bs "bob"]].
Proof. vm_compute. done. Qed.

Lemma maintenance_wins_witness :
  ∃ r, proxy_handler (fun _ => []) (fun _ => true) cfg {| en_trust_proxy := false; en_real_ip_header := None; en_trusted := []; en_dashboard := true |}
         no_sites None [(bs "*", {| mf_org := None; mf_reason := None; mf_until := None; mf_since := 0; mf_actor := [] |})] false 5
         (bs "GET") {| u_authority := []; u_path := bs "/"; u_query := None |} [] (V4 1) = AnswerNow r ∧ vr_status r = 503.
Proof.
  destruct (maintenance_wins (fun _ => []) (fun _ => true) cfg {| en_trust_proxy := false; en_real_ip_header := None; en_trusted := []; en_dashboard := true |}
    no_sites None [(bs "*", {| mf_org := None; mf_reason := None; mf_until := None; mf_since := 0; mf_actor := [] |})] false 5
    (bs "GET") {| u_authority := []; u_path := bs "/"; u_query := None |} [] (V4 1)
    {| mf_org := None; mf_reason := None; mf_until := None; mf_since := 0; mf_actor := [] |} eq_refl) as (r & Hr & Hs & _).
  by exists r.
Defined.

End ForwardSamples.
