(* ===== verification/WsProxy.v ===== *)
(** WebSocket upgrades of visitors, [aperio-server/src/proxy/ws.rs], and the splice
    of [proxy/ws_server_side.rs]: the gates of an upgrade, its registration with
    the tunnel, what each way of failing leaves behind, and the frames relayed.

    The stages are those of [Forward] where the code shares them; what the upgrade
    finds is in the same [World]. The extraction of the upgrade from the request,
    the dial to a target and the URL parser are the environment's. *)

From S2P Require Import Prelude Utf8 Binds Frames IpNet ClientIp VisitorAuth Clients Select Route Canary Cache RateLimit StreamFlow Declare SiteRules Sites Limits Grants Users Sessions Share Gate Exchange Dispatch Forward.

(** ** Relaying *)

Inductive PublicFrame : Type :=
| PText (t : str)
| PBinary (b : str)
| PClose (frame : option (Z * str))
| PPing
| PPong
| PError.

Inductive TunnelFrame : Type :=
| TWsData (stream_id data : str) (is_text : bool)
| TWsBinary (frame : str)
| TWsClose (stream_id : str) (code : Z) (reason : str).

(** [relay_frame] for a WebSocket: raw, or base64 in JSON for an id no frame can name. *)
Definition ws_binary (b64_encode : str → str) (id bytes : str) : TunnelFrame :=
  match encode_binary_frame FRAME_WS_DATA_BIN id bytes with
  | Some frame => TWsBinary frame
  | None => TWsData id (b64_encode bytes) false
  end.

Definition close_of (id : str) (frame : option (Z * str)) : TunnelFrame :=
  match frame with Some (code, reason) => TWsClose id code reason | None => TWsClose id 1000 [] end.

(** One public frame as the tunnel carries it; [None] for what the server answers itself. *)
Definition to_tunnel (b64_encode : str → str) (id : str) (m : PublicFrame) : option TunnelFrame :=
  match m with
  | PText t => Some (TWsData id t true)
  | PBinary b => Some (ws_binary b64_encode id b)
  | PClose frame => Some (close_of id frame)
  | PPing | PPong | PError => None
  end.

(** The reading task: [sends] says which sends the tunnel took. A last close
    follows however the loop ended. *)
Fixpoint ws_to_tunnel (b64_encode : str → str) (id : str) (msgs : list PublicFrame) (sends : list bool) : list TunnelFrame :=
  match msgs with
  | [] => [TWsClose id 1000 []]
  | PError :: _ => [TWsClose id 1000 []]
  | m :: rest =>
      match to_tunnel b64_encode id m with
      | None => ws_to_tunnel b64_encode id rest sends
      | Some out =>
          match sends with
          | true :: sends => out :: ws_to_tunnel b64_encode id rest sends
          | _ => [TWsClose id 1000 []]
          end
      end
  end.

(** The writing task: what reaches the visitor, until the relay closes or a send fails. *)
Fixpoint ws_writer (items : list WsStreamMessage) (sends : list bool) : list (option message) :=
  match items with
  | [] => []
  | WsClose :: _ => [None]
  | WsData m :: rest =>
      match sends with
      | true :: sends => Some m :: ws_writer rest sends
      | _ => []
      end
  end.

(** ** The upgrade *)

Inductive WsDeed : Type :=
| WDid (d : Deed)
| WCounted (client : str)
| WRegistered (id client : str)
| WPendingGone (id : str)
| WStreamGone (id : str)
| WSentUpgrade (client : str) (service : option str) (method uri : str) (hs : headers) (id : str)
| WSentClose (client id : str)
| WSpliced (target uri : str).

Inductive WsReply : Type :=
| WReply (r : Reply)
| WFailed (status : Z)
| WUpgraded (id : str)
| WUpgradedTo (target : str).

(** What the rest of the world answers an upgrade. *)
Record WsWorld : Type := {
  ww_slot : bool;
  ww_connected : bool;
  ww_reconnected : bool;
  ww_id : str;
  ww_sent : bool;
  ww_outcome : Outcome;
  ww_accepts : bool;
  ww_dialed : bool;
}.

Section Upgrade.
Context (sha256 : str → str) (uuid_ok : str → bool).
Context (hmac : str → str → str) (encode : str → str) (decode : str → option str).
Context (to_json : ShareClaims → str) (of_json : str → option ShareClaims).
Context (jwt_verify : JwtConfig → str → option (option str)).
Context (ask : ForwardConfig → Verdict) (ask_over_tunnel : ForwardConfig → Verdict * option str).
Context {F Regex Tz : Type} `{Float F}.
Context (v : Visit) (w : World F Regex Tz) (ww : WsWorld).

#[local] Abbreviation gate st now m := (gate_of sha256 uuid_ok hmac encode decode to_json of_json jwt_verify ask ask_over_tunnel v st now m).

Definition ws_slot : Stage unit :=
  if ww_slot ww then mret tt else turned_away 503 "503 Service Unavailable - WebSocket connection limit reached" None.

(** An upgrade is never a navigation, and has no second asking. *)
Definition ws_gate : Stage (option VisitorIdentity) :=
  match gate (w_gate w) (w_now w) (bs "CONNECT") with
  | Deny r => reply (FromGate r) []
  | Undeclared => reply (Plain (not_published v w)) []
  | Allow who => mret who
  end.

Definition ws_wait : Stage unit :=
  if ww_connected ww || ww_reconnected ww then mret tt else reply (Plain (not_published v w)) [InLoop (LogFailure 504 None)].

Definition ws_choose (visitor : option VisitorIdentity) : Stage SelectedClient :=
  let st := w_table w in
  let '(outcome, st') := pick_proxy_client st (w_picked_at w) (vq_path v) (vq_host v)
                           (ReqClient <$> (visitor ≫= vi_forward_client_id)) (affinity_of v st) (Some (vq_ip v)) None in
  let rotated := InLoop (Picked (path_rr st')) in
  match outcome with
  | Selected sel => (Ok sel, [rotated])
  | PickDenied (Some redirect) => reply (Plain (found redirect)) [rotated; InLoop (LogFailure 302 None)]
  | PickDenied None | NoRoute => reply (Plain (not_published v w)) [rotated; InLoop (LogFailure 504 None)]
  end.

Definition ws_gates : Stage (SelectedClient * option VisitorIdentity) :=
  _ ← admit_ip v w;
  _ ← ws_slot;
  visitor ← ws_gate;
  _ ← ws_wait;
  sel ← ws_choose visitor;
  mret (sel, visitor).

(** The headers of the upgrade, by the rules of a request. *)
Definition ws_headers (visitor : option VisitorIdentity) : headers :=
  let consumed := match visitor with Some i => vi_consumed_authorization i | None => false end in
  omap (map_header (carried_identity_names (g_policy (w_gate w))) consumed false None) (vq_headers v).

(** The upgrade after its gates: the reply and what was done, in order. *)
Definition ws_dispatch (sel : SelectedClient) (visitor : option VisitorIdentity) : WsReply * list WsDeed :=
  let id := ww_id ww in
  match sel_server_side_target sel with
  | Some target =>
      if negb (ww_dialed ww) then (WFailed 502, [WDid (InLoop (LogFailure 502 (sel_org_id sel)))])
      else if ww_accepts ww then (WUpgradedTo target, [WCounted (sel_id sel); WSpliced target (vq_uri_str v)])
      else (WFailed 400, [])
  | None =>
      let start := [WCounted (sel_id sel); WRegistered id (sel_id sel)] in
      let failed status := WDid (InLoop (LogFailure status (sel_org_id sel))) in
      if negb (ww_sent ww) then (WFailed 502, start ++ [WPendingGone id; WStreamGone id; failed 502])
      else
        let start := start ++ [WSentUpgrade (sel_id sel) (sel_service_name sel) (vq_method v) (vq_uri_str v) (ws_headers visitor) id] in
        match ww_outcome ww with
        | TimedOut => (WFailed 504, start ++ [WPendingGone id; WStreamGone id; failed 504])
        | Lost => (WFailed 502, start ++ [WStreamGone id; failed 502; WPendingGone id])
        | Answered r =>
            if negb (tr_status r =? 101)
            then (WFailed (if (100 <=? tr_status r) && (tr_status r <=? 999) then tr_status r else 502),
                  start ++ [WStreamGone id; failed (tr_status r); WPendingGone id])
            else if ww_accepts ww then (WUpgraded id, start ++ [WPendingGone id])
            else (WFailed 400, start ++ [WSentClose (sel_id sel) id; WStreamGone id; failed 400; WPendingGone id])
        end
  end.

Definition handle_ws_proxy : WsReply * list WsDeed :=
  match ws_gates with
  | (Err r, deeds) => (WReply r, WDid <$> deeds)
  | (Ok (sel, visitor), deeds) => let '(r, more) := ws_dispatch sel visitor in (r, (WDid <$> deeds) ++ more)
  end.

(** ** What an upgrade promises *)

(** The two tables an upgrade writes. *)
Definition ws_perform (s : gset str * gset str) (d : WsDeed) : gset str * gset str :=
  match d with
  | WRegistered id _ => ({[id]} ∪ s.1, {[id]} ∪ s.2)
  | WPendingGone id => (s.1 ∖ {[id]}, s.2)
  | WStreamGone id => (s.1, s.2 ∖ {[id]})
  | _ => s
  end.

Definition reaches_backend (d : WsDeed) : bool :=
  match d with WRegistered _ _ | WSentUpgrade _ _ _ _ _ _ | WSpliced _ _ => true | WDid d => reaches_tenant d | _ => false end.

Lemma quiet_gates : quiet ws_gates.
Proof.
  unfold ws_gates. apply quiet_bind; [unfold admit_ip; case_match; [apply quiet_ret|apply quiet_refused]|intros _].
  apply quiet_bind; [unfold ws_slot; case_match; [apply quiet_ret|repeat constructor]|intros _].
  apply quiet_bind; [unfold ws_gate; destruct (gate _ _ _); [apply quiet_ret|constructor|constructor]|intros vis].
  apply quiet_bind; [unfold ws_wait; case_match; [apply quiet_ret|repeat constructor]|intros _].
  apply quiet_bind; [|intros; apply quiet_ret]. unfold ws_choose.
  destruct (pick_proxy_client _ _ _ _ _ _ _ _) as [[sel| |[redirect|]] st']; repeat constructor.
Qed.

Lemma performed_dids s deeds : fold_left ws_perform (WDid <$> deeds) s = s.
Proof. induction deeds as [|d deeds IH]; [done|]. exact IH. Qed.

(** an upgrade reaches a backend only through its gates, and leaves no trace
    when it fails. A socket is asked of a client or of a target only for an address
    within its rate, under the ceiling on live sockets, let in by the visitor gate
    as something that cannot be sent to a login page, and on a service routing
    selected for it; a client is told the visitor's headers without Aperio's own;
    and unless the upgrade succeeded, the tables of pending upgrades and of relays
    are as they were. *)
Theorem upgrade_gated_and_settled (s : gset str * gset str) :
  ww_id ww ∉ s.1 → ww_id ww ∉ s.2 →
  (∀ d, d ∈ handle_ws_proxy.2 → reaches_backend d = true →
     (check_rate_limit (w_buckets w) (vq_ip v) (w_now w) (w_ip_max w) (w_ip_refill w)).1 = true ∧ ww_slot ww = true
     ∧ ∃ visitor sel, gate (w_gate w) (w_now w) (bs "CONNECT") = Allow visitor
     ∧ (pick_proxy_client (w_table w) (w_picked_at w) (vq_path v) (vq_host v) (ReqClient <$> (visitor ≫= vi_forward_client_id))
          (affinity_of v (w_table w)) (Some (vq_ip v)) None).1 = Selected sel
     ∧ ∀ client service m u hs id, d = WSentUpgrade client service m u hs id →
         client = sel_id sel ∧ ∀ kv, kv ∈ hs → ∃ v0, (kv.1, v0) ∈ vq_headers v
           ∧ starts_with (bs "x-aperio-") (lower kv.1) = false
           ∧ kv.2 = (if str_eqb kv.1 (bs "cookie") then cookies_without_aperios v0 else v0))
  ∧ (match handle_ws_proxy.1 with WUpgraded _ => fold_left ws_perform handle_ws_proxy.2 s = (s.1, {[ww_id ww]} ∪ s.2)
     | _ => fold_left ws_perform handle_ws_proxy.2 s = s end).
Proof.
  intros H1 H2. unfold handle_ws_proxy. destruct ws_gates as [[[sel vis]|r] deeds] eqn:Eg.
  - assert (Hq : ∀ d, d ∈ WDid <$> deeds → reaches_backend d = true → False).
    { intros d Hin Hd. apply list_elem_of_fmap in Hin as (x & -> & Hx). apply (quiet_deed ws_gates x quiet_gates); [by rewrite Eg|done]. }
    unfold ws_gates in Eg. apply bind_Ok in Eg as ([] & ? & ? & Eip & Eg & _). apply bind_Ok in Eg as ([] & ? & ? & Eslot & Eg & _).
    apply bind_Ok in Eg as (vis' & ? & ? & Egate & Eg & _). apply bind_Ok in Eg as ([] & ? & ? & _ & Eg & _).
    apply bind_Ok in Eg as (sel' & ? & ? & Epick & Eg & _). injection Eg as -> -> _.
    destruct (ws_dispatch sel vis) as [r more] eqn:Ed. split.
    + intros d Hin Hd. cbn [snd] in Hin. rewrite elem_of_app in Hin. destruct Hin as [Hin|Hin]; [by destruct (Hq d Hin Hd)|].
      split; [unfold admit_ip in Eip; by destruct (check_rate_limit _ _ _ _ _).1|].
      split; [unfold ws_slot in Eslot; by destruct (ww_slot ww)|]. exists vis, sel.
      split; [unfold ws_gate in Egate; destruct (gate _ _ _) as [who|gr|]; [by injection Egate as -> _|done|done]|].
      split; [unfold ws_choose in Epick; destruct (pick_proxy_client _ _ _ _ _ _ _ _) as [[y| |[redirect|]] st'];
              [by injection Epick as -> _|done|done|done]|].
      intros client service m u hs id ->.
      assert (Hs : client = sel_id sel ∧ hs = ws_headers vis).
      { unfold ws_dispatch in Ed. repeat case_match; injection Ed as _ <-; rewrite ?elem_of_app, ?elem_of_cons, ?elem_of_nil in Hin; naive_solver. }
      destruct Hs as [-> ->]. split; [done|]. intros kv Hkv. unfold ws_headers in Hkv.
      apply list_elem_of_omap in Hkv as ([k v0] & Hin' & Hm). apply map_header_Some in Hm as (E1 & Ha & _ & E2). simpl in *.
      exists v0. rewrite E1. split_and!; [done| |done].
      destruct (starts_with (bs "x-aperio-") (lower k)) eqn:Es; [|done]. by rewrite (aperio_prefix k Es k) in Ha.
    + unfold ws_dispatch in Ed. repeat case_match; simplify_eq; simpl; rewrite ?fold_left_app, performed_dids; simpl; destruct s as [s1 s2]; simpl in *;
        f_equal; set_solver.
  - split.
    + intros d Hin Hd. exfalso. apply list_elem_of_fmap in Hin as (x & -> & Hx). apply (quiet_deed ws_gates x quiet_gates); [by rewrite Eg|done].
    + simpl. apply performed_dids.
Qed.
End Upgrade.

(** ** The relay *)

Lemma ws_to_tunnel_prefix b64_encode id msgs sends :
  ∃ k, ws_to_tunnel b64_encode id msgs sends = take k (omap (to_tunnel b64_encode id) msgs) ++ [TWsClose id 1000 []].
Proof.
  revert sends. induction msgs as [|m msgs IH]; intros sends; [by exists 0%nat|].
  assert (Hstop : ∃ k, [TWsClose id 1000 []] = take k (omap (to_tunnel b64_encode id) (m :: msgs)) ++ [TWsClose id 1000 []]) by (by exists 0%nat).
  destruct m; simpl; try exact Hstop; try apply IH;
    (destruct sends as [|[] sends]; [exact Hstop| |exact Hstop]; destruct (IH sends) as [k ->]; by exists (S k)).
Qed.

Lemma ws_to_tunnel_all b64_encode id msgs n :
  PError ∉ msgs → (length msgs <= n)%nat →
  ws_to_tunnel b64_encode id msgs (replicate n true) = omap (to_tunnel b64_encode id) msgs ++ [TWsClose id 1000 []].
Proof.
  revert n. induction msgs as [|m msgs IH]; intros n Hne Hn; [done|]. apply not_elem_of_cons in Hne as [Hm Hne]. simpl in Hn.
  destruct m; simpl; try done; try (apply IH; [done|lia]); (destruct n as [|n]; [lia|]; simpl; rewrite IH; [done|done|lia]).
Qed.

(** a relayed socket says what was said, in order. Whatever the tunnel takes,
    the client is given a prefix of the visitor's frames, in order and each as
    sent, and then always a close; when the tunnel takes everything and the socket
    does not fail it is given all of them; and a binary frame decodes to its
    stream and its very bytes. *)
Theorem ws_relay_faithful b64_encode id msgs sends :
  (∃ k, ws_to_tunnel b64_encode id msgs sends = take k (omap (to_tunnel b64_encode id) msgs) ++ [TWsClose id 1000 []])
  ∧ (∀ n, PError ∉ msgs → (length msgs <= n)%nat →
       ws_to_tunnel b64_encode id msgs (replicate n true) = omap (to_tunnel b64_encode id) msgs ++ [TWsClose id 1000 []])
  ∧ (∀ b, utf8_valid id = true → len id <= u8_max → ∃ frame, to_tunnel b64_encode id (PBinary b) = Some (TWsBinary frame)
       ∧ decode_binary_frame frame = Some (FRAME_WS_DATA_BIN, id, b)).
Proof.
  split_and!; [apply ws_to_tunnel_prefix|apply ws_to_tunnel_all|].
  intros b Hu Hl. simpl. unfold ws_binary. destruct (encode_binary_frame FRAME_WS_DATA_BIN id b) as [frame|] eqn:E.
  - exists frame. split; [done|]. by eapply decode_encoded_frame.
  - unfold encode_binary_frame in E. by rewrite (proj2 (Z.ltb_ge _ _)) in E.
Qed.

(** ** Worked inputs *)

Module WsSamples.
Import ExchangeSamples DispatchSamples ForwardSamples.

Definition upgraded : WsWorld :=
  {| ww_slot := true; ww_connected := true; ww_reconnected := false; ww_id := bs "s1"; ww_sent := true;
     ww_outcome := Answered {| tr_status := 101; tr_headers := []; tr_body := None; tr_body_raw := None; tr_trailers := None; tr_stream := None |};
     ww_accepts := true; ww_dialed := true |}.

Definition upgrade (w : World QArith_base.Q str unit) (ww : WsWorld) : WsReply * list WsDeed :=
  handle_ws_proxy id_hash any_uuid (fun k m => k ++ m) (fun s => s) (fun _ => None) sh_host (fun _ => None) (fun _ _ => None) closed_door
    (fun _ => (VDeny [], None)) (visit (bs "/api/v1") []) w ww.

Lemma upgrade_gated_and_settled_witness : fold_left ws_perform (upgrade plain_world upgraded).2 (∅, ∅) = (∅, {[ bs "s1" ]} ∪ ∅).
Proof.
  exact (proj2 (upgrade_gated_and_settled id_hash any_uuid (fun k m => k ++ m) (fun s => s) (fun _ => None) sh_host (fun _ => None)
    (fun _ _ => None) closed_door (fun _ => (VDeny [], None)) (visit (bs "/api/v1") []) plain_world upgraded (∅, ∅)
    ltac:(apply not_elem_of_empty) ltac:(apply not_elem_of_empty))).
Defined.

Lemma ws_relay_faithful_witness :
  ws_to_tunnel (fun s => s) (bs "s1") [PText (bs "hi"); PPing; PClose None] (replicate 3 true)
  = [TWsData (bs "s1") (bs "hi") true; TWsClose (bs "s1") 1000 []; TWsClose (bs "s1") 1000 []].
Proof.
  rewrite (proj1 (proj2 (ws_relay_faithful (fun s => s) (bs "s1") [PText (bs "hi"); PPing; PClose None] [])) 3%nat);
    [reflexivity|rewrite !elem_of_cons, elem_of_nil; naive_solver|simpl; lia].
Defined.

(** A site whose firewall denies GET below its host. *)
Definition no_gets : Waf.WafRule str :=
  {| Waf.w_path := None; Waf.w_methods := Some [bs "GET"]; Waf.w_header := None; Waf.w_max_body := None; Waf.w_desc_path := None;
     Waf.w_desc_at := 0; Waf.w_desc_site := bs "acme.com" |}.
Definition walled_site : Site QArith_base.Q str unit :=
  {| s_hostname := bs "acme.com"; s_path := None; s_access := None; s_answer := None; s_timeout := None; s_headers := None;
     s_rate_limit := None; s_canary := None; s_waf := [no_gets]; s_fallback := None; s_page_504 := None; s_page_503 := None;
     s_maintenance := []; s_rank := (0, 0) |}.
Definition walled_world : World QArith_base.Q str unit := world [] [walled_site] Select.sample_state two_turns.

Definition is_upgrade (d : WsDeed) : bool := match d with WSentUpgrade _ _ _ _ _ _ => true | _ => false end.

(** A rule that denies a request does not hold for an upgrade of the same address:
    the upgrade of a GET the firewall refuses is sent to the client. *)
Example upgrade_skips_the_firewall :
  match (serve closed_door (visit (bs "/api/v1") []) walled_world).1 with Some (Plain r) => vr_status r = 403 | _ => False end
  ∧ existsb is_upgrade (upgrade walled_world upgraded).2 = true.
Proof. vm_compute. done. Qed.

End WsSamples.
