(* ===== verification/Names.v ===== *)
(** Names and addresses of raw tunnels: the shared functions of
    [aperio-config/src/lib.rs] ([slug], [tunnel_name],
    [looks_like_client_id]) and the [<org>@<name>] spelling of
    [aperio-config/src/expose.rs].

    A character is its code point, decoded from the UTF-8 the string holds. *)

From S2P Require Import Prelude Utf8 Clients Tunnel.

(** [str::chars] of valid UTF-8. *)
Fixpoint chars (s : str) : list Z :=
  match s with
  | [] => []
  | a :: s1 =>
      if is_ascii a then code a :: chars s1
      else match s1 with
           | [] => []
           | b :: s2 =>
               if lead2 a then (code a - 192) * 64 + (code b - 128) :: chars s2
               else match s2 with
                    | [] => []
                    | c :: s3 =>
                        if lead3 a
                        then ((code a - 224) * 64 + (code b - 128)) * 64 + (code c - 128) :: chars s3
                        else match s3 with
                             | [] => []
                             | d :: s4 =>
                                 (((code a - 240) * 64 + (code b - 128)) * 64 + (code c - 128)) * 64 + (code d - 128)
                                 :: chars s4
                             end
                    end
           end
  end.

Definition in_range (lo hi ch : Z) : bool := (lo <=? ch) && (ch <=? hi).

(** [ch.to_lowercase().next()], where the answer is an ASCII letter or digit or
    one of the letters [fold_latin] reads: the capitals of ASCII, of Latin-1 and
    of Latin Extended-A, the dotted capital I, the Kelvin and Angstrom signs and
    the capital sharp s. No other character has such a lower case, and [slug]
    writes all the others alike. *)
Definition lower_first (ch : Z) : Z :=
  if in_range 65 90 ch then ch + 32
  else if in_range 192 222 ch && negb (ch =? 215) then ch + 32
  else if ch =? 304 then 105
  else if in_range 256 311 ch || in_range 330 375 ch then if Z.even ch then ch + 1 else ch
  else if in_range 313 328 ch || in_range 377 382 ch then if Z.odd ch then ch + 1 else ch
  else if ch =? 376 then 255
  else if ch =? 7838 then 223
  else if ch =? 8490 then 107
  else if ch =? 8491 then 229
  else ch.

Definition one_of (ch : Z) (l : list Z) : bool := existsb (Z.eqb ch) l.

Definition fold_latin (ch : Z) : option str :=
  if one_of ch [225; 224; 226; 228; 227; 229; 257] then Some (bs "a")
  else if one_of ch [231; 263; 269] then Some (bs "c")
  else if one_of ch [233; 232; 234; 235; 275] then Some (bs "e")
  else if one_of ch [287; 285] then Some (bs "g")
  else if one_of ch [237; 236; 238; 239; 299; 305] then Some (bs "i")
  else if one_of ch [241; 324] then Some (bs "n")
  else if one_of ch [243; 242; 244; 246; 245; 248; 333] then Some (bs "o")
  else if one_of ch [347; 353; 351] then Some (bs "s")
  else if one_of ch [250; 249; 251; 252; 363] then Some (bs "u")
  else if one_of ch [253; 255] then Some (bs "y")
  else if one_of ch [378; 380; 382] then Some (bs "z")
  else if ch =? 223 then Some (bs "ss")
  else if ch =? 230 then Some (bs "ae")
  else if ch =? 339 then Some (bs "oe")
  else None.

Definition underscore : ascii := "_"%char.

Definition slug_char (out : str) (ch : Z) : str :=
  let low := lower_first ch in
  if in_range 97 122 low || in_range 65 90 low || in_range 48 57 low then out ++ [chr low]
  else match fold_latin low with
       | Some folded => out ++ folded
       | None => if ends_with [underscore] out then out else out ++ [underscore]
       end.

Definition slug (raw : str) : str :=
  let out := fold_left slug_char (chars (trim raw)) [] in
  let out := trim_matches_char underscore out in
  if bool_decide (out = []) then bs "unnamed" else take (Z.to_nat MAX_NAME_LEN) out.

Definition tunnel_name (name : option str) (target protocol : str) : str :=
  let named := match name with Some n => if bool_decide (trim n = []) then None else Some (trim n) | None => None end in
  match named with
  | Some n => n
  | None => slug (target ++ bs " " ++ lower (trim protocol))
  end.

Definition is_hexdigit (ch : Z) : bool := in_range 48 57 ch || in_range 97 102 ch || in_range 65 70 ch.

Definition id_shape (i : nat) (ch : Z) : bool :=
  if bool_decide (i ∈ [8; 13; 18; 23]%nat) then ch =? 45 else is_hexdigit ch.

Fixpoint all_from (p : nat → Z → bool) (i : nat) (l : list Z) : bool :=
  match l with [] => true | ch :: l' => p i ch && all_from p (S i) l' end.

Definition looks_like_client_id (raw : str) : bool :=
  let s := trim raw in (len s =? 36) && all_from id_shape 0 (chars s).

Definition at_sign : ascii := "@"%char.

Definition split_qualified (raw : str) : option str * str :=
  match split_once at_sign (trim raw) with
  | Some (org, name) => (Some (trim org), trim name)
  | None => (None, trim raw)
  end.

(** [registry::name_of] *)
Definition name_of (decl : TunnelDecl) : str := tunnel_name (td_name decl) (td_target decl) (td_protocol decl).

(** ** A derived name is a name *)

Lemma name_char_spec a : name_char a = true ↔ is_lower a = true ∨ is_digit a = true ∨ a = underscore.
Proof. unfold name_char. rewrite !orb_true_iff, bool_decide_eq_true. unfold underscore. tauto. Qed.

Lemma lower_first_small ch : in_range 65 90 (lower_first ch) = false.
Proof. unfold lower_first, in_range. repeat case_goal; lia. Qed.

Lemma lower_first_name ch :
  let low := lower_first ch in
  (in_range 97 122 low || in_range 65 90 low || in_range 48 57 low) = true → name_char (chr low) = true.
Proof.
  intros low H. subst low. rewrite lower_first_small, orb_false_r in H.
  apply name_char_spec. unfold is_lower, is_digit, in_range in *.
  rewrite code_chr by lia. lia.
Qed.

Lemma fold_latin_name ch s : fold_latin ch = Some s → forallb name_char s = true.
Proof. unfold fold_latin. intros H. repeat case_in H; try discriminate; injection H as <-; reflexivity. Qed.

Lemma slug_char_name out ch : forallb name_char out = true → forallb name_char (slug_char out ch) = true.
Proof.
  intros H. unfold slug_char. repeat case_goal; rewrite ?forallb_app, ?H; simpl; auto.
  - rewrite lower_first_name; auto.
  - eauto using fold_latin_name.
Qed.

Lemma slug_fold_name l out : forallb name_char out = true → forallb name_char (fold_left slug_char l out) = true.
Proof. revert out. induction l as [|ch l IH]; simpl; auto using slug_char_name. Qed.

Lemma name_char_graphic a : name_char a = true → graphic a = true.
Proof.
  rewrite name_char_spec. unfold is_lower, is_digit, graphic, underscore.
  intros [H|[H| ->]]; [lia..|reflexivity].
Qed.

Lemma names_trim s : forallb name_char s = true → trim s = s.
Proof.
  intros H. apply trim_graphic, Forall_forall. intros a Ha.
  apply name_char_graphic. rewrite forallb_forall in H. apply H, list_elem_of_In, Ha.
Qed.

Lemma forallb_incl {A} (p : A → bool) l l' : (∀ a, a ∈ l' → a ∈ l) → forallb p l = true → forallb p l' = true.
Proof. rewrite !forallb_forall. intros Hi H a Ha. apply H, list_elem_of_In, Hi, list_elem_of_In, Ha. Qed.

(** Whatever string a handle is derived from, [slug] gives a name the
    validator accepts: not empty, at most 64 characters, lower case letters,
    digits and underscores only, so a tunnel nobody named can always be
    addressed. *)
Theorem slug_is_a_name raw : validate_name (slug raw) = true ∧ trim (slug raw) = slug raw.
Proof.
  assert (Hc : forallb name_char (slug raw) = true).
  { unfold slug. case_goal; [reflexivity|]. eapply forallb_incl; [|apply (slug_fold_name (chars (trim raw)) []); reflexivity].
    intros a Ha. apply elem_of_take in Ha as (i & Ha & _). apply list_elem_of_lookup_2 in Ha.
    unfold trim_matches_char in Ha. eauto using elem_of_trim_start_by, elem_of_trim_end_by. }
  split; [|by apply names_trim]. unfold validate_name. rewrite names_trim by done. rewrite Hc, andb_true_r.
  apply andb_true_iff. unfold slug. destruct (bool_decide (trim_matches_char _ _ = [])) eqn:E; [by split|].
  to_prop. split.
  - destruct (trim_matches_char _ _); [done|]. reflexivity.
  - unfold len, MAX_NAME_LEN. rewrite length_take. apply Z.leb_le. lia.
Qed.

(** A name never looks like a client id, as the comment of the code says. *)
Lemma chars_ascii s : forallb name_char s = true → chars s = code <$> s.
Proof.
  induction s as [|a s IH]; [done|]. intros H. simpl in H. apply andb_true_iff in H as [Ha H].
  assert (is_ascii a = true) as Hi.
  { apply name_char_graphic in Ha. unfold graphic, is_ascii in *. lia. }
  cbn [chars fmap list_fmap]. rewrite Hi, IH by done. reflexivity.
Qed.

Lemma all_from_lookup p i l n ch : all_from p i l = true → l !! n = Some ch → p (i + n)%nat ch = true.
Proof.
  revert i n. induction l as [|c l IH]; intros i [|n] H E; simplify_eq/=; apply andb_true_iff in H as [H1 H2].
  - by rewrite Nat.add_0_r.
  - rewrite Nat.add_succ_r. apply (IH (S i)); done.
Qed.

(** A name the validator accepts is never mistaken for a client id. *)
Theorem name_is_no_client_id name : validate_name name = true → looks_like_client_id name = false.
Proof.
  intros H. unfold validate_name in H. to_prop. unfold looks_like_client_id.
  destruct (len (trim name) =? 36) eqn:El; [|done]. simpl.
  destruct (all_from _ _ _) eqn:Ea; [|done]. exfalso. rewrite chars_ascii in Ea by done. to_prop.
  destruct (trim name !! 8%nat) as [a|] eqn:E8.
  - pose proof (all_from_lookup _ _ _ 8 (code a) Ea) as Hs.
    rewrite list_lookup_fmap, E8 in Hs. specialize (Hs eq_refl). unfold id_shape in Hs. simpl in Hs. to_prop.
    assert (name_char a = true) as Hn.
    { rewrite forallb_forall in H0. apply H0, list_elem_of_In. eauto using list_elem_of_lookup_2. }
    apply name_char_spec in Hn. unfold is_lower, is_digit in Hn.
    destruct Hn as [Hn|[Hn| ->]]; [lia..|]. vm_compute in Hs. lia.
  - apply lookup_ge_None in E8. unfold len in El. lia.
Qed.

Lemma name_is_no_client_id_witness :
  looks_like_client_id (bs "127_0_0_1_5432_tcp") = false
  ∧ looks_like_client_id (bs "0f1e2d3c-0000-4000-8000-00000000000a") = true
  ∧ name_of {| td_name := Some (bs "  "); td_custom_name := None; td_target := bs "127.0.0.1:5432";
               td_protocol := bs " TCP"; td_encrypt := false; td_idle_timeout := None |} = bs "127_0_0_1_5432_tcp".
Proof. split; [apply name_is_no_client_id; vm_compute; reflexivity|]. vm_compute. auto. Defined.

(** ** Qualified names *)

(** What the dashboard shows, [<org>@<name>], is read back as that
    organization and that name, for any two names. *)
Theorem qualified_roundtrip org name :
  validate_name org = true → validate_name name = true →
  split_qualified (trim org ++ [at_sign] ++ trim name) = (Some (trim org), trim name)
  ∧ split_qualified name = (None, trim name).
Proof.
  intros Ho Hn. unfold validate_name in Ho, Hn. to_prop.
  assert (Hat : ∀ s, forallb name_char s = true → at_sign ∉ s).
  { intros s Hs Hi. rewrite forallb_forall in Hs. apply list_elem_of_In in Hi. by apply Hs in Hi. }
  split; unfold split_qualified.
  - rewrite (trim_graphic (trim org ++ _)).
    + rewrite (proj2 (split_once_Some _ _ (trim org) (trim name))) by auto. by rewrite !trim_idem.
    + rewrite !Forall_app. rewrite forallb_Forall in *.
      repeat split; [|by repeat constructor|]; eapply Forall_impl; eauto using name_char_graphic.
  - rewrite (proj2 (split_once_None _ _)) by auto. reflexivity.
Qed.

Lemma qualified_roundtrip_witness :
  split_qualified (bs "payments@postgres") = (Some (bs "payments"), bs "postgres").
Proof.
  apply (qualified_roundtrip (bs " payments") (bs "postgres")); vm_compute; reflexivity.
Defined.

(** The names of the comments, derived. *)
Example slug_samples :
  slug (bs "Pg-Main") = bs "pg_main" ∧ slug (bs "--") = bs "unnamed"
  ∧ slug [chr 195; chr 135; chr 197; chr 159; "!"%char; "."%char; chr 204; chr 129; "x"%char] = bs "cs_x".
Proof. vm_compute. auto. Qed.
