(* ===== verification/Expose.v ===== *)
(** Public listeners and their allocations: [aperio-config/src/expose.rs] and
    [aperio-config/src/expose_policy.rs].

    A port, a limit and a rate are numbers of the width the code gives them; the
    sums of [fits] saturate at 64 bits as the code's do. *)

From S2P Require Import Prelude Binds IpNet Tunnel Names.

(** ** Data *)

Inductive ExposeProtocol : Type := Tcp | Udp.

#[export] Instance ExposeProtocol_eq_dec : EqDecision ExposeProtocol.
Proof. solve_decision. Defined.

Definition protocol_str (p : ExposeProtocol) : str := match p with Tcp => bs "tcp" | Udp => bs "udp" end.

Record ExposeError : Type := { ee_field : str; ee_message : str }.

Definition new_error (field message : string) : ExposeError := {| ee_field := bs field; ee_message := bs message |}.

Definition show_error (e : ExposeError) : str := ee_field e ++ bs ": " ++ ee_message e.

Record ExposeListener : Type := { el_address : ipaddr; el_port : Z; el_protocol : ExposeProtocol }.

#[export] Instance ExposeListener_eq_dec : EqDecision ExposeListener.
Proof. solve_decision. Defined.

Inductive ExposeLimits : Type :=
| LimitsTcp (max_connections open_timeout_secs drain_timeout_secs ingress egress : Z)
| LimitsUdp (max_sessions max_sessions_per_ip idle_timeout_secs max_datagram_bytes queue_packets queue_bytes
             new_sessions_per_second ingress egress : Z).

#[export] Instance ExposeLimits_eq_dec : EqDecision ExposeLimits.
Proof. solve_decision. Defined.

Record ExposeSpec : Type := {
  es_org_id : str;
  es_tunnel : str;
  es_listener : ExposeListener;
  es_enabled : bool;
  es_limits : ExposeLimits;
  es_allowed_ips : list str;
  es_advertised_host : option str;
}.

#[export] Instance ExposeSpec_eq_dec : EqDecision ExposeSpec.
Proof. solve_decision. Defined.

Inductive ExposeSource : Type := Api.

#[export] Instance ExposeSource_eq_dec : EqDecision ExposeSource.
Proof. solve_decision. Defined.

Record ExposeResource : Type := {
  er_id : str;
  er_revision : Z;
  er_source : ExposeSource;
  er_spec : ExposeSpec;
}.

#[export] Instance ExposeResource_eq_dec : EqDecision ExposeResource.
Proof. solve_decision. Defined.

Inductive ExposeListenerState : Type := Disabled | Binding | Listening | Draining | Suspended | Failed.

#[export] Instance ExposeListenerState_eq_dec : EqDecision ExposeListenerState.
Proof. solve_decision. Defined.

Inductive ExposeTargetState : Type := Waiting | Ready | Unavailable | Incompatible.

#[export] Instance ExposeTargetState_eq_dec : EqDecision ExposeTargetState.
Proof. solve_decision. Defined.

(** [is_unspecified] and [is_multicast] of an address. *)
Definition is_unspecified (ip : ipaddr) : bool := match ip with V4 n | V6 n => n =? 0 end.
Definition is_multicast (ip : ipaddr) : bool :=
  match ip with V4 n => n / 2 ^ 28 =? 14 | V6 n => n / 2 ^ 120 =? 255 end.

Definition conflicts_with (a b : ExposeListener) : bool :=
  if negb (el_port a =? el_port b) || negb (bool_decide (el_protocol a = el_protocol b)) then false
  else match el_address a, el_address b with
       | V4 x, V4 y | V6 x, V6 y => (x =? y) || (x =? 0) || (y =? 0)
       | _, _ => false
       end.

(** ** Limits *)

Definition default_bytes_per_second : Z := 16 * 1024 * 1024.

Definition limits_defaults (p : ExposeProtocol) : ExposeLimits :=
  match p with
  | Tcp => LimitsTcp 256 10 30 default_bytes_per_second default_bytes_per_second
  | Udp => LimitsUdp 1024 32 60 65507 64 262144 64 default_bytes_per_second default_bytes_per_second
  end.

Definition capacity (l : ExposeLimits) : Z :=
  match l with
  | LimitsTcp max_connections _ _ _ _ => max_connections
  | LimitsUdp max_sessions _ _ _ _ _ _ _ _ => max_sessions
  end.

Definition bandwidth (l : ExposeLimits) : Z * Z :=
  match l with
  | LimitsTcp _ _ _ ingress egress | LimitsUdp _ _ _ _ _ _ _ ingress egress => (ingress, egress)
  end.

(** ** Validation *)

(** The message [validate_name] answers, when it refuses. *)
Definition name_error (kind name : str) : option str :=
  let trimmed := trim name in
  if bool_decide (trimmed = []) then Some (bs "a " ++ kind ++ bs " name cannot be empty")
  else if MAX_NAME_LEN <? Z.of_nat (length (chars trimmed)) then
    Some (kind ++ bs " name '" ++ trimmed ++ bs "' is longer than " ++ show_uint MAX_NAME_LEN ++ bs " characters")
  else if forallb name_char trimmed then None
  else Some (kind ++ bs " name '" ++ trimmed ++ bs "' may only contain a-z, 0-9 and _ (write it as '"
             ++ slug trimmed ++ bs "')").

Definition host_label_ok (label : str) : bool :=
  negb (bool_decide (label = [])) && (len label <=? 63) && negb (starts_with (bs "-") label)
  && negb (ends_with (bs "-") label) && forallb (fun b => is_alnum b || bool_decide (b = "-"%char)) label.

Definition advertised_host_ok (host : str) : bool :=
  match parse_ip host with
  | Some ip => negb (is_unspecified ip) && negb (is_multicast ip)
  | None => (len host <=? 253) && forallb host_label_ok (split_on dot host)
  end.

Definition when (b : bool) (e : ExposeError) : list ExposeError := if b then [e] else [].

Definition positive (field : string) (value : Z) : list ExposeError := when (value =? 0) (new_error field "must be positive").

Definition is_mapped (ip : ipaddr) : bool :=
  match ip with V6 n => match to_ipv4_mapped n with Some _ => true | None => false end | V4 _ => false end.

Definition limits_errors (l : ExposeLimits) (p : ExposeProtocol) : list ExposeError :=
  match l with
  | LimitsTcp max_connections open_timeout_secs _ ingress egress =>
      positive "limits.max_connections" max_connections
      ++ positive "limits.open_timeout_secs" open_timeout_secs
      ++ positive "limits.ingress_bytes_per_second" ingress
      ++ positive "limits.egress_bytes_per_second" egress
      ++ when (negb (bool_decide (p = Tcp))) (new_error "limits.protocol" "limits must match listener protocol")
  | LimitsUdp max_sessions max_sessions_per_ip idle_timeout_secs max_datagram_bytes queue_packets queue_bytes
              new_sessions_per_second ingress egress =>
      positive "limits.max_sessions" max_sessions
      ++ positive "limits.max_sessions_per_ip" max_sessions_per_ip
      ++ positive "limits.idle_timeout_secs" idle_timeout_secs
      ++ positive "limits.max_datagram_bytes" max_datagram_bytes
      ++ positive "limits.queue_packets" queue_packets
      ++ positive "limits.queue_bytes" queue_bytes
      ++ positive "limits.new_sessions_per_second" new_sessions_per_second
      ++ positive "limits.ingress_bytes_per_second" ingress
      ++ positive "limits.egress_bytes_per_second" egress
      ++ when (65507 <? max_datagram_bytes) (new_error "limits.max_datagram_bytes" "must not exceed 65507 bytes")
      ++ when (max_sessions <? max_sessions_per_ip)
           (new_error "limits.max_sessions_per_ip" "must not exceed max_sessions")
      ++ when (queue_bytes <? max_datagram_bytes)
           (new_error "limits.queue_bytes" "must hold at least one maximum-sized datagram")
      ++ when (negb (bool_decide (p = Udp))) (new_error "limits.protocol" "limits must match listener protocol")
  end.

(** [format!("allowed_ips[{index}]")] and its like. *)
Definition indexed (name : string) (i : nat) (rest : string) : str :=
  bs name ++ bs "[" ++ show_uint (Z.of_nat i) ++ bs "]" ++ bs rest.

Definition spec_validate (s : ExposeSpec) : list ExposeError :=
  match es_advertised_host s with
  | Some host => when (negb (advertised_host_ok host))
                   (new_error "advertised_host"
                      "expected a visitor DNS name or non-wildcard IP, without scheme or port")
  | None => []
  end
  ++ concat (imap (fun index range =>
       when (match parse_network range with None => true | Some _ => false end)
         {| ee_field := indexed "allowed_ips" index ""; ee_message := bs "expected an IP address or CIDR network" |})
       (es_allowed_ips s))
  ++ when (bool_decide (trim (es_org_id s) = []) || negb (str_eqb (trim (es_org_id s)) (es_org_id s))
           || str_eqb (es_org_id s) (bs "*")) (new_error "org_id" "a concrete organization id is required")
  ++ match name_error (bs "tunnel") (es_tunnel s) with
     | Some e => [{| ee_field := bs "tunnel"; ee_message := e |}]
     | None => []
     end
  ++ when (el_port (es_listener s) =? 0) (new_error "listener.port" "port must be between 1 and 65535")
  ++ when (is_mapped (el_address (es_listener s)))
       (new_error "listener.address" "use an IPv4 address instead of mapped IPv6")
  ++ limits_errors (es_limits s) (el_protocol (es_listener s)).

(** ** Policies *)

Record ExposeAllocation : Type := {
  ea_address : ipaddr;
  ea_protocol : ExposeProtocol;
  ea_first_port : Z;
  ea_last_port : Z;
}.

#[export] Instance ExposeAllocation_eq_dec : EqDecision ExposeAllocation.
Proof. solve_decision. Defined.

Record ExposePolicy : Type := {
  ep_org_id : str;
  ep_revision : Z;
  ep_allocations : list ExposeAllocation;
  ep_reserved : list ExposeListener;
  ep_max_rules : Z;
  ep_max_tcp_connections : Z;
  ep_max_udp_sessions : Z;
  ep_ingress : Z;
  ep_egress : Z;
}.

#[export] Instance ExposePolicy_eq_dec : EqDecision ExposePolicy.
Proof. solve_decision. Defined.

Definition policy_validate (p : ExposePolicy) : list ExposeError :=
  when (bool_decide (ep_org_id p = []) || negb (str_eqb (trim (ep_org_id p)) (ep_org_id p))
        || str_eqb (ep_org_id p) (bs "*")) (new_error "org_id" "a concrete organization id is required")
  ++ concat (imap (fun i a =>
       when ((ea_first_port a =? 0) || (ea_last_port a <? ea_first_port a))
         {| ee_field := indexed "allocations" i ""; ee_message := bs "invalid port range" |}
       ++ when (is_mapped (ea_address a))
         {| ee_field := indexed "allocations" i ".address"; ee_message := bs "use an IPv4 address instead of mapped IPv6" |})
       (ep_allocations p))
  ++ concat (imap (fun i l =>
       when (el_port l =? 0)
         {| ee_field := indexed "reserved" i ".port"; ee_message := bs "port zero cannot be reserved" |})
       (ep_reserved p)).

Definition alloc_covers (a : ExposeAllocation) (l : ExposeListener) : bool :=
  bool_decide (ea_address a = el_address l) && bool_decide (ea_protocol a = el_protocol l)
  && (ea_first_port a <=? el_port l) && (el_port l <=? ea_last_port a).

Definition allows (p : ExposePolicy) (s : ExposeSpec) : bool :=
  str_eqb (es_org_id s) (ep_org_id p)
  && existsb (fun a => alloc_covers a (es_listener s)) (ep_allocations p)
  && negb (existsb (fun r => conflicts_with r (es_listener s)) (ep_reserved p)).

Record Sums : Type := { s_rules : Z; s_tcp : Z; s_udp : Z; s_up : Z; s_down : Z }.

Definition no_sums : Sums := {| s_rules := 0; s_tcp := 0; s_udp := 0; s_up := 0; s_down := 0 |}.

(** One turn of the loop of [fits]; [None] is its early [return false]. *)
Definition fits_turn (p : ExposePolicy) (t : Sums) (s : ExposeSpec) : option Sums :=
  if negb (str_eqb (es_org_id s) (ep_org_id p)) then Some t
  else
    let rules := sat_add64 (s_rules t) 1 in
    if negb (allows p s) then None
    else if negb (es_enabled s) then
      Some {| s_rules := rules; s_tcp := s_tcp t; s_udp := s_udp t; s_up := s_up t; s_down := s_down t |}
    else
      let c := capacity (es_limits s) in
      let '(tcp, udp) := match el_protocol (es_listener s) with
                         | Tcp => (sat_add64 (s_tcp t) c, s_udp t)
                         | Udp => (s_tcp t, sat_add64 (s_udp t) c)
                         end in
      let b := bandwidth (es_limits s) in
      Some {| s_rules := rules; s_tcp := tcp; s_udp := udp;
              s_up := sat_add64 (s_up t) b.1; s_down := sat_add64 (s_down t) b.2 |}.

Fixpoint fits_sums (p : ExposePolicy) (t : Sums) (specs : list ExposeSpec) : option Sums :=
  match specs with
  | [] => Some t
  | s :: specs' => match fits_turn p t s with None => None | Some t => fits_sums p t specs' end
  end.

Definition fits (p : ExposePolicy) (specs : list ExposeSpec) : bool :=
  match fits_sums p no_sums specs with
  | None => false
  | Some t => (s_rules t <=? ep_max_rules p) && (s_tcp t <=? ep_max_tcp_connections p)
              && (s_udp t <=? ep_max_udp_sessions p) && (s_up t <=? ep_ingress p) && (s_down t <=? ep_egress p)
  end.

Definition push_fresh {A} `{EqDecision A} (l : list A) (x : A) : list A :=
  if bool_decide (x ∈ l) then l else l ++ [x].

Definition common_range (a b : ExposeAllocation) : option ExposeAllocation :=
  let first := Z.max (ea_first_port a) (ea_first_port b) in
  let last := Z.min (ea_last_port a) (ea_last_port b) in
  if bool_decide (ea_address a = ea_address b) && bool_decide (ea_protocol a = ea_protocol b) && (first <=? last)
  then Some {| ea_address := ea_address a; ea_protocol := ea_protocol a; ea_first_port := first; ea_last_port := last |}
  else None.

Definition intersection (p q : ExposePolicy) : ExposePolicy :=
  {| ep_org_id := ep_org_id p; ep_revision := 1;
     ep_allocations :=
       fold_left (fun out a =>
         fold_left (fun out b => match common_range a b with Some r => push_fresh out r | None => out end)
           (ep_allocations q) out) (ep_allocations p) [];
     ep_reserved := fold_left push_fresh (ep_reserved q) (ep_reserved p);
     ep_max_rules := Z.min (ep_max_rules p) (ep_max_rules q);
     ep_max_tcp_connections := Z.min (ep_max_tcp_connections p) (ep_max_tcp_connections q);
     ep_max_udp_sessions := Z.min (ep_max_udp_sessions p) (ep_max_udp_sessions q);
     ep_ingress := Z.min (ep_ingress p) (ep_ingress q);
     ep_egress := Z.min (ep_egress p) (ep_egress q) |}.

Definition policy_contains (p child : ExposePolicy) : bool :=
  str_eqb (ep_org_id p) (ep_org_id child)
  && (ep_max_rules child <=? ep_max_rules p)
  && (ep_max_tcp_connections child <=? ep_max_tcp_connections p)
  && (ep_max_udp_sessions child <=? ep_max_udp_sessions p)
  && (ep_ingress child <=? ep_ingress p)
  && (ep_egress child <=? ep_egress p)
  && forallb (fun r => bool_decide (r ∈ ep_reserved child)) (ep_reserved p)
  && forallb (fun c =>
       existsb (fun a => bool_decide (ea_address a = ea_address c) && bool_decide (ea_protocol a = ea_protocol c)
                         && (ea_first_port a <=? ea_first_port c) && (ea_last_port c <=? ea_last_port a))
         (ep_allocations p)) (ep_allocations child).

(** ** Conflicts *)

(** A bound socket takes what is sent to its address, and a wildcard one what is
    sent to any address of its family; IPv6 sockets are opened v6-only. *)
Definition takes (l : ExposeListener) (ip : ipaddr) : bool :=
  match el_address l, ip with
  | V4 x, V4 n | V6 x, V6 n => (x =? n) || (x =? 0)
  | _, _ => false
  end.

(** Two listeners conflict exactly when some visitor's packet would be for
    both: the same transport and port, and a destination address both sockets
    take. *)
Theorem conflict_is_a_shared_destination a b :
  conflicts_with a b = true ↔
  el_port a = el_port b ∧ el_protocol a = el_protocol b
  ∧ ∃ ip, is_unspecified ip = false ∧ takes a ip = true ∧ takes b ip = true.
Proof.
  unfold conflicts_with, takes, is_unspecified. destruct (negb _ || negb _) eqn:E.
  - split; [done|]. intros (Hp & Hq & _). rewrite Hp, Hq, Z.eqb_refl, bool_decide_eq_true_2 in E by done. done.
  - to_prop. split.
    + intros Hc. split_and!; [done..|]. destruct (el_address a) as [x|x], (el_address b) as [y|y]; try done.
      all: destruct (Z.eqb_spec x 0), (Z.eqb_spec y 0).
      1-4: exists (V4 (if y =? 0 then if x =? 0 then 1 else x else y)).
      5-8: exists (V6 (if y =? 0 then if x =? 0 then 1 else x else y)).
      all: repeat case_goal; lia.
    + intros (_ & _ & ip & Hn & Ha & Hb).
      destruct (el_address a) as [x|x], (el_address b) as [y|y], ip as [n|n]; try done; lia.
Qed.

Lemma conflicts_sym a b : conflicts_with a b = conflicts_with b a.
Proof.
  unfold conflicts_with. rewrite (Z.eqb_sym (el_port b)).
  replace (bool_decide (el_protocol b = el_protocol a)) with (bool_decide (el_protocol a = el_protocol b))
    by (apply bool_decide_ext; naive_solver).
  destruct (_ || _); [done|]. destruct (el_address a) as [x|x], (el_address b) as [y|y]; try done.
  all: rewrite (Z.eqb_sym y x); destruct (x =? y), (x =? 0), (y =? 0); reflexivity.
Qed.

(** ** What a policy allows *)

Lemma alloc_covers_spec a l :
  alloc_covers a l = true ↔
  ea_address a = el_address l ∧ ea_protocol a = el_protocol l ∧ ea_first_port a <= el_port l <= ea_last_port a.
Proof. unfold alloc_covers. rewrite !andb_true_iff, !bool_decide_eq_true, !Z.leb_le. tauto. Qed.

Lemma allows_spec p s :
  allows p s = true ↔
  es_org_id s = ep_org_id p ∧ (∃ a, a ∈ ep_allocations p ∧ alloc_covers a (es_listener s) = true)
  ∧ ∀ r, r ∈ ep_reserved p → conflicts_with r (es_listener s) = false.
Proof.
  unfold allows. rewrite !andb_true_iff, negb_true_iff, str_eqb_eq, existsb_Exists, existsb_false, Forall_forall.
  naive_solver.
Qed.

Lemma elem_of_push_fresh {A} `{EqDecision A} (l : list A) x y : y ∈ push_fresh l x ↔ y ∈ l ∨ y = x.
Proof. unfold push_fresh. case_bool_decide; set_solver. Qed.

Lemma elem_of_pushes {A B} `{EqDecision A} (f : B → option A) (l : list B) (out : list A) y :
  y ∈ fold_left (fun out b => match f b with Some r => push_fresh out r | None => out end) l out ↔
  y ∈ out ∨ ∃ b, b ∈ l ∧ f b = Some y.
Proof.
  revert out. induction l as [|b l IH]; intros out; simpl.
  - set_solver.
  - rewrite IH. destruct (f b) eqn:E; rewrite ?elem_of_push_fresh; set_solver.
Qed.

Lemma elem_of_common p q r :
  r ∈ ep_allocations (intersection p q) ↔
  ∃ a b, a ∈ ep_allocations p ∧ b ∈ ep_allocations q ∧ common_range a b = Some r.
Proof.
  simpl. cut (∀ out, r ∈ fold_left (fun out a =>
         fold_left (fun out b => match common_range a b with Some r => push_fresh out r | None => out end)
           (ep_allocations q) out) (ep_allocations p) out ↔
         r ∈ out ∨ ∃ a b, a ∈ ep_allocations p ∧ b ∈ ep_allocations q ∧ common_range a b = Some r).
  { intros ->. set_solver. }
  induction (ep_allocations p) as [|a l IH]; intros out; simpl.
  - set_solver.
  - rewrite IH, elem_of_pushes. set_solver.
Qed.

Lemma elem_of_reserved p q r :
  r ∈ ep_reserved (intersection p q) ↔ r ∈ ep_reserved p ∨ r ∈ ep_reserved q.
Proof.
  simpl. generalize (ep_reserved p). induction (ep_reserved q) as [|x l IH]; intros out; simpl.
  - set_solver.
  - rewrite IH, elem_of_push_fresh. set_solver.
Qed.

Lemma common_range_covers a b r l :
  common_range a b = Some r → alloc_covers r l = true → alloc_covers a l = true ∧ alloc_covers b l = true.
Proof.
  unfold common_range. intros E H. case_in E; [|done]. injection E as <-. to_prop.
  rewrite !alloc_covers_spec in *. simpl in *. destruct H as (Hl & Hp & Hr). split_and!; first [congruence|lia].
Qed.

Lemma covers_common a b l :
  alloc_covers a l = true → alloc_covers b l = true → ∃ r, common_range a b = Some r ∧ alloc_covers r l = true.
Proof.
  rewrite !alloc_covers_spec. intros (Ha & Hp & Hl) (Ha' & Hp' & Hl'). unfold common_range.
  rewrite !bool_decide_eq_true_2 by congruence. simpl.
  rewrite (proj2 (Z.leb_le _ _)) by lia. eexists. split; [done|]. rewrite alloc_covers_spec. simpl. split_and!; first [congruence|lia].
Qed.

Lemma allows_intersection p q s :
  ep_org_id p = ep_org_id q → allows (intersection p q) s = allows p s && allows q s.
Proof.
  intros Ho. apply eq_true_iff_eq. rewrite andb_true_iff, !allows_spec.
  setoid_rewrite elem_of_common. setoid_rewrite elem_of_reserved. change (ep_org_id (intersection p q)) with (ep_org_id p).
  split.
  - intros (Hs & (r & (a & b & Ha & Hb & Hr) & Hc) & Hres).
    destruct (common_range_covers _ _ _ _ Hr Hc). split; split_and!; [done|eauto|auto|congruence|eauto|auto].
  - intros [(Hs & (a & Ha & Hca) & Hra) (_ & (b & Hb & Hcb) & Hrb)].
    destruct (covers_common _ _ _ Hca Hcb) as (r & Hr & Hc). split_and!; [done|eauto 10|].
    intros r' [H'|H']; auto.
Qed.

(** ** Sums *)

(** The loop of [fits] without its early return. *)
Definition tally (org : str) (t : Sums) (s : ExposeSpec) : Sums :=
  if negb (str_eqb (es_org_id s) org) then t
  else
    let use := fun x => if es_enabled s then x else 0 in
    let c := use (capacity (es_limits s)) in
    {| s_rules := sat_add64 (s_rules t) 1;
       s_tcp := sat_add64 (s_tcp t) (if bool_decide (el_protocol (es_listener s) = Tcp) then c else 0);
       s_udp := sat_add64 (s_udp t) (if bool_decide (el_protocol (es_listener s) = Udp) then c else 0);
       s_up := sat_add64 (s_up t) (use (bandwidth (es_limits s)).1);
       s_down := sat_add64 (s_down t) (use (bandwidth (es_limits s)).2) |}.

Definition within (t : Sums) (p : ExposePolicy) : bool :=
  (s_rules t <=? ep_max_rules p) && (s_tcp t <=? ep_max_tcp_connections p)
  && (s_udp t <=? ep_max_udp_sessions p) && (s_up t <=? ep_ingress p) && (s_down t <=? ep_egress p).

Definition legal (p : ExposePolicy) (s : ExposeSpec) : bool :=
  negb (str_eqb (es_org_id s) (ep_org_id p)) || allows p s.

Definition sums_ok (t : Sums) : Prop :=
  s_rules t <= u64_max ∧ s_tcp t <= u64_max ∧ s_udp t <= u64_max ∧ s_up t <= u64_max ∧ s_down t <= u64_max.

Lemma sat_add64_0 x : x <= u64_max → sat_add64 x 0 = x.
Proof. unfold sat_add64. lia. Qed.

Lemma sums_ok_tally org t s : sums_ok t → sums_ok (tally org t s).
Proof. unfold tally, sums_ok. case_goal; [done|]. simpl. unfold sat_add64. lia. Qed.

Lemma fits_turn_tally p t s :
  sums_ok t → fits_turn p t s = if legal p s then Some (tally (ep_org_id p) t s) else None.
Proof.
  intros (Hr & Ht & Hu & Hup & Hd). unfold fits_turn, legal, tally. destruct (negb (str_eqb _ _)); [done|]. simpl.
  destruct (allows p s); [|done]. simpl. destruct (es_enabled s); simpl.
  - destruct (el_protocol (es_listener s)); simpl; by rewrite sat_add64_0.
  - repeat case_goal; by rewrite !sat_add64_0.
Qed.

Lemma fits_sums_tally p specs t :
  sums_ok t →
  fits_sums p t specs = if forallb (legal p) specs then Some (fold_left (tally (ep_org_id p)) specs t) else None.
Proof.
  revert t. induction specs as [|s specs IH]; intros t Ht; [done|]. simpl. rewrite fits_turn_tally by done.
  destruct (legal p s); [|done]. simpl. apply IH. by apply sums_ok_tally.
Qed.

Lemma fits_tally p specs :
  fits p specs = forallb (legal p) specs && within (fold_left (tally (ep_org_id p)) specs no_sums) p.
Proof.
  unfold fits. rewrite fits_sums_tally by (unfold sums_ok, u64_max; simpl; lia).
  destruct (forallb _ _); done.
Qed.

(** Combining the policies of two groups gives neither more nor less than
    what both give: a listener is allowed, and a set of listeners fits, exactly
    when it is allowed and fits under each. *)
Theorem intersection_exact p q :
  ep_org_id p = ep_org_id q →
  (∀ s, allows (intersection p q) s = allows p s && allows q s)
  ∧ ∀ specs, fits (intersection p q) specs = fits p specs && fits q specs.
Proof.
  intros Ho. split; [intros s; by apply allows_intersection|]. intros specs. rewrite !fits_tally.
  change (ep_org_id (intersection p q)) with (ep_org_id p). rewrite <- Ho.
  assert (forallb (legal (intersection p q)) specs = forallb (legal p) specs && forallb (legal q) specs) as ->.
  { induction specs as [|s specs IH]; [done|]. simpl. rewrite IH. unfold legal at 1.
    rewrite allows_intersection by done. simpl. unfold legal. rewrite Ho. destruct (negb _), (allows p s), (allows q s); simpl.
    all: by rewrite ?andb_false_r. }
  generalize (fold_left (tally (ep_org_id p)) specs no_sums). intros t.
  assert (within t (intersection p q) = within t p && within t q) as ->.
  { apply eq_true_iff_eq. unfold within. simpl. rewrite !andb_true_iff. lia. }
  destruct (forallb (legal p) _), (forallb (legal q) _); simpl; by rewrite ?andb_false_r.
Qed.

(** ** Delegation *)

Lemma contains_spec p c :
  policy_contains p c = true →
  ep_org_id p = ep_org_id c
  ∧ (∀ t, within t c = true → within t p = true)
  ∧ (∀ r, r ∈ ep_reserved p → r ∈ ep_reserved c)
  ∧ ∀ a, a ∈ ep_allocations c → ∃ b, b ∈ ep_allocations p ∧ ∀ l, alloc_covers a l = true → alloc_covers b l = true.
Proof.
  unfold policy_contains. intros H. repeat (apply andb_true_iff in H as [H ?]).
  rewrite str_eqb_eq in H. split_and!; [done| | |].
  - intros t Ht. unfold within in *. to_prop. rewrite !andb_true_iff. lia.
  - intros r Hr. rewrite forallb_forall in *. apply list_elem_of_In in Hr.
    match goal with Hf : ∀ x, In x (ep_reserved p) → _ |- _ => apply Hf in Hr end. by to_prop.
  - intros a Ha. rewrite forallb_forall in *. apply list_elem_of_In in Ha.
    match goal with Hf : ∀ x, In x (ep_allocations c) → _ |- _ => apply Hf in Ha end.
    apply existsb_Exists in Ha as (b & Hb & Hc). exists b. split; [done|]. intros l. to_prop.
    rewrite !alloc_covers_spec. intros (Hl & Hp & Hr). split_and!; first [congruence|lia].
Qed.

(** A policy that contains another lets through everything the other lets
    through: delegating a contained policy never widens what was given. *)
Theorem delegation_never_widens p c :
  policy_contains p c = true →
  (∀ s, allows c s = true → allows p s = true) ∧ ∀ specs, fits c specs = true → fits p specs = true.
Proof.
  intros Hc. apply contains_spec in Hc as (Ho & Hw & Hr & Ha).
  assert (Hal : ∀ s, allows c s = true → allows p s = true).
  { intros s. rewrite !allows_spec. intros (Hs & (a & Hi & Hcov) & Hres). destruct (Ha a Hi) as (b & Hb & Hl).
    split_and!; [congruence|eauto|auto]. }
  split; [done|]. intros specs. rewrite !fits_tally, !andb_true_iff, Ho. intros [Hf Ht]. split; [|by apply Hw].
  rewrite forallb_forall in *. intros s Hs. specialize (Hf s Hs). unfold legal in *. rewrite Ho.
  apply orb_true_iff in Hf as [Hf|Hf]; apply orb_true_iff; auto.
Qed.

(** ** Ceilings *)

(** The limits of a specification are unsigned. *)
Definition limits_nonneg (s : ExposeSpec) : Prop :=
  0 <= capacity (es_limits s) ∧ 0 <= (bandwidth (es_limits s)).1 ∧ 0 <= (bandwidth (es_limits s)).2.

Definition total (f : ExposeSpec → Z) (specs : list ExposeSpec) : Z := foldr (fun s acc => f s + acc) 0 specs.

Definition used (org : str) (on : ExposeProtocol → bool) (f : ExposeLimits → Z) (s : ExposeSpec) : Z :=
  if str_eqb (es_org_id s) org && es_enabled s && on (el_protocol (es_listener s)) then f (es_limits s) else 0.

Definition is_tcp (p : ExposeProtocol) : bool := bool_decide (p = Tcp).
Definition is_udp (p : ExposeProtocol) : bool := bool_decide (p = Udp).
Definition any_protocol (p : ExposeProtocol) : bool := true.

Lemma spec_total_nonneg f specs : (∀ s, s ∈ specs → 0 <= f s) → 0 <= total f specs.
Proof.
  induction specs as [|s l IH]; simpl; [lia|]. intros H.
  apply Z.add_nonneg_nonneg; [apply H; by left|]. apply IH. intros. apply H. by right.
Qed.

(** A saturating sum is the true one, or the greatest number. *)
Lemma fold_sat (org : str) (sel : Sums → Z) (f : ExposeSpec → Z) specs t :
  (∀ t s, sel (tally org t s) = if str_eqb (es_org_id s) org then sat_add64 (sel t) (f s) else sel t) →
  (∀ s, str_eqb (es_org_id s) org = false → f s = 0) →
  (∀ s, s ∈ specs → 0 <= f s) → 0 <= sel t <= u64_max →
  sel (fold_left (tally org) specs t) = sat_add64 (sel t) (total f specs).
Proof.
  intros Hsel Hz. revert t. induction specs as [|s specs IH]; intros t Hf Ht; simpl.
  - unfold sat_add64. lia.
  - assert (0 <= f s) by (apply Hf; set_solver). pose proof (spec_total_nonneg f specs) as Hn.
    assert (0 <= total f specs) by (apply Hn; set_solver).
    rewrite IH, Hsel; [| |rewrite Hsel; case_goal; unfold sat_add64, u64_max in *; lia].
    + destruct (str_eqb (es_org_id s) org) eqn:E; [|rewrite (Hz s E)]; unfold sat_add64; lia.
    + intros s' Hs'. apply Hf. by right.
Qed.

Lemma sat_below x c : sat_add64 0 x <= c → c < u64_max → x <= c.
Proof. unfold sat_add64. lia. Qed.

Lemma used_nonneg org on f s specs :
  Forall limits_nonneg specs → (∀ s, limits_nonneg s → 0 <= f (es_limits s)) → s ∈ specs → 0 <= used org on f s.
Proof. rewrite Forall_forall. intros Hl Hf Hs. unfold used. case_goal; [auto|lia]. Qed.

Lemma used_other org on f s : str_eqb (es_org_id s) org = false → used org on f s = 0.
Proof. intros E. unfold used. by rewrite E. Qed.

Lemma tally_used org t s :
  let ours := str_eqb (es_org_id s) org in
  let b f := if es_enabled s then f (bandwidth (es_limits s)) else 0 in
  tally org t s = if ours then
    {| s_rules := sat_add64 (s_rules t) 1;
       s_tcp := sat_add64 (s_tcp t) (used org is_tcp capacity s);
       s_udp := sat_add64 (s_udp t) (used org is_udp capacity s);
       s_up := sat_add64 (s_up t) (used org any_protocol (λ l, (bandwidth l).1) s);
       s_down := sat_add64 (s_down t) (used org any_protocol (λ l, (bandwidth l).2) s) |} else t.
Proof.
  simpl. unfold tally, used, is_tcp, is_udp, any_protocol. destruct (str_eqb _ _); [|done]. simpl.
  destruct (es_enabled s), (el_protocol (es_listener s)); done.
Qed.

Definition ours (org : str) (s : ExposeSpec) : Z := if str_eqb (es_org_id s) org then 1 else 0.

Lemma tally_total (org : str) (sel : Sums → Z) f specs :
  sel no_sums = 0 →
  (∀ t s, sel (tally org t s) = if str_eqb (es_org_id s) org then sat_add64 (sel t) (f s) else sel t) →
  (∀ s, str_eqb (es_org_id s) org = false → f s = 0) →
  (∀ s, s ∈ specs → 0 <= f s) →
  sel (fold_left (tally org) specs no_sums) = sat_add64 0 (total f specs).
Proof. intros H0 H1 H2 H3. rewrite (fold_sat org sel f); rewrite ?H0; auto. unfold u64_max. lia. Qed.

(** The sums of the loop are the true ones, saturated. *)
Lemma tally_sums org specs :
  Forall limits_nonneg specs →
  fold_left (tally org) specs no_sums =
  {| s_rules := sat_add64 0 (total (ours org) specs);
     s_tcp := sat_add64 0 (total (used org is_tcp capacity) specs);
     s_udp := sat_add64 0 (total (used org is_udp capacity) specs);
     s_up := sat_add64 0 (total (used org any_protocol (λ l, (bandwidth l).1)) specs);
     s_down := sat_add64 0 (total (used org any_protocol (λ l, (bandwidth l).2)) specs) |}.
Proof.
  intros Hl.
  assert (Hu : ∀ on f s, (∀ s, limits_nonneg s → 0 <= f (es_limits s)) → s ∈ specs → 0 <= used org on f s)
    by eauto using used_nonneg.
  rewrite <- (tally_total org s_rules), <- (tally_total org s_tcp), <- (tally_total org s_udp),
    <- (tally_total org s_up), <- (tally_total org s_down).
  { by destruct (fold_left _ _ _). }
  all: try done; try apply used_other.
  all: try (intros t s; rewrite tally_used; simpl; by destruct (str_eqb _ _)).
  all: try (intros s; apply Hu; intros ? [? []]; done).
  - intros t s. rewrite tally_used. unfold ours. simpl. by destruct (str_eqb _ _).
  - intros s E. unfold ours. by rewrite E.
  - intros s _. unfold ours. case_goal; lia.
Qed.

(** Where a set of listeners fits, the organization's every listener is
    allowed, it has no more of them than its rules, and the connections,
    datagram sessions and bytes per second its enabled listeners may use sum to
    no more than the ceiling, for any ceiling below the greatest number of the
    field. *)
Theorem fits_is_a_ceiling p specs :
  Forall limits_nonneg specs → ep_max_rules p <= u32_max → fits p specs = true →
  let org := ep_org_id p in
  (∀ s, s ∈ specs → es_org_id s = org → allows p s = true)
  ∧ total (ours org) specs <= ep_max_rules p
  ∧ (ep_max_tcp_connections p < u64_max → total (used org is_tcp capacity) specs <= ep_max_tcp_connections p)
  ∧ (ep_max_udp_sessions p < u64_max → total (used org is_udp capacity) specs <= ep_max_udp_sessions p)
  ∧ (ep_ingress p < u64_max → total (used org any_protocol (λ l, (bandwidth l).1)) specs <= ep_ingress p)
  ∧ (ep_egress p < u64_max → total (used org any_protocol (λ l, (bandwidth l).2)) specs <= ep_egress p).
Proof.
  intros Hl Hm Hf org. subst org. rewrite fits_tally in Hf. apply andb_true_iff in Hf as [Hf Hw].
  rewrite tally_sums in Hw by done. unfold within in Hw. to_prop. simpl in *.
  split_and!; eauto using sat_below.
  - intros s Hs Ho. rewrite forallb_forall in Hf. specialize (Hf s (proj1 (list_elem_of_In _ _) Hs)).
    unfold legal in Hf. rewrite Ho in Hf. by rewrite (proj2 (str_eqb_eq _ _) eq_refl) in Hf.
  - apply sat_below; [done|]. unfold u32_max, u64_max in *. lia.
Qed.

(** ** What validation promises the listener *)

(** The depth of a datagram queue, as the relay computes it. *)
Definition queue_capacity (queue_packets queue_bytes max_datagram_bytes : Z) : Z :=
  Z.max (Z.min queue_packets (queue_bytes / max_datagram_bytes)) 1.

Lemma when_nil b e : when b e = [] ↔ b = false.
Proof. destruct b; simpl; naive_solver. Qed.

Lemma positive_nil f v : positive f v = [] ↔ v ≠ 0.
Proof. unfold positive. rewrite when_nil, Z.eqb_neq. done. Qed.

Lemma name_error_None kind name : name_error kind name = None → validate_name name = true.
Proof.
  unfold name_error, validate_name. intros H. repeat case_in H; try done. to_prop.
  simpl. rewrite andb_true_r. apply Z.leb_le.
  match goal with Hf : forallb _ _ = true |- _ => rewrite chars_ascii in * by done; clear Hf end.
  rewrite length_fmap in *. unfold len. lia.
Qed.

Lemma imap_concat_nil {A B} (f : nat → A → list B) l :
  concat (imap f l) = [] → ∀ i x, l !! i = Some x → f i x = [].
Proof.
  intros H i x E. assert (Hi : imap f l !! i = Some (f i x)) by (by rewrite list_lookup_imap, E).
  apply list_elem_of_lookup_2 in Hi. destruct (f i x) as [|b r] eqn:Ef; [done|]. exfalso.
  assert (b ∈ concat (imap f l)) as Hb.
  { apply list_elem_of_In, in_concat. exists (b :: r). split; [by apply list_elem_of_In|by left]. }
  rewrite H in Hb. by apply elem_of_nil in Hb.
Qed.

(** A specification without errors is one the relay can serve without a
    surprise: its port is not zero and its address not a mapped one, its tunnel
    is a name, every source range is one the peer check reads, its limits are
    those of its transport and none of them is zero; and for UDP the queue holds
    at least one greatest datagram, never more bytes than it was given, and its
    depth is computed without a division by zero. *)
Theorem valid_spec_is_servable s :
  spec_validate s = [] →
  el_port (es_listener s) ≠ 0 ∧ is_mapped (el_address (es_listener s)) = false
  ∧ validate_name (es_tunnel s) = true
  ∧ (∀ r, r ∈ es_allowed_ips s → ∃ n, parse_network r = Some n)
  ∧ capacity (es_limits s) ≠ 0 ∧ (bandwidth (es_limits s)).1 ≠ 0 ∧ (bandwidth (es_limits s)).2 ≠ 0
  ∧ match es_limits s with
    | LimitsTcp _ open _ _ _ => el_protocol (es_listener s) = Tcp ∧ open ≠ 0
    | LimitsUdp sessions per_ip idle datagram packets bytes rate _ _ =>
        el_protocol (es_listener s) = Udp ∧ datagram ≠ 0 ∧ datagram <= 65507 ∧ per_ip <= sessions
        ∧ idle ≠ 0 ∧ rate ≠ 0
        ∧ (0 < datagram → 0 < packets → 1 <= queue_capacity packets bytes datagram <= packets
                          ∧ queue_capacity packets bytes datagram * datagram <= bytes)
    end.
Proof.
  unfold spec_validate. intros H.
  repeat match goal with Hn : _ ++ _ = [] |- _ => apply app_nil in Hn as [? Hn] end.
  rewrite when_nil in *.
  assert (Hip : ∀ r, r ∈ es_allowed_ips s → ∃ n, parse_network r = Some n).
  { intros r Hr. apply list_elem_of_lookup_1 in Hr as [i Hi].
    eapply imap_concat_nil in Hi; [|eassumption]. simpl in Hi. apply when_nil in Hi.
    destruct (parse_network r); [eauto|done]. }
  assert (Hn : validate_name (es_tunnel s) = true).
  { destruct (name_error _ _) eqn:E; [done|]. eauto using name_error_None. }
  to_prop. unfold limits_errors in H. destruct (es_limits s).
  all: repeat match goal with Hn : _ ++ _ = [] |- _ => apply app_nil in Hn as [? Hn] end.
  all: rewrite ?when_nil, ?positive_nil in *; to_prop; simpl; split_and!; try done.
  intros Hd Hp. unfold queue_capacity.
  assert (1 <= queue_bytes / max_datagram_bytes) by (apply Z.div_le_lower_bound; lia).
  pose proof (Z.mul_div_le queue_bytes max_datagram_bytes Hd). nia.
Qed.

(** ** Samples *)

Module ExposeSamples.

Definition listener (port : Z) (p : ExposeProtocol) : ExposeListener :=
  {| el_address := V4 0; el_port := port; el_protocol := p |}.

Definition spec (port : Z) (p : ExposeProtocol) (enabled : bool) : ExposeSpec :=
  {| es_org_id := bs "acme"; es_tunnel := bs "postgres"; es_listener := listener port p; es_enabled := enabled;
     es_limits := limits_defaults p; es_allowed_ips := [bs "10.0.0.0/8"]; es_advertised_host := Some (bs "db.acme.dev") |}.

Definition policy (first last connections sessions : Z) : ExposePolicy :=
  {| ep_org_id := bs "acme"; ep_revision := 1;
     ep_allocations := [{| ea_address := V4 0; ea_protocol := Tcp; ea_first_port := first; ea_last_port := last |};
                        {| ea_address := V4 0; ea_protocol := Udp; ea_first_port := first; ea_last_port := last |}];
     ep_reserved := [listener 5300 Udp]; ep_max_rules := 4; ep_max_tcp_connections := connections;
     ep_max_udp_sessions := sessions; ep_ingress := 64 * 1024 * 1024; ep_egress := 64 * 1024 * 1024 |}.

Definition wide : ExposePolicy := policy 5000 6000 600 2048.
Definition narrow : ExposePolicy := policy 5400 5500 512 1024.
Definition specs : list ExposeSpec := [spec 5432 Tcp true; spec 5433 Tcp true; spec 5434 Udp false; spec 5434 Udp true].

Lemma intersection_exact_witness :
  fits (intersection wide narrow) specs = true ∧ fits (intersection wide narrow) (spec 5001 Tcp true :: specs) = false.
Proof.
  destruct (intersection_exact wide narrow) as [_ H]; [reflexivity|].
  split; [refine (eq_trans (H specs) _)|refine (eq_trans (H (spec 5001 Tcp true :: specs)) _)]; vm_compute; reflexivity.
Defined.

Lemma delegation_never_widens_witness : allows wide (spec 5432 Tcp true) = true ∧ fits wide specs = true.
Proof.
  destruct (delegation_never_widens wide narrow) as [Ha Hf]; [vm_compute; reflexivity|].
  split; [apply Ha|apply Hf]; vm_compute; reflexivity.
Defined.

Lemma fits_is_a_ceiling_witness :
  total (used (bs "acme") is_tcp capacity) specs <= 512 ∧ total (used (bs "acme") is_tcp capacity) specs = 512.
Proof.
  split; [|vm_compute; reflexivity].
  apply (fits_is_a_ceiling narrow specs); [|vm_compute; discriminate|vm_compute; reflexivity|vm_compute; reflexivity].
  repeat constructor; vm_compute; discriminate.
Defined.

Lemma valid_spec_is_servable_witness :
  spec_validate (spec 5434 Udp true) = [] ∧ capacity (es_limits (spec 5434 Udp true)) ≠ 0.
Proof.
  assert (H : spec_validate (spec 5434 Udp true) = []) by (vm_compute; reflexivity).
  split; [exact H|]. pose proof (valid_spec_is_servable _ H) as (_ & _ & _ & _ & Hc & _). exact Hc.
Defined.

(** A wildcard bind and a concrete one share the concrete address's visitors. *)
Example wildcard_conflicts :
  conflicts_with (listener 5432 Tcp) {| el_address := V4 2130706433; el_port := 5432; el_protocol := Tcp |} = true
  ∧ conflicts_with (listener 5432 Tcp) {| el_address := V6 0; el_port := 5432; el_protocol := Tcp |} = false.
Proof. vm_compute. auto. Qed.

End ExposeSamples.
