(* ===== verification/Registry.v ===== *)
(** Resolving a raw tunnel: [aperio-server/src/tunnel/registry.rs] (who may reach
    it and which connection carries it) and
    [aperio-server/src/expose_manager/resolve.rs] (the connection behind a
    public listener).

    The table of connections is the list of its entries in the order the map
    gives them, whatever that order is; organizations are their ids and names. *)

From Stdlib Require Import Sorting.Sorted.
From S2P Require Import Prelude Topics IpNet Grants Clients Tunnel Names Expose.

Record Fleet : Type := {
  f_orgs : list (str * str);
  f_clients : list (str * ClientHandle);
  f_now : Z;
  f_down_threshold : Z;
}.

(** ** Addressing *)

Definition org_id_for_name (f : Fleet) (name : str) : option (option str) :=
  let name := trim name in
  if bool_decide (name = []) || eq_ignore_case name (bs "master") then Some None
  else match find (fun o : str * str => eq_ignore_case o.2 name) (f_orgs f) with
       | Some o => Some (Some o.1)
       | None => None
       end.

Inductive Rejection : Type := Unknown | Forbidden | NoPath.

#[export] Instance Rejection_eq_dec : EqDecision Rejection.
Proof. solve_decision. Defined.

Record Resolved : Type := { r_client_id : str; r_tx : Z; r_decl : TunnelDecl }.

Definition may_bind (consumer owner : ClientPerms) : bool :=
  if master consumer then true
  else if (match token_id consumer with Some _ => true | None => false end)
          && bool_decide (token_id consumer = token_id owner) then true
  else allow_bind consumer && bool_decide (org_id consumer = org_id owner).

Definition serviceable (f : Fleet) (h : ClientHandle) : bool := serves_process_scoped h (f_now f) (f_down_threshold f).

Definition matches_client (id : str) (h : ClientHandle) (selector : str) : bool :=
  str_eqb id selector || bool_decide (reported_instance_id h = Some selector)
  || bool_decide (instance_group h = Some selector).

Inductive Selector : Type :=
| Name (name : str)
| ClientTarget (client target protocol : str).

(** The organization a qualified name narrows the search to: no such
    organization, no qualifier, or one. *)
Definition qualifier_of (f : Fleet) (s : Selector) : option (option (option str)) :=
  match s with
  | Name raw => match (split_qualified raw).1 with
                | Some org => match org_id_for_name f org with Some id => Some (Some id) | None => None end
                | None => Some None
                end
  | ClientTarget _ _ _ => Some None
  end.

(** The declaration of a connection the selector names. *)
Definition declared (s : Selector) (cid : str) (h : ClientHandle) : option TunnelDecl :=
  match s with
  | Name name => find (fun d => str_eqb (name_of d) (split_qualified name).2) (conn_tunnels h)
  | ClientTarget client target protocol =>
      if negb (matches_client cid h (trim client)) then None
      else find (fun d => str_eqb (td_target d) (trim target) && protocol_serves (td_protocol d) protocol) (conn_tunnels h)
  end.

Definition qualified_in (q : option (option str)) (h : ClientHandle) : bool :=
  match q with Some org => bool_decide (org_id (perms h) = org) | None => true end.

Fixpoint resolve_loop (f : Fleet) (p : ClientPerms) (s : Selector) (q : option (option str)) (seen : Rejection)
    (clients : list (str * ClientHandle)) : result Resolved Rejection :=
  match clients with
  | [] => Err seen
  | (cid, h) :: rest =>
      if negb (qualified_in q h) then resolve_loop f p s q seen rest
      else match declared s cid h with
           | None => resolve_loop f p s q seen rest
           | Some decl =>
               if negb (may_bind p (perms h)) then resolve_loop f p s q Forbidden rest
               else if serviceable f h then Ok {| r_client_id := cid; r_tx := tx h; r_decl := decl |}
               else resolve_loop f p s q (if bool_decide (seen = Forbidden) then seen else NoPath) rest
           end
  end.

Definition resolve (f : Fleet) (p : ClientPerms) (s : Selector) : result Resolved Rejection :=
  match qualifier_of f s with
  | None => Err Unknown
  | Some q => resolve_loop f p s q Unknown (f_clients f)
  end.

(** ** Discovery *)

Record TunnelView : Type := {
  tv_name : str;
  tv_custom_name : option str;
  tv_protocol : str;
  tv_target : str;
  tv_client_id : option str;
  tv_client_name : option str;
  tv_paths : Z;
  tv_available : bool;
  tv_encrypt : bool;
  tv_idle_timeout : option Z;
  tv_token_name : option str;
  tv_org : option str;
}.

Definition same_tunnel (name : str) (org : option str) (v : TunnelView) : bool :=
  str_eqb (tv_name v) name && bool_decide (tv_org v = org).

Definition another_path (v : TunnelView) (usable : bool) : TunnelView :=
  {| tv_name := tv_name v; tv_custom_name := tv_custom_name v; tv_protocol := tv_protocol v; tv_target := tv_target v;
     tv_client_id := tv_client_id v; tv_client_name := tv_client_name v; tv_paths := tv_paths v + 1;
     tv_available := tv_available v || usable; tv_encrypt := tv_encrypt v; tv_idle_timeout := tv_idle_timeout v;
     tv_token_name := tv_token_name v; tv_org := tv_org v |}.

Definition first_path (h : ClientHandle) (usable : bool) (org : option str) (d : TunnelDecl) : TunnelView :=
  {| tv_name := name_of d; tv_custom_name := td_custom_name d; tv_protocol := td_protocol d; tv_target := td_target d;
     tv_client_id := match instance_group h with Some g => Some g | None => reported_instance_id h end;
     tv_client_name := process_name h; tv_paths := 1; tv_available := usable; tv_encrypt := td_encrypt d;
     tv_idle_timeout := td_idle_timeout d; tv_token_name := token_name (perms h); tv_org := org |}.

Fixpoint add_path (h : ClientHandle) (usable : bool) (org : option str) (d : TunnelDecl) (out : list TunnelView) :
    list TunnelView :=
  match out with
  | [] => [first_path h usable org d]
  | v :: out' => if same_tunnel (name_of d) org v then another_path v usable :: out'
                 else v :: add_path h usable org d out'
  end.

Definition org_name (f : Fleet) (h : ClientHandle) : option str :=
  match org_id (perms h) with Some id => aget id (f_orgs f) | None => None end.

Definition opt_leb (a b : option str) : bool :=
  match a, b with None, _ => true | Some _, None => false | Some x, Some y => str_leb x y end.

Definition view_leb (a b : TunnelView) : bool :=
  if bool_decide (tv_org a = tv_org b) then str_leb (tv_name a) (tv_name b) else opt_leb (tv_org a) (tv_org b).

Definition paths_of (f : Fleet) (include : ClientPerms → bool) : list (ClientHandle * TunnelDecl) :=
  concat ((fun kh => (fun d => (kh.2, d)) <$> conn_tunnels kh.2) <$> filter (fun kh => include (perms kh.2) = true) (f_clients f)).

Definition collect_step (f : Fleet) (out : list TunnelView) (hd : ClientHandle * TunnelDecl) : list TunnelView :=
  add_path hd.1 (serviceable f hd.1) (org_name f hd.1) hd.2 out.

Definition collect (f : Fleet) (include : ClientPerms → bool) : list TunnelView :=
  sort_by view_leb (fold_left (collect_step f) (paths_of f include) []).

Definition visible_in_org (f : Fleet) (org : option str) : list TunnelView :=
  collect f (fun p => bool_decide (org = None) || bool_decide (org_id p = org)).

Definition visible (f : Fleet) (p : ClientPerms) : list TunnelView := collect f (may_bind p).

(** ** The connection behind a public listener *)

Record Target : Type := {
  t_client_id : str;
  t_tunnel : str;
  t_transport : ExposeProtocol;
  t_org_id : option str;
  t_target : str;
  t_service : option str;
  t_tx : Z;
}.

Definition org_of_id (id : str) : option str := if str_eqb id (bs "master") then None else Some id.

Definition carries (h : ClientHandle) (org : option str) (tunnel : str) (d : TunnelDecl) : bool :=
  bool_decide (org_id (perms h) = org) && str_eqb (name_of d) tunnel.

Definition compatible (d : TunnelDecl) (p : ExposeProtocol) : bool :=
  negb (td_encrypt d) && protocol_serves (td_protocol d) (protocol_str p).

(** The service named when the stream is opened. *)
Definition stream_service (h : ClientHandle) : option str :=
  if (1 <? length (services h))%nat then
    match find admin_enabled (services h) with Some s => service_name s | None => None end
  else None.

Definition target_of (s : ExposeSpec) (id : str) (h : ClientHandle) (d : TunnelDecl) : Target :=
  {| t_client_id := id; t_tunnel := name_of d; t_transport := el_protocol (es_listener s); t_org_id := org_id (perms h);
     t_target := td_target d; t_service := stream_service h; t_tx := tx h |}.

Fixpoint target_decls (f : Fleet) (s : ExposeSpec) (id : str) (h : ClientHandle) (failure : ExposeTargetState)
    (ds : list TunnelDecl) : result Target ExposeTargetState :=
  match ds with
  | [] => Err failure
  | d :: ds' =>
      if negb (carries h (org_of_id (es_org_id s)) (es_tunnel s) d) then target_decls f s id h failure ds'
      else if negb (compatible d (el_protocol (es_listener s))) then target_decls f s id h Incompatible ds'
      else if negb (serviceable f h) then target_decls f s id h Unavailable ds'
      else Ok (target_of s id h d)
  end.

Fixpoint target_loop (f : Fleet) (s : ExposeSpec) (failure : ExposeTargetState) (clients : list (str * ClientHandle)) :
    result Target ExposeTargetState :=
  match clients with
  | [] => Err failure
  | (id, h) :: rest =>
      match target_decls f s id h failure (conn_tunnels h) with
      | Ok t => Ok t
      | Err failure => target_loop f s failure rest
      end
  end.

Definition client_leb (a b : str * ClientHandle) : bool := str_leb a.1 b.1.

Definition org_known (f : Fleet) (org : option str) : bool :=
  match org with Some id => existsb (fun o : str * str => str_eqb o.1 id) (f_orgs f) | None => true end.

Definition target (f : Fleet) (s : ExposeSpec) : result Target ExposeTargetState :=
  if negb (org_known f (org_of_id (es_org_id s))) then Err Unavailable
  else target_loop f s Waiting (sort_by client_leb (f_clients f)).

Definition still_serving (f : Fleet) (t : Target) : bool :=
  match aget (t_client_id t) (f_clients f) with
  | None => false
  | Some h =>
      (tx h =? t_tx t) && bool_decide (org_id (perms h) = t_org_id t) && serviceable f h
      && existsb (fun d => negb (td_encrypt d) && str_eqb (td_target d) (t_target t) && str_eqb (name_of d) (t_tunnel t)
                           && protocol_serves (td_protocol d) (protocol_str (t_transport t))) (conn_tunnels h)
  end.

(** ** What resolution answers *)

Definition candidate : Type := str * ClientHandle * TunnelDecl.

(** The connections that carry the tunnel a selector names. *)
Definition candidates (s : Selector) (q : option (option str)) (clients : list (str * ClientHandle)) : list candidate :=
  omap (fun kh : str * ClientHandle =>
          if qualified_in q kh.2 then (fun d => (kh.1, kh.2, d)) <$> declared s kh.1 kh.2 else None) clients.

Definition permitted (p : ClientPerms) (c : candidate) : bool := may_bind p (perms c.1.2).
Definition usable (f : Fleet) (p : ClientPerms) (c : candidate) : bool := permitted p c && serviceable f c.1.2.
Definition resolved_of (c : candidate) : Resolved := {| r_client_id := c.1.1; r_tx := tx c.1.2; r_decl := c.2 |}.

Definition rejection_of (p : ClientPerms) (cs : list candidate) : Rejection :=
  match cs with
  | [] => Unknown
  | _ => if forallb (permitted p) cs then NoPath else Forbidden
  end.

Lemma resolve_loop_spec f p s q seen clients :
  resolve_loop f p s q seen clients =
  match find (usable f p) (candidates s q clients) with
  | Some c => Ok (resolved_of c)
  | None => Err (if bool_decide (seen = Forbidden) then Forbidden
                 else match candidates s q clients with [] => seen | cs => rejection_of p cs end)
  end.
Proof.
  revert seen. induction clients as [|[cid h] rest IH]; intros seen; simpl.
  - case_bool_decide; by subst.
  - unfold candidates. simpl. fold (candidates s q rest). destruct (qualified_in q h); simpl; [|apply IH].
    destruct (declared s cid h) as [d|]; simpl; [|apply IH]. unfold usable at 1, permitted at 1. simpl.
    destruct (may_bind p (perms h)) eqn:Em; simpl.
    + destruct (serviceable f h); simpl; [done|]. rewrite IH. destruct (find _ _) eqn:Ef; [done|]. f_equal.
      destruct (decide (seen = Forbidden)) as [->|Hs]; [done|].
      rewrite !(bool_decide_eq_false_2 (seen = Forbidden)) by done. rewrite bool_decide_eq_false_2 by done.
      unfold permitted at 1. simpl. rewrite Em. by destruct (candidates s q rest).
    + rewrite IH. destruct (find _ _); [done|]. f_equal.
      simpl. unfold permitted at 1. simpl. rewrite Em. by case_bool_decide.
Qed.

(** C31: Resolution answers for the whole table, not for the first match: a caller
    gets a path exactly when some connection carries the tunnel, is one the
    caller may bind and can serve now; otherwise the answer says which of these
    failed: unknown when nothing carries it (or no such organization), forbidden
    when one that does is not the caller's to bind, unavailable when all are but
    none can serve. *)
Theorem resolve_exact f p s :
  resolve f p s =
  match qualifier_of f s with
  | None => Err Unknown
  | Some q =>
      match find (usable f p) (candidates s q (f_clients f)) with
      | Some c => Ok (resolved_of c)
      | None => Err (rejection_of p (candidates s q (f_clients f)))
      end
  end.
Proof.
  unfold resolve. destruct (qualifier_of f s) as [q|]; [|done]. rewrite resolve_loop_spec.
  destruct (find _ _); [done|]. f_equal. simpl. by destruct (candidates _ _ _).
Qed.

Lemma find_Some_elem {A} (p : A → bool) l x : find p l = Some x → x ∈ l ∧ p x = true.
Proof. intros H. apply find_some in H as [H1 H2]. split; [by apply list_elem_of_In|done]. Qed.

Lemma elem_of_candidates s q clients c :
  c ∈ candidates s q clients ↔
  (c.1.1, c.1.2) ∈ clients ∧ qualified_in q c.1.2 = true ∧ declared s c.1.1 c.1.2 = Some c.2.
Proof.
  unfold candidates. rewrite list_elem_of_omap. split.
  - intros ([cid h] & Hin & E). simpl in E. destruct (qualified_in q h) eqn:Eq; [|done].
    destruct (declared s cid h) eqn:Ed; [|done]. injection E as <-. by simpl.
  - intros (Hin & Hq & Hd). exists (c.1.1, c.1.2). split; [done|]. simpl. rewrite Hq, Hd. by destruct c as [[]].
Qed.

(** A resolved tunnel is one its caller may use: the connection is in the
    table and can serve now, the declaration is one of its own, and the caller
    is the master, or holds the token the connection came with, or holds
    [allow_bind] in the organization of the connection. A name qualified with an
    organization resolves within it. *)
Theorem resolve_is_permitted f p s r :
  resolve f p s = Ok r →
  ∃ h, (r_client_id r, h) ∈ f_clients f ∧ r_tx r = tx h ∧ r_decl r ∈ conn_tunnels h
    ∧ serves_process_scoped h (f_now f) (f_down_threshold f) = true
    ∧ (master p = true ∨ (token_id p ≠ None ∧ token_id p = token_id (perms h))
       ∨ (allow_bind p = true ∧ org_id p = org_id (perms h)))
    ∧ match s with
      | Name raw => name_of (r_decl r) = (split_qualified raw).2
                    ∧ ∀ org, (split_qualified raw).1 = Some org → org_id_for_name f org = Some (org_id (perms h))
      | ClientTarget client tgt protocol =>
          td_target (r_decl r) = trim tgt ∧ protocol_serves (td_protocol (r_decl r)) protocol = true
      end.
Proof.
  unfold resolve. destruct (qualifier_of f s) as [q|] eqn:Eq; [|done]. rewrite resolve_loop_spec.
  destruct (find _ _) as [c|] eqn:Ef; [|done]. intros E. injection E as <-.
  apply find_Some_elem in Ef as [Hc Hu]. unfold usable, permitted in Hu. to_prop.
  apply elem_of_candidates in Hc as (Hin & Hq & Hd). exists c.1.2. simpl.
  assert (Hb : c.2 ∈ conn_tunnels c.1.2 ∧ match s with
     | Name raw => name_of c.2 = (split_qualified raw).2
     | ClientTarget _ tgt protocol => td_target c.2 = trim tgt ∧ protocol_serves (td_protocol c.2) protocol = true end).
  { destruct s; simpl in Hd; [|destruct (matches_client _ _ _); [|done]; simpl in Hd];
      apply find_Some_elem in Hd as [Ht Hd]; to_prop; rewrite ?str_eqb_eq in *; auto. }
  destruct Hb as [Hb1 Hb2]. split_and!; try done.
  - unfold may_bind in *. destruct (master p); [by left|right].
    destruct (token_id p) eqn:Et; simpl in *; [case_bool_decide; [left; by split|]|]; to_prop; auto.
  - destruct s as [raw|]; [|done]. split; [done|]. intros org Ho. simpl in Eq. rewrite Ho in Eq.
    destruct (org_id_for_name f org) as [id|]; [|done]. injection Eq as <-. simpl in Hq. to_prop. by rewrite Hq.
Qed.

Lemma rejection_perm p cs cs' : cs ≡ₚ cs' → rejection_of p cs = rejection_of p cs'.
Proof.
  intros Hp. unfold rejection_of.
  assert (forallb (permitted p) cs = forallb (permitted p) cs') as ->.
  { apply eq_true_iff_eq. rewrite !forallb_Forall. by rewrite Hp. }
  destruct cs, cs'; try done; [by apply Permutation_nil_cons in Hp|by apply symmetry, Permutation_nil_cons in Hp].
Qed.

Lemma find_perm {A} (p : A → bool) l l' : l ≡ₚ l' → (find p l = None ↔ find p l' = None).
Proof.
  assert (Hn : ∀ k, find p k = None ↔ Forall (fun x => p x = false) k).
  { intros k. rewrite Forall_forall. setoid_rewrite list_elem_of_In. split; [apply find_none|].
    intros H. destruct (find p k) eqn:E; [|done]. apply find_some in E as [E1 E2]. rewrite H in E2; done. }
  intros Hp. rewrite !Hn. by rewrite Hp.
Qed.

(** The order the map gives its entries in decides which path is taken, never
    whether one is or what a refusal says. *)
Theorem resolve_order_free f f' p s :
  f_orgs f = f_orgs f' → f_now f = f_now f' → f_down_threshold f = f_down_threshold f' → f_clients f ≡ₚ f_clients f' →
  match resolve f p s, resolve f' p s with
  | Ok _, Ok _ => True
  | Err e, Err e' => e = e'
  | _, _ => False
  end.
Proof.
  intros Ho Hn Ht Hp. unfold resolve.
  assert (qualifier_of f s = qualifier_of f' s) as -> by (unfold qualifier_of, org_id_for_name; by rewrite Ho).
  destruct (qualifier_of f' s) as [q|]; [|done]. rewrite !resolve_loop_spec.
  assert (usable f p = usable f' p) as Hu by (unfold usable, serviceable; by rewrite Hn, Ht). rewrite <- Hu.
  assert (Hc : candidates s q (f_clients f) ≡ₚ candidates s q (f_clients f')) by (unfold candidates; by rewrite Hp).
  pose proof (find_perm (usable f p) _ _ Hc) as Hf.
  destruct (find _ (candidates s q (f_clients f))), (find _ (candidates s q (f_clients f'))); try naive_solver.
  simpl. pose proof (rejection_perm p _ _ Hc). by destruct (candidates s q (f_clients f)), (candidates s q (f_clients f')).
Qed.

(** ** The target of a public listener *)

Definition good (f : Fleet) (s : ExposeSpec) (h : ClientHandle) (d : TunnelDecl) : bool :=
  carries h (org_of_id (es_org_id s)) (es_tunnel s) d && compatible d (el_protocol (es_listener s)) && serviceable f h.

Definition server_of (f : Fleet) (s : ExposeSpec) (kh : str * ClientHandle) : option TunnelDecl :=
  find (good f s kh.2) (conn_tunnels kh.2).

Definition serving (f : Fleet) (s : ExposeSpec) (kh : str * ClientHandle) : bool :=
  match server_of f s kh with Some _ => true | None => false end.

Lemma target_decls_spec f s id h failure ds :
  match find (good f s h) ds with
  | Some d => target_decls f s id h failure ds = Ok (target_of s id h d)
  | None => ∃ e, target_decls f s id h failure ds = Err e
  end.
Proof.
  revert failure. induction ds as [|d ds IH]; intros failure; simpl; [eauto|]. unfold good at 1.
  destruct (carries _ _ _ _); simpl; [|apply IH]. destruct (compatible _ _); simpl; [|apply IH].
  by destruct (serviceable f h); simpl; [|apply IH].
Qed.

Lemma target_loop_spec f s failure clients :
  match find (serving f s) clients with
  | Some kh => ∃ d, server_of f s kh = Some d ∧ target_loop f s failure clients = Ok (target_of s kh.1 kh.2 d)
  | None => ∃ e, target_loop f s failure clients = Err e
  end.
Proof.
  revert failure. induction clients as [|[id h] clients IH]; intros failure; simpl; [eauto|].
  unfold serving at 1, server_of at 1. simpl. pose proof (target_decls_spec f s id h failure (conn_tunnels h)) as Hd.
  destruct (find (good f s h) (conn_tunnels h)) as [d|] eqn:E; simpl in *.
  - exists d. unfold server_of. simpl. by rewrite Hd.
  - destruct Hd as [e ->]. apply IH.
Qed.

Lemma good_spec f s h d :
  good f s h d = true ↔
  org_id (perms h) = org_of_id (es_org_id s) ∧ name_of d = es_tunnel s ∧ td_encrypt d = false
  ∧ protocol_serves (td_protocol d) (protocol_str (el_protocol (es_listener s))) = true ∧ serviceable f h = true.
Proof.
  unfold good, carries, compatible. rewrite !andb_true_iff, bool_decide_eq_true, str_eqb_eq, negb_true_iff. tauto.
Qed.

(** A public listener's stream goes to a connection of the listener's own
    organization that declares its tunnel unencrypted on its transport and can
    serve now, and of all such connections to the one with the least id,
    whatever order the map gives them in; the relay's own check of its target
    agrees. A path is found whenever there is one. *)
Theorem target_exact f s :
  NoDup (keys (f_clients f)) →
  match target f s with
  | Ok t =>
      org_known f (org_of_id (es_org_id s)) = true
      ∧ (∃ h d, (t_client_id t, h) ∈ f_clients f ∧ d ∈ conn_tunnels h ∧ good f s h d = true
                ∧ t_target t = td_target d ∧ t_tx t = tx h ∧ t_service t = stream_service h)
      ∧ (∀ id h d, (id, h) ∈ f_clients f → d ∈ conn_tunnels h → good f s h d = true → str_leb (t_client_id t) id = true)
      ∧ still_serving f t = true
  | Err _ =>
      org_known f (org_of_id (es_org_id s)) = true →
      ∀ id h d, (id, h) ∈ f_clients f → d ∈ conn_tunnels h → good f s h d = false
  end.
Proof.
  intros Hnd. unfold target. destruct (org_known f _) eqn:Ek; [|done]. simpl.
  pose proof (target_loop_spec f s Waiting (sort_by client_leb (f_clients f))) as Hl.
  assert (Hserv : ∀ id h d, d ∈ conn_tunnels h → good f s h d = true → serving f s (id, h) = true).
  { intros id h d Hd Hg. unfold serving, server_of. simpl. destruct (find (good f s h) (conn_tunnels h)) eqn:E; [done|].
    rewrite (find_none _ _ E d (proj1 (list_elem_of_In _ _) Hd)) in Hg. done. }
  destruct (find (serving f s) _) as [[id h]|] eqn:Ef.
  - destruct Hl as (d & Hd & ->). apply find_Some_elem in Hd as [Hd Hg]. simpl in *.
    pose proof Ef as Hin. apply find_Some_elem in Hin as [Hin _]. rewrite sort_by_perm in Hin.
    pose proof (proj1 (good_spec _ _ _ _) Hg) as (Ho & Hn & He & Hp & Hs). split_and!; [done|eauto 10| |].
    + intros id' h' d' Hin' Hd' Hg'.
      refine (find_sorted_first client_leb _ _ (id, h) (id', h') (sort_by_sorted _ _ _ _) Ef _ _ _); unfold client_leb; simpl.
      1,2: eauto using str_leb_total, str_leb_trans.
      * by rewrite sort_by_perm.
      * eauto.
      * apply str_leb_refl.
    + unfold still_serving, target_of. simpl. rewrite (aget_elem _ _ _ Hnd Hin), Z.eqb_refl, bool_decide_eq_true_2, Hs by done.
      simpl. apply existsb_Exists. exists d. split; [done|]. rewrite He, Hp, !(proj2 (str_eqb_eq _ _)) by done. done.
  - destruct Hl as [e ->]. intros _ id h d Hin Hd. destruct (good f s h d) eqn:Hg; [|done].
    pose proof (find_none _ _ Ef (id, h)) as Hnone. rewrite (Hserv id h d) in Hnone by done. apply Hnone.
    apply list_elem_of_In. by rewrite sort_by_perm.
Qed.

(** ** Discovery *)

Definition tunnel_key (v : TunnelView) : str * option str := (tv_name v, tv_org v).
Definition path_key (f : Fleet) (hd : ClientHandle * TunnelDecl) : str * option str := (name_of hd.2, org_name f hd.1).

Lemma same_tunnel_key name org v : same_tunnel name org v = true ↔ tunnel_key v = (name, org).
Proof. unfold same_tunnel, tunnel_key. rewrite andb_true_iff, str_eqb_eq, bool_decide_eq_true. naive_solver. Qed.

(** How many of the paths have a key, and whether one of them can serve. *)
Definition count_paths (f : Fleet) (k : str * option str) (l : list (ClientHandle * TunnelDecl)) : Z :=
  Z.of_nat (length (filter (λ hd, path_key f hd = k) l)).
Definition some_usable (f : Fleet) (k : str * option str) (l : list (ClientHandle * TunnelDecl)) : bool :=
  existsb (fun hd => bool_decide (path_key f hd = k) && serviceable f hd.1) l.

(** What the entries say of the paths seen so far. *)
Record tallied (f : Fleet) (l : list (ClientHandle * TunnelDecl)) (out : list TunnelView) : Prop := {
  ta_keys : NoDup (tunnel_key <$> out);
  ta_all : ∀ hd, hd ∈ l → path_key f hd ∈ tunnel_key <$> out;
  ta_count : ∀ v, v ∈ out → tv_paths v = count_paths f (tunnel_key v) l ∧ 0 < tv_paths v
                            ∧ tv_available v = some_usable f (tunnel_key v) l;
}.

Lemma add_path_keys h u org d out :
  tunnel_key <$> add_path h u org d out =
  if bool_decide ((name_of d, org) ∈ tunnel_key <$> out) then tunnel_key <$> out
  else (tunnel_key <$> out) ++ [(name_of d, org)].
Proof.
  induction out as [|v out IH]; [done|]. cbn [add_path]. rewrite fmap_cons.
  destruct (same_tunnel (name_of d) org v) eqn:E; rewrite fmap_cons.
  - apply same_tunnel_key in E. rewrite bool_decide_eq_true_2 by (rewrite E; by left). done.
  - assert (tunnel_key v ≠ (name_of d, org)) as Hne by (intros Hk; apply same_tunnel_key in Hk; congruence).
    rewrite IH. repeat case_bool_decide; try done; set_solver.
Qed.

Lemma elem_of_add_path h u org d out v :
  v ∈ add_path h u org d out →
  (v ∈ out ∧ tunnel_key v ≠ (name_of d, org))
  ∨ (∃ w, w ∈ out ∧ tunnel_key w = (name_of d, org) ∧ v = another_path w u)
  ∨ (v = first_path h u org d ∧ (name_of d, org) ∉ tunnel_key <$> out)
  ∨ (v ∈ out ∧ ¬ NoDup (tunnel_key <$> out)).
Proof.
  induction out as [|w out IH]; simpl; [set_solver|]. destruct (same_tunnel (name_of d) org w) eqn:E.
  - apply same_tunnel_key in E. intros Hv. apply elem_of_cons in Hv as [->|Hv]; [right; left; set_solver|].
    destruct (decide (tunnel_key v = (name_of d, org))) as [Hk|Hk]; [|set_solver].
    do 3 right. split; [set_solver|]. intros Hn. apply NoDup_cons in Hn as [Hn _]. apply Hn. rewrite E, <- Hk.
    apply list_elem_of_fmap. eauto.
  - assert (tunnel_key w ≠ (name_of d, org)) as Hne by (intros Hk; apply same_tunnel_key in Hk; congruence).
    intros Hv. apply elem_of_cons in Hv as [->|Hv]; [left; set_solver|]. apply IH in Hv as [Hv|[Hv|[Hv|[Hv Hn]]]].
    + set_solver.
    + set_solver.
    + set_solver.
    + do 3 right. split; [set_solver|]. rewrite NoDup_cons. naive_solver.
Qed.

Lemma tallied_step f l out hd : tallied f l out → tallied f (l ++ [hd]) (collect_step f out hd).
Proof.
  intros [Hk Ha Hc]. destruct hd as [h d]. unfold collect_step. simpl.
  assert (Hcount : ∀ k, count_paths f k (l ++ [(h, d)]) =
    count_paths f k l + if bool_decide (path_key f (h, d) = k) then 1 else 0).
  { intros k. unfold count_paths. rewrite filter_app, length_app, filter_cons, filter_nil.
    case_bool_decide; case_decide; simpl; try done; lia. }
  assert (Hus : ∀ k, some_usable f k (l ++ [(h, d)]) =
    some_usable f k l || (bool_decide (path_key f (h, d) = k) && serviceable f h)).
  { intros k. unfold some_usable. rewrite existsb_app. simpl. by rewrite orb_false_r. }
  constructor.
  - rewrite add_path_keys. case_bool_decide; [done|]. apply NoDup_app. repeat split; [done| |apply NoDup_singleton].
    set_solver.
  - intros hd Hin. rewrite add_path_keys. apply elem_of_app in Hin as [Hin|Hin].
    + specialize (Ha hd Hin). case_bool_decide; set_solver.
    + apply list_elem_of_singleton in Hin as ->. unfold path_key. simpl. case_bool_decide; set_solver.
  - intros v Hv. rewrite Hcount, Hus. apply elem_of_add_path in Hv as [[Hv Hne]|[(w & Hw & Hkw & ->)|[[-> Hno]|[_ Hn]]]]; [| | |done].
    + rewrite bool_decide_eq_false_2 by (unfold path_key; simpl; congruence).
      rewrite orb_false_r, Z.add_0_r. auto.
    + change (tunnel_key (another_path w (serviceable f h))) with (tunnel_key w).
      rewrite bool_decide_eq_true_2 by (by rewrite Hkw). simpl. destruct (Hc w Hw) as (-> & ? & ->). split_and!; [done|lia|done].
    + change (tunnel_key (first_path h _ _ d)) with (path_key f (h, d)). rewrite bool_decide_eq_true_2 by done. simpl.
      assert (Hz : filter (λ hd, path_key f hd = path_key f (h, d)) l = []).
      { destruct (filter _ l) as [|x r] eqn:Ef; [done|]. exfalso. apply Hno.
        assert (x ∈ filter (λ hd, path_key f hd = path_key f (h, d)) l) as Hx by (rewrite Ef; by left).
        apply list_elem_of_filter in Hx as [Hx1 Hx2]. apply Ha in Hx2. by rewrite Hx1 in Hx2. }
      unfold count_paths. rewrite Hz. split_and!; [done|lia|]. destruct (some_usable _ _ l) eqn:Eu; [|done].
      exfalso. apply existsb_Exists in Eu as (x & Hx & Hp). to_prop.
      assert (x ∈ filter (λ hd, path_key f hd = path_key f (h, d)) l) as Hf by (by apply list_elem_of_filter).
      rewrite Hz in Hf. by apply elem_of_nil in Hf.
Qed.

Lemma collect_tallied f l : tallied f l (fold_left (collect_step f) l []).
Proof.
  induction l as [|hd l IH] using rev_ind.
  - constructor; [constructor|set_solver..].
  - rewrite fold_left_app. simpl. by apply tallied_step.
Qed.

Lemma tallied_perm f l out out' : out ≡ₚ out' → tallied f l out → tallied f l out'.
Proof.
  intros Hp [Hk Ha Hc]. constructor.
  - by rewrite <- Hp.
  - intros hd. rewrite <- Hp. auto.
  - intros v. rewrite <- Hp. auto.
Qed.

Lemma opt_leb_total a b : opt_leb a b = false → opt_leb b a = true.
Proof. destruct a, b; simpl; try done. apply str_leb_total. Qed.

Lemma str_leb_antisym a b : str_leb a b = true → str_leb b a = true → a = b.
Proof.
  revert b. induction a as [|x a IH]; intros [|y b]; simpl; try done. intros H1 H2.
  assert (code x = code y) as Hc by lia. rewrite Hc, Z.ltb_irrefl, Z.eqb_refl in *. simpl in *.
  f_equal; [by apply code_inj|by apply IH].
Qed.

Lemma view_leb_total a b : view_leb a b = false → view_leb b a = true.
Proof.
  unfold view_leb. case_bool_decide as Ho.
  - rewrite bool_decide_eq_true_2 by done. apply str_leb_total.
  - rewrite bool_decide_eq_false_2 by done. apply opt_leb_total.
Qed.

Lemma opt_leb_trans a b c : opt_leb a b = true → opt_leb b c = true → opt_leb a c = true.
Proof. destruct a, b, c; simpl; try done. apply str_leb_trans. Qed.

Lemma opt_leb_antisym a b : opt_leb a b = true → opt_leb b a = true → a = b.
Proof. destruct a, b; simpl; try done. intros. f_equal. by apply str_leb_antisym. Qed.

Lemma view_leb_trans a b c : view_leb a b = true → view_leb b c = true → view_leb a c = true.
Proof.
  unfold view_leb.
  destruct (decide (tv_org a = tv_org b)) as [Hab|Hab], (decide (tv_org b = tv_org c)) as [Hbc|Hbc].
  - rewrite !bool_decide_eq_true_2 by congruence. apply str_leb_trans.
  - rewrite (bool_decide_eq_true_2 (tv_org a = tv_org b)), !bool_decide_eq_false_2 by congruence. congruence.
  - rewrite (bool_decide_eq_true_2 (tv_org b = tv_org c)), !bool_decide_eq_false_2 by congruence. congruence.
  - rewrite (bool_decide_eq_false_2 (tv_org a = tv_org b)), (bool_decide_eq_false_2 (tv_org b = tv_org c)) by done.
    intros H1 H2. case_bool_decide as Hac; [|by eapply opt_leb_trans].
    destruct Hab. apply opt_leb_antisym; [done|]. by rewrite Hac.
Qed.

(** Discovery shows a caller every tunnel it may bind and no other, one entry
    for each name of an organization: the entry counts the connections that
    announce it and says it is available exactly when one of them can serve, and
    the entries come in the order of organization and name. *)
Theorem discovery_exact f p :
  let paths := paths_of f (may_bind p) in
  NoDup (tunnel_key <$> visible f p)
  ∧ (∀ k, k ∈ tunnel_key <$> visible f p ↔ ∃ hd, hd ∈ paths ∧ path_key f hd = k)
  ∧ (∀ v, v ∈ visible f p → tv_paths v = count_paths f (tunnel_key v) paths
                            ∧ tv_available v = some_usable f (tunnel_key v) paths)
  ∧ StronglySorted (λ a b, view_leb a b = true) (visible f p).
Proof.
  simpl. unfold visible, collect.
  assert (Ht : tallied f (paths_of f (may_bind p)) (sort_by view_leb (fold_left (collect_step f) (paths_of f (may_bind p)) []))).
  { eapply tallied_perm; [symmetry; apply sort_by_perm|apply collect_tallied]. }
  destruct Ht as [Hk Ha Hc]. split_and!; [done| | |].
  - intros k. split.
    + intros Hk'. apply list_elem_of_fmap in Hk' as (v & -> & Hv). destruct (Hc v Hv) as (Hn & Hpos & _).
      unfold count_paths in Hn. destruct (filter (λ hd, path_key f hd = tunnel_key v) _) as [|hd r] eqn:E; simpl in Hn; [lia|].
      assert (hd ∈ filter (λ hd, path_key f hd = tunnel_key v) (paths_of f (may_bind p))) as Hin by (rewrite E; by left).
      apply list_elem_of_filter in Hin as [? ?]. eauto.
    + intros (hd & Hin & <-). auto.
  - intros v Hv. destruct (Hc v Hv) as (? & _ & ?). auto.
  - apply sort_by_sorted; [apply view_leb_total|apply view_leb_trans].
Qed.

Lemma elem_of_paths f include hd :
  hd ∈ paths_of f include ↔ ∃ id, (id, hd.1) ∈ f_clients f ∧ include (perms hd.1) = true ∧ hd.2 ∈ conn_tunnels hd.1.
Proof.
  unfold paths_of. rewrite elem_of_concat_fmap. split.
  - intros ([id h] & Hin & Hd). apply list_elem_of_filter in Hin as [Hi Hin]. apply list_elem_of_fmap in Hd as (d & -> & Hd).
    simpl in *. eauto.
  - intros (id & Hin & Hi & Hd). exists (id, hd.1). rewrite list_elem_of_filter. split; [done|].
    apply list_elem_of_fmap. exists hd.2. split; [by destruct hd|done].
Qed.

(** A path the caller may bind is counted in a row of the listing. *)
Lemma path_is_listed f p id h d :
  (id, h) ∈ f_clients f → may_bind p (perms h) = true → d ∈ conn_tunnels h →
  ∃ v, v ∈ visible f p ∧ tunnel_key v = path_key f (h, d).
Proof.
  intros Hin Hb Hd. destruct (collect_tallied f (paths_of f (may_bind p))) as [_ Hall _].
  assert (Hp : (h, d) ∈ paths_of f (may_bind p)) by (apply elem_of_paths; by exists id).
  apply Hall, list_elem_of_fmap in Hp as (v & Hk & Hv). exists v. split; [|done].
  unfold visible, collect. by rewrite sort_by_perm.
Qed.

Lemma plain_name_unqualified name :
  validate_name name = true → trim name = name → split_qualified name = (None, name).
Proof.
  intros Hval Htrim. unfold split_qualified. rewrite Htrim. rewrite (proj2 (split_once_None _ _)); [done|].
  unfold validate_name in Hval. to_prop. rewrite Htrim in *. intros Hat.
  match goal with Hf : forallb _ _ = true |- _ => rewrite forallb_forall in Hf; apply list_elem_of_In, Hf in Hat end. done.
Qed.

Lemma declared_by_name name id h d :
  split_qualified name = (None, name) → d ∈ conn_tunnels h → name_of d = name →
  ∃ d', declared (Name name) id h = Some d'.
Proof.
  intros Hq Hd Hname. simpl. rewrite Hq.
  destruct (find (λ d, str_eqb (name_of d) (None, name).2) (conn_tunnels h)) eqn:E; [eauto|].
  pose proof (find_none _ _ E d (proj1 (list_elem_of_In _ _) Hd)) as Hn. simpl in Hn.
  rewrite Hname in Hn. unfold str_eqb in Hn. to_prop. done.
Qed.

(** C36: What discovery shows as available can be bound by the name it shows. For
    a caller that lists an available tunnel under a well-formed name (one that
    [validate_name] passes, without surrounding spaces), resolving that name gives
    a connection of the table that declares a tunnel of that name, that the caller
    may bind and that can serve now; where no other row of the listing has the
    name, it is a path of that very tunnel: the same name in the same
    organization. A name that is not well formed can be listed and not resolve
    ([listed_with_at_unbindable]). *)
Theorem listed_is_bindable f p v :
  v ∈ visible f p → tv_available v = true → validate_name (tv_name v) = true → trim (tv_name v) = tv_name v →
  ∃ r h, resolve f p (Name (tv_name v)) = Ok r ∧ (r_client_id r, h) ∈ f_clients f ∧ tx h = r_tx r
    ∧ r_decl r ∈ conn_tunnels h ∧ name_of (r_decl r) = tv_name v
    ∧ may_bind p (perms h) = true ∧ serviceable f h = true
    ∧ ((∀ v', v' ∈ visible f p → tv_name v' = tv_name v → v' = v) → path_key f (h, r_decl r) = tunnel_key v).
Proof.
  intros Hv Hav Hval Htrim. pose proof (plain_name_unqualified _ Hval Htrim) as Hq.
  pose proof Hv as Hv0. unfold visible, collect in Hv. rewrite sort_by_perm in Hv.
  destruct (collect_tallied f (paths_of f (may_bind p))) as [_ _ Hc]. destruct (Hc v Hv) as (_ & _ & Hu).
  rewrite Hu in Hav. apply existsb_Exists in Hav as ([h d] & Hin & Hp).
  apply andb_true_iff in Hp as [Hkey%bool_decide_eq_true Hs].
  apply elem_of_paths in Hin as (id & Hin & Hb & Hd). simpl in *. unfold path_key, tunnel_key in Hkey. simpl in Hkey.
  injection Hkey as Hname Horg.
  destruct (declared_by_name _ id h d Hq Hd Hname) as [d' Hd'].
  unfold resolve, qualifier_of. rewrite Hq. cbn [fst]. rewrite resolve_loop_spec.
  destruct (find (usable f p) _) as [c|] eqn:E.
  - apply find_Some_elem in E as [Hcand Huse]. apply elem_of_candidates in Hcand as (Hc1 & _ & Hc2).
    unfold usable, permitted in Huse. apply andb_true_iff in Huse as [Hmay Hser].
    assert (Hdecl : c.2 ∈ conn_tunnels c.1.2 ∧ name_of c.2 = tv_name v).
    { simpl in Hc2. apply find_Some_elem in Hc2 as [? Hn]. rewrite Hq in Hn. by apply str_eqb_eq in Hn. }
    destruct Hdecl as [Hdin Hdname]. exists (resolved_of c), c.1.2. split_and!; try done.
    intros Huniq. destruct (path_is_listed f p c.1.1 c.1.2 c.2) as (v' & Hv' & Hk); [done..|].
    unfold resolved_of, r_decl. rewrite <- Hk. f_equal. apply Huniq; [done|].
    unfold tunnel_key, path_key in Hk. injection Hk as -> _. done.
  - exfalso.
    assert (Hcand : (id, h, d') ∈ candidates (Name (tv_name v)) None (f_clients f)) by (by apply elem_of_candidates).
    pose proof (find_none _ _ E _ (proj1 (list_elem_of_In _ _) Hcand)) as Hn.
    unfold usable, permitted in Hn. simpl in Hn. rewrite Hb in Hn. simpl in Hn. congruence.
Qed.

(** ** Samples *)

Module RegistrySamples.

Definition decl (name : option str) (target protocol : str) : TunnelDecl :=
  {| td_name := name; td_custom_name := None; td_target := target; td_protocol := protocol; td_encrypt := false;
     td_idle_timeout := None |}.

Definition service (enabled : bool) (ds : list TunnelDecl) : ServiceState :=
  {| request_count := 0; declared_path := None; assigned_path := None;
     declared_hostname := None; declared_hostnames := []; assigned_hostnames := [];
     random_hostname := None; max_concurrent := None; max_concurrent_ceiling := None;
     inflight_limiter := None; admin_enabled := enabled; server_side_target := None;
     server_side_refused := None; policy_conflict := None; catch_all := false;
     serves_http := false; route_noticed := false; capture := true; connections := None;
     connections_min := None; connections_max := None; config_notes := [];
     metrics_labels := []; tcp_enabled := true; backend_healthy := true;
     backend_probed := true; priority := 0; bandwidth_bps := 0; service_name := Some (bs "db");
     service_custom_name := None; public := false; public_denied_warned := false;
     visitor_auth := None; visitor_auth_policy := None; visitor_auth_denied_warned := false;
     ungated_warned := false; allowed_ips := []; allowed_ips_invalid_warned := false;
     scaling_invalid_warned := false; tunnels := ds; cache := false;
     cache_ignored_warned := false; notices_sent := []; resilience := false;
     max_request_body := None; response_timeout := None; webhook_inbox := false;
     denied := None; recent_failures := []; ejected_until := None |}.

Definition in_org (token : str) (org : option str) (bind : bool) : ClientPerms :=
  {| master := false; hostnames := []; paths := []; token_name := Some token; token_id := Some token;
     allow_public := false; allow_server_side := false; allow_bind := bind; allow_otel := false;
     topics := []; org_id := org; org_hostnames := []; max_connections := None |}.

Definition conn (n : Z) (p : ClientPerms) (drain : bool) (ds : list TunnelDecl) : ClientHandle :=
  {| tx := n; connected_at := 0; client_ip := bs "192.0.2.1"; last_ping_at := Some 5;
     perms := p; draining := drain; declared_client_id := None; declared_name := None;
     drain_secs := None; client_version := None; client_protocol := None; rss_bytes := None;
     rtt_ms := None; jitter_ms := None; reconnects := None; reported_instance_id := None;
     instance_group := Some (bs "box"); subscriptions := []; services := [service true ds] |}.

Definition pg : TunnelDecl := decl (Some (bs "postgres")) (bs "127.0.0.1:5432") (bs "tcp").

(** Two connections of a process of [acme], the first one draining, and one of
    another organization that declares the same name. *)
Definition fleet : Fleet :=
  {| f_orgs := [(bs "o1", bs "acme"); (bs "o2", bs "other")];
     f_clients := [(bs "c2", conn 2 (in_org (bs "t1") (Some (bs "o1")) false) true [pg]);
                   (bs "c1", conn 1 (in_org (bs "t1") (Some (bs "o1")) false) false [pg]);
                   (bs "c3", conn 3 (in_org (bs "t2") (Some (bs "o2")) false) false [pg])];
     f_now := 6; f_down_threshold := 30 |}.

Definition binder : ClientPerms := in_org (bs "t9") (Some (bs "o1")) true.

Definition rule : ExposeSpec :=
  {| es_org_id := bs "o1"; es_tunnel := bs "postgres"; es_listener := {| el_address := V4 0; el_port := 5432; el_protocol := Tcp |};
     es_enabled := true; es_limits := limits_defaults Tcp; es_allowed_ips := []; es_advertised_host := None |}.

Lemma resolve_is_permitted_witness :
  ∃ r, resolve fleet binder (Name (bs "acme@postgres")) = Ok r ∧ r_client_id r = bs "c1"
       ∧ name_of (r_decl r) = bs "postgres".
Proof.
  eexists. split; [vm_compute; reflexivity|]. split; [reflexivity|].
  pose proof (resolve_is_permitted fleet binder (Name (bs "acme@postgres")) _ eq_refl) as (h & _ & _ & _ & _ & _ & H & _).
  exact H.
Defined.

Definition shuffled : Fleet :=
  {| f_orgs := f_orgs fleet; f_clients := reverse (f_clients fleet); f_now := 6; f_down_threshold := 30 |}.

Lemma resolve_order_free_witness :
  resolve fleet binder (Name (bs "postgres")) ≠ Err Forbidden
  ∧ match resolve fleet binder (Name (bs "other@postgres")), resolve shuffled binder (Name (bs "other@postgres")) with
    | Ok _, Ok _ => True | Err e, Err e' => e = e' | _, _ => False end.
Proof.
  split; [vm_compute; discriminate|].
  apply resolve_order_free; [reflexivity..|]. simpl. symmetry. apply reverse_Permutation.
Defined.

Lemma target_exact_witness :
  ∃ t, target fleet rule = Ok t ∧ t_client_id t = bs "c1" ∧ still_serving fleet t = true.
Proof.
  assert (Hnd : NoDup (keys (f_clients fleet))) by (apply (bool_decide_eq_true_1 _); vm_compute; reflexivity).
  pose proof (target_exact fleet rule Hnd) as H.
  destruct (target fleet rule) as [t|e] eqn:E; [|vm_compute in E; discriminate].
  exists t. split; [reflexivity|]. split; [|exact (proj2 (proj2 (proj2 H)))].
  vm_compute in E. injection E as <-. reflexivity.
Defined.

Definition listed : TunnelView := default (first_path (conn 0 binder false []) false None pg) (head (visible fleet binder)).

Lemma listed_is_bindable_witness :
  tv_paths listed = 2 ∧ ∃ r h, resolve fleet binder (Name (tv_name listed)) = Ok r ∧ path_key fleet (h, r_decl r) = tunnel_key listed.
Proof.
  split; [vm_compute; reflexivity|].
  assert (Hall : visible fleet binder = [listed]) by (vm_compute; reflexivity).
  destruct (listed_is_bindable fleet binder listed) as (r & h & Hr & _ & _ & _ & _ & _ & _ & H); [|vm_compute; reflexivity..|].
  - rewrite Hall. by left.
  - exists r, h. split; [exact Hr|]. apply H. rewrite Hall. intros v' Hv' _. by apply list_elem_of_singleton in Hv'.
Defined.

(** The server keeps declared names as they come: one with an [@] is listed as
    available, and read as a qualified name when it is bound. *)
Example listed_with_at_unbindable :
  let f := {| f_orgs := f_orgs fleet;
              f_clients := [(bs "c1", conn 1 (in_org (bs "t1") (Some (bs "o1")) false) false
                                        [decl (Some (bs "a@b")) (bs "127.0.0.1:1") (bs "tcp")])];
              f_now := 6; f_down_threshold := 30 |} in
  (fun v => (tv_name v, tv_available v)) <$> visible f binder = [(bs "a@b", true)]
  ∧ resolve f binder (Name (bs "a@b")) = Err Unknown.
Proof. vm_compute. done. Qed.

End RegistrySamples.
