(* ===== verification/ExposeManager.v ===== *)
(** Managed public listeners: [aperio-server/src/store/exposes.rs] (the one
    document of desired state, and the history of sessions) and
    [aperio-server/src/expose_manager.rs] (what runs, and how a new document is
    staged, committed and applied).

    What the code asks of the operating system is an argument: whether an
    address can be bound, and whether the document was saved. A listener's task
    is running or finished; a session keeps whether it was told to stop. *)

From Stdlib Require Import Sorting.Sorted.
From S2P Require Import Prelude IpNet Grants Expose.

(** ** The document *)

Record ExposeDocument : Type := {
  ed_version : Z;
  ed_revision : Z;
  ed_resources : list ExposeResource;
  ed_policies : list ExposePolicy;
}.

Definition default_document : ExposeDocument :=
  {| ed_version := 1; ed_revision := 1; ed_resources := []; ed_policies := [] |}.

Definition identity_ok (seen : list str) (r : ExposeResource) : bool :=
  negb (bool_decide (er_id r = []) || starts_with (bs "file:") (er_id r) || (er_revision r =? 0)
        || negb (bool_decide (er_source r = Api)) || bool_decide (er_id r ∈ seen)).

Fixpoint validate_resources (seen : list str) (rs : list ExposeResource) : result unit str :=
  match rs with
  | [] => Ok tt
  | r :: rs' =>
      if negb (identity_ok seen r) then Err (bs "invalid or repeated expose identity")
      else match spec_validate (er_spec r) with
           | [] => validate_resources (er_id r :: seen) rs'
           | errors => Err (er_id r ++ bs ": " ++ join (bs ", ") (show_error <$> errors))
           end
  end.

Fixpoint validate_policies (seen : list str) (ps : list ExposePolicy) : result unit str :=
  match ps with
  | [] => Ok tt
  | p :: ps' =>
      if (ep_revision p =? 0) || bool_decide (ep_org_id p ∈ seen) || match policy_validate p with [] => false | _ => true end
      then Err (bs "invalid or repeated expose policy")
      else validate_policies (ep_org_id p :: seen) ps'
  end.

Definition doc_validate (d : ExposeDocument) : result unit str :=
  if negb (ed_version d =? 1) || (ed_revision d =? 0) then Err (bs "unsupported expose document version/revision")
  else match validate_resources [] (ed_resources d) with
       | Err e => Err e
       | Ok _ => validate_policies [] (ed_policies d)
       end.

(** ** The store *)

Record ExposeStore : Type := { st_document : ExposeDocument; st_load_error : option str }.

(** [from_connection]: the row read, if the query went through, and its JSON. *)
Definition from_connection (row : result (option str) str) (from_json : str → result ExposeDocument str) : ExposeStore :=
  let loaded :=
    match row with
    | Err e => Err e
    | Ok None => Ok default_document
    | Ok (Some raw) => from_json raw
    end in
  let checked := match loaded with
                 | Err e => Err e
                 | Ok doc => match doc_validate doc with Err e => Err e | Ok _ => Ok doc end
                 end in
  match checked with
  | Ok doc => {| st_document := doc; st_load_error := None |}
  | Err e => {| st_document := default_document; st_load_error := Some e |}
  end.

Definition with_revision (d : ExposeDocument) (n : Z) : ExposeDocument :=
  {| ed_version := ed_version d; ed_revision := n; ed_resources := ed_resources d; ed_policies := ed_policies d |}.

(** [saved]: the answer of the database to the transaction. *)
Definition commit (saved : result unit str) (st : ExposeStore) (next : ExposeDocument) : result ExposeStore str :=
  match st_load_error st with
  | Some _ => Err (bs "expose store requires recovery; invalid stored configuration was preserved")
  | None =>
      if u64_max <=? ed_revision (st_document st) then Err (bs "expose revision exhausted")
      else
        let next := with_revision next (ed_revision (st_document st) + 1) in
        match doc_validate next with
        | Err e => Err e
        | Ok _ => match saved with
                  | Err e => Err e
                  | Ok _ => Ok {| st_document := next; st_load_error := None |}
                  end
        end
  end.

(** ** Sessions *)

Record SessionView : Type := {
  sv_id : str;
  sv_expose_id : str;
  sv_org_id : str;
  sv_revision : Z;
  sv_protocol : ExposeProtocol;
  sv_peer : ipaddr * Z;
  sv_client_id : str;
  sv_target : str;
  sv_started_at : Z;
  sv_up_bytes : Z;
  sv_down_bytes : Z;
  sv_up_packets : Z;
  sv_down_packets : Z;
  sv_idle_seconds : Z;
  sv_ended_at : option Z;
  sv_reason : option str;
}.

(** A row of [expose_sessions]. *)
Record session_row : Type := { sr_id : str; sr_org : str; sr_ended : Z; sr_view : SessionView }.

Definition i64_max : Z := 2 ^ 63 - 1.
Definition WEEK : Z := 7 * 86400.

Definition cutoff_of (now_secs : Z) : Z := Z.min (sat_sub now_secs WEEK) i64_max.

Definition row_of (v : SessionView) : session_row :=
  {| sr_id := sv_id v; sr_org := sv_org_id v; sr_ended := Z.min (default 0 (sv_ended_at v)) i64_max; sr_view := v |}.

(** [ORDER BY ended_at DESC, id DESC] *)
Definition row_leb (a b : session_row) : bool :=
  (sr_ended b <? sr_ended a) || ((sr_ended a =? sr_ended b) && str_leb (sr_id b) (sr_id a)).

(** [DELETE … WHERE id IN (SELECT id … LIMIT -1 OFFSET n)] over the rows of a
    selection. *)
Definition keep_newest (n : nat) (sel : session_row → bool) (rows : list session_row) : list session_row :=
  let gone := sr_id <$> drop n (sort_by row_leb (filter (fun r => sel r = true) rows)) in
  filter (fun r => sr_id r ∉ gone) rows.

Definition record_session (now_secs : Z) (rows : list session_row) (v : SessionView) : list session_row :=
  let rows := filter (fun r => sr_id r ≠ sv_id v) rows ++ [row_of v] in
  let rows := filter (fun r => cutoff_of now_secs <= sr_ended r) rows in
  let rows := keep_newest 256 (fun r => str_eqb (sr_org r) (sv_org_id v)) rows in
  keep_newest 2048 (fun _ => true) rows.

(** The rows of a store whose every row carries its own view. *)
Definition session_history (now_secs : Z) (rows : list session_row) : list SessionView :=
  sr_view <$> take 2048 (sort_by row_leb (filter (fun r => cutoff_of now_secs <= sr_ended r) rows)).

Record Session : Type := { ss_view : SessionView; ss_touched : Z; ss_stop : bool }.

(** ** The rate of a listener *)

Record Budget : Type := { b_second : option Z; b_up : Z; b_down : Z; b_opened : Z }.

Definition no_budget : Budget := {| b_second := None; b_up := 0; b_down := 0; b_opened := 0 |}.

Definition refresh (now : Z) (b : Budget) : Budget :=
  if match b_second b with None => true | Some t => second <=? sat_sub now t end
  then {| b_second := Some now; b_up := 0; b_down := 0; b_opened := 0 |}
  else b.

Definition budget_bytes (now : Z) (down : bool) (bytes limit : Z) (b : Budget) : bool * Budget :=
  let b := refresh now b in
  let used := if down then b_down b else b_up b in
  if limit <? sat_add64 used bytes then (false, b)
  else (true, if down then {| b_second := b_second b; b_up := b_up b; b_down := wrap64 (used + bytes); b_opened := b_opened b |}
              else {| b_second := b_second b; b_up := wrap64 (used + bytes); b_down := b_down b; b_opened := b_opened b |}).

Definition budget_open (now : Z) (limit : Z) (b : Budget) : bool * Budget :=
  let b := refresh now b in
  if limit <=? b_opened b then (false, b)
  else (true, {| b_second := b_second b; b_up := b_up b; b_down := b_down b; b_opened := b_opened b + 1 |}).

(** ** A running listener *)

Record Control : Type := {
  ct_resource : ExposeResource;
  ct_accepting : bool;
  ct_terminate : bool;
  ct_deadline : option Z;
}.

Record Runtime : Type := {
  rt_control : Control;
  rt_status : ExposeListenerState * option str;
  rt_sessions : list (str * Session);
  rt_history : list SessionView;
  rt_budget : Budget;
  rt_opened : Z;
  rt_up_bytes : Z;
  rt_down_bytes : Z;
  rt_up_packets : Z;
  rt_down_packets : Z;
  rt_drops : list (str * Z);
}.

Definition new_runtime (r : ExposeResource) (status : ExposeListenerState) : Runtime :=
  {| rt_control := {| ct_resource := r;
                      ct_accepting := es_enabled (er_spec r) && bool_decide (status = Listening);
                      ct_terminate := false; ct_deadline := None |};
     rt_status := (status, None); rt_sessions := []; rt_history := []; rt_budget := no_budget; rt_opened := 0;
     rt_up_bytes := 0; rt_down_bytes := 0; rt_up_packets := 0; rt_down_packets := 0; rt_drops := [] |}.

Definition with_control (t : Runtime) (c : Control) : Runtime :=
  {| rt_control := c; rt_status := rt_status t; rt_sessions := rt_sessions t; rt_history := rt_history t;
     rt_budget := rt_budget t; rt_opened := rt_opened t; rt_up_bytes := rt_up_bytes t; rt_down_bytes := rt_down_bytes t;
     rt_up_packets := rt_up_packets t; rt_down_packets := rt_down_packets t; rt_drops := rt_drops t |}.

Definition with_status (t : Runtime) (s : ExposeListenerState) (e : option str) : Runtime :=
  {| rt_control := rt_control t; rt_status := (s, e); rt_sessions := rt_sessions t; rt_history := rt_history t;
     rt_budget := rt_budget t; rt_opened := rt_opened t; rt_up_bytes := rt_up_bytes t; rt_down_bytes := rt_down_bytes t;
     rt_up_packets := rt_up_packets t; rt_down_packets := rt_down_packets t; rt_drops := rt_drops t |}.

Definition with_sessions (t : Runtime) (ss : list (str * Session)) (hist : list SessionView) : Runtime :=
  {| rt_control := rt_control t; rt_status := rt_status t; rt_sessions := ss; rt_history := hist;
     rt_budget := rt_budget t; rt_opened := rt_opened t; rt_up_bytes := rt_up_bytes t; rt_down_bytes := rt_down_bytes t;
     rt_up_packets := rt_up_packets t; rt_down_packets := rt_down_packets t; rt_drops := rt_drops t |}.

Definition dropped (t : Runtime) (reason : str) : Runtime :=
  {| rt_control := rt_control t; rt_status := rt_status t; rt_sessions := rt_sessions t; rt_history := rt_history t;
     rt_budget := rt_budget t; rt_opened := rt_opened t; rt_up_bytes := rt_up_bytes t; rt_down_bytes := rt_down_bytes t;
     rt_up_packets := rt_up_packets t; rt_down_packets := rt_down_packets t;
     rt_drops := aset reason (default 0 (aget reason (rt_drops t)) + 1) (rt_drops t) |}.

Definition told_to_stop (s : Session) : Session := {| ss_view := ss_view s; ss_touched := ss_touched s; ss_stop := true |}.
Definition stop_all (ss : list (str * Session)) : list (str * Session) := prod_map id told_to_stop <$> ss.

Definition stop (now : Z) (drain : option Z) (t : Runtime) : Runtime :=
  let c := rt_control t in
  let t := with_control t {| ct_resource := ct_resource c; ct_accepting := false;
                             ct_terminate := match drain with None => true | Some _ => false end;
                             ct_deadline := (fun d => now + d) <$> drain |} in
  let t := match drain with None => with_sessions t (stop_all (rt_sessions t)) (rt_history t) | Some _ => t end in
  with_status t (match drain with Some _ => Draining | None => Disabled end) None.

Definition transferred (v : SessionView) (down : bool) (bytes : Z) : SessionView :=
  {| sv_id := sv_id v; sv_expose_id := sv_expose_id v; sv_org_id := sv_org_id v; sv_revision := sv_revision v;
     sv_protocol := sv_protocol v; sv_peer := sv_peer v; sv_client_id := sv_client_id v; sv_target := sv_target v;
     sv_started_at := sv_started_at v;
     sv_up_bytes := if down then sv_up_bytes v else wrap64 (sv_up_bytes v + bytes);
     sv_down_bytes := if down then wrap64 (sv_down_bytes v + bytes) else sv_down_bytes v;
     sv_up_packets := if down then sv_up_packets v else wrap64 (sv_up_packets v + 1);
     sv_down_packets := if down then wrap64 (sv_down_packets v + 1) else sv_down_packets v;
     sv_idle_seconds := sv_idle_seconds v; sv_ended_at := sv_ended_at v; sv_reason := sv_reason v |}.

Definition transfer (now : Z) (id : str) (down : bool) (bytes : Z) (t : Runtime) : Runtime :=
  let ss := match aget id (rt_sessions t) with
            | Some s => aset id {| ss_view := transferred (ss_view s) down bytes; ss_touched := now; ss_stop := ss_stop s |}
                          (rt_sessions t)
            | None => rt_sessions t
            end in
  {| rt_control := rt_control t; rt_status := rt_status t; rt_sessions := ss; rt_history := rt_history t;
     rt_budget := rt_budget t; rt_opened := rt_opened t;
     rt_up_bytes := if down then rt_up_bytes t else wrap64 (rt_up_bytes t + bytes);
     rt_down_bytes := if down then wrap64 (rt_down_bytes t + bytes) else rt_down_bytes t;
     rt_up_packets := if down then rt_up_packets t else wrap64 (rt_up_packets t + 1);
     rt_down_packets := if down then wrap64 (rt_down_packets t + 1) else rt_down_packets t; rt_drops := rt_drops t |}.

Definition with_idle (v : SessionView) (idle : Z) : SessionView :=
  {| sv_id := sv_id v; sv_expose_id := sv_expose_id v; sv_org_id := sv_org_id v; sv_revision := sv_revision v;
     sv_protocol := sv_protocol v; sv_peer := sv_peer v; sv_client_id := sv_client_id v; sv_target := sv_target v;
     sv_started_at := sv_started_at v; sv_up_bytes := sv_up_bytes v; sv_down_bytes := sv_down_bytes v;
     sv_up_packets := sv_up_packets v; sv_down_packets := sv_down_packets v; sv_idle_seconds := idle;
     sv_ended_at := sv_ended_at v; sv_reason := sv_reason v |}.

Definition session_views (now : Z) (history : bool) (t : Runtime) : list SessionView :=
  ((fun ks : str * Session => with_idle (ss_view ks.2) (sat_sub now (ss_touched ks.2) / second)) <$> rt_sessions t)
  ++ (if history then rt_history t else []).

(** ** The manager *)

(** [en_task]: no task, or whether it still runs. *)
Record Entry : Type := { en_resource : ExposeResource; en_runtime : Runtime; en_task : option bool }.

Record RelayTotals : Type := {
  tt_opened : Z;
  tt_up_bytes : Z;
  tt_down_bytes : Z;
  tt_up_packets : Z;
  tt_down_packets : Z;
  tt_drops : list (str * Z);
}.

Definition no_totals : RelayTotals :=
  {| tt_opened := 0; tt_up_bytes := 0; tt_down_bytes := 0; tt_up_packets := 0; tt_down_packets := 0; tt_drops := [] |}.

Definition add_runtime (t : RelayTotals) (r : Runtime) : RelayTotals :=
  {| tt_opened := sat_add64 (tt_opened t) (rt_opened r);
     tt_up_bytes := sat_add64 (tt_up_bytes t) (rt_up_bytes r);
     tt_down_bytes := sat_add64 (tt_down_bytes t) (rt_down_bytes r);
     tt_up_packets := sat_add64 (tt_up_packets t) (rt_up_packets r);
     tt_down_packets := sat_add64 (tt_down_packets t) (rt_down_packets r);
     tt_drops := fold_left (fun d kc => aset kc.1 (sat_add64 (default 0 (aget kc.1 d)) kc.2) d) (rt_drops r) (tt_drops t) |}.

Record Manager : Type := {
  m_store : ExposeStore;
  m_entries : list (str * Entry);
  m_retired : list Entry;
  m_totals : list (ExposeProtocol * RelayTotals);
}.

Definition document (m : Manager) : ExposeDocument := st_document (m_store m).
Definition manager_resource (m : Manager) (id : str) : option ExposeResource := en_resource <$> aget id (m_entries m).
Definition policy_of (d : ExposeDocument) (org : str) : option ExposePolicy :=
  find (fun p => str_eqb (ep_org_id p) org) (ed_policies d).
Definition manager_policy (m : Manager) (org : str) : option ExposePolicy := policy_of (document m) org.

Definition live (e : Entry) : bool := match en_task e with Some true => true | _ => false end.
Definition draining_entry (e : Entry) (r : ExposeResource) : bool :=
  bool_decide (en_resource e = r) && match ct_deadline (rt_control (en_runtime e)) with Some _ => true | None => false end
  && live e.

Definition with_enabled (s : ExposeSpec) (b : bool) : ExposeSpec :=
  {| es_org_id := es_org_id s; es_tunnel := es_tunnel s; es_listener := es_listener s; es_enabled := b;
     es_limits := es_limits s; es_allowed_ips := es_allowed_ips s; es_advertised_host := es_advertised_host s |}.

Definition quota_spec (entries : list (str * Entry)) (r : ExposeResource) : ExposeSpec :=
  if negb (es_enabled (er_spec r))
     && match aget (er_id r) entries with Some e => draining_entry e r | None => false end
  then with_enabled (er_spec r) true else er_spec r.

Definition quota_specs (m : Manager) (rs : list ExposeResource) : list ExposeSpec := quota_spec (m_entries m) <$> rs.

Definition allowed (m : Manager) (r : ExposeResource) (d : ExposeDocument) : result unit str :=
  match policy_of d (es_org_id (er_spec r)) with
  | None => if str_eqb (es_org_id (er_spec r)) (bs "master") then Ok tt
            else Err (bs "no server expose allocation for this organization")
  | Some p =>
      if negb (allows p (er_spec r)) then Err (bs "listener is outside the organization's port allocation")
      else if negb (fits p (quota_specs m (ed_resources d))) then Err (bs "organization expose quota exceeded")
      else Ok tt
  end.

(** Whether a document leaves an organization as it is. *)
Definition org_unchanged (m : Manager) (d : ExposeDocument) (org : str) : bool :=
  let previous := filter (fun r => str_eqb (es_org_id (er_spec r)) org = true) ((fun ke : str * Entry => en_resource ke.2) <$> m_entries m) in
  let desired := filter (fun r => str_eqb (es_org_id (er_spec r)) org = true) (ed_resources d) in
  (length previous =? length desired)%nat && forallb (fun r => bool_decide (r ∈ previous)) desired
  && bool_decide (policy_of (document m) org = policy_of d org).

Definition clashes (before : list ExposeResource) (r : ExposeResource) : bool :=
  es_enabled (er_spec r)
  && existsb (fun o => es_enabled (er_spec o) && conflicts_with (es_listener (er_spec o)) (es_listener (er_spec r))) before.

(** The first loop of [stage]: the rules suspended, and why. *)
Fixpoint stage_rules (m : Manager) (d : ExposeDocument) (allow_suspension : bool) (before rs : list ExposeResource)
    (errors : list (str * str)) : result (list (str * str)) str :=
  match rs with
  | [] => Ok errors
  | r :: rs' =>
      let refused := match allowed m r d with Ok _ => None | Err e => Some e end in
      match refused with
      | Some e =>
          if negb allow_suspension && negb (org_unchanged m d (es_org_id (er_spec r))) then Err e
          else if clashes before r then Err (bs "port conflicts with another expose rule")
          else stage_rules m d allow_suspension (before ++ [r]) rs' (aset (er_id r) e errors)
      | None =>
          if clashes before r then Err (bs "port conflicts with another expose rule")
          else stage_rules m d allow_suspension (before ++ [r]) rs' errors
      end
  end.

Definition kept_failed (m : Manager) (r : ExposeResource) : bool :=
  match aget (er_id r) (m_entries m) with
  | Some e => bool_decide (en_resource e = r) && bool_decide ((rt_status (en_runtime e)).1 = Failed)
  | None => false
  end.

Definition reusable (m : Manager) (r : ExposeResource) : bool :=
  match aget (er_id r) (m_entries m) with
  | Some e => bool_decide (es_listener (er_spec (en_resource e)) = es_listener (er_spec r)) && live e
              && ct_accepting (rt_control (en_runtime e))
  | None => false
  end.

(** The second loop: the ids whose socket was bound. *)
Fixpoint stage_sockets (m : Manager) (bind : ExposeListener → result unit str) (errors : list (str * str))
    (rs : list ExposeResource) (staged : list str) : result (list str) str :=
  match rs with
  | [] => Ok staged
  | r :: rs' =>
      if negb (es_enabled (er_spec r)) || bool_decide (er_id r ∈ keys errors) || kept_failed m r || reusable m r
      then stage_sockets m bind errors rs' staged
      else match bind (es_listener (er_spec r)) with
           | Err e => Err e
           | Ok _ => stage_sockets m bind errors rs' (er_id r :: staged)
           end
  end.

Definition stage (m : Manager) (bind : ExposeListener → result unit str) (d : ExposeDocument) (allow_suspension : bool) :
    result (list str * list (str * str)) str :=
  match doc_validate d with
  | Err e => Err e
  | Ok _ =>
      match stage_rules m d allow_suspension [] (ed_resources d) [] with
      | Err e => Err e
      | Ok errors =>
          match stage_sockets m bind errors (ed_resources d) [] with
          | Err e => Err e
          | Ok staged => Ok (staged, errors)
          end
      end
  end.

Definition preview (m : Manager) (bind : ExposeListener → result unit str) (d : ExposeDocument) : result unit str :=
  match stage m bind d false with Ok _ => Ok tt | Err e => Err e end.

Definition retained (now : Z) (e : Entry) : bool :=
  live e || match session_views now false (en_runtime e) with [] => false | _ => true end.

Definition prune_retired (now : Z) (m : Manager) : Manager :=
  {| m_store := m_store m; m_entries := m_entries m;
     m_retired := filter (fun e => retained now e = true) (m_retired m);
     m_totals := fold_left (fun t e =>
                   let p := el_protocol (es_listener (er_spec (en_resource e))) in
                   aset p (add_runtime (default no_totals (aget p t)) (en_runtime e)) t)
                   (filter (fun e => retained now e = false) (m_retired m)) (m_totals m) |}.

(** [runtime.stop(None)] and then [finish_task]: the task is joined or aborted. *)
Definition halt (now : Z) (e : Entry) : Entry :=
  {| en_resource := en_resource e; en_runtime := stop now None (en_runtime e); en_task := None |}.

Definition status_of (errors : list (str * str)) (r : ExposeResource) : ExposeListenerState :=
  if bool_decide (er_id r ∈ keys errors) then Suspended
  else if negb (es_enabled (er_spec r)) then Disabled
  else Listening.

(** A drain its rule no longer asks for is released first. *)
Definition release (now : Z) (rs : list ExposeResource) (e : Entry) : Entry :=
  match ct_deadline (rt_control (en_runtime e)) with
  | Some _ => if negb (existsb (fun r => bool_decide (r = en_resource e)) rs) then halt now e else e
  | None => e
  end.

(** The rule of a listener replaced where its socket stays. *)
Definition in_place (r : ExposeResource) (e : Entry) : Entry :=
  let t := en_runtime e in
  let t := if negb (bool_decide (es_limits (er_spec (en_resource e)) = es_limits (er_spec r)))
              || negb (bool_decide (es_allowed_ips (er_spec (en_resource e)) = es_allowed_ips (er_spec r)))
           then with_sessions t (stop_all (rt_sessions t)) (rt_history t) else t in
  let c := rt_control t in
  {| en_resource := r;
     en_runtime := with_control t {| ct_resource := r; ct_accepting := ct_accepting c; ct_terminate := ct_terminate c;
                                     ct_deadline := ct_deadline c |};
     en_task := en_task e |}.

Definition fresh (errors : list (str * str)) (staged : list str) (r : ExposeResource) : Entry :=
  {| en_resource := r;
     en_runtime := with_status (new_runtime r (status_of errors r)) (status_of errors r) (aget (er_id r) errors);
     en_task := if bool_decide (er_id r ∈ staged) then Some true else None |}.

(** What becomes of one rule: its new entry, and the entry it retires. *)
Definition settle (now : Z) (errors : list (str * str)) (staged : list str) (old : option Entry) (r : ExposeResource) :
    Entry * option Entry :=
  match old with
  | None => (fresh errors staged r, None)
  | Some e =>
      if bool_decide (en_resource e = r) && negb (bool_decide (er_id r ∈ staged)) && negb (bool_decide (er_id r ∈ keys errors))
      then (e, None)
      else if bool_decide (status_of errors r = Listening) && negb (bool_decide (er_id r ∈ staged)) then (in_place r e, None)
      else (fresh errors staged r, Some (halt now e))
  end.

Fixpoint settle_all (now : Z) (errors : list (str * str)) (staged : list str) (old : list (str * Entry))
    (rs : list ExposeResource) (entries : list (str * Entry)) (retired : list Entry) :
    list (str * Entry) * list (str * Entry) * list Entry :=
  match rs with
  | [] => (old, entries, retired)
  | r :: rs' =>
      let '(e, gone) := settle now errors staged (aget (er_id r) old) r in
      settle_all now errors staged (aremove (er_id r) old) rs' (aset (er_id r) e entries) (retired ++ option_list gone)
  end.

Definition replace (now : Z) (bind : ExposeListener → result unit str) (saved : result unit str) (m : Manager)
    (d : ExposeDocument) (allow_suspension : bool) : Manager * result unit str :=
  match stage m bind d allow_suspension with
  | Err e => (m, Err e)
  | Ok (staged, errors) =>
      let m := prune_retired now m in
      match commit saved (m_store m) d with
      | Err e => (m, Err (bs "persistence: " ++ e))
      | Ok store =>
          let old := prod_map id (release now (ed_resources d)) <$> m_entries m in
          let '(old, entries, retired) := settle_all now errors staged old (ed_resources d) [] (m_retired m) in
          ({| m_store := store; m_entries := entries;
              m_retired := retired ++ (halt now <$> old.*2); m_totals := m_totals m |}, Ok tt)
      end
  end.

Definition bump_disabled (r : ExposeResource) : ExposeResource :=
  {| er_id := er_id r; er_revision := er_revision r + 1; er_source := er_source r;
     er_spec := with_enabled (er_spec r) false |}.

Fixpoint update_first (id : str) (f : ExposeResource → ExposeResource) (rs : list ExposeResource) : list ExposeResource :=
  match rs with [] => [] | r :: rs' => if str_eqb (er_id r) id then f r :: rs' else r :: update_first id f rs' end.

Definition with_resources (d : ExposeDocument) (rs : list ExposeResource) : ExposeDocument :=
  {| ed_version := ed_version d; ed_revision := ed_revision d; ed_resources := rs; ed_policies := ed_policies d |}.

Definition with_policies (d : ExposeDocument) (ps : list ExposePolicy) : ExposeDocument :=
  {| ed_version := ed_version d; ed_revision := ed_revision d; ed_resources := ed_resources d; ed_policies := ps |}.

Definition drain (now : Z) (saved : result unit str) (m : Manager) (id : str) (duration : Z) : Manager * result unit str :=
  match aget id (m_entries m), find (fun r => str_eqb (er_id r) id) (ed_resources (document m)) with
  | Some e, Some row =>
      let row' := bump_disabled row in
      match commit saved (m_store m) (with_resources (document m) (update_first id bump_disabled (ed_resources (document m)))) with
      | Err e => (m, Err (bs "persistence: " ++ e))
      | Ok store =>
          let c := rt_control (en_runtime e) in
          let t := with_control (en_runtime e) {| ct_resource := row'; ct_accepting := ct_accepting c;
                                                  ct_terminate := ct_terminate c; ct_deadline := ct_deadline c |} in
          ({| m_store := store;
              m_entries := aset id {| en_resource := row'; en_runtime := stop now (Some duration) t; en_task := en_task e |} (m_entries m);
              m_retired := m_retired m; m_totals := m_totals m |}, Ok tt)
      end
  | _, _ => (m, Err (bs "unknown expose"))
  end.

(** The entry a stored rule starts with. *)
Definition start (m : Manager) (bind : ExposeListener → result unit str) (r : ExposeResource) : Entry :=
  let '(status, error, bound) :=
    match allowed m r (document m) with
    | Err e => (Suspended, Some e, false)
    | Ok _ =>
        if es_enabled (er_spec r) then
          match bind (es_listener (er_spec r)) with Ok _ => (Listening, None, true) | Err e => (Failed, Some e, false) end
        else (Disabled, None, false)
    end in
  {| en_resource := r; en_runtime := with_status (new_runtime r status) status error;
     en_task := if bound then Some true else None |}.

Fixpoint initialize_all (bind : ExposeListener → result unit str) (m : Manager) (rs : list ExposeResource) : Manager :=
  match rs with
  | [] => m
  | r :: rs' =>
      initialize_all bind {| m_store := m_store m; m_entries := aset (er_id r) (start m bind r) (m_entries m);
                             m_retired := m_retired m; m_totals := m_totals m |} rs'
  end.

Definition load (row : result (option str) str) (from_json : str → result ExposeDocument str) : Manager :=
  {| m_store := from_connection row from_json; m_entries := []; m_retired := []; m_totals := [] |}.

Definition initialize (bind : ExposeListener → result unit str) (m : Manager) : Manager :=
  initialize_all bind m (ed_resources (document m)).

Definition stop_session (e : Entry) (session_id : str) : Entry :=
  {| en_resource := en_resource e;
     en_runtime := with_sessions (en_runtime e)
       (match aget session_id (rt_sessions (en_runtime e)) with
        | Some s => aset session_id (told_to_stop s) (rt_sessions (en_runtime e))
        | None => rt_sessions (en_runtime e)
        end) (rt_history (en_runtime e));
     en_task := en_task e |}.

Definition holds (id session_id : str) (e : Entry) : bool :=
  str_eqb (er_id (en_resource e)) id
  && match aget session_id (rt_sessions (en_runtime e)) with Some _ => true | None => false end.

Fixpoint stop_first (id session_id : str) (es : list Entry) : option (list Entry) :=
  match es with
  | [] => None
  | e :: es' => if holds id session_id e then Some (stop_session e session_id :: es')
                else cons e <$> stop_first id session_id es'
  end.

Definition disconnect (m : Manager) (id session_id : str) : Manager * bool :=
  match stop_first id session_id ((m_entries m).*2 ++ m_retired m) with
  | None => (m, false)
  | Some es =>
      let n := length (m_entries m) in
      ({| m_store := m_store m; m_entries := zip (keys (m_entries m)) (take n es); m_retired := drop n es;
          m_totals := m_totals m |}, true)
  end.

Definition shutdown (now : Z) (m : Manager) : Manager :=
  {| m_store := m_store m; m_entries := prod_map id (halt now) <$> m_entries m; m_retired := halt now <$> m_retired m;
     m_totals := m_totals m |}.

(** ** Staging *)

Lemma doc_validate_ids d : doc_validate d = Ok tt → NoDup (er_id <$> ed_resources d).
Proof.
  unfold doc_validate. case_goal; [done|]. destruct (validate_resources [] _) as [[]|] eqn:Ev; [|done]. intros _.
  cut (∀ seen, validate_resources seen (ed_resources d) = Ok tt →
               NoDup (er_id <$> ed_resources d) ∧ ∀ i, i ∈ er_id <$> ed_resources d → i ∉ seen).
  { intros H. by apply H in Ev as [? _]. }
  clear Ev. induction (ed_resources d) as [|r rs IH]; intros seen; [intros _; split; [constructor|set_solver]|].
  simpl. destruct (identity_ok seen r) eqn:Ei; [|done]. simpl. destruct (spec_validate _); [|done].
  intros Hv. apply IH in Hv as [Hn Hs]. unfold identity_ok in Ei. to_prop. split.
  - constructor; [|done]. intros Hin. apply Hs in Hin. set_solver.
  - intros i Hi. apply elem_of_cons in Hi as [->|Hi]; [done|]. apply Hs in Hi. set_solver.
Qed.

(** What the first loop of [stage] promises: the rules put aside are those the
    policies refuse, and no two enabled ones share a destination. *)
Lemma stage_rules_spec m d allow before rs errors errors' :
  NoDup (er_id <$> rs) → (∀ r, r ∈ rs → er_id r ∉ keys errors) →
  stage_rules m d allow before rs errors = Ok errors' →
  (∀ r, r ∈ rs → (er_id r ∉ keys errors' ↔ allowed m r d = Ok tt))
  ∧ (∀ i, i ∉ er_id <$> rs → (i ∈ keys errors' ↔ i ∈ keys errors))
  ∧ (∀ r o, r ∈ rs → o ∈ before → es_enabled (er_spec r) = true → es_enabled (er_spec o) = true →
            conflicts_with (es_listener (er_spec o)) (es_listener (er_spec r)) = false)
  ∧ (∀ i j r o, rs !! i = Some o → rs !! j = Some r → (i < j)%nat →
                es_enabled (er_spec r) = true → es_enabled (er_spec o) = true →
                conflicts_with (es_listener (er_spec o)) (es_listener (er_spec r)) = false).
Proof.
  revert before errors. induction rs as [|r rs IH]; intros before errors Hnd Hfresh.
  { intros [= ->]. repeat split; set_solver. }
  rewrite fmap_cons in Hnd. apply NoDup_cons in Hnd as [Hnr Hnd].
  assert (Hne : ∀ r', r' ∈ rs → er_id r' ≠ er_id r) by (intros r' Hr' E; apply Hnr; rewrite <- E; by apply list_elem_of_fmap_2).
  assert (Hclash : ∀ o, clashes before r = false → o ∈ before → es_enabled (er_spec r) = true → es_enabled (er_spec o) = true →
            conflicts_with (es_listener (er_spec o)) (es_listener (er_spec r)) = false).
  { intros o Hc Ho Er Eo. unfold clashes in Hc. rewrite Er in Hc. simpl in Hc. apply existsb_false in Hc.
    rewrite Forall_forall in Hc. specialize (Hc o Ho). by rewrite Eo in Hc. }
  intros Hs. simpl in Hs.
  assert (Hstep : ∃ err, clashes before r = false ∧ stage_rules m d allow (before ++ [r]) rs err = Ok errors'
     ∧ (er_id r ∉ keys err ↔ allowed m r d = Ok tt) ∧ (∀ i, i ≠ er_id r → (i ∈ keys err ↔ i ∈ keys errors))).
  { destruct (allowed m r d) as [[]|e] eqn:Ea.
    - exists errors. destruct (clashes before r); [done|]. split_and!; [done..| |done]. split; [done|].
      intros _. apply Hfresh. by left.
    - exists (aset (er_id r) e errors). destruct (negb allow && _); [done|]. destruct (clashes before r); [done|].
      split_and!; [done..| |].
      + split; [|done]. intros Hn. destruct Hn.
        apply list_elem_of_fmap. exists (er_id r, e). split; [done|]. apply aget_Some_elem, aget_aset_eq.
      + intros i Hi. destruct (decide (i ∈ keys errors)) as [Hin|Hin].
        * split; [done|]. intros _. destruct (decide (i ∈ keys (aset (er_id r) e errors))) as [|Hn]; [done|].
          apply aget_None in Hn. rewrite aget_aset_ne in Hn by done. by apply aget_None in Hn.
        * split; [|done]. intros Hn. apply elem_of_keys_aset in Hn as [?|?]; done. }
  destruct Hstep as (err & Hc & Hrest & Hr & Hother).
  apply IH in Hrest as (H1 & H2 & H3 & H4); [|done|].
  2: { intros r' Hr'. rewrite Hother by (by apply Hne). apply Hfresh. by right. }
  split_and!.
  - intros r' Hr'. apply elem_of_cons in Hr' as [->|Hr']; [|by apply H1]. by rewrite H2.
  - intros i Hi. rewrite fmap_cons, not_elem_of_cons in Hi. destruct Hi as [Hi1 Hi2]. rewrite H2 by done. by apply Hother.
  - intros r' o Hr' Ho. apply elem_of_cons in Hr' as [->|Hr']; [by apply Hclash|]. apply H3; [done|]. set_solver.
  - intros [|i] [|j] r' o Ei Ej Hlt; try lia; simplify_eq/=.
    + apply H3; [by apply list_elem_of_lookup_2 in Ej|set_solver].
    + apply (H4 i j); [done..|lia].
Qed.

(** ** Applying *)

Lemma settle_all_spec now errors staged old rs entries retired old' entries' retired' :
  NoDup (er_id <$> rs) →
  settle_all now errors staged old rs entries retired = (old', entries', retired') →
  (∀ r, r ∈ rs → aget (er_id r) entries' = Some (settle now errors staged (aget (er_id r) old) r).1)
  ∧ (∀ i, i ∉ er_id <$> rs → aget i entries' = aget i entries)
  ∧ (NoDup (keys entries) → NoDup (keys entries')).
Proof.
  revert old entries retired. induction rs as [|r rs IH]; intros old entries retired Hnd.
  { intros [= -> -> ->]. repeat split; set_solver. }
  rewrite fmap_cons in Hnd. apply NoDup_cons in Hnd as [Hnr Hnd]. simpl.
  destruct (settle now errors staged (aget (er_id r) old) r) as [e gone] eqn:Es.
  intros Hrun. apply IH in Hrun as (H1 & H2 & H3); [|done]. split_and!.
  - intros r' Hr'. apply elem_of_cons in Hr' as [->|Hr'].
    + rewrite H2 by done. rewrite aget_aset_eq, Es. done.
    + rewrite H1 by done. rewrite aget_aremove_ne; [done|].
      intros E. apply Hnr. rewrite E. by apply list_elem_of_fmap_2.
  - intros i Hi. apply not_elem_of_cons in Hi as [Hi1 Hi2]. rewrite H2 by done. by rewrite aget_aset_ne.
  - intros Hk. apply H3. by apply NoDup_aset.
Qed.

Lemma aget_prod_map {A B} (f : A → B) (l : list (str * A)) i : aget i (prod_map id f <$> l) = f <$> aget i l.
Proof. induction l as [|[k a] l IH]; simpl; [done|]. unfold id. case_decide; [done|apply IH]. Qed.

(** What a successful [replace] leaves. *)
Lemma replace_ok now bind saved m d allow m' :
  replace now bind saved m d allow = (m', Ok tt) →
  ∃ staged errors,
    stage m bind d allow = Ok (staged, errors)
    ∧ commit saved (m_store m) d = Ok (m_store m')
    ∧ (∀ r, r ∈ ed_resources d →
         aget (er_id r) (m_entries m') =
         Some (settle now errors staged (release now (ed_resources d) <$> aget (er_id r) (m_entries m)) r).1)
    ∧ (∀ i, i ∉ er_id <$> ed_resources d → aget i (m_entries m') = None)
    ∧ NoDup (keys (m_entries m')) ∧ NoDup (er_id <$> ed_resources d).
Proof.
  unfold replace. destruct (stage m bind d allow) as [[staged errors]|] eqn:Es; [|done].
  destruct (commit saved (m_store (prune_retired now m)) d) as [store|] eqn:Ec; [|done].
  assert (Hnd : NoDup (er_id <$> ed_resources d)).
  { unfold stage in Es. destruct (doc_validate d) as [[]|] eqn:Ev; [|done]. by apply doc_validate_ids. }
  destruct (settle_all _ _ _ _ _ _ _) as [[old' entries'] retired'] eqn:Ea.
  intros E. apply pair_eq in E as [<- _]. exists staged, errors. simpl. apply settle_all_spec in Ea as (H1 & H2 & H3); [|done].
  split_and!; [done|done| | |apply H3; constructor|done].
  - intros r Hr. rewrite H1 by done. by rewrite aget_prod_map.
  - intros i Hi. by rewrite H2.
Qed.

Lemma settle_resource now errors staged old r : en_resource (settle now errors staged old r).1 = r.
Proof. unfold settle. destruct old as [e|]; [|done]. repeat case_goal; simpl; try done. by to_prop. Qed.

(** The entries are those of the document: under its id each rule of the
    document, and nothing else. *)
Definition synced (m : Manager) : Prop :=
  NoDup (keys (m_entries m))
  ∧ ∀ id, manager_resource m id = find (fun r => str_eqb (er_id r) id) (ed_resources (document m)).

Definition accepting (e : Entry) : bool := ct_accepting (rt_control (en_runtime e)).

(** A listener that takes visitors is one its rule asks for. *)
Definition entries_sound (m : Manager) : Prop :=
  ∀ id e, aget id (m_entries m) = Some e → accepting e = true → es_enabled (er_spec (en_resource e)) = true.

Lemma find_id_elem rs r : NoDup (er_id <$> rs) → r ∈ rs → find (fun x => str_eqb (er_id x) (er_id r)) rs = Some r.
Proof.
  induction rs as [|x rs IH]; intros Hnd Hr; [set_solver|]. rewrite fmap_cons in Hnd. apply NoDup_cons in Hnd as [Hx Hnd].
  simpl. destruct (str_eqb (er_id x) (er_id r)) eqn:E.
  - apply str_eqb_eq in E. apply elem_of_cons in Hr as [->|Hr]; [done|]. destruct Hx. rewrite E. by apply list_elem_of_fmap_2.
  - apply elem_of_cons in Hr as [->|Hr]; [by rewrite str_eqb_refl in E|]. by apply IH.
Qed.

Lemma find_id_None rs id : id ∉ er_id <$> rs → find (fun x => str_eqb (er_id x) id) rs = None.
Proof.
  induction rs as [|x rs IH]; [done|]. intros Hn. simpl. destruct (str_eqb (er_id x) id) eqn:E; [|apply IH; set_solver].
  apply str_eqb_eq in E. set_solver.
Qed.

Lemma commit_document saved st d st' :
  commit saved st d = Ok st' →
  st_document st' = with_revision d (ed_revision (st_document st) + 1) ∧ doc_validate (st_document st') = Ok tt
  ∧ ed_revision (st_document st) < u64_max ∧ st_load_error st = None.
Proof.
  unfold commit. destruct (st_load_error st); [done|]. case_goal; [done|].
  destruct (doc_validate _) as [[]|] eqn:Ev; [|done]. destruct saved; [|done]. intros Heq. injection Heq as <-.
  to_prop. simpl. auto.
Qed.

Lemma replace_synced now bind saved m d allow m' :
  replace now bind saved m d allow = (m', Ok tt) →
  document m' = with_revision d (ed_revision (document m) + 1) ∧ synced m'.
Proof.
  intros H. apply replace_ok in H as (staged & errors & _ & Hc & Hin & Hout & Hnd & Hids).
  apply commit_document in Hc as [Hd _]. unfold document. split; [done|]. split; [done|]. intros id.
  unfold manager_resource, document. rewrite Hd. simpl.
  destruct (decide (id ∈ er_id <$> ed_resources d)) as [Hi|Hi].
  - apply list_elem_of_fmap in Hi as (r & -> & Hr). rewrite (Hin r Hr). simpl. rewrite settle_resource.
    symmetry. by apply find_id_elem.
  - rewrite (Hout id Hi), find_id_None by done. done.
Qed.

Lemma replace_refused now bind saved m d allow m' e :
  replace now bind saved m d allow = (m', Err e) → m_store m' = m_store m ∧ m_entries m' = m_entries m.
Proof.
  unfold replace. destruct (stage _ _ _ _) as [[staged errors]|]; [|intros [= <- _]; done].
  destruct (commit _ _ _); [destruct (settle_all _ _ _ _ _ _ _) as [[]]; done|]. intros E. by apply pair_eq in E as [<- _].
Qed.

(** C26: A change of the public listeners is all or nothing. When it is refused,
    by the rules, by a port that cannot be bound or because it could not be
    saved, the stored document and every running listener are as they were; when
    it goes through, the store holds exactly the document asked for under the
    next revision, and the manager runs exactly its rules. *)
Theorem replace_all_or_nothing now bind saved m d allow m' res :
  replace now bind saved m d allow = (m', res) →
  match res with
  | Err _ => document m' = document m ∧ m_entries m' = m_entries m
  | Ok _ => document m' = with_revision d (ed_revision (document m) + 1) ∧ synced m'
  end.
Proof.
  destruct res as [[]|e]; [apply replace_synced|]. intros H. apply replace_refused in H as [Hs He].
  unfold document. by rewrite Hs.
Qed.

Lemma drain_keeps now saved m id n m' :
  synced m → entries_sound m → drain now saved m id n = (m', Ok tt) → synced m' ∧ entries_sound m'.
Proof.
  intros [Hnd Hs] Hok. unfold drain. destruct (aget id (m_entries m)) as [e|] eqn:Ee; [|done].
  destruct (find _ (ed_resources (document m))) as [row|] eqn:Ef; [|done].
  destruct (commit _ _ _) as [store|] eqn:Ec; [|done]. intros E. apply pair_eq in E as [<- _].
  apply commit_document in Ec as [Hd _]. split.
  - split; [by apply NoDup_aset|]. intros id'. unfold manager_resource, document. simpl. rewrite Hd. simpl.
    destruct (decide (id = id')) as [<-|Hne].
    + rewrite aget_aset_eq. simpl. revert Ef. generalize (ed_resources (document m)). clear.
      induction l as [|x l IH]; simpl; [done|]. destruct (str_eqb (er_id x) id) eqn:E; simpl.
      * intros [= <-]. by rewrite E.
      * rewrite E. apply IH.
    + rewrite aget_aset_ne by done. specialize (Hs id'). unfold manager_resource in Hs. rewrite Hs.
      clear -Hne. induction (ed_resources (document m)) as [|x l IH]; simpl; [done|].
      destruct (str_eqb (er_id x) id) eqn:E; simpl; [|by case_goal].
      apply str_eqb_eq in E. destruct (str_eqb (er_id x) id') eqn:E'; [|done]. apply str_eqb_eq in E'. congruence.
  - intros id' e'. simpl. destruct (decide (id = id')) as [<-|Hne].
    + rewrite aget_aset_eq. intros [= <-]. done.
    + rewrite aget_aset_ne by done. apply Hok.
Qed.

(** ** What may be open *)

Lemma stage_errors_spec m bind d allow staged errors :
  stage m bind d allow = Ok (staged, errors) →
  (∀ r, r ∈ ed_resources d → (er_id r ∉ keys errors ↔ allowed m r d = Ok tt))
  ∧ ∀ i j r o, ed_resources d !! i = Some o → ed_resources d !! j = Some r → i ≠ j →
       es_enabled (er_spec r) = true → es_enabled (er_spec o) = true →
       conflicts_with (es_listener (er_spec o)) (es_listener (er_spec r)) = false.
Proof.
  unfold stage. destruct (doc_validate d) as [[]|] eqn:Ev; [|done].
  destruct (stage_rules _ _ _ _ _ _) as [errs|] eqn:Er; [|done]. destruct (stage_sockets _ _ _ _ _); [|done].
  intros [= -> ->]. apply doc_validate_ids in Ev. apply stage_rules_spec in Er as (H1 & _ & _ & H4); [|done|set_solver].
  split; [done|]. intros i j r o Ei Ej Hij Er Eo. destruct (Nat.lt_total i j) as [Hlt|[->|Hlt]]; [by eapply (H4 i j)|done|].
  rewrite conflicts_sym. by eapply (H4 j i).
Qed.

Lemma release_resource now rs e : en_resource (release now rs e) = en_resource e.
Proof. unfold release. repeat case_goal; done. Qed.

Lemma release_accepting now rs e : accepting (release now rs e) = true → release now rs e = e.
Proof. unfold release. repeat case_goal; done. Qed.

Lemma settle_accepting now errors staged rs old r :
  (∀ e, old = Some e → accepting e = true → es_enabled (er_spec (en_resource e)) = true) →
  accepting (settle now errors staged (release now rs <$> old) r).1 = true →
  es_enabled (er_spec r) = true ∧ er_id r ∉ keys errors.
Proof.
  intros Hold. unfold settle.
  assert (Hl : status_of errors r = Listening → es_enabled (er_spec r) = true ∧ er_id r ∉ keys errors).
  { unfold status_of. case_bool_decide; [done|]. by destruct (es_enabled _). }
  assert (Hf : accepting (fresh errors staged r) = true → es_enabled (er_spec r) = true ∧ er_id r ∉ keys errors).
  { unfold accepting, fresh. simpl. intros Ha. to_prop. auto. }
  destruct old as [e|]; simpl; [|apply Hf]. case_goal.
  - simpl. intros Ha. to_prop. rewrite release_resource in *. subst r. split; [|done].
    pose proof Ha as Hr. apply release_accepting in Hr. rewrite Hr in Ha. auto.
  - case_goal; simpl; [|apply Hf]. intros _. to_prop. auto.
Qed.

Lemma replace_accepting now bind saved m d allow m' id e :
  entries_sound m → replace now bind saved m d allow = (m', Ok tt) →
  aget id (m_entries m') = Some e → accepting e = true →
  en_resource e ∈ ed_resources d ∧ er_id (en_resource e) = id ∧ es_enabled (er_spec (en_resource e)) = true
  ∧ allowed m (en_resource e) d = Ok tt.
Proof.
  intros Hok H He Ha. apply replace_ok in H as (staged & errors & Hs & _ & Hin & Hout & _ & Hids).
  apply stage_errors_spec in Hs as [Hal _].
  destruct (decide (id ∈ er_id <$> ed_resources d)) as [Hi|Hi]; [|by rewrite (Hout id Hi) in He].
  apply list_elem_of_fmap in Hi as (r & -> & Hr). rewrite (Hin r Hr) in He. injection He as <-.
  rewrite settle_resource. apply settle_accepting in Ha as [Hen Hne]; [|intros; by eapply Hok].
  split_and!; [done..|]. by apply Hal.
Qed.

(** C22: After a change of the document, a listener takes visitors only if its
    rule is enabled and its organization's allocation and quota allow it, and no
    two listeners that take visitors share a destination. *)
Theorem open_listeners_licensed now bind saved m d allow m' :
  entries_sound m → replace now bind saved m d allow = (m', Ok tt) →
  entries_sound m'
  ∧ (∀ id e, aget id (m_entries m') = Some e → accepting e = true →
             en_resource e ∈ ed_resources d ∧ allowed m (en_resource e) d = Ok tt)
  ∧ ∀ id1 id2 e1 e2, id1 ≠ id2 → aget id1 (m_entries m') = Some e1 → aget id2 (m_entries m') = Some e2 →
       accepting e1 = true → accepting e2 = true →
       conflicts_with (es_listener (er_spec (en_resource e1))) (es_listener (er_spec (en_resource e2))) = false.
Proof.
  intros Hok H. pose proof (λ id e, replace_accepting _ _ _ _ _ _ _ id e Hok H) as Hone.
  apply replace_ok in H as (staged & errors & Hs & _). apply stage_errors_spec in Hs as [_ Hpw]. split_and!.
  - intros id e He Ha. apply (Hone id e He Ha).
  - intros id e He Ha. destruct (Hone id e He Ha) as (? & _ & _ & ?). auto.
  - intros id1 id2 e1 e2 Hne He1 He2 Ha1 Ha2.
    destruct (Hone id1 e1 He1 Ha1) as (Hr1 & Hi1 & Hen1 & _), (Hone id2 e2 He2 Ha2) as (Hr2 & Hi2 & Hen2 & _).
    apply list_elem_of_lookup_1 in Hr1 as [i Hi], Hr2 as [j Hj]. apply (Hpw i j _ _ Hi Hj); [|done..].
    intros ->. congruence.
Qed.

Lemma used_quota entries org on f r :
  0 <= f (es_limits (er_spec r)) → used org on f (er_spec r) <= used org on f (quota_spec entries r).
Proof.
  intros Hf. unfold quota_spec, used. destruct (es_enabled (er_spec r)) eqn:E; simpl; [rewrite E; lia|].
  rewrite andb_false_r. simpl. destruct (match aget _ _ with Some _ => _ | None => _ end); simpl.
  - by case_goal.
  - by rewrite E, andb_false_r.
Qed.

Lemma quota_limits entries r : es_limits (quota_spec entries r) = es_limits (er_spec r).
Proof. unfold quota_spec. by destruct (_ && _). Qed.

Lemma total_quota m org on f rs :
  (∀ r, r ∈ rs → 0 <= f (es_limits (er_spec r))) →
  total (used org on f) (er_spec <$> rs) <= total (used org on f) (quota_specs m rs).
Proof.
  induction rs as [|r rs IH]; intros Hf; [done|].
  pose proof (used_quota (m_entries m) org on f r (Hf r (list_elem_of_here _ _))).
  specialize (IH (λ r' Hr', Hf r' (list_elem_of_further _ _ _ Hr'))).
  unfold quota_specs in *. rewrite !fmap_cons.
  change (used org on f (er_spec r) + total (used org on f) (er_spec <$> rs)
          <= used org on f (quota_spec (m_entries m) r) + total (used org on f) (quota_spec (m_entries m) <$> rs)). lia.
Qed.

(** Whatever the documents asked for, an organization that takes any visitor
    has enabled no more than its allocation: the connections, datagram sessions
    and bytes per second its enabled rules may use together stay within the
    ceilings the server administrator set. *)
Theorem organization_within_ceilings now bind saved m d allow m' id e p :
  entries_sound m → replace now bind saved m d allow = (m', Ok tt) →
  Forall (λ r, limits_nonneg (er_spec r)) (ed_resources d) →
  aget id (m_entries m') = Some e → accepting e = true →
  let org := es_org_id (er_spec (en_resource e)) in
  policy_of d org = Some p → ep_max_rules p <= u32_max →
  let asked := er_spec <$> ed_resources d in
  (ep_max_tcp_connections p < u64_max → total (used org is_tcp capacity) asked <= ep_max_tcp_connections p)
  ∧ (ep_max_udp_sessions p < u64_max → total (used org is_udp capacity) asked <= ep_max_udp_sessions p)
  ∧ (ep_ingress p < u64_max → total (used org any_protocol (λ l, (bandwidth l).1)) asked <= ep_ingress p)
  ∧ (ep_egress p < u64_max → total (used org any_protocol (λ l, (bandwidth l).2)) asked <= ep_egress p).
Proof.
  intros Hok H Hnn He Ha org Hp Hm asked. subst org asked.
  destruct (replace_accepting _ _ _ _ _ _ _ _ _ Hok H He Ha) as (_ & _ & _ & Hal).
  unfold allowed in Hal. rewrite Hp in Hal. destruct (allows p _) eqn:Eal; [|done]. simpl in Hal.
  destruct (fits p _) eqn:Ef; [|done]. apply allows_spec in Eal as [Horg _].
  apply fits_is_a_ceiling in Ef as (_ & _ & H1 & H2 & H3 & H4); [|clear -Hnn|done].
  2: { unfold quota_specs. apply Forall_fmap. eapply Forall_impl; [done|]. intros r Hr. unfold limits_nonneg, compose.
       by rewrite quota_limits. }
  rewrite Forall_forall in Hnn. rewrite Horg.
  split_and!; intros Hlt; (etrans; [apply total_quota|eauto]); intros r Hr; destruct (Hnn r Hr) as (? & ? & ?); done.
Qed.

(** ** Drains and sessions across a change *)

Lemma stage_sockets_disabled m bind errors rs staged staged' i :
  stage_sockets m bind errors rs staged = Ok staged' → i ∈ staged' →
  i ∈ staged ∨ ∃ r, r ∈ rs ∧ er_id r = i ∧ es_enabled (er_spec r) = true ∧ bind (es_listener (er_spec r)) = Ok tt.
Proof.
  revert staged. induction rs as [|r rs IH]; intros staged; simpl; [intros [= ->]; auto|].
  destruct (negb (es_enabled (er_spec r)) || _ || _ || _) eqn:E.
  - intros H Hi. apply (IH _ H) in Hi as [?|(r' & ? & ?)]; [by left|]. right. exists r'. set_solver.
  - destruct (bind _) as [[]|] eqn:Eb; [|done]. intros H Hi. to_prop. apply (IH _ H) in Hi as [Hi|(r' & ? & ?)].
    + apply elem_of_cons in Hi as [->|Hi]; [|by left]. right. exists r. split_and!; [by left|done..].
    + right. exists r'. set_solver.
Qed.

(** Draining is not cut short by a change to another rule: a drain whose rule
    the new document keeps, and the policies still allow, goes on as it is, its
    deadline, task and sessions untouched. *)
Theorem drain_survives_other_changes now bind saved m d allow m' id e :
  replace now bind saved m d allow = (m', Ok tt) →
  aget id (m_entries m) = Some e → er_id (en_resource e) = id → en_resource e ∈ ed_resources d →
  es_enabled (er_spec (en_resource e)) = false → allowed m (en_resource e) d = Ok tt →
  aget id (m_entries m') = Some e.
Proof.
  intros H He Hid Hr Hdis Hal. apply replace_ok in H as (staged & errors & Hs & _ & Hin & _ & _ & Hids).
  pose proof (stage_errors_spec _ _ _ _ _ _ Hs) as [Herr _]. rewrite <- Hid, (Hin _ Hr), Hid, He. simpl. f_equal.
  assert (Hrel : release now (ed_resources d) e = e).
  { unfold release. destruct (ct_deadline _); [|done].
    destruct (existsb _ _) eqn:Ex; [done|]. apply existsb_false in Ex. rewrite Forall_forall in Ex.
    specialize (Ex _ Hr). by rewrite bool_decide_eq_true_2 in Ex. }
  rewrite Hrel. unfold settle.
  assert (Hst : er_id (en_resource e) ∉ staged).
  { intros Hst. unfold stage in Hs. destruct (doc_validate d); [|done]. destruct (stage_rules _ _ _ _ _ _); [|done].
    destruct (stage_sockets _ _ _ _ _) as [st|] eqn:Es; [|done]. injection Hs as -> ->.
    eapply stage_sockets_disabled in Es as [Hnil|(r & Hr' & Hi & Hen & _)]; [by apply elem_of_nil in Hnil| |done].
    assert (r = en_resource e) as ->; [|congruence]. eapply (NoDup_map_inj er_id); eauto. }
  rewrite bool_decide_eq_true_2, (bool_decide_eq_false_2 _ Hst) by done.
  by rewrite (bool_decide_eq_false_2 (er_id _ ∈ keys errors)) by (by apply Herr).
Qed.

(** A change of a rule's limits or of the sources it admits reaches the
    sessions already open: none that the old rule let in is left running
    unless it was told to stop. *)
Theorem new_limits_cut_sessions now bind saved m d allow m' id e e' k s :
  replace now bind saved m d allow = (m', Ok tt) →
  aget id (m_entries m) = Some e → aget id (m_entries m') = Some e' →
  es_limits (er_spec (en_resource e)) ≠ es_limits (er_spec (en_resource e'))
  ∨ es_allowed_ips (er_spec (en_resource e)) ≠ es_allowed_ips (er_spec (en_resource e')) →
  aget k (rt_sessions (en_runtime e')) = Some s → ss_stop s = true.
Proof.
  intros H He He' Hch Hk. apply replace_ok in H as (staged & errors & _ & _ & Hin & Hout & _ & _).
  destruct (decide (id ∈ er_id <$> ed_resources d)) as [Hi|Hi]; [|by rewrite (Hout id Hi) in He'].
  apply list_elem_of_fmap in Hi as (r & -> & Hr). rewrite (Hin r Hr), He in He'.
  apply (inj Some) in He'. subst e'. rewrite settle_resource in Hch. revert Hk. simpl.
  assert (Hne : en_resource (release now (ed_resources d) e) ≠ r).
  { rewrite release_resource. intros <-. naive_solver. }
  rewrite (bool_decide_eq_false_2 (en_resource _ = r)) by done. simpl. case_goal; simpl; [|done].
  rewrite release_resource.
  assert (negb (bool_decide (es_limits (er_spec (en_resource e)) = es_limits (er_spec r)))
          || negb (bool_decide (es_allowed_ips (er_spec (en_resource e)) = es_allowed_ips (er_spec r))) = true) as ->.
  { apply orb_true_iff. rewrite !negb_true_iff, !bool_decide_eq_false. done. }
  simpl. unfold stop_all. rewrite aget_prod_map. destruct (aget k _); simpl; [|done]. by intros [= <-].
Qed.

(** ** The history of sessions *)

Definition of_org (org : str) (r : session_row) : bool := str_eqb (sr_org r) org.
Definition count_org (org : str) (rows : list session_row) : nat := length (filter (fun r => of_org org r = true) rows).

Lemma keep_newest_sublist n sel rows : sublist (keep_newest n sel rows) rows.
Proof. apply sublist_filter. Qed.

Lemma keep_newest_bound n sel rows :
  NoDup (sr_id <$> rows) → (length (filter (fun r => sel r = true) (keep_newest n sel rows)) <= n)%nat.
Proof.
  intros Hnd. set (l := sort_by row_leb (filter (fun r => sel r = true) rows)).
  rewrite <- (length_fmap sr_id).
  transitivity (length (sr_id <$> take n l)); [|rewrite length_fmap, length_take; lia].
  apply submseteq_length, NoDup_submseteq.
  - eapply sublist_NoDup; [exact Hnd|]. apply sublist_map. etrans; [apply sublist_filter|apply keep_newest_sublist].
  - intros i Hi. apply list_elem_of_fmap in Hi as (r & -> & Hr). apply list_elem_of_filter in Hr as [Hs Hr].
    unfold keep_newest in Hr. apply list_elem_of_filter in Hr as [Hg Hr]. fold l in Hg.
    assert (Hl : r ∈ l) by (unfold l; rewrite sort_by_perm; by apply list_elem_of_filter).
    rewrite <- (take_drop n l) in Hl. apply elem_of_app in Hl as [Hl|Hl]; [by apply list_elem_of_fmap_2|].
    destruct Hg. by apply list_elem_of_fmap_2.
Qed.

Lemma count_org_sublist org l k : sublist l k → (count_org org l <= count_org org k)%nat.
Proof. intros Hs. unfold count_org. apply sublist_length. by apply sublist_filters. Qed.

(** The history of sessions is bounded on disk whatever is removed: after
    each session is recorded no organization has more than 256 rows, the table
    no more than 2048, none is older than a week, and a session has one row. *)
Theorem session_history_bounded now_secs rows v :
  NoDup (sr_id <$> rows) → (∀ org, (count_org org rows <= 256)%nat) →
  let rows' := record_session now_secs rows v in
  NoDup (sr_id <$> rows') ∧ (∀ org, (count_org org rows' <= 256)%nat) ∧ (length rows' <= 2048)%nat
  ∧ ∀ r, r ∈ rows' → cutoff_of now_secs <= sr_ended r.
Proof.
  intros Hnd Hc. unfold record_session.
  set (r1 := filter (λ r, sr_id r ≠ sv_id v) rows ++ [row_of v]). set (r2 := filter (λ r, cutoff_of now_secs <= sr_ended r) r1).
  set (r3 := keep_newest 256 _ r2). simpl.
  assert (Hnd1 : NoDup (sr_id <$> r1)).
  { unfold r1. rewrite fmap_app. apply NoDup_app. split_and!; [| |apply NoDup_singleton].
    - eapply sublist_NoDup; [exact Hnd|]. apply sublist_map, sublist_filter.
    - intros i Hi. apply list_elem_of_fmap in Hi as (r & -> & Hr). apply list_elem_of_filter in Hr as [Hr _].
      simpl. by rewrite list_elem_of_singleton. }
  assert (S2 : sublist r2 r1) by apply sublist_filter.
  assert (S3 : sublist r3 r2) by apply keep_newest_sublist.
  assert (S4 : sublist (keep_newest 2048 (λ _, true) r3) r3) by apply keep_newest_sublist.
  assert (Hnd2 : NoDup (sr_id <$> r2)) by (eapply sublist_NoDup; [exact Hnd1|by apply sublist_map]).
  assert (Hnd3 : NoDup (sr_id <$> r3)) by (eapply sublist_NoDup; [exact Hnd2|by apply sublist_map]).
  split_and!.
  - eapply sublist_NoDup; [exact Hnd3|by apply sublist_map].
  - intros org. etrans; [by apply count_org_sublist|]. destruct (decide (sv_org_id v = org)) as [<-|Hne].
    + by apply keep_newest_bound.
    + etrans; [by apply count_org_sublist; etrans|]. unfold count_org, r1. rewrite filter_app, length_app.
      rewrite (filter_cons_False _ (row_of v)) by (unfold of_org; simpl; rewrite str_eqb_eq; done). simpl.
      rewrite Nat.add_0_r. etrans; [apply sublist_length, sublist_filters, sublist_filter|]. apply Hc.
  - pose proof (keep_newest_bound 2048 (λ _, true) r3 Hnd3) as Hb. by rewrite filter_all in Hb by (by apply Forall_forall).
  - intros r Hr. assert (r ∈ r2) as H2 by (eapply elem_of_sublist; [exact Hr|by etrans]).
    by apply list_elem_of_filter in H2 as [? _].
Qed.

(** ** Rates *)

(** What the sessions of one listener ask of its budget, and when. *)
Inductive ask : Type := Bytes (down : bool) (n : Z) | Open.

Record rates : Type := { ra_up : Z; ra_down : Z; ra_open : Z }.

Definition weigh (down : bool) (a : ask) : Z := match a with Bytes d n => if Bool.eqb d down then n else 0 | Open => 0 end.
Definition opens (a : ask) : Z := match a with Bytes _ _ => 0 | Open => 1 end.

Definition grant (l : rates) (now : Z) (a : ask) (b : Budget) : bool * Budget :=
  match a with
  | Bytes down n => budget_bytes now down n (if down then ra_down l else ra_up l) b
  | Open => budget_open now (ra_open l) b
  end.

(** Each grant with the start of the second it was charged to. *)
Fixpoint grants (l : rates) (b : Budget) (asks : list (Z * ask)) : Budget * list (Z * ask) :=
  match asks with
  | [] => (b, [])
  | (now, a) :: asks' =>
      let '(ok, b) := grant l now a b in
      let '(b', gs) := grants l b asks' in
      (b', if ok then (default now (b_second b), a) :: gs else gs)
  end.

Definition sum_in (w : Z) (f : ask → Z) (gs : list (Z * ask)) : Z :=
  foldr (fun g acc => (if g.1 =? w then f g.2 else 0) + acc) 0 gs.

Definition budget_ok (l : rates) (b : Budget) : Prop :=
  0 <= b_up b <= ra_up l ∧ 0 <= b_down b <= ra_down l ∧ 0 <= b_opened b <= ra_open l.

Lemma grant_spec l now a b ok b' :
  0 <= ra_up l < u64_max → 0 <= ra_down l < u64_max → 0 <= ra_open l →
  (∀ d n, a = Bytes d n → 0 <= n) → budget_ok l b → grant l now a b = (ok, b') →
  budget_ok l b' ∧ is_Some (b_second b')
  ∧ ((b_second b' = b_second b ∧ (∀ w, b_second b = Some w → sat_sub now w < second)
      ∧ b_up b' = b_up b + (if ok then weigh false a else 0)
      ∧ b_down b' = b_down b + (if ok then weigh true a else 0)
      ∧ b_opened b' = b_opened b + (if ok then opens a else 0))
     ∨ (b_second b' = Some now ∧ (∀ w, b_second b = Some w → second <= sat_sub now w)
        ∧ b_up b' = (if ok then weigh false a else 0) ∧ b_down b' = (if ok then weigh true a else 0)
        ∧ b_opened b' = (if ok then opens a else 0))).
Proof.
  intros Hu Hd Ho Hn [Bu [Bd Bo]] Hg.
  assert (Hr : budget_ok l (refresh now b) ∧ is_Some (b_second (refresh now b))
     ∧ ((refresh now b = b ∧ ∀ w, b_second b = Some w → sat_sub now w < second)
        ∨ (refresh now b = {| b_second := Some now; b_up := 0; b_down := 0; b_opened := 0 |}
           ∧ ∀ w, b_second b = Some w → second <= sat_sub now w))).
  { unfold refresh, budget_ok. destruct (b_second b) as [t|] eqn:Eb; [destruct (second <=? sat_sub now t) eqn:Et|]; to_prop; simpl.
    - split_and!; try lia; [eauto|]. right. split; [done|]. by intros w [= <-].
    - split_and!; try lia; [eauto|]. left. split; [done|]. by intros w [= <-].
    - split_and!; try lia; [eauto|]. right. by split. }
  destruct Hr as ((Ru & Rd & Ro) & Hs & Hcase).
  unfold grant in Hg. destruct a as [down n|].
  - unfold budget_bytes in Hg. pose proof (Hn down n eq_refl) as Hn0.
    destruct (_ <? _) eqn:El in Hg; apply pair_eq in Hg as [<- <-].
    + unfold budget_ok, weigh. split_and!; try lia; [done|]. destruct Hcase as [[-> ?]|[-> ?]]; [left|right]; simpl; split_and!; try done; lia.
    + to_prop. assert (Hw : sat_add64 (if down then b_down (refresh now b) else b_up (refresh now b)) n
                            = (if down then b_down (refresh now b) else b_up (refresh now b)) + n).
      { unfold sat_add64 in *. destruct down; lia. }
      rewrite Hw in El. rewrite wrap64_small by (unfold u64_max in *; destruct down; lia).
      unfold budget_ok, weigh. destruct down; simpl in *; (split_and!; try lia; [done|]);
        destruct Hcase as [[-> ?]|[-> ?]]; [left|right|left|right]; simpl; split_and!; try done; lia.
  - unfold budget_open in Hg. destruct (_ <=? _) eqn:El in Hg; apply pair_eq in Hg as [<- <-]; to_prop.
    + unfold budget_ok, weigh, opens. split_and!; try lia; [done|]. destruct Hcase as [[-> ?]|[-> ?]]; [left|right]; simpl; split_and!; try done; lia.
    + unfold budget_ok, weigh, opens. simpl. split_and!; try lia; [done|].
      destruct Hcase as [[-> ?]|[-> ?]]; [left|right]; simpl; split_and!; try done; lia.
Qed.

Definition charged (w : Z) (second_of : option Z) (used : Z) : Z :=
  match second_of with Some w0 => if w0 =? w then used else 0 | None => 0 end.

Definition within_rates (l : rates) (b : Budget) (gs : list (Z * ask)) : Prop :=
  ∀ w, charged w (b_second b) (b_up b) + sum_in w (weigh false) gs <= ra_up l
       ∧ charged w (b_second b) (b_down b) + sum_in w (weigh true) gs <= ra_down l
       ∧ charged w (b_second b) (b_opened b) + sum_in w opens gs <= ra_open l.

Lemma sum_in_none w f gs : Forall (fun g => g.1 ≠ w) gs → sum_in w f gs = 0.
Proof.
  induction 1 as [|g gs Hg _ IH]; [done|]. unfold sum_in in *. simpl. rewrite IH.
  destruct (Z.eqb_spec (fst g) w); [done|lia].
Qed.

Lemma sum_in_cons w f g gs : sum_in w f (g :: gs) = (if g.1 =? w then f g.2 else 0) + sum_in w f gs.
Proof. done. Qed.

Lemma grants_spec l asks b b' gs :
  0 <= ra_up l < u64_max → 0 <= ra_down l < u64_max → 0 <= ra_open l → budget_ok l b →
  StronglySorted Z.le asks.*1 → (∀ w, b_second b = Some w → Forall (fun t => w <= t) asks.*1) →
  Forall (fun na : Z * ask => ∀ d n, na.2 = Bytes d n → 0 <= n) asks → grants l b asks = (b', gs) →
  within_rates l b gs ∧ (∀ w, b_second b = Some w → Forall (fun g => w <= g.1) gs).
Proof.
  intros Hu Hd Ho. revert b b' gs. induction asks as [|[now a] asks IH]; intros b b' gs Hok Hs Hge Hn Hg.
  { simpl in Hg. injection Hg as <- <-. split; [|done]. intros w. destruct Hok as (? & ? & ?).
    unfold charged, sum_in. simpl. destruct (b_second b) as [w0|]; [destruct (w0 =? w)|]; lia. }
  simpl in Hg. destruct (grant l now a b) as [ok b1] eqn:Eg. destruct (grants l b1 asks) as [b2 gs'] eqn:Er.
  apply pair_eq in Hg as [-> <-]. apply StronglySorted_inv in Hs as [Hs Hnow]. apply Forall_cons in Hn as [Hn0 Hn].
  apply grant_spec in Eg as (Hok1 & [w1 Hw1] & Hcase); [|done..].
  assert (Hge1 : ∀ w, b_second b1 = Some w → Forall (fun t => w <= t) asks.*1).
  { intros w Hw. destruct Hcase as [(Hsec & _)|(Hsec & _)].
    - rewrite Hsec in Hw. specialize (Hge w Hw). simpl in Hge. by apply Forall_cons in Hge as [_ ?].
    - rewrite Hsec in Hw. by injection Hw as <-. }
  apply (IH _ _ _ Hok1 Hs Hge1 Hn) in Er as [Hin Hfrom]. specialize (Hfrom w1 Hw1). rewrite Hw1. simpl.
  assert (Hold : ∀ w, b_second b = Some w → w <= w1).
  { intros w Hw. destruct Hcase as [(Hsec & _)|(Hsec & _)]; rewrite Hsec in Hw1.
    - rewrite Hw in Hw1. injection Hw1. lia.
    - injection Hw1 as <-. specialize (Hge w Hw). simpl in Hge. by apply Forall_cons in Hge as [? _]. }
  split.
  2: { intros w Hw. specialize (Hold w Hw). assert (Forall (λ g, w <= g.1) gs').
       { eapply Forall_impl; [exact Hfrom|]. simpl. lia. }
       destruct ok; [|done]. by constructor. }
  assert (Hsum : ∀ w f, sum_in w f (if ok then (w1, a) :: gs' else gs')
                        = (if w1 =? w then if ok then f a else 0 else 0) + sum_in w f gs').
  { intros w f. destruct ok; [by rewrite sum_in_cons|]. destruct (w1 =? w); lia. }
  intros w. rewrite !Hsum. specialize (Hin w). unfold charged in *. rewrite Hw1 in Hin.
  destruct Hcase as [(Hsec & _ & E1 & E2 & E3)|(Hsec & Hlate & E1 & E2 & E3)].
  - rewrite E1, E2, E3 in Hin. rewrite <- Hsec, Hw1. destruct (w1 =? w); lia.
  - rewrite E1, E2, E3 in Hin. destruct Hok as (? & ? & ?). destruct (b_second b) as [w0|]; [|lia].
    specialize (Hlate w0 eq_refl). rewrite Hsec in Hw1. injection Hw1 as ->. unfold sat_sub, second in Hlate.
    destruct (Z.eqb_spec w0 w) as [->|]; [|lia]. rewrite (proj2 (Z.eqb_neq w1 w)) by lia.
    rewrite !sum_in_none by (eapply Forall_impl; [exact Hfrom|]; simpl; lia). lia.
Qed.

(** Over any run of requests of a listener's sessions, the bytes it lets
    through in each direction and the sessions it opens within one second of its
    budget are at most its limits, however the sessions interleave. *)
Theorem budget_bounds_each_second l asks b gs w :
  0 <= ra_up l < u64_max → 0 <= ra_down l < u64_max → 0 <= ra_open l →
  StronglySorted Z.le asks.*1 → Forall (fun na : Z * ask => ∀ d n, na.2 = Bytes d n → 0 <= n) asks →
  grants l no_budget asks = (b, gs) →
  sum_in w (weigh false) gs <= ra_up l ∧ sum_in w (weigh true) gs <= ra_down l ∧ sum_in w opens gs <= ra_open l.
Proof.
  intros Hu Hd Ho Hs Hn Hg. apply grants_spec in Hg as [Hin _]; try done; [by specialize (Hin w)|].
  unfold budget_ok. simpl. lia.
Qed.

(** ** The manager over time *)

(** What the relays may change of an entry: sessions, counters, status and
    whether the task still runs; never the rule or whether visitors are taken. *)
Definition same_rule (e e' : Entry) : Prop := en_resource e' = en_resource e ∧ accepting e' = accepting e.

Definition relayed (m m' : Manager) : Prop :=
  m_store m' = m_store m ∧ Forall2 (fun a b : str * Entry => b.1 = a.1 ∧ same_rule a.2 b.2) (m_entries m) (m_entries m').

Inductive manager_step : Manager → Manager → Prop :=
| StepReplace now bind saved m d allow : manager_step m (replace now bind saved m d allow).1
| StepDrain now saved m id n : manager_step m (drain now saved m id n).1
| StepDisconnect m id sid : manager_step m (disconnect m id sid).1
| StepRelay m m' : relayed m m' → manager_step m m'
| StepShutdown now m : manager_step m (shutdown now m).

Inductive manager_reachable : Manager → Prop :=
| Booted bind row from_json : manager_reachable (initialize bind (load row from_json))
| Stepped m m' : manager_reachable m → manager_step m m' → manager_reachable m'.

Lemma relayed_aget es es' :
  Forall2 (fun a b : str * Entry => b.1 = a.1 ∧ same_rule a.2 b.2) es es' →
  keys es' = keys es
  ∧ ∀ id, match aget id es, aget id es' with Some e, Some e' => same_rule e e' | None, None => True | _, _ => False end.
Proof.
  induction 1 as [|[i e] [i' e'] es es' [Hi Hr] _ [Hk IH]]; [done|]. simpl in *. subst i'. split; [by rewrite Hk|].
  intros id. case_decide; [done|apply IH].
Qed.

Lemma relayed_keeps m m' : relayed m m' → synced m ∧ entries_sound m → synced m' ∧ entries_sound m'.
Proof.
  intros [Hst H2] [[Hnd Hs] Hok]. apply relayed_aget in H2 as [Hk Hg]. split.
  - split; [by rewrite Hk|]. intros id. unfold document. rewrite Hst. specialize (Hs id). specialize (Hg id).
    unfold document, manager_resource in *. rewrite <- Hs.
    destruct (aget id (m_entries m)), (aget id (m_entries m')); simpl; try done. by destruct Hg as [-> _].
  - intros id e He Ha. specialize (Hg id). rewrite He in Hg. destruct (aget id (m_entries m)) as [e0|] eqn:E0; [|done].
    destruct Hg as [Hr Hacc]. rewrite Hr. apply (Hok id e0 E0). congruence.
Qed.

Lemma stop_first_same id sid es es' : stop_first id sid es = Some es' → Forall2 same_rule es es'.
Proof.
  assert (Hrefl : ∀ l, Forall2 same_rule l l) by (intros l; induction l; by constructor).
  revert es'. induction es as [|e es IH]; intros es'; simpl; [done|]. destruct (holds id sid e).
  - intros [= <-]. constructor; [done|apply Hrefl].
  - destruct (stop_first id sid es) as [l|]; [|done]. simpl. intros [= <-]. constructor; [done|by apply IH].
Qed.

Lemma disconnect_relayed m id sid : relayed m (disconnect m id sid).1.
Proof.
  unfold disconnect. destruct (stop_first _ _ _) as [es|] eqn:E; simpl.
  - split; [done|]. simpl. apply stop_first_same in E. apply Forall2_app_inv_l in E as (l1 & l2 & H1 & H2 & ->).
    assert (length l1 = length (m_entries m)) as Hlen by (apply Forall2_length in H1; rewrite length_fmap in H1; done).
    rewrite take_app_le, take_ge by lia. clear H2 Hlen. unfold keys.
    revert l1 H1. induction (m_entries m) as [|[i e] l IH]; intros l1 H1; simpl in *.
    + apply Forall2_nil_inv_l in H1 as ->. constructor.
    + apply Forall2_cons_inv_l in H1 as (e' & l1' & Hr & H1 & ->). simpl. constructor; [done|by apply IH].
  - split; [done|]. clear. induction (m_entries m); constructor; [done|done].
Qed.

Lemma initialize_all_spec bind m rs :
  NoDup (er_id <$> rs) →
  m_store (initialize_all bind m rs) = m_store m
  ∧ (NoDup (keys (m_entries m)) → NoDup (keys (m_entries (initialize_all bind m rs))))
  ∧ (∀ r, r ∈ rs → ∃ e, aget (er_id r) (m_entries (initialize_all bind m rs)) = Some e ∧ en_resource e = r
                        ∧ (accepting e = true → es_enabled (er_spec r) = true))
  ∧ (∀ i, i ∉ er_id <$> rs → aget i (m_entries (initialize_all bind m rs)) = aget i (m_entries m)).
Proof.
  revert m. induction rs as [|r rs IH]; intros m Hnd; [split_and!; set_solver|].
  rewrite fmap_cons in Hnd. apply NoDup_cons in Hnd as [Hnr Hnd]. simpl.
  destruct (IH {| m_store := m_store m; m_entries := aset (er_id r) (start m bind r) (m_entries m);
                  m_retired := m_retired m; m_totals := m_totals m |} Hnd) as (H1 & H2 & H3 & H4). simpl in *.
  split_and!.
  - done.
  - intros Hk. apply H2. by apply NoDup_aset.
  - intros r' Hr'. apply elem_of_cons in Hr' as [->|Hr']; [|by apply H3].
    exists (start m bind r). rewrite H4 by done. rewrite aget_aset_eq. split_and!; [done|..].
    + unfold start. destruct (allowed _ _ _); [destruct (es_enabled _); [destruct (bind _)|]|]; done.
    + unfold start. destruct (allowed _ _ _); [destruct (es_enabled _) eqn:E; [destruct (bind _)|]|];
        unfold accepting; simpl; rewrite ?andb_false_r, ?E; done.
  - intros i Hi. apply not_elem_of_cons in Hi as [Hi1 Hi2]. rewrite H4 by done. by rewrite aget_aset_ne.
Qed.

Lemma booted_ok bind row from_json : synced (initialize bind (load row from_json)) ∧ entries_sound (initialize bind (load row from_json)).
Proof.
  set (m := load row from_json). unfold initialize.
  assert (Hv : doc_validate (document m) = Ok tt).
  { unfold m, load, document, from_connection. simpl.
    destruct row as [[raw|]|]; simpl; [destruct (from_json raw) as [doc|]; simpl; [destruct (doc_validate doc) as [[]|] eqn:E; done|done]|done..]. }
  apply doc_validate_ids in Hv. destruct (initialize_all_spec bind m _ Hv) as (H1 & H2 & H3 & H4). split.
  - split; [apply H2; constructor|]. intros id.
    assert (document (initialize_all bind m (ed_resources (document m))) = document m) as -> by (unfold document at 1; by rewrite H1).
    unfold manager_resource. destruct (decide (id ∈ er_id <$> ed_resources (document m))) as [Hi|Hi].
    + apply list_elem_of_fmap in Hi as (r & -> & Hr). destruct (H3 r Hr) as (e & He & Hr' & _). rewrite He. simpl. rewrite Hr'.
      symmetry. by apply find_id_elem.
    + rewrite (H4 id Hi). symmetry. by apply find_id_None.
  - intros id e He Ha. destruct (decide (id ∈ er_id <$> ed_resources (document m))) as [Hi|Hi].
    + apply list_elem_of_fmap in Hi as (r & -> & Hr). destruct (H3 r Hr) as (e' & He' & <- & Hacc).
      rewrite He in He'. injection He' as ->. auto.
    + rewrite (H4 id Hi) in He. done.
Qed.

Lemma reachable_ok_both m : manager_reachable m → synced m ∧ entries_sound m.
Proof.
  induction 1 as [bind row from_json|m m' _ IH Hstep]; [apply booted_ok|].
  destruct IH as [Hs Hok]. destruct Hstep as [now bind saved m d allow|now saved m id n|m id sid|m m' Hr|now m].
  - destruct (replace now bind saved m d allow) as [m' [[]|e]] eqn:E; simpl.
    + split; [by eapply replace_synced|]. intros id e He Ha. by eapply replace_accepting in Ha as (_ & _ & ? & _).
    + apply replace_refused in E as [Es Ee]. unfold synced, entries_sound, manager_resource, document in *. by rewrite Es, Ee.
  - destruct (drain now saved m id n) as [m' [[]|e]] eqn:E; simpl; [by eapply drain_keeps|].
    unfold drain in E. destruct (aget id _); [|by injection E as <- _]. destruct (find _ _); [|by injection E as <- _].
    destruct (commit _ _ _); [done|by injection E as <- _].
  - eapply relayed_keeps; [apply disconnect_relayed|done].
  - by eapply relayed_keeps.
  - split.
    + destruct Hs as [Hnd Hs]. split; [unfold shutdown, keys in *; simpl; by rewrite <- list_fmap_compose|].
      intros id. change (document (shutdown now m)) with (document m). rewrite <- (Hs id).
      unfold manager_resource, shutdown. simpl. rewrite aget_prod_map. by destruct (aget id _).
    + intros id e. unfold shutdown. simpl. rewrite aget_prod_map. destruct (aget id _); [|done]. simpl. by intros [= <-].
Qed.

(** Whatever the operators, the sockets, the database and the relays do, the
    manager's rules are those of its stored document, one entry for each, and a
    listener that takes visitors is one whose rule is enabled. *)
Theorem manager_in_step m : manager_reachable m → synced m ∧ entries_sound m.
Proof. apply reachable_ok_both. Qed.

Lemma reachable_synced m : manager_reachable m → synced m.
Proof. intros H. by apply reachable_ok_both in H as [? _]. Qed.

Lemma reachable_valid m : manager_reachable m → doc_validate (document m) = Ok tt.
Proof.
  assert (Hinit : ∀ bind rs m, m_store (initialize_all bind m rs) = m_store m).
  { intros bind rs. induction rs as [|r rs IH]; intros m'; simpl; [done|]. by rewrite IH. }
  induction 1 as [bind row from_json|m m' _ IH Hstep].
  - unfold initialize, document at 1. rewrite Hinit. unfold load, from_connection. simpl.
    destruct row as [[raw|]|]; simpl; [|done..]. destruct (from_json raw) as [doc|]; simpl; [|done].
    destruct (doc_validate doc) as [[]|] eqn:E; done.
  - destruct Hstep as [now bind saved m d allow|now saved m id n|m id sid|m m' [Hs _]|now m].
    + destruct (replace now bind saved m d allow) as [m' [[]|e]] eqn:E; simpl.
      * apply replace_ok in E as (? & ? & _ & Hc & _). by apply commit_document in Hc as (_ & Hv & _).
      * apply replace_refused in E as [Es _]. unfold document in *. by rewrite Es.
    + unfold drain. destruct (aget id _); [|done]. destruct (find _ _); [|done].
      destruct (commit _ _ _) eqn:Ec; [|done]. by apply commit_document in Ec as (_ & Hv & _).
    + unfold disconnect. by destruct (stop_first _ _ _).
    + unfold document in *. by rewrite Hs.
    + done.
Qed.

(** ** Samples *)

Module ManagerSamples.

Import ExposeSamples.

Definition res (id : str) (rev port : Z) (enabled : bool) : ExposeResource :=
  {| er_id := id; er_revision := rev; er_source := Api; er_spec := spec port Tcp enabled |}.

Definition doc (rev : Z) (rs : list ExposeResource) (p : ExposePolicy) : ExposeDocument :=
  {| ed_version := 1; ed_revision := rev; ed_resources := rs; ed_policies := [p] |}.

Definition free (l : ExposeListener) : result unit str := Ok tt.

Definition boot (d : ExposeDocument) : Manager := initialize free (load (Ok (Some [])) (λ _, Ok d)).

Definition two : ExposeDocument := doc 3 [res (bs "a") 1 5432 true; res (bs "b") 1 5433 true] wide.
Definition edited : ExposeDocument := doc 3 [res (bs "a") 1 5432 true; res (bs "b") 2 5440 true] wide.
Definition m0 : Manager := boot two.
Definition m1 : Manager := (replace 7 free (Ok tt) m0 edited false).1.

Lemma m0_sound : entries_sound m0.
Proof. apply booted_ok. Qed.

Lemma replace_all_or_nothing_witness :
  (replace 7 free (Ok tt) m0 edited false).2 = Ok tt
  ∧ document m1 = with_revision edited (ed_revision (document m0) + 1) ∧ synced m1
  ∧ document (replace 7 free (Err (bs "disk full")) m0 edited false).1 = document m0.
Proof.
  split; [vm_compute; reflexivity|].
  destruct (replace_all_or_nothing 7 free (Ok tt) m0 edited false m1 (Ok tt)) as [Hd Hs]; [vm_compute; reflexivity|].
  split; [exact Hd|split; [exact Hs|]]. vm_compute. reflexivity.
Defined.

Lemma open_listeners_licensed_witness :
  entries_sound m1 ∧ accepting <$> aget (bs "b") (m_entries m1) = Some true.
Proof.
  split; [|vm_compute; reflexivity].
  apply (open_listeners_licensed 7 free (Ok tt) m0 edited false); [apply m0_sound|vm_compute; reflexivity].
Defined.

Lemma organization_within_ceilings_witness :
  total (used (bs "acme") is_tcp capacity) (er_spec <$> ed_resources edited) <= 600.
Proof.
  destruct (aget (bs "b") (m_entries m1)) as [e|] eqn:Ee; [|vm_compute in Ee; discriminate].
  assert (Hr : en_resource e = res (bs "b") 2 5440 true) by (vm_compute in Ee; injection Ee as <-; reflexivity).
  assert (Ha : accepting e = true) by (vm_compute in Ee; injection Ee as <-; reflexivity).
  replace (bs "acme") with (es_org_id (er_spec (en_resource e))) by (rewrite Hr; reflexivity).
  change 600 with (ep_max_tcp_connections wide).
  refine (proj1 (organization_within_ceilings 7 free (Ok tt) m0 edited false m1 (bs "b") e wide _ _ _ _ _ _ _) _).
  - apply m0_sound.
  - vm_compute. reflexivity.
  - repeat constructor; vm_compute; discriminate.
  - exact Ee.
  - exact Ha.
  - rewrite Hr. vm_compute. reflexivity.
  - vm_compute. discriminate.
  - vm_compute. reflexivity.
Defined.

(** [b] drains while [a] is moved to another port. *)
Definition md : Manager := (drain 7 (Ok tt) m0 (bs "b") 30).1.
Definition moved : ExposeDocument :=
  with_resources (document md) [res (bs "a") 2 5450 true; res (bs "b") 2 5433 false].

Lemma drain_survives_other_changes_witness :
  aget (bs "b") (m_entries (replace 9 free (Ok tt) md moved false).1) = aget (bs "b") (m_entries md)
  ∧ (ct_deadline ∘ rt_control ∘ en_runtime <$> aget (bs "b") (m_entries md)) = Some (Some 37).
Proof.
  split; [|vm_compute; reflexivity].
  destruct (aget (bs "b") (m_entries md)) as [e|] eqn:Ee; [|vm_compute in Ee; discriminate].
  assert (Hr : en_resource e = res (bs "b") 2 5433 false) by (vm_compute in Ee; injection Ee as <-; reflexivity).
  apply (drain_survives_other_changes 9 free (Ok tt) md moved false);
    [vm_compute; reflexivity|exact Ee|rewrite Hr; vm_compute; reflexivity| |rewrite Hr; reflexivity|].
  - rewrite Hr. right. left.
  - rewrite Hr. vm_compute. reflexivity.
Defined.

Definition view (id : str) : SessionView :=
  {| sv_id := id; sv_expose_id := bs "a"; sv_org_id := bs "acme"; sv_revision := 1; sv_protocol := Tcp;
     sv_peer := (V4 167772161, 40000); sv_client_id := bs "c1"; sv_target := bs "127.0.0.1:5432"; sv_started_at := 100;
     sv_up_bytes := 0; sv_down_bytes := 0; sv_up_packets := 0; sv_down_packets := 0; sv_idle_seconds := 0;
     sv_ended_at := Some 700000; sv_reason := None |}.

Definition ms : Manager :=
  {| m_store := m_store m0;
     m_entries := prod_map id (λ e, {| en_resource := en_resource e;
       en_runtime := with_sessions (en_runtime e) [(bs "s1", {| ss_view := view (bs "s1"); ss_touched := 1; ss_stop := false |})] [];
       en_task := en_task e |}) <$> m_entries m0;
     m_retired := []; m_totals := [] |}.

Definition fewer : ExposeDocument :=
  with_resources two [{| er_id := bs "a"; er_revision := 2; er_source := Api;
    er_spec := {| es_org_id := bs "acme"; es_tunnel := bs "postgres"; es_listener := listener 5432 Tcp; es_enabled := true;
                  es_limits := LimitsTcp 8 10 30 1024 1024; es_allowed_ips := [bs "10.0.0.0/8"]; es_advertised_host := None |} |};
    res (bs "b") 1 5433 true].

Lemma new_limits_cut_sessions_witness :
  ∃ e' s, aget (bs "a") (m_entries (replace 9 free (Ok tt) ms fewer false).1) = Some e'
          ∧ accepting e' = true ∧ aget (bs "s1") (rt_sessions (en_runtime e')) = Some s ∧ ss_stop s = true.
Proof.
  destruct (aget (bs "a") (m_entries ms)) as [e|] eqn:Ee; [|vm_compute in Ee; discriminate].
  destruct (aget (bs "a") (m_entries (replace 9 free (Ok tt) ms fewer false).1)) as [e'|] eqn:Ee'; [|vm_compute in Ee'; discriminate].
  destruct (aget (bs "s1") (rt_sessions (en_runtime e'))) as [s|] eqn:Es; [|vm_compute in Ee'; injection Ee' as <-; vm_compute in Es; discriminate].
  exists e', s. split; [reflexivity|]. split; [vm_compute in Ee'; injection Ee' as <-; reflexivity|]. split; [exact Es|].
  refine (new_limits_cut_sessions 9 free (Ok tt) ms fewer false _ (bs "a") e e' (bs "s1") s _ Ee Ee' _ Es).
  - vm_compute. reflexivity.
  - left. vm_compute in Ee, Ee'. injection Ee as <-. injection Ee' as <-. vm_compute. discriminate.
Defined.

Lemma session_history_bounded_witness :
  (length (record_session 700000 [row_of (view (bs "s0"))] (view (bs "s1"))) <= 2048)%nat
  ∧ length (record_session 700000 [row_of (view (bs "s0"))] (view (bs "s1"))) = 2%nat.
Proof.
  split; [|vm_compute; reflexivity].
  apply (session_history_bounded 700000 [row_of (view (bs "s0"))] (view (bs "s1"))).
  - apply NoDup_singleton.
  - intros org. unfold count_org. etrans; [apply length_filter|]. simpl. lia.
Defined.

Definition limits : rates := {| ra_up := 100; ra_down := 100; ra_open := 1 |}.
Definition asks : list (Z * ask) :=
  [(0, Open); (1, Bytes false 60); (2, Bytes false 60); (3, Open); (second, Bytes false 60); (second + 1, Bytes true 100)].

Lemma budget_bounds_each_second_witness :
  sum_in 0 (weigh false) (grants limits no_budget asks).2 <= 100
  ∧ (grants limits no_budget asks).2 = [(0, Open); (0, Bytes false 60); (second, Bytes false 60); (second, Bytes true 100)].
Proof.
  split; [|vm_compute; reflexivity].
  refine (proj1 (budget_bounds_each_second limits asks _ _ 0 _ _ _ _ _ (surjective_pairing _))).
  - vm_compute. split; congruence.
  - vm_compute. split; congruence.
  - vm_compute. congruence.
  - repeat constructor; vm_compute; congruence.
  - repeat (constructor; [intros d n [= <- <-]; vm_compute; congruence || (intros d n H; discriminate H)|]). constructor.
Defined.

Lemma manager_in_step_witness : synced m1 ∧ entries_sound m1.
Proof.
  apply manager_in_step. apply (Stepped m0); [apply Booted|apply StepReplace].
Defined.

(** A policy that leaves out one rule, which is not even enabled, suspends every
    listener of the organization, the ones it allows included, and says their
    quota is exceeded. *)
Definition one_out : ExposeDocument := doc 3 [res (bs "a") 1 5432 true; res (bs "b") 1 5600 false] wide.

Example one_outside_suspends_all :
  let m := (replace 7 free (Ok tt) (boot one_out) (with_policies one_out [narrow]) true).1 in
  allows narrow (spec 5432 Tcp true) = true
  ∧ accepting <$> aget (bs "a") (m_entries (boot one_out)) = Some true
  ∧ rt_status ∘ en_runtime <$> aget (bs "a") (m_entries m) = Some (Suspended, Some (bs "organization expose quota exceeded")).
Proof. vm_compute. auto. Qed.

End ManagerSamples.
