(* ===== verification/ExposesApi.v ===== *)
(** Management of public listeners: the handlers of
    [aperio-server/src/api/exposes.rs] that change or read them.

    A handler takes the manager and answers with it and a response; who the
    caller is, is what the session part resolved. The server's random UUIDs and
    the UUID parser are arguments, as are the socket and the database of the
    manager. *)

From S2P Require Import Prelude IpNet Grants Clients Names Expose Registry ExposeManager.

Inductive response : Type :=
| Failure (status : Z) (code : str)
| Invalid (errors : list ExposeError)
| Stored (status : Z) (r : ExposeResource)
| StoredPolicy (p : ExposePolicy)
| Imported (preview : bool) (revision added : Z)
| NoContent.

Record audit_entry : Type := { ae_event : str; ae_action : str; ae_org : option str; ae_id : str }.

(** What the outside answers during one request. *)
Record Outside : Type := {
  o_now : Z;
  o_bind : ExposeListener → result unit str;
  o_saved : result unit str;
  o_uuid_ok : str → bool;
  o_new_uuid : str;
  o_fleet : Fleet;
}.

Definition answer : Type := Manager * response * list audit_entry.

Definition runtime_error (message : str) : response :=
  if starts_with (bs "persistence:") message then Failure 503 (bs "persistence_failed")
  else if contains (bs "bind") message || contains (bs "port conflict") message then Failure 409 (bs "port_conflict")
  else if contains (bs "quota") message then Failure 409 (bs "quota_exceeded")
  else if contains (bs "allocation") message then Failure 403 (bs "port_policy")
  else Failure 500 (bs "apply_failed").

Definition unauthenticated : response := Failure 401 (bs "authentication_required").
Definition forbidden : response := Failure 403 (bs "forbidden").
Definition not_found : response := Failure 404 (bs "not_found").

#[export] Instance ExposeAction_eq_dec : EqDecision ExposeAction.
Proof. solve_decision. Defined.

Definition permits (c : Caller) (org : str) (a : ExposeAction) : bool :=
  bool_decide (a ∈ caller_expose_actions c (org_of_id org)).

Definition authorized (c : Caller) (r : ExposeResource) (a : ExposeAction) : result unit response :=
  if negb (permits c (es_org_id (er_spec r)) Read) then Err not_found
  else if negb (permits c (es_org_id (er_spec r)) a) then Err forbidden
  else Ok tt.

Definition bounded_change (c : Caller) (s : ExposeSpec) (d : ExposeDocument) (m : Manager) : result unit response :=
  if caller_is_server_admin c then Ok tt
  else
    let within := match policy_of d (es_org_id s) with
                  | Some p => allows p s
                              && fits p (filter (fun x => str_eqb (es_org_id x) (es_org_id s) && allows p x = true)
                                           (quota_specs m (ed_resources d)))
                  | None => false
                  end in
    if within then Ok tt else Err (Failure 403 (bs "outside_allocation")).

Definition revision_matches (r : ExposeResource) (expected : Z) : result unit response :=
  if er_revision r =? expected then Ok tt else Err (Failure 409 (bs "revision_conflict")).

Definition validate (f : Fleet) (s : ExposeSpec) : result unit response :=
  match spec_validate s with
  | _ :: _ as errors => Err (Invalid errors)
  | [] =>
      if negb (str_eqb (es_org_id s) (bs "master")) && negb (org_known f (Some (es_org_id s)))
      then Err (Failure 400 (bs "invalid_org"))
      else match target f s with
           | Err Incompatible => Err (Failure 400 (bs "incompatible_target"))
           | _ => Ok tt
           end
  end.

Definition changed (action : str) (r : ExposeResource) : audit_entry :=
  {| ae_event := bs "expose_changed"; ae_action := action; ae_org := org_of_id (es_org_id (er_spec r)); ae_id := er_id r |}.

(** [manager.replace] and its error as a response. *)
Definition put (o : Outside) (m : Manager) (d : ExposeDocument) (allow_suspension : bool) : Manager * result unit response :=
  let '(m, res) := replace (o_now o) (o_bind o) (o_saved o) m d allow_suspension in
  (m, match res with Ok _ => Ok tt | Err e => Err (runtime_error e) end).

(** ** Reading *)

Definition detail (m : Manager) (c : option Caller) (id : str) : result ExposeResource response :=
  match c with
  | None => Err unauthenticated
  | Some c =>
      match manager_resource m id with
      | None => Err not_found
      | Some r => match authorized c r Read with Err e => Err e | Ok _ => Ok r end
      end
  end.

Definition policies (m : Manager) (c : option Caller) : result (list ExposePolicy) response :=
  match c with
  | None => Err unauthenticated
  | Some c => Ok (filter (fun p => permits c (ep_org_id p) Read = true) (ed_policies (document m)))
  end.

(** The rules a listing shows, before its other filters, its order and its page. *)
Definition listed_rules (m : Manager) (c : Caller) : list ExposeResource :=
  filter (fun r => permits c (es_org_id (er_spec r)) Read = true) ((fun ke : str * Entry => en_resource ke.2) <$> m_entries m).

(** The actions shown beside a rule. *)
Definition shown_actions (c : Caller) (r : ExposeResource) : list ExposeAction :=
  filter (fun a => match a with Read => true | _ => bool_decide (er_source r = Api) end = true)
    (caller_expose_actions c (org_of_id (es_org_id (er_spec r)))).

Record ExposeBackup : Type := { bk_version : Z; bk_resources : list ExposeResource; bk_policies : list ExposePolicy }.

Definition export (m : Manager) (c : option Caller) : result ExposeBackup response :=
  match c with
  | None => Err unauthenticated
  | Some c =>
      match st_load_error (m_store m) with
      | Some _ => Err (Failure 409 (bs "store_recovery"))
      | None =>
          Ok {| bk_version := 1;
                bk_resources := filter (fun r => permits c (es_org_id (er_spec r)) Read = true) (ed_resources (document m));
                bk_policies := filter (fun p => permits c (ep_org_id p) Read = true) (ed_policies (document m)) |}
      end
  end.

(** ** Changing *)

Definition create (o : Outside) (m : Manager) (c : option Caller) (id : option str) (s : ExposeSpec) : answer :=
  match c with
  | None => (m, unauthenticated, [])
  | Some c =>
      if negb (permits c (es_org_id s) Create) then (m, forbidden, [])
      else match validate (o_fleet o) s with
      | Err r => (m, r, [])
      | Ok _ =>
          let id := default (o_new_uuid o) id in
          if negb (o_uuid_ok o id) then (m, Failure 400 (bs "invalid_id"), [])
          else
            let r := {| er_id := id; er_revision := 1; er_source := Api; er_spec := s |} in
            match manager_resource m id with
            | Some existing =>
                match authorized c existing Read with
                | Err e => (m, e, [])
                | Ok _ => if bool_decide (er_spec existing = s) then (m, Stored 200 existing, [])
                          else (m, Failure 409 (bs "id_conflict"), [])
                end
            | None =>
                let d := with_resources (document m) (ed_resources (document m) ++ [r]) in
                match bounded_change c s d m with
                | Err e => (m, e, [])
                | Ok _ =>
                    let '(m, res) := put o m d false in
                    match res with
                    | Err e => (m, e, [])
                    | Ok _ => (m, Stored 201 r, [changed (bs "create") r])
                    end
                end
            end
      end
  end.

Definition with_spec (r : ExposeResource) (s : ExposeSpec) : ExposeResource :=
  {| er_id := er_id r; er_revision := er_revision r + 1; er_source := er_source r; er_spec := s |}.

Definition update (o : Outside) (m : Manager) (c : option Caller) (id : str) (revision : Z) (s : ExposeSpec) : answer :=
  match c with
  | None => (m, unauthenticated, [])
  | Some c =>
      match manager_resource m id with
      | None => (m, not_found, [])
      | Some old =>
          match result_bind (authorized c old Update) (fun _ => revision_matches old revision) with
          | Err e => (m, e, [])
          | Ok _ =>
              if negb (str_eqb (es_org_id s) (es_org_id (er_spec old))) then (m, Failure 400 (bs "immutable_org"), [])
              else
                let toggled := if Bool.eqb (es_enabled (er_spec old)) (es_enabled s) then Ok tt
                               else authorized c old (if es_enabled s then Enable else Disable) in
                match result_bind toggled (fun _ => validate (o_fleet o) s) with
                | Err e => (m, e, [])
                | Ok _ =>
                    let r := with_spec old s in
                    let d := with_resources (document m) (update_first id (fun _ => r) (ed_resources (document m))) in
                    match bounded_change c s d m with
                    | Err e => (m, e, [])
                    | Ok _ =>
                        let '(m, res) := put o m d false in
                        match res with
                        | Err e => (m, e, [])
                        | Ok _ => (m, Stored 200 r, [changed (bs "update") r])
                        end
                    end
                end
          end
      end
  end.

Definition delete_rule (o : Outside) (m : Manager) (c : option Caller) (id : str) (revision : Z) : answer :=
  match c with
  | None => (m, unauthenticated, [])
  | Some c =>
      match manager_resource m id with
      | None => (m, not_found, [])
      | Some old =>
          match result_bind (authorized c old Delete) (fun _ => revision_matches old revision) with
          | Err e => (m, e, [])
          | Ok _ =>
              let d := with_resources (document m) (filter (fun r => er_id r ≠ id) (ed_resources (document m))) in
              let '(m, res) := put o m d true in
              match res with
              | Err e => (m, e, [])
              | Ok _ => (m, NoContent, [changed (bs "delete") old])
              end
          end
      end
  end.

Inductive operation : Type := OpEnable | OpRetry | OpDisable | OpDrain | OpDisconnect.

Definition parse_operation (action : str) : option operation :=
  if str_eqb action (bs "enable") then Some OpEnable
  else if str_eqb action (bs "retry") then Some OpRetry
  else if str_eqb action (bs "disable") then Some OpDisable
  else if str_eqb action (bs "drain") then Some OpDrain
  else if str_eqb action (bs "disconnect") then Some OpDisconnect
  else None.

Definition required (op : operation) : ExposeAction :=
  match op with OpEnable | OpRetry => Enable | OpDisable | OpDrain => Disable | OpDisconnect => Disconnect end.

Definition operate (o : Outside) (m : Manager) (c : option Caller) (id : str) (revision : Z) (action : str)
    (session_id : option str) (drain_seconds : option Z) : answer :=
  match c with
  | None => (m, unauthenticated, [])
  | Some c =>
  match parse_operation action with
  | None => (m, Failure 400 (bs "invalid_action"), [])
  | Some op =>
  match manager_resource m id with
  | None => (m, not_found, [])
  | Some r =>
  match result_bind (authorized c r (required op)) (fun _ => revision_matches r revision) with
  | Err e => (m, e, [])
  | Ok _ =>
  match op with
  | OpDisconnect =>
      match session_id with
      | None => (m, Failure 400 (bs "session_required"), [])
      | Some sid =>
          let '(m, found) := disconnect m id sid in
          if found then (m, Stored 200 r, [changed action r]) else (m, not_found, [])
      end
  | OpDrain =>
      match authorized c r Disconnect with
      | Err e => (m, e, [])
      | Ok _ =>
          let duration := default 30 drain_seconds in
          if (duration =? 0) || (3600 <? duration) then (m, Failure 400 (bs "invalid_deadline"), [])
          else
            let '(m, res) := drain (o_now o) (o_saved o) m id (duration * second) in
            match res with
            | Err e => (m, runtime_error e, [])
            | Ok _ => match manager_resource m id with
                      | Some r => (m, Stored 200 r, [changed action r])
                      | None => (m, not_found, [])
                      end
            end
      end
  | _ =>
      let on := match op with OpDisable => false | _ => true end in
      let r' := with_spec r (with_enabled (er_spec r) on) in
      let d := with_resources (document m) (update_first id (fun _ => r') (ed_resources (document m))) in
      match (if on then bounded_change c (er_spec r') d m else Ok tt) with
      | Err e => (m, e, [])
      | Ok _ =>
          let '(m, res) := put o m d (negb on) in
          match res with
          | Err e => (m, e, [])
          | Ok _ => (m, Stored 200 r', [changed action r'])
          end
      end
  end
  end
  end
  end
  end.

Definition bumped (p : ExposePolicy) (rev : Z) : ExposePolicy :=
  {| ep_org_id := ep_org_id p; ep_revision := rev; ep_allocations := ep_allocations p; ep_reserved := ep_reserved p;
     ep_max_rules := ep_max_rules p; ep_max_tcp_connections := ep_max_tcp_connections p;
     ep_max_udp_sessions := ep_max_udp_sessions p; ep_ingress := ep_ingress p; ep_egress := ep_egress p |}.

Definition set_policy (o : Outside) (m : Manager) (c : option Caller) (org : str) (p : ExposePolicy) : answer :=
  match c with
  | None => (m, unauthenticated, [])
  | Some c =>
      if negb (caller_is_server_admin c) then (m, forbidden, [])
      else if negb (str_eqb (ep_org_id p) org) || match policy_validate p with [] => false | _ => true end
      then (m, Failure 400 (bs "validation"), [])
      else if negb (str_eqb org (bs "master")) && negb (org_known (o_fleet o) (Some org)) then (m, Failure 400 (bs "invalid_org"), [])
      else if negb (match manager_policy m org with Some q => ep_revision q | None => 0 end =? ep_revision p)
      then (m, Failure 409 (bs "revision_conflict"), [])
      else
        let p := bumped p (ep_revision p + 1) in
        let d := with_policies (document m) (filter (fun q => ep_org_id q ≠ org) (ed_policies (document m)) ++ [p]) in
        let '(m, res) := put o m d true in
        match res with
        | Err e => (m, e, [])
        | Ok _ => (m, StoredPolicy p,
                   [{| ae_event := bs "expose_policy_changed"; ae_action := []; ae_org := org_of_id org; ae_id := org |}])
        end
  end.

(** *** Import *)

Definition mapped_org (org_map : list (str * str)) (org : str) : str := default org (aget org org_map).

Definition with_org (s : ExposeSpec) (org : str) : ExposeSpec :=
  {| es_org_id := org; es_tunnel := es_tunnel s; es_listener := es_listener s; es_enabled := es_enabled s;
     es_limits := es_limits s; es_allowed_ips := es_allowed_ips s; es_advertised_host := es_advertised_host s |}.

Definition remap (org_map : list (str * str)) (r : ExposeResource) : ExposeResource :=
  {| er_id := er_id r; er_revision := er_revision r; er_source := er_source r;
     er_spec := with_org (er_spec r) (mapped_org org_map (es_org_id (er_spec r))) |}.

Definition remap_policy (org_map : list (str * str)) (p : ExposePolicy) : ExposePolicy :=
  {| ep_org_id := mapped_org org_map (ep_org_id p); ep_revision := ep_revision p; ep_allocations := ep_allocations p;
     ep_reserved := ep_reserved p; ep_max_rules := ep_max_rules p; ep_max_tcp_connections := ep_max_tcp_connections p;
     ep_max_udp_sessions := ep_max_udp_sessions p; ep_ingress := ep_ingress p; ep_egress := ep_egress p |}.

Fixpoint each {A} (f : A → result unit response) (l : list A) : result unit response :=
  match l with [] => Ok tt | x :: l' => match f x with Err e => Err e | Ok _ => each f l' end end.

(** The checks of a resource that comes in, already mapped. *)
Definition import_resource_ok (f : Fleet) (c : Caller) (r : ExposeResource) : result unit response :=
  if negb (bool_decide (er_source r = Api)) then Err (Failure 400 (bs "file_owned"))
  else if negb (permits c (es_org_id (er_spec r)) Create) then Err forbidden
  else validate f (er_spec r).

Definition import_policy_ok (f : Fleet) (c : Caller) (p : ExposePolicy) : result unit response :=
  if negb (caller_is_server_admin c) then Err forbidden
  else if negb (str_eqb (ep_org_id p) (bs "master")) && negb (org_known f (Some (ep_org_id p)))
  then Err (Failure 400 (bs "invalid_org"))
  else Ok tt.

Fixpoint merge_resources (o : Outside) (c : Caller) (rs acc : list ExposeResource) (added : Z) :
    result (list ExposeResource * Z) response :=
  match rs with
  | [] => Ok (acc, added)
  | r :: rs' =>
      match find (fun x => str_eqb (er_id x) (er_id r)) acc with
      | Some existing =>
          if negb (permits c (es_org_id (er_spec existing)) Read) then Err (Failure 409 (bs "id_conflict"))
          else if negb (bool_decide (er_spec existing = er_spec r)) then Err (Failure 409 (bs "id_conflict"))
          else merge_resources o c rs' acc added
      | None =>
          if negb (o_uuid_ok o (er_id r)) then Err (Failure 400 (bs "invalid_id"))
          else merge_resources o c rs'
                 (acc ++ [{| er_id := er_id r; er_revision := 1; er_source := er_source r; er_spec := er_spec r |}]) (added + 1)
      end
  end.

Fixpoint merge_policies (ps acc : list ExposePolicy) : result (list ExposePolicy) response :=
  match ps with
  | [] => Ok acc
  | p :: ps' =>
      match find (fun q => str_eqb (ep_org_id q) (ep_org_id p)) acc with
      | Some existing =>
          if negb (bool_decide (existing = bumped p (ep_revision existing))) then Err (Failure 409 (bs "policy_conflict"))
          else merge_policies ps' acc
      | None => merge_policies ps' (acc ++ [bumped p 1])
      end
  end.

Record Restore : Type := {
  rs_backup : ExposeBackup;
  rs_org_map : list (str * str);
  rs_preview : bool;
  rs_revision : option Z;
}.

Definition import (o : Outside) (m : Manager) (c : option Caller) (q : Restore) : answer :=
  match c with
  | None => (m, unauthenticated, [])
  | Some c =>
      let b := rs_backup q in
      if negb (bk_version b =? 1) then (m, Failure 400 (bs "backup_version"), [])
      else if (10000 <? Z.of_nat (length (bk_resources b))) || (10000 <? Z.of_nat (length (bk_policies b)))
      then (m, Failure 400 (bs "backup_size"), [])
      else
        let resources := remap (rs_org_map q) <$> bk_resources b in
        let incoming := remap_policy (rs_org_map q) <$> bk_policies b in
        match result_bind (each (import_resource_ok (o_fleet o) c) resources)
                (fun _ => each (import_policy_ok (o_fleet o) c) incoming) with
        | Err e => (m, e, [])
        | Ok _ =>
            if negb (rs_preview q) && negb (bool_decide (rs_revision q = Some (ed_revision (document m))))
            then (m, Failure 409 (bs "revision_conflict"), [])
            else match merge_resources o c resources (ed_resources (document m)) 0 with
            | Err e => (m, e, [])
            | Ok (rs, added) =>
                match merge_policies incoming (ed_policies (document m)) with
                | Err e => (m, e, [])
                | Ok ps =>
                    let d := {| ed_version := ed_version (document m); ed_revision := ed_revision (document m);
                                ed_resources := rs; ed_policies := ps |} in
                    match each (fun s => bounded_change c s d m) (er_spec <$> resources) with
                    | Err e => (m, e, [])
                    | Ok _ =>
                        match preview m (o_bind o) d with
                        | Err e => (m, runtime_error e, [])
                        | Ok _ =>
                            if rs_preview q then (m, Imported true (ed_revision (document m)) added, [])
                            else
                              let '(m, res) := put o m d false in
                              match res with
                              | Err e => (m, e, [])
                              | Ok _ => (m, Imported false (ed_revision (document m)) added,
                                         [{| ae_event := bs "expose_changed"; ae_action := bs "import"; ae_org := None; ae_id := [] |}])
                              end
                        end
                    end
                end
            end
        end
  end.

(** ** Every request *)

Inductive request : Type :=
| RCreate (id : option str) (s : ExposeSpec)
| RUpdate (id : str) (revision : Z) (s : ExposeSpec)
| RDelete (id : str) (revision : Z)
| ROperate (id : str) (revision : Z) (action : str) (session_id : option str) (drain_seconds : option Z)
| RSetPolicy (org : str) (p : ExposePolicy)
| RImport (q : Restore).

Definition serve (o : Outside) (m : Manager) (c : option Caller) (q : request) : answer :=
  match q with
  | RCreate id s => create o m c id s
  | RUpdate id rev s => update o m c id rev s
  | RDelete id rev => delete_rule o m c id rev
  | ROperate id rev action sid secs => operate o m c id rev action sid secs
  | RSetPolicy org p => set_policy o m c org p
  | RImport q => import o m c q
  end.

(** How a request leaves the document: as it was, or replaced by [d]. *)
Definition becomes (m m' : Manager) (d : ExposeDocument) : Prop :=
  document m' = document m ∨ document m' = with_revision d (ed_revision (document m) + 1).

Lemma put_becomes o m d allow m' res : put o m d allow = (m', res) → becomes m m' d.
Proof.
  unfold put. destruct (replace _ _ _ _ _ _) as [m1 [[]|e]] eqn:E; intros Hp; apply pair_eq in Hp as [<- _].
  - right. by apply replace_synced in E as [? _].
  - left. apply replace_refused in E as [Hs _]. unfold document. by rewrite Hs.
Qed.

Lemma drain_becomes now saved m id n m' res :
  drain now saved m id n = (m', res) →
  becomes m m' (with_resources (document m) (update_first id bump_disabled (ed_resources (document m)))).
Proof.
  unfold drain. destruct (aget id _); [|intros [= <- _]; by left]. destruct (find _ _); [|intros [= <- _]; by left].
  destruct (commit _ _ _) eqn:Ec; intros E; apply pair_eq in E as [<- _]; [|by left].
  right. by apply commit_document in Ec as [? _].
Qed.

Lemma disconnect_document m id sid : document (disconnect m id sid).1 = document m.
Proof. unfold disconnect. by destruct (stop_first _ _ _). Qed.

(** The document a request asks for. *)
Inductive asked (c : Caller) (m : Manager) : request → ExposeDocument → Prop :=
| AskedCreate id s r :
    permits c (es_org_id s) Create = true → er_spec r = s → er_source r = Api →
    bounded_change c s (with_resources (document m) (ed_resources (document m) ++ [r])) m = Ok tt →
    asked c m (RCreate id s) (with_resources (document m) (ed_resources (document m) ++ [r]))
| AskedUpdate id rev s old :
    manager_resource m id = Some old → permits c (es_org_id (er_spec old)) Update = true → rev = er_revision old →
    es_org_id s = es_org_id (er_spec old) →
    bounded_change c s (with_resources (document m) (update_first id (λ _, with_spec old s) (ed_resources (document m)))) m = Ok tt →
    asked c m (RUpdate id rev s)
      (with_resources (document m) (update_first id (λ _, with_spec old s) (ed_resources (document m))))
| AskedDelete id rev old :
    manager_resource m id = Some old → permits c (es_org_id (er_spec old)) Delete = true → rev = er_revision old →
    asked c m (RDelete id rev) (with_resources (document m) (filter (λ r, er_id r ≠ id) (ed_resources (document m))))
| AskedToggle id rev action sid secs old on :
    manager_resource m id = Some old →
    permits c (es_org_id (er_spec old)) (if on : bool then Enable else Disable) = true → rev = er_revision old →
    (on = true → bounded_change c (with_enabled (er_spec old) true)
       (with_resources (document m) (update_first id (λ _, with_spec old (with_enabled (er_spec old) on)) (ed_resources (document m)))) m = Ok tt) →
    asked c m (ROperate id rev action sid secs)
      (with_resources (document m)
         (update_first id (λ _, with_spec old (with_enabled (er_spec old) on)) (ed_resources (document m))))
| AskedDrain id rev action sid secs old :
    manager_resource m id = Some old → permits c (es_org_id (er_spec old)) Disable = true →
    asked c m (ROperate id rev action sid secs)
      (with_resources (document m) (update_first id bump_disabled (ed_resources (document m))))
| AskedPolicy org p ps :
    caller_is_server_admin c = true → asked c m (RSetPolicy org p) (with_policies (document m) ps)
| AskedImport q o rs added ps :
    each (import_resource_ok (o_fleet o) c) (remap (rs_org_map q) <$> bk_resources (rs_backup q)) = Ok tt →
    each (import_policy_ok (o_fleet o) c) (remap_policy (rs_org_map q) <$> bk_policies (rs_backup q)) = Ok tt →
    merge_resources o c (remap (rs_org_map q) <$> bk_resources (rs_backup q)) (ed_resources (document m)) 0 = Ok (rs, added) →
    merge_policies (remap_policy (rs_org_map q) <$> bk_policies (rs_backup q)) (ed_policies (document m)) = Ok ps →
    each (λ s, bounded_change c s {| ed_version := ed_version (document m); ed_revision := ed_revision (document m);
                                     ed_resources := rs; ed_policies := ps |} m)
      (er_spec <$> (remap (rs_org_map q) <$> bk_resources (rs_backup q))) = Ok tt →
    rs_preview q = false →
    asked c m (RImport q) {| ed_version := ed_version (document m); ed_revision := ed_revision (document m);
                             ed_resources := rs; ed_policies := ps |}.

Lemma authorized_Ok c r a : authorized c r a = Ok tt → permits c (es_org_id (er_spec r)) a = true.
Proof. unfold authorized. destruct (permits _ _ Read); [|done]. simpl. by destruct (permits _ _ a). Qed.

Lemma revision_Ok r n : revision_matches r n = Ok tt → n = er_revision r.
Proof. unfold revision_matches. destruct (_ =? _) eqn:E; [|done]. by to_prop. Qed.

Lemma guard_Ok c r a n :
  result_bind (authorized c r a) (λ _, revision_matches r n) = Ok tt →
  permits c (es_org_id (er_spec r)) a = true ∧ n = er_revision r.
Proof.
  destruct (authorized c r a) as [[]|] eqn:E; [|done]. simpl. intros H. auto using authorized_Ok, revision_Ok.
Qed.

Lemma each_Ok {A} (f : A → result unit response) l : each f l = Ok tt ↔ ∀ x, x ∈ l → f x = Ok tt.
Proof.
  induction l as [|x l IH]; simpl; [split; [set_solver|done]|]. destruct (f x) as [[]|] eqn:E.
  - rewrite IH. set_solver.
  - split; [done|]. intros H. rewrite (H x (list_elem_of_here _ _)) in E. done.
Qed.

Lemma create_asked o m c id s m' r au :
  create o m (Some c) id s = (m', r, au) →
  document m' = document m ∨ ∃ d, becomes m m' d ∧ asked c m (RCreate id s) d.
Proof.
  unfold create. destruct (permits c _ Create) eqn:Ep; simpl; [|intros [= <- _ _]; by left].
  destruct (validate _ s); [|intros [= <- _ _]; by left]. destruct (o_uuid_ok o _); simpl; [|intros [= <- _ _]; by left].
  destruct (manager_resource m _) as [ex|].
  { destruct (authorized c ex Read); [case_bool_decide|]; intros [= <- _ _]; by left. }
  destruct (bounded_change _ _ _ _) as [[]|] eqn:Eb; [|intros [= <- _ _]; by left].
  destruct (put _ _ _ _) as [m1 [[]|]] eqn:Eput; intros E; injection E as <- _ _; apply put_becomes in Eput; right;
    (eexists; split; [exact Eput|]); by econstructor.
Qed.

Lemma update_asked o m c id rev s m' r au :
  update o m (Some c) id rev s = (m', r, au) →
  document m' = document m ∨ ∃ d, becomes m m' d ∧ asked c m (RUpdate id rev s) d.
Proof.
  unfold update. destruct (manager_resource m id) as [old|] eqn:Er; [|intros [= <- _ _]; by left].
  destruct (result_bind _ _) as [[]|] eqn:Eg; [|intros [= <- _ _]; by left]. apply guard_Ok in Eg as [Hp Hr].
  destruct (str_eqb _ _) eqn:Eo; simpl; [|intros [= <- _ _]; by left]. apply str_eqb_eq in Eo.
  destruct (result_bind _ _) as [[]|]; [|intros [= <- _ _]; by left].
  destruct (bounded_change _ _ _ _) as [[]|] eqn:Eb; [|intros [= <- _ _]; by left].
  destruct (put _ _ _ _) as [m1 [[]|]] eqn:Eput; intros E; injection E as <- _ _; apply put_becomes in Eput; right;
    (eexists; split; [exact Eput|]); by econstructor.
Qed.

Lemma delete_asked o m c id rev m' r au :
  delete_rule o m (Some c) id rev = (m', r, au) →
  document m' = document m ∨ ∃ d, becomes m m' d ∧ asked c m (RDelete id rev) d.
Proof.
  unfold delete_rule. destruct (manager_resource m id) as [old|] eqn:Er; [|intros [= <- _ _]; by left].
  destruct (result_bind _ _) as [[]|] eqn:Eg; [|intros [= <- _ _]; by left]. apply guard_Ok in Eg as [Hp Hr].
  destruct (put _ _ _ _) as [m1 [[]|]] eqn:Eput; intros E; injection E as <- _ _; apply put_becomes in Eput; right;
    (eexists; split; [exact Eput|]); by econstructor.
Qed.

Lemma toggle_asked o m c id rev action sid secs old on m' r au :
  manager_resource m id = Some old → permits c (es_org_id (er_spec old)) (if on : bool then Enable else Disable) = true →
  rev = er_revision old →
  (let r' := with_spec old (with_enabled (er_spec old) on) in
   let d := with_resources (document m) (update_first id (fun _ => r') (ed_resources (document m))) in
   match (if on then bounded_change c (er_spec r') d m else Ok tt) with
   | Err e => (m, e, [])
   | Ok _ =>
       let '(m, res) := put o m d (negb on) in
       match res with
       | Err e => (m, e, [])
       | Ok _ => (m, Stored 200 r', [changed action r'])
       end
   end) = (m', r, au) →
  document m' = document m ∨ ∃ d, becomes m m' d ∧ asked c m (ROperate id rev action sid secs) d.
Proof.
  intros Er Hp Hrev. simpl.
  destruct (if on return result unit response then _ else _) as [[]|] eqn:Eb; [|intros [= <- _ _]; by left].
  destruct (put _ _ _ _) as [m1 [[]|]] eqn:Eput; intros E; injection E as <- _ _; apply put_becomes in Eput; right;
    (eexists; split; [exact Eput|]); (econstructor; [done..|]); by intros ->.
Qed.

Lemma operate_asked o m c id rev action sid secs m' r au :
  operate o m (Some c) id rev action sid secs = (m', r, au) →
  document m' = document m ∨ ∃ d, becomes m m' d ∧ asked c m (ROperate id rev action sid secs) d.
Proof.
  unfold operate. destruct (parse_operation action) as [op|]; [|intros [= <- _ _]; by left].
  destruct (manager_resource m id) as [old|] eqn:Er; [|intros [= <- _ _]; by left].
  destruct (result_bind _ _) as [[]|] eqn:Eg; [|intros [= <- _ _]; by left]. apply guard_Ok in Eg as [Hp Hr].
  destruct op; simpl in Hp.
  - by apply (toggle_asked o m c id rev action sid secs old true).
  - by apply (toggle_asked o m c id rev action sid secs old true).
  - by apply (toggle_asked o m c id rev action sid secs old false).
  - destruct (authorized c old Disconnect); [|intros [= <- _ _]; by left].
    destruct (_ || _); [intros [= <- _ _]; by left|].
    destruct (drain _ _ _ _ _) as [m1 res] eqn:Ed. apply drain_becomes in Ed. intros E. right. eexists. split.
    + destruct res; [destruct (manager_resource m1 id)|]; injection E as <- _ _; exact Ed.
    + by econstructor.
  - destruct sid as [sid|]; [|intros [= <- _ _]; by left]. destruct (disconnect m id sid) as [m1 found] eqn:Ed.
    pose proof (disconnect_document m id sid) as Hd. rewrite Ed in Hd. simpl in Hd.
    destruct found; intros [= <- _ _]; by left.
Qed.

Lemma import_asked o m c q m' r au :
  import o m (Some c) q = (m', r, au) →
  document m' = document m ∨ ∃ d, becomes m m' d ∧ asked c m (RImport q) d.
Proof.
  unfold import. destruct (_ =? _); simpl; [|intros [= <- _ _]; by left]. destruct (_ || _); [intros [= <- _ _]; by left|].
  destruct (each (import_resource_ok _ _) _) as [[]|] eqn:E1; [|intros [= <- _ _]; by left]. simpl.
  destruct (each (import_policy_ok _ _) _) as [[]|] eqn:E2; [|intros [= <- _ _]; by left].
  destruct (negb _ && _); [intros [= <- _ _]; by left|].
  destruct (merge_resources _ _ _ _ _) as [[rs added]|] eqn:E3; [|intros [= <- _ _]; by left].
  destruct (merge_policies _ _) as [ps|] eqn:E4; [|intros [= <- _ _]; by left].
  destruct (each (λ s, bounded_change _ _ _ _) _) as [[]|] eqn:E5; [|intros [= <- _ _]; by left].
  destruct (preview _ _ _); [|intros [= <- _ _]; by left].
  destruct (rs_preview q) eqn:E6; [intros [= <- _ _]; by left|].
  destruct (put _ _ _ _) as [m1 [[]|]] eqn:Eput; intros E; injection E as <- _ _; apply put_becomes in Eput; right;
    (eexists; split; [exact Eput|]); by econstructor.
Qed.

Lemma serve_asked o m c q m' r au :
  serve o m (Some c) q = (m', r, au) → document m' = document m ∨ ∃ d, becomes m m' d ∧ asked c m q d.
Proof.
  destruct q; [apply create_asked|apply update_asked|apply delete_asked|apply operate_asked| |apply import_asked].
  simpl. unfold set_policy. destruct (caller_is_server_admin c) eqn:Ea; simpl; [|intros [= <- _ _]; by left].
  destruct (_ || _); [intros [= <- _ _]; by left|]. destruct (_ && _); [intros [= <- _ _]; by left|].
  destruct (_ =? _); simpl; [|intros [= <- _ _]; by left].
  destruct (put _ _ _ _) as [m1 [[]|]] eqn:Eput; intros E; injection E as <- _ _; apply put_becomes in Eput; right;
    (eexists; split; [exact Eput|]); by econstructor.
Qed.

(** ** Who may change what *)

Definition in_org (org : str) (r : ExposeResource) : Prop := es_org_id (er_spec r) = org.
#[export] Instance in_org_dec org r : Decision (in_org org r) := decide (es_org_id (er_spec r) = org).

(** The rules of one organization. *)
Definition rules_of (d : ExposeDocument) (org : str) : list ExposeResource := filter (in_org org) (ed_resources d).

(** A rule but for whether it is on, and its revision. *)
Definition settings (r : ExposeResource) : str * ExposeSpec := (er_id r, with_enabled (er_spec r) true).

Lemma filter_update_other org id f rs old :
  find (fun r => str_eqb (er_id r) id) rs = Some old → es_org_id (er_spec (f old)) = es_org_id (er_spec old) →
  es_org_id (er_spec old) ≠ org → filter (in_org org) (update_first id f rs) = filter (in_org org) rs.
Proof.
  intros Hf Ho Hne. induction rs as [|r rs IH]; [done|]. simpl in *. destruct (str_eqb (er_id r) id) eqn:E.
  - injection Hf as ->. rewrite !filter_cons_False by (unfold in_org; congruence). done.
  - rewrite !filter_cons. by rewrite IH.
Qed.

Lemma settings_update org id f rs old :
  find (fun r => str_eqb (er_id r) id) rs = Some old → settings (f old) = settings old →
  settings <$> filter (in_org org) (update_first id f rs) = settings <$> filter (in_org org) rs.
Proof.
  intros Hf Ho. induction rs as [|r rs IH]; [done|]. simpl in *. destruct (str_eqb (er_id r) id) eqn:E.
  - injection Hf as ->. assert (es_org_id (er_spec (f old)) = es_org_id (er_spec old)) as Horg.
    { unfold settings in Ho. apply pair_eq in Ho as [_ Hs]. by apply (f_equal es_org_id) in Hs. }
    rewrite !filter_cons. destruct (decide (in_org org (f old))), (decide (in_org org old)); unfold in_org in *; try congruence.
    rewrite !fmap_cons. by rewrite Ho.
  - rewrite !filter_cons. destruct (decide _); rewrite ?fmap_cons, IH; done.
Qed.

Lemma synced_find m id old :
  synced m → manager_resource m id = Some old →
  find (fun r => str_eqb (er_id r) id) (ed_resources (document m)) = Some old ∧ er_id old = id.
Proof.
  intros [_ Hs] Hr. rewrite Hs in Hr. split; [done|]. apply find_some in Hr as [_ Hr]. by apply str_eqb_eq in Hr.
Qed.

Lemma filter_delete_other org id rs old :
  NoDup (er_id <$> rs) → find (fun r => str_eqb (er_id r) id) rs = Some old → es_org_id (er_spec old) ≠ org →
  filter (in_org org) (filter (λ r, er_id r ≠ id) rs) = filter (in_org org) rs.
Proof.
  intros Hnd Hf Hne. induction rs as [|r rs IH]; [done|]. rewrite fmap_cons in Hnd. apply NoDup_cons in Hnd as [Hr Hnd].
  simpl in Hf. destruct (str_eqb (er_id r) id) eqn:E.
  - apply str_eqb_eq in E. injection Hf as ->. rewrite (filter_cons_False _ old) by (unfold not; auto).
    rewrite (filter_cons_False (in_org org) old) by done. f_equal. apply filter_all. apply Forall_forall.
    intros r' Hr' E'. apply Hr. rewrite E, <- E'. by apply list_elem_of_fmap_2.
  - rewrite (filter_cons_True (λ r, er_id r ≠ id)) by (intros E'; rewrite E', str_eqb_refl in E; done).
    rewrite !(filter_cons (in_org org)). by rewrite IH.
Qed.

Lemma merge_resources_spec o c rs acc n rs' n' :
  merge_resources o c rs acc n = Ok (rs', n') →
  ∃ new, rs' = acc ++ new ∧ ∀ r, r ∈ new → ∃ r0, r0 ∈ rs ∧ er_spec r = er_spec r0.
Proof.
  revert acc n. induction rs as [|r rs IH]; intros acc n; simpl.
  { intros [= <- <-]. exists []. split; [by rewrite app_nil_r|set_solver]. }
  destruct (find _ acc) as [ex|].
  - destruct (permits _ _ _); [|done]. simpl. case_bool_decide; [|done]. simpl. intros Hrest. apply IH in Hrest as (new & -> & Hn).
    exists new. split; [done|]. intros x Hx. destruct (Hn x Hx) as (r0 & ? & ?). exists r0. set_solver.
  - destruct (o_uuid_ok o _); [|done]. simpl. intros H. apply IH in H as (new & -> & Hn).
    eexists (_ :: new). rewrite <- app_assoc. split; [done|]. intros x Hx. apply elem_of_cons in Hx as [->|Hx].
    + exists r. split; [by left|done].
    + destruct (Hn x Hx) as (r0 & ? & ?). exists r0. set_solver.
Qed.

Lemma import_org_ok f c rs : each (import_resource_ok f c) rs = Ok tt → ∀ r, r ∈ rs → permits c (es_org_id (er_spec r)) Create = true.
Proof.
  rewrite each_Ok. intros H r Hr. specialize (H r Hr). unfold import_resource_ok in H. destruct (negb (bool_decide _)); [done|].
  by destruct (permits _ _ Create).
Qed.

Lemma asked_isolation c m q d org :
  synced m → NoDup (er_id <$> ed_resources (document m)) → asked c m q d →
  ((∀ a, a ≠ Read → permits c org a = false) → rules_of d org = rules_of (document m) org)
  ∧ (permits c org Create = false → permits c org Update = false → permits c org Delete = false →
     settings <$> rules_of d org = settings <$> rules_of (document m) org)
  ∧ (caller_is_server_admin c = false → ed_policies d = ed_policies (document m)).
Proof.
  intros Hs Hv Ha. unfold rules_of.
  destruct Ha as [id s r0 Hp Hr0 _ _|id rev s old Hr Hp _ Ho _|id rev old Hr Hp _|id rev action sid secs old on Hr Hp _ _
                  |id rev action sid secs old Hr Hp|org' p ps Hp|q o' rs added ps H1 H2 H3 H4 _ _]; simpl.
  - assert (Hno : permits c org Create = false → filter (in_org org) (ed_resources (document m) ++ [r0]) = filter (in_org org) (ed_resources (document m))).
    { intros Hc. rewrite filter_app, filter_cons_False, filter_nil, app_nil_r; [done|]. unfold in_org. rewrite Hr0. congruence. }
    split_and!; [|intros Hc _ _; by rewrite Hno|done]. intros Hc. apply Hno. by apply Hc.
  - apply synced_find in Hr as [Hf _]; [|done].
    assert (Hno : permits c org Update = false → filter (in_org org) (update_first id (λ _, with_spec old s) (ed_resources (document m))) = filter (in_org org) (ed_resources (document m))).
    { intros Hc. eapply filter_update_other; [exact Hf|done|congruence]. }
    split_and!; [|intros _ Hc _; by rewrite Hno|done]. intros Hc. apply Hno. by apply Hc.
  - apply synced_find in Hr as [Hf _]; [|done].
    assert (Hno : permits c org Delete = false → filter (in_org org) (filter (λ r, er_id r ≠ id) (ed_resources (document m))) = filter (in_org org) (ed_resources (document m))).
    { intros Hc. eapply filter_delete_other; [done|exact Hf|congruence]. }
    split_and!; [|intros _ _ Hc; by rewrite Hno|done]. intros Hc. apply Hno. by apply Hc.
  - apply synced_find in Hr as [Hf Hid]; [|done]. split_and!; [| |done].
    + intros Hc. eapply filter_update_other; [exact Hf|done|]. intros Heq. rewrite Heq, Hc in Hp; by destruct on.
    + intros _ _ _. by eapply settings_update; [exact Hf|].
  - apply synced_find in Hr as [Hf Hid]; [|done]. split_and!; [| |done].
    + intros Hc. eapply filter_update_other; [exact Hf|done|]. intros Heq. by rewrite Heq, Hc in Hp.
    + intros _ _ _. by eapply settings_update; [exact Hf|].
  - split_and!; [done..|]. congruence.
  - apply merge_resources_spec in H3 as (new & -> & Hn). pose proof (import_org_ok _ _ _ H1) as Hcr.
    assert (Hno : permits c org Create = false → filter (in_org org) (ed_resources (document m) ++ new) = filter (in_org org) (ed_resources (document m))).
    { intros Hc. rewrite filter_app, (filter_nothing _ new), app_nil_r; [done|]. apply Forall_forall. intros r0 Hr0 Hin.
      destruct (Hn r0 Hr0) as (r1 & Hr1 & Hspec). unfold in_org in Hin. rewrite Hspec in Hin. apply Hcr in Hr1. congruence. }
    split_and!; [|intros Hc _ _; by rewrite Hno|].
    + intros Hc. apply Hno. by apply Hc.
    + intros Hna. destruct (remap_policy _ <$> _) as [|p l]; simpl in *; [by injection H4 as <-|].
      unfold import_policy_ok in H2. by rewrite Hna in H2.
Qed.

(** C8: A caller changes what its role in the organization lets it and nothing
    else. Without a role that does more than read there, no request of its own
    touches a rule of the organization; without one that may create, change and
    delete, a request can at most turn its rules on and off; and only the
    server's administrator changes what an organization is allowed to open. *)
Theorem tenant_isolation o m c q org :
  manager_reachable m →
  let d := document m in
  let d' := document (serve o m (Some c) q).1.1 in
  ((∀ a, a ≠ Read → permits c org a = false) → rules_of d' org = rules_of d org)
  ∧ (permits c org Create = false → permits c org Update = false → permits c org Delete = false →
     settings <$> rules_of d' org = settings <$> rules_of d org)
  ∧ (caller_is_server_admin c = false → ed_policies d' = ed_policies d).
Proof.
  intros Hm d d'. subst d d'. destruct (serve o m (Some c) q) as [[m' r] au] eqn:E. simpl.
  apply serve_asked in E as [->|(d & [->|Hd] & Ha)]; [done..|].
  eapply (asked_isolation _ _ _ _ org) in Ha; [by rewrite Hd|by apply reachable_synced|].
  by apply doc_validate_ids, reachable_valid.
Qed.

Lemma bounded_Ok c s d m :
  caller_is_server_admin c = false → bounded_change c s d m = Ok tt →
  ∃ p, policy_of d (es_org_id s) = Some p ∧ allows p s = true.
Proof.
  intros Ha. unfold bounded_change. rewrite Ha. destruct (policy_of d (es_org_id s)) as [p|]; [|done].
  destruct (allows p s) eqn:E; [|done]. eauto.
Qed.

Lemma elem_of_update_first id f rs r : r ∈ update_first id f rs → r ∈ rs ∨ ∃ old, old ∈ rs ∧ r = f old.
Proof.
  induction rs as [|x rs IH]; simpl; [auto|]. destruct (str_eqb (er_id x) id); intros Hr; apply elem_of_cons in Hr as [->|Hr].
  - right. exists x. split; [by left|done].
  - left. by right.
  - left. by left.
  - destruct (IH Hr) as [?|(old & ? & ?)]; [left; by right|right]. exists old. split; [by right|done].
Qed.

(** What anyone but the server's administrator opens is within what the
    organization was allocated, the master organization included: a rule that a
    request leaves enabled and that was not there before is allowed by the
    organization's policy in the document it is committed with, and an
    organization without a policy gets none. *)
Theorem non_admin_within_allocation o m c q r :
  caller_is_server_admin c = false →
  let d' := document (serve o m (Some c) q).1.1 in
  r ∈ ed_resources d' → r ∉ ed_resources (document m) → es_enabled (er_spec r) = true →
  ∃ p, policy_of d' (es_org_id (er_spec r)) = Some p ∧ allows p (er_spec r) = true.
Proof.
  intros Hna d' Hin Hnew Hen. subst d'. destruct (serve o m (Some c) q) as [[m' resp] au] eqn:E. simpl in *.
  apply serve_asked in E as [E|(d & [E|Hd] & Ha)]; [by rewrite E in Hin..|]. rewrite Hd in Hin. rewrite Hd.
  change (policy_of (with_revision d _)) with (policy_of d). simpl in Hin.
  destruct Ha as [id s r0 Hp Hr0 _ Hb|id rev s old Hr Hp _ Ho Hb|id rev old Hr Hp _|id rev action sid secs old on Hr Hp _ Hb
                  |id rev action sid secs old Hr Hp|org' p ps Hp|q o' rs added ps H1 H2 H3 H4 Hb _]; simpl in Hin.
  - apply elem_of_app in Hin as [?|Hin]; [done|]. apply list_elem_of_singleton in Hin as ->. rewrite Hr0. by apply bounded_Ok in Hb.
  - apply elem_of_update_first in Hin as [?|(? & _ & ->)]; [done|]. by apply bounded_Ok in Hb.
  - by apply list_elem_of_filter in Hin as [_ ?].
  - apply elem_of_update_first in Hin as [?|(? & _ & ->)]; [done|]. destruct on; [|done]. simpl in *.
    specialize (Hb eq_refl). by apply bounded_Ok in Hb.
  - by apply elem_of_update_first in Hin as [?|(? & _ & ->)].
  - done.
  - apply merge_resources_spec in H3 as (new & -> & Hn). apply elem_of_app in Hin as [?|Hin]; [done|].
    destruct (Hn r Hin) as (r1 & Hr1 & ->). rewrite each_Ok in Hb. eapply bounded_Ok; [done|]. apply Hb. by apply list_elem_of_fmap_2.
Qed.

(** A rule the caller may not read is answered for as if it did not exist, by
    every handler that names one. *)
Theorem unreadable_looks_unknown o m c id r rev s action sid secs :
  manager_resource m id = Some r → permits c (es_org_id (er_spec r)) Read = false →
  detail m (Some c) id = Err not_found
  ∧ update o m (Some c) id rev s = (m, not_found, [])
  ∧ delete_rule o m (Some c) id rev = (m, not_found, [])
  ∧ (parse_operation action ≠ None → operate o m (Some c) id rev action sid secs = (m, not_found, [])).
Proof.
  intros Hr Hp. assert (Ha : ∀ a, authorized c r a = Err not_found) by (intros a; unfold authorized; by rewrite Hp).
  unfold detail, update, delete_rule, operate. rewrite Hr. rewrite !Ha. split_and!; try done.
  destruct (parse_operation action) as [op|]; [|done]. intros _. by rewrite Ha.
Qed.

Lemma put_Ok_resource o m d allow m' r :
  put o m d allow = (m', Ok tt) → NoDup (er_id <$> ed_resources d) → r ∈ ed_resources d → manager_resource m' (er_id r) = Some r.
Proof.
  unfold put. destruct (replace _ _ _ _ _ _) as [m1 [[]|e]] eqn:E; [|done]. intros Hp Hnd Hr. apply pair_eq in Hp as [<- _].
  apply replace_synced in E as [Hd [_ Hs]]. rewrite Hs, Hd. simpl. by apply find_id_elem.
Qed.

(** A refusal is never an answer with a rule. *)
Definition refusal (r : response) : Prop := match r with Failure _ _ | Invalid _ => True | _ => False end.

Lemma runtime_error_refusal e : refusal (runtime_error e).
Proof. unfold runtime_error. repeat case_goal; done. Qed.

Lemma authorized_refusal c r a e : authorized c r a = Err e → refusal e.
Proof. unfold authorized. repeat case_goal; by intros [= <-]. Qed.

Lemma bounded_refusal c s d m e : bounded_change c s d m = Err e → refusal e.
Proof. unfold bounded_change. case_goal; [done|]. destruct (if policy_of _ _ is Some _ then _ else _); by intros [= <-]. Qed.

Lemma validate_refusal f s e : validate f s = Err e → refusal e.
Proof.
  unfold validate. destruct (spec_validate s); [|by intros [= <-]].
  destruct (_ && _); [by intros [= <-]|]. destruct (target f s) as [|[]]; by intros [= <-].
Qed.

Lemma put_refusal o m d allow m' e : put o m d allow = (m', Err e) → refusal e.
Proof.
  unfold put. destruct (replace _ _ _ _ _ _) as [m1 [[]|w]]; intros H; apply pair_eq in H as [_ H]; [done|].
  injection H as <-. apply runtime_error_refusal.
Qed.

(** Creating is idempotent: asked again with the id it was given, a create
    that went through answers with the rule it stored and changes nothing. *)
Theorem create_replay o m c id s m' r au :
  create o m (Some c) (Some id) s = (m', Stored 201 r, au) →
  permits c (es_org_id s) Read = true →
  create o m' (Some c) (Some id) s = (m', Stored 200 r, []).
Proof.
  unfold create. destruct (permits c _ Create); simpl; [|done].
  destruct (validate _ s) as [[]|e] eqn:Ev; [|apply validate_refusal in Ev; intros [= _ -> _]; done].
  destruct (o_uuid_ok o id); simpl; [|done]. destruct (manager_resource m id) as [ex|].
  { destruct (authorized c ex Read) eqn:Ea; [case_bool_decide; done|]. apply authorized_refusal in Ea. intros [= _ -> _]. done. }
  destruct (bounded_change _ _ _ _) as [[]|e] eqn:Eb; [|apply bounded_refusal in Eb; intros [= _ -> _]; done].
  destruct (put _ _ _ _) as [m1 [[]|e]] eqn:Eput; [|apply put_refusal in Eput; intros [= _ -> _]; done].
  intros E Hread. injection E as -> <- _.
  assert (Hnd : NoDup (er_id <$> ed_resources (with_resources (document m) (ed_resources (document m) ++
     [{| er_id := id; er_revision := 1; er_source := Api; er_spec := s |}])))).
  { unfold put in Eput. destruct (replace _ _ _ _ _ _) as [m1 [[]|e]] eqn:E; [|done].
    by apply replace_ok in E as (_ & _ & _ & _ & _ & _ & _ & ?). }
  pose proof (put_Ok_resource _ _ _ _ _ {| er_id := id; er_revision := 1; er_source := Api; er_spec := s |} Eput Hnd) as Hr.
  simpl in Hr. rewrite Hr by set_solver. unfold authorized. simpl. rewrite Hread. simpl. by rewrite bool_decide_eq_true_2.
Qed.

(** An import never overwrites: every rule of the destination is still there
    as it was, and a preview changes nothing at all. *)
Theorem import_never_overwrites o m c q r :
  r ∈ ed_resources (document m) →
  r ∈ ed_resources (document (import o m c q).1.1) ∧ (rs_preview q = true → (import o m c q).1.1 = m).
Proof.
  intros Hr. destruct c as [c|]; [|done]. split.
  - destruct (import o m (Some c) q) as [[m' resp] au] eqn:E. simpl.
    apply import_asked in E as [->|(d & [->|Hd] & Ha)]; [done..|]. rewrite Hd. simpl. inversion Ha; subst.
    match goal with Hmr : merge_resources _ _ _ _ _ = Ok _ |- _ => apply merge_resources_spec in Hmr as (new & -> & _) end.
    simpl. set_solver.
  - intros Hp. unfold import. rewrite Hp. simpl. repeat case_goal; done.
Qed.

(** ** Samples *)

Module ExposesApiSamples.

Import ExposeSamples ManagerSamples RegistrySamples.

Definition caller (g : list Grant) : Caller := {| c_identity := Named (bs "ann") g; c_selected := None |}.
Definition admin : Caller := caller [new_grant (Child (bs "acme")) Admin].
Definition operator : Caller := caller [new_grant (Child (bs "acme")) Operator].
Definition stranger : Caller := caller [new_grant (Child (bs "other")) Admin].
Definition root : Caller := caller all_admin.

Definition world : Outside :=
  {| o_now := 7; o_bind := free; o_saved := Ok tt; o_uuid_ok := λ _, true; o_new_uuid := bs "u";
     o_fleet := {| f_orgs := [(bs "acme", bs "acme"); (bs "other", bs "other")]; f_clients := []; f_now := 7; f_down_threshold := 30 |} |}.

Definition added : request := RCreate (Some (bs "c")) (spec 5434 Tcp false).

Lemma tenant_isolation_witness :
  rules_of (document (serve world m0 (Some stranger) (RDelete (bs "a") 1)).1.1) (bs "acme") = rules_of two (bs "acme")
  ∧ settings <$> rules_of (document (serve world m0 (Some operator) (ROperate (bs "a") 1 (bs "disable") None None)).1.1) (bs "acme")
    = settings <$> rules_of two (bs "acme")
  ∧ (serve world m0 (Some operator) (ROperate (bs "a") 1 (bs "disable") None None)).1.2 = Stored 200 (res (bs "a") 2 5432 false).
Proof.
  assert (Hm : manager_reachable m0) by apply Booted.
  split; [|split; [|vm_compute; reflexivity]].
  - apply (tenant_isolation world m0 stranger (RDelete (bs "a") 1) (bs "acme") Hm).
    intros a Ha. destruct a; [congruence|vm_compute; reflexivity..].
  - apply (tenant_isolation world m0 operator (ROperate (bs "a") 1 (bs "disable") None None) (bs "acme") Hm);
      vm_compute; reflexivity.
Defined.

Lemma non_admin_within_allocation_witness :
  ∃ p, policy_of (document (serve world m0 (Some admin) (RUpdate (bs "a") 1 (spec 5499 Tcp true))).1.1) (bs "acme") = Some p
       ∧ allows p (spec 5499 Tcp true) = true
       ∧ (serve world m0 (Some admin) (RUpdate (bs "a") 1 (spec 7000 Tcp true))).1.2 = Failure 403 (bs "outside_allocation").
Proof.
  destruct (non_admin_within_allocation world m0 admin (RUpdate (bs "a") 1 (spec 5499 Tcp true)) (res (bs "a") 2 5499 true))
    as (p & Hp & Ha).
  - vm_compute. reflexivity.
  - vm_compute. left.
  - intros H. apply list_elem_of_In in H. vm_compute in H. destruct H as [H|[H|[]]]; discriminate H.
  - reflexivity.
  - exists p. split; [exact Hp|]. split; [exact Ha|vm_compute; reflexivity].
Defined.

Lemma unreadable_looks_unknown_witness :
  detail m0 (Some stranger) (bs "a") = Err not_found ∧ detail m0 (Some stranger) (bs "zz") = Err not_found
  ∧ detail m0 (Some operator) (bs "a") = Ok (res (bs "a") 1 5432 true).
Proof.
  split; [|split; vm_compute; reflexivity].
  apply (unreadable_looks_unknown world m0 stranger (bs "a") (res (bs "a") 1 5432 true) 1 (spec 5432 Tcp true) [] None None);
    vm_compute; reflexivity.
Defined.

Definition created : Manager := (serve world m0 (Some admin) added).1.1.

Lemma create_replay_witness :
  ∃ r, (serve world m0 (Some admin) added).1.2 = Stored 201 r ∧ serve world created (Some admin) added = (created, Stored 200 r, []).
Proof.
  eexists. split; [vm_compute; reflexivity|].
  refine (create_replay world m0 admin (bs "c") (spec 5434 Tcp false) created _ _ _ _); vm_compute; reflexivity.
Defined.

Definition backup (p : bool) : Restore :=
  {| rs_backup := {| bk_version := 1; bk_resources := [res (bs "a") 9 5432 true; res (bs "n") 9 5480 false]; bk_policies := [] |};
     rs_org_map := []; rs_preview := p; rs_revision := Some 3 |}.

Lemma import_never_overwrites_witness :
  res (bs "a") 1 5432 true ∈ ed_resources (document (import world m0 (Some admin) (backup false)).1.1)
  ∧ (import world m0 (Some admin) (backup false)).1.2 = Imported false 4 1.
Proof.
  split; [|vm_compute; reflexivity].
  apply (import_never_overwrites world m0 (Some admin) (backup false)). vm_compute. left.
Defined.

(** An import with an invalid policy is answered as a failure of the server. *)
Example bad_policy_is_a_500 :
  (import world (boot default_document) (Some root)
     {| rs_backup := {| bk_version := 1; bk_resources := []; bk_policies := [policy 0 6000 1 1] |};
        rs_org_map := []; rs_preview := true; rs_revision := None |}).1.2 = Failure 500 (bs "apply_failed").
Proof. vm_compute. reflexivity. Qed.

End ExposesApiSamples.
