(* ===== verification/ExposeRelay.v ===== *)
(** The relay of a public listener: admission of visitors and the end of their
    sessions, from [aperio-server/src/expose_manager/relay.rs], and the
    server-wide deny list it asks, [aperio-server/src/deny_list.rs], with the
    layer of [aperio-server/src/server/router.rs] that asks it for HTTP.

    A session's UUID is an argument, and so is the answer of the rate limiter
    to a connection. *)

From S2P Require Import Prelude IpNet ClientIp Clients Expose Registry ExposeManager.

(** ** The deny list *)

Record DenyList : Type := { dl_ranges : list (ipaddr * Z) }.

Definition deny_empty (d : DenyList) : bool := match dl_ranges d with [] => true | _ => false end.
Definition blocks (d : DenyList) (ip : ipaddr) : bool := negb (deny_empty d) && ip_in_ranges ip (dl_ranges d).
Definition deny_parse (raw : str) : result DenyList str :=
  match parse_trusted_proxies raw with Ok rs => Ok {| dl_ranges := rs |} | Err e => Err e end.

Definition deny_from_list (entries : list str) : result DenyList str :=
  if forallb (fun e => bool_decide (trim e = [])) entries then Ok {| dl_ranges := [] |}
  else match deny_parse (join (bs ",") entries) with
       | Ok d => Ok d
       | Err e => Err (bs "security.denied_ips: " ++ e)
       end.

(** The outermost layer: [true] is the bare 403, before anything else runs. *)
Definition deny_layer (d : DenyList) (peer : option ipaddr) (hs : headers) (trust_proxy : bool)
    (real_ip_header : option str) (trusted : list (ipaddr * Z)) : bool :=
  if deny_empty d then false
  else match peer with
       | Some peer => blocks d (extract_client_ip hs peer trust_proxy real_ip_header trusted)
       | None => false
       end.

(** ** Admission *)

Definition source_allowed (deny : DenyList) (s : ExposeSpec) (peer : ipaddr) : bool :=
  (bool_decide (es_allowed_ips s = []) || existsb (fun range => network_contains range peer) (es_allowed_ips s))
  && negb (blocks deny peer).

Definition from_ip (ip : ipaddr) (ks : str * Session) : bool := bool_decide ((sv_peer (ss_view ks.2)).1 = ip).
Definition sessions_from (ip : ipaddr) (ss : list (str * Session)) : Z := Z.of_nat (length (filter (fun ks => from_ip ip ks = true) ss)).

Definition with_budget (t : Runtime) (b : Budget) : Runtime :=
  {| rt_control := rt_control t; rt_status := rt_status t; rt_sessions := rt_sessions t; rt_history := rt_history t;
     rt_budget := b; rt_opened := rt_opened t; rt_up_bytes := rt_up_bytes t; rt_down_bytes := rt_down_bytes t;
     rt_up_packets := rt_up_packets t; rt_down_packets := rt_down_packets t; rt_drops := rt_drops t |}.

Definition new_session (r : ExposeResource) (peer : ipaddr * Z) (t : Target) (id : str) (now now_secs : Z) : Session :=
  {| ss_view := {| sv_id := id; sv_expose_id := er_id r; sv_org_id := es_org_id (er_spec r); sv_revision := er_revision r;
                   sv_protocol := el_protocol (es_listener (er_spec r)); sv_peer := peer; sv_client_id := t_client_id t;
                   sv_target := t_target t; sv_started_at := now_secs; sv_up_bytes := 0; sv_down_bytes := 0;
                   sv_up_packets := 0; sv_down_packets := 0; sv_idle_seconds := 0; sv_ended_at := None; sv_reason := None |};
     ss_touched := now; ss_stop := false |}.

Definition admitted (t : Runtime) (id : str) (s : Session) : Runtime :=
  {| rt_control := rt_control t; rt_status := rt_status t; rt_sessions := aset id s (rt_sessions t); rt_history := rt_history t;
     rt_budget := rt_budget t; rt_opened := wrap64 (rt_opened t + 1); rt_up_bytes := rt_up_bytes t;
     rt_down_bytes := rt_down_bytes t; rt_up_packets := rt_up_packets t; rt_down_packets := rt_down_packets t;
     rt_drops := rt_drops t |}.

Definition admit_session (t : Runtime) (r : ExposeResource) (peer : ipaddr * Z) (target : Target) (id : str) (now now_secs : Z) :
    Runtime * bool :=
  if capacity (es_limits (er_spec r)) <=? Z.of_nat (length (rt_sessions t)) then (dropped t (bs "session_limit"), false)
  else
    let go t := (admitted t id (new_session r peer target id now now_secs), true) in
    match es_limits (er_spec r) with
    | LimitsTcp _ _ _ _ _ => go t
    | LimitsUdp _ per_ip _ _ _ _ per_second _ _ =>
        if per_ip <=? sessions_from peer.1 (rt_sessions t) then (dropped t (bs "peer_limit"), false)
        else
          let '(ok, b) := budget_open now per_second (rt_budget t) in
          let t := with_budget t b in
          if ok then go t else (dropped t (bs "admission_rate"), false)
    end.

(** ** The listener's loop *)

(** [lp_peers]: for UDP, the session of each peer and whether its queue is
    closed; [lp_errors]: socket errors in a row. *)
Record Loop : Type := { lp_runtime : Runtime; lp_peers : list ((ipaddr * Z) * (str * bool)); lp_errors : Z }.

(** What the loop sees: the rule in force, the server, and a new UUID. *)
Record View : Type := {
  vw_resource : ExposeResource;
  vw_accepting : bool;
  vw_deny : DenyList;
  vw_fleet : Fleet;
  vw_rate_ok : bool;
  vw_uuid : str;
  vw_now : Z;
  vw_now_secs : Z;
}.

Definition with_runtime (l : Loop) (t : Runtime) : Loop := {| lp_runtime := t; lp_peers := lp_peers l; lp_errors := 0 |}.

(** A socket error, and whether the loop goes on: the third in a row ends it. *)
Definition on_socket_error (l : Loop) (what say : str) : Loop * bool :=
  let t := dropped (lp_runtime l) what in
  let n := lp_errors l + 1 in
  if 3 <=? n then ({| lp_runtime := with_status t Failed (Some say); lp_peers := lp_peers l; lp_errors := n |}, false)
  else ({| lp_runtime := t; lp_peers := lp_peers l; lp_errors := n |}, true).

(** The arm of an accepted connection. *)
Definition on_accept (v : View) (l : Loop) (peer : ipaddr * Z) : Loop :=
  let s := er_spec (vw_resource v) in
  if negb (source_allowed (vw_deny v) s peer.1) || negb (vw_rate_ok v) then with_runtime l (dropped (lp_runtime l) (bs "source_policy"))
  else match target (vw_fleet v) s with
       | Err _ => with_runtime l (dropped (lp_runtime l) (bs "target_unavailable"))
       | Ok t => with_runtime l (admit_session (lp_runtime l) (vw_resource v) peer t (vw_uuid v) (vw_now v) (vw_now_secs v)).1
       end.

(** The arm of a received datagram of [size] bytes, with whether the queue of
    its session takes one more; [None] where the loop breaks. *)
Definition on_datagram (v : View) (l : Loop) (peer : ipaddr * Z) (size : Z) (queue_room : bool) : option Loop :=
  match es_limits (er_spec (vw_resource v)) with
  | LimitsTcp _ _ _ _ _ => None
  | LimitsUdp _ _ _ max_datagram _ _ _ _ _ =>
      let drop reason l := Some (with_runtime l (dropped (lp_runtime l) reason)) in
      if max_datagram <? size then drop (bs "oversize") l
      else if negb (source_allowed (vw_deny v) (er_spec (vw_resource v)) peer.1) then drop (bs "source_policy") l
      else
        let peers := match aget peer (lp_peers l) with Some (_, true) => aremove peer (lp_peers l) | _ => lp_peers l end in
        let l := {| lp_runtime := lp_runtime l; lp_peers := peers; lp_errors := 0 |} in
        let opened :=
          match aget peer peers with
          | Some _ => Ok l
          | None =>
              if negb (vw_accepting v) then Err (with_runtime l (dropped (lp_runtime l) (bs "draining")))
              else match target (vw_fleet v) (er_spec (vw_resource v)) with
                   | Err _ => Err (with_runtime l (dropped (lp_runtime l) (bs "target_unavailable")))
                   | Ok t =>
                       match admit_session (lp_runtime l) (vw_resource v) peer t (vw_uuid v) (vw_now v) (vw_now_secs v) with
                       | (t, true) => Ok {| lp_runtime := t; lp_peers := aset peer (vw_uuid v, false) peers; lp_errors := 0 |}
                       | (t, false) => Err (with_runtime l t)
                       end
                   end
          end in
        match opened with
        | Err l => Some l
        | Ok l => Some (if queue_room then l else with_runtime l (dropped (lp_runtime l) (bs "ingress_queue")))
        end
  end.

(** A finished UDP task gives its peer back, if the session is still its. *)
Definition on_finished (l : Loop) (peer : ipaddr * Z) (id : str) : Loop :=
  {| lp_runtime := lp_runtime l;
     lp_peers := match aget peer (lp_peers l) with
                 | Some (owned, _) => if str_eqb owned id then aremove peer (lp_peers l) else lp_peers l
                 | None => lp_peers l
                 end;
     lp_errors := lp_errors l |}.

(** ** The end of a session *)

Definition ended (v : SessionView) (now_secs : Z) (reason : str) : SessionView :=
  {| sv_id := sv_id v; sv_expose_id := sv_expose_id v; sv_org_id := sv_org_id v; sv_revision := sv_revision v;
     sv_protocol := sv_protocol v; sv_peer := sv_peer v; sv_client_id := sv_client_id v; sv_target := sv_target v;
     sv_started_at := sv_started_at v; sv_up_bytes := sv_up_bytes v; sv_down_bytes := sv_down_bytes v;
     sv_up_packets := sv_up_packets v; sv_down_packets := sv_down_packets v; sv_idle_seconds := sv_idle_seconds v;
     sv_ended_at := Some now_secs; sv_reason := Some reason |}.

(** [while history.len() > 256 { pop_front() }] *)
Definition trim_history (h : list SessionView) : list SessionView := drop (length h - 256) h.

(** [SessionGuard::drop]: the runtime, and the view the store records. *)
Definition end_session (t : Runtime) (id : str) (reason : str) (now_secs : Z) : Runtime * option SessionView :=
  match aget id (rt_sessions t) with
  | None => (t, None)
  | Some s =>
      let v := ended (ss_view s) now_secs reason in
      (with_sessions t (aremove id (rt_sessions t)) (trim_history (rt_history t ++ [v])), Some v)
  end.

(** ** A listener over time *)

(** The runs of a listener while one rule is in force: what visitors send, what
    the sessions transfer and how they end, in any order. The number counts the
    sessions that ended. *)
Inductive relay_run (r : ExposeResource) (deny : DenyList) : Z → Loop → Prop :=
| RunStart t : rt_sessions t = [] → rt_history t = [] → rt_opened t = 0 →
    relay_run r deny 0 {| lp_runtime := t; lp_peers := []; lp_errors := 0 |}
| RunAccept n l v peer : relay_run r deny n l → vw_resource v = r → vw_deny v = deny →
    aget (vw_uuid v) (rt_sessions (lp_runtime l)) = None → relay_run r deny n (on_accept v l peer)
| RunDatagram n l l' v peer size room : relay_run r deny n l → vw_resource v = r → vw_deny v = deny →
    aget (vw_uuid v) (rt_sessions (lp_runtime l)) = None → on_datagram v l peer size room = Some l' → relay_run r deny n l'
| RunFinished n l peer id : relay_run r deny n l → relay_run r deny n (on_finished l peer id)
| RunError n l what say : relay_run r deny n l → relay_run r deny n (on_socket_error l what say).1
| RunTransfer n l now id down bytes : relay_run r deny n l →
    relay_run r deny n {| lp_runtime := transfer now id down bytes (lp_runtime l); lp_peers := lp_peers l; lp_errors := lp_errors l |}
| RunEnd n l id reason now_secs : relay_run r deny n l →
    relay_run r deny (n + match (end_session (lp_runtime l) id reason now_secs).2 with Some _ => 1 | None => 0 end)
      {| lp_runtime := (end_session (lp_runtime l) id reason now_secs).1; lp_peers := lp_peers l; lp_errors := lp_errors l |}.

(** ** What admission promises *)

Record relay_ok (r : ExposeResource) (deny : DenyList) (n : Z) (t : Runtime) : Prop := {
  ro_keys : NoDup (keys (rt_sessions t));
  ro_capacity : Z.of_nat (length (rt_sessions t)) <= Z.max 0 (capacity (es_limits (er_spec r)));
  ro_per_ip : match es_limits (er_spec r) with
              | LimitsUdp _ per_ip _ _ _ _ _ _ _ => ∀ ip, sessions_from ip (rt_sessions t) <= Z.max 0 per_ip
              | LimitsTcp _ _ _ _ _ => True
              end;
  ro_source : ∀ id s, aget id (rt_sessions t) = Some s →
    source_allowed deny (er_spec r) (sv_peer (ss_view s)).1 = true ∧ sv_id (ss_view s) = id
    ∧ sv_expose_id (ss_view s) = er_id r ∧ sv_org_id (ss_view s) = es_org_id (er_spec r);
  ro_history : (length (rt_history t) <= 256)%nat;
  ro_balance : rt_opened t = wrap64 (Z.of_nat (length (rt_sessions t)) + n);
}.

Lemma aset_fresh_length {V} (k : str) (v : V) l : aget k l = None → length (aset k v l) = S (length l).
Proof. induction l as [|[k' v'] l IH]; simpl; [done|]. case_decide; [done|]. intros Hf. simpl. by rewrite IH. Qed.

Lemma aremove_length {V} (k : str) (v : V) l : aget k l = Some v → length l = S (length (aremove k l)).
Proof. induction l as [|[k' v'] l IH]; simpl; [done|]. case_decide; [done|]. intros Hf. simpl. by rewrite IH. Qed.

Lemma relay_ok_same r deny n t t' :
  rt_sessions t' = rt_sessions t → rt_history t' = rt_history t → rt_opened t' = rt_opened t →
  relay_ok r deny n t → relay_ok r deny n t'.
Proof. intros Hs Hh Ho []. constructor; by rewrite ?Hs, ?Hh, ?Ho. Qed.

Lemma admitted_ok r deny n t id peer tg now ns b :
  relay_ok r deny n t → aget id (rt_sessions t) = None → source_allowed deny (er_spec r) peer.1 = true →
  Z.of_nat (length (rt_sessions t)) < capacity (es_limits (er_spec r)) →
  match es_limits (er_spec r) with
  | LimitsUdp _ per_ip _ _ _ _ _ _ _ => sessions_from peer.1 (rt_sessions t) < per_ip
  | LimitsTcp _ _ _ _ _ => True
  end →
  relay_ok r deny n (admitted (with_budget t b) id (new_session r peer tg id now ns)).
Proof.
  intros [Hk Hc Hp Hs Hh Hb] Hid Hsrc Hcap Hip. constructor; simpl.
  - by apply NoDup_aset.
  - rewrite aset_fresh_length by done. lia.
  - destruct (es_limits (er_spec r)); [done|]. intros ip. rewrite aset_fresh by done. unfold sessions_from in *.
    rewrite filter_app, length_app, filter_cons, filter_nil. specialize (Hp ip).
    destruct (decide (from_ip ip (id, new_session r peer tg id now ns) = true)) as [Hf|]; simpl; [|lia].
    unfold from_ip in Hf. simpl in Hf. to_prop. subst ip. lia.
  - intros id' s. destruct (decide (id = id')) as [<-|Hne].
    + rewrite aget_aset_eq. intros [= <-]. done.
    + rewrite aget_aset_ne by done. apply Hs.
  - done.
  - rewrite aset_fresh_length, Hb by done. unfold wrap64. rewrite Zplus_mod_idemp_l. f_equal. lia.
Qed.

Lemma admit_ok r deny n t peer tg id now ns :
  relay_ok r deny n t → aget id (rt_sessions t) = None → source_allowed deny (er_spec r) peer.1 = true →
  relay_ok r deny n (admit_session t r peer tg id now ns).1.
Proof.
  intros Hok Hid Hsrc. unfold admit_session. destruct (capacity _ <=? _) eqn:Ec; to_prop; [by apply (relay_ok_same _ _ _ t)|].
  destruct (es_limits (er_spec r)) eqn:El.
  - simpl. apply (admitted_ok r deny n t id peer tg now ns (rt_budget t)); rewrite ?El; done.
  - destruct (_ <=? sessions_from _ _) eqn:Ep; to_prop; [by apply (relay_ok_same _ _ _ t)|].
    destruct (budget_open _ _ _) as [[] b]; simpl; [|by apply (relay_ok_same _ _ _ t)].
    apply admitted_ok; rewrite ?El; done.
Qed.

Lemma accept_ok r deny n v l peer :
  relay_ok r deny n (lp_runtime l) → vw_resource v = r → vw_deny v = deny →
  aget (vw_uuid v) (rt_sessions (lp_runtime l)) = None → relay_ok r deny n (lp_runtime (on_accept v l peer)).
Proof.
  intros Hok <- <- Hid. unfold on_accept. destruct (source_allowed _ _ _) eqn:Es; simpl; [|by apply (relay_ok_same _ _ _ (lp_runtime l))].
  destruct (vw_rate_ok v); simpl; [|by apply (relay_ok_same _ _ _ (lp_runtime l))].
  destruct (target _ _); simpl; [by apply admit_ok|by apply (relay_ok_same _ _ _ (lp_runtime l))].
Qed.

Lemma datagram_ok r deny n v l l' peer size room :
  relay_ok r deny n (lp_runtime l) → vw_resource v = r → vw_deny v = deny →
  aget (vw_uuid v) (rt_sessions (lp_runtime l)) = None → on_datagram v l peer size room = Some l' →
  relay_ok r deny n (lp_runtime l').
Proof.
  intros Hok <- <- Hid. unfold on_datagram. destruct (es_limits _); [done|].
  case_goal; [intros [= <-]; by apply (relay_ok_same _ _ _ (lp_runtime l))|].
  destruct (source_allowed _ _ _) eqn:Es; simpl; [|intros [= <-]; by apply (relay_ok_same _ _ _ (lp_runtime l))].
  assert (Hroom : ∀ l1 : Loop, relay_ok (vw_resource v) (vw_deny v) n (lp_runtime l1) →
     relay_ok (vw_resource v) (vw_deny v) n (lp_runtime (if room then l1 else with_runtime l1 (dropped (lp_runtime l1) (bs "ingress_queue"))))).
  { intros l1 H1. destruct room; [done|]. by apply (relay_ok_same _ _ _ (lp_runtime l1)). }
  destruct (aget peer _); [intros [= <-]; by apply (Hroom (Build_Loop _ _ _))|].
  destruct (vw_accepting v); simpl; [|intros [= <-]; by apply (relay_ok_same _ _ _ (lp_runtime l))].
  destruct (target _ _) as [tg|]; [|intros [= <-]; by apply (relay_ok_same _ _ _ (lp_runtime l))].
  pose proof (admit_ok _ _ _ _ peer tg (vw_uuid v) (vw_now v) (vw_now_secs v) Hok Hid Es) as Ha. simpl.
  destruct (admit_session _ _ _ _ _ _ _) as [t []]; simpl in *; intros [= <-]; [by apply (Hroom (Build_Loop _ _ _))|done].
Qed.

Lemma transfer_ok r deny n t now id down bytes : relay_ok r deny n t → relay_ok r deny n (transfer now id down bytes t).
Proof.
  intros [Hk Hc Hp Hs Hh Hb]. unfold transfer. destruct (aget id (rt_sessions t)) as [s|] eqn:E; [|by constructor].
  assert (Hlen : length (aset id {| ss_view := transferred (ss_view s) down bytes; ss_touched := now; ss_stop := ss_stop s |} (rt_sessions t)) = length (rt_sessions t)).
  { clear -E. induction (rt_sessions t) as [|[k v] l IH]; simpl in *; [done|]. case_decide; simpl; [done|]. by rewrite IH. }
  constructor; simpl; rewrite ?Hlen; try done; [by apply NoDup_aset| |].
  - destruct (es_limits _); [done|]. intros ip. etrans; [|apply (Hp ip)]. apply Z.eq_le_incl. unfold sessions_from. f_equal.
    clear -E. induction (rt_sessions t) as [|[k v] l IH]; simpl in *; [done|]. case_decide; simplify_eq.
    + rewrite !filter_cons. unfold from_ip. simpl. by case_decide.
    + rewrite !filter_cons. case_decide; simpl; by rewrite IH.
  - intros id' s'. destruct (decide (id = id')) as [<-|Hne].
    + rewrite aget_aset_eq. intros [= <-]. apply (Hs id s E).
    + rewrite aget_aset_ne by done. apply Hs.
Qed.

Lemma end_ok r deny n t id reason ns :
  relay_ok r deny n t →
  relay_ok r deny (n + match (end_session t id reason ns).2 with Some _ => 1 | None => 0 end) (end_session t id reason ns).1.
Proof.
  intros [Hk Hc Hp Hs Hh Hb]. unfold end_session. destruct (aget id (rt_sessions t)) as [s|] eqn:E; simpl; [|rewrite Z.add_0_r; by constructor].
  pose proof (aremove_length _ _ _ E) as Hlen. constructor; simpl.
  - by apply NoDup_aremove.
  - lia.
  - destruct (es_limits _); [done|]. intros ip. etrans; [|apply (Hp ip)]. unfold sessions_from.
    apply inj_le, sublist_length, sublist_filters, aremove_sublist.
  - intros id' s' H'. apply (Hs id' s'). destruct (decide (id = id')) as [<-|Hne]; [by rewrite aget_aremove_eq in H'|].
    by rewrite aget_aremove_ne in H'.
  - unfold trim_history. rewrite length_drop. lia.
  - rewrite Hb, Hlen. unfold wrap64. f_equal. lia.
Qed.

Lemma relay_run_ok r deny n l : relay_run r deny n l → relay_ok r deny n (lp_runtime l).
Proof.
  induction 1 as [t Hs Hh Ho|n l v peer _ IH Hr Hd Hid|n l l' v peer size room _ IH Hr Hd Hid Hrun|n l peer id _ IH
                 |n l what say _ IH|n l now id down bytes _ IH|n l id reason ns _ IH]; simpl.
  - constructor; simpl; rewrite ?Hs, ?Hh, ?Ho; simpl; try done; [apply NoDup_nil_2|lia| |lia].
    destruct (es_limits _); [done|]. intros ip. unfold sessions_from. rewrite filter_nil. simpl. lia.
  - by apply accept_ok.
  - by eapply datagram_ok.
  - done.
  - unfold on_socket_error. case_goal; simpl; by apply (relay_ok_same _ _ _ (lp_runtime l)).
  - by apply transfer_ok.
  - by apply end_ok.
Qed.

(** While a rule is in force, whatever visitors send and in whatever order
    sessions move data and end: the listener has at most its capacity of
    sessions, at most so many from one address when it relays datagrams, and
    every one of them belongs to its rule and comes from an address its sources
    admit_session and the server does not deny; every session opened is either still
    live or was ended once, and the history kept in memory is bounded. *)
Theorem relay_admits_within_limits r deny n l :
  relay_run r deny n l →
  let ss := rt_sessions (lp_runtime l) in
  Z.of_nat (length ss) <= Z.max 0 (capacity (es_limits (er_spec r)))
  ∧ match es_limits (er_spec r) with
    | LimitsUdp _ per_ip _ _ _ _ _ _ _ => ∀ ip, sessions_from ip ss <= Z.max 0 per_ip
    | LimitsTcp _ _ _ _ _ => True
    end
  ∧ (∀ id s, aget id ss = Some s →
       source_allowed deny (er_spec r) (sv_peer (ss_view s)).1 = true ∧ sv_expose_id (ss_view s) = er_id r
       ∧ sv_org_id (ss_view s) = es_org_id (er_spec r))
  ∧ (Z.of_nat (length ss) + n < 2 ^ 64 → 0 <= n → rt_opened (lp_runtime l) = Z.of_nat (length ss) + n)
  ∧ (length (rt_history (lp_runtime l)) <= 256)%nat.
Proof.
  intros H. apply relay_run_ok in H as [Hk Hc Hp Hs Hh Hb]. split_and!; [done|done| | |done].
  - intros id s E. destruct (Hs id s E) as (? & _ & ? & ?). auto.
  - intros Hlt Hn. rewrite Hb. apply wrap64_small. lia.
Qed.

(** An address the server denies opens no session of any listener, whatever
    the listener's own list admits, and no request of its reaches the router. *)
Theorem denied_address_shut_out deny ip hs trust rih trusted :
  blocks deny ip = true →
  (∀ s, source_allowed deny s ip = false)
  ∧ (extract_client_ip hs ip trust rih trusted = ip → deny_layer deny (Some ip) hs trust rih trusted = true).
Proof.
  intros Hb. split.
  - intros s. unfold source_allowed. rewrite Hb. apply andb_false_r.
  - intros He. unfold deny_layer. rewrite He, Hb. unfold blocks in Hb. by destruct (deny_empty deny).
Qed.

(** ** Samples *)

Module RelaySamplesExpose.

Import RegistrySamples.

Definition rule_res : ExposeResource := {| er_id := bs "a"; er_revision := 1; er_source := Api; er_spec := rule |}.
Definition no_deny : DenyList := {| dl_ranges := [] |}.
Definition seen (id : str) : View :=
  {| vw_resource := rule_res; vw_accepting := true; vw_deny := no_deny; vw_fleet := fleet; vw_rate_ok := true;
     vw_uuid := id; vw_now := 7; vw_now_secs := 1000 |}.
Definition idle : Loop := {| lp_runtime := new_runtime rule_res Listening; lp_peers := []; lp_errors := 0 |}.
Definition visitor : ipaddr * Z := (V4 3232235777, 40000).

Lemma relay_admits_within_limits_witness :
  let l := on_accept (seen (bs "s1")) idle visitor in
  length (rt_sessions (lp_runtime l)) = 1%nat
  ∧ Z.of_nat (length (rt_sessions (lp_runtime l))) <= Z.max 0 256
  ∧ rt_opened (lp_runtime l) = 1.
Proof.
  split; [vm_compute; reflexivity|].
  destruct (relay_admits_within_limits rule_res no_deny 0 (on_accept (seen (bs "s1")) idle visitor)) as (Hc & _ & _ & Ho & _).
  - apply RunAccept; [apply RunStart; reflexivity|reflexivity..].
  - split; [exact Hc|]. rewrite Ho; vm_compute; congruence.
Defined.

Definition banned : DenyList := {| dl_ranges := [(V4 3232235776, 24)] |}.

Lemma denied_address_shut_out_witness :
  source_allowed banned rule visitor.1 = false ∧ source_allowed no_deny rule visitor.1 = true
  ∧ deny_from_list [bs "192.168.1.0/24"] = Ok banned ∧ deny_from_list [bs "192.168.1.0/24"; bs "nonsense"] <> Ok banned.
Proof.
  split; [|vm_compute; split; [reflexivity|split; [reflexivity|discriminate]]].
  apply (denied_address_shut_out banned visitor.1 [] false None []). vm_compute. reflexivity.
Defined.

End RelaySamplesExpose.
