(* ===== verification/OrgStore.v ===== *)
(** The organizations of the server and their panels: [store/orgs.rs] (the
    records and their store), the panel set of [state.rs] and the layer of
    [server/panel.rs] that puts a dashboard at the root of a hostname.

    The patterns of an allowlist are in [Orgs]; the quotas and fences other
    components read are views of the records here. *)

From S2P Require Import Prelude Binds Orgs Clients Grants Rows RateLimit Tunnel.

Definition MASTER_ID : str := bs "master".

Record OrgOidc : Type := {
  oo_issuer : str;
  oo_client_id : str;
  oo_client_secret : str;
  oo_allowed_emails : list str;
  oo_default_role : option Role;
  oo_group_grants : list str;
}.

Record Organization : Type := {
  og_id : str;
  og_name : str;
  og_custom_name : option str;
  og_created_at : Z;
  og_max_clients : option Z;
  og_max_tokens : option Z;
  og_max_users : option Z;
  og_max_bytes_month : option Z;
  og_hostnames : list str;
  og_oidc : option OrgOidc;
  og_panel_hostname : option str;
}.

(** What a refused name is refused for. *)
Inductive bad_name : Type := NameRequired | MasterReserved | NotAnIdentifier | NameTaken.

Inductive OrgError : Type := OrgInvalid (why : bad_name) | NoSuchOrg | OrgNotSaved.

#[export] Instance OrgOidc_eq : EqDecision OrgOidc.
Proof. solve_decision. Defined.
#[export] Instance Organization_eq : EqDecision Organization.
Proof. solve_decision. Defined.
#[export] Instance bad_name_eq : EqDecision bad_name.
Proof. solve_decision. Defined.
#[export] Instance OrgError_eq : EqDecision OrgError.
Proof. solve_decision. Defined.

(** ** Assignments to one field *)

Definition og_with_custom_name (o : Organization) (v : option str) : Organization :=
  {| og_id := og_id o; og_name := og_name o; og_custom_name := v; og_created_at := og_created_at o;
     og_max_clients := og_max_clients o; og_max_tokens := og_max_tokens o; og_max_users := og_max_users o;
     og_max_bytes_month := og_max_bytes_month o; og_hostnames := og_hostnames o; og_oidc := og_oidc o;
     og_panel_hostname := og_panel_hostname o |}.

Definition og_with_hostnames (o : Organization) (v : list str) : Organization :=
  {| og_id := og_id o; og_name := og_name o; og_custom_name := og_custom_name o; og_created_at := og_created_at o;
     og_max_clients := og_max_clients o; og_max_tokens := og_max_tokens o; og_max_users := og_max_users o;
     og_max_bytes_month := og_max_bytes_month o; og_hostnames := v; og_oidc := og_oidc o;
     og_panel_hostname := og_panel_hostname o |}.

Definition og_with_oidc (o : Organization) (v : option OrgOidc) : Organization :=
  {| og_id := og_id o; og_name := og_name o; og_custom_name := og_custom_name o; og_created_at := og_created_at o;
     og_max_clients := og_max_clients o; og_max_tokens := og_max_tokens o; og_max_users := og_max_users o;
     og_max_bytes_month := og_max_bytes_month o; og_hostnames := og_hostnames o; og_oidc := v;
     og_panel_hostname := og_panel_hostname o |}.

Definition og_with_panel (o : Organization) (v : option str) : Organization :=
  {| og_id := og_id o; og_name := og_name o; og_custom_name := og_custom_name o; og_created_at := og_created_at o;
     og_max_clients := og_max_clients o; og_max_tokens := og_max_tokens o; og_max_users := og_max_users o;
     og_max_bytes_month := og_max_bytes_month o; og_hostnames := og_hostnames o; og_oidc := og_oidc o;
     og_panel_hostname := v |}.

(** ** The store *)

Definition OrgStore : Type := Rows Organization.

Definition org_commit {R} (ok : bool) (change : list Organization → result (R * list Organization) OrgError)
    (s : OrgStore) : result R OrgError * OrgStore :=
  commit_try ok OrgNotSaved change s.

Definition org_load (rows : list Organization) : OrgStore := load_all rows.

Definition org_import (ok : bool) (orgs : list Organization) (s : OrgStore) : result nat NotWritten * OrgStore :=
  import_rows ok orgs s.

Definition normalize_custom_name (raw : option str) : option str :=
  match raw with
  | Some n => if bool_decide (trim n = []) then None else Some (trim n)
  | None => None
  end.

Definition org_find (s : OrgStore) (id : str) : option Organization := find_row og_id id (mem s).

(** [id] is the fresh identifier, [now] the time. *)
Definition org_create (ok : bool) (id : str) (now : Z) (name : str) (hostnames : list str) (custom_name : option str)
    (s : OrgStore) : result Organization OrgError * OrgStore :=
  let name := trim name in
  if str_eqb name [] then (Err (OrgInvalid NameRequired), s)
  else if eq_ignore_case name (bs "master") then (Err (OrgInvalid MasterReserved), s)
  else if negb (validate_name name) then (Err (OrgInvalid NotAnIdentifier), s)
  else if existsb (fun o => eq_ignore_case (og_name o) name) (mem s) then (Err (OrgInvalid NameTaken), s)
  else
    let org := {| og_id := id; og_name := name; og_custom_name := normalize_custom_name custom_name;
                  og_created_at := now; og_max_clients := None; og_max_tokens := None; og_max_users := None;
                  og_max_bytes_month := None; og_hostnames := hostnames; og_oidc := None; og_panel_hostname := None |} in
    org_commit ok (fun l => Ok (org, l ++ [org])) s.

(** [iter_mut().find(|o| o.id == id).ok_or(NoSuchOrg)?], an assignment, and the
    record as it is then. *)
Definition org_modify (ok : bool) (id : str) (f : Organization → Organization) (s : OrgStore) :
    result Organization OrgError * OrgStore :=
  org_commit ok (fun l => match find_row og_id id l with
                          | Some o => Ok (f o, modify_row og_id id f l)
                          | None => Err NoSuchOrg
                          end) s.

Definition set_custom_name (ok : bool) (id : str) (custom_name : option str) (s : OrgStore) :
    result Organization OrgError * OrgStore :=
  org_modify ok id (fun o => og_with_custom_name o (normalize_custom_name custom_name)) s.

Definition org_delete (ok : bool) (id : str) (s : OrgStore) : result unit OrgError * OrgStore :=
  if negb (existsb (fun o => str_eqb (og_id o) id) (mem s)) then (Err NoSuchOrg, s)
  else org_commit ok (fun l => Ok (tt, filter (fun o => og_id o ≠ id) l)) s.

(** [if let Some(v) = change { field = v.filter(|n| *n > 0) }] *)
Definition quota_field (change : option (option Z)) (old : option Z) : option Z :=
  match change with
  | None => old
  | Some None => None
  | Some (Some n) => if 0 <? n then Some n else None
  end.

Definition set_quota (ok : bool) (id : str) (max_clients max_tokens max_users max_bytes_month : option (option Z))
    (s : OrgStore) : result Organization OrgError * OrgStore :=
  org_modify ok id (fun o =>
    {| og_id := og_id o; og_name := og_name o; og_custom_name := og_custom_name o; og_created_at := og_created_at o;
       og_max_clients := quota_field max_clients (og_max_clients o);
       og_max_tokens := quota_field max_tokens (og_max_tokens o);
       og_max_users := quota_field max_users (og_max_users o);
       og_max_bytes_month := quota_field max_bytes_month (og_max_bytes_month o);
       og_hostnames := og_hostnames o; og_oidc := og_oidc o; og_panel_hostname := og_panel_hostname o |}) s.

Definition set_panel_hostname (ok : bool) (id : str) (hostname : option str) (s : OrgStore) :
    result Organization OrgError * OrgStore :=
  org_modify ok id (fun o => og_with_panel o hostname) s.

Definition set_hostnames (ok : bool) (id : str) (hostnames : list str) (s : OrgStore) :
    result Organization OrgError * OrgStore :=
  org_modify ok id (fun o => og_with_hostnames o hostnames) s.

Definition set_oidc (ok : bool) (id : str) (oidc : option OrgOidc) (s : OrgStore) :
    result Organization OrgError * OrgStore :=
  org_modify ok id (fun o => og_with_oidc o oidc) s.

Definition panel_org_for (s : OrgStore) (host : str) : option Organization :=
  find (fun o => bool_decide (og_panel_hostname o = Some host)) (mem s).

Definition fenced_login_org (s : OrgStore) (host : str) : option Organization :=
  match filter (fun o => negb (bool_decide (og_hostnames o = [])) && hostname_in_org_allowlist host (og_hostnames o) = true) (mem s) with
  | [o] => Some o
  | _ => None
  end.

Definition org_panels (s : OrgStore) : list str := omap og_panel_hostname (mem s).

Definition org_hostnames_of (s : OrgStore) (id : option str) : list str :=
  match id with
  | Some id => match org_find s id with Some o => og_hostnames o | None => [] end
  | None => []
  end.

(** What the hostname checks, the quotas and the tunnel names read of the
    records. *)
Definition fences_of (s : OrgStore) : fences := (fun o => (og_id o, og_hostnames o)) <$> mem s.
Definition quotas_of (s : OrgStore) : list org_record :=
  (fun o => {| o_id := og_id o; o_max_clients := og_max_clients o; o_max_bytes_month := og_max_bytes_month o |}) <$> mem s.
Definition names_of (s : OrgStore) : list (str * str) := (fun o => (og_id o, og_name o)) <$> mem s.

(** ** Panels *)

(** [refresh_panel_hostnames]: the set the binds and the layer below ask. *)
Definition panel_set (dashboard : option str) (s : OrgStore) : list str :=
  org_panels s ++ match dashboard with Some own => [own] | None => [] end.

(** [Some None] is the server's own panel. *)
Definition panel_org (dashboard : option str) (s : OrgStore) (host : option str) : option (option str) :=
  match host with
  | None => None
  | Some host => if bool_decide (dashboard = Some host) then Some None
                 else (fun o => Some (og_id o)) <$> panel_org_for s host
  end.

Definition request_host (h : headers) : option str :=
  match header_str (bs "host") h with
  | None => None
  | Some raw =>
      let name := match rsplit_once colon raw with
                  | Some (name, port) => if negb (str_eqb name []) && forallb is_digit port then name else raw
                  | None => raw
                  end in
      let host := lower (trim_end_char dot (trim name)) in
      if str_eqb host [] then None else Some host
  end.

Definition rewritten_path (path : str) : str :=
  if str_eqb path (bs "/") || str_eqb path [] then bs "/aperio" else bs "/aperio" ++ path.

Definition under_aperio (path : str) : bool := str_eqb path (bs "/aperio") || starts_with (bs "/aperio/") path.

Record PanelUri : Type := { pu_path : str; pu_query : option str; pu_original : option str }.

Definition path_and_query (path : str) (query : option str) : str :=
  path ++ match query with Some q => bs "?" ++ q | None => [] end.

(** The layer. [uri_ok] is whether the rewritten target is a URI the HTTP library
    accepts. *)
Definition rewrite_panel (panels : list str) (uri_ok : str → bool) (h : headers) (u : PanelUri) : PanelUri :=
  match request_host h with
  | Some host =>
      if existsb (str_eqb host) panels && negb (under_aperio (pu_path u)) then
        let target := rewritten_path (pu_path u) in
        if uri_ok (path_and_query target (pu_query u)) then
          {| pu_path := target; pu_query := pu_query u;
             pu_original := Some (path_and_query (pu_path u) (pu_query u)) |}
        else u
      else u
  | None => u
  end.

(** ** Lemmas *)

Lemma org_commit_spec {R} ok (change : list Organization → result (R * list Organization) OrgError) s :
  org_commit ok change s
  = match change (mem s) with
    | Err e => (Err e, s)
    | Ok (out, l) => if ok then (Ok out, {| mem := l; table := l |}) else (Err OrgNotSaved, s)
    end.
Proof. apply commit_try_spec. Qed.

Lemma org_modify_spec ok id f s :
  org_modify ok id f s
  = match org_find s id with
    | None => (Err NoSuchOrg, s)
    | Some o => if ok then (Ok (f o), {| mem := modify_row og_id id f (mem s); table := modify_row og_id id f (mem s) |})
                else (Err OrgNotSaved, s)
    end.
Proof. unfold org_modify, org_find. rewrite org_commit_spec. by destruct (find_row og_id id (mem s)). Qed.

(** A change that did not happen left the records alone. *)
Lemma org_modify_err ok id f s e s' : org_modify ok id f s = (Err e, s') → s' = s.
Proof. rewrite org_modify_spec. destruct (org_find s id), ok; intros [= _ <-]; done. Qed.

Lemma org_modify_ok ok id f s o s' :
  org_modify ok id f s = (Ok o, s') →
  ok = true ∧ ∃ o0, org_find s id = Some o0 ∧ o = f o0 ∧ mem s' = modify_row og_id id f (mem s).
Proof.
  rewrite org_modify_spec. destruct (org_find s id) as [o0|], ok; try done. intros [E <-]%pair_eq.
  assert (o = f o0) as -> by congruence. eauto.
Qed.

(** ** What holds of the records *)

Definition name_ok (o : Organization) : Prop :=
  validate_name (og_name o) = true ∧ trim (og_name o) = og_name o ∧ eq_ignore_case (og_name o) (bs "master") = false.

(** [fenced]: whether the panel is asked to be inside its organization's allowlist too. *)
Definition panel_ok (fenced : bool) (dashboard : option str) (o : Organization) : Prop :=
  ∀ p, og_panel_hostname o = Some p →
    (∃ raw, normalize_panel_hostname raw = Some p) ∧ dashboard ≠ Some p
    ∧ (fenced = true → og_hostnames o ≠ [] ∧ hostname_in_org_allowlist p (og_hostnames o) = true).

Record orgs_ok (fenced : bool) (dashboard : option str) (l : list Organization) : Prop := {
  ids_unique : NoDup (og_id <$> l);
  ids_not_reserved : Forall (fun o => og_id o ≠ MASTER_ID ∧ og_id o ≠ []) l;
  names_unique : NoDup ((fun o => lower (og_name o)) <$> l);
  names_ok : Forall name_ok l;
  panels_ok : Forall (panel_ok fenced dashboard) l;
  panels_unique : NoDup (omap og_panel_hostname l);
}.

(** A change of one record that keeps its identity. *)
Lemma orgs_ok_modify fenced dashboard id f l :
  orgs_ok fenced dashboard l →
  (∀ o, og_id (f o) = og_id o ∧ og_name (f o) = og_name o) →
  (∀ o, find_row og_id id l = Some o → panel_ok fenced dashboard (f o)) →
  NoDup (omap og_panel_hostname (modify_row og_id id f l)) →
  orgs_ok fenced dashboard (modify_row og_id id f l).
Proof.
  intros H Hf Hp Hu. split.
  - rewrite modify_ids; [apply H|apply Hf].
  - apply Forall_modify; [apply H|]. intros o _ Ho. by rewrite (proj1 (Hf o)).
  - rewrite modify_fmap by (intros o; by rewrite (proj2 (Hf o))). apply H.
  - apply Forall_modify; [apply H|]. intros o _ Ho. unfold name_ok. by rewrite (proj2 (Hf o)).
  - apply Forall_modify; [apply H|]. intros o E _. by apply Hp.
  - done.
Qed.

Lemma orgs_ok_create fenced dashboard l o :
  orgs_ok fenced dashboard l → og_id o ∉ og_id <$> l → og_id o ≠ MASTER_ID ∧ og_id o ≠ [] → name_ok o →
  existsb (fun x => eq_ignore_case (og_name x) (og_name o)) l = false → og_panel_hostname o = None →
  orgs_ok fenced dashboard (l ++ [o]).
Proof.
  intros H Hid Hm Hn Hf Hp. split.
  - rewrite fmap_app. apply NoDup_app. split; [apply H|]. split; [set_solver|apply NoDup_singleton].
  - apply Forall_app. split; [apply H|by constructor].
  - rewrite fmap_app. apply NoDup_app. split; [apply H|]. split; [|apply NoDup_singleton].
    intros x (y & -> & Hy)%list_elem_of_fmap Hx. apply list_elem_of_singleton in Hx.
    pose proof (proj1 (existsb_false _ _) Hf) as Hf'. rewrite Forall_forall in Hf'. specialize (Hf' y Hy). simpl in Hf'.
    assert (eq_ignore_case (og_name y) (og_name o) = true) by (by apply eq_ignore_case_spec). congruence.
  - apply Forall_app. split; [apply H|by constructor].
  - apply Forall_app. split; [apply H|]. constructor; [|constructor]. intros p E. congruence.
  - rewrite omap_app. csimpl. rewrite Hp, app_nil_r. apply H.
Qed.

Lemma omap_sublist {A B} (g : A → option B) l l' : sublist l l' → sublist (omap g l) (omap g l').
Proof.
  induction 1 as [|x l l' _ IH|x l l' _ IH]; csimpl; [done| |]; destruct (g x); try done; by constructor.
Qed.

Lemma Forall_sublist {A} (P : A → Prop) l l' : sublist l l' → Forall P l' → Forall P l.
Proof. intros Hs H. apply Forall_forall. intros x Hx. eapply Forall_forall; [done|]. by eapply elem_of_sublist. Qed.

Lemma orgs_ok_sublist fenced dashboard l l' : sublist l l' → orgs_ok fenced dashboard l' → orgs_ok fenced dashboard l.
Proof.
  intros Hs H. split.
  - eapply sublist_NoDup; [apply (ids_unique _ _ _ H)|]. by apply fmap_sublist.
  - by eapply Forall_sublist; [|apply H].
  - eapply sublist_NoDup; [apply (names_unique _ _ _ H)|]. by apply (fmap_sublist (fun o => lower (og_name o))).
  - by eapply Forall_sublist; [|apply H].
  - by eapply Forall_sublist; [|apply H].
  - eapply sublist_NoDup; [apply (panels_unique _ _ _ H)|]. by apply omap_sublist.
Qed.

(** ** A panel's hostname is the one requests for it carry *)

Lemma panel_label_host l : panel_label_ok l = true → label_ok l = true.
Proof. unfold panel_label_ok, label_ok. intros H. to_prop. apply andb_true_iff. by rewrite negb_true_iff. Qed.

Lemma rsplit_once_Some c s a b : rsplit_once c s = Some (a, b) → s = a ++ c :: b ∧ c ∉ b.
Proof.
  unfold rsplit_once. destruct (split_once c (rev s)) as [[h t]|] eqn:E; [|done]. intros [= <- <-].
  apply split_once_Some in E as [E Hh]. split.
  - rewrite <- (rev_involutive s), E, rev_app_distr. simpl. by rewrite <- app_assoc.
  - intros H. apply Hh. by rewrite list_elem_of_In, in_rev, <- list_elem_of_In.
Qed.

Lemma rsplit_once_app c a b : c ∉ b → rsplit_once c (a ++ c :: b) = Some (a, b).
Proof.
  intros Hb. unfold rsplit_once. rewrite rev_app_distr. simpl. rewrite <- app_assoc. simpl.
  destruct (split_once c (rev b ++ c :: rev a)) as [[h t]|] eqn:E.
  - apply split_once_Some in E as [E Hh].
    assert (Hb' : c ∉ rev b) by by rewrite list_elem_of_In, <- in_rev, <- list_elem_of_In.
    assert (h = rev b ∧ t = rev a) as [-> ->]; [|by rewrite !rev_involutive].
    clear Hb. revert h Hh E. induction (rev b) as [|x r IH]; intros [|y h] Hh E; simplify_eq/=; try set_solver.
    destruct (IH ltac:(set_solver) h) as [-> ->]; set_solver.
  - apply split_once_None in E. set_solver.
Qed.

Lemma rsplit_once_None c s : c ∉ s → rsplit_once c s = None.
Proof.
  intros H. unfold rsplit_once. destruct (split_once c (rev s)) as [[h t]|] eqn:E; [|done].
  apply split_once_Some in E as [E _]. destruct H. rewrite list_elem_of_In, in_rev, <- list_elem_of_In, E. set_solver.
Qed.

Lemma strip_numeric_port_prefix s : ∃ r, s = strip_numeric_port s ++ r.
Proof.
  unfold strip_numeric_port. destruct (rsplit_once colon s) as [[a b]|] eqn:E; [|exists []; by rewrite app_nil_r].
  apply rsplit_once_Some in E as [-> _]. destruct (_ && _); [by exists (colon :: b)|exists []; by rewrite app_nil_r].
Qed.

Lemma normalize_panel_wf raw p : normalize_panel_hostname raw = Some p → wf_host p.
Proof.
  unfold normalize_panel_hostname. set (h := lower (trim_end_char dot (trim raw))).
  destruct (strip_numeric_port_prefix h) as [r Hr]. destruct (_ || _) eqn:E; [done|].
  destruct (forallb _ _) eqn:El; [|done]. intros [= <-]. to_prop. split.
  - intros H'. rewrite H' in *. done.
  - unfold MAX_HOSTNAME_LEN. lia.
  - apply forallb_Forall in El. eapply Forall_impl; [exact El|]. intros l. apply panel_label_host.
  - assert (Hl : lower h = h) by apply lower_idem. rewrite Hr, lower_app in Hl.
    eapply app_inj_1 in Hl as [Hl _]; [done|apply length_lower].
Qed.

Lemma graphic_lower s : Forall (fun c => graphic c = true) (lower s) → Forall (fun c => graphic c = true) s.
Proof.
  unfold lower. rewrite Forall_fmap. intros H0. eapply Forall_impl; [exact H0|]. intros a. simpl. unfold graphic. rewrite code_lower1.
  destruct (is_upper a) eqn:E; [|done]. unfold is_upper in E. to_prop. intros Hx. lia.
Qed.

Lemma digits_lower s : forallb is_digit (lower s) = true → forallb is_digit s = true.
Proof.
  rewrite !forallb_Forall. unfold lower. rewrite Forall_fmap. intros H0. eapply Forall_impl; [exact H0|]. intros a. simpl. unfold is_digit.
  rewrite code_lower1. destruct (is_upper a) eqn:E; [|done]. unfold is_upper in E. to_prop. intros Hx. lia.
Qed.

Lemma digits_no_colon s : forallb is_digit s = true → colon ∉ s.
Proof. intros H Hc. apply forallb_Forall in H. rewrite Forall_forall in H. by specialize (H _ Hc). Qed.

(** Any spelling of a panel's hostname, with any port, is that panel. *)
Lemma request_host_panel h v p rest :
  wf_host p → header_str (bs "host") h = Some v → lower v = p ++ rest →
  rest = [] ∨ (∃ port, rest = colon :: port ∧ forallb is_digit port = true) → request_host h = Some p.
Proof.
  intros Hp Hv E Hrest. unfold request_host. rewrite Hv. cbv zeta.
  apply fmap_app_inv in E as (a & b & Ha & Hb & ->). fold (lower a) in Ha. fold (lower b) in Hb. symmetry in Ha, Hb.
  assert (Hca : colon ∉ a) by (intros H; apply (wf_host_no_colon p Hp); rewrite <- Ha; by apply elem_of_lower).
  assert (Hne : a ≠ []) by (intros ->; by apply (wfh_ne p Hp)).
  assert (Ht : lower (trim_end_char dot (trim a)) = p).
  { rewrite trim_graphic.
    2:{ apply graphic_lower. rewrite Ha. eapply Forall_impl; [apply wf_host_chars, Hp|]. naive_solver. }
    unfold trim_end_char. rewrite trim_end_by_id; [done|]. intros q c Hq. apply is_char_false. intros ->.
    subst a. rewrite lower_app in Ha. by apply (wf_host_last p (lower q)). }
  match goal with |- context [str_eqb (lower (trim_end_char dot (trim ?n))) []] => assert (n = a) as -> end.
  - destruct Hrest as [->|(port & -> & Hd)].
    + destruct b; [|done]. by rewrite app_nil_r, rsplit_once_None.
    + destruct b as [|c b]; [done|]. csimpl in Hb. injection Hb as Hc Hb. fold (lower b) in Hb.
      apply lower1_fixed in Hc as ->; [|done..]. assert (Hdb : forallb is_digit b = true) by (apply digits_lower; by rewrite Hb).
      rewrite rsplit_once_app by by apply digits_no_colon. rewrite Hdb. by destruct a.
  - rewrite Ht. destruct (str_eqb p []) eqn:Ep; [|done]. apply str_eqb_eq in Ep. by destruct (wfh_ne p Hp).
Qed.

Lemma under_rewritten path : path = [] ∨ (∃ r, path = slash :: r) → under_aperio (rewritten_path path) = true.
Proof.
  unfold rewritten_path, under_aperio. intros [->|[r ->]]; [done|].
  destruct (str_eqb (slash :: r) (bs "/") || str_eqb (slash :: r) []); [done|]. apply orb_true_iff. right. apply starts_with_spec. by exists r.
Qed.

(** A request that reaches a panel's hostname, in any spelling of it and with any
    port, lands in the dashboard's own namespace whatever path it asked for, keeps
    its query, and is not moved again; a request for any other hostname is not
    touched. *)
Theorem panel_serves_only_the_dashboard panels h v host rest u :
  wf_host host → header_str (bs "host") h = Some v → lower v = host ++ rest →
  rest = [] ∨ (∃ port, rest = colon :: port ∧ forallb is_digit port = true) →
  pu_path u = [] ∨ (∃ r, pu_path u = slash :: r) →
  let u' := rewrite_panel panels (fun _ => true) h u in
  (host ∈ panels → under_aperio (pu_path u') = true)
  ∧ (host ∉ panels → u' = u)
  ∧ pu_query u' = pu_query u
  ∧ rewrite_panel panels (fun _ => true) h u' = u'.
Proof.
  intros Hh Hv E Hr Hp u'. subst u'. unfold rewrite_panel. rewrite (request_host_panel h v host rest) by done.
  destruct (existsb (str_eqb host) panels) eqn:Ex.
  - assert (Hin : host ∈ panels) by (apply existsb_Exists in Ex as (x & Hx & ->%str_eqb_eq); done).
    destruct (under_aperio (pu_path u)) eqn:Eu; simpl; [by rewrite Eu|]. by rewrite under_rewritten.
  - assert (Hout : host ∉ panels).
    { intros Hin. assert (existsb (str_eqb host) panels = true); [|congruence].
      apply existsb_Exists. exists host. split; [done|apply str_eqb_refl]. }
    done.
Qed.

Lemma panel_serves_only_the_dashboard_witness :
  under_aperio (pu_path (rewrite_panel [bs "panel.test"] (fun _ => true) [(bs "host", bs "Panel.Test:8443")]
                           {| pu_path := bs "/x"; pu_query := Some (bs "a=1"); pu_original := None |})) = true.
Proof.
  refine (proj1 (panel_serves_only_the_dashboard [bs "panel.test"] [(bs "host", bs "Panel.Test:8443")]
                   (bs "Panel.Test:8443") (bs "panel.test") (bs ":8443") _ _ eq_refl eq_refl _ _) _).
  - apply (normalize_panel_wf (bs "panel.test")). reflexivity.
  - right. exists (bs "8443"). split; reflexivity.
  - right. by exists (bs "x").
  - set_solver.
Defined.
