(* ===== verification/OrgsApi.v ===== *)
(** Managing organizations, [aperio-server/src/api/orgs.rs]: every handler, with
    what it reads and changes beyond the organization records: the connections of
    a tenant, the panel set, sessions, grants, maintenance flags and the cached
    single sign-on runtimes.

    Handlers take whether each of their writes to the database succeeds, first to
    last. A dynamic token is only counted here, so it is its organization. *)

From S2P Require Import Prelude Binds Orgs VisitorAuth Clients Select RateLimit Declare Grants Users Sessions Rows AdminKeys Tunnel OrgStore.

Record OrgPanel : Type := {
  op_orgs : OrgStore;
  op_sessions : SessionStore;
  op_users : UserStore;
  op_keys : list AdminKey;
  op_tokens : list (option str);
  op_clients : client_map;
  op_cfg : DeclConfig;
  op_dashboard : option str;
  op_secure_cookies : bool;
  op_fenced_login : bool;
  op_flags : list (str * MaintenanceFlag);
  op_runtimes : list str;
  op_ended : list str;
  op_audits : list (str * str);
}.

(** The server's state as the credentials of a request are resolved in it. *)
Definition auth_of (st : OrgPanel) : AuthState :=
  {| a_sessions := op_sessions st; a_users := op_users st; a_keys := op_keys st;
     a_secure_cookies := op_secure_cookies st; a_fenced_login := op_fenced_login st;
     a_fences := fences_of (op_orgs st);
     a_clients := (fun ic => {| sc_org := org_id (perms ic.2); sc_hostnames := conn_hostnames ic.2 |}) <$> op_clients st |}.

(** ** Assignments *)

Definition put_orgs (s : OrgStore) (st : OrgPanel) : OrgPanel :=
  {| op_orgs := s; op_sessions := op_sessions st; op_users := op_users st; op_keys := op_keys st;
     op_tokens := op_tokens st; op_clients := op_clients st; op_cfg := op_cfg st; op_dashboard := op_dashboard st;
     op_secure_cookies := op_secure_cookies st; op_fenced_login := op_fenced_login st; op_flags := op_flags st;
     op_runtimes := op_runtimes st; op_ended := op_ended st; op_audits := op_audits st |}.

Definition put_identities (ss : SessionStore) (us : UserStore) (st : OrgPanel) : OrgPanel :=
  {| op_orgs := op_orgs st; op_sessions := ss; op_users := us; op_keys := op_keys st;
     op_tokens := op_tokens st; op_clients := op_clients st; op_cfg := op_cfg st; op_dashboard := op_dashboard st;
     op_secure_cookies := op_secure_cookies st; op_fenced_login := op_fenced_login st; op_flags := op_flags st;
     op_runtimes := op_runtimes st; op_ended := op_ended st; op_audits := op_audits st |}.

(** The live connections, and those told to end. *)
Definition put_clients (cs : client_map) (ended : list str) (st : OrgPanel) : OrgPanel :=
  {| op_orgs := op_orgs st; op_sessions := op_sessions st; op_users := op_users st; op_keys := op_keys st;
     op_tokens := op_tokens st; op_clients := cs; op_cfg := op_cfg st; op_dashboard := op_dashboard st;
     op_secure_cookies := op_secure_cookies st; op_fenced_login := op_fenced_login st; op_flags := op_flags st;
     op_runtimes := op_runtimes st; op_ended := op_ended st ++ ended; op_audits := op_audits st |}.

Definition put_panels (panels : list str) (st : OrgPanel) : OrgPanel :=
  {| op_orgs := op_orgs st; op_sessions := op_sessions st; op_users := op_users st; op_keys := op_keys st;
     op_tokens := op_tokens st; op_clients := op_clients st;
     op_cfg := {| panel_hostnames := panels; cache_enabled := cache_enabled (op_cfg st);
                  cache_max_stale := cache_max_stale (op_cfg st); server_gates := server_gates (op_cfg st);
                  default_access := default_access (op_cfg st) |};
     op_dashboard := op_dashboard st;
     op_secure_cookies := op_secure_cookies st; op_fenced_login := op_fenced_login st; op_flags := op_flags st;
     op_runtimes := op_runtimes st; op_ended := op_ended st; op_audits := op_audits st |}.

(** The maintenance flags and the cached runtimes. *)
Definition put_leftovers (flags : list (str * MaintenanceFlag)) (runtimes : list str) (st : OrgPanel) : OrgPanel :=
  {| op_orgs := op_orgs st; op_sessions := op_sessions st; op_users := op_users st; op_keys := op_keys st;
     op_tokens := op_tokens st; op_clients := op_clients st; op_cfg := op_cfg st; op_dashboard := op_dashboard st;
     op_secure_cookies := op_secure_cookies st; op_fenced_login := op_fenced_login st; op_flags := flags;
     op_runtimes := runtimes; op_ended := op_ended st; op_audits := op_audits st |}.

Definition audit_org (event id : str) (st : OrgPanel) : OrgPanel :=
  {| op_orgs := op_orgs st; op_sessions := op_sessions st; op_users := op_users st; op_keys := op_keys st;
     op_tokens := op_tokens st; op_clients := op_clients st; op_cfg := op_cfg st; op_dashboard := op_dashboard st;
     op_secure_cookies := op_secure_cookies st; op_fenced_login := op_fenced_login st; op_flags := op_flags st;
     op_runtimes := op_runtimes st; op_ended := op_ended st; op_audits := op_audits st ++ [(event, id)] |}.

Definition refresh_panel_hostnames (st : OrgPanel) : OrgPanel := put_panels (panel_set (op_dashboard st) (op_orgs st)) st.

(** [apply_panel_hostnames]: the set rebuilt, then whoever serves one of its names
    is told to end. *)
Definition apply_panels (st : OrgPanel) : OrgPanel :=
  let st := refresh_panel_hostnames st in
  put_clients (op_clients st) (apply_panel_hostnames (op_cfg st) (op_clients st)) st.

(** ** Answers *)

Inductive OrgReply : Type :=
| Updated (o : Organization)
| Selected (org : option str)
| Configured (id : str) (configured : bool)
| Done
| Listed (rows : list (str * (nat * nat)))
| UsageReport (month_bytes : Z) (clients tokens users : nat) (quota : option Organization) (panel : option str).

Definition org_error (e : OrgError) : Z :=
  match e with OrgNotSaved => 500 | NoSuchOrg => 404 | OrgInvalid _ => 400 end.

Record OrgOidcRequest : Type := {
  or_issuer : str;
  or_client_id : str;
  or_client_secret : str;
  or_allowed_emails : list str;
  or_default_role : option str;
  or_group_grants : list str;
}.

Inductive OrgRequest : Type :=
| ListOrgs
| SetPanel (id : str) (hostname : option str)
| SelectOrg (id : option str)
| CreateOrg (name : str) (custom_name : option str) (hostnames : list str) (panel : option str)
| RenameOrg (id : str) (custom_name : option str)
| SetHostnames (id : str) (hostnames : list str)
| DeleteOrg (id : str)
| SetQuota (id : str) (max_clients max_tokens max_users max_bytes_month : option Z)
| SetOidc (id : str) (p : OrgOidcRequest)
| Usage (id : str) (bytes_sent bytes_received : Z).

(** Users and tokens of an organization. *)
Definition org_member_counts (st : OrgPanel) (org : option str) : nat * nat :=
  (length (filter (fun u => u_org_id u = org) (users (op_users st))), length (filter (fun t => t = org) (op_tokens st))).

(** ** Checks *)

Definition check_panel_hostname (st : OrgPanel) (id : str) (fence : list str) (raw : option str) :
    result (option str) Z :=
  match (match raw with Some r => if str_eqb (trim r) [] then None else Some (trim r) | None => None end) with
  | None => Ok None
  | Some raw =>
      match normalize_panel_hostname raw with
      | None => Err 400
      | Some host =>
          if bool_decide (fence = []) then Err 400
          else if negb (hostname_in_org_allowlist host fence) then Err 403
          else if bool_decide (op_dashboard st = Some host) then Err 409
          else if match panel_org_for (op_orgs st) host with Some o => negb (str_eqb (og_id o) id) | None => false end
          then Err 409
          else if (0 <? clients_serving_outside id host (op_clients st))%nat then Err 409
          else Ok (Some host)
      end
  end.

Fixpoint normalize_entries (out raw : list str) : option (list str) :=
  match raw with
  | [] => Some out
  | entry :: raw =>
      if str_eqb (trim entry) [] then normalize_entries out raw
      else match normalize_org_hostname_pattern entry with
           | None => None
           | Some pattern =>
               if str_eqb pattern (bs "*") then Some []
               else if bool_decide (pattern ∈ out) then normalize_entries out raw
               else normalize_entries (out ++ [pattern]) raw
           end
  end.

Definition normalize_allowlist (raw : list str) : option (list str) := normalize_entries [] raw.

(** [Some(n)] sets, [Some(0)] clears, [None] keeps. *)
Definition to_opt (v : option Z) : option (option Z) :=
  match v with Some n => Some (if n =? 0 then None else Some n) | None => None end.

Definition oidc_default_role (raw : option str) : result (option Role) Z :=
  match trim <$> raw with
  | None => Ok (Some Admin)
  | Some r => if str_eqb r [] || str_eqb r (bs "admin") then Ok (Some Admin)
              else if str_eqb r (bs "none") then Ok None
              else match role_parse r with Some role => Ok (Some role) | None => Err 400 end
  end.

Fixpoint oidc_group_grants (id : str) (raw : list str) : result (list str) Z :=
  match raw with
  | [] => Ok []
  | entry :: raw =>
      let entry := trim entry in
      if str_eqb entry [] then oidc_group_grants id raw
      else match split_once "="%char entry with
           | Some (g, r) =>
               if str_eqb (trim g) [] then Err 400
               else match parse_in_org id r with
                    | Ok _ => (let? rest := oidc_group_grants id raw in Ok (entry :: rest))%rust
                    | Err _ => Err 400
                    end
           | None => Err 400
           end
  end.

Definition kept_secret (previous : option OrgOidc) (p : OrgOidcRequest) : str :=
  if negb (str_eqb (or_client_secret p) []) then or_client_secret p
  else match previous with
       | Some o => if str_eqb (oo_issuer o) (trim (or_issuer p)) && str_eqb (oo_client_id o) (trim (or_client_id p))
                   then oo_client_secret o else []
       | None => []
       end.

Definition oidc_of (id : str) (previous : option OrgOidc) (p : OrgOidcRequest) : result (option OrgOidc) Z :=
  let secret := kept_secret previous p in
  if str_eqb (trim (or_issuer p)) [] then Ok None
  else
    let emails := filter (fun e => e ≠ []) ((fun e => lower (trim e)) <$> or_allowed_emails p) in
    if str_eqb (trim (or_client_id p)) [] || str_eqb (trim secret) [] then Err 400
    else if bool_decide (emails = []) then Err 400
    else (let? role := oidc_default_role (or_default_role p) in
          let? grants := oidc_group_grants id (or_group_grants p) in
          Ok (Some {| oo_issuer := trim (or_issuer p); oo_client_id := trim (or_client_id p);
                      oo_client_secret := secret; oo_allowed_emails := emails; oo_default_role := role;
                      oo_group_grants := grants |}))%rust.

(** ** Handlers *)

Section Handlers.
Context (sha256 : str → str).

Definition org_caller (st : OrgPanel) (now : Z) (hs : headers) : option Caller := resolve_caller sha256 (auth_of st) now hs.

(** [require_server_admin(..)?] *)
Definition as_server_admin {A} (st : OrgPanel) (now : Z) (hs : headers) (k : result A Z * OrgPanel) : result A Z * OrgPanel :=
  match require_server_admin sha256 (auth_of st) now hs with
  | Ok _ => k
  | Err r => (Err (refusal_status r), st)
  end.

Definition orgs_list_handler (now : Z) (hs : headers) (st : OrgPanel) : result OrgReply Z * OrgPanel :=
  as_server_admin st now hs
    (Ok (Listed ((MASTER_ID, org_member_counts st None)
                 :: ((fun o => (og_id o, org_member_counts st (Some (og_id o)))) <$> mem (op_orgs st)))), st).

Definition orgs_panel_handler (ok : bool) (now : Z) (hs : headers) (id : str) (hostname : option str) (st : OrgPanel) :
    result OrgReply Z * OrgPanel :=
  match org_caller st now hs with
  | None => (Err 401, st)
  | Some caller =>
      if str_eqb id MASTER_ID then (Err 400, st)
      else if negb (bool_decide (caller_role_in caller (Some id) = Some Admin)) then (Err 403, st)
      else match org_find (op_orgs st) id with
           | None => (Err 404, st)
           | Some org =>
               match check_panel_hostname st id (og_hostnames org) hostname with
               | Err e => (Err e, st)
               | Ok host =>
                   match set_panel_hostname ok id host (op_orgs st) with
                   | (Ok org, orgs) => (Ok (Updated org), audit_org (bs "org_panel_set") id (apply_panels (put_orgs orgs st)))
                   | (Err e, orgs) => (Err (org_error e), put_orgs orgs st)
                   end
               end
           end
  end.

Definition orgs_select_handler (ok : bool) (now : Z) (hs : headers) (id : option str) (st : OrgPanel) :
    result OrgReply Z * OrgPanel :=
  match org_caller st now hs with
  | None => (Err 401, st)
  | Some caller =>
      let target := match id with
                    | None => Some None
                    | Some id => if str_eqb id [] || str_eqb id MASTER_ID then Some None
                                 else if existsb (fun o => str_eqb (og_id o) id) (mem (op_orgs st)) then Some (Some id)
                                 else None
                    end in
      match target with
      | None => (Err 404, st)
      | Some target =>
          match session_cookie hs (op_secure_cookies st) with
          | None => (Err 401, st)
          | Some token =>
              if negb (may_select caller target) then (Err 403, st)
              else (Ok (Selected target),
                    put_identities (set_selected_org sha256 ok token target (op_sessions st)).2 (op_users st) st)
          end
      end
  end.

(** [id] is the fresh identifier. *)
Definition orgs_create_handler (ok1 ok2 : bool) (id : str) (now : Z) (hs : headers) (name : str)
    (custom_name : option str) (hostnames : list str) (panel : option str) (st : OrgPanel) : result OrgReply Z * OrgPanel :=
  as_server_admin st now hs
    match normalize_allowlist hostnames with
    | None => (Err 400, st)
    | Some hostnames =>
        match check_panel_hostname st [] hostnames panel with
        | Err e => (Err e, st)
        | Ok panel =>
            let '(created, st1) :=
              match org_create ok1 id now name hostnames custom_name (op_orgs st), panel with
              | (Ok org, orgs), Some host =>
                  match set_panel_hostname ok2 (og_id org) (Some host) orgs with
                  | (Ok org, orgs) => (Ok org, apply_panels (put_orgs orgs st))
                  | (Err e, orgs) => (Err e, put_orgs orgs st)
                  end
              | (other, orgs), _ => (other, put_orgs orgs st)
              end in
            match created with
            | Ok org => (Ok (Updated org), audit_org (bs "org_created") (og_id org) st1)
            | Err e => (Err (org_error e), st1)
            end
        end
    end.

Definition orgs_custom_name_handler (ok : bool) (now : Z) (hs : headers) (id : str) (custom_name : option str)
    (st : OrgPanel) : result OrgReply Z * OrgPanel :=
  as_server_admin st now hs
    (if str_eqb id MASTER_ID then (Err 400, st)
     else match set_custom_name ok id custom_name (op_orgs st) with
          | (Ok _, orgs) => (Ok Done, audit_org (bs "org_renamed") id (put_orgs orgs st))
          | (Err e, orgs) => (Err (org_error e), put_orgs orgs st)
          end).

(** The panel a new fence no longer covers. *)
Definition stale_panel (orgs : OrgStore) (id : str) (fence : list str) : option str :=
  match org_find orgs id with
  | Some o => match og_panel_hostname o with
              | Some panel => if bool_decide (fence = []) || negb (hostname_in_org_allowlist panel fence)
                              then Some panel else None
              | None => None
              end
  | None => None
  end.

Definition orgs_hostnames_handler (ok1 ok2 : bool) (now : Z) (hs : headers) (id : str) (hostnames : list str)
    (st : OrgPanel) : result OrgReply Z * OrgPanel :=
  as_server_admin st now hs
    (if str_eqb id MASTER_ID then (Err 400, st)
     else match normalize_allowlist hostnames with
          | None => (Err 400, st)
          | Some fence =>
              let '(updated, orgs) := set_hostnames ok1 id fence (op_orgs st) in
              let st1 := put_orgs orgs st in
              let st2 := match stale_panel orgs id fence with
                         | Some _ => refresh_panel_hostnames (put_orgs (set_panel_hostname ok2 id None orgs).2 st1)
                         | None => st1
                         end in
              match updated with
              | Ok org =>
                  let '(cs, dropped) := apply_org_hostnames id fence (op_clients st2) in
                  (Ok (Updated org), audit_org (bs "org_hostnames_set") id (put_clients cs dropped st2))
              | Err e => (Err (org_error e), st2)
              end
          end).

Definition orgs_delete_handler (ok1 ok2 ok3 : bool) (now : Z) (hs : headers) (id : str) (st : OrgPanel) :
    result OrgReply Z * OrgPanel :=
  as_server_admin st now hs
    (if str_eqb id MASTER_ID then (Err 400, st)
     else
       let '(us, ts) := org_member_counts st (Some id) in
       if (0 <? us)%nat || (0 <? ts)%nat then (Err 409, st)
       else match org_delete ok1 id (op_orgs st) with
            | (Err e, orgs) => (Err (org_error e), put_orgs orgs st)
            | (Ok _, orgs) =>
                let st := put_orgs orgs st in
                let st := put_leftovers (filter (fun kf => mf_org kf.2 ≠ Some id) (op_flags st))
                                        (filter (fun r => r ≠ id) (op_runtimes st)) st in
                let st := put_identities (clear_selected_org ok2 id (op_sessions st)).2 (op_users st) st in
                let st := refresh_panel_hostnames st in
                let st := put_identities (op_sessions st) (remove_org_grants ok3 id (op_users st)).2 st in
                (Ok Done, audit_org (bs "org_deleted") id st)
            end).

Definition orgs_quota_handler (ok : bool) (now : Z) (hs : headers) (id : str)
    (max_clients max_tokens max_users max_bytes_month : option Z) (st : OrgPanel) : result OrgReply Z * OrgPanel :=
  as_server_admin st now hs
    (if str_eqb id MASTER_ID then (Err 400, st)
     else match set_quota ok id (to_opt max_clients) (to_opt max_tokens) (to_opt max_users) (to_opt max_bytes_month)
                  (op_orgs st) with
          | (Ok org, orgs) => (Ok (Updated org), audit_org (bs "org_quota_updated") id (put_orgs orgs st))
          | (Err e, orgs) => (Err (org_error e), put_orgs orgs st)
          end).

Definition orgs_oidc_handler (ok : bool) (now : Z) (hs : headers) (id : str) (p : OrgOidcRequest) (st : OrgPanel) :
    result OrgReply Z * OrgPanel :=
  as_server_admin st now hs
    (if str_eqb id MASTER_ID then (Err 400, st)
     else match oidc_of id (match org_find (op_orgs st) id with Some o => og_oidc o | None => None end) p with
          | Err e => (Err e, st)
          | Ok oidc =>
              let '(updated, orgs) := set_oidc ok id oidc (op_orgs st) in
              let st := put_orgs orgs st in
              let st := put_leftovers (op_flags st) (filter (fun r => r ≠ id) (op_runtimes st)) st in
              match updated with
              | Ok _ => (Ok (Configured id (is_some oidc)), audit_org (bs "org_oidc_updated") id st)
              | Err e => (Err (org_error e), st)
              end
          end).

(** The bytes are those of the month in the organization's statistics. *)
Definition orgs_usage_handler (now : Z) (hs : headers) (id : str) (bytes_sent bytes_received : Z) (st : OrgPanel) :
    result OrgReply Z * OrgPanel :=
  as_server_admin st now hs
    (let org := if str_eqb id MASTER_ID then None else Some id in
     let '(us, ts) := org_member_counts st org in
     let record := match org with Some o => org_find (op_orgs st) o | None => None end in
     (Ok (UsageReport (wrap64 (bytes_sent + bytes_received))
            (length (filter (fun ic => org_id (perms ic.2) = org) (op_clients st))) ts us record
            (match org with
             | Some _ => match record with Some o => og_panel_hostname o | None => None end
             | None => op_dashboard st
             end)), st)).

(** One request: what its writes answer, and the identifier a new record gets. *)
Record Turn : Type := { tn_ok1 : bool; tn_ok2 : bool; tn_ok3 : bool; tn_id : str; tn_now : Z; tn_headers : headers }.

Definition serve_org (t : Turn) (r : OrgRequest) (st : OrgPanel) : result OrgReply Z * OrgPanel :=
  let now := tn_now t in
  let hs := tn_headers t in
  match r with
  | ListOrgs => orgs_list_handler now hs st
  | SetPanel id hostname => orgs_panel_handler (tn_ok1 t) now hs id hostname st
  | SelectOrg id => orgs_select_handler (tn_ok1 t) now hs id st
  | CreateOrg name custom hostnames panel => orgs_create_handler (tn_ok1 t) (tn_ok2 t) (tn_id t) now hs name custom hostnames panel st
  | RenameOrg id custom => orgs_custom_name_handler (tn_ok1 t) now hs id custom st
  | SetHostnames id hostnames => orgs_hostnames_handler (tn_ok1 t) (tn_ok2 t) now hs id hostnames st
  | DeleteOrg id => orgs_delete_handler (tn_ok1 t) (tn_ok2 t) (tn_ok3 t) now hs id st
  | SetQuota id c k u b => orgs_quota_handler (tn_ok1 t) now hs id c k u b st
  | SetOidc id p => orgs_oidc_handler (tn_ok1 t) now hs id p st
  | Usage id sent received => orgs_usage_handler now hs id sent received st
  end.

(** ** Sound over any run *)

(** Whether every panel is asked to be inside its organization's allowlist: a change of
    the allowlist and the clearing of the panel it leaves outside are two writes. *)
Context (fenced : bool).

Record org_world_ok (st : OrgPanel) : Prop := {
  world_orgs : orgs_ok fenced (op_dashboard st) (mem (op_orgs st));
  world_saved : table (op_orgs st) = mem (op_orgs st);
  world_panels : panel_hostnames (op_cfg st) = panel_set (op_dashboard st) (op_orgs st);
}.

(** One request served, or anything else the server does: other components
    change connections, users, sessions and settings, never the organizations,
    the panel set or the dashboard's hostname. The identifier of a new record is
    unused and not the reserved one; in a [fenced] run the second write of a request
    succeeds if the first did. *)
Inductive org_step : OrgPanel → OrgPanel → Prop :=
| Served t r st :
    tn_id t ∉ og_id <$> mem (op_orgs st) → tn_id t ≠ MASTER_ID ∧ tn_id t ≠ [] → (fenced = true → tn_ok1 t = true → tn_ok2 t = true) →
    org_step st (serve_org t r st).2
| Elsewhere st st' :
    op_orgs st' = op_orgs st → op_dashboard st' = op_dashboard st →
    panel_hostnames (op_cfg st') = panel_hostnames (op_cfg st) → org_step st st'.

Inductive org_run : OrgPanel → Prop :=
| Booted st rows :
    op_orgs st = org_load rows → orgs_ok fenced (op_dashboard st) rows → org_run (refresh_panel_hostnames st)
| Ran st st' : org_run st → org_step st st' → org_run st'.

(** What a request does to the part of the state that matters here. *)
Definition org_view (st : OrgPanel) : OrgStore * option str * list str := (op_orgs st, op_dashboard st, panel_hostnames (op_cfg st)).

Lemma world_ok_view st st' : org_view st' = org_view st → org_world_ok st → org_world_ok st'.
Proof. unfold org_view. intros [= E1 E2 E3] [H1 H2 H3]. split; by rewrite ?E1, ?E2, ?E3. Qed.

Lemma world_ok_refreshed st st' :
  orgs_ok fenced (op_dashboard st) (mem (op_orgs st')) → table (op_orgs st') = mem (op_orgs st') →
  op_dashboard st' = op_dashboard st → panel_hostnames (op_cfg st') = panel_set (op_dashboard st) (op_orgs st') →
  org_world_ok st'.
Proof. intros H1 H2 H3 H4. split; by rewrite ?H3. Qed.

Lemma as_admin_ok {A} st now hs (k : result A Z * OrgPanel) (P : OrgPanel → Prop) : P st → P k.2 → P (as_server_admin st now hs k).2.
Proof. unfold as_server_admin. by destruct (require_server_admin _ _ _ _). Qed.

(** *** Each operation keeps the records sound *)

Lemma modify_saved ok id f s r s' : org_modify ok id f s = (r, s') → table s = mem s → table s' = mem s'.
Proof. rewrite org_modify_spec. destruct (org_find s id), ok; intros [= _ <-]; done. Qed.

(** A change that leaves the identity, the fence and the panel of its record. *)
Lemma modify_plain d ok id f s r s' :
  org_modify ok id f s = (r, s') →
  (∀ o, og_id (f o) = og_id o ∧ og_name (f o) = og_name o ∧ og_hostnames (f o) = og_hostnames o
        ∧ og_panel_hostname (f o) = og_panel_hostname o) →
  orgs_ok fenced d (mem s) → orgs_ok fenced d (mem s') ∧ org_panels s' = org_panels s.
Proof.
  intros E Hf H. rewrite org_modify_spec in E. destruct (org_find s id) as [o|] eqn:Eo, ok; simplify_eq/=; try done.
  assert (Ep : omap og_panel_hostname (modify_row og_id id f (mem s)) = omap og_panel_hostname (mem s))
    by (apply modify_omap; apply Hf).
  split; [|exact Ep]. apply orgs_ok_modify; [done|intros o'; destruct (Hf o') as (? & ? & _); done| |by rewrite Ep; apply H].
  intros o' E p. destruct (Hf o') as (_ & _ & Hh & Hp). rewrite Hp, Hh. apply find_row_Some in E as [E _].
  pose proof (panels_ok _ _ _ H) as Hall. rewrite Forall_forall in Hall. by apply Hall.
Qed.

Lemma omap_unique {A B} (g : A → option B) l x y v :
  NoDup (omap g l) → x ∈ l → y ∈ l → g x = Some v → g y = Some v → x = y.
Proof.
  intros Hn Hx Hy Ex Ey. induction l as [|a l IH]; [set_solver|]. csimpl in Hn.
  assert (Hl : ∀ z, z ∈ l → g z = Some v → g a ≠ Some v).
  { intros z Hz E Ea. rewrite Ea in Hn. apply NoDup_cons in Hn as [Hv _]. apply Hv, list_elem_of_omap. eauto. }
  apply elem_of_cons in Hx as [->|Hx], Hy as [->|Hy]; [done|naive_solver|naive_solver|].
  apply IH; [|done..]. destruct (g a); [by apply NoDup_cons in Hn as [_ Hn]|done].
Qed.

(** What a checked panel hostname is. *)
Definition panel_free (st : OrgPanel) (id : str) (fence : list str) (host : str) : Prop :=
  (∃ raw, normalize_panel_hostname raw = Some host) ∧ fence ≠ [] ∧ hostname_in_org_allowlist host fence = true
  ∧ op_dashboard st ≠ Some host ∧ (∀ o, o ∈ mem (op_orgs st) → og_id o ≠ id → og_panel_hostname o ≠ Some host)
  ∧ clients_serving_outside id host (op_clients st) = 0%nat.

Lemma check_panel_free st id fence raw host :
  orgs_ok fenced (op_dashboard st) (mem (op_orgs st)) → check_panel_hostname st id fence raw = Ok (Some host) →
  panel_free st id fence host.
Proof.
  intros Hok E. unfold check_panel_hostname in E. cbv zeta in E.
  destruct (match raw with Some r => _ | None => _ end) as [r|]; [|done].
  destruct (normalize_panel_hostname r) as [h|] eqn:En; [|done].
  destruct (bool_decide (fence = [])) eqn:Ef; [done|]. destruct (hostname_in_org_allowlist h fence) eqn:Ea; [|done]. simpl in E.
  destruct (bool_decide (op_dashboard st = Some h)) eqn:Ed; [done|].
  destruct (match panel_org_for _ _ with Some o => _ | None => _ end) eqn:Et; [done|].
  destruct (0 <? _)%nat eqn:Ec; [done|]. injection E as <-.
  apply bool_decide_eq_false in Ef, Ed. apply Nat.ltb_ge in Ec. unfold panel_free.
  split; [by exists r|]. do 3 (split; [done|]). split; [|lia]. intros o Ho Hid Hp.
  unfold panel_org_for in Et. destruct (find _ _) as [o0|] eqn:E0.
  - apply find_some in E0 as [H0 Hp0]. apply bool_decide_eq_true in Hp0. apply list_elem_of_In in H0.
    apply negb_false_iff, str_eqb_eq in Et. apply Hid. rewrite <- Et. f_equal.
    by eapply omap_unique; [apply Hok|done..].
  - apply list_elem_of_In in Ho. apply (find_none _ _ E0) in Ho. by apply bool_decide_eq_false in Ho.
Qed.

Lemma set_panel_ok d ok id host s r s' fence :
  set_panel_hostname ok id host s = (r, s') → orgs_ok fenced d (mem s) →
  (∀ o, org_find s id = Some o → og_hostnames o = fence) →
  (∀ h, host = Some h → (∃ raw, normalize_panel_hostname raw = Some h) ∧ fence ≠ []
        ∧ hostname_in_org_allowlist h fence = true ∧ d ≠ Some h
        ∧ ∀ o, o ∈ mem s → og_id o ≠ id → og_panel_hostname o ≠ Some h) →
  orgs_ok fenced d (mem s').
Proof.
  intros E H Hf Hh. unfold set_panel_hostname in E. rewrite org_modify_spec in E.
  destruct (org_find s id) as [o|] eqn:Eo, ok; simplify_eq/=; try done.
  apply orgs_ok_modify; [done|by intros; split| |].
  - intros o' E p Hp. simpl in *. unfold org_find in Eo. rewrite E in Eo. rewrite (Hf o') by congruence. apply Hh in Hp. naive_solver.
  - destruct host as [h|].
    + eapply (modify_omap_fresh og_id og_panel_hostname id _ h); [apply H|apply H|done|]. by apply Hh.
    + eapply sublist_NoDup; [apply (panels_unique _ _ _ H)|]. by apply modify_omap_none.
Qed.

Lemma org_create_ok d ok id now name hosts custom s r s' :
  org_create ok id now name hosts custom s = (r, s') → orgs_ok fenced d (mem s) → id ∉ og_id <$> mem s → id ≠ MASTER_ID ∧ id ≠ [] →
  orgs_ok fenced d (mem s') ∧ (table s = mem s → table s' = mem s') ∧ org_panels s' = org_panels s
  ∧ ∀ o, r = Ok o → og_id o = id ∧ og_hostnames o = hosts ∧ mem s' = mem s ++ [o].
Proof.
  intros E H Hid Hm. unfold org_create in E. cbv zeta in E.
  destruct (str_eqb (trim name) []); [by simplify_eq|]. destruct (eq_ignore_case (trim name) _) eqn:Em; [by simplify_eq|].
  destruct (validate_name (trim name)) eqn:Ev; simpl in E; [|by simplify_eq].
  destruct (existsb _ _) eqn:Ex; [by simplify_eq|]. rewrite org_commit_spec in E. destruct ok; [|by simplify_eq].
  apply pair_eq in E as [<- <-]. simpl. split; [|split; [done|split; [|by intros o [= <-]]]].
  - apply orgs_ok_create; [done..| |done|done]. unfold name_ok. simpl. by rewrite trim_idem.
  - unfold org_panels. simpl. rewrite omap_app. csimpl. by rewrite app_nil_r.
Qed.

Lemma org_delete_ok d ok id s r s' :
  org_delete ok id s = (r, s') → orgs_ok fenced d (mem s) →
  orgs_ok fenced d (mem s') ∧ (table s = mem s → table s' = mem s') ∧ (r = Ok tt → mem s' = filter (fun o => og_id o ≠ id) (mem s)).
Proof.
  intros E H. unfold org_delete in E. destruct (negb _); [by simplify_eq|]. rewrite org_commit_spec in E.
  destruct ok; [|by simplify_eq]. apply pair_eq in E as [<- <-]. simpl. split; [|done].
  eapply orgs_ok_sublist; [|done]. apply sublist_filter.
Qed.

(** *** Each request keeps the state sound *)

(** The parts the handlers touch, as the invariant sees them. *)
Lemma view_audit event id st : org_view (audit_org event id st) = org_view st.
Proof. done. Qed.

Lemma world_plain st s : orgs_ok fenced (op_dashboard st) (mem s) → table s = mem s → org_panels s = org_panels (op_orgs st) →
  org_world_ok st → org_world_ok (put_orgs s st).
Proof. intros H1 H2 H3 [_ _ H]. split; [done..|]. simpl. unfold panel_set. by rewrite H3. Qed.

Lemma world_modified st ok id f r s :
  org_modify ok id f (op_orgs st) = (r, s) →
  (∀ o, og_id (f o) = og_id o ∧ og_name (f o) = og_name o ∧ og_hostnames (f o) = og_hostnames o
        ∧ og_panel_hostname (f o) = og_panel_hostname o) →
  org_world_ok st → org_world_ok (put_orgs s st).
Proof.
  intros E Hf H. destruct (modify_plain (op_dashboard st) _ _ _ _ _ _ E Hf (world_orgs _ H)) as [H1 H2].
  apply world_plain; [done| |done..]. by eapply modify_saved; [|apply H].
Qed.

Lemma panel_handler_sound ok now hs id hostname st :
  org_world_ok st → org_world_ok (orgs_panel_handler ok now hs id hostname st).2.
Proof.
  intros H. unfold orgs_panel_handler. destruct (org_caller st now hs) as [c|]; [|done].
  destruct (str_eqb id MASTER_ID); [done|]. destruct (negb _); [done|].
  destruct (org_find (op_orgs st) id) as [org|] eqn:Eo; [|done].
  destruct (check_panel_hostname _ _ _ _) as [host|] eqn:Ec; [|done].
  destruct (set_panel_hostname ok id host (op_orgs st)) as [r s] eqn:E.
  assert (Ho : orgs_ok fenced (op_dashboard st) (mem s)).
  { eapply set_panel_ok; [exact E|apply H|intros o; rewrite Eo; by intros [= <-]|]. intros h ->.
    destruct (check_panel_free _ _ _ _ _ (world_orgs _ H) Ec) as (? & ? & ? & ? & ? & _). done. }
  assert (Hs : table s = mem s) by (eapply modify_saved; [exact E|apply H]).
  destruct r as [o|e].
  - by eapply (world_ok_refreshed st).
  - apply org_modify_err in E as ->. by apply (world_ok_view st).
Qed.

Lemma create_handler_sound ok1 ok2 id now hs name custom hosts panel st :
  org_world_ok st → id ∉ og_id <$> mem (op_orgs st) → id ≠ MASTER_ID ∧ id ≠ [] →
  org_world_ok (orgs_create_handler ok1 ok2 id now hs name custom hosts panel st).2.
Proof.
  intros H Hid Hm. apply (as_admin_ok _ _ _ _ org_world_ok); [done|]. destruct (normalize_allowlist hosts) as [fence|]; [|done].
  destruct (check_panel_hostname st [] fence panel) as [host|] eqn:Ec; [|done].
  destruct (org_create _ _ _ _ _ _ _) as [r s] eqn:E.
  destruct (org_create_ok (op_dashboard st) _ _ _ _ _ _ _ _ _ E (world_orgs _ H) Hid Hm) as (H1 & H2 & H3 & H4).
  specialize (H2 (world_saved _ H)).
  assert (Hplain : org_world_ok (put_orgs s st)) by by apply world_plain.
  destruct r as [o|e]; [|by destruct host]. destruct host as [host|]; [|by apply (world_ok_view (put_orgs s st))].
  destruct (H4 o eq_refl) as (Ei & Eh & Em).
  destruct (set_panel_hostname ok2 (og_id o) (Some host) s) as [r s'] eqn:E'.
  assert (Ho : orgs_ok fenced (op_dashboard st) (mem s')).
  { eapply set_panel_ok; [exact E'|done| |].
    - intros o'. unfold org_find. rewrite find_row_unique; [by intros [= <-]; exact Eh|apply H1|rewrite Em; set_solver].
    - intros h [= <-]. destruct (check_panel_free _ _ _ _ _ (world_orgs _ H) Ec) as (? & ? & ? & ? & Hfree & _).
      do 4 (split; [done|]). intros o' Ho' Hne. rewrite Em in Ho'. apply elem_of_app in Ho' as [Ho'|Ho'].
      + apply Hfree; [done|]. pose proof (ids_not_reserved _ _ _ (world_orgs _ H)) as Hr. rewrite Forall_forall in Hr. by apply Hr.
      + apply list_elem_of_singleton in Ho' as ->. done. }
  assert (Hs : table s' = mem s') by (by eapply modify_saved; [exact E'|]).
  destruct r as [o'|e].
  - by eapply (world_ok_refreshed st).
  - apply org_modify_err in E' as ->. by apply (world_ok_view (put_orgs s st)).
Qed.

(** A new fence leaves no panel outside it once the panel's own write is in. *)
Lemma refenced_ok d ok1 ok2 id fence s r s1 :
  orgs_ok fenced d (mem s) → set_hostnames ok1 id fence s = (r, s1) → (fenced = true → ok1 = true → ok2 = true) →
  orgs_ok fenced d (mem (match stale_panel s1 id fence with Some _ => (set_panel_hostname ok2 id None s1).2 | None => s1 end)).
Proof.
  intros H E Hok. unfold set_hostnames in E. rewrite org_modify_spec in E.
  destruct (org_find s id) as [o|] eqn:Eo.
  2:{ simplify_eq. unfold stale_panel. by rewrite Eo. }
  destruct ok1.
  2:{ simplify_eq. destruct (stale_panel s1 id fence); [|done].
      destruct (set_panel_hostname ok2 id None s1) as [r s2] eqn:E2. eapply (set_panel_ok d _ _ _ _ _ _ (og_hostnames o)); [done..| |done].
      intros o'. rewrite Eo. by intros [= <-]. }
  apply pair_eq in E as [_ <-]. set (f := fun o => og_with_hostnames o fence).
  assert (Ef : find_row og_id id (modify_row og_id id f (mem s)) = Some (f o)).
  { unfold org_find in Eo. apply find_row_modify; [done|exact Eo]. }
  unfold stale_panel, org_find. simpl. rewrite Ef. simpl.
  assert (Hk : omap og_panel_hostname (modify_row og_id id f (mem s)) = omap og_panel_hostname (mem s)) by (by apply modify_omap).
  assert (Hplain : ∀ p, og_panel_hostname o = Some p →
            (fenced = true → fence ≠ [] ∧ hostname_in_org_allowlist p fence = true) → panel_ok fenced d (f o)).
  { intros p Hp Ha q Hq. simpl in *. assert (q = p) as -> by congruence.
    apply find_row_Some in Eo as [Eo _]. pose proof (panels_ok _ _ _ H) as Hall. rewrite Forall_forall in Hall.
    destruct (Hall o Eo p Hp) as (? & ? & _). done. }
  assert (Hmod : panel_ok fenced d (f o) → orgs_ok fenced d (modify_row og_id id f (mem s))).
  { intros Hp. apply orgs_ok_modify; [done|by intros; split| |rewrite Hk; apply H].
    intros o' E. unfold org_find in Eo. assert (o' = o) as -> by congruence. done. }
  destruct (og_panel_hostname o) as [p|] eqn:Ep.
  - destruct (bool_decide (fence = []) || negb (hostname_in_org_allowlist p fence)) eqn:Es.
    + unfold set_panel_hostname. rewrite org_modify_spec. unfold org_find. simpl. rewrite Ef.
      destruct ok2; [|apply Hmod, (Hplain p); [done|]; intros Ht; by specialize (Hok Ht eq_refl)]. simpl.
      rewrite modify_modify by done. apply orgs_ok_modify; [done|by intros; split|by intros o' _ q|].
      eapply sublist_NoDup; [apply (panels_unique _ _ _ H)|]. by apply modify_omap_none.
    + to_prop. apply Hmod. by apply (Hplain p).
  - apply Hmod. intros q Hq. simpl in Hq. congruence.
Qed.

Lemma refenced_saved ok1 ok2 id fence s r s1 :
  table s = mem s → set_hostnames ok1 id fence s = (r, s1) →
  let s2 := match stale_panel s1 id fence with Some _ => (set_panel_hostname ok2 id None s1).2 | None => s1 end in
  table s2 = mem s2.
Proof.
  intros H E. pose proof (modify_saved _ _ _ _ _ _ E H) as H1. simpl. destruct (stale_panel s1 id fence); [|done].
  destruct (set_panel_hostname ok2 id None s1) as [r' s2] eqn:E2. by eapply modify_saved.
Qed.

Lemma hostnames_handler_sound ok1 ok2 now hs id hosts st :
  org_world_ok st → (fenced = true → ok1 = true → ok2 = true) → org_world_ok (orgs_hostnames_handler ok1 ok2 now hs id hosts st).2.
Proof.
  intros H Hok. apply (as_admin_ok _ _ _ _ org_world_ok); [done|]. destruct (str_eqb id MASTER_ID); [done|].
  destruct (normalize_allowlist hosts) as [fence|]; [|done].
  destruct (set_hostnames ok1 id fence (op_orgs st)) as [r s] eqn:E.
  pose proof (refenced_ok (op_dashboard st) ok1 ok2 id fence _ r s (world_orgs _ H) E Hok) as H1.
  pose proof (refenced_saved ok1 ok2 id fence _ r s (world_saved _ H) E) as H2. simpl in H2.
  assert (Hw : org_world_ok (match stale_panel s id fence with
                             | Some _ => refresh_panel_hostnames (put_orgs (set_panel_hostname ok2 id None s).2 (put_orgs s st))
                             | None => put_orgs s st end)).
  { destruct (stale_panel s id fence).
    - by eapply (world_ok_refreshed st).
    - apply world_plain; [done..| |done]. unfold set_hostnames in E. rewrite org_modify_spec in E.
      destruct (org_find (op_orgs st) id), ok1; simplify_eq; try done. unfold org_panels. simpl. by rewrite modify_omap. }
  cbv zeta. destruct r as [o|e]; [|exact Hw]. by eapply world_ok_view, Hw.
Qed.

Lemma delete_handler_sound ok1 ok2 ok3 now hs id st :
  org_world_ok st → org_world_ok (orgs_delete_handler ok1 ok2 ok3 now hs id st).2.
Proof.
  intros H. apply (as_admin_ok _ _ _ _ org_world_ok); [done|]. destruct (str_eqb id MASTER_ID); [done|].
  destruct (org_member_counts st (Some id)) as [us ts]. destruct (_ || _); [done|].
  destruct (org_delete ok1 id (op_orgs st)) as [r s] eqn:E.
  destruct (org_delete_ok (op_dashboard st) _ _ _ _ _ E (world_orgs _ H)) as (H1 & H2 & _). specialize (H2 (world_saved _ H)).
  destruct r as [[]|e].
  - by eapply (world_ok_refreshed st).
  - apply world_plain; [done..| |done]. unfold org_delete in E. destruct (negb _); [by simplify_eq|].
    rewrite org_commit_spec in E. destruct ok1; by simplify_eq.
Qed.

Lemma serve_sound t r st :
  org_world_ok st → tn_id t ∉ og_id <$> mem (op_orgs st) → tn_id t ≠ MASTER_ID ∧ tn_id t ≠ [] →
  (fenced = true → tn_ok1 t = true → tn_ok2 t = true) → org_world_ok (serve_org t r st).2.
Proof.
  intros H Hid Hm Hok. destruct r as [|id host|id|name custom hosts panel|id custom|id hosts|id|id c k u b|id p|id a b]; simpl.
  - by apply (as_admin_ok _ _ _ _ org_world_ok).
  - by apply panel_handler_sound.
  - unfold orgs_select_handler. destruct (org_caller _ _ _); [|done]. cbv zeta.
    destruct (match id with Some _ => _ | None => _ end); [|done]. destruct (session_cookie _ _); [|done].
    destruct (negb _); [done|]. by apply (world_ok_view st).
  - by apply create_handler_sound.
  - apply (as_admin_ok _ _ _ _ org_world_ok); [done|]. destruct (str_eqb id MASTER_ID); [done|].
    destruct (set_custom_name _ _ _ _) as [[o|e] s] eqn:E; apply world_modified in E; try done; by apply (world_ok_view (put_orgs s st)).
  - by apply hostnames_handler_sound.
  - by apply delete_handler_sound.
  - apply (as_admin_ok _ _ _ _ org_world_ok); [done|]. destruct (str_eqb id MASTER_ID); [done|].
    destruct (set_quota _ _ _ _ _ _ _) as [[o|e] s] eqn:E; apply world_modified in E; try done; by apply (world_ok_view (put_orgs s st)).
  - apply (as_admin_ok _ _ _ _ org_world_ok); [done|]. destruct (str_eqb id MASTER_ID); [done|].
    destruct (oidc_of _ _ _); [|done].
    destruct (set_oidc _ _ _ _) as [[o|e] s] eqn:E; apply world_modified in E; try done; by apply (world_ok_view (put_orgs s st)).
  - by apply (as_admin_ok _ _ _ _ org_world_ok).
Qed.

(** C9: Over any run of organization requests served one after another, mixed with
    whatever else the server does and whatever its writes answer, the records stay sound:
    identifiers and names (compared without case) are unique, no name is the reserved one
    or unusable in [<org>@<tunnel>], every panel is a usable hostname that belongs to one
    organization only and is not the server's own, what the dashboard shows is what a
    restart reads, and the set that binds and requests are checked against is exactly the
    panels of the records and the server's. Where moreover the second write of a request
    succeeds whenever its first did ([fenced]), every panel is inside its own
    organization's allowlist. *)
Theorem organizations_stay_sound st :
  org_run st →
  orgs_ok fenced (op_dashboard st) (mem (op_orgs st)) ∧ table (op_orgs st) = mem (op_orgs st)
  ∧ panel_hostnames (op_cfg st) = panel_set (op_dashboard st) (op_orgs st).
Proof.
  intros H. assert (Hw : org_world_ok st); [|by destruct Hw].
  induction H as [st rows E Hok|st st' _ IH Hst].
  - split; simpl; by rewrite ?E.
  - destruct Hst as [t r st Hid Hm Hok|st st' E1 E2 E3]; [by apply serve_sound|].
    apply (world_ok_view st); [|done]. unfold org_view. by rewrite E1, E2, E3.
Qed.

(** ** Who changes what *)

(** The organization a request is about. *)
Definition names_org (t : Turn) (r : OrgRequest) (o : str) : Prop :=
  match r with
  | SetPanel id _ | RenameOrg id _ | SetHostnames id _ | DeleteOrg id | SetQuota id _ _ _ _ | SetOidc id _ => id = o
  | CreateOrg _ _ _ _ => tn_id t = o
  | ListOrgs | SelectOrg _ | Usage _ _ _ => False
  end.

Definition changed (o : str) (st st' : OrgPanel) : Prop := org_find (op_orgs st') o ≠ org_find (op_orgs st) o.

Lemma require_admin_caller st now hs :
  require_server_admin sha256 (auth_of st) now hs = Ok tt →
  ∃ c, org_caller st now hs = Some c ∧ caller_is_server_admin c = true.
Proof.
  unfold require_server_admin, org_caller. destruct (dashboard_role _ _ _ _); [|done].
  destruct (resolve_caller _ _ _ _) as [c|]; [|done]. destruct (caller_is_server_admin c) eqn:E; [eauto|done].
Qed.

Lemma as_admin_changed {A} o st now hs (k : result A Z * OrgPanel) :
  changed o st (as_server_admin st now hs k).2 →
  (∃ c, org_caller st now hs = Some c ∧ caller_is_server_admin c = true) ∧ changed o st k.2.
Proof.
  unfold as_server_admin. destruct (require_server_admin _ _ _ _) as [[]|] eqn:E; [|by intros []].
  intros H. split; [by apply require_admin_caller|done].
Qed.

Lemma modify_changed o ok id f s r s' :
  org_modify ok id f s = (r, s') → (∀ x, og_id (f x) = og_id x) → org_find s' o ≠ org_find s o → id = o.
Proof.
  rewrite org_modify_spec. intros E Hf H. destruct (decide (o = id)) as [->|Hne]; [done|]. destruct H.
  destruct (org_find s id) as [x|] eqn:Ex, ok; simplify_eq/=; try done. unfold org_find. simpl.
  by apply find_row_modify_other.
Qed.

Lemma find_row_other (l : list Organization) x o : og_id x ≠ o → find_row og_id o (l ++ [x]) = find_row og_id o l.
Proof.
  intros H. unfold find_row. induction l as [|a l IH]; simpl.
  - destruct (has_id og_id o x) eqn:E; [|done]. by apply has_id_spec in E.
  - by destruct (has_id og_id o a).
Qed.

Lemma find_row_filter_other (l : list Organization) id o :
  o ≠ id → find_row og_id o (filter (fun x => og_id x ≠ id) l) = find_row og_id o l.
Proof.
  intros H. unfold find_row. induction l as [|a l IH]; [done|]. rewrite filter_cons. simpl.
  destruct (has_id og_id o a) eqn:E.
  - apply has_id_spec in E. rewrite decide_True by congruence. simpl. unfold has_id. rewrite E, str_eqb_refl. done.
  - destruct (decide _); simpl; [by rewrite E|done].
Qed.

Lemma create_changed o ok id now name hosts custom s r s' :
  org_create ok id now name hosts custom s = (r, s') → org_find s' o ≠ org_find s o → id = o.
Proof.
  unfold org_create. cbv zeta. intros E H. destruct (str_eqb _ []); [by simplify_eq|].
  destruct (eq_ignore_case _ _); [by simplify_eq|]. destruct (negb _); [by simplify_eq|].
  destruct (existsb _ _); [by simplify_eq|]. rewrite org_commit_spec in E. destruct ok; [|by simplify_eq].
  apply pair_eq in E as [_ <-]. destruct (decide (id = o)); [done|]. destruct H. unfold org_find. simpl.
  by rewrite find_row_other.
Qed.

Lemma delete_changed o ok id s r s' : org_delete ok id s = (r, s') → org_find s' o ≠ org_find s o → id = o.
Proof.
  unfold org_delete. intros E H. destruct (negb _); [by simplify_eq|]. rewrite org_commit_spec in E.
  destruct ok; [|by simplify_eq]. apply pair_eq in E as [_ <-]. destruct (decide (o = id)); [done|]. destruct H.
  unfold org_find. simpl. by apply find_row_filter_other.
Qed.

Lemma create_id ok id now name hosts custom s x s' :
  org_create ok id now name hosts custom s = (Ok x, s') → og_id x = id.
Proof.
  unfold org_create. cbv zeta. destruct (str_eqb _ []); [done|]. destruct (eq_ignore_case _ _); [done|].
  destruct (negb _); [done|]. destruct (existsb _ _); [done|]. rewrite org_commit_spec. destruct ok; [|done].
  by intros [= <- _].
Qed.

Lemma stale_panel_changed o ok id fence s1 :
  org_find (match stale_panel s1 id fence with Some _ => (set_panel_hostname ok id None s1).2 | None => s1 end) o
  ≠ org_find s1 o → id = o.
Proof.
  destruct (stale_panel s1 id fence); [|done]. destruct (set_panel_hostname ok id None s1) as [r s2] eqn:E. simpl.
  by apply (modify_changed _ _ _ _ _ _ _ E).
Qed.

Lemma create_handler_changed o ok1 ok2 id now hs name custom hosts panel st :
  changed o st (orgs_create_handler ok1 ok2 id now hs name custom hosts panel st).2 →
  (∃ c, org_caller st now hs = Some c ∧ caller_is_server_admin c = true) ∧ id = o.
Proof.
  intros [Hc H]%as_admin_changed. split; [done|]. unfold changed in H.
  destruct (normalize_allowlist hosts) as [fence|]; [|by destruct H].
  destruct (check_panel_hostname st [] fence panel) as [host|]; [|by destruct H].
  destruct (org_create _ _ _ _ _ _ _) as [r s] eqn:E.
  destruct (decide (id = o)) as [|Hne]; [done|].
  assert (Hs : org_find s o = org_find (op_orgs st) o).
  { destruct (decide (org_find s o = org_find (op_orgs st) o)) as [|H']; [done|]. destruct Hne. by eapply create_changed. }
  destruct r as [x|e]; [|by destruct host]. destruct host as [host|]; [|by destruct H].
  destruct (set_panel_hostname ok2 (og_id x) (Some host) s) as [r s'] eqn:E'.
  assert (Hx : og_id x = id) by (by eapply create_id).
  exfalso. apply Hne. rewrite <- Hx. eapply (modify_changed _ _ _ _ _ _ _ E'); [done|]. rewrite Hs. by destruct r.
Qed.

Lemma hostnames_handler_changed o ok1 ok2 now hs id hosts st :
  changed o st (orgs_hostnames_handler ok1 ok2 now hs id hosts st).2 →
  (∃ c, org_caller st now hs = Some c ∧ caller_is_server_admin c = true) ∧ id = o.
Proof.
  intros [Hc H]%as_admin_changed. split; [done|]. unfold changed in H. destruct (str_eqb id MASTER_ID); [by destruct H|].
  destruct (normalize_allowlist hosts) as [fence|]; [|by destruct H].
  destruct (set_hostnames ok1 id fence (op_orgs st)) as [r s] eqn:E.
  destruct (decide (id = o)) as [|Hne]; [done|]. destruct H.
  assert (H1 : org_find s o = org_find (op_orgs st) o).
  { destruct (decide (org_find s o = org_find (op_orgs st) o)) as [|H']; [done|]. destruct Hne.
    by eapply (modify_changed _ _ _ _ _ _ _ E). }
  rewrite <- H1. destruct (decide (org_find (match stale_panel s id fence with
    | Some _ => (set_panel_hostname ok2 id None s).2 | None => s end) o = org_find s o)) as [H2|H2].
  - rewrite <- H2. by destruct r, (stale_panel s id fence).
  - destruct Hne. by eapply stale_panel_changed.
Qed.

Lemma delete_handler_changed o ok1 ok2 ok3 now hs id st :
  changed o st (orgs_delete_handler ok1 ok2 ok3 now hs id st).2 →
  (∃ c, org_caller st now hs = Some c ∧ caller_is_server_admin c = true) ∧ id = o.
Proof.
  intros [Hc H]%as_admin_changed. split; [done|]. unfold changed in H. destruct (str_eqb id MASTER_ID); [by destruct H|].
  destruct (org_member_counts st (Some id)) as [us ts]. destruct (_ || _); [by destruct H|].
  destruct (org_delete ok1 id (op_orgs st)) as [r s] eqn:E. eapply (delete_changed _ _ _ _ _ _ E). by destruct r as [[]|].
Qed.

Lemma panel_handler_changed o ok now hs id hostname st st' :
  st' = (orgs_panel_handler ok now hs id hostname st).2 → changed o st st' →
  id = o ∧ ∃ c before host,
    org_caller st now hs = Some c ∧ caller_role_in c (Some o) = Some Admin
    ∧ org_find (op_orgs st) o = Some before ∧ org_find (op_orgs st') o = Some (og_with_panel before host).
Proof.
  intros -> H. unfold orgs_panel_handler, changed in *. destruct (org_caller st now hs) as [c|]; [|by destruct H].
  destruct (str_eqb id MASTER_ID); [by destruct H|].
  destruct (bool_decide (caller_role_in c (Some id) = Some Admin)) eqn:Er; simpl in *; [|by destruct H].
  apply bool_decide_eq_true in Er. destruct (org_find (op_orgs st) id) as [b|] eqn:Eb; [|by destruct H].
  destruct (check_panel_hostname _ _ _ _) as [host|]; [|by destruct H].
  destruct (set_panel_hostname ok id host (op_orgs st)) as [r s] eqn:E.
  assert (id = o) as <-.
  { eapply (modify_changed _ _ _ _ _ _ _ E); [done|]. by destruct r. }
  split; [done|]. exists c, b, host. do 3 (split; [done|]). destruct r as [x|e].
  - apply org_modify_ok in E as (_ & b' & Eb' & -> & Em). unfold org_find. simpl. rewrite Em.
    apply (find_row_modify og_id id (fun x => og_with_panel x host)); [done|]. exact Eb.
  - apply org_modify_err in E as ->. by rewrite Eb in H.
Qed.

(** C10: An organization's record changes, appears or disappears only by a request that
    names it, made by a server administrator; or by an Admin of that very
    organization asking for its panel, and then nothing but the panel changes. *)
Theorem org_change_authorized t r st o :
  changed o st (serve_org t r st).2 →
  names_org t r o
  ∧ ∃ c, org_caller st (tn_now t) (tn_headers t) = Some c
  ∧ (caller_is_server_admin c = true
     ∨ caller_role_in c (Some o) = Some Admin ∧ ∃ hostname before host,
         r = SetPanel o hostname ∧ org_find (op_orgs st) o = Some before
         ∧ org_find (op_orgs (serve_org t r st).2) o = Some (og_with_panel before host)).
Proof.
  intros H. destruct r as [|id hn|id|name custom hosts panel|id custom|id hosts|id|id c k u b|id p|id a b]; simpl in *.
  - apply as_admin_changed in H as [_ []]. done.
  - eapply panel_handler_changed in H as (<- & c & b & host & Hc & Hr & Hb & Ha); [|done].
    split; [done|]. exists c. split; [done|]. right. split; [done|]. by exists hn, b, host.
  - exfalso. unfold orgs_select_handler, changed in H. destruct (org_caller _ _ _); [|by destruct H]. cbv zeta in H.
    destruct (match id with Some _ => _ | None => _ end); [|by destruct H]. destruct (session_cookie _ _); [|by destruct H].
    destruct (negb _); by destruct H.
  - apply create_handler_changed in H as [(c & Hc & Ha) <-]. eauto.
  - apply as_admin_changed in H as [(c & Hc & Ha) H]. unfold changed in H. destruct (str_eqb id MASTER_ID); [by destruct H|].
    destruct (set_custom_name _ _ _ _) as [r s] eqn:E. split; [|eauto].
    eapply (modify_changed _ _ _ _ _ _ _ E); [done|]. by destruct r.
  - apply hostnames_handler_changed in H as [(c & Hc & Ha) <-]. eauto.
  - apply delete_handler_changed in H as [(c & Hc & Ha) <-]. eauto.
  - apply as_admin_changed in H as [(c' & Hc & Ha) H]. unfold changed in H. destruct (str_eqb id MASTER_ID); [by destruct H|].
    destruct (set_quota _ _ _ _ _ _ _) as [r s] eqn:E. split; [|eauto].
    eapply (modify_changed _ _ _ _ _ _ _ E); [done|]. by destruct r.
  - apply as_admin_changed in H as [(c & Hc & Ha) H]. unfold changed in H. destruct (str_eqb id MASTER_ID); [by destruct H|].
    destruct (oidc_of _ _ _); [|by destruct H]. destruct (set_oidc _ _ _ _) as [r s] eqn:E. split; [|eauto].
    eapply (modify_changed _ _ _ _ _ _ _ E); [done|]. by destruct r.
  - apply as_admin_changed in H as [_ []]. done.
Qed.

(** ** A deleted organization *)

(** Sessions left viewing an organization are among those still to be cleared. *)
Definition viewing (org : str) (ks : list str) (s : SessionStore) : Prop :=
  ∀ k i, aget k (sessions s) = Some i → si_selected_org i = Some org → k ∈ ks.

Lemma clear_one ok org key ks s : viewing org (key :: ks) s → viewing org ks (set_selected_key ok key None s).2.
Proof.
  unfold set_selected_key. intros H k i. destruct (aget key (sessions s)) as [info|] eqn:E; simpl.
  - replace (sessions (persist_one _ _ _ _)) with (aset key (with_selected info None) (sessions s)) by (by unfold persist_one; destruct ok).
    destruct (decide (k = key)) as [->|Hne].
    + rewrite aget_aset_eq. intros [= <-]. done.
    + rewrite aget_aset_ne by done. intros Hk Hs. specialize (H _ _ Hk Hs). set_solver.
  - intros Hk Hs. specialize (H _ _ Hk Hs). apply elem_of_cons in H as [->|H]; [congruence|done].
Qed.

Lemma clear_selected_spec ok org s : viewing org [] (clear_selected_org ok org s).2.
Proof.
  unfold clear_selected_org. simpl. set (ks := (filter _ _).*1).
  assert (H : viewing org ks s).
  { intros k i Hk Hs. apply list_elem_of_fmap. exists (k, i). split; [done|]. apply list_elem_of_filter.
    split; [done|by apply aget_Some_elem]. }
  clearbody ks. revert s H. induction ks as [|key ks IH]; intros s H; [done|]. simpl. by apply IH, clear_one.
Qed.

Lemma remove_org_grants_spec org s u g : u ∈ users (remove_org_grants true org s).2 → g ∈ u_grants u → g_org g ≠ Child org.
Proof.
  unfold remove_org_grants. cbv zeta.
  set (has := fun u => existsb (fun g => bool_decide (g_org g = Child org)) (u_grants u)).
  assert (Hhas : ∀ u g, has u = false → g ∈ u_grants u → g_org g ≠ Child org).
  { intros u' g' Hh Hg. apply existsb_false in Hh. rewrite Forall_forall in Hh. specialize (Hh g' Hg). by apply bool_decide_eq_false in Hh. }
  destruct (u_username <$> filter _ (users s)) as [|n ns] eqn:E.
  - intros Hu. apply Hhas. destruct (has u) eqn:Eh; [|done].
    assert (u_username u ∈ u_username <$> filter (fun u => has u = true) (users s)).
    { apply list_elem_of_fmap_2, list_elem_of_filter. done. }
    unfold has in *. rewrite E in H. set_solver.
  - simpl. intros (u0 & -> & _)%list_elem_of_fmap Hg. unfold strip_org in Hg. fold (has u0) in Hg.
    destruct (has u0) eqn:Eh; [|by eapply Hhas]. simpl in Hg. by apply list_elem_of_filter in Hg as [Hg _].
Qed.

Lemma none_counted {A} (P : A → Prop) `{∀ x, Decision (P x)} l x : (length (filter P l) <= 0)%nat → x ∈ l → ¬ P x.
Proof.
  intros Hn Hx HP. assert (Hin : x ∈ filter P l) by by apply list_elem_of_filter. destruct (filter P l); [set_solver|simpl in Hn; lia].
Qed.

(** When every write succeeds and the answer is yes, a deleted organization is
    gone: no record, fence or panel of it; nobody lived or held tokens in it, and
    no account keeps a grant on it; no session views it, no maintenance flag is
    its own and no cached sign-on runtime answers for it. The organizations that
    are left are as they were. *)
Theorem deleted_org_gone now hs id st st' :
  orgs_delete_handler true true true now hs id st = (Ok Done, st') → org_world_ok st →
  org_find (op_orgs st') id = None
  ∧ (∀ o, o ≠ id → org_find (op_orgs st') o = org_find (op_orgs st) o)
  ∧ (∀ o host, org_find (op_orgs st) id = Some o → og_panel_hostname o = Some host → host ∉ panel_hostnames (op_cfg st'))
  ∧ (∀ u, u ∈ users (op_users st) → u_org_id u ≠ Some id) ∧ (Some id ∉ op_tokens st)
  ∧ (∀ u g, u ∈ users (op_users st') → g ∈ u_grants u → g_org g ≠ Child id)
  ∧ (∀ k i, aget k (sessions (op_sessions st')) = Some i → si_selected_org i ≠ Some id)
  ∧ (∀ k f, (k, f) ∈ op_flags st' → mf_org f ≠ Some id) ∧ id ∉ op_runtimes st'.
Proof.
  unfold orgs_delete_handler, as_server_admin. intros E Hw. destruct (require_server_admin _ _ _ _); [|done].
  destruct (str_eqb id MASTER_ID); [done|]. unfold org_member_counts in E.
  destruct (_ || _) eqn:Ec; [done|]. apply orb_false_iff in Ec as [Eu Et]. apply Nat.ltb_ge in Eu, Et.
  destruct (org_delete true id (op_orgs st)) as [r s] eqn:Ed. destruct r as [[]|]; [|done].
  apply pair_eq in E as [_ <-]. simpl.
  destruct (org_delete_ok (op_dashboard st) _ _ _ _ _ Ed (world_orgs _ Hw)) as (_ & _ & Em). specialize (Em eq_refl).
  unfold org_find. rewrite Em. split_and!.
  - apply find_row_None. rewrite list_elem_of_fmap. intros (x & E & [Hx _]%list_elem_of_filter). congruence.
  - intros o Hne. by apply find_row_filter_other.
  - intros o host [Ho Hi]%find_row_Some Hp. unfold panel_set, org_panels. rewrite Em. intros [Hin|Hin]%elem_of_app.
    + apply list_elem_of_omap in Hin as (x & [Hx Hxin]%list_elem_of_filter & Hxp). apply Hx. rewrite <- Hi. f_equal.
      by eapply omap_unique; [apply (world_orgs _ Hw)|done..].
    + pose proof (panels_ok _ _ _ (world_orgs _ Hw)) as Hall. rewrite Forall_forall in Hall.
      destruct (Hall o Ho host Hp) as (_ & Hd & _). destruct (op_dashboard st); set_solver.
  - intros u Hu. by apply (none_counted _ _ _ Eu).
  - intros Hin. by apply (none_counted _ _ _ Et Hin).
  - intros u g. apply remove_org_grants_spec.
  - intros k i Hk Hs. pose proof (clear_selected_spec true id (op_sessions st) k i Hk Hs). set_solver.
  - intros k f [Hf _]%list_elem_of_filter. done.
  - by intros [Hf _]%list_elem_of_filter.
Qed.

(** ** A fence and a panel in force *)

(** When a new allowlist is accepted and saved, every live connection of the
    organization carries it, each one with an assigned or listed name outside it is
    told to end, and in a [fenced] run every panel is inside its organization's
    allowlist. *)
Theorem new_fence_in_force now hs id hosts st o st' :
  orgs_hostnames_handler true true now hs id hosts st = (Ok (Updated o), st') → org_world_ok st →
  normalize_allowlist hosts = Some (og_hostnames o)
  ∧ (∀ cid h, (cid, h) ∈ op_clients st' → org_id (perms h) = Some id → org_hostnames (perms h) = og_hostnames o)
  ∧ (∀ cid h s host, (cid, h) ∈ op_clients st → org_id (perms h) = Some id → s ∈ services h →
       host ∈ assigned_hostnames s ++ declared_hostnames s → hostname_in_org_allowlist host (og_hostnames o) = false →
       cid ∈ op_ended st')
  ∧ (fenced = true → ∀ x p, x ∈ mem (op_orgs st') → og_panel_hostname x = Some p → hostname_in_org_allowlist p (og_hostnames x) = true).
Proof.
  intros E Hw. pose proof (hostnames_handler_sound true true now hs id hosts st Hw (fun _ H => H)) as Hs. rewrite E in Hs. simpl in Hs.
  unfold orgs_hostnames_handler, as_server_admin in E. destruct (require_server_admin _ _ _ _); [|done].
  destruct (str_eqb id MASTER_ID); [done|]. destruct (normalize_allowlist hosts) as [fence|] eqn:En; [|done].
  destruct (set_hostnames true id fence (op_orgs st)) as [r s] eqn:Es.
  set (st2 := match stale_panel s id fence with Some _ => _ | None => _ end) in E.
  assert (Hc : op_clients st2 = op_clients st) by (unfold st2; by destruct (stale_panel s id fence)).
  destruct r as [o'|]; [|done]. apply org_modify_ok in Es as (_ & o0 & _ & -> & _).
  apply pair_eq in E as [Eo <-]. assert (o = og_with_hostnames o0 fence) as -> by congruence. simpl. rewrite Hc in *.
  split; [done|]. split; [|split].
  - intros cid h ([cid' h'] & Eh & _)%list_elem_of_fmap Hid. simpl in Eh. case_bool_decide as Hb.
    + by apply pair_eq in Eh as [_ ->].
    + apply pair_eq in Eh as [_ ->]. done.
  - intros cid h sv host Hin Ho Hsv Hh Hf. apply elem_of_app. right. by eapply fence_reaches_lists.
  - intros Ht x p Hx Hp. pose proof (panels_ok _ _ _ (world_orgs _ Hs)) as Hall. rewrite Forall_forall in Hall.
    destruct (Hall x Hx p Hp) as (_ & _ & Ha). by apply Ha.
Qed.

(** A panel hostname that is accepted was served by no connection outside the
    organization; from then on it is that organization's panel and nobody else's,
    and every connection that has it among its assigned or listed names is told to
    end. *)
Theorem panel_claim_exclusive ok now hs id hostname st o host st' :
  orgs_panel_handler ok now hs id hostname st = (Ok (Updated o), st') → org_world_ok st → og_panel_hostname o = Some host →
  clients_serving_outside id host (op_clients st) = 0%nat
  ∧ panel_org (op_dashboard st') (op_orgs st') (Some host) = Some (Some id)
  ∧ is_panel_hostname (op_cfg st') host = true
  ∧ (∀ cid h, (cid, h) ∈ op_clients st → host ∈ fenced_names h → cid ∈ op_ended st').
Proof.
  intros E Hw Hp. pose proof (panel_handler_sound ok now hs id hostname st Hw) as Hs. rewrite E in Hs. simpl in Hs.
  unfold orgs_panel_handler in E. destruct (org_caller st now hs) as [c|]; [|done].
  destruct (str_eqb id MASTER_ID); [done|]. destruct (negb _); [done|].
  destruct (org_find (op_orgs st) id) as [org|] eqn:Eo; [|done].
  destruct (check_panel_hostname _ _ _ _) as [h|] eqn:Ec; [|done].
  destruct (set_panel_hostname ok id h (op_orgs st)) as [r s] eqn:Es. destruct r as [o'|]; [|done].
  apply org_modify_ok in Es as (_ & b & Eb & -> & Em). apply pair_eq in E as [E <-].
  assert (o = og_with_panel b h) as -> by congruence. simpl in Hp. subst h.
  destruct (check_panel_free _ _ _ _ _ (world_orgs _ Hw) Ec) as (_ & _ & _ & Hd & _ & H0).
  pose proof (find_row_Some _ _ _ _ Eb) as [_ Hbid].
  assert (Hin : og_with_panel b (Some host) ∈ mem s).
  { rewrite Em. apply (find_row_Some og_id id). by apply (find_row_modify og_id id (fun x => og_with_panel x (Some host))). }
  assert (Hset : is_panel_hostname (op_cfg (apply_panels (put_orgs s st))) host = true).
  { unfold is_panel_hostname. simpl. apply existsb_Exists. exists host. split; [|apply str_eqb_refl].
    unfold panel_set, org_panels. apply elem_of_app. left. apply list_elem_of_omap. eauto. }
  split; [done|]. split; [|split; [exact Hset|]].
  - simpl. rewrite bool_decide_eq_false_2 by done. unfold panel_org_for.
    destruct (find _ (mem s)) as [x|] eqn:Ef.
    + apply find_some in Ef as [Hx Hxp]. apply bool_decide_eq_true in Hxp. apply list_elem_of_In in Hx.
      simpl. do 2 f_equal. rewrite (omap_unique og_panel_hostname (mem s) x _ host (panels_unique _ _ _ (world_orgs _ Hs)) Hx Hin Hxp eq_refl). done.
    + apply list_elem_of_In in Hin. by apply (find_none _ _ Ef) in Hin; simpl in Hin; rewrite bool_decide_eq_true_2 in Hin.
  - intros cid h Hh Hn. simpl. apply elem_of_app. right. apply list_elem_of_fmap. exists (cid, h). split; [done|].
    apply list_elem_of_filter. split; [|done]. apply existsb_Exists. exists host. split; [exact Hn|exact Hset].
Qed.

(** The client secret stored for an organization's sign-on is one the request
    gives, or the one already stored for the very same issuer and client: pointing
    the organization at another issuer never sends it the old secret. *)
Theorem oidc_secret_bound id previous p o :
  oidc_of id previous p = Ok (Some o) →
  (or_client_secret p ≠ [] ∧ oo_client_secret o = or_client_secret p)
  ∨ ∃ old, previous = Some old ∧ oo_client_secret o = oo_client_secret old
           ∧ oo_issuer o = oo_issuer old ∧ oo_client_id o = oo_client_id old.
Proof.
  unfold oidc_of. cbv zeta. destruct (str_eqb (trim (or_issuer p)) []); [done|].
  destruct (str_eqb (trim (or_client_id p)) [] || str_eqb (trim (kept_secret previous p)) []) eqn:Ek; [done|].
  destruct (bool_decide _); [done|]. destruct (oidc_default_role _) as [role|]; [|done]. simpl.
  destruct (oidc_group_grants _ _) as [gs|]; [|done]. simpl. intros [= <-]. simpl.
  apply orb_false_iff in Ek as [_ Ek]. unfold kept_secret in *. destruct (str_eqb (or_client_secret p) []) eqn:Es; simpl in *.
  - right. destruct previous as [old|]; [|done]. destruct (str_eqb (oo_issuer old) _ && _) eqn:Em; [|done].
    to_prop. rewrite !str_eqb_eq in *. by exists old.
  - left. split; [|done]. intros H. by rewrite H in Es.
Qed.

End Handlers.

(** ** Samples *)

Module OrgSamples.
Definition org (id name : str) (fence : list str) (panel : option str) : Organization :=
  {| og_id := id; og_name := name; og_custom_name := None; og_created_at := 0; og_max_clients := None; og_max_tokens := None;
     og_max_users := None; og_max_bytes_month := None; og_hostnames := fence; og_oidc := None; og_panel_hostname := panel |}.
Definition acme : Organization := org (bs "a") (bs "acme") [bs "*.acme.test"] (Some (bs "panel.acme.test")).
Definition beta : Organization := org (bs "b") (bs "beta") [bs "*.beta.test"; bs "*.acme.test"] None.
Definition key (secret : str) (scope : GrantOrg) : AdminKey :=
  {| k_id := secret; k_name := secret; k_key_hash := token_key id secret; k_key_prefix := secret; k_role := Admin;
     k_org_id := None; k_scope := Some scope; k_created_at := 0; k_expires_at := None |}.
Definition cfg : DeclConfig :=
  {| panel_hostnames := []; cache_enabled := false; cache_max_stale := 0; server_gates := false; default_access := Allow |}.
Definition before : OrgPanel :=
  {| op_orgs := org_load [acme; beta]; op_sessions := {| sessions := []; rows := [] |}; op_users := {| users := []; disk := [] |};
     op_keys := [key (bs "root") All; key (bs "ka") (Child (bs "a")); key (bs "kb") (Child (bs "b"))];
     op_tokens := []; op_clients := []; op_cfg := cfg; op_dashboard := Some (bs "panel.test"); op_secure_cookies := true;
     op_fenced_login := false; op_flags := []; op_runtimes := [bs "a"]; op_ended := []; op_audits := [] |}.
Definition st0 : OrgPanel := refresh_panel_hostnames before.
Definition by_key (secret : str) : headers := [(bs "authorization", bs "Bearer " ++ secret)].
Definition root : headers := by_key (bs "root").
Definition turn (hs : headers) : Turn := {| tn_ok1 := true; tn_ok2 := true; tn_ok3 := true; tn_id := bs "c"; tn_now := 5; tn_headers := hs |}.

Lemma orgs_ok_sample : orgs_ok true (Some (bs "panel.test")) [acme; beta].
Proof.
  split.
  - apply (bool_decide_unpack _). vm_compute. exact I.
  - repeat constructor; discriminate.
  - apply (bool_decide_unpack _). vm_compute. exact I.
  - repeat constructor.
  - constructor; [|constructor; [|constructor]]; intros p Hp; [injection Hp as <-|discriminate].
    split; [by exists (bs "panel.acme.test")|]. split; [discriminate|]. intros _. split; [discriminate|reflexivity].
  - apply (bool_decide_unpack _). vm_compute. exact I.
Qed.

Lemma st0_sound : org_world_ok true st0.
Proof. split; [apply orgs_ok_sample|reflexivity..]. Qed.

Definition created : OrgPanel :=
  (serve_org id (turn root) (CreateOrg (bs "gamma") None [bs "*.gamma.test"] (Some (bs "Panel.Gamma.test."))) st0).2.

Lemma organizations_stay_sound_witness :
  orgs_ok true (op_dashboard created) (mem (op_orgs created)) ∧ panel_hostnames (op_cfg created) = [bs "panel.acme.test"; bs "panel.gamma.test"; bs "panel.test"].
Proof.
  split; [|vm_compute; reflexivity]. apply (organizations_stay_sound id true). eapply Ran.
  - apply (Booted id true before [acme; beta]); [reflexivity|apply orgs_ok_sample].
  - apply (Served id true (turn root)); [|split; discriminate|done]. vm_compute. intros H. set_solver.
Defined.

Lemma org_change_authorized_witness :
  names_org (turn (by_key (bs "kb"))) (SetPanel (bs "b") (Some (bs "x.beta.test"))) (bs "b").
Proof.
  apply (org_change_authorized id (turn (by_key (bs "kb"))) (SetPanel (bs "b") (Some (bs "x.beta.test"))) st0 (bs "b")).
  vm_compute. discriminate.
Defined.

Lemma deleted_org_gone_witness :
  op_runtimes (orgs_delete_handler id true true true 5 root (bs "a") st0).2 = []
  ∧ org_find (op_orgs (orgs_delete_handler id true true true 5 root (bs "a") st0).2) (bs "a") = None.
Proof.
  split; [vm_compute; reflexivity|].
  refine (proj1 (deleted_org_gone id true 5 root (bs "a") st0 _ _ st0_sound)). vm_compute. reflexivity.
Defined.

Definition refence (ok1 ok2 : bool) := orgs_hostnames_handler id ok1 ok2 5 root (bs "a") [bs "acme.test"] st0.

Lemma new_fence_in_force_witness :
  normalize_allowlist [bs "acme.test"] = Some [bs "acme.test"]
  ∧ org_panels (op_orgs (refence true true).2) = [].
Proof.
  split; [|vm_compute; reflexivity].
  exact (proj1 (new_fence_in_force id true 5 root (bs "a") [bs "acme.test"] st0 (og_with_hostnames acme [bs "acme.test"])
                  (refence true true).2 eq_refl st0_sound)).
Defined.

Lemma panel_claim_exclusive_witness :
  panel_org (Some (bs "panel.test")) (op_orgs (orgs_panel_handler id true 5 (by_key (bs "kb")) (bs "b") (Some (bs "x.beta.test")) st0).2)
    (Some (bs "x.beta.test")) = Some (Some (bs "b")).
Proof.
  exact (proj1 (proj2 (panel_claim_exclusive id true true 5 (by_key (bs "kb")) (bs "b") (Some (bs "x.beta.test")) st0
                         (og_with_panel beta (Some (bs "x.beta.test"))) (bs "x.beta.test") _ eq_refl st0_sound eq_refl))).
Defined.

Definition sso : OrgOidcRequest :=
  {| or_issuer := bs "https://idp.test"; or_client_id := bs "c"; or_client_secret := bs "s"; or_allowed_emails := [bs "*"];
     or_default_role := None; or_group_grants := [bs "ops=operator"] |}.
Lemma oidc_secret_bound_witness :
  ∃ o, oidc_of (bs "a") None sso = Ok (Some o) ∧ oo_client_secret o = bs "s".
Proof.
  eexists. split; [vm_compute; reflexivity|].
  edestruct (oidc_secret_bound (bs "a") None sso) as [[_ H]|(old & H & _)]; [vm_compute; reflexivity|exact H|discriminate].
Defined.

(** The new allowlist could not be saved and the answer says so, the old one still
    stands and covers the panel; the panel is gone all the same. *)
Example unsaved_fence_drops_panel :
  (refence false true).1 = Err 500
  ∧ og_hostnames <$> mem (op_orgs (refence false true).2) = og_hostnames <$> mem (op_orgs st0)
  ∧ org_panels (op_orgs st0) = [bs "panel.acme.test"] ∧ org_panels (op_orgs (refence false true).2) = [].
Proof. by vm_compute. Qed.

(** The allowlist is saved and the panel's own write fails: the answer is yes, and
    the dashboard stays on a name the organization no longer claims. *)
Example unsaved_panel_outlives_fence :
  is_Some (match (refence true false).1 with Ok r => Some r | Err _ => None end)
  ∧ og_hostnames <$> mem (op_orgs (refence true false).2) = [[bs "acme.test"]; og_hostnames beta]
  ∧ is_panel_hostname (op_cfg (refence true false).2) (bs "panel.acme.test") = true
  ∧ hostname_in_org_allowlist (bs "panel.acme.test") [bs "acme.test"] = false.
Proof. vm_compute. eauto. Qed.

(** An administrative key scoped to a deleted organization is neither counted nor
    removed: it still signs in, as an administrator of what is gone. *)
Example key_outlives_its_org :
  let st := (orgs_delete_handler id true true true 5 root (bs "a") st0).2 in
  org_find (op_orgs st) (bs "a") = None
  ∧ match org_caller id st 6 (by_key (bs "ka")) with
    | Some c => caller_role_in c (Some (bs "a")) = Some Admin
    | None => False
    end.
Proof. by vm_compute. Qed.

(** The check of a panel hostname and its write are two turns of the lock: two
    organizations whose requests overlap both pass the check and share the name. *)
Definition shared : OrgStore :=
  (set_panel_hostname true (bs "b") (Some (bs "x.acme.test"))
     (set_panel_hostname true (bs "a") (Some (bs "x.acme.test")) (op_orgs st0)).2).2.
Example overlapping_claims_share_a_panel :
  check_panel_hostname st0 (bs "a") (og_hostnames acme) (Some (bs "x.acme.test")) = Ok (Some (bs "x.acme.test"))
  ∧ check_panel_hostname st0 (bs "b") (og_hostnames beta) (Some (bs "x.acme.test")) = Ok (Some (bs "x.acme.test"))
  ∧ org_panels shared = [bs "x.acme.test"; bs "x.acme.test"].
Proof. by vm_compute. Qed.
End OrgSamples.
