(* ===== verification/Scaling.v ===== *)
(** Autoscaling: the records clients arm ([store/scaling.rs]), how a declaration
    becomes one ([api/scaling.rs], [tunnel/ws/ping.rs]), and the control loop that
    turns a record and the state of its pool into at most one call at a time
    ([scaling.rs]).

    An [Instant] is a count of nanoseconds. The parameters are the hash, the URL
    parser as the scheme it finds, and what the code uses of 64-bit floats: the
    value behind the bits of a declaration, finiteness, the quotient of two counts,
    the product with the scale-in fraction, and how one prints. *)

From Stdlib Require Import QArith.
From S2P Require Import Prelude Binds IpNet Clients Select RateLimit Declare Rows Tokens.

Definition DEFAULT_COLD_START_SECS : Z := 45.
Definition DEFAULT_WINDOW_SECS : Z := 15.
Definition DEFAULT_COOLDOWN_SECS : Z := 60.
Definition MAX_COLD_START_SECS : Z := 300.

Record ScalingRecord (F : Type) : Type := {
  sr_id : str;
  sr_org_id : option str;
  sr_hostname : str;
  sr_path : option str;
  sr_url : str;
  sr_secret : option str;
  sr_min : Z;
  sr_max : Z;
  sr_cold_start_secs : Z;
  sr_target_utilization : F;
  sr_window_secs : Z;
  sr_cooldown_secs : Z;
  sr_owners : list str;
  sr_config_hash : str;
  sr_created_at : Z;
  sr_last_seen : Z;
}.
Arguments sr_id {F} s.
Arguments sr_org_id {F} s.
Arguments sr_hostname {F} s.
Arguments sr_path {F} s.
Arguments sr_url {F} s.
Arguments sr_secret {F} s.
Arguments sr_min {F} s.
Arguments sr_max {F} s.
Arguments sr_cold_start_secs {F} s.
Arguments sr_target_utilization {F} s.
Arguments sr_window_secs {F} s.
Arguments sr_cooldown_secs {F} s.
Arguments sr_owners {F} s.
Arguments sr_config_hash {F} s.
Arguments sr_created_at {F} s.
Arguments sr_last_seen {F} s.

Inductive Upsert : Type := Created | Updated | Unchanged.

Definition scaling_key (org : option str) (hostname : str) (path : option str) : str :=
  default (bs "master") org ++ bs "|" ++ hostname ++ bs "|" ++ default [] path.

Definition parse_duration_secs (raw : str) : option Z :=
  let value := lower (trim raw) in
  if str_eqb value [] then None
  else
    let '(number, multiplier) :=
      match last value with
      | Some c => if bool_decide (c = "s"%char) then (removelast value, 1)
                  else if bool_decide (c = "m"%char) then (removelast value, 60)
                  else if bool_decide (c = "h"%char) then (removelast value, 3600)
                  else if bool_decide (c = "d"%char) then (removelast value, 86400)
                  else (value, 1)
      | None => (value, 1)
      end in
    match parse_uint u64_max number with
    | Some n => if n * multiplier <=? u64_max then Some (n * multiplier) else None
    | None => None
    end.

(** ** Records *)

Section Records.
Context {F : Type} `{HF : Float F} (sha256 : str → str) (scheme_of : str → option str) (of_wire : Z → F) (finite : F → bool)
  (show_f64 : F → str) (default_target : F).

Definition ScalingStore : Type := Rows (ScalingRecord F).

Definition compute_hash (r : ScalingRecord F) : str :=
  concat (hex_byte <$> take 8 (sha256 (
    sr_url r ++ [chr 0] ++ default [] (sr_secret r)
    ++ bs "|" ++ show_uint (sr_min r) ++ bs "|" ++ show_uint (sr_max r) ++ bs "|" ++ show_uint (sr_cold_start_secs r)
    ++ bs "|" ++ show_f64 (sr_target_utilization r) ++ bs "|" ++ show_uint (sr_window_secs r)
    ++ bs "|" ++ show_uint (sr_cooldown_secs r)))).

Definition with_meta (r : ScalingRecord F) (owners : list str) (hash : str) (created last_seen : Z) : ScalingRecord F :=
  {| sr_id := sr_id r; sr_org_id := sr_org_id r; sr_hostname := sr_hostname r; sr_path := sr_path r; sr_url := sr_url r;
     sr_secret := sr_secret r; sr_min := sr_min r; sr_max := sr_max r; sr_cold_start_secs := sr_cold_start_secs r;
     sr_target_utilization := sr_target_utilization r; sr_window_secs := sr_window_secs r;
     sr_cooldown_secs := sr_cooldown_secs r; sr_owners := owners; sr_config_hash := hash; sr_created_at := created;
     sr_last_seen := last_seen |}.

Definition cold_start_enabled (r : ScalingRecord F) : bool := (sr_min r =? 0) && (0 <? sr_cold_start_secs r).

(** A duration of a declaration, the default when there is none. *)
Definition declared_secs (raw : option str) (dflt : Z) (clamp : Z → Z) : option Z :=
  match raw with Some raw => clamp <$> parse_duration_secs raw | None => Some dflt end.

Definition declared_target (raw : option Z) : option F :=
  match raw with
  | None => Some default_target
  | Some bits => let v := of_wire bits in
                 if finite v && negb (fleb v fzero) && fleb v (fnum 1) then Some v else None
  end.

(** [None] is a refusal. *)
Definition record_from_decl (d : ScalingDecl) (org : option str) (hostname : str) (path : option str) :
    option (ScalingRecord F) :=
  let url := trim (sc_url d) in
  if str_eqb url [] then None
  else match scheme_of url with
  | None => None
  | Some scheme =>
      if negb (str_eqb scheme (bs "http") || str_eqb scheme (bs "https")) then None
      else match declared_secs (sc_cold_start d) DEFAULT_COLD_START_SECS (fun n => Z.min n MAX_COLD_START_SECS) with
      | None => None
      | Some cold =>
          match declared_secs (sc_window d) DEFAULT_WINDOW_SECS (Z.max 1) with
          | None => None
          | Some window =>
              match declared_secs (sc_cooldown d) DEFAULT_COOLDOWN_SECS (Z.max 1) with
              | None => None
              | Some cooldown =>
                  match declared_target (sc_target_utilization d) with
                  | None => None
                  | Some target =>
                      if (0 <? sc_max d) && (sc_max d <? sc_min d) then None
                      else
                        let r := {| sr_id := scaling_key org hostname path; sr_org_id := org; sr_hostname := hostname;
                                    sr_path := path; sr_url := url;
                                    sr_secret := match sc_secret d with
                                                 | Some s => if str_eqb (trim s) [] then None else Some s
                                                 | None => None
                                                 end;
                                    sr_min := sc_min d; sr_max := sc_max d; sr_cold_start_secs := cold;
                                    sr_target_utilization := target; sr_window_secs := window;
                                    sr_cooldown_secs := cooldown; sr_owners := []; sr_config_hash := [];
                                    sr_created_at := 0; sr_last_seen := 0 |} in
                        Some (with_meta r [] (compute_hash r) 0 0)
                  end
              end
          end
      end
  end.

(** ** The store *)

(** A write nobody waits for: memory is what it is, the table follows if it can. *)
Definition persist_scaling (ok : bool) (l : list (ScalingRecord F)) (s : ScalingStore) : ScalingStore :=
  (replace_all ok (with_mem s l)).2.

Definition add_owner (owner : option str) (owners : list str) : list str :=
  match owner with
  | Some o => if existsb (str_eqb o) owners then owners else owners ++ [o]
  | None => owners
  end.

Definition refreshed (existing r : ScalingRecord F) (owner : option str) (now : Z) : ScalingRecord F :=
  let base := if negb (str_eqb (sr_config_hash existing) (sr_config_hash r)) then r else existing in
  with_meta base (add_owner owner (sr_owners existing)) (sr_config_hash base) (sr_created_at existing) now.

Definition upsert (ok : bool) (r : ScalingRecord F) (owner : option str) (now : Z) (s : ScalingStore) :
    Upsert * ScalingStore :=
  let r := with_meta r (sr_owners r) (compute_hash r) (sr_created_at r) (sr_last_seen r) in
  match find_row sr_id (sr_id r) (mem s) with
  | Some existing =>
      (if negb (str_eqb (sr_config_hash existing) (sr_config_hash r)) then Updated else Unchanged,
       persist_scaling ok (modify_row sr_id (sr_id r) (fun e => refreshed e r owner now) (mem s)) s)
  | None =>
      let r := with_meta r (match owner with Some o => [o] | None => sr_owners r end) (sr_config_hash r) now now in
      (Created, persist_scaling ok (mem s ++ [r]) s)
  end.

Definition scaling_find (s : ScalingStore) (org : option str) (hostname : str) (path : option str) : option (ScalingRecord F) :=
  find_row sr_id (scaling_key org hostname path) (mem s).

Definition scaling_delete (ok : bool) (id : str) (s : ScalingStore) : bool * ScalingStore :=
  let l := filter (fun r => sr_id r ≠ id) (mem s) in
  if (length l =? length (mem s))%nat then (false, s)
  else if ok then (true, {| mem := l; table := l |}) else (false, s).

Definition disowned (token : str) (r : ScalingRecord F) : option (ScalingRecord F) :=
  let owners := filter (fun o => o ≠ token) (sr_owners r) in
  if bool_decide (sr_owners r = []) || negb (bool_decide (owners = []))
  then Some (with_meta r owners (sr_config_hash r) (sr_created_at r) (sr_last_seen r)) else None.

Definition disown (ok : bool) (token : str) (s : ScalingStore) : nat * ScalingStore :=
  let l := omap (disowned token) (mem s) in
  let removed := (length (mem s) - length l)%nat in
  (removed, if (0 <? removed)%nat then persist_scaling ok l s else with_mem s l).

Definition prune (ok : bool) (ttl now : Z) (s : ScalingStore) : nat * ScalingStore :=
  let l := filter (fun r => sat_sub now (sr_last_seen r) < ttl) (mem s) in
  let removed := (length (mem s) - length l)%nat in
  (removed, if (0 <? removed)%nat then persist_scaling ok l s else with_mem s l).

Definition scaling_import (ok : bool) (rs : list (ScalingRecord F)) (s : ScalingStore) : result nat NotWritten * ScalingStore :=
  import_rows ok rs s.

End Records.

(** ** The runtime *)

Definition BREAKER_THRESHOLD : Z := 5.
Definition MAX_BACKOFF_SECS : Z := 15 * 60.
Definition MAX_CONCURRENT_CALLS : nat := 8.
Definition SCALE_IN_WINDOWS : Z := 4.

Inductive Reason : Type := ColdStart | ScaleOut | ScaleIn.
Inductive Begin : Type := Fire | AlreadyWaking | Skip.
Inductive Ask : Type := Hold | DoNotHold.

#[export] Instance Begin_eq : EqDecision Begin.
Proof. solve_decision. Defined.
#[export] Instance Reason_eq : EqDecision Reason.
Proof. solve_decision. Defined.

Definition reason_str (r : Reason) : str :=
  match r with ColdStart => bs "cold_start" | ScaleOut => bs "scale_out" | ScaleIn => bs "scale_in" end.

Record BindState : Type := {
  b_waking : bool;
  b_cooldown_until : option Z;
  b_failures : Z;
  b_disarmed : bool;
  b_saturated_since : option Z;
  b_idle_since : option Z;
}.

Definition bind_default : BindState :=
  {| b_waking := false; b_cooldown_until := None; b_failures := 0; b_disarmed := false; b_saturated_since := None;
     b_idle_since := None |}.

Definition ScalingRuntime : Type := list (str * BindState).

Definition with_call (b : BindState) (waking : bool) (until : option Z) (failures : Z) (disarmed : bool) : BindState :=
  {| b_waking := waking; b_cooldown_until := until; b_failures := failures; b_disarmed := disarmed;
     b_saturated_since := b_saturated_since b; b_idle_since := b_idle_since b |}.

Definition with_since (b : BindState) (saturated idle : option Z) : BindState :=
  {| b_waking := b_waking b; b_cooldown_until := b_cooldown_until b; b_failures := b_failures b;
     b_disarmed := b_disarmed b; b_saturated_since := saturated; b_idle_since := idle |}.

(** [entry(id).or_default()] *)
Definition bind_of (rt : ScalingRuntime) (id : str) : BindState := default bind_default (aget id rt).

Definition begin_call (id : str) (now : Z) (rt : ScalingRuntime) : Begin * ScalingRuntime :=
  let b := bind_of rt id in
  if b_disarmed b then (Skip, aset id b rt)
  else if b_waking b then (AlreadyWaking, aset id b rt)
  else if match b_cooldown_until b with Some until => now <? until | None => false end then (Skip, aset id b rt)
  else (Fire, aset id (with_call b true (b_cooldown_until b) (b_failures b) (b_disarmed b)) rt).

(** [Instant + Duration] panics when the seconds pass the clock's 64 bits: [None]. *)
Definition instant_add (now secs : Z) : option Z :=
  if (now + secs * second) / second <=? 2 ^ 63 - 1 then Some (now + secs * second) else None.

Definition sat_add32 (a b : Z) : Z := Z.min (2 ^ 32 - 1) (a + b).

Definition backoff_secs (cooldown failures : Z) : Z :=
  Z.max (Z.min (sat_mul64 cooldown (Z.shiftl 1 (Z.min failures 6))) MAX_BACKOFF_SECS) 1.

(** [None] is a panic. *)
Definition finish_call (id : str) (success : bool) (cooldown now : Z) (rt : ScalingRuntime) : option ScalingRuntime :=
  let b := bind_of rt id in
  if success then
    match instant_add now cooldown with
    | Some until => Some (aset id (with_call b false (Some until) 0 (b_disarmed b)) rt)
    | None => None
    end
  else
    let failures := sat_add32 (b_failures b) 1 in
    match instant_add now (backoff_secs cooldown failures) with
    | Some until => Some (aset id (with_call b false (Some until) failures
                                     (b_disarmed b || (BREAKER_THRESHOLD <=? failures))) rt)
    | None => None
    end.

Definition is_disarmed (rt : ScalingRuntime) (id : str) : bool :=
  match aget id rt with Some b => b_disarmed b | None => false end.

Definition is_backing_off (rt : ScalingRuntime) (id : str) : bool :=
  match aget id rt with Some b => 0 <? b_failures b | None => false end.

Definition rearm (id : str) (rt : ScalingRuntime) : ScalingRuntime :=
  let b := bind_of rt id in aset id (with_call b (b_waking b) None 0 false) rt.

Definition forget (id : str) (rt : ScalingRuntime) : ScalingRuntime := aremove id rt.

Section Loop.
Context {F : Type} `{HF : Float F} (half : F → F).

Definition saturation_reached (r : ScalingRecord F) (utilization : F) (now : Z) (rt : ScalingRuntime) : bool * ScalingRuntime :=
  let b := bind_of rt (sr_id r) in
  if fltb utilization (sr_target_utilization r) then (false, aset (sr_id r) (with_since b None (b_idle_since b)) rt)
  else match b_saturated_since b with
       | Some since => (sr_window_secs r * second <=? sat_sub now since, aset (sr_id r) (with_since b (Some since) None) rt)
       | None => (false, aset (sr_id r) (with_since b (Some now) None) rt)
       end.

Definition idle_reached (r : ScalingRecord F) (utilization : F) (now : Z) (rt : ScalingRuntime) : bool * ScalingRuntime :=
  let b := bind_of rt (sr_id r) in
  if fleb (half (sr_target_utilization r)) utilization then (false, aset (sr_id r) (with_since b (b_saturated_since b) None) rt)
  else
    let window := sat_mul64 (sr_window_secs r) SCALE_IN_WINDOWS * second in
    match b_idle_since b with
    | Some since => (window <=? sat_sub now since, aset (sr_id r) b rt)
    | None => (false, aset (sr_id r) (with_since b (b_saturated_since b) (Some now)) rt)
    end.

(** ** The pool of a bind *)

Record Capacity : Type := { cp_instances : Z; cp_capacity : Z; cp_inflight : Z; cp_utilization : F }.

Definition wrap32 (n : Z) : Z := n mod 2 ^ 32.

Definition service_eligible (hostname : str) (path : option str) (s : ServiceState) : bool :=
  backend_healthy s && admin_enabled s && (priority s =? 0) && existsb (str_eqb hostname) (effective_hostnames s)
  && match path with Some p => bool_decide (effective_path_bind s = Some p) | None => true end.

(** The limit of a service and what of it is taken; [sems] is the free permits of
    each semaphore. *)
Definition service_load (sems : gmap Z Z) (s : ServiceState) : Z * Z :=
  match max_concurrent s, inflight_limiter s with
  | Some limit, Some sem => (limit, sat_sub limit (wrap32 (default 0 (sems !! sem))))
  | _, _ => (0, 0)
  end.

Definition connection_pool (now down_threshold : Z) (hostname : str) (path : option str) (c : ClientHandle) : list ServiceState :=
  if is_healthy c now down_threshold && negb (draining c)
  then filter (fun s => service_eligible hostname path s = true) (services c) else [].

Definition add_connection (now down_threshold : Z) (sems : gmap Z Z) (hostname : str) (path : option str)
    (out : Z * Z * Z) (c : ClientHandle) : Z * Z * Z :=
  let pool := connection_pool now down_threshold hostname path c in
  let '(instances, capacity, inflight) := out in
  let '(capacity, inflight) :=
    fold_left (fun acc s => let '(limit, taken) := service_load sems s in (wrap32 (acc.1 + limit), wrap32 (acc.2 + taken)))
              pool (capacity, inflight) in
  (if bool_decide (pool = []) then instances else wrap32 (instances + 1), capacity, inflight).

Definition measure (ratio : Z → Z → F) (now down_threshold : Z) (sems : gmap Z Z) (clients : client_map) (hostname : str) (path : option str) : Capacity :=
  let '(instances, capacity, inflight) :=
    fold_left (fun out ic => add_connection now down_threshold sems hostname path out ic.2) clients (0, 0, 0) in
  {| cp_instances := instances; cp_capacity := capacity; cp_inflight := inflight;
     cp_utilization := if 0 <? capacity then ratio inflight capacity else fzero |}.

(** ** Asking *)

Definition desired (r : ScalingRecord F) (reason : Reason) (current : Z) : Z :=
  match reason with
  | ColdStart => 1
  | ScaleOut => sat_add32 current 1
  | ScaleIn => Z.max (Z.max (sat_sub current 1) (sr_min r)) 1
  end.

(** What [request_capacity] does before the call leaves: an answer at once, or a
    call in flight that holds a permit. [calls] is the calls in flight. *)
Inductive Asked : Type := Answered (a : Ask) | Calling (desired : Z).

Definition request_begin (r : ScalingRecord F) (reason : Reason) (current now : Z) (calls : nat) (rt : ScalingRuntime) :
    option (Asked * ScalingRuntime) :=
  match begin_call (sr_id r) now rt with
  | (AlreadyWaking, rt) => Some (Answered Hold, rt)
  | (Skip, rt) => Some (Answered (if is_disarmed rt (sr_id r) || is_backing_off rt (sr_id r) then DoNotHold else Hold), rt)
  | (Fire, rt) =>
      if (MAX_CONCURRENT_CALLS <=? calls)%nat
      then match finish_call (sr_id r) false (sr_cooldown_secs r) now rt with
           | Some rt => Some (Answered DoNotHold, rt)
           | None => None
           end
      else Some (Calling (desired r reason current), rt)
  end.

(** What it does with the endpoint's answer. [now] is when it asked. *)
Definition request_end (r : ScalingRecord F) (success : bool) (now : Z) (rt : ScalingRuntime) : option (Ask * ScalingRuntime) :=
  match finish_call (sr_id r) success (sr_cooldown_secs r) now rt with
  | Some rt => Some (if success then Hold else DoNotHold, rt)
  | None => None
  end.

(** One record in one pass of the loop: what it decides to ask for. *)
Definition scale_pass (r : ScalingRecord F) (cap : Capacity) (now : Z) (rt : ScalingRuntime) : option Reason * ScalingRuntime :=
  if sr_max r =? 0 then (None, rt)
  else if (cp_instances cap =? 0) || (cp_capacity cap =? 0) then (None, rt)
  else
    let at_ceiling := sr_max r <=? cp_instances cap in
    let '(reached, rt) := if at_ceiling then (false, rt) else saturation_reached r (cp_utilization cap) now rt in
    if reached then (Some ScaleOut, rt)
    else if Z.max (sr_min r) 1 <? cp_instances cap then
      let '(idle, rt) := idle_reached r (cp_utilization cap) now rt in
      (if idle then Some ScaleIn else None, rt)
    else (None, rt).

(** ** Cold starts *)

Definition record_matches (hostname path : str) (r : ScalingRecord F) : bool :=
  str_eqb (sr_hostname r) hostname
  && match sr_path r with Some p => str_eqb path p || starts_with (p ++ bs "/") path | None => true end.

Definition better (best : option (ScalingRecord F)) (r : ScalingRecord F) : bool :=
  match best with
  | None => true
  | Some current => negb (bool_decide (is_Some (sr_path current))) && bool_decide (is_Some (sr_path r))
  end.

Definition best_record (hostname path : str) (l : list (ScalingRecord F)) : option (ScalingRecord F) :=
  fold_left (fun best r => if record_matches hostname path r && better best r then Some r else best) l None.

(** The owners asked in order; what is known of a token is its allowlist. *)
Fixpoint owners_admit (tokens : list (str * list str)) (ip : ipaddr) (owners : list str) (restricted : bool) : bool :=
  match owners with
  | [] => negb restricted
  | owner :: owners =>
      match find (fun t : str * list str => str_eqb t.1 owner) tokens with
      | None => owners_admit tokens ip owners restricted
      | Some t => if bool_decide (t.2 = []) then true
                  else if ip_allowed ip t.2 then true
                  else owners_admit tokens ip owners true
      end
  end.

Definition visitor_allowed (tokens : list (str * list str)) (r : ScalingRecord F) (ip : ipaddr) : bool :=
  if bool_decide (sr_owners r = []) then true else owners_admit tokens ip (sr_owners r) false.

(** The record a missed request may wake. *)
Definition cold_start_record (maintenance : bool) (store : list (ScalingRecord F)) (tokens : list (str * list str))
    (hostname : option str) (path : str) (ip : ipaddr) : option (ScalingRecord F) :=
  match hostname with
  | None => None
  | Some hostname =>
      if maintenance then None
      else match best_record hostname path store with
           | Some r => if cold_start_enabled r && visitor_allowed tokens r ip then Some r else None
           | None => None
           end
  end.

(** The wait that follows: each turn is the time and the instances it measures;
    what is left of the turns when it returns. *)
Fixpoint cold_wait (deadline : Z) (turns : list (Z * Z)) : option (list (Z * Z)) :=
  match turns with
  | [] => None
  | (now, instances) :: turns => if (deadline <=? now) || (0 <? instances) then Some turns else cold_wait deadline turns
  end.

(** ** Lemmas *)

Lemma bind_of_aset rt id id' b : bind_of (aset id b rt) id' = if decide (id' = id) then b else bind_of rt id'.
Proof.
  unfold bind_of. destruct (decide (id' = id)) as [->|Hne]; [by rewrite aget_aset_eq|by rewrite aget_aset_ne].
Qed.

Lemma instant_add_Some now secs t : instant_add now secs = Some t → t = now + secs * second.
Proof. unfold instant_add. by destruct (_ <=? _); intros [= <-]. Qed.

Definition waking (rt : ScalingRuntime) (id : str) : bool := b_waking (bind_of rt id).

Lemma begin_waking id now rt v rt' id' :
  begin_call id now rt = (v, rt') →
  waking rt' id' = (waking rt id' || bool_decide (v = Fire ∧ id' = id)) ∧ (v = Fire → waking rt id = false)
  ∧ b_cooldown_until (bind_of rt' id') = b_cooldown_until (bind_of rt id').
Proof.
  unfold begin_call, waking. cbv zeta. intros E.
  assert (∃ b, rt' = aset id b rt ∧ b_waking b = (b_waking (bind_of rt id) || bool_decide (v = Fire))
               ∧ b_cooldown_until b = b_cooldown_until (bind_of rt id) ∧ (v = Fire → b_waking (bind_of rt id) = false))
    as (b & -> & Hb & Hu & Hf).
  { destruct (b_disarmed (bind_of rt id)) eqn:Ed; [|destruct (b_waking (bind_of rt id)) eqn:Ew;
      [|destruct (match b_cooldown_until (bind_of rt id) with Some _ => _ | None => _ end)]]; simplify_eq; eexists;
      (split; [done|]); simpl; rewrite ?orb_false_r, ?orb_true_r; done. }
  rewrite !bind_of_aset. destruct (decide (id' = id)) as [->|Hne].
  - split; [|done]. rewrite Hb. f_equal. apply bool_decide_ext. naive_solver.
  - split; [|done]. rewrite bool_decide_eq_false_2 by naive_solver. by rewrite orb_false_r.
Qed.

Lemma finish_waking id success cooldown now rt rt' id' :
  finish_call id success cooldown now rt = Some rt' → waking rt' id' = (waking rt id' && negb (bool_decide (id' = id))).
Proof.
  unfold finish_call, waking. cbv zeta. intros E.
  assert (∃ b, rt' = aset id b rt ∧ b_waking b = false) as (b & -> & Hb).
  { destruct success; (destruct (instant_add _ _); [|done]); injection E as <-; by eexists. }
  rewrite bind_of_aset. destruct (decide (id' = id)) as [->|Hne].
  - rewrite bool_decide_eq_true_2 by done. by rewrite andb_false_r.
  - rewrite bool_decide_eq_false_2 by done. by rewrite andb_true_r.
Qed.

(** The samples of the loop touch nothing but the two instants. *)
Definition same_calls (rt rt' : ScalingRuntime) : Prop :=
  ∀ id, ∃ sat idle, bind_of rt' id = with_since (bind_of rt id) sat idle.

Lemma same_calls_refl rt : same_calls rt rt.
Proof. intros id. exists (b_saturated_since (bind_of rt id)), (b_idle_since (bind_of rt id)). by destruct (bind_of rt id). Qed.

Lemma same_calls_set rt id sat idle : same_calls rt (aset id (with_since (bind_of rt id) sat idle) rt).
Proof. intros id'. rewrite bind_of_aset. destruct (decide (id' = id)) as [->|]; [eauto|apply same_calls_refl]. Qed.

Lemma same_calls_trans rt1 rt2 rt3 : same_calls rt1 rt2 → same_calls rt2 rt3 → same_calls rt1 rt3.
Proof. intros H1 H2 id. destruct (H1 id) as (s & i & E1), (H2 id) as (s' & i' & E2). rewrite E2, E1. by exists s', i'. Qed.

Lemma saturation_same r u now rt : same_calls rt (saturation_reached r u now rt).2.
Proof. unfold saturation_reached. cbv zeta. destruct (fltb _ _); [|destruct (b_saturated_since _)]; apply same_calls_set. Qed.

Lemma idle_same r u now rt : same_calls rt (idle_reached r u now rt).2.
Proof.
  unfold idle_reached. cbv zeta. destruct (fleb _ _); [apply same_calls_set|]. destruct (b_idle_since _) eqn:E; [|apply same_calls_set].
  intros id. simpl. rewrite bind_of_aset. destruct (decide (id = sr_id r)) as [->|]; apply same_calls_refl.
Qed.

Lemma pass_same r cap now rt : same_calls rt (scale_pass r cap now rt).2.
Proof.
  unfold scale_pass. destruct (sr_max r =? 0); [apply same_calls_refl|]. destruct (_ || _); [apply same_calls_refl|]. cbv zeta.
  set (x := if sr_max r <=? cp_instances cap then (false, rt) else saturation_reached r (cp_utilization cap) now rt).
  assert (Hx : same_calls rt x.2) by (unfold x; destruct (_ <=? _); [apply same_calls_refl|apply saturation_same]).
  destruct x as [reached rt1]. simpl in Hx. destruct reached; [done|]. destruct (_ <? _); [|done].
  pose proof (idle_same r (cp_utilization cap) now rt1) as Hi. destruct (idle_reached r (cp_utilization cap) now rt1) as [idle rt2].
  by eapply same_calls_trans.
Qed.

Lemma same_waking rt rt' id : same_calls rt rt' → waking rt' id = waking rt id.
Proof. intros H. unfold waking. destruct (H id) as (s & i & ->). done. Qed.

(** ** The pool, counted *)

Definition sum_of (f : ServiceState → Z) (l : list ServiceState) : Z := foldr (fun s acc => f s + acc) 0 l.

Lemma sum_of_app f l l' : sum_of f (l ++ l') = sum_of f l + sum_of f l'.
Proof. induction l as [|a l IH]; simpl; [done|]. rewrite IH. lia. Qed.

Lemma wrap32_add a b : wrap32 (wrap32 a + b) = wrap32 (a + b).
Proof. unfold wrap32. apply Zplus_mod_idemp_l. Qed.

Lemma loads_fold sems l c f :
  fold_left (fun acc s => let '(limit, taken) := service_load sems s in (wrap32 (acc.1 + limit), wrap32 (acc.2 + taken))) l (wrap32 c, wrap32 f)
  = (wrap32 (c + sum_of (fun s => (service_load sems s).1) l), wrap32 (f + sum_of (fun s => (service_load sems s).2) l)).
Proof.
  revert c f. induction l as [|s l IH]; intros c f; simpl; [by rewrite !Z.add_0_r|].
  destruct (service_load sems s) as [limit taken]. simpl. rewrite !wrap32_add, IH. do 2 f_equal; lia.
Qed.

(** The services of the table that can take a request for the bind. *)
Definition pool_of (now down_threshold : Z) (clients : client_map) (host : str) (path : option str) : list ServiceState :=
  concat ((fun ic => connection_pool now down_threshold host path ic.2) <$> clients).
Definition serving (now down_threshold : Z) (clients : client_map) (host : str) (path : option str) : Z :=
  Z.of_nat (length (filter (fun ic => connection_pool now down_threshold host path ic.2 ≠ []) clients)).

Lemma add_connection_spec now down sems host path i c f h :
  add_connection now down sems host path (wrap32 i, wrap32 c, wrap32 f) h
  = (wrap32 (i + if bool_decide (connection_pool now down host path h = []) then 0 else 1),
     wrap32 (c + sum_of (fun s => (service_load sems s).1) (connection_pool now down host path h)),
     wrap32 (f + sum_of (fun s => (service_load sems s).2) (connection_pool now down host path h))).
Proof.
  unfold add_connection. cbv zeta. rewrite loads_fold. destruct (bool_decide _); [by rewrite Z.add_0_r|by rewrite wrap32_add].
Qed.

Lemma measure_fold now down sems host path clients i c f :
  fold_left (fun out ic => add_connection now down sems host path out ic.2) clients (wrap32 i, wrap32 c, wrap32 f)
  = (wrap32 (i + serving now down clients host path),
     wrap32 (c + sum_of (fun s => (service_load sems s).1) (pool_of now down clients host path)),
     wrap32 (f + sum_of (fun s => (service_load sems s).2) (pool_of now down clients host path))).
Proof.
  unfold serving, pool_of. revert i c f. induction clients as [|[id h] clients IH]; intros i c f; [simpl; by rewrite !Z.add_0_r|].
  rewrite filter_cons. cbn [fold_left snd]. rewrite add_connection_spec, IH. csimpl. rewrite !sum_of_app.
  destruct (decide (connection_pool now down host path h ≠ [])) as [Hp|Hp].
  - rewrite bool_decide_eq_false_2 by done. cbn [length]. rewrite !Nat2Z.inj_succ. f_equal; [f_equal|]; f_equal; lia.
  - rewrite bool_decide_eq_true_2 by (by apply dec_stable). f_equal; [f_equal|]; f_equal; lia.
Qed.

Lemma load_within sems s : 0 <= default 0 (max_concurrent s) → 0 <= (service_load sems s).2 <= (service_load sems s).1.
Proof.
  unfold service_load. destruct (max_concurrent s) as [limit|]; [|simpl; lia]. destruct (inflight_limiter s) as [sem|]; [|simpl; lia].
  simpl. unfold sat_sub, wrap32. intros H. pose proof (Z.mod_pos_bound (default 0 (sems !! sem)) (2 ^ 32) eq_refl). lia.
Qed.

(** What the loop scales on is what the pool is doing: the connections that are up,
    not draining and have an eligible service, each once; the limits those services
    announced, and of these what is taken, which is never more. *)
Theorem measure_exact ratio now down sems clients host path :
  let cap := measure ratio now down sems clients host path in
  let pool := pool_of now down clients host path in
  serving now down clients host path < 2 ^ 32 → sum_of (fun s => (service_load sems s).1) pool < 2 ^ 32 →
  Forall (fun s => 0 <= default 0 (max_concurrent s)) pool →
  cp_instances cap = serving now down clients host path
  ∧ cp_capacity cap = sum_of (fun s => (service_load sems s).1) pool
  ∧ cp_inflight cap = sum_of (fun s => (service_load sems s).2) pool
  ∧ 0 <= cp_inflight cap <= cp_capacity cap.
Proof.
  cbv zeta. unfold measure. intros H1 H2 H3.
  change (0, 0, 0) with (wrap32 0, wrap32 0, wrap32 0). rewrite measure_fold. simpl.
  assert (Hs : 0 <= sum_of (fun s => (service_load sems s).2) (pool_of now down clients host path)
               <= sum_of (fun s => (service_load sems s).1) (pool_of now down clients host path)).
  { clear H1 H2. induction H3 as [|s l Hs _ IH]; simpl; [lia|]. pose proof (load_within sems s Hs). lia. }
  unfold wrap32. rewrite !Z.mod_small; [done|..]; unfold serving in *; lia.
Qed.

(** ** At most one call at a time *)

(** The runtime, the calls in flight by record, each with its place among the eight,
    and the calls that gave their place back and whose outcome is not recorded yet. *)
Record Calls : Type := { cl_runtime : ScalingRuntime; cl_flying : list str; cl_landed : list str }.

(** The calls begun and not ended. *)
Definition open_calls (c : Calls) : list str := cl_flying c ++ cl_landed c.

(** What a run has to tell apart: a record removed while a call of it is open, and a
    call whose request went away, or panicked, before its outcome was recorded. *)
Inductive CallEvent : Type := Ordinary | RemovedInFlight (id : str) | Abandoned (id : str).

(** Each step is what is done under one lock, or between two. *)
Inductive call_step : CallEvent → Calls → Calls → Prop :=
| Asking r reason current now c a rt :
    request_begin r reason current now (length (cl_flying c)) (cl_runtime c) = Some (a, rt) →
    call_step Ordinary c {| cl_runtime := rt;
                   cl_flying := match a with Calling _ => sr_id r :: cl_flying c | Answered _ => cl_flying c end;
                   cl_landed := cl_landed c |}
| Losing id now c rt :
    begin_call id now (cl_runtime c) = (Fire, rt) →
    call_step (Abandoned id) c {| cl_runtime := rt; cl_flying := cl_flying c; cl_landed := cl_landed c |}
| Landing id c rest :
    cl_flying c ≡ₚ id :: rest →
    call_step Ordinary c {| cl_runtime := cl_runtime c; cl_flying := rest; cl_landed := id :: cl_landed c |}
| Returning r success now c a rt rest :
    cl_landed c ≡ₚ sr_id r :: rest → request_end r success now (cl_runtime c) = Some (a, rt) →
    call_step Ordinary c {| cl_runtime := rt; cl_flying := cl_flying c; cl_landed := rest |}
| Abandoning id c rest :
    cl_flying c ≡ₚ id :: rest →
    call_step (Abandoned id) c {| cl_runtime := cl_runtime c; cl_flying := rest; cl_landed := cl_landed c |}
| Forgetting id c rest :
    cl_landed c ≡ₚ id :: rest →
    call_step (Abandoned id) c {| cl_runtime := cl_runtime c; cl_flying := cl_flying c; cl_landed := rest |}
| Sampling r cap now c :
    call_step Ordinary c {| cl_runtime := (scale_pass r cap now (cl_runtime c)).2; cl_flying := cl_flying c; cl_landed := cl_landed c |}
| Rearming id c :
    call_step Ordinary c {| cl_runtime := rearm id (cl_runtime c); cl_flying := cl_flying c; cl_landed := cl_landed c |}
| Removing id c :
    call_step (if bool_decide (id ∈ open_calls c) then RemovedInFlight id else Ordinary) c
      {| cl_runtime := forget id (cl_runtime c); cl_flying := cl_flying c; cl_landed := cl_landed c |}.

Inductive call_run : list CallEvent → Calls → Prop :=
| CallStart : call_run [] {| cl_runtime := []; cl_flying := []; cl_landed := [] |}
| CallNext es e c c' : call_run es c → call_step e c c' → call_run (e :: es) c'.

(** The open calls of one record. *)
Definition count_of (id : str) (os : list str) : nat := length (filter (fun x => x = id) os).
Definition flights (id : str) (c : Calls) : nat := count_of id (open_calls c).

(** The runtime and the open calls keep book of each other. *)
Record booked (es : list CallEvent) (rt : ScalingRuntime) (os : list str) : Prop := {
  records_once : NoDup (keys rt);
  one_each : ∀ id, RemovedInFlight id ∉ es → (count_of id os <= 1)%nat;
  flying_marked : ∀ id, RemovedInFlight id ∉ es → id ∈ os → waking rt id = true;
  marked_flying : ∀ id, Abandoned id ∉ es → waking rt id = true → id ∈ os;
}.

Definition calls_ok (es : list CallEvent) (c : Calls) : Prop :=
  (length (cl_flying c) <= MAX_CONCURRENT_CALLS)%nat ∧ booked es (cl_runtime c) (open_calls c).

Lemma count_cons id x os : count_of id (x :: os) = ((if decide (x = id) then 1 else 0) + count_of id os)%nat.
Proof. unfold count_of. rewrite filter_cons. by destruct (decide (x = id)). Qed.

Lemma count_none id os : id ∉ os → count_of id os = 0%nat.
Proof.
  intros H. unfold count_of. destruct (filter _ _) as [|x l] eqn:E; [done|]. assert (Hx : x ∈ filter (fun x => x = id) os) by (rewrite E; left).
  apply list_elem_of_filter in Hx as [-> Hx]. done.
Qed.

Lemma count_some id os : id ∈ os → (1 <= count_of id os)%nat.
Proof.
  intros H. unfold count_of. assert (Hx : id ∈ filter (fun x => x = id) os) by by apply list_elem_of_filter.
  destruct (filter _ _); [by apply elem_of_nil in Hx|simpl; lia].
Qed.

Lemma booked_perm es rt os os' : os ≡ₚ os' → booked es rt os → booked es rt os'.
Proof.
  intros Hp [H2 H3 H4 H5]. split; [done|..]; intros id.
  - unfold count_of. rewrite <- Hp. apply H3.
  - rewrite <- Hp. apply H4.
  - rewrite <- Hp. apply H5.
Qed.

Lemma booked_same es rt rt' os :
  NoDup (keys rt') → (∀ id, waking rt' id = waking rt id) → booked es rt os → booked es rt' os.
Proof. intros Hk Hw [H2 H3 H4 H5]. split; [done|done|..]; intros id; rewrite Hw; auto. Qed.

Lemma booked_later es e rt os : booked es rt os → booked (e :: es) rt os.
Proof. intros [H2 H3 H4 H5]. split; [done|..]; intros id Hi; rewrite not_elem_of_cons in Hi; destruct Hi; auto. Qed.

Lemma forget_waking id id' rt : NoDup (keys rt) → waking (forget id rt) id' = waking rt id' && negb (bool_decide (id' = id)).
Proof.
  intros H. unfold waking, bind_of, forget. destruct (decide (id' = id)) as [->|Hne].
  - rewrite aget_aremove_eq by done. rewrite bool_decide_eq_true_2 by done. by rewrite andb_false_r.
  - rewrite aget_aremove_ne by done. rewrite bool_decide_eq_false_2 by done. by rewrite andb_true_r.
Qed.

(** Every step changes the entries of its own record. *)
Lemma begin_keys id now rt v rt' : begin_call id now rt = (v, rt') → NoDup (keys rt) → NoDup (keys rt').
Proof. unfold begin_call. cbv zeta. intros E H. repeat case_in E; simplify_eq; by apply NoDup_aset. Qed.

Lemma finish_keys id success cooldown now rt rt' : finish_call id success cooldown now rt = Some rt' → NoDup (keys rt) → NoDup (keys rt').
Proof. unfold finish_call. cbv zeta. intros E H. repeat case_in E; simplify_eq; by apply NoDup_aset. Qed.

Lemma pass_keys r cap now rt : NoDup (keys rt) → NoDup (keys (scale_pass r cap now rt).2).
Proof. intros H. unfold scale_pass, saturation_reached, idle_reached. cbv zeta. repeat case_match; simplify_eq/=; try done; repeat apply NoDup_aset; done. Qed.

(** A record set going, with a call of it open or with none. *)
Lemma booked_fire es id now rt rt' os :
  booked es rt os → begin_call id now rt = (Fire, rt') → booked es rt' (id :: os) ∧ booked (Abandoned id :: es) rt' os.
Proof.
  intros [H2 H3 H4 H5] Eb. pose proof (begin_keys _ _ _ _ _ Eb H2) as Hk.
  pose proof (begin_waking _ _ _ _ _ id Eb) as (_ & Hfree & _). specialize (Hfree eq_refl).
  assert (Hw : ∀ id', waking rt' id' = waking rt id' || bool_decide (id' = id)).
  { intros id'. destruct (begin_waking _ _ _ _ _ id' Eb) as (-> & _). f_equal. apply bool_decide_ext. naive_solver. }
  split; split; try done; intros id' Hr.
  - rewrite count_cons. destruct (decide (id = id')) as [<-|Hne]; [|by apply H3].
    rewrite count_none; [lia|]. intros Hin. rewrite H4 in Hfree; done.
  - intros [->|Hin]%elem_of_cons; rewrite Hw; apply orb_true_iff; [right; by apply bool_decide_eq_true|left; by apply H4].
  - rewrite Hw, orb_true_iff, bool_decide_eq_true. intros [Hx| ->]; [right; by apply H5|left].
  - apply H3. set_solver.
  - intros Hin. rewrite Hw, H4; [done|set_solver|done].
  - rewrite Hw, orb_true_iff, bool_decide_eq_true. intros [Hx| ->]; [apply H5; [set_solver|done]|set_solver].
Qed.

(** An open call less, with its record unmarked or not. *)
Lemma booked_less es id rt rest :
  booked es rt (id :: rest) →
  booked (Abandoned id :: es) rt rest
  ∧ ∀ rt', NoDup (keys rt') → (∀ id', waking rt' id' = waking rt id' && negb (bool_decide (id' = id))) → booked es rt' rest.
Proof.
  intros [H2 H3 H4 H5].
  assert (Hless : ∀ id', RemovedInFlight id' ∉ es → (count_of id' rest <= 1)%nat ∧ (id' ∈ rest → id' ≠ id)).
  { intros id' Hr. specialize (H3 id' Hr). rewrite count_cons in H3. split; [lia|].
    intros Hin%count_some ->. rewrite decide_True in H3 by done. lia. }
  split; [|intros rt' Hk Hw]; split; try done; intros id' Hr.
  - apply Hless. set_solver.
  - intros Hin. apply H4; [set_solver|by right].
  - rewrite not_elem_of_cons in Hr. destruct Hr as [Hne Hr]. intros Hx%H5; [|done]. apply elem_of_cons in Hx as [->|Hx]; done.
  - by apply Hless.
  - intros Hin. rewrite Hw, H4 by (done || by right). rewrite bool_decide_eq_false_2; [done|]. by apply (Hless id' Hr).
  - rewrite Hw, andb_true_iff, negb_true_iff, bool_decide_eq_false. intros [Hx Hne]. apply H5 in Hx; [|done]. set_solver.
Qed.

Lemma booked_forget es id rt os :
  booked es rt os → booked ((if bool_decide (id ∈ os) then RemovedInFlight id else Ordinary) :: es) (forget id rt) os.
Proof.
  intros [H2 H3 H4 H5]. split; [by apply NoDup_aremove|..]; intros id' Hi; rewrite not_elem_of_cons in Hi; destruct Hi as [Hne Hi].
  - by apply H3.
  - intros Hin. rewrite forget_waking, H4 by done. rewrite bool_decide_eq_false_2; [done|]. intros ->.
    by rewrite bool_decide_eq_true_2 in Hne.
  - rewrite forget_waking by done. intros [Hw _]%andb_true_iff. by apply H5.
Qed.

Lemma asking_ok es r reason current now c a rt :
  calls_ok es c → request_begin r reason current now (length (cl_flying c)) (cl_runtime c) = Some (a, rt) →
  calls_ok es {| cl_runtime := rt; cl_flying := match a with Calling _ => sr_id r :: cl_flying c | Answered _ => cl_flying c end;
                 cl_landed := cl_landed c |}.
Proof.
  intros [H1 Hb] E. unfold request_begin in E. destruct (begin_call (sr_id r) now (cl_runtime c)) as [v rt1] eqn:Eb.
  assert (Hsame : v ≠ Fire → booked es rt1 (open_calls c)).
  { intros Hv. eapply booked_same; [eapply begin_keys; [exact Eb|apply Hb]| |exact Hb]. intros id.
    destruct (begin_waking _ _ _ _ _ id Eb) as (-> & _). rewrite bool_decide_eq_false_2 by naive_solver. apply orb_false_r. }
  destruct v; [|by injection E as <- <-; split; [|apply Hsame]..].
  destruct (booked_fire _ _ _ _ _ _ Hb Eb) as [Hfire _]. destruct (_ <=? _)%nat eqn:Ec.
  - destruct (finish_call _ _ _ _ _) as [rt2|] eqn:Ef; [|done]. injection E as <- <-. split; [done|].
    eapply booked_less; [exact Hfire|eapply finish_keys; [exact Ef|apply Hfire]|]. intros id. by eapply finish_waking.
  - injection E as <- <-. apply Nat.leb_gt in Ec. split; [simpl; unfold MAX_CONCURRENT_CALLS in *; lia|exact Hfire].
Qed.

Lemma call_run_ok es c : call_run es c → calls_ok es c.
Proof.
  induction 1 as [|es e c c' _ IH Hs].
  { split; [simpl; unfold MAX_CONCURRENT_CALLS; lia|]. split; [apply NoDup_nil_2|intros; simpl; rewrite count_none; [lia|apply not_elem_of_nil]|set_solver|done]. }
  destruct Hs as [r reason current now c a rt E|id now c rt E|id c rest Hp|r success now c a rt rest Hp E|id c rest Hp|id c rest Hp|r cap now c|id c|id c].
  - apply (asking_ok _ r reason current now c a rt) in IH; [|done]. destruct IH as [H1 Hb]. split; [done|by apply booked_later].
  - destruct IH as [H1 Hb]. split; [done|]. by eapply booked_fire.
  - destruct IH as [H1 Hb]. split; [simpl; rewrite Hp in H1; simpl in H1; lia|]. apply booked_later.
    eapply booked_perm; [|exact Hb]. unfold open_calls. simpl. rewrite Hp. simpl. by rewrite Permutation_middle.
  - destruct IH as [H1 Hb]. split; [done|]. unfold request_end in E.
    destruct (finish_call _ _ _ _ _) as [rt2|] eqn:Ef; [|done]. injection E as _ <-. apply booked_later.
    apply (booked_perm _ _ _ (sr_id r :: cl_flying c ++ rest)) in Hb; [|unfold open_calls; rewrite Hp; by rewrite Permutation_middle].
    eapply booked_less; [exact Hb|eapply finish_keys; [exact Ef|apply Hb]|]. intros id. by eapply finish_waking.
  - destruct IH as [H1 Hb]. split; [simpl; rewrite Hp in H1; simpl in H1; lia|].
    apply (booked_less _ id). eapply booked_perm; [|exact Hb]. unfold open_calls. simpl. by rewrite Hp.
  - destruct IH as [H1 Hb]. split; [done|]. apply (booked_less _ id). eapply booked_perm; [|exact Hb].
    unfold open_calls. simpl. rewrite Hp. by rewrite Permutation_middle.
  - destruct IH as [H1 Hb]. split; [done|]. apply booked_later. eapply booked_same; [by apply pass_keys, Hb| |exact Hb].
    intros id. apply same_waking, pass_same.
  - destruct IH as [H1 Hb]. split; [done|]. apply booked_later. eapply booked_same; [by apply NoDup_aset, Hb| |exact Hb].
    intros id'. cbn [cl_runtime]. unfold waking, rearm. rewrite bind_of_aset. by destruct (decide (id' = id)) as [->|].
  - destruct IH as [H1 Hb]. split; [done|]. by apply booked_forget.
Qed.

(** C24: Whatever visitors, the loop, re-announcements and removals do and in whatever
    order, no more than eight calls are in flight in all. A call is open from the moment
    its record is marked as waking until its outcome is recorded. A record that was never
    removed while a call of it was open has at most one open call, and is marked as waking
    while it has; and a record none of whose calls was abandoned before its outcome was
    recorded is marked as waking only while a call of it is open. *)
Theorem single_flight es c :
  call_run es c →
  (length (cl_flying c) <= MAX_CONCURRENT_CALLS)%nat
  ∧ ∀ id,
    (RemovedInFlight id ∉ es → (flights id c <= 1)%nat ∧ (id ∈ open_calls c → b_waking (bind_of (cl_runtime c) id) = true))
    ∧ (Abandoned id ∉ es → b_waking (bind_of (cl_runtime c) id) = true → id ∈ open_calls c).
Proof.
  intros [H1 [_ H3 H4 H5]]%call_run_ok. split; [done|]. intros id. split; [intros Hr; split; [by apply H3|by apply H4]|by apply H5].
Qed.

(** ** Pace and breaker *)

(** What the runtime goes through between the end of one call of a record and its
    next: anything but another end, a re-arming or a removal of that record. *)
Inductive runtime_step (id : str) : ScalingRuntime → ScalingRuntime → Prop :=
| Begun id' now rt v : (begin_call id' now rt).1 = v → (id' = id → v ≠ Fire) → runtime_step id rt (begin_call id' now rt).2
| Ended id' success cooldown now rt rt' : id' ≠ id → finish_call id' success cooldown now rt = Some rt' → runtime_step id rt rt'
| Sampled r cap now rt : runtime_step id rt (scale_pass r cap now rt).2
| Rearmed id' rt : id' ≠ id → runtime_step id rt (rearm id' rt).

Lemma finish_other id id' success cooldown now rt rt' :
  finish_call id' success cooldown now rt = Some rt' → id' ≠ id → bind_of rt' id = bind_of rt id.
Proof.
  unfold finish_call. cbv zeta. intros E Hne.
  assert (∃ b, rt' = aset id' b rt) as [b ->] by (destruct success; (destruct (instant_add _ _); [|done]); injection E as <-; by eexists).
  rewrite bind_of_aset. by rewrite decide_False.
Qed.

Lemma begin_keeps id id' now rt v :
  (begin_call id' now rt).1 = v → (id' = id → v ≠ Fire) → bind_of (begin_call id' now rt).2 id = bind_of rt id.
Proof.
  unfold begin_call. cbv zeta. intros Ev Hv. destruct (decide (id = id')) as [->|Hne].
  - destruct (b_disarmed _); [|destruct (b_waking _); [|destruct (match b_cooldown_until _ with Some _ => _ | None => _ end)]]; simpl in *;
      rewrite ?bind_of_aset, ?decide_True by done; try done. by destruct (Hv eq_refl).
  - destruct (b_disarmed _); [|destruct (b_waking _); [|destruct (match b_cooldown_until _ with Some _ => _ | None => _ end)]]; simpl;
      by rewrite bind_of_aset, decide_False.
Qed.

Lemma runtime_step_keeps id rt rt' :
  runtime_step id rt rt' → ∃ s i, bind_of rt' id = with_since (bind_of rt id) s i.
Proof.
  destruct 1 as [id' now rt v Ev Hv|id' success cooldown now rt rt' Hne E|r cap now rt|id' rt Hne].
  - rewrite (begin_keeps id id' now rt v Ev Hv). apply same_calls_refl.
  - rewrite (finish_other id _ _ _ _ _ _ E Hne). apply same_calls_refl.
  - apply pass_same.
  - unfold rearm. rewrite bind_of_aset, decide_False by done. apply same_calls_refl.
Qed.

Lemma runtime_steps_keep id rt rt' :
  rtc (runtime_step id) rt rt' → ∃ s i, bind_of rt' id = with_since (bind_of rt id) s i.
Proof.
  induction 1 as [rt|rt rt1 rt2 H1 _ (s & i & IH)]; [apply same_calls_refl|].
  apply runtime_step_keeps in H1 as (s1 & i1 & E1). rewrite IH, E1. by exists s, i.
Qed.

(** Two calls for one record are apart: after a call asked at [t1] has ended, the
    next one leaves no earlier than its cooldown later, or after a failure no
    earlier than the backoff, which doubles with every failure up to a quarter of
    an hour; and after the fifth failure in a row none leaves at all. *)
Theorem calls_paced id success cooldown t1 rt rt1 rt2 t2 :
  finish_call id success cooldown t1 rt = Some rt1 → rtc (runtime_step id) rt1 rt2 → (begin_call id t2 rt2).1 = Fire →
  t1 + (if success then cooldown else backoff_secs cooldown (sat_add32 (b_failures (bind_of rt id)) 1)) * second <= t2
  ∧ (success = false → sat_add32 (b_failures (bind_of rt id)) 1 < BREAKER_THRESHOLD).
Proof.
  intros Ef Hr Hb. apply runtime_steps_keep in Hr as (s & i & Er). unfold begin_call in Hb. rewrite Er in Hb. simpl in Hb.
  unfold finish_call in Ef. cbv zeta in Ef. destruct success; destruct (instant_add _ _) as [until|] eqn:Ei; try done;
    injection Ef as <-; apply instant_add_Some in Ei as ->; rewrite bind_of_aset, decide_True in Hb by done; simpl in Hb.
  - destruct (b_disarmed _); [done|]. destruct (_ <? _) eqn:Et; [done|]. apply Z.ltb_ge in Et. split; [done|discriminate].
  - destruct (b_disarmed _); simpl in Hb; [done|]. destruct (_ <=? _) eqn:Eb in Hb; [done|]. destruct (_ <? _) eqn:Et; [done|].
    apply Z.ltb_ge in Et. apply Z.leb_gt in Eb. done.
Qed.

Lemma backoff_range cooldown failures : 1 <= backoff_secs cooldown failures <= MAX_BACKOFF_SECS.
Proof. unfold backoff_secs, MAX_BACKOFF_SECS. lia. Qed.

(** ** What the loop asks for *)

(** The capacity asked for stays within what the record declares: one more than
    there are and no more than the maximum, or one fewer than there are and no
    fewer than the minimum or one. *)
Theorem desired_within_bounds r cap now rt reason rt' :
  scale_pass r cap now rt = (Some reason, rt') → 0 <= sr_min r → 0 <= cp_instances cap → sr_max r < 2 ^ 32 →
  match reason with
  | ScaleOut => desired r reason (cp_instances cap) = cp_instances cap + 1 ∧ cp_instances cap + 1 <= sr_max r
  | ScaleIn => desired r reason (cp_instances cap) = cp_instances cap - 1 ∧ sr_min r <= cp_instances cap - 1 ∧ 1 <= cp_instances cap - 1
  | ColdStart => False
  end.
Proof.
  unfold scale_pass. intros E Hmin Hi Hmax. destruct (sr_max r =? 0) eqn:E0; [done|]. destruct (_ || _); [done|]. cbv zeta in E.
  destruct (sr_max r <=? cp_instances cap) eqn:Ec.
  - destruct (Z.max (sr_min r) 1 <? cp_instances cap) eqn:Ef; [|done]. destruct (idle_reached _ _ _ _) as [[|] ?]; simplify_eq.
    unfold desired, sat_sub. lia.
  - destruct (saturation_reached _ _ _ _) as [[|] rt1]; simplify_eq.
    + unfold desired, sat_add32. lia.
    + destruct (Z.max (sr_min r) 1 <? cp_instances cap) eqn:Ef; [|done]. destruct (idle_reached _ _ _ _) as [[|] ?]; simplify_eq.
      unfold desired, sat_sub. lia.
Qed.

(** Samples given to the saturation gate one after another. *)
Fixpoint saturation_samples (r : ScalingRecord F) (l : list (F * Z)) (rt : ScalingRuntime) : bool * ScalingRuntime :=
  match l with
  | [] => (false, rt)
  | [(u, t)] => saturation_reached r u t rt
  | (u, t) :: l => saturation_samples r l (saturation_reached r u t rt).2
  end.

Lemma saturation_since r u t rt :
  b_saturated_since (bind_of (saturation_reached r u t rt).2 (sr_id r))
  = if fltb u (sr_target_utilization r) then None else Some (default t (b_saturated_since (bind_of rt (sr_id r)))).
Proof.
  unfold saturation_reached. cbv zeta. destruct (fltb _ _); [by simpl; rewrite bind_of_aset, decide_True|].
  destruct (b_saturated_since (bind_of rt (sr_id r))); by simpl; rewrite bind_of_aset, decide_True.
Qed.

Lemma saturation_run r l rt u t :
  (saturation_samples r (l ++ [(u, t)]) rt).1 = true →
  ∃ since, (b_saturated_since (bind_of rt (sr_id r)) = Some since ∧ Forall (fun x => fltb x.1 (sr_target_utilization r) = false) l
            ∨ ∃ pre v post, l = pre ++ (v, since) :: post
                ∧ Forall (fun x => fltb x.1 (sr_target_utilization r) = false) ((v, since) :: post))
           ∧ fltb u (sr_target_utilization r) = false ∧ sr_window_secs r * second <= sat_sub t since.
Proof.
  revert rt. induction l as [|[v s] l IH]; intros rt.
  - simpl. unfold saturation_reached. cbv zeta. destruct (fltb u _) eqn:Eu; [done|].
    destruct (b_saturated_since (bind_of rt (sr_id r))) as [since|] eqn:Es; [|done]. simpl. intros H. apply Z.leb_le in H.
    exists since. split; [left; split; [done|constructor]|done].
  - intros H. assert (H' : (saturation_samples r (l ++ [(u, t)]) (saturation_reached r v s rt).2).1 = true).
    { destruct l as [|[v' s'] l]; exact H. }
    destruct (IH _ H') as (since & [[Hs Hl]|(pre & w & post & -> & Hp)] & Hu & Hw); exists since; (split; [|done]).
    + rewrite saturation_since in Hs. destruct (fltb v (sr_target_utilization r)) eqn:Ev; [done|]. injection Hs as Hs.
      destruct (b_saturated_since (bind_of rt (sr_id r))) as [x|] eqn:Ex; simpl in Hs; subst.
      * left. split; [done|]. by constructor.
      * right. exists [], v, l. split; [done|]. by constructor.
    + right. by exists ((v, s) :: pre), w, post.
Qed.

(** A record never sampled before scales out only when every sample for at least its
    whole window was at or above the target. *)
Theorem saturation_is_sustained r l u t :
  (saturation_samples r (l ++ [(u, t)]) []).1 = true →
  ∃ pre v since post, l = pre ++ (v, since) :: post ∧ sr_window_secs r * second <= sat_sub t since
    ∧ Forall (fun x => fltb x.1 (sr_target_utilization r) = false) ((v, since) :: post ++ [(u, t)]).
Proof.
  intros (since & [[Hs _]|(pre & v & post & -> & Hp)] & Hu & Hw)%saturation_run; [done|].
  exists pre, v, since, post. split; [done|]. split; [done|]. inversion Hp; subst. constructor; [done|]. apply Forall_app. by repeat constructor.
Qed.

End Loop.

(** ** Declarations, revocations and the API *)

Section Arming.
Context {F : Type} `{HF : Float F} (sha256 : str → str) (scheme_of : str → option str) (of_wire : Z → F) (finite : F → bool)
  (show_f64 : F → str) (default_target : F).

#[local] Abbreviation record_from_decl := (record_from_decl sha256 scheme_of of_wire finite show_f64 default_target).
#[local] Abbreviation upsert := (upsert sha256 show_f64).

(** The declaration of a heartbeat, for each hostname of its service; the first one
    refused ends it. Whether it was refused, the store and the runtime after. *)
Fixpoint arm (ok : bool) (now : Z) (d : ScalingDecl) (org path token : option str) (hosts : list str)
    (s : ScalingStore (F := F)) (rt : ScalingRuntime) : bool * ScalingStore (F := F) * ScalingRuntime :=
  match hosts with
  | [] => (false, s, rt)
  | host :: hosts =>
      match record_from_decl d org host path with
      | None => (true, s, rt)
      | Some r =>
          let '(outcome, s) := upsert ok r token now s in
          arm ok now d org path token hosts s (match outcome with Unchanged => rt | _ => rearm (sr_id r) rt end)
      end
  end.

(** What the API shows of a record; the secret only as whether there is one. *)
Definition render (r : ScalingRecord F) (rt : ScalingRuntime) : str * str * bool * bool :=
  (sr_id r, sr_url r, bool_decide (is_Some (sr_secret r)), is_disarmed rt (sr_id r)).

Definition scaling_list_handler (org : option str) (s : ScalingStore (F := F)) (rt : ScalingRuntime) : list (str * str * bool * bool) :=
  (fun r => render r rt) <$> filter (fun r => sr_org_id r = org) (mem s).

Definition scaling_delete_handler (ok : bool) (org : option str) (id : str) (s : ScalingStore (F := F)) (rt : ScalingRuntime) :
    result unit Z * ScalingStore (F := F) * ScalingRuntime :=
  if negb (existsb (fun r => str_eqb (sr_id r) id && bool_decide (sr_org_id r = org)) (mem s)) then (Err 404, s, rt)
  else (Ok tt, (scaling_delete ok id s).2, forget id rt).

(** A declaration that is accepted is within every bound: an http(s) URL, a hold of
    at most five minutes, a window and a cooldown of at least a second, a target in
    (0, 1], a maximum that is zero or not below the minimum; and its record is the
    bind's own. *)
Theorem armed_within_bounds d org host path r :
  record_from_decl d org host path = Some r → 0 <= sc_max d →
  sr_id r = scaling_key org host path ∧ sr_org_id r = org ∧ sr_hostname r = host ∧ sr_path r = path
  ∧ (scheme_of (sr_url r) = Some (bs "http") ∨ scheme_of (sr_url r) = Some (bs "https"))
  ∧ 0 <= sr_cold_start_secs r <= MAX_COLD_START_SECS ∧ 1 <= sr_window_secs r <= u64_max ∧ 1 <= sr_cooldown_secs r <= u64_max
  ∧ (sr_max r = 0 ∨ sr_min r <= sr_max r)
  ∧ (sr_target_utilization r = default_target
     ∨ fleb (sr_target_utilization r) fzero = false ∧ fleb (sr_target_utilization r) (fnum 1) = true)
  ∧ sr_config_hash r = compute_hash sha256 show_f64 r ∧ sr_owners r = [].
Proof.
  unfold Scaling.record_from_decl. cbv zeta. destruct (str_eqb (trim (sc_url d)) []); [done|].
  destruct (scheme_of (trim (sc_url d))) as [scheme|] eqn:Es; [|done]. destruct (_ || _) eqn:Eh; [|done]. simpl negb. cbv iota.
  destruct (declared_secs (sc_cold_start d) _ _) as [cold|] eqn:E1; [|done].
  destruct (declared_secs (sc_window d) _ _) as [window|] eqn:E2; [|done].
  destruct (declared_secs (sc_cooldown d) _ _) as [cooldown|] eqn:E3; [|done].
  destruct (declared_target of_wire finite default_target _) as [target|] eqn:E4; [|done].
  destruct (_ && _) eqn:Em; [done|]. intros E Hmax. apply (inj Some) in E as <-. simpl.
  assert (Hd : ∀ raw n, parse_duration_secs raw = Some n → 0 <= n <= u64_max).
  { intros raw n. unfold parse_duration_secs. cbv zeta. destruct (str_eqb _ []); [done|].
    destruct (match last _ with Some _ => _ | None => _ end) as [number mult] eqn:El.
    assert (Hmult : 0 <= mult).
    { destruct (last (lower (trim raw))); [repeat case_bool_decide|]; simplify_eq; lia. }
    destruct (parse_uint u64_max number) as [k|] eqn:Ep; [|done]. apply parse_uint_range in Ep.
    destruct (_ <=? _) eqn:Eu; [|done]. intros [= <-]. apply Z.leb_le in Eu. nia. }
  assert (Hs : ∀ raw dflt f n, declared_secs raw dflt f = Some n → (∃ k, 0 <= k <= u64_max ∧ n = f k) ∨ n = dflt).
  { intros raw dflt f n. unfold declared_secs. destruct raw as [raw|]; [|intros [= <-]; by right].
    destruct (parse_duration_secs raw) as [k|] eqn:Ek; [|done]. intros [= <-]. left. exists k. split; [by eapply Hd|done]. }
  apply Hs in E1, E2, E3. unfold DEFAULT_COLD_START_SECS, DEFAULT_WINDOW_SECS, DEFAULT_COOLDOWN_SECS, MAX_COLD_START_SECS, u64_max in *.
  do 4 (split; [done|]). split; [|split; [|split; [|split; [|split; [|split]]]]].
  - rewrite Es. apply orb_true_iff in Eh as [H|H]; apply str_eqb_eq in H as ->; [by left|by right].
  - destruct E1 as [(k & Hk & ->)| ->]; lia.
  - destruct E2 as [(k & Hk & ->)| ->]; lia.
  - destruct E3 as [(k & Hk & ->)| ->]; lia.
  - apply andb_false_iff in Em as [Em|Em]; [apply Z.ltb_ge in Em|apply Z.ltb_ge in Em]; lia.
  - unfold declared_target in E4. destruct (sc_target_utilization d); [|injection E4 as <-; by left].
    destruct (_ && _ && _) eqn:Et; [|done]. injection E4 as <-. right. by to_prop.
  - done.
Qed.

End Arming.

(** ** Announcements *)

Section Announcing.
Context {F : Type} (sha256 : str → str) (show_f64 : F → str).

#[local] Abbreviation upsert := (upsert sha256 show_f64).

Lemma find_row_snoc (l : list (ScalingRecord F)) x id :
  find_row sr_id id (l ++ [x]) = match find_row sr_id id l with
                                 | Some y => Some y | None => if has_id sr_id id x then Some x else None end.
Proof. unfold find_row. induction l as [|a l IH]; csimpl; [done|]. by destruct (has_id sr_id id a). Qed.

(** A replacement that keeps the id of the row it replaces. *)
Definition keeping (id : str) (f : ScalingRecord F → ScalingRecord F) (t : ScalingRecord F) : ScalingRecord F :=
  if has_id sr_id id t then f t else t.

Lemma modify_keeping id f l : modify_row sr_id id f l = modify_row sr_id id (keeping id f) l.
Proof. induction l as [|a l IH]; csimpl; [done|]. unfold keeping at 1. destruct (has_id sr_id id a); [done|by rewrite IH]. Qed.

(** However many replicas announce_rec a bind, in whatever order, there is one record for
    it, it holds the configuration announced last, and every announcer's token is
    among its owners; the records of other binds are untouched. A replica that
    announces what is already there changes nothing but the time and the owners. *)
Theorem replicas_converge ok r owner now s v s' :
  upsert ok r owner now s = (v, s') → NoDup (sr_id <$> mem s) →
  NoDup (sr_id <$> mem s')
  ∧ (∃ e, find_row sr_id (sr_id r) (mem s') = Some e ∧ sr_config_hash e = compute_hash sha256 show_f64 r ∧ sr_last_seen e = now
          ∧ ∀ o, owner = Some o → o ∈ sr_owners e)
  ∧ (∀ id, id ≠ sr_id r → find_row sr_id id (mem s') = find_row sr_id id (mem s))
  ∧ (v = Unchanged → ∃ e, find_row sr_id (sr_id r) (mem s) = Some e ∧
       find_row sr_id (sr_id r) (mem s') = Some (with_meta e (add_owner owner (sr_owners e)) (sr_config_hash e) (sr_created_at e) now)).
Proof.
  unfold Scaling.upsert. cbv zeta. set (r' := with_meta r _ _ _ _). simpl sr_id.
  assert (Hadd : ∀ o l, owner = Some o → o ∈ add_owner owner l).
  { intros o l ->. simpl. destruct (existsb (str_eqb o) l) eqn:Ex; [|set_solver]. apply existsb_Exists in Ex as (x & Hx & Ho).
    apply str_eqb_eq in Ho. by subst. }
  intros E Hn. destruct (find_row sr_id (sr_id r) (mem s)) as [e|] eqn:Ef; apply pair_eq in E as [Ev <-].
  - assert (Hm : mem (persist_scaling ok (modify_row sr_id (sr_id r) (fun e => refreshed e r' owner now) (mem s)) s)
                 = modify_row sr_id (sr_id r) (keeping (sr_id r) (fun e => refreshed e r' owner now)) (mem s)).
    { rewrite <- modify_keeping. unfold persist_scaling. by destruct ok. }
    rewrite Hm. set (f := keeping (sr_id r) (fun e => refreshed e r' owner now)).
    assert (Hf : ∀ t, sr_id (f t) = sr_id t).
    { intros t. unfold f, keeping. destruct (has_id sr_id (sr_id r) t) eqn:Et; [|done]. apply has_id_spec in Et.
      unfold refreshed. destruct (str_eqb (sr_config_hash t) _); [done|]. symmetry. exact Et. }
    assert (Hfe : f e = refreshed e r' owner now).
    { unfold f, keeping. apply find_row_Some in Ef as [_ Ef]. unfold has_id. by rewrite Ef, str_eqb_refl. }
    assert (Hfind : find_row sr_id (sr_id r) (modify_row sr_id (sr_id r) f (mem s)) = Some (refreshed e r' owner now)).
    { rewrite <- Hfe. by apply find_row_modify. }
    split; [by rewrite modify_ids|]. split; [|split].
    + eexists. split; [exact Hfind|]. unfold refreshed. destruct (str_eqb (sr_config_hash e) (sr_config_hash r')) eqn:Eh; simpl.
      * apply str_eqb_eq in Eh. split; [done|]. split; [done|]. intros o Ho. by apply Hadd.
      * split; [done|]. split; [done|]. intros o Ho. by apply Hadd.
    + intros id Hne. by apply find_row_modify_other.
    + intros ->. exists e. split; [done|]. rewrite Hfind. unfold refreshed. by destruct (str_eqb (sr_config_hash e) (sr_config_hash r')).
  - assert (Hm : ∀ x, mem (persist_scaling ok (mem s ++ [x]) s) = mem s ++ [x]) by (intros x; unfold persist_scaling; by destruct ok).
    rewrite Hm. set (new := with_meta r' _ _ _ _).
    assert (Hid : sr_id new = sr_id r) by done.
    assert (Hfind : ∀ id, find_row sr_id id (mem s ++ [new]) = match find_row sr_id id (mem s) with
                          | Some x => Some x | None => if has_id sr_id id new then Some new else None end).
    { intros id. apply find_row_snoc. }
    split; [|split; [|split]].
    + rewrite fmap_app. apply NoDup_app. split; [done|]. split; [|apply NoDup_singleton]. intros x Hx Hx'.
      apply list_elem_of_singleton in Hx' as ->. rewrite Hid in Hx. by apply find_row_None in Ef.
    + exists new. rewrite Hfind, Ef. unfold has_id. rewrite Hid, str_eqb_refl. split; [done|]. split; [done|]. split; [done|].
      intros o ->. simpl. set_solver.
    + intros id Hne. rewrite Hfind. destruct (find_row sr_id id (mem s)); [done|]. destruct (has_id sr_id id new) eqn:Eh; [|done].
      apply has_id_spec in Eh. congruence.
    + by intros ->.
Qed.

End Announcing.

Section Owners.
Context {F : Type}.

Lemma disown_mem ok token (s : ScalingStore (F := F)) : mem (disown ok token s).2 = omap (disowned token) (mem s).
Proof. unfold disown, persist_scaling. cbv zeta. destruct (_ <? _)%nat, ok; done. Qed.

(** After a token is revoked the running server has no record it owns, and drops a
    record exactly when the token was its last owner; a record nobody owned stays,
    and none changes but in its owners. *)
Theorem revocation_disarms ok token (s : ScalingStore (F := F)) :
  let s' := (disown ok token s).2 in
  (∀ r, r ∈ mem s' → (token ∉ sr_owners r) ∧ ∃ r0, r0 ∈ mem s
        ∧ r = with_meta r0 (filter (fun o => o ≠ token) (sr_owners r0)) (sr_config_hash r0) (sr_created_at r0) (sr_last_seen r0))
  ∧ (∀ r0, r0 ∈ mem s → (sr_owners r0 = [] ∨ ∃ o, o ∈ sr_owners r0 ∧ o ≠ token) → ∃ r, r ∈ mem s' ∧ sr_id r = sr_id r0).
Proof.
  cbv zeta. rewrite disown_mem. split.
  - intros r (r0 & Hr0 & E)%list_elem_of_omap. unfold disowned in E. cbv zeta in E. destruct (_ || _); [|done].
    apply (inj Some) in E as <-. simpl. split; [by intros [? _]%list_elem_of_filter|]. eauto.
  - intros r0 Hr0 Ho. eexists. split; [apply list_elem_of_omap; exists r0; split; [done|]|].
    + unfold disowned. cbv zeta. rewrite (proj2 (orb_true_iff _ _)); [done|]. destruct Ho as [->|(o & Ho & Hne)]; [by left|right].
      apply negb_true_iff, bool_decide_eq_false. intros E.
      assert (o ∈ filter (fun o => o ≠ token) (sr_owners r0)) by by apply list_elem_of_filter. rewrite E in H. set_solver.
    + done.
Qed.

(** The API shows and disarms the records of the caller's organization only; an id
    of another organization is answered as an unknown one. *)
Theorem scaling_api_isolated ok org id (s : ScalingStore (F := F)) rt res s' rt' :
  scaling_delete_handler ok org id s rt = (res, s', rt') →
  (∀ r, r ∈ mem s → sr_org_id r ≠ org → r ∈ mem s' ∨ sr_id r = id ∧ ∃ r1, r1 ∈ mem s ∧ sr_id r1 = id ∧ sr_org_id r1 = org)
  ∧ ((∀ r, r ∈ mem s → sr_id r = id → sr_org_id r ≠ org) → res = Err 404 ∧ s' = s ∧ rt' = rt)
  ∧ (∀ v, v ∈ scaling_list_handler org s rt → ∃ r, r ∈ mem s ∧ sr_org_id r = org ∧ v = render r rt).
Proof.
  unfold scaling_delete_handler. intros E. split; [|split].
  - intros r Hr Ho. destruct (existsb _ (mem s)) eqn:Ex; simpl in E; apply pair_eq in E as [E _]; apply pair_eq in E as [_ <-].
    2:{ by left. }
    apply existsb_Exists in Ex as (r1 & Hr1 & H1). to_prop. apply str_eqb_eq in H.
    unfold scaling_delete. cbv zeta. destruct (_ =? _)%nat; [by left|]. destruct ok; [|by left]. simpl.
    destruct (decide (sr_id r = id)) as [Hid|Hid]; [right; split; [done|eauto]|left]. by apply list_elem_of_filter.
  - intros Hno. destruct (existsb _ (mem s)) eqn:Ex; simpl in E.
    + apply existsb_Exists in Ex as (r1 & Hr1 & H1). to_prop. apply str_eqb_eq in H. by destruct (Hno r1).
    + apply pair_eq in E as [E <-]. by apply pair_eq in E as [<- <-].
  - unfold scaling_list_handler. intros v (r & -> & [Ho Hr]%list_elem_of_filter)%list_elem_of_fmap. eauto.
Qed.

(** ** Cold starts *)

Definition scoped_match (host path : str) (r : ScalingRecord F) : bool :=
  record_matches host path r && bool_decide (is_Some (sr_path r)).

Lemma best_fold host path l best :
  fold_left (fun best r => if record_matches host path r && better best r then Some r else best) l best
  = match best with
    | Some b => if bool_decide (is_Some (sr_path b)) then Some b
                else match find (scoped_match host path) l with Some r => Some r | None => Some b end
    | None => match find (scoped_match host path) l with Some r => Some r | None => find (record_matches host path) l end
    end.
Proof.
  unfold scoped_match. revert best. induction l as [|a l IH]; intros best.
  - destruct best as [b|]; simpl; [|done]. by destruct (bool_decide _).
  - simpl. rewrite IH. unfold better. destruct best as [b|].
    + destruct (bool_decide (is_Some (sr_path b))) eqn:Eb; simpl; rewrite ?andb_false_r, ?andb_true_r; [by rewrite Eb|].
      destruct (record_matches host path a), (bool_decide (is_Some (sr_path a))) eqn:Ea; simpl; by rewrite ?Ea, ?Eb.
    + rewrite andb_true_r. destruct (record_matches host path a); simpl; [|done].
      destruct (bool_decide (is_Some (sr_path a))) eqn:Ea; simpl; by rewrite ?Ea.
Qed.

Lemma owners_admit_spec tokens ip owners restricted :
  owners_admit tokens ip owners restricted = true ↔
  (∃ o t, o ∈ owners ∧ find (fun t : str * list str => str_eqb t.1 o) tokens = Some t ∧ (t.2 = [] ∨ ip_allowed ip t.2 = true))
  ∨ restricted = false ∧ ∀ o, o ∈ owners → find (fun t : str * list str => str_eqb t.1 o) tokens = None.
Proof.
  revert restricted. induction owners as [|o owners IH]; intros restricted; simpl.
  - rewrite negb_true_iff. split; [intros ->; right; split; [done|set_solver]|intros [(o & t & Ho & _)|[H _]]; [set_solver|done]].
  - destruct (find _ tokens) as [t|] eqn:Ef.
    + destruct (bool_decide (t.2 = [])) eqn:Et.
      { apply bool_decide_eq_true in Et. split; [intros _; left; exists o, t; set_solver|done]. }
      destruct (ip_allowed ip t.2) eqn:Ei.
      { split; [intros _; left; exists o, t; split; [set_solver|auto]|done]. }
      rewrite IH. split.
      * intros [(o' & t' & Ho & H)|[H _]]; [left; exists o', t'; split; [set_solver|done]|done].
      * intros [(o' & t' & Ho & Hf & H)|[_ H]].
        -- apply elem_of_cons in Ho as [->|Ho]; [|left; by exists o', t'].
           rewrite Ef in Hf. apply (inj Some) in Hf as <-. apply bool_decide_eq_false in Et. destruct H; [done|congruence].
        -- rewrite (H o) in Ef; [done|set_solver].
    + rewrite IH. split.
      * intros [(o' & t' & Ho & H)|[H1 H2]]; [left; exists o', t'; split; [set_solver|done]|right].
        split; [done|]. intros o' [->|Ho]%elem_of_cons; [done|by apply H2].
      * intros [(o' & t' & Ho & Hf & H)|[H1 H2]].
        -- apply elem_of_cons in Ho as [->|Ho]; [congruence|left; by exists o', t'].
        -- right. split; [done|]. intros o' Ho. apply H2. set_solver.
Qed.

(** A missed request wakes a record exactly when the host is not in maintenance and
    the record is the host's first one scoped to the path, or without such a one its
    first of the whole host; the record opts into scale-to-zero; and a live owner's
    allowlist admits the visitor, or none of its owners is a token the server knows. *)
Theorem cold_start_exact maintenance store tokens hostname path ip r :
  cold_start_record (F := F) maintenance store tokens hostname path ip = Some r ↔
  ∃ host, hostname = Some host ∧ maintenance = false
    ∧ match find (scoped_match host path) store with Some x => Some x | None => find (record_matches host path) store end = Some r
    ∧ cold_start_enabled r = true
    ∧ (sr_owners r = []
       ∨ (∃ o t, o ∈ sr_owners r ∧ find (fun t : str * list str => str_eqb t.1 o) tokens = Some t ∧ (t.2 = [] ∨ ip_allowed ip t.2 = true))
       ∨ ∀ o, o ∈ sr_owners r → find (fun t : str * list str => str_eqb t.1 o) tokens = None).
Proof.
  assert (Hv : ∀ x : ScalingRecord F, visitor_allowed tokens x ip = true ↔
    (sr_owners x = []
       ∨ (∃ o t, o ∈ sr_owners x ∧ find (fun t : str * list str => str_eqb t.1 o) tokens = Some t ∧ (t.2 = [] ∨ ip_allowed ip t.2 = true))
       ∨ ∀ o, o ∈ sr_owners x → find (fun t : str * list str => str_eqb t.1 o) tokens = None)).
  { intros x. unfold visitor_allowed. destruct (bool_decide (sr_owners x = [])) eqn:E.
    - apply bool_decide_eq_true in E. naive_solver.
    - apply bool_decide_eq_false in E. rewrite owners_admit_spec. naive_solver. }
  unfold cold_start_record. split.
  - destruct hostname as [host|]; [|done]. destruct maintenance; [done|]. unfold best_record. rewrite best_fold. intros H. exists host.
    split; [done|]. split; [done|]. destruct (match find _ _ with Some _ => _ | None => _ end) as [x|]; [|done].
    destruct (cold_start_enabled x && visitor_allowed tokens x ip) eqn:Ec; [|done]. apply (inj Some) in H as <-.
    to_prop. split; [done|]. split; [done|]. by apply Hv.
  - intros (host & -> & -> & Hf & Hc & Ho). unfold best_record. rewrite best_fold, Hf, Hc. by rewrite (proj2 (Hv r) Ho).
Qed.

End Owners.

(** ** Samples *)

Module ScalingSamples.
Definition of_bits (n : Z) : Q := Qmake n 100.
Definition quotient (a b : Z) : Q := Qmake a (Z.to_pos b).
Definition halved (q : Q) : Q := Qmult q (Qmake 1 2).
Definition http (_ : str) : option str := Some (bs "https").
Definition from_decl := record_from_decl (F := Q) id http of_bits (fun _ => true) (fun _ => bs "0.8") (Qmake 4 5).

Definition decl (cooldown : str) : ScalingDecl :=
  {| sc_url := bs "https://up.test/scale"; sc_secret := Some (bs "s"); sc_min := 0; sc_max := 4; sc_cold_start := Some (bs "30s");
     sc_target_utilization := Some 80; sc_window := Some (bs "10s"); sc_cooldown := Some cooldown |}.
Definition armed (cooldown : str) : option (ScalingRecord Q) := from_decl (decl cooldown) None (bs "app.test") None.
Definition rec : ScalingRecord Q :=
  match armed (bs "1m") with Some r => r | None => {| sr_id := []; sr_org_id := None; sr_hostname := []; sr_path := None; sr_url := [];
     sr_secret := None; sr_min := 0; sr_max := 0; sr_cold_start_secs := 0; sr_target_utilization := Qmake 0 1; sr_window_secs := 0;
     sr_cooldown_secs := 0; sr_owners := []; sr_config_hash := []; sr_created_at := 0; sr_last_seen := 0 |} end.
Definition announce_rec := upsert (F := Q) id (fun _ => bs "0.8").
Definition at_s (n : Z) : Z := n * second.

Lemma armed_within_bounds_witness : armed (bs "1m") = Some rec ∧ 0 <= sr_cold_start_secs rec <= MAX_COLD_START_SECS.
Proof.
  assert (E : armed (bs "1m") = Some rec) by (vm_compute; reflexivity). split; [exact E|].
  pose proof (armed_within_bounds id http of_bits (fun _ => true) (fun _ => bs "0.8") (Qmake 4 5) (decl (bs "1m")) None (bs "app.test") None rec E) as H.
  destruct H as (_ & _ & _ & _ & _ & H & _); [vm_compute; discriminate|exact H].
Defined.

Definition empty_scaling : ScalingStore (F := Q) := load_all [].
Definition one_replica := (announce_rec true rec (Some (bs "t1")) 5 empty_scaling).2.
Definition two_replicas := (announce_rec true rec (Some (bs "t2")) 9 one_replica).2.
Lemma replicas_converge_witness :
  (announce_rec true rec (Some (bs "t2")) 9 one_replica).1 = Unchanged ∧ NoDup (sr_id <$> mem two_replicas).
Proof.
  split; [vm_compute; reflexivity|].
  refine (proj1 (replicas_converge id (fun _ => bs "0.8") true rec (Some (bs "t2")) 9 one_replica Unchanged two_replicas _ _)).
  - vm_compute. reflexivity.
  - apply (bool_decide_unpack _). vm_compute. exact I.
Defined.

(** One visitor wakes the record, a second one is held behind the same call, and the
    loop finds it waking too. *)
Definition woken : ScalingRuntime := (begin_call (sr_id rec) (at_s 1) []).2.
Definition flying : Calls := {| cl_runtime := woken; cl_flying := [sr_id rec]; cl_landed := [] |}.
Lemma flying_reached : call_run (F := Q) halved [Ordinary] flying.
Proof.
  eapply CallNext; [apply CallStart|].
  exact (Asking halved rec ColdStart 0 (at_s 1) {| cl_runtime := []; cl_flying := []; cl_landed := [] |} (Calling 1) woken eq_refl).
Qed.
Lemma single_flight_witness :
  (flights (sr_id rec) flying <= 1)%nat ∧ begin_call (sr_id rec) (at_s 2) woken = (AlreadyWaking, woken).
Proof.
  split; [|vm_compute; reflexivity]. apply (proj2 (single_flight halved [Ordinary] flying flying_reached)). intros H. set_solver.
Defined.

Definition failed_once : ScalingRuntime := default [] (finish_call (sr_id rec) false 60 (at_s 1) woken).
Lemma calls_paced_witness : at_s 1 + 120 * second <= at_s 121.
Proof.
  assert (E : finish_call (sr_id rec) false 60 (at_s 1) woken = Some failed_once) by (vm_compute; reflexivity).
  destruct (calls_paced halved (sr_id rec) false 60 (at_s 1) woken failed_once failed_once (at_s 121) E (rtc_refl _ _)) as [H _].
  - vm_compute. reflexivity.
  - vm_compute in H |- *. exact H.
Defined.

Definition pool (instances capacity inflight : Z) : Capacity (F := Q) :=
  {| cp_instances := instances; cp_capacity := capacity; cp_inflight := inflight; cp_utilization := quotient inflight capacity |}.
Definition busy : ScalingRuntime := (scale_pass halved rec (pool 2 10 9) (at_s 0) []).2.
Lemma desired_within_bounds_witness :
  desired rec ScaleOut 2 = 3 ∧ 3 <= sr_max rec.
Proof.
  apply (desired_within_bounds halved rec (pool 2 10 9) (at_s 10) busy ScaleOut (scale_pass halved rec (pool 2 10 9) (at_s 10) busy).2);
    vm_compute; [reflexivity|discriminate..|reflexivity].
Defined.

Lemma saturation_is_sustained_witness :
  ∃ pre v since post, [(Qmake 9 10, at_s 0); (Qmake 9 10, at_s 5)] = pre ++ (v, since) :: post
    ∧ sr_window_secs rec * second <= sat_sub (at_s 10) since
    ∧ Forall (fun x => fltb x.1 (sr_target_utilization rec) = false) ((v, since) :: post ++ [(Qmake 9 10, at_s 10)]).
Proof.
  apply (saturation_is_sustained rec [(Qmake 9 10, at_s 0); (Qmake 9 10, at_s 5)] (Qmake 9 10) (at_s 10)). vm_compute. reflexivity.
Defined.

Lemma scaling_api_isolated_witness :
  (scaling_delete_handler true (Some (bs "acme")) (sr_id rec) one_replica []).1.1 = Err 404.
Proof.
  refine (proj1 (proj1 (proj2 (scaling_api_isolated true (Some (bs "acme")) (sr_id rec) one_replica [] _ _ _ eq_refl)) _)).
  intros r Hr _. vm_compute in Hr. apply list_elem_of_singleton in Hr as ->. discriminate.
Defined.

Definition live : client_map := [(bs "c1", sample_connection [sample_service None (bs "web")])].
Lemma measure_exact_witness :
  serving 5 10 live (bs "acme.com") None = 1 ∧ cp_instances (measure quotient 5 10 ∅ live (bs "acme.com") None) = 1.
Proof.
  split; [vm_compute; reflexivity|].
  destruct (measure_exact quotient 5 10 ∅ live (bs "acme.com") None) as [H _]; [vm_compute; reflexivity..| |rewrite H; vm_compute; reflexivity].
  vm_compute. repeat constructor; discriminate.
Defined.

(** A call asked for and not made, because eight others are in flight, counts as a
    failure of the endpoint: five of them disarm a record that was never called. *)
Fixpoint starved (n : nat) (now : Z) (rt : ScalingRuntime) : option ScalingRuntime :=
  match n with
  | O => Some rt
  | S n => match request_begin rec ScaleOut 1 now MAX_CONCURRENT_CALLS rt with
           | Some (_, rt) => starved n (now + at_s 1000) rt
           | None => None
           end
  end.
Example budget_disarms_the_uncalled :
  match starved 5 0 [] with Some rt => is_disarmed rt (sr_id rec) = true | None => False end.
Proof. vm_compute. reflexivity. Qed.

(** While the pool is at its maximum the saturation is not sampled, so the instant it
    began survives any quiet: hours later, with an instance gone, one busy sample is
    taken for a whole window of them. *)
Definition quiet : ScalingRuntime := (scale_pass halved rec (pool 4 20 10) (at_s 7000) (scale_pass halved rec (pool 4 20 10) (at_s 3600) busy).2).2.
Example one_sample_scales_out :
  (scale_pass halved rec (pool 3 15 13) (at_s 7200) quiet).1 = Some ScaleOut
  ∧ (scale_pass halved rec (pool 3 15 13) (at_s 7200) []).1 = None.
Proof. by vm_compute. Qed.

(** A record removed while its call is in flight and announced again is called a
    second time beside the first. *)
Example removal_doubles_the_call :
  let rt := rearm (sr_id rec) (forget (sr_id rec) woken) in (begin_call (sr_id rec) (at_s 2) rt).1 = Fire.
Proof. vm_compute. reflexivity. Qed.

(** A call abandoned before its end leaves its record marked: no visitor and no pass of
    the loop calls it again. *)
Example abandoned_call_blocks_the_record :
  let c := {| cl_runtime := woken; cl_flying := []; cl_landed := [] |} in
  call_run halved [Abandoned (sr_id rec); Ordinary] c ∧ (begin_call (sr_id rec) (at_s 7200) (cl_runtime c)).1 = AlreadyWaking.
Proof.
  split; [|vm_compute; reflexivity]. eapply CallNext; [exact flying_reached|]. apply (Abandoning halved (sr_id rec) flying []). done.
Qed.

(** A cooldown has no upper bound, and adding one to the clock can overflow: a
    declaration that is accepted makes the successful call panic. *)
Example long_cooldown_panics :
  match armed (bs "18446744073709551615") with
  | Some r => finish_call (sr_id r) true (sr_cooldown_secs r) (at_s 1) woken = None
  | None => False
  end.
Proof. vm_compute. reflexivity. Qed.

(** Revoking one owner of two changes memory and not the table: after a restart the
    revoked token is an owner again, and the record outlives the last real one. *)
Example revoked_owner_comes_back :
  let after_first := (disown true (bs "t1") two_replicas).2 in
  let restarted := load_all (table after_first) in
  (sr_owners <$> mem after_first) = [[bs "t2"]]
  ∧ (sr_owners <$> mem restarted) = [[bs "t1"; bs "t2"]]
  ∧ (sr_owners <$> mem (disown true (bs "t2") restarted).2) = [[bs "t1"]].
Proof. by vm_compute. Qed.

(** The removal an operator asked for could not be saved and did not happen; the
    answer is the one for a removal that did. *)
Example unsaved_disarm_reported :
  let '(res, s, _) := scaling_delete_handler false None (sr_id rec) one_replica [] in
  res = Ok tt ∧ sr_id <$> mem s = [sr_id rec].
Proof. by vm_compute. Qed.
End ScalingSamples.
