(* ===== verification/Backend.v ===== *)
(** A request reaching the backend behind a client: the profiles of
    [aperio-config/src/resilience.rs], and of the client [adaptive.rs] (how much
    concurrency it announces), [proxy/http/resilience.rs] (the circuit breaker),
    [proxy/http/context.rs] (where a request goes), [proxy/http/stream.rs] and
    [proxy/http.rs] (the request path itself).

    The HTTP client and the URL parser are not part of the program: an attempt is
    the answer the model is given, a URL is its parts, and what [set_path] makes of
    a path or a query is a parameter. Times are nanoseconds. *)

From S2P Require Import Prelude Binds IpNet SiteRules Exchange.

(** ** Profiles *)

Inductive ResilienceProfile : Type := Off | Safe | Aggressive.

Inductive profile_error : Type := OldMeaning | NotAProfile.

(** A word of the configuration; [None] stands for a JSON boolean. *)
Definition parse_profile (word : option str) : result ResilienceProfile profile_error :=
  match word with
  | None => Err OldMeaning
  | Some raw =>
      let w := lower (trim raw) in
      if str_eqb w (bs "off") then Ok Off
      else if str_eqb w (bs "safe") then Ok Safe
      else if str_eqb w (bs "aggressive") then Ok Aggressive
      else if bool_decide (w ∈ [bs "true"; bs "false"; bs "1"; bs "0"; bs "yes"; bs "no"; bs "on"]) then Err OldMeaning
      else Err NotAProfile
  end.

Definition client_retry (p : ResilienceProfile) : Z * Z :=
  match p with Off => (1, 100) | Safe => (2, 100) | Aggressive => (3, 50) end.

Definition client_breaker (p : ResilienceProfile) : Z * Z :=
  match p with Off | Safe => (0, 30) | Aggressive => (3, 15) end.

(** ** The circuit breaker *)

Record BreakerState : Type := { bk_failures : Z; bk_open_until : option Z }.

Record BackendResilience : Type := {
  br_attempts : Z;
  br_backoff_ms : Z;
  br_all_methods : bool;
  br_breaker_failures : Z;
  br_breaker_open_secs : Z;
}.

Definition new_resilience (attempts backoff_ms : Z) (all_methods : bool) (breaker_failures open_secs : Z) : BackendResilience :=
  {| br_attempts := Z.max attempts 1; br_backoff_ms := backoff_ms; br_all_methods := all_methods;
     br_breaker_failures := breaker_failures; br_breaker_open_secs := Z.max open_secs 1 |}.

Definition may_retry_method (b : BackendResilience) (method : str) : bool :=
  br_all_methods b
  || bool_decide (upper method ∈ [bs "GET"; bs "HEAD"; bs "PUT"; bs "DELETE"; bs "OPTIONS"; bs "TRACE"]).

Inductive BreakerVerdict : Type := Proceed | Open (left : Z).

Definition check (b : BackendResilience) (now : Z) (st : BreakerState) : BreakerVerdict * BreakerState :=
  if br_breaker_failures b =? 0 then (Proceed, st)
  else match bk_open_until st with
       | Some until => if until <=? now then (Proceed, {| bk_failures := bk_failures st; bk_open_until := None |})
                       else (Open (until - now), st)
       | None => (Proceed, st)
       end.

Definition record_success (b : BackendResilience) (st : BreakerState) : BreakerState :=
  if br_breaker_failures b =? 0 then st else {| bk_failures := 0; bk_open_until := None |}.

(** The answer is whether this failure opened it. *)
Definition breaker_failure (b : BackendResilience) (now : Z) (st : BreakerState) : bool * BreakerState :=
  if br_breaker_failures b =? 0 then (false, st)
  else
    let failures := Z.min (2 ^ 32 - 1) (bk_failures st + 1) in
    if br_breaker_failures b <=? failures
    then (match bk_open_until st with None => true | Some _ => false end,
          {| bk_failures := failures; bk_open_until := Some (now + br_breaker_open_secs b * second) |})
    else (false, {| bk_failures := failures; bk_open_until := bk_open_until st |}).

(** ** The attempts of one request *)

(** How a send ended: a response head, a connection the backend had already closed,
    or any other failure. *)
Inductive attempt_outcome : Type := Head | Stale | Failed.

(** [answer n] is the answer of the n-th send. [replayable]: the request can be cloned,
    which a streamed body cannot. Each turn of the loop is one send; the answer is
    the last send's, with how many there were and the sleeps in between. *)
Fixpoint attempts (fuel : nat) (b : BackendResilience) (retryable replayable : bool) (answer : nat → attempt_outcome)
    (sends : nat) (attempt backoff : Z) (redialed : bool) (slept : list Z) : option (attempt_outcome * nat * list Z) :=
  match fuel with
  | O => None
  | S fuel =>
      let policy_retry := (1 <? br_attempts b) && retryable && (attempt <? br_attempts b) in
      let stale_available := negb redialed && retryable in
      let replay := (policy_retry || stale_available) && replayable in
      let outcome := answer sends in
      match outcome with
      | Head => Some (Head, S sends, slept)
      | _ =>
          if negb replay then Some (outcome, S sends, slept)
          else if policy_retry
          then attempts fuel b retryable replayable answer (S sends) (attempt + 1) (Z.min u64_max (2 * backoff)) redialed (slept ++ [backoff])
          else match outcome with
               | Stale => attempts fuel b retryable replayable answer (S sends) attempt backoff true slept
               | _ => Some (outcome, S sends, slept)
               end
      end
  end.

Definition send_request (b : BackendResilience) (method : str) (replayable : bool) (answer : nat → attempt_outcome) :
    option (attempt_outcome * nat * list Z) :=
  attempts (Z.to_nat (br_attempts b) + 2) b (may_retry_method b method) replayable answer 0 1 (br_backoff_ms b) false [].

(** The guarded dial: the breaker, the attempts, and what they do to the breaker. *)
Inductive dialed : Type := Refused (status : Z) | Answered_by_backend (sends : nat).

Definition dial (b : BackendResilience) (now after : Z) (method : str) (replayable : bool) (answer : nat → attempt_outcome)
    (st : BreakerState) : option (dialed * nat * BreakerState) :=
  match check b now st with
  | (Open _, st) => Some (Refused 502, O, st)
  | (Proceed, st) =>
      match send_request b method replayable answer with
      | None => None
      | Some (Head, n, _) => Some (Answered_by_backend n, n, record_success b st)
      | Some (_, n, _) => Some (Refused 502, n, (breaker_failure b after st).2)
      end
  end.

(** ** Announced concurrency *)

Definition SLOW_WAIT_US : Z := 250000.
Definition CLEAR_WAIT_US : Z := 50000.
Definition FLOOR : Z := 1.

(** [ad_available] and [ad_taken] are the permits of the limiter: free, and held by
    requests in flight. *)
Record Adaptive : Type := {
  ad_configured : Z;
  ad_current : Z;
  ad_available : Z;
  ad_taken : Z;
  ad_forgotten : Z;
  ad_wait_micros : Z;
  ad_waits : Z;
}.

Inductive Verdict : Type := Shrink (n : Z) | Grow (n : Z) | HoldVerdict.

Definition new_adaptive (configured : Z) : Adaptive :=
  {| ad_configured := configured; ad_current := configured; ad_available := configured; ad_taken := 0; ad_forgotten := 0;
     ad_wait_micros := 0; ad_waits := 0 |}.

Definition announced (a : Adaptive) : Z := ad_current a.

Definition record_wait (micros : Z) (a : Adaptive) : Adaptive :=
  {| ad_configured := ad_configured a; ad_current := ad_current a; ad_available := ad_available a; ad_taken := ad_taken a;
     ad_forgotten := ad_forgotten a; ad_wait_micros := wrap64 (ad_wait_micros a + micros); ad_waits := wrap64 (ad_waits a + 1) |}.

Definition adaptive_verdict (a : Adaptive) : Verdict :=
  if ad_waits a =? 0 then HoldVerdict
  else
    let mean := ad_wait_micros a / ad_waits a in
    if (SLOW_WAIT_US <=? mean) && (FLOOR <? ad_current a) then Shrink (Z.max (ad_current a / 2) FLOOR)
    else if (mean <=? CLEAR_WAIT_US) && (ad_current a <? ad_configured a) then Grow (ad_current a + 1)
    else HoldVerdict.

Definition resized (a : Adaptive) (current available forgotten : Z) : Adaptive :=
  {| ad_configured := ad_configured a; ad_current := current; ad_available := available; ad_taken := ad_taken a;
     ad_forgotten := forgotten; ad_wait_micros := 0; ad_waits := 0 |}.

(** [forget_permits] takes at most what is free. *)
Definition apply_verdict (v : Verdict) (a : Adaptive) : option Z * Adaptive :=
  match v with
  | HoldVerdict => (None, resized a (ad_current a) (ad_available a) (ad_forgotten a))
  | Shrink target | Grow target =>
      let previous := ad_current a in
      let '(moved, a') :=
        if target <? previous then
          let taken := Z.min (previous - target) (ad_available a) in
          (previous - taken, resized a (previous - taken) (ad_available a - taken) (ad_forgotten a + taken))
        else
          let give := Z.min (target - previous) (ad_forgotten a) in
          (previous + give, resized a (previous + give) (ad_available a + give) (ad_forgotten a - give)) in
      (if moved =? previous then None else Some moved, a')
  end.

Definition tick (a : Adaptive) : option Z * Adaptive := apply_verdict (adaptive_verdict a) a.

(** A request takes a permit when there is one, and gives it back. *)
Definition acquire (a : Adaptive) : option Adaptive :=
  if 0 <? ad_available a
  then Some {| ad_configured := ad_configured a; ad_current := ad_current a; ad_available := ad_available a - 1;
               ad_taken := ad_taken a + 1; ad_forgotten := ad_forgotten a; ad_wait_micros := ad_wait_micros a; ad_waits := ad_waits a |}
  else None.
Definition give_back (a : Adaptive) : option Adaptive :=
  if 0 <? ad_taken a
  then Some {| ad_configured := ad_configured a; ad_current := ad_current a; ad_available := ad_available a + 1;
               ad_taken := ad_taken a - 1; ad_forgotten := ad_forgotten a; ad_wait_micros := ad_wait_micros a; ad_waits := ad_waits a |}
  else None.

(** ** Where a request goes *)

Definition same_site (a b : str) : bool :=
  let a := lower (trim_end_char dot a) in
  let b := lower (trim_end_char dot b) in
  if str_eqb a b then true
  else if bool_decide (is_Some (parse_ip a)) || bool_decide (is_Some (parse_ip b)) then false
  else
    let shared := (fix go (x y : list str) : nat :=
      match x, y with
      | l :: x, m :: y => if str_eqb l m then S (go x y) else O
      | _, _ => O
      end) (rev (split_on dot a)) (rev (split_on dot b)) in
    (2 <=? shared)%nat.

(** A URL as its parts; the port is the one in force. *)
Record Url : Type := { url_scheme : str; url_host : option str; url_port : option Z; url_path : str; url_query : option str }.

(** Whether the redirect is followed; [previous] is the URLs visited so far. *)
Definition redirect_policy (max_hops : nat) (previous : list Url) (next : Url) : bool :=
  if (max_hops =? 0)%nat then false
  else if (max_hops <? length previous)%nat then false
  else match previous with
       | [] => false
       | orig :: _ =>
           let scheme_ok := bool_decide ((url_scheme orig, url_scheme next)
                                         ∈ [(bs "http", bs "http"); (bs "http", bs "https"); (bs "https", bs "https")]) in
           let host_ok := match url_host orig, url_host next with Some a, Some b => same_site a b | _, _ => false end in
           scheme_ok && host_ok
       end.

(** Trimming a path bind off a path without its leading slashes. *)
Definition trim_bind_of (bind path : str) : str :=
  let bind := trim_matches_char slash bind in
  match strip_prefix bind path with
  | Some rest => if str_eqb rest [] || starts_with (bs "/") rest then trim_start_by (is_char slash) rest else path
  | None => path
  end.

(** The path and query of a request target: [parse_url] is the URL parser. *)
Definition target_parts (parse_url : str → option Url) (uri : str) : option (str * option str) :=
  let uri := if str_eqb uri [] then bs "/" else uri in
  if starts_with (bs "/") uri then
    match split_once "?"%char uri with
    | Some (path, query) => Some (path, Some query)
    | None => Some (uri, None)
    end
  else match parse_url uri with
       | Some u => Some (url_path u, url_query u)
       | None => None
       end.

(** The path a request asks of its target. *)
Definition combined_path (target : Url) (bind : option str) (trim_bind : bool) (path : str) : str :=
  let target_path := trim_end_char slash (url_path target) in
  let incoming := trim_start_by (is_char slash) path in
  let incoming := match bind with Some bind => if trim_bind then trim_bind_of bind incoming else incoming | None => incoming end in
  if str_eqb target_path [] then bs "/" ++ incoming else target_path ++ bs "/" ++ incoming.

(** [set_path] and [set_query] are the URL library's; what they return is checked. *)
Definition build_dest_url (parse_url : str → option Url) (set_path : str → Url → Url) (set_query : option str → Url → Url)
    (target : option Url) (bind : option str) (trim_bind : bool) (uri : str) : result Url Z :=
  match target with
  | None => Err 502
  | Some target =>
      match target_parts parse_url uri with
      | None => Err 400
      | Some (path, query) =>
          let dest := set_query query (set_path (combined_path target bind trim_bind path) target) in
          if bool_decide (url_scheme dest = url_scheme target ∧ url_host dest = url_host target ∧ url_port dest = url_port target)
          then Ok dest else Err 400
      end
  end.

(** ** The headers of the request *)

(** What this path strips: the shared list and [trailer]; [host] is set aside. *)
Definition client_hop_by_hop (name : str) : bool :=
  let n := lower name in
  bool_decide (n ∈ HOP_BY_HOP_CORE) || str_eqb n (bs "trailer") || starts_with WEBSOCKET_PREFIX n.

(** [name_ok] and [value_ok]: what the HTTP library takes as a header. *)
Definition backend_headers (name_ok value_ok : str → bool) (t : Headers.HeaderTransform) (pass_hostname : bool) (hs : headers) : headers :=
  let hs := Headers.apply_transform t hs in
  let kept := filter (fun kv => client_hop_by_hop kv.1 = false ∧ lower kv.1 ≠ bs "host" ∧ name_ok kv.1 = true ∧ value_ok kv.2 = true) hs in
  let host := last (snd <$> filter (fun kv => client_hop_by_hop kv.1 = false ∧ lower kv.1 = bs "host") hs) in
  kept ++ match host with
          | Some h => if pass_hostname && value_ok h then [(bs "host", h)] else []
          | None => []
          end.

(** ** The response body *)

Definition STREAM_THRESHOLD : Z := 256 * 1024.
Definition BINARY_STREAM_THRESHOLD : Z := 32 * 1024.
Definition STREAM_CHUNK_SIZE : Z := 128 * 1024.

(** One look at the backend's body: some bytes, nothing ready yet, a failure, or its
    end. *)
Inductive poll : Type := Bytes (b : str) | Quiet | Broke | Done.

(** What goes through the tunnel for a response. *)
Inductive sent : Type :=
| SStart
| SChunk (part : str)
| SEnd
| SAbort
| SFull (body : str).

(** What is left for the caller to send. *)
Inductive reply : Type := ErrorReply (status : Z) | EmptyReply | NoReply.

(** [buf.chunks(size)]; [fuel] is the length. *)
Fixpoint chunks_of (fuel : nat) (size : Z) (b : str) : list str :=
  match fuel with
  | O => []
  | S fuel => if len b <=? 0 then [] else take (Z.to_nat size) b :: chunks_of fuel size (drop (Z.to_nat size) b)
  end.

(** [while let Some(part) = pop_full()]: the full frames, and what is held. *)
Fixpoint pop_fulls (fuel : nat) (size : Z) (b : str) : list str * str :=
  match fuel with
  | O => ([], b)
  | S fuel => if len b <? size then ([], b)
              else let '(parts, rest) := pop_fulls fuel size (drop (Z.to_nat size) b) in (take (Z.to_nat size) b :: parts, rest)
  end.

(** Buffering, or streaming with the bytes the coalescer holds. *)
Inductive phase : Type := Buffering (buf : str) | Streaming (held : str).

Section Body.
Context (chunk_size threshold limit : Z).

(** The coalescer flushed when the backend is quiet. *)
Definition flush (held : str) : list sent := if str_eqb held [] then [] else [SChunk held].

(** The loop over the body: the messages sent in order and the reply. [None]: the
    polls ran out first. *)
Fixpoint relay_body (polls : list poll) (p : phase) (total : Z) (out : list sent) : option (list sent * reply) :=
  match polls with
  | [] => None
  | Quiet :: polls =>
      match p with
      | Buffering _ => relay_body polls p total out
      | Streaming held => relay_body polls (Streaming []) total (out ++ flush held)
      end
  | Bytes b :: polls =>
      let total := total + len b in
      if limit <? total then
        match p with
        | Buffering _ => Some (out, ErrorReply 502)
        | Streaming _ => Some (out ++ [SAbort], NoReply)
        end
      else
        match p with
        | Buffering buf =>
            let buf := buf ++ b in
            if threshold <? len buf
            then relay_body polls (Streaming []) total (out ++ SStart :: (SChunk <$> chunks_of (length buf) chunk_size buf))
            else relay_body polls (Buffering buf) total out
        | Streaming held =>
            let '(parts, held) := pop_fulls (length (held ++ b)) chunk_size (held ++ b) in
            relay_body polls (Streaming held) total (out ++ (SChunk <$> parts))
        end
  | Broke :: _ =>
      match p with
      | Buffering _ => Some (out, ErrorReply 502)
      | Streaming _ => Some (out ++ [SAbort], NoReply)
      end
  | Done :: _ =>
      match p with
      | Buffering buf => if str_eqb buf [] then Some (out, EmptyReply) else Some (out ++ [SFull buf], NoReply)
      | Streaming held => Some (out ++ flush held ++ [SEnd], NoReply)
      end
  end.

End Body.

Definition relay_response (max_response_body_size : Z) (polls : list poll) : option (list sent * reply) :=
  relay_body STREAM_CHUNK_SIZE (Z.min BINARY_STREAM_THRESHOLD max_response_body_size) max_response_body_size polls (Buffering []) 0 [].

(** ** One request *)

Lemma attempts_spec b (retryable replayable : bool) answer fuel : ∀ sends attempt backoff (redialed : bool) slept,
  1 <= attempt <= br_attempts b →
  (br_attempts b - attempt) + (if redialed then 0 else 1) + 1 <= Z.of_nat fuel →
  ∃ o n sleeps, attempts fuel b retryable replayable answer sends attempt backoff redialed slept = Some (o, n, sleeps)
    ∧ (sends < n)%nat ∧ Z.of_nat n <= Z.of_nat sends + (br_attempts b - attempt) + (if redialed then 0 else 1) + 1
    ∧ o = answer (pred n) ∧ (∀ k, (sends <= k < pred n)%nat → answer k ≠ Head)
    ∧ (retryable && replayable = false → n = S sends).
Proof.
  induction fuel as [|fuel IH]; intros sends attempt backoff redialed slept Ha Hf; [destruct redialed; lia|]. simpl.
  set (policy := (1 <? br_attempts b) && retryable && (attempt <? br_attempts b)).
  assert (Hend : ∀ o, o = answer sends → ∃ o' n sleeps, Some (o, S sends, slept) = Some (o', n, sleeps)
    ∧ (sends < n)%nat ∧ Z.of_nat n <= Z.of_nat sends + (br_attempts b - attempt) + (if redialed then 0 else 1) + 1
    ∧ o' = answer (pred n) ∧ (∀ k, (sends <= k < pred n)%nat → answer k ≠ Head) ∧ (retryable && replayable = false → n = S sends)).
  { intros o Ho. exists o, (S sends), slept. split; [done|]. split; [lia|]. split; [destruct redialed; lia|]. split; [done|].
    split; [simpl; lia|done]. }
  assert (Hgo : ∀ attempt' backoff' (redialed' : bool) slept',
    answer sends ≠ Head → retryable && replayable = true → 1 <= attempt' <= br_attempts b →
    (br_attempts b - attempt') + (if redialed' then 0 else 1) + 1 <= (br_attempts b - attempt) + (if redialed then 0 else 1) →
    ∃ o n sleeps, attempts fuel b retryable replayable answer (S sends) attempt' backoff' redialed' slept' = Some (o, n, sleeps)
    ∧ (sends < n)%nat ∧ Z.of_nat n <= Z.of_nat sends + (br_attempts b - attempt) + (if redialed then 0 else 1) + 1
    ∧ o = answer (pred n) ∧ (∀ k, (sends <= k < pred n)%nat → answer k ≠ Head) ∧ (retryable && replayable = false → n = S sends)).
  { intros attempt' backoff' redialed' slept' Hne Hrr Ha' Hm. destruct (IH (S sends) attempt' backoff' redialed' slept' Ha' ltac:(lia))
      as (o & n & sl & E & H1 & H2 & H3 & H4 & _). exists o, n, sl. split; [done|]. split; [lia|]. split; [lia|]. split; [done|].
    split; [|congruence]. intros k Hk. destruct (decide (k = sends)) as [->|]; [done|]. apply H4. lia. }
  destruct (answer sends) eqn:Et; [by apply Hend| |].
  all: destruct ((policy || negb redialed && retryable) && replayable) eqn:Er; simpl negb; cbv iota; [|by apply Hend].
  all: assert (Hrr : retryable && replayable = true) by
    (unfold policy in Er; apply andb_true_iff in Er as [Er ->]; rewrite andb_true_r; apply orb_true_iff in Er as [Er|Er]; by destruct retryable; [|rewrite ?andb_false_r in Er]).
  all: destruct policy eqn:Ep; [unfold policy in Ep; to_prop; apply Hgo; [congruence|by apply andb_true_iff|lia|destruct redialed; lia]|].
  - destruct redialed; [by apply andb_true_iff in Er as [Er _]; simpl in Er|]. apply Hgo; [congruence|done|done|lia].
  - by apply Hend.
Qed.

(** One request is sent at most once more often than the attempts the service allows,
    exactly once when its method may not be repeated or its body cannot be, and it is
    never sent again after a response head; what the visitor gets is the last send's
    answer. The loop always ends. *)
Theorem backend_sends_bounded b method replayable answer :
  1 <= br_attempts b →
  ∃ o n sleeps, send_request b method replayable answer = Some (o, n, sleeps)
    ∧ (1 <= n)%nat ∧ Z.of_nat n <= br_attempts b + 1
    ∧ o = answer (pred n) ∧ (∀ k, (k < pred n)%nat → answer k ≠ Head)
    ∧ (may_retry_method b method && replayable = false → n = 1%nat).
Proof.
  intros Hb. destruct (attempts_spec b (may_retry_method b method) replayable answer (Z.to_nat (br_attempts b) + 2) 0 1 (br_backoff_ms b) false [])
    as (o & n & sl & E & H1 & H2 & H3 & H4 & H5); [lia|lia|].
  exists o, n, sl. split; [exact E|]. split; [lia|]. split; [lia|]. split; [done|]. split; [|done]. intros k Hk. apply H4. lia.
Qed.

(** ** The breaker *)

Definition closed_breaker : BreakerState := {| bk_failures := 0; bk_open_until := None |}.

(** Failures recorded one after another. *)
Definition failing (b : BackendResilience) (times : list Z) (st : BreakerState) : BreakerState :=
  fold_left (fun st now => (breaker_failure b now st).2) times st.

Lemma failing_cons b t times st : failing b (t :: times) st = failing b times (breaker_failure b t st).2.
Proof. done. Qed.

Lemma failing_below b times k :
  0 < br_breaker_failures b < 2 ^ 32 → 0 <= k → k + Z.of_nat (length times) < br_breaker_failures b →
  failing b times {| bk_failures := k; bk_open_until := None |} = {| bk_failures := k + Z.of_nat (length times); bk_open_until := None |}.
Proof.
  intros Hb. revert k. induction times as [|t times IH]; intros k Hk Hl; [by rewrite Z.add_0_r|].
  cbn [length] in Hl |- *. rewrite Nat2Z.inj_succ in Hl |- *. rewrite failing_cons.
  unfold breaker_failure. rewrite (proj2 (Z.eqb_neq _ _)) by lia. cbv zeta. simpl bk_failures.
  rewrite Z.min_r by lia. rewrite (proj2 (Z.leb_gt _ _)) by lia. simpl snd. rewrite IH by lia. f_equal. lia.
Qed.

(** A service's breaker stays closed until its failures in a row reach the number the
    service sets, opens with the one that does, and then for the whole of its window
    refuses every request without a single send. *)
Theorem breaker_shields b times t now after method replayable answer :
  0 < br_breaker_failures b < 2 ^ 32 → Z.of_nat (length times) = br_breaker_failures b - 1 →
  bk_open_until (failing b times closed_breaker) = None
  ∧ (breaker_failure b t (failing b times closed_breaker)).1 = true
  ∧ let opened := (breaker_failure b t (failing b times closed_breaker)).2 in
    t <= now < t + br_breaker_open_secs b * second →
    dial b now after method replayable answer opened = Some (Refused 502, O, opened).
Proof.
  intros Hb Hl. unfold closed_breaker. rewrite failing_below by lia. simpl. split; [done|].
  unfold breaker_failure. rewrite (proj2 (Z.eqb_neq _ _)) by lia. cbv zeta. simpl bk_failures. rewrite Z.min_r by lia.
  rewrite (proj2 (Z.leb_le _ _)) by lia. split; [done|]. cbv zeta. simpl snd. intros Hn. unfold dial, check.
  rewrite (proj2 (Z.eqb_neq (br_breaker_failures b) 0)) by lia. cbn [bk_open_until]. by rewrite (proj2 (Z.leb_gt _ _)) by lia.
Qed.

(** ** Announced concurrency *)

Inductive adaptive_op : Type := OAcquire | OGiveBack | OWait (micros : Z) | OTick.

Definition adaptive_exec (o : adaptive_op) (a : Adaptive) : Adaptive :=
  match o with
  | OAcquire => default a (acquire a)
  | OGiveBack => default a (give_back a)
  | OWait micros => record_wait micros a
  | OTick => (tick a).2
  end.

Record adaptive_ok (configured : Z) (a : Adaptive) : Prop := {
  ao_configured : ad_configured a = configured;
  ao_permits : ad_available a + ad_taken a + ad_forgotten a = configured;
  ao_current : ad_current a = configured - ad_forgotten a;
  ao_signs : 0 <= ad_available a ∧ 0 <= ad_taken a ∧ 0 <= ad_forgotten a;
  ao_floor : FLOOR <= ad_current a;
}.

Lemma apply_ok configured v a :
  adaptive_ok configured a → match v with Shrink n => FLOOR <= n | Grow n => ad_current a <= n | HoldVerdict => True end →
  adaptive_ok configured (apply_verdict v a).2.
Proof.
  unfold FLOOR. intros [H1 H2 H3 (H4 & H5 & H6) H7] Hv. unfold FLOOR in H7. destruct v as [n|n|]; simpl.
  1,2: destruct (n <? ad_current a) eqn:E; [apply Z.ltb_lt in E|apply Z.ltb_ge in E]; simpl.
  all: split; simpl; unfold FLOOR; lia.
Qed.

Lemma adaptive_exec_ok configured o a : adaptive_ok configured a → adaptive_ok configured (adaptive_exec o a).
Proof.
  intros H. destruct o as [| |micros|]; simpl.
  - unfold acquire. destruct (0 <? ad_available a) eqn:E; [|done]. apply Z.ltb_lt in E. destruct H. split; simpl; unfold FLOOR in *; lia.
  - unfold give_back. destruct (0 <? ad_taken a) eqn:E; [|done]. apply Z.ltb_lt in E. destruct H. split; simpl; unfold FLOOR in *; lia.
  - by destruct H.
  - unfold tick. apply apply_ok; [done|]. unfold adaptive_verdict. destruct (ad_waits a =? 0); [done|]. cbv zeta.
    destruct (_ && _); [lia|]. destruct (_ && _); [lia|done].
Qed.

(** However requests come and go and whatever the windows decide, the concurrency the
    client announces is exactly what its own limiter hands out, free or held; it never
    exceeds what the operator set and never falls below one. *)
Theorem announced_is_enforced configured ops :
  1 <= configured →
  let a := fold_left (fun a o => adaptive_exec o a) ops (new_adaptive configured) in
  announced a = ad_available a + ad_taken a ∧ FLOOR <= announced a <= configured ∧ 0 <= ad_available a.
Proof.
  intros Hc. cbv zeta. assert (H : adaptive_ok configured (fold_left (fun a o => adaptive_exec o a) ops (new_adaptive configured))).
  { assert (H0 : adaptive_ok configured (new_adaptive configured)) by (split; simpl; unfold FLOOR; lia).
    generalize (new_adaptive configured), H0. induction ops as [|o ops IH]; intros a Ha; [done|]. simpl. apply IH. by apply adaptive_exec_ok. }
  destruct H as [H1 H2 H3 (H4 & H5 & H6) H7]. unfold announced. lia.
Qed.

(** ** The response *)

(** The bytes of a run of polls, none of which ended the body. *)
Definition going (p : poll) : Prop := match p with Bytes _ | Quiet => True | Broke | Done => False end.
Definition ending (p : poll) : Prop := match p with Broke | Done => True | Bytes _ | Quiet => False end.
Definition body_of (polls : list poll) : str := polls ≫= (fun p => match p with Bytes b => b | _ => [] end).

#[export] Instance poll_eq_dec : EqDecision poll.
Proof. solve_decision. Defined.

Section Faithful.
Context (chunk_size threshold limit : Z).

Definition framed (part : str) : Prop := part ≠ [] ∧ len part <= chunk_size.

(** What a response may look like on the tunnel, given the body and how it ended. *)
Definition relayed (body : str) (fin : poll) (r : list sent * reply) : Prop :=
  if bool_decide (fin = Done ∧ len body <= limit)
  then (body = [] ∧ r = ([], EmptyReply))
       ∨ (body ≠ [] ∧ len body <= threshold ∧ r = ([SFull body], NoReply))
       ∨ (threshold < len body ∧ ∃ parts, r = (SStart :: (SChunk <$> parts) ++ [SEnd], NoReply) ∧ concat parts = body ∧ Forall framed parts)
  else r = ([], ErrorReply 502)
       ∨ ∃ parts, r = (SStart :: (SChunk <$> parts) ++ [SAbort], NoReply) ∧ concat parts `prefix_of` body
                  ∧ len (concat parts) <= limit ∧ Forall framed parts.

Definition relaying (p : phase) (total : Z) (out : list sent) (sofar : str) : Prop :=
  total = len sofar ∧ len sofar <= limit ∧
  match p with
  | Buffering buf => out = [] ∧ buf = sofar ∧ len sofar <= threshold
  | Streaming held => threshold < len sofar ∧ len held < chunk_size ∧ ∃ parts, out = SStart :: (SChunk <$> parts) ∧ concat parts ++ held = sofar ∧ Forall framed parts
  end.

Context (Hchunk : 0 < chunk_size) (Hthreshold : 0 <= threshold).

Lemma take_framed (b : str) : b ≠ [] → framed (take (Z.to_nat chunk_size) b).
Proof using Hchunk.
  intros Hb. split; [|unfold len; rewrite length_take; lia].
  destruct b as [|c b]; [done|]. destruct (Z.to_nat chunk_size) eqn:E; [lia|done].
Qed.

Lemma chunks_of_spec fuel (b : str) :
  (length b <= fuel)%nat → concat (chunks_of fuel chunk_size b) = b ∧ Forall framed (chunks_of fuel chunk_size b).
Proof using Hchunk.
  revert b. induction fuel as [|fuel IH]; intros b Hf; simpl; [by destruct b; [|simpl in Hf; lia]|].
  unfold len. destruct b as [|c b]; [by split|]. rewrite (proj2 (Z.leb_gt _ _)) by (cbn [length]; lia).
  destruct (IH (drop (Z.to_nat chunk_size) (c :: b))) as [H1 H2]; [rewrite length_drop; cbn [length] in *; lia|].
  cbn [concat]. rewrite H1, take_drop. split; [done|]. constructor; [by apply take_framed|done].
Qed.

Lemma pop_fulls_spec fuel (b : str) :
  concat (pop_fulls fuel chunk_size b).1 ++ (pop_fulls fuel chunk_size b).2 = b ∧ Forall framed (pop_fulls fuel chunk_size b).1.
Proof using Hchunk.
  revert b. induction fuel as [|fuel IH]; intros b; simpl; [by split|].
  destruct (len b <? chunk_size) eqn:E; [by split|]. apply Z.ltb_ge in E.
  destruct (IH (drop (Z.to_nat chunk_size) b)) as [H1 H2]. destruct (pop_fulls fuel chunk_size (drop (Z.to_nat chunk_size) b)) as [parts rest].
  simpl in *. rewrite <-app_assoc, H1, take_drop. split; [done|]. constructor; [|done]. apply take_framed. intros ->. unfold len in E. simpl in E. lia.
Qed.

(** With what is still held, the coalescer keeps less than a frame. *)
Lemma pop_fulls_held fuel (b : str) : (length b <= fuel)%nat → len (pop_fulls fuel chunk_size b).2 < chunk_size.
Proof using Hchunk.
  revert b. induction fuel as [|fuel IH]; intros b Hf; simpl; [unfold len; lia|].
  destruct (len b <? chunk_size) eqn:E; [by apply Z.ltb_lt in E|]. apply Z.ltb_ge in E.
  specialize (IH (drop (Z.to_nat chunk_size) b)). destruct (pop_fulls fuel chunk_size (drop (Z.to_nat chunk_size) b)). simpl in *. apply IH.
  rewrite length_drop. unfold len in E. lia.
Qed.

Lemma flush_parts (held : str) : len held < chunk_size → ∃ ps, flush held = SChunk <$> ps ∧ concat ps = held ∧ Forall framed ps.
Proof using Hchunk.
  intros Hh. unfold flush. destruct (str_eqb held []) eqn:E.
  - apply str_eqb_eq in E as ->. by exists [].
  - exists [held]. split; [done|]. split; [by apply app_nil_r|]. constructor; [|done]. split; [|lia]. intros ->. by rewrite str_eqb_refl in E.
Qed.

(** What an ended relay sent, whichever way it ended. *)
Lemma relay_stop p total out sofar fin body :
  relaying p total out sofar → sofar `prefix_of` body → fin ≠ Done ∨ limit < len body →
  relayed body fin (match p with Buffering _ => (out, ErrorReply 502) | Streaming _ => (out ++ [SAbort], NoReply) end).
Proof using Hchunk Hthreshold.
  intros (-> & Hl & Hp) Hpre Hbad. unfold relayed. rewrite bool_decide_eq_false_2 by (intros [-> ?]; destruct Hbad; [done|lia]).
  destruct p as [buf|held].
  - destruct Hp as (-> & _). by left.
  - right. destruct Hp as (_ & _ & parts & -> & Hc & Hf). exists parts. split; [done|]. subst sofar. split.
    + etransitivity; [|exact Hpre]. by apply prefix_app_r.
    + split; [|done]. rewrite len_app in Hl. pose proof (len_nonneg held). lia.
Qed.

Lemma relay_end p total out sofar : relaying p total out sofar →
  ∃ r, relay_body chunk_size threshold limit [Done] p total out = Some r ∧ relayed sofar Done r.
Proof using Hchunk Hthreshold.
  intros (-> & Hl & Hp). unfold relayed. rewrite bool_decide_eq_true_2 by done. destruct p as [buf|held]; simpl.
  - destruct Hp as (-> & -> & Ht). destruct (str_eqb sofar []) eqn:E; eexists; (split; [reflexivity|]).
    + apply str_eqb_eq in E as ->. by left.
    + right. left. split; [|done]. intros ->. by rewrite str_eqb_refl in E.
  - destruct Hp as (Ht & Hh & parts & -> & Hc & Hf). destruct (flush_parts held Hh) as (ps & -> & Hcp & Hfp). eexists. split; [reflexivity|].
    right. right. split; [done|]. exists (parts ++ ps). rewrite fmap_app, <-!app_comm_cons, <-!app_assoc. split; [done|].
    rewrite concat_app, Hcp. split; [done|]. by apply Forall_app.
Qed.

Lemma relay_bytes p total out sofar b : relaying p total out sofar → len (sofar ++ b) <= limit →
  ∃ p' out', relaying p' (total + len b) out' (sofar ++ b)
    ∧ ∀ polls, relay_body chunk_size threshold limit (Bytes b :: polls) p total out
               = relay_body chunk_size threshold limit polls p' (total + len b) out'.
Proof using Hchunk Hthreshold.
  intros (-> & Hl & Hp) Hb. assert (Ht : len sofar + len b = len (sofar ++ b)) by (by rewrite len_app).
  assert (Hlim : (limit <? len sofar + len b) = false) by (apply Z.ltb_ge; lia).
  destruct p as [buf|held].
  - destruct Hp as (-> & -> & Hth). destruct (threshold <? len (sofar ++ b)) eqn:E.
    + apply Z.ltb_lt in E. eexists (Streaming []), _. split; cycle 1.
      { intros polls. cbn [relay_body]. rewrite Hlim. cbv zeta. rewrite (proj2 (Z.ltb_lt _ _) E). reflexivity. }
      split; [done|]. split; [done|]. split; [done|]. split; [rewrite len_nil; lia|].
      destruct (chunks_of_spec (length (sofar ++ b)) (sofar ++ b)) as [H1 H2]; [lia|]. eexists. split; [reflexivity|]. by rewrite app_nil_r.
    + exists (Buffering (sofar ++ b)), []. split; cycle 1.
      { intros polls. cbn [relay_body]. rewrite Hlim. cbv zeta. by rewrite E. }
      apply Z.ltb_ge in E. by repeat split.
  - destruct Hp as (Hth & Hh & parts & -> & Hc & Hf). pose proof (pop_fulls_held (length (held ++ b)) (held ++ b) ltac:(lia)) as Hheld.
    destruct (pop_fulls_spec (length (held ++ b)) (held ++ b)) as [H1 H2].
    destruct (pop_fulls (length (held ++ b)) chunk_size (held ++ b)) as [ps rest] eqn:E. simpl in *.
    eexists (Streaming rest), _. split; cycle 1.
    { intros polls. rewrite Hlim, E. reflexivity. }
    split; [done|]. split; [done|]. split; [rewrite <-Ht; pose proof (len_nonneg b); lia|]. split; [done|].
    exists (parts ++ ps). rewrite fmap_app. split; [done|]. rewrite concat_app, <-app_assoc, H1, <-Hc, <-app_assoc. split; [done|].
    by apply Forall_app.
Qed.

Lemma relay_quiet p total out sofar : relaying p total out sofar →
  ∃ p' out', relaying p' total out' sofar
    ∧ ∀ polls, relay_body chunk_size threshold limit (Quiet :: polls) p total out = relay_body chunk_size threshold limit polls p' total out'.
Proof using Hchunk Hthreshold.
  intros (-> & Hl & Hp). destruct p as [buf|held]; [by exists (Buffering buf), out|].
  destruct Hp as (Hth & Hh & parts & -> & Hc & Hf). destruct (flush_parts held Hh) as (ps & Hps & Hcp & Hfp).
  eexists (Streaming []), _. split; [|intros polls; reflexivity]. split; [done|]. split; [done|]. split; [done|]. split; [rewrite len_nil; lia|].
  exists (parts ++ ps). rewrite Hps, fmap_app. split; [done|]. rewrite concat_app, Hcp, app_nil_r. split; [done|]. by apply Forall_app.
Qed.

Lemma relay_body_spec polls fin : Forall going polls → ending fin → ∀ p total out sofar, relaying p total out sofar →
  ∃ r, relay_body chunk_size threshold limit (polls ++ [fin]) p total out = Some r ∧ relayed (sofar ++ body_of polls) fin r.
Proof using Hchunk Hthreshold.
  intros Hgo Hend. induction Hgo as [|q polls Hq Hgo IH]; intros p total out sofar Hr.
  - change (body_of []) with (@nil ascii). cbn [app]. rewrite app_nil_r. destruct fin; try done; [|by eapply relay_end].
    pose proof (relay_stop p total out sofar Broke sofar Hr ltac:(done) ltac:(left; done)). destruct p; by eexists.
  - destruct q as [b| | |]; [| |done|done].
    + change (body_of (Bytes b :: polls)) with (b ++ body_of polls). destruct (decide (len (sofar ++ b) <= limit)) as [Hle|Hgt].
      * destruct (relay_bytes _ _ _ _ b Hr Hle) as (p' & out' & Hr' & Heq). rewrite <-app_comm_cons, Heq, app_assoc. by apply IH.
      * assert (Hlen : limit < len (sofar ++ b ++ body_of polls)) by (rewrite !len_app in *; pose proof (len_nonneg (body_of polls)); lia).
        pose proof (relay_stop p total out sofar fin (sofar ++ b ++ body_of polls) Hr ltac:(by apply prefix_app_r) ltac:(right; exact Hlen)) as Hs.
        cbn [relay_body app]. destruct Hr as (-> & _ & _). rewrite len_app in Hgt. rewrite (proj2 (Z.ltb_lt _ _)) by lia. destruct p; by eexists.
    + destruct (relay_quiet _ _ _ _ Hr) as (p' & out' & Hr' & Heq). rewrite <-app_comm_cons, Heq. by apply IH.
Qed.
End Faithful.

(** C21: Whatever the backend's body, however it arrives and however it ends, the client
    answers: a body that ended within the service's limit reaches the tunnel whole and
    in order, in one message when it is small and otherwise in frames of at most the
    chunk size between a start and an end; a body that broke off or passed the limit is
    a 502 of which nothing was sent, or an aborted stream of a prefix within the limit,
    never a shortened success. *)
Theorem relay_faithful limit polls fin :
  0 <= limit → Forall going polls → ending fin →
  ∃ r, relay_response limit (polls ++ [fin]) = Some r
    ∧ relayed STREAM_CHUNK_SIZE (Z.min BINARY_STREAM_THRESHOLD limit) limit (body_of polls) fin r.
Proof.
  intros Hl Hgo Hend. unfold relay_response.
  apply (relay_body_spec STREAM_CHUNK_SIZE (Z.min BINARY_STREAM_THRESHOLD limit) limit) with (sofar := []); try done.
  - unfold BINARY_STREAM_THRESHOLD. lia.
  - repeat split; unfold BINARY_STREAM_THRESHOLD, len; simpl; lia.
Qed.

(** ** Where a request goes and what it carries *)

Definition keep_path (path : str) (u : Url) : Url :=
  {| url_scheme := url_scheme u; url_host := url_host u; url_port := url_port u; url_path := path; url_query := url_query u |}.
Definition keep_query (query : option str) (u : Url) : Url :=
  {| url_scheme := url_scheme u; url_host := url_host u; url_port := url_port u; url_path := url_path u; url_query := query |}.

(** The path bind comes off at a segment boundary only: what is left of a path is
    either all of it, or what follows the bind and a slash. *)
Lemma trim_bind_boundary bind path :
  trim_bind_of bind path = path
  ∨ ∃ rest, path = trim_matches_char slash bind ++ rest ∧ (rest = [] ∨ head rest = Some slash)
            ∧ trim_bind_of bind path = trim_start_by (is_char slash) rest.
Proof.
  unfold trim_bind_of. destruct (strip_prefix (trim_matches_char slash bind) path) as [rest|] eqn:E; [|by left].
  destruct (str_eqb rest [] || starts_with (bs "/") rest) eqn:Eb; [|by left]. right. exists rest.
  split; [by apply strip_prefix_Some|]. split; [|done]. apply orb_true_iff in Eb as [Eb|Eb].
  - left. by apply str_eqb_eq.
  - right. apply starts_with_spec in Eb as [r ->]. done.
Qed.

(** Whatever target a visitor's request line names, and whatever the URL library does
    with it, a request this path sends goes to the service's own scheme, host and port;
    a service with no readable target answers 502 and a request line with none 400. *)
Theorem destination_is_the_target parse_url set_path set_query target bind trim_bind uri :
  match build_dest_url parse_url set_path set_query target bind trim_bind uri with
  | Ok dest => ∃ t path query, target = Some t ∧ target_parts parse_url uri = Some (path, query)
      ∧ dest = set_query query (set_path (combined_path t bind trim_bind path) t)
      ∧ url_scheme dest = url_scheme t ∧ url_host dest = url_host t ∧ url_port dest = url_port t
  | Err status => (status = 502 ∧ target = None) ∨ (status = 400 ∧ is_Some target)
  end.
Proof.
  unfold build_dest_url. destruct target as [t|]; [|by left]. destruct (target_parts parse_url uri) as [[path query]|] eqn:E; [|by right].
  cbv zeta. case_bool_decide as Hd; [|by right]. destruct Hd as (? & ? & ?). by exists t, path, query.
Qed.

(** The URLs one request visits while the backend answers with [nexts]. *)
Fixpoint follow (max_hops : nat) (previous : list Url) (nexts : list Url) : list Url :=
  match nexts with
  | [] => previous
  | u :: nexts => if redirect_policy max_hops previous u then follow max_hops (previous ++ [u]) nexts else previous
  end.

Definition at_home (orig u : Url) : Prop :=
  (∃ a b, url_host orig = Some a ∧ url_host u = Some b ∧ same_site a b = true)
  ∧ (url_scheme orig = bs "https" → url_scheme u = bs "https").

Lemma redirect_policy_at_home max_hops orig previous u :
  redirect_policy max_hops (orig :: previous) u = true → (S (length previous) <= max_hops)%nat ∧ at_home orig u.
Proof.
  unfold redirect_policy. destruct (max_hops =? 0)%nat; [done|]. destruct (max_hops <? length (orig :: previous))%nat eqn:El; [done|].
  apply Nat.ltb_ge in El. cbn [length] in El. cbv zeta. intros H. apply andb_true_iff in H as [Hs Hh]. apply bool_decide_eq_true in Hs.
  split; [lia|]. split.
  - destruct (url_host orig) as [a|], (url_host u) as [b|]; try done. by exists a, b.
  - intros Ho. rewrite Ho in Hs. rewrite !elem_of_cons, elem_of_nil in Hs. destruct Hs as [Hs|[Hs|[Hs|Hs]]]; [| | |done]; by injection Hs.
Qed.

(** However the backend redirects, the client follows at most the number of hops it was
    given, and every URL it visits is on the original's site and, when the original was
    https, https. *)
Theorem redirects_stay_home max_hops orig nexts :
  let visited := follow max_hops [orig] nexts in
  (length visited <= S max_hops)%nat ∧ ∃ more, visited = orig :: more ∧ Forall (at_home orig) more.
Proof.
  cbv zeta. assert (Hgen : ∀ more, (length more <= max_hops)%nat → Forall (at_home orig) more →
    (length (follow max_hops (orig :: more) nexts) <= S max_hops)%nat
    ∧ ∃ more', follow max_hops (orig :: more) nexts = orig :: more' ∧ Forall (at_home orig) more').
  { induction nexts as [|u nexts IH]; intros more Hl Hm; cbn [follow]; [split; [cbn [length]; lia|by exists more]|].
    destruct (redirect_policy max_hops (orig :: more) u) eqn:E; [|split; [cbn [length]; lia|by exists more]].
    apply redirect_policy_at_home in E as [E1 E2]. rewrite <-app_comm_cons. apply IH; [rewrite length_app; simpl; lia|].
    apply Forall_app. split; [done|]. by apply Forall_singleton. }
  apply (Hgen []); [simpl; lia|constructor].
Qed.

(** A backend never sees a header that belongs to the visitor's own connection, not even
    one the operator's rules add; it sees at most one [host], the visitor's, and only
    when the service passes it on. *)
Theorem client_request_headers_clean name_ok value_ok t pass_hostname hs :
  let sent := backend_headers name_ok value_ok t pass_hostname hs in
  Forall (fun kv => client_hop_by_hop kv.1 = false ∧ value_ok kv.2 = true) sent
  ∧ (length (filter (fun kv => lower kv.1 = bs "host") sent) <= if pass_hostname then 1 else 0)%nat
  ∧ ∀ k v, lower k ≠ bs "host" →
      (k, v) ∈ sent ↔ (k, v) ∈ Headers.apply_transform t hs ∧ client_hop_by_hop k = false ∧ name_ok k = true ∧ value_ok v = true.
Proof.
  unfold backend_headers. cbv zeta. set (hs' := Headers.apply_transform t hs). set (kept := filter _ hs').
  set (host := last _). assert (Hkept : Forall (fun kv => client_hop_by_hop kv.1 = false ∧ value_ok kv.2 = true ∧ lower kv.1 ≠ bs "host") kept).
  { apply Forall_forall. intros [k v] Hin. apply list_elem_of_filter in Hin. naive_solver. }
  assert (Hnone : filter (fun kv => lower kv.1 = bs "host") kept = []).
  { induction Hkept as [|kv l (_ & _ & Hn) _ IHl]; [done|]. by rewrite filter_cons_False. }
  set (tail := match host with Some h => _ | None => [] end).
  assert (Htail : tail = [] ∨ pass_hostname = true ∧ ∃ h, value_ok h = true ∧ tail = [(bs "host", h)]).
  { unfold tail. destruct host as [h|]; [|by left]. destruct (pass_hostname && value_ok h) eqn:E; [|by left]. apply andb_true_iff in E as [-> ?].
    right. split; [done|]. by exists h. }
  split; [|split].
  - apply Forall_app. split; [eapply Forall_impl; [exact Hkept|naive_solver]|].
    destruct Htail as [->|(_ & h & Hh & ->)]; [constructor|]. by apply Forall_singleton.
  - rewrite filter_app, Hnone. destruct Htail as [->|(-> & h & Hh & ->)]; [simpl; destruct pass_hostname; lia|].
    rewrite app_nil_l, filter_cons, filter_nil. destruct (decide _); simpl; lia.
  - intros k v Hk. rewrite elem_of_app. assert (Hnt : (k, v) ∉ tail).
    { destruct Htail as [->|(_ & h & Hh & ->)]; [apply not_elem_of_nil|]. rewrite list_elem_of_singleton. intros [= -> ->]. by apply Hk. }
    unfold kept. rewrite list_elem_of_filter. naive_solver.
Qed.

(** ** Concrete runs *)

Module BackendSamples.

Definition aggressive : BackendResilience := new_resilience 3 50 false 3 15.

Lemma backend_sends_bounded_witness :
  ∃ o n sleeps, send_request aggressive (bs "GET") true (fun _ => Stale) = Some (o, n, sleeps) ∧ (1 <= n)%nat ∧ Z.of_nat n <= 4
    ∧ o = Stale ∧ (∀ k : nat, (k < pred n)%nat → Stale ≠ Head) ∧ (may_retry_method aggressive (bs "GET") && true = false → n = 1%nat).
Proof. exact (backend_sends_bounded aggressive (bs "GET") true (fun _ => Stale) ltac:(vm_compute; done)). Defined.

(** The bound is met: three attempts, then the re-dial of a connection found closed. *)
Example every_send_used : send_request aggressive (bs "GET") true (fun _ => Stale) = Some (Stale, 4%nat, [50; 100]).
Proof. vm_compute. reflexivity. Qed.

Lemma breaker_shields_witness :
  let opened := (breaker_failure aggressive 30 (failing aggressive [10; 20] closed_breaker)).2 in
  dial aggressive 40 50 (bs "GET") true (fun _ => Head) opened = Some (Refused 502, O, opened).
Proof.
  apply (breaker_shields aggressive [10; 20] 30 40 50 (bs "GET") true (fun _ => Head)); vm_compute; done.
Defined.

(** Once the window has passed every request dials, not only the first, until one of
    them fails. *)
Example probe_not_alone :
  let opened := (breaker_failure aggressive 30 (failing aggressive [10; 20] closed_breaker)).2 in
  let now := 30 + 15 * second in
  let '(first_one, st) := check aggressive now opened in
  let '(second_one, _) := check aggressive now st in
  first_one = Proceed ∧ second_one = Proceed.
Proof. vm_compute. done. Qed.

Lemma announced_is_enforced_witness :
  let ops := [OAcquire; OWait 400000; OTick; OGiveBack] in
  let a := fold_left (fun a o => adaptive_exec o a) ops (new_adaptive 8) in
  announced a = ad_available a + ad_taken a ∧ FLOOR <= announced a <= 8 ∧ 0 <= ad_available a.
Proof. apply (announced_is_enforced 8 [OAcquire; OWait 400000; OTick; OGiveBack]). lia. Defined.

Example halved_when_slow : announced (fold_left (fun a o => adaptive_exec o a) [OAcquire; OWait 400000; OTick] (new_adaptive 8)) = 4.
Proof. vm_compute. reflexivity. Qed.

Lemma relay_faithful_witness :
  ∃ r, relay_response 10 [Bytes (bs "hello "); Quiet; Bytes (bs "world"); Done] = Some r
    ∧ relayed STREAM_CHUNK_SIZE 10 10 (bs "hello world") Done r.
Proof.
  apply (relay_faithful 10 [Bytes (bs "hello "); Quiet; Bytes (bs "world")] Done); [lia| |done]. by repeat constructor.
Defined.

(** Eleven bytes with a limit of ten: nothing is sent and the visitor gets a 502. *)
Example past_the_limit : relay_response 10 [Bytes (bs "hello "); Quiet; Bytes (bs "world"); Done] = Some ([], ErrorReply 502).
Proof. vm_compute. reflexivity. Qed.

Example streamed_in_frames :
  relay_body 4 2 100 [Bytes (bs "abc"); Bytes (bs "de"); Bytes (bs "fgh"); Quiet; Done] (Buffering []) 0 []
  = Some ([SStart; SChunk (bs "abc"); SChunk (bs "defg"); SChunk (bs "h"); SEnd], NoReply).
Proof. vm_compute. reflexivity. Qed.

Example neighbours_are_not_home : same_site (bs "evil-example.com") (bs "example.com") = false.
Proof. vm_compute. reflexivity. Qed.

Example two_labels_are_enough : same_site (bs "alice.co.uk") (bs "mallory.co.uk") = true.
Proof. vm_compute. reflexivity. Qed.

Definition service : Url :=
  {| url_scheme := bs "http"; url_host := Some (bs "127.0.0.1"); url_port := Some 3000; url_path := bs "/base/"; url_query := None |}.

Example bind_trimmed :
  build_dest_url (fun _ => None) keep_path keep_query (Some service) (Some (bs "/api")) true (bs "/api/x?q=1")
  = Ok (keep_query (Some (bs "q=1")) (keep_path (bs "/base/x") service)).
Proof. vm_compute. reflexivity. Qed.

Example bind_kept_off_boundary :
  build_dest_url (fun _ => None) keep_path keep_query (Some service) (Some (bs "/api")) true (bs "/apiv2/x")
  = Ok (keep_path (bs "/base/apiv2/x") service).
Proof. vm_compute. reflexivity. Qed.

End BackendSamples.
