(* ===== verification/Passkeys.v ===== *)
(** Passkeys, [aperio-server/src/webauthn.rs]: what a configured origin makes of
    the relying party, the one-time ceremonies a browser and the server share, the
    registration and removal of a signed-in user's own passkeys, and the two ways of
    signing in with one.

    The protocol itself is the [webauthn-rs] crate: its functions are the class
    [WebauthnLib], with fresh randomness as an argument. A handler runs at one
    instant; everything else the server does between two handlers is the operation
    [OElsewhere]. Audit lines are not part of the state. *)

From S2P Require Import Prelude Utf8 Binds IpNet Orgs VisitorAuth Grants Users Sessions UsersApi Login.

(** ** The relying party *)

(** What the URL parser keeps of an origin. *)
Record Origin : Type := { or_scheme : str; or_domain : option str; or_port : option Z }.

Record RelyingParty : Type := { rp_id : str; rp_origin : Origin; rp_subdomains : bool }.

Definition strip_suffix (suffix s : str) : option str := (fun x => rev x) <$> strip_prefix (rev suffix) (rev s).

(** [parse_url], [set_host] and [builds] are the URL library's and [WebauthnBuilder]'s. *)
Definition build_webauthn (parse_url : str → option Origin) (set_host : str → Origin → option Origin)
    (builds : RelyingParty → bool) (origin rp_id_setting : option str) : option RelyingParty :=
  match origin with
  | None => None
  | Some raw =>
      let raw := trim raw in
      if str_eqb raw [] then None
      else match parse_url raw with
           | None => None
           | Some origin =>
               match or_domain origin with
               | None => None
               | Some domain =>
                   let override := match trim <$> rp_id_setting with
                                   | Some s => if str_eqb s [] then None else Some s
                                   | None => None
                                   end in
                   let party :=
                     match override with
                     | Some parent =>
                         let is_parent := str_eqb domain parent
                           || match strip_suffix parent domain with
                              | Some p => bool_decide (last p = Some dot)
                              | None => false
                              end in
                         if negb is_parent then None
                         else (fun o => {| rp_id := parent; rp_origin := o; rp_subdomains := true |}) <$> set_host parent origin
                     | None => Some {| rp_id := domain; rp_origin := origin; rp_subdomains := false |}
                     end in
                   match party with
                   | Some p => if builds p then Some p else None
                   | None => None
                   end
               end
           end
  end.

(** ** The library *)

Class WebauthnLib : Type := {
  wl_key : Type;
  wl_cred_id : Type;
  wl_cred_id_eq :: EqDecision wl_cred_id;
  wl_reg : Type;
  wl_auth : Type;
  wl_disc : Type;
  wl_new_credential : Type;
  wl_credential : Type;
  wl_result : Type;
  (** [serde_json] of a key. *)
  parse_key : str → option wl_key;
  print_key : wl_key → option str;
  key_cred_id : wl_key → wl_cred_id;
  (** The first argument is the challenge the library draws. *)
  start_registration : str → str → str → str → option (list wl_cred_id) → option wl_reg;
  finish_registration : wl_new_credential → wl_reg → option wl_key;
  start_authentication : str → list wl_key → option wl_auth;
  finish_authentication : wl_credential → wl_auth → option wl_result;
  start_discoverable : str → option wl_disc;
  identify_discoverable : wl_credential → option (str * wl_cred_id);
  finish_discoverable : wl_credential → wl_disc → list wl_key → option wl_result;
  (** [update_credential] of a stored key, when it changed it. *)
  refreshed_key : wl_result → str → option str;
  (** [Uuid::parse_str] and back to text. *)
  parse_uuid : str → option str;
}.

(** ** Ceremonies *)

Definition CHALLENGE_TTL : Z := 300 * SECOND.

Record WebauthnCeremonies `{WebauthnLib} : Type := {
  ce_reg : gmap str (Z * str * wl_reg);
  ce_auth : gmap str (Z * str * wl_auth);
  ce_disc : gmap str (Z * wl_disc);
}.

Record PasskeyState `{WebauthnLib} : Type := {
  ps_enabled : bool;
  ps_auth : AuthState;
  ps_lockout : LockoutTracker;
  ps_panels : PanelHosts;
  ps_ceremonies : WebauthnCeremonies;
}.

Inductive PasskeyAnswer : Type :=
| Status (code : Z)
| ChallengeFor (ceremony_id : str)
| Registered (id name : str)
| Listed (passkeys : list (str * str * Z * bool))
| Deleted
| PasskeyIn (token : str)
| Available (yes : bool).

(** [chars().take(n)] of UTF-8 bytes. *)
Fixpoint take_chars (n : nat) (s : str) : str :=
  match s with
  | [] => []
  | a :: s => if cont a then a :: take_chars n s
              else match n with O => [] | S n => a :: take_chars n s end
  end.

Definition passkey_name (name : option str) : str :=
  take_chars 64 (match trim <$> name with
                 | Some s => if str_eqb s [] then bs "passkey" else s
                 | None => bs "passkey"
                 end).

Section Handlers.
Context `{WebauthnLib} (sha256 : str → str) (show_ip : ipaddr → str).

Definition fresh_ceremony (now since : Z) : bool := sat_sub now since <? CHALLENGE_TTL.

Definition ceremonies_gc (now : Z) (c : WebauthnCeremonies) : WebauthnCeremonies :=
  {| ce_reg := filter (fun kv => fresh_ceremony now kv.2.1.1 = true) (ce_reg c);
     ce_auth := filter (fun kv => fresh_ceremony now kv.2.1.1 = true) (ce_auth c);
     ce_disc := filter (fun kv => fresh_ceremony now kv.2.1 = true) (ce_disc c) |}.

Definition with_ceremonies (st : PasskeyState) (c : WebauthnCeremonies) : PasskeyState :=
  {| ps_enabled := ps_enabled st; ps_auth := ps_auth st; ps_lockout := ps_lockout st; ps_panels := ps_panels st; ps_ceremonies := c |}.
Definition with_passkey_lockout (st : PasskeyState) (t : LockoutTracker) : PasskeyState :=
  {| ps_enabled := ps_enabled st; ps_auth := ps_auth st; ps_lockout := t; ps_panels := ps_panels st; ps_ceremonies := ps_ceremonies st |}.
Definition with_auth (st : PasskeyState) (a : AuthState) : PasskeyState :=
  {| ps_enabled := ps_enabled st; ps_auth := a; ps_lockout := ps_lockout st; ps_panels := ps_panels st; ps_ceremonies := ps_ceremonies st |}.
Definition with_auth_users (a : AuthState) (us : UserStore) : AuthState :=
  {| a_sessions := a_sessions a; a_users := us; a_keys := a_keys a; a_secure_cookies := a_secure_cookies a;
     a_fenced_login := a_fenced_login a; a_fences := a_fences a; a_clients := a_clients a |}.

Definition session_user (st : PasskeyState) (a : Attempt) : result (str * str) Z :=
  match dashboard_username sha256 (ps_auth st) (at_now a) (at_headers a) with
  | None => Err 400
  | Some username =>
      match find_by_username (a_users (ps_auth st)) username with
      | Some u => Ok (u_id u, u_username u)
      | None => Err 400
      end
  end.

(** The keys of an account the library can read. *)
Definition readable_keys (u : User) : list wl_key := omap (fun p => parse_key (pk_credential p)) (u_passkeys u).

(** ** A user's own passkeys *)

(** [seed] is the library's randomness, [fresh] a new UUID for an account whose id is
    not one. *)
Definition passkey_register_start_handler (seed fresh ceremony_id : str) (st : PasskeyState) (a : Attempt) :
    PasskeyAnswer * PasskeyState :=
  if negb (ps_enabled st) then (Status 501, st)
  else match session_user st a with
       | Err s => (Status s, st)
       | Ok (user_id, username) =>
           let exclude := match get_user (a_users (ps_auth st)) user_id with
                          | Some u => key_cred_id <$> readable_keys u
                          | None => []
                          end in
           let unique := default fresh (parse_uuid user_id) in
           match start_registration seed unique username username (if decide (exclude = []) then None else Some exclude) with
           | None => (Status 400, st)
           | Some reg =>
               let c := ceremonies_gc (at_instant a) (ps_ceremonies st) in
               (ChallengeFor ceremony_id,
                with_ceremonies st {| ce_reg := <[ceremony_id := (at_instant a, user_id, reg)]> (ce_reg c); ce_auth := ce_auth c; ce_disc := ce_disc c |})
           end
       end.

(** [ok] of the write to the users; [pid] is the passkey's new id. *)
Definition passkey_register_finish_handler (ok : bool) (pid ceremony_id : str) (name : option str) (usernameless : bool)
    (credential : wl_new_credential) (st : PasskeyState) (a : Attempt) : PasskeyAnswer * PasskeyState :=
  if negb (ps_enabled st) then (Status 501, st)
  else match session_user st a with
       | Err s => (Status s, st)
       | Ok (user_id, _) =>
           let c := ceremonies_gc (at_instant a) (ps_ceremonies st) in
           let st := with_ceremonies st {| ce_reg := delete ceremony_id (ce_reg c); ce_auth := ce_auth c; ce_disc := ce_disc c |} in
           match ce_reg c !! ceremony_id with
           | Some (_, owner, reg) =>
               if negb (str_eqb owner user_id) then (Status 400, st)
               else match finish_registration credential reg with
                    | None => (Status 400, st)
                    | Some key =>
                        match print_key key with
                        | None => (Status 500, st)
                        | Some serialized =>
                            let '(r, us) := add_passkey ok pid (at_now a) user_id (passkey_name name) serialized usernameless (a_users (ps_auth st)) in
                            let st := with_auth st (with_auth_users (ps_auth st) us) in
                            match r with
                            | Ok stored => (Registered (pk_id stored) (pk_name stored), st)
                            | Err e => (Status (status_of e), st)
                            end
                        end
                    end
           | None => (Status 400, st)
           end
       end.

Definition passkeys_list_handler (st : PasskeyState) (a : Attempt) : PasskeyAnswer :=
  match session_user st a with
  | Err s => Status s
  | Ok (user_id, _) =>
      Listed match get_user (a_users (ps_auth st)) user_id with
             | Some u => (fun p => (pk_id p, pk_name p, pk_created_at p, pk_usernameless p)) <$> u_passkeys u
             | None => []
             end
  end.

Definition passkey_delete_handler (ok : bool) (id : str) (st : PasskeyState) (a : Attempt) : PasskeyAnswer * PasskeyState :=
  match session_user st a with
  | Err s => (Status s, st)
  | Ok (user_id, _) =>
      let '(r, us) := remove_passkey ok user_id id (a_users (ps_auth st)) in
      let st := with_auth st (with_auth_users (ps_auth st) us) in
      match r with
      | Ok _ => (Deleted, st)
      | Err NoSuchUser => (Status 404, st)
      | Err e => (Status (status_of e), st)
      end
  end.

(** ** Signing in *)

(** What both starts ask of an address. *)
Definition may_start (within_rate : bool) (st : PasskeyState) (a : Attempt) : bool * PasskeyState :=
  if negb within_rate then (false, st)
  else let '(lock, t) := locked (at_ip a) (at_instant a) (ps_lockout st) in
       (negb (is_some lock), with_passkey_lockout st t).

Definition passkey_login_start_handler (seed ceremony_id : str) (within_rate : bool) (username : str) (st : PasskeyState) (a : Attempt) :
    PasskeyAnswer * PasskeyState :=
  if negb (ps_enabled st) then (Status 501, st)
  else
    let '(go, st) := may_start within_rate st a in
    if negb go then (Status 429, st)
    else match find_by_username (a_users (ps_auth st)) username with
         | None => (Status 401, st)
         | Some u =>
             if decide (u_passkeys u = []) then (Status 401, st)
             else match start_authentication seed (readable_keys u) with
                  | None => (Status 400, st)
                  | Some auth =>
                      let c := ceremonies_gc (at_instant a) (ps_ceremonies st) in
                      (ChallengeFor ceremony_id,
                       with_ceremonies st {| ce_reg := ce_reg c; ce_auth := <[ceremony_id := (at_instant a, u_id u, auth)]> (ce_auth c); ce_disc := ce_disc c |})
                  end
         end.

Definition passkey_discoverable_start_handler (seed ceremony_id : str) (within_rate : bool) (st : PasskeyState) (a : Attempt) :
    PasskeyAnswer * PasskeyState :=
  if negb (ps_enabled st) then (Status 501, st)
  else
    let '(go, st) := may_start within_rate st a in
    if negb go then (Status 429, st)
    else match start_discoverable seed with
         | None => (Status 400, st)
         | Some disc =>
             let c := ceremonies_gc (at_instant a) (ps_ceremonies st) in
             (ChallengeFor ceremony_id,
              with_ceremonies st {| ce_reg := ce_reg c; ce_auth := ce_auth c; ce_disc := <[ceremony_id := (at_instant a, disc)]> (ce_disc c) |})
         end.

Definition failed (st : PasskeyState) (a : Attempt) : PasskeyState :=
  with_passkey_lockout st (record_failure (at_ip a) (at_instant a) (ps_lockout st)).2.

(** A verified credential of an account: its counters, whether the account is still
    enabled and reaches this panel, and the session. [ok] and [ok_s] are of the
    writes to the users and to the sessions. *)
Definition passkey_credential (u : User) : Credential :=
  {| cr_scope := None; cr_plane := PAdmin; cr_username := Some (u_username u); cr_role := u_role u |}.

Definition verified (ok ok_s : bool) (token user_id : str) (r : wl_result) (st : PasskeyState) (a : Attempt) :
    PasskeyAnswer * PasskeyState :=
  let st := with_auth st (with_auth_users (ps_auth st) (update_passkey_after_auth ok (refreshed_key r) user_id (a_users (ps_auth st)))) in
  match get_user (a_users (ps_auth st)) user_id with
  | Some u =>
      if negb (u_enabled u) then (Status 401, st)
      else if negb (login_admits (ps_panels st) (ps_auth st) (request_host (at_headers a)) (u_grants u)) then (Status 401, st)
      else
        let st := with_passkey_lockout st (clear (at_ip a) (ps_lockout st)) in
        (PasskeyIn token,
         with_auth st (with_sessions (ps_auth st)
           (session_insert sha256 ok_s token (new_session a show_ip (passkey_credential u)) (a_sessions (ps_auth st)))))
  | None => (Status 401, st)
  end.

Definition passkey_login_finish_handler (ok ok_s : bool) (token ceremony_id : str) (credential : wl_credential)
    (st : PasskeyState) (a : Attempt) : PasskeyAnswer * PasskeyState :=
  if negb (ps_enabled st) then (Status 501, st)
  else
    let c := ceremonies_gc (at_instant a) (ps_ceremonies st) in
    let st := with_ceremonies st {| ce_reg := ce_reg c; ce_auth := delete ceremony_id (ce_auth c); ce_disc := ce_disc c |} in
    match ce_auth c !! ceremony_id with
    | None => (Status 400, st)
    | Some (_, user_id, auth) =>
        match finish_authentication credential auth with
        | None => (Status 401, failed st a)
        | Some r => verified ok ok_s token user_id r st a
        end
    end.

Definition opted_in (cred_id : wl_cred_id) (u : User) : bool :=
  existsb (fun p => match parse_key (pk_credential p) with
                    | Some key => bool_decide (key_cred_id key = cred_id) && pk_usernameless p
                    | None => false
                    end) (u_passkeys u).

Definition passkey_discoverable_finish_handler (ok ok_s : bool) (token ceremony_id : str) (credential : wl_credential)
    (st : PasskeyState) (a : Attempt) : PasskeyAnswer * PasskeyState :=
  if negb (ps_enabled st) then (Status 501, st)
  else
    let c := ceremonies_gc (at_instant a) (ps_ceremonies st) in
    let st := with_ceremonies st {| ce_reg := ce_reg c; ce_auth := ce_auth c; ce_disc := delete ceremony_id (ce_disc c) |} in
    match ce_disc c !! ceremony_id with
    | None => (Status 400, st)
    | Some (_, disc) =>
        match identify_discoverable credential with
        | None => (Status 401, failed st a)
        | Some (user_id, cred_id) =>
            let '(keys, allowed) := match get_user (a_users (ps_auth st)) user_id with
                                    | Some u => if u_enabled u then (readable_keys u, opted_in cred_id u) else ([], false)
                                    | None => ([], false)
                                    end in
            match keys with
            | [] => (Status 401, st)
            | _ =>
                if negb allowed then (Status 401, st)
                else match finish_discoverable credential disc keys with
                     | None => (Status 401, failed st a)
                     | Some r => verified ok ok_s token user_id r st a
                     end
            end
        end
    end.

Definition passkey_available_handler (st : PasskeyState) : PasskeyAnswer := Available (ps_enabled st).

(** ** Runs *)

Inductive PasskeyOp : Type :=
| ORegisterStart (seed fresh ceremony_id : str) (a : Attempt)
| ORegisterFinish (ok : bool) (pid ceremony_id : str) (name : option str) (usernameless : bool) (credential : wl_new_credential) (a : Attempt)
| ODelete (ok : bool) (id : str) (a : Attempt)
| OLoginStart (seed ceremony_id : str) (within_rate : bool) (username : str) (a : Attempt)
| OLoginFinish (ok ok_s : bool) (token ceremony_id : str) (credential : wl_credential) (a : Attempt)
| OPickStart (seed ceremony_id : str) (within_rate : bool) (a : Attempt)
| OPickFinish (ok ok_s : bool) (token ceremony_id : str) (credential : wl_credential) (a : Attempt)
| OElsewhere (auth : AuthState) (lockout : LockoutTracker) (panels : PanelHosts).

Definition exec_passkey (o : PasskeyOp) (st : PasskeyState) : PasskeyAnswer * PasskeyState :=
  match o with
  | ORegisterStart seed fresh id a => passkey_register_start_handler seed fresh id st a
  | ORegisterFinish ok pid id name un cred a => passkey_register_finish_handler ok pid id name un cred st a
  | ODelete ok id a => passkey_delete_handler ok id st a
  | OLoginStart seed id rate name a => passkey_login_start_handler seed id rate name st a
  | OLoginFinish ok ok_s token id cred a => passkey_login_finish_handler ok ok_s token id cred st a
  | OPickStart seed id rate a => passkey_discoverable_start_handler seed id rate st a
  | OPickFinish ok ok_s token id cred a => passkey_discoverable_finish_handler ok ok_s token id cred st a
  | OElsewhere auth lockout panels =>
      (Status 200, {| ps_enabled := ps_enabled st; ps_auth := auth; ps_lockout := lockout; ps_panels := panels; ps_ceremonies := ps_ceremonies st |})
  end.

Definition run_passkeys (ops : list PasskeyOp) (st : PasskeyState) : PasskeyState := fold_left (fun st o => (exec_passkey o st).2) ops st.

End Handlers.

(** ** Where a ceremony comes from *)

Section Traced.
Context `{W : WebauthnLib} (sha256 : str → str) (show_ip : ipaddr → str).

Definition no_ceremonies : WebauthnCeremonies := {| ce_reg := ∅; ce_auth := ∅; ce_disc := ∅ |}.

(** The operations that use up a ceremony of each kind. *)
Definition finishes (id : str) (o : PasskeyOp) : Prop := match o with OLoginFinish _ _ _ id' _ _ => id' = id | _ => False end.
Definition picks (id : str) (o : PasskeyOp) : Prop := match o with OPickFinish _ _ _ id' _ _ => id' = id | _ => False end.
Definition registers (id : str) (o : PasskeyOp) : Prop := match o with ORegisterFinish _ _ id' _ _ _ _ => id' = id | _ => False end.

(** An operation that began the ceremony of each kind in a state. *)
Definition began_login (id : str) (e : Z * str * wl_auth) (o : PasskeyOp) (st : PasskeyState) : Prop :=
  ∃ seed name a u auth, o = OLoginStart seed id true name a ∧ e = (at_instant a, u_id u, auth)
    ∧ (locked (at_ip a) (at_instant a) (ps_lockout st)).1 = None
    ∧ find_by_username (a_users (ps_auth st)) name = Some u ∧ start_authentication seed (readable_keys u) = Some auth.
Definition began_pick (id : str) (e : Z * wl_disc) (o : PasskeyOp) (st : PasskeyState) : Prop :=
  ∃ seed a disc, o = OPickStart seed id true a ∧ e = (at_instant a, disc)
    ∧ (locked (at_ip a) (at_instant a) (ps_lockout st)).1 = None ∧ start_discoverable seed = Some disc.
Definition began_register (id : str) (e : Z * str * wl_reg) (o : PasskeyOp) (st : PasskeyState) : Prop :=
  ∃ seed fresh a uid uname exclude reg, o = ORegisterStart seed fresh id a ∧ e = (at_instant a, uid, reg)
    ∧ session_user sha256 st a = Ok (uid, uname)
    ∧ start_registration seed (default fresh (parse_uuid uid)) uname uname exclude = Some reg.

Abbreviation exec := (exec_passkey sha256 show_ip).
Abbreviation run := (run_passkeys sha256 show_ip).

Lemma may_start_ceremonies rate st a : ps_ceremonies (may_start rate st a).2 = ps_ceremonies st
  ∧ ps_auth (may_start rate st a).2 = ps_auth st ∧ ps_enabled (may_start rate st a).2 = ps_enabled st
  ∧ ((may_start rate st a).1 = true → rate = true ∧ (locked (at_ip a) (at_instant a) (ps_lockout st)).1 = None).
Proof.
  unfold may_start. destruct rate; [|done]. simpl. destruct (locked _ _ _) as [[w|] t]; done.
Qed.

Lemma verified_ceremonies ok ok_s token uid r st a : ps_ceremonies (verified sha256 show_ip ok ok_s token uid r st a).2 = ps_ceremonies st
  ∧ ps_enabled (verified sha256 show_ip ok ok_s token uid r st a).2 = ps_enabled st.
Proof.
  unfold verified. cbv zeta. destruct (get_user _ _) as [u|]; [|done]. destruct (negb (u_enabled u)); [done|].
  by destruct (negb (login_admits _ _ _ _)).
Qed.

Lemma exec_enabled o st : ps_enabled (exec o st).2 = ps_enabled st.
Proof.
  destruct o; simpl; try done.
  - unfold passkey_register_start_handler. repeat (case_match; simpl; try done).
  - unfold passkey_register_finish_handler. repeat (case_match; simpl; try done).
  - unfold passkey_delete_handler. repeat (case_match; simpl; try done).
  - unfold passkey_login_start_handler. destruct (may_start_ceremonies within_rate st a) as (_ & _ & He & _).
    destruct (may_start within_rate st a) as [go st']. simpl in He. repeat (case_match; simpl; try done).
  - unfold passkey_login_finish_handler. repeat (case_match; simpl; try done). by rewrite (proj2 (verified_ceremonies _ _ _ _ _ _ _)).
  - unfold passkey_discoverable_start_handler. destruct (may_start_ceremonies within_rate st a) as (_ & _ & He & _).
    destruct (may_start within_rate st a) as [go st']. simpl in He. repeat (case_match; simpl; try done).
  - unfold passkey_discoverable_finish_handler. repeat (case_match; simpl; try done). all: by rewrite (proj2 (verified_ceremonies _ _ _ _ _ _ _)).
Qed.

Lemma gc_auth now c id e : ce_auth (ceremonies_gc now c) !! id = Some e ↔ ce_auth c !! id = Some e ∧ fresh_ceremony now e.1.1 = true.
Proof. apply map_lookup_filter_Some. Qed.
Lemma gc_reg now c id e : ce_reg (ceremonies_gc now c) !! id = Some e ↔ ce_reg c !! id = Some e ∧ fresh_ceremony now e.1.1 = true.
Proof. apply map_lookup_filter_Some. Qed.
Lemma gc_disc now c id e : ce_disc (ceremonies_gc now c) !! id = Some e ↔ ce_disc c !! id = Some e ∧ fresh_ceremony now e.1 = true.
Proof. apply map_lookup_filter_Some. Qed.

(** A handler keeps the ceremonies, sweeps them, or sweeps them and then adds or takes
    one of its own kind. *)
Inductive touched (o : PasskeyOp) (st : PasskeyState) (c : WebauthnCeremonies) : WebauthnCeremonies → Prop :=
| kept : (∀ id, ps_enabled st = true → ¬ finishes id o ∧ ¬ picks id o) → touched o st c c
| added_login now id e : began_login id e o st →
    touched o st c {| ce_reg := ce_reg (ceremonies_gc now c); ce_auth := <[id := e]> (ce_auth (ceremonies_gc now c)); ce_disc := ce_disc (ceremonies_gc now c) |}
| added_pick now id e : began_pick id e o st →
    touched o st c {| ce_reg := ce_reg (ceremonies_gc now c); ce_auth := ce_auth (ceremonies_gc now c); ce_disc := <[id := e]> (ce_disc (ceremonies_gc now c)) |}
| added_register now id e : began_register id e o st →
    touched o st c {| ce_reg := <[id := e]> (ce_reg (ceremonies_gc now c)); ce_auth := ce_auth (ceremonies_gc now c); ce_disc := ce_disc (ceremonies_gc now c) |}
| took_login now id : (∀ id', finishes id' o → id' = id) → (∀ id', ¬ picks id' o) →
    touched o st c {| ce_reg := ce_reg (ceremonies_gc now c); ce_auth := delete id (ce_auth (ceremonies_gc now c)); ce_disc := ce_disc (ceremonies_gc now c) |}
| took_pick now id : (∀ id', picks id' o → id' = id) → (∀ id', ¬ finishes id' o) →
    touched o st c {| ce_reg := ce_reg (ceremonies_gc now c); ce_auth := ce_auth (ceremonies_gc now c); ce_disc := delete id (ce_disc (ceremonies_gc now c)) |}
| took_register now id : registers id o →
    touched o st c {| ce_reg := delete id (ce_reg (ceremonies_gc now c)); ce_auth := ce_auth (ceremonies_gc now c); ce_disc := ce_disc (ceremonies_gc now c) |}.

Ltac keep := apply kept; intros ? ?; first [congruence | split; intros []].

Lemma exec_touched o st : touched o st (ps_ceremonies st) (ps_ceremonies (exec o st).2).
Proof.
  destruct o as [seed fresh id a|ok pid id name un cred a|ok pid a|seed id rate name a|ok ok_s token id cred a|seed id rate a|ok ok_s token id cred a|auth lockout panels];
    simpl.
  - unfold passkey_register_start_handler. destruct (negb _); [keep|]. destruct (session_user sha256 st a) as [[uid uname]|e] eqn:Es; [|keep].
    cbv zeta. destruct (start_registration _ _ _ _ _) as [reg|] eqn:Er; [|keep]. apply added_register. by eexists _, _, _, _, _, _, _.
  - unfold passkey_register_finish_handler. destruct (negb _); [keep|]. destruct (session_user sha256 st a) as [[uid uname]|e]; [|keep].
    cbv zeta. repeat (case_match; simpl; try by apply took_register).
  - unfold passkey_delete_handler. repeat (case_match; simpl; try solve [keep]).
  - unfold passkey_login_start_handler. destruct (negb _); [keep|]. destruct (may_start_ceremonies rate st a) as (Hc & Ha & _ & Hgo).
    destruct (may_start rate st a) as [go st']. simpl in *. rewrite <-Hc. destruct go; [|keep]. destruct Hgo as [-> Hl]; [done|]. simpl.
    rewrite Ha. destruct (find_by_username _ _) as [u|] eqn:Eu; [|keep]. destruct (decide _); [keep|].
    destruct (start_authentication _ _) as [auth|] eqn:Er; [|keep]. apply added_login. by eexists _, _, _, _, _.
  - unfold passkey_login_finish_handler. destruct (ps_enabled st) eqn:Ee; simpl; [|keep].
    assert (Ht : ∀ now, touched (OLoginFinish ok ok_s token id cred a) st (ps_ceremonies st)
      {| ce_reg := ce_reg (ceremonies_gc now (ps_ceremonies st)); ce_auth := delete id (ce_auth (ceremonies_gc now (ps_ceremonies st)));
         ce_disc := ce_disc (ceremonies_gc now (ps_ceremonies st)) |}) by (intros now; apply took_login; [done|by intros ? []]).
    destruct (_ !! id) as [[[t uid] auth]|]; [|apply Ht]. destruct (finish_authentication _ _); [|apply Ht].
    rewrite (proj1 (verified_ceremonies _ _ _ _ _ _ _)). apply Ht.
  - unfold passkey_discoverable_start_handler. destruct (negb _); [keep|]. destruct (may_start_ceremonies rate st a) as (Hc & Ha & _ & Hgo).
    destruct (may_start rate st a) as [go st']. simpl in *. rewrite <-Hc. destruct go; [|keep]. destruct Hgo as [-> Hl]; [done|]. simpl.
    destruct (start_discoverable _) as [disc|] eqn:Er; [|keep]. apply added_pick. by eexists _, _, _.
  - unfold passkey_discoverable_finish_handler. destruct (ps_enabled st) eqn:Ee; simpl; [|keep].
    assert (Ht : ∀ now, touched (OPickFinish ok ok_s token id cred a) st (ps_ceremonies st)
      {| ce_reg := ce_reg (ceremonies_gc now (ps_ceremonies st)); ce_auth := ce_auth (ceremonies_gc now (ps_ceremonies st));
         ce_disc := delete id (ce_disc (ceremonies_gc now (ps_ceremonies st))) |}) by (intros now; apply took_pick; [done|by intros ? []]).
    destruct (_ !! id) as [[t disc]|]; [|apply Ht]. destruct (identify_discoverable _) as [[uid cid]|]; [|apply Ht].
    destruct (match get_user _ _ with Some _ => _ | None => _ end) as [keys allowed]. destruct keys; [apply Ht|]. destruct (negb allowed); [apply Ht|].
    destruct (finish_discoverable _ _ _); [|apply Ht]. rewrite (proj1 (verified_ceremonies _ _ _ _ _ _ _)). apply Ht.
  - keep.
Qed.

Lemma run_snoc pre o st : run (pre ++ [o]) st = (exec o (run pre st)).2.
Proof. unfold run_passkeys. by rewrite fold_left_app. Qed.

Lemma run_enabled pre st : ps_enabled (run pre st) = ps_enabled st.
Proof. induction pre as [|o pre IH] using rev_ind; [done|]. by rewrite run_snoc, exec_enabled. Qed.

(** What a run's tables hold was begun by one of its operations, and no operation since
    has used it. *)
Lemma traced (holds : WebauthnCeremonies → Prop) (began : PasskeyOp → PasskeyState → Prop) (uses : PasskeyOp → Prop) :
  ¬ holds no_ceremonies →
  (∀ o st, ps_enabled st = true → holds (ps_ceremonies (exec o st).2) → (holds (ps_ceremonies st) ∧ ¬ uses o) ∨ began o st) →
  ∀ pre st0, ps_ceremonies st0 = no_ceremonies → ps_enabled st0 = true → holds (ps_ceremonies (run pre st0)) →
  ∃ pre1 o pre2, pre = pre1 ++ o :: pre2 ∧ began o (run pre1 st0) ∧ Forall (fun o => ¬ uses o) pre2.
Proof.
  intros Hnone Hstep pre st0 H0 He.
  apply (run_traced (fun o st => (exec o st).2) (fun st => ps_enabled st = true) (fun st => holds (ps_ceremonies st)) began uses); [done| | |done].
  - intros o st. by rewrite exec_enabled.
  - by rewrite H0.
Qed.

Lemma login_step id e o st : ps_enabled st = true → ce_auth (ps_ceremonies (exec o st).2) !! id = Some e →
  (ce_auth (ps_ceremonies st) !! id = Some e ∧ ¬ finishes id o) ∨ began_login id e o st.
Proof.
  intros He. destruct (exec_touched o st) as [Hk|now id' e' Hb|now id' e' Hb|now id' e' Hb|now id' Hf Hp|now id' Hp Hf|now id' Hr]; cbn [ce_auth ce_reg ce_disc].
  - intros Hl. left. split; [done|]. by apply Hk.
  - rewrite lookup_insert_Some, gc_auth. intros [[<- <-]|[Hne [Hl _]]]; [by right|]. left. split; [done|].
    destruct Hb as (? & ? & ? & ? & ? & -> & _). intros [].
  - rewrite gc_auth. intros [Hl _]. left. split; [done|]. destruct Hb as (? & ? & ? & -> & _). intros [].
  - rewrite gc_auth. intros [Hl _]. left. split; [done|]. destruct Hb as (? & ? & ? & ? & ? & ? & ? & -> & _). intros [].
  - rewrite lookup_delete_Some, gc_auth. intros [Hne [Hl _]]. left. split; [done|]. intros Hf'. by apply Hne, eq_sym, Hf.
  - rewrite gc_auth. intros [Hl _]. left. by split.
  - rewrite gc_auth. intros [Hl _]. left. split; [done|]. destruct o; try done. intros [].
Qed.

Lemma pick_step id e o st : ps_enabled st = true → ce_disc (ps_ceremonies (exec o st).2) !! id = Some e →
  (ce_disc (ps_ceremonies st) !! id = Some e ∧ ¬ picks id o) ∨ began_pick id e o st.
Proof.
  intros He. destruct (exec_touched o st) as [Hk|now id' e' Hb|now id' e' Hb|now id' e' Hb|now id' Hf Hp|now id' Hp Hf|now id' Hr]; cbn [ce_auth ce_reg ce_disc].
  - intros Hl. left. split; [done|]. by apply Hk.
  - rewrite gc_disc. intros [Hl _]. left. split; [done|]. destruct Hb as (? & ? & ? & ? & ? & -> & _). intros [].
  - rewrite lookup_insert_Some, gc_disc. intros [[<- <-]|[Hne [Hl _]]]; [by right|]. left. split; [done|].
    destruct Hb as (? & ? & ? & -> & _). intros [].
  - rewrite gc_disc. intros [Hl _]. left. split; [done|]. destruct Hb as (? & ? & ? & ? & ? & ? & ? & -> & _). intros [].
  - rewrite gc_disc. intros [Hl _]. left. by split.
  - rewrite lookup_delete_Some, gc_disc. intros [Hne [Hl _]]. left. split; [done|]. intros Hf'. by apply Hne, eq_sym, Hp.
  - rewrite gc_disc. intros [Hl _]. left. split; [done|]. destruct o; try done. intros [].
Qed.

Lemma register_step id e o st : ps_enabled st = true → ce_reg (ps_ceremonies (exec o st).2) !! id = Some e →
  (ce_reg (ps_ceremonies st) !! id = Some e ∧ True) ∨ began_register id e o st.
Proof.
  intros He. destruct (exec_touched o st) as [Hk|now id' e' Hb|now id' e' Hb|now id' e' Hb|now id' Hf Hp|now id' Hp Hf|now id' Hr]; cbn [ce_auth ce_reg ce_disc].
  - intros Hl. by left.
  - rewrite gc_reg. intros [Hl _]. by left.
  - rewrite gc_reg. intros [Hl _]. by left.
  - rewrite lookup_insert_Some, gc_reg. intros [[<- <-]|[Hne [Hl _]]]; [by right|by left].
  - rewrite gc_reg. intros [Hl _]. by left.
  - rewrite gc_reg. intros [Hl _]. by left.
  - rewrite lookup_delete_Some, gc_reg. intros [Hne [Hl _]]. by left.
Qed.

(** ** What signs in *)

Lemma verified_in ok ok_s token uid r st a answer st' : verified sha256 show_ip ok ok_s token uid r st a = (PasskeyIn answer, st') →
  answer = token ∧ ∃ u, get_user (a_users (ps_auth st')) uid = Some u ∧ u_enabled u = true
    ∧ login_admits (ps_panels st') (ps_auth st') (request_host (at_headers a)) (u_grants u) = true
    ∧ session_get sha256 (a_sessions (ps_auth st')) token = Some (new_session a show_ip (passkey_credential u)).
Proof.
  unfold verified. cbv zeta. destruct (get_user _ _) as [u|] eqn:Eg; [|done]. destruct (u_enabled u) eqn:Ee; [|done]. simpl negb. cbv iota.
  destruct (login_admits _ _ _ _) eqn:El; [|done]. simpl negb. cbv iota. intros [= <- <-]. split; [done|]. exists u.
  split; [exact Eg|]. split; [done|]. split; [exact El|]. unfold session_get, session_insert. simpl. apply aget_aset_eq.
Qed.

(** A session made by the answer to a challenge for a named account. *)
Lemma named_sign_in_traced pre st0 ok ok_s token id cred a answer st' :
  ps_ceremonies st0 = no_ceremonies → ps_enabled st0 = true →
  exec (OLoginFinish ok ok_s token id cred a) (run pre st0) = (PasskeyIn answer, st') →
  ∃ pre1 seed name a0 pre2 u0 auth r u,
    pre = pre1 ++ OLoginStart seed id true name a0 :: pre2 ∧ Forall (fun o => ¬ finishes id o) pre2
    ∧ sat_sub (at_instant a) (at_instant a0) < CHALLENGE_TTL
    ∧ (locked (at_ip a0) (at_instant a0) (ps_lockout (run pre1 st0))).1 = None
    ∧ find_by_username (a_users (ps_auth (run pre1 st0))) name = Some u0
    ∧ start_authentication seed (readable_keys u0) = Some auth ∧ finish_authentication cred auth = Some r
    ∧ get_user (a_users (ps_auth st')) (u_id u0) = Some u ∧ u_enabled u = true
    ∧ login_admits (ps_panels st') (ps_auth st') (request_host (at_headers a)) (u_grants u) = true
    ∧ session_get sha256 (a_sessions (ps_auth st')) token = Some (new_session a show_ip (passkey_credential u))
    ∧ ce_auth (ps_ceremonies st') !! id = None.
Proof.
  intros H0 He. simpl. unfold passkey_login_finish_handler. rewrite run_enabled, He. simpl negb. cbv iota zeta.
  destruct (ce_auth (ceremonies_gc (at_instant a) (ps_ceremonies (run pre st0))) !! id) as [[[t uid] auth]|] eqn:El; [|done].
  apply gc_auth in El as [El Hf]. destruct (finish_authentication cred auth) as [r|] eqn:Er; [|done]. intros Hv.
  assert (Hgone : ce_auth (ps_ceremonies st') !! id = None).
  { change st' with (PasskeyIn answer, st').2. rewrite <-Hv, (proj1 (verified_ceremonies _ _ _ _ _ _ _)). simpl. apply lookup_delete_eq. }
  apply verified_in in Hv as (-> & u & Hg & Hen & Had & Hs).
  destruct (traced (fun c => ce_auth c !! id = Some (t, uid, auth)) (began_login id (t, uid, auth)) (finishes id)) with (pre := pre) (st0 := st0)
    as (pre1 & o & pre2 & -> & (seed & name & a0 & u0 & auth' & -> & [= -> -> <-] & Hlk & Hu & Hst) & Hall); try done.
  { intros o st. apply login_step. }
  exists pre1, seed, name, a0, pre2, u0, auth, r, u. unfold fresh_ceremony in Hf. apply Z.ltb_lt in Hf. by repeat (split; [done|]).
Qed.

(** Without a user name only a passkey its owner opted in signs in, and only while it is
    registered: the credential names an account that is enabled now and has a readable
    passkey of that id marked for it now, and verifies against the account's present
    passkeys and a challenge begun less than five minutes before and not answered since. *)
Theorem usernameless_opted_in pre st0 ok ok_s token id cred a answer st' :
  ps_ceremonies st0 = no_ceremonies → ps_enabled st0 = true →
  exec (OPickFinish ok ok_s token id cred a) (run pre st0) = (PasskeyIn answer, st') →
  ∃ pre1 seed a0 pre2 disc uid cid u p key r v,
    pre = pre1 ++ OPickStart seed id true a0 :: pre2 ∧ Forall (fun o => ¬ picks id o) pre2
    ∧ sat_sub (at_instant a) (at_instant a0) < CHALLENGE_TTL
    ∧ (locked (at_ip a0) (at_instant a0) (ps_lockout (run pre1 st0))).1 = None
    ∧ start_discoverable seed = Some disc ∧ identify_discoverable cred = Some (uid, cid)
    ∧ get_user (a_users (ps_auth (run pre st0))) uid = Some u ∧ u_enabled u = true
    ∧ p ∈ u_passkeys u ∧ parse_key (pk_credential p) = Some key ∧ key_cred_id key = cid ∧ pk_usernameless p = true
    ∧ finish_discoverable cred disc (readable_keys u) = Some r
    ∧ get_user (a_users (ps_auth st')) uid = Some v ∧ u_enabled v = true
    ∧ login_admits (ps_panels st') (ps_auth st') (request_host (at_headers a)) (u_grants v) = true
    ∧ session_get sha256 (a_sessions (ps_auth st')) token = Some (new_session a show_ip (passkey_credential v))
    ∧ ce_disc (ps_ceremonies st') !! id = None.
Proof.
  intros H0 He. simpl. unfold passkey_discoverable_finish_handler. rewrite run_enabled, He. simpl negb. cbv iota zeta.
  destruct (ce_disc (ceremonies_gc (at_instant a) (ps_ceremonies (run pre st0))) !! id) as [[t disc]|] eqn:El; [|done].
  apply gc_disc in El as [El Hf]. destruct (identify_discoverable cred) as [[uid cid]|] eqn:Ei; [|done]. simpl ps_auth.
  destruct (get_user (a_users (ps_auth (run pre st0))) uid) as [u|] eqn:Eu; [|done]. destruct (u_enabled u) eqn:Een; [|done].
  destruct (readable_keys u) as [|k0 ks] eqn:Ek; [done|]. destruct (opted_in cid u) eqn:Eo; [|done]. simpl negb. cbv iota.
  destruct (finish_discoverable cred disc (k0 :: ks)) as [r|] eqn:Er; [|done]. intros Hv.
  assert (Hgone : ce_disc (ps_ceremonies st') !! id = None).
  { change st' with (PasskeyIn answer, st').2. rewrite <-Hv, (proj1 (verified_ceremonies _ _ _ _ _ _ _)). simpl. apply lookup_delete_eq. }
  apply verified_in in Hv as (-> & v & Hg & Hen & Had & Hs).
  destruct (traced (fun c => ce_disc c !! id = Some (t, disc)) (began_pick id (t, disc)) (picks id)) with (pre := pre) (st0 := st0)
    as (pre1 & o & pre2 & -> & (seed & a0 & disc' & -> & [= -> <-] & Hlk & Hst) & Hall); try done.
  { intros o st. apply pick_step. }
  apply existsb_exists in Eo as (p & Hp & Hok). destruct (parse_key (pk_credential p)) as [key|] eqn:Epk; [|done].
  apply andb_true_iff in Hok as [Hcid Hun]. apply bool_decide_eq_true in Hcid. apply list_elem_of_In in Hp.
  exists pre1, seed, a0, pre2, disc, uid, cid, u, p, key, r, v. unfold fresh_ceremony in Hf. apply Z.ltb_lt in Hf. rewrite Ek.
  by repeat (split; [done|]).
Qed.

(** C18: A passkey signs in once for each time it is asked. Whatever else the server does
    in between, every session a passkey makes was preceded by a start of that ceremony,
    less than five minutes before, from an address that was not locked out, whose
    challenge nothing since had answered and which is gone afterwards. Where the start
    named an account, the credential verifies against a challenge for the passkeys that
    account then had, and the account is still enabled and reaches the hostname it signs in
    at. Where it named none, the credential itself names an account, enabled now, with a
    readable passkey of that id registered and marked for use without a name now, and
    verifies against the account's present passkeys. The session is that account's. *)
Theorem passkey_sign_in_traced pre st0 o answer st' :
  ps_ceremonies st0 = no_ceremonies → ps_enabled st0 = true → exec o (run pre st0) = (PasskeyIn answer, st') →
  match o with
  | OLoginFinish ok ok_s token id cred a =>
      ∃ pre1 seed name a0 pre2 u0 auth r u,
        pre = pre1 ++ OLoginStart seed id true name a0 :: pre2 ∧ Forall (fun o => ¬ finishes id o) pre2
        ∧ sat_sub (at_instant a) (at_instant a0) < CHALLENGE_TTL
        ∧ (locked (at_ip a0) (at_instant a0) (ps_lockout (run pre1 st0))).1 = None
        ∧ find_by_username (a_users (ps_auth (run pre1 st0))) name = Some u0
        ∧ start_authentication seed (readable_keys u0) = Some auth ∧ finish_authentication cred auth = Some r
        ∧ get_user (a_users (ps_auth st')) (u_id u0) = Some u ∧ u_enabled u = true
        ∧ login_admits (ps_panels st') (ps_auth st') (request_host (at_headers a)) (u_grants u) = true
        ∧ session_get sha256 (a_sessions (ps_auth st')) token = Some (new_session a show_ip (passkey_credential u))
        ∧ ce_auth (ps_ceremonies st') !! id = None
  | OPickFinish ok ok_s token id cred a =>
      ∃ pre1 seed a0 pre2 disc uid cid u p key r v,
        pre = pre1 ++ OPickStart seed id true a0 :: pre2 ∧ Forall (fun o => ¬ picks id o) pre2
        ∧ sat_sub (at_instant a) (at_instant a0) < CHALLENGE_TTL
        ∧ (locked (at_ip a0) (at_instant a0) (ps_lockout (run pre1 st0))).1 = None
        ∧ start_discoverable seed = Some disc ∧ identify_discoverable cred = Some (uid, cid)
        ∧ get_user (a_users (ps_auth (run pre st0))) uid = Some u ∧ u_enabled u = true
        ∧ p ∈ u_passkeys u ∧ parse_key (pk_credential p) = Some key ∧ key_cred_id key = cid ∧ pk_usernameless p = true
        ∧ finish_discoverable cred disc (readable_keys u) = Some r
        ∧ get_user (a_users (ps_auth st')) uid = Some v ∧ u_enabled v = true
        ∧ login_admits (ps_panels st') (ps_auth st') (request_host (at_headers a)) (u_grants v) = true
        ∧ session_get sha256 (a_sessions (ps_auth st')) token = Some (new_session a show_ip (passkey_credential v))
        ∧ ce_disc (ps_ceremonies st') !! id = None
  | _ => False
  end.
Proof.
  intros H0 He Hx. destruct o.
  - revert Hx. simpl. unfold passkey_register_start_handler. repeat case_match; by intros [= ? _].
  - revert Hx. simpl. unfold passkey_register_finish_handler. repeat case_match; by intros [= ? _].
  - revert Hx. simpl. unfold passkey_delete_handler. repeat case_match; by intros [= ? _].
  - revert Hx. simpl. unfold passkey_login_start_handler. repeat case_match; by intros [= ? _].
  - by eapply named_sign_in_traced.
  - revert Hx. simpl. unfold passkey_discoverable_start_handler. repeat case_match; by intros [= ? _].
  - by eapply usernameless_opted_in.
  - done.
Qed.

(** ** What registers *)

Lemma modify_get {R} id (f : User → result (R * User) UserError) l r l' :
  (∀ u x u', f u = Ok (x, u') → u_id u' = u_id u) → modify id f l = Ok (r, l') →
  ∃ u u', find (fun u => str_eqb (u_id u) id) l = Some u ∧ f u = Ok (r, u')
    ∧ find (fun u => str_eqb (u_id u) id) l' = Some u'
    ∧ ∀ id', id' ≠ id → find (fun u => str_eqb (u_id u) id') l' = find (fun u => str_eqb (u_id u) id') l.
Proof.
  intros Hid. revert l'. induction l as [|v l IH]; intros l'; simpl; [done|]. destruct (str_eqb (u_id v) id) eqn:E.
  - destruct (f v) as [[x u']|e] eqn:Ef; [|done]. simpl. intros [= <- <-]. exists v, u'. split; [done|]. split; [done|]. simpl.
    pose proof (Hid _ _ _ Ef) as Hi. rewrite Hi, E. split; [done|]. intros id' Hne. apply str_eqb_eq in E.
    rewrite <-E in Hne. assert (str_eqb (u_id v) id' = false) as -> by (apply not_true_is_false; intros Hx; by apply str_eqb_eq in Hx). done.
  - destruct (modify id f l) as [[x us]|e] eqn:Em; [|done]. simpl. intros [= <- <-]. destruct (IH us eq_refl) as (u & u' & H1 & H2 & H3 & H4).
    exists u, u'. split; [done|]. split; [done|]. simpl. rewrite E. split; [done|]. intros id' Hne. by rewrite H4.
Qed.

(** A passkey is added only to the account of the session that asks, from a ceremony the
    same account began less than five minutes before, with a credential the library
    verified against it. It goes to the end of the account's passkeys, of which there
    were fewer than ten, is saved, and no other account changes. *)
Theorem registration_is_own pre st0 ok pid id name un cred a rid rname st' :
  ps_ceremonies st0 = no_ceremonies → ps_enabled st0 = true →
  exec (ORegisterFinish ok pid id name un cred a) (run pre st0) = (Registered rid rname, st') →
  ∃ pre1 seed fresh a0 pre2 uid uname0 uname exclude reg key text u,
    pre = pre1 ++ ORegisterStart seed fresh id a0 :: pre2
    ∧ session_user sha256 (run pre1 st0) a0 = Ok (uid, uname0) ∧ session_user sha256 (run pre st0) a = Ok (uid, uname)
    ∧ sat_sub (at_instant a) (at_instant a0) < CHALLENGE_TTL
    ∧ start_registration seed (default fresh (parse_uuid uid)) uname0 uname0 exclude = Some reg
    ∧ finish_registration cred reg = Some key ∧ print_key key = Some text
    ∧ get_user (a_users (ps_auth (run pre st0))) uid = Some u ∧ (length (u_passkeys u) < 10)%nat
    ∧ get_user (a_users (ps_auth st')) uid
      = Some (with_passkeys u (u_passkeys u ++ [{| pk_id := pid; pk_name := passkey_name name; pk_created_at := at_now a;
                                                   pk_credential := text; pk_usernameless := un |}]))
    ∧ disk (a_users (ps_auth st')) = users (a_users (ps_auth st'))
    ∧ ∀ uid', uid' ≠ uid → get_user (a_users (ps_auth st')) uid' = get_user (a_users (ps_auth (run pre st0))) uid'.
Proof.
  intros H0 He. simpl. unfold passkey_register_finish_handler. rewrite run_enabled, He. simpl negb. cbv iota zeta.
  destruct (session_user sha256 (run pre st0) a) as [[uid uname]|e] eqn:Es; [|done].
  destruct (ce_reg (ceremonies_gc (at_instant a) (ps_ceremonies (run pre st0))) !! id) as [[[t owner] reg]|] eqn:El; [|done].
  destruct (str_eqb owner uid) eqn:Eo; [|done]. simpl negb. cbv iota. apply str_eqb_eq in Eo as ->.
  apply gc_reg in El as [El Hf]. destruct (finish_registration cred reg) as [key|] eqn:Er; [|done].
  destruct (print_key key) as [text|] eqn:Ep; [|done]. simpl ps_auth. unfold add_passkey.
  match goal with |- context [commit ok ?ch ?us] => pose proof (commit_spec ok ch us) as Hc; destruct (commit ok ch us) as [r us'] end.
  destruct Hc as [[Hr _]|(out & us & Hm & -> & ->)]; [by destruct r|]. intros [= _ _ <-].
  apply modify_get in Hm as (u & u' & Hu & Hfu & Hu' & Hothers); [|intros v x v'; destruct (10 <=? _)%nat; [done|]; by intros [= _ <-]].
  destruct (10 <=? length (u_passkeys u))%nat eqn:E10; [done|]. apply Nat.leb_gt in E10. injection Hfu as _ <-.
  destruct (traced (fun c => ce_reg c !! id = Some (t, uid, reg)) (began_register id (t, uid, reg)) (fun _ => False)) with (pre := pre) (st0 := st0)
    as (pre1 & o & pre2 & -> & (seed & fresh & a0 & uid0 & uname0 & exclude & reg' & -> & [= -> <- <-] & Hs0 & Hst) & _); try done.
  { intros o st Hen Hl. destruct (register_step id _ o st Hen Hl) as [[Hl' _]|Hb]; [left; split; [done|by intros []]|by right]. }
  exists pre1, seed, fresh, a0, pre2, uid, uname0, uname, exclude, reg, key, text, u. unfold fresh_ceremony in Hf. apply Z.ltb_lt in Hf.
  by repeat (split; [done|]).
Qed.

End Traced.

(** ** The relying party *)

(** Passkeys are bound to the origin's own domain or to a parent of it at a dot, never
    to an unrelated name; subdomains are accepted exactly when a parent was configured. *)
Theorem relying_party_covers_origin parse_url set_host builds origin setting p :
  build_webauthn parse_url set_host builds origin setting = Some p →
  ∃ raw o domain, origin = Some raw ∧ parse_url (trim raw) = Some o ∧ or_domain o = Some domain
    ∧ (domain = rp_id p ∨ ∃ h, domain = h ++ dot :: rp_id p) ∧ builds p = true
    ∧ (rp_subdomains p = false → rp_id p = domain ∧ rp_origin p = o)
    ∧ (rp_subdomains p = true → ∃ s, setting = Some s ∧ rp_id p = trim s ∧ set_host (rp_id p) o = Some (rp_origin p)).
Proof.
  unfold build_webauthn. destruct origin as [raw|]; [|done]. cbv zeta. destruct (str_eqb (trim raw) []); [done|].
  destruct (parse_url (trim raw)) as [o|] eqn:Eo; [|done]. destruct (or_domain o) as [domain|] eqn:Ed; [|done].
  set (override := match trim <$> setting with Some s => _ | None => None end).
  assert (Hov : ∀ parent, override = Some parent → ∃ s, setting = Some s ∧ parent = trim s).
  { intros parent. unfold override. destruct setting as [s|]; [|done]. simpl. destruct (str_eqb (trim s) []); [done|]. intros [= <-]. by exists s. }
  destruct override as [parent|] eqn:Ep.
  - set (is_parent := str_eqb domain parent || _). destruct is_parent eqn:Ei; [|done]. simpl negb. cbv iota.
    destruct (set_host parent o) as [o'|] eqn:Eh; [|done]. simpl. destruct (builds _) eqn:Eb; [|done]. intros [= <-].
    exists raw, o, domain. simpl. split; [done|]. split; [done|]. split; [done|]. split; [|split; [done|split; [done|]]].
    + apply orb_true_iff in Ei as [Ei|Ei]; [left; by apply str_eqb_eq|right]. unfold strip_suffix in Ei.
      destruct (strip_prefix (rev parent) (rev domain)) as [q|] eqn:Eq; [|done]. simpl in Ei. apply bool_decide_eq_true in Ei.
      apply strip_prefix_Some in Eq. apply (f_equal (@rev ascii)) in Eq. rewrite rev_involutive, rev_app_distr, rev_involutive in Eq.
      apply last_Some in Ei as [h Hh]. exists h. by rewrite Eq, Hh, <-app_assoc.
    + intros _. destruct (Hov parent eq_refl) as (s & -> & ->). by exists s.
  - simpl. destruct (builds _) eqn:Eb; [|done]. intros [= <-]. exists raw, o, domain. simpl. repeat (split; [done|]). split; [by left|]. by repeat split.
Qed.

(** ** Concrete runs *)

Module PasskeySamples.

(** A library in which a credential is the text of its key. *)
Definition sample_lib : WebauthnLib :=
  {| wl_key := str; wl_cred_id := str; wl_cred_id_eq := _; wl_reg := str; wl_auth := list str; wl_disc := str;
     wl_new_credential := str; wl_credential := str; wl_result := str;
     parse_key s := Some s; print_key s := Some s; key_cred_id s := s;
     start_registration seed _ _ _ _ := Some seed; finish_registration cred _ := Some cred;
     start_authentication _ keys := Some keys; finish_authentication cred keys := if bool_decide (cred ∈ keys) then Some cred else None;
     start_discoverable seed := Some seed; identify_discoverable cred := Some (u_id bob, cred);
     finish_discoverable cred _ keys := if bool_decide (cred ∈ keys) then Some cred else None;
     refreshed_key _ _ := None; parse_uuid s := Some s |}.
#[local] Existing Instance sample_lib.

Definition stored_key (id credential : str) (usernameless : bool) : StoredPasskey :=
  {| pk_id := id; pk_name := bs "key"; pk_created_at := 0; pk_credential := credential; pk_usernameless := usernameless |}.

Definition keyed_bob : User := with_passkeys bob [stored_key (bs "p1") (bs "k1") false; stored_key (bs "p2") (bs "k2") true].

Definition keyed_auth : AuthState :=
  with_auth_users Sessions.sample_state {| users := [keyed_bob]; disk := [keyed_bob] |}.

Definition start_state : PasskeyState :=
  {| ps_enabled := true; ps_auth := keyed_auth; ps_lockout := new_tracker 5 SECOND; ps_panels := {| ph_dashboard := None; ph_orgs := [] |};
     ps_ceremonies := no_ceremonies |}.

Definition at_instant_of (t : Z) : Attempt :=
  {| at_now := 10; at_instant := t; at_ip := V4 2130706433; at_headers := with_cookie (bs "t1"); at_redirect := None |}.

Definition ask : PasskeyOp := OLoginStart (bs "s") (bs "c1") true (bs "bob") (at_instant_of 0).
Definition answer_at (t : Z) : PasskeyOp := OLoginFinish true true (bs "t9") (bs "c1") (bs "k1") (at_instant_of t).
Definition pick : PasskeyOp := OPickStart (bs "s") (bs "c2") true (at_instant_of 0).
Definition picked (key : str) : PasskeyOp := OPickFinish true true (bs "t9") (bs "c2") key (at_instant_of 5).
Definition enrol : PasskeyOp := ORegisterStart (bs "s") (bs "f") (bs "c3") (at_instant_of 0).
Definition enrolled : PasskeyOp := ORegisterFinish true (bs "p3") (bs "c3") None false (bs "k3") (at_instant_of 5).

Definition answers (ops : list PasskeyOp) (o : PasskeyOp) : PasskeyAnswer :=
  (exec_passkey id_hash (fun _ => []) o (run_passkeys id_hash (fun _ => []) ops start_state)).1.

Lemma passkey_sign_in_traced_witness :
  (∃ pre1 seed name a0 pre2, [ask] = pre1 ++ OLoginStart seed (bs "c1") true name a0 :: pre2 ∧ sat_sub 5 (at_instant a0) < CHALLENGE_TTL)
  ∧ ∃ pre1 seed a0 pre2, [pick] = pre1 ++ OPickStart seed (bs "c2") true a0 :: pre2 ∧ sat_sub 5 (at_instant a0) < CHALLENGE_TTL.
Proof.
  split.
  - destruct (passkey_sign_in_traced id_hash (fun _ => []) [ask] start_state (answer_at 5) (bs "t9")
      (exec_passkey id_hash (fun _ => []) (answer_at 5) (run_passkeys id_hash (fun _ => []) [ask] start_state)).2)
      as (pre1 & seed & name & a0 & pre2 & u0 & auth & r & u & H1 & _ & H2 & _); [reflexivity|reflexivity|vm_compute; reflexivity|].
    by exists pre1, seed, name, a0, pre2.
  - destruct (passkey_sign_in_traced id_hash (fun _ => []) [pick] start_state (picked (bs "k2")) (bs "t9")
      (exec_passkey id_hash (fun _ => []) (picked (bs "k2")) (run_passkeys id_hash (fun _ => []) [pick] start_state)).2)
      as (pre1 & seed & a0 & pre2 & disc & uid & cid & u & p & key & r & v & H1 & _ & H2 & _); [reflexivity|reflexivity|vm_compute; reflexivity|].
    by exists pre1, seed, a0, pre2.
Defined.

Lemma usernameless_opted_in_witness :
  ∃ pre1 seed a0 pre2, [pick] = pre1 ++ OPickStart seed (bs "c2") true a0 :: pre2 ∧ sat_sub 5 (at_instant a0) < CHALLENGE_TTL.
Proof.
  destruct (usernameless_opted_in id_hash (fun _ => []) [pick] start_state true true (bs "t9") (bs "c2") (bs "k2") (at_instant_of 5) (bs "t9")
    (exec_passkey id_hash (fun _ => []) (picked (bs "k2")) (run_passkeys id_hash (fun _ => []) [pick] start_state)).2)
    as (pre1 & seed & a0 & pre2 & disc & uid & cid & u & p & key & r & v & H1 & _ & H2 & _); [reflexivity|reflexivity|vm_compute; reflexivity|].
  by exists pre1, seed, a0, pre2.
Defined.

Lemma registration_is_own_witness :
  ∃ pre1 seed fresh a0 pre2 uid uname, [enrol] = pre1 ++ ORegisterStart seed fresh (bs "c3") a0 :: pre2
    ∧ session_user id_hash start_state (at_instant_of 5) = Ok (uid, uname).
Proof.
  destruct (registration_is_own id_hash (fun _ => []) [enrol] start_state true (bs "p3") (bs "c3") None false (bs "k3") (at_instant_of 5) (bs "p3") (bs "passkey")
    (exec_passkey id_hash (fun _ => []) enrolled (run_passkeys id_hash (fun _ => []) [enrol] start_state)).2)
    as (pre1 & seed & fresh & a0 & pre2 & uid & uname0 & uname & exclude & reg & key & text & u & H1 & _ & H2 & _);
    [reflexivity|reflexivity|vm_compute; reflexivity|].
  exists pre1, seed, fresh, a0, pre2, uid, uname. split; [exact H1|exact H2].
Defined.

Definition https_origin (raw : str) : option Origin := Some {| or_scheme := bs "https"; or_domain := Some raw; or_port := None |}.
Definition host_set (h : str) (o : Origin) : option Origin := Some {| or_scheme := or_scheme o; or_domain := Some h; or_port := or_port o |}.

Lemma relying_party_covers_origin_witness :
  ∃ raw o domain, Some (bs "aperio.example.com") = Some raw ∧ https_origin (trim raw) = Some o ∧ or_domain o = Some domain
    ∧ (domain = bs "example.com" ∨ ∃ h, domain = h ++ dot :: bs "example.com").
Proof.
  destruct (relying_party_covers_origin https_origin host_set (fun _ => true) (Some (bs "aperio.example.com")) (Some (bs "example.com"))
    {| rp_id := bs "example.com"; rp_origin := {| or_scheme := bs "https"; or_domain := Some (bs "example.com"); or_port := None |}; rp_subdomains := true |})
    as (raw & o & domain & H1 & H2 & H3 & H4 & _); [vm_compute; reflexivity|]. by exists raw, o, domain.
Defined.

Example neighbour_is_no_parent :
  build_webauthn https_origin host_set (fun _ => true) (Some (bs "evil-example.com")) (Some (bs "example.com")) = None.
Proof. vm_compute. reflexivity. Qed.

(** A challenge is answered once, and not after five minutes. *)
Example one_answer_each :
  answers [ask] (answer_at 5) = PasskeyIn (bs "t9") ∧ answers [ask; answer_at 5] (answer_at 6) = Status 400
  ∧ answers [ask] (answer_at (300 * SECOND)) = Status 400.
Proof. vm_compute. auto. Qed.

Example opt_in_decides : answers [pick] (picked (bs "k1")) = Status 401 ∧ answers [pick] (picked (bs "k2")) = PasskeyIn (bs "t9").
Proof. vm_compute. auto. Qed.

(** The keys a named sign-in is checked against are those of its start: one deleted in
    between still signs in. *)
Example deleted_key_signs_in :
  let delete_key := ODelete true (bs "p1") (at_instant_of 1) in
  answers [ask] delete_key = Deleted ∧ answers [ask; delete_key] (answer_at 5) = PasskeyIn (bs "t9").
Proof. vm_compute. auto. Qed.

(** A lockout stops a start, not an answer: an address locked out after it began still
    signs in. *)
Definition locked_tracker : LockoutTracker :=
  {| lt_threshold := 1; lt_base := SECOND;
     lt_map := [(V4 2130706433, {| lf_consecutive := 0; lf_lockouts := 1; lf_locked_until := Some (100 * SECOND); lf_last_seen := 0 |})] |}.
Example locked_address_signs_in :
  let lock := OElsewhere keyed_auth locked_tracker {| ph_dashboard := None; ph_orgs := [] |} in
  (locked (V4 2130706433) 5 locked_tracker).1 ≠ None ∧ answers [ask; lock] (answer_at 5) = PasskeyIn (bs "t9").
Proof. vm_compute. split; [intros Hx; discriminate Hx|reflexivity]. Qed.

End PasskeySamples.
