(* ===== verification/SingleSignOn.v ===== *)
(** Single sign-on: the policy and the runtime of an identity provider
    ([aperio-server/src/oidc.rs]), the dashboard's login through one
    ([auth/oidc_flow.rs]), a visitor's sign-in to one hostname
    ([auth/sso_flow.rs]) and the sign-ins waiting on a provider ([auth.rs],
    [pending_login_slot]).

    The provider, the network in front of it and the URL and JSON libraries are
    [Outside], an argument of each operation: every call may be answered
    differently. A JSON document is what its members are. Everything else the
    server does between two handlers is the operation [OMeanwhile]. *)

From S2P Require Import Prelude Binds IpNet Orgs VisitorAuth Clients Sites Grants Rows Users Sessions UsersApi Share Gate Login OrgStore Passkeys.

(** ** Claims *)

(** The value of one member of a claims document. *)
Inductive claim : Type :=
| CBool (b : bool)
| CText (s : str)
| CList (items : list (option str))
| COther.

(** Members that are absent are [None]. *)
Definition document : Type := str → option claim.

Definition claim_text (doc : document) (name : str) : option str :=
  match doc name with Some (CText s) => Some s | _ => None end.

Definition email_verified_claim (info : document) : option bool :=
  match info (bs "email_verified") with
  | Some (CBool b) => Some b
  | Some (CText s) => if eq_ignore_case s (bs "true") then Some true
                      else if eq_ignore_case s (bs "false") then Some false else None
  | _ => None
  end.

Definition claim_values (doc : document) (name : str) : option (list str) :=
  match doc name with
  | Some (CList items) => Some (filter (fun s => s ≠ []) (trim <$> omap id items))
  | Some (CText s) => Some (filter (fun s => s ≠ []) (trim <$> (split_on ","%char s ≫= split_on " "%char)))
  | _ => None
  end.

(** [decode] is URL-safe Base64, [parse] the JSON parser. *)
Definition jwt_payload (decode : str → option str) (parse : str → option document) (token : str) : option document :=
  match split_on dot token !! 1%nat with
  | Some payload => decode payload ≫= parse
  | None => None
  end.

(** ** The provider's policy *)

Record OidcGrantPolicy : Type := {
  gp_default_grants : list Grant;
  gp_groups_claim : str;
  gp_group_grants : list (str * Grant);
}.

Definition gp_claim (p : OidcGrantPolicy) : str :=
  if str_eqb (trim (gp_groups_claim p)) [] then bs "groups" else trim (gp_groups_claim p).

Definition gp_mapped (p : OidcGrantPolicy) (groups : list str) : list Grant :=
  (fun gg => mapped_grant (g_org gg.2) (g_role gg.2) gg.1) <$> filter (fun gg => gg.1 ∈ groups) (gp_group_grants p).

Record OidcRuntime : Type := {
  rt_authorization_endpoint : str;
  rt_token_endpoint : str;
  rt_userinfo_endpoint : str;
  rt_client_id : str;
  rt_client_secret : str;
  rt_scopes : str;
  rt_allowed_emails : list str;
  rt_redirect_url_override : option str;
  rt_grants : OidcGrantPolicy;
}.

(** The discovery document: authorization, token and userinfo endpoints. *)
Definition DiscoveryDoc : Type := (str * str * option str)%type.

Inductive runtime_error : Type := IssuerEmpty | CredentialsMissing | EmailsMissing | DocumentUnavailable | NoUserinfo.

Definition build_runtime (discover : str → option DiscoveryDoc) (issuer client_id client_secret : str) (allowed_emails : list str)
    (scopes : str) (redirect_url_override : option str) (grants : OidcGrantPolicy) : result OidcRuntime runtime_error :=
  let issuer := trim_end_char slash (trim issuer) in
  if str_eqb issuer [] then Err IssuerEmpty
  else if str_eqb (trim client_id) [] || str_eqb (trim client_secret) [] then Err CredentialsMissing
  else if bool_decide (allowed_emails = []) then Err EmailsMissing
  else match discover (issuer ++ bs "/.well-known/openid-configuration") with
       | None => Err DocumentUnavailable
       | Some (_, _, None) => Err NoUserinfo
       | Some (authorization, token, Some userinfo) =>
           Ok {| rt_authorization_endpoint := authorization; rt_token_endpoint := token; rt_userinfo_endpoint := userinfo;
                 rt_client_id := client_id; rt_client_secret := client_secret; rt_scopes := scopes;
                 rt_allowed_emails := allowed_emails; rt_redirect_url_override := redirect_url_override; rt_grants := grants |}
       end.

(** The [oidc] settings of the server. *)
Record OidcSettings : Type := {
  os_issuer : option str;
  os_client_id : option str;
  os_client_secret : option str;
  os_allowed_emails : list str;
  os_scopes : str;
  os_redirect_url : option str;
  os_default_grants : list str;
  os_groups_claim : str;
  os_group_grants : list str;
}.

Definition grant_policy (oidc : OidcSettings) : result OidcGrantPolicy grant_error :=
  (let? default_grants := parse_list (join (bs ",") (os_default_grants oidc)) in
   let? group_grants := parse_group_map (join (bs ",") (os_group_grants oidc)) in
   Ok {| gp_default_grants := default_grants; gp_groups_claim := os_groups_claim oidc; gp_group_grants := group_grants |})%rust.

(** [Exits]: the process ends with an error. *)
Inductive loaded : Type := NotConfigured | Exits | Running (rt : OidcRuntime).

Definition load_oidc (discover : str → option DiscoveryDoc) (oidc : OidcSettings) : loaded :=
  match os_issuer oidc with
  | None => NotConfigured
  | Some issuer =>
      if str_eqb (trim issuer) [] then NotConfigured
      else
        let allowed := filter (fun s => s ≠ []) ((fun s => lower (trim s)) <$> os_allowed_emails oidc) in
        let override := match os_redirect_url oidc with
                        | Some s => if str_eqb (trim s) [] then None else Some s
                        | None => None
                        end in
        match grant_policy oidc with
        | Err _ => Exits
        | Ok grants =>
            match build_runtime discover issuer (default [] (os_client_id oidc)) (default [] (os_client_secret oidc)) allowed
                    (os_scopes oidc) override grants with
            | Ok rt => Running rt
            | Err _ => Exits
            end
        end
  end.

(** ** Sign-ins waiting on a provider *)

Definition MAX_PENDING_LOGINS : Z := 10000.
Definition PENDING_TTL : Z := 600 * SECOND.

Definition pending_login_slot {V} (expires : V → Z) (now : Z) (pending : gmap str V) : bool * gmap str V :=
  let pending := filter (fun kv => now < expires kv.2) pending in
  (Z.of_nat (size pending) <? MAX_PENDING_LOGINS, pending).

Record OidcPending : Type := { op_redirect_after : str; op_bound_org : option str; op_redirect_uri : str; op_expires : Z }.

Record SsoPending : Type := {
  sp_redirect_after : str;
  sp_host : str;
  sp_redirect_uri : str;
  sp_key : str;
  sp_issuer : str;
  sp_expires : Z;
}.

(** ** What the server holds *)

Record SsoState (F Regex Tz : Type) : Type := {
  ss_auth : AuthState;
  ss_panels : PanelHosts;
  ss_orgs : list Organization;
  ss_oidc : option OidcRuntime;
  ss_org_oidc : gmap str OidcRuntime;
  ss_oidc_states : gmap str OidcPending;
  ss_sites : list (Site F Regex Tz);
  ss_visitor_auth : Policy;
  ss_sso_runtimes : gmap str OidcRuntime;
  ss_sso_states : gmap str SsoPending;
}.
Arguments ss_auth {F Regex Tz}.
Arguments ss_panels {F Regex Tz}.
Arguments ss_orgs {F Regex Tz}.
Arguments ss_oidc {F Regex Tz}.
Arguments ss_org_oidc {F Regex Tz}.
Arguments ss_oidc_states {F Regex Tz}.
Arguments ss_sites {F Regex Tz}.
Arguments ss_visitor_auth {F Regex Tz}.
Arguments ss_sso_runtimes {F Regex Tz}.
Arguments ss_sso_states {F Regex Tz}.

(** How a call to a provider ended: not at all, with a refusal, or with a body that
    reads as what was asked for or does not. *)
Inductive called (A : Type) : Type := CallFailed | Rejected | Answered (body : option A).
Arguments CallFailed {A}.
Arguments Rejected {A}.
Arguments Answered {A}.

Record Outside : Type := {
  w_discover : str → option DiscoveryDoc;
  w_outbound : str → bool;
  w_client : bool;
  w_token : OidcRuntime → str → str → called (str * option str);
  w_userinfo : OidcRuntime → str → called document;
  w_authorize : OidcRuntime → str → str → option str;
  w_scheme : headers → str;
  w_decode : str → option str;
  w_parse : str → option document;
}.

Inductive SsoAnswer : Type :=
| Refusal (code : Z)
| ToProvider (location : str)
| SsoIn (token location : str).

Section Flow.
Context (sha256 : str → str) (show_ip : ipaddr → str) (hash_password : str → result str UserError) {F Regex Tz : Type}.
Abbreviation State := (SsoState F Regex Tz).

Definition with_sso_auth (st : State) (a : AuthState) : State :=
  {| ss_auth := a; ss_panels := ss_panels st; ss_orgs := ss_orgs st; ss_oidc := ss_oidc st; ss_org_oidc := ss_org_oidc st;
     ss_oidc_states := ss_oidc_states st; ss_sites := ss_sites st; ss_visitor_auth := ss_visitor_auth st;
     ss_sso_runtimes := ss_sso_runtimes st; ss_sso_states := ss_sso_states st |}.
Definition with_oidc_states (st : State) (m : gmap str OidcPending) : State :=
  {| ss_auth := ss_auth st; ss_panels := ss_panels st; ss_orgs := ss_orgs st; ss_oidc := ss_oidc st; ss_org_oidc := ss_org_oidc st;
     ss_oidc_states := m; ss_sites := ss_sites st; ss_visitor_auth := ss_visitor_auth st;
     ss_sso_runtimes := ss_sso_runtimes st; ss_sso_states := ss_sso_states st |}.
Definition with_org_oidc (st : State) (m : gmap str OidcRuntime) : State :=
  {| ss_auth := ss_auth st; ss_panels := ss_panels st; ss_orgs := ss_orgs st; ss_oidc := ss_oidc st; ss_org_oidc := m;
     ss_oidc_states := ss_oidc_states st; ss_sites := ss_sites st; ss_visitor_auth := ss_visitor_auth st;
     ss_sso_runtimes := ss_sso_runtimes st; ss_sso_states := ss_sso_states st |}.
Definition with_sso_runtimes (st : State) (m : gmap str OidcRuntime) : State :=
  {| ss_auth := ss_auth st; ss_panels := ss_panels st; ss_orgs := ss_orgs st; ss_oidc := ss_oidc st; ss_org_oidc := ss_org_oidc st;
     ss_oidc_states := ss_oidc_states st; ss_sites := ss_sites st; ss_visitor_auth := ss_visitor_auth st;
     ss_sso_runtimes := m; ss_sso_states := ss_sso_states st |}.
Definition with_sso_states (st : State) (m : gmap str SsoPending) : State :=
  {| ss_auth := ss_auth st; ss_panels := ss_panels st; ss_orgs := ss_orgs st; ss_oidc := ss_oidc st; ss_org_oidc := ss_org_oidc st;
     ss_oidc_states := ss_oidc_states st; ss_sites := ss_sites st; ss_visitor_auth := ss_visitor_auth st;
     ss_sso_runtimes := ss_sso_runtimes st; ss_sso_states := m |}.

(** ** Runtimes *)

(** A tenant's table, in which every grant names the tenant. *)
Definition org_group_grants (org_id : str) (entries : list str) : list (str * Grant) :=
  omap (fun entry =>
    match split_once "="%char entry with
    | None => None
    | Some (group, role) =>
        match parse_in_org org_id (hd [] (split_on "+"%char role)) with
        | Ok grant => Some (trim group, grant)
        | Err _ => None
        end
    end) entries.

Definition org_policy (org_id : str) (cfg : OrgOidc) : OidcGrantPolicy :=
  {| gp_default_grants := match oo_default_role cfg with Some role => [new_grant (Child org_id) role] | None => [] end;
     gp_groups_claim := []; gp_group_grants := org_group_grants org_id (oo_group_grants cfg) |}.

Definition resolve_org_oidc (w : Outside) (org_id : str) (st : State) : option OidcRuntime * State :=
  match ss_org_oidc st !! org_id with
  | Some rt => (Some rt, st)
  | None =>
      match find_row og_id org_id (ss_orgs st) ≫= og_oidc with
      | None => (None, st)
      | Some cfg =>
          match build_runtime (w_discover w) (oo_issuer cfg) (oo_client_id cfg) (oo_client_secret cfg) (oo_allowed_emails cfg)
                  (bs "openid email profile") None (org_policy org_id cfg) with
          | Ok rt => (Some rt, with_org_oidc st (<[org_id := rt]> (ss_org_oidc st)))
          | Err _ => (None, st)
          end
      end
  end.

(** The runtime of a login: the organization's, or the server's. *)
Definition runtime_of (w : Outside) (bound_org : option str) (st : State) : option OidcRuntime * State :=
  match bound_org with
  | Some id => resolve_org_oidc w id st
  | None => (ss_oidc st, st)
  end.

Definition oidc_redirect_uri (w : Outside) (hs : headers) (st : State) : option str :=
  match ss_oidc st with
  | None => None
  | Some rt =>
      match rt_redirect_url_override rt with
      | Some fixed => Some fixed
      | None => match header_str (bs "host") hs with
                | Some host => Some (w_scheme w hs ++ bs "://" ++ host ++ bs "/aperio/oidc/callback")
                | None => None
                end
      end
  end.

(** ** The dashboard's login *)

(** [org] and [redirect] are the query's. *)
Definition login_org (org : option str) : option str :=
  match trim <$> org with
  | Some s => if str_eqb s [] || str_eqb s (bs "master") then None else Some s
  | None => None
  end.

Definition oidc_login_handler (w : Outside) (within_rate : bool) (state_token : str) (org redirect : option str)
    (st : State) (a : Attempt) : SsoAnswer * State :=
  let bound_org := login_org org in
  match runtime_of w bound_org st with
  | (None, st) => (Refusal 404, st)
  | (Some rt, st) =>
      if negb within_rate then (Refusal 429, st)
      else
        let redirect_after := match redirect with Some r => safe_redirect_path r | None => bs "/" end in
        match oidc_redirect_uri w (at_headers a) st with
        | None => (Refusal 400, st)
        | Some redirect_uri =>
            let '(room, states) := pending_login_slot op_expires (at_instant a) (ss_oidc_states st) in
            let st := with_oidc_states st states in
            if negb room then (Refusal 503, st)
            else
              let st := with_oidc_states st
                (<[state_token := {| op_redirect_after := redirect_after; op_bound_org := bound_org; op_redirect_uri := redirect_uri;
                                     op_expires := at_instant a + PENDING_TTL |}]> (ss_oidc_states st)) in
              match w_authorize w rt redirect_uri state_token with
              | Some location => (ToProvider location, st)
              | None => (Refusal 500, st)
              end
        end
  end.

Definition redeem_code (w : Outside) (rt : OidcRuntime) (code redirect_uri : str) : result (document * option str) Z :=
  if negb (w_outbound w (rt_token_endpoint rt) && w_outbound w (rt_userinfo_endpoint rt)) then Err 502
  else if negb (w_client w) then Err 500
  else match w_token w rt code redirect_uri with
       | CallFailed => Err 502
       | Rejected => Err 401
       | Answered None => Err 502
       | Answered (Some (access_token, id_token)) =>
           match w_userinfo w rt access_token with
           | Answered (Some info) => Ok (info, id_token)
           | _ => Err 502
           end
       end.

(** A grant may name an organization by its handle. *)
Definition resolve_grant (orgs : list Organization) (g : Grant) : Grant :=
  match g_org g with
  | Child name =>
      match find (fun o => str_eqb (og_id o) name || eq_ignore_case (og_name o) name) orgs with
      | Some o => {| g_org := Child (og_id o); g_role := g_role g; g_source := g_source g; g_source_org := g_source_org g |}
      | None => g
      end
  | _ => g
  end.

(** [ok1] and [ok2] are of the writes; [fresh] is a new record's id. *)
Definition settle_record (ok1 ok2 : bool) (fresh : str) (now : Z) (rt : OidcRuntime) (email : str) (bound_org : option str)
    (groups : list str) (orgs : list Organization) (us : UserStore) : result User Z * UserStore :=
  let mapped := resolve_grant orgs <$> gp_mapped (rt_grants rt) groups in
  let defaults := resolve_grant orgs <$> gp_default_grants (rt_grants rt) in
  let found :=
    match find_by_username us email with
    | Some u => (Ok (u, false), us)
    | None =>
        if is_disabled_username us email then (Err 403, us)
        else match create_sso hash_password ok1 fresh now email bound_org defaults us with
             | (Ok u, us) => (Ok (u, true), us)
             | (Err e, us) => (Err (status_of e), us)
             end
    end in
  match found with
  | (Err s, us) => (Err s, us)
  | (Ok (u, created), us) =>
      let before := u_grants u in
      let next := if bool_decide (gp_group_grants (rt_grants rt) = []) && negb created then before
                  else (apply_group_map before mapped bound_org).1.1 in
      let settled := if bool_decide (next = before) then (Ok (default u (get_user us (u_id u))), us)
                     else match set_grants_from_login ok2 (u_id u) next us with
                          | (Ok u, us) => (Ok u, us)
                          | (Err e, us) => (Err (status_of e), us)
                          end in
      match settled with
      | (Err s, us) => (Err s, us)
      | (Ok u, us) =>
          let reaches := match bound_org with
                         | Some org => is_some (user_role_in u (Some org))
                         | None => negb (bool_decide (u_grants u = []))
                         end in
          (if reaches then Ok u else Err 403, us)
      end
  end.

Definition login_groups (w : Outside) (rt : OidcRuntime) (info : document) (id_token : option str) : list str :=
  match claim_values info (gp_claim (rt_grants rt)) with
  | Some g => g
  | None => default [] (match id_token ≫= jwt_payload (w_decode w) (w_parse w) with
                         | Some payload => claim_values payload (gp_claim (rt_grants rt))
                         | None => None
                         end)
  end.

Definition oidc_session (a : Attempt) (email : str) (record : User) (bound_org : option str) : SessionInfo :=
  {| si_expires_at := at_now a + 86400; si_created_at := at_now a; si_ip := Some (show_ip (at_ip a));
     si_user_agent := session_user_agent (at_headers a); si_plane := PAdmin; si_scope_host := None;
     si_username := Some email; si_role := default Viewer (user_role_in record (u_org_id record)); si_selected_org := None;
     si_bound_org := bound_org; si_login_host := request_host (at_headers a); si_sso_issuer := None |}.

Definition oidc_callback_handler (w : Outside) (within_rate ok1 ok2 ok_s : bool) (fresh token : str) (code state_param : option str)
    (st : State) (a : Attempt) : SsoAnswer * State :=
  if negb within_rate then (Refusal 429, st)
  else match code, state_param with
       | Some code, Some state_param =>
           let pending := ss_oidc_states st !! state_param in
           let st := with_oidc_states st (delete state_param (ss_oidc_states st)) in
           match pending with
           | None => (Refusal 400, st)
           | Some p =>
               if negb (at_instant a <? op_expires p) then (Refusal 400, st)
               else match runtime_of w (op_bound_org p) st with
                    | (None, st) => (Refusal 404, st)
                    | (Some rt, st) =>
                        match redeem_code w rt code (op_redirect_uri p) with
                        | Err s => (Refusal s, st)
                        | Ok (info, id_token) =>
                            let email := default [] (claim_text info (bs "email")) in
                            let groups := login_groups w rt info id_token in
                            if bool_decide (email_verified_claim info = Some false) then (Refusal 403, st)
                            else if negb (email_allowed email (rt_allowed_emails rt)) then (Refusal 403, st)
                            else
                              let '(r, us) := settle_record ok1 ok2 fresh (at_now a) rt email (op_bound_org p) groups (ss_orgs st) (a_users (ss_auth st)) in
                              let st := with_sso_auth st (with_auth_users (ss_auth st) us) in
                              match r with
                              | Err s => (Refusal s, st)
                              | Ok record =>
                                  if negb (login_admits (ss_panels st) (ss_auth st) (request_host (at_headers a)) (u_grants record)) then (Refusal 403, st)
                                  else (SsoIn token (op_redirect_after p),
                                        with_sso_auth st (with_sessions (ss_auth st)
                                          (session_insert sha256 ok_s token (oidc_session a email record (op_bound_org p)) (a_sessions (ss_auth st)))))
                              end
                        end
                    end
           end
       | _, _ => (Refusal 400, st)
       end.

(** ** A visitor's sign-in *)

Definition sso_for (st : State) (host path : str) : option SsoConfig :=
  match access_for (ss_sites st) (Some host) path with
  | Some (SiteGate policy) => head (sso_methods policy)
  | Some SitePublic => None
  | None => head (sso_methods (ss_visitor_auth st))
  end.

Definition no_grant_policy : OidcGrantPolicy := {| gp_default_grants := []; gp_groups_claim := []; gp_group_grants := [] |}.

Definition runtime_for (w : Outside) (sso : SsoConfig) (st : State) : option OidcRuntime * State :=
  match ss_sso_runtimes st !! sso_key sso with
  | Some rt => (Some rt, st)
  | None =>
      match build_runtime (w_discover w) (sso_issuer sso) (sso_client_id sso) (sso_client_secret sso) (sso_allowed_emails sso)
              (sso_scopes sso) None no_grant_policy with
      | Ok rt => (Some rt, with_sso_runtimes st (<[sso_key sso := rt]> (ss_sso_runtimes st)))
      | Err _ => (None, st)
      end
  end.

Definition callback_uri (w : Outside) (hs : headers) (host : str) : str := w_scheme w hs ++ bs "://" ++ host ++ bs "/aperio/sso/callback".

Definition path_of (redirect_after : str) : str := hd [] (split_on "?"%char redirect_after).

Definition sso_login_handler (w : Outside) (within_rate : bool) (state_token : str) (redirect : option str) (st : State) (a : Attempt) :
    SsoAnswer * State :=
  if negb within_rate then (Refusal 429, st)
  else match extract_request_host (at_headers a) with
       | None => (Refusal 400, st)
       | Some host =>
           let redirect_after := match redirect with Some r => safe_redirect_path r | None => bs "/" end in
           match sso_for st host (path_of redirect_after) with
           | None => (Refusal 404, st)
           | Some sso =>
               match runtime_for w sso st with
               | (None, st) => (Refusal 502, st)
               | (Some rt, st) =>
                   let redirect_uri := callback_uri w (at_headers a) host in
                   let '(room, states) := pending_login_slot sp_expires (at_instant a) (ss_sso_states st) in
                   let st := with_sso_states st states in
                   if negb room then (Refusal 503, st)
                   else
                     let st := with_sso_states st
                       (<[state_token := {| sp_redirect_after := redirect_after; sp_host := host; sp_redirect_uri := redirect_uri;
                                            sp_key := sso_key sso; sp_issuer := sso_issuer sso; sp_expires := at_instant a + PENDING_TTL |}]> (ss_sso_states st)) in
                     match w_authorize w rt redirect_uri state_token with
                     | Some location => (ToProvider location, st)
                     | None => (Refusal 500, st)
                     end
               end
           end
       end.

Definition sso_session_of (a : Attempt) (email : str) (p : SsoPending) : SessionInfo :=
  {| si_expires_at := at_now a + 86400; si_created_at := at_now a; si_ip := Some (show_ip (at_ip a));
     si_user_agent := session_user_agent (at_headers a); si_plane := PVisitor; si_scope_host := Some (sp_host p);
     si_username := Some email; si_role := Viewer; si_selected_org := None; si_bound_org := None;
     si_login_host := Some (sp_host p); si_sso_issuer := Some (sp_issuer p) |}.

Definition sso_callback_handler (w : Outside) (within_rate ok_s : bool) (token : str) (code state_param : option str)
    (st : State) (a : Attempt) : SsoAnswer * State :=
  if negb within_rate then (Refusal 429, st)
  else match code, state_param with
       | Some code, Some state_param =>
           let pending := ss_sso_states st !! state_param in
           let st := with_sso_states st (delete state_param (ss_sso_states st)) in
           match pending with
           | None => (Refusal 400, st)
           | Some p =>
               if negb (at_instant a <? sp_expires p) then (Refusal 400, st)
               else if negb (bool_decide (extract_request_host (at_headers a) = Some (sp_host p))) then (Refusal 400, st)
               else match sso_for st (sp_host p) (path_of (sp_redirect_after p)) with
                    | None => (Refusal 403, st)
                    | Some sso =>
                        if negb (str_eqb (sso_key sso) (sp_key p)) then (Refusal 403, st)
                        else match runtime_for w sso st with
                             | (None, st) => (Refusal 502, st)
                             | (Some rt, st) =>
                                 match redeem_code w rt code (sp_redirect_uri p) with
                                 | Err s => (Refusal s, st)
                                 | Ok (info, _) =>
                                     let email := default [] (claim_text info (bs "email")) in
                                     if str_eqb email [] || bool_decide (email_verified_claim info = Some false) then (Refusal 403, st)
                                     else if negb (admits_email sso email) then (Refusal 403, st)
                                     else (SsoIn token (sp_redirect_after p),
                                           with_sso_auth st (with_sessions (ss_auth st)
                                             (session_insert sha256 ok_s token (sso_session_of a email p) (a_sessions (ss_auth st)))))
                                 end
                             end
                    end
           end
       | _, _ => (Refusal 400, st)
       end.

(** ** Runs *)

Inductive SsoOp : Type :=
| OOidcLogin (w : Outside) (within_rate : bool) (state_token : str) (org redirect : option str) (a : Attempt)
| OOidcCallback (w : Outside) (within_rate ok1 ok2 ok_s : bool) (fresh token : str) (code state_param : option str) (a : Attempt)
| OSsoLogin (w : Outside) (within_rate : bool) (state_token : str) (redirect : option str) (a : Attempt)
| OSsoCallback (w : Outside) (within_rate ok_s : bool) (token : str) (code state_param : option str) (a : Attempt)
| OMeanwhile (next : State).

Definition exec_sso (o : SsoOp) (st : State) : SsoAnswer * State :=
  match o with
  | OOidcLogin w rate tok org redirect a => oidc_login_handler w rate tok org redirect st a
  | OOidcCallback w rate ok1 ok2 ok_s fresh token code sp a => oidc_callback_handler w rate ok1 ok2 ok_s fresh token code sp st a
  | OSsoLogin w rate tok redirect a => sso_login_handler w rate tok redirect st a
  | OSsoCallback w rate ok_s token code sp a => sso_callback_handler w rate ok_s token code sp st a
  | OMeanwhile next => (Refusal 200, with_sso_states (with_oidc_states next (ss_oidc_states st)) (ss_sso_states st))
  end.

Definition run_sso (ops : list SsoOp) (st : State) : State := fold_left (fun st o => (exec_sso o st).2) ops st.

End Flow.

(** ** What a directory hands out *)

Lemma keep_last_from l g : g ∈ keep_last l → g ∈ l.
Proof.
  induction l as [|h l IH] using rev_ind; [done|]. rewrite keep_last_snoc, !elem_of_app, list_elem_of_filter. naive_solver.
Qed.

Lemma normalized_from b l out g : normalized b l = Ok out → g ∈ out → g ∈ l.
Proof.
  unfold normalized. destruct (b && bool_decide (l = [])); [intros [= <-]; set_solver|]. unfold normalize.
  case_bool_decide; [done|]. intros [= <-]. rewrite sort_grants_perm. apply keep_last_from.
Qed.

Section Tenant.
Context (hash_password : str → result str UserError).
Context (org : str) (orgs : list Organization).
Context (Hid : org_parse org = Child org).
Context (Hshadow : Forall (fun o => eq_ignore_case (og_name o) org = true → og_id o = org) orgs).

Lemma resolve_here g : g_org g = Child org → g_org (resolve_grant orgs g) = Child org.
Proof using Hshadow.
  intros Hg. unfold resolve_grant. rewrite Hg. destruct (find _ orgs) as [o|] eqn:Ef; [|done]. simpl.
  apply find_some in Ef as [Hin Ho]. f_equal. apply orb_true_iff in Ho as [Ho|Ho]; [by apply str_eqb_eq|].
  rewrite Forall_forall in Hshadow. apply Hshadow; [by apply list_elem_of_In|done].
Qed.

Lemma org_table_here entries gg : gg ∈ org_group_grants org entries → g_org gg.2 = Child org.
Proof using Hid.
  unfold org_group_grants. rewrite list_elem_of_omap. intros (entry & _ & H). destruct (split_once _ entry) as [[group role]|]; [|done].
  unfold parse_in_org in H. destruct (parse_grant _) as [g|]; [|done]. simpl in H. case_bool_decide as Hg; [|done].
  injection H as <-. simpl. by rewrite Hg.
Qed.

Lemma mapped_here cfg groups g : g ∈ resolve_grant orgs <$> gp_mapped (org_policy org cfg) groups → g_org g = Child org.
Proof using Hid Hshadow.
  rewrite list_elem_of_fmap. intros (m & -> & Hm). apply resolve_here. unfold gp_mapped in Hm.
  apply list_elem_of_fmap in Hm as (gg & -> & Hgg). apply list_elem_of_filter in Hgg as [_ Hgg]. exact (org_table_here (oo_group_grants cfg) gg Hgg).
Qed.

Lemma defaults_here cfg g : g ∈ resolve_grant orgs <$> gp_default_grants (org_policy org cfg) → g_org g = Child org.
Proof using Hshadow.
  rewrite list_elem_of_fmap. intros (m & -> & Hm). apply resolve_here. simpl in Hm. destruct (oo_default_role cfg); [|by apply elem_of_nil in Hm].
  apply list_elem_of_singleton in Hm as ->. done.
Qed.

(** Every grant of a record is in the tenant, or is one the record of that id had. *)
Definition within_tenant (us : list User) (u' : User) : Prop :=
  ∀ g, g ∈ u_grants u' → g_org g = Child org ∨ ∃ u, u ∈ us ∧ u_id u = u_id u' ∧ g ∈ u_grants u.

Lemma within_tenant_id us : Forall (within_tenant us) us.
Proof using. apply Forall_forall. intros u Hu g Hg. right. by exists u. Qed.

Lemma commit_users {R} ok (change : list User → result (R * list User) UserError) (P : User → Prop) s :
  (∀ out us', change (users s) = Ok (out, us') → Forall P us') → Forall P (users s) → Forall P (users (commit ok change s).2).
Proof using.
  intros Hc Hs. pose proof (commit_spec ok change s) as H. destruct (commit ok change s) as [r s'].
  destruct H as [[_ ->]|(out & us' & Hch & _ & ->)]; [done|]. by eapply Hc.
Qed.

Lemma within_tenant_grants us ok id grants s :
  Forall (within_tenant us) (users s) →
  (∀ g, g ∈ grants → g_org g = Child org ∨ ∃ u, u ∈ us ∧ u_id u = id ∧ g ∈ u_grants u) →
  Forall (within_tenant us) (users (set_grants_from_login ok id grants s).2).
Proof using.
  intros Hu Hg. unfold set_grants_from_login. destruct (normalized true grants) as [out|e] eqn:En; [|done].
  unfold set_grants_raw. apply commit_users; [|done]. intros x us2 Hm. revert Hm Hu. apply modify_Forall.
  intros u r u' Hi _ Hf HP. injection Hf as _ <-. intros g Hin. change (u_grants (sync_home_role (with_grants u out))) with out in Hin.
  change (u_id (sync_home_role (with_grants u out))) with (u_id u). rewrite Hi. apply Hg. by eapply normalized_from.
Qed.

Lemma within_tenant_created us ok fresh now email home grants s :
  Forall (within_tenant us) (users s) → (∀ g, g ∈ grants → g_org g = Child org) →
  Forall (within_tenant us) (users (create_sso hash_password ok fresh now email home grants s).2)
  ∧ ∀ u, (create_sso hash_password ok fresh now email home grants s).1 = Ok u → u ∈ users (create_sso hash_password ok fresh now email home grants s).2.
Proof using.
  intros Hu Hg. unfold create_sso. destruct (normalized true grants) as [out|e] eqn:En; [|done]. unfold create_record.
  destruct (str_eqb _ _); [done|]. destruct (eq_ignore_case _ _); [done|]. destruct (existsb _ _); [done|].
  match goal with |- context [commit ok ?ch s] => set (change := ch) end. split.
  - apply commit_users; [|done]. intros x us' [= _ <-]. apply Forall_app. split; [done|]. apply Forall_singleton.
    intros g Hin. left. apply Hg. by eapply normalized_from.
  - intros u. pose proof (commit_spec ok change s) as H. destruct (commit ok change s) as [r s'].
    destruct H as [[Hr _]|(x & us' & Hch & -> & ->)]; [by destruct r|]. intros [= ->]. injection Hch as <- <-. apply elem_of_app. right. by apply list_elem_of_singleton.
Qed.

(** C19: A tenant's directory hands out roles inside the tenant and nothing beyond. Whoever it
    says signs in and whatever groups it sends, after the login every grant of every
    account is one its record had before or one in that organization. Ids have dashes and
    handles none, so no organization's handle spells the tenant's id. *)
Theorem tenant_directory_confined rt cfg ok1 ok2 fresh now email groups us :
  rt_grants rt = org_policy org cfg →
  Forall (within_tenant (users us)) (users (settle_record hash_password ok1 ok2 fresh now rt email (Some org) groups orgs us).2).
Proof using Hid Hshadow.
  intros Hrt. unfold settle_record. rewrite Hrt. cbv zeta. pose proof (within_tenant_id (users us)) as H0.
  set (found := match find_by_username us email with Some u => _ | None => _ end).
  assert (Hfound : Forall (within_tenant (users us)) (users found.2) ∧ ∀ u c, found.1 = Ok (u, c) → within_tenant (users us) u).
  { unfold found. destruct (find_by_username us email) as [u|] eqn:Eu.
    - split; [done|]. intros u' c [= <- _]. rewrite Forall_forall in H0. apply H0. apply find_some in Eu as [Hin _]. by apply list_elem_of_In.
    - destruct (is_disabled_username us email); [done|].
      destruct (within_tenant_created (users us) ok1 fresh now email (Some org) (resolve_grant orgs <$> gp_default_grants (org_policy org cfg)) us)
        as [H1 H2]; [done|apply defaults_here|]. destruct (create_sso _ _ _ _ _ _ _ _) as [[u|e] us1]; simpl in *; [|done].
      split; [done|]. intros u' c [= <- _]. rewrite Forall_forall in H1. apply H1. by apply H2. }
  destruct found as [[[u c]|e] us1]; simpl in Hfound; [|by destruct Hfound]. destruct Hfound as [H1 Hu]. specialize (Hu u c eq_refl).
  match goal with |- context [bool_decide (?n = u_grants u)] => set (next := n) end. assert (Hnext : ∀ g, g ∈ next → g_org g = Child org ∨ ∃ v, v ∈ users us ∧ u_id v = u_id u ∧ g ∈ u_grants v).
  { intros g. unfold next. destruct (_ && negb c); [apply Hu|]. unfold apply_group_map. cbv zeta. simpl. intros Hg.
    apply merge_all_from in Hg as [Hg|Hg]; [apply Hu; by apply list_elem_of_filter in Hg as [_ Hg]|].
    left. apply list_elem_of_fmap in Hg as (m & -> & Hm). simpl. by eapply mapped_here. }
  destruct (bool_decide (next = u_grants u)); [done|].
  pose proof (within_tenant_grants (users us) ok2 (u_id u) next us1 H1 Hnext) as H2.
  destruct (set_grants_from_login ok2 (u_id u) next us1) as [[u2|e] us2]; done.
Qed.

End Tenant.

(** ** Where a sign-in comes from *)

Section Earned.
Context (sha256 : str → str) (show_ip : ipaddr → str) (hash_password : str → result str UserError) {F Regex Tz : Type}.
Abbreviation Op := (SsoOp (F := F) (Regex := Regex) (Tz := Tz)).
Abbreviation exec := (exec_sso sha256 show_ip hash_password (F := F) (Regex := Regex) (Tz := Tz)).
Abbreviation run := (run_sso sha256 show_ip hash_password (F := F) (Regex := Regex) (Tz := Tz)).

Lemma runtime_of_same w b (st : SsoState F Regex Tz) : let st' := (runtime_of w b st).2 in
  ss_auth st' = ss_auth st ∧ ss_panels st' = ss_panels st ∧ ss_orgs st' = ss_orgs st ∧ ss_oidc st' = ss_oidc st
  ∧ ss_oidc_states st' = ss_oidc_states st ∧ ss_sso_states st' = ss_sso_states st.
Proof.
  unfold runtime_of, resolve_org_oidc. destruct b as [id|]; [|done]. destruct (ss_org_oidc st !! id); [done|].
  destruct (_ ≫= og_oidc) as [cfg|]; [|done]. by destruct (build_runtime _ _ _ _ _ _ _ _).
Qed.

Lemma runtime_for_same w sso (st : SsoState F Regex Tz) : let st' := (runtime_for w sso st).2 in
  ss_auth st' = ss_auth st ∧ ss_oidc_states st' = ss_oidc_states st ∧ ss_sso_states st' = ss_sso_states st.
Proof.
  unfold runtime_for. destruct (ss_sso_runtimes st !! sso_key sso); [done|]. by destruct (build_runtime _ _ _ _ _ _ _ _).
Qed.

(** The callbacks that use up a waiting sign-in. *)
Definition consumes (id : str) (o : Op) : Prop :=
  match o with OOidcCallback _ true _ _ _ _ _ (Some _) (Some id') _ => id' = id | _ => False end.
Definition consumes_visit (id : str) (o : Op) : Prop :=
  match o with OSsoCallback _ true _ _ (Some _) (Some id') _ => id' = id | _ => False end.

Definition began_oidc (id : str) (p : OidcPending) (o : Op) (st : SsoState F Regex Tz) : Prop :=
  ∃ w org redirect a uri, o = OOidcLogin w true id org redirect a ∧ is_Some (runtime_of w (login_org org) st).1
    ∧ oidc_redirect_uri w (at_headers a) st = Some uri
    ∧ p = {| op_redirect_after := match redirect with Some r => safe_redirect_path r | None => bs "/" end;
             op_bound_org := login_org org; op_redirect_uri := uri; op_expires := at_instant a + PENDING_TTL |}.

Definition began_visit (id : str) (p : SsoPending) (o : Op) (st : SsoState F Regex Tz) : Prop :=
  ∃ w redirect a host sso, o = OSsoLogin w true id redirect a ∧ extract_request_host (at_headers a) = Some host
    ∧ (let after := match redirect with Some r => safe_redirect_path r | None => bs "/" end in
       sso_for st host (path_of after) = Some sso
       ∧ p = {| sp_redirect_after := after; sp_host := host; sp_redirect_uri := callback_uri w (at_headers a) host;
                sp_key := sso_key sso; sp_issuer := sso_issuer sso; sp_expires := at_instant a + PENDING_TTL |}).

Lemma slot_states {V} (expires : V → Z) (now : Z) (m : gmap str V) (id : str) (v : V) :
  (pending_login_slot expires now m).2 !! id = Some v → m !! id = Some v.
Proof. unfold pending_login_slot. simpl. rewrite map_lookup_filter_Some. tauto. Qed.

Lemma login_states w rate tok org redirect (st : SsoState F Regex Tz) a id p :
  ss_oidc_states (oidc_login_handler w rate tok org redirect st a).2 !! id = Some p →
  ss_oidc_states st !! id = Some p ∨ began_oidc id p (OOidcLogin w rate tok org redirect a) st.
Proof.
  unfold oidc_login_handler. cbv zeta. pose proof (runtime_of_same w (login_org org) st) as (_ & _ & _ & Ho & Hs & _).
  destruct (runtime_of w (login_org org) st) as [[rt|] st1] eqn:Er; simpl in Ho, Hs; [|simpl; rewrite Hs; by left].
  destruct rate; simpl negb; cbv iota; [|simpl; rewrite Hs; by left].
  assert (Hu : oidc_redirect_uri w (at_headers a) st1 = oidc_redirect_uri w (at_headers a) st) by (unfold oidc_redirect_uri; by rewrite Ho).
  rewrite Hu. destruct (oidc_redirect_uri w (at_headers a) st) as [uri|] eqn:Eu; [|simpl; rewrite Hs; by left]. rewrite Hs.
  pose proof (slot_states op_expires (at_instant a) (ss_oidc_states st) id p) as Hslot.
  destruct (pending_login_slot _ _ _) as [room states]. simpl in Hslot. destruct room; simpl negb; cbv iota; [|simpl; intros H; left; by apply Hslot].
  intros H. assert (Hin : <[tok := {| op_redirect_after := match redirect with Some r => safe_redirect_path r | None => bs "/" end;
    op_bound_org := login_org org; op_redirect_uri := uri; op_expires := at_instant a + PENDING_TTL |}]> states !! id = Some p)
    by (by destruct (w_authorize w rt uri tok)).
  apply lookup_insert_Some in Hin as [[<- <-]|[_ Hin]]; [|left; by apply Hslot]. right. exists w, org, redirect, a, uri. by rewrite Er.
Qed.

Lemma callback_states w rate ok1 ok2 ok_s fresh token code sp (st : SsoState F Regex Tz) a :
  ss_oidc_states (oidc_callback_handler sha256 show_ip hash_password w rate ok1 ok2 ok_s fresh token code sp st a).2
  = match rate, code, sp with true, Some _, Some id => delete id (ss_oidc_states st) | _, _, _ => ss_oidc_states st end
  ∧ ss_sso_states (oidc_callback_handler sha256 show_ip hash_password w rate ok1 ok2 ok_s fresh token code sp st a).2 = ss_sso_states st.
Proof.
  unfold oidc_callback_handler. destruct rate; [|done]. destruct code as [c|], sp as [id|]; try done. simpl negb. cbv iota zeta.
  destruct (ss_oidc_states st !! id) as [p|]; [|done]. destruct (at_instant a <? op_expires p); [|done]. simpl negb. cbv iota.
  set (st1 := with_oidc_states st _). pose proof (runtime_of_same w (op_bound_org p) st1) as (_ & _ & _ & _ & Hs & Hss).
  destruct (runtime_of w (op_bound_org p) st1) as [[rt|] st2]; simpl in Hs, Hss; [|done].
  destruct (redeem_code _ _ _ _) as [[info idt]|s]; [|done]. destruct (bool_decide _); [done|]. destruct (negb (email_allowed _ _)); [done|].
  destruct (settle_record _ _ _ _ _ _ _ _ _ _ _) as [[u|s] us]; [|done]. simpl. by destruct (negb (login_admits _ _ _ _)).
Qed.

Lemma sso_login_states w rate tok redirect (st : SsoState F Regex Tz) a :
  ss_oidc_states (sso_login_handler w rate tok redirect st a).2 = ss_oidc_states st
  ∧ ∀ id p, ss_sso_states (sso_login_handler w rate tok redirect st a).2 !! id = Some p →
      ss_sso_states st !! id = Some p ∨ began_visit id p (OSsoLogin w rate tok redirect a) st.
Proof.
  unfold sso_login_handler. destruct rate; [|split; [done|by left]]. simpl negb. cbv iota zeta.
  destruct (extract_request_host (at_headers a)) as [host|] eqn:Eh; [|split; [done|by left]].
  destruct (sso_for st host _) as [sso|] eqn:Es; [|split; [done|by left]].
  pose proof (runtime_for_same w sso st) as (_ & Hs & Hss). destruct (runtime_for w sso st) as [[rt|] st1]; simpl in Hs, Hss;
    [|simpl; rewrite Hs, Hss; split; [done|by left]].
  rewrite Hss. assert (Hslot := slot_states sp_expires (at_instant a) (ss_sso_states st)).
  destruct (pending_login_slot _ _ _) as [room states]. simpl in Hslot.
  destruct room; simpl negb; cbv iota; [|simpl; rewrite Hs; split; [done|]; intros id p H; left; by apply Hslot].
  split; [by destruct (w_authorize _ _ _ _)|]. intros id p H.
  assert (Hin : <[tok := {| sp_redirect_after := match redirect with Some r => safe_redirect_path r | None => bs "/" end; sp_host := host;
    sp_redirect_uri := callback_uri w (at_headers a) host; sp_key := sso_key sso; sp_issuer := sso_issuer sso;
    sp_expires := at_instant a + PENDING_TTL |}]> states !! id = Some p) by (by destruct (w_authorize _ _ _ _)).
  apply lookup_insert_Some in Hin as [[<- <-]|[_ Hin]]; [|left; by apply Hslot]. right. exists w, redirect, a, host, sso. by repeat split.
Qed.

Lemma sso_callback_states w rate ok_s token code sp (st : SsoState F Regex Tz) a :
  ss_oidc_states (sso_callback_handler sha256 show_ip w rate ok_s token code sp st a).2 = ss_oidc_states st
  ∧ ss_sso_states (sso_callback_handler sha256 show_ip w rate ok_s token code sp st a).2
    = match rate, code, sp with true, Some _, Some id => delete id (ss_sso_states st) | _, _, _ => ss_sso_states st end.
Proof.
  unfold sso_callback_handler. destruct rate; [|done]. destruct code as [c|], sp as [id|]; try done. simpl negb. cbv iota zeta.
  destruct (ss_sso_states st !! id) as [p|]; [|done]. destruct (at_instant a <? sp_expires p); [|done]. simpl negb. cbv iota.
  destruct (negb (bool_decide _)); [done|]. set (st1 := with_sso_states st _). destruct (sso_for st1 _ _) as [sso|]; [|done].
  destruct (negb (str_eqb _ _)); [done|]. pose proof (runtime_for_same w sso st1) as (_ & Hs & Hss).
  destruct (runtime_for w sso st1) as [[rt|] st2]; simpl in Hs, Hss; [|done].
  destruct (redeem_code _ _ _ _) as [[info idt]|s]; [|done]. destruct (_ || _); [done|]. by destruct (negb (admits_email _ _)).
Qed.

Lemma oidc_step id p o (st : SsoState F Regex Tz) : ss_oidc_states (exec o st).2 !! id = Some p →
  (ss_oidc_states st !! id = Some p ∧ ¬ consumes id o) ∨ began_oidc id p o st.
Proof.
  destruct o as [w rate tok org redirect a|w rate ok1 ok2 ok_s fresh token code sp a|w rate tok redirect a|w rate ok_s token code sp a|next]; simpl.
  - intros H. destruct (login_states _ _ _ _ _ _ _ _ _ H) as [H'|H']; [left; split; [done|by intros []]|by right].
  - rewrite (proj1 (callback_states _ _ _ _ _ _ _ _ _ _ _)). destruct rate; [|left; split; [done|by intros []]].
    destruct code, sp; try (left; split; [done|by intros []]). rewrite lookup_delete_Some. intros [Hne H]. by left.
  - rewrite (proj1 (sso_login_states _ _ _ _ _ _)). left. split; [done|by intros []].
  - rewrite (proj1 (sso_callback_states _ _ _ _ _ _ _ _)). left. split; [done|by intros []].
  - left. split; [done|by intros []].
Qed.

Lemma visit_step id p o (st : SsoState F Regex Tz) : ss_sso_states (exec o st).2 !! id = Some p →
  (ss_sso_states st !! id = Some p ∧ ¬ consumes_visit id o) ∨ began_visit id p o st.
Proof.
  destruct o as [w rate tok org redirect a|w rate ok1 ok2 ok_s fresh token code sp a|w rate tok redirect a|w rate ok_s token code sp a|next]; simpl.
  - intros H. left. split; [|by intros []]. revert H. unfold oidc_login_handler. cbv zeta.
    pose proof (runtime_of_same w (login_org org) st) as (_ & _ & _ & _ & _ & Hs).
    destruct (runtime_of w (login_org org) st) as [[rt|] st1]; simpl in Hs; [|simpl; by rewrite Hs].
    repeat (case_match; simpl; rewrite ?Hs; try done).
  - rewrite (proj2 (callback_states _ _ _ _ _ _ _ _ _ _ _)). left. split; [done|by intros []].
  - intros H. destruct (proj2 (sso_login_states _ _ _ _ _ _) _ _ H) as [H'|H']; [left; split; [done|by intros []]|by right].
  - rewrite (proj2 (sso_callback_states _ _ _ _ _ _ _ _)). destruct rate; [|left; split; [done|by intros []]].
    destruct code, sp; try (left; split; [done|by intros []]). rewrite lookup_delete_Some. intros [Hne H]. by left.
  - left. split; [done|by intros []].
Qed.

(** What settles a login leaves a record that reaches something. *)
Lemma settle_reaches ok1 ok2 fresh now rt email bound groups orgs us u us' :
  settle_record hash_password ok1 ok2 fresh now rt email bound groups orgs us = (Ok u, us') →
  match bound with Some org => is_Some (user_role_in u (Some org)) | None => u_grants u ≠ [] end.
Proof.
  unfold settle_record. cbv zeta. set (found := match find_by_username us email with Some u => _ | None => _ end).
  destruct found as [[[v c]|e] us1]; [|done].
  match goal with |- context [bool_decide (?n = u_grants v)] => set (next := n) end.
  match goal with |- (match ?m with _ => _ end) = _ → _ => destruct m as [[v2|s] us2] end; [|done].
  destruct bound as [org|].
  - destruct (user_role_in v2 (Some org)) as [r|] eqn:Er; simpl; [|done]. intros [= <- _]. by exists r.
  - case_bool_decide as Hn; simpl; [done|]. by intros [= <- _].
Qed.

Lemma empty_email_refused patterns : email_allowed [] patterns = false.
Proof. done. Qed.

(** C17: A dashboard session through a provider is earned: a login with this state began less
    than ten minutes before and nothing has used it since; the code was redeemed by the
    provider that login was for, with the return address it began with; the provider
    does not call the address unverified and its list allows it; the account it settles
    on reaches the organization of the login, or anything at all for the server's own,
    and the hostname. The session is bound to that organization, the visitor is sent to
    a path of this site, and the state is gone. *)
Theorem oidc_sign_in_earned pre st0 w rate ok1 ok2 ok_s fresh token code sp a answer loc st' :
  ss_oidc_states st0 = ∅ →
  exec (OOidcCallback w rate ok1 ok2 ok_s fresh token code sp a) (run pre st0) = (SsoIn answer loc, st') →
  ∃ pre1 w0 id org redirect a0 pre2 uri c rt info id_token email record,
    pre = pre1 ++ OOidcLogin w0 true id org redirect a0 :: pre2 ∧ Forall (fun o => ¬ consumes id o) pre2
    ∧ sp = Some id ∧ code = Some c ∧ at_instant a < at_instant a0 + PENDING_TTL
    ∧ oidc_redirect_uri w0 (at_headers a0) (run pre1 st0) = Some uri
    ∧ (runtime_of w (login_org org) (with_oidc_states (run pre st0) (delete id (ss_oidc_states (run pre st0))))).1 = Some rt
    ∧ redeem_code w rt c uri = Ok (info, id_token)
    ∧ email_verified_claim info ≠ Some false ∧ claim_text info (bs "email") = Some email
    ∧ email_allowed email (rt_allowed_emails rt) = true
    ∧ settle_record hash_password ok1 ok2 fresh (at_now a) rt email (login_org org) (login_groups w rt info id_token)
        (ss_orgs (run pre st0)) (a_users (ss_auth (run pre st0))) = (Ok record, a_users (ss_auth st'))
    ∧ match login_org org with Some o => is_Some (user_role_in record (Some o)) | None => u_grants record ≠ [] end
    ∧ login_admits (ss_panels st') (ss_auth st') (request_host (at_headers a)) (u_grants record) = true
    ∧ session_get sha256 (a_sessions (ss_auth st')) token = Some (oidc_session show_ip a email record (login_org org))
    ∧ loc = match redirect with Some r => safe_redirect_path r | None => bs "/" end
    ∧ ss_oidc_states st' !! id = None.
Proof.
  intros H0 Hex. assert (Hgone : ∀ id c, rate = true → code = Some c → sp = Some id → ss_oidc_states st' !! id = None).
  { intros id c -> -> ->. change st' with (SsoIn answer loc, st').2. rewrite <-Hex. simpl.
    rewrite (proj1 (callback_states _ _ _ _ _ _ _ _ _ _ _)). apply lookup_delete_eq. }
  revert Hex. simpl. unfold oidc_callback_handler. destruct rate; [|done]. destruct code as [c|], sp as [id|]; try done. simpl negb. cbv iota zeta.
  destruct (ss_oidc_states (run pre st0) !! id) as [p|] eqn:Ep; [|done]. destruct (at_instant a <? op_expires p) eqn:Ex; [|done]. simpl negb. cbv iota.
  set (st1 := with_oidc_states (run pre st0) _). pose proof (runtime_of_same w (op_bound_org p) st1) as (Ha & Hp & Ho & _ & _ & _).
  destruct (runtime_of w (op_bound_org p) st1) as [[rt|] st2] eqn:Er; simpl in Ha, Hp, Ho; [|done].
  assert (Er1 : (runtime_of w (op_bound_org p) st1).1 = Some rt) by (by rewrite Er). unfold st1 in Er1.
  destruct (redeem_code w rt c (op_redirect_uri p)) as [[info idt]|s] eqn:Ec; [|done]. case_bool_decide as Hv; [done|].
  destruct (claim_text info (bs "email")) as [email|] eqn:Ee; simpl default; [|done].
  destruct (email_allowed email (rt_allowed_emails rt)) eqn:Eal; [|done]. simpl negb. cbv iota.
  destruct (settle_record _ _ _ _ _ _ _ _ _ _ _) as [[record|s] us] eqn:Es; [|done]. destruct (login_admits _ _ _ _) eqn:Ead; [|done]. simpl negb. cbv iota.
  intros [= <- <- <-].
  destruct (run_traced (fun o st => (exec o st).2) (fun _ => True) (fun st => ss_oidc_states st !! id = Some p) (began_oidc id p) (consumes id) pre st0)
    as (pre1 & o & pre2 & -> & (w0 & org & redirect & a0 & uri & -> & _ & Hu & ->) & Hall); [done|done|by rewrite H0|intros o st _; apply oidc_step|exact Ep|].
  cbn [op_bound_org op_redirect_uri op_expires op_redirect_after] in *. apply Z.ltb_lt in Ex. rewrite Ho, Ha in Es. pose proof (settle_reaches _ _ _ _ _ _ _ _ _ _ _ _ Es) as Hre.
  exists pre1, w0, id, org, redirect, a0, pre2, uri, c, rt, info, idt, email, record. repeat (split; [done|]).
  split; [unfold session_get, session_insert; simpl; apply aget_aset_eq|]. split; [done|by eapply Hgone].
Qed.

(** A visitor's sign-in opens one hostname: it finishes, within ten minutes and once, on
    the hostname it began on; the route it was heading to asks for the same provider and
    client now as then, and the list of the method in force now admits the address,
    which the provider gave and does not call unverified. The session is a visitor's,
    for that hostname alone. *)
Theorem visitor_sign_in_earned pre st0 w rate ok_s token code sp a answer loc st' :
  ss_sso_states st0 = ∅ →
  exec (OSsoCallback w rate ok_s token code sp a) (run pre st0) = (SsoIn answer loc, st') →
  ∃ pre1 w0 id redirect a0 pre2 host sso0 sso c rt info id_token email p,
    pre = pre1 ++ OSsoLogin w0 true id redirect a0 :: pre2 ∧ Forall (fun o => ¬ consumes_visit id o) pre2
    ∧ sp = Some id ∧ code = Some c ∧ at_instant a < at_instant a0 + PENDING_TTL
    ∧ extract_request_host (at_headers a0) = Some host ∧ extract_request_host (at_headers a) = Some host
    ∧ sso_for (run pre1 st0) host (path_of loc) = Some sso0 ∧ sso_for (run pre st0) host (path_of loc) = Some sso ∧ sso_key sso = sso_key sso0
    ∧ redeem_code w rt c (callback_uri w0 (at_headers a0) host) = Ok (info, id_token)
    ∧ claim_text info (bs "email") = Some email ∧ email_verified_claim info ≠ Some false ∧ admits_email sso email = true
    ∧ sp_host p = host ∧ sp_issuer p = sso_issuer sso0
    ∧ session_get sha256 (a_sessions (ss_auth st')) token = Some (sso_session_of show_ip a email p)
    ∧ loc = match redirect with Some r => safe_redirect_path r | None => bs "/" end
    ∧ ss_sso_states st' !! id = None.
Proof.
  intros H0 Hex. assert (Hgone : ∀ id c, rate = true → code = Some c → sp = Some id → ss_sso_states st' !! id = None).
  { intros id c -> -> ->. change st' with (SsoIn answer loc, st').2. rewrite <-Hex. simpl.
    rewrite (proj2 (sso_callback_states _ _ _ _ _ _ _ _)). apply lookup_delete_eq. }
  revert Hex. simpl. unfold sso_callback_handler. destruct rate; [|done]. destruct code as [c|], sp as [id|]; try done. simpl negb. cbv iota zeta.
  destruct (ss_sso_states (run pre st0) !! id) as [p|] eqn:Ep; [|done]. destruct (at_instant a <? sp_expires p) eqn:Ex; [|done]. simpl negb. cbv iota.
  case_bool_decide as Hh; [|done]. simpl negb. cbv iota. set (st1 := with_sso_states (run pre st0) _).
  change (sso_for st1 (sp_host p) (path_of (sp_redirect_after p))) with (sso_for (run pre st0) (sp_host p) (path_of (sp_redirect_after p))).
  destruct (sso_for (run pre st0) _ _) as [sso|] eqn:Es; [|done]. destruct (str_eqb (sso_key sso) (sp_key p)) eqn:Ek; [|done]. simpl negb. cbv iota.
  apply str_eqb_eq in Ek. destruct (runtime_for w sso st1) as [[rt|] st2]; [|done].
  destruct (redeem_code w rt c (sp_redirect_uri p)) as [[info idt]|s] eqn:Ec; [|done].
  destruct (claim_text info (bs "email")) as [email|] eqn:Ee; simpl default; [|done].
  destruct (str_eqb email [] || _) eqn:Eb; [done|]. apply orb_false_iff in Eb as [_ Hv]. apply bool_decide_eq_false in Hv.
  destruct (admits_email sso email) eqn:Ea; [|done]. simpl negb. cbv iota. intros [= <- <- <-].
  destruct (run_traced (fun o st => (exec o st).2) (fun _ => True) (fun st => ss_sso_states st !! id = Some p) (began_visit id p) (consumes_visit id) pre st0)
    as (pre1 & o & pre2 & -> & (w0 & redirect & a0 & host & sso0 & -> & Hh0 & Hs0 & Hpp) & Hall); [done|done|by rewrite H0|intros o st _; apply visit_step|exact Ep|].
  subst p. cbn [sp_host sp_key sp_issuer sp_redirect_after sp_redirect_uri sp_expires] in *. apply Z.ltb_lt in Ex.
  match type of Ep with _ = Some ?q => exists pre1, w0, id, redirect, a0, pre2, host, sso0, sso, c, rt, info, idt, email, q end.
  assert (Hget : session_get sha256 (a_sessions (ss_auth (with_sso_auth st2 (with_sessions (ss_auth st2) (session_insert sha256 ok_s token
    (sso_session_of show_ip a email {| sp_redirect_after := match redirect with Some r => safe_redirect_path r | None => bs "/" end; sp_host := host;
       sp_redirect_uri := callback_uri w0 (at_headers a0) host; sp_key := sso_key sso0; sp_issuer := sso_issuer sso0;
       sp_expires := at_instant a0 + PENDING_TTL |}) (a_sessions (ss_auth st2))))))) token = Some _)
    by (unfold session_get, session_insert; simpl; apply aget_aset_eq).
  pose proof (Hgone id c eq_refl eq_refl eq_refl) as Hg. by repeat (split; [done|]).
Qed.

(** ** How many wait *)

Definition waiting_ok (st : SsoState F Regex Tz) : Prop :=
  Z.of_nat (size (ss_oidc_states st)) <= MAX_PENDING_LOGINS ∧ Z.of_nat (size (ss_sso_states st)) <= MAX_PENDING_LOGINS.

Lemma size_mono {V} (m m' : gmap str V) : m ⊆ m' → Z.of_nat (size m) <= Z.of_nat (size m').
Proof. intros H. apply inj_le. by apply map_subseteq_size. Qed.

Lemma slot_bound {V} (expires : V → Z) (now : Z) (m : gmap str V) :
  Z.of_nat (size (pending_login_slot expires now m).2) <= Z.of_nat (size m)
  ∧ ((pending_login_slot expires now m).1 = true → ∀ (k : str) (v : V), Z.of_nat (size (<[k := v]> (pending_login_slot expires now m).2)) <= MAX_PENDING_LOGINS).
Proof.
  unfold pending_login_slot. cbv zeta. simpl fst. simpl snd. split; [apply size_mono, map_filter_subseteq|].
  intros Hr k v. apply Z.ltb_lt in Hr. rewrite map_size_insert. destruct (filter _ m !! k); unfold id; lia.
Qed.

Lemma exec_waiting o st : waiting_ok st → waiting_ok (exec o st).2.
Proof.
  intros [H1 H2]. destruct o as [w rate tok org redirect a|w rate ok1 ok2 ok_s fresh token code sp a|w rate tok redirect a|w rate ok_s token code sp a|next]; simpl.
  - unfold oidc_login_handler. cbv zeta. pose proof (runtime_of_same w (login_org org) st) as (_ & _ & _ & _ & Hs & Hss).
    destruct (runtime_of w (login_org org) st) as [[rt|] st1]; cbn [snd] in Hs, Hss; [|split; simpl; by rewrite ?Hs, ?Hss].
    destruct (negb rate); [split; simpl; by rewrite ?Hs, ?Hss|]. destruct (oidc_redirect_uri _ _ _) as [uri|]; [|split; simpl; by rewrite ?Hs, ?Hss].
    rewrite Hs. pose proof (slot_bound op_expires (at_instant a) (ss_oidc_states st)) as [Hb Hr].
    destruct (pending_login_slot _ _ _) as [room states]. cbn [fst snd] in Hb, Hr. destruct room; [|split; simpl; [lia|by rewrite Hss]].
    simpl negb. cbv iota. destruct (w_authorize _ _ _ _); (split; [simpl; by apply Hr|simpl; by rewrite Hss]).
  - destruct (callback_states w rate ok1 ok2 ok_s fresh token code sp st a) as [E1 E2]. split; [rewrite E1|by rewrite E2].
    destruct rate; [|done]. destruct code, sp; try done. etransitivity; [apply size_mono, delete_subseteq|done].
  - unfold sso_login_handler. destruct (negb rate); [done|]. destruct (extract_request_host _) as [host|]; [|done]. cbv zeta.
    destruct (sso_for _ _ _) as [sso|]; [|done]. pose proof (runtime_for_same w sso st) as (_ & Hs & Hss).
    destruct (runtime_for w sso st) as [[rt|] st1]; cbn [snd] in Hs, Hss; [|split; simpl; by rewrite ?Hs, ?Hss].
    rewrite Hss. pose proof (slot_bound sp_expires (at_instant a) (ss_sso_states st)) as [Hb Hr].
    destruct (pending_login_slot _ _ _) as [room states]. cbn [fst snd] in Hb, Hr. destruct room; [|split; simpl; [by rewrite Hs|lia]].
    simpl negb. cbv iota. destruct (w_authorize _ _ _ _); (split; [simpl; by rewrite Hs|simpl; by apply Hr]).
  - destruct (sso_callback_states w rate ok_s token code sp st a) as [E1 E2]. split; [by rewrite E1|rewrite E2].
    destruct rate; [|done]. destruct code, sp; try done. etransitivity; [apply size_mono, delete_subseteq|done].
  - done.
Qed.

(** However many sign-ins are started and never finished, no more than ten thousand of
    each kind are held. *)
Theorem waiting_sign_ins_bounded ops st0 : ss_oidc_states st0 = ∅ → ss_sso_states st0 = ∅ → waiting_ok (run ops st0).
Proof.
  intros H1 H2. assert (H0 : waiting_ok st0) by (unfold waiting_ok; rewrite H1, H2; done).
  clear H1 H2. revert st0 H0. induction ops as [|o ops IH]; intros st0 H0; [done|]. simpl. apply IH. by apply exec_waiting.
Qed.

End Earned.

(** ** Concrete runs *)

Module SsoSamples.

Definition the_doc (email : str) : document :=
  fun name => if str_eqb name (bs "email") then Some (CText email) else if str_eqb name (bs "email_verified") then Some (CBool true) else None.

(** A provider that vouches for one address. *)
Definition provider (email : str) : Outside :=
  {| w_discover _ := Some (bs "https://idp/auth", bs "https://idp/token", Some (bs "https://idp/info")); w_outbound _ := true; w_client := true;
     w_token _ code _ := Answered (Some (code, None)); w_userinfo _ _ := Answered (Some (the_doc email)); w_authorize _ _ _ := Some (bs "https://idp/auth?...");
     w_scheme _ := bs "https"; w_decode _ := None; w_parse _ := None |}.

Definition acme_oidc : OrgOidc :=
  {| oo_issuer := bs "https://idp"; oo_client_id := bs "cid"; oo_client_secret := bs "secret"; oo_allowed_emails := [bs "*"];
     oo_default_role := Some Viewer; oo_group_grants := [bs "ops=operator"] |}.

Definition org_named (id name : str) (oidc : option OrgOidc) : Organization :=
  {| og_id := id; og_name := name; og_custom_name := None; og_created_at := 0; og_max_clients := None; og_max_tokens := None; og_max_users := None;
     og_max_bytes_month := None; og_hostnames := []; og_oidc := oidc; og_panel_hostname := None |}.

Definition server_oidc : OidcRuntime :=
  {| rt_authorization_endpoint := bs "a"; rt_token_endpoint := bs "t"; rt_userinfo_endpoint := bs "u"; rt_client_id := bs "c";
     rt_client_secret := bs "s"; rt_scopes := bs "openid"; rt_allowed_emails := [bs "*@corp.com"]; rt_redirect_url_override := None;
     rt_grants := no_grant_policy |}.

(** The server's administrator. *)
Definition root : User :=
  {| u_id := bs "r"; u_username := bs "root@corp.com"; u_password_hash := bs "h"; u_role := Admin; u_org_id := None;
     u_grants := [new_grant All Admin]; u_created_at := 0; u_enabled := true; u_totp_secret := None; u_totp_pending := None;
     u_recovery_hashes := []; u_totp_last_step := None; u_passkeys := [] |}.

Definition root_auth : AuthState := with_auth_users Sessions.sample_state {| users := [root]; disk := [root] |}.

Definition corp_sso : SsoConfig :=
  {| sso_issuer := bs "https://idp"; sso_client_id := bs "cid"; sso_client_secret := bs "s"; sso_allowed_emails := [bs "*@corp.com"]; sso_scopes := bs "openid" |}.

Definition sso_start (global : option OidcRuntime) : SsoState unit str unit :=
  {| ss_auth := root_auth; ss_panels := {| ph_dashboard := None; ph_orgs := [] |}; ss_orgs := [org_named (bs "acme") (bs "acme-inc") (Some acme_oidc)];
     ss_oidc := global; ss_org_oidc := ∅; ss_oidc_states := ∅; ss_sites := []; ss_visitor_auth := [MSso corp_sso]; ss_sso_runtimes := ∅; ss_sso_states := ∅ |}.

Definition at_time (t : Z) : Attempt :=
  {| at_now := 10; at_instant := t; at_ip := V4 2130706433; at_headers := [(bs "host", bs "tunnel.example.com")]; at_redirect := None |}.

Abbreviation op := (SsoOp (F := unit) (Regex := str) (Tz := unit)).
Definition begin_acme : op := OOidcLogin (provider (bs "root@corp.com")) true (bs "s1") (Some (bs "acme")) (Some (bs "//evil")) (at_time 0).
Definition finish_acme (t : Z) : op :=
  OOidcCallback (provider (bs "root@corp.com")) true true true true (bs "f") (bs "t9") (Some (bs "code")) (Some (bs "s1")) (at_time t).
Definition begin_visit : op := OSsoLogin (provider (bs "eve@corp.com")) true (bs "s2") (Some (bs "/app")) (at_time 0).
Definition finish_visit : op :=
  OSsoCallback (provider (bs "eve@corp.com")) true true (bs "t9") (Some (bs "code")) (Some (bs "s2")) (at_time 5).

Definition step_sso (ops : list op) (o : op) : SsoAnswer * SsoState unit str unit :=
  exec_sso id_hash (fun _ => []) (fun p => Ok p) o (run_sso id_hash (fun _ => []) (fun p => Ok p) ops (sso_start (Some server_oidc))).

Lemma oidc_sign_in_earned_witness :
  ∃ pre1 w0 id org redirect a0 pre2, [begin_acme] = pre1 ++ OOidcLogin w0 true id org redirect a0 :: pre2 ∧ 5 < at_instant a0 + PENDING_TTL.
Proof.
  destruct (oidc_sign_in_earned id_hash (fun _ => []) (fun p => Ok p) [begin_acme] (sso_start (Some server_oidc)) (provider (bs "root@corp.com")) true true true
    true (bs "f") (bs "t9") (Some (bs "code")) (Some (bs "s1")) (at_time 5) (bs "t9") (bs "/") (step_sso [begin_acme] (finish_acme 5)).2)
    as (pre1 & w0 & id & org & redirect & a0 & pre2 & uri & c & rt & info & idt & email & record & H1 & _ & _ & _ & H2 & _);
    [reflexivity|vm_compute; reflexivity|]. by exists pre1, w0, id, org, redirect, a0, pre2.
Defined.

Lemma visitor_sign_in_earned_witness :
  ∃ pre1 w0 id redirect a0 pre2, [begin_visit] = pre1 ++ OSsoLogin w0 true id redirect a0 :: pre2 ∧ 5 < at_instant a0 + PENDING_TTL.
Proof.
  destruct (visitor_sign_in_earned id_hash (fun _ => []) (fun p => Ok p) [begin_visit] (sso_start (Some server_oidc)) (provider (bs "eve@corp.com")) true true
    (bs "t9") (Some (bs "code")) (Some (bs "s2")) (at_time 5) (bs "t9") (bs "/app") (step_sso [begin_visit] finish_visit).2)
    as (pre1 & w0 & id & redirect & a0 & pre2 & host & sso0 & sso & c & rt & info & idt & email & p & H1 & _ & _ & _ & H2 & _);
    [reflexivity|vm_compute; reflexivity|]. by exists pre1, w0, id, redirect, a0, pre2.
Defined.

Lemma waiting_sign_ins_bounded_witness :
  waiting_ok (run_sso id_hash (fun _ => []) (fun p => Ok p) [begin_acme; begin_visit; finish_visit] (sso_start (Some server_oidc))).
Proof. apply (waiting_sign_ins_bounded id_hash (fun _ => []) (fun p => Ok p) [begin_acme; begin_visit; finish_visit]); reflexivity. Defined.

Definition acme_runtime : OidcRuntime :=
  {| rt_authorization_endpoint := bs "a"; rt_token_endpoint := bs "t"; rt_userinfo_endpoint := bs "u"; rt_client_id := bs "c"; rt_client_secret := bs "s";
     rt_scopes := bs "openid"; rt_allowed_emails := [bs "*"]; rt_redirect_url_override := None; rt_grants := org_policy (bs "acme") acme_oidc |}.

Definition settle_acme (orgs : list Organization) : result User Z * UserStore :=
  settle_record (fun p => Ok p) true true (bs "f") 0 acme_runtime (bs "root@corp.com") (Some (bs "acme")) [bs "ops"] orgs {| users := [root]; disk := [root] |}.

Lemma tenant_directory_confined_witness :
  Forall (within_tenant (bs "acme") [root]) (users (settle_acme [org_named (bs "acme") (bs "acme-inc") None]).2).
Proof.
  apply (tenant_directory_confined (fun p => Ok p) (bs "acme") [org_named (bs "acme") (bs "acme-inc") None] ltac:(vm_compute; reflexivity)
    ltac:(repeat constructor; vm_compute; done) acme_runtime acme_oidc true true (bs "f") 0 (bs "root@corp.com") [bs "ops"] {| users := [root]; disk := [root] |}).
  reflexivity.
Defined.

(** The login ends where it began and once. *)
Example one_callback_each :
  (step_sso [begin_acme] (finish_acme 5)).1 = SsoIn (bs "t9") (bs "/")
  ∧ (step_sso [begin_acme; finish_acme 5] (finish_acme 6)).1 = Refusal 400
  ∧ (step_sso [begin_acme] (finish_acme PENDING_TTL)).1 = Refusal 400.
Proof. vm_compute. auto. Qed.

(** A tenant's own sign-in asks the server's provider for its return address: without one
    it answers as if the request had no host. *)
Example tenant_login_needs_server_oidc :
  (exec_sso id_hash (fun _ => []) (fun p => Ok p) begin_acme (sso_start None)).1 = Refusal 400
  ∧ (exec_sso id_hash (fun _ => []) (fun p => Ok p) begin_acme (sso_start (Some server_oidc))).1 = ToProvider (bs "https://idp/auth?...").
Proof. vm_compute. auto. Qed.

(** ** Out of the tenant *)

#[local] Existing Instance PasskeySamples.sample_lib.

(** The passkey handlers over what a sign-in left, as the browser with that session. *)
Definition as_root (t : Z) : Attempt :=
  {| at_now := 10; at_instant := t; at_ip := V4 2130706433; at_headers := with_cookie (bs "t9"); at_redirect := None |}.
Definition passkeys_over (auth : AuthState) : PasskeyState :=
  {| ps_enabled := true; ps_auth := auth; ps_lockout := new_tracker 5 SECOND; ps_panels := {| ph_dashboard := None; ph_orgs := [] |};
     ps_ceremonies := no_ceremonies |}.
Definition register_then_use : list PasskeyOp :=
  [ORegisterStart (bs "s") (bs "f") (bs "c1") (as_root 1); ORegisterFinish true (bs "p1") (bs "c1") None false (bs "k1") (as_root 2);
   OLoginStart (bs "s") (bs "c2") true (bs "root@corp.com") (as_root 3)].
Definition use_key : PasskeyOp := OLoginFinish true true (bs "t10") (bs "c2") (bs "k1") (as_root 4).

(** A tenant's provider names the server administrator's address. The session it earns is
    bound to the tenant and carries its role there alone; but the account's own pages do
    not look at the binding, so it registers a passkey, and the passkey signs in to the
    whole account. *)
Example tenant_provider_takes_account :
  let bound := (step_sso [begin_acme] (finish_acme 5)).2 in
  let st := run_passkeys id_hash (fun _ => []) register_then_use (passkeys_over (ss_auth bound)) in
  let signed_in := exec_passkey id_hash (fun _ => []) use_key st in
  (caller_grants <$> resolve_caller id_hash (ss_auth bound) 11 (with_cookie (bs "t9"))) = Some [new_grant (Child (bs "acme")) Admin]
  ∧ signed_in.1 = PasskeyIn (bs "t10")
  ∧ (caller_grants <$> resolve_caller id_hash (ps_auth signed_in.2) 11 (with_cookie (bs "t10"))) = Some (u_grants root).
Proof. vm_compute. auto. Qed.

End SsoSamples.
