(* ===== verification/Outbound.v ===== *)
(** Where the server itself may call: the outbound policy, the fence of a
    destination a client named, and the bounded read of an answer
    ([aperio-server/src/outbound.rs]), with the proxy such a call leaves by and the
    destinations that skip it ([aperio-config/src/egress.rs]).

    The URL parser and the resolver are parameters; a URL is its scheme, host and
    the port in force. Error texts are the cases that produce them, with the part of
    the input they repeat. *)

From S2P Require Import Prelude Utf8 Binds IpNet ClientIp.

(** ** The egress proxy *)

Record EgressProxy : Type := {
  ep_host : str;
  ep_port : Z;
  ep_credentials : option (str * str);
  ep_redacted : str;
}.

Inductive egress_error : Type :=
| EgressEmpty
| TlsToProxy
| SchemeUnsupported (scheme : str)
| HasPath (shown : str)
| NamesNoHost
| BracketOpen (shown : str)
| PortNeeded (shown : str)
| PortWithoutHost (shown : str)
| PortUnusable (shown : str)
| CredentialEmpty (shown : str).

(** [split_once] of a text. *)
Fixpoint split_once_str (sep s : str) : option (str * str) :=
  if starts_with sep s then Some ([], drop (length sep) s)
  else match s with
       | [] => None
       | a :: s' => match split_once_str sep s' with
                    | Some (h, t) => Some (a :: h, t)
                    | None => None
                    end
       end.

Definition redact_raw (raw : str) : str :=
  match rsplit_once "@"%char raw with
  | Some (_, tail) => bs "***@" ++ tail
  | None => raw
  end.

Definition parse_port (raw whole : str) : result Z egress_error :=
  match parse_uint u16_max raw with Some p => Ok p | None => Err (PortUnusable whole) end.

Definition split_host_port (raw : str) : result (str * Z) egress_error :=
  match strip_prefix (bs "[") raw with
  | Some rest =>
      match split_once "]"%char rest with
      | None => Err (BracketOpen raw)
      | Some (addr, tail) =>
          match strip_prefix (bs ":") tail with
          | None => Err (PortNeeded raw)
          | Some port => (let? p := parse_port port raw in Ok (addr, p))%rust
          end
      end
  | None =>
      match rsplit_once colon raw with
      | Some (host, port) => if str_eqb host [] then Err (PortWithoutHost raw)
                             else (let? p := parse_port port raw in Ok (host, p))%rust
      | None => Ok (raw, 80)
      end
  end.

Definition show_proxy (host : str) (port : Z) : str := host ++ bs ":" ++ show_uint port.

Definition parse_egress (raw : str) : result EgressProxy egress_error :=
  let raw := trim raw in
  if str_eqb raw [] then Err EgressEmpty
  else
    let '(scheme, rest) := match split_once_str (bs "://") raw with
                           | Some (scheme, rest) => (lower scheme, rest)
                           | None => (bs "http", raw)
                           end in
    if str_eqb scheme (bs "https") then Err TlsToProxy
    else if negb (str_eqb scheme (bs "http")) then Err (SchemeUnsupported scheme)
    else
      let rest := trim_end_char slash rest in
      if bool_decide (slash ∈ rest) then Err (HasPath (redact_raw raw))
      else
        let '(credential, hostport) := match rsplit_once "@"%char rest with
                                       | Some (c, h) => (Some c, h)
                                       | None => (None, rest)
                                       end in
        if str_eqb hostport [] then Err NamesNoHost
        else (let? hp := split_host_port hostport in
              if bool_decide (credential = Some []) then Err (CredentialEmpty (redact_raw raw))
              else Ok {| ep_host := hp.1; ep_port := hp.2;
                         ep_credentials := (fun c => match split_once colon c with Some up => up | None => (c, []) end) <$> credential;
                         ep_redacted := show_proxy hp.1 hp.2 |})%rust.

Definition egress_url (p : EgressProxy) : str :=
  if bool_decide (colon ∈ ep_host p) then bs "http://[" ++ ep_host p ++ bs "]:" ++ show_uint (ep_port p)
  else bs "http://" ++ ep_host p ++ bs ":" ++ show_uint (ep_port p).

Inductive BypassEntry : Type := BypassHost (name : str) | BypassSuffix (suffix : str).

Definition parse_bypass_entry (raw : str) : option BypassEntry :=
  let entry := lower (trim_end_char dot (trim raw)) in
  if str_eqb entry [] then None
  else
    let suffix := match strip_prefix (bs "*.") entry with Some s => Some s | None => strip_prefix (bs ".") entry end in
    match suffix with
    | Some s => if str_eqb s [] then Some (BypassHost entry) else Some (BypassSuffix s)
    | None => Some (BypassHost entry)
    end.

Definition parse_bypass (raw : str) : list BypassEntry := omap parse_bypass_entry (split_on comma raw).

Definition entry_covers (host : str) (e : BypassEntry) : bool :=
  match e with
  | BypassHost name => str_eqb name host
  | BypassSuffix suffix => str_eqb host suffix || ends_with (bs "." ++ suffix) host
  end.

Definition bypass_covers (entries : list BypassEntry) (host : str) : bool :=
  let host := lower (trim_end_char dot host) in
  bool_decide (host ∈ [bs "localhost"; bs "127.0.0.1"; bs "::1"; bs "[::1]"]) || existsb (entry_covers host) entries.

Record Egress : Type := { eg_proxy : option EgressProxy; eg_bypass : list BypassEntry }.

Definition direct_to (e : Egress) (host : str) : bool :=
  match eg_proxy e with None => true | Some _ => bypass_covers (eg_bypass e) host end.

(** ** Internal addresses *)

Definition octet (k : Z) (n : Z) : Z := n / 2 ^ (8 * (3 - k)) mod 256.

Definition is_internal_v4 (n : Z) : bool :=
  let a := octet 0 n in let b := octet 1 n in let c := octet 2 n in
  (a =? 127)
  || ((a =? 10) || ((a =? 172) && (16 <=? b) && (b <=? 31)) || ((a =? 192) && (b =? 168)))
  || ((a =? 169) && (b =? 254))
  || (n =? 2 ^ 32 - 1)
  || (((a =? 192) && (b =? 0) && (c =? 2)) || ((a =? 198) && (b =? 51) && (c =? 100)) || ((a =? 203) && (b =? 0) && (c =? 113)))
  || (n =? 0)
  || ((a =? 100) && ((64 <=? b) && (b <? 128))).

Definition is_internal (ip : ipaddr) : bool :=
  match ip with
  | V4 n => is_internal_v4 n
  | V6 n =>
      let segment := n / 2 ^ 112 in
      (n =? 1) || (n =? 0) || (Z.land segment 65024 =? 64512) || (Z.land segment 65472 =? 65152)
      || match to_ipv4_mapped n with Some v4 => is_internal_v4 v4 | None => false end
  end.

(** ** Patterns *)

Inductive OutboundPattern : Type :=
| PHost (name : str)
| PSuffix (suffix : str)
| PCidr (base : ipaddr) (bits : Z).

Definition parse_pattern (raw : str) : result (option OutboundPattern) str :=
  let entry := lower (trim_end_char dot (trim raw)) in
  if str_eqb entry [] then Ok None
  else match strip_prefix (bs "*.") entry with
       | Some suffix => if str_eqb suffix [] || bool_decide ("*"%char ∈ suffix) || bool_decide (slash ∈ suffix) then Err entry
                        else Ok (Some (PSuffix suffix))
       | None =>
           if bool_decide ("*"%char ∈ entry) then Err entry
           else if bool_decide (is_Some (parse_ip entry)) || bool_decide (slash ∈ entry) then
             match parse_trusted_proxies entry with
             | Err e => Err e
             | Ok ranges => match last ranges with Some (base, bits) => Ok (Some (PCidr base bits)) | None => Err entry end
             end
           else Ok (Some (PHost entry))
       end.

Fixpoint parse_pattern_list (entries : list str) : result (list OutboundPattern) str :=
  match entries with
  | [] => Ok []
  | e :: rest => (let? p := parse_pattern e in let? ps := parse_pattern_list rest in
                  Ok (match p with Some p => p :: ps | None => ps end))%rust
  end.

Definition parse_patterns (raw : str) : result (list OutboundPattern) str := parse_pattern_list (split_on comma raw).

(** What of a pattern is judged on the destination as written. *)
Definition matches_as_written (host : str) (literal : option ipaddr) (p : OutboundPattern) : bool :=
  match p with
  | PHost h => str_eqb h host
  | PSuffix s => (len s + 1 <? len host) && ends_with s host
                 && bool_decide (host !! Z.to_nat (len host - len s - 1) = Some dot)
  | PCidr base bits => match literal with Some ip => cidr_contains base bits ip | None => false end
  end.

Definition in_cidr (ip : ipaddr) (p : OutboundPattern) : bool :=
  match p with PCidr base bits => cidr_contains base bits ip | _ => false end.
Definition is_cidr (p : OutboundPattern) : bool := match p with PCidr _ _ => true | _ => false end.

Record OutUrl : Type := { ou_scheme : str; ou_host : option str; ou_port : Z }.

Inductive refused : Type :=
| NoTargets
| InvalidUrl
| NoHost
| NotListed
| SchemeNotAllowed
| InternalAddress
| CannotResolve
| NoAddress.

Definition normal_host (host : str) : str := lower (trim_end_char dot host).
Definition bare_host (host : str) : str := trim_end_char "]"%char (trim_start_by (is_char "["%char) host).

Section Policy.
Context (parse_url : str → option OutUrl) (lookup_host : str → Z → option (list ipaddr)).

Definition server_side_allows (targets : list OutboundPattern) (url_str : str) : result unit refused :=
  if bool_decide (length targets = O) then Err NoTargets
  else match parse_url url_str with
       | None => Err InvalidUrl
       | Some url =>
           match ou_host url with
           | None => Err NoHost
           | Some host =>
               let host := normal_host host in
               if existsb (matches_as_written host (parse_ip (bare_host host))) targets then Ok tt else Err NotListed
           end
       end.

Definition matches_patterns (patterns : list OutboundPattern) (host bare : str) (literal : option ipaddr) (port : Z) (resolves_here : bool) :
    result bool refused :=
  if existsb (matches_as_written host literal) patterns then Ok true
  else if bool_decide (literal = None) && existsb is_cidr patterns && resolves_here then
    match lookup_host bare port with
    | None => Err CannotResolve
    | Some addrs => Ok (existsb (fun a => existsb (in_cidr a) patterns) addrs)
    end
  else Ok false.

Record OutboundPolicy : Type := { ob_allowlist : list OutboundPattern; ob_block_private : bool; ob_egress : Egress }.

Definition restricted (p : OutboundPolicy) : bool := negb (bool_decide (length (ob_allowlist p) = O)) || ob_block_private p.

(** Every address the name maps to, and at least one. *)
Definition all_public (addrs : list ipaddr) : result unit refused :=
  if existsb is_internal addrs then Err InternalAddress
  else if bool_decide (addrs = []) then Err NoAddress else Ok tt.

Definition check_outbound (p : OutboundPolicy) (url_str : str) : result unit refused :=
  if negb (restricted p) then Ok tt
  else match parse_url url_str with
       | None => Err InvalidUrl
       | Some url =>
           match ou_host url with
           | None => Err NoHost
           | Some host =>
               let host := normal_host host in
               let bare := bare_host host in
               let literal := parse_ip bare in
               let resolves_here := direct_to (ob_egress p) host in
               if negb (bool_decide (length (ob_allowlist p) = O)) then
                 match matches_patterns (ob_allowlist p) host bare literal (ou_port url) resolves_here with
                 | Err e => Err e
                 | Ok true => Ok tt
                 | Ok false => Err NotListed
                 end
               else match literal with
                    | Some ip => if is_internal ip then Err InternalAddress else Ok tt
                    | None =>
                        if negb resolves_here then Ok tt
                        else match lookup_host bare (ou_port url) with
                             | None => Err CannotResolve
                             | Some addrs => all_public addrs
                             end
                    end
           end
       end.

Definition client_declared_destination_allowed (url : OutUrl) (allow_insecure allow_private : bool) : result unit refused :=
  if negb (str_eqb (ou_scheme url) (bs "https") || (str_eqb (ou_scheme url) (bs "http") && allow_insecure)) then Err SchemeNotAllowed
  else match ou_host url with
       | None => Err NoHost
       | Some host =>
           match lookup_host host (ou_port url) with
           | None => Err CannotResolve
           | Some addrs =>
               if negb allow_private && existsb is_internal addrs then Err InternalAddress
               else if bool_decide (addrs = []) then Err NoAddress else Ok tt
           end
       end.

End Policy.

(** ** Reading an answer *)

(** One look at the body: a chunk, a failure, its end. *)
Inductive chunk : Type := Got (b : str) | BodyFailed | BodyEnd.

Fixpoint read_chunks (limit : Z) (chunks : list chunk) (buf : str) : option str :=
  match chunks with
  | Got b :: rest => if limit <? len buf + len b then None else read_chunks limit rest (buf ++ b)
  | _ => Some buf
  end.

(** [declared] is the length the answer announces. *)
Definition read_bounded (declared : option Z) (chunks : list chunk) (limit : Z) : option str :=
  if match declared with Some n => limit <? n | None => false end then None
  else match read_chunks limit chunks [] with
       | Some buf => if utf8_valid buf then Some buf else None
       | None => None
       end.

(** ** What is internal *)

(** The ranges the comment of [is_internal] lists, as an allowlist would write them. *)
Definition INTERNAL_TEXT : list str :=
  [bs "127.0.0.0/8"; bs "10.0.0.0/8"; bs "172.16.0.0/12"; bs "192.168.0.0/16"; bs "169.254.0.0/16"; bs "255.255.255.255/32";
   bs "192.0.2.0/24"; bs "198.51.100.0/24"; bs "203.0.113.0/24"; bs "0.0.0.0/32"; bs "100.64.0.0/10";
   bs "::1/128"; bs "::/128"; bs "fc00::/7"; bs "fe80::/10"].
Definition INTERNAL_RANGES : list (ipaddr * Z) := omap parse_network INTERNAL_TEXT.

Definition INTERNAL_V4 : list (Z * Z) :=
  [(127 * 2 ^ 24, 8); (10 * 2 ^ 24, 8); (172 * 2 ^ 24 + 16 * 2 ^ 16, 12); (192 * 2 ^ 24 + 168 * 2 ^ 16, 16); (169 * 2 ^ 24 + 254 * 2 ^ 16, 16);
   (2 ^ 32 - 1, 32); (192 * 2 ^ 24 + 2 * 2 ^ 8, 24); (198 * 2 ^ 24 + 51 * 2 ^ 16 + 100 * 2 ^ 8, 24);
   (203 * 2 ^ 24 + 113 * 2 ^ 8, 24); (0, 32); (100 * 2 ^ 24 + 64 * 2 ^ 16, 10)].
Definition INTERNAL_V6 : list (Z * Z) := [(1, 128); (0, 128); (64512 * 2 ^ 112, 7); (65152 * 2 ^ 112, 10)].

Lemma internal_ranges_split :
  INTERNAL_RANGES = ((fun r => (V4 r.1, r.2)) <$> INTERNAL_V4) ++ ((fun r => (V6 r.1, r.2)) <$> INTERNAL_V6).
Proof. vm_compute. reflexivity. Qed.

Definition has_prefix (w n : Z) (r : Z * Z) : bool := n / 2 ^ (w - r.2) =? r.1 / 2 ^ (w - r.2).

Lemma masked_has_prefix w n r : 0 <= r.2 <= w → 0 <= r.1 < 2 ^ w → 0 <= n < 2 ^ w → masked_eq w r.2 r.1 n = has_prefix w n r.
Proof.
  intros H1 H2 H3. apply eq_true_iff_eq. rewrite masked_eq_prefix by done. unfold same_prefix, has_prefix. rewrite Z.eqb_eq. split; by intros ->.
Qed.

Lemma div_is_interval n k c : 0 < k → n / k = c ↔ c * k <= n < (c + 1) * k.
Proof.
  intros Hk. split; [intros <-; pose proof (Z.mul_div_le n k Hk); pose proof (Z.mul_succ_div_gt n k Hk); lia|].
  intros [H1 H2]. symmetry. apply (Z.div_unique n k c (n - c * k)); lia.
Qed.

Lemma octets n : 0 <= n < 2 ^ 32 →
  ∃ d, n = octet 0 n * 2 ^ 24 + octet 1 n * 2 ^ 16 + octet 2 n * 2 ^ 8 + d
    ∧ 0 <= octet 0 n < 256 ∧ 0 <= octet 1 n < 256 ∧ 0 <= octet 2 n < 256 ∧ 0 <= d < 256.
Proof.
  intros Hn. exists (n mod 256). unfold octet. change (8 * (3 - 0)) with 24. change (8 * (3 - 1)) with 16. change (8 * (3 - 2)) with 8.
  assert (H24 : n / 2 ^ 24 = n / 256 / 256 / 256) by (rewrite !Z.div_div by lia; f_equal; lia).
  assert (H16 : n / 2 ^ 16 = n / 256 / 256) by (rewrite !Z.div_div by lia; f_equal; lia).
  assert (Hq : 0 <= n / 256 / 256 / 256 < 256) by (rewrite <-H24; split; [apply Z.div_pos; lia|apply Z.div_lt_upper_bound; lia]).
  rewrite H24, H16. change (2 ^ 8) with 256. rewrite (Z.mod_small (n / 256 / 256 / 256)) by done.
  pose proof (Z.div_mod n 256 ltac:(lia)). pose proof (Z.div_mod (n / 256) 256 ltac:(lia)). pose proof (Z.div_mod (n / 256 / 256) 256 ltac:(lia)).
  pose proof (Z.mod_pos_bound (n / 256 / 256) 256 ltac:(lia)). pose proof (Z.mod_pos_bound (n / 256) 256 ltac:(lia)).
  pose proof (Z.mod_pos_bound n 256 ltac:(lia)). change (2 ^ 24) with 16777216. change (2 ^ 16) with 65536. split; [|done].
  generalize dependent (n / 256 / 256 / 256). intros q3. generalize dependent (n / 256 / 256). intros q2. generalize dependent (n / 256). intros q1. lia.
Qed.

Lemma internal_v4_prefixes n : 0 <= n < 2 ^ 32 → is_internal_v4 n = existsb (has_prefix 32 n) INTERNAL_V4.
Proof.
  intros Hn. apply eq_true_iff_eq. unfold is_internal_v4. cbv zeta. destruct (octets n Hn) as (d & Hd & Ha & Hb & Hc & Hdd).
  generalize dependent (octet 0 n). intros a. generalize dependent (octet 1 n). intros b. generalize dependent (octet 2 n). intros c. intros.
  assert (H8 : ∀ x, n / 2 ^ 24 = x ↔ a = x) by (intros x; rewrite div_is_interval by lia; lia).
  assert (H16 : ∀ x y, 0 <= y < 256 → n / 2 ^ 16 = x * 256 + y ↔ a = x ∧ b = y) by (intros x y Hy; rewrite div_is_interval by lia; lia).
  assert (H24 : ∀ x y z, 0 <= y < 256 → 0 <= z < 256 → n / 2 ^ 8 = x * 65536 + y * 256 + z ↔ a = x ∧ b = y ∧ c = z)
    by (intros x y z Hy Hz; rewrite div_is_interval by lia; lia).
  assert (H12 : n / 2 ^ 20 = 2753 ↔ a = 172 ∧ 16 <= b <= 31) by (rewrite div_is_interval by lia; lia).
  assert (H10 : n / 2 ^ 22 = 401 ↔ a = 100 ∧ 64 <= b < 128) by (rewrite div_is_interval by lia; lia).
  assert (H32 : ∀ x, n / 2 ^ 0 = x ↔ n = x) by (intros x; rewrite Z.pow_0_r, Z.div_1_r; done).
  unfold INTERNAL_V4. cbn [existsb]. unfold has_prefix. cbn [fst snd].
  change (127 * 2 ^ 24 / 2 ^ (32 - 8)) with 127. change (10 * 2 ^ 24 / 2 ^ (32 - 8)) with 10.
  change ((172 * 2 ^ 24 + 16 * 2 ^ 16) / 2 ^ (32 - 12)) with 2753. change ((192 * 2 ^ 24 + 168 * 2 ^ 16) / 2 ^ (32 - 16)) with (192 * 256 + 168).
  change ((169 * 2 ^ 24 + 254 * 2 ^ 16) / 2 ^ (32 - 16)) with (169 * 256 + 254). change ((2 ^ 32 - 1) / 2 ^ (32 - 32)) with (2 ^ 32 - 1).
  change ((192 * 2 ^ 24 + 2 * 2 ^ 8) / 2 ^ (32 - 24)) with (192 * 65536 + 0 * 256 + 2).
  change ((198 * 2 ^ 24 + 51 * 2 ^ 16 + 100 * 2 ^ 8) / 2 ^ (32 - 24)) with (198 * 65536 + 51 * 256 + 100).
  change ((203 * 2 ^ 24 + 113 * 2 ^ 8) / 2 ^ (32 - 24)) with (203 * 65536 + 0 * 256 + 113). change (0 / 2 ^ (32 - 32)) with 0.
  change ((100 * 2 ^ 24 + 64 * 2 ^ 16) / 2 ^ (32 - 10)) with 401.
  change (32 - 8) with 24. change (32 - 12) with 20. change (32 - 16) with 16. change (32 - 32) with 0. change (32 - 24) with 8. change (32 - 10) with 22.
  rewrite !orb_true_iff, !andb_true_iff, !Z.eqb_eq, !Z.leb_le, !Z.ltb_lt.
  rewrite H8, H8, H12, !H16, !H24, H10, !H32 by lia. clear. intuition congruence.
Qed.

Lemma land_prefix s bits : 0 <= bits <= 16 → 0 <= s < 2 ^ 16 → Z.land s (mask 16 bits) = s / 2 ^ (16 - bits) * 2 ^ (16 - bits).
Proof. intros Hb Hs. rewrite land_mask by done. by rewrite Z.shiftl_mul_pow2, Z.shiftr_div_pow2 by lia. Qed.

Lemma internal_v6_prefixes n : 0 <= n < 2 ^ 128 →
  (n =? 1) || (n =? 0) || (Z.land (n / 2 ^ 112) 65024 =? 64512) || (Z.land (n / 2 ^ 112) 65472 =? 65152) = existsb (has_prefix 128 n) INTERNAL_V6.
Proof.
  intros Hn. assert (Hs : 0 <= n / 2 ^ 112 < 2 ^ 16) by (split; [apply Z.div_pos; lia|apply Z.div_lt_upper_bound; lia]).
  change 65024 with (mask 16 7). change 65472 with (mask 16 10). rewrite !land_prefix by lia.
  unfold INTERNAL_V6. cbn [existsb]. unfold has_prefix. cbn [fst snd].
  change (128 - 128) with 0. change (128 - 7) with 121. change (128 - 10) with 118. change (16 - 7) with 9. change (16 - 10) with 6.
  change (64512 * 2 ^ 112 / 2 ^ 121) with 126. change (65152 * 2 ^ 112 / 2 ^ 118) with 1018. rewrite Z.pow_0_r, !Z.div_1_r.
  assert (H7 : n / 2 ^ 112 / 2 ^ 9 = n / 2 ^ 121) by (rewrite Z.div_div by lia; f_equal; lia).
  assert (H10 : n / 2 ^ 112 / 2 ^ 6 = n / 2 ^ 118) by (rewrite Z.div_div by lia; f_equal; lia).
  rewrite H7, H10, orb_false_r, !orb_assoc. f_equal; [f_equal|]; apply eq_true_iff_eq; rewrite !Z.eqb_eq; lia.
Qed.

(** An address is internal exactly when it lies in one of the ranges a careful operator
    would list, judged by the code that judges every other range, IPv4-mapped forms by
    the address they carry. *)
Theorem internal_exact ip : wf_ip ip → is_internal ip = ip_in_ranges ip INTERNAL_RANGES.
Proof.
  intros Hw. rewrite internal_ranges_split. unfold ip_in_ranges. rewrite existsb_app.
  assert (H4 : ∀ v, 0 <= v < 2 ^ 32 → existsb (fun r => cidr_contains r.1 r.2 (V4 v)) ((fun r => (V4 r.1, r.2)) <$> INTERNAL_V4) = is_internal_v4 v).
  { intros v Hv. rewrite internal_v4_prefixes by done. unfold INTERNAL_V4. cbn [existsb fmap list_fmap]. unfold cidr_contains.
    cbn [fst snd canonical_network to_canonical]. repeat f_equal; match goal with |- masked_eq _ ?b ?x _ = has_prefix _ _ ?r => apply (masked_has_prefix 32 v r) end; simpl; lia. }
  destruct ip as [v|n]; simpl in Hw.
  - rewrite H4 by done. symmetry. etransitivity; [|apply orb_false_r]. f_equal.
  - assert (H6 : existsb (fun r => cidr_contains r.1 r.2 (V6 n)) ((fun r => (V6 r.1, r.2)) <$> INTERNAL_V6) = existsb (has_prefix 128 n) INTERNAL_V6).
    { unfold INTERNAL_V6. cbn [existsb fmap list_fmap]. repeat f_equal; unfold cidr_contains; cbn [fst snd];
        match goal with |- context [canonical_network (V6 ?b) ?k] => change (canonical_network (V6 b) k) with (V6 b, k) end; cbv iota;
        match goal with |- _ = has_prefix _ _ ?r => apply (masked_has_prefix 128 n r) end; simpl; lia. }
    rewrite H6, <-internal_v6_prefixes by done. unfold is_internal. cbv zeta. rewrite orb_comm. f_equal.
    destruct (to_ipv4_mapped n) as [v|] eqn:Em.
    + rewrite <-H4 by (by eapply to_ipv4_mapped_range). unfold cidr_contains. cbn [to_canonical]. rewrite Em. unfold INTERNAL_V4.
      cbn [existsb fmap list_fmap fst snd canonical_network]. done.
    + unfold INTERNAL_V4, cidr_contains. cbn [existsb fmap list_fmap fst snd canonical_network to_canonical]. by rewrite Em.
Qed.

(** ** What the policy lets through *)

(** [host] is [suffix] with at least one more label in front. *)
Definition subdomain_of (suffix host : str) : Prop := ∃ front, front ≠ [] ∧ host = front ++ [dot] ++ suffix.

Lemma suffix_pattern_subdomain host lit s : matches_as_written host lit (PSuffix s) = true ↔ subdomain_of s host.
Proof.
  simpl. rewrite !andb_true_iff, Z.ltb_lt, bool_decide_eq_true. split.
  - intros [[Hl He] Hd]. apply ends_with_spec in He as [pre ->]. unfold len in *. rewrite length_app in Hl, Hd.
    destruct (decide (pre = [])) as [->|Hne]; [simpl in Hl; lia|]. destruct (exists_last Hne) as (front & a & ->).
    rewrite length_app in Hl, Hd. simpl in Hl, Hd. rewrite <-app_assoc in Hd. cbn [app] in Hd. rewrite list_lookup_middle in Hd by lia.
    simplify_eq. exists front. split; [intros ->; simpl in Hl; lia|]. by rewrite <-app_assoc.
  - intros (front & Hne & ->). unfold len. rewrite !length_app. simpl. split_and!.
    + destruct front; [done|]. simpl. lia.
    + apply ends_with_spec. exists (front ++ [dot]). by rewrite <-app_assoc.
    + apply list_lookup_middle. lia.
Qed.

Section PolicyFacts.
Context (parse_url : str → option OutUrl) (lookup_host : str → Z → option (list ipaddr)).

(** What an allowlist says of a destination: it is named, it is under a named domain, it
    is written as an address of a listed range, or it is a name this server resolves
    itself, one address of which is in a listed range. *)
Inductive listed (al : list OutboundPattern) (host : str) (port : Z) (direct : bool) : Prop :=
| by_name : PHost host ∈ al → listed al host port direct
| by_domain s : PSuffix s ∈ al → subdomain_of s host → listed al host port direct
| by_address base bits ip : PCidr base bits ∈ al → parse_ip (bare_host host) = Some ip →
    cidr_contains base bits ip = true → listed al host port direct
| by_resolution base bits addrs ip : PCidr base bits ∈ al → parse_ip (bare_host host) = None → direct = true →
    lookup_host (bare_host host) port = Some addrs → ip ∈ addrs → cidr_contains base bits ip = true → listed al host port direct.

(** What [block_private] promises: no internal address is called, neither one written
    nor one this server's own resolution yields. *)
Definition public_only (host : str) (port : Z) (direct : bool) : Prop :=
  match parse_ip (bare_host host) with
  | Some ip => is_internal ip = false
  | None => direct = true → ∃ addrs, lookup_host (bare_host host) port = Some addrs ∧ addrs ≠ [] ∧ ∀ ip, ip ∈ addrs → is_internal ip = false
  end.

Lemma as_written_listed al host port direct :
  existsb (matches_as_written host (parse_ip (bare_host host))) al = true → listed al host port direct.
Proof.
  rewrite existsb_exists. intros (q & Hin & Hq). apply list_elem_of_In in Hin. destruct q as [h|s|base bits].
  - apply str_eqb_eq in Hq as ->. by apply by_name.
  - apply suffix_pattern_subdomain in Hq. by eapply by_domain.
  - simpl in Hq. destruct (parse_ip (bare_host host)) as [ip|] eqn:Ei; [|done]. by eapply by_address.
Qed.

Lemma listed_as_written al host port direct : listed al host port direct →
  existsb (matches_as_written host (parse_ip (bare_host host))) al = true
  ∨ parse_ip (bare_host host) = None ∧ direct = true ∧ existsb is_cidr al = true
    ∧ ∃ addrs, lookup_host (bare_host host) port = Some addrs ∧ existsb (fun a => existsb (in_cidr a) al) addrs = true.
Proof.
  intros [Hin|s Hin Hs|base bits ip Hin Hi Hc|base bits addrs ip Hin Hi Hd Hl Ha Hc].
  - left. apply existsb_exists. eexists. split; [by apply list_elem_of_In|]. by apply str_eqb_eq.
  - left. apply existsb_exists. eexists. split; [by apply list_elem_of_In|]. by apply suffix_pattern_subdomain.
  - left. apply existsb_exists. eexists. split; [by apply list_elem_of_In|]. simpl. by rewrite Hi.
  - right. split_and!; [done..| |exists addrs; split; [done|]]; apply existsb_exists.
    + eexists. split; [by apply list_elem_of_In|done].
    + exists ip. split; [by apply list_elem_of_In|]. apply existsb_exists. eexists. split; [by apply list_elem_of_In|done].
Qed.

Lemma matches_patterns_listed al host port direct :
  matches_patterns lookup_host al host (bare_host host) (parse_ip (bare_host host)) port direct = Ok true ↔ listed al host port direct.
Proof.
  unfold matches_patterns. split.
  - destruct (existsb (matches_as_written _ _) al) eqn:Ew; [intros _; by apply as_written_listed|].
    destruct (bool_decide _ && _ && _) eqn:Eg; [|done]. apply andb_true_iff in Eg as [Eg Hd]. apply andb_true_iff in Eg as [Hn _].
    apply bool_decide_eq_true in Hn. destruct (lookup_host _ _) as [addrs|] eqn:El; [|done]. intros [= Hx].
    apply existsb_exists in Hx as (ip & Hip & Hx). apply existsb_exists in Hx as (q & Hq & Hx). destruct q as [| |base bits]; [done..|].
    eapply by_resolution; [by apply list_elem_of_In|done..|by apply list_elem_of_In|done].
  - intros [->|(Hn & -> & Hc & addrs & Hl & Hx)]%listed_as_written; [done|]. destruct (existsb (matches_as_written _ _) al); [done|].
    by rewrite bool_decide_true, Hc, Hl, Hx by done.
Qed.

Lemma all_public_Ok addrs : all_public addrs = Ok tt ↔ addrs ≠ [] ∧ ∀ ip, ip ∈ addrs → is_internal ip = false.
Proof.
  unfold all_public. destruct (existsb is_internal addrs) eqn:Ee.
  - split; [done|]. intros [_ H]. apply existsb_exists in Ee as (ip & Hin & Hi). apply list_elem_of_In, H in Hin. congruence.
  - case_bool_decide as Ha; [by split; [|intros []]|]. split; [|done]. intros _. split; [done|]. intros ip Hin.
    destruct (is_internal ip) eqn:Ei; [|done]. assert (existsb is_internal addrs = true); [|congruence].
    apply existsb_exists. exists ip. split; [by apply list_elem_of_In|done].
Qed.

(** The policy under which the server calls out is exactly the one an operator writes: an
    allowlist, when there is one, is the whole answer, and without one the private
    addresses are out of reach, as far as this server is the one to resolve the name. *)
Theorem outbound_policy_exact (p : OutboundPolicy) (url_str : str) (url : OutUrl) (host : str) :
  restricted p = true → parse_url url_str = Some url → ou_host url = Some host →
  let direct := direct_to (ob_egress p) (normal_host host) in
  check_outbound parse_url lookup_host p url_str = Ok tt ↔
  (ob_allowlist p ≠ [] ∧ listed (ob_allowlist p) (normal_host host) (ou_port url) direct)
  ∨ (ob_allowlist p = [] ∧ public_only (normal_host host) (ou_port url) direct).
Proof.
  intros Hr Hu Hh direct. unfold check_outbound. rewrite Hr, Hu, Hh. cbv zeta. cbn [negb]. fold direct.
  case_bool_decide as Ha; cbn [negb].
  - apply length_zero_iff_nil in Ha. transitivity (public_only (normal_host host) (ou_port url) direct).
    2: split; [by right|]. 2: by intros [[]|[]].
    unfold public_only. destruct (parse_ip _) as [ip|]; [by destruct (is_internal ip)|].
    destruct direct; cbn [negb]; [|by split; [intros _|]]. destruct (lookup_host _ _) as [addrs|].
    + rewrite all_public_Ok. split; [intros H _; by exists addrs|]. intros H. destruct (H eq_refl) as (x & [= <-] & Hx). done.
    + split; [done|]. intros H. by destruct (H eq_refl) as (x & Hx & _).
  - assert (Hne : ob_allowlist p ≠ []) by (intros Hn; by rewrite Hn in Ha).
    transitivity (listed (ob_allowlist p) (normal_host host) (ou_port url) direct); [|split; [by left|by intros [[]|[]]]].
    rewrite <-matches_patterns_listed. by destruct (matches_patterns _ _ _ _ _ _ _) as [[]|].
Qed.

(** Where a client may have the server go on its behalf: nowhere that is not written
    down, and never by what a name resolves to. *)
Theorem server_side_exact (targets : list OutboundPattern) (url_str : str) :
  server_side_allows parse_url targets url_str = Ok tt ↔
  ∃ url host, parse_url url_str = Some url ∧ ou_host url = Some host ∧ listed targets (normal_host host) (ou_port url) false.
Proof.
  unfold server_side_allows. case_bool_decide as Ht.
  { apply length_zero_iff_nil in Ht as ->. split; [done|]. intros (url & host & _ & _ & Hl). by destruct Hl as [[]%elem_of_nil|? []%elem_of_nil|??? []%elem_of_nil|???? []%elem_of_nil]. }
  destruct (parse_url url_str) as [url|]; [|split; [done|by intros (? & ? & ? & _)]].
  destruct (ou_host url) as [host|] eqn:Eh; [|split; [done|intros (? & ? & [= <-] & ? & _); congruence]].
  cbv zeta. destruct (existsb _ targets) eqn:Ee.
  - split; [intros _|done]. exists url, host. split_and!; [done..|]. by apply as_written_listed.
  - split; [done|]. intros (? & ? & [= <-] & Hh & Hl). assert (x0 = host) as -> by congruence.
    apply listed_as_written in Hl as [Hl|(_ & ? & _)]; congruence.
Qed.

(** A destination a client declared is called only over an allowed scheme, and only where
    every address of its name is one the operator lets a client name. *)
Theorem declared_destination_fenced (url : OutUrl) (insecure private : bool) :
  client_declared_destination_allowed lookup_host url insecure private = Ok tt →
  (ou_scheme url = bs "https" ∨ ou_scheme url = bs "http" ∧ insecure = true) ∧
  ∃ host addrs, ou_host url = Some host ∧ lookup_host host (ou_port url) = Some addrs ∧ addrs ≠ [] ∧
    (private = true ∨ ∀ ip, ip ∈ addrs → is_internal ip = false).
Proof.
  unfold client_declared_destination_allowed. destruct (str_eqb _ _ || _) eqn:Es; [|done]. cbn [negb].
  destruct (ou_host url) as [host|]; [|done]. destruct (lookup_host host _) as [addrs|] eqn:El; [|done].
  destruct (negb private && _) eqn:Ep; [done|]. case_bool_decide as Ha; [done|]. intros _. split.
  - apply orb_true_iff in Es as [Es|Es]; [left|right; apply andb_true_iff in Es as [Es ->]; split; [|done]]; by apply str_eqb_eq.
  - exists host, addrs. split_and!; [done..|]. destruct private; [by left|right]. apply all_public_Ok. unfold all_public.
    cbn in Ep. rewrite Ep. by rewrite bool_decide_false.
Qed.

End PolicyFacts.

(** ** Bounded reads and the bypass list *)

Definition chunk_bytes (c : chunk) : str := match c with Got b => b | _ => [] end.

Lemma read_chunks_bounded limit chunks buf out : len buf <= limit → read_chunks limit chunks buf = Some out → len out <= limit.
Proof.
  revert buf. induction chunks as [|[b| |] chunks IH]; intros buf Hb; simpl; try by intros [= <-].
  destruct (limit <? _) eqn:El; [done|]. apply Z.ltb_ge in El. apply IH. unfold len in *. rewrite length_app. lia.
Qed.

(** However an answer is chunked and whatever length it announces, at most [limit] bytes
    of it are ever held, and what is returned is text. *)
Theorem read_bounded_within declared chunks limit out : 0 <= limit → read_bounded declared chunks limit = Some out →
  len out <= limit ∧ utf8_valid out = true.
Proof.
  intros Hl. unfold read_bounded. case_match; [done|].
  destruct (read_chunks _ _ _) as [buf|] eqn:Er; [|done]. destruct (utf8_valid buf) eqn:Eu; [|done]. intros [= <-].
  split; [|done]. by apply (read_chunks_bounded limit chunks [] buf).
Qed.

(** A destination skips the proxy exactly when it is this machine, an entry of the list,
    or a name under a listed domain. *)
Theorem bypass_exact (entries : list BypassEntry) (host : str) :
  bypass_covers entries host = true ↔
  normal_host host ∈ [bs "localhost"; bs "127.0.0.1"; bs "::1"; bs "[::1]"]
  ∨ BypassHost (normal_host host) ∈ entries
  ∨ ∃ s, BypassSuffix s ∈ entries ∧ (normal_host host = s ∨ ∃ front, normal_host host = front ++ [dot] ++ s).
Proof.
  unfold bypass_covers. change (lower (trim_end_char dot host)) with (normal_host host). rewrite orb_true_iff, bool_decide_eq_true, existsb_exists.
  apply or_iff_compat_l. split.
  - intros (e & Hin%list_elem_of_In & He). destruct e as [n|s]; simpl in He.
    + left. apply str_eqb_eq in He. by subst n.
    + right. exists s. split; [done|]. apply orb_true_iff in He as [He|He]; [left; by apply str_eqb_eq|right]. by apply ends_with_spec in He.
  - intros [Hin|(s & Hin & Hs)].
    + eexists. split; [by apply list_elem_of_In|]. by apply str_eqb_eq.
    + eexists. split; [by apply list_elem_of_In|]. simpl. apply orb_true_iff. destruct Hs as [->|Hs]; [left; by apply str_eqb_eq|right].
      by apply ends_with_spec.
Qed.

(** ** Witnesses and cases *)

Module OutboundSamples.

Definition sample_url (s : str) : option OutUrl :=
  if str_eqb s (bs "https://hooks.example.com/x") then Some {| ou_scheme := bs "https"; ou_host := Some (bs "Hooks.Example.com."); ou_port := 443 |}
  else None.
Definition sample_lookup (host : str) (_ : Z) : option (list ipaddr) :=
  if str_eqb host (bs "hooks.example.com") || str_eqb host (bs "Hooks.Example.com.") then Some [V4 134744072] else None.
Definition direct : Egress := {| eg_proxy := None; eg_bypass := [] |}.
Definition private_blocked : OutboundPolicy := {| ob_allowlist := []; ob_block_private := true; ob_egress := direct |}.
Definition sample_out : OutUrl := {| ou_scheme := bs "https"; ou_host := Some (bs "Hooks.Example.com."); ou_port := 443 |}.

Lemma internal_exact_witness : wf_ip (V4 2851995903) ∧ is_internal (V4 2851995903) = ip_in_ranges (V4 2851995903) INTERNAL_RANGES.
Proof. assert (H : wf_ip (V4 2851995903)) by (simpl; lia). split; [exact H|exact (internal_exact (V4 2851995903) H)]. Defined.

Lemma outbound_policy_exact_witness :
  check_outbound sample_url sample_lookup private_blocked (bs "https://hooks.example.com/x") = Ok tt
  ∧ public_only sample_lookup (bs "hooks.example.com") 443 true.
Proof.
  split; [vm_compute; reflexivity|].
  pose proof (outbound_policy_exact sample_url sample_lookup private_blocked (bs "https://hooks.example.com/x") sample_out (bs "Hooks.Example.com.")
                eq_refl eq_refl eq_refl) as [H _].
  destruct (H ltac:(vm_compute; reflexivity)) as [[Hn _]|[_ Hp]]; [exfalso; apply Hn; reflexivity|exact Hp].
Defined.

Lemma declared_destination_fenced_witness :
  ∃ host addrs, ou_host sample_out = Some host ∧ sample_lookup host 443 = Some addrs ∧ addrs ≠ []
    ∧ (false = true ∨ ∀ ip, ip ∈ addrs → is_internal ip = false).
Proof. exact (proj2 (declared_destination_fenced sample_lookup sample_out false false ltac:(vm_compute; reflexivity))). Defined.

Lemma read_bounded_within_witness : len (bs "abc") <= 4 ∧ utf8_valid (bs "abc") = true.
Proof. exact (read_bounded_within None [Got (bs "ab"); Got (bs "c"); BodyEnd] 4 (bs "abc") ltac:(lia) ltac:(vm_compute; reflexivity)). Defined.

(** A password with a [://] in it is taken for a scheme and repeated in the error. *)
Example egress_error_leaks_credential : parse_egress (bs "user:p://w@host:80") = Err (SchemeUnsupported (bs "user:p")).
Proof. vm_compute. reflexivity. Qed.

(** A body that breaks off is read as one that ended. *)
Example broken_body_is_whole : read_bounded (Some 9) [Got (bs "{}"); BodyFailed] 100 = Some (bs "{}").
Proof. vm_compute. reflexivity. Qed.

Example egress_forms :
  (match parse_egress (bs " http://u:p:q@[fd00::1]:3128/ ") with Ok p => Some (ep_host p, ep_port p, ep_credentials p, egress_url p) | Err _ => None end)
  = Some (bs "fd00::1", 3128, Some (bs "u", bs "p:q"), bs "http://[fd00::1]:3128")
  ∧ parse_egress (bs "https://proxy") = Err TlsToProxy
  ∧ parse_egress (bs "u:p@proxy/x") = Err (HasPath (bs "***@proxy/x")).
Proof. vm_compute. auto. Qed.

End OutboundSamples.
