(* ===== verification/Jwt.v ===== *)
(** The [jwt] method of a visitor gate: a token the visitor already holds, verified
    against a shared secret or against the keys its issuer publishes
    ([aperio-server/src/jwt.rs]).

    The token library is the class [JwtLib], with what its documentation promises in
    [JwtLaws]. A fetch meets a [Moment]: the operator's settings, the network, the clock
    and what other requests did to the cached key sets, all of which may differ from one
    fetch to the next. *)

From S2P Require Import Prelude Utf8 Binds IpNet ClientIp VisitorAuth Outbound.

(** ** Claims and the token library *)

(** A member of the claims; a number is the text it prints as. *)
Inductive value : Type :=
| VString (s : str)
| VNumber (printed : str)
| VBool (b : bool)
| VStrings (l : list str)
| VOther.

Definition claims_of : Type := str → option value.

Definition claim_as_str (v : value) : option str :=
  match v with
  | VString s => Some s
  | VNumber n => Some n
  | VBool b => Some (if b then bs "true" else bs "false")
  | _ => None
  end.

(** The names [iss] or [aud] gives. *)
Definition value_names (v : option value) : list str :=
  match v with Some (VString s) => [s] | Some (VStrings l) => l | _ => [] end.

Inductive Algorithm : Type := HS256 | RS256 | OtherAlgorithm (name : str).

Record Validation : Type := {
  v_algorithm : Algorithm;
  v_iss : option (list str);
  v_validate_aud : bool;
  v_aud : list str;
  v_required : list str;
}.

Class JwtLib : Type := {
  Key : Type;
  Jwk : Type;
  (** The [kid] of a header that can be read. *)
  decode_header : str → option (option str);
  from_secret : str → Key;
  jwk_kid : Jwk → option str;
  jwk_algorithm : Jwk → option Algorithm;
  from_jwk : Jwk → option Key;
  (** At this many seconds. *)
  decode_token : Z → str → Key → Validation → option claims_of;
  (** The expiry a token carries. *)
  expiry : claims_of → option Z;
  (** The token bears this key's signature, under this algorithm, over these claims. *)
  signs : Key → Algorithm → str → claims_of → Prop;
}.

(** The leeway the library grants a clock. *)
Definition LEEWAY : Z := 60.

Class JwtLaws (L : JwtLib) : Prop := {
  decode_signed now t k v c : decode_token now t k v = Some c → signs k (v_algorithm v) t c;
  decode_required now t k v c n : decode_token now t k v = Some c → n ∈ v_required v → is_Some (c n);
  decode_live now t k v c : decode_token now t k v = Some c → bs "exp" ∈ v_required v → ∃ e, expiry c = Some e ∧ now - LEEWAY <= e;
  decode_iss now t k v c l : decode_token now t k v = Some c → bs "iss" ∈ v_required v → v_iss v = Some l →
    ∃ i, i ∈ l ∧ i ∈ value_names (c (bs "iss"));
  decode_aud now t k v c : decode_token now t k v = Some c → bs "aud" ∈ v_required v → v_validate_aud v = true →
    ∃ a, a ∈ v_aud v ∧ a ∈ value_names (c (bs "aud"));
}.

(** ** Key sets *)

Definition SECOND : Z := 1000000000.
Definition JWKS_TTL : Z := 3600 * SECOND.
Definition JWKS_MIN_REFETCH : Z := 30 * SECOND.
Definition JWKS_MAX_BYTES : Z := 256 * 1024.

Section Jwt.
Context `{L : JwtLib}.
Context (parse_url : str → option OutUrl) (parse_jwks : str → option (list Jwk)).

Record CachedJwks : Type := { cj_keys : list Jwk; cj_fetched : Z }.
Definition jwks_cache : Type := list (str * CachedJwks).

(** What became of a request for a key set. *)
Inductive Got_keys : Type :=
| NotBuilt
| NoAnswer
| Answered (success : bool) (declared : option Z) (body : list chunk).

Record Moment : Type := {
  mo_policy : OutboundPolicy;
  mo_allow_http : bool;
  mo_allow_private : bool;
  mo_lookup : str → Z → option (list ipaddr);
  mo_now : Z;
  mo_get : Got_keys;
  mo_stored_at : Z;
  (** What others do to the cache before it is read, and during the fetch. *)
  mo_before : jwks_cache → jwks_cache;
  mo_meanwhile : jwks_cache → jwks_cache;
}.

Definition pick (keys : list Jwk) (kid : option str) : option Jwk :=
  match kid with
  | Some kid => find (fun j => bool_decide (jwk_kid j = Some kid)) keys
  | None => match keys with [only] => Some only | _ => None end
  end.

(** Whether this server goes there for a key set. *)
Definition fetch_allowed (m : Moment) (url : str) (declared_by_client : bool) : bool :=
  is_ok (check_outbound parse_url (mo_lookup m) (mo_policy m) url)
  && (negb declared_by_client
      || match parse_url url with
         | Some parsed => is_ok (client_declared_destination_allowed (mo_lookup m) parsed (mo_allow_http m) (mo_allow_private m))
         | None => false
         end).

(** The key set a successful answer holds. *)
Definition read_keys (g : Got_keys) : option (list Jwk) :=
  match g with
  | Answered true declared body => read_bounded declared body JWKS_MAX_BYTES ≫= parse_jwks
  | _ => None
  end.

Definition store_keys (url : str) (keys : list Jwk) (at_ : Z) (cache : jwks_cache) : jwks_cache :=
  aset url {| cj_keys := keys; cj_fetched := at_ |} (if (32 <? length cache)%nat then [] else cache).

(** The keys, the cache, and the requests that left this server. *)
Definition fetch (m : Moment) (cache : jwks_cache) (url : str) (declared_by_client : bool) : option (list Jwk) * jwks_cache * list str :=
  if negb (fetch_allowed m url declared_by_client) then (None, cache, [])
  else
    let sent := match mo_get m with NotBuilt => [] | _ => [url] end in
    let cache := mo_meanwhile m cache in
    match read_keys (mo_get m) with
    | Some keys => (Some keys, store_keys url keys (mo_stored_at m) cache, sent)
    | None => (None, cache, sent)
    end.

Definition find_key (m : Moment) (cache : jwks_cache) (url : str) (kid : option str) (refetch declared_by_client : bool) :
    option Jwk * jwks_cache * list str :=
  let cache := mo_before m cache in
  let fetching := match fetch m cache url declared_by_client with
                  | (Some keys, cache, sent) => (pick keys kid, cache, sent)
                  | (None, cache, sent) => (None, cache, sent)
                  end in
  match aget url cache with
  | Some c =>
      if negb refetch && (mo_now m - cj_fetched c <? JWKS_TTL) then (pick (cj_keys c) kid, cache, [])
      else if refetch && (mo_now m - cj_fetched c <? JWKS_MIN_REFETCH) then (pick (cj_keys c) kid, cache, [])
      else fetching
  | None => fetching
  end.

(** The key a token of the issuer is checked with: one look at what is known, and one
    more that may fetch. *)
Definition issuer_key (m1 m2 : Moment) (cache : jwks_cache) (url : str) (kid : option str) (declared_by_client : bool) :
    option Jwk * jwks_cache * list str :=
  match find_key m1 cache url kid false declared_by_client with
  | (Some jwk, cache, sent) => (Some jwk, cache, sent)
  | (None, cache, sent) => let '(jwk, cache, sent2) := find_key m2 cache url kid true declared_by_client in (jwk, cache, sent ++ sent2)
  end.

Definition key_alg (jwk : Jwk) : Algorithm := default RS256 (jwk_algorithm jwk).

Definition validation_for (cfg : JwtConfig) (algorithm : Algorithm) : Validation :=
  {| v_algorithm := algorithm;
     v_iss := (fun i => [i]) <$> jwt_issuer cfg;
     v_validate_aud := negb (bool_decide (jwt_audience cfg = []));
     v_aud := jwt_audience cfg;
     v_required := [bs "exp"] ++ (if is_some (jwt_issuer cfg) then [bs "iss"] else []) ++ (if bool_decide (jwt_audience cfg = []) then [] else [bs "aud"]) |}.

Definition claim_str (claims : claims_of) (name : str) : option str := claims name ≫= claim_as_str.

Definition claims_met (cfg : JwtConfig) (claims : claims_of) : bool :=
  forallb (fun nw => bool_decide (claim_str claims nw.1 = Some nw.2)) (jwt_claims cfg).

Definition who_is (claims : claims_of) : option str :=
  match claim_str claims (bs "email") with Some e => Some e | None => claim_str claims (bs "sub") end.

(** The last step: the token under one key. *)
Definition accept (secs : Z) (cfg : JwtConfig) (token : str) (key : Key) (algorithm : Algorithm) : option (option str) :=
  match decode_token secs token key (validation_for cfg algorithm) with
  | Some claims => if claims_met cfg claims then Some (who_is claims) else None
  | None => None
  end.

(** [Some who] when the token is good; [secs] is the clock the library reads. *)
Definition verify (m1 m2 : Moment) (secs : Z) (cache : jwks_cache) (cfg : JwtConfig) (token : str) :
    option (option str) * jwks_cache * list str :=
  match decode_header token with
  | None => (None, cache, [])
  | Some kid =>
      match jwt_hmac_secret cfg, jwt_jwks_url cfg with
      | Some secret, _ => (accept secs cfg token (from_secret secret) HS256, cache, [])
      | None, Some url =>
          let '(jwk, cache, sent) := issuer_key m1 m2 cache url kid (jwt_declared_by_client cfg) in
          (match jwk with
           | Some jwk => match from_jwk jwk with Some key => accept secs cfg token key (key_alg jwk) | None => None end
           | None => None
           end, cache, sent)
      | None, None => (None, cache, [])
      end
  end.

End Jwt.

(** ** What is accepted *)

Section JwtFacts.
Context `{L : JwtLib} `{!JwtLaws L}.
Context (parse_url : str → option OutUrl) (parse_jwks : str → option (list Jwk)).

(** What a configuration demands of the claims of a token. *)
Record demands_met (cfg : JwtConfig) (secs : Z) (claims : claims_of) : Prop := {
  dm_live : ∃ e, expiry claims = Some e ∧ secs - LEEWAY <= e;
  dm_issuer i : jwt_issuer cfg = Some i → i ∈ value_names (claims (bs "iss"));
  dm_audience : jwt_audience cfg ≠ [] → ∃ a, a ∈ jwt_audience cfg ∧ a ∈ value_names (claims (bs "aud"));
  dm_claims n w : (n, w) ∈ jwt_claims cfg → claim_str claims n = Some w;
}.

Lemma accept_sound secs cfg token key alg who : accept secs cfg token key alg = Some who →
  ∃ claims, signs key alg token claims ∧ demands_met cfg secs claims ∧ who = who_is claims.
Proof using JwtLaws0.
  unfold accept. destruct (decode_token _ _ _ _) as [claims|] eqn:Ed; [|done]. destruct (claims_met cfg claims) eqn:Ec; [|done].
  intros [= <-]. exists claims. split; [by apply decode_signed in Ed|]. split; [|done]. split.
  - eapply decode_live; [exact Ed|]. simpl. by left.
  - intros i Hi. destruct (decode_iss _ _ _ _ _ [i] Ed) as (i' & Hin%list_elem_of_singleton & Hn); [simpl; by rewrite Hi; right; left|simpl; by rewrite Hi|].
    by subst.
  - intros Ha. apply (decode_aud _ _ _ _ _ Ed); simpl; rewrite bool_decide_false by done; [|done].
    right. apply elem_of_app. right. by left.
  - intros n w Hin. unfold claims_met in Ec. rewrite forallb_Forall, Forall_forall in Ec. specialize (Ec _ Hin). by apply bool_decide_eq_true in Ec.
Qed.

(** Every cached set is one that [published] names for its address. *)
Definition cache_from (published : str → list Jwk → Prop) (cache : jwks_cache) : Prop :=
  ∀ url c, aget url cache = Some c → published url (cj_keys c).

(** Nobody else caches anything but what its address published, nor does this fetch. *)
Definition moment_from (published : str → list Jwk → Prop) (url : str) (m : Moment) : Prop :=
  (∀ cache, cache_from published cache → cache_from published (mo_before m cache))
  ∧ (∀ cache, cache_from published cache → cache_from published (mo_meanwhile m cache))
  ∧ (∀ keys, read_keys parse_jwks (mo_get m) = Some keys → published url keys).

Lemma store_from published url keys t cache : cache_from published cache → published url keys → cache_from published (store_keys url keys t cache).
Proof using Type.
  intros Hc Hk url' c. unfold store_keys. destruct (decide (url = url')) as [<-|Hne]; [rewrite aget_aset_eq; by intros [= <-]|].
  rewrite aget_aset_ne by done. destruct (32 <? _)%nat; [done|]. apply Hc.
Qed.

Lemma find_key_from published m cache url kid refetch dbc jwk cache' sent :
  cache_from published cache → moment_from published url m →
  find_key parse_url parse_jwks m cache url kid refetch dbc = (jwk, cache', sent) →
  cache_from published cache' ∧ ∀ j, jwk = Some j → ∃ keys, published url keys ∧ pick keys kid = Some j.
Proof using Type.
  intros Hc (Hb & Hm & Hr). apply Hb in Hc. unfold find_key. set (cache1 := mo_before m cache) in *.
  assert (Hf : match fetch parse_url parse_jwks m cache1 url dbc with
               | (Some keys, cache, sent) => (pick keys kid, cache, sent) | (None, cache, sent) => (None, cache, sent) end = (jwk, cache', sent) →
               cache_from published cache' ∧ ∀ j, jwk = Some j → ∃ keys, published url keys ∧ pick keys kid = Some j).
  { unfold fetch. destruct (negb _); [by intros [= <- <- <-]|]. destruct (read_keys _ _) as [keys|] eqn:Er.
    - intros [= <- <- <-]. split; [apply store_from; [by apply Hm|by apply Hr]|]. intros j Hj. exists keys. by split; [apply Hr|].
    - intros [= <- <- <-]. split; [by apply Hm|done]. }
  destruct (aget url cache1) as [c|] eqn:Ec; [|done].
  destruct (negb refetch && _); [|destruct (refetch && _); [|done]]; intros [= <- <- <-]; (split; [done|]); intros j Hj; exists (cj_keys c); by split; [apply Hc|].
Qed.

Lemma issuer_key_from published m1 m2 cache url kid dbc jwk cache' sent :
  cache_from published cache → moment_from published url m1 → moment_from published url m2 →
  issuer_key parse_url parse_jwks m1 m2 cache url kid dbc = (jwk, cache', sent) →
  cache_from published cache' ∧ ∀ j, jwk = Some j → ∃ keys, published url keys ∧ pick keys kid = Some j.
Proof using Type.
  intros Hc H1 H2. unfold issuer_key. destruct (find_key _ _ m1 _ _ _ _ _) as [[j1 c1] s1] eqn:E1.
  destruct (find_key_from _ _ _ _ _ _ _ _ _ _ Hc H1 E1) as [Hc1 Hj1]. destruct j1 as [j1|]; [by intros [= <- <- <-]|].
  destruct (find_key _ _ m2 _ _ _ _ _) as [[j2 c2] s2] eqn:E2. intros [= <- <- <-]. by eapply find_key_from.
Qed.

(** A visitor is let in by a token only if the token is signed by the configured secret
    under HS256, or by a key its issuer publishes at the configured address, the one the
    token names or the only one there is, under that key's own algorithm; it has not
    expired, names the issuer and an audience asked for, and carries every claim asked
    for. The cache holds to what issuers publish. *)
Theorem jwt_earned (published : str → list Jwk → Prop) m1 m2 secs cache cfg token who cache' sent :
  cache_from published cache →
  (∀ url, jwt_jwks_url cfg = Some url → moment_from published url m1 ∧ moment_from published url m2) →
  verify parse_url parse_jwks m1 m2 secs cache cfg token = (Some who, cache', sent) →
  cache_from published cache' ∧
  ∃ key alg claims, signs key alg token claims ∧ demands_met cfg secs claims ∧ who = who_is claims ∧
    match jwt_hmac_secret cfg with
    | Some secret => key = from_secret secret ∧ alg = HS256
    | None => ∃ url kid keys jwk, jwt_jwks_url cfg = Some url ∧ decode_header token = Some kid ∧ published url keys
                ∧ pick keys kid = Some jwk ∧ from_jwk jwk = Some key ∧ alg = key_alg jwk
    end.
Proof using JwtLaws0.
  intros Hc Hm. unfold verify. destruct (decode_header token) as [kid|]; [|done]. destruct (jwt_hmac_secret cfg) as [secret|].
  - intros [= Ha <- <-]. split; [done|]. apply accept_sound in Ha as (claims & Hs & Hd & Hw). by exists (from_secret secret), HS256, claims.
  - destruct (jwt_jwks_url cfg) as [url|]; [|done]. destruct (Hm url eq_refl) as [H1 H2].
    destruct (issuer_key _ _ _ _ _ _ _ _) as [[jwk c1] s1] eqn:Ek. intros [= Ha <- <-].
    destruct (issuer_key_from _ _ _ _ _ _ _ _ _ _ Hc H1 H2 Ek) as [Hc' Hj]. split; [done|].
    destruct jwk as [jwk|]; [|done]. destruct (from_jwk jwk) as [key|] eqn:Ef; [|done]. destruct (Hj jwk eq_refl) as (keys & Hp & Hpick).
    apply accept_sound in Ha as (claims & Hs & Hd & Hw). exists key, (key_alg jwk), claims. split_and!; [done..|]. by exists url, kid, keys, jwk.
Qed.

(** ** Where the server goes for keys, and how often *)

Lemma fetch_sent m cache url dbc keys cache' sent u :
  fetch parse_url parse_jwks m cache url dbc = (keys, cache', sent) → u ∈ sent → u = url ∧ sent = [url] ∧ fetch_allowed parse_url m url dbc = true.
Proof using Type.
  unfold fetch. destruct (fetch_allowed _ _ _ _) eqn:Ea; cbn [negb]; [|by intros [= <- <- <-] ?%elem_of_nil].
  intros H Hin. assert (Hs : sent = match mo_get m with NotBuilt => [] | _ => [url] end) by (destruct (read_keys _ _); congruence).
  destruct (mo_get m); rewrite Hs in Hin |- *; [by apply elem_of_nil in Hin|by apply list_elem_of_singleton in Hin..].
Qed.

Lemma find_key_sent m cache url kid refetch dbc jwk cache' sent u :
  find_key parse_url parse_jwks m cache url kid refetch dbc = (jwk, cache', sent) → u ∈ sent →
  u = url ∧ sent = [url] ∧ fetch_allowed parse_url m url dbc = true.
Proof using Type.
  unfold find_key. destruct (fetch _ _ _ _ _ _) as [[keys c] s] eqn:Ef. intros H Hin.
  assert (Hs : sent = s). { repeat case_in H; simplify_eq; try done; by apply elem_of_nil in Hin. }
  subst s. by eapply fetch_sent.
Qed.

(** A key set is asked for only at the configured address, twice at most for one token,
    where the operator's outbound policy lets the server call; and an address a client
    declared must also be over TLS and public, as far as the operator did not relax that. *)
Theorem jwks_fetch_fenced m1 m2 secs cache cfg token who cache' sent u :
  verify parse_url parse_jwks m1 m2 secs cache cfg token = (who, cache', sent) → u ∈ sent →
  jwt_jwks_url cfg = Some u ∧ (length sent <= 2)%nat ∧
  ∃ m, (m = m1 ∨ m = m2) ∧ check_outbound parse_url (mo_lookup m) (mo_policy m) u = Ok tt
    ∧ (jwt_declared_by_client cfg = true → ∃ parsed, parse_url u = Some parsed
         ∧ client_declared_destination_allowed (mo_lookup m) parsed (mo_allow_http m) (mo_allow_private m) = Ok tt).
Proof using Type.
  assert (Hall : ∀ m dbc, fetch_allowed parse_url m u dbc = true → check_outbound parse_url (mo_lookup m) (mo_policy m) u = Ok tt
    ∧ (dbc = true → ∃ parsed, parse_url u = Some parsed ∧ client_declared_destination_allowed (mo_lookup m) parsed (mo_allow_http m) (mo_allow_private m) = Ok tt)).
  { intros m dbc [H1 H2]%andb_true_iff. split; [by destruct (check_outbound _ _ _ _) as [[]|]|]. intros ->. simpl in H2.
    destruct (parse_url u) as [parsed|]; [|done]. exists parsed. split; [done|]. by destruct (client_declared_destination_allowed _ _ _ _) as [[]|]. }
  unfold verify. destruct (decode_header token) as [kid|]; [|by intros [= <- <- <-] ?%elem_of_nil].
  destruct (jwt_hmac_secret cfg); [by intros [= <- <- <-] ?%elem_of_nil|]. destruct (jwt_jwks_url cfg) as [url|]; [|by intros [= <- <- <-] ?%elem_of_nil].
  unfold issuer_key. destruct (find_key _ _ m1 _ _ _ _ _) as [[j1 c1] s1] eqn:E1.
  assert (Hl : ∀ m c b j c' s, find_key parse_url parse_jwks m c url kid b (jwt_declared_by_client cfg) = (j, c', s) → (length s <= 1)%nat).
  { intros m c b j c' s E. destruct s as [|x s]; [simpl; lia|]. destruct (find_key_sent _ _ _ _ _ _ _ _ _ x E ltac:(by left)) as (_ & -> & _). simpl. lia. }
  destruct j1 as [j1|].
  - intros [= _ <- <-] Hin. destruct (find_key_sent _ _ _ _ _ _ _ _ _ _ E1 Hin) as (-> & _ & Ha). split; [done|]. split; [by apply Hl in E1; lia|].
    exists m1. split; [by left|]. by apply Hall.
  - destruct (find_key _ _ m2 _ _ _ _ _) as [[j2 c2] s2] eqn:E2. intros [= _ <- <-] Hin. rewrite length_app.
    pose proof (Hl _ _ _ _ _ _ E1). pose proof (Hl _ _ _ _ _ _ E2). apply elem_of_app in Hin as [Hin|Hin].
    + destruct (find_key_sent _ _ _ _ _ _ _ _ _ _ E1 Hin) as (-> & _ & Ha). split; [done|]. split; [lia|]. exists m1. split; [by left|]. by apply Hall.
    + destruct (find_key_sent _ _ _ _ _ _ _ _ _ _ E2 Hin) as (-> & _ & Ha). split; [done|]. split; [lia|]. exists m2. split; [by right|]. by apply Hall.
Qed.

(** A key set that was fetched less than half a minute before is not fetched again,
    whatever key a token names, as long as it is still cached. *)
Theorem jwks_fetch_paced m1 m2 secs cache cfg token url c :
  jwt_jwks_url cfg = Some url → aget url (mo_before m1 cache) = Some c → aget url (mo_before m2 (mo_before m1 cache)) = Some c →
  mo_now m1 - cj_fetched c < JWKS_MIN_REFETCH → mo_now m2 - cj_fetched c < JWKS_MIN_REFETCH →
  (verify parse_url parse_jwks m1 m2 secs cache cfg token).2 = [].
Proof using Type.
  intros Hu H1 H2 Hn1 Hn2. unfold verify. destruct (decode_header token) as [kid|]; [|done]. destruct (jwt_hmac_secret cfg); [done|].
  rewrite Hu. unfold issuer_key. unfold find_key at 1. rewrite H1. cbn [negb andb].
  assert ((mo_now m1 - cj_fetched c <? JWKS_TTL) = true) as -> by (apply Z.ltb_lt; unfold JWKS_TTL, JWKS_MIN_REFETCH, SECOND in *; lia).
  destruct (pick (cj_keys c) kid); [done|]. unfold find_key. rewrite H2. cbn [negb andb].
  assert ((mo_now m2 - cj_fetched c <? JWKS_MIN_REFETCH) = true) as -> by (by apply Z.ltb_lt). done.
Qed.

End JwtFacts.

(** ** Witnesses and cases *)

Module JwtSamples.

Definition sample_claims : claims_of := fun n =>
  if str_eqb n (bs "exp") then Some (VNumber (bs "100"))
  else if str_eqb n (bs "iss") then Some (VString (bs "me"))
  else if str_eqb n (bs "aud") then Some (VStrings [bs "other"; bs "app"])
  else if str_eqb n (bs "tier") then Some (VNumber (bs "2"))
  else if str_eqb n (bs "sub") then Some (VString (bs "u1")) else None.

Definition sample_expiry (c : claims_of) : option Z :=
  match c (bs "exp") with Some (VNumber n) => parse_uint (2 ^ 64 - 1) n | _ => None end.

Definition shares (l m : list str) : bool := existsb (fun a => bool_decide (a ∈ m)) l.

(** A library that knows one token, of one key. *)
Definition sample_decode (now : Z) (t k : str) (v : Validation) : option claims_of :=
  if str_eqb t (bs "tok") && str_eqb k (bs "pub") && (now - LEEWAY <=? 100)
     && forallb (fun n => is_some (sample_claims n)) (v_required v)
     && match v_iss v with Some l => shares l [bs "me"] | None => true end
     && (negb (v_validate_aud v) || shares (v_aud v) [bs "other"; bs "app"])
  then Some sample_claims else None.

#[local] Instance sample_lib : JwtLib := {
  Key := str;
  Jwk := (str * str)%type;
  decode_header t := if str_eqb t (bs "tok") then Some (Some (bs "k1")) else None;
  from_secret s := s;
  jwk_kid j := Some j.1;
  jwk_algorithm _ := None;
  from_jwk j := Some j.2;
  decode_token := sample_decode;
  expiry := sample_expiry;
  signs k _ t c := k = bs "pub" ∧ t = bs "tok" ∧ c = sample_claims;
}.

Lemma sample_decode_inv now t k v c : sample_decode now t k v = Some c →
  c = sample_claims ∧ t = bs "tok" ∧ k = bs "pub" ∧ now - LEEWAY <= 100 ∧ (∀ n, n ∈ v_required v → is_Some (sample_claims n))
  ∧ (∀ l, v_iss v = Some l → shares l [bs "me"] = true) ∧ (v_validate_aud v = true → shares (v_aud v) [bs "other"; bs "app"] = true).
Proof.
  unfold sample_decode. destruct (_ && _) eqn:E; [|done]. intros [= <-]. apply andb_true_iff in E as [E Ha]. apply andb_true_iff in E as [E Hi].
  apply andb_true_iff in E as [E Hr]. apply andb_true_iff in E as [E Hn]. apply andb_true_iff in E as [Ht Hk].
  apply str_eqb_eq in Ht, Hk. apply Z.leb_le in Hn. rewrite forallb_Forall, Forall_forall in Hr. split_and!; [done..| | |].
  - intros n Hin. specialize (Hr n Hin). by destruct (sample_claims n).
  - intros l Hl. by rewrite Hl in Hi.
  - intros Hv. by rewrite Hv in Ha.
Qed.

Lemma shares_elem l m : shares l m = true → ∃ a, a ∈ l ∧ a ∈ m.
Proof. unfold shares. intros (a & Hin & Ha)%existsb_Exists. apply bool_decide_eq_true in Ha. by exists a. Qed.

#[local] Instance sample_laws : JwtLaws sample_lib.
Proof.
  split; simpl; [intros now t k v c H|intros now t k v c n H Hn|intros now t k v c H Hn|intros now t k v c l H Hn Hl|intros now t k v c H Hn Hl];
    apply sample_decode_inv in H as (-> & -> & -> & Hlive & Hr & Hi & Ha).
  - done.
  - by apply Hr.
  - exists 100. by split; [vm_compute|].
  - by apply shares_elem, Hi.
  - by apply shares_elem, Ha.
Qed.

Definition sample_parse_url (s : str) : option OutUrl :=
  if str_eqb s (bs "https://me/keys") then Some {| ou_scheme := bs "https"; ou_host := Some (bs "me"); ou_port := 443 |} else None.
Definition sample_keys : list (@Jwk sample_lib) := [(bs "k1", bs "pub"); (bs "k2", bs "x")].
Definition sample_entry : CachedJwks (L := sample_lib) := {| cj_keys := sample_keys; cj_fetched := 0 |}.
Definition empty_entry : CachedJwks (L := sample_lib) := {| cj_keys := []; cj_fetched := 0 |}.
Definition sample_parse_jwks (s : str) : option (list (@Jwk sample_lib)) := if str_eqb s (bs "doc") then Some sample_keys else None.

Definition moment (now : Z) (get : Got_keys) : Moment :=
  {| mo_policy := OutboundSamples.private_blocked; mo_allow_http := false; mo_allow_private := false; mo_lookup _ _ := Some [V4 134744072];
     mo_now := now; mo_get := get; mo_stored_at := now; mo_before c := c; mo_meanwhile c := c |}.
Definition doc : Got_keys := Answered true None [Got (bs "doc"); BodyEnd].

Definition sample_jwt : JwtConfig :=
  {| jwt_jwks_url := Some (bs "https://me/keys"); jwt_hmac_secret := None; jwt_issuer := Some (bs "me"); jwt_audience := [bs "app"];
     jwt_claims := [(bs "tier", bs "2")]; jwt_cookie := None; jwt_declared_by_client := true |}.

Definition published (url : str) (keys : list (@Jwk sample_lib)) : Prop := url = bs "https://me/keys" ∧ keys = sample_keys.

Lemma sample_moment now url : url = bs "https://me/keys" → moment_from sample_parse_jwks published url (moment now doc).
Proof. intros ->. split; [done|]. split; [done|]. intros keys [= <-]. done. Qed.

Lemma jwt_earned_witness :
  ∃ key alg claims, signs key alg (bs "tok") claims ∧ demands_met sample_jwt 120 claims ∧ who_is claims = Some (bs "u1").
Proof.
  destruct (jwt_earned sample_parse_url sample_parse_jwks published (moment 0 doc) (moment 0 doc) 120 [] sample_jwt (bs "tok") (Some (bs "u1"))
              [(bs "https://me/keys", sample_entry)] [bs "https://me/keys"])
    as (_ & key & alg & claims & Hs & Hd & Hw & _).
  - intros url c Hc. discriminate Hc.
  - intros url [= <-]. split; apply sample_moment; reflexivity.
  - reflexivity.
  - exists key, alg, claims. split; [exact Hs|]. split; [exact Hd|]. symmetry. exact Hw.
Defined.

Lemma jwks_fetch_fenced_witness : client_declared_destination_allowed (fun _ _ => Some [V4 134744072])
  {| ou_scheme := bs "https"; ou_host := Some (bs "me"); ou_port := 443 |} false false = Ok tt.
Proof.
  destruct (jwks_fetch_fenced sample_parse_url sample_parse_jwks (moment 0 doc) (moment 0 doc) 120 [] sample_jwt (bs "tok") (Some (Some (bs "u1")))
              [(bs "https://me/keys", sample_entry)] [bs "https://me/keys"] (bs "https://me/keys")
              ltac:(reflexivity) ltac:(left)) as (_ & _ & m & Hm & _ & Hd).
  destruct (Hd eq_refl) as (parsed & Hp & Ha). injection Hp as <-. destruct Hm as [-> | ->]; exact Ha.
Defined.

Lemma jwks_fetch_paced_witness :
  (verify sample_parse_url sample_parse_jwks (moment (29 * SECOND) doc) (moment (29 * SECOND) doc) 0
     [(bs "https://me/keys", empty_entry)] sample_jwt (bs "tok")).2 = [].
Proof.
  apply (jwks_fetch_paced sample_parse_url sample_parse_jwks _ _ _ _ _ _ (bs "https://me/keys") empty_entry);
    reflexivity.
Defined.

(** An issuer that does not answer is asked twice for every token, with no pause between. *)
Example failing_issuer_not_paced :
  let down := moment 0 NoAnswer in
  let '(_, cache, sent) := verify sample_parse_url sample_parse_jwks down down 0 [] sample_jwt (bs "tok") in
  sent = [bs "https://me/keys"; bs "https://me/keys"]
  ∧ (verify sample_parse_url sample_parse_jwks down down 0 cache sample_jwt (bs "tok")).2 = [bs "https://me/keys"; bs "https://me/keys"].
Proof. split; reflexivity. Qed.

End JwtSamples.
