(* ===== verification/ForwardAuth.v ===== *)
(** The [forward] method of a visitor gate: an endpoint is asked about the request,
    either by the server ([aperio-server/src/forward_auth.rs]) or, over the tunnel, by
    the connection that would serve it ([forward_auth_tunnel.rs]).

    The hash, the resolver, the URL parser and the endpoint are arguments. A task that
    waits for an answer is an entry of [ask_state]; its awaits are separate actions of
    [ask_step], so that answers, timeouts, visitors who leave and connections that end
    come in any order. *)

From S2P Require Import Prelude Utf8 Binds IpNet ClientIp Orgs VisitorAuth Clients Canary Select SiteRules Sites Share Sessions Gate Outbound.

Import SiteRules.Headers.

Definition DEFAULT_REQUEST_HEADERS : list str := [bs "cookie"; bs "authorization"].
Definition MAX_RESPONSE_BYTES : Z := 64 * 1024.
Definition MAX_CACHED : nat := Pos.to_nat 4096.
Definition RELAYED_ON_REFUSAL : list str := [bs "location"; bs "content-type"; bs "www-authenticate"; bs "set-cookie"].

(** An answer to the visitor. *)
Record Reply : Type := { rp_status : Z; rp_headers : headers; rp_body : str }.

Inductive Answer : Type :=
| Admit (carried : list (str * str))
| Refuse (response : Reply).

Definition refusal : Reply := {| rp_status := 403; rp_headers := []; rp_body := bs "403 Forbidden" |}.

Record CachedVerdict : Type := { cv_headers : list (str * str); cv_decided : Z }.
Definition verdicts : Type := list (str * CachedVerdict).

(** ** The question *)

(** What the endpoint is asked about. *)
Record Visit : Type := {
  fv_method : str;
  fv_headers : headers;
  fv_uri : Uri;
  fv_host : option str;
}.

Definition names_of (cfg : ForwardConfig) : list str :=
  if bool_decide (fw_request_headers cfg = []) then DEFAULT_REQUEST_HEADERS else fw_request_headers cfg.

(** [path_and_query], or [/] for a target without one. *)
Definition target_of (u : Uri) : str :=
  if str_eqb (u_path u) [] then bs "/" else u_path u ++ match u_query u with Some q => bs "?" ++ q | None => [] end.

Definition NUL : ascii := "000"%char.

(** The bytes that are hashed into a key. *)
Definition key_text (cfg : ForwardConfig) (names : list str) (v : Visit) (ip : option str) : str :=
  fw_url cfg ++ [NUL] ++ default (bs "-") (fv_host v) ++ [NUL] ++ fv_method v ++ [NUL] ++ target_of (fv_uri v) ++ [NUL] ++ default (bs "-") ip
  ++ (names ≫= fun name => [NUL] ++ name ++ bs "=" ++ default [] (header_get name (fv_headers v))).

Section Ask.
Context (sha256_hex : str → str).

Definition key (cfg : ForwardConfig) (names : list str) (v : Visit) (ip : option str) : str := sha256_hex (key_text cfg names v ip).

Definition cached (now : Z) (cfg : ForwardConfig) (k : str) (cache : verdicts) : option (list (str * str)) :=
  match aget k cache with
  | Some entry => if now - cv_decided entry <? fw_cache cfg then Some (cv_headers entry) else None
  | None => None
  end.

(** Room for one more: the stale go first, then everything. *)
Definition make_room (now : Z) (cfg : ForwardConfig) (cache : verdicts) : verdicts :=
  if (MAX_CACHED <=? length cache)%nat then
    let fresh := filter (fun e => now - cv_decided e.2 < fw_cache cfg) cache in
    if (MAX_CACHED <=? length fresh)%nat then [] else fresh
  else cache.

Definition remember (now : Z) (cfg : ForwardConfig) (k : str) (carried : list (str * str)) (cache : verdicts) : verdicts :=
  aset k {| cv_headers := carried; cv_decided := now |} (make_room now cfg cache).

Definition remember_if (now : Z) (cfg : ForwardConfig) (k : option str) (carried : list (str * str)) (cache : verdicts) : verdicts :=
  match k with Some k => remember now cfg k carried cache | None => cache end.

(** ** Asked by the server *)

(** What comes back from an endpoint: its status, headers, announced length and body. *)
Inductive Endpoint : Type :=
| Silent
| Spoke (status : Z) (headers : headers) (declared : option Z) (body : list chunk).

(** One ask: the settings and network it meets, and its endpoint. *)
Record Occasion : Type := {
  oc_policy : OutboundPolicy;
  oc_lookup : str → Z → option (list ipaddr);
  oc_client : bool;
  oc_endpoint : Endpoint;
  oc_now : Z;
  oc_decided : Z;
  (** What other requests do to the cache while the endpoint answers. *)
  oc_meanwhile : verdicts → verdicts;
}.

Definition is_success (status : Z) : bool := (200 <=? status) && (status <? 300).

Definition carried_from (cfg : ForwardConfig) (hs : headers) : list (str * str) :=
  omap (fun name => (fun v => (name, v)) <$> header_str name hs) (fw_response_headers cfg).

Definition relay (status : Z) (hs : headers) (declared : option Z) (body : list chunk) : Reply :=
  {| rp_status := status;
     rp_headers := RELAYED_ON_REFUSAL ≫= (fun name => (fun v => (name, v)) <$> values name hs);
     rp_body := default [] (read_bounded declared body MAX_RESPONSE_BYTES) |}.

(** The subrequest, headers in the order they are added. *)
Definition subrequest (cfg : ForwardConfig) (v : Visit) (ip : option str) : headers :=
  [(bs "X-Forwarded-Method", fv_method v); (bs "X-Forwarded-Proto", bs "https"); (bs "X-Forwarded-Uri", target_of (fv_uri v))]
  ++ match fv_host v with Some h => [(bs "X-Forwarded-Host", h)] | None => [] end
  ++ match ip with Some ip => [(bs "X-Forwarded-For", ip)] | None => [] end
  ++ omap (fun name => (fun x => (name, x)) <$> header_str name (fv_headers v)) (names_of cfg).

Context (parse_url : str → option OutUrl).

(** The verdict, the cache, and the questions put: where, and with which headers. *)
Definition ask (o : Occasion) (cfg : ForwardConfig) (v : Visit) (ip : option str) (cache : verdicts) : Answer * verdicts * list (str * headers) :=
  let k := if fw_cache cfg =? 0 then None else Some (key cfg (names_of cfg) v ip) in
  match k ≫= fun k => cached (oc_now o) cfg k cache with
  | Some carried => (Admit carried, cache, [])
  | None =>
      if negb (is_ok (check_outbound parse_url (oc_lookup o) (oc_policy o) (fw_url cfg))) then (Refuse refusal, cache, [])
      else if negb (oc_client o) then (Refuse refusal, cache, [])
      else
        let put := [(fw_url cfg, subrequest cfg v ip)] in
        let cache := oc_meanwhile o cache in
        match oc_endpoint o with
        | Silent => (Refuse refusal, cache, put)
        | Spoke status hs declared body =>
            if is_success status
            then (Admit (carried_from cfg hs), remember_if (oc_decided o) cfg k (carried_from cfg hs) cache, put)
            else (Refuse (relay status hs declared body), cache, put)
        end
  end.

End Ask.

(** ** Asked over the tunnel *)

Definition MAX_ASKS_PER_CONNECTION : nat := 32.

Record AskAnswer : Type := { aa_status : Z; aa_headers : headers; aa_error : option str }.

(** The visitor's [Cookie] headers without Aperio's own cookies. *)
Definition without_aperio_cookies (hs : headers) : headers :=
  filter (fun kv => eq_ignore_case kv.1 (bs "cookie") = false) hs
  ++ omap (fun value => match to_str value with
                        | Some value =>
                            let kept := cookies_without_aperios value in
                            if str_eqb kept [] then None else Some (bs "cookie", kept)
                        | None => None
                        end) (values (bs "cookie") hs).

(** The headers a client is told to send. *)
Definition tunnel_question (cfg : ForwardConfig) (v : Visit) (ip : str) : headers :=
  [(bs "x-forwarded-method", fv_method v); (bs "x-forwarded-proto", bs "https"); (bs "x-forwarded-uri", target_of (fv_uri v));
   (bs "x-forwarded-for", ip)]
  ++ match fv_host v with Some h => [(bs "x-forwarded-host", h)] | None => [] end
  ++ omap (fun name => (fun x => (name, x)) <$> header_str name (fv_headers v)) (names_of cfg).

Definition status_from_u16 (s : Z) : Z := if (100 <=? s) && (s <? 1000) then s else 403.

Definition allowed_name (l : list str) (kv : str * str) : bool := existsb (fun allowed => eq_ignore_case allowed kv.1) l.

(** The verdict of an answer, and what is remembered of it; [built] is whether the HTTP
    library takes the relayed headers. *)
Definition verdict_of (built : headers → bool) (cfg : ForwardConfig) (a : AskAnswer) : Answer :=
  match aa_error a with
  | Some _ => Refuse refusal
  | None =>
      let status := status_from_u16 (aa_status a) in
      if is_success status then Admit (filter (fun kv => allowed_name (fw_response_headers cfg) kv = true) (aa_headers a))
      else
        let relayed := filter (fun kv => allowed_name RELAYED_ON_REFUSAL kv = true) (aa_headers a) in
        if built relayed then Refuse {| rp_status := status; rp_headers := relayed; rp_body := [] |} else Refuse refusal
  end.

(** Which connection is asked: the one the dispatch would pick. *)
Definition ask_pick {F Regex Tz : Type} (sites : list (Site F Regex Tz)) (st : route_state) (now : Z) (v : Visit) (path : str) (ip : ipaddr) :
    PickOutcome * route_state :=
  let affinity := if decide (lb_strategy st = Sticky) then cookie_value (fv_headers v) (bs "aperio_affinity") else None in
  let canary := if str_eqb (fv_method v) (bs "CONNECT") then None
                else (fun rule => (canary_service rule,
                                   side_for rule (canary_header rule ≫= fun name => header_str name (fv_headers v)) (Some ip)))
                     <$> canary_for sites (fv_host v) path in
  pick_proxy_client st now path (fv_host v) None affinity (Some ip) canary.

(** *** Waiting for a client *)

(** A visitor's task: whom it asked, for which method and key, whether the frame is sent,
    and its mailbox: nothing yet, an answer, or closed. *)
Record Waiter : Type := {
  wt_client : str;
  wt_cfg : ForwardConfig;
  wt_hash : str;
  wt_sent : bool;
  wt_mail : option (option AskAnswer);
}.

(** The map of pending asks, the tasks and the cache of verdicts; and, to speak about
    runs, the answers that reached a task and the admissions made of them. *)
Record ask_state : Type := {
  as_pending : list (str * str);
  as_waiters : list (str * Waiter);
  as_cache : verdicts;
  as_heard : list (str * str * AskAnswer);
  as_admitted : list (str * str * list (str * str) * Z);
}.

Definition with_pending (p : list (str * str)) (s : ask_state) : ask_state :=
  {| as_pending := p; as_waiters := as_waiters s; as_cache := as_cache s; as_heard := as_heard s; as_admitted := as_admitted s |}.
Definition with_waiters (l : list (str * Waiter)) (s : ask_state) : ask_state :=
  {| as_pending := as_pending s; as_waiters := l; as_cache := as_cache s; as_heard := as_heard s; as_admitted := as_admitted s |}.
Definition with_cache (c : verdicts) (s : ask_state) : ask_state :=
  {| as_pending := as_pending s; as_waiters := as_waiters s; as_cache := c; as_heard := as_heard s; as_admitted := as_admitted s |}.

Definition with_mail (m : option (option AskAnswer)) (w : Waiter) : Waiter :=
  {| wt_client := wt_client w; wt_cfg := wt_cfg w; wt_hash := wt_hash w; wt_sent := wt_sent w; wt_mail := m |}.

(** A verdict given to a visitor. *)
Record Decision : Type := { de_client : str; de_cfg : ForwardConfig; de_hash : str; de_now : Z; de_answer : Answer }.

Section Tunnel.
Context (sha256_hex : str → str) (built : headers → bool).

Definition open_asks (client : str) (s : ask_state) : nat := length (filter (fun e => e.2 = client) (as_pending s)).

Definition question_hash (cfg : ForwardConfig) (v : Visit) (ip : str) : str :=
  key sha256_hex cfg (names_of cfg)
    {| fv_method := fv_method v; fv_headers := without_aperio_cookies (fv_headers v); fv_uri := fv_uri v; fv_host := fv_host v |} (Some ip).

Definition tunnel_key (client hash : str) : str := client ++ NUL :: hash.

Definition ask_key (cfg : ForwardConfig) (client hash : str) : option str :=
  if fw_cache cfg =? 0 then None else Some (tunnel_key client hash).

Definition too_many : Reply := {| rp_status := 429; rp_headers := []; rp_body := bs "429 Too Many Requests" |}.

(** Up to the frame: [id] is fresh, [client] was picked. *)
Definition ask_open (id : str) (client : str) (cfg : ForwardConfig) (hash : str) (within_rate : bool) (now : Z) (s : ask_state) : ask_state * option Answer :=
  match ask_key cfg client hash ≫= fun k => cached now cfg k (as_cache s) with
  | Some carried => (s, Some (Admit carried))
  | None =>
      if negb within_rate then (s, Some (Refuse too_many))
      else if (MAX_ASKS_PER_CONNECTION <=? open_asks client s)%nat then (s, Some (Refuse refusal))
      else (with_pending (aset id client (as_pending s))
              (with_waiters (aset id {| wt_client := client; wt_cfg := cfg; wt_hash := hash; wt_sent := false; wt_mail := None |} (as_waiters s)) s), None)
  end.

Definition forget_ask (id : str) (s : ask_state) : ask_state :=
  with_pending (aremove id (as_pending s)) (with_waiters (aremove id (as_waiters s)) s).

(** The frame is handed to the connection, or the connection is gone. *)
Definition ask_sent (id : str) (ok : bool) (s : ask_state) : ask_state * option Answer :=
  match aget id (as_waiters s) with
  | Some w => if ok then (with_waiters (aset id {| wt_client := wt_client w; wt_cfg := wt_cfg w; wt_hash := wt_hash w; wt_sent := true; wt_mail := wt_mail w |} (as_waiters s)) s, None)
              else (forget_ask id s, Some (Refuse refusal))
  | None => (s, None)
  end.

(** The mailbox is read: once sent, when there is something in it. *)
Definition ask_take (id : str) (now : Z) (s : ask_state) : ask_state * option Answer :=
  match aget id (as_waiters s) with
  | Some w =>
      match wt_sent w, wt_mail w with
      | true, Some mail =>
          let s := with_waiters (aremove id (as_waiters s)) s in
          match mail with
          | None => (s, Some (Refuse refusal))
          | Some a =>
              match verdict_of built (wt_cfg w) a with
              | Admit carried =>
                  ({| as_pending := as_pending s; as_waiters := as_waiters s;
                      as_cache := remember_if now (wt_cfg w) (ask_key (wt_cfg w) (wt_client w) (wt_hash w)) carried (as_cache s);
                      as_heard := as_heard s; as_admitted := (wt_client w, wt_hash w, carried, now) :: as_admitted s |}, Some (Admit carried))
              | refused => (s, Some refused)
              end
          end
      | _, _ => (s, None)
      end
  | None => (s, None)
  end.

Definition ask_timeout (id : str) (s : ask_state) : ask_state * option Answer :=
  match aget id (as_waiters s) with
  | Some w => if wt_sent w then (forget_ask id s, Some (Refuse refusal)) else (s, None)
  | None => (s, None)
  end.

(** The visitor went away: its task is dropped where it waits. *)
Definition ask_leave (id : str) (s : ask_state) : ask_state := with_waiters (aremove id (as_waiters s)) s.

(** Delivered to a task that still waits, if there is one. *)
Definition deliver (id : str) (mail : option AskAnswer) (l : list (str * Waiter)) : list (str * Waiter) :=
  match aget id l with Some w => aset id (with_mail (Some mail) w) l | None => l end.

Definition resolve (client id : str) (a : AskAnswer) (s : ask_state) : ask_state :=
  match aget id (as_pending s) with
  | Some asked =>
      if str_eqb asked client then
        {| as_pending := aremove id (as_pending s); as_waiters := deliver id (Some a) (as_waiters s); as_cache := as_cache s;
           as_heard := (client, id, a) :: as_heard s; as_admitted := as_admitted s |}
      else s
  | None => s
  end.

Definition forget_client (client : str) (s : ask_state) : ask_state :=
  let dropped := filter (fun e => e.2 = client) (as_pending s) in
  with_pending (filter (fun e => e.2 ≠ client) (as_pending s))
    (with_waiters (foldr (fun e l => deliver e.1 None l) (as_waiters s) dropped) s).

(** ** Runs *)

Inductive Action : Type :=
| AOpen (id client : str) (cfg : ForwardConfig) (hash : str) (within_rate : bool) (now : Z)
| ASent (id : str) (ok : bool)
| ATake (id : str) (now : Z)
| ATimeout (id : str)
| ALeave (id : str)
| AAnswer (client id : str) (a : AskAnswer)
| AGone (client : str)
(** An admission of an endpoint the server asked itself. *)
| AServer (now : Z) (cfg : ForwardConfig) (text : str) (carried : list (str * str)).

Definition decision (client : str) (cfg : ForwardConfig) (hash : str) (now : Z) (r : ask_state * option Answer) : ask_state * option Decision :=
  (r.1, (fun a => {| de_client := client; de_cfg := cfg; de_hash := hash; de_now := now; de_answer := a |}) <$> r.2).

Definition by_waiter (id : str) (now : Z) (s : ask_state) (r : ask_state * option Answer) : ask_state * option Decision :=
  match aget id (as_waiters s) with
  | Some w => decision (wt_client w) (wt_cfg w) (wt_hash w) now r
  | None => (r.1, None)
  end.

Definition ask_exec (a : Action) (s : ask_state) : ask_state * option Decision :=
  match a with
  | AOpen id client cfg hash within_rate now => decision client cfg hash now (ask_open id client cfg hash within_rate now s)
  | ASent id ok => by_waiter id 0 s (ask_sent id ok s)
  | ATake id now => by_waiter id now s (ask_take id now s)
  | ATimeout id => by_waiter id 0 s (ask_timeout id s)
  | ALeave id => (ask_leave id s, None)
  | AAnswer client id answer => (resolve client id answer s, None)
  | AGone client => (forget_client client s, None)
  | AServer now cfg text carried => (with_cache (remember now cfg (sha256_hex text) carried (as_cache s)) s, None)
  end.

(** An identifier is a new UUID, and a hash is a hash. *)
Definition fair (a : Action) (s : ask_state) : Prop :=
  match a with
  | AOpen id _ _ hash _ _ => aget id (as_pending s) = None ∧ aget id (as_waiters s) = None ∧ ∃ text, hash = sha256_hex text
  | _ => True
  end.

Definition no_asks : ask_state := {| as_pending := []; as_waiters := []; as_cache := []; as_heard := []; as_admitted := [] |}.

Inductive ask_reach : ask_state → list Decision → Prop :=
| ask_start : ask_reach no_asks []
| ask_next s log a : ask_reach s log → fair a s → ask_reach (ask_exec a s).1 (option_list (ask_exec a s).2 ++ log).

End Tunnel.

(** ** What a key stands for *)

(** A question as the endpoint gets it: an absent header and an empty one are alike, and
    so are an absent host or address and a dash. *)
Definition question (cfg : ForwardConfig) (names : list str) (v : Visit) (ip : option str) : list str * list (str * str) :=
  ([fw_url cfg; default (bs "-") (fv_host v); fv_method v; target_of (fv_uri v); default (bs "-") ip],
   (fun name => (name, default [] (header_get name (fv_headers v)))) <$> names).

(** What the HTTP library lets into a request line, a header name and a header value. *)
Definition plain_question (q : list str * list (str * str)) : Prop :=
  Forall (fun f => NUL ∉ f) q.1 ∧ Forall (fun nv => (NUL ∉ nv.1) ∧ ("="%char ∉ nv.1) ∧ (NUL ∉ nv.2)) q.2.

Lemma key_text_join cfg names v ip :
  key_text cfg names v ip = join [NUL] ((question cfg names v ip).1 ++ ((fun nv => nv.1 ++ bs "=" ++ nv.2) <$> (question cfg names v ip).2)).
Proof.
  unfold key_text, question. cbn [fst snd]. rewrite <-list_fmap_compose. unfold compose. cbn [fst snd].
  assert (Hj : ∀ (l : list str) x, join [NUL] (x :: l) = x ++ (l ≫= fun y => [NUL] ++ y)).
  { induction l as [|y l IH]; intros x; [simpl; by rewrite app_nil_r|]. change (join [NUL] (x :: y :: l)) with (x ++ [NUL] ++ join [NUL] (y :: l)).
    rewrite IH. by rewrite bind_cons, !app_assoc. }
  cbn [app]. rewrite Hj, !bind_cons. rewrite list_fmap_bind. unfold compose. by rewrite <-!app_assoc.
Qed.

Lemma name_value_inj (a b : list (str * str)) :
  Forall (fun nv => "="%char ∉ nv.1) a → Forall (fun nv => "="%char ∉ nv.1) b →
  ((fun nv => nv.1 ++ bs "=" ++ nv.2) <$> a) = ((fun nv => nv.1 ++ bs "=" ++ nv.2) <$> b) → a = b.
Proof.
  revert b. induction a as [|[n x] a IH]; intros [|[n' x'] b] Ha Hb; try done. rewrite !fmap_cons. intros H. cbn [fst snd] in H.
  injection H as H1 H2. inversion Ha; inversion Hb; subst. cbn [fst] in *. f_equal; [|by apply IH].
  assert (Hs : split_once "="%char (n ++ bs "=" ++ x) = Some (n, x)) by (by apply split_once_Some).
  assert (Hs' : split_once "="%char (n' ++ bs "=" ++ x') = Some (n', x')) by (by apply split_once_Some).
  assert (Hx : split_once "="%char (n ++ bs "=" ++ x) = split_once "="%char (n' ++ bs "=" ++ x')) by (f_equal; exact H1). congruence.
Qed.

(** Everything the subrequest carries goes into the key: requests that share the hashed
    text put the same question. *)
Theorem key_covers_question cfg names v ip cfg' names' v' ip' :
  plain_question (question cfg names v ip) → plain_question (question cfg' names' v' ip') →
  key_text cfg names v ip = key_text cfg' names' v' ip' → question cfg names v ip = question cfg' names' v' ip'.
Proof.
  intros [H1 H2] [H1' H2']. rewrite !key_text_join. set (q := question cfg names v ip) in *. set (q' := question cfg' names' v' ip') in *. intros E.
  assert (Hsplit : ∀ r, Forall (fun f => NUL ∉ f) r.1 → Forall (fun nv => (NUL ∉ nv.1) ∧ ("="%char ∉ nv.1) ∧ (NUL ∉ nv.2)) r.2 → r.1 ≠ [] →
     split_on NUL (join [NUL] (r.1 ++ ((fun nv : str * str => nv.1 ++ bs "=" ++ nv.2) <$> r.2))) = r.1 ++ ((fun nv => nv.1 ++ bs "=" ++ nv.2) <$> r.2)).
  { intros [f hs] Hf Hh Hne. cbn [fst snd] in *. destruct f as [|x f]; [done|]. cbn [app]. rewrite split_join; [| |by intros ?%elem_of_nil].
    - f_equal. exact (list_fmap_id _).
    - change (x :: f ++ ?t) with ((x :: f) ++ t). apply Forall_app. split; [done|]. apply Forall_fmap. eapply Forall_impl; [exact Hh|].
      intros [n y] (Hn & _ & Hy). unfold compose. cbn [fst snd] in *. intros [?|[Hin|?]%elem_of_app]%elem_of_app; [done| |done].
      by apply list_elem_of_singleton in Hin. }
  apply (f_equal (split_on NUL)) in E. rewrite !Hsplit in E by done. apply app_inj_1 in E as [Ea Eb]; [|done].
  destruct q as [f hs], q' as [f' hs']. cbn [fst snd] in *. f_equal; [done|]. apply name_value_inj; [..|done]; eapply Forall_impl; try eassumption;
    by intros [n y] (_ & ? & _).
Qed.

(** ** What an admission rests on *)

Section AskFacts.
Context (sha256_hex : str → str) (parse_url : str → option OutUrl).

Lemma remember_get now cfg k carried cache k' e : aget k' (remember now cfg k carried cache) = Some e →
  (k' = k ∧ e = {| cv_headers := carried; cv_decided := now |}) ∨ (k' ≠ k ∧ ∃ e', (k', e') ∈ cache ∧ e = e').
Proof.
  unfold remember. destruct (decide (k = k')) as [<-|Hne]; [rewrite aget_aset_eq; intros [= <-]; by left|]. rewrite aget_aset_ne by done.
  intros H%aget_Some_elem. right. split; [done|]. exists e. split; [|done]. revert H. unfold make_room.
  destruct (_ <=? _)%nat; [|done]. destruct (_ <=? _)%nat; [by intros ?%elem_of_nil|]. by intros [_ ?]%list_elem_of_filter.
Qed.

(** An endpoint the server asks itself: a visitor is admitted because the endpoint said so
    now, to this question, with the headers the operator named and nothing else, or
    because a fresh verdict for the same key is remembered; it is asked only where the
    outbound policy lets the server call, and silence refuses. *)
Theorem forward_admission_earned o cfg v ip cache answer cache' put :
  ask sha256_hex parse_url o cfg v ip cache = (answer, cache', put) →
  (put = [] ∨ put = [(fw_url cfg, subrequest cfg v ip)] ∧ check_outbound parse_url (oc_lookup o) (oc_policy o) (fw_url cfg) = Ok tt) ∧
  match answer with
  | Admit carried =>
      (put = [] ∧ ∃ e, aget (key sha256_hex cfg (names_of cfg) v ip) cache = Some e ∧ carried = cv_headers e ∧ oc_now o - cv_decided e < fw_cache cfg)
      ∨ (put ≠ [] ∧ ∃ status hs declared body, oc_endpoint o = Spoke status hs declared body ∧ 200 <= status < 300
           ∧ ∀ n x, (n, x) ∈ carried ↔ n ∈ fw_response_headers cfg ∧ header_str n hs = Some x)
  | Refuse r => r = refusal ∨ ∃ status hs declared body, oc_endpoint o = Spoke status hs declared body ∧ ¬ (200 <= status < 300)
                  ∧ rp_status r = status ∧ len (rp_body r) <= MAX_RESPONSE_BYTES
  end.
Proof.
  unfold ask. destruct (_ ≫= _) as [carried|] eqn:Ek.
  { intros [= <- <- <-]. split; [by left|]. left. split; [done|]. apply bind_Some in Ek as (k & Hk & Hc). destruct (fw_cache cfg =? 0); [done|].
    injection Hk as <-. unfold cached in Hc. destruct (aget _ cache) as [e|]; [|done]. destruct (_ <? _) eqn:El; [|done]. injection Hc as <-.
    apply Z.ltb_lt in El. by exists e. }
  destruct (check_outbound _ _ _ _) as [[]|] eqn:Ec; cbn [is_ok negb]; [|intros [= <- <- <-]; by split; [left|left]].
  destruct (oc_client o); cbn [negb]; [|intros [= <- <- <-]; by split; [left|left]].
  destruct (oc_endpoint o) as [|status hs declared body] eqn:Ee; [intros [= <- <- <-]; by split; [right|left]|].
  unfold is_success. destruct (_ && _) eqn:Es.
  - intros [= <- <- <-]. split; [by right|]. right. split; [done|]. exists status, hs, declared, body. split; [done|].
    apply andb_true_iff in Es as [Hs1 Hs2]. apply Z.leb_le in Hs1. apply Z.ltb_lt in Hs2. split; [done|]. intros n x. unfold carried_from.
    rewrite list_elem_of_omap. split.
    + intros (n' & Hn & Hx). destruct (header_str n' hs) eqn:Eh; [|done]. simpl in Hx. by simplify_eq.
    + intros [Hn Hx]. exists n. by rewrite Hx.
  - intros [= <- <- <-]. split; [by right|]. right. exists status, hs, declared, body. split; [done|]. split.
    { intros [Hs1 Hs2]. apply andb_false_iff in Es as [Es|Es]; [apply Z.leb_gt in Es|apply Z.ltb_ge in Es]; lia. }
    split; [done|]. simpl. destruct (read_bounded _ _ _) as [out|] eqn:Er; simpl; [|done].
    unfold read_bounded in Er. case_match; [done|]. destruct (read_chunks _ _ _) as [buf|] eqn:Eb; [|done]. destruct (utf8_valid buf); [|done].
    injection Er as <-. by apply (read_chunks_bounded MAX_RESPONSE_BYTES body [] buf).
Qed.

End AskFacts.

(** ** Asks over a tunnel *)

Section TunnelFacts.
Context (sha256_hex : str → str) (built : headers → bool).
Hypothesis hex_plain : ∀ t, NUL ∉ sha256_hex t.

Definition is_hash (h : str) : Prop := ∃ text, h = sha256_hex text.

Lemma tunnel_key_inj client h client' h' : is_hash h → is_hash h' → tunnel_key client h = tunnel_key client' h' → client = client' ∧ h = h'.
Proof using hex_plain.
  intros [t ->] [t' ->] E. unfold tunnel_key in E.
  assert (Hr : ∀ c t, split_once NUL (rev (c ++ NUL :: sha256_hex t)) = Some (rev (sha256_hex t), rev c)).
  { intros c u. apply split_once_Some. rewrite rev_app_distr. simpl. rewrite <-app_assoc. split; [done|].
    rewrite list_elem_of_In, <-in_rev, <-list_elem_of_In. apply hex_plain. }
  apply (f_equal (@rev ascii)), (f_equal (split_once NUL)) in E. rewrite !Hr in E. injection E as E1 E2.
  apply (f_equal (@rev ascii)) in E1, E2. rewrite !rev_involutive in E1, E2. done.
Qed.

(** What a verdict came from: an answer of the connection that was asked. *)
Definition vouched (s : ask_state) (client : str) (cfg : ForwardConfig) (carried : list (str * str)) : Prop :=
  ∃ id a, (client, id, a) ∈ as_heard s ∧ verdict_of built cfg a = Admit carried.

Record ask_ok (s : ask_state) : Prop := {
  ok_pending : NoDup (keys (as_pending s));
  ok_waiters : NoDup (keys (as_waiters s));
  ok_bounded client : (open_asks client s <= MAX_ASKS_PER_CONNECTION)%nat;
  ok_client id c w : aget id (as_pending s) = Some c → aget id (as_waiters s) = Some w → wt_client w = c;
  ok_mail id w a : aget id (as_waiters s) = Some w → wt_mail w = Some (Some a) → (wt_client w, id, a) ∈ as_heard s;
  ok_hash id w : aget id (as_waiters s) = Some w → is_hash (wt_hash w);
  ok_cache client h e : is_hash h → (tunnel_key client h, e) ∈ as_cache s → (client, h, cv_headers e, cv_decided e) ∈ as_admitted s;
  ok_admitted client h carried t : (client, h, carried, t) ∈ as_admitted s → ∃ cfg, vouched s client cfg carried;
}.

Lemma start_ok : ask_ok no_asks.
Proof using Type.
  split; [apply NoDup_nil_2|apply NoDup_nil_2|intros; apply Nat.le_0_l|done..| |]; cbn; [by intros ??? _ ?%elem_of_nil|by intros ???? ?%elem_of_nil].
Qed.

(** Tasks and pending asks only go, mailboxes aside; nothing else changes. *)
Lemma shrink_ok s p l : ask_ok s → sublist p (as_pending s) → NoDup (keys l) →
  (∀ id w, aget id l = Some w → ∃ w', aget id (as_waiters s) = Some w' ∧ wt_client w = wt_client w' ∧ wt_hash w = wt_hash w'
      ∧ (wt_mail w = wt_mail w' ∨ wt_mail w = Some None)) →
  ask_ok (with_pending p (with_waiters l s)).
Proof using Type.
  intros [Hp Hw Hb Hc Hm Hh Hca Had] Hs Hn Hl. split; simpl; [|done| | | | |done|done].
  - eapply sublist_NoDup; [exact Hp|]. by apply sublist_map.
  - intros client. etrans; [|apply (Hb client)]. unfold open_asks. simpl. by apply sublist_length, sublist_filters.
  - intros id c w H1 H2. apply Hl in H2 as (w' & Hw' & -> & _). apply (Hc id); [|done]. apply aget_elem; [done|].
    apply aget_Some_elem in H1. by eapply elem_of_sublist.
  - intros id w a H1 H2. apply Hl in H1 as (w' & Hw' & -> & _ & [Hq|Hq]); [|congruence]. apply Hm; congruence.
  - intros id w H1. apply Hl in H1 as (w' & Hw' & _ & -> & _). by eapply Hh.
Qed.

Lemma waiter_removed id s id' w : NoDup (keys (as_waiters s)) → aget id' (aremove id (as_waiters s)) = Some w →
  ∃ w', aget id' (as_waiters s) = Some w' ∧ wt_client w = wt_client w' ∧ wt_hash w = wt_hash w' ∧ (wt_mail w = wt_mail w' ∨ wt_mail w = Some None).
Proof using Type.
  intros Hn. destruct (decide (id = id')) as [<-|Hne]; [by rewrite aget_aremove_eq|]. rewrite aget_aremove_ne by done. intros Hw. exists w. auto.
Qed.

Lemma forget_ask_ok id s : ask_ok s → ask_ok (forget_ask id s).
Proof using Type.
  intros Hs. apply shrink_ok; [done|apply aremove_sublist|apply NoDup_aremove, Hs|]. intros id' w. apply waiter_removed, Hs.
Qed.

Lemma leave_ok id s : ask_ok s → ask_ok (ask_leave id s).
Proof using Type.
  intros Hs. destruct s as [p l c h a]. apply (shrink_ok _ p (aremove id l) Hs); [done|apply NoDup_aremove, Hs|]. intros id' w. exact (waiter_removed id _ id' w (ok_waiters _ Hs)).
Qed.

(** Replacing a task by one that waits alike. *)
Lemma replace_waiter_ok id s w w' : ask_ok s → aget id (as_waiters s) = Some w → wt_client w' = wt_client w → wt_hash w' = wt_hash w →
  (wt_mail w' = wt_mail w ∨ wt_mail w' = Some None) → ask_ok (with_waiters (aset id w' (as_waiters s)) s).
Proof using Type.
  intros Hs Hg H1 H2 H3. destruct s as [p l c h a]. apply (shrink_ok _ p (aset id w' l) Hs); [done|apply NoDup_aset, Hs|]. intros id' x.
  simpl in *. destruct (decide (id = id')) as [<-|Hne]; [rewrite aget_aset_eq; intros [= <-]; by exists w|]. rewrite aget_aset_ne by done. intros Hx. exists x. auto.
Qed.

Lemma open_ok id client cfg hash rate now s : ask_ok s → aget id (as_pending s) = None → aget id (as_waiters s) = None → is_hash hash →
  ask_ok (ask_open id client cfg hash rate now s).1.
Proof using Type.
  intros Hs Hp0 Hw0 Hh. unfold ask_open. destruct (_ ≫= _); [done|]. destruct rate; cbn [negb]; [|done]. destruct (_ <=? _)%nat eqn:El; [done|].
  apply Nat.leb_gt in El. cbn [fst]. destruct Hs as [Hp Hw Hb Hc Hm Hha Hca Had]. split; simpl; [by apply NoDup_aset|by apply NoDup_aset| | | | |done|done].
  - intros c. unfold open_asks in *. simpl. rewrite aset_fresh by done. rewrite filter_app, length_app, filter_cons, filter_nil. specialize (Hb c).
    case_decide as Hcc; simpl in *; [subst c|]; lia.
  - intros id' c w. destruct (decide (id = id')) as [<-|Hne]; [rewrite !aget_aset_eq; by intros [= <-] [= <-]|]. rewrite !aget_aset_ne by done. apply Hc.
  - intros id' w a. destruct (decide (id = id')) as [<-|Hne]; [rewrite !aget_aset_eq; by intros [= <-]|]. rewrite !aget_aset_ne by done. apply Hm.
  - intros id' w. destruct (decide (id = id')) as [<-|Hne]; [rewrite !aget_aset_eq; by intros [= <-]|]. rewrite !aget_aset_ne by done. apply Hha.
Qed.

Lemma deliver_get id mail l id' w : aget id' (deliver id mail l) = Some w →
  ∃ w', aget id' l = Some w' ∧ wt_client w = wt_client w' ∧ wt_hash w = wt_hash w' ∧ (wt_mail w = wt_mail w' ∨ id' = id ∧ wt_mail w = Some mail).
Proof using Type.
  unfold deliver. destruct (aget id l) as [x|] eqn:Ex; [|intros H; exists w; auto].
  destruct (decide (id = id')) as [<-|Hne]; [rewrite aget_aset_eq; intros [= <-]; exists x; split_and!; [done..|by right]|]. rewrite aget_aset_ne by done.
  intros H. exists w. auto.
Qed.

Lemma deliver_NoDup id mail l : NoDup (keys l) → NoDup (keys (deliver id mail l)).
Proof using Type. unfold deliver. destruct (aget id l); [apply NoDup_aset|done]. Qed.

Lemma resolve_ok client id a s : ask_ok s → ask_ok (resolve client id a s).
Proof using Type.
  intros Hs. unfold resolve. destruct (aget id (as_pending s)) as [asked|] eqn:Ep; [|done]. destruct (str_eqb asked client) eqn:Ec; [|done].
  apply str_eqb_eq in Ec as ->. pose proof (ok_client _ Hs id client) as Hcl. destruct Hs as [Hp Hw Hb Hc Hm Hha Hca Had]. split; simpl; [by apply NoDup_aremove|by apply deliver_NoDup| | | | |done|].
  - intros c. etrans; [|apply (Hb c)]. unfold open_asks. simpl. apply sublist_length, sublist_filters, aremove_sublist.
  - intros id' c w H1 (w' & Hw' & -> & _)%deliver_get. apply (Hc id'); [|done]. destruct (decide (id = id')) as [<-|Hne]; [by rewrite aget_aremove_eq in H1|].
    by rewrite aget_aremove_ne in H1.
  - intros id' w b (w' & Hw' & -> & _ & [Hq|[-> Hq]])%deliver_get Hb'.
    + right. apply Hm; congruence.
    + rewrite Hq in Hb'. injection Hb' as <-. rewrite (Hcl w' Ep Hw'). by left.
  - intros id' w (w' & Hw' & _ & -> & _)%deliver_get. by eapply Hha.
  - intros c h carried t Hin. destruct (Had _ _ _ _ Hin) as (cfg & i & x & Hx & Hv). exists cfg, i, x. split; [by right|done].
Qed.

Lemma gone_ok client s : ask_ok s → ask_ok (forget_client client s).
Proof using Type.
  intros Hs. apply shrink_ok; [done|apply sublist_filter| |].
  - induction (filter _ _) as [|e l IH]; simpl; [apply Hs|by apply deliver_NoDup].
  - induction (filter _ _) as [|e l IH]; simpl; [intros id w Hw; exists w; auto|]. intros id w (w' & Hw' & -> & -> & Hq)%deliver_get.
    apply IH in Hw' as (w2 & H2 & -> & -> & H3). exists w2. split_and!; [done..|]. destruct Hq as [->|[_ ->]]; auto.
Qed.

Lemma entry_of_aset {V} (k : str) (x : V) l e : e ∈ aset k x l → e = (k, x) ∨ e ∈ l.
Proof using Type.
  intros H. assert (HF : Forall (fun e => e = (k, x) ∨ e ∈ l) (aset k x l)) by (apply Forall_aset; [apply Forall_forall; auto|by left]).
  rewrite Forall_forall in HF. by apply HF.
Qed.

(** A verdict that is remembered is one of those admitted. *)
Lemma remember_ask_ok now cfg k carried s adm :
  ask_ok s → (∀ client h, is_hash h → k = tunnel_key client h → (client, h, carried, now) ∈ adm) →
  (∀ x, x ∈ as_admitted s → x ∈ adm) → (∀ client h c t, (client, h, c, t) ∈ adm → ∃ cfg, vouched s client cfg c) →
  ask_ok {| as_pending := as_pending s; as_waiters := as_waiters s; as_cache := remember now cfg k carried (as_cache s); as_heard := as_heard s; as_admitted := adm |}.
Proof using Type.
  intros [Hp Hw Hb Hc Hm Hh Hca Had] Hk Hadm Hv. split; simpl; [done..| |done]. intros client h e Hhash Hin.
  unfold remember in Hin. apply entry_of_aset in Hin as [[= E1 ->]|Hin]; simpl; [by apply Hk|]. apply Hadm, Hca; [done|].
  revert Hin. unfold make_room. destruct (_ <=? _)%nat; [|done]. destruct (_ <=? _)%nat; [by intros ?%elem_of_nil|]. by intros [_ ?]%list_elem_of_filter.
Qed.

Lemma take_ok id now s : ask_ok s → ask_ok (ask_take built id now s).1.
Proof using hex_plain.
  intros Hs. unfold ask_take. destruct (aget id (as_waiters s)) as [w|] eqn:Ew; [|done]. destruct (wt_sent w); [|done].
  destruct (wt_mail w) as [[a|]|] eqn:Em; [| |done]; [|by apply leave_ok]. destruct (verdict_of built (wt_cfg w) a) as [carried|] eqn:Ev; [|by apply leave_ok].
  cbn [fst]. pose proof (leave_ok id s Hs) as Hl. pose proof (ok_mail _ Hs _ _ _ Ew Em) as Hheard. pose proof (ok_hash _ Hs _ _ Ew) as Hh.
  assert (Hadm : ∀ client h c t, (client, h, c, t) ∈ (wt_client w, wt_hash w, carried, now) :: as_admitted s → ∃ cfg, vouched (ask_leave id s) client cfg c).
  { intros client h c t [[= -> -> -> ->]|Hin]%elem_of_cons; [by exists (wt_cfg w), id, a|]. by apply (ok_admitted _ Hs) in Hin. }
  unfold remember_if, ask_key. destruct (fw_cache (wt_cfg w) =? 0).
  - destruct Hl as [Hp Hw Hb Hc Hm Hha Hca Had]. split; simpl; [done..| |exact Hadm]. intros client h e H1 H2. right. by apply Hca.
  - apply (remember_ask_ok _ _ _ _ (ask_leave id s)); [done| |by right|exact Hadm]. intros client h H1 (-> & ->)%tunnel_key_inj; [by left|done..].
Qed.

Lemma ask_exec_ok a s : ask_ok s → fair sha256_hex a s → ask_ok (ask_exec sha256_hex built a s).1.
Proof using hex_plain.
  intros Hs Hf.
  assert (Hby : ∀ id now r, ask_ok r.1 → ask_ok (by_waiter id now s r).1).
  { intros id now r Hr. unfold by_waiter. by destruct (aget id (as_waiters s)). }
  destruct a; cbn [ask_exec].
  - destruct Hf as (H1 & H2 & H3). by apply open_ok.
  - apply Hby. unfold ask_sent. destruct (aget id (as_waiters s)) as [w|] eqn:Ew; [|done]. destruct ok; [|by apply forget_ask_ok].
    cbn [fst]. by eapply replace_waiter_ok; [..|left].
  - by apply Hby, take_ok.
  - apply Hby. unfold ask_timeout. destruct (aget id (as_waiters s)) as [w|]; [|done]. destruct (wt_sent w); [by apply forget_ask_ok|done].
  - by apply leave_ok.
  - by apply resolve_ok.
  - by apply gone_ok.
  - apply (remember_ask_ok _ _ _ _ s); [done| |done|apply (ok_admitted _ Hs)]. intros client h _ E. exfalso. apply (hex_plain text). rewrite E.
    unfold tunnel_key. apply elem_of_app. right. by left.
Qed.

(** What an admission rests on: an answer the asked connection gave to this very ask, or
    one it gave before to the same question, still fresh. *)
Definition justified (s : ask_state) (d : Decision) : Prop :=
  match de_answer d with
  | Refuse _ => True
  | Admit carried =>
      vouched s (de_client d) (de_cfg d) carried
      ∨ ∃ t, (de_client d, de_hash d, carried, t) ∈ as_admitted s ∧ de_now d - t < fw_cache (de_cfg d) ∧ ∃ cfg, vouched s (de_client d) cfg carried
  end.

(** Nothing that was heard or admitted is forgotten. *)
Definition remembers (s s' : ask_state) : Prop :=
  (∀ x, x ∈ as_heard s → x ∈ as_heard s') ∧ (∀ x, x ∈ as_admitted s → x ∈ as_admitted s').

Lemma justified_later s s' d : remembers s s' → justified s d → justified s' d.
Proof using Type.
  intros [Hh Ha]. unfold justified. destruct (de_answer d) as [carried|]; [|done].
  assert (Hv : ∀ c cfg x, vouched s c cfg x → vouched s' c cfg x) by (intros c cfg x (id & a & Hin & Hx); exists id, a; auto).
  intros [H|(t & H1 & H2 & cfg & H3)]; [left; by apply Hv|right]. exists t. split_and!; [by apply Ha|done|]. exists cfg. by apply Hv.
Qed.

Lemma exec_remembers a s : remembers s (ask_exec sha256_hex built a s).1.
Proof using Type.
  assert (Hr : remembers s s) by (by split). assert (Hby : ∀ id now r, remembers s r.1 → remembers s (by_waiter id now s r).1).
  { intros id now r Hx. unfold by_waiter. by destruct (aget id (as_waiters s)). }
  destruct a; cbn [ask_exec]; [|apply Hby..|done| |done|done].
  - unfold ask_open. destruct (_ ≫= _); [done|]. destruct within_rate; [|done]. cbn [negb]. by destruct (_ <=? _)%nat.
  - unfold ask_sent. destruct (aget id (as_waiters s)); [|done]. by destruct ok.
  - unfold ask_take. destruct (aget id (as_waiters s)) as [w|]; [|done]. destruct (wt_sent w); [|done]. destruct (wt_mail w) as [[x|]|]; [|done..].
    destruct (verdict_of _ _ _); [|done]. split; simpl; [done|by right].
  - unfold ask_timeout. destruct (aget id (as_waiters s)) as [w|]; [|done]. by destruct (wt_sent w).
  - unfold resolve. destruct (aget id (as_pending s)) as [asked|]; [|done]. destruct (str_eqb asked client); [|done]. split; simpl; [by right|done].
Qed.

Lemma exec_justified a s d : ask_ok s → fair sha256_hex a s → (ask_exec sha256_hex built a s).2 = Some d → justified (ask_exec sha256_hex built a s).1 d.
Proof using hex_plain.
  intros Hs Hf.
  assert (Hby : ∀ id now r, (by_waiter id now s r).2 = Some d → ∃ w x, aget id (as_waiters s) = Some w ∧ r.2 = Some x
            ∧ d = {| de_client := wt_client w; de_cfg := wt_cfg w; de_hash := wt_hash w; de_now := now; de_answer := x |}).
  { intros id now r. unfold by_waiter. destruct (aget id (as_waiters s)) as [w|]; [|done]. cbn. destruct r.2 as [x|]; [|done]. intros [= <-]. by exists w, x. }
  destruct a; cbn [ask_exec]; [|intros H; apply Hby in H as (w & x & Hw & Hx & ->)..|done|done|done|done].
  - unfold ask_open, decision. destruct (_ ≫= _) as [carried|] eqn:Ec.
    + cbn. intros [= <-]. right. cbn. apply bind_Some in Ec as (k & Hk & Hc). unfold ask_key in Hk. destruct (fw_cache cfg =? 0); [done|]. injection Hk as <-.
      unfold cached in Hc. destruct (aget _ _) as [e|] eqn:Ea; [|done]. destruct (_ <? _) eqn:El; [|done]. injection Hc as <-. apply Z.ltb_lt in El.
      destruct Hf as (_ & _ & Hh). apply aget_Some_elem, (ok_cache _ Hs _ _ _ Hh) in Ea. exists (cv_decided e). split_and!; [done..|]. by apply (ok_admitted _ Hs) in Ea.
    + destruct within_rate; cbn [negb]; [|by intros [= <-]]. destruct (_ <=? _)%nat; by intros [= <-].
  - revert Hx. unfold ask_sent. rewrite Hw. destruct ok; by intros [= <-].
  - revert Hx. unfold by_waiter. rewrite Hw. unfold ask_take. rewrite Hw. destruct (wt_sent w); [|done]. destruct (wt_mail w) as [[b|]|] eqn:Em; [|by intros [= <-]|done].
    destruct (verdict_of built (wt_cfg w) b) as [carried|r] eqn:Ev; intros [= <-]; [|done]. left. exists id, b. split; [|done]. by apply (ok_mail _ Hs).
  - revert Hx. unfold ask_timeout. rewrite Hw. destruct (wt_sent w); by intros [= <-].
Qed.

Lemma reach_ok s log : ask_reach sha256_hex built s log → ask_ok s ∧ Forall (justified s) log.
Proof using hex_plain.
  induction 1 as [|s log a _ [IH1 IH2] Hf]; [split; [apply start_ok|constructor]|]. split; [by apply ask_exec_ok|]. apply Forall_app. split.
  - destruct (ask_exec _ _ a s).2 as [d|] eqn:Ed; [|constructor]. apply Forall_singleton. by apply exec_justified.
  - eapply Forall_impl; [exact IH2|]. intros d. apply justified_later, exec_remembers.
Qed.

(** Whatever the order of asks, answers, timeouts, departures and disconnections, a visitor
    is admitted over a tunnel only on the word of the connection its own request would be
    served by, given to this ask or, within the window, to the same question; and no
    connection is ever asked more than thirty-two questions at a time. *)
Theorem tunnel_admission_earned s log : ask_reach sha256_hex built s log →
  Forall (justified s) log ∧ ∀ client, (open_asks client s <= MAX_ASKS_PER_CONNECTION)%nat.
Proof using hex_plain. intros [Hs Hl]%reach_ok. split; [done|]. intros client. by apply ok_bounded. Qed.

End TunnelFacts.

(** ** What a client gets to see *)

Lemma sent_cookie name hs x : eq_ignore_case name (bs "cookie") = true → header_str name (without_aperio_cookies hs) = Some x →
  ∃ value, x = cookies_without_aperios value.
Proof.
  intros Hn%eq_ignore_case_spec. unfold header_str. destruct (header_get _ _) as [y|] eqn:Eg; [|done]. unfold to_str. destruct (forallb _ y); [|done]. intros [= <-].
  unfold header_get in Eg. apply fmap_Some in Eg as ([k y'] & Hf & ->). apply List.find_some in Hf as [Hin He]. apply list_elem_of_In in Hin.
  cbn [fst snd] in *. apply eq_ignore_case_spec in He. unfold without_aperio_cookies in Hin. apply elem_of_app in Hin as [[Hc _]%list_elem_of_filter|Hin].
  - cbn [fst] in Hc. apply not_true_iff_false in Hc. exfalso. apply Hc, eq_ignore_case_spec. congruence.
  - apply list_elem_of_omap in Hin as (value & _ & Hv). destruct (to_str value) as [v|]; [|done]. cbv zeta in Hv. destruct (str_eqb _ []); [done|]. injection Hv as _ <-.
    by exists v.
Qed.

(** The question a client carries to its endpoint holds none of Aperio's own cookies,
    whatever the visitor sent and whatever header names the method lists. *)
Theorem question_keeps_credentials cfg v ip k x want :
  (k, x) ∈ tunnel_question cfg {| fv_method := fv_method v; fv_headers := without_aperio_cookies (fv_headers v); fv_uri := fv_uri v; fv_host := fv_host v |} ip →
  eq_ignore_case k (bs "cookie") = true → want ∈ APERIO_COOKIES → read_cookie want (split_on ";"%char x) = None.
Proof.
  intros Hin Hk Hw. unfold tunnel_question in Hin. cbn [fv_headers fv_method fv_uri fv_host] in Hin.
  apply elem_of_app in Hin as [Hin|Hin].
  { rewrite !elem_of_cons, elem_of_nil in Hin. destruct Hin as [[= -> _]|[[= -> _]|[[= -> _]|[[= -> _]|[]]]]]; vm_compute in Hk; discriminate. }
  apply elem_of_app in Hin as [Hin|Hin].
  { destruct (fv_host v); [|by apply elem_of_nil in Hin]. apply list_elem_of_singleton in Hin as [= -> _]. vm_compute in Hk. discriminate. }
  apply list_elem_of_omap in Hin as (name & _ & Hx). destruct (header_str name _) as [y|] eqn:Eh; [|done]. injection Hx as -> ->.
  apply sent_cookie in Eh as [value ->]; [|done]. rewrite cookies_strip_exact. by rewrite bool_decide_eq_true_2.
Qed.

(** ** Witnesses and cases *)

Module ForwardSamples.

Definition cfg0 : ForwardConfig :=
  {| fw_url := bs "http://10.0.0.1/check"; fw_request_headers := []; fw_response_headers := [bs "X-Auth-User"]; fw_timeout := 0; fw_cache := 100; fw_via_client := true |}.
Definition visit : Visit :=
  {| fv_method := bs "GET"; fv_headers := [(bs "cookie", bs "aperio_session=s; a=1")]; fv_uri := {| u_authority := []; u_path := bs "/x"; u_query := None |};
     fv_host := Some (bs "acme.com") |}.
Definition hash0 (_ : str) : str := bs "h".

Lemma hash0_plain : ∀ t, NUL ∉ hash0 t.
Proof. intros t. apply (bool_decide_unpack (NUL ∉ bs "h")). vm_compute. exact I. Qed.

Lemma key_covers_question_witness : question cfg0 [bs "cookie"] visit None = question cfg0 [bs "cookie"] visit None.
Proof.
  assert (H : plain_question (question cfg0 [bs "cookie"] visit None)).
  { apply (bool_decide_unpack (Forall _ _ ∧ Forall _ _)). vm_compute. exact I. }
  exact (key_covers_question _ _ _ _ _ _ _ _ H H eq_refl).
Defined.

Definition sample_parse (_ : str) : option OutUrl := Some {| ou_scheme := bs "http"; ou_host := Some (bs "auth.acme.com"); ou_port := 80 |}.
Definition occasion : Occasion :=
  {| oc_policy := OutboundSamples.private_blocked; oc_lookup _ _ := Some [V4 134744072]; oc_client := true;
     oc_endpoint := Spoke 204 [(bs "x-auth-user", bs "ann"); (bs "x-admin", bs "1")] None [BodyEnd]; oc_now := 0; oc_decided := 0; oc_meanwhile c := c |}.

Lemma forward_admission_earned_witness :
  ∃ put, (ask hash0 sample_parse occasion cfg0 visit None []).1.1 = Admit [(bs "X-Auth-User", bs "ann")]
    ∧ check_outbound sample_parse (oc_lookup occasion) (oc_policy occasion) (fw_url cfg0) = Ok tt ∧ put = [(fw_url cfg0, subrequest cfg0 visit None)].
Proof.
  destruct (ask hash0 sample_parse occasion cfg0 visit None []) as [[answer cache'] put] eqn:E. pose proof E as E'. vm_compute in E'. exists put.
  destruct (forward_admission_earned hash0 sample_parse occasion cfg0 visit None [] answer cache' put E) as [[Hp|[Hp Hc]] _].
  - rewrite Hp in E'. discriminate.
  - split; [|split; [exact Hc|exact Hp]]. injection E' as <- _ _. vm_compute. reflexivity.
Defined.

Definition said : AskAnswer := {| aa_status := 200; aa_headers := [(bs "x-auth-user", bs "ann"); (bs "x-admin", bs "1")]; aa_error := None |}.
Definition opening (id : str) (now : Z) : Action := AOpen id (bs "c1") cfg0 (bs "h") true now.
Definition steps : list Action :=
  [opening (bs "i1") 0; AAnswer (bs "c2") (bs "i1") said; ASent (bs "i1") true; AAnswer (bs "c1") (bs "i1") said; ATake (bs "i1") 5; opening (bs "i2") 90].

Definition run_asks (l : list Action) : ask_state * list Decision :=
  fold_left (fun r a => ((ask_exec hash0 (fun _ => true) a r.1).1, option_list (ask_exec hash0 (fun _ => true) a r.1).2 ++ r.2)) l (no_asks, []).

Lemma steps_reach : ask_reach hash0 (fun _ => true) (run_asks steps).1 (run_asks steps).2.
Proof.
  unfold run_asks, steps. cbn [fold_left fst snd].
  do 6 (apply ask_next; [|first [exact I|split; [vm_compute; reflexivity|split; [vm_compute; reflexivity|exists []; reflexivity]]]]). apply ask_start.
Qed.

Lemma tunnel_admission_earned_witness :
  Forall (justified (fun _ => true) (run_asks steps).1) (run_asks steps).2
  ∧ de_answer <$> (run_asks steps).2 = [Admit [(bs "x-auth-user", bs "ann")]; Admit [(bs "x-auth-user", bs "ann")]].
Proof.
  split; [|vm_compute; reflexivity]. exact (proj1 (tunnel_admission_earned hash0 (fun _ => true) hash0_plain _ _ steps_reach)).
Defined.

Lemma question_keeps_credentials_witness : read_cookie (bs "aperio_session") (split_on ";"%char (bs "a=1")) = None.
Proof.
  apply (question_keeps_credentials cfg0 visit (bs "1.2.3.4") (bs "cookie") (bs "a=1") (bs "aperio_session")).
  - apply (bool_decide_unpack (_ ∈ _)). vm_compute. exact I.
  - vm_compute. reflexivity.
  - apply (bool_decide_unpack (_ ∈ _)). vm_compute. exact I.
Defined.

(** Visitors that leave while their question is out keep its place for as long as the
    client does not answer: with nobody waiting the next visitor is refused. *)
Definition left_behind : list Action :=
  seq 0 32 ≫= fun n => let id := show_uint (Z.of_nat n) in [opening id 0; ASent id true; ALeave id].

Example left_visitors_hold_slots :
  as_waiters (run_asks left_behind).1 = [] ∧ (ask_exec hash0 (fun _ => true) (opening (bs "next") 0) (run_asks left_behind).1).2
    = Some {| de_client := bs "c1"; de_cfg := cfg0; de_hash := bs "h"; de_now := 0; de_answer := Refuse refusal |}.
Proof. vm_compute. auto. Qed.

(** What a verdict carries is not part of its key: a method whose list of response headers
    was shortened still delivers what the longer list let through. *)
Example shortened_list_still_delivers :
  let narrow := {| fw_url := fw_url cfg0; fw_request_headers := []; fw_response_headers := []; fw_timeout := 0; fw_cache := 100; fw_via_client := true |} in
  let cache := (ask hash0 sample_parse occasion cfg0 visit None []).1.2 in
  (ask hash0 sample_parse occasion narrow visit None cache).1.1 = Admit [(bs "X-Auth-User", bs "ann")]
  ∧ key_text narrow (names_of narrow) visit None = key_text cfg0 (names_of cfg0) visit None.
Proof. vm_compute. auto. Qed.

End ForwardSamples.
