(* ===== verification/Webhooks.v ===== *)
(** Webhooks: their records and the log of their deliveries
    ([aperio-server/src/store/webhooks.rs]), the events of an organization that reach
    them ([state.rs], [emit_event_in]) and the handlers that manage them and page the
    audit log ([api/webhooks.rs]).

    JSON is a tree; its printer, the HMAC, the resolver and the URL parser are arguments,
    and so is what each attempt at a receiver meets. The caller's organization is an
    argument of a handler, whose route admits its callers. *)

From S2P Require Import Prelude Utf8 Binds IpNet ClientIp VisitorAuth Rows AuditChain Outbound.

(** ** Records *)

Inductive WebhookFormat : Type := Generic | Slack | Discord | Teams.

#[export] Instance WebhookFormat_eq : EqDecision WebhookFormat.
Proof. solve_decision. Defined.

Definition parse_format (raw : str) : option WebhookFormat :=
  let t := lower (trim raw) in
  if str_eqb t [] || str_eqb t (bs "generic") then Some Generic
  else if str_eqb t (bs "slack") then Some Slack
  else if str_eqb t (bs "discord") then Some Discord
  else if str_eqb t (bs "teams") then Some Teams
  else None.

Definition format_str (f : WebhookFormat) : str :=
  match f with Generic => bs "generic" | Slack => bs "slack" | Discord => bs "discord" | Teams => bs "teams" end.

Record Webhook : Type := {
  wh_id : str;
  wh_name : str;
  wh_url : str;
  wh_events : list str;
  wh_enabled : bool;
  wh_created_at : Z;
  wh_format : WebhookFormat;
  wh_secret : option str;
  wh_org_id : option str;
}.

Definition subscribes_to (w : Webhook) (event : str) : bool :=
  bool_decide (wh_events w = []) || existsb (fun e => str_eqb e (bs "*") || str_eqb e event) (wh_events w).

Definition webhook_create (ok : bool) (hook : Webhook) (s : Rows Webhook) : option Webhook * Rows Webhook :=
  match commit_rows ok (fun l => (hook, l ++ [hook])) s with
  | (Ok h, s') => (Some h, s')
  | (Err _, s') => (None, s')
  end.

Definition webhook_delete (ok : bool) (id : str) (s : Rows Webhook) : result unit NotWritten * Rows Webhook :=
  match find_row wh_id id (mem s) with
  | None => (Err NoSuchRecord, s)
  | Some _ => commit_rows ok (fun l => (tt, remove_row wh_id id l)) s
  end.

Definition webhook_import (ok : bool) (hooks : list Webhook) (s : Rows Webhook) : result nat NotWritten * Rows Webhook := import_rows ok hooks s.

Definition subscribers (s : Rows Webhook) (event : str) : list Webhook :=
  filter (fun w => wh_enabled w && subscribes_to w event = true) (mem s).

(** ** The delivery log *)

Record DeliveryRow : Type := {
  dl_id : str;
  dl_webhook_id : str;
  dl_webhook_name : str;
  dl_org_id : option str;
  dl_event : str;
  dl_timestamp : str;
  dl_success : bool;
  dl_status : option Z;
  dl_error : option str;
  dl_attempts : Z;
  dl_duration_ms : Z;
  dl_body : str;
  dl_created_at : Z;
}.

Definition DELIVERY_BODY_CAP : Z := 8 * 1024.
Definition DELIVERY_LOG_CAP : nat := 500.

Definition with_body (b : str) (d : DeliveryRow) : DeliveryRow :=
  {| dl_id := dl_id d; dl_webhook_id := dl_webhook_id d; dl_webhook_name := dl_webhook_name d; dl_org_id := dl_org_id d; dl_event := dl_event d;
     dl_timestamp := dl_timestamp d; dl_success := dl_success d; dl_status := dl_status d; dl_error := dl_error d; dl_attempts := dl_attempts d;
     dl_duration_ms := dl_duration_ms d; dl_body := b; dl_created_at := dl_created_at d |}.

(** [String::truncate]: [None] is its panic, on a length inside a character. *)
Definition truncate_str (n : Z) (s : str) : option str :=
  match s !! Z.to_nat n with
  | Some a => if (128 <=? code a) && (code a <? 192) then None else Some (take (Z.to_nat n) s)
  | None => Some s
  end.

Definition keep_last {A} (n : nat) (l : list A) : list A := drop (length l - n) l.

(** [ok] is whether the rows could be written; [None] is a panic. *)
Definition record_delivery (ok : bool) (d : DeliveryRow) (log : Rows DeliveryRow) : option (Rows DeliveryRow) :=
  let body := if DELIVERY_BODY_CAP <? len (dl_body d) then truncate_str DELIVERY_BODY_CAP (dl_body d) else Some (dl_body d) in
  (fun b => (replace_all ok (with_mem log (keep_last DELIVERY_LOG_CAP (mem log ++ [with_body b d])))).2) <$> body.

Definition truncate_oldest (ok : bool) (keep : nat) (log : Rows DeliveryRow) : nat * Rows DeliveryRow :=
  if (length (mem log) <=? keep)%nat then (0%nat, log)
  else ((length (mem log) - keep)%nat, (replace_all ok (with_mem log (keep_last keep (mem log)))).2).

Definition list_deliveries (webhook_id : option str) (limit : nat) (log : Rows DeliveryRow) : list DeliveryRow :=
  take limit (filter (fun d => match webhook_id with Some id => str_eqb (dl_webhook_id d) id | None => true end = true) (rev (mem log))).

Definition get_delivery (id : str) (log : Rows DeliveryRow) : option DeliveryRow := find_row dl_id id (mem log).

(** ** Payloads *)

Unset Elimination Schemes.
Inductive Json : Type :=
| JNull
| JBool (b : bool)
| JNumber (printed : str)
| JString (s : str)
| JArray (l : list Json)
| JObject (fields : list (str * Json)).
Set Elimination Schemes.

Section Payload.
Context (show_json : Json → str).

Definition stringify (v : Json) : str :=
  let s := match v with JString s => s | other => show_json other end in
  if str_eqb s [] then bs ", " else s.

Definition data_entries (data : Json) : list (str * str) :=
  match data with
  | JObject fields => (fun kv => (kv.1, stringify kv.2)) <$> fields
  | _ => [(bs "data", stringify data)]
  end.

(** Event names are ASCII. *)
Definition upper1 (a : ascii) : ascii := if (97 <=? code a) && (code a <=? 122) then chr (code a - 32) else a.

Definition pretty_event (event : str) : str :=
  match (fun a => if bool_decide (a = "_"%char) then " "%char else a) <$> event with
  | first :: rest => upper1 first :: rest
  | [] => []
  end.

Definition GREEN : list str :=
  [bs "client_connected"; bs "alert_resolved"; bs "maintenance_off"; bs "tunnel_created"; bs "share_created"; bs "token_created"; bs "db_backup"; bs "import_applied"].
Definition RED : list str := [bs "client_disconnected"; bs "alert_triggered"; bs "canary_tripped"; bs "token_revoked"; bs "token_pin_mismatch"].
Definition AMBER : list str := [bs "client_draining"; bs "maintenance_on"; bs "token_expiring"; bs "token_new_ip"; bs "org_usage"].

Definition event_hex (event : str) : str :=
  if bool_decide (event ∈ GREEN) then bs "2ecc71"
  else if bool_decide (event ∈ RED) then bs "e74c3c"
  else if bool_decide (event ∈ AMBER) then bs "f1c40f"
  else bs "5865f2".

Definition hex_digit (a : ascii) : Z := if code a <? 58 then code a - 48 else code a - 87.
Definition hex_value (s : str) : Z := fold_left (fun n a => n * 16 + hex_digit a) s 0.

Definition render_payload (format : WebhookFormat) (event timestamp : str) (data : Json) : Json :=
  let entries := data_entries data in
  match format with
  | Generic => JObject [(bs "event", JString event); (bs "timestamp", JString timestamp); (bs "data", data)]
  | Slack =>
      JObject [(bs "attachments", JArray [JObject
        [(bs "color", JString (bs "#" ++ event_hex event)); (bs "title", JString (pretty_event event));
         (bs "fields", JArray ((fun kv => JObject [(bs "title", JString kv.1); (bs "value", JString kv.2); (bs "short", JBool true)]) <$> entries));
         (bs "footer", JString (bs "aperio"))]])]
  | Discord =>
      JObject [(bs "username", JString (bs "aperio")); (bs "embeds", JArray [JObject
        [(bs "title", JString (pretty_event event)); (bs "color", JNumber (show_uint (hex_value (event_hex event))));
         (bs "fields", JArray ((fun kv => JObject [(bs "name", JString kv.1); (bs "value", JString kv.2); (bs "inline", JBool true)]) <$> entries));
         (bs "timestamp", JString timestamp)]])]
  | Teams =>
      JObject [(bs "@type", JString (bs "MessageCard")); (bs "@context", JString (bs "https://schema.org/extensions"));
        (bs "themeColor", JString (event_hex event)); (bs "summary", JString (bs "aperio: " ++ event)); (bs "title", JString (pretty_event event));
        (bs "sections", JArray [JObject
          [(bs "facts", JArray ((fun kv => JObject [(bs "name", JString kv.1); (bs "value", JString kv.2)]) <$> entries)); (bs "text", JString timestamp)]])]
  end.

End Payload.

(** ** DeliveryRow *)

(** What one attempt meets: whether the client could be built, the clock, the answer. *)
Record Attempt : Type := { tr_built : bool; tr_now : Z; tr_answer : result Z str }.

(** A request to a receiver. *)
Record Sent : Type := { se_url : str; se_headers : headers; se_body : str }.

Section Deliver.
Context (hmac_hex : str → str → str) (parse_url : str → option OutUrl) (lookup_host : str → Z → option (list ipaddr)) (reason : refused → str).

Definition sign_payload (secret : str) (timestamp : Z) (body : str) : str := hmac_hex secret (show_uint timestamp ++ bs "." ++ body).

Definition request_to (w : Webhook) (body : str) (now : Z) : Sent :=
  {| se_url := wh_url w;
     se_headers := [(bs "content-type", bs "application/json")]
       ++ match wh_secret w with
          | Some secret => [(bs "x-aperio-timestamp", show_uint now); (bs "x-aperio-signature", bs "sha256=" ++ sign_payload secret now body)]
          | None => []
          end;
     se_body := body |}.

Definition send_once (w : Webhook) (body : str) (t : Attempt) : result Z str * list Sent :=
  if tr_built t then (tr_answer t, [request_to w body (tr_now t)]) else (Err (bs "cannot build the http client"), []).

Definition delivered (o : result Z str) : bool := match o with Ok status => (200 <=? status) && (status <? 300) | Err _ => false end.

Definition retryable (o : result Z str) : bool := match o with Ok status => (500 <=? status) || (status =? 429) | Err _ => true end.

(** The attempts, the first and one for each delay of the schedule: the last outcome, how
    many were made, and what was sent. *)
Fixpoint try_all (w : Webhook) (body : str) (first : Attempt) (more : list Attempt) : result Z str * nat * list Sent :=
  let '(o, sent) := send_once w body first in
  if delivered o || negb (retryable o) then (o, 1%nat, sent)
  else match more with
       | [] => (o, 1%nat, sent)
       | next :: rest => let '(o', n, sent') := try_all w body next rest in (o', S n, sent ++ sent')
       end.

(** Where a delivery is recorded: its fresh id, when it began and how long it took. *)
Record Stamp : Type := { sp_id : str; sp_timestamp : str; sp_created_at : Z; sp_duration_ms : Z }.

Definition delivery_row (w : Webhook) (event body : str) (o : result Z str) (attempts : nat) (st : Stamp) : DeliveryRow :=
  {| dl_id := sp_id st; dl_webhook_id := wh_id w; dl_webhook_name := wh_name w; dl_org_id := wh_org_id w; dl_event := event;
     dl_timestamp := sp_timestamp st; dl_success := delivered o; dl_status := match o with Ok s => Some s | Err _ => None end;
     dl_error := match o with Ok _ => None | Err e => Some e end; dl_attempts := Z.of_nat attempts; dl_duration_ms := sp_duration_ms st;
     dl_body := body; dl_created_at := sp_created_at st |}.

(** The row to record, and what was sent. *)
Definition deliver_with_retries (policy : OutboundPolicy) (w : Webhook) (event body : str) (first : Attempt) (more : list Attempt) (st : Stamp) : DeliveryRow * list Sent :=
  match check_outbound parse_url lookup_host policy (wh_url w) with
  | Err e => (delivery_row w event body (Err (reason e)) 0 st, [])
  | Ok _ => let '(o, n, sent) := try_all w body first more in (delivery_row w event body o n st, sent)
  end.

Definition TEST_EVENT : str := bs "webhook_test".

Definition deliver_test (policy : OutboundPolicy) (w : Webhook) (body : str) (t : Attempt) (st : Stamp) : DeliveryRow * list Sent :=
  match check_outbound parse_url lookup_host policy (wh_url w) with
  | Err e => (delivery_row w TEST_EVENT body (Err (reason e)) 1 st, [])
  | Ok _ => let '(o, sent) := send_once w body t in (delivery_row w TEST_EVENT body o 1 st, sent)
  end.

End Deliver.

(** The deliveries an event of an organization starts: hook and body. *)
Definition emit_event_in (show_json : Json → str) (s : Rows Webhook) (event timestamp : str) (data : Json) (org : option str) : list (Webhook * str) :=
  (fun w => (w, show_json (render_payload show_json (wh_format w) event timestamp data)))
  <$> filter (fun w => wh_org_id w = org) (subscribers s event).

(** ** Handlers *)

Record WebhookCreateRequest : Type := {
  wr_name : str;
  wr_url : str;
  wr_events : list str;
  wr_secret : option str;
  wr_format : option str;
}.

(** A webhook as it is listed: whether it is signed, never the secret. *)
Record Listed : Type := {
  li_id : str;
  li_name : str;
  li_url : str;
  li_events : list str;
  li_enabled : bool;
  li_created_at : Z;
  li_format : str;
  li_signed : bool;
}.

Definition listed_of (w : Webhook) : Listed :=
  {| li_id := wh_id w; li_name := wh_name w; li_url := wh_url w; li_events := wh_events w; li_enabled := wh_enabled w;
     li_created_at := wh_created_at w; li_format := format_str (wh_format w); li_signed := is_some (wh_secret w) |}.

Section Handlers.
Context (parse_url : str → option OutUrl) (lookup_host : str → Z → option (list ipaddr)) (policy : OutboundPolicy).

Definition webhooks_list_handler (org : option str) (s : Rows Webhook) : list Listed :=
  listed_of <$> filter (fun w => wh_org_id w = org) (mem s).

Definition clean_secret (s : option str) : option str :=
  match trim <$> s with Some s => if str_eqb s [] then None else Some s | None => None end.

(** What is checked of a request: the fields of the webhook, or the status refused. *)
Definition check_request (p : WebhookCreateRequest) : result (str * str * list str * option str * WebhookFormat) Z :=
  let name := trim (wr_name p) in
  if str_eqb name [] || (64 <? len name) then Err 400
  else
    let url := trim (wr_url p) in
    if negb (starts_with (bs "http://") url || starts_with (bs "https://") url) then Err 400
    else if negb (is_ok (check_outbound parse_url lookup_host policy url)) then Err 400
    else
      let events := filter (fun e => e ≠ []) (trim <$> wr_events p) in
      let secret := clean_secret (wr_secret p) in
      if match secret with Some s => (len s <? 16) || (128 <? len s) | None => false end then Err 400
      else match parse_format (default [] (wr_format p)) with
           | None => Err 400
           | Some format => Ok (name, url, events, secret, format)
           end.

(** [id] is fresh; the answer is the id of the new webhook. *)
Definition webhooks_create_handler (ok : bool) (id : str) (now : Z) (org : option str) (p : WebhookCreateRequest) (s : Rows Webhook) : result str Z * Rows Webhook :=
  match check_request p with
  | Err status => (Err status, s)
  | Ok (name, url, events, secret, format) =>
      let hook := {| wh_id := id; wh_name := name; wh_url := url; wh_events := events; wh_enabled := true; wh_created_at := now;
                     wh_format := format; wh_secret := secret; wh_org_id := org |} in
      match webhook_create ok hook s with
      | (Some h, s') => (Ok (wh_id h), s')
      | (None, s') => (Err 500, s')
      end
  end.

(** [meanwhile] is what others do to the records between the look and the deletion. *)
Definition webhooks_delete_handler (ok : bool) (org : option str) (id : str) (meanwhile : Rows Webhook → Rows Webhook) (s : Rows Webhook) : result unit Z * Rows Webhook :=
  if negb (existsb (fun w => str_eqb (wh_id w) id && bool_decide (wh_org_id w = org)) (mem s)) then (Err 404, s)
  else match webhook_delete ok id (meanwhile s) with
       | (Ok _, s') => (Ok tt, s')
       | (Err NoSuchRecord, s') => (Err 404, s')
       | (Err NotPersisted, s') => (Err 500, s')
       end.

Definition webhook_deliveries_handler (org : option str) (webhook_id : option str) (limit : option nat) (log : Rows DeliveryRow) : list DeliveryRow :=
  take (Nat.min (default 50%nat limit) 200) (filter (fun d => dl_org_id d = org) (list_deliveries webhook_id 500 log)).

(** The delivery it queues: hook, event and body. *)
Definition webhook_redeliver_handler (org : option str) (id : str) (hooks : Rows Webhook) (log : Rows DeliveryRow) : result (Webhook * str * str) Z :=
  match get_delivery id log with
  | None => Err 404
  | Some d =>
      if negb (bool_decide (dl_org_id d = org)) then Err 404
      else match find_row wh_id (dl_webhook_id d) (mem hooks) with
           | None => Err 404
           | Some w => Ok (w, dl_event d, dl_body d)
           end
  end.

Definition TEST_MESSAGE : str := bs "Test delivery from the Aperio dashboard. Nothing happened; this event exists to prove the webhook is reachable.".

(** The test it sends: hook and body. *)
Definition webhook_test_handler (org : option str) (id timestamp : str) (hooks : Rows Webhook) : result (Webhook * Json) Z :=
  match find (fun w => str_eqb (wh_id w) id && bool_decide (wh_org_id w = org)) (mem hooks) with
  | None => Err 404
  | Some w => Ok (w, JObject [(bs "event", JString TEST_EVENT); (bs "timestamp", JString timestamp);
                              (bs "data", JObject [(bs "message", JString TEST_MESSAGE); (bs "webhook", JString (wh_name w))])])
  end.

End Handlers.

(** *** The audit page *)

Definition scoped_to_org (events : list AuditEvent) (org : option str) : list AuditEvent := filter (fun e => ev_org_id e = org) events.

Definition clamp (lo hi n : nat) : nat := Nat.max lo (Nat.min hi n).

(** [recent] is the ring, [search] the durable log; [asked] is the limit as written. *)
Definition audit_page (recent : list AuditEvent) (search : AuditFilter → nat → list AuditEvent) (f : AuditFilter) (asked : option (option nat)) (org : option str) :
    list AuditEvent :=
  let limit := clamp 1 5000 (default 200%nat (asked ≫= id)) in
  if filter_is_empty f && negb (is_some asked) then scoped_to_org recent org
  else take limit (scoped_to_org (search f (Nat.min (limit * 4) (Z.to_nat 20000))) org).

(** ** Deliveries are accounted for *)

Section DeliverFacts.
Context (hmac_hex : str → str → str) (parse_url : str → option OutUrl) (lookup_host : str → Z → option (list ipaddr)) (reason : refused → str).

Lemma send_once_sent w body t x : x ∈ (send_once hmac_hex w body t).2 → x = request_to hmac_hex w body (tr_now t).
Proof using Type. unfold send_once. destruct (tr_built t); simpl; [by intros ?%list_elem_of_singleton|by intros ?%elem_of_nil]. Qed.

(** What the attempts come to: the outcomes met before the last could be retried and the
    last could not, or the schedule was over. *)
Lemma try_all_spec w body first more :
  let '(o, n, sent) := try_all hmac_hex w body first more in
  (1 <= n <= S (length more))%nat
  ∧ (∃ t, (first :: more) !! (n - 1)%nat = Some t ∧ o = (send_once hmac_hex w body t).1)
  ∧ (∀ i t, (i < n - 1)%nat → (first :: more) !! i = Some t → retryable (send_once hmac_hex w body t).1 = true ∧ delivered (send_once hmac_hex w body t).1 = false)
  ∧ (delivered o = true ∨ retryable o = false ∨ n = S (length more))
  ∧ sent = concat ((fun t => (send_once hmac_hex w body t).2) <$> take n (first :: more)).
Proof using Type.
  clear parse_url lookup_host reason. revert first. induction more as [|next rest IH]; intros first; cbn [try_all]; destruct (send_once hmac_hex w body first) as [o sent] eqn:Es.
  - assert (Hn : (if delivered o || negb (retryable o) then (o, 1%nat, sent) else (o, 1%nat, sent)) = (o, 1%nat, sent)) by (by destruct (_ || _)). rewrite Hn.
    split_and!; [simpl; lia|simpl; lia|exists first; by rewrite Es|simpl; lia|by right; right|simpl; by rewrite Es, app_nil_r].
  - destruct (delivered o || negb (retryable o)) eqn:Eo.
    + split_and!; [lia|simpl; lia|exists first; by rewrite Es|simpl; lia| |simpl; by rewrite Es, app_nil_r].
      apply orb_true_iff in Eo as [?|?%negb_true_iff]; auto.
    + specialize (IH next). destruct (try_all hmac_hex w body next rest) as [[o' n] sent']. destruct IH as (Hn & (t & Ht & Ho) & Hi & Hend & Hs).
      apply orb_false_iff in Eo as [Ed Er%negb_false_iff]. split_and!; [lia|simpl in *; lia| | |simpl; intuition|].
      * exists t. split; [|done]. replace (S n - 1)%nat with (S (n - 1)) by lia. done.
      * intros [|i] x Hlt Hx; [simpl in Hx; injection Hx as <-; by rewrite Es|]. apply (Hi i); [lia|done].
      * rewrite Hs. simpl. by rewrite Es.
Qed.

(** A delivery makes between one attempt and one more than the schedule has delays, none
    where the outbound policy refuses; it stops at the first answer that is not worth
    repeating; the row records the last outcome and how many there were; and everything
    sent is the body, to the webhook's address, under the webhook's signature. *)
Theorem delivery_accounted policy w event body first more st row sent :
  deliver_with_retries hmac_hex parse_url lookup_host reason policy w event body first more st = (row, sent) →
  dl_org_id row = wh_org_id w ∧ dl_body row = body ∧
  (check_outbound parse_url lookup_host policy (wh_url w) ≠ Ok tt → sent = [] ∧ dl_attempts row = 0 ∧ dl_success row = false) ∧
  (check_outbound parse_url lookup_host policy (wh_url w) = Ok tt →
     1 <= dl_attempts row <= 1 + Z.of_nat (length more)
     ∧ (∃ t, (first :: more) !! Z.to_nat (dl_attempts row - 1) = Some t
          ∧ dl_success row = delivered (send_once hmac_hex w body t).1
          ∧ (dl_success row = true ∨ retryable (send_once hmac_hex w body t).1 = false ∨ dl_attempts row = 1 + Z.of_nat (length more)))
     ∧ ∀ x, x ∈ sent → ∃ now, x = request_to hmac_hex w body now).
Proof using Type.
  unfold deliver_with_retries. destruct (check_outbound _ _ _ _) as [[]|e]; [|intros [= <- <-]; split_and!; done].
  pose proof (try_all_spec w body first more) as H. destruct (try_all _ _ _ _ _) as [[o n] s]. intros [= <- <-].
  destruct H as (Hn & (t & Ht & Ho) & _ & Hend & Hs). split_and!; [done|done|done|]. intros _. simpl. split; [lia|]. split.
  - exists t. replace (Z.to_nat (Z.of_nat n - 1)) with (n - 1)%nat by lia. split; [done|]. subst o. split; [done|]. destruct Hend as [?|[?|?]]; [by left|by right; left|].
    right. right. lia.
  - intros x Hx. subst s. apply elem_of_concat_fmap in Hx as (y & _ & Hy). apply send_once_sent in Hy. by exists (tr_now y).
Qed.

End DeliverFacts.

(** ** The log and the records *)

Lemma keep_last_length {A} n (l : list A) : (length (keep_last n l) <= n)%nat.
Proof. unfold keep_last. rewrite length_drop. lia. Qed.

Lemma kept_newest_snoc {A} n (l : list A) x : (0 < n)%nat → ∃ l', keep_last n (l ++ [x]) = l' ++ [x] ∧ ∃ pre, l = pre ++ l'.
Proof.
  intros Hn. unfold keep_last. rewrite length_app. simpl. rewrite drop_app_le by lia. exists (drop (length l + 1 - n) l). split; [done|].
  exists (take (length l + 1 - n) l). by rewrite take_drop.
Qed.

(** What is recorded is the newest row of a log that never holds more than five hundred,
    and costs only the oldest; a body that fits is kept whole and a longer one cut. *)
Theorem log_keeps_newest ok d log log' : record_delivery ok d log = Some log' →
  (length (mem log') <= DELIVERY_LOG_CAP)%nat ∧ table log' = (if ok then mem log' else table log) ∧
  ∃ b l pre, mem log' = l ++ [with_body b d] ∧ mem log = pre ++ l ∧ (∃ rest, dl_body d = b ++ rest) ∧ len b <= DELIVERY_BODY_CAP
    ∧ (len (dl_body d) <= DELIVERY_BODY_CAP → b = dl_body d).
Proof.
  unfold record_delivery. intros (b & Hb & ->)%fmap_Some. destruct (kept_newest_snoc DELIVERY_LOG_CAP (mem log) (with_body b d)) as (l & Hl & pre & Hp); [unfold DELIVERY_LOG_CAP; lia|].
  assert (Hm : mem (replace_all ok (with_mem log (keep_last DELIVERY_LOG_CAP (mem log ++ [with_body b d])))).2 = keep_last DELIVERY_LOG_CAP (mem log ++ [with_body b d])) by (by destruct ok).
  rewrite Hm. split; [apply keep_last_length|]. split; [by destruct ok|]. exists b, l, pre. split_and!; [done|done| | |].
  - destruct (_ <? _); [|injection Hb as <-; exists []; by rewrite app_nil_r]. unfold truncate_str in Hb. destruct (_ !! _); [|injection Hb as <-; exists []; by rewrite app_nil_r].
    destruct (_ && _); [done|]. injection Hb as <-. exists (drop (Z.to_nat DELIVERY_BODY_CAP) (dl_body d)). by rewrite take_drop.
  - destruct (_ <? _) eqn:El; [|injection Hb as <-; by apply Z.ltb_ge in El]. apply Z.ltb_lt in El. unfold truncate_str in Hb. destruct (_ !! _) eqn:En.
    + destruct (_ && _); [done|]. injection Hb as <-. unfold len. rewrite length_take. unfold DELIVERY_BODY_CAP. lia.
    + apply lookup_ge_None in En. unfold len in El. unfold DELIVERY_BODY_CAP in *. lia.
  - intros Hle. destruct (_ <? _) eqn:El; [apply Z.ltb_lt in El; lia|]. by injection Hb as <-.
Qed.

(** ** Tenancy *)

(** An operation of the webhook handlers, by a caller of an organization. *)
Inductive HookOp : Type :=
| HCreate (ok : bool) (id : str) (now : Z) (p : WebhookCreateRequest)
| HDelete (ok : bool) (id : str).

Section HandlerFacts.
Context (parse_url : str → option OutUrl) (lookup_host : str → Z → option (list ipaddr)) (policy : OutboundPolicy).

Definition hook_exec (op : option str * HookOp) (s : Rows Webhook) : Rows Webhook :=
  match op with
  | (org, HCreate ok id now p) => (webhooks_create_handler parse_url lookup_host policy ok id now org p s).2
  | (org, HDelete ok id) => (webhooks_delete_handler ok org id (fun s => s) s).2
  end.

(** The webhooks of an organization. *)
Definition hooks_of (org : option str) (l : list Webhook) : list Webhook := filter (fun w => wh_org_id w = org) l.

Lemma remove_other org id l w : NoDup (wh_id <$> l) → w ∈ l → wh_id w = id → wh_org_id w ≠ org → hooks_of org (remove_row wh_id id l) = hooks_of org l.
Proof using Type.
  intros Hn Hin Hid Ho. induction l as [|a l IH]; [by apply elem_of_nil in Hin|]. cbn [remove_row]. rewrite fmap_cons in Hn. apply NoDup_cons in Hn as [Ha Hn].
  unfold hooks_of in *. rewrite (filter_cons _ a l). destruct (has_id wh_id id a) eqn:E.
  - apply has_id_spec in E. apply elem_of_cons in Hin as [->|Hin]; [by rewrite decide_False|]. exfalso. apply Ha. rewrite E, <-Hid. by apply list_elem_of_fmap_2.
  - apply elem_of_cons in Hin as [->|Hin]; [apply not_true_iff_false in E; exfalso; apply E; by apply has_id_spec|]. rewrite filter_cons. destruct (decide _); by rewrite IH.
Qed.

(** A caller changes the webhooks of no organization but its own, whatever the request and
    whether or not it can be saved; a webhook it makes is one of its own, and calls where
    the outbound policy lets the server call. *)
Theorem hooks_isolated org op s : NoDup (wh_id <$> mem s) →
  (∀ org', org' ≠ org → hooks_of org' (mem (hook_exec (org, op) s)) = hooks_of org' (mem s)) ∧
  ∀ w, w ∈ mem (hook_exec (org, op) s) → w ∈ mem s
    ∨ wh_org_id w = org ∧ check_outbound parse_url lookup_host policy (wh_url w) = Ok tt
      ∧ (∀ secret, wh_secret w = Some secret → 16 <= len secret <= 128).
Proof using Type.
  intros Hn. destruct op as [ok id now p|ok id]; cbn [hook_exec].
  - unfold webhooks_create_handler. destruct (check_request _ _ _ p) as [[[[[name url] events] secret] format]|] eqn:Ec; [|cbn; auto].
    unfold webhook_create. rewrite commit_rows_spec. destruct ok; cbn; [|auto]. split.
    + intros org' Hne. unfold hooks_of. rewrite filter_app, filter_cons, filter_nil. cbn. rewrite decide_False by congruence. by rewrite app_nil_r.
    + intros w [Hin|Hin%list_elem_of_singleton]%elem_of_app; [by left|]. right. subst w. cbn. split; [done|]. revert Ec. unfold check_request. cbv zeta.
      destruct (_ || _); [done|]. destruct (negb (_ || _)); [done|]. destruct (check_outbound _ _ _ (trim (wr_url p))) as [[]|] eqn:Eo; cbn [is_ok negb]; [|done].
      destruct (clean_secret (wr_secret p)) as [x|].
      * destruct (_ || _) eqn:El; [done|]. destruct (parse_format _); [|done]. intros [= <- <- <- <- <-]. split; [done|]. intros y [= <-].
        apply orb_false_iff in El as [H1%Z.ltb_ge H2%Z.ltb_ge]. lia.
      * destruct (parse_format _); [|done]. intros [= <- <- <- <- <-]. by split.
  - unfold webhooks_delete_handler. destruct (existsb _ _) eqn:Ee; cbn [negb]; [|cbn; auto]. apply existsb_Exists in Ee as (w0 & Hin0 & Hw0).
    apply andb_true_iff in Hw0 as [Hid0 Horg0]. apply str_eqb_eq in Hid0. apply bool_decide_eq_true in Horg0.
    unfold webhook_delete. destruct (find_row _ _ _) as [found|]; [|cbn; auto]. rewrite commit_rows_spec. destruct ok; cbn; [|auto]. split.
    + intros org' Hne. apply (remove_other org' id (mem s) w0); [done..|congruence].
    + intros w Hin. left. by eapply elem_of_remove.
Qed.

(** What a caller is shown is its own: no listing, page of deliveries or page of the audit
    log holds anything of another organization, a redelivery repeats only a delivery of
    its own, and a listing says whether a webhook is signed and nothing of the secret. *)
Theorem pages_fenced org s log recent search f asked wid limit :
  (∀ x, x ∈ webhooks_list_handler org s → ∃ w, w ∈ hooks_of org (mem s) ∧ x = listed_of w) ∧
  (∀ d, d ∈ webhook_deliveries_handler org wid limit log → d ∈ mem log ∧ dl_org_id d = org) ∧
  (length (webhook_deliveries_handler org wid limit log) <= 200)%nat ∧
  (∀ e, e ∈ audit_page recent search f asked org → ev_org_id e = org) ∧
  (∀ id w event body, webhook_redeliver_handler org id s log = Ok (w, event, body) → ∃ d, d ∈ mem log ∧ dl_org_id d = org ∧ dl_body d = body ∧ dl_webhook_id d = wh_id w).
Proof using Type.
  split_and!.
  - intros x (w & -> & Hw)%list_elem_of_fmap. by exists w.
  - intros d Hd. unfold webhook_deliveries_handler in Hd. apply elem_of_take in Hd as (i & Hi & _). apply list_elem_of_lookup_2, list_elem_of_filter in Hi as [Ho Hi].
    split; [|done]. unfold list_deliveries in Hi. apply elem_of_take in Hi as (j & Hj & _). apply list_elem_of_lookup_2, list_elem_of_filter in Hj as [_ Hj].
    by rewrite list_elem_of_In, <-in_rev, <-list_elem_of_In in Hj.
  - unfold webhook_deliveries_handler. rewrite length_take. lia.
  - intros e. unfold audit_page, scoped_to_org. cbv zeta. destruct (_ && _); [by intros [? _]%list_elem_of_filter|]. intros (i & Hi & _)%elem_of_take.
    by apply list_elem_of_lookup_2, list_elem_of_filter in Hi as [? _].
  - intros id w event body. unfold webhook_redeliver_handler, get_delivery. destruct (find_row dl_id id (mem log)) as [d|] eqn:Ed; [|done]. case_bool_decide as Ho; cbn [negb]; [|done].
    destruct (find_row wh_id _ _) as [x|] eqn:Ew; [|done]. intros [= <- <- <-]. exists d. unfold find_row in Ed, Ew. apply List.find_some in Ed as [Hin _], Ew as [_ Hid].
    apply list_elem_of_In in Hin. apply has_id_spec in Hid. done.
Qed.

End HandlerFacts.

(** An event starts one delivery for each enabled webhook of its own organization that
    subscribes to it, and none for any other. *)
Theorem event_reaches_exactly show_json s event timestamp data org w body :
  (w, body) ∈ emit_event_in show_json s event timestamp data org ↔
  w ∈ mem s ∧ wh_enabled w = true ∧ (wh_events w = [] ∨ bs "*" ∈ wh_events w ∨ event ∈ wh_events w) ∧ wh_org_id w = org
  ∧ body = show_json (render_payload show_json (wh_format w) event timestamp data).
Proof.
  unfold emit_event_in. rewrite list_elem_of_fmap.
  assert (Hs : subscribes_to w event = true ↔ wh_events w = [] ∨ bs "*" ∈ wh_events w ∨ event ∈ wh_events w).
  { unfold subscribes_to. rewrite orb_true_iff, bool_decide_eq_true, existsb_Exists. setoid_rewrite orb_true_iff. setoid_rewrite str_eqb_eq. naive_solver. }
  split.
  - intros (w' & [= <- ->] & Hin). apply list_elem_of_filter in Hin as [Ho Hin]. apply list_elem_of_filter in Hin as [He Hin]. apply andb_true_iff in He as [H1 H2].
    split_and!; [done..|by apply Hs|done|done].
  - intros (Hin & He & Hsub & Ho & ->). exists w. split; [done|]. apply list_elem_of_filter. split; [done|]. apply list_elem_of_filter. split; [|done].
    apply andb_true_iff. split; [done|by apply Hs].
Qed.

(** ** Witnesses and cases *)

Module WebhookSamples.

Definition hook (id : str) (org : option str) (f : WebhookFormat) : Webhook :=
  {| wh_id := id; wh_name := bs "ops"; wh_url := bs "https://hooks.example.com/x"; wh_events := []; wh_enabled := true; wh_created_at := 0; wh_format := f;
     wh_secret := Some (bs "0123456789abcdef"); wh_org_id := org |}.
Definition try (answer : result Z str) : Attempt := {| tr_built := true; tr_now := 7; tr_answer := answer |}.
Definition stamp : Stamp := {| sp_id := bs "d1"; sp_timestamp := bs "t"; sp_created_at := 7; sp_duration_ms := 1 |}.
Definition mac (key text : str) : str := key ++ text.
Definition why (_ : refused) : str := bs "refused".
Definition sample_delivery := deliver_with_retries mac OutboundSamples.sample_url OutboundSamples.sample_lookup why OutboundSamples.private_blocked
  (hook (bs "w1") None Generic) (bs "e") (bs "{}") (try (Ok 503)) [try (Err (bs "reset")); try (Ok 204); try (Ok 200)] stamp.

Lemma delivery_accounted_witness : dl_attempts sample_delivery.1 = 3 ∧ dl_success sample_delivery.1 = true
  ∧ ∀ x, x ∈ sample_delivery.2 → ∃ now, x = request_to mac (hook (bs "w1") None Generic) (bs "{}") now.
Proof.
  split; [vm_compute; reflexivity|]. split; [vm_compute; reflexivity|].
  refine (proj2 (proj2 (proj2 (proj2 (proj2 (delivery_accounted mac OutboundSamples.sample_url OutboundSamples.sample_lookup why OutboundSamples.private_blocked
    (hook (bs "w1") None Generic) (bs "e") (bs "{}") (try (Ok 503)) [try (Err (bs "reset")); try (Ok 204); try (Ok 200)] stamp _ _ _))) _))).
  - apply surjective_pairing.
  - vm_compute. reflexivity.
Defined.

Definition row (body : str) : DeliveryRow := delivery_row (hook (bs "w1") None Generic) (bs "e") body (Ok 200) 1 stamp.
Definition no_rows : Rows DeliveryRow := load_all [].

Lemma log_keeps_newest_witness : ∃ b l pre, mem (load_all [row (bs "x")]) = l ++ [with_body b (row (bs "x"))] ∧ mem no_rows = pre ++ l
  ∧ (∃ rest, dl_body (row (bs "x")) = b ++ rest) ∧ len b <= DELIVERY_BODY_CAP ∧ (len (dl_body (row (bs "x"))) <= DELIVERY_BODY_CAP → b = dl_body (row (bs "x"))).
Proof. exact (proj2 (proj2 (log_keeps_newest true (row (bs "x")) no_rows (load_all [row (bs "x")]) eq_refl))). Defined.

Lemma hooks_isolated_witness :
  hooks_of None (mem (hook_exec OutboundSamples.sample_url OutboundSamples.sample_lookup OutboundSamples.private_blocked (Some (bs "o"), HDelete true (bs "w1"))
                        (load_all [hook (bs "w1") None Generic; hook (bs "w2") (Some (bs "o")) Slack]))) = [hook (bs "w1") None Generic].
Proof.
  refine (proj1 (hooks_isolated OutboundSamples.sample_url OutboundSamples.sample_lookup OutboundSamples.private_blocked (Some (bs "o")) (HDelete true (bs "w1"))
    (load_all [hook (bs "w1") None Generic; hook (bs "w2") (Some (bs "o")) Slack]) _) None _).
  - apply (bool_decide_unpack _). vm_compute. exact I.
  - discriminate.
Defined.

(** A long body that has a character across the cap: the delivery was made and the task
    panics before it is recorded. *)
Example long_body_panics : record_delivery true (row (repeat "a"%char (Z.to_nat 8191) ++ [chr 195; chr 169])) no_rows = None.
Proof. vm_compute. reflexivity. Qed.

(** A test of a Discord webhook is not the message Discord takes. *)
Example test_ignores_format :
  match webhook_test_handler None (bs "w1") (bs "t") (load_all [hook (bs "w1") None Discord]) with
  | Ok (w, JObject ((k, _) :: _)) => (wh_format w, k)
  | _ => (Generic, [])
  end = (Discord, bs "event")
  ∧ ∀ show e t d, match render_payload show Discord e t d with JObject ((k, _) :: _) => k | _ => [] end = bs "username".
Proof. split; [vm_compute; reflexivity|]. reflexivity. Qed.

(** The stand-in for an empty value is a comma. *)
Example empty_value_is_a_comma : ∀ show, stringify show (JString []) = bs ", ".
Proof. reflexivity. Qed.

(** Another organization's events take the place of one's own in a filtered page. *)
Definition event_of (org : option str) (ts : Z) : AuditEvent :=
  {| ev_ts := ts; ev_timestamp := []; ev_event := bs "login_success"; ev_actor := []; ev_actor_ip := []; ev_org_id := org; ev_details := []; ev_prev := [] |}.

Example fence_shrinks_page :
  let found := [event_of None 9; event_of None 8; event_of None 7; event_of None 6; event_of (Some (bs "o")) 5] in
  let f := {| q_event := Some (bs "login_success"); q_actor := None; q_contains := None; q_from_ts := None; q_to_ts := None |} in
  audit_page [] (fun _ n => take n found) f (Some (Some 1%nat)) (Some (bs "o")) = []
  ∧ scoped_to_org found (Some (bs "o")) = [event_of (Some (bs "o")) 5].
Proof. vm_compute. auto. Qed.

End WebhookSamples.
