(* ===== verification/Layers.v ===== *)
(** How the client's configuration is put together ([aperio-config/src/layers.rs]): two
    files, the environment and the command line, each laid over the ones before, with the
    layer every value came from; the services over their defaults; and how a variable is
    read as the value its key takes.

    A document is a tree whose mappings keep the order keys were written in. The YAML
    parser and the reading of a tree into the program's structures are arguments; so is
    the table of variables, which is derived from the schema. *)

From S2P Require Import Prelude Binds IpNet ClientIp.

Unset Elimination Schemes.
Inductive Value : Type :=
| YNull
| YScalar (s : str)
| YBool (b : bool)
| YInt (n : Z)
| YFloat (text : str)
| YSeq (l : list Value)
| YMap (m : list (str * Value)).
Set Elimination Schemes.

Definition Mapping : Type := list (str * Value).

Inductive Layer : Type := Home | Local_ | Env | Cli.
Inductive Scope : Type := SFile | SDefaults | SService.

(** ** Writing at a path *)

(** The mapping a value is, or a new one in its place. *)
Definition as_map (v : option Value) : Mapping := match v with Some (YMap m) => m | _ => [] end.

Fixpoint set_path (doc : Mapping) (path : list str) (value : Value) : Mapping :=
  match path with
  | [] => doc
  | [part] => aset part value doc
  | part :: rest => aset part (YMap (set_path (as_map (aget part doc)) rest value)) doc
  end.

Definition set_dotted (doc : Mapping) (path : str) (value : Value) : Mapping := set_path doc (split_on dot path) value.

(** ** Laying one document over another *)

(** What is at a key after [v] is laid over what was there. *)
Fixpoint lay (base : option Value) (v : Value) {struct v} : Value :=
  match v with
  | YMap incoming =>
      match base with
      | Some (YMap existing) =>
          YMap ((fix merge_ (incoming existing : list (str * Value)) :=
                   match incoming with
                   | [] => existing
                   | (key, value) :: rest => merge_ rest (aset key (lay (aget key existing) value) existing)
                   end) incoming existing)
      | _ => v
      end
  | _ => v
  end.

Fixpoint merge (base overlay : Mapping) : Mapping :=
  match overlay with
  | [] => base
  | (key, value) :: rest => merge (aset key (lay (aget key base) value) base) rest
  end.

Lemma lay_map e i : lay (Some (YMap e)) (YMap i) = YMap (merge e i).
Proof. simpl. f_equal. revert e. induction i as [|[k v] i IH]; intros e; simpl; [done|]. by rewrite IH. Qed.

(** *** Where values came from *)

(** The paths of the values of a tree: a mapping that is not empty is its members. *)
Fixpoint value_paths (v : Value) : list (list str) :=
  match v with
  | YMap ((_ :: _) as inner) => concat ((fun kv => cons kv.1 <$> value_paths kv.2) <$> inner)
  | _ => [[]]
  end.

Definition recorded (doc : Mapping) (prefix : list str) : list (list str) :=
  concat ((fun kv => (fun q => prefix ++ kv.1 :: q) <$> value_paths kv.2) <$> doc).

Definition dotted (path : list str) : str := join [dot] path.

(** [BTreeMap::insert], path by path. *)
Definition record_layer (doc : Mapping) (prefix : list str) (layer : Layer) (sources : list (str * Layer)) : list (str * Layer) :=
  fold_left (fun acc path => aset (dotted path) layer acc) (recorded doc prefix) sources.

(** ** Putting a configuration together *)

Record Overlay : Type := { ov_file : Mapping; ov_service : Mapping }.

Definition overlay_set (o : Overlay) (scope : Scope) (path : str) (value : Value) : Overlay :=
  match scope with
  | SFile => {| ov_file := set_dotted (ov_file o) path value; ov_service := ov_service o |}
  | SDefaults => {| ov_file := set_dotted (ov_file o) (bs "defaults." ++ path) value; ov_service := ov_service o |}
  | SService => {| ov_file := ov_file o; ov_service := set_dotted (ov_service o) path value |}
  end.

(** The documents merged, and where each value came from. *)
Definition merge_files (files : list (Layer * Mapping)) (acc : Mapping * list (str * Layer)) : Mapping * list (str * Layer) :=
  fold_left (fun acc lf => (merge acc.1 lf.2, record_layer lf.2 [] lf.1 acc.2)) files acc.

Definition merge_overlays (overlays : list (Layer * Overlay)) (acc : Mapping * Mapping * list (str * Layer)) : Mapping * Mapping * list (str * Layer) :=
  fold_left (fun acc lo =>
    let '(doc, service, sources) := acc in
    (merge doc (ov_file lo.2), merge service (ov_service lo.2),
     record_layer (ov_service lo.2) [bs "service"] lo.1 (record_layer (ov_file lo.2) [] lo.1 sources))) overlays acc.

Definition defaults_of (doc : Mapping) : Mapping := as_map (aget (bs "defaults") doc).

Definition lay_service (defaults : Mapping) (entry : Value) : Value := YMap (merge defaults (as_map (Some entry))).

(** The keys that are not settings taken out. *)
Definition read_key (k : str) : bool := negb (str_eqb k (bs "include")) && negb (starts_with (bs "x-") k).
Fixpoint drop_unread (doc : Mapping) : Mapping :=
  match doc with
  | [] => []
  | kv :: rest => if read_key kv.1 then kv :: drop_unread rest else drop_unread rest
  end.

(** Every service laid over the defaults. *)
Definition settle_doc (doc : Mapping) : Mapping :=
  let doc := drop_unread doc in
  match aget (bs "services") doc with
  | Some (YMap services) => aset (bs "services") (YMap ((fun kv => (kv.1, lay_service (defaults_of doc) kv.2)) <$> services)) doc
  | _ => doc
  end.

Definition SERVICE_KEYS : list str := [bs "target"; bs "serve"; bs "tcp_target"; bs "hostname"; bs "path"; bs "custom_name"].

Definition named (service : Mapping) (key : str) : bool := match aget key service with Some YNull | None => false | Some _ => true end.

Inductive assemble_error : Type := BadConfig | BadService | NeedsTarget (key : str).

Record Assembled (FileConfig ServiceEntry : Type) : Type := {
  as_config : FileConfig;
  as_service : option ServiceEntry;
  as_sources : list (str * Layer);
}.
Arguments as_config {FileConfig ServiceEntry} a.
Arguments as_service {FileConfig ServiceEntry} a.
Arguments as_sources {FileConfig ServiceEntry} a.

(** The merged trees, before they are read. *)
Definition layered (files : list (Layer * Mapping)) (overlays : list (Layer * Overlay)) : Mapping * Mapping * list (str * Layer) :=
  let '(doc, sources) := merge_files files ([], []) in merge_overlays overlays (doc, [], sources).

Section Assemble.
Context {FileConfig ServiceEntry : Type} (read_config : Mapping → option FileConfig) (read_service : Mapping → option ServiceEntry).

Definition assemble (files : list (Layer * Mapping)) (overlays : list (Layer * Overlay)) : result (Assembled FileConfig ServiceEntry) assemble_error :=
  let '(doc, service, sources) := layered files overlays in
  let settled := settle_doc doc in
  match read_config settled with
  | None => Err BadConfig
  | Some config =>
      if named service (bs "target") || named service (bs "serve") || named service (bs "tcp_target") then
        match read_service (merge (defaults_of settled) service) with
        | Some entry => Ok {| as_config := config; as_service := Some entry; as_sources := sources |}
        | None => Err BadService
        end
      else match find (named service) SERVICE_KEYS with
           | Some key => Err (NeedsTarget key)
           | None => Ok {| as_config := config; as_service := None; as_sources := sources |}
           end
  end.

End Assemble.

(** ** The environment *)

(** A setting the environment writes: its variable, its key, and the types of the value. *)
Record EnvSetting : Type := { es_var : str; es_path : str; es_scope : Scope; es_types : list str }.

Definition upper1_ (a : ascii) : ascii := if (97 <=? code a) && (code a <=? 122) then chr (code a - 32) else a.

Definition env_var (path : str) : str :=
  if str_eqb path (bs "log_level") then bs "LOG_LEVEL"
  else bs "APERIO_" ++ ((fun a => upper1_ (if bool_decide (a = dot) || bool_decide (a = "-"%char) then "_"%char else a)) <$> path).

Inductive env_error : Type := NotYaml | NotBoolean (text : str) | NotPair (pair : str) | NotTaken (text : str).

Fixpoint parse_pairs (pairs : list str) (acc : Mapping) : result Mapping env_error :=
  match pairs with
  | [] => Ok acc
  | p :: rest => match split_once "="%char p with
                 | None => Err (NotPair p)
                 | Some (k, v) => parse_pairs rest (aset (trim k) (YScalar (trim v)) acc)
                 end
  end.

Section EnvValue.
Context (parse_yaml : str → option Value) (parse_f64 : str → option str).

(** [i64::from_str] *)
Definition parse_i64 (s : str) : option Z :=
  match strip_prefix (bs "-") s with
  | Some digits => if str_eqb digits [] || bool_decide (head digits = Some "+"%char) then None else Z.opp <$> parse_uint (2 ^ 63) digits
  | None => parse_uint (2 ^ 63 - 1) s
  end.

Definition parse_env_value (types : list str) (raw : str) : result Value env_error :=
  let text := trim raw in
  let has t := bool_decide (t ∈ types) in
  if starts_with (bs "{") text || starts_with (bs "[") text then
    match parse_yaml text with Some v => Ok v | None => Err NotYaml end
  else
    let as_bool :=
      if has (bs "boolean") then
        let t := lower text in
        if bool_decide (t ∈ [bs "1"; bs "true"; bs "yes"; bs "on"]) then Some (Ok (YBool true))
        else if bool_decide (t ∈ [bs "0"; bs "false"; bs "no"; bs "off"]) then Some (Ok (YBool false))
        else if bool_decide (length types = 1%nat) then Some (Err (NotBoolean text)) else None
      else None in
    match as_bool with
    | Some r => r
    | None =>
        match (if has (bs "integer") then parse_i64 text else None) with
        | Some n => Ok (YInt n)
        | None =>
            match (if has (bs "number") then parse_f64 text else None) with
            | Some n => Ok (YFloat n)
            | None =>
                if has (bs "array") && (negb (has (bs "string")) || bool_decide (comma ∈ text)) then
                  Ok (YSeq (YScalar <$> filter (fun s => s ≠ []) (trim <$> split_on comma text)))
                else if has (bs "object") && negb (has (bs "string")) then
                  match parse_pairs (filter (fun p => trim p ≠ []) (split_on comma text)) [] with
                  | Ok m => Ok (YMap m)
                  | Err e => Err e
                  end
                else if has (bs "string") then Ok (YScalar text)
                else Err (NotTaken text)
            end
        end
    end.

(** A variable that is set to something. *)
Definition env_set (lookup : str → option str) (name : str) : option str :=
  match lookup name with Some v => if str_eqb (trim v) [] then None else Some v | None => None end.

Inductive overlay_error : Type := RemovedVars (names : list str) | BadVar (var : str) (e : env_error).

Fixpoint read_settings (lookup : str → option str) (table : list EnvSetting) (o : Overlay) : result Overlay overlay_error :=
  match table with
  | [] => Ok o
  | s :: rest =>
      match env_set lookup (es_var s) with
      | None => read_settings lookup rest o
      | Some raw => match parse_env_value (es_types s) raw with
                    | Err e => Err (BadVar (es_var s) e)
                    | Ok v => read_settings lookup rest (overlay_set o (es_scope s) (es_path s) v)
                    end
      end
  end.

(** [removed] are the variables of earlier releases. *)
Definition env_overlay (removed : list str) (table : list EnvSetting) (lookup : str → option str) : result Overlay overlay_error :=
  match filter (fun r => is_Some (env_set lookup r)) removed with
  | [] => read_settings lookup table {| ov_file := []; ov_service := [] |}
  | names => Err (RemovedVars names)
  end.

End EnvValue.

(** ** What a merge comes to *)

Fixpoint at_path (p : list str) (v : Value) : option Value :=
  match p with
  | [] => Some v
  | k :: rest => match v with
                 | YMap m => match aget k m with Some x => at_path rest x | None => None end
                 | _ => None
                 end
  end.

(** What a layer says of a path: nothing, that nothing is there, or what is. *)
Inductive Word : Type := Silent | Cut | Says (v : Value).

Fixpoint word (p : list str) (v : Value) : Word :=
  match p with
  | [] => Says v
  | k :: rest => match v with
                 | YMap m => match aget k m with Some x => word rest x | None => Silent end
                 | _ => Cut
                 end
  end.

Definition is_map (v : Value) : bool := match v with YMap _ => true | _ => false end.

(** No mapping has a key twice, at any depth. *)
Inductive wf_value : Value → Prop :=
| wf_leaf v : is_map v = false → wf_value v
| wf_map m : NoDup (keys m) → (∀ k x, (k, x) ∈ m → wf_value x) → wf_value (YMap m).

Lemma wf_get m k x : wf_value (YMap m) → aget k m = Some x → wf_value x.
Proof. inversion 1; subst; [done|]. intros Hx%aget_Some_elem. eauto. Qed.

Lemma wf_keys m : wf_value (YMap m) → NoDup (keys m).
Proof. by inversion 1. Qed.

Lemma lay_None v : lay None v = v.
Proof. by destruct v. Qed.

Lemma lay_leaf b v : is_map v = false → lay b v = v.
Proof. by destruct v. Qed.

Lemma lay_is_map b m : is_map (lay b (YMap m)) = true.
Proof. by destruct b as [[]|]. Qed.

Lemma aget_merge k e i : NoDup (keys i) → aget k (merge e i) = match aget k i with Some x => Some (lay (aget k e) x) | None => aget k e end.
Proof.
  revert e. induction i as [|[k' x] i IH]; intros e Hn; [done|]. cbn [merge]. unfold keys in Hn. rewrite fmap_cons in Hn. apply NoDup_cons in Hn as [Hk Hn].
  rewrite IH by done. simpl. case_decide as Hd.
  - subst k'. assert (aget k i = None) as -> by (by apply aget_None). by rewrite aget_aset_eq.
  - by rewrite aget_aset_ne.
Qed.

Lemma at_word p v : at_path p v = match word p v with Says x => Some x | _ => None end.
Proof. revert v. induction p as [|k p IH]; intros v; [done|]. simpl. destruct v; try done. by destruct (aget k m). Qed.

(** At every path, what a laid layer says stands, and where it is silent what was there
    before still is. *)
Lemma lay_at p b v : wf_value v →
  at_path p (lay (Some b) v) = match word p v with Silent => at_path p b | Cut => None | Says x => Some (lay (at_path p b) x) end.
Proof.
  revert b v. induction p as [|k p IH]; intros b v Hw; [done|]. destruct (is_map v) eqn:Em; [|rewrite lay_leaf by done; by destruct v].
  destruct v as [| | | | | |i]; try done. destruct (is_map b) eqn:Eb.
  - destruct b as [| | | | | |e]; try done. rewrite lay_map. simpl. rewrite aget_merge by (by apply wf_keys).
    destruct (aget k i) as [x|] eqn:Ex; [|done]. pose proof (wf_get _ _ _ Hw Ex) as Hx. destruct (aget k e) as [y|]; [by apply IH|].
    rewrite lay_None, at_word. destruct (word p x); [done..|]. by rewrite lay_None.
  - assert (lay (Some b) (YMap i) = YMap i) as -> by (by destruct b). rewrite at_word. assert (at_path (k :: p) b = None) as -> by (by destruct b).
    destruct (word (k :: p) (YMap i)); [done..|]. by rewrite lay_None.
Qed.

Lemma merge_at p d m : wf_value (YMap m) →
  at_path p (YMap (merge d m)) = match word p (YMap m) with Silent => at_path p (YMap d) | Cut => None | Says x => Some (lay (at_path p (YMap d)) x) end.
Proof. intros Hw. rewrite <-lay_map. by apply lay_at. Qed.

(** A value that is not a mapping is the one the highest layer that says anything wrote. *)
Lemma merged_leaf p d m x : wf_value (YMap m) → is_map x = false →
  at_path p (YMap (merge d m)) = Some x ↔ word p (YMap m) = Says x ∨ word p (YMap m) = Silent ∧ at_path p (YMap d) = Some x.
Proof.
  intros Hw Hx. rewrite merge_at by done. destruct (word p (YMap m)) as [| |z]; [naive_solver..|].
  destruct (is_map z) eqn:Ez; [|rewrite lay_leaf by done; naive_solver]. destruct z as [| | | | | |i]; try done. split.
  - intros H. apply (inj Some) in H. rewrite <-H, lay_is_map in Hx. done.
  - intros [[= <-]|[]]; done.
Qed.

(** ** Provenance *)

Definition dotless (p : list str) : Prop := Forall (fun k => dot ∉ k) p.

Lemma dotted_inj p q : dotless p → dotless q → p ≠ [] → q ≠ [] → dotted p = dotted q → p = q.
Proof.
  intros Hp Hq Np Nq E. assert (Hs : ∀ r, dotless r → r ≠ [] → split_on dot (dotted r) = r).
  { intros [|k r] Hr Hn; [done|]. unfold dotted. rewrite split_join; [|done|by intros ?%elem_of_nil]. f_equal. exact (list_fmap_id r). }
  apply (f_equal (split_on dot)) in E. by rewrite !Hs in E.
Qed.

(** No key of the document has a dot, at any depth. *)
Inductive dotless_value : Value → Prop :=
| dv_leaf v : is_map v = false → dotless_value v
| dv_map m : (∀ k x, (k, x) ∈ m → dot ∉ k) → (∀ k x, (k, x) ∈ m → dotless_value x) → dotless_value (YMap m).

(** A value that is recorded under its own path: not a mapping, or an empty one. *)
Definition leafy (v : Value) : bool := match v with YMap (_ :: _) => false | _ => true end.

Lemma value_paths_spec q v : wf_value v → q ∈ value_paths v ↔ ∃ x, word q v = Says x ∧ leafy x = true.
Proof.
  revert v. induction q as [|k q IH]; intros v Hw.
  - simpl. split.
    + intros Hin. exists v. split; [done|]. destruct v as [| | | | | |[|kv m]]; try done. exfalso. cbn [value_paths] in Hin.
      apply elem_of_concat_fmap in Hin as (x & _ & Hin). by apply list_elem_of_fmap in Hin as (y & ? & _).
    + intros (x & [= <-] & Hl). destruct v as [| | | | | |[|]]; try done; by left.
  - destruct (leafy v) eqn:El.
    { assert (value_paths v = [[]]) as -> by (by destruct v as [| | | | | |[|]]). split; [by intros ?%list_elem_of_singleton|].
      intros (x & Hx & _). by destruct v as [| | | | | |[|]]. }
    destruct v as [| | | | | |[|kv m]]; try done. set (inner := kv :: m) in *. change (value_paths (YMap inner)) with (concat ((fun kv => cons kv.1 <$> value_paths kv.2) <$> inner)).
    rewrite elem_of_concat_fmap. cbn [word]. split.
    + intros ([k' x] & Hin & Hq). apply list_elem_of_fmap in Hq as (r & [= -> ->] & Hr). cbn [fst snd] in *. pose proof (wf_keys _ Hw) as Hn.
      rewrite (aget_elem _ _ _ Hn Hin). apply IH in Hr; [done|]. eapply wf_get; [exact Hw|by apply aget_elem].
    + destruct (aget k inner) as [x|] eqn:Ex; [|by intros (? & ? & _)]. intros H. exists (k, x). split; [by apply aget_Some_elem|]. apply list_elem_of_fmap_2.
      apply IH; [by eapply wf_get|done].
Qed.

Lemma recorded_spec p doc : wf_value (YMap doc) → p ∈ recorded doc [] ↔ p ≠ [] ∧ ∃ x, word p (YMap doc) = Says x ∧ leafy x = true.
Proof.
  intros Hw. unfold recorded. rewrite elem_of_concat_fmap. split.
  - intros ([k x] & Hin & Hq). apply list_elem_of_fmap in Hq as (r & -> & Hr). cbn [fst snd app word] in *. split; [done|].
    rewrite (aget_elem _ _ _ (wf_keys _ Hw) Hin). apply value_paths_spec in Hr; [done|]. eapply wf_get; [exact Hw|]. by apply aget_elem; [apply wf_keys|].
  - intros [Hne (x & Hx & Hl)]. destruct p as [|k r]; [done|]. cbn [word] in Hx. destruct (aget k doc) as [y|] eqn:Ey; [|done].
    exists (k, y). split; [by apply aget_Some_elem|]. apply list_elem_of_fmap. exists r. split; [done|]. apply value_paths_spec; [by eapply wf_get|]. eauto.
Qed.

Lemma value_paths_dotless v q : dotless_value v → q ∈ value_paths v → dotless q.
Proof.
  revert v. induction q as [|k q IH]; intros v Hv Hin; [constructor|]. destruct Hv as [v Hm|m Hm Hm']; [destruct v; try done; by apply list_elem_of_singleton in Hin|].
  destruct m as [|kv m]; [by apply list_elem_of_singleton in Hin|]. change (value_paths (YMap (kv :: m))) with (concat ((fun kv => cons kv.1 <$> value_paths kv.2) <$> (kv :: m))) in Hin.
  apply elem_of_concat_fmap in Hin as ([k' x] & Hin & Hq). apply list_elem_of_fmap in Hq as (r & [= -> ->] & Hr). cbn [fst snd] in *.
  constructor; [by eapply Hm|]. eapply IH; [by eapply Hm'|done].
Qed.

Lemma recorded_dotless doc prefix p : dotless_value (YMap doc) → dotless prefix → p ∈ recorded doc prefix → p ≠ [] ∧ dotless p ∧ ∃ q, p = prefix ++ q.
Proof.
  intros Hv Hp Hin. unfold recorded in Hin. apply elem_of_concat_fmap in Hin as ([k x] & Hin & Hq). apply list_elem_of_fmap in Hq as (r & -> & Hr). cbn [fst snd] in *.
  inversion Hv as [? Hm|m Hk Hx]; subst; [done|]. split; [by destruct prefix|]. split; [|by eexists].
  apply Forall_app. split; [done|]. constructor; [by eapply Hk|]. eapply value_paths_dotless; [by eapply Hx|done].
Qed.

Lemma record_layer_get p doc prefix layer sources : dotless p → p ≠ [] → dotless_value (YMap doc) → dotless prefix →
  aget (dotted p) (record_layer doc prefix layer sources) = if decide (p ∈ recorded doc prefix) then Some layer else aget (dotted p) sources.
Proof.
  intros Hp Hne Hv Hpre. unfold record_layer.
  assert (Hall : ∀ q, q ∈ recorded doc prefix → q ≠ [] ∧ dotless q) by (intros q Hq; by destruct (recorded_dotless _ _ _ Hv Hpre Hq) as (? & ? & _)).
  revert sources. induction (recorded doc prefix) as [|q l IH]; intros sources; [done|]. cbn [fold_left]. rewrite IH by (intros r Hr; apply Hall; by right).
  destruct (Hall q ltac:(by left)) as [Nq Dq]. destruct (decide (p ∈ l)) as [Hin|Hin]; [by rewrite decide_True by (by right)|].
  destruct (decide (q = p)) as [->|Hqp]; [rewrite decide_True by (by left); by rewrite aget_aset_eq|].
  rewrite decide_False by (by intros [->|?]%elem_of_cons). apply aget_aset_ne. intros E. apply Hqp. by apply dotted_inj.
Qed.

(** A layer that decides a path: it says what is there, and none above it says anything. *)
Definition decides (docs : list (Layer * Mapping)) (p : list str) (x : Value) (layer : Layer) : Prop :=
  ∃ pre m post, docs = pre ++ (layer, m) :: post ∧ word p (YMap m) = Says x ∧ Forall (fun lm => word p (YMap lm.2) = Silent) post.

Lemma decides_snoc docs l m p x layer : decides (docs ++ [(l, m)]) p x layer ↔
  (layer = l ∧ word p (YMap m) = Says x) ∨ (word p (YMap m) = Silent ∧ decides docs p x layer).
Proof.
  split.
  - intros (pre & m' & post & E & Hs & Hf). destruct post as [|e post _] using rev_ind.
    + apply app_inj_tail in E as [_ [= -> ->]]. by left.
    + change (pre ++ (layer, m') :: post ++ [e]) with (pre ++ ((layer, m') :: post) ++ [e]) in E. rewrite app_assoc in E. apply app_inj_tail in E as [E <-].
      apply Forall_app in Hf as [Hf He]. rewrite Forall_singleton in He. right. split; [done|]. by exists pre, m', post.
  - intros [[-> Hs]|[Hs (pre & m' & post & -> & H1 & H2)]]; [by exists docs, m, []|]. exists pre, m', (post ++ [(l, m)]). rewrite <-app_assoc. split; [done|].
    split; [done|]. apply Forall_app. split; [done|]. by apply Forall_singleton.
Qed.

(** A document that is sound to merge: no key twice, none with a dot. *)
Definition sound_doc (m : Mapping) : Prop := wf_value (YMap m) ∧ dotless_value (YMap m).

(** The merged document and the sources say the same of every value. *)
Definition accounts (docs : list (Layer * Mapping)) (doc : Mapping) (sources : list (str * Layer)) : Prop :=
  ∀ p x, p ≠ [] → dotless p → head p ≠ Some (bs "service") → is_map x = false →
    (at_path p (YMap doc) = Some x ↔ ∃ layer, decides docs p x layer) ∧ ∀ layer, decides docs p x layer → aget (dotted p) sources = Some layer.

Lemma accounts_layer docs doc sources layer m : accounts docs doc sources → sound_doc m →
  accounts (docs ++ [(layer, m)]) (merge doc m) (record_layer m [] layer sources).
Proof.
  intros HA [Hw Hd] p x Hne Hp Hh Hx. destruct (HA p x Hne Hp Hh Hx) as [H1 H2]. split.
  - rewrite merged_leaf by done. rewrite H1. setoid_rewrite decides_snoc. naive_solver.
  - intros l. rewrite decides_snoc. rewrite record_layer_get by (done || constructor). intros [[-> Hs]|[Hs Hd']].
    + rewrite decide_True; [done|]. apply recorded_spec; [done|]. split; [done|]. exists x. split; [done|]. by destruct x as [| | | | | |[]].
    + rewrite decide_False; [by apply H2|]. rewrite recorded_spec by done. intros [_ (y & Hy & _)]. congruence.
Qed.

Lemma accounts_service docs doc sources layer svc : accounts docs doc sources → sound_doc svc → accounts docs doc (record_layer svc [bs "service"] layer sources).
Proof.
  intros HA [Hw Hd] p x Hne Hp Hh Hx. destruct (HA p x Hne Hp Hh Hx) as [H1 H2]. split; [done|]. intros l Hl.
  assert (Hs : dotless [bs "service"]) by (apply (bool_decide_unpack _); vm_compute; exact I). rewrite record_layer_get by done.
  rewrite decide_False; [by apply H2|]. intros Hin. destruct (recorded_dotless _ _ _ Hd Hs Hin) as (_ & _ & q & ->). by apply Hh.
Qed.

Definition all_docs (files : list (Layer * Mapping)) (overlays : list (Layer * Overlay)) : list (Layer * Mapping) :=
  files ++ ((fun lo => (lo.1, ov_file lo.2)) <$> overlays).

Lemma files_account files : Forall (fun lf => sound_doc lf.2) files → accounts files (merge_files files ([], [])).1 (merge_files files ([], [])).2.
Proof.
  intros Hf. induction files as [|[l m] files IH] using rev_ind.
  - intros p x Hne _ _ _. split.
    + split; [destruct p; [done|]; done|]. intros (l & pre & m & post & E & _). by destruct pre.
    + intros l (pre & m & post & E & _). by destruct pre.
  - apply Forall_app in Hf as [Hf Hm]. rewrite Forall_singleton in Hm. unfold merge_files. rewrite fold_left_app. by apply accounts_layer; [apply IH|].
Qed.

Lemma overlays_account files overlays : Forall (fun lf => sound_doc lf.2) files → Forall (fun lo => sound_doc (ov_file lo.2) ∧ sound_doc (ov_service lo.2)) overlays →
  accounts (all_docs files overlays) (layered files overlays).1.1 (layered files overlays).2.
Proof.
  intros Hf Ho. unfold layered. pose proof (files_account files Hf) as HA. destruct (merge_files files ([], [])) as [doc sources]. cbn [fst snd] in HA.
  induction overlays as [|[l o] overlays IH] using rev_ind; [unfold all_docs; by rewrite fmap_nil, app_nil_r|].
  apply Forall_app in Ho as [Ho Ho1]. rewrite Forall_singleton in Ho1. destruct Ho1 as [H1 H2]. specialize (IH Ho). unfold merge_overlays in *. rewrite fold_left_app. cbn [fold_left].
  destruct (fold_left _ overlays _) as [[d sv] sr]. cbn [fst snd] in *. unfold all_docs in *. rewrite fmap_app, app_assoc. by apply accounts_service; [apply accounts_layer|].
Qed.

(** C40: One rule for every key: a setting has the value of the highest layer that writes it,
    and is reported to come from that layer. *)
Theorem highest_layer_wins (files : list (Layer * Mapping)) (overlays : list (Layer * Overlay)) (p : list str) (x : Value) :
  Forall (fun lf => sound_doc lf.2) files → Forall (fun lo => sound_doc (ov_file lo.2) ∧ sound_doc (ov_service lo.2)) overlays →
  p ≠ [] → dotless p → head p ≠ Some (bs "service") → is_map x = false →
  let '(doc, _, sources) := layered files overlays in
  (at_path p (YMap doc) = Some x ↔ ∃ layer, decides (all_docs files overlays) p x layer)
  ∧ ∀ layer, decides (all_docs files overlays) p x layer → aget (dotted p) sources = Some layer.
Proof.
  intros Hf Ho Hne Hp Hh Hx. pose proof (overlays_account files overlays Hf Ho p x Hne Hp Hh Hx) as H. destruct (layered files overlays) as [[doc sv] sources]. exact H.
Qed.

(** ** Services and single settings *)

Lemma aget_kept k m : read_key k = true → aget k (drop_unread m) = aget k m.
Proof.
  intros Hq. induction m as [|[k' v] m IH]; [done|]. cbn [drop_unread fst aget]. destruct (read_key k') eqn:Ek; cbn [aget]; case_decide as Hk; try done. congruence.
Qed.

(** A service keeps what it writes and takes the rest of its settings from the defaults. *)
Theorem service_over_defaults (doc services : Mapping) (name : str) (own : Mapping) (p : list str) :
  aget (bs "services") doc = Some (YMap services) → aget name services = Some (YMap own) → wf_value (YMap own) →
  at_path (bs "services" :: name :: p) (YMap (settle_doc doc)) =
  match word p (YMap own) with
  | Silent => at_path p (YMap (defaults_of doc))
  | Cut => None
  | Says x => Some (lay (at_path p (YMap (defaults_of doc))) x)
  end.
Proof.
  intros Hs Hn Hw. unfold settle_doc. set (kept := drop_unread doc). unfold kept at 1.
  rewrite (aget_kept (bs "services") doc), Hs by (vm_compute; done). cbn [at_path]. rewrite aget_aset_eq.
  assert (Hm : aget name ((fun kv => (kv.1, lay_service (defaults_of kept) kv.2)) <$> services) = Some (lay_service (defaults_of kept) (YMap own))).
  { clear -Hn. induction services as [|[k v] services IH]; [done|]. cbn [fmap list_fmap aget fst snd] in *. case_decide; [by injection Hn as ->|by apply IH]. }
  rewrite Hm. assert (Hd : defaults_of kept = defaults_of doc) by (unfold defaults_of, kept; rewrite (aget_kept (bs "defaults")) by (vm_compute; done); done).
  rewrite Hd. unfold lay_service. cbn [as_map]. by apply merge_at.
Qed.

(** What is written at a path is read there, and nothing is written beside it. *)
Theorem set_then_read (doc : Mapping) (p : list str) (v : Value) : p ≠ [] →
  at_path p (YMap (set_path doc p v)) = Some v ∧ ∀ q, ¬ p `prefix_of` q → ¬ q `prefix_of` p → at_path q (YMap (set_path doc p v)) = at_path q (YMap doc).
Proof.
  revert doc. induction p as [|k p IH]; intros doc Hp; [done|]. destruct p as [|k' p].
  - cbn [set_path at_path]. rewrite aget_aset_eq. split; [done|]. intros [|a q] H1 H2; [by destruct H2; apply prefix_nil|]. cbn [at_path].
    rewrite aget_aset_ne; [done|]. intros ->. apply H1. apply prefix_cons, prefix_nil.
  - change (set_path doc (k :: k' :: p) v) with (aset k (YMap (set_path (as_map (aget k doc)) (k' :: p) v)) doc).
    destruct (IH (as_map (aget k doc)) ltac:(done)) as [IH1 IH2]. split; [cbn [at_path]; rewrite aget_aset_eq; exact IH1|].
    intros [|a q] H1 H2; [by destruct H2; apply prefix_nil|]. cbn [at_path]. destruct (decide (k = a)) as [<-|Hne]; [|by rewrite aget_aset_ne].
    rewrite aget_aset_eq. rewrite IH2; [|intros H; by apply H1, prefix_cons|intros H; by apply H2, prefix_cons].
    destruct q as [|b q]; [destruct H2; apply prefix_cons, prefix_nil|]. destruct (aget k doc) as [[]|]; done.
Qed.

(** A removed variable that is still set stops the client; otherwise every variable that is
    set to something was read as a value of its key. *)
Theorem environment_is_read (parse_yaml : str → option Value) (parse_f64 : str → option str) removed table lookup o :
  env_overlay parse_yaml parse_f64 removed table lookup = Ok o →
  (∀ r, r ∈ removed → env_set lookup r = None) ∧
  ∀ s raw, s ∈ table → env_set lookup (es_var s) = Some raw → ∃ v, parse_env_value parse_yaml parse_f64 (es_types s) raw = Ok v.
Proof.
  unfold env_overlay. destruct (filter _ removed) as [|r0 l] eqn:Ef; [|done]. intros Hr. split.
  - intros r Hin. destruct (env_set lookup r) eqn:Er; [|done]. exfalso. assert (r ∈ filter (fun r => is_Some (env_set lookup r)) removed) as H.
    { apply list_elem_of_filter. rewrite Er. by split. }
    rewrite Ef in H. by apply elem_of_nil in H.
  - revert Hr. generalize {| ov_file := []; ov_service := [] |}. induction table as [|s table IH]; intros acc Hr s' raw Hin Hs; [by apply elem_of_nil in Hin|].
    cbn [read_settings] in Hr. apply elem_of_cons in Hin as [->|Hin].
    + rewrite Hs in Hr. destruct (parse_env_value _ _ _ raw) as [v|]; [by exists v|done].
    + destruct (env_set lookup (es_var s)) as [raw'|]; [|by eapply IH]. destruct (parse_env_value _ _ _ raw'); [by eapply IH|done].
Qed.

(** ** Witnesses and cases *)

Module LayerSamples.

Ltac sound := first
  [ apply wf_leaf; reflexivity
  | apply dv_leaf; reflexivity
  | apply wf_map; [apply (bool_decide_unpack _); vm_compute; exact I|intros ?k ?x ?H; repeat (apply elem_of_cons in H as [[= -> ->]|H]; [sound|]); by apply elem_of_nil in H]
  | apply dv_map; intros ?k ?x ?H; repeat (apply elem_of_cons in H as [[= -> ->]|H];
      [first [sound|apply (bool_decide_unpack _); vm_compute; exact I]|]); by apply elem_of_nil in H ].

Definition home : Mapping := [(bs "server", YMap [(bs "url", YScalar (bs "wss://a")); (bs "token", YScalar (bs "t"))])].
Definition local_file : Mapping := [(bs "server", YMap [(bs "url", YScalar (bs "wss://b"))])].

Lemma home_sound : sound_doc home.
Proof. split; unfold home; sound. Qed.
Lemma local_sound : sound_doc local_file.
Proof. split; unfold local_file; sound. Qed.

Lemma highest_layer_wins_witness :
  let '(doc, _, sources) := layered [(Home, home); (Local_, local_file)] [] in
  (at_path [bs "server"; bs "token"] (YMap doc) = Some (YScalar (bs "t"))
     ↔ ∃ layer, decides (all_docs [(Home, home); (Local_, local_file)] []) [bs "server"; bs "token"] (YScalar (bs "t")) layer)
  ∧ ∀ layer, decides (all_docs [(Home, home); (Local_, local_file)] []) [bs "server"; bs "token"] (YScalar (bs "t")) layer →
      aget (dotted [bs "server"; bs "token"]) sources = Some layer.
Proof.
  apply (highest_layer_wins [(Home, home); (Local_, local_file)] [] [bs "server"; bs "token"] (YScalar (bs "t"))).
  - apply Forall_cons; split; [apply home_sound|]. apply Forall_cons; split; [apply local_sound|]. apply Forall_nil; exact I.
  - constructor.
  - discriminate.
  - apply (bool_decide_unpack _). vm_compute. exact I.
  - discriminate.
  - reflexivity.
Defined.

(** The token of the home file and the address of the local one, each with its layer. *)
Example two_files :
  let '(doc, _, sources) := layered [(Home, home); (Local_, local_file)] [] in
  (at_path [bs "server"; bs "url"] (YMap doc), at_path [bs "server"; bs "token"] (YMap doc)) = (Some (YScalar (bs "wss://b")), Some (YScalar (bs "t")))
  ∧ sources = [(bs "server.url", Local_); (bs "server.token", Home)].
Proof. vm_compute. auto. Qed.

Definition services_doc : Mapping :=
  [(bs "defaults", YMap [(bs "timeout", YInt 30); (bs "cache", YBool true)]); (bs "services", YMap [(bs "web", YMap [(bs "timeout", YInt 5)])])].

Lemma service_over_defaults_witness :
  at_path [bs "services"; bs "web"; bs "timeout"] (YMap (settle_doc services_doc)) = Some (YInt 5)
  ∧ at_path [bs "services"; bs "web"; bs "cache"] (YMap (settle_doc services_doc)) = Some (YBool true).
Proof.
  split; [vm_compute; reflexivity|].
  exact (service_over_defaults services_doc [(bs "web", YMap [(bs "timeout", YInt 5)])] (bs "web") [(bs "timeout", YInt 5)] [bs "cache"] eq_refl eq_refl ltac:(sound)).
Defined.

Lemma set_then_read_witness : at_path [bs "a"; bs "b"] (YMap (set_path [(bs "a", YNull)] [bs "a"; bs "b"] (YInt 1))) = Some (YInt 1).
Proof. exact (proj1 (set_then_read [(bs "a", YNull)] [bs "a"; bs "b"] (YInt 1) ltac:(discriminate))). Defined.

Definition timeout : EnvSetting := {| es_var := bs "APERIO_TIMEOUT"; es_path := bs "timeout"; es_scope := SDefaults; es_types := [bs "integer"; bs "string"] |}.
Definition table : list EnvSetting := [timeout].
Definition lookup (name : str) : option str := if str_eqb name (bs "APERIO_TIMEOUT") then Some (bs " 30s ") else None.

Lemma environment_is_read_witness : ∃ v, parse_env_value (fun _ => None) (fun _ => None) [bs "integer"; bs "string"] (bs " 30s ") = Ok v.
Proof.
  refine (proj2 (environment_is_read (fun _ => None) (fun _ => None) [bs "APERIO_URL"] table lookup
    {| ov_file := [(bs "defaults", YMap [(bs "timeout", YScalar (bs "30s"))])]; ov_service := [] |} _) timeout (bs " 30s ") _ _).
  - vm_compute. reflexivity.
  - apply list_elem_of_singleton. reflexivity.
  - reflexivity.
Defined.

Example env_names : env_var (bs "server.url") = bs "APERIO_SERVER_URL" ∧ env_var (bs "log_level") = bs "LOG_LEVEL".
Proof. vm_compute. auto. Qed.

End LayerSamples.
