(* ===== verification/Explain.v ===== *)
(** The dry run of a request, [aperio-server/src/api/explain.rs]: the decisions the
    proxy would make for a hostname and a path, in the order the report gives them, which
    of them answers, and the clients that would or would not serve it, as far as the
    caller may be told about them.

    A step carries the message it names and the values beside it; the sentences, the
    setting a step points at, the numbers of the rate limits and the name of a deny rule
    are left out. Whether a window of maintenance runs, the load of the
    server and what the stores hold are part of the state. *)

From S2P Require Import Prelude Binds IpNet ClientIp Orgs VisitorAuth Clients Canary Select Route SiteRules Sites RateLimit Grants Users Sessions Share Gate Limits Exchange Dispatch Forward.

Inductive StepVerdict : Type := Decides | Passes | Skipped.

#[export] Instance StepVerdict_eq : EqDecision StepVerdict.
Proof. solve_decision. Defined.

(** A connection of the report, and a line of it: what is called so, how many there are,
    and which. *)
Record Conn : Type := { cn_id : str; cn_name : option str; cn_org : option str }.
Record Named : Type := { nm_label : option str; nm_count : nat; nm_ids : list str }.

Inductive params : Type :=
| NoParams
| PCount (n : Z)
| PMaintenance (actor : str) (reason : option str) (until : option Z)
| PAnswer (status : Z) (location : option str)
| PMethods (methods : option str)
| PClients (count : nat) (clients : list Named)
| PIneligible (count : nat) (clients : list (Named * option str))
| PSlots (in_flight max : Z)
| PRedirect (status : Z) (url : str)
| PBody (effective server : Z) (service : option Z)
| PMethod (method : str).

Record Step : Type := { sp_stage : str; sp_verdict : StepVerdict; sp_code : str; sp_params : params }.

(** The answer: the stage that decides, its message and its values. *)
Record Decided : Type := { dc_stage : str; dc_code : str; dc_params : params }.

(** What a stage adds to the report. *)
Record Stage : Type := { sg_steps : list Step; sg_decided : option Decided }.

Definition note (stage : string) (v : StepVerdict) (code : string) (p : params) : Stage :=
  {| sg_steps := [{| sp_stage := bs stage; sp_verdict := v; sp_code := bs code; sp_params := p |}]; sg_decided := None |}.
Definition decide_at (stage code : string) (p : params) : Stage :=
  {| sg_steps := [{| sp_stage := bs stage; sp_verdict := Decides; sp_code := bs code; sp_params := p |}];
     sg_decided := Some {| dc_stage := bs stage; dc_code := bs code; dc_params := p |} |}.
Definition nothing : Stage := {| sg_steps := []; sg_decided := None |}.

(** ** The question *)

Definition split_target (raw : str) : str * option str :=
  let trimmed := trim raw in
  let without_scheme := match strip_prefix (bs "https://") trimmed with
                        | Some s => s
                        | None => default trimmed (strip_prefix (bs "http://") trimmed)
                        end in
  match split_once slash without_scheme with
  | Some (host, path) => (host, Some (hd [] (split_on "?"%char (slash :: path))))
  | None => (without_scheme, None)
  end.

Definition asked_path (written from_url : option str) : str :=
  match trim <$> match written with Some p => Some p | None => from_url end with
  | Some p => if starts_with [slash] p then p else [slash]
  | None => [slash]
  end.

Definition upper_char (a : ascii) : ascii := if (97 <=? code a) && (code a <=? 122) then chr (code a - 32) else a.
Definition asked_method (written : option str) : str := upper_char <$> trim (default (bs "GET") written).

(** ** Who may be named *)

Section Report.
Context (org_names : list (str * str)).

Definition org_label (org : option str) : str :=
  default (bs "master") (match org with Some id => aget id org_names | None => None end).

Definition may_name (viewer : option str) (c : Conn) : bool := bool_decide (viewer = None) || bool_decide (viewer = cn_org c).

Definition label_of (viewer : option str) (c : Conn) : option str :=
  if may_name viewer c then Some (org_label (cn_org c) ++ bs "@" ++ default (cn_id c) (cn_name c)) else None.

Definition ids_of (viewer : option str) (c : Conn) : list str := if may_name viewer c then [cn_id c] else [].

(** One connection counted in, into the line with its label or a new one. *)
Fixpoint count_in (label : option str) (ids : list str) (out : list Named) : list Named :=
  match out with
  | [] => [{| nm_label := label; nm_count := 1; nm_ids := ids |}]
  | n :: rest => if bool_decide (nm_label n = label) then {| nm_label := nm_label n; nm_count := S (nm_count n); nm_ids := nm_ids n ++ ids |} :: rest
                 else n :: count_in label ids rest
  end.

Definition group (viewer : option str) (entries : list Conn) : list Named :=
  fold_left (fun out c => count_in (label_of viewer c) (ids_of viewer c) out) entries [].

(** The same, with the reason a connection is out: none for a stranger's. *)
Fixpoint count_out (label : option str) (ids : list str) (reason : option str) (out : list (Named * option str)) : list (Named * option str) :=
  match out with
  | [] => [({| nm_label := label; nm_count := 1; nm_ids := ids |}, reason)]
  | (n, r) :: rest =>
      if bool_decide (nm_label n = label) && bool_decide (r = reason)
      then ({| nm_label := nm_label n; nm_count := S (nm_count n); nm_ids := nm_ids n ++ ids |}, r) :: rest
      else (n, r) :: count_out label ids reason rest
  end.

Definition group_out (viewer : option str) (entries : list (Conn * str)) : list (Named * option str) :=
  fold_left (fun out cw => count_out (label_of viewer cw.1) (ids_of viewer cw.1) (if may_name viewer cw.1 then Some cw.2 else None) out) entries [].

(** ** The stages *)

Context {F Regex Tz : Type} (is_match : Regex → str → bool) (status_ok : Z → bool).

Record ExplainState : Type := {
  ex_cfg : ProxyConfig;
  ex_gate : GateState F Regex Tz;
  ex_denied_ips : nat;
  (** The window that runs for the hostname, and the flags raised. *)
  ex_window : option (option str * Z);
  ex_flags : list (str * MaintenanceFlag);
  ex_now_secs : Z;
  ex_in_flight : Z;
  ex_max_concurrent : Z;
  (** Autoscaling records: hostname and path. *)
  ex_scaling : list (str * option str);
  ex_orgs : list org_record;
  ex_month : option Z;
}.

Context (st : ExplainState) (now : Z) (viewer : option str) (server_admin : bool) (hostname path method : str).

Definition ex_sites : list (Site F Regex Tz) := g_sites (ex_gate st).
Definition ex_route : route_state := g_route (ex_gate st).

Definition stage_denied_ips : Stage :=
  if (ex_denied_ips st =? 0)%nat then note "denied_ips" Skipped "denied_ips.none" NoParams
  else note "denied_ips" Passes "denied_ips.configured" (PCount (Z.of_nat (ex_denied_ips st))).

Definition stage_maintenance : Stage :=
  match maintenance_for (ex_window st) (ex_flags st) (ex_now_secs st) (Some hostname) with
  | Some flag =>
      let p := PMaintenance (mf_actor flag) (mf_reason flag) (mf_until flag) in
      match mf_reason flag, mf_until flag with
      | Some _, Some _ => decide_at "maintenance" "maintenance.flagged_reason_until" p
      | Some _, None => decide_at "maintenance" "maintenance.flagged_reason" p
      | None, Some _ => decide_at "maintenance" "maintenance.flagged_until" p
      | None, None => decide_at "maintenance" "maintenance.flagged" p
      end
  | None => note "maintenance" Passes "maintenance.none" NoParams
  end.

Definition own_answer : option Response := site_answer status_ok (forallb header_char_ok) ex_sites (Some hostname) path None.

Definition stage_static : Stage :=
  if bool_decide (length ex_sites = 0%nat) then note "static_route" Skipped "static_route.none_configured" NoParams
  else match own_answer with
       | Some answer =>
           let target := header_str (bs "location") (rsp_headers answer) in
           let p := PAnswer (rsp_status answer) target in
           match target with
           | Some _ => decide_at "static_route" "static_route.answers_location" p
           | None => decide_at "static_route" "static_route.answers" p
           end
       | None => note "static_route" Passes "static_route.no_match" NoParams
       end.

Definition noindex : bool :=
  preview_noindex (ex_cfg st) && str_eqb path (bs "/robots.txt")
  && match random_subdomain_suffix (ex_cfg st) with Some pattern => host_matches_random_pattern hostname pattern | None => false end.

Definition stage_noindex : Stage := if noindex then decide_at "preview_noindex" "preview_noindex.robots" NoParams else nothing.

Definition stage_waf : Stage :=
  if negb (has_waf ex_sites) then note "waf" Skipped "waf.none_configured" NoParams
  else match waf_deny is_match ex_sites (Some hostname) method path [] with
       | Some _ => decide_at "waf" "waf.denied" NoParams
       | None => note "waf" Passes "waf.no_match" NoParams
       end.

Definition stage_rate : Stage :=
  match rate_limit_for ex_sites (Some hostname) path None with
  | Some rule => match l_methods rule with
                 | Some ms => note "route_rate_limit" Passes "route_rate_limit.covered_methods" (PMethods (Some (join [slash] ms)))
                 | None => note "route_rate_limit" Passes "route_rate_limit.covered" (PMethods None)
                 end
  | None => note "route_rate_limit" Skipped "route_rate_limit.none" NoParams
  end.

Definition stage_ip_rate : Stage := note "rate_limit_ip" Passes "rate_limit_ip.configured" NoParams.

Definition stage_gate : Stage :=
  let client_gate := host_has_visitor_auth ex_route (Some hostname) in
  let server_gate := gates (g_policy (ex_gate st)) in
  let client_aperio := match route_visitor_policy ex_route now path (Some hostname) with Some p => has_aperio p | None => false end in
  match access_for ex_sites (Some hostname) path with
  | Some SitePublic => note "visitor_gate" Passes "visitor_gate.site_public" NoParams
  | Some (SiteGate _) => note "visitor_gate" Passes "visitor_gate.site" NoParams
  | None =>
      if client_gate || server_gate then
        if client_aperio then note "visitor_gate" Passes "visitor_gate.aperio_login" NoParams
        else if has_aperio (g_policy (ex_gate st)) && negb client_gate then note "visitor_gate" Passes "visitor_gate.aperio_login" NoParams
        else if client_gate then note "visitor_gate" Passes "visitor_gate.client_password" NoParams
        else if has_sso (g_policy (ex_gate st)) then note "visitor_gate" Passes "visitor_gate.sso" NoParams
        else note "visitor_gate" Passes "visitor_gate.server_password" NoParams
      else if g_deny (ex_gate st) && negb (route_is_public ex_route now path (Some hostname)) && route_exists ex_route now path (Some hostname) None
      then decide_at "visitor_gate" "visitor_gate.undeclared" NoParams
      else note "visitor_gate" Skipped "visitor_gate.open" NoParams
  end.

Definition stage_concurrency : Stage :=
  if server_admin then note "server_concurrency" Passes "server_concurrency.headroom" (PSlots (ex_in_flight st) (ex_max_concurrent st))
  else note "server_concurrency" Passes "server_concurrency.ceiling" (PCount (ex_max_concurrent st)).

(** *** Routing *)

Definition pool_refs : list ServiceRef :=
  match select_client_pool (clients ex_route) path (Some hostname) now (client_down_threshold ex_route) with Some (ids, _) => ids | None => [] end.

Definition conn_of (r : ServiceRef) : Conn :=
  {| cn_id := client r; cn_name := ref_get r (clients ex_route) ≫= display_name;
     cn_org := ref_connection r (clients ex_route) ≫= fun c => org_id (perms c) |}.

Definition pool_conns : list Conn := conn_of <$> pool_refs.

(** Why a service that serves the hostname is not asked. *)
Definition why_not (c : ClientHandle) (s : ServiceState) : str :=
  if negb (admin_enabled s) then bs "ineligible.disabled"
  else if draining c then bs "ineligible.draining"
  else if negb (backend_healthy s) then bs "ineligible.backend_unhealthy"
  else if negb (is_healthy c now (client_down_threshold ex_route)) then bs "ineligible.missed_heartbeats"
  else if is_some (policy_conflict s) then bs "ineligible.policy_conflict"
  else if is_some (server_side_refused s) then bs "ineligible.server_side_refused"
  else bs "ineligible.path_mismatch".

Definition left_out (idc : str * ClientHandle) : option (Conn * str) :=
  if existsb (fun p => str_eqb (cn_id p) idc.1) pool_conns then None
  else (fun s => ({| cn_id := idc.1; cn_name := display_name s; cn_org := org_id (perms idc.2) |}, why_not idc.2 s))
       <$> find (fun s => matches_host s hostname) (services idc.2).

Definition ineligible : list (Conn * str) := omap left_out (clients ex_route).

Definition stage_routing : Stage :=
  match pool_conns with
  | _ :: _ =>
      let clients := group viewer pool_conns in
      {| sg_steps := sg_steps (note "routing" Passes "routing.candidates" (PClients (length pool_conns) clients));
         sg_decided := Some {| dc_stage := bs "client"; dc_code := bs "client.reached"; dc_params := PClients (length pool_conns) clients |} |}
  | [] =>
      match ineligible with
      | [] => note "routing" Passes "routing.none" (PIneligible 0 [])
      | out => note "routing" Passes "routing.none_ineligible" (PIneligible (length out) (group_out viewer out))
      end
  end.

Definition armed : bool :=
  existsb (fun r => str_eqb r.1 hostname && match r.2 with None => true | Some p => starts_with p path end) (ex_scaling st).

Definition stage_cold_start : Stage :=
  match pool_conns with
  | _ :: _ => nothing
  | [] => if scaling_enabled (ex_cfg st) && armed then note "cold_start" Passes "cold_start.armed" NoParams else nothing
  end.

Definition stage_fallback : Stage :=
  match pool_conns with
  | _ :: _ => nothing
  | [] => match fallback_for ex_sites (Some hostname) with
          | Some rule => decide_at "fallback" "fallback.redirect" (PRedirect (redirect_status rule) (rd_url rule))
          | None => decide_at "no_client" "no_client.504" NoParams
          end
  end.

(** *** Who serves, and the quotas *)

(** The service whose limits are reported. *)
Definition serving_limits : option ServiceState :=
  match pool_conns with
  | p :: _ => match aget (cn_id p) (clients ex_route) with
              | Some c => find (fun s => matches_host s hostname) (services c)
              | None => None
              end
  | [] => None
  end.

Definition stage_serving : Stage :=
  match serving_limits with
  | None => nothing
  | Some s =>
      {| sg_steps :=
           (match allowed_ips s with [] => [] | _ => sg_steps (note "allowed_ips" Passes "allowed_ips.restricted" NoParams) end)
           ++ sg_steps (note "body_limit" Passes "body_limit.effective" (PBody (effective_body_limit (max_body_size (ex_cfg st)) (max_request_body s)) (max_body_size (ex_cfg st)) (max_request_body s)))
           ++ sg_steps match max_concurrent s with
                       | Some max => note "client_concurrency" Passes "client_concurrency.declared" (PCount max)
                       | None => note "client_concurrency" Skipped "client_concurrency.unlimited" NoParams
                       end
           ++ sg_steps (if negb (cache_enabled (ex_cfg st)) then note "cache" Skipped "cache.off" NoParams
                        else if negb (cache s) then note "cache" Skipped "cache.not_opted_in" NoParams
                        else if negb (str_eqb method (bs "GET")) then note "cache" Skipped "cache.method" (PMethod method)
                        else note "cache" Passes "cache.eligible" NoParams);
         sg_decided := None |}
  end.

Definition stage_quotas : Stage :=
  {| sg_steps := sg_steps (note "token_quota" Skipped "token_quota.depends_on_token" NoParams) ++ sg_steps (note "token_quota" Skipped "token_quota.daily" NoParams);
     sg_decided := None |}.

Definition stage_org_quota : Stage :=
  match viewer with
  | Some _ => if org_over_month_bytes (ex_orgs st) (ex_month st) viewer then decide_at "org_quota" "org_quota.exhausted" NoParams
              else note "org_quota" Passes "org_quota.within" NoParams
  | None => note "org_quota" Skipped "org_quota.master" NoParams
  end.

Definition stage_streams : Stage :=
  if max_streams_per_ip (ex_cfg st) =? 0 then note "streams_per_ip" Skipped "streams_per_ip.unlimited" NoParams
  else note "streams_per_ip" Passes "streams_per_ip.capped" (PCount (max_streams_per_ip (ex_cfg st))).

(** ** The report *)

Definition stages : list Stage :=
  [stage_denied_ips; stage_maintenance; stage_static; stage_noindex; stage_waf; stage_rate; stage_ip_rate; stage_gate; stage_concurrency;
   stage_routing; stage_cold_start; stage_fallback; stage_serving; stage_quotas; stage_org_quota; stage_streams].

(** The first stage that decides; a request nothing answers reaches a client. *)
Definition outcome : Decided :=
  default {| dc_stage := bs "client"; dc_code := bs "client.reached"; dc_params := NoParams |} (find_map sg_decided stages).

Definition steps : list Step := stages ≫= sg_steps.

End Report.

Arguments ExplainState F Regex Tz : clear implicits.

Record Explanation : Type := { xp_hostname : str; xp_path : str; xp_method : str; xp_outcome : Decided; xp_steps : list Step }.

(** [role] is the caller's, [may_claim] whether its organization may claim a hostname. *)
Definition explain_handler {F Regex Tz} (org_names : list (str * str)) (is_match : Regex → str → bool) (status_ok : Z → bool)
    (st : str → ExplainState F Regex Tz) (now : Z) (role : option Role) (viewer : option str) (server_admin : bool) (may_claim : str → bool)
    (hostname : str) (path method : option str) : result Explanation Z :=
  match role with
  | None => Err 401
  | Some role =>
      if role_rank role <? role_rank Operator then Err 403
      else
        let '(raw_host, from_url) := split_target hostname in
        match normalize_hostname_bind raw_host with
        | None => Err 400
        | Some host =>
            let p := asked_path path from_url in
            let m := asked_method method in
            if negb (may_claim host) then Err 403
            else Ok {| xp_hostname := host; xp_path := p; xp_method := m;
                       xp_outcome := outcome org_names is_match status_ok (st host) now viewer server_admin host p m;
                       xp_steps := steps org_names is_match status_ok (st host) now viewer server_admin host p m |}
        end
  end.

Lemma find_map_Some {A B} (f : A → option B) l b : find_map f l = Some b → ∃ a, a ∈ l ∧ f a = Some b.
Proof.
  induction l as [|a l IH]; simpl; [done|]. destruct (f a) eqn:E; [intros [= <-]; exists a; by split; [left|]|]. intros (x & Hx & Hf)%IH. exists x. by split; [right|].
Qed.

(** A host without a gated service has no route with a password. *)
Lemma host_ungated_route st now u h c :
  NoDup (keys (clients st)) → host_has_visitor_auth st (Some h) = false → route_visitor_auth st now u (Some h) = Some c → False.
Proof.
  intros Hnd Hh Hr. apply route_declared_spec in Hr as [_ (key & [Hk _] & (r & Hr) & Hall)]; [|done]. destruct Hr as (s & Hin & He).
  assert (Hc : visitor_auth s = Some c) by (apply (Hall r); [by exists s|exact (in_route_get _ _ _ _ _ _ Hin)]).
  destruct Hin as [[(cl & Hcl & Hsvc & _) Hm] _].
  unfold host_has_visitor_auth in Hh. apply existsb_false in Hh. rewrite Forall_forall in Hh. specialize (Hh _ (aget_Some_elem _ _ _ Hcl)). simpl in Hh.
  apply existsb_false in Hh. rewrite Forall_forall in Hh. specialize (Hh _ (list_elem_of_lookup_2 _ _ _ Hsvc)).
  unfold declares_gate in Hh. rewrite Hc in Hh. cbn [is_some orb andb] in Hh. apply orb_false_iff in Hh as [Hh1 Hh2].
  destruct key as [[k|] pk]; cbn [fst] in *; [|by rewrite Hm in Hh2]. destruct Hk as [[= ->] _]. by rewrite Hm in Hh1.
Qed.

Lemma find_map_app {A B} (f : A → option B) l l' : find_map f (l ++ l') = match find_map f l with Some b => Some b | None => find_map f l' end.
Proof. induction l as [|a l IH]; simpl; [done|]. by destruct (f a). Qed.

(** ** What a tenant learns *)

(** A line names only connections of the caller's organization, by name and by id; what
    is not named is only counted. *)
Definition line_fenced (own : str → Prop) (n : Named) : Prop :=
  (nm_label n = None → nm_ids n = []) ∧ Forall own (nm_ids n) ∧ (is_Some (nm_label n) → nm_ids n ≠ []).

Lemma count_in_fenced own label ids out : Forall (line_fenced own) out → Forall own ids → (label = None ↔ ids = []) →
  Forall (line_fenced own) (count_in label ids out).
Proof.
  intros Hout Hids Hl. assert (Hone : line_fenced own {| nm_label := label; nm_count := 1; nm_ids := ids |}).
  { split_and!; simpl; [tauto|done|]. intros [x ->] E. by apply Hl in E. }
  induction Hout as [|n out Hn Hout IH]; simpl; [by apply Forall_singleton|]. case_bool_decide as Hb; constructor; try done. destruct Hn as (H1 & H2 & H3).
  split_and!; simpl.
  - intros E. rewrite H1 by done. rewrite E in Hb. symmetry in Hb. by apply Hl in Hb as ->.
  - by apply Forall_app.
  - intros Hs E. apply app_eq_nil in E as [E _]. by apply H3 in Hs.
Qed.

Lemma may_name_tenant org c : may_name (Some org) c = true ↔ cn_org c = Some org.
Proof. unfold may_name. rewrite orb_true_iff, !bool_decide_eq_true. naive_solver. Qed.

Section Fence.
Context (org_names : list (str * str)) (org : str) (own : str → Prop).

Lemma one_fenced (c : Conn) : (cn_org c = Some org → own (cn_id c)) →
  Forall own (ids_of (Some org) c) ∧ (label_of org_names (Some org) c = None ↔ ids_of (Some org) c = []).
Proof using Type.
  intros Ho. unfold ids_of, label_of. destruct (may_name (Some org) c) eqn:Em; [|by split]. apply may_name_tenant in Em. split; [apply Forall_singleton; by apply Ho|done].
Qed.

Lemma group_fenced entries : (∀ c, c ∈ entries → cn_org c = Some org → own (cn_id c)) → Forall (line_fenced own) (group org_names (Some org) entries).
Proof using Type.
  intros Hall. unfold group. assert (H : ∀ out, Forall (line_fenced own) out →
    Forall (line_fenced own) (fold_left (fun out c => count_in (label_of org_names (Some org) c) (ids_of (Some org) c) out) entries out)); [|by apply H].
  induction entries as [|c entries IH]; intros out Hout; [done|]. cbn [fold_left]. apply IH; [intros x Hx; apply Hall; by right|].
  destruct (one_fenced c) as [H1 H2]; [apply Hall; by left|]. by apply count_in_fenced.
Qed.

(** With the reasons: a stranger's connection has none. *)
Definition reason_fenced (nr : Named * option str) : Prop := line_fenced own nr.1 ∧ (nm_label nr.1 = None → nr.2 = None).

Lemma count_out_fenced label ids reason out : Forall reason_fenced out → Forall own ids → (label = None ↔ ids = []) → (label = None → reason = None) →
  Forall reason_fenced (count_out label ids reason out).
Proof using Type.
  intros Hout Hids Hl Hr. assert (Hone : line_fenced own {| nm_label := label; nm_count := 1; nm_ids := ids |}).
  { split_and!; simpl; [tauto|done|]. intros [x ->] E. by apply Hl in E. }
  induction Hout as [|[n r] out Hn Hout IH]; simpl; [by apply Forall_singleton|]. destruct (_ && _) eqn:Eb; constructor; try done.
  apply andb_true_iff in Eb as [E1%bool_decide_eq_true E2%bool_decide_eq_true]. destruct Hn as [Hn Hrn]. split; [|done].
  pose proof (count_in_fenced own label ids [n] ltac:(by apply Forall_singleton) Hids Hl) as H. simpl in H. rewrite bool_decide_true in H by done. by inversion H.
Qed.

Lemma group_out_fenced entries : (∀ cw, cw ∈ entries → cn_org cw.1 = Some org → own (cn_id cw.1)) → Forall reason_fenced (group_out org_names (Some org) entries).
Proof using Type.
  intros Hall. unfold group_out. assert (H : ∀ out, Forall reason_fenced out → Forall reason_fenced (fold_left (fun out cw =>
    count_out (label_of org_names (Some org) cw.1) (ids_of (Some org) cw.1) (if may_name (Some org) cw.1 then Some cw.2 else None) out) entries out)); [|by apply H].
  induction entries as [|cw entries IH]; intros out Hout; [done|]. cbn [fold_left]. apply IH; [intros x Hx; apply Hall; by right|].
  destruct (one_fenced cw.1) as [H1 H2]; [apply Hall; by left|]. apply count_out_fenced; [done..|]. unfold label_of. by destruct (may_name (Some org) cw.1).
Qed.

(** What a step may carry. *)
Definition params_fenced (p : params) : Prop :=
  match p with
  | PClients _ l => Forall (line_fenced own) l
  | PIneligible _ l => Forall reason_fenced l
  | _ => True
  end.

Definition stage_fenced (g : Stage) : Prop :=
  Forall (fun s => params_fenced (sp_params s)) (sg_steps g) ∧ match sg_decided g with Some d => params_fenced (dc_params d) | None => True end.

End Fence.

(** ** Reports *)

Section ExplainFacts.
Context {F Regex Tz : Type} (org_names : list (str * str)) (is_match : Regex → str → bool) (status_ok : Z → bool).
Context (st : ExplainState F Regex Tz) (now : Z) (server_admin : bool) (hostname path method : str).

(** The connection is one of the organization's own. *)
Definition owned (org : str) (id : str) : Prop := ∃ c, (id, c) ∈ clients (ex_route st) ∧ org_id (perms c) = Some org.

Lemma routing_fenced org : stage_fenced (owned org) (stage_routing org_names st now (Some org) hostname path).
Proof using Type.
  unfold stage_routing. destruct (pool_conns st now hostname path) as [|c0 rest] eqn:Ep.
  - assert (H : Forall (reason_fenced (owned org)) (group_out org_names (Some org) (ineligible st now hostname path))).
    { apply group_out_fenced. intros [c w] Hin Ho. unfold ineligible in Hin. apply list_elem_of_omap in Hin as ([id h] & Hin & Hx). unfold left_out in Hx.
      destruct (existsb _ _); [done|]. apply fmap_Some in Hx as (s & _ & [= -> _]). simpl in *. by exists h. }
    destruct (ineligible _ _ _ _) as [|o out]; (split; [|done]); apply Forall_singleton; [constructor|exact H].
  - rewrite <-Ep. assert (H : Forall (line_fenced (owned org)) (group org_names (Some org) (pool_conns st now hostname path))).
    { apply group_fenced. intros c Hin Ho. unfold pool_conns in Hin. apply list_elem_of_fmap in Hin as (r & -> & Hr). unfold conn_of in *. cbn [cn_org cn_id] in *.
      apply bind_Some in Ho as (h & Hc & Ho). exists h. split; [|done]. unfold ref_connection in Hc. by apply aget_Some_elem in Hc. }
    split; [apply Forall_singleton|]; exact H.
Qed.
(** Every other stage carries nothing of a client's. *)
Lemma stages_fenced org g : g ∈ stages org_names is_match status_ok st now (Some org) server_admin hostname path method → stage_fenced (owned org) g.
Proof using Type.
  assert (Hn : ∀ stage v code p, params_fenced (owned org) p → stage_fenced (owned org) (note stage v code p)) by (intros; split; [by apply Forall_singleton|done]).
  assert (Hd : ∀ stage code p, params_fenced (owned org) p → stage_fenced (owned org) (decide_at stage code p)) by (intros; split; [by apply Forall_singleton|done]).
  assert (H0 : stage_fenced (owned org) nothing) by (split; [constructor|done]).
  unfold stages. rewrite !elem_of_cons, elem_of_nil. intros Hg.
  destruct Hg as [->|[->|[->|[->|[->|[->|[->|[->|[->|[->|[->|[->|[->|[->|[->|[->|[]]]]]]]]]]]]]]]]].
  - unfold stage_denied_ips. case_match; by apply Hn.
  - unfold stage_maintenance. repeat case_match; first [by apply Hn|by apply Hd].
  - unfold stage_static. cbv zeta. repeat case_match; first [by apply Hn|by apply Hd].
  - unfold stage_noindex. case_match; [by apply Hd|done].
  - unfold stage_waf. repeat case_match; first [by apply Hn|by apply Hd].
  - unfold stage_rate. repeat case_match; by apply Hn.
  - by apply Hn.
  - unfold stage_gate. cbv zeta. repeat case_match; first [by apply Hn|by apply Hd].
  - unfold stage_concurrency. case_match; by apply Hn.
  - apply routing_fenced.
  - unfold stage_cold_start. repeat case_match; first [done|by apply Hn].
  - unfold stage_fallback. repeat case_match; first [done|by apply Hd].
  - unfold stage_serving. case_match; [|done]. split; [|done]. cbn [sg_steps]. rewrite !Forall_app.
    split_and!; repeat case_match; first [constructor; fail|by apply Forall_singleton|constructor].
  - split; [by repeat constructor|done].
  - unfold stage_org_quota. repeat case_match; first [by apply Hn|by apply Hd].
  - unfold stage_streams. case_match; by apply Hn.
Qed.

(** A tenant that asks about a hostname is told of no connection but its own: every name,
    id and reason in the report belongs to its organization, whoever else serves the
    hostname. *)
Theorem report_fenced org :
  Forall (fun s => params_fenced (owned org) (sp_params s)) (steps org_names is_match status_ok st now (Some org) server_admin hostname path method)
  ∧ params_fenced (owned org) (dc_params (outcome org_names is_match status_ok st now (Some org) server_admin hostname path method)).
Proof using Type.
  split.
  - unfold steps. apply Forall_forall. intros s Hs. apply list_elem_of_bind in Hs as (g & Hs & Hg). apply stages_fenced in Hg as [Hg _]. rewrite Forall_forall in Hg. by apply Hg.
  - unfold outcome. destruct (find_map _ _) as [d|] eqn:Ed; [|done]. cbn [default]. apply find_map_Some in Ed as (g & Hg & Hd). apply stages_fenced in Hg as [_ Hg].
    by rewrite Hd in Hg.
Qed.

(** ** The report and the proxy *)

(** The status an early stage announces. *)
Definition early_status (d : Decided) : option Z :=
  if str_eqb (dc_stage d) (bs "maintenance") then Some 503
  else if str_eqb (dc_stage d) (bs "static_route") then match dc_params d with PAnswer status _ => Some status | _ => None end
  else if str_eqb (dc_stage d) (bs "preview_noindex") then Some 200
  else None.

Lemma later_stages_quiet viewer :
  early_status (default {| dc_stage := bs "client"; dc_code := bs "client.reached"; dc_params := NoParams |}
    (find_map sg_decided (drop 4 (stages org_names is_match status_ok st now viewer server_admin hostname path method)))) = None.
Proof using Type.
  destruct (find_map _ _) as [d|] eqn:Ed; [|reflexivity]. cbn [default]. apply find_map_Some in Ed as (g & Hg & Hd). unfold stages in Hg. cbn [drop] in Hg.
  rewrite !elem_of_cons, elem_of_nil in Hg. destruct Hg as [->|[->|[->|[->|[->|[->|[->|[->|[->|[->|[->|[->|[]]]]]]]]]]]]]; revert Hd.
  - unfold stage_waf. repeat case_match; by intros [= <-].
  - unfold stage_rate. repeat case_match; done.
  - done.
  - unfold stage_gate. cbv zeta. repeat case_match; by intros [= <-].
  - unfold stage_concurrency. by case_match.
  - unfold stage_routing. repeat case_match; by intros [= <-].
  - unfold stage_cold_start. by repeat case_match.
  - unfold stage_fallback. repeat case_match; by intros [= <-].
  - unfold stage_serving. by case_match.
  - done.
  - unfold stage_org_quota. repeat case_match; by intros [= <-].
  - unfold stage_streams. by case_match.
Qed.

(** Where the report says that maintenance, a site or the robots rule answers, the proxy
    answers, with that status; and where it does not, the proxy goes on to the gates. *)
Theorem early_answers_agree viewer rfc3339 en uri hs peer :
  extract_request_host (mirrored hs uri) = Some hostname → u_path uri = path → u_query uri = None →
  early_status (outcome org_names is_match status_ok st now viewer server_admin hostname path method) =
  match proxy_handler rfc3339 status_ok (ex_cfg st) en (ex_sites st) (ex_window st) (ex_flags st) false (ex_now_secs st) method uri hs peer with
  | AnswerNow r => Some (vr_status r)
  | _ => None
  end.
Proof using Type.
  intros Hh Hp Hq. unfold proxy_handler. cbv zeta. rewrite Hh, Hp, Hq.
  pose proof (later_stages_quiet viewer) as Hlater. unfold outcome. unfold stages in *. cbn [drop] in Hlater. cbn [find_map].
  assert (Hden : sg_decided (stage_denied_ips st) = None) by (unfold stage_denied_ips; by case_match). rewrite Hden.
  unfold stage_maintenance at 1. destruct (maintenance_for _ _ _ _) as [flag|].
  { destruct (mf_reason flag), (mf_until flag); cbn; unfold maintenance_response; by destruct (page_503 _ _). }
  cbn [note sg_decided]. fold (own_answer status_ok st hostname path).
  assert (Hst : sg_decided (stage_static status_ok st hostname path) =
    (fun a => {| dc_stage := bs "static_route";
                 dc_code := bs (if is_some (header_str (bs "location") (rsp_headers a)) then "static_route.answers_location" else "static_route.answers");
                 dc_params := PAnswer (rsp_status a) (header_str (bs "location") (rsp_headers a)) |}) <$> own_answer status_ok st hostname path).
  { unfold stage_static. case_bool_decide as Hs.
    - apply length_zero_iff_nil in Hs. unfold own_answer. by rewrite Hs.
    - destruct (own_answer _ _ _ _) as [a|]; [|done]. cbv zeta. cbn [fmap option_fmap option_map]. by destruct (header_str (bs "location") (rsp_headers a)). }
  rewrite Hst. destruct (own_answer _ _ _ _) as [a|]; [done|]. cbn [fmap option_fmap option_map].
  assert (Hno : noindex st hostname path = is_preview (ex_cfg st) (Some hostname) && str_eqb path (bs "/robots.txt")).
  { unfold noindex, is_preview. destruct (preview_noindex _), (str_eqb path _), (random_subdomain_suffix _); simpl; by rewrite ?andb_true_r, ?andb_false_r. }
  unfold stage_noindex at 1. rewrite Hno. destruct (is_preview _ _ && _); [done|]. rewrite andb_false_r. cbn [nothing sg_decided]. etrans; [exact Hlater|].
  by destruct (is_websocket_upgrade _ _).
Qed.

(** ** What decides *)

(** Routing settles every request: either a client is reached, or a fallback or the 504
    answers. So no stage after it is ever the outcome: the monthly quota of the
    organization is noted as deciding, and the report still says that the client is
    reached. *)
Theorem routing_is_last viewer :
  let d := outcome org_names is_match status_ok st now viewer server_admin hostname path method in
  find_map sg_decided (take 12 (stages org_names is_match status_ok st now viewer server_admin hostname path method)) = Some d
  ∧ (dc_code d = bs "client.reached" ↔
     pool_refs st now hostname path ≠ []
     ∧ find_map sg_decided (take 9 (stages org_names is_match status_ok st now viewer server_admin hostname path method)) = None).
Proof using Type.
  intros d. subst d. unfold outcome. set (all := stages _ _ _ _ _ _ _ _ _ _).
  assert (Hpre : ∀ d, find_map sg_decided (take 9 all) = Some d → dc_code d ≠ bs "client.reached").
  { intros d (g & Hg & Hd)%find_map_Some. revert Hd. unfold all, stages in Hg. cbn [take] in Hg. rewrite !elem_of_cons, elem_of_nil in Hg.
    destruct Hg as [->|[->|[->|[->|[->|[->|[->|[->|[->|[]]]]]]]]]].
    - unfold stage_denied_ips. by case_match.
    - unfold stage_maintenance. repeat case_match; by intros [= <-].
    - unfold stage_static. cbv zeta. repeat case_match; by intros [= <-].
    - unfold stage_noindex. case_match; by intros [= <-].
    - unfold stage_waf. repeat case_match; by intros [= <-].
    - unfold stage_rate. by repeat case_match.
    - done.
    - unfold stage_gate. cbv zeta. repeat case_match; by intros [= <-].
    - unfold stage_concurrency. by case_match. }
  assert (Hsplit : ∀ k, find_map sg_decided (take (9 + k) all) =
            match find_map sg_decided (take 9 all) with Some d => Some d | None => find_map sg_decided (take k (drop 9 all)) end).
  { intros k. by rewrite <- find_map_app. }
  assert (Hall : find_map sg_decided all = find_map sg_decided (take (9 + 7) all)) by (unfold all, stages; by cbn [take Nat.add]).
  rewrite Hall. change 12%nat with (9 + 3)%nat. rewrite !Hsplit. destruct (find_map sg_decided (take 9 all)) as [d|] eqn:E9.
  { split; [done|]. cbn [default]. split; [intros H; by apply Hpre in H|by intros [_ ?]]. }
  unfold all, stages. cbn [drop take find_map]. unfold stage_routing, stage_cold_start, stage_fallback, pool_conns.
  destruct (pool_refs st now hostname path) as [|r rs]; cbn [fmap list_fmap].
  - destruct (ineligible _ _ _ _), (scaling_enabled _ && _), (fallback_for _ _); cbn [note nothing decide_at sg_decided default id dc_code];
      (split; [done|]); (split; [done|]); by intros [].
  - cbn [sg_decided default id]. split; [done|by split].
Qed.

(** Where the report says that a route nothing declares is not published, the gate has
    nothing for a visitor either: only who holds a session passes. *)
Theorem undeclared_agrees uri :
  NoDup (keys (clients (ex_route st))) → u_path uri = path → request_path_has_traversal path = false →
  route_visitor_policy (ex_route st) now path (Some hostname) = None →
  is_Some (sg_decided (stage_gate st now hostname path)) → door (ex_gate st) now uri (Some hostname) = DUndeclared.
Proof using Type.
  intros Hnd Hu Ht Hp [d Hd]. unfold door. cbv zeta. rewrite Hu. fold (ex_sites st). unfold stage_gate in Hd. cbv zeta in Hd.
  destruct (access_for _ _ _) as [[|p]|]; [done..|]. rewrite Hp in *.
  destruct (host_has_visitor_auth _ _ || _) eqn:Eg; [repeat case_match; done|]. apply orb_false_iff in Eg as [Eh Eg].
  change (g_route (ex_gate st)) with (ex_route st). rewrite Hp.
  destruct (route_visitor_auth (ex_route st) now path (Some hostname)) as [c|] eqn:Ev.
  { exfalso. apply (host_ungated_route _ _ _ _ _ Hnd Eh Ev). }
  cbn [is_some]. destruct (g_deny (ex_gate st)) eqn:Edeny; [|done]. cbn [andb] in Hd. destruct (route_is_public _ _ _ _); [done|].
  rewrite Eg. unfold undeclared_door. by rewrite Edeny.
Qed.

End ExplainFacts.

(** ** Samples *)

Module ExplainSamples.
Import ExchangeSamples ForwardSamples.

Definition service (path : option str) (open : bool) (body : option Z) : ServiceState :=
  {| request_count := 0; declared_path := path; assigned_path := None; declared_hostname := Some (bs "acme.com");
     declared_hostnames := []; assigned_hostnames := []; random_hostname := None; max_concurrent := None;
     max_concurrent_ceiling := None; inflight_limiter := None; admin_enabled := true; server_side_target := None;
     server_side_refused := None; policy_conflict := None; catch_all := false; serves_http := true; route_noticed := false;
     capture := true; connections := None; connections_min := None; connections_max := None; config_notes := [];
     metrics_labels := []; tcp_enabled := false; backend_healthy := true; backend_probed := true; priority := 0;
     bandwidth_bps := 0; service_name := Some (bs "web"); service_custom_name := None; public := open;
     public_denied_warned := false; visitor_auth := None; visitor_auth_policy := None; visitor_auth_denied_warned := false;
     ungated_warned := false; allowed_ips := []; allowed_ips_invalid_warned := false; scaling_invalid_warned := false;
     tunnels := []; cache := false; cache_ignored_warned := false; notices_sent := []; resilience := false;
     max_request_body := body; response_timeout := None; webhook_inbox := false; denied := None; recent_failures := [];
     ejected_until := None |}.

Definition closed (g : GateState QArith_base.Q str unit) : GateState QArith_base.Q str unit :=
  {| g_auth := g_auth g; g_route := g_route g; g_sites := g_sites g; g_policy := g_policy g; g_deny := true; g_token := g_token g |}.

Definition asked (g : GateState QArith_base.Q str unit) (flags : list (str * MaintenanceFlag)) : ExplainState QArith_base.Q str unit :=
  {| ex_cfg := cfg; ex_gate := g; ex_denied_ips := 0; ex_window := None; ex_flags := flags; ex_now_secs := 5; ex_in_flight := 3;
     ex_max_concurrent := 100; ex_scaling := []; ex_orgs := [{| o_id := bs "acme"; o_max_clients := None; o_max_bytes_month := Some 10 |}];
     ex_month := Some 20 |}.

Definition flagged : list (str * MaintenanceFlag) :=
  [(bs "*", {| mf_org := None; mf_reason := None; mf_until := None; mf_since := 0; mf_actor := bs "ann" |})].

Definition report (st : ExplainState QArith_base.Q str unit) : Decided :=
  outcome [] (fun _ _ => false) (fun _ => true) st 10 (Some (bs "acme")) false (bs "acme.com") (bs "/") (bs "GET").
Definition report_steps (st : ExplainState QArith_base.Q str unit) : list (str * StepVerdict * str) :=
  (fun s => (sp_stage s, sp_verdict s, sp_code s)) <$> steps [] (fun _ _ => false) (fun _ => true) st 10 (Some (bs "acme")) false (bs "acme.com") (bs "/") (bs "GET").

Definition open_host : ExplainState QArith_base.Q str unit := asked (gate_state [] [] (table [(bs "c1", Select.sample_connection [service None true None])])) [].

Lemma early_answers_agree_witness : early_status (report (asked (gate_state [] [] Select.sample_state) flagged)) = Some 503.
Proof.
  unfold report. erewrite (early_answers_agree [] (fun _ _ => false) (fun _ => true) (asked (gate_state [] [] Select.sample_state) flagged) 10 false
    (bs "acme.com") (bs "/") (bs "GET") (Some (bs "acme")) (fun _ => [])
    {| en_trust_proxy := false; en_real_ip_header := None; en_trusted := []; en_dashboard := true |}
    {| u_authority := []; u_path := bs "/"; u_query := None |} [(bs "host", bs "acme.com")] (V4 1)); [vm_compute; reflexivity..].
Defined.

Lemma undeclared_agrees_witness :
  door (closed (gate_state [] [] (table [(bs "c1", Select.sample_connection [service None false None])]))) 10
    {| u_authority := []; u_path := bs "/"; u_query := None |} (Some (bs "acme.com")) = DUndeclared.
Proof.
  apply (undeclared_agrees (asked (closed (gate_state [] [] (table [(bs "c1", Select.sample_connection [service None false None])]))) []) 10
    (bs "acme.com") (bs "/") {| u_authority := []; u_path := bs "/"; u_query := None |}); try (vm_compute; reflexivity).
  - by apply (bool_decide_unpack _).
  - eexists. vm_compute. reflexivity.
Defined.

(** An organization over its monthly quota: the stage decides, the answer is that the
    client is reached. *)
Example quota_is_not_the_answer :
  (bs "org_quota", Decides, bs "org_quota.exhausted") ∈ report_steps open_host ∧ dc_code (report open_host) = bs "client.reached".
Proof. split; [apply (bool_decide_unpack _); vm_compute; exact I|vm_compute; reflexivity]. Qed.

(** A service declared public on a server with a gate of its own: visitors pass without
    signing in, the report says that they must. *)
Example public_reported_gated :
  let g := gate_state [MAperio] [] (table [(bs "c1", Select.sample_connection [service None true None])]) in
  door g 10 {| u_authority := []; u_path := bs "/"; u_query := None |} (Some (bs "acme.com")) = DOpen
  ∧ (bs "visitor_gate", Passes, bs "visitor_gate.aperio_login") ∈ report_steps (asked g []).
Proof. split; [vm_compute; reflexivity|apply (bool_decide_unpack _); vm_compute; exact I]. Qed.

(** A connection of two services on one hostname: the limits reported are those of the
    first, the request goes to the second. *)
Example limits_of_another_service :
  let st := asked (gate_state [] [] (table [(bs "c1", Select.sample_connection [service (Some (bs "/upload")) true (Some 10); service None true None])])) [] in
  pool_refs st 10 (bs "acme.com") (bs "/") = [{| client := bs "c1"; index := 1 |}]
  ∧ serving_limits st 10 (bs "acme.com") (bs "/") = Some (service (Some (bs "/upload")) true (Some 10)).
Proof. split; vm_compute; reflexivity. Qed.

End ExplainSamples.
